(* ===== verification/_CoqProject ===== *)
-Q . S2P
Prelude.v
JsNum.v
JsString.v
Scanner.v
JsNumber.v
JsJson.v
HexBytes.v
Abi.v
Crypto.v
Attestation.v
Bech32.v
Rlp.v
AllocatorActions.v
ToyRuntime.v
AllocatorProofs.v
HederaIds.v
HederaTx.v
TonCell.v
TonBoc.v
DepositBytes.v
DepositTypes.v
TonWallet.v
TonDeriver.v
DepositAttestation.v
DepositAction.v
BitcoinTx.v
BitcoinProofs.v
SolanaTx.v
EvmAddress.v
EvmTx.v
TronTx.v
HyperliquidTx.v
DepositDerivers.v
DerivationProofs.v
SdkAddress.v
SdkOrder.v
SdkProofs.v
IndexerWorld.v
IndexerTransfers.v
IndexerRoles.v
IndexerLanes.v
IndexerJobs.v
IndexerProofs.v
IndexerSystem.v
IndexerBalances.v
IndexerBatches.v
IndexerReplay.v
IndexerLiveness.v
IndexerTheorems.v
IndexerRanges.v
IndexerService.v
IndexerServiceProofs.v
IndexerAudit.v
IndexerAuditProofs.v
DepositoryAudit.v
DepositoryProofs.v
AbiSpec.v
SdkCodec.v
SdkCallProofs.v
SdkPayloads.v
SdkPayloadProofs.v
SdkWithdrawalProofs.v
IndexerTypes.v
SdkMessages.v
IndexerQueries.v
IndexerViews.v
TokenPrices.v
IndexerServer.v
IndexerPaging.v
IndexerServerProofs.v
MultisigManifest.v
MultisigRun.v
MultisigProofs.v
MultisigNonces.v
MultisigFamilies.v
MultisigFamilyProofs.v
LitBackend.v
LitSetup.v
LitProofs.v
LitSetupProofs.v
