(* ===== verification/Prelude.v ===== *)
(** * Relay settlement: a verification of its signing, indexing and tooling

    Relay settlement moves value between chains.  The packages of the monorepo
    that carry its own logic are modelled here (paths under src/packages/):

    - lit-allocator: the Lit Actions that sign withdrawals.  A request is ABI
      encoded and hashed, a quorum of oracles must have attested exactly the
      hashes to be signed, and each VM's entry point signs them with a key
      derived for that VM.
    - lit-deposit-address: the Lit Action behind deposit addresses.  Oracles
      attest a deposit, the solver signs the order and the request, a policy
      per VM inspects the sweep transaction, and the key of the deposit wallet
      signs it.
    - indexer: the process that follows the hub and oracle contracts into a
      database, with its retry and reconciliation jobs, the manual replay, the
      audits of coverage and of depository balances, the health status, token
      prices, and the HTTP server with its queries and views.
    - sdk, which the other packages share: address codecs, the hub's
      identifiers, order ids, Hedera identifiers, withdrawal payloads of every
      VM, withdraw requests, hub actions and funding-pool plans.
    - multisig-tools: manifests of governance transactions for EVM, Bitcoin,
      Solana and Tron chains, signed by a key of the MPC network, and their
      building, execution and nonce conflicts.
    - lit-helpers with the setup scripts of the two Lit packages: the backends
      that manage the account on the Lit network, and the idempotent setup of
      wallet, group, actions and usage key.

    The allocator and the deposit action receive what the SDK encodes; the
    indexer's replay jobs and audits are started from its server; the setup
    scripts install the bundled actions whose signing is verified here.

    ** How the code is modelled

    JavaScript strings are lists of UTF-16 code units (JsString), BigInts are
    Z, Numbers are Z where the code keeps them integral, with their 32-bit
    operators written out (JsNum), and a type of binary64 values where
    arbitrary strings are converted (JsNumber).  Byte arrays are lists of bytes.
    A thrown Error is [Err] with the constant part of its message.  Libraries
    (viem, noble curves and hashes, the WebCrypto and Lit hosts, @scure/base,
    @metamask/key-tree, TronWeb, ethers, Borsh, @ton/core,
    ripple-binary-codec, bitcoinjs-lib, web3.js, zod's address parsers,
    micro-eth-signer) and services (PostgreSQL's collation, Express's path
    matching, mempool.space, the MPC contract, the account contract and REST
    API of the Lit network) are type classes whose laws are stated as named
    hypotheses; every theorem that has such hypotheses has a witness on
    concrete instances (ToyRuntime and the modules at the ends of the files).  Loops that are not structural run
    on fuel; the bounds are listed below.

    The indexer runs against an explicit world (IndexerWorld): finite maps for
    the tables, a clock that counts external calls, and an environment that
    decides, call by call, whether a statement or an RPC fails, whether a
    failed statement was applied all the same, and what the chain answers.
    A theorem holds for every such environment unless it says otherwise.
    Transactions roll back; the commit is a statement of its own.  The multisig
    tools run against a network whose answers depend on the number of calls
    before (MultisigManifest), with a log of everything that is
    sent; the Lit backends against a world of the same kind (LitBackend).

    ** Files

    - Prelude, JsNum, JsString, JsNumber, JsJson, Scanner: results, big-endian
      numerals, machine-width operators, strings, Number(), JSON.parse and
      JSON.stringify, regular expressions.
    - HexBytes, Abi, Crypto, Attestation: lit-allocator/src/common (bytes.ts,
      abi.ts and types.ts, crypto.ts, attestation.ts).
    - Bech32 (with base-58), Rlp: codecs of bitcoin-vm.ts, xrp-vm.ts and
      lighter-vm.ts.  AllocatorActions, AllocatorProofs: the ten entry points
      of lit-allocator/src/vm.  ToyRuntime: a runtime for witnesses.
    - HederaIds, HederaTx: sdk/src/hedera-vm.ts.
    - TonCell, TonBoc, TonWallet, TonDeriver:
      lit-deposit-address common/ton and derivation/vm/ton.  DepositBytes,
      DepositTypes: common/bytes.ts, address/ton.ts, ed25519.ts,
      relay-sdk.ts, types.ts and derivation/path.ts.  BitcoinTx,
      BitcoinProofs: derivation/vm/bitcoin and address/bitcoin.ts.
    - SolanaTx, EvmAddress, EvmTx, TronTx, HyperliquidTx: the deposit
      policies and signers of derivation/vm/{solana,ethereum,tron,hyperliquid}
      with common/address/, common/tron/transaction.ts and common/eip712.ts.
    - DepositAttestation: attestation/index.ts.  DepositAction: vm/action.ts
      and derivation/vm/base/VmWalletDeriver.ts, proved against the record of
      operations that a VM provides.  DepositDerivers: common/address.ts and
      vm.ts, the base classes of derivation/vm/base, the six
      derivers and the registry derivation/index.ts as values of that record;
      DerivationProofs: public derivation and the action of each VM end to end.
    - SdkAddress, SdkOrder, SdkProofs: sdk/src/utils.ts, hub/hub-utils.ts,
      order/index.ts and messages/v2.3/deposit-address.ts, and the agreement
      of the action's copies in common/relay-sdk.ts with them.
    - AbiSpec: the ABI encoding as a specification, with its injectivity.
      SdkCodec, SdkCallProofs: the codec of a withdrawal, call requests and
      routed calls.  SdkPayloads: the ten VMs under
      sdk/src/messages/v2.1/withdrawals.  SdkPayloadProofs,
      SdkWithdrawalProofs: round trips and ids.  SdkMessages: v2.3/withdrawal.ts, v2.2/execution.ts and
      v2.3/funding-pool.ts.
    - IndexerWorld: tables, computations, a weakest-precondition logic and a
      logic of relations that every computation keeps.  IndexerTransfers,
      IndexerRoles, IndexerLanes, IndexerJobs, IndexerReplay: the operations
      of services/transferProcessor.ts, retry.ts, utils.ts, db/meta.ts;
      accessControlProcessor.ts, oracleExecutionProcessor.ts; indexer.ts;
      jobs/failedEventRetry.ts, jobs/reconciler.ts; transferReplay.ts.
      IndexerProofs (a lane accounts for its logs), IndexerSystem (polls,
      retries, reconciler runs and restarts as a step relation),
      IndexerBalances, IndexerBatches (balances follow the chain),
      IndexerLiveness (replays; enough fuel, returns when the
      environment cooperates), IndexerTheorems (statements and witnesses).
      IndexerRanges: replay suggestions of indexerAudit.ts.  IndexerService,
      IndexerServiceProofs: config.ts, auth.ts, runtimeState.ts, cache.ts,
      health.ts, transactionRequest.ts and transferReplayJobs.ts.
      IndexerAudit, IndexerAuditProofs: the rest of indexerAudit.ts with its
      tables, jobs/indexerAudit.ts and getHealthStatus.  DepositoryAudit,
      DepositoryProofs: depositoryBalanceAudit.ts and its job.
      IndexerTypes: every reachable state is well typed.
    - IndexerQueries (with ISO dates), IndexerViews: the files of
      indexer/src/queries; IndexerPaging: their pages and the view of
      transactions.  TokenPrices: services/tokenPrices.ts.  IndexerServer,
      IndexerServerProofs: server.ts.
    - MultisigManifest (with the EVM family), MultisigFamilies (Bitcoin,
      Solana, Tron): builders/utils.ts, crypto/near.ts,
      crypto/bitcoin.ts, helpers/wnear.ts and the executions of
      commands/execute-transactions.ts; MultisigRun: the run over a manifest;
      MultisigNonces: helpers/nonceConflicts.ts.  MultisigProofs,
      MultisigFamilyProofs: their properties.
    - LitBackend: lit-helpers/src; LitSetup: scripts/setup.ts and
      scripts/env.ts of lit-allocator and lit-deposit-address.  LitProofs:
      reads, usage keys and the calldata mode; LitSetupProofs: the account a
      backend serves as an interface, the setup proved against it, and the
      API-key backend proved to implement it when the REST API keeps an
      account.

    ** What is proved

    - Signing is authorised: no allocator entry point and no deposit-address
      action returns a signature unless the quorum, the solver and the VM's
      policy agreed to exactly what is signed; attestation checks accept
      exactly what their contract describes; the sweeps of all six VMs pay the
      attested amount to the depository and what is signed decodes to that
      payment, with the key of the wallet the response names; wallets derived
      from an extended public key are those of the root key; hashes and
      digests bind their contents up to an exhibited collision of the hash
      function.
    - Codecs are right: ABI layout, RLP, bags of cells, Bitcoin transactions,
      TON and Hedera identifiers and the SDK's addresses parse back what they
      print; 32-bit wrap-around in convertBits and byteWidth is accounted for.
      The action's copies of the SDK's hashes agree with the SDK.
    - The indexer loses no transfer in any reachable state of its process; a
      batch that returns has settled its transfers; reconciliation copies the
      chain; lanes and replays reach the end of their range; suggested replay
      ranges cover exactly what was reported; job table and cache stay within
      their contracts.
    - The audits tell the truth: the coverage audit finds exactly the missing
      transfers and its report names ranges whose replay repairs them; a
      healthy status means that nothing old is missing; the depository audit
      gives every token one verdict, from the balance and supply reported, and
      writes nothing but missing token metadata.
    - Payloads mean what was asked: withdrawals of all ten VMs decode to what
      was encoded; a released call request has the committed calls; the SDK and
      the allocator hash a withdraw request alike, the empty amount apart; ids and commitments bind
      their contents up to an exhibited collision.
    - The API is complete and guarded: following the cursors of a listing gives
      every row once (in the search by name, unless a name found holds a double
      colon); views show every transfer and execution of a
      transaction; requests leave the tables as they are and need the key;
      prices are served fresh, with one read per token in flight.
    - The tools are safe to run: executing a manifest broadcasts only its
      transactions, a bounded number of times, and returns only when they are
      settled; lanes stop after a failure; nonces of a sender increase in a
      bundle; conflicts with other manifests are found; a Bitcoin transaction
      conserves value.  The Lit setup brings the account in sync and then
      asks for no write; a dry run writes nothing and the calldata mode
      broadcasts nothing; lists are read whole or not at all.

    ** Fuel

    byteWidth gets 4 steps, which is exactly when it returns (the code loops
    for larger values, as byteWidth_terminates_iff shows); writeSnakeString
    and read_many get one step per byte; range_loop gets 2n + 1 for n blocks
    (a range is split at most n - 1 times) and lane_loop and replay_loop one
    step per block, shown to be enough in IndexerLiveness; split_logs one
    level per block; cap_loop one step per block.  cursor_pages bounds the
    pages of one block and stands for a provider that never stops paging.
    A client that follows cursors gets one step per row, enough by
    api_pages_cover; the wait for a Tron receipt gets 62 rounds of two
    seconds, enough for its two minutes by tron_wait_ends; the polls for a
    signature, a bridge status and a mined transaction have the bounds of the
    code.  max_pages bounds the pages of a list of the REST API, enough above a
    fiftieth of its length by listAll_whole.

    ** Not modelled

    Interleaving inside a run of the poller or of a job: each run is one step,
    so two background jobs that touch the same token are studied in either
    order but not statement by statement.  Clock columns, balance_scaled and
    the logger.  Reorganisations: a provider is assumed to answer for a stable
    chain, as CONFIRMATION_BLOCKS intends.  The process shell of the indexer
    (pool, credentials, migrations) and its user interface are I/O.  Of the
    multisig tools, the Solana program upgrade, Safe proposals, simulation and
    the browser commands drive interactive wallets and remote services.  The
    chain-secured Lit backend is not proved to serve an account: the account
    contract's semantics is outside the repository; its reads and its calldata
    mode are studied on their own.
    Bundling, example and account scripts call the packages modelled here and
    print.  ABIs and network tables are generated data; the contracts and the
    Rust ingester are in other languages. *)

From Stdlib Require Export ZArith Lia.
From Stdlib Require Import Strings.Byte.
From stdpp Require Export base numbers strings gmap list.

(** ** Fallible computations

    Every [throw new Error(...)] of the TypeScript is an [Err] carrying the
    constant part of the message; run-time values interpolated into the
    message are not reproduced. *)

Inductive result (A : Type) : Type :=
  | Ok (a : A)
  | Err (msg : string).
Arguments Ok {A} a.
Arguments Err {A} msg.

#[export] Instance result_ret : MRet result := fun A a => Ok a.
#[export] Instance result_bind : MBind result := fun A B f c =>
  match c with Ok a => f a | Err m => Err m end.
#[export] Instance result_fmap : FMap result := fun A B f c =>
  match c with Ok a => Ok (f a) | Err m => Err m end.

(** [if (!b) throw new Error(msg)]. *)
Definition check (b : bool) (msg : string) : result unit :=
  if b then Ok tt else Err msg.

(** [try { c } catch { throw new Error(msg) }]. *)
Definition catch {A} (c : result A) (msg : string) : result A :=
  match c with Ok a => Ok a | Err _ => Err msg end.

(** [o] is a possibly [undefined] value that the code rejects with [msg]. *)
Definition require {A} (o : option A) (msg : string) : result A :=
  match o with Some a => Ok a | None => Err msg end.

Definition is_ok {A} (c : result A) : bool :=
  match c with Ok _ => true | Err _ => false end.

(** [l.map((x, i) => f(i, x))] where the callback may throw. *)
Fixpoint mapM_idx {A B} (f : nat -> A -> result B) (i : nat) (l : list A)
  : result (list B) :=
  match l with
  | [] => Ok []
  | x :: l' => y ← f i x; ys ← mapM_idx f (S i) l'; Ok (y :: ys)
  end.

Declare Scope js_scope.
Delimit Scope js_scope with js.
Notation "'throw' m" := (Err m) (at level 10, m at level 9) : js_scope.
Notation "'fail_if' b 'with' m ;; k" :=
  (mbind (fun _ : unit => k) (check (negb b) m))
  (at level 100, b at level 99, m at level 99, k at level 200, right associativity) : js_scope.

Create HintDb relay.

Lemma bind_ok {A B} (f : A -> result B) (c : result A) b :
  c ≫= f = Ok b <-> exists a, c = Ok a /\ f a = Ok b.
Proof. destruct c; cbn; [|by split; [|intros (?&?&?)]]. split; [eauto|by intros (?&[= <-]&?)]. Qed.

Lemma fmap_ok {A B} (f : A -> B) (c : result A) b :
  f <$> c = Ok b <-> exists a, c = Ok a /\ f a = b.
Proof.
  destruct c; cbn; [|by split; [|intros (?&?&?)]].
  split; [intros [= <-]; eauto|by intros (?&[= <-]&<-)].
Qed.

Lemma require_ok {A} (o : option A) m a : require o m = Ok a <-> o = Some a.
Proof. destruct o; cbn; split; congruence. Qed.

Lemma catch_ok {A} (c : result A) m a : catch c m = Ok a <-> c = Ok a.
Proof. destruct c; cbn; split; congruence. Qed.

Lemma is_ok_true {A} (c : result A) : is_ok c = true <-> exists a, c = Ok a.
Proof. destruct c; cbn; split; [eauto|done|done|by intros [? ?]]. Qed.

Lemma check_ok b m u : check b m = Ok u <-> b = true.
Proof. destruct b, u; cbn; split; congruence. Qed.

Section ResultLemmas.
Context {A B : Type}.

Lemma mapM_ok (f : A -> result B) l k :
  mapM f l = Ok k <-> Forall2 (fun x y => f x = Ok y) l k.
Proof.
  split.
  - revert k; induction l as [|x l IH]; intros k; cbn.
    + intros [= <-]. constructor.
    + destruct (f x) eqn:Hx; cbn; [|discriminate].
      destruct (mapM f l) eqn:Hl; cbn; [|discriminate].
      intros [= <-]. constructor; [done|]. by apply IH.
  - induction 1 as [|x y l k Hx _ IH]; cbn; [done|]. by rewrite Hx, IH.
Qed.

Lemma mapM_idx_ok (f : nat -> A -> result B) i l k :
  mapM_idx f i l = Ok k <->
  length k = length l /\
  forall j x y, l !! j = Some x -> k !! j = Some y -> f (i + j) x = Ok y.
Proof.
  revert i k; induction l as [|x l IH]; intros i k; cbn [mapM_idx].
  - split; [intros [= <-]; done|]. intros [Hl _]. by destruct k.
  - split.
    + intros H. apply bind_ok in H as (y & Hy & H).
      apply bind_ok in H as (ys & H & [= <-]). apply IH in H as [Hlen Hys].
      split; [cbn; lia|]. intros [|j] x' y' Hx Hy'; cbn in *; simplify_eq.
      * by rewrite Nat.add_0_r.
      * rewrite Nat.add_succ_r. by apply (Hys j).
    + intros [Hlen Hf]. destruct k as [|y ys]; [done|].
      pose proof (Hf 0 x y eq_refl eq_refl) as H0. rewrite Nat.add_0_r in H0. rewrite H0. cbn.
      assert (mapM_idx f (S i) l = Ok ys) as ->; [|done].
      apply IH. split; [cbn in Hlen; lia|]. intros j x' y' Hx Hy.
      replace (S i + j) with (i + S j) by lia. by apply (Hf (S j)).
Qed.
End ResultLemmas.

(** [res_inv H] opens a successful monadic computation [H : c = Ok r]
    into the success of every step. *)
Ltac res_inv H :=
  lazymatch type of H with
  | mbind _ _ = Ok _ =>
      let x := fresh "r" in let H1 := fresh "Hs" in
      apply bind_ok in H; destruct H as (x & H1 & H); res_inv H1; res_inv H
  | fmap _ _ = Ok _ =>
      let x := fresh "r" in let H1 := fresh "Hs" in
      apply fmap_ok in H; destruct H as (x & H1 & H); res_inv H1; try subst
  | check _ _ = Ok _ => apply check_ok in H; bool_prop_in H
  | require _ _ = Ok _ => apply require_ok in H
  | catch _ _ = Ok _ => apply catch_ok in H; res_inv H
  | Ok _ = Ok _ => try injection H as H; try subst
  | Err _ = Ok _ => discriminate H
  | _ => idtac
  end
with bool_prop_in H :=
  lazymatch type of H with
  | negb _ = true => apply negb_true_iff in H; bool_prop_in H
  | negb _ = false => apply negb_false_iff in H; bool_prop_in H
  | _ => idtac
  end.

(** Boolean tests of the code as propositions. *)
Ltac bool_prop :=
  repeat match goal with
  | H : negb _ = true |- _ => apply negb_true_iff in H
  | H : negb _ = false |- _ => apply negb_false_iff in H
  | H : andb _ _ = true |- _ => apply andb_true_iff in H; destruct H
  | H : orb _ _ = false |- _ => apply orb_false_iff in H; destruct H
  | H : Z.eqb _ _ = true |- _ => apply Z.eqb_eq in H
  | H : Z.eqb _ _ = false |- _ => apply Z.eqb_neq in H
  | H : Z.ltb _ _ = true |- _ => apply Z.ltb_lt in H
  | H : Z.ltb _ _ = false |- _ => apply Z.ltb_ge in H
  | H : Z.leb _ _ = true |- _ => apply Z.leb_le in H
  | H : Z.leb _ _ = false |- _ => apply Z.leb_gt in H
  | H : bool_decide _ = true |- _ => apply bool_decide_eq_true in H
  | H : bool_decide _ = false |- _ => apply bool_decide_eq_false in H
  | H : Nat.eqb _ _ = true |- _ => apply Nat.eqb_eq in H
  | H : Nat.eqb _ _ = false |- _ => apply Nat.eqb_neq in H
  end.

(** Decide by arithmetic the comparisons the goal branches on. *)
Ltac zcmp :=
  repeat match goal with
  | |- context [Z.ltb ?a ?b] =>
      first [rewrite (proj2 (Z.ltb_lt a b)) by lia | rewrite (proj2 (Z.ltb_ge a b)) by lia]
  | |- context [Z.leb ?a ?b] =>
      first [rewrite (proj2 (Z.leb_le a b)) by lia | rewrite (proj2 (Z.leb_gt a b)) by lia]
  | |- context [Z.eqb ?a ?b] =>
      first [rewrite (proj2 (Z.eqb_eq a b)) by lia | rewrite (proj2 (Z.eqb_neq a b)) by lia]
  | |- context [Nat.leb ?a ?b] =>
      first [rewrite (proj2 (Nat.leb_le a b)) by lia | rewrite (proj2 (Nat.leb_gt a b)) by lia]
  | |- context [Nat.ltb ?a ?b] =>
      first [rewrite (proj2 (Nat.ltb_lt a b)) by lia | rewrite (proj2 (Nat.ltb_ge a b)) by lia]
  | |- context [Nat.eqb ?a ?b] =>
      first [rewrite (proj2 (Nat.eqb_eq a b)) by lia | rewrite (proj2 (Nat.eqb_neq a b)) by lia]
  end.

(** Linear arithmetic with divisions and remainders by constants. *)
Ltac divmod_lia := Z.div_mod_to_equations; lia.

(** Bounds on every element of an explicit list. *)
Ltac forall_lia := repeat (apply Forall_cons_2; [cbn; lia|]); apply Forall_nil_2.

(** ** Lists *)

Section ListLemmas.
Context {A : Type}.

Lemma app_inj_length (a1 a2 b1 b2 : list A) :
  length a1 = length a2 -> a1 ++ b1 = a2 ++ b2 -> a1 = a2 /\ b1 = b2.
Proof. intros Hl H. by apply app_inj_1. Qed.

Lemma drop_length_app (l k : list A) n : n = length l -> drop n (l ++ k) = k.
Proof. intros ->. apply drop_app_length. Qed.

Lemma take_length_app (l k : list A) n : n = length l -> take n (l ++ k) = l.
Proof. intros ->. apply take_app_length. Qed.
End ListLemmas.

Lemma filter_perm {A} (f : A -> bool) l k : l ≡ₚ k -> List.filter f l ≡ₚ List.filter f k.
Proof.
  induction 1 as [|x l k _ IH|x y l|l k m _ IH1 _ IH2]; cbn; [done|destruct (f x); by rewrite IH| |by etrans].
  destruct (f x), (f y); try done. apply perm_swap.
Qed.
