(* ===== verification/JsNum.v ===== *)
(** * Numbers and byte arrays of the JavaScript runtime

    [bigint] and integral [number] values are [Z]; a [Uint8Array] is a list
    of [byte] and a store into one wraps modulo 256 ([u8]); a [number[]] is a
    list of [Z].  The 32-bit operators of the language are written out with
    their wrap-around.  [Module Radix] is the positional-notation library the
    decimal, hexadecimal, base-58 and big-endian codecs share. *)

From Stdlib Require Import Strings.Byte.
From S2P Require Import Prelude.
Local Open Scope Z_scope.

Abbreviation bytes := (list byte).

#[export] Instance byte_eq_decision : EqDecision byte := Byte.byte_eq_dec.

(** Value of a byte, and the byte a number is stored as. *)
Definition bz (b : byte) : Z := Z.of_N (Byte.to_N b).
Definition u8 (z : Z) : byte := default x00 (Byte.of_N (Z.to_N (z mod 256))).

(** [Uint8Array.from(numbers)]. *)
Definition Uint8Array_from (l : list Z) : bytes := u8 <$> l.

(** [new Uint8Array(n)]. *)
Definition zeros (n : nat) : bytes := replicate n x00.

(** ** 32-bit operators *)

Definition to_uint32 (z : Z) : Z := z mod 2 ^ 32.
Definition to_int32 (z : Z) : Z :=
  let m := z mod 2 ^ 32 in if m <? 2 ^ 31 then m else m - 2 ^ 32.
Definition js_and (a b : Z) : Z := Z.land (to_int32 a) (to_int32 b).
Definition js_or (a b : Z) : Z := Z.lor (to_int32 a) (to_int32 b).
Definition js_xor (a b : Z) : Z := Z.lxor (to_int32 a) (to_int32 b).
Definition js_shl (a n : Z) : Z := to_int32 (Z.shiftl (to_int32 a) (n mod 32)).
Definition js_shr (a n : Z) : Z := Z.shiftr (to_int32 a) (n mod 32).
Definition js_ushr (a n : Z) : Z := Z.shiftr (to_uint32 a) (n mod 32).

(** [Math.ceil(a / b)] for a non-negative [a]. *)
Definition ceil_div (a b : Z) : Z := (a + b - 1) / b.

Lemma bz_range b : 0 <= bz b < 256.
Proof.
  unfold bz. pose proof (Byte.to_N_bounded b). split; [lia|].
  apply (N2Z.inj_lt _ 256). lia.
Qed.

Lemma u8_bz b : u8 (bz b) = b.
Proof.
  unfold u8. rewrite Z.mod_small by apply bz_range.
  unfold bz. by rewrite N2Z.id, Byte.of_to_N.
Qed.

Lemma bz_u8 z : bz (u8 z) = z mod 256.
Proof.
  unfold u8, bz. pose proof (Z.mod_pos_bound z 256 eq_refl).
  destruct (Byte.of_N (Z.to_N (z mod 256))) as [b|] eqn:E; cbn.
  - apply Byte.to_of_N in E. rewrite E. lia.
  - apply Byte.of_N_None_iff in E. lia.
Qed.

Lemma bz_u8_small z : 0 <= z < 256 -> bz (u8 z) = z.
Proof. intros. rewrite bz_u8. by apply Z.mod_small. Qed.

Lemma bz_inj a b : bz a = bz b -> a = b.
Proof. intros H. by rewrite <- (u8_bz a), <- (u8_bz b), H. Qed.

Lemma u8_mod z : u8 (z mod 256) = u8 z.
Proof. apply bz_inj. rewrite !bz_u8. by rewrite Z.mod_mod by lia. Qed.

Lemma Uint8Array_from_bz l : Uint8Array_from (bz <$> l) = l.
Proof.
  unfold Uint8Array_from. rewrite <- list_fmap_compose.
  rewrite <- (list_fmap_id l) at 2. apply list_fmap_ext. intros i b _. apply u8_bz.
Qed.

Lemma bz_list_inj (l k : bytes) : bz <$> l = bz <$> k -> l = k.
Proof. intros H. by rewrite <- (Uint8Array_from_bz l), <- (Uint8Array_from_bz k), H. Qed.

Lemma Forall_bz (l : bytes) : Forall (fun d => 0 <= d < 256) (bz <$> l).
Proof. apply Forall_fmap, Forall_true. intros b. apply bz_range. Qed.

#[export] Hint Resolve bz_range Forall_bz : relay.

Lemma to_int32_mod x n : 0 <= n <= 32 -> to_int32 x mod 2 ^ n = x mod 2 ^ n.
Proof.
  intros Hn. assert (exists k, to_int32 x = x + k * 2 ^ 32) as [k ->].
  { unfold to_int32. pose proof (Z.div_mod x (2 ^ 32) ltac:(lia)) as Ex.
    destruct (x mod 2 ^ 32 <? 2 ^ 31); [exists (- (x / 2 ^ 32))|exists (- (x / 2 ^ 32) - 1)]; lia. }
  replace (2 ^ 32) with (2 ^ (32 - n) * 2 ^ n) by (rewrite <- Z.pow_add_r by lia; f_equal; lia).
  rewrite Z.mul_assoc. apply Z.mod_add. apply Z.pow_nonzero; lia.
Qed.

Lemma to_uint32_small z : 0 <= z < 2 ^ 32 -> to_uint32 z = z.
Proof. apply Z.mod_small. Qed.

Lemma to_int32_small z : - 2 ^ 31 <= z < 2 ^ 31 -> to_int32 z = z.
Proof.
  unfold to_int32. intros H. destruct (Z_le_gt_dec 0 z).
  - rewrite Z.mod_small by lia. by destruct (Z.ltb_spec z (2 ^ 31)); [|lia].
  - replace (z mod 2 ^ 32) with (z + 2 ^ 32).
    + destruct (Z.ltb_spec (z + 2 ^ 32) (2 ^ 31)); lia.
    + apply Z.mod_unique with (-1); lia.
Qed.

(** ** Positional notation *)
Module Radix.

(** Value of a big-endian digit string, the accumulator loop of the code. *)
Definition of_digits (base : Z) (l : list Z) : Z :=
  foldl (fun acc d => acc * base + d) 0 l.

(** [while (n > 0) { push-front (n % base); n /= base }]. *)
Fixpoint digits_fuel (fuel : nat) (base n : Z) (acc : list Z) : list Z :=
  match fuel with
  | O => acc
  | S f => if n =? 0 then acc else digits_fuel f base (n / base) (n mod base :: acc)
  end.

(** The loop runs at most [log2 n + 1] times for a base of at least two. *)
Definition loop_fuel (n : Z) : nat := Z.to_nat (Z.log2 n + 1).
Definition to_digits (base n : Z) : list Z := digits_fuel (loop_fuel n) base n [].

(** [for (i = len-1; i >= 0; i--) { out[i] = x % base; x /= base }]. *)
Fixpoint fixed_digits (len : nat) (base x : Z) (acc : list Z) : list Z :=
  match len with
  | O => acc
  | S n => fixed_digits n base (x / base) (x mod base :: acc)
  end.

Definition digits_ok (base : Z) (l : list Z) : Prop := Forall (fun d => 0 <= d < base) l.
Definition no_leading_zero (l : list Z) : Prop := head l <> Some 0.

Section WithBase.
Context (base : Z) (Hbase : 2 <= base).

Lemma foldl_digits acc l :
  foldl (fun a d => a * base + d) acc l = acc * base ^ Z.of_nat (length l) + of_digits base l.
Proof using Hbase.
  unfold of_digits. revert acc; induction l as [|d l IH]; intros acc; cbn [foldl length].
  - rewrite Z.pow_0_r. lia.
  - rewrite IH, (IH (0 * base + d)). rewrite Nat2Z.inj_succ, Z.pow_succ_r by lia. ring.
Qed.

Lemma of_digits_app l k :
  of_digits base (l ++ k) = of_digits base l * base ^ Z.of_nat (length k) + of_digits base k.
Proof using Hbase. unfold of_digits at 1. rewrite foldl_app. apply foldl_digits. Qed.

Lemma of_digits_cons d l :
  of_digits base (d :: l) = d * base ^ Z.of_nat (length l) + of_digits base l.
Proof using Hbase. exact (of_digits_app [d] l). Qed.

Lemma of_digits_bound l :
  digits_ok base l -> 0 <= of_digits base l < base ^ Z.of_nat (length l).
Proof using Hbase.
  induction 1 as [|d l Hd Hl IH]; [cbn; lia|].
  rewrite of_digits_cons. cbn [length]. rewrite Nat2Z.inj_succ, Z.pow_succ_r by lia. nia.
Qed.

Lemma of_digits_replicate_0 n l : of_digits base (replicate n 0 ++ l) = of_digits base l.
Proof using Hbase.
  induction n as [|n IH]; [done|]. cbn [replicate app]. rewrite of_digits_cons, IH. lia.
Qed.

Lemma of_digits_inj l k :
  digits_ok base l -> digits_ok base k -> length l = length k ->
  of_digits base l = of_digits base k -> l = k.
Proof using Hbase.
  intros Hl. revert k; induction Hl as [|d l Hd Hl IH]; intros k Hk Hlen Heq.
  - by destruct k.
  - destruct Hk as [|e k He Hk]; [done|]. cbn in Hlen. injection Hlen as Hlen.
    rewrite !of_digits_cons, Hlen in Heq.
    pose proof (of_digits_bound l Hl) as B1. pose proof (of_digits_bound k Hk) as B2.
    rewrite Hlen in B1.
    assert (d = e) as -> by nia. f_equal. apply IH; [done|done|lia].
Qed.

Lemma digits_fuel_spec fuel n acc :
  0 <= n < 2 ^ Z.of_nat fuel ->
  exists l, digits_fuel fuel base n acc = l ++ acc /\ of_digits base l = n /\
            digits_ok base l /\ no_leading_zero l.
Proof using Hbase.
  revert n acc; induction fuel as [|f IH]; intros n acc Hn.
  - exists []. cbn in *. repeat split; [lia|constructor|done].
  - cbn [digits_fuel]. destruct (Z.eqb_spec n 0) as [->|Hn0].
    + exists []. repeat split; [constructor|done].
    + assert (0 <= n / base < 2 ^ Z.of_nat f) as Hdiv.
      { split; [apply Z.div_pos; lia|].
        apply Z.div_lt_upper_bound; [lia|].
        rewrite Nat2Z.inj_succ, Z.pow_succ_r in Hn by lia.
        assert (0 < 2 ^ Z.of_nat f) by (apply Z.pow_pos_nonneg; lia). nia. }
      destruct (IH (n / base) (n mod base :: acc) Hdiv) as (l & Heq & Hval & Hok & Hlz).
      exists (l ++ [n mod base]). pose proof (Z.mod_pos_bound n base ltac:(lia)).
      repeat split.
      * rewrite Heq, <- app_assoc. done.
      * rewrite of_digits_app, Hval. cbn. pose proof (Z.div_mod n base). lia.
      * apply Forall_app; split; [done|]. by constructor.
      * unfold no_leading_zero in *. destruct l as [|d l]; [|done].
        cbn in *. intros [= Hz]. apply Hn0.
        pose proof (Z.div_mod n base). lia.
Qed.

Lemma loop_fuel_ok n : 0 <= n -> n < 2 ^ Z.of_nat (loop_fuel n).
Proof using.
  intros H. unfold loop_fuel. pose proof (Z.log2_nonneg n).
  rewrite Z2Nat.id by lia. destruct (Z.eq_dec n 0) as [->|]; [done|].
  apply Z.log2_spec. lia.
Qed.

Lemma to_digits_spec n :
  0 <= n ->
  of_digits base (to_digits base n) = n /\ digits_ok base (to_digits base n) /\
  no_leading_zero (to_digits base n).
Proof using Hbase.
  intros Hn. destruct (digits_fuel_spec (loop_fuel n) n []) as (l & Heq & H).
  - split; [done|]. by apply loop_fuel_ok.
  - unfold to_digits. rewrite Heq, app_nil_r. done.
Qed.

Lemma no_leading_zero_lower l :
  digits_ok base l -> no_leading_zero l -> l <> [] ->
  base ^ (Z.of_nat (length l) - 1) <= of_digits base l.
Proof using Hbase.
  intros Hok Hlz Hne. destruct l as [|d l]; [done|].
  apply Forall_cons_1 in Hok as [Hd Hok]. unfold no_leading_zero in Hlz. cbn in Hlz.
  assert (d <> 0) by congruence.
  pose proof (of_digits_bound l Hok). rewrite of_digits_cons. cbn [length].
  rewrite Nat2Z.inj_succ. replace (Z.succ (Z.of_nat (length l)) - 1) with (Z.of_nat (length l)) by lia.
  nia.
Qed.

(** Minimal digit strings are unique. *)
Lemma of_digits_minimal_inj l k :
  digits_ok base l -> digits_ok base k -> no_leading_zero l -> no_leading_zero k ->
  of_digits base l = of_digits base k -> l = k.
Proof using Hbase.
  intros Hl Hk Zl Zk Heq. apply of_digits_inj; [done|done| |done].
  pose proof (of_digits_bound l Hl). pose proof (of_digits_bound k Hk).
  destruct (decide (l = [])) as [->|Hnl], (decide (k = [])) as [->|Hnk]; try done.
  - pose proof (no_leading_zero_lower k Hk Zk Hnk).
    assert (0 < base ^ (Z.of_nat (length k) - 1)); [|cbn in *; lia].
    apply Z.pow_pos_nonneg; [lia|]. destruct k; [done|cbn; lia].
  - pose proof (no_leading_zero_lower l Hl Zl Hnl).
    assert (0 < base ^ (Z.of_nat (length l) - 1)); [|cbn in *; lia].
    apply Z.pow_pos_nonneg; [lia|]. destruct l; [done|cbn; lia].
  - pose proof (no_leading_zero_lower k Hk Zk Hnk).
    pose proof (no_leading_zero_lower l Hl Zl Hnl).
    assert (Z.of_nat (length l) - 1 < Z.of_nat (length k)).
    { apply (Z.pow_lt_mono_r_iff base); lia. }
    assert (Z.of_nat (length k) - 1 < Z.of_nat (length l)).
    { apply (Z.pow_lt_mono_r_iff base); lia. }
    lia.
Qed.

Lemma to_of_digits l :
  digits_ok base l -> no_leading_zero l -> to_digits base (of_digits base l) = l.
Proof using Hbase.
  intros Hok Hlz. pose proof (of_digits_bound l Hok) as [Hnn _].
  destruct (to_digits_spec _ Hnn) as (Hv & Hok' & Hlz').
  by apply of_digits_minimal_inj.
Qed.

Lemma fixed_digits_spec len x acc :
  exists l, fixed_digits len base x acc = l ++ acc /\ length l = len /\
            digits_ok base l /\ of_digits base l = x mod base ^ Z.of_nat len.
Proof using Hbase.
  revert x acc; induction len as [|n IH]; intros x acc.
  - exists []. cbn. rewrite Z.mod_1_r. repeat split. constructor.
  - cbn [fixed_digits]. destruct (IH (x / base) (x mod base :: acc)) as (l & Heq & Hlen & Hok & Hv).
    exists (l ++ [x mod base]). pose proof (Z.mod_pos_bound x base ltac:(lia)). repeat split.
    + by rewrite Heq, <- app_assoc.
    + rewrite length_app. cbn. lia.
    + apply Forall_app; split; [done|]. by constructor.
    + rewrite of_digits_app, Hv, of_digits_cons. cbn [length of_digits foldl].
      rewrite (Nat2Z.inj_succ n), (Z.pow_succ_r base (Z.of_nat n)) by lia.
      rewrite Z.rem_mul_r by (try apply Z.pow_pos_nonneg; lia).
      change (Z.of_nat 1) with 1. change (Z.of_nat 0) with 0.
      rewrite Z.pow_1_r, Z.pow_0_r. lia.
Qed.

Lemma length_fixed_digits len x : length (fixed_digits len base x []) = len.
Proof using Hbase.
  destruct (fixed_digits_spec len x []) as (l & -> & <- & _). by rewrite app_nil_r.
Qed.

Lemma fixed_digits_ok len x : digits_ok base (fixed_digits len base x []).
Proof using Hbase.
  destruct (fixed_digits_spec len x []) as (l & -> & _ & H & _). by rewrite app_nil_r.
Qed.

Lemma of_fixed_digits len x :
  of_digits base (fixed_digits len base x []) = x mod base ^ Z.of_nat len.
Proof using Hbase.
  destruct (fixed_digits_spec len x []) as (l & -> & _ & _ & H). by rewrite app_nil_r.
Qed.

Lemma fixed_of_digits l :
  digits_ok base l -> fixed_digits (length l) base (of_digits base l) [] = l.
Proof using Hbase.
  intros Hok. apply of_digits_inj; [apply fixed_digits_ok|done|apply length_fixed_digits|].
  rewrite of_fixed_digits. apply Z.mod_small. by apply of_digits_bound.
Qed.
End WithBase.

End Radix.

(** Big-endian value of a byte array. *)
Definition be_val (l : bytes) : Z := Radix.of_digits 256 (bz <$> l).

Lemma be_val_bound l : 0 <= be_val l < 256 ^ Z.of_nat (length l).
Proof.
  unfold be_val. rewrite <- (length_fmap bz l).
  apply Radix.of_digits_bound; [lia|apply Forall_bz].
Qed.

Lemma be_val_app l k : be_val (l ++ k) = be_val l * 256 ^ Z.of_nat (length k) + be_val k.
Proof. unfold be_val. rewrite fmap_app, Radix.of_digits_app, length_fmap by lia. done. Qed.

Lemma be_val_inj l k : length l = length k -> be_val l = be_val k -> l = k.
Proof.
  intros Hlen Heq. apply bz_list_inj.
  apply (Radix.of_digits_inj 256); [lia|apply Forall_bz|apply Forall_bz| |done].
  by rewrite !length_fmap.
Qed.
