(* ===== verification/JsString.v ===== *)
(** * Strings of the JavaScript runtime

    A string is the list of its UTF-16 code units.  The case mapping is the
    ASCII one (the identity outside A-Z): every string the code lower-cases is
    compared with an ASCII string or has just been checked to be ASCII. *)

From Stdlib Require Import Strings.Byte Ascii.
From S2P Require Import Prelude JsNum.
Local Open Scope Z_scope.

Abbreviation jsstring := (list Z).

(** A string literal of the source. *)
Definition js (s : string) : jsstring :=
  (fun c => Z.of_N (N_of_ascii c)) <$> String.list_ascii_of_string s.
Arguments js s%_string.

(** ** Character classes *)

Definition in_range (lo hi c : Z) : bool := (lo <=? c) && (c <=? hi).
Definition is_digit (c : Z) : bool := in_range 48 57 c.
Definition is_hex_digit (c : Z) : bool :=
  in_range 48 57 c || in_range 97 102 c || in_range 65 70 c.
Definition is_lower_letter (c : Z) : bool := in_range 97 122 c.

Definition lower_char (c : Z) : Z := if in_range 65 90 c then c + 32 else c.

(** [s.toLowerCase()]. *)
Definition toLowerCase (s : jsstring) : jsstring := lower_char <$> s.

(** [s.startsWith(p)]. *)
Definition startsWith (s p : jsstring) : bool := bool_decide (take (length p) s = p).

(** [s.padStart(n, c)] with a one-unit filler. *)
Definition padStart (n : nat) (c : Z) (s : jsstring) : jsstring :=
  replicate (n - length s) c ++ s.

(** ** Digits *)

(** Value of a hexadecimal digit, as [parseInt(_, 16)] reads it. *)
Definition hex_val (c : Z) : Z :=
  if in_range 48 57 c then c - 48 else if in_range 97 102 c then c - 87 else c - 55.
Definition hex_char (v : Z) : Z := if v <? 10 then v + 48 else v + 87.
Definition dec_char (v : Z) : Z := v + 48.
Definition dec_val (c : Z) : Z := c - 48.

(** [n.toString(16)] of an integer. *)
Definition toString16 (n : Z) : jsstring :=
  if n =? 0 then [48]
  else if n <? 0 then 45 :: (hex_char <$> Radix.to_digits 16 (- n))
  else hex_char <$> Radix.to_digits 16 n.

(** [n.toString()] of an integer. *)
Definition toString10 (n : Z) : jsstring :=
  if n =? 0 then [48]
  else if n <? 0 then 45 :: (dec_char <$> Radix.to_digits 10 (- n))
  else dec_char <$> Radix.to_digits 10 n.

(** ** [BigInt(string)] *)

Definition is_space (c : Z) : bool :=
  bool_decide (c ∈ [9; 10; 11; 12; 13; 32; 160; 5760; 8232; 8233; 8239; 8287; 12288; 65279])
  || in_range 8192 8202 c.
Fixpoint trim_left (s : jsstring) : jsstring :=
  match s with
  | c :: s' => if is_space c then trim_left s' else s
  | [] => []
  end.
Definition trim (s : jsstring) : jsstring := reverse (trim_left (reverse (trim_left s))).

Definition radix_literal (base : Z) (ok : Z -> bool) (s : jsstring) : option Z :=
  if bool_decide (s = []) then None
  else if forallb ok s then Some (Radix.of_digits base (hex_val <$> s)) else None.

Definition StringToBigInt (str : jsstring) : option Z :=
  let s := trim str in
  if bool_decide (s = []) then Some 0
  else match s with
  | 48 :: 120 :: d | 48 :: 88 :: d => radix_literal 16 is_hex_digit d
  | 48 :: 111 :: d | 48 :: 79 :: d => radix_literal 8 (in_range 48 55) d
  | 48 :: 98 :: d | 48 :: 66 :: d => radix_literal 2 (in_range 48 49) d
  | 45 :: d => Z.opp <$> radix_literal 10 is_digit d
  | 43 :: d => radix_literal 10 is_digit d
  | _ => radix_literal 10 is_digit s
  end.

(** [BigInt(s)]: a [SyntaxError] when the literal is malformed. *)
Definition BigInt (s : jsstring) : result Z :=
  require (StringToBigInt s) "Cannot convert string to a BigInt".

(** ** [new TextEncoder().encode(s)] *)

Definition utf8_of_code (p : Z) : bytes :=
  if p <? 128 then [u8 p]
  else if p <? 2048 then [u8 (192 + p / 64); u8 (128 + p mod 64)]
  else if p <? 65536 then
    [u8 (224 + p / 4096); u8 (128 + p / 64 mod 64); u8 (128 + p mod 64)]
  else [u8 (240 + p / 262144); u8 (128 + p / 4096 mod 64);
        u8 (128 + p / 64 mod 64); u8 (128 + p mod 64)].

(** A lone surrogate is encoded as U+FFFD. *)
Fixpoint TextEncoder_encode (s : jsstring) : bytes :=
  match s with
  | [] => []
  | c :: s' =>
      if in_range 55296 56319 c then
        match s' with
        | d :: s'' =>
            if in_range 56320 57343 d
            then utf8_of_code (65536 + (c - 55296) * 1024 + (d - 56320)) ++ TextEncoder_encode s''
            else utf8_of_code 65533 ++ TextEncoder_encode s'
        | [] => utf8_of_code 65533
        end
      else if in_range 56320 57343 c then utf8_of_code 65533 ++ TextEncoder_encode s'
      else utf8_of_code c ++ TextEncoder_encode s'
  end.

(** ** Lemmas *)

(** Decide goals about character ranges by case analysis on the tests. *)
Ltac char_solve :=
  unfold is_digit, is_hex_digit, is_lower_letter, lower_char, hex_val, hex_char, dec_char,
    dec_val, in_range in *;
  repeat match goal with
  | |- context [ if ?b then _ else _ ] =>
      lazymatch b with context [ if _ then _ else _ ] => fail | _ => destruct b eqn:? end
  end; try done; try lia.

Lemma hex_char_val v : 0 <= v < 16 -> hex_val (hex_char v) = v.
Proof. intros. char_solve. Qed.

Lemma hex_char_is_hex v : 0 <= v < 16 -> is_hex_digit (hex_char v) = true.
Proof. intros. char_solve. Qed.

Lemma hex_char_lower v : 0 <= v < 16 -> lower_char (hex_char v) = hex_char v.
Proof. intros. char_solve. Qed.

Lemma hex_val_char c : is_hex_digit c = true -> hex_char (hex_val c) = lower_char c.
Proof. intros. char_solve. Qed.

Lemma hex_val_range c : is_hex_digit c = true -> 0 <= hex_val c < 16.
Proof. intros. char_solve. Qed.

Lemma hex_val_lower c : is_hex_digit c = true -> hex_val (lower_char c) = hex_val c.
Proof. intros. char_solve. Qed.

Lemma is_hex_lower c : is_hex_digit c = true -> is_hex_digit (lower_char c) = true.
Proof. intros. char_solve. Qed.

Lemma is_hex_lower_inv c : is_hex_digit (lower_char c) = is_hex_digit c.
Proof. char_solve. Qed.

Lemma digit_is_hex c : is_digit c = true -> is_hex_digit c = true /\ hex_val c = dec_val c.
Proof. intros. split; char_solve. Qed.

Lemma lower_char_idem c : lower_char (lower_char c) = lower_char c.
Proof. char_solve. Qed.

Lemma toLowerCase_idem s : toLowerCase (toLowerCase s) = toLowerCase s.
Proof.
  unfold toLowerCase. rewrite <- list_fmap_compose. apply list_fmap_ext.
  intros i c _. apply lower_char_idem.
Qed.

Lemma toLowerCase_id (s : jsstring) : Forall (fun c => lower_char c = c) s -> toLowerCase s = s.
Proof. induction 1 as [|c s Hc _ IH]; cbn; [done|]. by rewrite Hc; f_equal. Qed.

Lemma forallb_Forall {A} (p : A -> bool) l : forallb p l = true <-> Forall (fun x => p x = true) l.
Proof.
  induction l as [|x l IH]; cbn; [split; [constructor|done]|].
  rewrite andb_true_iff, IH. split; [intros [? ?]; by constructor|].
  intros H. by apply Forall_cons_1 in H.
Qed.

Lemma dec_chars_digits l :
  Radix.digits_ok 10 l -> forallb is_digit (dec_char <$> l) = true.
Proof.
  intros H. apply forallb_Forall, Forall_fmap. eapply Forall_impl; [exact H|].
  intros d Hd. cbn in *. char_solve.
Qed.

Lemma hex_val_dec_chars l :
  Radix.digits_ok 10 l -> hex_val <$> (dec_char <$> l) = l.
Proof.
  induction 1 as [|d l Hd _ IH]; cbn; [done|]. rewrite IH. f_equal. char_solve.
Qed.

Lemma dec_val_dec_chars (l : list Z) : dec_val <$> (dec_char <$> l) = l.
Proof.
  induction l as [|d l IH]; cbn; [done|]. rewrite IH. f_equal. unfold dec_val, dec_char. lia.
Qed.

Lemma hex_val_hex_chars l :
  Radix.digits_ok 16 l -> hex_val <$> (hex_char <$> l) = l.
Proof.
  induction 1 as [|d l Hd _ IH]; cbn; [done|]. rewrite IH. f_equal. by apply hex_char_val.
Qed.

Lemma toString10_nonneg n : 0 <= n ->
  exists l, toString10 n = dec_char <$> l /\ Radix.digits_ok 10 l /\ l <> [] /\
            Radix.of_digits 10 l = n /\ (l = [0] \/ Radix.no_leading_zero l).
Proof.
  intros Hn. unfold toString10. destruct (Z.eqb_spec n 0) as [->|Hne].
  - exists [0]. repeat split; [constructor; [lia|constructor]|done|by left].
  - destruct (Z.ltb_spec n 0); [lia|].
    destruct (Radix.to_digits_spec 10 ltac:(lia) n Hn) as (Hv & Hok & Hlz).
    exists (Radix.to_digits 10 n). repeat split; try done; [|by right].
    intros E. rewrite E in Hv. cbn in Hv. lia.
Qed.

Lemma trim_id s : (forall c, c ∈ s -> is_space c = false) -> trim s = s.
Proof.
  intros H.
  assert (forall t, (forall c, c ∈ t -> is_space c = false) -> trim_left t = t) as Hl.
  { intros [|c t] Ht; cbn; [done|]. rewrite Ht by (left). done. }
  unfold trim. rewrite (Hl s H), Hl, reverse_involutive; [done|].
  intros c Hc. apply H. rewrite elem_of_reverse in Hc. exact Hc.
Qed.

Lemma hex_not_space c : is_hex_digit c = true -> is_space c = false.
Proof.
  intros H. unfold is_space. apply orb_false_iff. split.
  - apply bool_decide_eq_false. intros Hin.
    repeat (apply elem_of_cons in Hin as [->|Hin]; [discriminate H|]).
    by apply not_elem_of_nil in Hin.
  - char_solve.
Qed.

Lemma digit_not_space c : is_digit c = true -> is_space c = false.
Proof. intros H. by apply hex_not_space, digit_is_hex. Qed.

Lemma radix_literal_dec l : Radix.digits_ok 10 l -> l <> [] ->
  radix_literal 10 is_digit (dec_char <$> l) = Some (Radix.of_digits 10 l).
Proof.
  intros Hok Hne. unfold radix_literal. rewrite bool_decide_false.
  - rewrite dec_chars_digits by done. by rewrite hex_val_dec_chars.
  - intros E. apply fmap_nil_inv in E. done.
Qed.

(** Split a digit character into its ten values. *)
Ltac digit_cases x H :=
  let Hx := fresh in
  assert (x = 48 \/ x = 49 \/ x = 50 \/ x = 51 \/ x = 52 \/ x = 53 \/ x = 54 \/ x = 55
          \/ x = 56 \/ x = 57) as Hx by (revert H; clear; char_solve);
  destruct_or! Hx; subst x.

Lemma StringToBigInt_digits s :
  s <> [] -> forallb is_digit s = true ->
  StringToBigInt s = Some (Radix.of_digits 10 (hex_val <$> s)).
Proof.
  intros Hne Hall. pose proof (proj1 (forallb_Forall _ _) Hall) as Hd.
  unfold StringToBigInt. rewrite trim_id.
  2: { intros c Hc. rewrite Forall_forall in Hd. by apply digit_not_space, Hd. }
  rewrite bool_decide_false by done.
  assert (radix_literal 10 is_digit s = Some (Radix.of_digits 10 (hex_val <$> s))) as Hlit.
  { unfold radix_literal. rewrite bool_decide_false by done. by rewrite Hall. }
  clear Hall. destruct s as [|c [|e t]]; [done| |].
  - apply Forall_cons_1 in Hd as [Hc _]. digit_cases c Hc; exact Hlit.
  - apply Forall_cons_1 in Hd as [Hc Hd]. apply Forall_cons_1 in Hd as [He _].
    digit_cases c Hc; try exact Hlit. digit_cases e He; exact Hlit.
Qed.

(** Reading back a printed non-negative integer. *)
Lemma BigInt_toString10 n : 0 <= n -> BigInt (toString10 n) = Ok n.
Proof.
  intros Hn. destruct (toString10_nonneg n Hn) as (l & -> & Hok & Hne & Hv & _).
  unfold BigInt. rewrite StringToBigInt_digits.
  - rewrite hex_val_dec_chars by done. by rewrite Hv.
  - intros E. apply fmap_nil_inv in E. done.
  - by apply dec_chars_digits.
Qed.
