(* ===== verification/Scanner.v ===== *)
(** * Scanners for the anchored regular expressions

    The code's regular expressions are concatenations of character classes in
    which a repeated class never contains the character that must follow it,
    so greedy matching never backtracks.  Each piece is a function from the
    remaining input to the captured text and the rest; the lemmas relate the
    pieces to the printed form of integers. *)

From S2P Require Import Prelude JsNum JsString.
Local Open Scope Z_scope.

(** [[class]*]: the longest prefix in the class. *)
Fixpoint re_span (ok : Z -> bool) (s : jsstring) : jsstring * jsstring :=
  match s with
  | c :: s' => if ok c then let '(d, r) := re_span ok s' in (c :: d, r) else ([], s)
  | [] => ([], [])
  end.

(** [[0-9]+]. *)
Definition re_digits1 (s : jsstring) : option (jsstring * jsstring) :=
  let '(d, r) := re_span is_digit s in
  if bool_decide (d = []) then None else Some (d, r).

(** [0|[1-9][0-9]*]: a decimal number without leading zeros. *)
Definition re_dec (s : jsstring) : option (jsstring * jsstring) :=
  match s with
  | c :: r =>
      if c =? 48 then Some ([48], r)
      else if is_digit c then Some (re_span is_digit s) else None
  | [] => None
  end.

(** A literal text. *)
Definition re_lit (lit s : jsstring) : option jsstring :=
  if startsWith s lit then Some (drop (length lit) s) else None.

(** [[class]{n}]. *)
Definition re_count (n : nat) (ok : Z -> bool) (s : jsstring) : option (jsstring * jsstring) :=
  if Nat.leb n (length s) && forallb ok (take n s) then Some (take n s, drop n s) else None.

(** [$]. *)
Definition re_end (s : jsstring) : option unit :=
  if bool_decide (s = []) then Some tt else None.

(** ** Lemmas *)

(** The rest of the input does not continue a run of digits. *)
Definition no_digit (r : jsstring) : Prop := forall c t, r = c :: t -> is_digit c = false.

Lemma no_digit_nil : no_digit [].
Proof. by intros c t. Qed.
Lemma no_digit_cons c r : is_digit c = false -> no_digit (c :: r).
Proof. intros H x t [= <- <-]. done. Qed.
#[export] Hint Resolve no_digit_nil no_digit_cons : relay.

Lemma re_span_sound ok s d r : re_span ok s = (d, r) -> s = d ++ r /\ Forall (fun c => ok c = true) d.
Proof.
  revert d r; induction s as [|c s IH]; cbn; intros d r; [by intros [= <- <-]|].
  destruct (ok c) eqn:E; [|by intros [= <- <-]].
  destruct (re_span ok s) as [d' r']. intros [= <- <-]. destruct (IH d' r' eq_refl) as [-> H].
  split; [done|by constructor].
Qed.

Lemma re_span_complete d r : Forall (fun c => is_digit c = true) d -> no_digit r ->
  re_span is_digit (d ++ r) = (d, r).
Proof.
  induction 1 as [|c d Hc _ IH]; cbn; intros Hr.
  - destruct r as [|c r]; [done|]. cbn. by rewrite (Hr c r eq_refl).
  - by rewrite Hc, IH.
Qed.

Lemma re_digits1_complete d r : Forall (fun c => is_digit c = true) d -> d <> [] -> no_digit r ->
  re_digits1 (d ++ r) = Some (d, r).
Proof.
  intros Hd Hne Hr. unfold re_digits1. rewrite re_span_complete by done. by rewrite bool_decide_false.
Qed.

Lemma re_digits1_sound s d r : re_digits1 s = Some (d, r) ->
  s = d ++ r /\ Forall (fun c => is_digit c = true) d /\ d <> [].
Proof.
  unfold re_digits1. destruct (re_span is_digit s) as [d' r'] eqn:E. case_bool_decide; [done|].
  intros [= <- <-]. by apply re_span_sound in E as [-> H2].
Qed.

Lemma digits_of_toString10 n : 0 <= n ->
  Forall (fun c => is_digit c = true) (toString10 n) /\ toString10 n <> [].
Proof.
  intros Hn. destruct (toString10_nonneg n Hn) as (l & -> & Hok & Hne & _). split.
  - by apply forallb_Forall, dec_chars_digits.
  - intros E. by apply fmap_nil_inv in E.
Qed.

(** Reading a printed integer. *)
Lemma re_dec_toString10 n r : 0 <= n -> no_digit r ->
  re_dec (toString10 n ++ r) = Some (toString10 n, r).
Proof.
  intros Hn Hr. destruct (digits_of_toString10 n Hn) as [Hd Hne].
  destruct (toString10_nonneg n Hn) as (l & E & Hok & Hnel & Hv & Hlz). rewrite E in *.
  destruct l as [|x l]; [done|]. cbn [fmap list_fmap app re_dec].
  destruct Hlz as [[= -> ->]|Hlz]; [done|].
  assert (x <> 0) by (intros ->; by apply Hlz). apply Forall_cons_1 in Hok as [Hx _].
  unfold dec_char at 1. zcmp. pose proof Hd as Hd'. cbn [fmap list_fmap] in Hd'.
  apply Forall_cons_1 in Hd' as [Hc _]. rewrite Hc.
  exact (f_equal Some (re_span_complete _ r Hd Hr)).
Qed.

(** A canonical decimal is the printed form of its value. *)
Lemma re_dec_sound s d r : re_dec s = Some (d, r) -> exists n, 0 <= n /\ d = toString10 n /\ s = d ++ r.
Proof.
  destruct s as [|c s]; [done|]. cbn [re_dec]. destruct (Z.eqb_spec c 48) as [->|Hc].
  { intros [= <- <-]. by exists 0. }
  destruct (is_digit c) eqn:Hd; [|done]. cbn [re_span]. rewrite Hd.
  destruct (re_span is_digit s) as [d' r'] eqn:Es. intros [= <- <-].
  apply re_span_sound in Es as [-> Hall]. assert (Forall (fun x => is_digit x = true) (c :: d')) as Hall' by (by constructor).
  set (l := dec_val <$> (c :: d')).
  assert (dec_char <$> l = c :: d') as Hl.
  { unfold l. rewrite <- list_fmap_compose. rewrite <- (list_fmap_id (c :: d')) at 2.
    apply list_fmap_ext. intros i x _. unfold compose, dec_char, dec_val. cbn. lia. }
  assert (Radix.digits_ok 10 l) as Hok.
  { apply Forall_fmap. eapply Forall_impl; [exact Hall'|]. intros x Hx. cbn. revert Hx. clear. char_solve. }
  assert (Radix.no_leading_zero l) as Hlz.
  { unfold l. cbn. intros [= E]. unfold dec_val in E. lia. }
  exists (Radix.of_digits 10 l). pose proof (Radix.of_digits_bound 10 ltac:(lia) l Hok).
  split; [lia|]. split; [|done]. unfold toString10.
  assert (Radix.of_digits 10 l <> 0) as Hne.
  { pose proof (Radix.no_leading_zero_lower 10 ltac:(lia) l Hok Hlz ltac:(done)) as Hlow.
    assert (0 < 10 ^ (Z.of_nat (length l) - 1)); [|lia]. apply Z.pow_pos_nonneg; [lia|].
    unfold l. cbn. lia. }
  zcmp. by rewrite Radix.to_of_digits, Hl by (done || lia).
Qed.

Lemma re_lit_complete lit r : re_lit lit (lit ++ r) = Some r.
Proof.
  unfold re_lit, startsWith. rewrite take_app_length, bool_decide_true by done. by rewrite drop_app_length.
Qed.

Lemma re_lit_sound lit s r : re_lit lit s = Some r -> s = lit ++ r.
Proof.
  unfold re_lit, startsWith. case_bool_decide as E; [|done]. intros [= <-].
  rewrite <- E at 1. by rewrite take_drop.
Qed.

Lemma re_count_complete n ok d r : length d = n -> Forall (fun c => ok c = true) d ->
  re_count n ok (d ++ r) = Some (d, r).
Proof.
  intros <- Hd. unfold re_count. rewrite length_app, take_app_length, drop_app_length. zcmp.
  by rewrite (proj2 (forallb_Forall _ _) Hd).
Qed.

Lemma re_count_sound n ok s d r : re_count n ok s = Some (d, r) ->
  s = d ++ r /\ length d = n /\ Forall (fun c => ok c = true) d.
Proof.
  unfold re_count. destruct (Nat.leb_spec n (length s)); [|done]. cbn [andb].
  destruct (forallb ok (take n s)) eqn:E; [|done]. intros [= <- <-].
  split_and!; [by rewrite take_drop|rewrite length_take; lia|by apply forallb_Forall].
Qed.

Lemma re_end_sound s : re_end s = Some tt -> s = [].
Proof. unfold re_end. by case_bool_decide. Qed.

Lemma re_end_nil : re_end [] = Some tt.
Proof. done. Qed.

(** Open a successful chain of scanners. *)
Ltac scan_inv H :=
  lazymatch type of H with
  | mbind _ _ = Some _ =>
      let E := fresh "Sc" in let x := fresh "x" in
      apply bind_Some in H; destruct H as (x & E & H);
      lazymatch type of x with
      | prod _ _ => let a := fresh "t" in let b := fresh "u" in destruct x as [a b]
      | unit => destruct x
      | _ => idtac
      end; scan_inv H
  | Some _ = Some _ => injection H as H; try subst
  | None = Some _ => discriminate H
  | _ => idtac
  end.

(** Two splits at the first character outside a class agree. *)
Lemma digits_split d1 d2 r1 r2 :
  Forall (fun c => is_digit c = true) d1 -> Forall (fun c => is_digit c = true) d2 ->
  no_digit r1 -> no_digit r2 -> d1 ++ r1 = d2 ++ r2 -> d1 = d2 /\ r1 = r2.
Proof.
  intros H1 H2 R1 R2 E. pose proof (re_span_complete d1 r1 H1 R1) as E1.
  rewrite E, re_span_complete in E1 by done. by injection E1 as -> ->.
Qed.

Lemma toString10_inj n m : 0 <= n -> 0 <= m -> toString10 n = toString10 m -> n = m.
Proof.
  intros Hn Hm E. pose proof (BigInt_toString10 n Hn) as H. rewrite E, BigInt_toString10 in H by done.
  by injection H.
Qed.
