(* ===== verification/JsNumber.v ===== *)
(** * Numbers of the JavaScript runtime

    [Number(string)] and the tests the indexer applies to its result.  A
    number is NaN, an infinity, an integer, or another binary64 value
    [m * 2 ^ e]; the rounding of decimal literals to binary64 is written out.
    The two zeros are not distinguished. *)

From S2P Require Import Prelude JsNum JsString Scanner.
Local Open Scope Z_scope.

Inductive jsnum : Type :=
  | JNaN
  | JInf (negative : bool)
  | JInt (n : Z)
  | JFrac (m e : Z).

(** ** Rounding a rational to binary64, ties to even *)

(** [2 ^ e <= a / b]. *)
Definition pow2_le (e a b : Z) : bool :=
  if 0 <=? e then b * 2 ^ e <=? a else b <=? a * 2 ^ (- e).

(** The exponent of the last place of the result. *)
Definition ulp_exponent (a b : Z) : Z :=
  let e := Z.log2 a - Z.log2 b in
  let e := if pow2_le e a b then e else e - 1 in
  Z.max (e - 52) (-1074).

Definition round_half_even (a b : Z) : Z :=
  let q := a / b in let r := a mod b in
  if 2 * r <? b then q else if b <? 2 * r then q + 1 else if Z.even q then q else q + 1.

(** The number [m * 2 ^ k]. *)
Definition dyadic (m k : Z) : jsnum :=
  if 0 <=? k then
    (if 2 ^ 1024 <=? Z.abs m * 2 ^ k then JInf (m <? 0) else JInt (m * 2 ^ k))
  else if m mod 2 ^ (- k) =? 0 then JInt (m / 2 ^ (- k))
  else JFrac m k.

(** The number nearest to [num / den]. *)
Definition round_double (num den : Z) : jsnum :=
  if num =? 0 then JInt 0
  else
    let a := Z.abs num in
    let k := ulp_exponent a den in
    let m := if 0 <=? k then round_half_even a (den * 2 ^ k) else round_half_even (a * 2 ^ (- k)) den in
    dyadic (Z.sgn num * m) k.

(** ** [Number(s)] for a string *)

(** [ExponentPart]: the value, or [None] when malformed. *)
Definition exponent_part (s : jsstring) : option Z :=
  match s with
  | [] => Some 0
  | c :: r =>
      if (c =? 101) || (c =? 69) then
        let '(neg, d) := match r with
                         | x :: r' => if x =? 45 then (true, r') else if x =? 43 then (false, r') else (false, r)
                         | [] => (false, r)
                         end in
        if bool_decide (d = []) || negb (forallb is_digit d) then None
        else let v := Radix.of_digits 10 (dec_val <$> d) in Some (if neg : bool then - v else v)
      else None
  end.

Definition decimal_literal (neg : bool) (s : jsstring) : jsnum :=
  if bool_decide (s = js "Infinity") then JInf neg
  else
    let '(ip, r) := re_span is_digit s in
    let '(fp, r) := match r with
                    | c :: r' => if c =? 46 then re_span is_digit r' else ([], r)
                    | [] => ([], r)
                    end in
    if bool_decide (ip ++ fp = []) then JNaN
    else match exponent_part r with
    | None => JNaN
    | Some x =>
        let v := Radix.of_digits 10 (dec_val <$> (ip ++ fp)) in
        let v := if neg then - v else v in
        let x := x - Z.of_nat (length fp) in
        if 0 <=? x then round_double (v * 10 ^ x) 1 else round_double v (10 ^ (- x))
    end.

Definition radix_number (base : Z) (ok : Z -> bool) (s : jsstring) : jsnum :=
  match radix_literal base ok s with Some v => round_double v 1 | None => JNaN end.

Definition Number (str : jsstring) : jsnum :=
  let s := trim str in
  if bool_decide (s = []) then JInt 0
  else
    let p := take 2 s in
    if bool_decide (p = js "0x") || bool_decide (p = js "0X") then radix_number 16 is_hex_digit (drop 2 s)
    else if bool_decide (p = js "0o") || bool_decide (p = js "0O") then radix_number 8 (in_range 48 55) (drop 2 s)
    else if bool_decide (p = js "0b") || bool_decide (p = js "0B") then radix_number 2 (in_range 48 49) (drop 2 s)
    else if bool_decide (take 1 s = js "-") then decimal_literal true (drop 1 s)
    else if bool_decide (take 1 s = js "+") then decimal_literal false (drop 1 s)
    else decimal_literal false s.

(** [Number(bigint)]. *)
Definition Number_of_bigint (z : Z) : jsnum := round_double z 1.

(** ** Tests and comparisons *)

Definition isFinite (x : jsnum) : bool := match x with JInt _ | JFrac _ _ => true | _ => false end.

(** [n > x] for an integer [n]; comparisons with NaN are false. *)
Definition int_gt (n : Z) (x : jsnum) : bool :=
  match x with
  | JNaN => false
  | JInf neg => neg
  | JInt k => k <? n
  | JFrac m e => m <? n * 2 ^ (- e)
  end.

(** ** Integers up to 2^53 are exact *)

Lemma round_double_int z : 0 <= z <= 2 ^ 53 -> round_double z 1 = JInt z.
Proof.
  intros Hz. unfold round_double. destruct (Z.eqb_spec z 0) as [->|Hne]; [done|].
  rewrite Z.abs_eq by lia. rewrite Z.sgn_pos by lia. rewrite Z.mul_1_l.
  assert (0 <= Z.log2 z) as Hl by apply Z.log2_nonneg.
  assert (Z.log2 z <= 53) as Hl53.
  { rewrite <- (Z.log2_pow2 53) by lia. apply Z.log2_le_mono. lia. }
  assert (pow2_le (Z.log2 z) z 1 = true) as Hp.
  { unfold pow2_le. zcmp. apply Z.leb_le. rewrite Z.mul_1_l. apply Z.log2_spec. lia. }
  unfold ulp_exponent. change (Z.log2 1) with 0. rewrite Z.sub_0_r, Hp.
  assert (forall k, 0 < k -> round_half_even (z * k) k = z) as Hr0.
  { intros k Hk. unfold round_half_even. rewrite Z.div_mul, Z.mod_mul by lia. by zcmp. }
  destruct (Z.eq_dec (Z.log2 z) 53) as [E|E].
  - assert (z = 2 ^ 53) as ->; [|vm_compute; reflexivity].
    pose proof (proj1 (Z.log2_spec z ltac:(lia))). rewrite E in *. lia.
  - rewrite Z.max_l by lia. set (k := Z.log2 z - 52). assert (k <= 0) by lia.
    destruct (Z.leb_spec 0 k) as [Hk|Hk].
    + assert (k = 0) as -> by lia. change (1 * 2 ^ 0) with 1. specialize (Hr0 1). rewrite Z.mul_1_r in Hr0.
      rewrite Hr0 by lia. unfold dyadic. change (0 <=? 0) with true. cbv iota. rewrite Z.pow_0_r, Z.mul_1_r.
      rewrite Z.abs_eq by lia. assert (2 ^ 53 < 2 ^ 1024) as Hbig by reflexivity.
      rewrite (proj2 (Z.leb_gt _ _)) by (eapply Z.le_lt_trans; [apply Hz|exact Hbig]). by rewrite Z.mul_1_r.
    + set (p := 2 ^ (- k)). assert (0 < p) by (apply Z.pow_pos_nonneg; lia).
      assert (round_half_even (z * p) 1 = z * p) as ->.
      { unfold round_half_even. rewrite Z.div_1_r, Z.mod_1_r. by zcmp. }
      unfold dyadic. rewrite (proj2 (Z.leb_gt 0 k)) by lia. fold p. rewrite Z.mod_mul, Z.div_mul by lia. done.
Qed.

Lemma digit_not c d : is_digit c = true -> is_digit d = false -> c <> d.
Proof. congruence. Qed.

(** Decimal digits, leading zeros or not. *)
Lemma Number_dec_chars l : Radix.digits_ok 10 l -> l <> [] -> 0 <= Radix.of_digits 10 l <= 2 ^ 53 ->
  Number (dec_char <$> l) = JInt (Radix.of_digits 10 l).
Proof.
  intros Hok Hne Hz.
  assert (Forall (fun c => is_digit c = true) (dec_char <$> l)) as HF.
  { apply forallb_Forall, dec_chars_digits, Hok. }
  unfold Number. rewrite trim_id.
  2: { intros c Hc. apply hex_not_space. rewrite Forall_forall in HF. by apply digit_is_hex, HF. }
  assert (forall a b, is_digit b = false -> take 2 (dec_char <$> l) <> [a; b]) as Hp2.
  { intros a b Hb Ht. destruct l as [|x [|y l']]; try done. cbn in Ht. injection Ht as _ Hy.
    inversion HF as [|? ? _ HF']. inversion HF' as [|? ? Hy' _]. congruence. }
  assert (forall a, is_digit a = false -> take 1 (dec_char <$> l) <> [a]) as Hp1.
  { intros a Ha Ht. destruct l as [|x l']; try done. cbn in Ht. injection Ht as Hx.
    inversion HF as [|? ? Hx' _]. congruence. }
  rewrite (bool_decide_eq_false_2 (dec_char <$> l = [])) by (by destruct l).
  change (js "0x") with [48; 120]. change (js "0X") with [48; 88]. change (js "0o") with [48; 111].
  change (js "0O") with [48; 79]. change (js "0b") with [48; 98]. change (js "0B") with [48; 66].
  change (js "-") with [45]. change (js "+") with [43].
  do 6 rewrite (bool_decide_eq_false_2 (take 2 _ = _)) by (by apply Hp2).
  do 2 rewrite (bool_decide_eq_false_2 (take 1 _ = _)) by (by apply Hp1). cbn [orb].
  unfold decimal_literal. rewrite bool_decide_eq_false_2.
  2: { intros Ei. rewrite Ei in HF. apply Forall_cons_1 in HF as [HF _]. discriminate HF. }
  pose proof (re_span_complete (dec_char <$> l) [] HF no_digit_nil) as Hs. rewrite app_nil_r in Hs. rewrite Hs.
  rewrite app_nil_r, bool_decide_eq_false_2 by (by destruct l).
  cbn [exponent_part length]. change (0 <=? 0 - Z.of_nat 0) with true. cbv iota.
  rewrite dec_val_dec_chars. change (10 ^ (0 - Z.of_nat 0)) with 1. rewrite Z.mul_1_r.
  by apply round_double_int.
Qed.

Lemma Number_toString10 z : 0 <= z <= 2 ^ 53 -> Number (toString10 z) = JInt z.
Proof.
  intros Hz. destruct (toString10_nonneg z ltac:(lia)) as (l & -> & Hok & Hne & <- & _). by apply Number_dec_chars.
Qed.

Example number_hex : Number (js " 0x10 ") = JInt 16.
Proof. reflexivity. Qed.
Example number_exponent : Number (js "12.5e1") = JInt 125.
Proof. reflexivity. Qed.
Example number_rounds : Number (js "9007199254740993") = JInt 9007199254740992.
Proof. reflexivity. Qed.
Example number_fraction : Number (js "-0.75") = JFrac (-6755399441055744) (-53).
Proof. reflexivity. Qed.
Example number_nan : Number (js "12a") = JNaN.
Proof. reflexivity. Qed.
