(* ===== verification/JsJson.v ===== *)
(** * JSON trees and their text

    The values [JSON.parse] returns and [JSON.stringify] prints.  The numbers
    of a tree are integers, and the keys of an object are distinct and in
    insertion order; a text with a number that is not an integer has no tree
    here.  Printing a tree and parsing the text gives the tree back. *)

From S2P Require Import Prelude JsNum JsString Scanner JsNumber.
Local Open Scope Z_scope.
Local Open Scope js_scope.

(** [parts.join(sep)]. *)
Fixpoint join_with (sep : jsstring) (parts : list jsstring) : jsstring :=
  match parts with
  | [] => []
  | [p] => p
  | p :: rest => p ++ sep ++ join_with sep rest
  end.

Inductive Json :=
  | JUndefined
  | JNull
  | JBool (b : bool)
  | JNum (n : Z)
  | JStr (s : jsstring)
  | JArr (items : list Json)
  | JObj (fields : list (jsstring * Json)).

(** [JSON.stringify] of a string: the quoted form of each code unit; a
    surrogate is escaped unless it belongs to a pair. *)
Definition hex4 (c : Z) : jsstring := padStart 4 48 (toString16 c).
Definition escape_unit (c : Z) : jsstring :=
  if c =? 8 then js "\b" else if c =? 9 then js "\t" else if c =? 10 then js "\n"
  else if c =? 12 then js "\f" else if c =? 13 then js "\r"
  else if c =? 34 then [92; 34] else if c =? 92 then [92; 92]
  else if c <? 32 then js "\u" ++ hex4 c else [c].
Fixpoint quote_body (s : jsstring) : jsstring :=
  match s with
  | [] => []
  | c :: s' =>
      if in_range 55296 56319 c then
        match s' with
        | d :: s'' => if in_range 56320 57343 d then c :: d :: quote_body s''
                      else js "\u" ++ hex4 c ++ quote_body s'
        | [] => js "\u" ++ hex4 c
        end
      else if in_range 56320 57343 c then js "\u" ++ hex4 c ++ quote_body s'
      else escape_unit c ++ quote_body s'
  end.
Definition quote (s : jsstring) : jsstring := [34] ++ quote_body s ++ [34].

Definition is_undefined (v : Json) : bool := match v with JUndefined => true | _ => false end.

(** [JSON.stringify(value)] of a value that is not [undefined]. *)
Fixpoint JSON_stringify (value : Json) : jsstring :=
  match value with
  | JUndefined | JNull => js "null"
  | JBool b => if b then js "true" else js "false"
  | JNum n => toString10 n
  | JStr s => quote s
  | JArr items => js "[" ++ join_with (js ",") (JSON_stringify <$> items) ++ js "]"
  | JObj fields =>
      let printed := (fun '(k, v) => (is_undefined v, quote k ++ js ":" ++ JSON_stringify v)) <$> fields in
      js "{" ++ join_with (js ",") (snd <$> filter (fun e => e.1 = false) printed) ++ js "}"
  end.

(** ** [JSON.parse] *)

Definition json_space (c : Z) : bool := (c =? 32) || (c =? 9) || (c =? 10) || (c =? 13).
Fixpoint skip_ws (s : jsstring) : jsstring :=
  match s with c :: s' => if json_space c then skip_ws s' else s | [] => [] end.

(** The code unit of a one-letter escape. *)
Definition unescape (c : Z) : option Z :=
  if (c =? 34) || (c =? 92) || (c =? 47) then Some c
  else if c =? 98 then Some 8 else if c =? 102 then Some 12 else if c =? 110 then Some 10
  else if c =? 114 then Some 13 else if c =? 116 then Some 9 else None.

(** The characters up to the closing quote. *)
Fixpoint json_string (s : jsstring) : option (jsstring * jsstring) :=
  match s with
  | [] => None
  | c :: s1 =>
      if c =? 34 then Some ([], s1)
      else if c <? 32 then None
      else if c =? 92 then
        match s1 with
        | 117 :: a :: b :: d :: e :: s2 =>
            if forallb is_hex_digit [a; b; d; e]
            then '(t, r) ← json_string s2; Some (Radix.of_digits 16 (hex_val <$> [a; b; d; e]) :: t, r)
            else None
        | x :: s2 => u ← unescape x; '(t, r) ← json_string s2; Some (u :: t, r)
        | [] => None
        end
      else '(t, r) ← json_string s1; Some (c :: t, r)
  end.

(** A number: an optional sign, the integer part without leading zeros, a
    fraction and an exponent; each piece gives its text and the rest. *)
Definition json_sign (s : jsstring) : jsstring * jsstring :=
  match s with 45 :: r => ([45], r) | _ => ([], s) end.
Definition json_frac (s : jsstring) : option (jsstring * jsstring) :=
  match s with
  | 46 :: r => '(d, r) ← re_digits1 r; Some (46 :: d, r)
  | _ => Some ([], s)
  end.
Definition json_exp (s : jsstring) : option (jsstring * jsstring) :=
  match s with
  | c :: r =>
      if (c =? 101) || (c =? 69) then
        let '(sg, r) := match r with x :: r' => if (x =? 43) || (x =? 45) then ([x], r') else ([], r) | [] => ([], r) end in
        '(d, r) ← re_digits1 r; Some (c :: sg ++ d, r)
      else Some ([], s)
  | [] => Some ([], s)
  end.
Definition json_number (s : jsstring) : option (Json * jsstring) :=
  let '(sg, r) := json_sign s in
  '(i, r) ← re_dec r;
  '(f, r) ← json_frac r;
  '(e, r) ← json_exp r;
  match Number (sg ++ i ++ f ++ e) with JInt z => Some (JNum z, r) | _ => None end.

(** [obj[key] = value] of the reviver-free parser: a repeated key keeps its
    place and takes the last value. *)
Fixpoint set_field (k : jsstring) (v : Json) (fields : list (jsstring * Json)) : list (jsstring * Json) :=
  match fields with
  | [] => [(k, v)]
  | (k', v') :: rest => if bool_decide (k' = k) then (k, v) :: rest else (k', v') :: set_field k v rest
  end.
Definition object_of (members : list (jsstring * Json)) : list (jsstring * Json) :=
  foldl (fun acc '(k, v) => set_field k v acc) [] members.

(** Every call consumes a character, so the length of the text bounds the
    number of nested calls. *)
Fixpoint json_value (n : nat) (s : jsstring) : option (Json * jsstring) :=
  match n with
  | O => None
  | S n =>
      match s with
      | [] => None
      | c :: r =>
          if c =? 34 then '(t, r) ← json_string r; Some (JStr t, r)
          else if c =? 91 then
            match skip_ws r with
            | 93 :: r => Some (JArr [], r)
            | _ => '(l, r) ← json_items n r; Some (JArr l, r)
            end
          else if c =? 123 then
            match skip_ws r with
            | 125 :: r => Some (JObj [], r)
            | _ => '(l, r) ← json_members n r; Some (JObj (object_of l), r)
            end
          else if startsWith s (js "true") then Some (JBool true, drop 4 s)
          else if startsWith s (js "false") then Some (JBool false, drop 5 s)
          else if startsWith s (js "null") then Some (JNull, drop 4 s)
          else json_number s
      end
  end
with json_items (n : nat) (s : jsstring) : option (list Json * jsstring) :=
  match n with
  | O => None
  | S n =>
      '(v, r) ← json_value n (skip_ws s);
      match skip_ws r with
      | 44 :: r => '(l, r) ← json_items n r; Some (v :: l, r)
      | 93 :: r => Some ([v], r)
      | _ => None
      end
  end
with json_members (n : nat) (s : jsstring) : option (list (jsstring * Json) * jsstring) :=
  match n with
  | O => None
  | S n =>
      match skip_ws s with
      | 34 :: r =>
          '(k, r) ← json_string r;
          match skip_ws r with
          | 58 :: r =>
              '(v, r) ← json_value n (skip_ws r);
              match skip_ws r with
              | 44 :: r => '(l, r) ← json_members n r; Some ((k, v) :: l, r)
              | 125 :: r => Some ([(k, v)], r)
              | _ => None
              end
          | _ => None
          end
      | _ => None
      end
  end.

Definition JSON_parse (s : jsstring) : result Json :=
  match json_value (S (length s)) (skip_ws s) with
  | Some (v, r) => fail_if negb (bool_decide (skip_ws r = [])) with "SyntaxError" ;; Ok v
  | None => throw "SyntaxError"
  end.

(** ** Reading back what is printed *)

(** Trees that [JSON.stringify] prints without loss. *)
Definition code_unit (c : Z) : Prop := 0 <= c < 65536.
Inductive json_wf : Json -> Prop :=
  | wf_null : json_wf JNull
  | wf_bool b : json_wf (JBool b)
  | wf_num n : 0 <= n <= 2 ^ 53 -> json_wf (JNum n)
  | wf_str s : Forall code_unit s -> json_wf (JStr s)
  | wf_arr items : Forall json_wf items -> json_wf (JArr items)
  | wf_obj fields : NoDup fields.*1 -> Forall (fun e => Forall code_unit e.1 /\ json_wf e.2) fields ->
      json_wf (JObj fields).

Lemma hex4_digits c : code_unit c -> exists a b d e, hex4 c = [a; b; d; e] /\
  forallb is_hex_digit [a; b; d; e] = true /\ Radix.of_digits 16 (hex_val <$> [a; b; d; e]) = c.
Proof.
  intros Hc. unfold code_unit in Hc.
  assert (exists l, toString16 c = hex_char <$> l /\ Radix.digits_ok 16 l /\ Radix.of_digits 16 l = c /\ (length l <= 4)%nat)
    as (l & E & Hok & Hv & Hl).
  { unfold toString16. destruct (Z.eqb_spec c 0) as [->|Hne].
    - exists [0]. split_and!; [done| |done|cbn; lia]. constructor; [lia|constructor].
    - zcmp. destruct (Radix.to_digits_spec 16 ltac:(lia) c ltac:(lia)) as (Hv & Hok & Hlz).
      exists (Radix.to_digits 16 c). split_and!; [done..|].
      destruct (decide (Radix.to_digits 16 c = [])) as [->|Hn]; [cbn; lia|].
      pose proof (Radix.no_leading_zero_lower 16 ltac:(lia) _ Hok Hlz Hn) as Hlow. rewrite Hv in Hlow.
      destruct (decide (length (Radix.to_digits 16 c) <= 4)%nat); [done|].
      assert (16 ^ 4 <= 16 ^ (Z.of_nat (length (Radix.to_digits 16 c)) - 1)); [apply Z.pow_le_mono_r; lia|]. lia. }
  set (k := replicate (4 - length l) 0 ++ l).
  assert (Radix.digits_ok 16 k) as Hk.
  { apply Forall_app. split; [|done]. apply Forall_replicate. lia. }
  assert (hex4 c = hex_char <$> k) as ->.
  { unfold hex4, padStart, k. rewrite E, length_fmap, fmap_app, fmap_replicate. done. }
  assert (length k = 4%nat) as Hk4 by (unfold k; rewrite length_app, length_replicate; lia).
  assert (Radix.of_digits 16 k = c) as Hvk by (unfold k; by rewrite Radix.of_digits_replicate_0).
  destruct k as [|x1 [|x2 [|x3 [|x4 [|]]]]]; try discriminate Hk4.
  exists (hex_char x1), (hex_char x2), (hex_char x3), (hex_char x4). split; [done|].
  pose proof (hex_val_hex_chars _ Hk) as Hh. cbn [fmap list_fmap] in Hh |- *. rewrite Hh. split; [|done].
  apply forallb_Forall. change (Forall (fun c => is_hex_digit c = true) (hex_char <$> [x1; x2; x3; x4])).
  apply Forall_fmap. eapply Forall_impl; [exact Hk|]. intros x Hx. by apply hex_char_is_hex.
Qed.

Lemma json_string_hex4 c s : code_unit c ->
  json_string (js "\u" ++ hex4 c ++ s) = '(t, r) ← json_string s; Some (c :: t, r).
Proof.
  intros Hc. destruct (hex4_digits c Hc) as (a & b & d & e & -> & Hh & Hv).
  change (js "\u") with [92; 117]. cbn [app json_string]. change (92 =? 34) with false.
  change (92 <? 32) with false. change (92 =? 92) with true. cbv iota. by rewrite Hh, Hv.
Qed.

Lemma json_string_plain c s : 32 <= c -> c <> 34 -> c <> 92 ->
  json_string (c :: s) = '(t, r) ← json_string s; Some (c :: t, r).
Proof. intros. cbn [json_string]. by zcmp. Qed.

Lemma json_string_escape c s : code_unit c ->
  json_string (escape_unit c ++ s) = '(t, r) ← json_string s; Some (c :: t, r).
Proof.
  intros Hc. unfold escape_unit.
  repeat match goal with |- context [?x =? ?y] => destruct (Z.eqb_spec x y) as [->|]; [done|] end.
  destruct (Z.ltb_spec c 32); [rewrite <- app_assoc; by apply json_string_hex4|]. by apply json_string_plain.
Qed.

Lemma json_string_quoted s r : Forall code_unit s -> json_string (quote_body s ++ 34 :: r) = Some (s, r).
Proof.
  induction s as [s IH] using (induction_ltof1 _ (@length Z)). unfold ltof in IH.
  destruct s as [|c s]; [done|]. intros HF. apply Forall_cons_1 in HF as [Hc HF]. cbn [quote_body].
  destruct (in_range 55296 56319 c) eqn:E1.
  - destruct s as [|d s].
    { rewrite <- app_assoc, json_string_hex4 by done. done. }
    destruct (in_range 56320 57343 d) eqn:E2.
    + apply Forall_cons_1 in HF as [Hd HF]. cbn [app]. unfold in_range in E1, E2.
      rewrite json_string_plain by lia. rewrite json_string_plain by lia.
      rewrite IH by (cbn; lia || done). done.
    + rewrite <- !app_assoc, json_string_hex4 by done. rewrite IH by (cbn; lia || done). done.
  - destruct (in_range 56320 57343 c).
    + rewrite <- !app_assoc, json_string_hex4 by done. rewrite IH by (cbn; lia || done). done.
    + rewrite <- app_assoc, json_string_escape by done. rewrite IH by (cbn; lia || done). done.
Qed.

(** What may follow a value inside a text. *)
Definition json_end (r : jsstring) : Prop := r = [] \/ exists c t, r = c :: t /\ (c = 44 \/ c = 93 \/ c = 125).

Lemma json_end_cons c r : c = 44 \/ c = 93 \/ c = 125 -> json_end (c :: r).
Proof. right. eauto. Qed.
Lemma json_end_skip c r : c = 44 \/ c = 93 \/ c = 125 -> skip_ws (c :: r) = c :: r.
Proof. by intros [->|[->| ->]]. Qed.

Lemma json_number_printed n r : 0 <= n <= 2 ^ 53 -> json_end r -> json_number (toString10 n ++ r) = Some (JNum n, r).
Proof.
  intros Hn Hr. destruct (digits_of_toString10 n ltac:(lia)) as [Hd Hne].
  assert (no_digit r) as Hnd.
  { destruct Hr as [->|(c & t & -> & [->|[->| ->]])]; [apply no_digit_nil|by apply no_digit_cons..]. }
  assert (json_sign (toString10 n ++ r) = ([], toString10 n ++ r)) as Hs.
  { destruct (toString10 n) as [|c t]; [done|]. apply Forall_cons_1 in Hd as [Hc _]. unfold is_digit, in_range in Hc.
    cbn [app json_sign]. repeat case_match; first [done|lia]. }
  unfold json_number. rewrite Hs, (re_dec_toString10 n r) by (lia || done). cbn [mbind option_bind].
  assert (json_frac r = Some ([], r) /\ json_exp r = Some ([], r)) as [Ef Ee].
  { by destruct Hr as [->|(c & t & -> & [->|[->| ->]])]. }
  rewrite Ef. cbn [mbind option_bind]. rewrite Ee. cbn [mbind option_bind].
  rewrite !app_nil_r. cbn [app]. by rewrite Number_toString10.
Qed.

(** The text of a value starts with neither white space nor a closing bracket. *)
Lemma json_head v : json_wf v -> exists c t, JSON_stringify v = c :: t /\ json_space c = false /\ c <> 93 /\ c <> 125.
Proof.
  intros [| b |n Hn|s Hs|items Hi|fields Hnd Hf].
  - by exists 110, (js "ull").
  - destruct b; [by exists 116, (js "rue")|by exists 102, (js "alse")].
  - cbn [JSON_stringify]. destruct (digits_of_toString10 n ltac:(lia)) as [Hd Hne]. destruct (toString10 n) as [|c t]; [done|].
    apply Forall_cons_1 in Hd as [Hc _]. exists c, t. revert Hc. clear. unfold is_digit, in_range, json_space. intros Hc. split_and!; [done|lia..].
  - by eexists 34, _.
  - by eexists 91, _.
  - by eexists 123, _.
Qed.

Lemma json_head_skip v r : json_wf v -> skip_ws (JSON_stringify v ++ r) = JSON_stringify v ++ r.
Proof. intros Hv. destruct (json_head v Hv) as (c & t & -> & Hc & _). cbn. by rewrite Hc. Qed.

Definition member_text (e : jsstring * Json) : jsstring := quote e.1 ++ js ":" ++ JSON_stringify e.2.

Lemma stringify_obj fields : json_wf (JObj fields) ->
  JSON_stringify (JObj fields) = js "{" ++ join_with (js ",") (member_text <$> fields) ++ js "}".
Proof.
  intros Hv. inversion Hv as [| | | | |? _ HF]; subst. cbn [JSON_stringify]. do 2 f_equal.
  f_equal. induction HF as [|[k v] l [_ Hw] HF IH]; [done|]. cbn [fmap list_fmap]. rewrite filter_cons_True.
  - cbn [fmap list_fmap]. f_equal. apply IH. constructor; [by inversion Hv as [| | | | |? Hnd _]; inversion Hnd|done].
  - cbn [fst snd] in *. by destruct Hw.
Qed.

Lemma set_field_new k v l : k ∉ l.*1 -> set_field k v l = l ++ [(k, v)].
Proof.
  induction l as [|[k' v'] l IH]; cbn; [done|]. intros Hk. apply not_elem_of_cons in Hk as [Hne Hk].
  rewrite bool_decide_eq_false_2 by congruence. by rewrite IH.
Qed.

Lemma object_of_distinct members : NoDup members.*1 -> object_of members = members.
Proof.
  assert (forall acc, NoDup (acc ++ members).*1 ->
    foldl (fun acc '(k, v) => set_field k v acc) acc members = acc ++ members) as Hg; [|exact (Hg [])].
  induction members as [|[k v] l IH]; intros acc Hn; cbn [foldl]; [by rewrite app_nil_r|].
  rewrite set_field_new.
  - rewrite IH; rewrite <- app_assoc; done.
  - rewrite fmap_app, NoDup_app in Hn. destruct Hn as (_ & Hd & _). intros Hk. apply (Hd k Hk). left.
Qed.

(** What the three parsers do at a given fuel. *)
Definition reads_values (n : nat) : Prop := forall v r, json_wf v -> json_end r ->
  (length (JSON_stringify v) < n)%nat -> json_value n (JSON_stringify v ++ r) = Some (v, r).
Definition reads_items (n : nat) : Prop := forall l r, Forall json_wf l -> l <> [] ->
  (S (length (join_with (js ",") (JSON_stringify <$> l))) < n)%nat ->
  json_items n (join_with (js ",") (JSON_stringify <$> l) ++ 93 :: r) = Some (l, r).
Definition reads_members (n : nat) : Prop := forall l r, Forall (fun e => Forall code_unit e.1 /\ json_wf e.2) l -> l <> [] ->
  (S (length (join_with (js ",") (member_text <$> l))) < n)%nat ->
  json_members n (join_with (js ",") (member_text <$> l) ++ 125 :: r) = Some (l, r).

Lemma join_cons sep p rest : rest <> [] -> join_with sep (p :: rest) = p ++ sep ++ join_with sep rest.
Proof. by destruct rest. Qed.

Lemma items_step n : reads_values n -> reads_items n -> reads_items (S n).
Proof.
  intros Hv Hi l r HF Hne Hn. destruct l as [|v l]; [done|]. apply Forall_cons_1 in HF as [Hw HF].
  cbn [json_items]. destruct (decide (l = [])) as [->|Hl].
  - cbn [fmap list_fmap join_with] in *. rewrite json_head_skip by done. rewrite Hv by (done || lia || by apply json_end_cons; auto).
    done.
  - cbn [fmap list_fmap] in *. rewrite join_cons in * by (by destruct l). rewrite !length_app in Hn. change (length (js ",")) with 1%nat in Hn.
    rewrite <- !app_assoc, json_head_skip by done. change (js ",") with [44] at 1. cbn [app].
    rewrite Hv by (done || lia || by apply json_end_cons; auto). cbn [mbind option_bind]. cbn [skip_ws].
    change (json_space 44) with false. cbv iota. rewrite Hi by (done || lia). done.
Qed.

Lemma members_step n : reads_values n -> reads_members n -> reads_members (S n).
Proof.
  intros Hv Hi l r HF Hne Hn. destruct l as [|[k v] l]; [done|]. apply Forall_cons_1 in HF as [[Hk Hw] HF]. cbn [fst snd] in *.
  assert (forall t, json_members (S n) (member_text (k, v) ++ t) =
    '(v, r) ← json_value n (JSON_stringify v ++ t);
    match skip_ws r with
    | 44 :: r => '(l, r) ← json_members n r; Some ((k, v) :: l, r)
    | 125 :: r => Some ([(k, v)], r)
    | _ => None
    end) as Hstep.
  { intros t. cbn [json_members]. unfold member_text, quote. cbn [fst snd]. rewrite <- !app_assoc. cbn [app skip_ws].
    change (json_space 34) with false. cbv iota. change ((js ":" ++ JSON_stringify v ++ t)) with (58 :: JSON_stringify v ++ t).
    rewrite json_string_quoted by done. cbn [mbind option_bind skip_ws]. change (json_space 58) with false. cbv iota.
    by rewrite json_head_skip. }
  assert (length (member_text (k, v)) = (3 + length (quote_body k) + length (JSON_stringify v))%nat) as Hlen.
  { unfold member_text, quote. rewrite !length_app. cbn. lia. }
  destruct (decide (l = [])) as [->|Hl].
  - cbn [fmap list_fmap join_with] in *. rewrite Hstep, Hv by (done || lia || by apply json_end_cons; auto). done.
  - cbn [fmap list_fmap] in *. rewrite join_cons in * by (by destruct l). rewrite !length_app in Hn. change (length (js ",")) with 1%nat in Hn.
    rewrite <- !app_assoc. change (js ",") with [44] at 1. cbn [app].
    rewrite Hstep, Hv by (done || lia || by apply json_end_cons; auto). cbn [mbind option_bind skip_ws].
    change (json_space 44) with false. cbv iota. rewrite Hi by (done || lia). done.
Qed.

Lemma values_step n : reads_values n -> reads_items n -> reads_members n -> reads_values (S n).
Proof.
  intros Hv Hi Hm v r Hw Hr Hn. pose proof (json_head v Hw) as (h & th & Hh & _).
  destruct Hw as [|b|z Hz|s Hs|items HF|fields Hnd HF].
  - done.
  - by destruct b.
  - cbn [JSON_stringify] in *. rewrite <- (json_number_printed z r Hz Hr).
    destruct (digits_of_toString10 z ltac:(lia)) as [Hd _]. rewrite Hh in *. apply Forall_cons_1 in Hd as [Hc _].
    unfold is_digit, in_range in Hc. cbn [app json_value]. zcmp. cbv iota.
    unfold startsWith. rewrite !bool_decide_eq_false_2; [done|..]; intros E; cbn in E; injection E as E _; lia.
  - cbn [JSON_stringify]. unfold quote. rewrite <- !app_assoc. cbn [app json_value].
    change (34 =? 34) with true. cbv iota. by rewrite json_string_quoted.
  - destruct (decide (items = [])) as [->|Hne]; [done|]. cbn [JSON_stringify] in *. rewrite !length_app in Hn.
    change (js "[") with [91] in *. change (js "]") with [93] in *. cbn [length] in Hn.
    rewrite <- !app_assoc. cbn [app json_value]. change (91 =? 34) with false. change (91 =? 91) with true. cbv iota.
    assert (exists c t, join_with (js ",") (JSON_stringify <$> items) = c :: t /\ json_space c = false /\ c <> 93) as (c & t & Ej & Hsp & H93).
    { destruct items as [|v l]; [done|]. apply Forall_cons_1 in HF as [Hw HF].
      destruct (json_head v Hw) as (c & t & E & ? & ? & _). cbn [fmap list_fmap]. destruct l as [|w l].
      - exists c, t. by cbn.
      - eexists c, _. cbn [fmap list_fmap join_with]. by rewrite E. }
    assert (skip_ws (join_with (js ",") (JSON_stringify <$> items) ++ 93 :: r) =
      c :: t ++ 93 :: r) as -> by (rewrite Ej; cbn; by rewrite Hsp).
    rewrite Hi by (done || lia). cbn [mbind option_bind].
    destruct (Z.eqb_spec c 93); [done|]. repeat case_match; congruence || done.
  - destruct (decide (fields = [])) as [->|Hne]; [done|]. rewrite stringify_obj in * by (by constructor).
    rewrite !length_app in Hn.
    change (js "{") with [123] in *. change (js "}") with [125] in *. cbn [length] in Hn.
    rewrite <- !app_assoc. cbn [app json_value]. change (123 =? 34) with false. change (123 =? 91) with false.
    change (123 =? 123) with true. cbv iota.
    assert (exists t, join_with (js ",") (member_text <$> fields) = 34 :: t) as [t Ej].
    { destruct fields as [|e [|w l]]; [done|by eexists..]. }
    rewrite Hm by (done || lia). cbn [mbind option_bind]. rewrite object_of_distinct by done.
    by rewrite Ej.
Qed.

Lemma readers n : reads_values n /\ reads_items n /\ reads_members n.
Proof.
  induction n as [|n (Hv & Hi & Hm)]; [by split_and!; intros ???; lia|].
  split_and!; [by apply values_step|by apply items_step|by apply members_step].
Qed.

(** [JSON.parse(JSON.stringify(v))] is [v]. *)
Lemma JSON_roundtrip v : json_wf v -> JSON_parse (JSON_stringify v) = Ok v.
Proof.
  intros Hw. unfold JSON_parse. pose proof (json_head_skip v [] Hw) as Hs. rewrite app_nil_r in Hs. rewrite Hs.
  destruct (readers (S (length (JSON_stringify v)))) as [Hv _].
  pose proof (Hv v [] Hw (or_introl eq_refl) ltac:(lia)) as E. rewrite app_nil_r in E. by rewrite E.
Qed.

Example json_parse_sample :
  JSON_parse [123; 32; 34; 97; 34; 58; 91; 49; 44; 45; 50; 101; 49; 93; 125] =
  Ok (JObj [(js "a", JArr [JNum 1; JNum (-20)])]).
Proof. vm_compute. reflexivity. Qed.
