(* ===== verification/HexBytes.v ===== *)
(** * Byte, hex and bigint primitives

    packages/lit-allocator/src/common/bytes.ts: hex validation and decoding,
    typed-array concatenation and comparison, big-endian integers. *)

From Stdlib Require Import Strings.Byte.
From S2P Require Import Prelude JsNum JsString.
Local Open Scope Z_scope.
Local Open Scope js_scope.

(** [String(hex).replace(/^0x/i, "")]. *)
Definition strip_0x (s : jsstring) : jsstring :=
  match s with
  | 48 :: 120 :: r | 48 :: 88 :: r => r
  | _ => s
  end.

Definition normalizeHex (hex : jsstring) (field : string) : result jsstring :=
  let clean := strip_0x hex in
  fail_if negb (forallb is_hex_digit clean) || negb (Nat.eqb (length clean mod 2) 0)
    with ("invalid hex for " +:+ field) ;;
  Ok (toLowerCase clean).

(** The loop [bytes[i] = parseInt(clean.slice(i * 2, i * 2 + 2), 16)]. *)
Fixpoint parse_pairs (clean : jsstring) : bytes :=
  match clean with
  | a :: b :: r => u8 (hex_val a * 16 + hex_val b) :: parse_pairs r
  | _ => []
  end.

Definition hexToBytes (hex : jsstring) (field : string) : result bytes :=
  clean ← normalizeHex hex field; Ok (parse_pairs clean).

Definition bytesToHex (l : bytes) : jsstring :=
  mjoin ((fun b => padStart 2 48 (toString16 (bz b))) <$> l).

(** [out.set(arr, offset)] on typed arrays. *)
Definition set_at (out : bytes) (offset : nat) (arr : bytes) : bytes :=
  take offset out ++ arr ++ drop (offset + length arr) out.

Definition concatBytes (arrays : list bytes) : bytes :=
  let total := foldl (fun sum arr => (sum + length arr)%nat) 0%nat arrays in
  fst (foldl (fun '(out, offset) arr => (set_at out offset arr, (offset + length arr)%nat))
             (zeros total, 0%nat) arrays).

Fixpoint equal_loop (a b : bytes) : bool :=
  match a, b with
  | x :: a', y :: b' => if bool_decide (x = y) then equal_loop a' b' else false
  | _, _ => true
  end.
Definition equalBytes (a b : bytes) : bool :=
  if negb (Nat.eqb (length a) (length b)) then false else equal_loop a b.

Definition bytesToBigInt (l : bytes) : Z :=
  foldl (fun n b => Z.shiftl n 8 + bz b) 0 l.

Definition bigIntToBytes (value : Z) : result bytes :=
  if value =? 0 then Ok []
  else
    let hex := toString16 value in
    let hex := if Nat.eqb (length hex mod 2) 0 then hex else 48 :: hex in
    hexToBytes hex "quantity".

Definition expectLength (l : bytes) (len : nat) (field : string) : result bytes :=
  fail_if negb (Nat.eqb (length l) len) with (field +:+ " must be exactly N bytes") ;;
  Ok l.

(** ** Lemmas *)

Lemma byte_hex b :
  padStart 2 48 (toString16 (bz b)) = [hex_char (bz b / 16); hex_char (bz b mod 16)].
Proof. destruct b; reflexivity. Qed.

Lemma bytesToHex_cons b l :
  bytesToHex (b :: l) = hex_char (bz b / 16) :: hex_char (bz b mod 16) :: bytesToHex l.
Proof. unfold bytesToHex. cbn [fmap list_fmap mjoin list_join]. by rewrite byte_hex. Qed.

Lemma length_bytesToHex l : length (bytesToHex l) = (2 * length l)%nat.
Proof. induction l as [|b l IH]; [done|]. rewrite bytesToHex_cons. cbn [length]. lia. Qed.

Lemma nibbles b : 0 <= bz b / 16 < 16 /\ 0 <= bz b mod 16 < 16.
Proof.
  pose proof (bz_range b). split; [split; [apply Z.div_pos; lia|apply Z.div_lt_upper_bound; lia]|].
  apply Z.mod_pos_bound. lia.
Qed.

Lemma bytesToHex_hex l : Forall (fun c => is_hex_digit c = true /\ lower_char c = c) (bytesToHex l).
Proof.
  induction l as [|b l IH]; [constructor|]. rewrite bytesToHex_cons.
  destruct (nibbles b). repeat constructor; auto using hex_char_is_hex, hex_char_lower.
Qed.

Lemma parse_pairs_bytesToHex l : parse_pairs (bytesToHex l) = l.
Proof.
  induction l as [|b l IH]; [done|]. rewrite bytesToHex_cons. cbn [parse_pairs].
  destruct (nibbles b). rewrite !hex_char_val, IH by done. f_equal.
  rewrite <- (u8_bz b) at 3. f_equal. pose proof (Z.div_mod (bz b) 16). lia.
Qed.

(** Strings of hex digits never start with the [0x] prefix. *)
Lemma strip_0x_hex s : Forall (fun c => is_hex_digit c = true) s -> strip_0x s = s.
Proof.
  intros H. destruct s as [|a [|b r]]; try done; cbn.
  - by repeat case_match.
  - apply Forall_cons_1 in H as [_ H]. apply Forall_cons_1 in H as [Hb _].
    destruct (decide (b = 120)) as [->|]; [discriminate Hb|].
    destruct (decide (b = 88)) as [->|]; [discriminate Hb|].
    repeat case_match; simplify_eq; done.
Qed.

Lemma normalizeHex_ok hex field s :
  normalizeHex hex field = Ok s <->
  Forall (fun c => is_hex_digit c = true) (strip_0x hex) /\
  (length (strip_0x hex) mod 2 = 0)%nat /\ s = toLowerCase (strip_0x hex).
Proof.
  unfold normalizeHex. rewrite <- forallb_Forall. split.
  - intros H. res_inv H. bool_prop. naive_solver.
  - intros (H1 & H2 & ->). by rewrite H1, H2.
Qed.

Lemma normalizeHex_hex s field :
  Forall (fun c => is_hex_digit c = true) s -> (length s mod 2 = 0)%nat ->
  normalizeHex s field = Ok (toLowerCase s).
Proof. intros H1 H2. apply normalizeHex_ok. by rewrite strip_0x_hex. Qed.

Lemma even_mod2 n : ((2 * n) mod 2 = 0)%nat.
Proof. rewrite Nat.mul_comm. apply Nat.Div0.mod_mul. Qed.

Lemma normalizeHex_bytesToHex l field : normalizeHex (bytesToHex l) field = Ok (bytesToHex l).
Proof.
  pose proof (bytesToHex_hex l) as H. rewrite normalizeHex_hex.
  - f_equal. apply toLowerCase_id. eapply Forall_impl; [exact H|]. naive_solver.
  - eapply Forall_impl; [exact H|]. naive_solver.
  - rewrite length_bytesToHex. apply even_mod2.
Qed.

Lemma hexToBytes_hex l field : hexToBytes (bytesToHex l) field = Ok l.
Proof. unfold hexToBytes. rewrite normalizeHex_bytesToHex. cbn. by rewrite parse_pairs_bytesToHex. Qed.

Lemma hexToBytes_0x l field : hexToBytes (js "0x" ++ bytesToHex l) field = Ok l.
Proof.
  assert (normalizeHex (js "0x" ++ bytesToHex l) field = Ok (bytesToHex l)) as H.
  { transitivity (normalizeHex (bytesToHex l) field); [|apply normalizeHex_bytesToHex].
    assert (strip_0x (bytesToHex l) = bytesToHex l) as E.
    { apply strip_0x_hex. eapply Forall_impl; [apply bytesToHex_hex|]. naive_solver. }
    unfold normalizeHex. rewrite E. done. }
  unfold hexToBytes. rewrite H. cbn. by rewrite parse_pairs_bytesToHex.
Qed.

(** Decoding keeps exactly the normalized digits. *)
Lemma bytesToHex_parse_pairs s :
  Forall (fun c => is_hex_digit c = true /\ lower_char c = c) s -> (length s mod 2 = 0)%nat ->
  bytesToHex (parse_pairs s) = s.
Proof.
  revert s. fix IH 1. intros s H Hlen.
  destruct s as [|a [|b r]]; [done|discriminate|].
  apply Forall_cons_1 in H as [[Ha La] H]. apply Forall_cons_1 in H as [[Hb Lb] H].
  cbn [parse_pairs]. rewrite bytesToHex_cons.
  pose proof (hex_val_range a Ha). pose proof (hex_val_range b Hb).
  rewrite bz_u8_small by lia.
  rewrite Z.div_add_l, Z.div_small, Z.add_0_r by lia.
  replace ((hex_val a * 16 + hex_val b) mod 16) with (hex_val b)
    by (apply Z.mod_unique with (hex_val a); lia).
  rewrite !hex_val_char, La, Lb by done. do 2 f_equal. apply IH; [done|].
  cbn [length] in Hlen. replace (S (S (length r))) with (length r + 1 * 2)%nat in Hlen by lia.
  by rewrite Nat.Div0.mod_add in Hlen.
Qed.

Lemma normalizeHex_chars hex field s :
  normalizeHex hex field = Ok s ->
  Forall (fun c => is_hex_digit c = true /\ lower_char c = c) s /\ (length s mod 2 = 0)%nat.
Proof.
  rewrite normalizeHex_ok. intros (H & Hl & ->). split.
  - apply Forall_fmap. eapply Forall_impl; [exact H|]. intros c Hc. cbn.
    by rewrite is_hex_lower_inv, lower_char_idem.
  - unfold toLowerCase. by rewrite length_fmap.
Qed.

Lemma hexToBytes_ok hex field l :
  hexToBytes hex field = Ok l <-> normalizeHex hex field = Ok (bytesToHex l).
Proof.
  unfold hexToBytes. split.
  - intros H. res_inv H. destruct (normalizeHex_chars _ _ _ Hs) as [Hc Hl].
    by rewrite bytesToHex_parse_pairs.
  - intros ->. cbn. by rewrite parse_pairs_bytesToHex.
Qed.

Lemma bytesToHex_inj l k : bytesToHex l = bytesToHex k -> l = k.
Proof. intros H. by rewrite <- (parse_pairs_bytesToHex l), <- (parse_pairs_bytesToHex k), H. Qed.

Lemma toLowerCase_bytesToHex l : toLowerCase (bytesToHex l) = bytesToHex l.
Proof.
  apply toLowerCase_id. eapply Forall_impl; [apply bytesToHex_hex|]. naive_solver.
Qed.

Lemma toLowerCase_0x l : toLowerCase (js "0x" ++ bytesToHex l) = js "0x" ++ bytesToHex l.
Proof. unfold toLowerCase. rewrite fmap_app. f_equal. apply toLowerCase_bytesToHex. Qed.

Lemma concat_loop arrays done_ todo :
  (foldl (fun sum arr => sum + length arr) 0 arrays)%nat = length todo ->
  fst (foldl (fun '(out, offset) arr => (set_at out offset arr, (offset + length arr)%nat))
             (done_ ++ todo, length done_) arrays) = done_ ++ mjoin arrays.
Proof.
  assert (forall l n, foldl (fun sum (arr : bytes) => (sum + length arr)%nat) n l
                      = (n + foldl (fun sum arr => (sum + length arr)%nat) 0%nat l)%nat) as Hsum.
  { induction l as [|x l IH]; intros n; cbn; [lia|]. rewrite IH, (IH (length x)). lia. }
  revert done_ todo; induction arrays as [|a arrays IH]; intros done_ todo Hlen; cbn [foldl].
  - cbn in Hlen. destruct todo; [|done]. done.
  - cbn [foldl] in Hlen. rewrite Hsum in Hlen. cbn in Hlen.
    unfold set_at. rewrite take_app_length, drop_app_add.
    rewrite app_assoc, <- length_app, IH by (rewrite length_drop; lia).
    cbn [mjoin list_join]. by rewrite <- app_assoc.
Qed.

Lemma concatBytes_join arrays : concatBytes arrays = mjoin arrays.
Proof.
  unfold concatBytes. apply (concat_loop arrays [] (zeros _)).
  unfold zeros. by rewrite length_replicate.
Qed.

Lemma equalBytes_spec a b : equalBytes a b = true <-> a = b.
Proof.
  unfold equalBytes. destruct (Nat.eqb_spec (length a) (length b)) as [Hl|Hl]; cbn.
  - revert b Hl; induction a as [|x a IH]; intros [|y b] Hl; cbn in *; try done.
    injection Hl as Hl. case_bool_decide as E.
    + rewrite IH by done. subst. split; [by intros ->|by intros [= ->]].
    + split; [done|]. by intros [= ? ?].
  - split; [done|]. by intros ->.
Qed.

Lemma bytesToBigInt_be l : bytesToBigInt l = be_val l.
Proof.
  unfold bytesToBigInt, be_val, Radix.of_digits. rewrite foldl_fmap.
  generalize 0 as n. induction l as [|b l IH]; intros n; cbn; [done|].
  rewrite IH. f_equal. rewrite Z.shiftl_mul_pow2 by lia. done.
Qed.

Lemma expectLength_ok l n field r :
  expectLength l n field = Ok r <-> r = l /\ length l = n.
Proof.
  unfold expectLength. split.
  - intros H. res_inv H. bool_prop. done.
  - intros [-> <-]. by rewrite Nat.eqb_refl.
Qed.

(** Pairs of hex digits are base-256 digits. *)
Lemma parse_pairs_val s :
  Forall (fun c => is_hex_digit c = true) s -> (length s mod 2 = 0)%nat ->
  be_val (parse_pairs s) = Radix.of_digits 16 (hex_val <$> s) /\
  (2 * length (parse_pairs s) = length s)%nat.
Proof.
  revert s. fix IH 1. intros s H Hlen. destruct s as [|a [|b r]]; [done|discriminate|].
  apply Forall_cons_1 in H as [Ha H]. apply Forall_cons_1 in H as [Hb H].
  cbn [parse_pairs length] in *.
  replace (S (S (length r))) with (length r + 1 * 2)%nat in Hlen by lia.
  rewrite Nat.Div0.mod_add in Hlen. destruct (IH r H Hlen) as [E1 E2].
  pose proof (hex_val_range a Ha). pose proof (hex_val_range b Hb). split; [|lia].
  change (be_val (u8 (hex_val a * 16 + hex_val b) :: parse_pairs r)) with
    (be_val ([u8 (hex_val a * 16 + hex_val b)] ++ parse_pairs r)).
  rewrite be_val_app, E1. unfold be_val at 1. cbn [fmap list_fmap].
  rewrite bz_u8_small by lia. rewrite !Radix.of_digits_cons by lia.
  cbn [length]. rewrite length_fmap. replace (length r) with (2 * length (parse_pairs r))%nat by lia.
  rewrite Nat2Z.inj_succ, Nat2Z.inj_mul, Z.pow_succ_r, Z.pow_mul_r by lia.
  change (16 ^ Z.of_nat 2) with 256. cbn [Radix.of_digits foldl length].
  rewrite Z.pow_0_r. lia.
Qed.

(** A digit string, possibly padded with a zero, decodes to its value. *)
Lemma hexToBytes_digits d v field s :
  Radix.digits_ok 16 d -> Radix.of_digits 16 d = v ->
  s = hex_char <$> d \/ s = 48 :: (hex_char <$> d) -> (length s mod 2 = 0)%nat ->
  hexToBytes s field = Ok (parse_pairs s) /\ be_val (parse_pairs s) = v.
Proof.
  intros Hok Hv Hs Hlen.
  assert (Forall (fun c => is_hex_digit c = true) (hex_char <$> d)) as Hhex.
  { apply Forall_fmap. eapply Forall_impl; [exact Hok|]. intros x Hx. by apply hex_char_is_hex. }
  assert (toLowerCase (hex_char <$> d) = hex_char <$> d) as Hlow.
  { apply toLowerCase_id, Forall_fmap. eapply Forall_impl; [exact Hok|].
    intros x Hx. by apply hex_char_lower. }
  assert (Forall (fun c => is_hex_digit c = true) s /\ toLowerCase s = s /\
          Radix.of_digits 16 (hex_val <$> s) = v) as (F & L & V).
  { destruct Hs as [-> | ->]; cbn [fmap list_fmap].
    - rewrite hex_val_hex_chars by done. done.
    - repeat split; [by constructor|exact (f_equal (cons 48) Hlow)|].
      rewrite Radix.of_digits_cons, hex_val_hex_chars by (done || lia).
      change (hex_val 48) with 0. lia. }
  unfold hexToBytes. rewrite normalizeHex_hex, L by done.
  split; [done|]. destruct (parse_pairs_val s F Hlen) as [-> _]. done.
Qed.

(** The first byte of a padded digit string is not zero. *)
Lemma parse_pairs_head d : Radix.digits_ok 16 d -> Radix.no_leading_zero d -> d <> [] ->
  head (parse_pairs (if Nat.eqb (length d mod 2) 0 then hex_char <$> d else 48 :: (hex_char <$> d)))
  <> Some x00.
Proof.
  intros Hok Hlz Hne. unfold Radix.no_leading_zero in Hlz.
  destruct (Nat.eqb_spec (length d mod 2) 0) as [He|Ho]; destruct d as [|x r]; try done.
  - destruct r as [|y r]; [discriminate He|]. cbn in *.
    apply Forall_cons_1 in Hok as [Hx Hok]. apply Forall_cons_1 in Hok as [Hy _].
    intros [= E]. apply (f_equal bz) in E. rewrite !hex_char_val, bz_u8_small in E by lia.
    change (bz x00) with 0 in E. apply Hlz. f_equal. lia.
  - cbn in *. apply Forall_cons_1 in Hok as [Hx _].
    intros [= E]. apply (f_equal bz) in E. rewrite hex_char_val, bz_u8_small in E by lia.
    change (bz x00) with 0 in E. apply Hlz. f_equal. lia.
Qed.

(** Minimal big-endian bytes: the value is kept and there is no leading zero. *)
Lemma bigIntToBytes_spec v : 0 <= v ->
  exists l, bigIntToBytes v = Ok l /\ be_val l = v /\ head l <> Some x00.
Proof.
  intros Hv. unfold bigIntToBytes. destruct (Z.eqb_spec v 0) as [->|Hne]; [by exists []|].
  unfold toString16. zcmp.
  destruct (Radix.to_digits_spec 16 ltac:(lia) v Hv) as (Hval & Hok & Hlz).
  set (d := Radix.to_digits 16 v) in *.
  assert (d <> []) as Hd by (intros E; rewrite E in Hval; cbn in Hval; lia).
  pose proof (parse_pairs_head d Hok Hlz Hd) as Hhead. rewrite length_fmap.
  destruct (Nat.eqb_spec (length d mod 2) 0) as [He|Ho].
  - destruct (hexToBytes_digits d v "quantity" (hex_char <$> d)) as [-> ?];
      [done|done|by left|by rewrite length_fmap|]. by eexists.
  - destruct (hexToBytes_digits d v "quantity" (48 :: (hex_char <$> d))) as [-> ?];
      [done|done|by right| |by eexists].
    cbn [length]. rewrite length_fmap. pose proof (Nat.mod_upper_bound (length d) 2 ltac:(lia)).
    rewrite <- Nat.add_1_r, Nat.Div0.add_mod. replace (length d mod 2)%nat with 1%nat by lia. done.
Qed.

(** [BigInt("0x...")] of a printed byte string is its big-endian value. *)
Lemma BigInt_hex0x l : l <> [] -> BigInt (js "0x" ++ bytesToHex l) = Ok (be_val l).
Proof.
  intros Hne. pose proof (bytesToHex_hex l) as Hhex.
  assert (Forall (fun c => is_hex_digit c = true) (bytesToHex l)) as Hdig.
  { eapply Forall_impl; [exact Hhex|]. naive_solver. }
  unfold BigInt, StringToBigInt. rewrite trim_id.
  2: { intros c Hc. apply elem_of_app in Hc as [Hc|Hc].
       - repeat (apply elem_of_cons in Hc as [->|Hc]; [done|]). by apply not_elem_of_nil in Hc.
       - rewrite Forall_forall in Hdig. by apply hex_not_space, Hdig. }
  change (js "0x" ++ bytesToHex l) with (48 :: 120 :: bytesToHex l).
  rewrite bool_decide_false by done. cbv beta iota. unfold radix_literal.
  rewrite bool_decide_false by (destruct l; [done|by rewrite bytesToHex_cons]).
  rewrite (proj2 (forallb_Forall _ _)) by done. cbn. f_equal.
  destruct (parse_pairs_val (bytesToHex l) Hdig) as [<- _].
  - rewrite length_bytesToHex. apply even_mod2.
  - by rewrite parse_pairs_bytesToHex.
Qed.

Lemma hexToBytes_length s field b : hexToBytes s field = Ok b -> (2 * length b <= length s)%nat.
Proof.
  intros H. apply hexToBytes_ok in H. apply normalizeHex_ok in H as (_ & _ & H).
  apply (f_equal length) in H. unfold toLowerCase in H. rewrite length_bytesToHex, length_fmap in H.
  assert (length (strip_0x s) <= length s)%nat; [|lia].
  unfold strip_0x. repeat case_match; subst; cbn [length]; lia.
Qed.

(** Leading-zero-free bytes are determined by their value. *)
Lemma be_val_minimal_inj (l k : bytes) :
  head l <> Some x00 -> head k <> Some x00 -> be_val l = be_val k -> l = k.
Proof.
  intros Hl Hk E. rewrite <- (Uint8Array_from_bz l), <- (Uint8Array_from_bz k). f_equal.
  assert (forall m : bytes, head m <> Some x00 -> Radix.to_digits 256 (be_val m) = bz <$> m) as D.
  { intros m Hm. unfold be_val. apply Radix.to_of_digits; [lia|apply Forall_bz|].
    destruct m as [|b m]; [done|]. intros [= Eb]. apply Hm. cbn. f_equal. by apply bz_inj. }
  by rewrite <- !D, E by done.
Qed.

(** ** Properties *)

(** Hex decoding is exact: a string is accepted exactly when, after an
    optional 0x prefix, it has an even number of hex digits; the bytes then print
    back as its lower-cased digits, printed bytes (with or without the prefix)
    decode to themselves, and anything else is an error. *)
Theorem hex_codec hex field l :
  (hexToBytes hex field = Ok l <->
   Forall (fun c => is_hex_digit c = true) (strip_0x hex) /\
   (length (strip_0x hex) mod 2 = 0)%nat /\ bytesToHex l = toLowerCase (strip_0x hex)) /\
  hexToBytes (bytesToHex l) field = Ok l /\ hexToBytes (js "0x" ++ bytesToHex l) field = Ok l.
Proof.
  split_and!; [|apply hexToBytes_hex|apply hexToBytes_0x].
  by rewrite hexToBytes_ok, normalizeHex_ok.
Qed.

(** Integers survive the byte encoding: bigIntToBytes of a non-negative
    integer succeeds, bytesToBigInt reads the same integer back, the bytes carry
    no leading zero, and no other leading-zero-free byte string has that value. *)
Theorem bigint_roundtrip v :
  0 <= v ->
  exists l, bigIntToBytes v = Ok l /\ bytesToBigInt l = v /\ head l <> Some x00 /\
    forall k, bytesToBigInt k = v -> head k <> Some x00 -> k = l.
Proof.
  intros Hv. destruct (bigIntToBytes_spec v Hv) as (l & Hl & Hval & Hh).
  exists l. rewrite bytesToBigInt_be. split_and!; try done.
  intros k Hk Hkh. rewrite bytesToBigInt_be in Hk. apply be_val_minimal_inj; congruence.
Qed.

Lemma bigint_roundtrip_witness :
  exists l, bigIntToBytes 66051 = Ok l /\ bytesToBigInt l = 66051 /\ head l <> Some x00 /\
    forall k, bytesToBigInt k = 66051 -> head k <> Some x00 -> k = l.
Proof. apply (bigint_roundtrip 66051). lia. Defined.
