(* ===== verification/Abi.v ===== *)
(** * Solidity ABI encoding of a withdraw request

    packages/lit-allocator/src/common/abi.ts and the request type of
    common/types.ts.  The encoder is translated loop by loop; [abi_decode] is
    a decoder written from the ABI specification (head offsets, length-prefixed
    tails), and the lemmas show that it recovers every field of an encoded
    request, so that the encoding, and hence its hash input, determines the
    request. *)

From Stdlib Require Import Strings.Byte.
From S2P Require Import Prelude JsNum JsString HexBytes.
Local Open Scope Z_scope.
Local Open Scope js_scope.

Record WithdrawRequest := {
  chainId : jsstring;
  depository : jsstring;
  currency : jsstring;
  amount : jsstring;
  spenderChainId : jsstring;
  spender : jsstring;
  receiver : jsstring;
  data : jsstring;
  nonce : jsstring;
}.

(** [string | number | bigint]; numbers and bigints are both integers here. *)
Inductive QuantityInput :=
  | QString (s : jsstring)
  | QInt (n : Z).

(** [String(value)]. *)
Definition quantityString (value : QuantityInput) : jsstring :=
  match value with QString s => s | QInt n => toString10 n end.

Definition parseQuantity (value : QuantityInput) (field : string) : result Z :=
  let s := quantityString value in
  fail_if Nat.eqb (length s) 0 with ("invalid quantity for " +:+ field) ;;
  BigInt s.

(** The loop of [quantityToWord], from the last byte to the first. *)
Fixpoint word_loop (n : nat) (x : Z) (acc : bytes) : bytes :=
  match n with
  | O => acc
  | S n' => word_loop n' (Z.shiftr x 8) (u8 (Z.land x 255) :: acc)
  end.

Definition quantityToWord (value : QuantityInput) (field : string) : result bytes :=
  n ← parseQuantity value field;
  fail_if (n <? 0) || (Z.shiftl 1 256 <=? n) with (field +:+ " does not fit uint256") ;;
  Ok (word_loop 32 n []).

(** [Math.ceil(bytes.length / 32) * 32]. *)
Definition padded_length (l : bytes) : nat :=
  Z.to_nat (ceil_div (Z.of_nat (length l)) 32 * 32).

Definition padRight32 (l : bytes) : bytes :=
  set_at (zeros (padded_length l)) 0 l.

Definition abiEncodeBytes (l : bytes) : result bytes :=
  w ← quantityToWord (QInt (Z.of_nat (length l))) "bytes.length";
  Ok (concatBytes [w; padRight32 l]).

Definition abiEncodeString (value : jsstring) : result bytes :=
  abiEncodeBytes (TextEncoder_encode value).

Definition encodeHexField (hex : jsstring) (field : string) : result bytes :=
  b ← hexToBytes hex field; abiEncodeBytes b.

(** The head/tail loop over the nine slots; [todo] counts the slots left. *)
Fixpoint slot_loop (req : WithdrawRequest) (nonce_ : bytes) (parts : list (option bytes))
    (todo i : nat) (head_ tail_ : list bytes) (offset : Z)
  : result (list bytes * list bytes) :=
  match todo with
  | O => Ok (head_, tail_)
  | S todo' =>
      if Nat.eqb i 3 then
        w ← quantityToWord (QString (amount req)) "amount";
        slot_loop req nonce_ parts todo' (S i) (head_ ++ [w]) tail_ offset
      else if Nat.eqb i 8 then
        slot_loop req nonce_ parts todo' (S i) (head_ ++ [nonce_]) tail_ offset
      else
        part ← require (mjoin (parts !! i)) "missing ABI dynamic part";
        w ← quantityToWord (QInt offset) "offset";
        slot_loop req nonce_ parts todo' (S i) (head_ ++ [w]) (tail_ ++ [part])
          (offset + Z.of_nat (length part))
  end.

Definition abiEncodeWithdrawRequest (req : WithdrawRequest) : result bytes :=
  p0 ← abiEncodeString (chainId req);
  p1 ← encodeHexField (depository req) "depository";
  p2 ← encodeHexField (currency req) "currency";
  p4 ← abiEncodeString (spenderChainId req);
  p5 ← encodeHexField (spender req) "spender";
  p6 ← encodeHexField (receiver req) "receiver";
  p7 ← encodeHexField (data req) "data";
  n ← hexToBytes (nonce req) "nonce";
  fail_if negb (Nat.eqb (length n) 32)
    with "withdraw request nonce must be exactly 32 bytes" ;;
  '(head_, tail_) ← slot_loop req n
    [Some p0; Some p1; Some p2; None; Some p4; Some p5; Some p6; Some p7; None]
    9 0 [] [] (32 * 9);
  let tupleBody := concatBytes (head_ ++ tail_) in
  w ← quantityToWord (QInt 32) "tupleOffset";
  Ok (concatBytes [w; tupleBody]).

(** keccak-256 is @noble/hashes' [keccak_256]. *)
Definition computeWithdrawRequestHash (keccak : bytes -> bytes) (req : WithdrawRequest)
  : result bytes :=
  e ← abiEncodeWithdrawRequest req; Ok (keccak e).

(** ** The request as the contract reads it *)

Record RequestFields := {
  f_chainId : bytes;
  f_depository : bytes;
  f_currency : bytes;
  f_amount : Z;
  f_spenderChainId : bytes;
  f_spender : bytes;
  f_receiver : bytes;
  f_data : bytes;
  f_nonce : bytes;
}.

Definition requestFields (req : WithdrawRequest) : result RequestFields :=
  d ← hexToBytes (depository req) "depository";
  c ← hexToBytes (currency req) "currency";
  s ← hexToBytes (spender req) "spender";
  r ← hexToBytes (receiver req) "receiver";
  x ← hexToBytes (data req) "data";
  n ← hexToBytes (nonce req) "nonce";
  a ← parseQuantity (QString (amount req)) "amount";
  Ok {| f_chainId := TextEncoder_encode (chainId req);
        f_depository := d; f_currency := c; f_amount := a;
        f_spenderChainId := TextEncoder_encode (spenderChainId req);
        f_spender := s; f_receiver := r; f_data := x; f_nonce := n |}.

(** [abi.decode(e, (WithdrawRequest))] by the ABI specification. *)
Definition word_at (e : bytes) (off : nat) : Z := be_val (take 32 (drop off e)).
Definition dyn_at (e : bytes) (base slot : nat) : bytes :=
  let off := (base + Z.to_nat (word_at e (base + 32 * slot)))%nat in
  take (Z.to_nat (word_at e off)) (drop (off + 32) e).
Definition abi_decode (e : bytes) : RequestFields :=
  let base := Z.to_nat (word_at e 0) in
  {| f_chainId := dyn_at e base 0; f_depository := dyn_at e base 1;
     f_currency := dyn_at e base 2; f_amount := word_at e (base + 32 * 3);
     f_spenderChainId := dyn_at e base 4; f_spender := dyn_at e base 5;
     f_receiver := dyn_at e base 6; f_data := dyn_at e base 7;
     f_nonce := take 32 (drop (base + 32 * 8) e) |}.

(** ** Words *)

Lemma word_loop_digits n x acc :
  bz <$> word_loop n x acc = Radix.fixed_digits n 256 x (bz <$> acc).
Proof.
  revert x acc; induction n as [|n IH]; intros x acc; [done|].
  cbn [word_loop Radix.fixed_digits]. rewrite IH. cbn [fmap list_fmap].
  rewrite bz_u8, Z.shiftr_div_pow2 by lia. change 255 with (Z.ones 8).
  rewrite Z.land_ones, Z.mod_mod by lia. done.
Qed.

Lemma length_word_loop n x : length (word_loop n x []) = n.
Proof.
  rewrite <- (length_fmap bz), word_loop_digits. by apply Radix.length_fixed_digits.
Qed.

Lemma be_val_word_loop n x : be_val (word_loop n x []) = x mod 256 ^ Z.of_nat n.
Proof. unfold be_val. rewrite word_loop_digits. by apply Radix.of_fixed_digits. Qed.

Lemma quantityToWord_ok v field w :
  quantityToWord v field = Ok w <->
  exists n, parseQuantity v field = Ok n /\ 0 <= n < 2 ^ 256 /\ w = word_loop 32 n [].
Proof.
  unfold quantityToWord. change (Z.shiftl 1 256) with (2 ^ 256). split.
  - intros H. res_inv H. apply orb_false_iff in Hs0 as [H1 H2]. bool_prop. eauto.
  - intros (n & -> & Hn & ->). cbn.
    replace (n <? 0) with false by (symmetry; apply Z.ltb_ge; lia).
    replace (2 ^ 256 <=? n) with false by (symmetry; apply Z.leb_gt; lia). done.
Qed.

Lemma toString10_nonempty n : length (toString10 n) <> 0%nat.
Proof.
  unfold toString10. destruct (Z.eqb_spec n 0); [done|]. destruct (Z.ltb_spec n 0); [done|].
  intros Hlen. destruct (Radix.to_digits_spec 10 ltac:(lia) n ltac:(lia)) as (Hv & _).
  rewrite length_fmap in Hlen. apply nil_length_inv in Hlen. rewrite Hlen in Hv. cbn in Hv. lia.
Qed.

Lemma parseQuantity_int n field : 0 <= n -> parseQuantity (QInt n) field = Ok n.
Proof.
  intros Hn. unfold parseQuantity. cbn [quantityString].
  rewrite (proj2 (Nat.eqb_neq _ _) (toString10_nonempty n)). by apply BigInt_toString10.
Qed.

Lemma quantityToWord_int n field w :
  0 <= n -> quantityToWord (QInt n) field = Ok w -> n < 2 ^ 256 /\ w = word_loop 32 n [].
Proof.
  intros Hn H. apply quantityToWord_ok in H as (m & Hm & Hr & ->).
  rewrite parseQuantity_int in Hm by done. simplify_eq. split; [lia|done].
Qed.

Lemma quantityToWord_int_ok n field :
  0 <= n < 2 ^ 256 -> quantityToWord (QInt n) field = Ok (word_loop 32 n []).
Proof. intros Hn. apply quantityToWord_ok. exists n. rewrite parseQuantity_int by lia. done. Qed.

Lemma word_at_word e off n post :
  drop off e = word_loop 32 n [] ++ post -> 0 <= n < 2 ^ 256 -> word_at e off = n.
Proof.
  intros H Hn. unfold word_at. rewrite H, take_length_app by (by rewrite length_word_loop).
  rewrite be_val_word_loop. by apply Z.mod_small.
Qed.

(** ** Dynamic parts *)

Lemma padded_length_ge l : (length l <= padded_length l)%nat.
Proof.
  unfold padded_length, ceil_div.
  assert (Z.of_nat (length l) <= (Z.of_nat (length l) + 32 - 1) / 32 * 32); [|lia].
  pose proof (Z.div_mod (Z.of_nat (length l) + 31) 32). pose proof (Z.mod_pos_bound (Z.of_nat (length l) + 31) 32).
  replace (Z.of_nat (length l) + 32 - 1) with (Z.of_nat (length l) + 31) by lia. lia.
Qed.

Lemma padded_length_le l : (padded_length l <= length l + 31)%nat.
Proof.
  unfold padded_length, ceil_div.
  pose proof (Z.mul_div_le (Z.of_nat (length l) + 32 - 1) 32 ltac:(lia)). lia.
Qed.

Lemma padRight32_eq l : padRight32 l = l ++ zeros (padded_length l - length l).
Proof.
  unfold padRight32, set_at, zeros. rewrite take_0, app_nil_l, Nat.add_0_l, drop_replicate. done.
Qed.

Lemma abiEncodeBytes_ok l p :
  abiEncodeBytes l = Ok p ->
  Z.of_nat (length l) < 2 ^ 256 /\
  p = word_loop 32 (Z.of_nat (length l)) [] ++ l ++ zeros (padded_length l - length l).
Proof.
  unfold abiEncodeBytes. intros H. res_inv H.
  apply quantityToWord_int in Hs as [Hn ->]; [|lia]. split; [done|].
  rewrite concatBytes_join. cbn [mjoin list_join]. by rewrite app_nil_r, padRight32_eq.
Qed.

(** A dynamic part read back at its offset. *)
Lemma dyn_at_part e base slot off l post :
  word_at e (base + 32 * slot) = Z.of_nat off -> Z.of_nat (length l) < 2 ^ 256 ->
  drop (base + off) e =
    (word_loop 32 (Z.of_nat (length l)) [] ++ l ++ zeros (padded_length l - length l)) ++ post ->
  dyn_at e base slot = l.
Proof.
  intros Hoff Hlen Hdrop. unfold dyn_at. rewrite Hoff, Nat2Z.id.
  rewrite <- !app_assoc in Hdrop. rewrite (word_at_word _ _ _ _ Hdrop) by lia.
  rewrite Nat2Z.id, <- drop_drop, Hdrop, drop_length_app by (by rewrite length_word_loop).
  by apply take_length_app.
Qed.

(** Skipping the first [k] chunks of a concatenation. *)
Lemma drop_join {A} k (cs : list (list A)) n :
  n = length (mjoin (take k cs)) -> drop n (mjoin cs) = mjoin (drop k cs).
Proof.
  intros ->. rewrite <- (take_drop k cs) at 2. rewrite join_app. apply drop_app_length.
Qed.

(** ** The layout of an encoded request *)

Definition enc_part (l : bytes) : bytes :=
  word_loop 32 (Z.of_nat (length l)) [] ++ l ++ zeros (padded_length l - length l).
Definition dyn_fields (f : RequestFields) : list bytes :=
  [f_chainId f; f_depository f; f_currency f; f_spenderChainId f; f_spender f; f_receiver f; f_data f].
Definition tail_offset (f : RequestFields) (k : nat) : Z :=
  288 + Z.of_nat (length (mjoin (take k (enc_part <$> dyn_fields f)))).
Definition head_chunks (f : RequestFields) : list bytes :=
  let w k := word_loop 32 (tail_offset f k) [] in
  [w 0%nat; w 1%nat; w 2%nat; word_loop 32 (f_amount f) []; w 3%nat; w 4%nat; w 5%nat; w 6%nat;
   f_nonce f].
Definition chunks (f : RequestFields) : list bytes :=
  word_loop 32 32 [] :: head_chunks f ++ (enc_part <$> dyn_fields f).

Record fields_ok (f : RequestFields) : Prop := {
  fo_amount : 0 <= f_amount f < 2 ^ 256;
  fo_nonce : length (f_nonce f) = 32%nat;
  fo_dyn : Forall (fun l => Z.of_nat (length l) < 2 ^ 256) (dyn_fields f);
  fo_off : forall k, (k < 7)%nat -> tail_offset f k < 2 ^ 256;
}.

Lemma encodeHexField_ok hex field p :
  encodeHexField hex field = Ok p ->
  exists l, hexToBytes hex field = Ok l /\ Z.of_nat (length l) < 2 ^ 256 /\ p = enc_part l.
Proof.
  unfold encodeHexField. intros H. res_inv H. apply abiEncodeBytes_ok in H as [? ->]. eauto.
Qed.

Lemma slot_loop_ok req n p0 p1 p2 p4 p5 p6 p7 hd tl :
  slot_loop req n [Some p0; Some p1; Some p2; None; Some p4; Some p5; Some p6; Some p7; None]
    9 0 [] [] (32 * 9) = Ok (hd, tl) ->
  exists a, parseQuantity (QString (amount req)) "amount" = Ok a /\ 0 <= a < 2 ^ 256 /\
  let off ps := 288 + Z.of_nat (length (mjoin ps)) in
  let w ps := word_loop 32 (off ps) [] in
  tl = [p0; p1; p2; p4; p5; p6; p7] /\
  hd = [w []; w [p0]; w [p0; p1]; word_loop 32 a []; w [p0; p1; p2]; w [p0; p1; p2; p4];
        w [p0; p1; p2; p4; p5]; w [p0; p1; p2; p4; p5; p6]; n] /\
  forall k, (k < 7)%nat -> off (take k [p0; p1; p2; p4; p5; p6; p7]) < 2 ^ 256.
Proof.
  intros H. cbn [slot_loop Nat.eqb] in H. change (32 * 9) with 288 in H.
  repeat (rewrite bind_ok in H; destruct H as (? & ?Hs & H)).
  cbn in Hs, Hs1, Hs3, Hs6, Hs8, Hs10, Hs12. simplify_eq.
  apply quantityToWord_ok in Hs5 as (a & Ha & Hr & ->). exists a. split_and!; try done; try lia.
  repeat match goal with
  | Hq : quantityToWord (QInt _) _ = Ok _ |- _ =>
      apply quantityToWord_int in Hq as [? ->]; [|lia] end.
  cbn [app mjoin list_join take]. rewrite !length_app, !Nat2Z.inj_add.
  cbn [length Z.of_nat]. rewrite !Z.add_0_r, !Z.add_assoc. split_and!; try done.
  intros k Hk. do 7 (destruct k as [|k];
    [cbn [take mjoin list_join]; rewrite ?length_app, ?Nat2Z.inj_add; cbn [length Z.of_nat]; lia|]).
  lia.
Qed.

Lemma encode_layout req e :
  abiEncodeWithdrawRequest req = Ok e ->
  exists f, requestFields req = Ok f /\ fields_ok f /\ e = mjoin (chunks f).
Proof.
  unfold abiEncodeWithdrawRequest. intros H.
  repeat (rewrite bind_ok in H; destruct H as (? & ?Hs & H)).
  destruct x8 as [hd tl]. rewrite bind_ok in H. destruct H as (w & Hw & [= <-]).
  apply quantityToWord_int in Hw as [_ ->]; [|lia]. apply check_ok in Hs7. bool_prop.
  apply slot_loop_ok in Hs8 as (a & Ha & Hr & -> & -> & Hoff).
  unfold abiEncodeString in *.
  repeat match goal with Hp : encodeHexField _ _ = Ok _ |- _ =>
    apply encodeHexField_ok in Hp as (? & ? & ? & ->) end.
  repeat match goal with Hp : abiEncodeBytes _ = Ok _ |- _ =>
    apply abiEncodeBytes_ok in Hp as (? & ->) end.
  eexists. split.
  { unfold requestFields. repeat match goal with Hp : hexToBytes _ _ = Ok _ |- _ =>
      rewrite Hp; cbn [mbind result_bind] end. rewrite Ha. reflexivity. }
  split.
  - constructor; cbn [f_amount f_nonce]; [done|done| |].
    + unfold dyn_fields. cbn. repeat constructor; done.
    + intros k Hk. apply (Hoff k Hk).
  - rewrite !concatBytes_join. unfold chunks. cbn [mjoin list_join]. rewrite app_nil_r. reflexivity.
Qed.

(** ** Reading the layout back *)

Section Decode.
Context (f : RequestFields) (Hf : fields_ok f).
Let e := mjoin (chunks f).

Lemma length_word z : length (word_loop 32 z []) = 32%nat.
Proof using. apply length_word_loop. Qed.

Lemma head_chunk_length k : (k <= 9)%nat ->
  length (mjoin (take (S k) (chunks f))) = (32 + 32 * k)%nat.
Proof using Hf.
  destruct Hf as [_ Hn _ _]. intros Hk. unfold chunks, head_chunks.
  do 10 (destruct k as [|k]; [cbn -[word_loop tail_offset enc_part];
    rewrite ?length_app, !length_word, ?Hn; cbn [length]; lia|]). lia.
Qed.

Lemma drop_head k : (k <= 9)%nat -> drop (32 + 32 * k) e = mjoin (drop (S k) (chunks f)).
Proof using Hf. intros Hk. apply drop_join. symmetry. by apply head_chunk_length. Qed.

Lemma drop_tail k : (k < 7)%nat ->
  drop (32 + Z.to_nat (tail_offset f k)) e = mjoin (drop k (enc_part <$> dyn_fields f)).
Proof using Hf.
  intros Hk. change (drop k (enc_part <$> dyn_fields f)) with (drop (10 + k) (chunks f)).
  apply drop_join.
  change (take (10 + k) (chunks f)) with
    (take 10 (chunks f) ++ take k (enc_part <$> dyn_fields f)).
  rewrite join_app, length_app, head_chunk_length by lia. unfold tail_offset. lia.
Qed.

Lemma tail_offset_range k : (k < 7)%nat -> 0 <= tail_offset f k < 2 ^ 256.
Proof using Hf. intros Hk. pose proof (fo_off f Hf k Hk). unfold tail_offset in *. lia. Qed.

Lemma base_word : Z.to_nat (word_at e 0) = 32%nat.
Proof using.
  rewrite (word_at_word e 0 32 (mjoin (head_chunks f ++ (enc_part <$> dyn_fields f)))); [done|done|lia].
Qed.

Lemma decode_dyn slot k l :
  (k < 7)%nat -> (slot < 9)%nat ->
  chunks f !! S slot = Some (word_loop 32 (tail_offset f k) []) ->
  dyn_fields f !! k = Some l -> dyn_at e 32 slot = l.
Proof using Hf.
  intros Hk Hslot Hchunk Hl.
  assert (word_at e (32 + 32 * slot) = tail_offset f k) as Hw.
  { eapply word_at_word; [|by apply tail_offset_range]. rewrite drop_head by lia.
    rewrite (drop_S _ _ _ Hchunk). reflexivity. }
  pose proof (tail_offset_range k Hk).
  eapply (dyn_at_part e 32 slot (Z.to_nat (tail_offset f k)) l).
  - rewrite Hw. lia.
  - pose proof (fo_dyn f Hf) as Hd. by apply (Forall_lookup_1 _ _ _ _ Hd Hl).
  - rewrite drop_tail by done. rewrite (drop_S _ (enc_part l)); [reflexivity|].
    by rewrite list_lookup_fmap, Hl.
Qed.

Lemma abi_decode_chunks : abi_decode e = f.
Proof using Hf.
  unfold abi_decode. rewrite base_word.
  rewrite (decode_dyn 0 0 (f_chainId f)), (decode_dyn 1 1 (f_depository f)),
    (decode_dyn 2 2 (f_currency f)), (decode_dyn 4 3 (f_spenderChainId f)),
    (decode_dyn 5 4 (f_spender f)), (decode_dyn 6 5 (f_receiver f)),
    (decode_dyn 7 6 (f_data f)) by (done || lia).
  rewrite (word_at_word e _ (f_amount f) (mjoin (drop 5 (chunks f)))).
  2: { rewrite drop_head by lia. reflexivity. }
  2: { apply (fo_amount f Hf). }
  rewrite drop_head by lia. cbn [chunks head_chunks app drop mjoin list_join].
  rewrite take_length_app by (by rewrite (fo_nonce f Hf)). by destruct f.
Qed.
End Decode.

Lemma abi_decode_encode req e :
  abiEncodeWithdrawRequest req = Ok e -> requestFields req = Ok (abi_decode e).
Proof.
  intros H. destruct (encode_layout req e H) as (f & -> & Hf & ->).
  by rewrite abi_decode_chunks.
Qed.

(** The encoding is total on requests whose fields parse and fit. *)
Lemma abiEncodeBytes_total l :
  Z.of_nat (length l) < 2 ^ 256 -> abiEncodeBytes l = Ok (enc_part l).
Proof.
  intros H. unfold abiEncodeBytes. rewrite quantityToWord_int_ok by lia. cbn [mbind result_bind].
  rewrite concatBytes_join. cbn [mjoin list_join]. by rewrite app_nil_r, padRight32_eq.
Qed.

Lemma encodeHexField_total hex field l :
  hexToBytes hex field = Ok l -> Z.of_nat (length l) < 2 ^ 256 ->
  encodeHexField hex field = Ok (enc_part l).
Proof. intros H Hl. unfold encodeHexField. rewrite H. by apply abiEncodeBytes_total. Qed.

Lemma slot_loop_total req f :
  parseQuantity (QString (amount req)) "amount" = Ok (f_amount f) -> fields_ok f ->
  slot_loop req (f_nonce f)
    [Some (enc_part (f_chainId f)); Some (enc_part (f_depository f)); Some (enc_part (f_currency f));
     None; Some (enc_part (f_spenderChainId f)); Some (enc_part (f_spender f));
     Some (enc_part (f_receiver f)); Some (enc_part (f_data f)); None]
    9 0 [] [] (32 * 9) = Ok (head_chunks f, enc_part <$> dyn_fields f).
Proof.
  intros Ha Hf. pose proof (tail_offset_range f Hf) as Hoff.
  assert (forall k off, (k < 7)%nat -> off = tail_offset f k ->
    quantityToWord (QInt off) "offset" = Ok (word_loop 32 (tail_offset f k) [])) as Hw.
  { intros k off Hk ->. apply quantityToWord_int_ok. by apply Hoff. }
  assert (quantityToWord (QString (amount req)) "amount" = Ok (word_loop 32 (f_amount f) [])) as Hwa.
  { apply quantityToWord_ok. exists (f_amount f). split_and!; try done; apply (fo_amount f Hf). }
  cbn [slot_loop Nat.eqb]. change (32 * 9) with 288.
  cbn [require lookup list_lookup mjoin option_join mbind result_bind option_bind id].
  assert (forall k, (k < 6)%nat -> forall l, dyn_fields f !! k = Some l ->
    tail_offset f (S k) = tail_offset f k + Z.of_nat (length (enc_part l))) as Hstep.
  { intros k Hk l Hl. unfold tail_offset. rewrite (take_S_r _ _ (enc_part l)).
    2: { by rewrite list_lookup_fmap, Hl. }
    rewrite join_app, length_app. cbn [mjoin list_join]. rewrite app_nil_r. lia. }
  assert (tail_offset f 0 = 288) as H0 by done.
  pose proof (Hstep 0%nat ltac:(lia) _ eq_refl). pose proof (Hstep 1%nat ltac:(lia) _ eq_refl).
  pose proof (Hstep 2%nat ltac:(lia) _ eq_refl). pose proof (Hstep 3%nat ltac:(lia) _ eq_refl).
  pose proof (Hstep 4%nat ltac:(lia) _ eq_refl). pose proof (Hstep 5%nat ltac:(lia) _ eq_refl).
  rewrite (Hw 6%nat), (Hw 5%nat), (Hw 4%nat), (Hw 3%nat), (Hw 2%nat), (Hw 1%nat), (Hw 0%nat), Hwa by lia.
  reflexivity.
Qed.

Lemma encode_total req f :
  requestFields req = Ok f -> fields_ok f ->
  abiEncodeWithdrawRequest req = Ok (mjoin (chunks f)).
Proof.
  intros Hreq Hf. pose proof (fo_dyn f Hf) as Hd. unfold requestFields in Hreq.
  repeat (rewrite bind_ok in Hreq; destruct Hreq as (? & ?Hs & Hreq)).
  injection Hreq as Ef.
  assert (parseQuantity (QString (amount req)) "amount" = Ok (f_amount f)) as Ha by (by subst f).
  pose proof (slot_loop_total req f Ha Hf) as Hslot. pose proof (fo_nonce f Hf) as Hn.
  subst f. cbn [f_chainId f_depository f_currency f_amount f_spenderChainId f_spender f_receiver
    f_data f_nonce dyn_fields] in Hslot, Hn, Hd.
  repeat (apply Forall_cons_1 in Hd as [? Hd]).
  unfold abiEncodeWithdrawRequest, abiEncodeString.
  rewrite abiEncodeBytes_total by done. cbn [mbind result_bind].
  do 2 (erewrite encodeHexField_total by done; cbn [mbind result_bind]).
  rewrite abiEncodeBytes_total by done. cbn [mbind result_bind].
  do 3 (erewrite encodeHexField_total by done; cbn [mbind result_bind]).
  rewrite Hs4. cbn [mbind result_bind]. rewrite Hn. cbn [Nat.eqb negb check mbind result_bind].
  rewrite Hslot. cbn [mbind result_bind].
  rewrite quantityToWord_int_ok by lia. cbn [mbind result_bind].
  rewrite !concatBytes_join. unfold chunks. cbn [mjoin list_join]. by rewrite app_nil_r.
Qed.

Lemma chunks_aligned f : fields_ok f -> (length (mjoin (chunks f)) mod 32 = 0)%nat.
Proof.
  intros Hf. change (chunks f) with (take 10 (chunks f) ++ (enc_part <$> dyn_fields f)).
  rewrite join_app, length_app, head_chunk_length by (done || lia).
  assert (forall l : bytes, (length (enc_part l) mod 32 = 0)%nat) as Hpart.
  { intros l. unfold enc_part. rewrite !length_app, length_word_loop. unfold zeros.
    rewrite length_replicate. pose proof (padded_length_ge l).
    replace (32 + (length l + (padded_length l - length l)))%nat with (32 + padded_length l)%nat by lia.
    unfold padded_length, ceil_div. rewrite Z2Nat.inj_mul by (try apply Z.div_pos; lia).
    change (Z.to_nat 32) with 32%nat.
    replace 32%nat with (1 * 32)%nat at 1 by lia. rewrite <- Nat.mul_add_distr_r.
    apply Nat.Div0.mod_mul. }
  generalize (dyn_fields f) as ls. intros ls. change (32 + 32 * 9)%nat with (10 * 32)%nat.
  rewrite Nat.Div0.add_mod, Nat.Div0.mod_mul. cbn [Nat.add].
  rewrite Nat.Div0.mod_mod. induction ls as [|l ls IH]; [done|].
  change (mjoin (enc_part <$> l :: ls)) with (enc_part l ++ mjoin (enc_part <$> ls)).
  rewrite length_app, Nat.Div0.add_mod, Hpart, IH. done.
Qed.

(** ** Properties *)

(** The encoder implements the Solidity ABI: it succeeds exactly on requests
    whose fields parse and fit (32-byte nonce, amount, lengths and offsets below
    2^256), and then its output is the head/tail layout of abi.encode for the
    nine-field tuple, chunk by chunk. *)
Theorem abi_encode_layout req e :
  abiEncodeWithdrawRequest req = Ok e <->
  exists f, requestFields req = Ok f /\ fields_ok f /\ e = mjoin (chunks f).
Proof.
  split; [apply encode_layout|]. intros (f & Hf & Hok & ->). by apply encode_total.
Qed.

(** Decoding an encoded request with a reference ABI decoder returns the
    parsed fields of the request, and the encoding is a whole number of 32-byte
    words: the encoding loses nothing. *)
Theorem abi_encode_roundtrip req e :
  abiEncodeWithdrawRequest req = Ok e ->
  requestFields req = Ok (abi_decode e) /\ (length e mod 32 = 0)%nat.
Proof.
  intros H. split; [by apply abi_decode_encode|].
  destruct (encode_layout req e H) as (f & _ & Hf & ->). by apply chunks_aligned.
Qed.

(** The withdraw-request hash binds the request: two requests with the same
    hash have the same parsed fields, unless the two different encodings
    exhibited are a keccak collision. *)
Theorem withdraw_hash_binds keccak r1 r2 h :
  computeWithdrawRequestHash keccak r1 = Ok h -> computeWithdrawRequestHash keccak r2 = Ok h ->
  requestFields r1 = requestFields r2 \/
  exists e1 e2, abiEncodeWithdrawRequest r1 = Ok e1 /\ abiEncodeWithdrawRequest r2 = Ok e2 /\
    e1 <> e2 /\ keccak e1 = keccak e2.
Proof.
  unfold computeWithdrawRequestHash. intros H1 H2.
  apply bind_ok in H1 as (e1 & E1 & [= K1]). apply bind_ok in H2 as (e2 & E2 & [= K2]).
  destruct (decide (e1 = e2)) as [->|Hne].
  - left. by rewrite (abi_decode_encode _ _ E1), (abi_decode_encode _ _ E2).
  - right. exists e1, e2. split_and!; congruence.
Qed.

(** A request, and the same request with its hex fields spelled differently. *)
Definition sample_request (spender_ : string) (nonce_ : jsstring) : WithdrawRequest := {|
  chainId := js "base"; depository := js "0x1122"; currency := js "0x";
  amount := js "1000000"; spenderChainId := js "relay"; spender := js spender_;
  receiver := js "0xff"; data := js "0x00ff00"; nonce := nonce_ |}.

Lemma abi_encode_layout_witness :
  exists e, abiEncodeWithdrawRequest (sample_request "0xABCD" (bytesToHex (zeros 32))) = Ok e /\
    exists f, requestFields (sample_request "0xABCD" (bytesToHex (zeros 32))) = Ok f /\
              fields_ok f /\ e = mjoin (chunks f).
Proof. eexists. split; [vm_compute; reflexivity|]. apply abi_encode_layout. vm_compute. reflexivity. Defined.

Lemma abi_encode_roundtrip_witness :
  exists e, abiEncodeWithdrawRequest (sample_request "0xABCD" (bytesToHex (zeros 32))) = Ok e /\
    (requestFields (sample_request "0xABCD" (bytesToHex (zeros 32))) = Ok (abi_decode e) /\
     (length e mod 32 = 0)%nat).
Proof. eexists. split; [vm_compute; reflexivity|]. apply abi_encode_roundtrip. vm_compute. reflexivity. Defined.

Lemma withdraw_hash_binds_witness :
  sample_request "0xABCD" (bytesToHex (zeros 32)) <> sample_request "abcd" (bytesToHex (zeros 32)) /\
  (requestFields (sample_request "0xABCD" (bytesToHex (zeros 32))) =
     requestFields (sample_request "abcd" (bytesToHex (zeros 32))) \/
   exists e1 e2, abiEncodeWithdrawRequest (sample_request "0xABCD" (bytesToHex (zeros 32))) = Ok e1 /\
    abiEncodeWithdrawRequest (sample_request "abcd" (bytesToHex (zeros 32))) = Ok e2 /\
    e1 <> e2 /\ take 600 e1 = take 600 e2).
Proof.
  split; [discriminate|].
  eapply (withdraw_hash_binds (take 600)); vm_compute; reflexivity.
Defined.
