(* ===== verification/Crypto.v ===== *)
(** * Key derivation of the allocator actions

    packages/lit-allocator/src/common/crypto.ts: HKDF-SHA256 written over an
    HMAC primitive.  WebCrypto's HMAC-SHA256 is the parameter [hmac]; the
    lemmas relate the loop over preallocated typed arrays to RFC 5869. *)

From Stdlib Require Import Strings.Byte.
From S2P Require Import Prelude JsNum JsString HexBytes.
Local Open Scope Z_scope.
Local Open Scope js_scope.

Definition DOMAIN_SEPARATOR : jsstring := js "relay-allocator".

Section Hkdf.
(** [hmac key data] is HMAC-SHA256. *)
Context (hmac : bytes -> bytes -> bytes).

Definition hkdfExtract (salt ikm : bytes) : bytes := hmac salt ikm.

(** One iteration builds [prev || info || i] in a fresh array. *)
Definition expand_input (prev info : bytes) (i : nat) : bytes :=
  let input := zeros (length prev + length info + 1) in
  let input := set_at input 0 prev in
  let input := set_at input (length prev) info in
  <[(length prev + length info)%nat := u8 (Z.of_nat i)]> input.

(** [for (let i = 1; i <= n; i++)]; [todo] counts the iterations left. *)
Fixpoint expand_loop (prk info : bytes) (todo i : nat) (prev okm : bytes) : bytes :=
  match todo with
  | O => okm
  | S todo' =>
      let prev' := hmac prk (expand_input prev info i) in
      expand_loop prk info todo' (S i) prev' (set_at okm ((i - 1) * 32) prev')
  end.

Definition hkdfExpand (prk info : bytes) (len : nat) : bytes :=
  let n := Z.to_nat (ceil_div (Z.of_nat len) 32) in
  take len (expand_loop prk info n 1 [] (zeros (n * 32))).

Definition deriveKey (pkpPrivateKeyHex vmTypeInfo : jsstring) : result bytes :=
  ikm ← hexToBytes pkpPrivateKeyHex "pkpPrivateKey";
  let salt := TextEncoder_encode DOMAIN_SEPARATOR in
  let info := TextEncoder_encode vmTypeInfo in
  let prk := hkdfExtract salt ikm in
  Ok (hkdfExpand prk info 32).

(** RFC 5869: [T(0) = ""], [T(i) = HMAC(PRK, T(i-1) | info | i)], and the
    output is the first [L] octets of [T(1) | T(2) | ...]. *)
Fixpoint rfc_T (prk info : bytes) (i : nat) : bytes :=
  match i with
  | O => []
  | S j => hmac prk (rfc_T prk info j ++ info ++ [u8 (Z.of_nat i)])
  end.
Definition rfc_expand (prk info : bytes) (len : nat) : bytes :=
  let n := Z.to_nat (ceil_div (Z.of_nat len) 32) in
  take len (mjoin (rfc_T prk info <$> seq 1 n)).

Lemma expand_input_eq prev info i :
  expand_input prev info i = prev ++ info ++ [u8 (Z.of_nat i)].
Proof.
  unfold expand_input, set_at, zeros.
  rewrite take_0, app_nil_l, Nat.add_0_l, drop_replicate, take_app_length, drop_app_add, drop_replicate.
  replace (length prev + length info + 1 - length prev - length info)%nat with 1%nat by lia.
  cbn [replicate]. rewrite !app_assoc, <- length_app, insert_app_r_alt by lia.
  rewrite Nat.sub_diag. reflexivity.
Qed.

Hypothesis hmac_length : forall k m, length (hmac k m) = 32%nat.

Lemma length_T_blocks prk info i : length (mjoin (rfc_T prk info <$> seq 1 i)) = (i * 32)%nat.
Proof.
  induction i as [|i IH]; [done|]. rewrite seq_S, fmap_app, join_app, length_app, IH.
  cbn. rewrite app_nil_r, hmac_length. lia.
Qed.

Lemma expand_loop_T prk info todo i :
  expand_loop prk info todo (S i) (rfc_T prk info i)
    (mjoin (rfc_T prk info <$> seq 1 i) ++ zeros (todo * 32)) =
  mjoin (rfc_T prk info <$> seq 1 (i + todo)).
Proof.
  revert i; induction todo as [|todo IH]; intros i; cbn [expand_loop].
  - by rewrite Nat.add_0_r, app_nil_r.
  - rewrite expand_input_eq. change (hmac prk _) with (rfc_T prk info (S i)).
    replace (i + S todo)%nat with (S i + todo)%nat by lia. rewrite <- IH. f_equal.
    unfold set_at. replace ((S i - 1) * 32)%nat with (length (mjoin (rfc_T prk info <$> seq 1 i)))
      by (rewrite length_T_blocks; lia).
    rewrite take_app_length, drop_app_add. unfold zeros. rewrite drop_replicate.
    replace (length (rfc_T prk info (S i))) with 32%nat by (symmetry; apply hmac_length).
    replace (S todo * 32 - 32)%nat with (todo * 32)%nat by lia.
    rewrite seq_S, fmap_app, join_app. cbn [fmap list_fmap mjoin list_join].
    by rewrite app_nil_r, app_assoc.
Qed.

Lemma hkdfExpand_rfc prk info len : hkdfExpand prk info len = rfc_expand prk info len.
Proof.
  unfold hkdfExpand, rfc_expand. f_equal. apply (expand_loop_T prk info _ 0).
Qed.

Lemma deriveKey_eq pkp ikm vm :
  hexToBytes pkp "pkpPrivateKey" = Ok ikm ->
  deriveKey pkp vm =
    Ok (hmac (hmac (TextEncoder_encode DOMAIN_SEPARATOR) ikm) (TextEncoder_encode vm ++ [x01])).
Proof.
  intros H. unfold deriveKey. rewrite H. cbn [mbind result_bind]. rewrite hkdfExpand_rfc.
  unfold rfc_expand. change (Z.to_nat (ceil_div (Z.of_nat 32) 32)) with 1%nat.
  cbn [seq fmap list_fmap mjoin list_join rfc_T]. rewrite app_nil_r, app_nil_l.
  rewrite take_ge by (rewrite hmac_length; done). done.
Qed.
End Hkdf.

(** ** Properties *)

(** The HKDF expansion over preallocated buffers computes RFC 5869: for every
    output length it is the prefix of T(1) || T(2) || ..., and deriveKey is the
    single HMAC block T(1) under the extracted key, for any 32-byte HMAC. *)
Theorem hkdf_is_rfc5869 hmac prk info len pkp ikm vm :
  (forall k m, length (hmac k m) = 32%nat) -> hexToBytes pkp "pkpPrivateKey" = Ok ikm ->
  hkdfExpand hmac prk info len = rfc_expand hmac prk info len /\
  deriveKey hmac pkp vm =
    Ok (hmac (hmac (TextEncoder_encode DOMAIN_SEPARATOR) ikm) (TextEncoder_encode vm ++ [x01])).
Proof. intros Hl Hk. split; [by apply hkdfExpand_rfc|by apply deriveKey_eq]. Qed.

Lemma hkdf_is_rfc5869_witness :
  let hmac := fun k m : bytes => take 32 (k ++ m ++ zeros 32) in
  hkdfExpand hmac [x01] [x02] 80 = rfc_expand hmac [x01] [x02] 80 /\
  deriveKey hmac (js "0x0a0b") (js "ton-vm") =
    Ok (hmac (hmac (TextEncoder_encode DOMAIN_SEPARATOR) [x0a; x0b]) (TextEncoder_encode (js "ton-vm") ++ [x01])).
Proof.
  apply (hkdf_is_rfc5869 (fun k m : bytes => take 32 (k ++ m ++ zeros 32))).
  - intros k m. rewrite length_take, !length_app. unfold zeros. rewrite length_replicate. lia.
  - reflexivity.
Defined.
