(* ===== verification/Attestation.v ===== *)
(** * Oracle attestations of withdraw requests

    packages/lit-allocator/src/common/attestation.ts and the attestation types
    of common/types.ts.  EIP-55 checksumming ([addr.addChecksum]) and EIP-712
    signature verification ([verifyTyped]) of micro-eth-signer, and keccak-256,
    are the operations of [EthSigner]. *)

From Stdlib Require Import Strings.Byte.
From S2P Require Import Prelude JsNum JsString HexBytes Abi.
Local Open Scope Z_scope.
Local Open Scope js_scope.

Record AttestationSignature := {
  oracleSigner : jsstring;
  signature : jsstring;
}.

Record WithdrawRequestAttestation := {
  att_chainId : Z;
  att_allocator : jsstring;
  att_withdrawRequestHash : jsstring;
  att_hashesToSign : list jsstring;
  att_signatures : list AttestationSignature;
}.

(** [ATTESTATION_EIP712_TYPES]: (name, type) of each field, in order. *)
Definition ATTESTATION_EIP712_TYPES : list (string * string) :=
  [("chainId", "uint256"); ("allocator", "address");
   ("withdrawRequestHash", "bytes32"); ("hashesToSign", "bytes32[]")].

Record TypedDomain := {
  dom_name : jsstring;
  dom_version : jsstring;
  dom_chainId : Z;
  dom_verifyingContract : jsstring;
}.
Record TypedMessage := {
  msg_chainId : Z;
  msg_allocator : jsstring;
  msg_withdrawRequestHash : bytes;
  msg_hashesToSign : list bytes;
}.
Record TypedData := {
  td_types : list (string * string);
  td_primaryType : jsstring;
  td_domain : TypedDomain;
  td_message : TypedMessage;
}.

Definition buildAttestationTypedData (a : WithdrawRequestAttestation)
    (withdrawRequestHashBytes : bytes) (hashesToSignBytes : list bytes) : TypedData :=
  {| td_types := ATTESTATION_EIP712_TYPES;
     td_primaryType := js "WithdrawRequest";
     td_domain := {| dom_name := js "WithdrawRequest"; dom_version := js "1";
                     dom_chainId := att_chainId a;
                     dom_verifyingContract := js "0x0000000000000000000000000000000000000000" |};
     td_message := {| msg_chainId := att_chainId a; msg_allocator := att_allocator a;
                      msg_withdrawRequestHash := withdrawRequestHashBytes;
                      msg_hashesToSign := hashesToSignBytes |} |}.

(** The external operations attestation checking relies on. *)
Class EthSigner := {
  keccak : bytes -> bytes;
  addChecksum : jsstring -> result jsstring;
  verifyTyped : jsstring -> TypedData -> jsstring -> result bool;
}.

(** EIP-55: checksumming a lower-case 20-byte address succeeds and only
    changes the case of its letters. *)
Class EthSignerLaws (E : EthSigner) : Prop := {
  addChecksum_lower : forall b : bytes, length b = 20%nat ->
    exists c, addChecksum (js "0x" ++ bytesToHex b) = Ok c /\
              toLowerCase c = js "0x" ++ bytesToHex b;
}.

Section Verify.
Context `{E : EthSigner}.

Definition normalizeAddress (address : jsstring) (field : string) : result jsstring :=
  b ← hexToBytes address field;
  b ← expectLength b 20 field;
  addChecksum (js "0x" ++ bytesToHex b).

Definition parseHash (h : jsstring) : result bytes :=
  b ← hexToBytes h "attestation.hashesToSign[]";
  expectLength b 32 "attestation.hashesToSign[]".

(** The loop over [attestation.signatures], threading the set [verified]. *)
Fixpoint signature_loop (typedData : TypedData) (allowed : gset jsstring)
    (sigs : list AttestationSignature) (verified : gset jsstring) : result (gset jsstring) :=
  match sigs with
  | [] => Ok verified
  | sig :: rest =>
      oracle ← normalizeAddress (oracleSigner sig) "attestation.signatures[].oracleSigner";
      fail_if negb (bool_decide (oracle ∈ allowed))
        with "attestation oracle is not allowlisted" ;;
      valid ← verifyTyped (signature sig) typedData oracle;
      fail_if negb valid with "attestation signature mismatch for oracle" ;;
      signature_loop typedData allowed rest ({[oracle]} ∪ verified)
  end.

Definition verifyWithdrawRequestAttestation (withdrawRequest : WithdrawRequest)
    (a : WithdrawRequestAttestation) (allocatorAddress : jsstring) (hubEvmChainId : Z)
    (allowedOracles : list jsstring) (oracleSignatureThreshold : Z)
  : result (bytes * list bytes) :=
  fail_if negb (att_chainId a =? hubEvmChainId) with "attestation chainId mismatch" ;;
  expectedAllocator ← normalizeAddress allocatorAddress "allocatorAddress";
  providedAllocator ← normalizeAddress (att_allocator a) "attestation.allocator";
  fail_if negb (bool_decide (expectedAllocator = providedAllocator))
    with "attestation allocator mismatch" ;;
  expectedHash ← computeWithdrawRequestHash keccak withdrawRequest;
  let expectedHashHex := js "0x" ++ bytesToHex expectedHash in
  fail_if negb (bool_decide
      (toLowerCase (att_withdrawRequestHash a) = toLowerCase expectedHashHex))
    with "attestation withdrawRequestHash mismatch" ;;
  fail_if Nat.eqb (length (att_hashesToSign a)) 0
    with "attestation hashesToSign must be a non-empty array" ;;
  hashesToSignBytes ← mapM parseHash (att_hashesToSign a);
  let typedData := buildAttestationTypedData a expectedHash hashesToSignBytes in
  allowed ← mapM (fun o => normalizeAddress o "allowedOracles[]") allowedOracles;
  verified ← signature_loop typedData (list_to_set allowed) (att_signatures a) ∅;
  fail_if (Z.of_nat (size verified) <? oracleSignatureThreshold)
    with "attestation signature threshold not met" ;;
  Ok (expectedHash, hashesToSignBytes).

(** ** What acceptance means *)

Definition signer_of (sig : AttestationSignature) : result jsstring :=
  normalizeAddress (oracleSigner sig) "attestation.signatures[].oracleSigner".

Record attested (req : WithdrawRequest) (a : WithdrawRequestAttestation)
    (allocatorAddress : jsstring) (hub : Z) (allowedOracles : list jsstring) (threshold : Z)
    (h : bytes) (hs : list bytes) : Prop := {
  at_chain : att_chainId a = hub;
  at_allocator : exists x, normalizeAddress allocatorAddress "allocatorAddress" = Ok x /\
                           normalizeAddress (att_allocator a) "attestation.allocator" = Ok x;
  at_hash : computeWithdrawRequestHash keccak req = Ok h;
  at_hash_hex : toLowerCase (att_withdrawRequestHash a) = js "0x" ++ bytesToHex h;
  at_nonempty : att_hashesToSign a <> [];
  at_hashes : Forall2 (fun s b => hexToBytes s "attestation.hashesToSign[]" = Ok b /\
                                  length b = 32%nat) (att_hashesToSign a) hs;
  at_oracles : exists allowed signers,
    Forall2 (fun o x => normalizeAddress o "allowedOracles[]" = Ok x) allowedOracles allowed /\
    Forall2 (fun s x => signer_of s = Ok x /\ x ∈ allowed /\
               verifyTyped (signature s) (buildAttestationTypedData a h hs) x = Ok true)
            (att_signatures a) signers /\
    threshold <= Z.of_nat (size (list_to_set signers : gset jsstring));
}.

Lemma signature_loop_ok td allowed sigs verified v :
  signature_loop td allowed sigs verified = Ok v <->
  exists signers,
    Forall2 (fun s x => signer_of s = Ok x /\ x ∈ allowed /\
               verifyTyped (signature s) td x = Ok true) sigs signers /\
    v = list_to_set signers ∪ verified.
Proof.
  revert verified; induction sigs as [|s sigs IH]; intros verified; cbn [signature_loop].
  - split.
    + intros [= <-]. exists []. split; [constructor|]. cbn. by rewrite union_empty_l_L.
    + intros (signers & H & ->). inversion H; subst. f_equal. cbn. by rewrite union_empty_l_L.
  - split.
    + intros H. apply bind_ok in H as (x & Hx & H). apply bind_ok in H as ([] & Ha & H).
      apply bind_ok in H as (ok & Hv & H). apply bind_ok in H as ([] & Hok & H).
      apply check_ok in Ha, Hok. bool_prop. subst ok. apply IH in H as (signers & HF & ->).
      exists (x :: signers). split; [by constructor|]. cbn.
      by rewrite (assoc_L (∪)), (comm_L (∪) (list_to_set signers)).
    + intros (signers & H & ->). inversion H as [|? x ? xs (Hx & Ha & Hv) HF]; subst.
      unfold signer_of in Hx. rewrite Hx. cbn [mbind result_bind].
      rewrite (bool_decide_true _ Ha). cbn [negb check mbind result_bind].
      rewrite Hv. cbn [negb check mbind result_bind]. apply IH. exists xs.
      split; [done|]. cbn. by rewrite (assoc_L (∪)), (comm_L (∪) (list_to_set xs)).
Qed.

Lemma parseHash_ok s b :
  parseHash s = Ok b <-> hexToBytes s "attestation.hashesToSign[]" = Ok b /\ length b = 32%nat.
Proof.
  unfold parseHash. split.
  - intros H. res_inv H. apply expectLength_ok in H as [-> H]. done.
  - intros [-> H]. cbn. by apply expectLength_ok.
Qed.

Lemma verify_attested req a alloc hub oracles threshold h hs :
  verifyWithdrawRequestAttestation req a alloc hub oracles threshold = Ok (h, hs) <->
  attested req a alloc hub oracles threshold h hs.
Proof.
  unfold verifyWithdrawRequestAttestation. split.
  - intros H. res_inv H. bool_prop.
    rewrite toLowerCase_0x in *. apply mapM_ok in Hs6, Hs7.
    match goal with Hl : signature_loop _ _ _ _ = Ok _ |- _ =>
      apply signature_loop_ok in Hl as (signers & HF & ->) end.
    constructor; try done.
    + subst. eauto.
    + intros Enil. by rewrite Enil in *.
    + eapply Forall2_impl; [exact Hs6|]. intros ? ?. apply parseHash_ok.
    + eexists _, signers. split; [done|]. rewrite union_empty_r_L in *.
      split; [|done]. eapply Forall2_impl; [exact HF|]. intros ? ? (?&Hin&?).
      split_and!; try done. by apply elem_of_list_to_set in Hin.
  - intros [Hc (x & Hx & Hy) Hh Hhex Hne Hhs (allowed & signers & HA & HS & HT)].
    rewrite Hc, Z.eqb_refl, Hx, Hy, Hh. cbn [negb check mbind result_bind].
    rewrite (bool_decide_true (x = x)) by done. cbn [negb check mbind result_bind].
    rewrite toLowerCase_0x, Hhex, bool_decide_true by done. cbn [negb check mbind result_bind].
    destruct (att_hashesToSign a) as [|s0 ss] eqn:Ea; [done|]. cbn [length Nat.eqb negb check mbind result_bind].
    rewrite (proj2 (mapM_ok parseHash (s0 :: ss) hs)).
    2: { eapply Forall2_impl; [exact Hhs|]. intros ? ?. by apply parseHash_ok. }
    cbn [mbind result_bind]. rewrite (proj2 (mapM_ok _ _ _) HA). cbn [mbind result_bind].
    rewrite (proj2 (signature_loop_ok _ _ _ _ (list_to_set signers ∪ ∅))).
    + cbn [mbind result_bind]. rewrite union_empty_r_L.
      replace (_ <? threshold) with false by (symmetry; by apply Z.ltb_ge). done.
    + exists signers. split; [|done]. eapply Forall2_impl; [exact HS|]. intros ? ? (?&?&?).
      split_and!; try done. by apply elem_of_list_to_set.
Qed.

Lemma normalizeAddress_ok o field x :
  normalizeAddress o field = Ok x <->
  exists b, hexToBytes o field = Ok b /\ length b = 20%nat /\
            addChecksum (js "0x" ++ bytesToHex b) = Ok x.
Proof.
  unfold normalizeAddress. split.
  - intros H. res_inv H. apply expectLength_ok in Hs0 as [-> Hl]. eauto.
  - intros (b & -> & Hl & Hx). cbn [mbind result_bind].
    rewrite (proj2 (expectLength_ok b 20 field b)) by done. done.
Qed.

(** The 20 bytes behind a normalized address. *)
Definition addr_bytes (x : jsstring) : bytes := parse_pairs (drop 2 (toLowerCase x)).

Lemma addr_bytes_normalized `{!EthSignerLaws E} o field x :
  normalizeAddress o field = Ok x ->
  hexToBytes o field = Ok (addr_bytes x) /\ length (addr_bytes x) = 20%nat /\
  addChecksum (js "0x" ++ bytesToHex (addr_bytes x)) = Ok x.
Proof.
  intros H. apply normalizeAddress_ok in H as (b & Hb & Hl & Hx).
  destruct (addChecksum_lower b Hl) as (c & Hc & Hlow). rewrite Hc in Hx. injection Hx as ->.
  assert (addr_bytes x = b) as ->; [|done].
  unfold addr_bytes. rewrite Hlow. apply parse_pairs_bytesToHex.
Qed.

Lemma addr_bytes_inj `{!EthSignerLaws E} o1 o2 f1 f2 x y :
  normalizeAddress o1 f1 = Ok x -> normalizeAddress o2 f2 = Ok y ->
  addr_bytes x = addr_bytes y -> x = y.
Proof.
  intros Hx Hy Heq. apply addr_bytes_normalized in Hx as (_ & _ & Hx), Hy as (_ & _ & Hy).
  rewrite Heq, Hy in Hx. by injection Hx.
Qed.

Lemma NoDup_fmap_inj_on {A B} (f : A -> B) (l : list A) :
  NoDup l -> (forall x y, x ∈ l -> y ∈ l -> f x = f y -> x = y) -> NoDup (f <$> l).
Proof.
  induction 1 as [|x l Hx Hl IH]; intros Hinj; cbn; constructor.
  - intros Hin. apply list_elem_of_fmap in Hin as (y & Hxy & Hy).
    assert (x = y) as -> by (apply Hinj; [by left|by right|done]). done.
  - apply IH. intros y z Hy Hz. apply Hinj; by right.
Qed.

(** [b] is an allowlisted oracle address whose signature over the typed data
    [td] appears among [sigs]. *)
Definition oracle_signed (allowedOracles : list jsstring) (sigs : list AttestationSignature)
    (td : TypedData) (b : bytes) : Prop :=
  length b = 20%nat /\
  (exists o, o ∈ allowedOracles /\ hexToBytes o "allowedOracles[]" = Ok b) /\
  exists s x, s ∈ sigs /\ addChecksum (js "0x" ++ bytesToHex b) = Ok x /\
    hexToBytes (oracleSigner s) "attestation.signatures[].oracleSigner" = Ok b /\
    verifyTyped (signature s) td x = Ok true.

Lemma attested_oracles `{!EthSignerLaws E} req a alloc hub oracles threshold h hs :
  attested req a alloc hub oracles threshold h hs ->
  exists signers : list bytes, NoDup signers /\ threshold <= Z.of_nat (length signers) /\
    Forall (oracle_signed oracles (att_signatures a) (buildAttestationTypedData a h hs)) signers.
Proof.
  intros Hat. destruct (at_oracles _ _ _ _ _ _ _ _ Hat) as (allowed & signers & HA & HS & HT).
  set (els := elements (list_to_set signers : gset jsstring)).
  assert (forall x, x ∈ els -> exists s, s ∈ att_signatures a /\ signer_of s = Ok x /\ x ∈ allowed /\
    verifyTyped (signature s) (buildAttestationTypedData a h hs) x = Ok true) as Hels.
  { intros x Hx. apply elem_of_elements, elem_of_list_to_set in Hx.
    apply list_elem_of_lookup in Hx as [i Hi].
    destruct (Forall2_lookup_r _ _ _ _ _ HS Hi) as (s & Hs & ?).
    exists s. split; [by eapply list_elem_of_lookup_2|done]. }
  exists (addr_bytes <$> els). split_and!.
  - apply NoDup_fmap_inj_on; [apply NoDup_elements|]. intros x y Hx Hy.
    destruct (Hels x Hx) as (s & _ & Hsx & _), (Hels y Hy) as (s' & _ & Hsy & _).
    by eapply addr_bytes_inj.
  - rewrite length_fmap. exact HT.
  - apply Forall_fmap, Forall_forall. intros x Hx. cbn.
    destruct (Hels x Hx) as (s & Hs & Hsx & Hal & Hv).
    apply list_elem_of_lookup in Hal as [i Hi].
    destruct (Forall2_lookup_r _ _ _ _ _ HA Hi) as (o & Ho & Hno).
    destruct (addr_bytes_normalized _ _ _ Hno) as (Hob & Hl & Hc).
    destruct (addr_bytes_normalized _ _ _ Hsx) as (Hsb & _ & _).
    split; [done|]. split; [exists o; split; [by eapply list_elem_of_lookup_2|done]|].
    exists s, x. done.
Qed.
End Verify.

(** ** Properties *)

Section Properties.
Context `{E : EthSigner}.

(** C37: Attestation checking accepts exactly the attestations that meet the
    contract: hub chain id, allocator address, recomputed request hash, a
    non-empty list of 32-byte hashes, every signature from an allowlisted oracle
    and valid over the typed data rebuilt from the checked values, and at least
    the threshold of distinct oracles; it then returns the recomputed hash and
    the parsed hashes. *)
Theorem verify_accepts_iff_attested req a alloc hub oracles threshold h hs :
  verifyWithdrawRequestAttestation req a alloc hub oracles threshold = Ok (h, hs) <->
  attested req a alloc hub oracles threshold h hs.
Proof. apply verify_attested. Qed.

(** An oracle counts once: when every signature of the attestation is by one
    and the same oracle, however often and in whatever spelling it appears, a
    threshold of two or more is never met. *)
Theorem single_oracle_never_meets_quorum req a alloc hub oracles threshold b :
  2 <= threshold ->
  Forall (fun s => hexToBytes (oracleSigner s) "attestation.signatures[].oracleSigner" = Ok b)
    (att_signatures a) ->
  is_ok (verifyWithdrawRequestAttestation req a alloc hub oracles threshold) = false.
Proof.
  intros Ht Hall.
  destruct (verifyWithdrawRequestAttestation _ _ _ _ _ _) as [[h hs]|m] eqn:Hv; [|done].
  apply verify_attested, at_oracles in Hv as (allowed & signers & _ & HS & Hq). exfalso.
  assert (exists x, Forall (fun y => y = x) signers) as [x Hx].
  { destruct (addChecksum (js "0x" ++ bytesToHex b)) as [x|m] eqn:Hc; [exists x|exists []];
      (eapply Forall2_Forall_r; [exact HS|]); (eapply Forall_impl; [exact Hall|]);
      intros s Hs y (Hy & _); apply normalizeAddress_ok in Hy as (b' & Hb' & _ & Hcy);
      rewrite Hs in Hb'; injection Hb' as <-; congruence. }
  assert (list_to_set signers ⊆@{gset jsstring} {[x]}) as Hsub.
  { intros y Hy. apply elem_of_list_to_set in Hy. rewrite Forall_forall in Hx.
    apply elem_of_singleton. by apply Hx. }
  apply subseteq_size in Hsub. rewrite size_singleton in Hsub. lia.
Qed.
End Properties.
