(* ===== verification/Bech32.v ===== *)
(** * Bech32 and base-58 encodings of the bitcoin and xrp actions

    packages/lit-allocator/src/vm/bitcoin-vm.ts: bit regrouping
    ([convertBits]), the BIP-173 checksum and the address text.  All bit
    operations are JavaScript's 32-bit ones.  The base-58 of
    packages/lit-allocator/src/vm/xrp-vm.ts follows. *)

From Stdlib Require Import Strings.Byte.
From S2P Require Import Prelude JsNum JsString HexBytes.
Local Open Scope Z_scope.
Local Open Scope js_scope.

Definition BECH32_CHARSET : jsstring := js "qpzry9x8gf2tvdw0s3jn54khce6mua7l".

(** [while (bits >= toBits)]; at most [bits] iterations. *)
Fixpoint drain (fuel : nat) (acc bits toBits maxv : Z) (res : list Z) : Z * list Z :=
  match fuel with
  | O => (bits, res)
  | S f =>
      if toBits <=? bits then
        let bits := bits - toBits in
        drain f acc bits toBits maxv (res ++ [js_and (js_shr acc bits) maxv])
      else (bits, res)
  end.

Fixpoint convert_loop (fromBits toBits maxv : Z) (input : bytes) (acc bits : Z) (res : list Z)
  : result (Z * Z * list Z) :=
  match input with
  | [] => Ok (acc, bits, res)
  | b :: rest =>
      let value := bz b in
      fail_if (value <? 0) || negb (js_shr value fromBits =? 0)
        with "invalid bech32 input value" ;;
      let acc := js_or (js_shl acc fromBits) value in
      let bits := bits + fromBits in
      let '(bits, res) := drain (Z.to_nat bits) acc bits toBits maxv res in
      convert_loop fromBits toBits maxv rest acc bits res
  end.

Definition convertBits (input : bytes) (fromBits toBits : Z) (pad : bool) : result (list Z) :=
  let maxv := js_shl 1 toBits - 1 in
  '(acc, bits, res) ← convert_loop fromBits toBits maxv input 0 0 [];
  if pad then
    Ok (if 0 <? bits then res ++ [js_and (js_shl acc (toBits - bits)) maxv] else res)
  else
    fail_if (fromBits <=? bits) || negb (js_and (js_shl acc (toBits - bits)) maxv =? 0)
      with "invalid bech32 padding" ;;
    Ok res.

Definition hrpExpand (hrp : jsstring) : list Z :=
  ((fun c => js_shr c 5) <$> hrp) ++ [0] ++ ((fun c => js_and c 31) <$> hrp).

Definition generators : list Z := [0x3b6a57b2; 0x26508e6d; 0x1ea119fa; 0x3d4233dd; 0x2a1462b3].

(** The inner loop over the five generators. *)
Fixpoint generator_loop (gens : list Z) (i top chk : Z) : Z :=
  match gens with
  | [] => chk
  | g :: gens' =>
      let chk := if negb (js_and (js_shr top i) 1 =? 0) then js_xor chk g else chk in
      generator_loop gens' (i + 1) top chk
  end.

Definition polymod_step (chk value : Z) : Z :=
  let top := js_shr chk 25 in
  let chk := js_xor (js_shl (js_and chk 0x1ffffff) 5) value in
  generator_loop generators 0 top chk.

Definition polymod (values : list Z) : Z := foldl polymod_step 1 values.

Definition createChecksum (hrp : jsstring) (data : list Z) : list Z :=
  let values := hrpExpand hrp ++ data ++ [0; 0; 0; 0; 0; 0] in
  let mod_ := js_xor (polymod values) 1 in
  (fun p => js_and (js_shr mod_ (5 * (5 - p))) 31) <$> [0; 1; 2; 3; 4; 5].

(** [CHARSET[value]]: an index out of range contributes nothing to [join]. *)
Definition charset_char (v : Z) : jsstring :=
  match BECH32_CHARSET !! Z.to_nat v with Some c => [c] | None => [] end.

Definition encodeBech32 (hrp : jsstring) (data : list Z) : jsstring :=
  hrp ++ js "1" ++ mjoin (charset_char <$> (data ++ createChecksum hrp data)).

(** ** 32-bit operators on small values *)

Lemma land_bound a n : 0 <= n -> 0 <= Z.land a (Z.ones n) < 2 ^ n.
Proof. intros. rewrite Z.land_ones by lia. apply Z.mod_pos_bound, Z.pow_pos_nonneg; lia. Qed.

Lemma land_lxor_distr a b c : Z.land (Z.lxor a b) c = Z.lxor (Z.land a c) (Z.land b c).
Proof.
  apply Z.bits_inj'. intros i _. rewrite !Z.land_spec, !Z.lxor_spec, !Z.land_spec.
  by destruct (Z.testbit a i), (Z.testbit b i), (Z.testbit c i).
Qed.

Lemma lxor_bound a b n : 0 <= n -> 0 <= a < 2 ^ n -> 0 <= b < 2 ^ n -> 0 <= Z.lxor a b < 2 ^ n.
Proof.
  intros Hn Ha Hb. rewrite <- (Z.mod_small a (2 ^ n)), <- (Z.mod_small b (2 ^ n)) by done.
  rewrite <- !Z.land_ones by done. rewrite <- land_lxor_distr. by apply land_bound.
Qed.

(** Shifting in [n] low bits. *)
Lemma lor_shift_add a v n : 0 <= n -> 0 <= v < 2 ^ n -> Z.lor (Z.shiftl a n) v = a * 2 ^ n + v.
Proof.
  intros Hn Hv. rewrite <- Z.shiftl_mul_pow2 by done. symmetry.
  rewrite <- Z.lxor_lor, Z.add_nocarry_lxor; try done; apply Z.bits_inj'; intros i Hi;
    rewrite Z.land_spec, Z.bits_0;
    (destruct (Z.lt_ge_cases i n); [rewrite Z.shiftl_spec_low by lia; done|]);
    rewrite (Z.testbit_eqb v) by lia; rewrite Z.div_small, andb_comm; try done;
    split; try lia; apply Z.lt_le_trans with (2 ^ n); try lia; apply Z.pow_le_mono_r; lia.
Qed.

(** ** Regrouping *)

Lemma feed acc v b : 0 <= b <= 24 -> 0 <= v < 256 -> - 2 ^ 31 <= acc < 2 ^ 31 ->
  js_or (js_shl acc 8) v mod 2 ^ (b + 8) = acc mod 2 ^ b * 256 + v /\
  - 2 ^ 31 <= js_or (js_shl acc 8) v < 2 ^ 31.
Proof.
  intros Hb Hv Hacc. unfold js_or, js_shl. rewrite (to_int32_small acc) by lia.
  change (8 mod 32) with 8. rewrite (to_int32_small v) by lia.
  set (s := to_int32 (Z.shiftl acc 8)).
  assert (- 2 ^ 31 <= s < 2 ^ 31) as Hs.
  { unfold s, to_int32. pose proof (Z.mod_pos_bound (Z.shiftl acc 8) (2 ^ 32) ltac:(lia)).
    destruct (Z.ltb_spec (Z.shiftl acc 8 mod 2 ^ 32) (2 ^ 31)); lia. }
  rewrite (to_int32_small s) by done.
  assert (s mod 2 ^ 8 = 0) as Hs8.
  { unfold s. rewrite to_int32_mod by lia. rewrite Z.shiftl_mul_pow2 by lia.
    apply Z.mod_mul. lia. }
  assert (s = Z.shiftl (s / 256) 8) as Hsh.
  { rewrite Z.shiftl_mul_pow2 by lia. pose proof (Z.div_mod s 256). change (2 ^ 8) with 256 in *. lia. }
  assert (Z.lor s v = s + v) as Hor.
  { rewrite Hsh at 1. rewrite lor_shift_add by lia. rewrite Z.shiftl_mul_pow2 in Hsh by lia. lia. }
  rewrite Hor. split.
  - assert (s mod 2 ^ (b + 8) = acc mod 2 ^ b * 256) as E.
    { unfold s. rewrite to_int32_mod by lia. rewrite Z.shiftl_mul_pow2 by lia.
      rewrite Z.pow_add_r by lia. rewrite Z.mul_mod_distr_r; [done|apply Z.pow_nonzero; lia|lia]. }
    rewrite Z.add_mod, E by (apply Z.pow_nonzero; lia).
    assert (0 < 2 ^ b) by (apply Z.pow_pos_nonneg; lia).
    assert (2 ^ (b + 8) = 2 ^ b * 256) as E2 by (rewrite Z.pow_add_r by lia; done).
    pose proof (Z.mod_pos_bound acc (2 ^ b) ltac:(lia)).
    rewrite (Z.mod_small v) by nia. apply Z.mod_small. nia.
  - change (2 ^ 8) with 256 in *. pose proof (Z.div_mod s 256). lia.
Qed.

Section Convert.
Context (t : Z) (Ht : 1 <= t <= 8).
Let base := 2 ^ t.

Lemma base_ge2 : 2 <= base.
Proof using Ht. unfold base. change 2 with (2 ^ 1). apply Z.pow_le_mono_r; lia. Qed.

Lemma window acc s : 0 <= s <= 31 - t -> - 2 ^ 31 <= acc < 2 ^ 31 ->
  js_and (js_shr acc s) (base - 1) = acc / 2 ^ s mod base.
Proof using Ht.
  intros Hs Hacc. unfold js_and, js_shr. rewrite (to_int32_small acc), (Z.mod_small s) by lia.
  rewrite Z.shiftr_div_pow2 by lia.
  assert (- 2 ^ 31 <= acc / 2 ^ s < 2 ^ 31) as Hd.
  { assert (0 < 2 ^ s) by (apply Z.pow_pos_nonneg; lia). split.
    - apply Z.div_le_lower_bound; [lia|]. nia.
    - apply Z.div_lt_upper_bound; [lia|]. nia. }
  assert (2 ^ t <= 2 ^ 8) by (apply Z.pow_le_mono_r; lia). pose proof base_ge2. unfold base in *.
  rewrite (to_int32_small (acc / 2 ^ s)), (to_int32_small (2 ^ t - 1)) by lia.
  replace (2 ^ t - 1) with (Z.ones t) by (rewrite Z.ones_equiv; lia). by rewrite Z.land_ones by lia.
Qed.

(** Taking [t] bits off the window keeps the value of digits and remainder. *)
Lemma split_window acc b : t <= b ->
  acc mod 2 ^ b = (acc / 2 ^ (b - t) mod base) * 2 ^ (b - t) + acc mod 2 ^ (b - t).
Proof using Ht.
  intros Hb. unfold base. replace (2 ^ b) with (2 ^ (b - t) * 2 ^ t)
    by (rewrite <- Z.pow_add_r by lia; f_equal; lia).
  rewrite Z.rem_mul_r by (try apply Z.pow_nonzero; try apply Z.pow_pos_nonneg; lia). lia.
Qed.

Lemma drain_spec fuel acc bits res :
  0 <= bits <= Z.of_nat fuel -> bits <= 31 -> - 2 ^ 31 <= acc < 2 ^ 31 -> Radix.digits_ok base res ->
  exists bits' res', drain fuel acc bits t (base - 1) res = (bits', res') /\
    0 <= bits' < t /\ Radix.digits_ok base res' /\
    Radix.of_digits base res' * 2 ^ bits' + acc mod 2 ^ bits'
      = Radix.of_digits base res * 2 ^ bits + acc mod 2 ^ bits /\
    t * Z.of_nat (length res') + bits' = t * Z.of_nat (length res) + bits.
Proof using Ht.
  pose proof base_ge2 as Hbase.
  revert bits res; induction fuel as [|f IH]; intros bits res Hf Hb Hacc Hok; cbn [drain].
  - exists bits, res. split_and!; try done; lia.
  - destruct (Z.leb_spec t bits) as [Hle|Hlt]; [|exists bits, res; split_and!; (done || lia)].
    rewrite window by lia.
    destruct (IH (bits - t) (res ++ [acc / 2 ^ (bits - t) mod base]))
      as (bits' & res' & -> & Hb' & Hok' & Hval & Hlen); [lia|lia|done| |].
    { apply Forall_app; split; [done|]. constructor; [|constructor]. apply Z.mod_pos_bound. lia. }
    exists bits', res'. split_and!; try done; try lia.
    + rewrite Hval, Radix.of_digits_app, Radix.of_digits_cons by done. rewrite (split_window acc bits Hle).
      cbn [length Radix.of_digits foldl]. change (Z.of_nat 1) with 1. change (Z.of_nat 0) with 0.
      rewrite Z.pow_1_r, Z.pow_0_r. unfold base at 2.
      replace (2 ^ bits) with (2 ^ t * 2 ^ (bits - t)) by (rewrite <- Z.pow_add_r by lia; f_equal; lia).
      ring.
    + rewrite length_app in Hlen. cbn in Hlen. lia.
Qed.

Lemma convert_loop_spec input acc bits res :
  0 <= bits < t -> - 2 ^ 31 <= acc < 2 ^ 31 -> Radix.digits_ok base res ->
  exists acc' bits' res', convert_loop 8 t (base - 1) input acc bits res = Ok (acc', bits', res') /\
    0 <= bits' < t /\ - 2 ^ 31 <= acc' < 2 ^ 31 /\ Radix.digits_ok base res' /\
    Radix.of_digits base res' * 2 ^ bits' + acc' mod 2 ^ bits' =
      (Radix.of_digits base res * 2 ^ bits + acc mod 2 ^ bits) * 256 ^ Z.of_nat (length input)
      + be_val input /\
    t * Z.of_nat (length res') + bits' = t * Z.of_nat (length res) + bits + 8 * Z.of_nat (length input).
Proof using Ht.
  revert acc bits res; induction input as [|b input IH]; intros acc bits res Hb Hacc Hok.
  - exists acc, bits, res. cbn. split_and!; try done; try lia.
  - cbn [convert_loop]. pose proof (bz_range b).
    assert (js_shr (bz b) 8 = 0) as Hshr.
    { unfold js_shr. rewrite to_int32_small by lia. change (8 mod 32) with 8.
      rewrite Z.shiftr_div_pow2 by lia. by apply Z.div_small. }
    rewrite Hshr. replace (bz b <? 0) with false by (symmetry; apply Z.ltb_ge; lia).
    cbn [orb negb Z.eqb check mbind result_bind].
    destruct (feed acc (bz b) bits) as [Hf Hr]; [lia|lia|done|].
    destruct (drain_spec (Z.to_nat (bits + 8)) (js_or (js_shl acc 8) (bz b)) (bits + 8) res)
      as (bits1 & res1 & -> & Hb1 & Hok1 & Hv1 & Hl1); [lia|lia|done|done|].
    destruct (IH (js_or (js_shl acc 8) (bz b)) bits1 res1)
      as (acc' & bits' & res' & -> & Hb' & Ha' & Hok' & Hv' & Hl'); [done|done|done|].
    exists acc', bits', res'. split_and!; try done; try lia.
    + rewrite Hv', Hv1, Hf. change (be_val (b :: input)) with (be_val ([b] ++ input)).
      rewrite be_val_app. unfold be_val at 2. cbn [fmap list_fmap Radix.of_digits foldl length].
      rewrite Nat2Z.inj_succ, Z.pow_succ_r, Z.pow_add_r by lia. change (2 ^ 8) with 256. ring.
    + cbn [length]. lia.
Qed.

Lemma convertBits_spec input :
  exists words pad, convertBits input 8 t true = Ok words /\ Radix.digits_ok base words /\
    0 <= pad < t /\ t * Z.of_nat (length words) = 8 * Z.of_nat (length input) + pad /\
    Radix.of_digits base words = be_val input * 2 ^ pad.
Proof using Ht.
  pose proof base_ge2 as Hbase. assert (2 ^ t <= 2 ^ 8) by (apply Z.pow_le_mono_r; lia).
  assert (js_shl 1 t = base) as Hm.
  { unfold js_shl. rewrite (to_int32_small 1), (Z.mod_small t), Z.shiftl_1_l by lia.
    apply to_int32_small. unfold base in *. lia. }
  unfold convertBits. rewrite Hm.
  destruct (convert_loop_spec input 0 0 []) as (acc & bits & res & -> & Hb & Ha & Hok & Hv & Hl);
    [lia|lia|constructor|].
  cbn [mbind result_bind]. cbn [Radix.of_digits foldl length] in Hv, Hl.
  change (0 mod 2 ^ 0) with 0 in Hv. rewrite Z.mul_0_l, Z.add_0_l in Hv.
  destruct (Z.ltb_spec 0 bits).
  - assert (js_and (js_shl acc (t - bits)) (base - 1) = acc mod 2 ^ bits * 2 ^ (t - bits)) as E.
    { unfold js_and, js_shl. rewrite (to_int32_small acc), (Z.mod_small (t - bits)) by lia.
      rewrite (to_int32_small (base - 1)) by (unfold base in *; lia).
      replace (base - 1) with (Z.ones t) by (rewrite Z.ones_equiv; unfold base; lia).
      rewrite Z.land_ones, !to_int32_mod, Z.shiftl_mul_pow2 by lia.
      replace (2 ^ t) with (2 ^ bits * 2 ^ (t - bits)) by (rewrite <- Z.pow_add_r by lia; f_equal; lia).
      apply Z.mul_mod_distr_r; apply Z.pow_nonzero; lia. }
    rewrite E. eexists _, (t - bits). split; [done|].
    assert (0 < 2 ^ bits) by (apply Z.pow_pos_nonneg; lia).
    assert (0 < 2 ^ (t - bits)) by (apply Z.pow_pos_nonneg; lia).
    assert (base = 2 ^ bits * 2 ^ (t - bits)) as Eb.
    { unfold base. rewrite <- Z.pow_add_r by lia. f_equal. lia. }
    pose proof (Z.mod_pos_bound acc (2 ^ bits) ltac:(lia)).
    split_and!; try lia.
    + apply Forall_app; split; [done|]. constructor; [|constructor]. nia.
    + rewrite length_app. cbn. lia.
    + rewrite Radix.of_digits_app, Radix.of_digits_cons by done.
      cbn [length Radix.of_digits foldl]. change (Z.of_nat 1) with 1. change (Z.of_nat 0) with 0.
      rewrite Z.pow_1_r, Z.pow_0_r. rewrite Eb at 2. rewrite <- Hv. lia.
  - assert (bits = 0) as -> by lia. exists res, 0. split_and!; try done; try lia.
    rewrite Z.pow_0_r, Z.mod_1_r in *. lia.
Qed.
End Convert.

(** ** The checksum is linear over GF(2) *)

Definition gen_bit (top i g : Z) : Z := if Z.testbit top i then g else 0.
Definition gen_sum (top : Z) : Z :=
  Z.lxor (Z.lxor (Z.lxor (Z.lxor (gen_bit top 0 0x3b6a57b2) (gen_bit top 1 0x26508e6d))
    (gen_bit top 2 0x1ea119fa)) (gen_bit top 3 0x3d4233dd)) (gen_bit top 4 0x2a1462b3).
Definition pure_step (chk value : Z) : Z :=
  Z.lxor (Z.lxor (Z.shiftl (Z.land chk (Z.ones 25)) 5) value) (gen_sum (Z.shiftr chk 25)).

Lemma gen_bit_bound top i g : 0 <= g < 2 ^ 30 -> 0 <= gen_bit top i g < 2 ^ 30.
Proof. unfold gen_bit. destruct (Z.testbit top i); lia. Qed.

Lemma generator_step top i g chk :
  0 <= top < 32 -> 0 <= i < 5 -> 0 <= chk < 2 ^ 30 -> 0 <= g < 2 ^ 30 ->
  (if negb (js_and (js_shr top i) 1 =? 0) then js_xor chk g else chk) = Z.lxor chk (gen_bit top i g).
Proof.
  intros Ht Hi Hc Hg. unfold js_and, js_shr, js_xor, gen_bit.
  rewrite (to_int32_small top), (to_int32_small chk), (to_int32_small g), (Z.mod_small i) by lia.
  assert (0 <= Z.shiftr top i < 32) as Hs.
  { rewrite Z.shiftr_div_pow2 by lia. assert (0 < 2 ^ i) by (apply Z.pow_pos_nonneg; lia). split.
    - apply Z.div_pos; lia.
    - apply Z.div_lt_upper_bound; nia. }
  rewrite (to_int32_small (Z.shiftr top i)) by lia. change (to_int32 1) with (Z.ones 1).
  rewrite Z.land_ones by lia. rewrite Z.testbit_eqb, <- Z.shiftr_div_pow2 by lia.
  change (2 ^ 1) with 2. pose proof (Z.mod_pos_bound (Z.shiftr top i) 2 ltac:(lia)).
  destruct (Z.eqb_spec (Z.shiftr top i mod 2) 0) as [->|Hn]; cbn.
  - by rewrite Z.lxor_0_r.
  - destruct (Z.eqb_spec (Z.shiftr top i mod 2) 1); [done|lia].
Qed.

Lemma polymod_step_pure chk value :
  0 <= chk < 2 ^ 30 -> 0 <= value < 32 ->
  polymod_step chk value = pure_step chk value /\ 0 <= pure_step chk value < 2 ^ 30.
Proof.
  intros Hc Hv. unfold polymod_step, pure_step.
  assert (js_shr chk 25 = Z.shiftr chk 25) as ->.
  { unfold js_shr. by rewrite to_int32_small by lia. }
  assert (0 <= Z.shiftr chk 25 < 32) as Htop.
  { rewrite Z.shiftr_div_pow2 by lia. split; [apply Z.div_pos; lia|apply Z.div_lt_upper_bound; lia]. }
  assert (js_xor (js_shl (js_and chk 0x1ffffff) 5) value
          = Z.lxor (Z.shiftl (Z.land chk (Z.ones 25)) 5) value) as ->.
  { unfold js_xor, js_shl, js_and. rewrite (to_int32_small chk), (to_int32_small value) by lia.
    change (to_int32 0x1ffffff) with (Z.ones 25). pose proof (land_bound chk 25 ltac:(lia)).
    rewrite (to_int32_small (Z.land _ _)) by lia. change (5 mod 32) with 5.
    rewrite Z.shiftl_mul_pow2 by lia. do 2 rewrite (to_int32_small (_ * _)) by lia. done. }
  set (x := Z.lxor (Z.shiftl (Z.land chk (Z.ones 25)) 5) value).
  assert (0 <= x < 2 ^ 30) as Hx.
  { unfold x. pose proof (land_bound chk 25 ltac:(lia)). rewrite Z.shiftl_mul_pow2 by lia.
    apply lxor_bound; lia. }
  unfold generators, gen_sum. cbn [generator_loop Z.add].
  assert (forall y, 0 <= y < 2 ^ 30 -> forall i g, 0 <= g < 2 ^ 30 ->
    0 <= Z.lxor y (gen_bit (Z.shiftr chk 25) i g) < 2 ^ 30) as Hb.
  { intros y Hy i g Hg. apply lxor_bound; [lia|done|by apply gen_bit_bound]. }
  rewrite (generator_step _ 0) by (done || lia).
  change (0 + 1) with 1. change (0 + 1 + 1) with 2. change (1 + 1) with 2.
  change (2 + 1) with 3. change (3 + 1) with 4.
  rewrite (generator_step _ 1) by (done || lia || (repeat apply Hb; done)).
  rewrite (generator_step _ 2) by (done || lia || (repeat apply Hb; done)).
  rewrite (generator_step _ 3) by (done || lia || (repeat apply Hb; done)).
  rewrite (generator_step _ 4) by (done || lia || (repeat apply Hb; done)).
  rewrite !Z.lxor_assoc. split; [done|].
  rewrite <- !Z.lxor_assoc. repeat apply Hb; done.
Qed.

Lemma gen_bit_lxor a b i g : gen_bit (Z.lxor a b) i g = Z.lxor (gen_bit a i g) (gen_bit b i g).
Proof.
  unfold gen_bit. rewrite Z.lxor_spec.
  destruct (Z.testbit a i), (Z.testbit b i); cbn [xorb];
    by rewrite ?Z.lxor_nilpotent, ?Z.lxor_0_r, ?Z.lxor_0_l.
Qed.

Lemma lxor_swap a b c d : Z.lxor (Z.lxor a b) (Z.lxor c d) = Z.lxor (Z.lxor a c) (Z.lxor b d).
Proof. rewrite !Z.lxor_assoc. f_equal. rewrite <- !Z.lxor_assoc. f_equal. apply Z.lxor_comm. Qed.

Lemma gen_sum_lxor a b : gen_sum (Z.lxor a b) = Z.lxor (gen_sum a) (gen_sum b).
Proof.
  unfold gen_sum. rewrite !gen_bit_lxor. rewrite (lxor_swap (gen_bit a 0 _)).
  rewrite (lxor_swap _ _ (gen_bit a 2 _)), (lxor_swap _ _ (gen_bit a 3 _)),
    (lxor_swap _ _ (gen_bit a 4 _)). done.
Qed.

Lemma pure_step_lxor c1 c2 v1 v2 :
  pure_step (Z.lxor c1 c2) (Z.lxor v1 v2) = Z.lxor (pure_step c1 v1) (pure_step c2 v2).
Proof.
  unfold pure_step. rewrite land_lxor_distr, Z.shiftl_lxor, Z.shiftr_lxor, gen_sum_lxor.
  rewrite (lxor_swap (Z.shiftl _ _)). apply lxor_swap.
Qed.

Lemma foldl_lxor c1 c2 l1 l2 : length l1 = length l2 ->
  foldl pure_step (Z.lxor c1 c2) (zip_with Z.lxor l1 l2)
  = Z.lxor (foldl pure_step c1 l1) (foldl pure_step c2 l2).
Proof.
  revert c1 c2 l2; induction l1 as [|v l1 IH]; intros c1 c2 [|w l2] Hl; cbn in *; try done.
  rewrite pure_step_lxor. apply IH. lia.
Qed.

Lemma pure_step_0 n : foldl pure_step 0 (replicate n 0) = 0.
Proof. induction n as [|n IH]; [done|]. cbn [replicate foldl]. exact IH. Qed.

(** Below 2^25 a step is a plain shift: six symbols are six base-32 digits. *)
Lemma pure_step_small chk v : 0 <= chk < 2 ^ 25 -> 0 <= v < 32 -> pure_step chk v = chk * 32 + v.
Proof.
  intros Hc Hv. unfold pure_step.
  replace (Z.shiftr chk 25) with 0 by (rewrite Z.shiftr_div_pow2, Z.div_small by lia; done).
  change (gen_sum 0) with 0. rewrite Z.lxor_0_r, Z.land_ones, Z.mod_small by lia.
  rewrite Z.lxor_lor.
  - by rewrite lor_shift_add by lia.
  - apply Z.bits_inj'. intros i Hi. rewrite Z.land_spec, Z.bits_0.
    destruct (Z.lt_ge_cases i 5).
    + by rewrite Z.shiftl_spec_low by lia.
    + rewrite (Z.testbit_eqb v) by lia. rewrite Z.div_small, andb_comm; [done|].
      split; [lia|]. apply Z.lt_le_trans with (2 ^ 5); [lia|]. apply Z.pow_le_mono_r; lia.
Qed.

Lemma foldl_pure_digits l : (length l <= 6)%nat -> Radix.digits_ok 32 l ->
  foldl pure_step 0 l = Radix.of_digits 32 l.
Proof.
  induction l as [|v l IH] using rev_ind; intros Hl Hok; [done|].
  rewrite length_app in Hl. cbn in Hl. apply Forall_app in Hok as [Hok Hv].
  apply Forall_cons_1 in Hv as [Hv _].
  rewrite foldl_app, IH by (done || lia). cbn [foldl]. rewrite Radix.of_digits_app by lia.
  rewrite pure_step_small; [|split|done].
  - cbn [length Radix.of_digits foldl]. rewrite Z.pow_1_r. lia.
  - apply Radix.of_digits_bound; [lia|done].
  - apply Z.lt_le_trans with (32 ^ Z.of_nat (length l)); [by apply Radix.of_digits_bound|].
    change (2 ^ 25) with (32 ^ 5). apply Z.pow_le_mono_r; lia.
Qed.

Lemma polymod_pure c l : 0 <= c < 2 ^ 30 -> Radix.digits_ok 32 l ->
  foldl polymod_step c l = foldl pure_step c l /\ 0 <= foldl pure_step c l < 2 ^ 30.
Proof.
  intros Hc Hl. revert c Hc; induction Hl as [|v l Hv _ IH]; intros c Hc; [done|].
  cbn [foldl]. destruct (polymod_step_pure c v Hc Hv) as [-> Hb]. by apply IH.
Qed.

Lemma hrpExpand_ok hrp : Forall (fun c => 0 <= c < 128) hrp -> Radix.digits_ok 32 (hrpExpand hrp).
Proof.
  intros H. unfold hrpExpand. apply Forall_app. split; [|apply Forall_app; split; [repeat constructor; lia|]].
  - apply Forall_fmap. eapply Forall_impl; [exact H|]. intros c Hc. cbn in *.
    unfold js_shr. change (5 mod 32) with 5. rewrite to_int32_small, Z.shiftr_div_pow2 by lia.
    change (2 ^ 5) with 32.
    split; [apply Z.div_pos; lia|apply Z.div_lt_upper_bound; lia].
  - apply Forall_fmap. eapply Forall_impl; [exact H|]. intros c Hc. cbn in *.
    unfold js_and. rewrite to_int32_small by lia. change (to_int32 31) with (Z.ones 5).
    apply (land_bound c 5). lia.
Qed.

(** The checksum symbols are the six base-32 digits of the remainder. *)
Lemma checksum_digits m : 0 <= m < 2 ^ 30 ->
  (fun p => js_and (js_shr m (5 * (5 - p))) 31) <$> [0; 1; 2; 3; 4; 5]
  = Radix.fixed_digits 6 32 m [].
Proof.
  intros Hm.
  assert (forall s, 0 <= s <= 25 -> js_and (js_shr m s) 31 = m / 2 ^ s mod 32) as Hd.
  { intros s Hs. apply (window 5 ltac:(lia) m s); lia. }
  cbn [fmap list_fmap Radix.fixed_digits]. rewrite !Hd by lia.
  rewrite !Z.div_div by lia. change (2 ^ (5 * (5 - 5))) with 1. rewrite Z.div_1_r. reflexivity.
Qed.

Lemma createChecksum_valid hrp d :
  Forall (fun c => 0 <= c < 128) hrp -> Radix.digits_ok 32 d ->
  polymod (hrpExpand hrp ++ d ++ createChecksum hrp d) = 1 /\
  length (createChecksum hrp d) = 6%nat /\ Radix.digits_ok 32 (createChecksum hrp d).
Proof.
  intros Hh Hd. pose proof (hrpExpand_ok hrp Hh) as He. unfold createChecksum.
  set (pre := hrpExpand hrp ++ d). assert (Radix.digits_ok 32 pre) as Hpre by (by apply Forall_app).
  rewrite (app_assoc (hrpExpand hrp) d [0;0;0;0;0;0]). fold pre.
  assert (Radix.digits_ok 32 (pre ++ replicate 6 0)) as Hz.
  { apply Forall_app; split; [done|]. repeat constructor; lia. }
  change [0; 0; 0; 0; 0; 0] with (replicate 6 0).
  destruct (polymod_pure 1 (pre ++ replicate 6 0) ltac:(lia) Hz) as [Hp Hr]. unfold polymod. rewrite Hp.
  set (m := foldl pure_step 1 (pre ++ replicate 6 0)) in *.
  assert (js_xor m 1 = Z.lxor m 1) as ->.
  { unfold js_xor. by rewrite !to_int32_small by lia. }
  assert (0 <= Z.lxor m 1 < 2 ^ 30) as Hx by (apply lxor_bound; lia).
  rewrite checksum_digits by done. set (cs := Radix.fixed_digits 6 32 (Z.lxor m 1) []).
  assert (length cs = 6%nat) as Hlen by (by apply Radix.length_fixed_digits).
  assert (Radix.digits_ok 32 cs) as Hcs by (by apply Radix.fixed_digits_ok).
  split_and!; try done. rewrite app_assoc. fold pre.
  destruct (polymod_pure 1 (pre ++ cs) ltac:(lia)) as [-> _]; [by apply Forall_app|].
  assert (pre ++ cs = zip_with Z.lxor (pre ++ replicate 6 0) (replicate (length pre) 0 ++ cs)) as ->.
  { rewrite zip_with_app by (by rewrite length_replicate). f_equal.
    clear. induction pre as [|v pre IH]; [done|]. cbn. rewrite Z.lxor_0_r. by f_equal. }
  change 1 with (Z.lxor 1 0) at 1. rewrite foldl_lxor by (rewrite !length_app, !length_replicate; lia).
  fold m. rewrite (foldl_app pure_step), pure_step_0, foldl_pure_digits by (done || lia).
  unfold cs. rewrite Radix.of_fixed_digits, Z.mod_small by (done || lia).
  by rewrite <- Z.lxor_assoc, Z.lxor_nilpotent, Z.lxor_0_l.
Qed.

(** ** Reference decoder (BIP 173) *)

Definition charset_digit (c : Z) : option Z :=
  Z.of_nat ∘ fst <$> list_find (fun x => x = c) BECH32_CHARSET.

(** Split at the last ["1"]; [s] is given reversed. *)
Fixpoint split_last_one (s acc : jsstring) : option (jsstring * jsstring) :=
  match s with
  | [] => None
  | c :: s' => if c =? 49 then Some (reverse s', acc) else split_last_one s' (c :: acc)
  end.

Definition decodeBech32 (s : jsstring) : option (jsstring * list Z) :=
  '(hrp, body) ← split_last_one (reverse s) [];
  values ← mapM charset_digit body;
  if Nat.leb 6 (length values) && (polymod (hrpExpand hrp ++ values) =? 1)
  then Some (hrp, take (length values - 6) values) else None.

Lemma charset_char_digit v : 0 <= v < 32 ->
  exists c, charset_char v = [c] /\ charset_digit c = Some v /\ c <> 49.
Proof.
  intros Hv.
  assert (forallb (fun n => match charset_char (Z.of_nat n) with
    | [c] => bool_decide (charset_digit c = Some (Z.of_nat n)) && negb (c =? 49)
    | _ => false end) (seq 0 32) = true) as H by (vm_compute; reflexivity).
  rewrite forallb_Forall, Forall_forall in H. specialize (H (Z.to_nat v)).
  rewrite Z2Nat.id in H by lia. specialize (H ltac:(apply elem_of_seq; lia)).
  destruct (charset_char v) as [|c [|? ?]]; try done. exists c. bool_prop. done.
Qed.

Lemma charset_text l : Radix.digits_ok 32 l ->
  mapM charset_digit (mjoin (charset_char <$> l)) = Some l /\
  Forall (fun c => c <> 49) (mjoin (charset_char <$> l)).
Proof.
  induction 1 as [|v l Hv _ [IH1 IH2]]; [done|].
  destruct (charset_char_digit v Hv) as (c & Hc & Hd & Hne).
  change (mjoin (charset_char <$> v :: l)) with (charset_char v ++ mjoin (charset_char <$> l)).
  rewrite Hc. cbn [app mapM]. rewrite Hd. cbn [mbind option_bind]. rewrite IH1. split; [done|by constructor].
Qed.

Lemma split_last_one_app body hrp acc : Forall (fun c => c <> 49) body ->
  split_last_one (reverse body ++ 49 :: reverse hrp) acc = Some (hrp, body ++ acc).
Proof.
  revert acc; induction body as [|c body IH] using rev_ind; intros acc H.
  - cbn. by rewrite reverse_involutive.
  - apply Forall_app in H as [H Hc]. apply Forall_cons_1 in Hc as [Hc _].
    rewrite reverse_snoc. cbn [app split_last_one]. zcmp. rewrite IH by done. by rewrite <- app_assoc.
Qed.

Lemma decode_encode hrp d :
  Forall (fun c => 0 <= c < 128) hrp -> Radix.digits_ok 32 d ->
  decodeBech32 (encodeBech32 hrp d) = Some (hrp, d).
Proof.
  intros Hh Hd. destruct (createChecksum_valid hrp d Hh Hd) as (Hp & Hl & Hc).
  assert (Radix.digits_ok 32 (d ++ createChecksum hrp d)) as Hall by (by apply Forall_app).
  destruct (charset_text _ Hall) as [Hm Hne].
  unfold decodeBech32, encodeBech32. rewrite !reverse_app. cbn [js].
  change (reverse (js "1")) with [49]. rewrite <- app_assoc. cbn [app].
  rewrite split_last_one_app by done. cbn [mbind option_bind]. rewrite app_nil_r, Hm.
  cbn [mbind option_bind]. rewrite length_app, Hl, Hp. zcmp. cbn [andb].
  rewrite Nat.add_sub, take_app_length. done.
Qed.

(** ** Properties *)

(** C38: convertBits regroups bits: from bytes to t-bit words (1 <= t <= 8) with
    padding it never fails, every word is below 2^t, the word count is the bit
    count rounded up, and the words spell the same number shifted by the padding,
    although the code's accumulator is a wrapping 32-bit integer. *)
Theorem convertBits_regroups t input :
  1 <= t <= 8 ->
  exists words pad, convertBits input 8 t true = Ok words /\ Forall (fun w => 0 <= w < 2 ^ t) words /\
    0 <= pad < t /\ t * Z.of_nat (length words) = 8 * Z.of_nat (length input) + pad /\
    Radix.of_digits (2 ^ t) words = be_val input * 2 ^ pad.
Proof. intros Ht. exact (convertBits_spec t Ht input). Qed.

Lemma convertBits_regroups_witness :
  exists words pad, convertBits (replicate 5 xfe) 8 5 true = Ok words /\ Forall (fun w => 0 <= w < 2 ^ 5) words /\
    0 <= pad < 5 /\ 5 * Z.of_nat (length words) = 8 * Z.of_nat (length (replicate 5 xfe)) + pad /\
    Radix.of_digits (2 ^ 5) words = be_val (replicate 5 xfe) * 2 ^ pad.
Proof. apply (convertBits_regroups 5 (replicate 5 xfe)). lia. Defined.

(** EncodeBech32 produces valid Bech32: the six checksum symbols make the
    BIP-173 polymod equal to 1 and a reference decoder recovers the human-readable
    part and the data. *)
Theorem bech32_roundtrip hrp d :
  Forall (fun c => 0 <= c < 128) hrp -> Forall (fun w => 0 <= w < 32) d ->
  polymod (hrpExpand hrp ++ d ++ createChecksum hrp d) = 1 /\
  decodeBech32 (encodeBech32 hrp d) = Some (hrp, d).
Proof. intros Hh Hd. split; [by apply createChecksum_valid|by apply decode_encode]. Qed.

Lemma bech32_roundtrip_witness :
  polymod (hrpExpand (js "bc") ++ [0; 31; 7] ++ createChecksum (js "bc") [0; 31; 7]) = 1 /\
  decodeBech32 (encodeBech32 (js "bc") [0; 31; 7]) = Some (js "bc", [0; 31; 7]).
Proof. apply (bech32_roundtrip (js "bc") [0; 31; 7]); forall_lia. Defined.

(** ** Base-58 of the XRP action

    packages/lit-allocator/src/vm/xrp-vm.ts: [base58Xrpl] and the classic
    address of an account id.  SHA-256 is a parameter of [encodeAccountId].
    [decode58] is a reference decoder used to state that nothing is lost. *)

Local Open Scope Z_scope.

Definition XRPL_ALPHABET : jsstring :=
  js "rpshnaf39wBUDNEGHJKLM4PQRST7VWXYZ2bcdeCg65jkm8oFqi1tuvAxyz".
Definition ACCOUNT_ID_PREFIX : Z := 0.

Definition alphabet_char (d : Z) : Z := default 0 (XRPL_ALPHABET !! Z.to_nat d).

(** [while (value > 0n) { out = ALPHABET[value % 58n] + out; value /= 58n }]. *)
Fixpoint encode_loop (fuel : nat) (value : Z) (out : jsstring) : jsstring :=
  match fuel with
  | O => out
  | S f =>
      if 0 <? value
      then encode_loop f (value / 58) (alphabet_char (value mod 58) :: out)
      else out
  end.

(** [for (const byte of bytes) { if (byte !== 0) break; out = ALPHABET[0] + out }]. *)
Fixpoint leading_zero_loop (l : bytes) (out : jsstring) : jsstring :=
  match l with
  | b :: l' => if negb (bz b =? 0) then out else leading_zero_loop l' (alphabet_char 0 :: out)
  | [] => out
  end.

Definition base58Xrpl (l : bytes) : jsstring :=
  let value := foldl (fun v b => v * 256 + bz b) 0 l in
  leading_zero_loop l (encode_loop (Radix.loop_fuel value) value []).

Definition encodeAccountId (sha256 : bytes -> bytes) (accountId : bytes) : jsstring :=
  let payload := set_at (<[0%nat := u8 ACCOUNT_ID_PREFIX]> (zeros (1 + length accountId))) 1 accountId in
  let checksum := take 4 (sha256 (sha256 payload)) in
  let full := set_at (set_at (zeros (length payload + 4)) 0 payload) (length payload) checksum in
  base58Xrpl full.

(** ** Reference decoder *)

Definition char_digit (c : Z) : Z :=
  match list_find (fun x => x = c) XRPL_ALPHABET with Some (i, _) => Z.of_nat i | None => 0 end.
Fixpoint count_leading (c : Z) (s : list Z) : nat :=
  match s with
  | x :: s' => if x =? c then S (count_leading c s') else 0%nat
  | [] => 0%nat
  end.
Definition decode58 (s : jsstring) : bytes :=
  zeros (count_leading (alphabet_char 0) s) ++
  Uint8Array_from (Radix.to_digits 256 (Radix.of_digits 58 (char_digit <$> s))).

Lemma char_digit_alphabet d : 0 <= d < 58 -> char_digit (alphabet_char d) = d.
Proof.
  intros Hd.
  assert (forallb (fun n => char_digit (alphabet_char (Z.of_nat n)) =? Z.of_nat n) (seq 0 58) = true)
    as H by (vm_compute; reflexivity).
  rewrite forallb_Forall, Forall_forall in H. specialize (H (Z.to_nat d)).
  rewrite Z2Nat.id in H by lia. apply Z.eqb_eq, H. apply elem_of_seq. lia.
Qed.

Lemma encode_loop_digits fuel v l :
  0 <= v -> Radix.digits_ok 58 l ->
  encode_loop fuel v (alphabet_char <$> l) = alphabet_char <$> Radix.digits_fuel fuel 58 v l.
Proof.
  revert v l; induction fuel as [|f IH]; intros v l Hv Hl; [done|]. cbn.
  destruct (Z.ltb_spec 0 v), (Z.eqb_spec v 0); try done; try lia.
  apply (IH (v / 58) (v mod 58 :: l)); [apply Z.div_pos; lia|].
  constructor; [apply Z.mod_pos_bound; lia|done].
Qed.

(** The leading zero bytes, and a rest that does not start with zero. *)
Lemma split_zeros (l : bytes) :
  exists n r, l = zeros n ++ r /\ head r <> Some x00.
Proof.
  induction l as [|b l (n & r & -> & Hr)]; [by exists 0%nat, []|].
  destruct (decide (b = x00)) as [->|Hb]; [by exists (S n), r|].
  exists 0%nat, (b :: zeros n ++ r). split; [done|]. by intros [= ->].
Qed.

Lemma leading_zero_loop_eq n r out :
  head r <> Some x00 ->
  leading_zero_loop (zeros n ++ r) out = replicate n (alphabet_char 0) ++ out.
Proof.
  intros Hr. revert out; induction n as [|n IH]; intros out; cbn [zeros replicate app leading_zero_loop].
  - destruct r as [|b r]; [done|]. cbn [leading_zero_loop]. destruct (Z.eqb_spec (bz b) 0) as [E|]; [|done].
    exfalso. apply Hr. cbn. f_equal. by apply bz_inj.
  - change (bz x00 =? 0) with true. cbn [negb]. rewrite IH.
    rewrite <- (app_nil_l out) at 2. change (alphabet_char 0 :: out) with ([alphabet_char 0] ++ out).
    rewrite app_assoc, <- replicate_S_end. done.
Qed.

Lemma be_val_zeros n r : be_val (zeros n ++ r) = be_val r.
Proof.
  unfold be_val, zeros. rewrite fmap_app, fmap_replicate. change (bz x00) with 0.
  apply Radix.of_digits_replicate_0. lia.
Qed.

Lemma base58Xrpl_eq n r : head r <> Some x00 ->
  base58Xrpl (zeros n ++ r) =
  replicate n (alphabet_char 0) ++ (alphabet_char <$> Radix.to_digits 58 (be_val r)).
Proof.
  intros Hr. unfold base58Xrpl.
  assert (foldl (fun v b => v * 256 + bz b) 0 (zeros n ++ r) = be_val r) as ->.
  { rewrite <- (be_val_zeros n r). unfold be_val, Radix.of_digits. by rewrite foldl_fmap. }
  rewrite leading_zero_loop_eq by done. f_equal.
  apply (encode_loop_digits _ _ []); [apply be_val_bound|constructor].
Qed.

Lemma count_leading_eq n c s : head s <> Some c -> count_leading c (replicate n c ++ s) = n.
Proof.
  intros Hs. induction n as [|n IH]; cbn.
  - destruct s as [|x s]; [done|]. cbn. destruct (Z.eqb_spec x c); [|done]. subst. by destruct Hs.
  - by rewrite Z.eqb_refl, IH.
Qed.

Lemma decode58_base58Xrpl l : decode58 (base58Xrpl l) = l.
Proof.
  destruct (split_zeros l) as (n & r & -> & Hr). rewrite base58Xrpl_eq by done.
  destruct (Radix.to_digits_spec 58 ltac:(lia) (be_val r)) as (Hv & Hok & Hlz); [apply be_val_bound|].
  set (d := Radix.to_digits 58 (be_val r)) in *. unfold decode58. f_equal.
  - unfold zeros. rewrite count_leading_eq; [done|]. destruct d as [|x d]; [done|]. cbn.
    intros [= E]. apply Forall_cons_1 in Hok as [Hx _]. apply (f_equal char_digit) in E.
    rewrite !char_digit_alphabet in E by lia. subst x. by destruct Hlz.
  - rewrite fmap_app, fmap_replicate, char_digit_alphabet by lia.
    rewrite Radix.of_digits_replicate_0 by lia.
    assert (char_digit <$> (alphabet_char <$> d) = d) as ->.
    { clear -Hok. induction Hok as [|x d Hx _ IH]; [done|]. cbn. by rewrite char_digit_alphabet, IH. }
    rewrite Hv. unfold be_val. rewrite Radix.to_of_digits.
    + apply Uint8Array_from_bz.
    + lia.
    + apply Forall_bz.
    + unfold Radix.no_leading_zero. destruct r as [|b r]; [done|]. cbn. intros [= E].
      apply Hr. cbn. f_equal. by apply bz_inj.
Qed.

Lemma encodeAccountId_eq sha256 accountId :
  length (sha256 (sha256 (x00 :: accountId))) = 32%nat ->
  encodeAccountId sha256 accountId =
  base58Xrpl (x00 :: accountId ++ take 4 (sha256 (sha256 (x00 :: accountId)))).
Proof.
  intros Hl. unfold encodeAccountId.
  assert (set_at (<[0%nat:=u8 ACCOUNT_ID_PREFIX]> (zeros (1 + length accountId))) 1 accountId
          = x00 :: accountId) as ->.
  { unfold set_at, zeros. cbn. rewrite drop_replicate, Nat.sub_diag. by rewrite app_nil_r. }
  cbv zeta. unfold set_at at 2, zeros. rewrite take_0, app_nil_l, Nat.add_0_l, drop_replicate.
  unfold set_at. rewrite take_app_length, drop_app_add, drop_replicate, length_take, Hl.
  rewrite Nat.add_comm, Nat.add_sub. cbn [Nat.min Nat.sub replicate]. rewrite app_nil_r. done.
Qed.

(** ** Properties *)

(** The XRPL base-58 encoding loses nothing: a reference decoder returns the
    encoded bytes, leading zero bytes included, so distinct byte strings have
    distinct encodings. *)
Theorem base58_roundtrip l : decode58 (base58Xrpl l) = l.
Proof. apply decode58_base58Xrpl. Qed.

(** A classic XRPL address decodes to the zero prefix, the account id and the
    first four bytes of its double SHA-256, for any 32-byte hash function. *)
Theorem account_address_decodes sha256 accountId :
  (forall m, length (sha256 m) = 32%nat) ->
  decode58 (encodeAccountId sha256 accountId) =
  x00 :: accountId ++ take 4 (sha256 (sha256 (x00 :: accountId))).
Proof. intros Hl. by rewrite encodeAccountId_eq, decode58_base58Xrpl. Qed.

Lemma account_address_decodes_witness :
  decode58 (encodeAccountId (fun m => take 32 (m ++ replicate 32 x5a)) (replicate 20 x07)) =
  x00 :: replicate 20 x07 ++ [x00; x07; x07; x07].
Proof.
  apply (account_address_decodes (fun m => take 32 (m ++ replicate 32 x5a)) (replicate 20 x07)).
  intros m. rewrite length_take, length_app, length_replicate. lia.
Defined.
