(* ===== verification/Rlp.v ===== *)
(** * RLP encoding of the Lighter action

    packages/lit-allocator/src/vm/lighter-vm.ts: [rlpEncodeBytes],
    [rlpEncodeUint], [rlpEncodeList] and the two legacy-transaction encoders.
    [decode_item] and [decode_strings] are a reference decoder written from
    the RLP specification. *)

From Stdlib Require Import Strings.Byte.
From S2P Require Import Prelude JsNum JsString HexBytes.
Local Open Scope Z_scope.

Definition bigintToMinimalBytes (value : Z) : result bytes :=
  if value =? 0 then Ok []
  else
    let hex := toString16 value in
    let hex := if negb (Nat.eqb (length hex mod 2) 0) then 48 :: hex else hex in
    hexToBytes hex "rlp.quantity".

Definition rlpEncodeBytes (l : bytes) : result bytes :=
  if match l with [b] => bz b <? 128 | _ => false end then Ok l
  else if Nat.leb (length l) 55 then
    Ok (concatBytes [[u8 (128 + Z.of_nat (length l))]; l])
  else
    lengthBytes ← bigintToMinimalBytes (Z.of_nat (length l));
    Ok (concatBytes [[u8 (183 + Z.of_nat (length lengthBytes))]; lengthBytes; l]).

Definition rlpEncodeUint (value : Z) : result bytes :=
  b ← bigintToMinimalBytes value; rlpEncodeBytes b.

Definition rlpEncodeList (items : list bytes) : result bytes :=
  let body := concatBytes items in
  if Nat.leb (length body) 55 then
    Ok (concatBytes [[u8 (192 + Z.of_nat (length body))]; body])
  else
    lengthBytes ← bigintToMinimalBytes (Z.of_nat (length body));
    Ok (concatBytes [[u8 (247 + Z.of_nat (length lengthBytes))]; lengthBytes; body]).

Record UnsignedLegacyTransaction := {
  un_nonce : Z; un_gasPrice : Z; un_gasLimit : Z;
  un_to : bytes; un_data : bytes; un_chainId : Z;
}.

Definition encodeUnsignedLegacyTransaction (input : UnsignedLegacyTransaction) : result bytes :=
  a ← rlpEncodeUint (un_nonce input);
  b ← rlpEncodeUint (un_gasPrice input);
  c ← rlpEncodeUint (un_gasLimit input);
  d ← rlpEncodeBytes (un_to input);
  e ← rlpEncodeUint 0;
  f ← rlpEncodeBytes (un_data input);
  g ← rlpEncodeUint (un_chainId input);
  h ← rlpEncodeUint 0;
  i ← rlpEncodeUint 0;
  rlpEncodeList [a; b; c; d; e; f; g; h; i].

Record SignedLegacyTransaction := {
  sg_nonce : Z; sg_gasPrice : Z; sg_gasLimit : Z;
  sg_to : bytes; sg_data : bytes; sg_v : Z; sg_r : Z; sg_s : Z;
}.

Definition encodeSignedLegacyTransaction (input : SignedLegacyTransaction) : result bytes :=
  a ← rlpEncodeUint (sg_nonce input);
  b ← rlpEncodeUint (sg_gasPrice input);
  c ← rlpEncodeUint (sg_gasLimit input);
  d ← rlpEncodeBytes (sg_to input);
  e ← rlpEncodeUint 0;
  f ← rlpEncodeBytes (sg_data input);
  g ← rlpEncodeUint (sg_v input);
  h ← rlpEncodeUint (sg_r input);
  i ← rlpEncodeUint (sg_s input);
  rlpEncodeList [a; b; c; d; e; f; g; h; i].

(** ** Reference decoder *)

(** The next item of a byte stream: is it a list, its payload, the rest. *)
Definition decode_item (s : bytes) : option (bool * bytes * bytes) :=
  match s with
  | [] => None
  | p :: r =>
      let v := bz p in
      let short (isl : bool) (off : Z) :=
        let n := Z.to_nat (v - off) in
        if Nat.leb n (length r) then Some (isl, take n r, drop n r) else None in
      let long (isl : bool) (off : Z) :=
        let k := Z.to_nat (v - off) in
        let n := Z.to_nat (be_val (take k r)) in
        if Nat.leb (k + n) (length r) then Some (isl, take n (drop k r), drop (k + n) r) else None in
      if v <? 128 then Some (false, [p], r)
      else if v <=? 183 then short false 128
      else if v <=? 191 then long false 183
      else if v <=? 247 then short true 192
      else long true 247
  end.

(** A concatenation of string items; each item takes at least one byte. *)
Fixpoint decode_strings (fuel : nat) (s : bytes) : option (list bytes) :=
  match s, fuel with
  | [], _ => Some []
  | _, O => None
  | _, S f =>
      '(isl, payload, rest) ← decode_item s;
      if isl : bool then None
      else xs ← decode_strings f rest; Some (payload :: xs)
  end.

(** A list of strings and nothing after it. *)
Definition decode_list (s : bytes) : option (list bytes) :=
  '(isl, body, rest) ← decode_item s;
  if (isl : bool) && bool_decide (rest = []) then decode_strings (length body) body else None.

(** ** Lemmas *)

Lemma bigintToMinimalBytes_spec v : 0 <= v ->
  exists l, bigintToMinimalBytes v = Ok l /\ be_val l = v /\ head l <> Some x00.
Proof.
  intros Hv. destruct (bigIntToBytes_spec v Hv) as (l & Hl & ?). exists l. split; [|done].
  revert Hl. unfold bigintToMinimalBytes, bigIntToBytes. destruct (v =? 0); [done|].
  set (h := toString16 v). destruct (Nat.eqb (length h mod 2) 0); cbn [negb]; intros E;
    apply hexToBytes_ok in E; apply hexToBytes_ok; apply normalizeHex_ok in E; by apply normalizeHex_ok.
Qed.

(** A minimal length below 2^64 takes between one and eight bytes. *)
Lemma minimal_length l n : 0 < n < 2 ^ 64 -> be_val l = n -> head l <> Some x00 ->
  (1 <= length l <= 8)%nat.
Proof.
  intros Hn Hv Hh. destruct l as [|b l].
  - cbn in Hv. lia.
  - split; [cbn; lia|].
    assert (Radix.no_leading_zero (bz <$> b :: l)) as Hlz.
    { intros [= E]. apply Hh. cbn. f_equal. by apply bz_inj. }
    pose proof (Radix.no_leading_zero_lower 256 ltac:(lia) _ (Forall_bz (b :: l)) Hlz ltac:(done)) as Hlow.
    fold (be_val (b :: l)) in Hlow. rewrite length_fmap in Hlow.
    destruct (Nat.le_gt_cases (length (b :: l)) 8) as [|Hgt]; [done|]. exfalso.
    assert (256 ^ 8 <= 256 ^ (Z.of_nat (length (b :: l)) - 1)) by (apply Z.pow_le_mono_r; lia).
    change (256 ^ 8) with (2 ^ 64) in *. lia.
Qed.

Definition fits (l : bytes) : Prop := Z.of_nat (length l) < 2 ^ 64.

(** Shape of the long forms, for strings and lists alike. *)
Lemma long_form l off : fits l -> (55 < length l)%nat -> 128 <= off <= 247 ->
  exists lb, bigintToMinimalBytes (Z.of_nat (length l)) = Ok lb /\ (1 <= length lb <= 8)%nat /\
    be_val lb = Z.of_nat (length l) /\ bz (u8 (off + Z.of_nat (length lb))) = off + Z.of_nat (length lb).
Proof.
  unfold fits. intros Hf Hl Ho.
  destruct (bigintToMinimalBytes_spec (Z.of_nat (length l))) as (lb & E & Hv & Hh); [lia|].
  exists lb. pose proof (minimal_length lb (Z.of_nat (length l)) ltac:(lia) Hv Hh). split_and!; try done; try lia.
  apply bz_u8_small. lia.
Qed.

Lemma rlpEncodeBytes_decode l : fits l ->
  exists e, rlpEncodeBytes l = Ok e /\ (1 <= length e <= length l + 9)%nat /\
    forall rest, decode_item (e ++ rest) = Some (false, l, rest).
Proof.
  intros Hf. unfold rlpEncodeBytes.
  destruct (match l with [b] => bz b <? 128 | _ => false end) eqn:Es.
  { destruct l as [|b [|? ?]]; try done. exists [b]. split; [done|]. split; [cbn; lia|].
    intros rest. cbn. by rewrite Es. }
  destruct (Nat.leb_spec (length l) 55) as [Hle|Hgt].
  - eexists. split; [done|]. rewrite concatBytes_join. cbn [mjoin list_join]. rewrite app_nil_r.
    split; [cbn; lia|]. intros rest. cbn [app decode_item]. rewrite bz_u8_small by lia.
    zcmp.
    replace (Z.to_nat (128 + Z.of_nat (length l) - 128)) with (length l) by lia.
    rewrite length_app, (proj2 (Nat.leb_le _ _)) by lia.
    by rewrite take_app_length, drop_app_length.
  - destruct (long_form l 183 Hf Hgt ltac:(lia)) as (lb & -> & Hlb & Hv & Hp).
    cbn [mbind result_bind]. eexists. split; [done|]. rewrite concatBytes_join.
    cbn [mjoin list_join]. rewrite app_nil_r.
    split; [cbn [app length]; rewrite length_app; lia|]. intros rest.
    cbn [app decode_item]. rewrite Hp.
    zcmp.
    replace (Z.to_nat (183 + Z.of_nat (length lb) - 183)) with (length lb) by lia.
    rewrite <- app_assoc, take_app_length, Hv, Nat2Z.id, !length_app, (proj2 (Nat.leb_le _ _)) by lia.
    rewrite drop_app_length, take_app_length, drop_app_add, drop_app_length. done.
Qed.

Lemma rlpEncodeList_decode items : fits (mjoin items) ->
  exists e, rlpEncodeList items = Ok e /\
    forall rest, decode_item (e ++ rest) = Some (true, mjoin items, rest).
Proof.
  intros Hf. unfold rlpEncodeList. rewrite concatBytes_join. set (l := mjoin items) in *.
  destruct (Nat.leb_spec (length l) 55) as [Hle|Hgt].
  - eexists. split; [done|]. intros rest. rewrite concatBytes_join. cbn [mjoin list_join].
    rewrite app_nil_r. cbn [app decode_item]. rewrite bz_u8_small by lia.
    zcmp.
    replace (Z.to_nat (192 + Z.of_nat (length l) - 192)) with (length l) by lia.
    rewrite length_app, (proj2 (Nat.leb_le _ _)) by lia.
    by rewrite take_app_length, drop_app_length.
  - destruct (long_form l 247 Hf Hgt ltac:(lia)) as (lb & -> & Hlb & Hv & Hp).
    cbn [mbind result_bind]. eexists. split; [done|]. rewrite concatBytes_join.
    cbn [mjoin list_join]. rewrite app_nil_r. intros rest. cbn [app decode_item]. rewrite Hp.
    zcmp.
    replace (Z.to_nat (247 + Z.of_nat (length lb) - 247)) with (length lb) by lia.
    rewrite <- app_assoc, take_app_length, Hv, Nat2Z.id, !length_app, (proj2 (Nat.leb_le _ _)) by lia.
    rewrite drop_app_length, take_app_length, drop_app_add, drop_app_length. done.
Qed.

Lemma decode_strings_encoded fuel es ls :
  Forall2 (fun e l => (1 <= length e <= length l + 9)%nat /\
             forall rest, decode_item (e ++ rest) = Some (false, l, rest)) es ls ->
  (length (mjoin es) <= fuel)%nat -> decode_strings fuel (mjoin es) = Some ls.
Proof.
  intros H. revert fuel; induction H as [|e l es ls [He Hd] _ IH]; intros fuel Hf; [by destruct fuel|].
  change (mjoin (e :: es)) with (e ++ mjoin es) in *. rewrite length_app in Hf.
  destruct fuel as [|f]; [lia|]. destruct (e ++ mjoin es) as [|b s] eqn:E.
  { apply (f_equal length) in E. rewrite length_app in E. cbn in E. lia. }
  cbn [decode_strings]. rewrite <- E, Hd. cbn [mbind option_bind]. rewrite IH by lia. done.
Qed.

(** Size bound under which every length field of [ls] fits eight bytes. *)
Definition list_fits (ls : list bytes) : Prop :=
  Z.of_nat (length (mjoin ls)) + 9 * Z.of_nat (length ls) < 2 ^ 64.

Lemma encode_all ls : list_fits ls ->
  exists es, mapM rlpEncodeBytes ls = Ok es /\
    (length (mjoin es) <= length (mjoin ls) + 9 * length ls)%nat /\
    Forall2 (fun e l => (1 <= length e <= length l + 9)%nat /\
               forall rest, decode_item (e ++ rest) = Some (false, l, rest)) es ls.
Proof.
  unfold list_fits. induction ls as [|l ls IH]; intros Hf; [by exists []|].
  change (mjoin (l :: ls)) with (l ++ mjoin ls) in *. rewrite length_app in *. cbn [length] in *.
  destruct (rlpEncodeBytes_decode l) as (e & He & Hl & Hd); [unfold fits; lia|].
  destruct IH as (es & Hes & Hlen & HF); [lia|]. exists (e :: es).
  cbn [mapM]. rewrite He. cbn [mbind result_bind]. rewrite Hes. split; [done|].
  change (mjoin (e :: es)) with (e ++ mjoin es). rewrite length_app. split; [lia|by constructor].
Qed.

Lemma encode_list_decode ls : list_fits ls ->
  exists es e, mapM rlpEncodeBytes ls = Ok es /\ rlpEncodeList es = Ok e /\ decode_list e = Some ls.
Proof.
  intros Hf. destruct (encode_all ls Hf) as (es & Hes & Hlen & HF).
  destruct (rlpEncodeList_decode es) as (e & He & Hd); [unfold fits, list_fits in *; lia|].
  exists es, e. split; [done|]. split; [done|]. unfold decode_list.
  specialize (Hd []). rewrite app_nil_r in Hd. rewrite Hd. cbn [mbind option_bind andb].
  rewrite bool_decide_true by done. by apply decode_strings_encoded.
Qed.

(** Big-endian bytes of [v] without leading zeros, the RLP form of a scalar. *)
Definition minimal_be (v : Z) (l : bytes) : Prop := be_val l = v /\ head l <> Some x00.

Lemma minimal_be_short v l n : minimal_be v l -> 0 <= v < 256 ^ Z.of_nat n -> (length l <= n)%nat.
Proof.
  intros [Hv Hh] Hb. destruct l as [|b l]; [cbn; lia|].
  assert (Radix.no_leading_zero (bz <$> b :: l)) as Hlz.
  { intros [= E]. apply Hh. cbn. f_equal. by apply bz_inj. }
  pose proof (Radix.no_leading_zero_lower 256 ltac:(lia) _ (Forall_bz (b :: l)) Hlz ltac:(done)) as Hlow.
  fold (be_val (b :: l)) in Hlow. rewrite length_fmap in Hlow.
  destruct (Nat.le_gt_cases (length (b :: l)) n) as [|Hgt]; [done|]. exfalso.
  assert (256 ^ Z.of_nat n <= 256 ^ (Z.of_nat (length (b :: l)) - 1)) by (apply Z.pow_le_mono_r; lia).
  lia.
Qed.

Lemma bigintToMinimalBytes_total v n : 0 <= v < 256 ^ Z.of_nat n ->
  exists l, bigintToMinimalBytes v = Ok l /\ minimal_be v l /\ (length l <= n)%nat.
Proof.
  intros Hv. destruct (bigintToMinimalBytes_spec v) as (l & Hl & Hm); [lia|].
  exists l. split_and!; try done. by apply (minimal_be_short v).
Qed.

(** The nine strings of a legacy transaction, both before and after signing. *)
Definition legacy_fields (n gp gl : bytes) (to_ data_ a b c : bytes) : list bytes :=
  [n; gp; gl; to_; []; data_; a; b; c].

Section Legacy.
Context (nonce gasPrice gasLimit : Z) (to_ data_ : bytes) (a b c : Z).
Hypothesis Hr : Forall (fun v => 0 <= v < 256 ^ 33) [nonce; gasPrice; gasLimit; a; b; c].
Hypothesis Hd : Z.of_nat (length to_ + length data_) < 2 ^ 32.

Lemma legacy_decode :
  exists n gp gl a' b' c' e,
    minimal_be nonce n /\ minimal_be gasPrice gp /\ minimal_be gasLimit gl /\
    minimal_be a a' /\ minimal_be b b' /\ minimal_be c c' /\
    (xs ← mapM rlpEncodeBytes (legacy_fields n gp gl to_ data_ a' b' c'); rlpEncodeList xs) = Ok e /\
    decode_list e = Some (legacy_fields n gp gl to_ data_ a' b' c') /\
    bigintToMinimalBytes nonce = Ok n /\ bigintToMinimalBytes gasPrice = Ok gp /\
    bigintToMinimalBytes gasLimit = Ok gl /\ bigintToMinimalBytes a = Ok a' /\
    bigintToMinimalBytes b = Ok b' /\ bigintToMinimalBytes c = Ok c'.
Proof using Hr Hd.
  clear -Hr Hd. repeat (apply Forall_cons_1 in Hr as [? Hr]).
  destruct (bigintToMinimalBytes_total nonce 33) as (n & ? & ? & ?); [lia|].
  destruct (bigintToMinimalBytes_total gasPrice 33) as (gp & ? & ? & ?); [lia|].
  destruct (bigintToMinimalBytes_total gasLimit 33) as (gl & ? & ? & ?); [lia|].
  destruct (bigintToMinimalBytes_total a 33) as (a' & ? & ? & ?); [lia|].
  destruct (bigintToMinimalBytes_total b 33) as (b' & ? & ? & ?); [lia|].
  destruct (bigintToMinimalBytes_total c 33) as (c' & ? & ? & ?); [lia|].
  destruct (encode_list_decode (legacy_fields n gp gl to_ data_ a' b' c')) as (es & e & Hes & He & Hdec).
  { unfold list_fits, legacy_fields. cbn [mjoin list_join]. rewrite !length_app. cbn [length]. lia. }
  exists n, gp, gl, a', b', c', e. rewrite Hes. cbn [mbind result_bind]. split_and!; try done.
Qed.
End Legacy.

(** [mapM] of the nine encoders, unfolded. *)
Ltac nine_binds He :=
  unfold legacy_fields in He; apply bind_ok in He as (? & He & ?); apply mapM_ok in He;
  repeat match type of He with
  | Forall2 _ (_ :: _) _ => apply Forall2_cons_inv_l in He as (? & ? & ? & He & ->)
  | Forall2 _ [] _ => apply Forall2_nil_inv_l in He as ->
  end.
Ltac run_binds :=
  cbn [mbind result_bind];
  repeat (match goal with E : ?c = Ok _ |- context [mbind _ ?c] => rewrite E end;
          cbn [mbind result_bind]).

(** The unsigned transaction is the EIP-155 signing payload. *)
Lemma encodeUnsigned_decode tx :
  Forall (fun v => 0 <= v < 2 ^ 256) [un_nonce tx; un_gasPrice tx; un_gasLimit tx; un_chainId tx] ->
  Z.of_nat (length (un_to tx) + length (un_data tx)) < 2 ^ 32 ->
  exists e n gp gl ch, encodeUnsignedLegacyTransaction tx = Ok e /\
    minimal_be (un_nonce tx) n /\ minimal_be (un_gasPrice tx) gp /\
    minimal_be (un_gasLimit tx) gl /\ minimal_be (un_chainId tx) ch /\
    decode_list e = Some (legacy_fields n gp gl (un_to tx) (un_data tx) ch [] []).
Proof.
  intros Hr Hd. repeat (apply Forall_cons_1 in Hr as [? Hr]).
  destruct (legacy_decode (un_nonce tx) (un_gasPrice tx) (un_gasLimit tx) (un_to tx) (un_data tx)
    (un_chainId tx) 0 0) as (n & gp & gl & ch & z1 & z2 & e & ? & ? & ? & ? & ? & ? & He & Hdec & E1 & E2 & E3 & E4 & E5 & E6).
  { forall_lia. }
  { done. }
  injection E5 as <-. injection E6 as <-. exists e, n, gp, gl, ch. split_and!; try done.
  unfold encodeUnsignedLegacyTransaction, rlpEncodeUint.
  change (bigintToMinimalBytes 0) with (Ok [] : result bytes).
  nine_binds He. run_binds. simplify_eq. congruence.
Qed.

Lemma encodeSigned_decode tx :
  Forall (fun v => 0 <= v < 256 ^ 33)
    [sg_nonce tx; sg_gasPrice tx; sg_gasLimit tx; sg_v tx; sg_r tx; sg_s tx] ->
  Z.of_nat (length (sg_to tx) + length (sg_data tx)) < 2 ^ 32 ->
  exists e n gp gl v r s, encodeSignedLegacyTransaction tx = Ok e /\
    minimal_be (sg_nonce tx) n /\ minimal_be (sg_gasPrice tx) gp /\
    minimal_be (sg_gasLimit tx) gl /\ minimal_be (sg_v tx) v /\
    minimal_be (sg_r tx) r /\ minimal_be (sg_s tx) s /\
    decode_list e = Some (legacy_fields n gp gl (sg_to tx) (sg_data tx) v r s).
Proof.
  intros Hr Hd.
  destruct (legacy_decode _ _ _ (sg_to tx) (sg_data tx) _ _ _ Hr Hd)
    as (n & gp & gl & v & r & s & e & ? & ? & ? & ? & ? & ? & He & Hdec & E1 & E2 & E3 & E4 & E5 & E6).
  exists e, n, gp, gl, v, r, s. split_and!; try done.
  unfold encodeSignedLegacyTransaction, rlpEncodeUint.
  change (bigintToMinimalBytes 0) with (Ok [] : result bytes).
  nine_binds He. run_binds. congruence.
Qed.

Lemma minimal_be_inj v l k : minimal_be v l -> minimal_be v k -> l = k.
Proof. intros [Hl Hl'] [Hk Hk']. apply be_val_minimal_inj; congruence. Qed.

(** ** Properties *)

(** RLP lists of strings round-trip: encoding the items and then the list
    always succeeds for payloads below the RLP size limit, and the decoder of
    the RLP specification returns exactly the items, with nothing left over. *)
Theorem rlp_list_roundtrip ls :
  list_fits ls ->
  exists es e, mapM rlpEncodeBytes ls = Ok es /\ rlpEncodeList es = Ok e /\ decode_list e = Some ls.
Proof. apply encode_list_decode. Qed.

Lemma rlp_list_roundtrip_witness :
  exists es e, mapM rlpEncodeBytes [[x00]; []; replicate 70 xff; [x7f; x80]] = Ok es /\
    rlpEncodeList es = Ok e /\ decode_list e = Some [[x00]; []; replicate 70 xff; [x7f; x80]].
Proof. apply (rlp_list_roundtrip [[x00]; []; replicate 70 xff; [x7f; x80]]). vm_compute. reflexivity. Defined.

(** The signed legacy transaction decodes to its nine fields in order, each
    scalar in minimal big-endian form (so the encoding is canonical), and the
    unsigned one to the EIP-155 payload (chainId, 0, 0). *)
Theorem legacy_transaction_roundtrip tx chain :
  Forall (fun v => 0 <= v < 2 ^ 256) [sg_nonce tx; sg_gasPrice tx; sg_gasLimit tx; sg_r tx; sg_s tx; chain] ->
  0 <= sg_v tx < 2 ^ 264 ->
  Z.of_nat (length (sg_to tx) + length (sg_data tx)) < 2 ^ 32 ->
  exists e u n gp gl v r s ch,
    encodeSignedLegacyTransaction tx = Ok e /\
    encodeUnsignedLegacyTransaction {| un_nonce := sg_nonce tx; un_gasPrice := sg_gasPrice tx;
      un_gasLimit := sg_gasLimit tx; un_to := sg_to tx; un_data := sg_data tx; un_chainId := chain |} = Ok u /\
    decode_list e = Some (legacy_fields n gp gl (sg_to tx) (sg_data tx) v r s) /\
    decode_list u = Some (legacy_fields n gp gl (sg_to tx) (sg_data tx) ch [] []) /\
    minimal_be (sg_nonce tx) n /\ minimal_be (sg_gasPrice tx) gp /\ minimal_be (sg_gasLimit tx) gl /\
    minimal_be (sg_v tx) v /\ minimal_be (sg_r tx) r /\ minimal_be (sg_s tx) s /\ minimal_be chain ch.
Proof.
  intros Hr Hv Hd. repeat (apply Forall_cons_1 in Hr as [? Hr]).
  destruct (encodeSigned_decode tx) as (e & n & gp & gl & v & r & s & ? & M1 & M2 & M3 & ? & ? & ? & ?);
    [forall_lia|done|].
  destruct (encodeUnsigned_decode {| un_nonce := sg_nonce tx; un_gasPrice := sg_gasPrice tx;
      un_gasLimit := sg_gasLimit tx; un_to := sg_to tx; un_data := sg_data tx; un_chainId := chain |})
    as (u & n' & gp' & gl' & ch & ? & M1' & M2' & M3' & ? & D); [forall_lia|done|].
  cbn [un_nonce un_gasPrice un_gasLimit un_to un_data un_chainId] in *.
  rewrite (minimal_be_inj _ _ _ M1' M1), (minimal_be_inj _ _ _ M2' M2), (minimal_be_inj _ _ _ M3' M3) in D.
  exists e, u, n, gp, gl, v, r, s, ch. split_and!; done.
Qed.

(** A transfer of nothing to a 20-byte address. *)
Definition sample_tx : SignedLegacyTransaction := {|
  sg_nonce := 0; sg_gasPrice := 1000000000; sg_gasLimit := 21000; sg_to := replicate 20 x77;
  sg_data := replicate 60 xab; sg_v := 37; sg_r := 2 ^ 255 + 1; sg_s := 1 |}.

Lemma legacy_transaction_roundtrip_witness :
  exists e u n gp gl v r s ch,
    encodeSignedLegacyTransaction sample_tx = Ok e /\
    encodeUnsignedLegacyTransaction {| un_nonce := sg_nonce sample_tx; un_gasPrice := sg_gasPrice sample_tx;
      un_gasLimit := sg_gasLimit sample_tx; un_to := sg_to sample_tx; un_data := sg_data sample_tx;
      un_chainId := 1 |} = Ok u /\
    decode_list e = Some (legacy_fields n gp gl (sg_to sample_tx) (sg_data sample_tx) v r s) /\
    decode_list u = Some (legacy_fields n gp gl (sg_to sample_tx) (sg_data sample_tx) ch [] []) /\
    minimal_be (sg_nonce sample_tx) n /\ minimal_be (sg_gasPrice sample_tx) gp /\
    minimal_be (sg_gasLimit sample_tx) gl /\ minimal_be (sg_v sample_tx) v /\
    minimal_be (sg_r sample_tx) r /\ minimal_be (sg_s sample_tx) s /\ minimal_be 1 ch.
Proof.
  apply (legacy_transaction_roundtrip sample_tx 1); [forall_lia| |]; vm_compute; split; discriminate || reflexivity.
Defined.
