(* ===== verification/AllocatorActions.v ===== *)
(** * The allocator's Lit Actions

    packages/lit-allocator/src/vm/*.ts: the entry points of the ten signing
    actions.  Each action derives its own key from the PKP key and either
    reports its wallet or signs the hashes of a verified attestation.  The
    host's key access and the external cryptography are the operations of
    [LitRuntime]; [config.ts] is [Config]. *)

From Stdlib Require Import Strings.Byte.
From S2P Require Import Prelude JsNum JsString HexBytes Abi Crypto Attestation Bech32 Rlp.
Local Open Scope Z_scope.
Local Open Scope js_scope.

(** Bundle-time constants of config.ts and custom-configs/lighter-vm.ts. *)
Record Config := {
  ALLOCATOR_ADDRESS : jsstring;
  HUB_EVM_CHAIN_ID : Z;
  ALLOWED_ORACLES : list jsstring;
  ORACLE_SIGNATURE_THRESHOLD : Z;
  LIGHTER_ALLOWED_API_KEYS : list (Z * jsstring);
  LIGHTER_GATEWAY : jsstring;
  LIGHTER_GATEWAY_CHAIN_ID : Z;
}.

(** Operations supplied by the Lit host, WebCrypto, @noble/curves,
    @noble/hashes, micro-eth-signer, tweetnacl and bs58. *)
Class LitRuntime := {
  runtime_signer :: EthSigner;
  getPrivateKey : jsstring -> result jsstring;
  hmac_sha256 : bytes -> bytes -> bytes;
  sha256 : bytes -> bytes;
  ripemd160 : bytes -> bytes;
  secp_getPublicKey : bytes -> result bytes;
  secp_sign_recovered : bytes -> bytes -> result bytes;
  secp_sign_der : bytes -> bytes -> result bytes;
  secp_sign_compact : bytes -> bytes -> result bytes;
  addr_fromPrivateKey : jsstring -> result jsstring;
  nacl_fromSeed : bytes -> result (bytes * bytes);
  nacl_detached : bytes -> bytes -> result bytes;
  bs58_encode : bytes -> jsstring;
}.

(** Documented shape of the external results. *)
Class LitRuntimeLaws (R : LitRuntime) : Prop := {
  runtime_signer_laws :: EthSignerLaws runtime_signer;
  hmac_sha256_length : forall k m, length (hmac_sha256 k m) = 32%nat;
  keccak_length : forall m, length (keccak m) = 32%nat;
  secp_recovered_length : forall h k r,
    secp_sign_recovered h k = Ok r -> length r = 65%nat;
}.

(** Inputs of the Lighter [changePubKey] action. *)
Record LighterChangePubKeyInput := {
  accountIndex : QuantityInput;
  apiKeyIndex : QuantityInput;
  publicKey : jsstring;
  txNonce : QuantityInput;
  gasPrice : QuantityInput;
  gasLimit : QuantityInput;
}.

(** [js_params] of every action; the fields a VM does not read are ignored. *)
Record ActionParams := {
  pkpId : jsstring;
  action : jsstring;
  withdrawRequest : option WithdrawRequest;
  attestation : option WithdrawRequestAttestation;
  destinationVmType : jsstring;
  changePubKey : option LighterChangePubKeyInput;
}.

Record SignEntry := { e_hash : jsstring; e_signature : jsstring }.

Record ChangePubKeyOutput := {
  cp_hash : jsstring;
  cp_data : jsstring;
  cp_unsignedTransaction : jsstring;
  cp_rawTransaction : jsstring;
  cp_signature : jsstring;
  cp_r : jsstring;
  cp_s : jsstring;
  cp_v : jsstring;
}.

(** [extra] holds the fields only one VM returns, by name. *)
Inductive ActionResult :=
  | WalletResult (vmType address : jsstring) (extra : list (string * jsstring))
  | SignResult (vmType address : jsstring) (extra : list (string * jsstring))
      (withdrawRequestHash : jsstring) (results : list SignEntry)
  | ChangePubKeyResult (vmType address : jsstring) (changePubKey : ChangePubKeyOutput).

Section Actions.
Context `{R : LitRuntime} (cfg : Config).

Definition hex0x (b : bytes) : jsstring := js "0x" ++ bytesToHex b.

(** The [action === "sign"] prologue shared by every entry point. *)
Definition verifiedHashes (params : ActionParams) : result (bytes * list bytes) :=
  req ← require (withdrawRequest params) "withdrawRequest is required";
  att ← require (attestation params) "attestation is required";
  verifyWithdrawRequestAttestation req att (ALLOCATOR_ADDRESS cfg) (HUB_EVM_CHAIN_ID cfg)
    (ALLOWED_ORACLES cfg) (ORACLE_SIGNATURE_THRESHOLD cfg).

(** [hashesToSign.map((hash, index) => ({ hash, signature }))]. *)
Definition signAll (sign : nat -> bytes -> result jsstring) (hashes : list bytes)
  : result (list SignEntry) :=
  mapM_idx (fun i h => s ← sign i h; Ok {| e_hash := hex0x h; e_signature := s |}) 0 hashes.

(** [signDigest] of the ethereum, tron, hyperliquid, gateway and bitcoin
    actions: r || s || v with v = 27 or 28. *)
Definition signDigest (messageHash : bytes) (privateKeyHex : jsstring) : result jsstring :=
  key ← hexToBytes (js "0x" ++ privateKeyHex) "hex";
  recovered ← secp_sign_recovered messageHash key;
  let signature := set_at (zeros 65) 0 (drop 1 recovered) in
  let v := if bool_decide (head recovered = Some x00) then 27 else 28 in
  Ok (hex0x (<[64%nat := u8 v]> signature)).

(** ** ethereum-vm.ts, tron-vm.ts, hyperliquid-vm.ts *)

Definition deriveEthereumPrivateKeyHex (pkp : jsstring) : result jsstring :=
  bytesToHex <$> deriveKey hmac_sha256 pkp (js "ethereum-vm").
Definition ethereumAddressFromPrivateKey (privateKeyHex : jsstring) : result jsstring :=
  addr_fromPrivateKey (js "0x" ++ privateKeyHex).

Definition ethereum_main (params : ActionParams) : result ActionResult :=
  pkpPrivateKey ← getPrivateKey (pkpId params);
  ethereumPrivateKey ← deriveEthereumPrivateKeyHex pkpPrivateKey;
  if bool_decide (action params = js "wallet") then
    address ← ethereumAddressFromPrivateKey ethereumPrivateKey;
    Ok (WalletResult (js "ethereum-vm") address [])
  else if bool_decide (action params = js "sign") then
    '(withdrawRequestHash, hashesToSign) ← verifiedHashes params;
    address ← ethereumAddressFromPrivateKey ethereumPrivateKey;
    results ← signAll (fun _ hash => signDigest hash ethereumPrivateKey) hashesToSign;
    Ok (SignResult (js "ethereum-vm") address [] (hex0x withdrawRequestHash) results)
  else throw "unknown action".

Definition deriveTronPrivateKeyHex (pkp : jsstring) : result jsstring :=
  bytesToHex <$> deriveKey hmac_sha256 pkp (js "tron-vm").
Definition tronAddressFromPrivateKey (privateKeyHex : jsstring) : result jsstring :=
  addr_fromPrivateKey (js "0x" ++ privateKeyHex).

Definition tron_main (params : ActionParams) : result ActionResult :=
  pkpPrivateKey ← getPrivateKey (pkpId params);
  tronPrivateKey ← deriveTronPrivateKeyHex pkpPrivateKey;
  if bool_decide (action params = js "wallet") then
    address ← tronAddressFromPrivateKey tronPrivateKey;
    Ok (WalletResult (js "tron-vm") address [])
  else if bool_decide (action params = js "sign") then
    '(withdrawRequestHash, hashesToSign) ← verifiedHashes params;
    address ← tronAddressFromPrivateKey tronPrivateKey;
    results ← signAll (fun _ hash => signDigest hash tronPrivateKey) hashesToSign;
    Ok (SignResult (js "tron-vm") address [] (hex0x withdrawRequestHash) results)
  else throw "unknown action".

Definition deriveHyperliquidPrivateKeyHex (pkp : jsstring) : result jsstring :=
  bytesToHex <$> deriveKey hmac_sha256 pkp (js "hyperliquid-vm").
Definition hyperliquidAddressFromPrivateKey (privateKeyHex : jsstring) : result jsstring :=
  addr_fromPrivateKey (js "0x" ++ privateKeyHex).

Definition hyperliquid_main (params : ActionParams) : result ActionResult :=
  pkpPrivateKey ← getPrivateKey (pkpId params);
  hyperliquidPrivateKey ← deriveHyperliquidPrivateKeyHex pkpPrivateKey;
  if bool_decide (action params = js "wallet") then
    address ← hyperliquidAddressFromPrivateKey hyperliquidPrivateKey;
    Ok (WalletResult (js "hyperliquid-vm") address [])
  else if bool_decide (action params = js "sign") then
    '(withdrawRequestHash, hashesToSign) ← verifiedHashes params;
    address ← hyperliquidAddressFromPrivateKey hyperliquidPrivateKey;
    results ← signAll (fun _ hash => signDigest hash hyperliquidPrivateKey) hashesToSign;
    Ok (SignResult (js "hyperliquid-vm") address [] (hex0x withdrawRequestHash) results)
  else throw "unknown action".

(** ** bitcoin-vm.ts *)

Definition deriveBitcoinPrivateKeyHex (pkp : jsstring) : result jsstring :=
  bytesToHex <$> deriveKey hmac_sha256 pkp (js "bitcoin-vm").

Definition bitcoinAddressFromPrivateKey (privateKeyHex : jsstring) : result jsstring :=
  key ← hexToBytes (js "0x" ++ privateKeyHex) "hex";
  pub ← secp_getPublicKey key;
  let publicKeyHash := ripemd160 (sha256 pub) in
  words ← convertBits publicKeyHash 8 5 true;
  Ok (encodeBech32 (js "bc") (0 :: words)).

Definition bitcoin_main (params : ActionParams) : result ActionResult :=
  pkpPrivateKey ← getPrivateKey (pkpId params);
  bitcoinPrivateKey ← deriveBitcoinPrivateKeyHex pkpPrivateKey;
  if bool_decide (action params = js "wallet") then
    address ← bitcoinAddressFromPrivateKey bitcoinPrivateKey;
    Ok (WalletResult (js "bitcoin-vm") address [])
  else if bool_decide (action params = js "sign") then
    '(withdrawRequestHash, hashesToSign) ← verifiedHashes params;
    address ← bitcoinAddressFromPrivateKey bitcoinPrivateKey;
    results ← signAll (fun _ hash => signDigest hash bitcoinPrivateKey) hashesToSign;
    Ok (SignResult (js "bitcoin-vm") address [] (hex0x withdrawRequestHash) results)
  else throw "unknown action".

(** ** solana-vm.ts, ton-vm.ts *)

Definition deriveSolanaSeed (pkp : jsstring) : result bytes :=
  deriveKey hmac_sha256 pkp (js "solana-vm").

Definition solana_main (params : ActionParams) : result ActionResult :=
  pkpPrivateKey ← getPrivateKey (pkpId params);
  seed ← deriveSolanaSeed pkpPrivateKey;
  '(pub, secret) ← nacl_fromSeed seed;
  if bool_decide (action params = js "wallet") then
    Ok (WalletResult (js "solana-vm") (bs58_encode pub) [])
  else if bool_decide (action params = js "sign") then
    '(withdrawRequestHash, hashesToSign) ← verifiedHashes params;
    results ← signAll (fun _ hash => bytesToHex <$> nacl_detached hash secret) hashesToSign;
    Ok (SignResult (js "solana-vm") (bs58_encode pub) [] (hex0x withdrawRequestHash) results)
  else throw "unknown action".

Definition tonAddress (pub : bytes) : jsstring := js "0:" ++ bytesToHex pub.
Definition deriveTonSeed (pkp : jsstring) : result bytes :=
  deriveKey hmac_sha256 pkp (js "ton-vm").

Definition ton_main (params : ActionParams) : result ActionResult :=
  pkpPrivateKey ← getPrivateKey (pkpId params);
  seed ← deriveTonSeed pkpPrivateKey;
  '(pub, secret) ← nacl_fromSeed seed;
  if bool_decide (action params = js "wallet") then
    Ok (WalletResult (js "ton-vm") (tonAddress pub) [])
  else if bool_decide (action params = js "sign") then
    '(withdrawRequestHash, hashesToSign) ← verifiedHashes params;
    results ← signAll (fun _ hash => bytesToHex <$> nacl_detached hash secret) hashesToSign;
    Ok (SignResult (js "ton-vm") (tonAddress pub) [] (hex0x withdrawRequestHash) results)
  else throw "unknown action".

(** ** xrp-vm.ts *)

Definition deriveXrpPrivateKey (pkp : jsstring) : result bytes :=
  deriveKey hmac_sha256 pkp (js "xrp-vm").
Definition xrpAddress (pub : bytes) : jsstring :=
  encodeAccountId sha256 (ripemd160 (sha256 pub)).
Definition xrpSignDigest (digest privateKey : bytes) : result jsstring :=
  hex0x <$> secp_sign_der digest privateKey.

Definition xrp_main (params : ActionParams) : result ActionResult :=
  pkpPrivateKey ← getPrivateKey (pkpId params);
  privateKey ← deriveXrpPrivateKey pkpPrivateKey;
  pub ← secp_getPublicKey privateKey;
  let address := xrpAddress pub in
  if bool_decide (action params = js "wallet") then
    Ok (WalletResult (js "xrp-vm") address [("signingPubKey", hex0x pub)])
  else if bool_decide (action params = js "sign") then
    '(withdrawRequestHash, hashesToSign) ← verifiedHashes params;
    results ← signAll (fun _ hash => xrpSignDigest hash privateKey) hashesToSign;
    Ok (SignResult (js "xrp-vm") address [] (hex0x withdrawRequestHash) results)
  else throw "unknown action".

(** ** hedera-vm.ts *)

Definition deriveHederaPrivateKey (pkp : jsstring) : result bytes :=
  deriveKey hmac_sha256 pkp (js "hedera-vm").
Definition hederaEvmAlias (privateKey : bytes) : result jsstring :=
  addr_fromPrivateKey (hex0x privateKey).
Definition hederaSignDigest (digest privateKey : bytes) : result jsstring :=
  hex0x <$> secp_sign_compact digest privateKey.

Definition hedera_main (params : ActionParams) : result ActionResult :=
  pkpPrivateKey ← getPrivateKey (pkpId params);
  privateKey ← deriveHederaPrivateKey pkpPrivateKey;
  address ← hederaEvmAlias privateKey;
  if bool_decide (action params = js "wallet") then
    pub ← secp_getPublicKey privateKey;
    Ok (WalletResult (js "hedera-vm") address [("publicKey", hex0x pub)])
  else if bool_decide (action params = js "sign") then
    '(withdrawRequestHash, hashesToSign) ← verifiedHashes params;
    results ← signAll (fun _ hash => hederaSignDigest hash privateKey) hashesToSign;
    Ok (SignResult (js "hedera-vm") address [] (hex0x withdrawRequestHash) results)
  else throw "unknown action".

(** ** gateway-vm.ts *)

Definition gateway_main (params : ActionParams) : result ActionResult :=
  let dest := destinationVmType params in
  fail_if negb (bool_decide (dest = js "ethereum-vm")) && negb (bool_decide (dest = js "solana-vm"))
    with "unsupported destinationVmType" ;;
  pkpPrivateKey ← getPrivateKey (pkpId params);
  gatewayKey ← deriveKey hmac_sha256 pkpPrivateKey (js "gateway-vm");
  let gatewayPrivateKey := bytesToHex gatewayKey in
  gatewaySigner ← addr_fromPrivateKey (js "0x" ++ gatewayPrivateKey);
  solanaKeyPair ← (if bool_decide (dest = js "solana-vm")
                   then Some <$> nacl_fromSeed gatewayKey else Ok None);
  let address := match solanaKeyPair with
                 | Some (pub, _) => bs58_encode pub
                 | None => gatewaySigner
                 end in
  let extra := [("destinationVmType", dest); ("gatewaySigner", gatewaySigner)] in
  if bool_decide (action params = js "wallet") then
    Ok (WalletResult (js "gateway-vm") address extra)
  else if bool_decide (action params = js "sign") then
    '(withdrawRequestHash, hashesToSign) ← verifiedHashes params;
    results ← signAll (fun index hash =>
      if Nat.eqb index 0 || bool_decide (dest = js "ethereum-vm")
      then signDigest hash gatewayPrivateKey
      else '(_, secret) ← require solanaKeyPair "solanaKeyPair is undefined";
           bytesToHex <$> nacl_detached hash secret) hashesToSign;
    Ok (SignResult (js "gateway-vm") address extra (hex0x withdrawRequestHash) results)
  else throw "unknown action".

(** ** lighter-vm.ts *)

Definition deriveLighterPrivateKeyHex (pkp : jsstring) : result jsstring :=
  bytesToHex <$> deriveKey hmac_sha256 pkp (js "lighter-vm").
Definition lighterAddressFromPrivateKey (privateKeyHex : jsstring) : result jsstring :=
  addr_fromPrivateKey (js "0x" ++ privateKeyHex).

Definition parseBoundedQuantity (value : QuantityInput) (field : string) (maxExclusive : Z)
  : result Z :=
  n ← match value with QString s => BigInt s | QInt z => Ok z end;
  fail_if (n <? 0) || (maxExclusive <=? n) with (field +:+ " out of range") ;;
  Ok n.

Definition abiEncodeBytesTail (l : bytes) : result bytes :=
  w ← quantityToWord (QInt (Z.of_nat (length l))) "pubKey.length";
  Ok (concatBytes [w; set_at (zeros (padded_length l)) 0 l]).

Definition encodeChangePubKeyCalldata (accountIndex_ apiKeyIndex_ : Z) (publicKey_ : bytes)
  : result bytes :=
  let selector := take 4 (keccak (TextEncoder_encode (js "changePubKey(uint48,uint8,bytes)"))) in
  a ← quantityToWord (QInt accountIndex_) "accountIndex";
  b ← quantityToWord (QInt apiKeyIndex_) "apiKeyIndex";
  c ← quantityToWord (QInt 96) "pubKey.offset";
  d ← abiEncodeBytesTail publicKey_;
  Ok (concatBytes [selector; a; b; c; d]).

Record DetailedSignature := {
  ds_signature : jsstring;
  ds_r : bytes;
  ds_s : bytes;
  ds_yParity : Z;
}.

Definition signDigestDetailed (messageHash : bytes) (privateKeyHex : jsstring)
  : result DetailedSignature :=
  key ← hexToBytes (js "0x" ++ privateKeyHex) "hex";
  recovered ← secp_sign_recovered messageHash key;
  let r := take 32 (drop 1 recovered) in
  let s := take 32 (drop 33 recovered) in
  let yParity := default 0 (bz <$> head recovered) in
  let signature := set_at (set_at (zeros 65) 0 r) 32 s in
  let v := if bool_decide (head recovered = Some x00) then 27 else 28 in
  Ok {| ds_signature := hex0x (<[64%nat := u8 v]> signature);
        ds_r := r; ds_s := s; ds_yParity := yParity |}.

Definition lighterSignDigest (messageHash : bytes) (privateKeyHex : jsstring) : result jsstring :=
  ds_signature <$> signDigestDetailed messageHash privateKeyHex.

(** [LIGHTER_ALLOWED_API_KEYS.some(...)]; a malformed configured key throws. *)
Fixpoint some_api_key (keys : list (Z * jsstring)) (index : Z) (normalized : jsstring) : result bool :=
  match keys with
  | [] => Ok false
  | (i, k) :: keys' =>
      if i =? index then
        n ← normalizeHex k "LIGHTER_ALLOWED_API_KEYS[].publicKey";
        if bool_decide (n = normalized) then Ok true else some_api_key keys' index normalized
      else some_api_key keys' index normalized
  end.

Definition isAllowedApiKey (index : Z) (publicKeyHex : jsstring) : result bool :=
  normalizedPublicKey ← normalizeHex publicKeyHex "changePubKey.publicKey";
  some_api_key (LIGHTER_ALLOWED_API_KEYS cfg) index normalizedPublicKey.

Definition signChangePubKey (input : LighterChangePubKeyInput) (privateKeyHex : jsstring)
  : result ChangePubKeyOutput :=
  accountIndex_ ← parseBoundedQuantity (accountIndex input) "changePubKey.accountIndex" (2 ^ 48);
  apiKeyIndex_ ← parseBoundedQuantity (apiKeyIndex input) "changePubKey.apiKeyIndex" (2 ^ 8);
  txNonce_ ← parseBoundedQuantity (txNonce input) "changePubKey.txNonce" (2 ^ 256);
  gasPrice_ ← parseBoundedQuantity (gasPrice input) "changePubKey.gasPrice" (2 ^ 256);
  gasLimit_ ← parseBoundedQuantity (gasLimit input) "changePubKey.gasLimit" (2 ^ 256);
  chainId_ ← parseBoundedQuantity (QInt (LIGHTER_GATEWAY_CHAIN_ID cfg))
    "LIGHTER_GATEWAY_CHAIN_ID" (2 ^ 256);
  fail_if chainId_ =? 0 with "LIGHTER_GATEWAY_CHAIN_ID out of range" ;;
  publicKeyHex ← normalizeHex (publicKey input) "changePubKey.publicKey";
  allowed ← isAllowedApiKey apiKeyIndex_ publicKeyHex;
  fail_if negb allowed with "Lighter API key is not allowlisted" ;;
  publicKey_ ← hexToBytes publicKeyHex "changePubKey.publicKey";
  fail_if Nat.eqb (length publicKey_) 0 with "changePubKey.publicKey must be non-empty" ;;
  gateway ← hexToBytes (LIGHTER_GATEWAY cfg) "LIGHTER_GATEWAY";
  fail_if negb (Nat.eqb (length gateway) 20) with "LIGHTER_GATEWAY must be exactly 20 bytes" ;;
  data_ ← encodeChangePubKeyCalldata accountIndex_ apiKeyIndex_ publicKey_;
  unsignedTransaction ← encodeUnsignedLegacyTransaction
    {| un_nonce := txNonce_; un_gasPrice := gasPrice_; un_gasLimit := gasLimit_;
       un_to := gateway; un_data := data_; un_chainId := chainId_ |};
  let hash := keccak unsignedTransaction in
  signed ← signDigestDetailed hash privateKeyHex;
  let eip155V := ds_yParity signed + chainId_ * 2 + 35 in
  r ← BigInt (hex0x (ds_r signed));
  s ← BigInt (hex0x (ds_s signed));
  rawTransaction ← encodeSignedLegacyTransaction
    {| sg_nonce := txNonce_; sg_gasPrice := gasPrice_; sg_gasLimit := gasLimit_;
       sg_to := gateway; sg_data := data_; sg_v := eip155V; sg_r := r; sg_s := s |};
  Ok {| cp_hash := hex0x hash; cp_data := hex0x data_;
        cp_unsignedTransaction := hex0x unsignedTransaction;
        cp_rawTransaction := hex0x rawTransaction; cp_signature := ds_signature signed;
        cp_r := hex0x (ds_r signed); cp_s := hex0x (ds_s signed); cp_v := toString10 eip155V |}.

Definition lighter_main (params : ActionParams) : result ActionResult :=
  pkpPrivateKey ← getPrivateKey (pkpId params);
  lighterPrivateKey ← deriveLighterPrivateKeyHex pkpPrivateKey;
  address ← lighterAddressFromPrivateKey lighterPrivateKey;
  if bool_decide (action params = js "wallet") then
    Ok (WalletResult (js "lighter-vm") address [])
  else if bool_decide (action params = js "sign") then
    '(withdrawRequestHash, hashesToSign) ← verifiedHashes params;
    results ← signAll (fun _ hash => lighterSignDigest hash lighterPrivateKey) hashesToSign;
    Ok (SignResult (js "lighter-vm") address [] (hex0x withdrawRequestHash) results)
  else if bool_decide (action params = js "changePubKey") then
    input ← require (changePubKey params) "changePubKey is required";
    out ← signChangePubKey input lighterPrivateKey;
    Ok (ChangePubKeyResult (js "lighter-vm") address out)
  else throw "unknown action".

(** ** The ten bundles *)

Inductive AllocatorVm :=
  | BitcoinVm | EthereumVm | GatewayVm | HederaVm | HyperliquidVm
  | LighterVm | SolanaVm | TonVm | TronVm | XrpVm.

Definition run_action (vm : AllocatorVm) : ActionParams -> result ActionResult :=
  match vm with
  | BitcoinVm => bitcoin_main
  | EthereumVm => ethereum_main
  | GatewayVm => gateway_main
  | HederaVm => hedera_main
  | HyperliquidVm => hyperliquid_main
  | LighterVm => lighter_main
  | SolanaVm => solana_main
  | TonVm => ton_main
  | TronVm => tron_main
  | XrpVm => xrp_main
  end.

(** The HKDF [info] each bundle derives its key with. *)
Definition vm_info (vm : AllocatorVm) : jsstring :=
  match vm with
  | BitcoinVm => js "bitcoin-vm"
  | EthereumVm => js "ethereum-vm"
  | GatewayVm => js "gateway-vm"
  | HederaVm => js "hedera-vm"
  | HyperliquidVm => js "hyperliquid-vm"
  | LighterVm => js "lighter-vm"
  | SolanaVm => js "solana-vm"
  | TonVm => js "ton-vm"
  | TronVm => js "tron-vm"
  | XrpVm => js "xrp-vm"
  end.
End Actions.
