(* ===== verification/ToyRuntime.v ===== *)
(** * A concrete runtime

    Executable stand-ins for the external operations of [LitRuntime], and a
    configuration, a request and an attestation the actions accept.  They
    satisfy the documented laws, so the hypotheses of the theorems about the
    actions can be met and the actions can be evaluated. *)

From Stdlib Require Import Strings.Byte.
From S2P Require Import Prelude JsNum JsString HexBytes Abi Attestation AllocatorActions.
Local Open Scope Z_scope.
Local Open Scope js_scope.

Definition pad32 (l : bytes) : bytes := take 32 (l ++ zeros 32).

Definition toy_hash (m : bytes) : bytes :=
  pad32 (Uint8Array_from (Radix.to_digits 256 (foldl (fun h b => (h * 16777619 + bz b) mod 2 ^ 248) 2166136261 m))).

Lemma length_pad32 l : length (pad32 l) = 32%nat.
Proof. unfold pad32, zeros. rewrite length_take, length_app, length_replicate. lia. Qed.

Definition toy_signer : EthSigner := {|
  keccak := toy_hash;
  addChecksum := Ok;
  verifyTyped := fun s _ a => Ok (bool_decide (s = js "sig:" ++ a));
|}.

Definition toy_runtime : LitRuntime := {|
  runtime_signer := toy_signer;
  getPrivateKey := fun _ => Ok (js "0x" ++ bytesToHex (pad32 [x01; x02; x03]));
  hmac_sha256 := fun k m => toy_hash (k ++ m);
  sha256 := toy_hash;
  ripemd160 := fun m => take 20 (toy_hash m);
  secp_getPublicKey := fun k => Ok (x02 :: toy_hash k);
  secp_sign_recovered := fun h k => Ok (x01 :: toy_hash h ++ toy_hash (h ++ k));
  secp_sign_der := fun h k => Ok (x30 :: toy_hash (h ++ k));
  secp_sign_compact := fun h k => Ok (toy_hash h ++ toy_hash (h ++ k));
  addr_fromPrivateKey := fun k => Ok (js "0x" ++ bytesToHex (take 20 (toy_hash (TextEncoder_encode k))));
  nacl_fromSeed := fun s => Ok (toy_hash s, s ++ toy_hash s);
  nacl_detached := fun h k => Ok (toy_hash (h ++ k) ++ toy_hash (k ++ h));
  bs58_encode := bytesToHex;
|}.

Lemma toy_signer_laws : EthSignerLaws toy_signer.
Proof.
  constructor. intros b Hb. exists (js "0x" ++ bytesToHex b). split; [done|]. apply toLowerCase_0x.
Qed.

Lemma toy_laws : LitRuntimeLaws toy_runtime.
Proof.
  constructor.
  - exact toy_signer_laws.
  - intros k m. apply length_pad32.
  - intros m. apply length_pad32.
  - intros h k r [= <-]. cbn [length]. unfold toy_hash. by rewrite length_app, !length_pad32.
Qed.

Definition toy_oracle (b : byte) : jsstring := js "0x" ++ bytesToHex (replicate 20 b).

Definition toy_config : Config := {|
  ALLOCATOR_ADDRESS := toy_oracle x11;
  HUB_EVM_CHAIN_ID := 537713;
  ALLOWED_ORACLES := [toy_oracle xa1; toy_oracle xa2; toy_oracle xa3];
  ORACLE_SIGNATURE_THRESHOLD := 2;
  LIGHTER_ALLOWED_API_KEYS := [(3, js "0xBEEF"); (5, js "0xC0FFEE")];
  LIGHTER_GATEWAY := toy_oracle x77;
  LIGHTER_GATEWAY_CHAIN_ID := 1;
|}.

Definition toy_request : WithdrawRequest := {|
  chainId := js "ethereum";
  depository := js "0x59";
  currency := js "0x0000";
  amount := js "123456789";
  spenderChainId := js "relay";
  spender := js "0xAbCd";
  receiver := js "0xef01";
  data := js "";
  nonce := js "0x" ++ bytesToHex (zeros 32);
|}.

Definition toy_digest : jsstring := js "0x" ++ bytesToHex (replicate 32 x5a).

Definition toy_attestation : WithdrawRequestAttestation := {|
  att_chainId := 537713;
  att_allocator := toy_oracle x11;
  att_withdrawRequestHash :=
    match computeWithdrawRequestHash toy_hash toy_request with
    | Ok h => js "0x" ++ bytesToHex h | Err _ => [] end;
  att_hashesToSign := [toy_digest; toy_digest];
  att_signatures :=
    [ {| oracleSigner := toy_oracle xa3; signature := js "sig:" ++ toy_oracle xa3 |};
      {| oracleSigner := toy_oracle xa1; signature := js "sig:" ++ toy_oracle xa1 |} ];
|}.

Definition toy_change : LighterChangePubKeyInput := {|
  accountIndex := QString (js "12");
  apiKeyIndex := QInt 5;
  publicKey := js "0xc0ffee";
  txNonce := QInt 0;
  gasPrice := QString (js "1000000000");
  gasLimit := QString (js "0x5208");
|}.

Definition toy_params (a : string) (dest : jsstring) : ActionParams := {|
  pkpId := js "0x01";
  action := js a;
  withdrawRequest := Some toy_request;
  attestation := Some toy_attestation;
  destinationVmType := dest;
  changePubKey := Some toy_change;
|}.
