(* ===== verification/AllocatorProofs.v ===== *)
(** * What the allocator's Lit Actions guarantee

    Lemmas and theorems about the ten entry points of AllocatorActions: when
    they sign, with which key, over which hashes, and what the Lighter
    [changePubKey] transaction contains. *)

From Stdlib Require Import Strings.Byte.
From S2P Require Import Prelude JsNum JsString HexBytes Abi Crypto Attestation Bech32 Rlp AllocatorActions ToyRuntime.
Local Open Scope Z_scope.
Local Open Scope js_scope.

(** ** The signature formats *)

Section Formats.
Context `{R : LitRuntime}.

(** r || s || v of a recoverable ECDSA signature. *)
Definition ecdsa65 (h key : bytes) : result jsstring :=
  recovered ← secp_sign_recovered h key;
  Ok (hex0x (drop 1 recovered ++
             [u8 (if bool_decide (head recovered = Some x00) then 27 else 28)])).

Definition ed25519 (h seed : bytes) : result jsstring :=
  '(_, secret) ← nacl_fromSeed seed; bytesToHex <$> nacl_detached h secret.

(** The [index]-th signature of a VM, from the derived key alone. *)
Definition vm_signature (vm : AllocatorVm) (dest : jsstring) (key : bytes) (index : nat)
    (h : bytes) : result jsstring :=
  match vm with
  | BitcoinVm | EthereumVm | HyperliquidVm | LighterVm | TronVm => ecdsa65 h key
  | GatewayVm => if Nat.eqb index 0 || bool_decide (dest = js "ethereum-vm")
                 then ecdsa65 h key else ed25519 h key
  | SolanaVm | TonVm => ed25519 h key
  | XrpVm => hex0x <$> secp_sign_der h key
  | HederaVm => hex0x <$> secp_sign_compact h key
  end.

Context `{!LitRuntimeLaws R}.

Lemma set_at_full (l : bytes) b : length l = 64%nat ->
  <[64%nat := b]> (set_at (zeros 65) 0 l) = l ++ [b].
Proof.
  intros Hl. unfold set_at, zeros. rewrite take_0, app_nil_l, Nat.add_0_l, drop_replicate, Hl.
  cbn [Nat.sub replicate]. rewrite insert_app_r_alt by lia. by rewrite Hl.
Qed.

Lemma signDigest_eq h key : signDigest h (bytesToHex key) = ecdsa65 h key.
Proof.
  unfold signDigest, ecdsa65. rewrite hexToBytes_0x. cbn [mbind result_bind].
  destruct (secp_sign_recovered h key) as [r|] eqn:E; [|done]. cbn [mbind result_bind].
  apply secp_recovered_length in E. rewrite set_at_full; [done|]. rewrite length_drop. lia.
Qed.

Lemma set_at_halves (l : bytes) : length l = 64%nat ->
  set_at (set_at (zeros 65) 0 (take 32 l)) 32 (take 32 (drop 32 l)) = set_at (zeros 65) 0 l.
Proof.
  intros Hl. unfold set_at, zeros. rewrite !take_0, !app_nil_l, !Nat.add_0_l, !drop_replicate.
  rewrite !length_take, !length_drop, Hl. cbn [Nat.min Nat.sub Nat.add].
  rewrite (take_length_app (take 32 l)) by (rewrite length_take; lia).
  rewrite drop_app_ge, drop_replicate, length_take, Hl by (rewrite length_take; lia).
  cbn [Nat.min Nat.sub replicate]. rewrite app_assoc. f_equal.
  rewrite (take_ge (drop 32 l)) by (rewrite length_drop; lia). apply take_drop.
Qed.

Lemma signDigestDetailed_ok h key d :
  signDigestDetailed h (bytesToHex key) = Ok d ->
  exists recovered, secp_sign_recovered h key = Ok recovered /\ length recovered = 65%nat /\
    ecdsa65 h key = Ok (ds_signature d) /\ ds_r d ++ ds_s d = drop 1 recovered /\
    length (ds_r d) = 32%nat /\ length (ds_s d) = 32%nat /\ head recovered = Some (u8 (ds_yParity d)) /\
    0 <= ds_yParity d < 256.
Proof.
  unfold signDigestDetailed. rewrite hexToBytes_0x. cbn [mbind result_bind].
  intros H. res_inv H. pose proof (secp_recovered_length _ _ _ Hs) as Hl.
  assert (length (drop 1 r) = 64%nat) as Hl1 by (rewrite length_drop; lia).
  exists r. cbn [ds_signature ds_r ds_s ds_yParity].
  change (drop 33 r) with (drop (1 + 32) r). rewrite <- drop_drop.
  split_and!; try done.
  - unfold ecdsa65. rewrite Hs. cbn [mbind result_bind].
    rewrite set_at_halves, set_at_full by done. done.
  - rewrite (take_ge (drop 32 (drop 1 r))) by (rewrite length_drop; lia). apply take_drop.
  - rewrite length_take. lia.
  - rewrite length_take, length_drop. lia.
  - destruct r as [|b r]; [done|]. cbn. by rewrite u8_bz.
  - destruct r as [|b r]; [done|]. cbn. apply bz_range.
  - destruct r as [|b r]; [done|]. cbn. apply bz_range.
Qed.

Lemma lighterSignDigest_eq h key : lighterSignDigest h (bytesToHex key) = ecdsa65 h key.
Proof.
  unfold lighterSignDigest, signDigestDetailed, ecdsa65. rewrite hexToBytes_0x.
  cbn [mbind result_bind]. destruct (secp_sign_recovered h key) as [r|] eqn:E; [|done].
  cbn [mbind result_bind fmap result_fmap ds_signature]. pose proof (secp_recovered_length _ _ _ E).
  change (drop 33 r) with (drop (1 + 32) r). rewrite <- drop_drop.
  rewrite set_at_halves, set_at_full by (rewrite length_drop; lia). done.
Qed.
End Formats.

(** Open an entry point, and the branches of a successful run of it. *)
Ltac unfold_mains :=
  unfold run_action, bitcoin_main, ethereum_main, gateway_main, hedera_main,
    hyperliquid_main, lighter_main, solana_main, ton_main, tron_main, xrp_main,
    deriveBitcoinPrivateKeyHex, deriveEthereumPrivateKeyHex, deriveTronPrivateKeyHex,
    deriveHyperliquidPrivateKeyHex, deriveLighterPrivateKeyHex, deriveSolanaSeed, deriveTonSeed,
    deriveXrpPrivateKey, deriveHederaPrivateKey in *.
Ltac open_branches H :=
  repeat (rewrite ?bind_ok, ?fmap_ok in H;
    match type of H with
    | (exists _, _) => let x := fresh "v" in let E := fresh "E" in destruct H as (x & E & H)
    | context [match ?x with (_, _) => _ end] => destruct x
    | (if ?b then _ else _) = Ok _ => let E := fresh "Eb" in destruct b eqn:E
    | Err _ = Ok _ => discriminate H
    | Ok _ = Ok _ => injection H as H; subst
    end).

(** ** What a [sign] response certifies *)

Section Signing.
Context `{R : LitRuntime} (cfg : Config).

(** The signatures returned by [vm] are over the hashes the oracles attested
    for the request, one each and in order, under the key derived for [vm]. *)
Record authorised (vm : AllocatorVm) (params : ActionParams) (req : WithdrawRequest)
    (att : WithdrawRequestAttestation) (key h : bytes) (hs : list bytes)
    (whash : jsstring) (results : list SignEntry) : Prop := {
  au_request : withdrawRequest params = Some req;
  au_attestation : attestation params = Some att;
  au_attested : attested req att (ALLOCATOR_ADDRESS cfg) (HUB_EVM_CHAIN_ID cfg)
                  (ALLOWED_ORACLES cfg) (ORACLE_SIGNATURE_THRESHOLD cfg) h hs;
  au_key : exists pkp, getPrivateKey (pkpId params) = Ok pkp /\
                       deriveKey hmac_sha256 pkp (vm_info vm) = Ok key;
  au_whash : whash = hex0x h;
  au_results : length results = length hs /\
    forall i b e, hs !! i = Some b -> results !! i = Some e ->
      e_hash e = hex0x b /\ vm_signature vm (destinationVmType params) key i b = Ok (e_signature e);
}.

Lemma verifiedHashes_ok params h hs :
  verifiedHashes cfg params = Ok (h, hs) <->
  exists req att, withdrawRequest params = Some req /\ attestation params = Some att /\
    attested req att (ALLOCATOR_ADDRESS cfg) (HUB_EVM_CHAIN_ID cfg)
      (ALLOWED_ORACLES cfg) (ORACLE_SIGNATURE_THRESHOLD cfg) h hs.
Proof.
  unfold verifiedHashes. split.
  - intros H. res_inv H. apply verify_attested in H. eauto.
  - intros (req & att & -> & -> & H). cbn [require mbind result_bind]. by apply verify_attested.
Qed.

Lemma signAll_ok sign hs results :
  signAll sign hs = Ok results <->
  length results = length hs /\
  forall i b e, hs !! i = Some b -> results !! i = Some e ->
    e_hash e = hex0x b /\ sign i b = Ok (e_signature e).
Proof.
  unfold signAll. rewrite mapM_idx_ok. apply and_iff_compat_l. split; intros H i b e Hb He.
  - specialize (H i b e Hb He). cbn in H. by res_inv H.
  - destruct (H i b e Hb He) as [E S]. cbn beta. rewrite Nat.add_0_l, S. cbn [mbind result_bind]. rewrite <- E.
    by destruct e.
Qed.

Lemma signAll_ext sign1 sign2 hs : (forall i b, sign1 i b = sign2 i b) ->
  signAll sign1 hs = signAll sign2 hs.
Proof.
  intros H. unfold signAll. generalize 0%nat as n. induction hs as [|b hs IH]; intros n; [done|].
  cbn [mapM_idx]. rewrite H. by rewrite IH.
Qed.

(** The common shape of the ten [sign] branches. *)
Lemma sign_authorised vm params pkp key h hs results :
  getPrivateKey (pkpId params) = Ok pkp -> deriveKey hmac_sha256 pkp (vm_info vm) = Ok key ->
  verifiedHashes cfg params = Ok (h, hs) ->
  signAll (vm_signature vm (destinationVmType params) key) hs = Ok results ->
  exists req att, authorised vm params req att key h hs (hex0x h) results.
Proof.
  intros Hp Hk Hv Hs. apply verifiedHashes_ok in Hv as (req & att & Hr & Ha & Hat).
  apply signAll_ok in Hs. exists req, att. constructor; eauto.
Qed.

Context `{!LitRuntimeLaws R}.

Lemma ed25519_eq seed pub secret h : nacl_fromSeed seed = Ok (pub, secret) ->
  ed25519 h seed = bytesToHex <$> nacl_detached h secret.
Proof. intros H. unfold ed25519. by rewrite H. Qed.

Lemma run_action_sign vm params ty address extra whash results :
  run_action cfg vm params = Ok (SignResult ty address extra whash results) ->
  action params = js "sign" /\ ty = vm_info vm /\
  exists req att key h hs, authorised vm params req att key h hs whash results.
Proof.
  intros H.
  destruct vm; unfold_mains; open_branches H; try discriminate H.
  all: repeat match goal with
    | E : fmap bytesToHex _ = Ok _ |- _ => apply fmap_ok in E as (? & E & <-) end.
  all: bool_prop; split; [done|]; split; [done|].
  all: match goal with
    | Ep : getPrivateKey _ = Ok ?pkp, Ek : deriveKey _ ?pkp _ = Ok ?key,
      Ev : verifiedHashes _ _ = Ok (?h, ?hs), Es : signAll _ _ = Ok ?r
      |- context [authorised ?vm] =>
        cut (exists req att, authorised vm params req att key h hs (hex0x h) r);
          [intros (? & ? & ?); eauto 10|];
        eapply sign_authorised; [exact Ep|exact Ek|exact Ev|];
        rewrite <- Es; apply signAll_ext; intros i b; cbn [vm_signature]
    end.
  all: rewrite ?signDigest_eq, ?lighterSignDigest_eq; try reflexivity.
  all: try (by eapply ed25519_eq).
  destruct (Nat.eqb i 0 || _) eqn:Eg; [done|]. apply orb_false_iff in Eg as [_ Eg].
  rewrite Eg in *. cbn [negb andb] in *.
  match goal with E : check _ _ = Ok _ |- _ => apply check_ok in E; bool_prop end.
  rewrite (bool_decide_true (destinationVmType params = js "solana-vm")) in * by done.
  match goal with E : Some <$> _ = Ok _ |- _ => apply fmap_ok in E as ([pub secret] & E & <-) end.
  cbn [require mbind result_bind]. by eapply ed25519_eq.
Qed.
End Signing.

(** ** The Lighter [changePubKey] transaction *)

Section Lighter.
Context `{R : LitRuntime} (cfg : Config).

(** ABI call data of [changePubKey(uint48,uint8,bytes)]. *)
Definition changePubKey_calldata (account index : Z) (pub : bytes) : bytes :=
  take 4 (keccak (TextEncoder_encode (js "changePubKey(uint48,uint8,bytes)"))) ++
  word_loop 32 account [] ++ word_loop 32 index [] ++ word_loop 32 96 [] ++ enc_part pub.

(** What a signed key change is bound to. *)
Record change_authorised (input : LighterChangePubKeyInput) (key : bytes)
    (out : ChangePubKeyOutput) (account index chain : Z) (pub gateway unsigned raw : bytes) : Prop := {
  ch_account : parseBoundedQuantity (accountIndex input) "changePubKey.accountIndex" (2 ^ 48) = Ok account;
  ch_index : parseBoundedQuantity (apiKeyIndex input) "changePubKey.apiKeyIndex" (2 ^ 8) = Ok index;
  ch_pub : hexToBytes (publicKey input) "changePubKey.publicKey" = Ok pub /\ pub <> [];
  ch_allowed : exists k, (index, k) ∈ LIGHTER_ALLOWED_API_KEYS cfg /\
    hexToBytes k "LIGHTER_ALLOWED_API_KEYS[].publicKey" = Ok pub;
  ch_gateway : hexToBytes (LIGHTER_GATEWAY cfg) "LIGHTER_GATEWAY" = Ok gateway /\
    length gateway = 20%nat;
  ch_chain : chain = LIGHTER_GATEWAY_CHAIN_ID cfg /\ 0 < chain < 2 ^ 256;
  ch_hash : cp_unsignedTransaction out = hex0x unsigned /\ cp_hash out = hex0x (keccak unsigned) /\
    cp_rawTransaction out = hex0x raw /\ ecdsa65 (keccak unsigned) key = Ok (cp_signature out);
  ch_decoded : exists n gp gl ch v r s yParity,
    decode_list unsigned = Some (legacy_fields n gp gl gateway
                             (changePubKey_calldata account index pub) ch [] []) /\
    decode_list raw = Some (legacy_fields n gp gl gateway
                        (changePubKey_calldata account index pub) v r s) /\
    minimal_be chain ch /\ minimal_be (yParity + chain * 2 + 35) v /\
    cp_v out = toString10 (yParity + chain * 2 + 35) /\
    exists recovered r32 s32, secp_sign_recovered (keccak unsigned) key = Ok recovered /\
      recovered = u8 yParity :: r32 ++ s32 /\ length r32 = 32%nat /\ length s32 = 32%nat /\
      cp_r out = hex0x r32 /\ cp_s out = hex0x s32 /\
      minimal_be (be_val r32) r /\ minimal_be (be_val s32) s;
}.

Lemma parseBoundedQuantity_ok q field m n :
  parseBoundedQuantity q field m = Ok n -> 0 <= n < m.
Proof. unfold parseBoundedQuantity. intros H. res_inv H. bool_prop. lia. Qed.

Lemma parseBoundedQuantity_int z field m n :
  parseBoundedQuantity (QInt z) field m = Ok n -> n = z.
Proof. unfold parseBoundedQuantity. intros H. by res_inv H. Qed.

Lemma some_api_key_true keys index n :
  some_api_key keys index n = Ok true ->
  exists k, (index, k) ∈ keys /\ normalizeHex k "LIGHTER_ALLOWED_API_KEYS[].publicKey" = Ok n.
Proof.
  induction keys as [|[i k] keys IH]; cbn [some_api_key]; [done|].
  destruct (Z.eqb_spec i index) as [->|].
  - intros H. apply bind_ok in H as (m & Hm & H). case_bool_decide; subst.
    + exists k. split; [by left|done].
    + destruct (IH H) as (k' & ? & ?). exists k'. split; [by right|done].
  - intros H. destruct (IH H) as (k' & ? & ?). exists k'. split; [by right|done].
Qed.

(** Normalizing twice is normalizing once. *)
Lemma normalizeHex_hexToBytes s field field' n b :
  normalizeHex s field = Ok n -> hexToBytes n field' = Ok b -> n = bytesToHex b.
Proof.
  intros Hn Hb. destruct (normalizeHex_chars _ _ _ Hn) as [Hc Hl].
  apply hexToBytes_ok in Hb. rewrite normalizeHex_hex in Hb; [|by eapply Forall_impl; [exact Hc|]; naive_solver|done].
  injection Hb as <-. symmetry. apply toLowerCase_id. eapply Forall_impl; [exact Hc|]. naive_solver.
Qed.

Lemma calldata_ok account index pub d :
  0 <= account < 2 ^ 48 -> 0 <= index < 2 ^ 8 ->
  encodeChangePubKeyCalldata account index pub = Ok d ->
  d = changePubKey_calldata account index pub.
Proof.
  intros Ha Hi H. unfold encodeChangePubKeyCalldata, abiEncodeBytesTail in H. res_inv H.
  repeat match goal with Hq : quantityToWord (QInt _) _ = Ok _ |- _ =>
    apply quantityToWord_int in Hq as [? ->]; [|lia] end.
  rewrite !concatBytes_join. unfold changePubKey_calldata, enc_part.
  fold (padRight32 pub). rewrite padRight32_eq. cbn [mjoin list_join].
  by rewrite !app_nil_r.
Qed.

Context `{!LitRuntimeLaws R}.

Lemma length_calldata account index pub :
  Z.of_nat (length pub) < 2 ^ 31 ->
  Z.of_nat (20 + length (changePubKey_calldata account index pub)) < 2 ^ 32.
Proof.
  intros Hp. unfold changePubKey_calldata, enc_part, zeros.
  rewrite !length_app, length_take, keccak_length, !length_word_loop, length_replicate.
  pose proof (padded_length_le pub). pose proof (padded_length_ge pub). cbn [length]. lia.
Qed.

(** Both transactions carry the same fields; the signed one adds v, r and s. *)
Lemma transactions_decode nonce_ gp gl gateway d chain v r s unsigned raw :
  Forall (fun x => 0 <= x < 2 ^ 256) [nonce_; gp; gl; chain; r; s] -> 0 <= v < 256 ^ 33 ->
  Z.of_nat (length gateway + length d) < 2 ^ 32 ->
  encodeUnsignedLegacyTransaction {| un_nonce := nonce_; un_gasPrice := gp; un_gasLimit := gl;
    un_to := gateway; un_data := d; un_chainId := chain |} = Ok unsigned ->
  encodeSignedLegacyTransaction {| sg_nonce := nonce_; sg_gasPrice := gp; sg_gasLimit := gl;
    sg_to := gateway; sg_data := d; sg_v := v; sg_r := r; sg_s := s |} = Ok raw ->
  exists n' gp' gl' ch' v' r' s',
    decode_list unsigned = Some (legacy_fields n' gp' gl' gateway d ch' [] []) /\
    decode_list raw = Some (legacy_fields n' gp' gl' gateway d v' r' s') /\
    minimal_be chain ch' /\ minimal_be v v' /\ minimal_be r r' /\ minimal_be s s'.
Proof.
  intros Hr Hv Hd Hu Hw. repeat (apply Forall_cons_1 in Hr as [? Hr]).
  destruct (encodeUnsigned_decode {| un_nonce := nonce_; un_gasPrice := gp; un_gasLimit := gl;
    un_to := gateway; un_data := d; un_chainId := chain |})
    as (u & n1 & gp1 & gl1 & ch1 & Eu & M1 & M2 & M3 & M4 & D1); [forall_lia|done|].
  destruct (encodeSigned_decode {| sg_nonce := nonce_; sg_gasPrice := gp; sg_gasLimit := gl;
    sg_to := gateway; sg_data := d; sg_v := v; sg_r := r; sg_s := s |})
    as (w & n2 & gp2 & gl2 & v2 & r2 & s2 & Ew & N1 & N2 & N3 & N4 & N5 & N6 & D2);
    [forall_lia|done|].
  rewrite Eu in Hu. injection Hu as ->. rewrite Ew in Hw. injection Hw as ->. cbn in *.
  rewrite (minimal_be_inj _ _ _ M1 N1), (minimal_be_inj _ _ _ M2 N2), (minimal_be_inj _ _ _ M3 N3) in D1.
  eauto 15.
Qed.

Lemma signChangePubKey_ok input key out :
  Z.of_nat (length (publicKey input)) < 2 ^ 32 ->
  signChangePubKey cfg input (bytesToHex key) = Ok out ->
  exists account index chain pub gateway unsigned raw,
    change_authorised input key out account index chain pub gateway unsigned raw.
Proof.
  intros Hlen H. unfold signChangePubKey, isAllowedApiKey in H. res_inv H. bool_prop.
  repeat match goal with Hq : parseBoundedQuantity _ _ _ = Ok _ |- _ =>
    pose proof (parseBoundedQuantity_ok _ _ _ _ Hq);
    try (apply parseBoundedQuantity_int in Hq); revert Hq end. intros.
  pose proof (normalizeHex_hexToBytes _ _ _ _ _ Hs6 Hs10) as ->.
  rewrite normalizeHex_bytesToHex in Hs8. injection Hs8 as <-.
  apply some_api_key_true in Hs7 as (k & Hin & Hk). apply hexToBytes_ok in Hs6, Hk.
  pose proof (hexToBytes_length _ _ _ Hs6) as Hpub.
  apply calldata_ok in Hs14; [|done..]. subst r14.
  destruct (signDigestDetailed_ok _ _ _ Hs16) as (rec & Hrec & Hrl & Hsig & Hrs & Hl1 & Hl2 & Hhd & Hy).
  unfold hex0x in Hs17, Hs18.
  rewrite BigInt_hex0x in Hs17, Hs18 by (intros E; by rewrite E in *).
  injection Hs17 as <-. injection Hs18 as <-.
  pose proof (be_val_bound (ds_r r16)) as Br. pose proof (be_val_bound (ds_s r16)) as Bs.
  rewrite Hl1 in Br. rewrite Hl2 in Bs. change (256 ^ Z.of_nat 32) with (2 ^ 256) in *.
  edestruct transactions_decode as (n' & gp' & gl' & ch' & v' & r' & s' & D1 & D2 & M1 & M2 & M3 & M4);
    [| | |exact Hs15|exact Hs19|].
  { forall_lia. }
  { lia. }
  { rewrite Hs13. apply length_calldata. lia. }
  exists r, r0, r4, r10, r12, r15, r19. constructor; try done.
  - split; [done|]. by intros ->.
  - eauto.
  - split; [done|lia].
  - exists n', gp', gl', ch', v', r', s', (ds_yParity r16). split_and!; try done.
    exists rec, (ds_r r16), (ds_s r16). split_and!; try done.
    rewrite Hrs. destruct rec as [|b rec]; [done|]. cbn in Hhd. injection Hhd as ->. done.
Qed.
End Lighter.

(** ** Dispatch, progress and key separation *)

Section Dispatch.
Context `{R : LitRuntime} (cfg : Config).

(** Which action a response answers. *)
Definition answers (vm : AllocatorVm) (params : ActionParams) (res : ActionResult) : Prop :=
  match res with
  | WalletResult ty _ _ => action params = js "wallet" /\ ty = vm_info vm
  | SignResult ty _ _ _ _ => action params = js "sign" /\ ty = vm_info vm
  | ChangePubKeyResult ty _ _ =>
      vm = LighterVm /\ action params = js "changePubKey" /\ ty = vm_info vm
  end.

Lemma run_action_answers vm params res :
  run_action cfg vm params = Ok res -> answers vm params res.
Proof.
  intros H. destruct vm; unfold_mains; open_branches H; bool_prop; subst; cbn; done.
Qed.

(** Every external operation the [sign] branch of an action calls succeeds: an
    idealisation, since the libraries refuse, for instance, a zero key.  Only
    [attested_request_is_signed] uses it. *)
Class RuntimeTotal := {
  pkp_ok : forall id, exists ikm, getPrivateKey id = Ok (js "0x" ++ bytesToHex ikm);
  pub_ok : forall k, is_ok (secp_getPublicKey k) = true;
  recovered_ok : forall h k, is_ok (secp_sign_recovered h k) = true;
  der_ok : forall h k, is_ok (secp_sign_der h k) = true;
  compact_ok : forall h k, is_ok (secp_sign_compact h k) = true;
  addr_ok : forall k, is_ok (addr_fromPrivateKey k) = true;
  seed_ok : forall s, is_ok (nacl_fromSeed s) = true;
  detached_ok : forall h k, is_ok (nacl_detached h k) = true;
}.

Lemma signAll_total sign hs : (forall i b, is_ok (sign i b) = true) ->
  exists results, signAll sign hs = Ok results.
Proof.
  intros Hs. unfold signAll. generalize 0%nat as n. induction hs as [|b hs IH]; intros n; [by eexists|].
  cbn [mapM_idx]. destruct (proj1 (is_ok_true _) (Hs n b)) as [x ->]. cbn [mbind result_bind].
  destruct (IH (S n)) as [xs ->]. by eexists.
Qed.

Context `{!LitRuntimeLaws R, !RuntimeTotal}.

Lemma ecdsa65_total h key : is_ok (ecdsa65 h key) = true.
Proof. unfold ecdsa65. by destruct (proj1 (is_ok_true _) (recovered_ok h key)) as [x ->]. Qed.

Lemma ed25519_total h seed : is_ok (ed25519 h seed) = true.
Proof.
  unfold ed25519. destruct (proj1 (is_ok_true _) (seed_ok seed)) as [[p s] ->].
  cbn [mbind result_bind]. by destruct (proj1 (is_ok_true _) (detached_ok h s)) as [x ->].
Qed.

Lemma bitcoinAddress_total key : is_ok (bitcoinAddressFromPrivateKey (bytesToHex key)) = true.
Proof.
  unfold bitcoinAddressFromPrivateKey. rewrite hexToBytes_0x. cbn [mbind result_bind].
  destruct (proj1 (is_ok_true _) (pub_ok key)) as [x ->]. cbn [mbind result_bind].
  destruct (convertBits_spec 5 ltac:(lia) (ripemd160 (sha256 x))) as (w & ? & -> & _). done.
Qed.

Lemma deriveKey_total ikm info :
  exists key, deriveKey hmac_sha256 (js "0x" ++ bytesToHex ikm) info = Ok key.
Proof.
  eexists. apply (deriveKey_eq hmac_sha256 hmac_sha256_length). apply hexToBytes_0x.
Qed.

(** Decide an equality of string literals. *)
Ltac literals :=
  repeat match goal with |- context [bool_decide (js ?a = js ?b)] =>
    let v := eval vm_compute in (bool_decide (js a = js b)) in
    change (bool_decide (js a = js b)) with v end; cbn [negb andb orb check mbind result_bind].

(** Run the next external call of the goal, which succeeds. *)
Ltac run_total :=
  match goal with
  | |- context [addr_fromPrivateKey ?k] => destruct (proj1 (is_ok_true _) (addr_ok k)) as [? ->]
  | |- context [secp_getPublicKey ?k] => destruct (proj1 (is_ok_true _) (pub_ok k)) as [? ->]
  | |- context [nacl_fromSeed ?k] => 
      let E := fresh "Eseed" in destruct (proj1 (is_ok_true _) (seed_ok k)) as [[? ?] E]; rewrite E
  | |- context [bitcoinAddressFromPrivateKey (bytesToHex ?k)] =>
      destruct (proj1 (is_ok_true _) (bitcoinAddress_total k)) as [? ->]
  end; cbn [mbind result_bind fmap result_fmap].

Lemma run_action_complete vm params req att h hs :
  action params = js "sign" -> withdrawRequest params = Some req -> attestation params = Some att ->
  attested req att (ALLOCATOR_ADDRESS cfg) (HUB_EVM_CHAIN_ID cfg)
    (ALLOWED_ORACLES cfg) (ORACLE_SIGNATURE_THRESHOLD cfg) h hs ->
  (vm = GatewayVm -> destinationVmType params ∈ [js "ethereum-vm"; js "solana-vm"]) ->
  exists ty address extra results,
    run_action cfg vm params = Ok (SignResult ty address extra (hex0x h) results).
Proof.
  intros Hact Hreq Hatt Hat Hdest.
  assert (verifiedHashes cfg params = Ok (h, hs)) as Hver by (apply verifiedHashes_ok; eauto).
  destruct (pkp_ok (pkpId params)) as [ikm Hpkp].
  destruct (deriveKey_total ikm (vm_info vm)) as [key Hkey].
  assert (exists results, signAll (vm_signature vm (destinationVmType params) key) hs = Ok results)
    as [results Hres].
  { apply signAll_total. intros i b. destruct vm; cbn [vm_signature];
      try apply ecdsa65_total; try apply ed25519_total.
    - case_match; [apply ecdsa65_total|apply ed25519_total].
    - by destruct (proj1 (is_ok_true _) (compact_ok b key)) as [? ->].
    - by destruct (proj1 (is_ok_true _) (der_ok b key)) as [? ->]. }
  destruct vm; unfold_mains;
    unfold ethereumAddressFromPrivateKey, tronAddressFromPrivateKey, hyperliquidAddressFromPrivateKey,
      lighterAddressFromPrivateKey, hederaEvmAlias; cbn [vm_info] in Hkey.
  all: try (specialize (Hdest eq_refl); apply elem_of_cons in Hdest as [Hd|Hd];
    [|apply list_elem_of_singleton in Hd]; rewrite Hd in *; literals).
  all: rewrite Hpkp; cbn [mbind result_bind]; rewrite Hkey; cbn [mbind result_bind fmap result_fmap].
  all: rewrite Hact, ?Hver; literals.
  all: repeat run_total; rewrite ?Hver; cbn [mbind result_bind].
  all: match goal with |- context [signAll ?f ?l] =>
         replace (signAll f l) with (Ok results); [by do 4 eexists|..] end.
  all: rewrite <- Hres; apply signAll_ext; intros i b; cbn [vm_signature].
  all: rewrite ?signDigest_eq, ?lighterSignDigest_eq, ?orb_true_r; try reflexivity.
  all: try (by eapply ed25519_eq).
  rewrite orb_false_r. destruct (Nat.eqb i 0); [done|]. by eapply ed25519_eq.
Qed.
End Dispatch.

(** ** Properties *)

Section Properties.
Context `{R : LitRuntime, !LitRuntimeLaws R} (cfg : Config).

(** C1: No allocator action signs without an oracle quorum.  Whenever any of the
    ten entry points returns signatures, the request and attestation were
    supplied and at least ORACLE_SIGNATURE_THRESHOLD pairwise distinct 20-byte
    addresses, each configured in ALLOWED_ORACLES, have a valid EIP-712
    signature in the attestation over typed data that contains the hash of
    exactly this request and exactly the hashes that were signed. *)
Theorem sign_requires_quorum vm params ty address extra whash results :
  run_action cfg vm params = Ok (SignResult ty address extra whash results) ->
  exists req att h hs signers,
    withdrawRequest params = Some req /\ attestation params = Some att /\
    computeWithdrawRequestHash keccak req = Ok h /\ whash = hex0x h /\
    e_hash <$> results = hex0x <$> hs /\
    NoDup signers /\ ORACLE_SIGNATURE_THRESHOLD cfg <= Z.of_nat (length signers) /\
    Forall (oracle_signed (ALLOWED_ORACLES cfg) (att_signatures att)
              (buildAttestationTypedData att h hs)) signers.
Proof.
  intros H.
  destruct (run_action_sign _ _ _ _ _ _ _ _ H) as (_ & _ & req & att & key & h & hs & Hau).
  destruct (attested_oracles _ _ _ _ _ _ _ _ (au_attested _ _ _ _ _ _ _ _ _ _ Hau)) as (signers & ? & ? & ?).
  exists req, att, h, hs, signers. destruct Hau as [? ? Hat _ ? [Hlen Hres]].
  split_and!; try done; [by destruct Hat|].
  apply list_eq_same_length with (length hs); rewrite ?length_fmap; try done.
  intros i x y Hi Hx Hy. apply list_lookup_fmap_Some in Hx as (e & -> & He), Hy as (b & -> & Hb).
  by destruct (Hres i b e Hb He).
Qed.

(** C2: The signatures an action returns are exactly the prescribed ones: the
    i-th entry pairs the i-th attested hash with the signature of that hash, in
    the scheme of the VM, under the key derived from the PKP for this VM; the
    response names the VM and the action was "sign". *)
Theorem sign_entries_authorised vm params ty address extra whash results :
  run_action cfg vm params = Ok (SignResult ty address extra whash results) ->
  action params = js "sign" /\ ty = vm_info vm /\
  exists req att key h hs, authorised cfg vm params req att key h hs whash results.
Proof. intros H. exact (run_action_sign _ _ _ _ _ _ _ _ H). Qed.

(** Dispatch is exact: a successful response of any entry point answers the
    requested action (wallet, sign, or changePubKey for Lighter only) and
    carries the entry point's own VM type; every other action is an error. *)
Theorem action_dispatch vm params :
  match run_action cfg vm params with
  | Ok res => answers vm params res
  | Err _ => True
  end /\
  (action params <> js "wallet" -> action params <> js "sign" ->
   (vm = LighterVm -> action params <> js "changePubKey") ->
   is_ok (run_action cfg vm params) = false).
Proof.
  destruct (run_action cfg vm params) as [res|m] eqn:E; [|done].
  apply run_action_answers in E. split; [done|]. intros Hw Hs Hc.
  destruct res; cbn in E; naive_solver.
Qed.

(** Signing is live: with external operations that succeed, a request whose
    attestation meets the acceptance predicate is always signed, by every entry
    point (for the gateway, with one of its two destination VM types). *)
Theorem attested_request_is_signed `{!RuntimeTotal} vm params req att h hs :
  action params = js "sign" -> withdrawRequest params = Some req -> attestation params = Some att ->
  attested req att (ALLOCATOR_ADDRESS cfg) (HUB_EVM_CHAIN_ID cfg)
    (ALLOWED_ORACLES cfg) (ORACLE_SIGNATURE_THRESHOLD cfg) h hs ->
  (vm = GatewayVm -> destinationVmType params ∈ [js "ethereum-vm"; js "solana-vm"]) ->
  exists ty address extra results,
    run_action cfg vm params = Ok (SignResult ty address extra (hex0x h) results).
Proof. by apply run_action_complete. Qed.

Lemma vm_info_inj vm1 vm2 :
  TextEncoder_encode (vm_info vm1) = TextEncoder_encode (vm_info vm2) -> vm1 = vm2.
Proof. destruct vm1, vm2; vm_compute; congruence. Qed.

(** VM keys are separated: the keys two different entry points derive from
    one PKP key are HMAC-SHA256 tags of two different messages under the same
    pseudorandom key, so they coincide only on an HMAC collision. *)
Theorem vm_keys_separated vm1 vm2 ikm :
  vm1 <> vm2 ->
  exists prk m1 m2, m1 <> m2 /\
    deriveKey hmac_sha256 (js "0x" ++ bytesToHex ikm) (vm_info vm1) = Ok (hmac_sha256 prk m1) /\
    deriveKey hmac_sha256 (js "0x" ++ bytesToHex ikm) (vm_info vm2) = Ok (hmac_sha256 prk m2).
Proof.
  intros Hne. pose proof (hexToBytes_0x ikm "pkpPrivateKey") as Hk. do 3 eexists. split_and!.
  2, 3: exact (deriveKey_eq hmac_sha256 hmac_sha256_length _ _ _ Hk).
  intros E. apply app_inj_tail in E as [E _]. by apply Hne, vm_info_inj.
Qed.

(** The Lighter action signs a key change only for an allowlisted API key
    (index and key bytes both), only to the configured gateway and chain; the
    returned raw transaction RLP-decodes to the fields of the unsigned one with
    the EIP-155 v, r and s of a signature over its hash, and its call data is
    the ABI call of changePubKey with the requested account, index and key. *)
Theorem change_pubkey_authorised params ty address out :
  (forall input, changePubKey params = Some input -> Z.of_nat (length (publicKey input)) < 2 ^ 32) ->
  run_action cfg LighterVm params = Ok (ChangePubKeyResult ty address out) ->
  exists input pkp key account index chain pub gateway unsigned raw,
    changePubKey params = Some input /\
    getPrivateKey (pkpId params) = Ok pkp /\ deriveKey hmac_sha256 pkp (js "lighter-vm") = Ok key /\
    change_authorised cfg input key out account index chain pub gateway unsigned raw.
Proof.
  intros Hlen H. unfold_mains. open_branches H; try discriminate H.
  repeat match goal with
    | E : fmap bytesToHex _ = Ok _ |- _ => apply fmap_ok in E as (? & E & <-) end.
  apply require_ok in E2. edestruct signChangePubKey_ok as (? & ? & ? & ? & ? & ? & ? & ?); eauto.
  do 10 eexists. split_and!; eauto.
Qed.
End Properties.

(** ** Witnesses *)

Section Witnesses.
#[local] Existing Instance toy_runtime.
#[local] Existing Instance toy_laws.

Lemma toy_total : RuntimeTotal.
Proof. constructor; intros; try reflexivity. eexists. reflexivity. Qed.
#[local] Existing Instance toy_total.

Lemma sign_requires_quorum_witness :
  exists ty address extra whash results,
  run_action toy_config GatewayVm (toy_params "sign" (js "solana-vm")) =
    Ok (SignResult ty address extra whash results) /\ length results = 2%nat /\
  exists req att h hs signers,
    withdrawRequest (toy_params "sign" (js "solana-vm")) = Some req /\
    attestation (toy_params "sign" (js "solana-vm")) = Some att /\
    computeWithdrawRequestHash keccak req = Ok h /\ whash = hex0x h /\
    e_hash <$> results = hex0x <$> hs /\
    NoDup signers /\ ORACLE_SIGNATURE_THRESHOLD toy_config <= Z.of_nat (length signers) /\
    Forall (oracle_signed (ALLOWED_ORACLES toy_config) (att_signatures att)
              (buildAttestationTypedData att h hs)) signers.
Proof.
  do 5 eexists. split; [vm_compute; reflexivity|]. split; [reflexivity|].
  eapply (sign_requires_quorum toy_config GatewayVm). vm_compute. reflexivity.
Defined.

Lemma sign_entries_authorised_witness :
  exists ty address extra whash results,
  run_action toy_config XrpVm (toy_params "sign" []) =
    Ok (SignResult ty address extra whash results) /\
  (action (toy_params "sign" []) = js "sign" /\ ty = vm_info XrpVm /\
   exists req att key h hs, authorised toy_config XrpVm (toy_params "sign" []) req att key h hs whash results).
Proof.
  do 5 eexists. split; [vm_compute; reflexivity|].
  eapply (sign_entries_authorised toy_config XrpVm). vm_compute. reflexivity.
Defined.

Lemma toy_attested : exists h hs,
  attested toy_request toy_attestation (ALLOCATOR_ADDRESS toy_config) (HUB_EVM_CHAIN_ID toy_config)
    (ALLOWED_ORACLES toy_config) (ORACLE_SIGNATURE_THRESHOLD toy_config) h hs.
Proof. do 2 eexists. apply verify_attested. vm_compute. reflexivity. Qed.

Lemma action_dispatch_witness :
  is_ok (run_action toy_config TonVm (toy_params "changePubKey" [])) = false.
Proof. apply (action_dispatch toy_config TonVm (toy_params "changePubKey" [])); vm_compute; congruence. Defined.

Lemma attested_request_is_signed_witness :
  exists h ty address extra results,
    run_action toy_config BitcoinVm (toy_params "sign" []) = Ok (SignResult ty address extra (hex0x h) results).
Proof.
  destruct toy_attested as (h & hs & Hat). exists h.
  apply (attested_request_is_signed toy_config BitcoinVm (toy_params "sign" []) _ _ h hs eq_refl eq_refl eq_refl Hat).
  discriminate.
Defined.

Lemma vm_keys_separated_witness :
  exists prk m1 m2, m1 <> m2 /\
    deriveKey hmac_sha256 (js "0x" ++ bytesToHex [x01]) (vm_info TonVm) = Ok (hmac_sha256 prk m1) /\
    deriveKey hmac_sha256 (js "0x" ++ bytesToHex [x01]) (vm_info TronVm) = Ok (hmac_sha256 prk m2).
Proof. apply (vm_keys_separated TonVm TronVm [x01]). discriminate. Defined.

Lemma change_pubkey_authorised_witness :
  exists ty address out,
  run_action toy_config LighterVm (toy_params "changePubKey" []) = Ok (ChangePubKeyResult ty address out) /\
  exists input pkp key account index chain pub gateway unsigned raw,
    changePubKey (toy_params "changePubKey" []) = Some input /\
    getPrivateKey (pkpId (toy_params "changePubKey" [])) = Ok pkp /\
    deriveKey hmac_sha256 pkp (js "lighter-vm") = Ok key /\
    change_authorised toy_config input key out account index chain pub gateway unsigned raw.
Proof.
  do 3 eexists. split; [vm_compute; reflexivity|].
  eapply (change_pubkey_authorised toy_config).
  - intros input [= <-]. vm_compute. reflexivity.
  - vm_compute. reflexivity.
Defined.

(** One oracle signing twice, once spelled in upper case without prefix. *)
Definition repeated_attestation : WithdrawRequestAttestation := {|
  att_chainId := att_chainId toy_attestation;
  att_allocator := att_allocator toy_attestation;
  att_withdrawRequestHash := att_withdrawRequestHash toy_attestation;
  att_hashesToSign := att_hashesToSign toy_attestation;
  att_signatures :=
    [ {| oracleSigner := toy_oracle xa1; signature := js "sig:" ++ toy_oracle xa1 |};
      {| oracleSigner := js "A1A1A1A1A1A1A1A1A1A1A1A1A1A1A1A1A1A1A1A1"; signature := js "sig:" ++ toy_oracle xa1 |} ];
|}.

Lemma single_oracle_witness :
  is_ok (verifyWithdrawRequestAttestation toy_request repeated_attestation (ALLOCATOR_ADDRESS toy_config)
    (HUB_EVM_CHAIN_ID toy_config) (ALLOWED_ORACLES toy_config) 1) = true /\
  is_ok (verifyWithdrawRequestAttestation toy_request repeated_attestation (ALLOCATOR_ADDRESS toy_config)
    (HUB_EVM_CHAIN_ID toy_config) (ALLOWED_ORACLES toy_config) 2) = false.
Proof.
  split; [vm_compute; reflexivity|].
  apply (single_oracle_never_meets_quorum toy_request repeated_attestation _ _ _ 2 (replicate 20 xa1)); [lia|].
  repeat constructor.
Defined.
End Witnesses.
