(* ===== verification/HederaIds.v ===== *)
(** * Hedera entity ids and addresses

    packages/sdk/src/hedera-vm.ts, first half: the canonical [shard.realm.num]
    codec, the HIP-15 network checksum, long-zero EVM addresses and the 20-byte
    address slot.  viem's [bytesToHex] and [hexToBytes] are the operations of
    [Viem]. *)

From Stdlib Require Import Strings.Byte.
From S2P Require Import Prelude JsNum JsString Scanner HexBytes Abi.
Local Open Scope Z_scope.
Local Open Scope js_scope.

(** viem's hex codecs. *)
Class Viem := {
  viem_bytesToHex : bytes -> jsstring;
  viem_hexToBytes : jsstring -> result bytes;
}.

(** Documented behaviour: lower-case, [0x]-prefixed, and mutually inverse. *)
Class ViemLaws (V : Viem) : Prop := {
  viem_print : forall b, viem_bytesToHex b = js "0x" ++ bytesToHex b;
  viem_read : forall b, viem_hexToBytes (js "0x" ++ bytesToHex b) = Ok b;
}.

(** ** Networks *)

Definition HEDERA_LEDGER_IDS : list (jsstring * bytes) :=
  [(js "mainnet", [x00]); (js "testnet", [x01]); (js "previewnet", [x02]); (js "local-node", [x03])].

Definition ledgerIdOf (network : jsstring) : option bytes :=
  snd <$> head (filter (fun e => e.1 = network) HEDERA_LEDGER_IDS).
Definition isHederaNetwork (value : jsstring) : bool := bool_decide (is_Some (ledgerIdOf value)).

(** ** Entity ids *)

Record HederaEntityId := { shard : Z; realm : Z; num : Z }.

Definition HEDERA_ENTITY_COMPONENT_MAX : Z := Z.shiftl 1 63 - 1.

(** The optional [-xxxxx] suffix and the end of the input. *)
Definition re_checksum_end (s : jsstring) : option (option jsstring) :=
  if bool_decide (s = []) then Some None
  else s ← re_lit (js "-") s;
       '(k, s) ← re_count 5 is_lower_letter s;
       _ ← re_end s;
       Some (Some k).

Definition HEDERA_ENTITY_ID_REGEX (value : jsstring)
  : option (jsstring * jsstring * jsstring * option jsstring) :=
  '(a, s) ← re_dec value;
  s ← re_lit (js ".") s;
  '(b, s) ← re_dec s;
  s ← re_lit (js ".") s;
  '(c, s) ← re_dec s;
  k ← re_checksum_end s;
  Some (a, b, c, k).

Definition assertEntityComponent (value : Z) (name : string) : result unit :=
  fail_if HEDERA_ENTITY_COMPONENT_MAX <? value with ("Invalid Hedera entity id: exceeds the int64 maximum: " +:+ name) ;;
  Ok tt.

Definition formatHederaEntityId (entityId : HederaEntityId) : jsstring :=
  toString10 (shard entityId) ++ js "." ++ toString10 (realm entityId) ++ js "." ++
  toString10 (num entityId).

(** The constants of HIP-15. *)
Definition p3 : Z := 26 * 26 * 26.
Definition p5 : Z := 26 * 26 * 26 * 26 * 26.
Definition cs_m : Z := 1000003.
Definition cs_w : Z := 31.

Definition address_digit (c : Z) : Z := if c =? 46 then 10 else dec_val c.

(** The loop over the characters, threading [s], [s0] and [s1]. *)
Fixpoint digit_loop (address : jsstring) (i : nat) (s s0 s1 : Z) : Z * Z * Z :=
  match address with
  | [] => (s, s0, s1)
  | c :: rest =>
      let digit := address_digit c in
      let s := (cs_w * s + digit) mod p3 in
      if Nat.eqb (i mod 2) 0
      then digit_loop rest (S i) s ((s0 + digit) mod 11) s1
      else digit_loop rest (S i) s s0 ((s1 + digit) mod 11)
  end.

(** [for (i < 5) { checksum = fromCharCode(a + c % 26) + checksum; c = floor(c / 26) }]. *)
Fixpoint letter_loop (n : nat) (c : Z) (checksum : jsstring) : jsstring :=
  match n with
  | O => checksum
  | S n' => letter_loop n' (c / 26) (97 + c mod 26 :: checksum)
  end.

Definition ledger_hash (ledgerId : bytes) : Z :=
  let h := set_at (zeros (length ledgerId + 6)) 0 ledgerId in
  foldl (fun sh b => (cs_w * sh + bz b) mod p5) 0 h.

Definition getHederaEntityIdChecksum (entityId : HederaEntityId) (network : jsstring)
  : result jsstring :=
  fail_if negb (isHederaNetwork network) with "Unknown Hedera network" ;;
  let ledgerId := default [] (ledgerIdOf network) in
  let address := formatHederaEntityId entityId in
  let '(s, s0, s1) := digit_loop address 0 0 0 0 in
  let sh := ledger_hash ledgerId in
  let c := ((((Z.of_nat (length address) mod 5) * 11 + s0) * 11 + s1) * p3 + s + sh) mod p5 in
  let c := (c * cs_m) mod p5 in
  Ok (letter_loop 5 c []).

Definition formatHederaEntityIdWithChecksum (entityId : HederaEntityId) (network : jsstring)
  : result jsstring :=
  k ← getHederaEntityIdChecksum entityId network;
  Ok (formatHederaEntityId entityId ++ js "-" ++ k).

(** [options.network] is the second argument. *)
Definition parseHederaEntityId (value : jsstring) (network : option jsstring)
  : result HederaEntityId :=
  '(a, b, c, checksum) ← require (HEDERA_ENTITY_ID_REGEX value) "Invalid Hedera entity id";
  shard_ ← BigInt a;
  realm_ ← BigInt b;
  num_ ← BigInt c;
  let entityId := {| shard := shard_; realm := realm_; num := num_ |} in
  _ ← assertEntityComponent (shard entityId) "shard";
  _ ← assertEntityComponent (realm entityId) "realm";
  _ ← assertEntityComponent (num entityId) "num";
  match checksum with
  | None => Ok entityId
  | Some k =>
      net ← require network "Hedera entity id carries a checksum but no network was supplied";
      expected ← getHederaEntityIdChecksum entityId net;
      fail_if negb (bool_decide (k = expected))
        with "Hedera entity id has a checksum for a different network" ;;
      Ok entityId
  end.

(** ** EVM addresses *)

Definition HEDERA_HBAR_TOKEN_ID : jsstring := js "0.0.0".
Definition HEDERA_MAINNET_USDC_TOKEN_ID : jsstring := js "0.0.456858".
Definition EVM_ADDRESS_BYTE_LENGTH : nat := 20.
Definition LONG_ZERO_PREFIX_BYTE_LENGTH : nat := 12.

Definition EVM_ADDRESS_REGEX (value : jsstring) : option jsstring :=
  let s := default value (re_lit (js "0x") value) in
  '(h, s) ← re_count 40 is_hex_digit s;
  _ ← re_end s;
  Some h.

Definition HEDERA_PREFIXED_EVM_ADDRESS_REGEX (value : jsstring)
  : option (jsstring * jsstring * jsstring) :=
  '(a, s) ← re_dec value;
  s ← re_lit (js ".") s;
  '(b, s) ← re_dec s;
  s ← re_lit (js ".") s;
  '(h, s) ← re_count 40 is_hex_digit s;
  _ ← re_end s;
  Some (a, b, h).

Inductive HederaAddress :=
  | EntityIdAddress (entityId : HederaEntityId)
  | EvmAlias (address : jsstring).

Definition assertZeroShardAndRealm (entityId : HederaEntityId) : result unit :=
  fail_if negb (shard entityId =? 0) || negb (realm entityId =? 0)
    with "Hedera entity id is not representable as a 20-byte address" ;;
  Ok tt.

(** [for (i = 19; i >= 12; i--) { bytes[i] = num & 0xff; num >>= 8 }]. *)
Fixpoint num_loop (todo : nat) (i : nat) (bytes_ : bytes) (n : Z) : bytes :=
  match todo with
  | O => bytes_
  | S todo' => num_loop todo' (i - 1) (<[i := u8 (Z.land n 255)]> bytes_) (Z.shiftr n 8)
  end.

Section Evm.
Context `{V : Viem}.

Definition entityIdToEvmAddress (parsed : HederaEntityId) : result jsstring :=
  _ ← assertZeroShardAndRealm parsed;
  Ok (viem_bytesToHex (num_loop (EVM_ADDRESS_BYTE_LENGTH - LONG_ZERO_PREFIX_BYTE_LENGTH)
        (EVM_ADDRESS_BYTE_LENGTH - 1) (zeros EVM_ADDRESS_BYTE_LENGTH) (num parsed))).

(** The argument is a parsed id or its spelling. *)
Definition hederaEntityIdToEvmAddress (entityId : HederaEntityId + jsstring) : result jsstring :=
  parsed ← match entityId with
           | inl id => Ok id
           | inr s => parseHederaEntityId s None
           end;
  entityIdToEvmAddress parsed.

Definition parseEvmAddressBytes (address : jsstring) : result bytes :=
  m ← require (EVM_ADDRESS_REGEX address) "Invalid EVM address: expected 20 hex-encoded bytes";
  viem_hexToBytes (js "0x" ++ toLowerCase m).

Definition isLongZeroAddressBytes (l : bytes) : bool :=
  forallb (fun b => bz b =? 0) (take LONG_ZERO_PREFIX_BYTE_LENGTH l).

Definition longZeroBytesToEntityId (l : bytes) : result HederaEntityId :=
  let n := foldl (fun n b => Z.lor (Z.shiftl n 8) (bz b)) 0
             (take (EVM_ADDRESS_BYTE_LENGTH - LONG_ZERO_PREFIX_BYTE_LENGTH)
                (drop LONG_ZERO_PREFIX_BYTE_LENGTH l)) in
  fail_if HEDERA_ENTITY_COMPONENT_MAX <? n
    with "Invalid Hedera long-zero address: entity number exceeds the int64 maximum" ;;
  Ok {| shard := 0; realm := 0; num := n |}.

Definition evmAddressToHederaEntityId (address : jsstring) : result HederaEntityId :=
  l ← parseEvmAddressBytes address;
  fail_if negb (isLongZeroAddressBytes l) with "EVM address is not a long-zero address" ;;
  longZeroBytesToEntityId l.

Definition fromEvmAddressBytes (l : bytes) : result HederaAddress :=
  if isLongZeroAddressBytes l then EntityIdAddress <$> longZeroBytesToEntityId l
  else Ok (EvmAlias (viem_bytesToHex l)).

Definition parseHederaAddress (value : jsstring) (network : option jsstring)
  : result HederaAddress :=
  if bool_decide (is_Some (EVM_ADDRESS_REGEX value)) then
    l ← parseEvmAddressBytes value; fromEvmAddressBytes l
  else match HEDERA_PREFIXED_EVM_ADDRESS_REGEX value with
  | Some (a, b, hex) =>
      fail_if negb (bool_decide (a = js "0")) || negb (bool_decide (b = js "0"))
        with "Invalid Hedera address: only shard 0 / realm 0 EVM addresses are supported" ;;
      l ← parseEvmAddressBytes hex; fromEvmAddressBytes l
  | None => EntityIdAddress <$> parseHederaEntityId value network
  end.

Definition formatHederaAddress (address : HederaAddress) : jsstring :=
  match address with
  | EntityIdAddress id => formatHederaEntityId id
  | EvmAlias a => a
  end.

Definition encodeHederaAddress (address : jsstring) : result bytes :=
  parsed ← parseHederaAddress address None;
  match parsed with
  | EvmAlias a => viem_hexToBytes a
  | EntityIdAddress id => h ← hederaEntityIdToEvmAddress (inl id); viem_hexToBytes h
  end.

Definition decodeHederaAddress (address : bytes) : result jsstring :=
  fail_if negb (Nat.eqb (length address) EVM_ADDRESS_BYTE_LENGTH)
    with "Invalid Hedera address byte length" ;;
  a ← fromEvmAddressBytes address;
  Ok (formatHederaAddress a).
End Evm.

(** ** Checksums *)

Lemma letter_loop_digits n c acc : 0 <= c ->
  letter_loop n c ((Z.add 97) <$> acc) = Z.add 97 <$> Radix.fixed_digits n 26 c acc.
Proof.
  revert c acc; induction n as [|n IH]; intros c acc Hc; [done|].
  cbn [letter_loop Radix.fixed_digits]. apply (IH (c / 26) (c mod 26 :: acc)). apply Z.div_pos; lia.
Qed.

(** The checksum as a function of the text it protects. *)
Definition checksum_value (ledgerId : bytes) (address : jsstring) : Z :=
  let '(s, s0, s1) := digit_loop address 0 0 0 0 in
  (((((Z.of_nat (length address) mod 5) * 11 + s0) * 11 + s1) * p3 + s + ledger_hash ledgerId) mod p5
   * cs_m) mod p5.

Lemma getChecksum_eq id net ledger : ledgerIdOf net = Some ledger ->
  getHederaEntityIdChecksum id net =
  Ok (Z.add 97 <$> Radix.fixed_digits 5 26 (checksum_value ledger (formatHederaEntityId id)) []).
Proof.
  intros Hl. unfold getHederaEntityIdChecksum, isHederaNetwork, checksum_value. rewrite Hl.
  rewrite bool_decide_true by done. cbn [negb check mbind result_bind default].
  destruct (digit_loop _ _ _ _ _) as [[s s0] s1].
  refine (f_equal Ok (letter_loop_digits 5 _ [] _)). by apply Z.mod_pos_bound.
Qed.

Lemma getChecksum_known id net k :
  getHederaEntityIdChecksum id net = Ok k -> exists ledger, ledgerIdOf net = Some ledger.
Proof.
  unfold getHederaEntityIdChecksum, isHederaNetwork. intros H. apply bind_ok in H as (? & H & _).
  apply check_ok in H. bool_prop. destruct H as [l ?]. eauto.
Qed.

Lemma checksum_letters id net k : getHederaEntityIdChecksum id net = Ok k ->
  length k = 5%nat /\ Forall (fun c => is_lower_letter c = true) k.
Proof.
  intros H. destruct (getChecksum_known _ _ _ H) as [ledger Hl]. rewrite (getChecksum_eq _ _ _ Hl) in H.
  assert (forall a b : jsstring, Ok a = Ok b -> a = b) as Hinj by congruence. apply Hinj in H as <-. split; [rewrite length_fmap; by apply Radix.length_fixed_digits|].
  pose proof (Radix.fixed_digits_ok 26 ltac:(lia) 5 (checksum_value ledger (formatHederaEntityId id))) as Hd.
  apply Forall_fmap. eapply Forall_impl; [exact Hd|]. intros d Hd'. cbn in *. char_solve.
Qed.

(** ** The entity-id codec *)

Definition valid_component (n : Z) : Prop := 0 <= n <= HEDERA_ENTITY_COMPONENT_MAX.
Record valid_id (id : HederaEntityId) : Prop := {
  v_shard : valid_component (shard id);
  v_realm : valid_component (realm id);
  v_num : valid_component (num id);
}.

(** The spellings the parser accepts for [id]. *)
Definition spelling (network : option jsstring) (id : HederaEntityId) (v : jsstring) : Prop :=
  v = formatHederaEntityId id \/
  exists net k, network = Some net /\ getHederaEntityIdChecksum id net = Ok k /\
                v = formatHederaEntityId id ++ js "-" ++ k.

Lemma re_checksum_end_sound s k : re_checksum_end s = Some k ->
  (s = [] /\ k = None) \/ exists t, k = Some t /\ s = js "-" ++ t.
Proof.
  unfold re_checksum_end. case_bool_decide; [intros [= <-]; by left|].
  intros H0. scan_inv H0. apply re_lit_sound in Sc as ->. apply re_count_sound in Sc0 as (-> & _).
  apply re_end_sound in Sc1 as ->. right. eexists. split; [done|]. by rewrite app_nil_r.
Qed.

Lemma regex_complete a b c s k : 0 <= a -> 0 <= b -> 0 <= c -> no_digit s -> re_checksum_end s = Some k ->
  HEDERA_ENTITY_ID_REGEX (toString10 a ++ js "." ++ toString10 b ++ js "." ++ toString10 c ++ s) =
  Some (toString10 a, toString10 b, toString10 c, k).
Proof.
  intros Ha Hb Hc Hs Hk. unfold HEDERA_ENTITY_ID_REGEX.
  rewrite re_dec_toString10 by (done || by apply no_digit_cons). cbn [mbind option_bind].
  rewrite re_lit_complete. cbn [mbind option_bind].
  rewrite re_dec_toString10 by (done || by apply no_digit_cons). cbn [mbind option_bind].
  rewrite re_lit_complete. cbn [mbind option_bind].
  rewrite re_dec_toString10 by done. cbn [mbind option_bind]. rewrite Hk. done.
Qed.

Lemma regex_sound v a b c k : HEDERA_ENTITY_ID_REGEX v = Some (a, b, c, k) ->
  exists x y z t, 0 <= x /\ 0 <= y /\ 0 <= z /\ a = toString10 x /\ b = toString10 y /\ c = toString10 z /\
    v = toString10 x ++ js "." ++ toString10 y ++ js "." ++ toString10 z ++ t /\ re_checksum_end t = Some k.
Proof.
  unfold HEDERA_ENTITY_ID_REGEX. intros H. scan_inv H.
  repeat match goal with
  | E : re_dec _ = Some _ |- _ => apply re_dec_sound in E as (? & ? & -> & ->)
  | E : re_lit _ _ = Some _ |- _ => apply re_lit_sound in E as ->
  end. by exists x, x0, x1, u1.
Qed.

Lemma assertEntityComponent_ok n name u :
  assertEntityComponent n name = Ok u <-> n <= HEDERA_ENTITY_COMPONENT_MAX.
Proof.
  unfold assertEntityComponent. destruct (Z.ltb_spec HEDERA_ENTITY_COMPONENT_MAX n); cbn; destruct u;
    split; try done; lia.
Qed.

Lemma parse_spelling v network id :
  parseHederaEntityId v network = Ok id <-> valid_id id /\ spelling network id v.
Proof.
  unfold parseHederaEntityId. split.
  - intros H. apply bind_ok in H as ([[[a b] c] k] & Hre & H). apply require_ok, regex_sound in Hre.
    destruct Hre as (x & y & z & t & Hx & Hy & Hz & -> & -> & -> & -> & Ht).
    rewrite !BigInt_toString10 in H by done. cbn [mbind result_bind shard realm num] in H.
    apply bind_ok in H as (? & H1 & H). apply bind_ok in H as (? & H2 & H). apply bind_ok in H as (? & H3 & H).
    apply assertEntityComponent_ok in H1, H2, H3.
    assert (valid_id {| shard := x; realm := y; num := z |}) as Hv by (constructor; split; done).
    apply re_checksum_end_sound in Ht as [[-> ->]|(t' & -> & ->)].
    + injection H as <-. split; [done|]. left. unfold formatHederaEntityId. by rewrite app_nil_r.
    + res_inv H. bool_prop. subst. split; [done|]. right. eexists _, _. split_and!; [done|done|].
      unfold formatHederaEntityId. by rewrite <- !app_assoc.
  - intros ([[] [] []] & Hsp).
    assert (exists t k, v = formatHederaEntityId id ++ t /\ no_digit t /\ re_checksum_end t = Some k /\
      (k = None \/ exists net c, network = Some net /\ getHederaEntityIdChecksum id net = Ok c /\ k = Some c))
      as (t & k & -> & Hnd & Ht & Hk).
    { destruct Hsp as [-> | (net & c & -> & Hc & ->)].
      - exists [], None. rewrite app_nil_r. split_and!; auto with relay.
      - destruct (checksum_letters _ _ _ Hc) as [Hl Hlow]. exists (js "-" ++ c), (Some c).
        split_and!; [done|by apply no_digit_cons| |right; eauto].
        unfold re_checksum_end. rewrite bool_decide_false by done. rewrite re_lit_complete.
        cbn [mbind option_bind]. rewrite <- (app_nil_r c) at 1. by rewrite re_count_complete. }
    unfold formatHederaEntityId. rewrite <- !app_assoc, (regex_complete _ _ _ _ k) by done.
    cbn [require mbind result_bind]. rewrite !BigInt_toString10 by done. cbn [mbind result_bind shard realm num].
    rewrite !(proj2 (assertEntityComponent_ok _ _ tt)) by done. cbn [mbind result_bind].
    destruct id as [x y z]. destruct Hk as [-> | (net & c & -> & Hc & ->)]; [done|].
    cbn [require mbind result_bind]. cbn [shard realm num]. rewrite Hc. cbn [mbind result_bind].
    by rewrite bool_decide_true.
Qed.

(** ** What the checksum detects *)

(** Sum of the digits at positions of parity [q], the first one at [i]. *)
Fixpoint parity_sum (q i : nat) (a : jsstring) : Z :=
  match a with
  | [] => 0
  | c :: a' => (if Nat.eqb (i mod 2) q then address_digit c else 0) + parity_sum q (S i) a'
  end.

Lemma parity_sum_app q i a b : parity_sum q i (a ++ b) = parity_sum q i a + parity_sum q (i + length a) b.
Proof.
  revert i; induction a as [|c a IH]; intros i; cbn [app parity_sum length]; [by rewrite Nat.add_0_r|].
  rewrite IH. replace (S i + length a)%nat with (i + S (length a))%nat by lia. lia.
Qed.

Lemma digit_loop_sums a i s s0 s1 :
  0 <= s0 < 11 -> 0 <= s1 < 11 -> 0 <= s < p3 ->
  exists s', digit_loop a i s s0 s1 =
    (s', (s0 + parity_sum 0 i a) mod 11, (s1 + parity_sum 1 i a) mod 11) /\ 0 <= s' < p3.
Proof.
  revert i s s0 s1; induction a as [|c a IH]; intros i s s0 s1 H0 H1 Hs; cbn [digit_loop parity_sum].
  - exists s. by rewrite !Z.add_0_r, !(Z.mod_small _ 11).
  - set (d := address_digit c). assert (0 <= (cs_w * s + d) mod p3 < p3) as Hs' by (by apply Z.mod_pos_bound).
    pose proof (Nat.mod_upper_bound i 2 ltac:(lia)).
    destruct (Nat.eqb_spec (i mod 2) 0) as [E|E]; destruct (Nat.eqb_spec (i mod 2) 1) as [E1|E1]; try lia.
    + destruct (IH (S i) _ ((s0 + d) mod 11) s1 ltac:(apply Z.mod_pos_bound; lia) H1 Hs') as (s' & -> & ?).
      exists s'. rewrite Zplus_mod_idemp_l. rewrite Z.add_0_l. split; [|done]. do 3 f_equal; lia.
    + destruct (IH (S i) _ s0 ((s1 + d) mod 11) H0 ltac:(apply Z.mod_pos_bound; lia) Hs') as (s' & -> & ?).
      exists s'. rewrite Zplus_mod_idemp_l. rewrite Z.add_0_l. split; [|done]. do 2 f_equal; lia.
Qed.

(** 1000003 is invertible modulo 26^5. *)
Lemma permutation_inj c d : 0 <= c < p5 -> 0 <= d < p5 -> (c * cs_m) mod p5 = (d * cs_m) mod p5 -> c = d.
Proof.
  intros Hc Hd E. apply (f_equal (fun x => (x * 8610443) mod p5)) in E.
  assert (forall x, 0 <= x < p5 -> ((x * cs_m) mod p5 * 8610443) mod p5 = x) as H.
  { intros x Hx. rewrite Z.mul_mod_idemp_l, <- Z.mul_assoc by done.
    rewrite <- Z.mul_mod_idemp_r by done. change ((cs_m * 8610443) mod p5) with 1.
    rewrite Z.mul_1_r. by apply Z.mod_small. }
  cbv beta in E. by rewrite !H in E by done.
Qed.

(** The sums behind the five letters. *)
Lemma checksum_value_sums ledger a :
  exists s, 0 <= s < p3 /\
  let base := (((Z.of_nat (length a) mod 5) * 11 + parity_sum 0 0 a mod 11) * 11
               + parity_sum 1 0 a mod 11) * p3 + s in
  0 <= base < p5 /\ checksum_value ledger a = ((base + ledger_hash ledger) mod p5 * cs_m) mod p5.
Proof.
  unfold checksum_value. destruct (digit_loop_sums a 0 0 0 0) as (s & -> & Hs); [lia|lia|done|].
  exists s. split; [done|]. rewrite !Z.add_0_l.
  pose proof (Z.mod_pos_bound (Z.of_nat (length a)) 5 ltac:(lia)).
  pose proof (Z.mod_pos_bound (parity_sum 0 0 a) 11 ltac:(lia)).
  pose proof (Z.mod_pos_bound (parity_sum 1 0 a) 11 ltac:(lia)).
  split; [|done]. unfold p3, p5 in *. lia.
Qed.

Lemma checksum_text_inj x y : 0 <= x < p5 -> 0 <= y < p5 ->
  Z.add 97 <$> Radix.fixed_digits 5 26 x [] = Z.add 97 <$> Radix.fixed_digits 5 26 y [] -> x = y.
Proof.
  intros Hx Hy E. apply (list_fmap_eq_inj (Z.add 97)) in E; [|intros a b ?; lia].
  apply (f_equal (Radix.of_digits 26)) in E.
  rewrite !Radix.of_fixed_digits in E by lia. change (26 ^ Z.of_nat 5) with p5 in E.
  by rewrite !Z.mod_small in E.
Qed.

Lemma checksum_value_range ledger a : 0 <= checksum_value ledger a < p5.
Proof.
  unfold checksum_value. destruct (digit_loop _ _ _ _ _) as [[? ?] ?]. by apply Z.mod_pos_bound.
Qed.

(** Equal checksums on one network mean equal digit sums. *)
Lemma checksum_sums_eq net id1 id2 k :
  getHederaEntityIdChecksum id1 net = Ok k -> getHederaEntityIdChecksum id2 net = Ok k ->
  let a := formatHederaEntityId id1 in let b := formatHederaEntityId id2 in
  parity_sum 0 0 a mod 11 = parity_sum 0 0 b mod 11 /\ parity_sum 1 0 a mod 11 = parity_sum 1 0 b mod 11.
Proof.
  intros H1 H2 a b. destruct (getChecksum_known _ _ _ H1) as [ledger Hl].
  rewrite (getChecksum_eq _ _ _ Hl) in H1. rewrite (getChecksum_eq _ _ _ Hl) in H2.
  rewrite <- H2 in H1. fold a b in H1.
  assert (forall u v : jsstring, Ok u = Ok v -> u = v) as Hinj by congruence.
  apply Hinj, checksum_text_inj in H1; [|apply checksum_value_range..].
  destruct (checksum_value_sums ledger a) as (sa & Ha & Hba & Ea).
  destruct (checksum_value_sums ledger b) as (sb & Hb & Hbb & Eb). rewrite Ea, Eb in H1.
  apply permutation_inj in H1; [|by apply Z.mod_pos_bound..].
  pose proof (Z.mod_pos_bound (parity_sum 0 0 a) 11 ltac:(lia)).
  pose proof (Z.mod_pos_bound (parity_sum 1 0 a) 11 ltac:(lia)).
  pose proof (Z.mod_pos_bound (parity_sum 0 0 b) 11 ltac:(lia)).
  pose proof (Z.mod_pos_bound (parity_sum 1 0 b) 11 ltac:(lia)).
  pose proof (Z.mod_pos_bound (Z.of_nat (length a)) 5 ltac:(lia)).
  pose proof (Z.mod_pos_bound (Z.of_nat (length b)) 5 ltac:(lia)).
  match type of H1 with (?x + ?h) mod _ = (?y + _) mod _ => assert (x = y) as E end.
  { revert H1 Hba Hbb. generalize (ledger_hash ledger). clear. intros h. cbv zeta.
    match goal with |- (?x + _) mod _ = (?y + _) mod _ -> _ => generalize x, y end. clear.
    intros x y E Hx Hy. rewrite !Z.mod_eq in E by done. change p5 with 11881376 in *. lia. }
  unfold p3 in *. lia.
Qed.

(** The texts differ by one substituted character, or by two adjacent
    characters exchanged. *)
Definition substituted (a b : jsstring) : Prop :=
  exists pre x y post, a = pre ++ x :: post /\ b = pre ++ y :: post /\ x <> y.
Definition transposed (a b : jsstring) : Prop :=
  exists pre x y post, a = pre ++ x :: y :: post /\ b = pre ++ y :: x :: post /\ x <> y.

Definition id_char (c : Z) : Prop := c = 46 \/ is_digit c = true.

Lemma address_digit_inj c d : id_char c -> id_char d -> c <> d ->
  (address_digit c - address_digit d) mod 11 <> 0.
Proof.
  intros Hc Hd Hne.
  assert (0 <= address_digit c <= 10 /\ 0 <= address_digit d <= 10 /\ address_digit c <> address_digit d).
  { unfold address_digit, dec_val, id_char, is_digit, in_range in *.
    destruct (Z.eqb_spec c 46), (Z.eqb_spec d 46), Hc, Hd; bool_prop; lia. }
  intros E. apply Z.mod_divide in E as [q E]; lia.
Qed.

Lemma format_chars id : valid_id id -> Forall id_char (formatHederaEntityId id).
Proof.
  intros [[] [] []]. unfold formatHederaEntityId.
  assert (forall n, 0 <= n -> Forall id_char (toString10 n)) as Hdig.
  { intros n Hn. destruct (digits_of_toString10 n Hn) as [Hd _].
    eapply Forall_impl; [exact Hd|]. intros c. by right. }
  repeat (apply Forall_app; split); auto; repeat constructor.
Qed.

(** One position of a given parity changes and nothing else does. *)
Lemma parity_step pre x y post : exists q, (q = 0 \/ q = 1)%nat /\
  parity_sum q 0 (pre ++ x :: post) - parity_sum q 0 (pre ++ y :: post) = address_digit x - address_digit y.
Proof.
  exists (length pre mod 2)%nat. pose proof (Nat.mod_upper_bound (length pre) 2 ltac:(lia)).
  split; [lia|]. rewrite !parity_sum_app. cbn [parity_sum Nat.add]. rewrite Nat.eqb_refl. lia.
Qed.

Lemma parity_swap pre x y post : exists q, (q = 0 \/ q = 1)%nat /\
  parity_sum q 0 (pre ++ x :: y :: post) - parity_sum q 0 (pre ++ y :: x :: post)
  = address_digit x - address_digit y.
Proof.
  exists (length pre mod 2)%nat. pose proof (Nat.mod_upper_bound (length pre) 2 ltac:(lia)).
  split; [lia|]. rewrite !parity_sum_app. cbn [parity_sum Nat.add]. rewrite Nat.eqb_refl.
  assert ((S (length pre) mod 2 =? length pre mod 2)%nat = false) as ->; [|lia].
  apply Nat.eqb_neq. rewrite <- Nat.add_1_r, Nat.Div0.add_mod. set (m := (length pre mod 2)%nat) in *.
  destruct m as [|[|]]; cbn; lia.
Qed.

Lemma checksum_detects_lemma net id1 id2 k1 k2 :
  valid_id id1 -> valid_id id2 ->
  substituted (formatHederaEntityId id1) (formatHederaEntityId id2) \/
  transposed (formatHederaEntityId id1) (formatHederaEntityId id2) ->
  getHederaEntityIdChecksum id1 net = Ok k1 -> getHederaEntityIdChecksum id2 net = Ok k2 -> k1 <> k2.
Proof.
  intros V1 V2 Hd H1 H2 ->. destruct (checksum_sums_eq _ _ _ _ H1 H2) as [E0 E1].
  pose proof (format_chars id1 V1) as C. 
  assert (exists q x y, (q = 0 \/ q = 1)%nat /\ id_char x /\ id_char y /\ x <> y /\
    parity_sum q 0 (formatHederaEntityId id1) - parity_sum q 0 (formatHederaEntityId id2)
    = address_digit x - address_digit y) as (q & x & y & Hq & Hx & Hy & Hne & E).
  { destruct Hd as [(pre & x & y & post & Ea & Eb & Hne)|(pre & x & y & post & Ea & Eb & Hne)].
    - pose proof (format_chars id2 V2) as C2. rewrite Ea in C. rewrite Eb in C2. rewrite Ea, Eb.
      apply Forall_app in C as [_ C]. apply Forall_app in C2 as [_ C2].
      apply Forall_cons_1 in C as [? _]. apply Forall_cons_1 in C2 as [? _].
      destruct (parity_step pre x y post) as (q & ? & ?). exists q, x, y. done.
    - rewrite Ea in C. rewrite Ea, Eb. apply Forall_app in C as [_ C].
      apply Forall_cons_1 in C as [? C]. apply Forall_cons_1 in C as [? _].
      destruct (parity_swap pre x y post) as (q & ? & ?). exists q, x, y. done. }
  apply (address_digit_inj x y Hx Hy Hne). rewrite <- E, Zminus_mod.
  destruct Hq as [-> | ->]; [rewrite E0|rewrite E1]; by rewrite Z.sub_diag.
Qed.

Lemma ledgerIdOf_elem net l : ledgerIdOf net = Some l -> (net, l) ∈ HEDERA_LEDGER_IDS.
Proof.
  unfold ledgerIdOf. intros H. apply fmap_Some in H as ([n' l'] & H & ->).
  destruct (filter _ _) as [|e es] eqn:E; [done|]. injection H as ->.
  assert ((n', l') ∈ filter (fun e => e.1 = net) HEDERA_LEDGER_IDS) as Hin by (rewrite E; left).
  apply list_elem_of_filter in Hin as [<- Hin]. done.
Qed.

Lemma ledger_hash_inj e1 e2 : e1 ∈ HEDERA_LEDGER_IDS -> e2 ∈ HEDERA_LEDGER_IDS ->
  ledger_hash e1.2 = ledger_hash e2.2 -> e1 = e2.
Proof.
  intros H1 H2.
  assert (NoDup ((fun e => ledger_hash e.2) <$> HEDERA_LEDGER_IDS)) as Hnd 
    by (apply (bool_decide_unpack _); vm_compute; exact I).
  apply list_elem_of_lookup in H1 as [i Hi], H2 as [j Hj]. intros E.
  assert (i = j) as ->; [|congruence].
  eapply NoDup_lookup; [exact Hnd| |]; rewrite list_lookup_fmap; [by rewrite Hi|by rewrite Hj, E].
Qed.

(** Different networks give different checksums. *)
Lemma checksum_network id n1 n2 k1 k2 : n1 <> n2 ->
  getHederaEntityIdChecksum id n1 = Ok k1 -> getHederaEntityIdChecksum id n2 = Ok k2 -> k1 <> k2.
Proof.
  intros Hn H1 H2 ->. destruct (getChecksum_known _ _ _ H1) as [l1 L1], (getChecksum_known _ _ _ H2) as [l2 L2].
  rewrite (getChecksum_eq _ _ _ L1) in H1. rewrite (getChecksum_eq _ _ _ L2) in H2. rewrite <- H2 in H1.
  assert (forall u v : jsstring, Ok u = Ok v -> u = v) as Hinj by congruence.
  apply Hinj, checksum_text_inj in H1; [|apply checksum_value_range..].
  assert (ledger_hash l1 = ledger_hash l2) as E.
  { unfold checksum_value in H1. destruct (digit_loop _ _ _ _ _) as [[s s0] s1].
    apply permutation_inj in H1; [|by apply Z.mod_pos_bound..].
    assert (forall l, 0 <= ledger_hash l < p5) as Hr.
    { intros l. unfold ledger_hash. generalize (set_at (zeros (length l + 6)) 0 l).
      induction l0 as [|b l0 _] using rev_ind; [done|]. rewrite foldl_snoc. by apply Z.mod_pos_bound. }
    pose proof (Hr l1). pose proof (Hr l2). revert H1.
    match goal with |- (?x + _) mod _ = _ -> _ => generalize x end. intros x E.
    rewrite !Z.mod_eq in E by done. change p5 with 11881376 in *. lia. }
  apply ledgerIdOf_elem in L1, L2. clear H1 H2. 
  assert ((n1, l1) = (n2, l2)) as [= -> _] by (by apply ledger_hash_inj). done.
Qed.

(** ** Long-zero addresses *)

Section EvmLemmas.
Context `{V : Viem, !ViemLaws V}.

Lemma num_loop_eq n : num_loop 8 19 (zeros 20) n = zeros 12 ++ word_loop 8 n [].
Proof using. reflexivity. Qed.

Lemma foldl_lor_be l a : 0 <= a ->
  foldl (fun n b => Z.lor (Z.shiftl n 8) (bz b)) a l = foldl (fun n d => n * 256 + d) a (bz <$> l).
Proof using.
  revert a; induction l as [|b l IH]; intros a Ha; [done|]. cbn [foldl fmap list_fmap].
  pose proof (bz_range b). assert (Z.lor (Z.shiftl a 8) (bz b) = a * 256 + bz b) as ->.
  { rewrite <- Z.lxor_lor, <- Z.add_nocarry_lxor, Z.shiftl_mul_pow2; try lia.
    all: apply Z.bits_inj'; intros i Hi; rewrite Z.land_spec, Z.bits_0.
    all: destruct (Z.ltb_spec i 8); [rewrite Z.shiftl_spec_low by lia; done|].
    all: rewrite (Z.bits_above_log2 (bz b)), andb_false_r; [done|lia|].
    all: destruct (decide (bz b = 0)) as [->|]; [cbn; lia|].
    all: apply Z.lt_le_trans with 8; [apply Z.log2_lt_pow2; lia|lia]. }
  apply IH. lia.
Qed.

Lemma isLongZero_spec l : (12 <= length l)%nat -> isLongZeroAddressBytes l = true <-> take 12 l = zeros 12.
Proof using.
  intros Hl. unfold isLongZeroAddressBytes, LONG_ZERO_PREFIX_BYTE_LENGTH. rewrite forallb_Forall. split.
  - intros H. apply list_eq_same_length with 12%nat; [done|rewrite length_take; lia|].
    intros i x y Hi Hx Hy. unfold zeros in Hy. apply lookup_replicate in Hy as [-> _].
    rewrite Forall_lookup in H. apply H in Hx. apply Z.eqb_eq in Hx. by apply bz_inj.
  - intros ->. unfold zeros. by apply Forall_replicate.
Qed.

(** The entity number a long-zero address carries. *)
Definition slot_num (l : bytes) : Z := be_val (drop 12 l).

Lemma longZero_ok l id : length l = 20%nat ->
  longZeroBytesToEntityId l = Ok id <->
  slot_num l <= HEDERA_ENTITY_COMPONENT_MAX /\ id = {| shard := 0; realm := 0; num := slot_num l |}.
Proof using.
  intros Hl. unfold longZeroBytesToEntityId, EVM_ADDRESS_BYTE_LENGTH, LONG_ZERO_PREFIX_BYTE_LENGTH, slot_num.
  rewrite take_ge by (rewrite length_drop; lia). rewrite foldl_lor_be by done.
  fold (Radix.of_digits 256 (bz <$> drop 12 l)). fold (be_val (drop 12 l)).
  destruct (Z.ltb_spec HEDERA_ENTITY_COMPONENT_MAX (be_val (drop 12 l))); cbn.
  - split; [done|]. intros [? _]. lia.
  - split; [intros [= <-]; done|by intros [_ ->]].
Qed.

(** The 20 bytes of a representable id. *)
Definition id_bytes (id : HederaEntityId) : bytes := zeros 12 ++ word_loop 8 (num id) [].

Lemma id_bytes_length id : length (id_bytes id) = 20%nat.
Proof using. unfold id_bytes. by rewrite length_app, length_word_loop. Qed.

Lemma slot_num_id_bytes id : valid_component (num id) -> slot_num (id_bytes id) = num id.
Proof using.
  intros [H1 H2]. unfold slot_num, id_bytes. rewrite drop_length_app by done.
  rewrite be_val_word_loop. apply Z.mod_small. change HEDERA_ENTITY_COMPONENT_MAX with (2 ^ 63 - 1) in H2.
  change (256 ^ Z.of_nat 8) with (2 ^ 64). lia.
Qed.

Lemma id_bytes_slot l : length l = 20%nat -> take 12 l = zeros 12 ->
  id_bytes {| shard := 0; realm := 0; num := slot_num l |} = l.
Proof using.
  intros Hl Hz. unfold id_bytes, slot_num. cbn [num]. rewrite <- (take_drop 12 l) at 2. rewrite Hz. f_equal.
  apply be_val_inj; [rewrite length_word_loop, length_drop; lia|].
  rewrite be_val_word_loop. apply Z.mod_small. pose proof (be_val_bound (drop 12 l)) as Hb.
  rewrite length_drop, Hl in Hb. exact Hb.
Qed.

Lemma entityIdToEvm_ok id a :
  hederaEntityIdToEvmAddress (inl id) = Ok a <->
  shard id = 0 /\ realm id = 0 /\ a = js "0x" ++ bytesToHex (id_bytes id).
Proof.
  unfold hederaEntityIdToEvmAddress, entityIdToEvmAddress, assertZeroShardAndRealm. cbn [mbind result_bind].
  change (num_loop _ _ _ _) with (num_loop 8 19 (zeros 20) (num id)). rewrite num_loop_eq, viem_print.
  fold (id_bytes id). split.
  - intros H. apply bind_ok in H as (? & H1 & [= <-]). res_inv H1. bool_prop. done.
  - intros (-> & -> & ->). done.
Qed.

(** ** Reading EVM addresses *)

Lemma evm_regex_sound v m : EVM_ADDRESS_REGEX v = Some m ->
  length m = 40%nat /\ Forall (fun c => is_hex_digit c = true) m /\ (v = m \/ v = js "0x" ++ m).
Proof using.
  unfold EVM_ADDRESS_REGEX. intros H. scan_inv H. apply re_count_sound in Sc as (E & Hl & Hh).
  apply re_end_sound in Sc0 as ->. rewrite app_nil_r in E. split_and!; try done.
  destruct (re_lit (js "0x") v) eqn:L; cbn in E; subst; [|by left].
  apply re_lit_sound in L as ->. by right.
Qed.

Lemma evm_regex_complete m : length m = 40%nat -> Forall (fun c => is_hex_digit c = true) m ->
  EVM_ADDRESS_REGEX (js "0x" ++ m) = Some m /\ EVM_ADDRESS_REGEX m = Some m.
Proof using.
  intros Hl Hh. unfold EVM_ADDRESS_REGEX. rewrite re_lit_complete. cbn [default].
  assert (re_lit (js "0x") m = None) as ->.
  { destruct (re_lit (js "0x") m) eqn:E; [|done]. apply re_lit_sound in E as ->.
    apply Forall_app in Hh as [Hh _]. apply Forall_cons_1 in Hh as [_ Hh].
    apply Forall_cons_1 in Hh as [Hh _]. discriminate Hh. }
  cbn [default]. assert (re_count 40 is_hex_digit m = Some (m, [])) as E.
  { rewrite <- (app_nil_r m) at 1. by apply re_count_complete. }
  unfold id. rewrite E. done.
Qed.

Lemma lower_hex_bytes m : (length m mod 2 = 0)%nat -> Forall (fun c => is_hex_digit c = true) m ->
  exists b, toLowerCase m = bytesToHex b /\ (2 * length b = length m)%nat.
Proof using.
  intros Hl Hh. exists (parse_pairs (toLowerCase m)).
  assert (Forall (fun c => is_hex_digit c = true /\ lower_char c = c) (toLowerCase m)) as Hc.
  { apply Forall_fmap. eapply Forall_impl; [exact Hh|]. intros c Hc'. cbn.
    by rewrite is_hex_lower_inv, lower_char_idem. }
  assert (length (toLowerCase m) = length m) as Hlen by (unfold toLowerCase; by rewrite length_fmap).
  rewrite bytesToHex_parse_pairs by (done || by rewrite Hlen). split; [done|].
  rewrite <- Hlen. apply parse_pairs_val; [|by rewrite Hlen]. eapply Forall_impl; [exact Hc|]. naive_solver.
Qed.

Lemma parseEvm_ok v b :
  parseEvmAddressBytes v = Ok b <->
  length b = 20%nat /\ exists m, EVM_ADDRESS_REGEX v = Some m /\ toLowerCase m = bytesToHex b.
Proof.
  unfold parseEvmAddressBytes. split.
  - intros H. apply bind_ok in H as (m & Hm & H). apply require_ok in Hm.
    destruct (evm_regex_sound v m Hm) as (Hl & Hh & _).
    destruct (lower_hex_bytes m) as (b' & E & Hb); [by rewrite Hl|done|]. rewrite E, viem_read in H.
    injection H as <-. split; [lia|eauto].
  - intros (Hl & m & -> & E). cbn [require mbind result_bind]. by rewrite E, viem_read.
Qed.

(** ** Addresses and the 20-byte slot *)

(** The identity a slot value stands for, and its canonical slot value. *)
Inductive identity_slot : HederaAddress -> bytes -> Prop :=
  | slot_entity id : shard id = 0 -> realm id = 0 -> valid_component (num id) ->
      identity_slot (EntityIdAddress id) (id_bytes id)
  | slot_alias l : length l = 20%nat -> take 12 l <> zeros 12 ->
      identity_slot (EvmAlias (js "0x" ++ bytesToHex l)) l.

Lemma identity_slot_length a l : identity_slot a l -> length l = 20%nat.
Proof using. destruct 1; [apply id_bytes_length|done]. Qed.

Lemma alias_slot s l : identity_slot (EvmAlias s) l -> s = js "0x" ++ bytesToHex l.
Proof using. by inversion 1. Qed.

Lemma fromEvm_ok l a : length l = 20%nat -> fromEvmAddressBytes l = Ok a <-> identity_slot a l.
Proof.
  intros Hl. unfold fromEvmAddressBytes. rewrite viem_print. split.
  - destruct (isLongZeroAddressBytes l) eqn:E.
    + apply isLongZero_spec in E; [|lia]. intros H. apply fmap_ok in H as (id & H & <-).
      apply longZero_ok in H as [Hm ->]; [|done]. rewrite <- (id_bytes_slot l Hl E) at 2.
      constructor; try done. split; [apply be_val_bound|done].
    + intros [= <-]. constructor; [done|]. intros Hz. apply isLongZero_spec in Hz; [congruence|lia].
  - destruct 1 as [id Hs Hr Hn|l Hl' Hz].
    + rewrite (proj2 (isLongZero_spec _ ltac:(rewrite id_bytes_length; lia))) by reflexivity.
      rewrite (proj2 (longZero_ok _ id (id_bytes_length id))); [done|].
      rewrite slot_num_id_bytes by done. split; [apply Hn|]. destruct id. cbn in *. by subst.
    + destruct (isLongZeroAddressBytes l) eqn:E; [|done]. apply isLongZero_spec in E; [done|lia].
Qed.

Lemma toString10_short n : valid_component n -> (length (toString10 n) <= 19)%nat.
Proof using.
  intros [H1 H2]. change HEDERA_ENTITY_COMPONENT_MAX with (2 ^ 63 - 1) in H2.
  destruct (toString10_nonneg n H1) as (l & -> & Hok & Hne & Hv & Hlz). rewrite length_fmap.
  destruct Hlz as [-> | Hlz]; [cbn; lia|].
  pose proof (Radix.no_leading_zero_lower 10 ltac:(lia) l Hok Hlz Hne) as Hlow. rewrite Hv in Hlow.
  destruct (Nat.le_gt_cases (length l) 19) as [|Hgt]; [done|]. exfalso.
  assert (10 ^ 19 <= 10 ^ (Z.of_nat (length l) - 1)) by (apply Z.pow_le_mono_r; lia). lia.
Qed.

(** A formatted id is not taken for either EVM form. *)
Lemma format_not_evm id : valid_id id -> EVM_ADDRESS_REGEX (formatHederaEntityId id) = None /\
  HEDERA_PREFIXED_EVM_ADDRESS_REGEX (formatHederaEntityId id) = None.
Proof using.
  intros [Hs Hr Hn]. pose proof (toString10_short _ Hn) as Hlen. destruct Hs as [Hs _], Hr as [Hr _], Hn as [Hn _].
  unfold formatHederaEntityId. split.
  - destruct (EVM_ADDRESS_REGEX _) as [m|] eqn:E; [|done]. exfalso.
    apply evm_regex_sound in E as (_ & Hh & [E|E]).
    + rewrite <- E in Hh. apply Forall_app in Hh as [_ Hh]. apply Forall_cons_1 in Hh as [Hh _]. done.
    + destruct (digits_of_toString10 _ Hs) as [Hd _].
      apply (digits_split _ [48] _ (120 :: m)) in E as [_ E]; [done|done|by repeat constructor|..];
        by apply no_digit_cons.
  - unfold HEDERA_PREFIXED_EVM_ADDRESS_REGEX.
    rewrite re_dec_toString10 by (done || by apply no_digit_cons). cbn [mbind option_bind].
    rewrite re_lit_complete. cbn [mbind option_bind].
    rewrite re_dec_toString10 by (done || by apply no_digit_cons). cbn [mbind option_bind].
    rewrite re_lit_complete. cbn [mbind option_bind]. unfold re_count. zcmp. done.
Qed.

Lemma parse_format a l network : identity_slot a l -> parseHederaAddress (formatHederaAddress a) network = Ok a.
Proof.
  destruct 1 as [id Hs Hr Hn|l Hl Hz]; unfold parseHederaAddress; cbn [formatHederaAddress].
  - assert (valid_id id) as Hv by (constructor; [by rewrite Hs|by rewrite Hr|done]).
    destruct (format_not_evm id Hv) as [-> ->]. rewrite bool_decide_false by (by intros [? ?]).
    rewrite (proj2 (parse_spelling _ network id)); [done|]. split; [done|by left].
  - destruct (evm_regex_complete (bytesToHex l)) as [E _].
    { rewrite length_bytesToHex. lia. }
    { eapply Forall_impl; [apply bytesToHex_hex|]. naive_solver. }
    rewrite E, bool_decide_true by eauto.
    rewrite (proj2 (parseEvm_ok _ l)) by (split; [done|]; exists (bytesToHex l); split; [done|apply toLowerCase_bytesToHex]).
    cbn [mbind result_bind]. apply fromEvm_ok; [done|]. by constructor.
Qed.

Lemma decode_ok l s : decodeHederaAddress l = Ok s <-> exists a, identity_slot a l /\ s = formatHederaAddress a.
Proof.
  unfold decodeHederaAddress. split.
  - intros H. res_inv H. bool_prop. apply fromEvm_ok in Hs0; [|done]. eauto.
  - intros (a & Ha & ->). pose proof (identity_slot_length a l Ha) as Hl. rewrite Hl.
    cbn [Nat.eqb EVM_ADDRESS_BYTE_LENGTH negb check mbind result_bind].
    by rewrite (proj2 (fromEvm_ok l a Hl) Ha).
Qed.

(** Everything the parser returns is a valid identity. *)
Definition wf_address (a : HederaAddress) : Prop :=
  match a with
  | EntityIdAddress id => valid_id id
  | EvmAlias _ => exists l, identity_slot a l
  end.

Lemma parse_wf v network a : parseHederaAddress v network = Ok a -> wf_address a.
Proof.
  assert (forall l, length l = 20%nat -> fromEvmAddressBytes l = Ok a -> wf_address a) as Hevm.
  { intros l Hl H. apply fromEvm_ok in H; [|done]. destruct H as [id Hs Hr Hn|l' Hl' Hz]; cbn.
    - constructor; [by rewrite Hs|by rewrite Hr|done].
    - exists l'. by constructor. }
  unfold parseHederaAddress. case_bool_decide.
  - intros H'. apply bind_ok in H' as (l & Hl & H'). apply parseEvm_ok in Hl as [Hl _]. eauto.
  - destruct (HEDERA_PREFIXED_EVM_ADDRESS_REGEX v) as [[[? ?] ?]|]; intros H'.
    + apply bind_ok in H' as (? & _ & H'). apply bind_ok in H' as (lb & Hl & H').
      apply parseEvm_ok in Hl as [Hl _]. eauto.
    + apply fmap_ok in H' as (id & H' & <-). by apply parse_spelling in H' as [? _].
Qed.

Lemma encode_ok v l :
  encodeHederaAddress v = Ok l <-> exists a, parseHederaAddress v None = Ok a /\ identity_slot a l.
Proof.
  unfold encodeHederaAddress. split.
  - intros H. apply bind_ok in H as (a & Ha & H). exists a. split; [done|].
    pose proof (parse_wf _ _ _ Ha) as Hwf. destruct a as [id|s]; cbn in Hwf.
    + apply bind_ok in H as (h & Hh & H). apply entityIdToEvm_ok in Hh as (Hs & Hr & ->).
      rewrite viem_read in H. injection H as <-. constructor; try done. apply Hwf.
    + destruct Hwf as [l' Hl']. pose proof (alias_slot _ _ Hl') as ->. rewrite viem_read in H.
      injection H as <-. done.
  - intros (a & -> & Hs). cbn [mbind result_bind]. destruct Hs as [id Hs Hr Hn|l' Hl Hz].
    + rewrite (proj2 (entityIdToEvm_ok id _)) by done. cbn [mbind result_bind]. apply viem_read.
    + apply viem_read.
Qed.

Lemma identity_slot_inj a b l : identity_slot a l -> identity_slot b l -> a = b.
Proof.
  intros Ha Hb. pose proof (identity_slot_length a l Ha) as Hl.
  apply (fromEvm_ok l _ Hl) in Ha, Hb. congruence.
Qed.
End EvmLemmas.

(** ** Properties *)

(** Entity ids have one canonical spelling: the parser accepts exactly the
    formatted form of an id whose components fit int64, optionally followed by
    the checksum of the supplied network, and returns that id; every other
    string (leading zeros, abbreviations, another network's checksum, a checksum
    without a network) is an error. *)
Theorem entity_id_canonical v network id :
  parseHederaEntityId v network = Ok id <-> valid_id id /\ spelling network id v.
Proof. apply parse_spelling. Qed.

(** The HIP-15 checksum is five lower-case letters and detects, for ids on one
    network, every single-character substitution and every exchange of two
    adjacent characters of the formatted id. *)
Theorem checksum_detects_typos net id1 id2 k1 k2 :
  valid_id id1 -> valid_id id2 ->
  substituted (formatHederaEntityId id1) (formatHederaEntityId id2) \/
  transposed (formatHederaEntityId id1) (formatHederaEntityId id2) ->
  getHederaEntityIdChecksum id1 net = Ok k1 -> getHederaEntityIdChecksum id2 net = Ok k2 ->
  k1 <> k2 /\ length k1 = 5%nat /\ Forall (fun c => is_lower_letter c = true) k1.
Proof.
  intros V1 V2 Hd H1 H2. split; [by apply (checksum_detects_lemma net id1 id2)|by apply (checksum_letters id1 net)].
Qed.

(** Checksums are network specific: one id has different checksums on any two
    different networks, so a checksummed id of one network never parses on
    another. *)
Theorem checksum_network_specific id n1 n2 k :
  n1 <> n2 -> valid_id id -> getHederaEntityIdChecksum id n1 = Ok k ->
  is_ok (parseHederaEntityId (formatHederaEntityId id ++ js "-" ++ k) (Some n2)) = false /\
  parseHederaEntityId (formatHederaEntityId id ++ js "-" ++ k) (Some n1) = Ok id.
Proof.
  intros Hn Hv Hk. split; [|apply parse_spelling; split; [done|]; right; eauto].
  destruct (parseHederaEntityId _ (Some n2)) as [id'|] eqn:E; [|done]. exfalso.
  unfold parseHederaEntityId in E. unfold formatHederaEntityId in E. destruct Hv as [[] [] []].
  rewrite <- !app_assoc, (regex_complete _ _ _ _ (Some k)) in E; try done.
  - cbn [require mbind result_bind] in E. rewrite !BigInt_toString10 in E by done.
    cbn [mbind result_bind] in E. destruct id as [x y z]. cbn [shard realm num] in E. res_inv E. bool_prop. subst.
    match goal with E2 : getHederaEntityIdChecksum _ n2 = Ok _ |- _ =>
      by apply (checksum_network _ _ _ _ _ Hn Hk E2) end.
  - by apply no_digit_cons.
  - destruct (checksum_letters _ _ _ Hk). unfold re_checksum_end. rewrite bool_decide_false by done.
    rewrite re_lit_complete. cbn [mbind option_bind]. rewrite <- (app_nil_r k) at 1. by rewrite re_count_complete.
Qed.

Section AddressProperties.
Context `{V : Viem, !ViemLaws V}.

(** Long-zero addresses carry the id: a shard-0, realm-0 id with an int64
    number converts to a 20-byte address that converts back to it, and every
    address that converts to an id is the (case-insensitive) address of that id. *)
Theorem long_zero_roundtrip id v :
  (shard id = 0 -> realm id = 0 -> valid_component (num id) ->
   exists a, hederaEntityIdToEvmAddress (inl id) = Ok a /\ evmAddressToHederaEntityId a = Ok id) /\
  (evmAddressToHederaEntityId v = Ok id ->
   exists m, (v = m \/ v = js "0x" ++ m) /\ hederaEntityIdToEvmAddress (inl id) = Ok (js "0x" ++ toLowerCase m)).
Proof.
  split.
  - intros Hs Hr Hn. eexists. split; [by apply entityIdToEvm_ok|].
    unfold evmAddressToHederaEntityId.
    destruct (evm_regex_complete (bytesToHex (id_bytes id))) as [E _].
    { rewrite length_bytesToHex, id_bytes_length. lia. }
    { eapply Forall_impl; [apply bytesToHex_hex|]. naive_solver. }
    rewrite (proj2 (parseEvm_ok _ (id_bytes id))).
    2: { split; [apply id_bytes_length|]. eexists. split; [done|apply toLowerCase_bytesToHex]. }
    cbn [mbind result_bind]. rewrite (proj2 (isLongZero_spec (id_bytes id) ltac:(rewrite id_bytes_length; lia))) by reflexivity.
    cbn [negb check mbind result_bind]. apply longZero_ok; [apply id_bytes_length|].
    rewrite slot_num_id_bytes by done. split; [apply Hn|]. destruct id. cbn in *. by subst.
  - unfold evmAddressToHederaEntityId. intros H. res_inv H. bool_prop.
    apply parseEvm_ok in Hs as (Hl & m & Hm & E). apply isLongZero_spec in Hs0; [|lia].
    apply longZero_ok in H as [_ ->]; [|done]. exists m.
    split; [by apply evm_regex_sound in Hm as (_ & _ & ?)|].
    apply entityIdToEvm_ok. split_and!; try done. by rewrite id_bytes_slot, E.
Qed.

(** The 20-byte address slot is exact: decoding a slot and encoding the
    result gives the slot back; encoding any accepted spelling and decoding gives
    the canonical spelling of the same identity; and decoding fails on 20 bytes
    only for long-zero values above the int64 maximum. *)
Theorem address_slot_roundtrip v l :
  (forall s, decodeHederaAddress l = Ok s -> encodeHederaAddress s = Ok l) /\
  (encodeHederaAddress v = Ok l -> exists a, parseHederaAddress v None = Ok a /\
     decodeHederaAddress l = Ok (formatHederaAddress a) /\
     encodeHederaAddress (formatHederaAddress a) = Ok l) /\
  (length l = 20%nat -> is_ok (decodeHederaAddress l) = false ->
     take 12 l = zeros 12 /\ HEDERA_ENTITY_COMPONENT_MAX < slot_num l).
Proof.
  split_and!.
  - intros s H. apply decode_ok in H as (a & Ha & ->). apply encode_ok. exists a.
    split; [by eapply parse_format|done].
  - intros H. apply encode_ok in H as (a & Hp & Ha). exists a. split; [done|]. split.
    + apply decode_ok. eauto.
    + apply encode_ok. exists a. split; [by eapply parse_format|done].
  - intros Hl Hd.
    assert (forall a, ~ identity_slot a l) as Hno.
    { intros a Ha. rewrite (proj2 (decode_ok l (formatHederaAddress a))) in Hd by eauto. done. }
    destruct (decide (take 12 l = zeros 12)) as [Hz|Hz].
    + split; [done|]. destruct (Z.lt_ge_cases HEDERA_ENTITY_COMPONENT_MAX (slot_num l)) as [|Hle]; [done|].
      exfalso. apply (Hno (EntityIdAddress {| shard := 0; realm := 0; num := slot_num l |})).
      rewrite <- (id_bytes_slot l Hl Hz) at 2. apply slot_entity; try done.
      split; [apply be_val_bound|done].
    + exfalso. eapply Hno. by constructor.
Qed.
End AddressProperties.

(** The vectors of the source's comments. *)
Example usdc_checksum :
  let usdc := {| shard := 0; realm := 0; num := 456858 |} in
  formatHederaEntityIdWithChecksum usdc (js "mainnet") = Ok (js "0.0.456858-ojdqc") /\
  formatHederaEntityIdWithChecksum usdc (js "testnet") = Ok (js "0.0.456858-xwoxl").
Proof. vm_compute. done. Qed.

(** viem's hex codecs, concretely. *)
Definition concrete_viem : Viem := {|
  viem_bytesToHex := fun b => js "0x" ++ bytesToHex b;
  viem_hexToBytes := fun s => hexToBytes s "hex";
|}.
Lemma concrete_viem_laws : ViemLaws concrete_viem.
Proof. constructor; [done|]. intros b. apply hexToBytes_0x. Qed.

Section Witnesses.
#[local] Existing Instance concrete_viem.
#[local] Existing Instance concrete_viem_laws.

Definition sample_id (n : Z) : HederaEntityId := {| shard := 0; realm := 0; num := n |}.
Lemma sample_valid n : valid_component n -> valid_id (sample_id n).
Proof. intros H. constructor; [done|done|exact H]. Qed.

Lemma checksum_detects_typos_witness :
  js "ojdqc" <> js "yxucy" /\ length (js "ojdqc") = 5%nat /\
  Forall (fun c => is_lower_letter c = true) (js "ojdqc").
Proof.
  apply (checksum_detects_typos (js "mainnet") (sample_id 456858) (sample_id 456885)).
  - by apply sample_valid.
  - by apply sample_valid.
  - right. by exists (js "0.0.4568"), 53, 56, [].
  - vm_compute. reflexivity.
  - vm_compute. reflexivity.
Defined.

Lemma checksum_network_specific_witness :
  is_ok (parseHederaEntityId (js "0.0.456858-ojdqc") (Some (js "testnet"))) = false /\
  parseHederaEntityId (js "0.0.456858-ojdqc") (Some (js "mainnet")) = Ok (sample_id 456858).
Proof.
  apply (checksum_network_specific (sample_id 456858) (js "mainnet") (js "testnet") (js "ojdqc")).
  - discriminate.
  - by apply sample_valid.
  - vm_compute. reflexivity.
Defined.

Lemma long_zero_roundtrip_witness :
  exists a, hederaEntityIdToEvmAddress (inl (sample_id 456858)) = Ok a /\
            evmAddressToHederaEntityId a = Ok (sample_id 456858).
Proof. by apply (long_zero_roundtrip (sample_id 456858) []). Defined.

Lemma address_slot_roundtrip_witness :
  exists a, parseHederaAddress (js "0.0.456858") None = Ok a /\
     decodeHederaAddress (id_bytes (sample_id 456858)) = Ok (formatHederaAddress a) /\
     encodeHederaAddress (formatHederaAddress a) = Ok (id_bytes (sample_id 456858)).
Proof.
  apply (address_slot_roundtrip (js "0.0.456858") (id_bytes (sample_id 456858))). vm_compute. reflexivity.
Defined.
End Witnesses.
