(* ===== verification/HederaTx.v ===== *)
(** * Hedera timestamps, transaction ids, hashes and references

    packages/sdk/src/hedera-vm.ts, second half.  A [number] field is modelled by
    an integer, so [Number.isInteger] holds of it; [Number(digits)] is exact
    here: nine digits are below 2^53, and rounding a longer nonce keeps it above
    the int32 maximum it is compared with. *)

From Stdlib Require Import Strings.Byte.
From S2P Require Import Prelude JsNum JsString Scanner HexBytes HederaIds.
Local Open Scope Z_scope.
Local Open Scope js_scope.

(** [Number(s)] of a string of decimal digits. *)
Definition Number_digits (s : jsstring) : Z := Radix.of_digits 10 (dec_val <$> s).

(** ** Consensus timestamps *)

Record HederaTimestamp := { seconds : Z; nanos : Z }.

Definition NANOS_PER_SECOND : Z := 1000000000.

Definition HEDERA_TIMESTAMP_REGEX (value : jsstring) : option (jsstring * jsstring) :=
  '(a, s) ← re_dec value;
  s ← re_lit (js ".") s;
  '(n, s) ← re_count 9 is_digit s;
  _ ← re_end s;
  Some (a, n).

Definition parseHederaTimestamp (value : jsstring) : result HederaTimestamp :=
  '(a, n) ← require (HEDERA_TIMESTAMP_REGEX value) "Invalid Hedera timestamp";
  seconds_ ← BigInt a;
  Ok {| seconds := seconds_; nanos := Number_digits n |}.

Definition assertValidTimestamp (t : HederaTimestamp) : result unit :=
  fail_if seconds t <? 0 with "Invalid Hedera timestamp: seconds may not be negative" ;;
  fail_if (nanos t <? 0) || (NANOS_PER_SECOND <=? nanos t)
    with "Invalid Hedera timestamp: nanos must be an integer in range" ;;
  Ok tt.

Definition nanosText (n : Z) : jsstring := padStart 9 48 (toString10 n).

Definition formatHederaTimestamp (t : HederaTimestamp) : result jsstring :=
  _ ← assertValidTimestamp t;
  Ok (toString10 (seconds t) ++ js "." ++ nanosText (nanos t)).

(** ** Transaction ids *)

Record HederaTransactionId := {
  payer : HederaEntityId;
  validStart : HederaTimestamp;
  scheduled : bool;
  tx_nonce : Z;
}.

(** [[0-9]+\.[0-9]+\.[0-9]+(?:-[a-z]{5})?], captured as a whole. *)
Definition re_payer (s : jsstring) : option (jsstring * jsstring) :=
  '(a, s) ← re_digits1 s;
  s ← re_lit (js ".") s;
  '(b, s) ← re_digits1 s;
  s ← re_lit (js ".") s;
  '(c, s) ← re_digits1 s;
  let id := a ++ js "." ++ b ++ js "." ++ c in
  match (t ← re_lit (js "-") s; re_count 5 is_lower_letter t) with
  | Some (k, s') => Some (id ++ js "-" ++ k, s')
  | None => Some (id, s)
  end.

(** The optional slash and nonce, and the end of the input. *)
Definition re_nonce_end (s : jsstring) : option (option jsstring) :=
  if bool_decide (s = []) then Some None
  else s ← re_lit (js "/") s;
       '(d, s) ← re_dec s;
       _ ← re_end s;
       Some (Some d).

(** Captures: payer, valid start, whether [?scheduled] is present, nonce. *)
Definition HEDERA_TRANSACTION_ID_REGEX (value : jsstring)
  : option (jsstring * jsstring * bool * option jsstring) :=
  '(p, s) ← re_payer value;
  s ← re_lit (js "@") s;
  '(sec, s) ← re_digits1 s;
  s ← re_lit (js ".") s;
  '(n, s) ← re_count 9 is_digit s;
  let '(sched, s) := match re_lit (js "?scheduled") s with
                     | Some s' => (true, s')
                     | None => (false, s)
                     end in
  k ← re_nonce_end s;
  Some (p, sec ++ js "." ++ n, sched, k).

Definition HEDERA_MIRROR_NODE_TRANSACTION_ID_REGEX (value : jsstring)
  : option (jsstring * jsstring * jsstring) :=
  '(p, s) ← re_payer value;
  s ← re_lit (js "-") s;
  '(sec, s) ← re_digits1 s;
  s ← re_lit (js "-") s;
  '(n, s) ← re_count 9 is_digit s;
  _ ← re_end s;
  Some (p, sec, n).

Definition HEDERA_MAX_NONCE : Z := 2147483647.

Definition assertValidNonce (n : Z) : result unit :=
  fail_if (n <? 0) || (HEDERA_MAX_NONCE <? n)
    with "Invalid Hedera transaction id: nonce must be an integer in range" ;;
  Ok tt.

Definition parseNonce (n : jsstring) : result Z :=
  let parsed := Number_digits n in
  fail_if HEDERA_MAX_NONCE <? parsed
    with "Invalid Hedera transaction id: nonce exceeds the int32 maximum" ;;
  Ok parsed.

Definition parseHederaTransactionId (value : jsstring) (network : option jsstring)
  : result HederaTransactionId :=
  match HEDERA_TRANSACTION_ID_REGEX value with
  | Some (p, start, sched, n) =>
      payer_ ← parseHederaEntityId p network;
      validStart_ ← parseHederaTimestamp start;
      nonce_ ← match n with None => Ok 0 | Some d => parseNonce d end;
      Ok {| payer := payer_; validStart := validStart_; scheduled := sched; tx_nonce := nonce_ |}
  | None =>
      match HEDERA_MIRROR_NODE_TRANSACTION_ID_REGEX value with
      | Some (p, sec, n) =>
          payer_ ← parseHederaEntityId p network;
          validStart_ ← parseHederaTimestamp (sec ++ js "." ++ n);
          Ok {| payer := payer_; validStart := validStart_; scheduled := false; tx_nonce := 0 |}
      | None => throw "Invalid Hedera transaction id"
      end
  end.

Definition formatHederaTransactionId (t : HederaTransactionId) : result jsstring :=
  _ ← assertValidNonce (tx_nonce t);
  let sched := if scheduled t then js "?scheduled" else [] in
  let nonce_ := if tx_nonce t =? 0 then [] else js "/" ++ toString10 (tx_nonce t) in
  start ← formatHederaTimestamp (validStart t);
  Ok (formatHederaEntityId (payer t) ++ js "@" ++ start ++ sched ++ nonce_).

Record MirrorNodeTransactionId := { mn_id : jsstring; mn_scheduled : bool; mn_nonce : Z }.

Definition toHederaMirrorNodeTransactionId (t : HederaTransactionId) : result MirrorNodeTransactionId :=
  _ ← assertValidNonce (tx_nonce t);
  _ ← assertValidTimestamp (validStart t);
  Ok {| mn_id := formatHederaEntityId (payer t) ++ js "-" ++ toString10 (seconds (validStart t)) ++
                 js "-" ++ nanosText (nanos (validStart t));
        mn_scheduled := scheduled t;
        mn_nonce := tx_nonce t |}.

(** ** Transaction hashes *)

Definition HEDERA_TRANSACTION_HASH_BYTE_LENGTH : nat := 48.

Definition HEDERA_TRANSACTION_HASH_HEX_REGEX (value : jsstring) : option jsstring :=
  let s := default value (re_lit (js "0x") value) in
  '(h, s) ← re_count 96 is_hex_digit s;
  _ ← re_end s;
  Some h.

Definition is_base64 (c : Z) : bool :=
  in_range 65 90 c || in_range 97 122 c || in_range 48 57 c || (c =? 43) || (c =? 47).
Definition HEDERA_TRANSACTION_HASH_BASE64_REGEX (value : jsstring) : bool :=
  Nat.eqb (length value) 64 && forallb is_base64 value.

Definition base64_val (c : Z) : Z :=
  if in_range 65 90 c then c - 65
  else if in_range 97 122 c then c - 71
  else if in_range 48 57 c then c + 4
  else if c =? 43 then 62 else 63.

(** [Buffer.from(value, "base64")] on whole groups of four symbols. *)
Fixpoint base64_decode (s : jsstring) : bytes :=
  match s with
  | a :: b :: c :: d :: r =>
      let a := base64_val a in let b := base64_val b in
      let c := base64_val c in let d := base64_val d in
      u8 (a * 4 + b / 16) :: u8 (b mod 16 * 16 + c / 4) :: u8 (c mod 4 * 64 + d) :: base64_decode r
  | _ => []
  end.

Section Hash.
Context `{V : Viem}.

Definition parseHederaTransactionHash (value : jsstring) : result jsstring :=
  match HEDERA_TRANSACTION_HASH_HEX_REGEX value with
  | Some hex => Ok (js "0x" ++ toLowerCase hex)
  | None =>
      let l := base64_decode value in
      if HEDERA_TRANSACTION_HASH_BASE64_REGEX value
         && Nat.eqb (length l) HEDERA_TRANSACTION_HASH_BYTE_LENGTH
      then Ok (viem_bytesToHex l)
      else throw "Invalid Hedera transaction hash: expected 48 bytes (SHA-384) as hex or base64"
  end.

(** ** Transaction references *)

Record HederaTransactionReference := {
  transactionId : jsstring;
  transactionHash : option jsstring;
  consensusTimestamp : option jsstring;
}.

Definition optionally {A B} (f : A -> result B) (o : option A) : result (option B) :=
  match o with None => Ok None | Some a => b ← f a; Ok (Some b) end.

Definition normalizeHederaTransactionReference (r : HederaTransactionReference)
    (network : option jsstring) : result HederaTransactionReference :=
  t ← parseHederaTransactionId (transactionId r) network;
  id ← formatHederaTransactionId t;
  hash ← optionally parseHederaTransactionHash (transactionHash r);
  ts ← optionally (fun v => t ← parseHederaTimestamp v; formatHederaTimestamp t) (consensusTimestamp r);
  Ok {| transactionId := id; transactionHash := hash; consensusTimestamp := ts |}.
End Hash.

(** ** Zero-padded decimals *)

Lemma padStart_fixed k n : (0 < k)%nat -> 0 <= n < 10 ^ Z.of_nat k ->
  padStart k 48 (toString10 n) = dec_char <$> Radix.fixed_digits k 10 n [].
Proof.
  intros Hk [Hn Hb]. destruct (toString10_nonneg n Hn) as (l & -> & Hok & Hne & Hv & Hlz).
  assert (length l <= k)%nat as Hl.
  { destruct Hlz as [-> | Hlz]; [cbn; lia|].
    pose proof (Radix.no_leading_zero_lower 10 ltac:(lia) l Hok Hlz Hne) as Hlow.
    destruct (Nat.le_gt_cases (length l) k) as [|Hgt]; [done|]. exfalso.
    assert (10 ^ Z.of_nat k <= 10 ^ (Z.of_nat (length l) - 1)) by (apply Z.pow_le_mono_r; lia). lia. }
  set (l' := replicate (k - length l) 0 ++ l).
  assert (length l' = k) as Hl' by (unfold l'; rewrite length_app, length_replicate; lia).
  assert (Radix.digits_ok 10 l') as Hok'.
  { apply Forall_app; split; [|done]. apply Forall_replicate. lia. }
  assert (Radix.of_digits 10 l' = n) as Hv'.
  { unfold l'. by rewrite Radix.of_digits_replicate_0 by lia. }
  pose proof (Radix.fixed_of_digits 10 ltac:(lia) l' Hok') as E. rewrite Hv', Hl' in E. rewrite E.
  unfold padStart, l'. rewrite length_fmap, fmap_app, fmap_replicate. done.
Qed.

(** A fixed-width digit string and its value determine each other. *)
Lemma nanosText_spec n : 0 <= n < 10 ^ 9 ->
  length (nanosText n) = 9%nat /\ Forall (fun c => is_digit c = true) (nanosText n) /\
  Number_digits (nanosText n) = n.
Proof.
  intros Hn. unfold nanosText. rewrite padStart_fixed by (lia || exact Hn). split_and!.
  - by rewrite length_fmap, Radix.length_fixed_digits.
  - apply forallb_Forall, dec_chars_digits. by apply Radix.fixed_digits_ok.
  - unfold Number_digits. rewrite dec_val_dec_chars, Radix.of_fixed_digits by lia. by apply Z.mod_small.
Qed.

Lemma digit_text s : Forall (fun c => is_digit c = true) s ->
  exists l, s = dec_char <$> l /\ Radix.digits_ok 10 l /\ dec_val <$> s = l.
Proof.
  intros H. exists (dec_val <$> s). split_and!; [|apply Forall_fmap; eapply Forall_impl; [exact H|]|done].
  - rewrite <- list_fmap_compose. rewrite <- (list_fmap_id s) at 1. apply list_fmap_ext.
    intros i x _. unfold compose, dec_char, dec_val. cbn. lia.
  - intros c Hc. cbn. revert Hc. clear. char_solve.
Qed.

Lemma nanosText_unique s : length s = 9%nat -> Forall (fun c => is_digit c = true) s ->
  0 <= Number_digits s < 10 ^ 9 /\ nanosText (Number_digits s) = s.
Proof.
  intros Hl Hd. destruct (digit_text s Hd) as (l & -> & Hok & E). rewrite length_fmap in Hl.
  unfold Number_digits. rewrite E. pose proof (Radix.of_digits_bound 10 ltac:(lia) l Hok) as Hb.
  rewrite Hl in Hb. split; [exact Hb|]. unfold nanosText. rewrite padStart_fixed by (lia || exact Hb).
  f_equal. rewrite <- Hl. by apply Radix.fixed_of_digits.
Qed.

(** ** Timestamps *)

Definition valid_timestamp (t : HederaTimestamp) : Prop :=
  0 <= seconds t /\ 0 <= nanos t < NANOS_PER_SECOND.
Definition timestampText (t : HederaTimestamp) : jsstring :=
  toString10 (seconds t) ++ js "." ++ nanosText (nanos t).

Lemma assertValidTimestamp_ok t u : assertValidTimestamp t = Ok u <-> valid_timestamp t.
Proof.
  unfold assertValidTimestamp, valid_timestamp. split.
  - intros H. res_inv H. bool_prop. lia.
  - intros [H1 H2]. zcmp. by destruct u.
Qed.

Lemma formatTimestamp_ok t s : formatHederaTimestamp t = Ok s <-> valid_timestamp t /\ s = timestampText t.
Proof.
  unfold formatHederaTimestamp. split.
  - intros H. apply bind_ok in H as (? & H & [= <-]). by apply assertValidTimestamp_ok in H.
  - intros [H ->]. by rewrite (proj2 (assertValidTimestamp_ok t tt) H).
Qed.

Lemma parseTimestamp_ok v t : parseHederaTimestamp v = Ok t <-> valid_timestamp t /\ v = timestampText t.
Proof.
  unfold parseHederaTimestamp. split.
  - intros H. apply bind_ok in H as ([a n] & Hre & H). apply require_ok in Hre.
    unfold HEDERA_TIMESTAMP_REGEX in Hre. scan_inv Hre. apply re_dec_sound in Sc as (z & Hz & -> & ->).
    apply re_lit_sound in Sc0 as ->. apply re_count_sound in Sc1 as (-> & Hl & Hd).
    apply re_end_sound in Sc2 as ->. rewrite BigInt_toString10 in H by done. res_inv H.
    destruct (nanosText_unique n Hl Hd) as [Hr Hn]. rewrite app_nil_r. split; [done|].
    unfold timestampText. cbn [seconds nanos]. by rewrite Hn.
  - intros ([Hs Hn] & ->). unfold timestampText, HEDERA_TIMESTAMP_REGEX.
    destruct (nanosText_spec (nanos t) Hn) as (Hl & Hd & Hv).
    rewrite re_dec_toString10 by (done || by apply no_digit_cons). cbn [mbind option_bind].
    rewrite re_lit_complete. cbn [mbind option_bind]. rewrite <- (app_nil_r (nanosText _)).
    rewrite re_count_complete by done. cbn [mbind option_bind]. rewrite re_end_nil.
    cbn [mbind option_bind require result_bind]. rewrite BigInt_toString10 by done. cbn [mbind result_bind]. rewrite Hv. by destruct t.
Qed.

(** ** Transaction ids *)

Record valid_tx (t : HederaTransactionId) : Prop := {
  vt_payer : valid_id (payer t);
  vt_start : valid_timestamp (validStart t);
  vt_nonce : 0 <= tx_nonce t <= HEDERA_MAX_NONCE;
}.

Definition txText (t : HederaTransactionId) : jsstring :=
  formatHederaEntityId (payer t) ++ js "@" ++ timestampText (validStart t) ++
  (if scheduled t then js "?scheduled" else []) ++
  (if tx_nonce t =? 0 then [] else js "/" ++ toString10 (tx_nonce t)).

Lemma assertValidNonce_ok n u : assertValidNonce n = Ok u <-> 0 <= n <= HEDERA_MAX_NONCE.
Proof.
  unfold assertValidNonce. split.
  - intros H. res_inv H. bool_prop. lia.
  - intros H. zcmp. by destruct u.
Qed.

Lemma formatTx_ok t : valid_tx t -> formatHederaTransactionId t = Ok (txText t).
Proof.
  intros [Hp Hs Hn]. unfold formatHederaTransactionId. rewrite (proj2 (assertValidNonce_ok _ tt) Hn).
  cbn [mbind result_bind]. rewrite (proj2 (formatTimestamp_ok _ (timestampText (validStart t)))) by done.
  done.
Qed.

(** What follows a payer must not continue it. *)
Definition no_checksum (s : jsstring) : Prop :=
  (t ← re_lit (js "-") s; re_count 5 is_lower_letter t) = None.

Lemma re_payer_format id s : valid_id id -> no_digit s -> no_checksum s ->
  re_payer (formatHederaEntityId id ++ s) = Some (formatHederaEntityId id, s).
Proof.
  intros [[Ha _] [Hb _] [Hc _]] Hd Hk. unfold re_payer, formatHederaEntityId. rewrite <- !app_assoc.
  destruct (digits_of_toString10 _ Ha), (digits_of_toString10 _ Hb), (digits_of_toString10 _ Hc).
  rewrite re_digits1_complete by (done || by apply no_digit_cons). cbn [mbind option_bind].
  rewrite re_lit_complete. cbn [mbind option_bind].
  rewrite re_digits1_complete by (done || by apply no_digit_cons). cbn [mbind option_bind].
  rewrite re_lit_complete. cbn [mbind option_bind].
  rewrite re_digits1_complete by done. cbn [mbind option_bind].
  unfold no_checksum in Hk. cbn [mbind option_bind] in Hk. rewrite Hk. done.
Qed.

Lemma Number_digits_toString10 n : 0 <= n -> Number_digits (toString10 n) = n.
Proof.
  intros Hn. destruct (toString10_nonneg n Hn) as (l & -> & _ & _ & Hv & _).
  unfold Number_digits. by rewrite dec_val_dec_chars.
Qed.

(** The tail after the nanoseconds. *)
Definition tailText (sched : bool) (n : Z) : jsstring :=
  (if sched then js "?scheduled" else []) ++ (if n =? 0 then [] else js "/" ++ toString10 n).

Lemma tail_scan sched n : 0 <= n ->
  (match re_lit (js "?scheduled") (tailText sched n) with
   | Some s' => (true, s') | None => (false, tailText sched n) end)
  = (sched, if n =? 0 then [] else js "/" ++ toString10 n) /\
  re_nonce_end (if n =? 0 then [] else js "/" ++ toString10 n) = Some (if n =? 0 then None else Some (toString10 n)).
Proof.
  intros Hn. split.
  - unfold tailText. destruct sched; [by rewrite re_lit_complete|]. cbn [app].
    by destruct (n =? 0).
  - unfold re_nonce_end. destruct (n =? 0) eqn:E; [done|].
    rewrite bool_decide_false by done. rewrite re_lit_complete. cbn [mbind option_bind].
    rewrite <- (app_nil_r (toString10 n)) at 1. rewrite re_dec_toString10 by auto with relay.
    cbn [mbind option_bind]. done.
Qed.

Lemma native_regex t : valid_tx t ->
  HEDERA_TRANSACTION_ID_REGEX (txText t) =
  Some (formatHederaEntityId (payer t), timestampText (validStart t), scheduled t,
        if tx_nonce t =? 0 then None else Some (toString10 (tx_nonce t))).
Proof.
  intros [Hp [Hs Hns] [Hn _]]. unfold txText, HEDERA_TRANSACTION_ID_REGEX, timestampText.
  fold (tailText (scheduled t) (tx_nonce t)). destruct (tail_scan (scheduled t) (tx_nonce t) Hn) as [E1 E2].
  destruct (nanosText_spec _ Hns) as (Hl & Hd & _). destruct (digits_of_toString10 _ Hs).
  rewrite re_payer_format by (done || by apply no_digit_cons). cbn [mbind option_bind].
  rewrite re_lit_complete. cbn [mbind option_bind]. rewrite <- !app_assoc.
  rewrite re_digits1_complete by (done || by apply no_digit_cons). cbn [mbind option_bind].
  rewrite re_lit_complete. cbn [mbind option_bind]. rewrite re_count_complete by done.
  cbn [mbind option_bind]. rewrite E1, E2. done.
Qed.

Lemma parseTx_format t network : valid_tx t -> parseHederaTransactionId (txText t) network = Ok t.
Proof.
  intros Hv. pose proof Hv as [Hp Hs [Hn Hm]]. unfold parseHederaTransactionId. rewrite native_regex by done.
  rewrite (proj2 (parse_spelling _ network (payer t))) by (split; [done|by left]). cbn [mbind result_bind].
  rewrite (proj2 (parseTimestamp_ok _ (validStart t))) by done. cbn [mbind result_bind].
  destruct (Z.eqb_spec (tx_nonce t) 0) as [E|E].
  - cbn [mbind result_bind]. destruct t. cbn in *. by subst.
  - unfold parseNonce. rewrite Number_digits_toString10 by done. zcmp. by destruct t.
Qed.

Lemma re_nonce_end_sound s k : re_nonce_end s = Some k ->
  k = None \/ exists n, 0 <= n /\ k = Some (toString10 n).
Proof.
  unfold re_nonce_end. case_bool_decide; [intros [= <-]; by left|]. intros H0. scan_inv H0.
  apply re_dec_sound in Sc0 as (n & Hn & -> & _). right. eauto.
Qed.

Lemma parseTx_valid v network t : parseHederaTransactionId v network = Ok t -> valid_tx t.
Proof.
  unfold parseHederaTransactionId. intros H.
  destruct (HEDERA_TRANSACTION_ID_REGEX v) as [[[[p st] sc] n]|] eqn:E.
  - assert (n = None \/ exists m, 0 <= m /\ n = Some (toString10 m)) as Hn.
    { unfold HEDERA_TRANSACTION_ID_REGEX in E. scan_inv E. destruct (match re_lit _ _ with Some _ => _ | None => _ end).
      scan_inv E. eapply re_nonce_end_sound. eassumption. }
    res_inv H. apply parse_spelling in Hs as [? _]. apply parseTimestamp_ok in Hs0 as [? _].
    constructor; try done. cbn [tx_nonce]. destruct Hn as [-> | (m & Hm & ->)].
    + injection Hs1 as <-. done.
    + unfold parseNonce in Hs1. rewrite Number_digits_toString10 in Hs1 by done. res_inv Hs1. bool_prop. lia.
  - destruct (HEDERA_MIRROR_NODE_TRANSACTION_ID_REGEX v) as [[[p s] n]|]; [|done]. res_inv H.
    apply parse_spelling in Hs as [? _]. apply parseTimestamp_ok in Hs0 as [? _]. by constructor.
Qed.

Lemma mirror_no_checksum sec r : Forall (fun c => is_digit c = true) sec -> sec <> [] ->
  no_checksum (js "-" ++ sec ++ r).
Proof.
  intros Hd Hne. unfold no_checksum. rewrite re_lit_complete. cbn [mbind option_bind].
  destruct sec as [|c sec]; [done|]. apply Forall_cons_1 in Hd as [Hc _]. unfold re_count.
  cbn [app]. destruct (5 <=? length _)%nat; [|done]. cbn [take forallb andb].
  assert (is_lower_letter c = false) as -> by (revert Hc; clear; char_solve). done.
Qed.

Definition mirrorText (t : HederaTransactionId) : jsstring :=
  formatHederaEntityId (payer t) ++ js "-" ++ toString10 (seconds (validStart t)) ++
  js "-" ++ nanosText (nanos (validStart t)).

Lemma parseTx_mirror t network : valid_id (payer t) -> valid_timestamp (validStart t) ->
  parseHederaTransactionId (mirrorText t) network =
  Ok {| payer := payer t; validStart := validStart t; scheduled := false; tx_nonce := 0 |}.
Proof.
  intros Hp Hst. pose proof Hst as [Hs Hns]. destruct (digits_of_toString10 _ Hs) as [Hd Hne].
  destruct (nanosText_spec _ Hns) as (Hl & Hdn & _).
  assert (re_payer (mirrorText t) = Some (formatHederaEntityId (payer t),
    js "-" ++ toString10 (seconds (validStart t)) ++ js "-" ++ nanosText (nanos (validStart t)))) as Hpay.
  { apply re_payer_format; [done|by apply no_digit_cons|by apply mirror_no_checksum]. }
  unfold parseHederaTransactionId, HEDERA_TRANSACTION_ID_REGEX, HEDERA_MIRROR_NODE_TRANSACTION_ID_REGEX.
  rewrite Hpay. cbn [mbind option_bind]. change (re_lit (js "@") (js "-" ++ _)) with (@None jsstring).
  cbn [mbind option_bind]. rewrite re_lit_complete. cbn [mbind option_bind].
  rewrite re_digits1_complete by (done || by apply no_digit_cons). cbn [mbind option_bind].
  rewrite re_lit_complete. cbn [mbind option_bind]. rewrite <- (app_nil_r (nanosText _)).
  rewrite re_count_complete by done. cbn [mbind option_bind]. rewrite re_end_nil. cbn [mbind option_bind].
  rewrite (proj2 (parse_spelling _ network (payer t))) by (split; [done|by left]). cbn [mbind result_bind].
  fold (timestampText (validStart t)). by rewrite (proj2 (parseTimestamp_ok _ (validStart t))).
Qed.

(** ** Base64 *)

Definition base64_char (v : Z) : Z :=
  if v <? 26 then v + 65 else if v <? 52 then v + 71 else if v <? 62 then v - 4
  else if v =? 62 then 43 else 47.

(** RFC 4648 encoding of whole groups of three bytes. *)
Fixpoint base64_encode (l : bytes) : jsstring :=
  match l with
  | x :: y :: z :: r =>
      base64_char (bz x / 4) :: base64_char (bz x mod 4 * 16 + bz y / 16) ::
      base64_char (bz y mod 16 * 4 + bz z / 64) :: base64_char (bz z mod 64) :: base64_encode r
  | _ => []
  end.

Lemma base64_val_char v : 0 <= v < 64 -> base64_val (base64_char v) = v /\ is_base64 (base64_char v) = true.
Proof.
  intros Hv.
  assert (forallb (fun n => (base64_val (base64_char (Z.of_nat n)) =? Z.of_nat n) &&
    is_base64 (base64_char (Z.of_nat n))) (seq 0 64) = true) as H by (vm_compute; reflexivity).
  rewrite forallb_Forall, Forall_forall in H. specialize (H (Z.to_nat v) ltac:(apply elem_of_seq; lia)).
  rewrite Z2Nat.id in H by lia. bool_prop. done.
Qed.

Lemma base64_char_val c : is_base64 c = true -> 0 <= base64_val c < 64 /\ base64_char (base64_val c) = c.
Proof.
  intros H. unfold is_base64, base64_val, base64_char, in_range in *.
  destruct (Z.eqb_spec c 43), (Z.eqb_spec c 47); subst; try done.
  repeat match goal with |- context [Z.leb ?a ?b] => destruct (Z.leb_spec a b); cbn [andb orb] in * end;
    zcmp; try lia; cbn in *; repeat case_match; try lia; try done.
Qed.

Lemma base64_group x y z :
  let a := bz x / 4 in let b := bz x mod 4 * 16 + bz y / 16 in
  let c := bz y mod 16 * 4 + bz z / 64 in let d := bz z mod 64 in
  (0 <= a < 64 /\ 0 <= b < 64 /\ 0 <= c < 64 /\ 0 <= d < 64) /\
  a * 4 + b / 16 = bz x /\ b mod 16 * 16 + c / 4 = bz y /\ c mod 4 * 64 + d = bz z.
Proof.
  cbv zeta. pose proof (bz_range x). pose proof (bz_range y). pose proof (bz_range z).
  assert (0 <= bz x / 4 < 64 /\ bz x = 4 * (bz x / 4) + bz x mod 4 /\ 0 <= bz x mod 4 < 4) by divmod_lia.
  assert (0 <= bz y / 16 < 16 /\ bz y = 16 * (bz y / 16) + bz y mod 16 /\ 0 <= bz y mod 16 < 16) by divmod_lia.
  assert (0 <= bz z / 64 < 4 /\ bz z = 64 * (bz z / 64) + bz z mod 64 /\ 0 <= bz z mod 64 < 64) by divmod_lia.
  Z.div_mod_to_equations. lia.
Qed.

Lemma base64_decode_encode k l : length l = (3 * k)%nat ->
  base64_decode (base64_encode l) = l /\ length (base64_encode l) = (4 * k)%nat /\
  Forall (fun c => is_base64 c = true) (base64_encode l).
Proof.
  revert l; induction k as [|k IH]; intros l Hl; [by destruct l|].
  destruct l as [|x [|y [|z r]]]; cbn in Hl; try lia. destruct (IH r ltac:(lia)) as (E & L & F).
  destruct (base64_group x y z) as ((Ha & Hb & Hc & Hd) & E1 & E2 & E3).
  destruct (base64_val_char _ Ha) as [V1 B1], (base64_val_char _ Hb) as [V2 B2],
    (base64_val_char _ Hc) as [V3 B3], (base64_val_char _ Hd) as [V4 B4].
  cbn [base64_encode base64_decode length]. rewrite V1, V2, V3, V4, E1, E2, E3, !u8_bz, E.
  split_and!; [done|lia|by repeat constructor].
Qed.

Lemma base64_encode_decode k s : length s = (4 * k)%nat -> Forall (fun c => is_base64 c = true) s ->
  base64_encode (base64_decode s) = s /\ length (base64_decode s) = (3 * k)%nat.
Proof.
  revert s; induction k as [|k IH]; intros s Hs HF; [by destruct s|].
  destruct s as [|a [|b [|c [|d r]]]]; cbn in Hs; try lia.
  do 4 (apply Forall_cons_1 in HF as [? HF]). destruct (IH r ltac:(lia) HF) as [E L].
  repeat match goal with H : is_base64 _ = true |- _ => apply base64_char_val in H as [? ?] end.
  cbn [base64_decode base64_encode length]. rewrite E, L. split; [|lia].
  set (va := base64_val a) in *. set (vb := base64_val b) in *.
  set (vc := base64_val c) in *. set (vd := base64_val d) in *.
  assert (0 <= vb / 16 < 4 /\ vb = 16 * (vb / 16) + vb mod 16 /\ 0 <= vb mod 16 < 16) by divmod_lia.
  assert (0 <= vc / 4 < 16 /\ vc = 4 * (vc / 4) + vc mod 4 /\ 0 <= vc mod 4 < 4) by divmod_lia.
  rewrite !bz_u8_small by lia.
  replace ((va * 4 + vb / 16) / 4) with va by divmod_lia.
  replace ((va * 4 + vb / 16) mod 4 * 16 + (vb mod 16 * 16 + vc / 4) / 16) with vb by divmod_lia.
  replace ((vb mod 16 * 16 + vc / 4) mod 16 * 4 + (vc mod 4 * 64 + vd) / 64) with vc by divmod_lia.
  replace ((vc mod 4 * 64 + vd) mod 64) with vd by divmod_lia. congruence.
Qed.

(** ** Hashes *)

Section HashLemmas.
Context `{V : Viem, !ViemLaws V}.

(** The three spellings of a 48-byte hash. *)
Definition hash_spelling (b : bytes) (v : jsstring) : Prop :=
  length b = 48%nat /\
  (toLowerCase v = bytesToHex b \/ (exists m, v = js "0x" ++ m /\ toLowerCase m = bytesToHex b) \/
   v = base64_encode b).

Lemma hex_regex_sound v m : HEDERA_TRANSACTION_HASH_HEX_REGEX v = Some m ->
  length m = 96%nat /\ Forall (fun c => is_hex_digit c = true) m /\ (v = m \/ v = js "0x" ++ m).
Proof using.
  unfold HEDERA_TRANSACTION_HASH_HEX_REGEX. intros H. scan_inv H. apply re_count_sound in Sc as (E & Hl & Hh).
  apply re_end_sound in Sc0 as ->. rewrite app_nil_r in E. split_and!; try done.
  destruct (re_lit (js "0x") v) eqn:L; cbn in E; subst; [|by left].
  apply re_lit_sound in L as ->. by right.
Qed.

Lemma hex_regex_complete m : length m = 96%nat -> Forall (fun c => is_hex_digit c = true) m ->
  HEDERA_TRANSACTION_HASH_HEX_REGEX (js "0x" ++ m) = Some m /\ HEDERA_TRANSACTION_HASH_HEX_REGEX m = Some m.
Proof using.
  intros Hl Hh. unfold HEDERA_TRANSACTION_HASH_HEX_REGEX. rewrite re_lit_complete.
  assert (re_lit (js "0x") m = None) as ->.
  { destruct (re_lit (js "0x") m) eqn:E; [|done]. apply re_lit_sound in E as ->.
    apply Forall_app in Hh as [Hh _]. apply Forall_cons_1 in Hh as [_ Hh].
    apply Forall_cons_1 in Hh as [Hh _]. discriminate Hh. }
  assert (re_count 96 is_hex_digit m = Some (m, [])) as E.
  { rewrite <- (app_nil_r m) at 1. by apply re_count_complete. }
  cbn [default]. unfold id. rewrite E. done.
Qed.

Lemma lower_hex_chars m b : toLowerCase m = bytesToHex b -> Forall (fun c => is_hex_digit c = true) m.
Proof using.
  intros E. pose proof (bytesToHex_hex b) as H. rewrite <- E in H. unfold toLowerCase in H.
  rewrite Forall_fmap in H. eapply Forall_impl; [exact H|]. intros c [Hc _]. by rewrite <- is_hex_lower_inv.
Qed.

Lemma parseHash_spelling v h :
  parseHederaTransactionHash v = Ok h <-> exists b, hash_spelling b v /\ h = js "0x" ++ bytesToHex b.
Proof.
  unfold parseHederaTransactionHash. split.
  - destruct (HEDERA_TRANSACTION_HASH_HEX_REGEX v) as [m|] eqn:E.
    + intros [= <-]. apply hex_regex_sound in E as (Hl & Hh & Hv).
      destruct (lower_hex_bytes m) as (b & Eb & Hb); [by rewrite Hl|done|]. exists b. rewrite <- Eb.
      split; [|done]. split; [lia|]. destruct Hv as [-> | ->]; [by left|right; left; eauto].
    + unfold HEDERA_TRANSACTION_HASH_BASE64_REGEX. intros H.
      destruct (Nat.eqb_spec (length v) 64) as [Hl|]; [|done].
      destruct (forallb is_base64 v) eqn:Hf; [|done]. apply forallb_Forall in Hf.
      destruct (base64_encode_decode 16 v Hl Hf) as [E64 L]. rewrite L in H. cbn in H.
      injection H as <-. exists (base64_decode v). rewrite viem_print. split; [|done].
      split; [done|]. right; right. done.
  - intros (b & (Hl & Hv) & ->). destruct Hv as [Hv|[(m & -> & Hm)| ->]].
    + destruct (hex_regex_complete v) as [_ ->]; [|by eapply lower_hex_chars|by rewrite Hv].
      apply (f_equal length) in Hv. unfold toLowerCase in Hv. rewrite length_fmap, length_bytesToHex in Hv. lia.
    + destruct (hex_regex_complete m) as [-> _]; [|by eapply lower_hex_chars|by rewrite Hm].
      apply (f_equal length) in Hm. unfold toLowerCase in Hm. rewrite length_fmap, length_bytesToHex in Hm. lia.
    + destruct (base64_decode_encode 16 b Hl) as (Ed & L & F).
      destruct (HEDERA_TRANSACTION_HASH_HEX_REGEX (base64_encode b)) as [m|] eqn:E.
      { apply hex_regex_sound in E as (Hm & _ & [E|E]); apply (f_equal length) in E; rewrite ?length_app in E;
          cbn in E; lia. }
      unfold HEDERA_TRANSACTION_HASH_BASE64_REGEX. rewrite L, (proj2 (forallb_Forall _ _) F), Ed, Hl.
      cbn. by rewrite viem_print.
Qed.
End HashLemmas.

(** ** Properties *)

(** Timestamps have one spelling: a string parses to a timestamp exactly when
    formatting that timestamp gives the string back, so a shortened or padded
    fraction is never accepted. *)
Theorem timestamp_canonical v t :
  parseHederaTimestamp v = Ok t <-> formatHederaTimestamp t = Ok v.
Proof. by rewrite parseTimestamp_ok, formatTimestamp_ok. Qed.

(** Transaction ids round-trip: the native form of a valid id parses back to
    it with its scheduled flag and nonce, and the mirror-node form parses back to
    its payer and valid start, the flag and nonce travelling beside it. *)
Theorem transaction_id_roundtrip t network :
  valid_tx t ->
  (exists s, formatHederaTransactionId t = Ok s /\ parseHederaTransactionId s network = Ok t) /\
  (exists m u, toHederaMirrorNodeTransactionId t = Ok m /\
     parseHederaTransactionId (mn_id m) network = Ok u /\
     t = {| payer := payer u; validStart := validStart u;
            scheduled := mn_scheduled m; tx_nonce := mn_nonce m |}).
Proof.
  intros Hv. split.
  - exists (txText t). split; [by apply formatTx_ok|by apply parseTx_format].
  - pose proof Hv as [Hp Hs Hn]. unfold toHederaMirrorNodeTransactionId.
    rewrite (proj2 (assertValidNonce_ok _ tt) Hn), (proj2 (assertValidTimestamp_ok _ tt) Hs).
    eexists _, _. split; [reflexivity|]. split; [by apply parseTx_mirror|]. by destruct t.
Qed.

(** A transaction id that parses, in either form, is valid, so it can be
    formatted, and formatting is the canonical spelling of what was parsed. *)
Theorem parsed_transaction_id_valid v network t :
  parseHederaTransactionId v network = Ok t ->
  valid_tx t /\ exists s, formatHederaTransactionId t = Ok s /\ parseHederaTransactionId s network = Ok t.
Proof.
  intros H. apply parseTx_valid in H. split; [done|]. exists (txText t).
  split; [by apply formatTx_ok|by apply parseTx_format].
Qed.

Section ReferenceProperties.
Context `{V : Viem, !ViemLaws V}.

(** Transaction hashes are identified by their 48 bytes: the parser accepts
    exactly the hex (either case, optional prefix) and base64 spellings of 48
    bytes, and maps all of them to the lower-case 0x form. *)
Theorem transaction_hash_spellings v h :
  parseHederaTransactionHash v = Ok h <-> exists b, hash_spelling b v /\ h = js "0x" ++ bytesToHex b.
Proof. apply parseHash_spelling. Qed.

(** Normalizing a transaction reference is idempotent: a normalized reference
    is its own normal form, whatever network is supplied. *)
Theorem normalize_reference_idempotent r r' n1 n2 :
  normalizeHederaTransactionReference r n1 = Ok r' -> normalizeHederaTransactionReference r' n2 = Ok r'.
Proof.
  unfold normalizeHederaTransactionReference. intros H.
  apply bind_ok in H as (t & Ht & H). apply bind_ok in H as (id & Hid & H).
  apply bind_ok in H as (hash & Hh & H). apply bind_ok in H as (ts & Hts & [= <-]).
  cbn [transactionId transactionHash consensusTimestamp].
  apply parseTx_valid in Ht. rewrite formatTx_ok in Hid by done. injection Hid as <-.
  rewrite parseTx_format by done. cbn [mbind result_bind]. rewrite formatTx_ok by done. cbn [mbind result_bind].
  assert (optionally parseHederaTransactionHash hash = Ok hash) as ->.
  { destruct (transactionHash r) as [h0|]; cbn [optionally] in Hh; [|by injection Hh as <-].
    res_inv Hh. apply parseHash_spelling in Hs as (b & [Hl _] & ->). cbn [optionally].
    rewrite (proj2 (parseHash_spelling _ (js "0x" ++ bytesToHex b))); [done|].
    exists b. split; [|done]. split; [done|]. right; left. eexists. split; [done|apply toLowerCase_bytesToHex]. }
  cbn [mbind result_bind].
  destruct (consensusTimestamp r) as [v|]; cbn [optionally] in Hts; [|by injection Hts as <-].
  res_inv Hts. cbn [optionally]. apply formatTimestamp_ok in Hs as [Hv ->].
  rewrite (proj2 (parseTimestamp_ok _ _) (conj Hv eq_refl)). cbn [mbind result_bind].
  by rewrite (proj2 (formatTimestamp_ok _ _) (conj Hv eq_refl)).
Qed.
End ReferenceProperties.

Definition sample_tx_id : HederaTransactionId := {|
  payer := {| shard := 0; realm := 0; num := 1234 |};
  validStart := {| seconds := 1616167056; nanos := 535000 |};
  scheduled := true;
  tx_nonce := 3;
|}.

Lemma transaction_id_roundtrip_witness :
  (exists s, formatHederaTransactionId sample_tx_id = Ok s /\ parseHederaTransactionId s None = Ok sample_tx_id) /\
  (exists m u, toHederaMirrorNodeTransactionId sample_tx_id = Ok m /\
     parseHederaTransactionId (mn_id m) None = Ok u /\
     sample_tx_id = {| payer := payer u; validStart := validStart u;
            scheduled := mn_scheduled m; tx_nonce := mn_nonce m |}).
Proof. apply (transaction_id_roundtrip sample_tx_id None). by repeat constructor. Defined.

Lemma parsed_transaction_id_valid_witness :
  exists t, parseHederaTransactionId (js "0.0.19789-1618591023-997420021") None = Ok t /\
  (valid_tx t /\ exists s, formatHederaTransactionId t = Ok s /\ parseHederaTransactionId s None = Ok t).
Proof.
  eexists. split; [vm_compute; reflexivity|].
  apply (parsed_transaction_id_valid (js "0.0.19789-1618591023-997420021")). vm_compute. reflexivity.
Defined.

Section Witnesses.
#[local] Existing Instance concrete_viem.
#[local] Existing Instance concrete_viem_laws.

Definition sample_reference : HederaTransactionReference := {|
  transactionId := js "0.0.19789-eaizs-1618591023-997420021";
  transactionHash := Some (base64_encode (replicate 48 xfb));
  consensusTimestamp := Some (js "1618591023.000000001");
|}.

Lemma normalize_reference_idempotent_witness :
  exists r', normalizeHederaTransactionReference sample_reference (Some (js "mainnet")) = Ok r' /\
             normalizeHederaTransactionReference r' None = Ok r'.
Proof.
  eexists. split; [vm_compute; reflexivity|].
  eapply (normalize_reference_idempotent sample_reference _ (Some (js "mainnet"))). vm_compute. reflexivity.
Defined.

Lemma transaction_hash_spellings_witness :
  exists b, hash_spelling b (base64_encode (replicate 48 xfb)) /\
    js "0x" ++ bytesToHex (replicate 48 xfb) = js "0x" ++ bytesToHex b.
Proof.
  apply (transaction_hash_spellings (base64_encode (replicate 48 xfb)) (js "0x" ++ bytesToHex (replicate 48 xfb))).
  vm_compute. reflexivity.
Defined.
End Witnesses.
