(* ===== verification/TonCell.v ===== *)
(** * TON cells

    packages/lit-deposit-address/src/common/ton/cell.ts, first half: the
    [Builder] methods, the [Cell] constructor, its byte form, depth and
    representation hash.  SHA-256 is a parameter; the memo fields of [Cell]
    are not state a caller can observe and are left out.  [load_*] are
    reference readers for what the builder writes. *)

From Stdlib Require Import Strings.Byte.
From S2P Require Import Prelude JsNum JsString.
Local Open Scope Z_scope.
Local Open Scope js_scope.

Definition MAX_CELL_BITS : nat := 1023.
Definition MAX_CELL_REFS : nat := 4.

Inductive Cell := mkCell (cell_bits : list bool) (cell_refs : list Cell).
Definition bits_of (c : Cell) : list bool := let '(mkCell b _) := c in b.
Definition refs_of (c : Cell) : list Cell := let '(mkCell _ r) := c in r.

Record Builder := { b_bits : list bool; b_refs : list Cell }.

Definition beginCell : Builder := {| b_bits := []; b_refs := [] |}.

Definition push_bits (b : Builder) (l : list bool) : Builder :=
  {| b_bits := b_bits b ++ l; b_refs := b_refs b |}.

Definition availableBits (b : Builder) : Z := Z.of_nat MAX_CELL_BITS - Z.of_nat (length (b_bits b)).

Definition storeBit (b : Builder) (value : bool) : Builder := push_bits b [value].

(** The bits [(v >> i) & 1] for [i] from [n - 1] down to [0]. *)
Fixpoint bits_be (n : nat) (v : Z) : list bool :=
  match n with
  | O => []
  | S i => (Z.land (Z.shiftr v (Z.of_nat i)) 1 =? 1) :: bits_be i v
  end.

Definition storeUint (b : Builder) (v n : Z) : result Builder :=
  fail_if v <? 0 with "storeUint requires a non-negative value" ;;
  fail_if (n <? 0) || (Z.shiftl 1 n <=? v) with "value does not fit in bits" ;;
  Ok (push_bits b (bits_be (Z.to_nat n) v)).

Definition storeInt (b : Builder) (value n : Z) : result Builder :=
  let limit := Z.shiftl 1 (n - 1) in
  fail_if (value <? - limit) || (limit <=? value) with "value does not fit in signed bits" ;;
  let v := if value <? 0 then value + Z.shiftl 1 n else value in
  storeUint b v n.

Definition buffer_bits (l : bytes) : list bool := mjoin ((fun x => bits_be 8 (bz x)) <$> l).
Definition storeBuffer (b : Builder) (l : bytes) : Builder := push_bits b (buffer_bits l).

(** [for (let t = v; t > 0n; t >>= 8n) byteLength++]. *)
Fixpoint byte_length_loop (fuel : nat) (t byteLength : Z) : Z :=
  match fuel with
  | O => byteLength
  | S f => if 0 <? t then byte_length_loop f (Z.shiftr t 8) (byteLength + 1) else byteLength
  end.

Definition storeCoins (b : Builder) (v : Z) : result Builder :=
  fail_if v <? 0 with "storeCoins requires a non-negative value" ;;
  if v =? 0 then storeUint b 0 4
  else
    let byteLength := byte_length_loop (Radix.loop_fuel v) v 0 in
    fail_if 15 <? byteLength with "coin amount exceeds VarUInteger16 range" ;;
    b ← storeUint b byteLength 4;
    storeUint b v (byteLength * 8).

Definition storeAddressInt (b : Builder) (workchain : Z) (hash : bytes) : result Builder :=
  fail_if negb (Nat.eqb (length hash) 32) with "address hash must be 32 bytes" ;;
  b ← storeUint b 2 2;
  b ← storeInt (storeBit b false) workchain 8;
  Ok (storeBuffer b hash).

Definition storeAddressNone (b : Builder) : result Builder := storeUint b 0 2.

Definition storeRef (b : Builder) (c : Cell) : result Builder :=
  fail_if Nat.leb MAX_CELL_REFS (length (b_refs b)) with "cell already has the maximum of 4 refs" ;;
  Ok {| b_bits := b_bits b; b_refs := b_refs b ++ [c] |}.

Definition storeMaybeRef (b : Builder) (c : option Cell) : result Builder :=
  match c with
  | Some c => storeRef (storeBit b true) c
  | None => Ok (storeBit b false)
  end.

Fixpoint store_refs (b : Builder) (refs : list Cell) : result Builder :=
  match refs with
  | [] => Ok b
  | r :: refs' => b ← storeRef b r; store_refs b refs'
  end.

Definition storeBuilder (b other : Builder) : result Builder :=
  store_refs (push_bits b (b_bits other)) (b_refs other).

(** [new Cell(bits, refs)]. *)
Definition newCell (bits : list bool) (refs : list Cell) : result Cell :=
  fail_if Nat.ltb MAX_CELL_BITS (length bits) with "cell exceeds 1023 bits" ;;
  fail_if Nat.ltb MAX_CELL_REFS (length refs) with "cell exceeds 4 refs" ;;
  Ok (mkCell bits refs).

Definition endCell (b : Builder) : result Cell := newCell (b_bits b) (b_refs b).

(** ** Byte form *)

(** The final [1] and zeros that fill the last byte. *)
Definition padded (bits : list bool) : list bool :=
  if Nat.eqb (length bits mod 8) 0 then bits
  else bits ++ [true] ++ replicate ((8 - (length bits + 1) mod 8) mod 8) false.

(** [for (i...) if (padded[i]) out[i >> 3] |= 1 << (7 - (i % 8))]. *)
Fixpoint or_loop (l : list bool) (i : nat) (out : bytes) : bytes :=
  match l with
  | [] => out
  | x :: l' =>
      or_loop l' (S i)
        (if x then alter (fun b => u8 (js_or (bz b) (js_shl 1 (7 - Z.of_nat (i mod 8))))) (i / 8)%nat out
         else out)
  end.

Definition data_length (bits : list bool) : nat := Z.to_nat (ceil_div (Z.of_nat (length bits)) 8).
Definition dataBytes (c : Cell) : bytes :=
  or_loop (padded (bits_of c)) 0 (zeros (data_length (bits_of c))).

Definition d1 (c : Cell) : Z := Z.of_nat (length (refs_of c)).
Definition d2 (c : Cell) : Z :=
  Z.of_nat (length (bits_of c)) / 8 + ceil_div (Z.of_nat (length (bits_of c))) 8.

Fixpoint depth (c : Cell) : Z :=
  match c with
  | mkCell _ refs => match refs with [] => 0 | _ => 1 + foldr Z.max 0 (depth <$> refs) end
  end.

Section Hash.
Context (sha256 : bytes -> bytes).

Definition depth_bytes (d : Z) : bytes := [u8 (js_and (js_shr d 8) 255); u8 (js_and d 255)].

Fixpoint hash (c : Cell) : bytes :=
  match c with
  | mkCell bits refs =>
      sha256 (u8 (d1 c) :: u8 (d2 c) :: dataBytes c ++
              mjoin ((fun r => depth_bytes (depth r)) <$> refs) ++ mjoin (hash <$> refs))
  end.
End Hash.

(** ** Reference readers *)

Definition bits_val (l : list bool) : Z := Radix.of_digits 2 (Z.b2z <$> l).

Definition load_uint (n : nat) (l : list bool) : option (Z * list bool) :=
  if Nat.leb n (length l) then Some (bits_val (take n l), drop n l) else None.

Definition load_int (n : nat) (l : list bool) : option (Z * list bool) :=
  '(v, r) ← load_uint n l;
  Some (if v <? 2 ^ (Z.of_nat n - 1) then v else v - 2 ^ Z.of_nat n, r).

Definition load_coins (l : list bool) : option (Z * list bool) :=
  '(n, r) ← load_uint 4 l; load_uint (Z.to_nat n * 8) r.

Fixpoint load_bytes (n : nat) (l : list bool) : option (bytes * list bool) :=
  match n with
  | O => Some ([], l)
  | S n' => '(v, r) ← load_uint 8 l; '(vs, r) ← load_bytes n' r; Some (u8 v :: vs, r)
  end.

(** ** Bit strings *)

Lemma length_bits_be n v : length (bits_be n v) = n.
Proof. induction n as [|n IH]; cbn; congruence. Qed.

Lemma bits_val_cons x l : bits_val (x :: l) = Z.b2z x * 2 ^ Z.of_nat (length l) + bits_val l.
Proof.
  unfold bits_val. cbn [fmap list_fmap]. rewrite Radix.of_digits_cons by lia. by rewrite length_fmap.
Qed.

Lemma bits_val_app l k : bits_val (l ++ k) = bits_val l * 2 ^ Z.of_nat (length k) + bits_val k.
Proof. unfold bits_val. rewrite fmap_app, Radix.of_digits_app, length_fmap by lia. done. Qed.

Lemma bits_val_bound l : 0 <= bits_val l < 2 ^ Z.of_nat (length l).
Proof.
  unfold bits_val. rewrite <- (length_fmap Z.b2z). apply Radix.of_digits_bound; [lia|].
  apply Forall_fmap, Forall_true. intros []; cbn; lia.
Qed.

Lemma bit_test v i : 0 <= i -> Z.b2z (Z.land (Z.shiftr v i) 1 =? 1) = v / 2 ^ i mod 2.
Proof.
  intros Hi. change 1 with (Z.ones 1) at 1. rewrite Z.land_ones, Z.shiftr_div_pow2 by lia.
  change (2 ^ 1) with 2. pose proof (Z.mod_pos_bound (v / 2 ^ i) 2 ltac:(lia)).
  destruct (Z.eqb_spec (v / 2 ^ i mod 2) 1); cbn; lia.
Qed.

Lemma bits_val_be n v : bits_val (bits_be n v) = v mod 2 ^ Z.of_nat n.
Proof.
  induction n as [|n IH]; [by rewrite Z.mod_1_r|]. cbn [bits_be].
  rewrite bits_val_cons, bit_test, IH, length_bits_be by lia.
  rewrite Nat2Z.inj_succ, Z.pow_succ_r, (Z.mul_comm 2) by lia.
  rewrite (Z.rem_mul_r v (2 ^ Z.of_nat n) 2) by (try apply Z.pow_nonzero; lia). lia.
Qed.

Lemma bits_val_inj l k : length l = length k -> bits_val l = bits_val k -> l = k.
Proof.
  revert k; induction l as [|x l IH]; intros [|y k] Hl E; try done. injection Hl as Hl.
  rewrite !bits_val_cons, Hl in E. pose proof (bits_val_bound l) as Bl. pose proof (bits_val_bound k) as Bk.
  rewrite Hl in Bl. destruct x, y; cbn [Z.b2z] in E; try lia; f_equal; apply IH; lia.
Qed.

Lemma bits_be_of_val l : bits_be (length l) (bits_val l) = l.
Proof.
  apply bits_val_inj; [apply length_bits_be|]. rewrite bits_val_be. apply Z.mod_small, bits_val_bound.
Qed.

Lemma load_uint_bits n v rest : 0 <= v < 2 ^ Z.of_nat n -> load_uint n (bits_be n v ++ rest) = Some (v, rest).
Proof.
  intros Hv. unfold load_uint. rewrite length_app, length_bits_be. zcmp.
  rewrite take_length_app, drop_length_app by (by rewrite length_bits_be).
  by rewrite bits_val_be, Z.mod_small.
Qed.

Lemma load_bytes_buffer l rest : load_bytes (length l) (buffer_bits l ++ rest) = Some (l, rest).
Proof.
  induction l as [|x l IH]; [done|]. cbn [length load_bytes].
  change (buffer_bits (x :: l)) with (bits_be 8 (bz x) ++ buffer_bits l). rewrite <- app_assoc.
  rewrite load_uint_bits by apply bz_range. cbn [mbind option_bind]. rewrite IH. cbn. by rewrite u8_bz.
Qed.

Lemma length_buffer_bits l : length (buffer_bits l) = (8 * length l)%nat.
Proof.
  induction l as [|x l IH]; [done|]. change (buffer_bits (x :: l)) with (bits_be 8 (bz x) ++ buffer_bits l).
  rewrite length_app, IH, length_bits_be. cbn [length]. lia.
Qed.

(** ** The builder *)

Lemma storeUint_ok b v n b' :
  storeUint b v n = Ok b' <->
  0 <= n /\ 0 <= v < 2 ^ n /\ b' = push_bits b (bits_be (Z.to_nat n) v).
Proof.
  unfold storeUint. split.
  - intros H. res_inv H. bool_prop. rewrite Z.shiftl_1_l in *. done.
  - intros (Hn & Hv & ->). rewrite Z.shiftl_1_l. zcmp. done.
Qed.

Lemma storeInt_ok b v n b' : 1 <= n ->
  storeInt b v n = Ok b' <->
  - 2 ^ (n - 1) <= v < 2 ^ (n - 1) /\ b' = push_bits b (bits_be (Z.to_nat n) (v mod 2 ^ n)).
Proof.
  intros Hn. unfold storeInt. rewrite !Z.shiftl_1_l.
  assert (2 ^ n = 2 * 2 ^ (n - 1)) as Hp.
  { rewrite <- Z.pow_succ_r by lia. f_equal. lia. }
  assert (0 < 2 ^ (n - 1)) by (apply Z.pow_pos_nonneg; lia).
  assert (- 2 ^ (n - 1) <= v < 2 ^ (n - 1) -> (if v <? 0 then v + 2 ^ n else v) = v mod 2 ^ n) as Hm.
  { intros Hv. destruct (Z.ltb_spec v 0); [|rewrite Z.mod_small; lia].
    apply Z.mod_unique with (-1); lia. }
  split.
  - intros H0. res_inv H0. bool_prop. rewrite Hm in H0 by lia. apply storeUint_ok in H0 as (_ & _ & ->).
    split; [lia|done].
  - intros [Hv ->]. zcmp. cbn [orb negb check mbind result_bind]. rewrite Hm by done.
    apply storeUint_ok. split_and!; [lia|apply Z.mod_pos_bound; lia|apply Z.mod_pos_bound; lia|done].
Qed.

(** The byte count of an amount. *)
Lemma byte_length_loop_spec fuel t k : 0 <= t < 2 ^ Z.of_nat fuel ->
  exists n, byte_length_loop fuel t k = k + n /\ 0 <= n /\ (t = 0 -> n = 0) /\
    (0 < t -> 1 <= n /\ 256 ^ (n - 1) <= t < 256 ^ n).
Proof.
  revert t k; induction fuel as [|f IH]; intros t k Ht.
  - exists 0. cbn in *. lia.
  - cbn [byte_length_loop]. destruct (Z.ltb_spec 0 t); [|exists 0; lia].
    rewrite Z.shiftr_div_pow2 by lia. change (2 ^ 8) with 256.
    rewrite Nat2Z.inj_succ, Z.pow_succ_r in Ht by lia.
    destruct (IH (t / 256) (k + 1)) as (n & -> & Hn & H0 & H1).
    { split; [apply Z.div_pos; lia|]. apply Z.div_lt_upper_bound; lia. }
    exists (n + 1). split_and!; try lia. intros _. split; [lia|].
    replace (n + 1 - 1) with n by lia. rewrite Z.pow_add_r, Z.pow_1_r by lia.
    assert (0 <= t / 256) by (apply Z.div_pos; lia).
    destruct (Z.eq_dec (t / 256) 0) as [E|E].
    + rewrite (H0 E). rewrite Z.pow_0_r. apply Z.div_small_iff in E; lia.
    + destruct (H1 ltac:(lia)) as [Hn1 [Hlo Hhi]].
      replace (256 ^ n) with (256 * 256 ^ (n - 1)) in *.
      2: { rewrite <- Z.pow_succ_r by lia. f_equal. lia. }
      pose proof (Z.div_mod t 256). pose proof (Z.mod_pos_bound t 256 ltac:(lia)). lia.
Qed.

(** The bits of a [VarUInteger 16]. *)
Definition coin_bits (v : Z) : list bool :=
  if v =? 0 then bits_be 4 0
  else let n := byte_length_loop (Radix.loop_fuel v) v 0 in
       bits_be 4 n ++ bits_be (Z.to_nat (n * 8)) v.

Lemma push_bits_app b l k : push_bits (push_bits b l) k = push_bits b (l ++ k).
Proof. unfold push_bits. cbn. by rewrite app_assoc. Qed.

Lemma coin_length v : 0 < v ->
  exists n, byte_length_loop (Radix.loop_fuel v) v 0 = n /\ 1 <= n /\ 256 ^ (n - 1) <= v < 256 ^ n.
Proof.
  intros Hv. destruct (byte_length_loop_spec (Radix.loop_fuel v) v 0) as (n & E & _ & _ & H).
  - split; [lia|]. apply Radix.loop_fuel_ok. lia.
  - exists n. split; [lia|]. by apply H.
Qed.

Lemma storeCoins_ok b v b' :
  storeCoins b v = Ok b' <-> 0 <= v < 2 ^ 120 /\ b' = push_bits b (coin_bits v).
Proof.
  unfold storeCoins, coin_bits. destruct (Z.ltb_spec v 0); [split; [done|lia]|].
  cbn [negb check mbind result_bind]. destruct (Z.eqb_spec v 0) as [->|Hne].
  { rewrite storeUint_ok. cbn. split; [intros (_ & _ & ->); done|intros [_ ->]; done]. }
  destruct (coin_length v) as (n & -> & Hn & Hlo & Hhi); [lia|].
  change (2 ^ 120) with (256 ^ 15). split.
  - intros H0. res_inv H0. bool_prop. apply storeUint_ok in Hs0 as (_ & _ & ->), H0 as (_ & _ & ->).
    split; [|apply push_bits_app]. split; [lia|].
    assert (256 ^ n <= 256 ^ 15) by (apply Z.pow_le_mono_r; lia). lia.
  - intros [Hv ->]. assert (n <= 15) as Hn15.
    { destruct (Z.le_gt_cases n 15) as [|Hgt]; [done|].
      assert (256 ^ 15 <= 256 ^ (n - 1)) by (apply Z.pow_le_mono_r; lia). lia. }
    zcmp. cbn [negb check mbind result_bind].
    rewrite (proj2 (storeUint_ok b n 4 (push_bits b (bits_be 4 n)))) by (split; [lia|split; [lia|done]]).
    cbn [mbind result_bind]. apply storeUint_ok. rewrite push_bits_app. split_and!; [lia|lia| |done].
    rewrite (Z.mul_comm n 8), Z.pow_mul_r by lia. exact Hhi.
Qed.

Lemma load_coins_bits v rest : 0 <= v < 2 ^ 120 -> load_coins (coin_bits v ++ rest) = Some (v, rest).
Proof.
  intros Hv. unfold load_coins, coin_bits. destruct (Z.eqb_spec v 0) as [->|Hne].
  { rewrite load_uint_bits by lia. done. }
  destruct (coin_length v) as (n & -> & Hn & Hlo & Hhi); [lia|].
  assert (n <= 15) as Hn15.
  { destruct (Z.le_gt_cases n 15) as [|Hgt]; [done|]. change (2 ^ 120) with (256 ^ 15) in Hv.
    assert (256 ^ 15 <= 256 ^ (n - 1)) by (apply Z.pow_le_mono_r; lia). lia. }
  rewrite <- app_assoc, load_uint_bits by lia. cbn [mbind option_bind].
  rewrite Z2Nat.inj_mul by lia. change (Z.to_nat 8) with 8%nat. apply load_uint_bits.
  rewrite Nat2Z.inj_mul, Z2Nat.id, Z.mul_comm, Z.pow_mul_r by lia. change (2 ^ Z.of_nat 8) with 256. lia.
Qed.

Lemma load_int_bits n v rest : 1 <= n -> - 2 ^ (n - 1) <= v < 2 ^ (n - 1) ->
  load_int (Z.to_nat n) (bits_be (Z.to_nat n) (v mod 2 ^ n) ++ rest) = Some (v, rest).
Proof.
  intros Hn Hv. unfold load_int.
  assert (0 < 2 ^ (n - 1)) by (apply Z.pow_pos_nonneg; lia).
  assert (2 ^ n = 2 * 2 ^ (n - 1)) as Hp.
  { rewrite <- Z.pow_succ_r by lia. f_equal. lia. }
  rewrite load_uint_bits by (rewrite Z2Nat.id by lia; apply Z.mod_pos_bound; lia).
  cbn [mbind option_bind]. rewrite Z2Nat.id by lia. do 2 f_equal.
  destruct (Z.lt_ge_cases v 0).
  - replace (v mod 2 ^ n) with (v + 2 ^ n) by (apply Z.mod_unique with (-1); lia). zcmp. lia.
  - rewrite Z.mod_small by lia. zcmp. done.
Qed.

(** ** The byte form loses nothing *)

Lemma or_loop_app l k i out : or_loop (l ++ k) i out = or_loop k (i + length l) (or_loop l i out).
Proof.
  revert i out; induction l as [|x l IH]; intros i out; cbn [app or_loop length]; [by rewrite Nat.add_0_r|].
  rewrite IH. f_equal. lia.
Qed.

(** The updates of one output byte. *)
Fixpoint or_byte (l : list bool) (k : nat) (b : byte) : byte :=
  match l with
  | [] => b
  | x :: l' => or_byte l' (S k) (if x then u8 (js_or (bz b) (js_shl 1 (7 - Z.of_nat k))) else b)
  end.

Lemma or_loop_byte l k pre b post : (k + length l <= 8)%nat ->
  or_loop l (8 * length pre + k) (pre ++ b :: post) = pre ++ or_byte l k b :: post.
Proof.
  revert k b; induction l as [|x l IH]; intros k b Hk; [done|]. cbn [or_loop or_byte length] in *.
  replace ((8 * length pre + k) mod 8)%nat with k.
  2: { rewrite Nat.add_comm, Nat.mul_comm, Nat.Div0.mod_add. symmetry. apply Nat.mod_small. lia. }
  replace ((8 * length pre + k) / 8)%nat with (length pre).
  2: { rewrite Nat.add_comm, Nat.mul_comm, Nat.div_add by lia. rewrite Nat.div_small by lia. done. }
  rewrite <- Nat.add_succ_r.
  destruct x.
  - rewrite <- (Nat.add_0_r (length pre)) at 2. rewrite alter_app_r. cbn [alter list_alter].
    rewrite IH by lia. done.
  - rewrite IH by lia. done.
Qed.

Lemma or_byte_val l : length l = 8%nat -> or_byte l 0 x00 = u8 (bits_val l).
Proof.
  intros Hl. do 8 (destruct l as [|[] l]; [done|..]); (destruct l; [|done]); vm_compute; reflexivity.
Qed.

Lemma buffer_bits_app l k : buffer_bits (l ++ k) = buffer_bits l ++ buffer_bits k.
Proof. unfold buffer_bits. by rewrite fmap_app, join_app. Qed.

Lemma or_loop_unpack m l pre : length l = (8 * m)%nat ->
  exists packed, or_loop l (8 * length pre) (pre ++ zeros m) = pre ++ packed /\
    length packed = m /\ buffer_bits packed = l.
Proof.
  revert l pre; induction m as [|m IH]; intros l pre Hl.
  - destruct l; [|done]. exists []. done.
  - rewrite <- (take_drop 8 l). set (l8 := take 8 l). set (l' := drop 8 l).
    assert (length l8 = 8%nat) as Hl8 by (unfold l8; rewrite length_take; lia).
    assert (length l' = (8 * m)%nat) as Hl' by (unfold l'; rewrite length_drop; lia).
    rewrite or_loop_app, Hl8. cbn [zeros replicate].
    rewrite <- (Nat.add_0_r (8 * length pre)). rewrite or_loop_byte by lia. rewrite or_byte_val by done.
    destruct (IH l' (pre ++ [u8 (bits_val l8)]) Hl') as (packed & E & Hlen & Hb).
    exists (u8 (bits_val l8) :: packed). split_and!.
    + rewrite length_app in E. cbn [length] in E.
      replace (8 * length pre + 0 + 8)%nat with (8 * (length pre + 1))%nat by lia.
      rewrite <- !app_assoc in E. cbn [app] in E. exact E.
    + cbn. lia.
    + change (buffer_bits (u8 (bits_val l8) :: packed)) with (bits_be 8 (bz (u8 (bits_val l8))) ++ buffer_bits packed).
      rewrite Hb. f_equal. pose proof (bits_val_bound l8) as B. rewrite Hl8 in B.
      rewrite bz_u8_small by exact B. rewrite <- Hl8. apply bits_be_of_val.
Qed.

Lemma data_length_eq bits :
  data_length bits = (length bits / 8 + (if Nat.eqb (length bits mod 8) 0 then 0 else 1))%nat.
Proof.
  unfold data_length, ceil_div. pose proof (Nat.div_mod_eq (length bits) 8) as E.
  pose proof (Nat.mod_upper_bound (length bits) 8 ltac:(lia)).
  set (q := (length bits / 8)%nat) in *. set (r := (length bits mod 8)%nat) in *.
  replace (Z.of_nat (length bits) + 8 - 1) with (Z.of_nat r + 7 + Z.of_nat q * 8) by lia.
  rewrite Z.div_add by lia. destruct (Nat.eqb_spec r 0) as [->|].
  - change (Z.of_nat 0 + 7) with 7. change (7 / 8) with 0. lia.
  - replace ((Z.of_nat r + 7) / 8) with 1 by (apply Z.div_unique with (Z.of_nat r - 1); lia). lia.
Qed.

Lemma length_padded bits : length (padded bits) = (8 * data_length bits)%nat.
Proof.
  rewrite data_length_eq. unfold padded. pose proof (Nat.div_mod_eq (length bits) 8).
  pose proof (Nat.mod_upper_bound (length bits) 8 ltac:(lia)).
  destruct (Nat.eqb_spec (length bits mod 8) 0) as [E|E]; [lia|].
  rewrite !length_app, length_replicate. cbn [length].
  rewrite (Nat.Div0.add_mod (length bits) 1). change (1 mod 8)%nat with 1%nat.
  set (q := (length bits / 8)%nat) in *. set (r := (length bits mod 8)%nat) in *.
  assert ((8 - (r + 1) mod 8) mod 8 = 7 - r)%nat as ->; [|lia].
  assert (r = 1 \/ r = 2 \/ r = 3 \/ r = 4 \/ r = 5 \/ r = 6 \/ r = 7)%nat as Hr by lia.
  clearbody r. destruct_or! Hr; subst r; reflexivity.
Qed.

Lemma dataBytes_spec c :
  length (dataBytes c) = data_length (bits_of c) /\ buffer_bits (dataBytes c) = padded (bits_of c).
Proof.
  unfold dataBytes. destruct (or_loop_unpack (data_length (bits_of c)) (padded (bits_of c)) [])
    as (packed & E & Hl & Hb); [apply length_padded|].
  cbn [length app] in E. rewrite Nat.mul_0_r in E. rewrite E. done.
Qed.
