(* ===== verification/TonBoc.v ===== *)
(** * TON bags of cells

    packages/lit-deposit-address/src/common/ton/cell.ts, second half: the
    [cellToBoc] serializer with its hash-keyed walk, the [bocToCell] parser
    and crc32c.  Reading past the end of the input, and a reference to a cell
    that is not built yet, give [undefined] in JavaScript; here they are
    errors (no caller passes such input: the only parsed bag is the embedded
    wallet code). *)

From Stdlib Require Import Strings.Byte.
From S2P Require Import Prelude JsNum JsString HexBytes TonCell ToyRuntime.
Local Open Scope Z_scope.
Local Open Scope js_scope.

(** ** Integers *)

(** [for (i = byteLength - 1; i >= 0; i--) out.push((value >> (8 * i)) & 0xff)]. *)
Fixpoint uintToBytes (value : Z) (byteLength : nat) : list Z :=
  match byteLength with
  | O => []
  | S i => js_and (js_shr value (8 * Z.of_nat i)) 255 :: uintToBytes value i
  end.

(** [while (value >= 1 << (8 * width)) width++]; [None] when the fuel is used
    up.  The shift count is taken modulo 32, so the loop ends within three
    iterations for values below 2^24 and never for larger ones. *)
Fixpoint byteWidth_loop (fuel : nat) (value width : Z) : option Z :=
  match fuel with
  | O => None
  | S f => if js_shl 1 (8 * width) <=? value then byteWidth_loop f value (width + 1) else Some width
  end.
Definition byteWidth (value : Z) : option Z := byteWidth_loop 4 value 1.

(** ** crc32c *)

Fixpoint crc_steps (k : nat) (c : Z) : Z :=
  match k with
  | O => c
  | S k' => crc_steps k' (if negb (js_and c 1 =? 0) then js_xor 0x82f63b78 (js_ushr c 1) else js_ushr c 1)
  end.
Definition CRC32C_TABLE : list Z := (fun n => js_ushr (crc_steps 8 (Z.of_nat n)) 0) <$> seq 0 256.

Definition crc_update (crc : Z) (b : byte) : Z :=
  js_xor (js_ushr crc 8) (default 0 (CRC32C_TABLE !! Z.to_nat (js_and (js_xor crc (bz b)) 255))).
Definition crc32c (l : bytes) : Z := js_ushr (js_xor (foldl crc_update 0xffffffff l) 0xffffffff) 0.

(** ** Serialization *)

Section Boc.
Context (sha256 : bytes -> bytes).

Definition hashHex (c : Cell) : jsstring := bytesToHex (hash sha256 c).

(** [walk] with the set [visited] and the list [postorder] as its state. *)
Fixpoint walk (c : Cell) (st : gset jsstring * list Cell) : gset jsstring * list Cell :=
  match c with
  | mkCell bits refs =>
      let key := hashHex (mkCell bits refs) in
      if bool_decide (key ∈ st.1) then st
      else
        let st' := (fix walk_refs (rs : list Cell) (s : gset jsstring * list Cell) :=
                      match rs with
                      | [] => s
                      | r :: rs' => walk_refs rs' (walk r s)
                      end) refs ({[key]} ∪ st.1, st.2) in
        (st'.1, st'.2 ++ [mkCell bits refs])
  end.

Definition ordered (root : Cell) : list Cell := reverse (walk root (∅, [])).2.

(** [ordered.forEach((cell, index) => indexByHash.set(hashHex(cell), index))]. *)
Fixpoint index_loop (l : list Cell) (index : nat) (m : gmap jsstring nat) : gmap jsstring nat :=
  match l with
  | [] => m
  | c :: l' => index_loop l' (S index) (<[hashHex c := index]> m)
  end.

Definition serialize_cell (indexByHash : gmap jsstring nat) (refSize : nat) (c : Cell)
  : result (list Z) :=
  refs ← mapM (fun r => i ← require (indexByHash !! hashHex r) "missing cell index";
                        Ok (uintToBytes (Z.of_nat i) refSize)) (refs_of c);
  Ok ([Z.of_nat (length (refs_of c)); d2 c] ++ (bz <$> dataBytes c) ++ mjoin refs).

Definition cellToBoc (root : Cell) : result bytes :=
  let cells := ordered root in
  let indexByHash := index_loop cells 0 ∅ in
  let cellCount := Z.of_nat (length cells) in
  refSize ← require (byteWidth cellCount) "byteWidth does not terminate";
  serializedCells ← mapM (serialize_cell indexByHash (Z.to_nat refSize)) cells;
  let totalDataSize := Z.of_nat (length (mjoin serializedCells)) in
  offBytes ← require (byteWidth totalDataSize) "byteWidth does not terminate";
  let rs := Z.to_nat refSize in
  let out := [0xb5; 0xee; 0x9c; 0x72] ++ [js_or 64 refSize] ++ [offBytes] ++
             uintToBytes cellCount rs ++ uintToBytes 1 rs ++ uintToBytes 0 rs ++
             uintToBytes totalDataSize (Z.to_nat offBytes) ++ uintToBytes 0 rs ++
             mjoin serializedCells in
  let crc := crc32c (Uint8Array_from out) in
  Ok (Uint8Array_from (out ++ [js_and crc 255; js_and (js_shr crc 8) 255;
                               js_and (js_shr crc 16) 255; js_and (js_shr crc 24) 255])).
End Boc.

(** ** Parsing *)

(** The reader's state is the input from [offset] on. *)
Definition readByte (s : bytes) : result (Z * bytes) :=
  match s with
  | [] => throw "read past the end"
  | b :: r => Ok (bz b, r)
  end.

Fixpoint readUint_loop (n : nat) (value : Z) (s : bytes) : result (Z * bytes) :=
  match n with
  | O => Ok (value, s)
  | S n' => '(b, s) ← readByte s; readUint_loop n' (value * 256 + b) s
  end.
Definition readUint (n : nat) (s : bytes) : result (Z * bytes) := readUint_loop n 0 s.

Fixpoint readUints (count n : nat) (s : bytes) : result (list Z * bytes) :=
  match count with
  | O => Ok ([], s)
  | S k => '(v, s) ← readUint n s; '(vs, s) ← readUints k n s; Ok (v :: vs, s)
  end.

(** [while (last >= 0 && !bits[last]) last--; bits.length = last], on the
    reversed bits; without a [1] bit the new length is -1, a RangeError. *)
Fixpoint strip_rev (rev_bits : list bool) : result (list bool) :=
  match rev_bits with
  | [] => throw "Invalid array length"
  | true :: r => Ok (reverse r)
  | false :: r => strip_rev r
  end.

Record RawCell := { raw_bits : list bool; raw_refs : list Z }.

Definition read_cell (refSize : nat) (s : bytes) : result (RawCell * bytes) :=
  '(d1_, s) ← readByte s;
  '(d2_, s) ← readByte s;
  let refCount := js_and d1_ 7 in
  let dataByteLength := Z.to_nat (ceil_div d2_ 2) in
  let bits := buffer_bits (take dataByteLength s) in
  let s := drop dataByteLength s in
  bits ← (if negb (d2_ mod 2 =? 0) then strip_rev (reverse bits) else Ok bits);
  '(refs, s) ← readUints (Z.to_nat refCount) refSize s;
  Ok ({| raw_bits := bits; raw_refs := refs |}, s).

Fixpoint read_cells (count refSize : nat) (s : bytes) : result (list RawCell * bytes) :=
  match count with
  | O => Ok ([], s)
  | S k => '(c, s) ← read_cell refSize s; '(cs, s) ← read_cells k refSize s; Ok (c :: cs, s)
  end.

(** [built] from the last index to the first; the result holds the cells from
    index [i] on. *)
Fixpoint build (i : nat) (raws : list RawCell) : result (list Cell) :=
  match raws with
  | [] => Ok []
  | raw :: rest =>
      later ← build (S i) rest;
      refs ← mapM (fun index => require (if index <=? Z.of_nat i then None
                                         else later !! Z.to_nat (index - Z.of_nat i - 1))
                                  "reference to a cell that is not built") (raw_refs raw);
      c ← newCell (raw_bits raw) refs;
      Ok (c :: later)
  end.

Definition bocToCell (boc : bytes) : result Cell :=
  '(magic, s) ← readUint 4 boc;
  fail_if negb (magic =? 0xb5ee9c72) with "unsupported BOC magic" ;;
  '(flags, s) ← readByte s;
  let hasIdx := negb (js_and flags 128 =? 0) in
  let refSize := Z.to_nat (js_and flags 7) in
  '(offBytes, s) ← readByte s;
  '(cellCount, s) ← readUint refSize s;
  '(rootCount, s) ← readUint refSize s;
  '(_, s) ← readUint refSize s;
  '(_, s) ← readUint (Z.to_nat offBytes) s;
  '(roots, s) ← readUints (Z.to_nat rootCount) refSize s;
  let s := if hasIdx then drop (Z.to_nat (cellCount * offBytes)) s else s in
  '(rawCells, s) ← read_cells (Z.to_nat cellCount) refSize s;
  built ← build 0 rawCells;
  root ← require (head roots) "no root";
  require (built !! Z.to_nat root) "no root cell".

(** ** Integers, read back *)

Lemma uint_byte value i : 0 <= value < 2 ^ 31 -> 0 <= i <= 3 ->
  js_and (js_shr value (8 * i)) 255 = value / 256 ^ i mod 256.
Proof.
  intros Hv Hi. unfold js_and, js_shr. rewrite (to_int32_small value), (Z.mod_small (8 * i)) by lia.
  rewrite Z.shiftr_div_pow2, Z.pow_mul_r by lia. change (2 ^ 8) with 256.
  assert (0 < 256 ^ i) by (apply Z.pow_pos_nonneg; lia).
  assert (0 <= value / 256 ^ i <= value).
  { split; [apply Z.div_pos; lia|]. apply Z.div_le_upper_bound; [lia|]. nia. }
  rewrite !to_int32_small by lia. change 255 with (Z.ones 8). by rewrite Z.land_ones.
Qed.

Lemma uintToBytes_range value n : 0 <= value < 2 ^ 31 -> (n <= 4)%nat ->
  Forall (fun d => 0 <= d < 256) (uintToBytes value n) /\ length (uintToBytes value n) = n.
Proof.
  intros Hv. induction n as [|n IH]; intros Hn; [done|]. cbn [uintToBytes length].
  destruct IH as [HF ->]; [lia|]. split; [|done]. constructor; [|done].
  rewrite uint_byte by lia. apply Z.mod_pos_bound. lia.
Qed.

Lemma bz_Uint8Array l : Forall (fun d => 0 <= d < 256) l -> bz <$> Uint8Array_from l = l.
Proof.
  induction 1 as [|d l Hd _ IH]; [done|]. cbn. rewrite bz_u8_small by done. f_equal. exact IH.
Qed.

Lemma Uint8Array_app l k : Uint8Array_from (l ++ k) = Uint8Array_from l ++ Uint8Array_from k.
Proof. unfold Uint8Array_from. apply fmap_app. Qed.

Lemma readUint_loop_bytes n value acc rest : 0 <= value < 2 ^ 31 -> (n <= 4)%nat ->
  readUint_loop n acc (Uint8Array_from (uintToBytes value n) ++ rest) =
  Ok (acc * 256 ^ Z.of_nat n + value mod 256 ^ Z.of_nat n, rest).
Proof.
  intros Hv. revert acc; induction n as [|n IH]; intros acc Hn.
  - cbn. rewrite Z.mod_1_r. do 2 f_equal. lia.
  - cbn [uintToBytes readUint_loop]. change (Uint8Array_from (?x :: ?l)) with (u8 x :: Uint8Array_from l).
    cbn [app readByte mbind result_bind]. rewrite IH by lia. rewrite uint_byte by lia.
    rewrite bz_u8_small by (apply Z.mod_pos_bound; lia). do 2 f_equal.
    rewrite Nat2Z.inj_succ, Z.pow_succ_r, (Z.mul_comm 256) by lia.
    assert (0 < 256 ^ Z.of_nat n) by (apply Z.pow_pos_nonneg; lia).
    rewrite (Z.rem_mul_r value (256 ^ Z.of_nat n) 256) by lia. lia.
Qed.

Lemma readUint_bytes n value rest : 0 <= value < 256 ^ Z.of_nat n -> (n <= 3)%nat ->
  readUint n (Uint8Array_from (uintToBytes value n) ++ rest) = Ok (value, rest).
Proof.
  intros Hv Hn. unfold readUint.
  assert (256 ^ Z.of_nat n <= 256 ^ 3) by (apply Z.pow_le_mono_r; lia).
  rewrite readUint_loop_bytes by lia. rewrite Z.mod_small by done. done.
Qed.

Lemma byteWidth_ok v w : byteWidth v = Some w -> 0 <= v -> 1 <= w <= 3 /\ v < 256 ^ w.
Proof.
  unfold byteWidth. cbn [byteWidth_loop]. intros H Hv.
  change (js_shl 1 (8 * 1)) with (256 ^ 1) in H. change (js_shl 1 (8 * (1 + 1))) with (256 ^ 2) in H.
  change (js_shl 1 (8 * (1 + 1 + 1))) with (256 ^ 3) in H.
  change (js_shl 1 (8 * (1 + 1 + 1 + 1))) with 1 in H.
  destruct (Z.leb_spec (256 ^ 1) v); [|injection H as <-; lia].
  destruct (Z.leb_spec (256 ^ 2) v); [|injection H as <-; lia].
  destruct (Z.leb_spec (256 ^ 3) v); [|injection H as <-; lia].
  destruct (Z.leb_spec 1 v); [done|lia].
Qed.

Lemma byteWidth_total v : 0 <= v < 2 ^ 24 -> exists w, byteWidth v = Some w.
Proof.
  intros Hv. unfold byteWidth. cbn [byteWidth_loop].
  change (js_shl 1 (8 * 1)) with (256 ^ 1). change (js_shl 1 (8 * (1 + 1))) with (256 ^ 2).
  change (js_shl 1 (8 * (1 + 1 + 1))) with (256 ^ 3).
  destruct (Z.leb_spec (256 ^ 1) v); [|eauto]. destruct (Z.leb_spec (256 ^ 2) v); [|eauto].
  destruct (Z.leb_spec (256 ^ 3) v); [lia|eauto].
Qed.

(** The shift of the loop test never exceeds 2^24. *)
Lemma width_shift w : 0 <= w -> js_shl 1 (8 * w) <= 2 ^ 24.
Proof.
  intros Hw. unfold js_shl. change (to_int32 1) with 1. pose proof (Z.mod_pos_bound (8 * w) 32 ltac:(lia)).
  assert ((8 * w) mod 32 = 8 * (w mod 4)) as ->.
  { change 32 with (8 * 4). rewrite Z.mul_mod_distr_l by lia. done. }
  pose proof (Z.mod_pos_bound w 4 ltac:(lia)).
  assert (w mod 4 = 0 \/ w mod 4 = 1 \/ w mod 4 = 2 \/ w mod 4 = 3) as Hc by lia.
  destruct_or! Hc; rewrite Hc; vm_compute; congruence.
Qed.

Lemma byteWidth_diverges fuel v w : 0 <= w -> 2 ^ 24 <= v -> byteWidth_loop fuel v w = None.
Proof.
  revert w; induction fuel as [|f IH]; intros w Hw Hv; [done|]. cbn [byteWidth_loop].
  pose proof (width_shift w Hw). zcmp. apply IH; lia.
Qed.

(** ** One cell, read back *)

Definition small_cell (c : Cell) : Prop :=
  (length (bits_of c) <= MAX_CELL_BITS)%nat /\ (length (refs_of c) <= MAX_CELL_REFS)%nat.

Lemma strip_rev_padding k r : strip_rev (replicate k false ++ true :: r) = Ok (reverse r).
Proof. induction k as [|k IH]; cbn; [done|exact IH]. Qed.

Lemma strip_padded bits : (length bits mod 8 <> 0)%nat -> strip_rev (reverse (padded bits)) = Ok bits.
Proof.
  intros H. unfold padded. rewrite (proj2 (Nat.eqb_neq _ _) H).
  rewrite !reverse_app, reverse_replicate, <- app_assoc. change (reverse [true]) with [true]. cbn [app].
  by rewrite strip_rev_padding, reverse_involutive.
Qed.

Lemma d2_spec c : (length (bits_of c) <= MAX_CELL_BITS)%nat ->
  0 <= d2 c < 256 /\ Z.to_nat (ceil_div (d2 c) 2) = data_length (bits_of c) /\
  (d2 c mod 2 =? 0) = Nat.eqb (length (bits_of c) mod 8) 0.
Proof.
  unfold MAX_CELL_BITS. intros Hb. unfold d2.
  assert (ceil_div (Z.of_nat (length (bits_of c))) 8 = Z.of_nat (data_length (bits_of c))) as ->.
  { unfold data_length. rewrite Z2Nat.id; [done|]. unfold ceil_div. apply Z.div_pos; lia. }
  rewrite data_length_eq. rewrite <- (Nat2Z.inj_div _ 8). pose proof (Nat.div_mod_eq (length (bits_of c)) 8).
  pose proof (Nat.mod_upper_bound (length (bits_of c)) 8 ltac:(lia)).
  set (q := (length (bits_of c) / 8)%nat) in *. set (r := (length (bits_of c) mod 8)%nat) in *.
  unfold ceil_div. destruct (Nat.eqb_spec r 0).
  - replace (Z.of_nat q + Z.of_nat (q + 0)) with (Z.of_nat q * 2) by lia. split; [lia|]. split.
    + replace (Z.of_nat q * 2 + 2 - 1) with (1 + Z.of_nat q * 2) by lia.
      rewrite Z.div_add by lia. change (1 / 2) with 0. lia.
    + rewrite Z.mod_mul by lia. done.
  - replace (Z.of_nat q + Z.of_nat (q + 1)) with (1 + Z.of_nat q * 2) by lia. split; [lia|]. split.
    + replace (1 + Z.of_nat q * 2 + 2 - 1) with (0 + (Z.of_nat q + 1) * 2) by lia.
      rewrite Z.div_add by lia. change (0 / 2) with 0. lia.
    + rewrite Z.mod_add by lia. done.
Qed.

Lemma readUints_bytes n vs rest : (n <= 3)%nat -> Forall (fun v => 0 <= v < 256 ^ Z.of_nat n) vs ->
  readUints (length vs) n (Uint8Array_from (mjoin ((fun v => uintToBytes v n) <$> vs)) ++ rest) = Ok (vs, rest).
Proof.
  intros Hn HF. induction HF as [|v vs Hv _ IH]; [done|]. cbn [length readUints].
  change (mjoin ((fun v => uintToBytes v n) <$> v :: vs)) with (uintToBytes v n ++ mjoin ((fun v => uintToBytes v n) <$> vs)).
  rewrite Uint8Array_app, <- app_assoc, readUint_bytes by done. cbn [mbind result_bind]. rewrite IH. done.
Qed.

Lemma unpack_data c : (length (bits_of c) <= MAX_CELL_BITS)%nat ->
  (if negb (d2 c mod 2 =? 0) then strip_rev (reverse (buffer_bits (dataBytes c))) else Ok (buffer_bits (dataBytes c)))
  = Ok (bits_of c).
Proof.
  intros Hb. destruct (d2_spec c Hb) as (_ & _ & ->). destruct (dataBytes_spec c) as [_ ->].
  destruct (Nat.eqb_spec (length (bits_of c) mod 8) 0) as [E|E]; cbn [negb].
  - unfold padded. by rewrite (proj2 (Nat.eqb_eq _ _) E).
  - by apply strip_padded.
Qed.

Section Cells.
Context (sha256 : bytes -> bytes) (m : gmap jsstring nat) (n : nat) (Hn : (n <= 3)%nat).

(** The reference indices of a serialized cell. *)
Definition index_refs (c : Cell) (idx : list nat) : Prop :=
  Forall2 (fun r i => m !! hashHex sha256 r = Some i) (refs_of c) idx.

Lemma serialize_cell_ok c idx : index_refs c idx ->
  serialize_cell sha256 m n c =
  Ok ([Z.of_nat (length (refs_of c)); d2 c] ++ (bz <$> dataBytes c) ++
      mjoin ((fun v => uintToBytes v n) <$> (Z.of_nat <$> idx))).
Proof using.
  intros Hidx. unfold serialize_cell.
  rewrite (proj2 (mapM_ok _ (refs_of c) ((fun v => uintToBytes v n) <$> (Z.of_nat <$> idx)))); [done|].
  rewrite <- list_fmap_compose. apply Forall2_fmap_r. eapply Forall2_impl; [exact Hidx|].
  intros r i Hi. cbn. by rewrite Hi.
Qed.

Lemma read_cell_ok c idx zs rest : small_cell c -> index_refs c idx ->
  Forall (fun i => Z.of_nat i < 256 ^ Z.of_nat n) idx ->
  serialize_cell sha256 m n c = Ok zs ->
  read_cell n (Uint8Array_from zs ++ rest) =
    Ok ({| raw_bits := bits_of c; raw_refs := Z.of_nat <$> idx |}, rest) /\
  Forall (fun d => 0 <= d < 256) zs.
Proof using Hn.
  intros [Hb Hr] Hidx Hsmall Hz. rewrite (serialize_cell_ok c idx Hidx) in Hz.
  assert (length idx = length (refs_of c)) as Hlen by (symmetry; by eapply Forall2_length).
  assert (Forall (fun v => 0 <= v < 256 ^ Z.of_nat n) (Z.of_nat <$> idx)) as Hv.
  { apply Forall_fmap. eapply Forall_impl; [exact Hsmall|]. intros i Hi. cbn beta in *. split; [lia|exact Hi]. }
  destruct (d2_spec c Hb) as (Hd2 & Hdl & _). unfold MAX_CELL_REFS in Hr.
  match type of Hz with Ok ?x = _ => assert (zs = x) as -> by congruence end. clear Hz.
  split.
  - unfold read_cell. rewrite !Uint8Array_app, Uint8Array_from_bz.
    change (Uint8Array_from [?x; ?y]) with [u8 x; u8 y]. cbn [app readByte mbind result_bind].
    rewrite !bz_u8_small by lia. rewrite Hdl, <- app_assoc.
    rewrite take_length_app, drop_length_app by (by rewrite (proj1 (dataBytes_spec c))).
    rewrite unpack_data by done. cbn [mbind result_bind].
    assert (Z.to_nat (js_and (Z.of_nat (length (refs_of c))) 7) = length (Z.of_nat <$> idx)) as ->.
    { rewrite length_fmap, Hlen. revert Hr. generalize (length (refs_of c)). intros k Hk.
      do 5 (destruct k as [|k]; [reflexivity|]). lia. }
    rewrite readUints_bytes by done. done.
  - apply Forall_app; split; [forall_lia|]. apply Forall_app; split; [apply Forall_bz|].
    clear -Hv Hn. induction Hv as [|v vs Hv _ IH]; [constructor|]. apply Forall_app; split; [|exact IH].
    assert (256 ^ Z.of_nat n <= 256 ^ 3) by (apply Z.pow_le_mono_r; lia).
    apply uintToBytes_range; lia.
Qed.
End Cells.

(** ** Bags of cells: the serializer and the parser are inverse

    The theorems about common/ton/cell.ts: what the builder writes is read
    back, [walk] lists every cell once with its references first, and
    [bocToCell (cellToBoc root)] is [root]. *)

Local Open Scope Z_scope.
Local Open Scope js_scope.

(** ** Trees of cells *)

Fixpoint subcells (c : Cell) : list Cell :=
  match c with mkCell _ refs => c :: mjoin (subcells <$> refs) end.

Lemma Cell_ind' (P : Cell -> Prop) (H : forall bits refs, Forall P refs -> P (mkCell bits refs)) :
  forall c, P c.
Proof.
  refine (fix F c := match c with mkCell bits refs => H bits refs _ end).
  induction refs as [|r refs IH]; constructor; [apply F|exact IH].
Qed.

Lemma subcells_self c : c ∈ subcells c.
Proof. destruct c. cbn. left. Qed.

Lemma elem_of_subcells x bits refs :
  x ∈ subcells (mkCell bits refs) <-> x = mkCell bits refs \/ exists r, r ∈ refs /\ x ∈ subcells r.
Proof.
  cbn [subcells]. rewrite elem_of_cons, list_elem_of_join. apply or_iff_compat_l.
  setoid_rewrite list_elem_of_fmap. naive_solver.
Qed.

Lemma subcells_trans x y z : x ∈ subcells y -> y ∈ subcells z -> x ∈ subcells z.
Proof.
  intros Hx. induction z as [bits refs IH] using Cell_ind'. rewrite !elem_of_subcells.
  intros [->|(r & Hr & Hy)]; [by apply elem_of_subcells in Hx|].
  right. exists r. split; [done|]. rewrite Forall_forall in IH. by apply IH.
Qed.

Lemma subcells_ref r c : r ∈ refs_of c -> r ∈ subcells c.
Proof. destruct c as [bits refs]. intros Hr. apply elem_of_subcells. right. exists r. split; [done|]. apply subcells_self. Qed.

Fixpoint height (c : Cell) : nat :=
  match c with mkCell _ refs => S (max_list (height <$> refs)) end.

Lemma height_subcell x c : x ∈ subcells c -> (height x <= height c)%nat.
Proof.
  induction c as [bits refs IH] using Cell_ind'. rewrite elem_of_subcells. intros [->|(r & Hr & Hx)]; [done|].
  rewrite Forall_forall in IH. specialize (IH r Hr Hx). cbn [height].
  assert (height r <= max_list (height <$> refs))%nat; [|lia].
  apply max_list_elem_of_le, list_elem_of_fmap. eauto.
Qed.

(** A cell is not below itself. *)
Lemma subcells_acyclic c r : r ∈ refs_of c -> c ∉ subcells r.
Proof.
  destruct c as [bits refs]. cbn [refs_of]. intros Hr Hc. apply height_subcell in Hc. cbn [height] in Hc.
  assert (height r <= max_list (height <$> refs))%nat; [|lia].
  apply max_list_elem_of_le, list_elem_of_fmap. eauto.
Qed.

(** ** The walk *)

Section Walk.
Context (sha256 : bytes -> bytes) (U : list Cell).
Abbreviation key := (hashHex sha256).
Context (key_inj : forall x y, x ∈ U -> y ∈ U -> key x = key y -> x = y).

Definition walk_refs (rs : list Cell) (s : gset jsstring * list Cell) : gset jsstring * list Cell :=
  foldl (fun s r => walk sha256 r s) s rs.

Lemma walk_unfold bits refs st :
  walk sha256 (mkCell bits refs) st =
  if bool_decide (key (mkCell bits refs) ∈ st.1) then st
  else let st' := walk_refs refs ({[key (mkCell bits refs)]} ∪ st.1, st.2) in
       (st'.1, st'.2 ++ [mkCell bits refs]).
Proof using.
  cbn [walk]. destruct (bool_decide _); [done|]. unfold walk_refs.
  generalize ({[key (mkCell bits refs)]} ∪ st.1, st.2). generalize (mkCell bits refs).
  intros c. induction refs as [|r refs IH]; intros s; [done|]. cbn [foldl]. apply IH.
Qed.

(** The list built so far: no cell twice, all of them marked, references
    before the cells that use them. *)
Record ordered_list (V : gset jsstring) (P : list Cell) : Prop := {
  ol_nodup : NoDup P;
  ol_marked : forall x, x ∈ P -> key x ∈ V;
  ol_known : forall x, x ∈ P -> x ∈ U;
  ol_refs : forall i x r, P !! i = Some x -> r ∈ refs_of x -> exists j, (j < i)%nat /\ P !! j = Some r }.

(** What a walk over the subcells [S] adds to the list. *)
Record extends (S : Cell -> Prop) (s s' : gset jsstring * list Cell) (Q : list Cell) : Prop := {
  ex_list : s'.2 = s.2 ++ Q;
  ex_marks : forall k, k ∈ s'.1 <-> k ∈ s.1 \/ k ∈ key <$> Q;
  ex_sub : forall x, x ∈ Q -> S x;
  ex_inv : ordered_list s'.1 s'.2 }.

(** Every marked cell among [S] is listed. *)
Definition listed (S : Cell -> Prop) (s : gset jsstring * list Cell) : Prop :=
  forall y, S y -> key y ∈ s.1 -> y ∈ s.2.

Definition walk_ok (c : Cell) : Prop :=
  forall s, (forall x, x ∈ subcells c -> x ∈ U) -> ordered_list s.1 s.2 ->
  listed (fun y => y ∈ subcells c) s ->
  exists Q, extends (fun x => x ∈ subcells c) s (walk sha256 c s) Q /\ c ∈ (walk sha256 c s).2.

Lemma ordered_list_mark V P k : ordered_list V P -> ordered_list ({[k]} ∪ V) P.
Proof using. intros []. split; try done. intros x Hx. apply elem_of_union_r. auto. Qed.

Lemma ordered_list_snoc V P c : ordered_list V P -> c ∉ P -> key c ∈ V -> c ∈ U ->
  (forall r, r ∈ refs_of c -> r ∈ P) -> ordered_list V (P ++ [c]).
Proof using.
  intros [H1 H2 H3 H4] Hc Hk HU Hr. split.
  - apply NoDup_app. split; [done|]. split; [|apply NoDup_singleton].
    intros x Hx Hs%list_elem_of_singleton. by subst.
  - intros x [Hx|Hx%list_elem_of_singleton]%elem_of_app; [auto|by subst].
  - intros x [Hx|Hx%list_elem_of_singleton]%elem_of_app; [auto|by subst].
  - intros i x r Hi Hx. apply lookup_app_Some in Hi as [Hi|[Hle Hi]].
    + destruct (H4 i x r Hi Hx) as (j & Hj & E). exists j. split; [done|]. by apply lookup_app_l_Some.
    + apply list_lookup_singleton_Some in Hi as [Hi ->].
      destruct (proj1 (list_elem_of_lookup _ _) (Hr r Hx)) as [j Hj].
      pose proof (lookup_lt_Some _ _ _ Hj). exists j. split; [lia|]. by apply lookup_app_l_Some.
Qed.

Lemma walk_refs_ok rs : Forall walk_ok rs -> forall s,
  (forall r x, r ∈ rs -> x ∈ subcells r -> x ∈ U) -> ordered_list s.1 s.2 ->
  listed (fun y => exists r, r ∈ rs /\ y ∈ subcells r) s ->
  exists Q, extends (fun y => exists r, r ∈ rs /\ y ∈ subcells r) s (walk_refs rs s) Q /\
    forall r, r ∈ rs -> r ∈ (walk_refs rs s).2.
Proof using key_inj.
  induction 1 as [|r rs Hr _ IH]; intros s HU Hs Hl.
  - exists []. split; [|by intros r Hr%elem_of_nil]. split; [by rewrite app_nil_r|set_solver|set_solver|done].
  - cbn [walk_refs foldl]. destruct (Hr s) as (Q1 & [E1 M1 S1 I1] & Hin).
    { intros x Hx. eapply HU; [left|exact Hx]. }
    { done. } { intros y Hy. apply Hl. exists r. split; [left|done]. }
    set (s1 := walk sha256 r s) in *. fold (walk_refs rs s1).
    destruct (IH s1) as (Q2 & [E2 M2 S2 I2] & Hin2).
    { intros r' x Hr' Hx. eapply HU; [right; exact Hr'|exact Hx]. }
    { done. }
    { intros y (r' & Hr' & Hy) Hk. rewrite E1. apply M1 in Hk as [Hk|Hk].
      - apply elem_of_app. left. apply Hl; [|done]. exists r'. split; [by right|done].
      - apply list_elem_of_fmap in Hk as (q & Hq & Hq'). apply elem_of_app. right.
        rewrite (key_inj y q); [done|eapply HU; [right; exact Hr'|exact Hy]| |done].
        eapply HU; [left|]. by apply S1. }
    exists (Q1 ++ Q2). split; [split|].
    + rewrite E2, E1. by rewrite app_assoc.
    + intros k. rewrite M2, M1, fmap_app, elem_of_app. tauto.
    + intros x [Hx|Hx]%elem_of_app; [exists r; split; [left|by apply S1]|].
      apply S2 in Hx as (r' & Hr' & Hx). exists r'. split; [by right|done].
    + done.
    + intros r' [->|Hr']%elem_of_cons; [|by apply Hin2]. rewrite E2. apply elem_of_app. by left.
Qed.

Lemma walk_correct c : walk_ok c.
Proof using key_inj.
  induction c as [bits refs IH] using Cell_ind'. set (c := mkCell bits refs) in *. intros s HU Hs Hl.
  unfold c. rewrite walk_unfold. fold c. case_bool_decide as Hv.
  - exists []. split; [|apply Hl; [apply subcells_self|done]].
    split; [by rewrite app_nil_r|set_solver|set_solver|done].
  - assert (c ∉ s.2) as Hc by (intros Hc; apply Hv; by eapply ol_marked).
    assert (forall r y, r ∈ refs -> y ∈ subcells r -> y ∈ subcells c) as Hsub.
    { intros r y Hr Hy. apply elem_of_subcells. eauto. }
    destruct (walk_refs_ok refs IH ({[key c]} ∪ s.1, s.2)) as (Q & [E M S I] & Hin).
    { intros r x Hr Hx. eauto. } { by apply ordered_list_mark. }
    { intros y (r & Hr & Hy) Hk. cbn [fst snd] in *. apply elem_of_union in Hk as [Hk%elem_of_singleton|Hk].
      - exfalso. assert (y = c) as -> by (apply key_inj; [eauto|apply HU, subcells_self|done]).
        by eapply (subcells_acyclic c r).
      - apply Hl; [|done]. eauto. }
    cbn [fst snd] in *. exists (Q ++ [c]). split; [|cbn; apply elem_of_app; right; left].
    split; cbn [fst snd].
    + rewrite E. by rewrite app_assoc.
    + intros k. rewrite M, fmap_app, elem_of_app, elem_of_union, elem_of_singleton.
      cbn. rewrite list_elem_of_singleton. tauto.
    + intros x [Hx|Hx%list_elem_of_singleton]%elem_of_app; [|subst; apply subcells_self].
      apply S in Hx as (r & Hr & Hx). eauto.
    + apply ordered_list_snoc; [done| | |apply HU, subcells_self|exact Hin].
      * rewrite E. intros [Hx|Hx]%elem_of_app; [done|]. apply S in Hx as (r & Hr & Hx).
        by eapply (subcells_acyclic c r).
      * apply M. left. apply elem_of_union_l. by apply elem_of_singleton.
Qed.
End Walk.

(** ** The order of the bag *)

Section Order.
Context (sha256 : bytes -> bytes) (root : Cell).
Context (key_inj : forall x y, x ∈ subcells root -> y ∈ subcells root ->
                   hashHex sha256 x = hashHex sha256 y -> x = y).

Lemma reverse_lookup_lt {A} (l : list A) i x : l !! i = Some x ->
  reverse l !! (length l - S i)%nat = Some x.
Proof using.
  intros H. pose proof (lookup_lt_Some _ _ _ H). rewrite reverse_lookup by lia.
  rewrite <- H. f_equal. lia.
Qed.

Lemma ordered_ok :
  NoDup (ordered sha256 root) /\ head (ordered sha256 root) = Some root /\
  (forall x, x ∈ ordered sha256 root -> x ∈ subcells root) /\
  (forall i x r, ordered sha256 root !! i = Some x -> r ∈ refs_of x ->
   exists j, (i < j)%nat /\ ordered sha256 root !! j = Some r).
Proof using key_inj.
  destruct (walk_correct sha256 (subcells root) key_inj root (∅, [])) as (Q & [E _ _ [H1 _ H3 H4]] & _).
  { done. } { split; try done; [constructor|set_solver|set_solver]. } { intros y _ Hy. set_solver. }
  unfold ordered. split_and!.
  - by rewrite reverse_Permutation.
  - destruct root as [bits refs]. rewrite walk_unfold. rewrite bool_decide_false by set_solver.
    cbn [snd]. by rewrite reverse_snoc.
  - intros x Hx. apply H3. by apply elem_of_reverse.
  - set (P := (walk sha256 root (∅, [])).2) in *. intros i x r Hi Hr.
    pose proof (lookup_lt_Some _ _ _ Hi) as Hlt. rewrite length_reverse in Hlt.
    rewrite reverse_lookup in Hi by done. destruct (H4 _ _ _ Hi Hr) as (j & Hj & Ej).
    exists (length P - S j)%nat. split; [lia|]. by apply reverse_lookup_lt.
Qed.

Lemma index_loop_other l k m h : h ∉ hashHex sha256 <$> l -> index_loop sha256 l k m !! h = m !! h.
Proof using.
  revert k m; induction l as [|c l IH]; intros k m Hh; [done|]. cbn in Hh |- *.
  apply not_elem_of_cons in Hh as [Hc Hl]. rewrite IH by done. by rewrite lookup_insert_ne.
Qed.

Lemma index_loop_lookup l k m i c : NoDup (hashHex sha256 <$> l) -> l !! i = Some c ->
  index_loop sha256 l k m !! hashHex sha256 c = Some (k + i)%nat.
Proof using.
  revert k m i; induction l as [|a l IH]; intros k m i Hnd Hi; [done|].
  cbn [fmap list_fmap] in Hnd. apply NoDup_cons in Hnd as [Ha Hnd]. cbn [index_loop]. destruct i as [|i].
  - injection Hi as ->. rewrite index_loop_other by done. rewrite lookup_insert_eq. f_equal. lia.
  - rewrite (IH _ _ i) by done. f_equal. lia.
Qed.

(** The index map sends the key of each listed cell to its position. *)
Lemma index_lookup i c : ordered sha256 root !! i = Some c ->
  index_loop sha256 (ordered sha256 root) 0 ∅ !! hashHex sha256 c = Some i.
Proof using key_inj.
  destruct ordered_ok as (Hnd & _ & Hsub & _). intros Hi. apply (index_loop_lookup _ 0); [|done].
  apply NoDup_fmap_2_strong; [|done]. intros x y Hx Hy. apply key_inj; auto.
Qed.

(** The positions of the references of the cell at position [i]. *)
Definition later_refs (i : nat) (c : Cell) (idx : list nat) : Prop :=
  Forall2 (fun r j => (i < j)%nat /\ ordered sha256 root !! j = Some r) (refs_of c) idx.

Lemma later_refs_exist i c : ordered sha256 root !! i = Some c -> exists idx, later_refs i c idx.
Proof using key_inj.
  intros Hi. destruct ordered_ok as (_ & _ & _ & Hr). unfold later_refs.
  assert (forall r, r ∈ refs_of c -> exists j, (i < j)%nat /\ ordered sha256 root !! j = Some r) as H by eauto.
  clear Hi Hr. induction (refs_of c) as [|r rs IH]; [exists []; constructor|].
  destruct (H r ltac:(left)) as [j Hj]. destruct IH as [idx Hidx]; [intros r' Hr'; apply H; by right|].
  exists (j :: idx). by constructor.
Qed.

Lemma later_refs_index i c idx : later_refs i c idx ->
  index_refs sha256 (index_loop sha256 (ordered sha256 root) 0 ∅) c idx.
Proof using key_inj.
  intros H. eapply Forall2_impl; [exact H|]. intros r j [_ Hj]. by apply index_lookup.
Qed.

(** ** The cells of the bag, read back *)

Definition raw_of (i : nat) (c : Cell) (raw : RawCell) : Prop :=
  raw_bits raw = bits_of c /\ exists idx, raw_refs raw = Z.of_nat <$> idx /\ later_refs i c idx.

Lemma serialized_length m n c idx zs : (n <= 3)%nat -> small_cell c -> index_refs sha256 m c idx ->
  serialize_cell sha256 m n c = Ok zs -> (length zs <= 142)%nat.
Proof using.
  intros Hn [Hb Hr] Hidx. rewrite (serialize_cell_ok sha256 m n c idx Hidx).
  intros [= <-]. cbn [length app]. rewrite length_app, length_fmap, (proj1 (dataBytes_spec c)).
  assert (data_length (bits_of c) <= 128)%nat as Hd.
  { unfold data_length, ceil_div, MAX_CELL_BITS in *. apply Nat2Z.inj_le.
    rewrite Z2Nat.id by (apply Z.div_pos; lia). apply Z.lt_succ_r, Z.div_lt_upper_bound; lia. }
  apply Forall2_length in Hidx. unfold MAX_CELL_REFS in Hr. rewrite Hidx in Hr. clear Hidx Hb.
  assert (length (mjoin ((fun v => uintToBytes v n) <$> (Z.of_nat <$> idx))) = (length idx * n)%nat) as ->; [|nia].
  assert (forall v k, length (uintToBytes v k) = k) as Hu by (intros v k; induction k; cbn; congruence).
  clear -Hu. induction idx as [|j idx IH]; [done|]. cbn. rewrite length_app, Hu. f_equal. exact IH.
Qed.

Lemma build_step i c suf raw raws : ordered sha256 root = take i (ordered sha256 root) ++ c :: suf ->
  length (take i (ordered sha256 root)) = i -> small_cell c -> raw_of i c raw ->
  build (S i) raws = Ok suf -> build i (raw :: raws) = Ok (c :: suf).
Proof using.
  intros E Hi [Hb Hr] (Hbits & idx & Hrefs & Hidx) Hbuild. cbn [build]. rewrite Hbuild. cbn [mbind result_bind].
  assert (drop (S i) (ordered sha256 root) = suf) as Hdrop.
  { rewrite E. change (c :: suf) with ([c] ++ suf). rewrite app_assoc.
    apply drop_app_length'. rewrite length_app, Hi. cbn. lia. }
  rewrite Hrefs, (proj2 (mapM_ok _ (Z.of_nat <$> idx) (refs_of c))).
  - cbn [mbind result_bind]. unfold newCell. rewrite Hbits.
    do 2 (rewrite (proj2 (Nat.ltb_ge _ _)) by done). cbn. by destruct c.
  - apply Forall2_fmap_l, Forall2_flip. eapply Forall2_impl; [exact Hidx|]. intros r j [Hj Ej]. cbn.
    zcmp. apply require_ok. rewrite <- Hdrop, lookup_drop, <- Ej. f_equal. lia.
Qed.

Lemma cells_read n : (n <= 3)%nat ->
  Z.of_nat (length (ordered sha256 root)) < 256 ^ Z.of_nat n ->
  Forall small_cell (ordered sha256 root) ->
  forall suf i, (i <= length (ordered sha256 root))%nat -> ordered sha256 root = take i (ordered sha256 root) ++ suf ->
  exists zss, mapM (serialize_cell sha256 (index_loop sha256 (ordered sha256 root) 0 ∅) n) suf = Ok zss /\
    Forall (fun d => 0 <= d < 256) (mjoin zss) /\ (length (mjoin zss) <= 142 * length suf)%nat /\
    forall rest, exists raws,
      read_cells (length suf) n (Uint8Array_from (mjoin zss) ++ rest) = Ok (raws, rest) /\
      build i raws = Ok suf.
Proof using key_inj.
  intros Hn Hlen Hsmall suf. induction suf as [|c suf IH]; intros i Hle E.
  { exists []. split_and!; [done|constructor|cbn; lia|]. intros rest. exists []. done. }
  assert (length (take i (ordered sha256 root)) = i) as Hti by (rewrite length_take; lia).
  assert (ordered sha256 root !! i = Some c) as Hi.
  { rewrite E. apply list_lookup_middle. by rewrite Hti. }
  destruct (later_refs_exist _ _ Hi) as [idx Hidx]. pose proof (later_refs_index _ _ _ Hidx) as Hix.
  assert (small_cell c) as Hc by (rewrite Forall_lookup in Hsmall; by eapply Hsmall).
  assert (Forall (fun j => Z.of_nat j < 256 ^ Z.of_nat n) idx) as Hjs.
  { apply Forall_lookup. intros k j Hk. destruct (Forall2_lookup_r _ _ _ _ _ Hidx Hk) as (r & _ & _ & Hj).
    apply lookup_lt_Some in Hj. lia. }
  destruct (IH (S i)) as (zss & Ezss & Hzss & Hszss & Hrd).
  { apply lookup_lt_Some in Hi. lia. }
  { rewrite (take_S_r _ _ c Hi), <- app_assoc. exact E. }
  pose proof (serialize_cell_ok sha256 _ n c idx Hix) as Es.
  match type of Es with _ = Ok ?x => remember x as zs eqn:Ezs; clear Ezs end.
  exists (zs :: zss). cbn [mapM]. rewrite Es. cbn [mbind result_bind]. rewrite Ezss. split; [done|].
  change (mjoin (zs :: zss)) with (zs ++ mjoin zss).
  pose proof (serialized_length _ n c idx zs Hn Hc Hix Es).
  split_and!.
  - apply Forall_app. split; [|done]. by eapply (read_cell_ok sha256 _ n Hn c idx zs []).
  - rewrite length_app. cbn [length]. lia.
  - intros rest. destruct (Hrd rest) as (raws & Er & Eb). rewrite Uint8Array_app, <- app_assoc.
    destruct (read_cell_ok sha256 _ n Hn c idx zs (Uint8Array_from (mjoin zss) ++ rest) Hc Hix Hjs Es) as [Ec _].
    eexists (_ :: raws). cbn [length read_cells]. rewrite Ec. cbn [mbind result_bind]. rewrite Er.
    split; [done|]. apply build_step; [done|done|done| |done]. split; [done|]. exists idx. done.
Qed.
End Order.

(** ** Round trips *)

Lemma crc_byte crc i : 0 <= crc < 2 ^ 32 -> 0 <= i <= 3 ->
  js_and (js_shr crc (8 * i)) 255 = crc / 256 ^ i mod 256.
Proof.
  intros Hc Hi. unfold js_and, js_shr. rewrite (Z.mod_small (8 * i)) by lia.
  set (s := to_int32 crc).
  assert (- 2 ^ 31 <= s < 2 ^ 31 /\ (s = crc \/ s = crc - 2 ^ 32)) as [Hs Hsc].
  { unfold s, to_int32. rewrite (Z.mod_small crc) by done. destruct (Z.ltb_spec crc (2 ^ 31)); lia. }
  rewrite Z.shiftr_div_pow2, Z.pow_mul_r by lia. change (2 ^ 8) with 256.
  assert (i = 0 \/ i = 1 \/ i = 2 \/ i = 3) as Hi' by lia.
  rewrite !to_int32_small; [change 255 with (Z.ones 8); rewrite Z.land_ones by lia; change (2 ^ 8) with 256| lia |].
  all: destruct_or! Hi'; subst i; cbn [Z.pow Z.pow_pos Pos.iter Z.mul Pos.mul Pos.add]; divmod_lia.
Qed.

Definition boc_header (refSize offBytes cellCount totalDataSize : Z) : list Z :=
  [0xb5; 0xee; 0x9c; 0x72] ++ [js_or 64 refSize] ++ [offBytes] ++
  uintToBytes cellCount (Z.to_nat refSize) ++ uintToBytes 1 (Z.to_nat refSize) ++
  uintToBytes 0 (Z.to_nat refSize) ++ uintToBytes totalDataSize (Z.to_nat offBytes) ++
  uintToBytes 0 (Z.to_nat refSize).

Lemma boc_parse refSize offBytes cellCount total data raws rest cells root :
  1 <= refSize <= 3 -> 1 <= offBytes <= 3 -> 0 <= cellCount < 256 ^ refSize -> 0 <= total < 256 ^ offBytes ->
  read_cells (Z.to_nat cellCount) (Z.to_nat refSize) data = Ok (raws, rest) ->
  build 0 raws = Ok cells -> head cells = Some root ->
  bocToCell (Uint8Array_from (boc_header refSize offBytes cellCount total) ++ data) = Ok root.
Proof.
  intros Hr Ho Hc Ht Hread Hbuild Hroot.
  assert (forall v w rest, 1 <= w <= 3 -> 0 <= v < 256 ^ w ->
    readUint (Z.to_nat w) (Uint8Array_from (uintToBytes v (Z.to_nat w)) ++ rest) = Ok (v, rest)) as Hu.
  { intros v w r Hw Hv. apply readUint_bytes; [|lia]. by rewrite Z2Nat.id by lia. }
  assert (256 ^ 1 <= 256 ^ refSize) by (apply Z.pow_le_mono_r; lia).
  assert (js_and (bz (u8 (js_or 64 refSize))) 128 = 0 /\ js_and (bz (u8 (js_or 64 refSize))) 7 = refSize) as [Hf1 Hf2].
  { assert (refSize = 1 \/ refSize = 2 \/ refSize = 3) as Hc3 by lia. destruct_or! Hc3; subst; done. }
  unfold boc_header, bocToCell. rewrite !Uint8Array_app, <- !app_assoc.
  change (readUint 4 (Uint8Array_from [0xb5; 0xee; 0x9c; 0x72] ++ ?x)) with (Ok (0xb5ee9c72, x)).
  cbn [mbind result_bind check negb Z.eqb Pos.eqb].
  change (readByte (Uint8Array_from [?a] ++ ?x)) with (Ok (bz (u8 a), x)).
  cbn [mbind result_bind]. change (readByte (Uint8Array_from [?a] ++ ?x)) with (Ok (bz (u8 a), x)).
  cbn [mbind result_bind]. rewrite Hf1, Hf2. change (negb (0 =? 0)) with false. cbv iota.
  rewrite bz_u8_small by lia.
  do 3 (rewrite Hu by lia; cbn [mbind result_bind]). rewrite Hu by lia. cbn [mbind result_bind].
  change (Z.to_nat 1) with 1%nat. cbn [readUints]. rewrite Hu by lia. cbn [mbind result_bind].
  rewrite Hread. cbn [mbind result_bind]. rewrite Hbuild. cbn [mbind result_bind head require].
  change (Z.to_nat 0) with 0%nat. destruct cells; [done|]. injection Hroot as ->. done.
Qed.

(** The four checksum bytes, least significant first. *)
Definition load_le (l : bytes) : Z := Radix.of_digits 256 (reverse (bz <$> l)).

Lemma load_le_crc crc : 0 <= crc < 2 ^ 32 ->
  load_le (Uint8Array_from [js_and crc 255; js_and (js_shr crc 8) 255;
                            js_and (js_shr crc 16) 255; js_and (js_shr crc 24) 255]) = crc.
Proof.
  intros Hc. pose proof (crc_byte crc 1 Hc ltac:(lia)) as H1. pose proof (crc_byte crc 2 Hc ltac:(lia)) as H2.
  pose proof (crc_byte crc 3 Hc ltac:(lia)) as H3. pose proof (crc_byte crc 0 Hc ltac:(lia)) as H0.
  assert (js_and crc 255 = js_and (js_shr crc (8 * 0)) 255) as E0.
  { unfold js_and, js_shr. change ((8 * 0) mod 32) with 0. rewrite Z.shiftr_0_r. f_equal.
    unfold to_int32. destruct (Z.ltb_spec (crc mod 2 ^ 32) (2 ^ 31)); rewrite (Z.mod_small crc) in * by lia.
    - by rewrite Z.mod_small by lia; zcmp.
    - replace ((crc - 2 ^ 32) mod 2 ^ 32) with crc by (apply Z.mod_unique with (-1); lia). by zcmp. }
  change (8 * 1) with 8 in H1. change (8 * 2) with 16 in H2. change (8 * 3) with 24 in H3.
  rewrite E0, H0, H1, H2, H3. unfold load_le. rewrite bz_Uint8Array.
  - cbn [reverse rev_append]. unfold Radix.of_digits. cbn [foldl].
    change (256 ^ 0) with 1. change (256 ^ 1) with 256. change (256 ^ 2) with 65536. change (256 ^ 3) with 16777216.
    divmod_lia.
  - repeat constructor; apply Z.mod_pos_bound; lia.
Qed.

Lemma crc32c_range l : 0 <= crc32c l < 2 ^ 32.
Proof. unfold crc32c, js_ushr, to_uint32. change (0 mod 32) with 0. rewrite Z.shiftr_0_r. apply Z.mod_pos_bound. lia. Qed.

Lemma boc_roundtrip_full sha256 root :
  Forall small_cell (subcells root) ->
  (forall x y, x ∈ subcells root -> y ∈ subcells root -> hash sha256 x = hash sha256 y -> x = y) ->
  Z.of_nat (length (ordered sha256 root)) <= 118000 ->
  exists body crc, cellToBoc sha256 root = Ok (body ++ crc) /\
    length crc = 4%nat /\ load_le crc = crc32c body /\ bocToCell (body ++ crc) = Ok root.
Proof.
  intros Hsmall Hinj Hlen.
  assert (forall x y, x ∈ subcells root -> y ∈ subcells root -> hashHex sha256 x = hashHex sha256 y -> x = y) as Hk.
  { intros x y Hx Hy E. apply Hinj; [done|done|]. by apply bytesToHex_inj. }
  destruct (ordered_ok sha256 root Hk) as (_ & Hhead & Hsub & _).
  destruct (byteWidth_total (Z.of_nat (length (ordered sha256 root)))) as [rs Ers]; [lia|].
  destruct (byteWidth_ok _ _ Ers) as [Hrs Hrl]; [lia|].
  destruct (cells_read sha256 root Hk (Z.to_nat rs) ltac:(lia)) with (suf := ordered sha256 root) (i := 0%nat)
    as (zss & Ez & Hz & Hzl & Hrd); [by rewrite Z2Nat.id by lia| |lia|done|].
  { apply Forall_forall. intros x Hx. rewrite Forall_forall in Hsmall. auto. }
  destruct (byteWidth_total (Z.of_nat (length (mjoin zss)))) as [ob Eob]; [lia|].
  destruct (byteWidth_ok _ _ Eob) as [Hob Hol]; [lia|].
  unfold cellToBoc. rewrite Ers. cbn [require mbind result_bind]. rewrite Ez. cbn [mbind result_bind].
  rewrite Eob. cbn [require mbind result_bind].
  match goal with |- context [crc32c (Uint8Array_from ?o)] => set (out := o) end.
  assert (out = boc_header rs ob (Z.of_nat (length (ordered sha256 root))) (Z.of_nat (length (mjoin zss))) ++ mjoin zss) as Eo.
  { unfold out, boc_header. by rewrite <- !app_assoc. }
  clearbody out. subst out.
  rewrite (Uint8Array_app _ [js_and _ _; _; _; _]). eexists _, _. split; [reflexivity|]. split; [done|].
  split; [apply load_le_crc, crc32c_range|].
  match goal with |- bocToCell (_ ++ ?c) = _ => generalize c; intros crc end.
  destruct (Hrd crc) as (raws & Er & Eb).
  rewrite Uint8Array_app, <- app_assoc.
  eapply boc_parse; [done|done|lia|lia| |exact Eb|exact Hhead]. rewrite Nat2Z.id. exact Er.
Qed.

Lemma boc_parses sha256 root : Forall small_cell (subcells root) ->
  (forall x y, x ∈ subcells root -> y ∈ subcells root -> hash sha256 x = hash sha256 y -> x = y) ->
  Z.of_nat (length (ordered sha256 root)) <= 118000 ->
  exists boc, cellToBoc sha256 root = Ok boc /\ bocToCell boc = Ok root.
Proof.
  intros H1 H2 H3. destruct (boc_roundtrip_full sha256 root H1 H2 H3) as (body & crc & E & _ & _ & P). eauto.
Qed.

(** C39: serializing a cell and parsing it back gives the same tree.  For a
    tree of cells within the TON limits (1023 bits, four references) whose
    distinct subcells have distinct representation hashes, and which holds at
    most 118000 distinct cells (so that all sizes stay below the 2^24 that
    [byteWidth] supports), [cellToBoc] succeeds; its output ends in the
    little-endian crc32c of everything before it, and [bocToCell] returns the
    root with all of its bits and references. *)
Theorem boc_roundtrip sha256 root :
  Forall small_cell (subcells root) ->
  (forall x y, x ∈ subcells root -> y ∈ subcells root -> hash sha256 x = hash sha256 y -> x = y) ->
  Z.of_nat (length (ordered sha256 root)) <= 118000 ->
  exists body crc, cellToBoc sha256 root = Ok (body ++ crc) /\
    length crc = 4%nat /\ load_le crc = crc32c body /\ bocToCell (body ++ crc) = Ok root.
Proof. apply boc_roundtrip_full. Qed.

(** A tree with a shared cell and all the augmentation cases. *)
Definition toy_leaf : Cell := mkCell [true; false; true] [].
Definition toy_tree : Cell :=
  mkCell (replicate 16 true) [toy_leaf; mkCell [] [toy_leaf; mkCell (replicate 9 false) []]; toy_leaf].

Lemma boc_roundtrip_witness : exists body crc, cellToBoc toy_hash toy_tree = Ok (body ++ crc) /\
  length crc = 4%nat /\ load_le crc = crc32c body /\ bocToCell (body ++ crc) = Ok toy_tree.
Proof.
  apply (boc_roundtrip toy_hash toy_tree).
  - repeat (apply Forall_cons_2; [split; vm_compute; lia|]). constructor.
  - intros x y Hx Hy E. cbn in Hx, Hy.
    repeat (apply elem_of_cons in Hx as [Hx|Hx]; [|]); try by apply elem_of_nil in Hx.
    all: repeat (apply elem_of_cons in Hy as [Hy|Hy]; [|]); try by apply elem_of_nil in Hy.
    all: subst x y; first [reflexivity|exfalso; revert E; vm_compute; discriminate].
  - vm_compute. discriminate.
Defined.

(** ** What the builder writes *)

(** The address form [addr_std$10] without anycast. *)
Definition load_address (l : list bool) : option ((Z * bytes) * list bool) :=
  '(tag, r) ← load_uint 2 l;
  if tag =? 2 then
    '(anycast, r) ← load_uint 1 r;
    if anycast =? 0 then '(wc, r) ← load_int 8 r; '(h, r) ← load_bytes 32 r; Some ((wc, h), r) else None
  else None.

Definition address_bits (wc : Z) (h : bytes) : list bool :=
  bits_be 2 2 ++ [false] ++ bits_be 8 (wc mod 2 ^ 8) ++ buffer_bits h.

Lemma storeAddressInt_ok b wc h b' :
  storeAddressInt b wc h = Ok b' <->
  length h = 32%nat /\ -128 <= wc < 128 /\ b' = push_bits b (address_bits wc h).
Proof.
  unfold storeAddressInt, storeBuffer, storeBit, address_bits. split.
  - intros H. res_inv H. bool_prop. apply storeUint_ok in Hs0 as (_ & _ & ->).
    apply storeInt_ok in Hs1 as [Hwc ->]; [|lia]. split; [done|]. split; [exact Hwc|].
    rewrite !push_bits_app. done.
  - intros (Hl & Hwc & ->). rewrite (proj2 (Nat.eqb_eq _ _) Hl). cbn [negb check mbind result_bind].
    rewrite (proj2 (storeUint_ok b 2 2 _)) by (split_and!; [lia|lia|lia|reflexivity]). cbn [mbind result_bind].
    rewrite (proj2 (storeInt_ok _ wc 8 _ ltac:(lia))) by (split; [exact Hwc|reflexivity]).
    cbn [mbind result_bind]. rewrite !push_bits_app. done.
Qed.

Lemma load_address_bits wc h rest : length h = 32%nat -> -128 <= wc < 128 ->
  load_address (address_bits wc h ++ rest) = Some ((wc, h), rest).
Proof.
  intros Hh Hwc. unfold load_address, address_bits. rewrite <- !app_assoc.
  rewrite load_uint_bits by lia. cbn [mbind option_bind Z.eqb Pos.eqb].
  change [false] with (bits_be 1 0). rewrite load_uint_bits by lia. cbn [mbind option_bind Z.eqb].
  rewrite (load_int_bits 8) by (cbn; lia). cbn [mbind option_bind].
  pose proof (load_bytes_buffer h rest) as E. rewrite Hh in E. rewrite E. done.
Qed.

(** [b'] is [b] with one more field, from which [load] reads [v]. *)
Definition appends {A} (b b' : Builder) (load : list bool -> option (A * list bool)) (v : A) : Prop :=
  exists l, b' = push_bits b l /\ forall rest, load (l ++ rest) = Some (v, rest).

(** each [store] method of the builder accepts exactly the values that fit
    its field, keeps what was stored before, and appends a field from which
    the TL-B reader gives the stored value back: unsigned and signed integers
    of any width, [VarUInteger 16] amounts (below 2^120), and standard
    addresses (32-byte hash, signed 8-bit workchain). *)
Theorem builder_fields_roundtrip b :
  (forall v n, is_ok (storeUint b v n) = (0 <=? n) && (0 <=? v) && (v <? 2 ^ n)) /\
  (forall v n b', storeUint b v n = Ok b' -> appends b b' (load_uint (Z.to_nat n)) v) /\
  (forall v n, 1 <= n -> is_ok (storeInt b v n) = (- 2 ^ (n - 1) <=? v) && (v <? 2 ^ (n - 1))) /\
  (forall v n b', 1 <= n -> storeInt b v n = Ok b' -> appends b b' (load_int (Z.to_nat n)) v) /\
  (forall v, is_ok (storeCoins b v) = (0 <=? v) && (v <? 2 ^ 120)) /\
  (forall v b', storeCoins b v = Ok b' -> appends b b' load_coins v) /\
  (forall wc h, is_ok (storeAddressInt b wc h) = Nat.eqb (length h) 32 && (-128 <=? wc) && (wc <? 128)) /\
  (forall wc h b', storeAddressInt b wc h = Ok b' -> appends b b' load_address (wc, h)).
Proof.
  assert (forall {A} (r : result A) (t : bool), (t = true <-> exists x, r = Ok x) -> is_ok r = t) as Hok.
  { intros A [x|e] [] H; cbn; try done.
    - symmetry. apply H. eauto.
    - by destruct (proj1 H eq_refl). }
  split_and!.
  - intros v n. apply Hok. rewrite !andb_true_iff, !Z.leb_le, Z.ltb_lt.
    setoid_rewrite storeUint_ok. naive_solver lia.
  - intros v n b' (Hn & Hv & ->)%storeUint_ok. eexists. split; [done|]. intros rest.
    apply load_uint_bits. by rewrite Z2Nat.id.
  - intros v n Hn. apply Hok. rewrite !andb_true_iff, !Z.leb_le, Z.ltb_lt.
    setoid_rewrite (storeInt_ok _ _ _ _ Hn). naive_solver lia.
  - intros v n b' Hn (Hv & ->)%storeInt_ok; [|done]. eexists. split; [done|]. intros rest.
    by apply load_int_bits.
  - intros v. apply Hok. rewrite !andb_true_iff, !Z.leb_le, Z.ltb_lt.
    setoid_rewrite storeCoins_ok. naive_solver lia.
  - intros v b' (Hv & ->)%storeCoins_ok. eexists. split; [done|]. intros rest. by apply load_coins_bits.
  - intros wc h. apply Hok. rewrite !andb_true_iff, !Z.leb_le, Z.ltb_lt, Nat.eqb_eq.
    setoid_rewrite storeAddressInt_ok. naive_solver lia.
  - intros wc h b' (Hl & Hwc & ->)%storeAddressInt_ok. eexists. split; [done|]. intros rest. by apply load_address_bits.
Qed.

(** C40: [byteWidth] returns exactly for the values below 2^24, with the number
    of bytes that hold the value; for larger ones [1 << (8 * width)] wraps
    around and the loop never ends, whatever the number of iterations. *)
Theorem byteWidth_terminates_iff v : 0 <= v ->
  ((exists fuel w, byteWidth_loop fuel v 1 = Some w) <-> v < 2 ^ 24) /\
  (forall w, byteWidth v = Some w -> 1 <= w <= 3 /\ 256 ^ (w - 1) <= Z.max 1 v < 256 ^ w).
Proof.
  intros Hv. split; [split|].
  - intros (fuel & w & H). destruct (Z.lt_ge_cases v (2 ^ 24)); [done|].
    rewrite byteWidth_diverges in H by lia. done.
  - intros H. destruct (byteWidth_total v) as [w Hw]; [lia|]. exists 4%nat, w. exact Hw.
  - intros w H. destruct (byteWidth_ok v w H Hv) as [Hw Hlt]. split; [done|].
    unfold byteWidth in H. cbn [byteWidth_loop] in H.
    change (js_shl 1 (8 * 1)) with 256 in H. change (js_shl 1 (8 * (1 + 1))) with 65536 in H.
    assert (w = 1 \/ w = 2 \/ w = 3) as Hc by lia.
    destruct_or! Hc; subst w; destruct (Z.leb_spec 256 v); destruct (Z.leb_spec 65536 v); try done; lia.
Qed.

Lemma byteWidth_terminates_witness :
  ((exists fuel w, byteWidth_loop fuel (2 ^ 24) 1 = Some w) <-> 2 ^ 24 < 2 ^ 24) /\ byteWidth 65535 = Some 2.
Proof. split; [apply (byteWidth_terminates_iff (2 ^ 24)); lia|reflexivity]. Defined.

Lemma builder_fields_witness :
  exists b', storeInt beginCell (-1) 8 = Ok b' /\ appends beginCell b' (load_int 8) (-1).
Proof.
  eexists. split; [reflexivity|].
  apply (proj1 (proj2 (proj2 (proj2 (builder_fields_roundtrip beginCell)))) (-1) 8); [lia|reflexivity].
Defined.

(** ** The representation hash *)

Section Binding.
Context (sha256 : bytes -> bytes) (sha256_length : forall m, length (sha256 m) = 32%nat).

(** The bytes hashed for a cell. *)
Definition preimage (c : Cell) : bytes :=
  u8 (d1 c) :: u8 (d2 c) :: dataBytes c ++
  mjoin ((fun r => depth_bytes (depth r)) <$> refs_of c) ++ mjoin (hash sha256 <$> refs_of c).

Lemma hash_preimage c : hash sha256 c = sha256 (preimage c).
Proof using. by destruct c. Qed.

Lemma data_inj c k : (length (bits_of c) <= MAX_CELL_BITS)%nat -> (length (bits_of k) <= MAX_CELL_BITS)%nat ->
  d2 c = d2 k -> dataBytes c = dataBytes k -> bits_of c = bits_of k.
Proof using.
  intros Hc Hk Hd Hb. pose proof (unpack_data c Hc) as E1. pose proof (unpack_data k Hk) as E2.
  rewrite Hd, Hb in E1. rewrite E1 in E2. congruence.
Qed.

Lemma mjoin_inj (n : nat) (f : Cell -> bytes) l k : (forall x, length (f x) = n) -> length l = length k ->
  mjoin (f <$> l) = mjoin (f <$> k) -> Forall2 (fun x y => f x = f y) l k.
Proof using.
  intros Hf. revert k; induction l as [|x l IH]; intros [|y k] Hl E; try done.
  cbn in E. apply app_inj_length in E as [E1 E2]; [|by rewrite !Hf]. constructor; [done|].
  apply IH; [|done]. cbn in Hl. lia.
Qed.

Lemma preimage_inj c k : small_cell c -> small_cell k -> preimage c = preimage k ->
  bits_of c = bits_of k /\ Forall2 (fun x y => hash sha256 x = hash sha256 y) (refs_of c) (refs_of k).
Proof using sha256_length.
  intros [Hcb Hcr] [Hkb Hkr] E. unfold preimage in E. injection E as E1 E2 E.
  destruct (d2_spec c Hcb) as (Hd & Hdl & _), (d2_spec k Hkb) as (Hd' & Hdl' & _).
  unfold MAX_CELL_REFS in *.
  assert (d2 c = d2 k) as Ed by (rewrite <- (bz_u8_small (d2 c)), E2, bz_u8_small by lia; done).
  assert (d1 c = d1 k) as Er.
  { rewrite <- (bz_u8_small (d1 c)), E1, bz_u8_small by (unfold d1; lia). done. }
  assert (length (refs_of c) = length (refs_of k)) as Hrl by (unfold d1 in Er; lia).
  apply app_inj_length in E as [Eb E].
  2: { rewrite (proj1 (dataBytes_spec c)), (proj1 (dataBytes_spec k)). congruence. }
  split; [by apply data_inj|].
  apply app_inj_length in E as [_ E].
  - eapply (mjoin_inj 32 (hash sha256)); [|done|exact E]. intros x. by rewrite hash_preimage.
  - clear -Hrl. revert Hrl. generalize (refs_of k). induction (refs_of c) as [|x l IH]; intros [|y l'] H; try done.
    cbn in *. f_equal. f_equal. apply IH. lia.
Qed.

Lemma hash_tree_binding c k :
  Forall small_cell (subcells c) -> Forall small_cell (subcells k) -> hash sha256 c = hash sha256 k ->
  c = k \/ exists x y, x ∈ subcells c /\ y ∈ subcells k /\
             preimage x <> preimage y /\ sha256 (preimage x) = sha256 (preimage y).
Proof using sha256_length.
  revert k; induction c as [bits refs IH] using Cell_ind'. intros k Hc Hk E.
  destruct (decide (preimage (mkCell bits refs) = preimage k)) as [Ep|Np].
  2: { right. exists (mkCell bits refs), k. rewrite !hash_preimage in E. eauto using subcells_self. }
  destruct k as [bits' refs'].
  destruct (preimage_inj (mkCell bits refs) (mkCell bits' refs')) as [Eb Er].
  { rewrite Forall_forall in Hc. apply Hc, subcells_self. }
  { rewrite Forall_forall in Hk. apply Hk, subcells_self. }
  { exact Ep. }
  cbn [bits_of refs_of] in Eb, Er. subst bits'.
  assert (refs = refs' \/ exists r r' x y, r ∈ refs /\ r' ∈ refs' /\ x ∈ subcells r /\ y ∈ subcells r' /\
            preimage x <> preimage y /\ sha256 (preimage x) = sha256 (preimage y)) as [->|H].
  - clear E Ep. assert (forall r, r ∈ refs -> Forall small_cell (subcells r)) as Hc'.
    { intros r Hr. rewrite Forall_forall in Hc |- *. intros x Hx. apply Hc, elem_of_subcells. eauto. }
    assert (forall r, r ∈ refs' -> Forall small_cell (subcells r)) as Hk'.
    { intros r Hr. rewrite Forall_forall in Hk |- *. intros x Hx. apply Hk, elem_of_subcells. eauto. }
    clear Hc Hk. induction Er as [|r r' rs rs' Hrr _ IHr]; [by left|].
    apply Forall_cons in IH as [IH1 IH2].
    destruct (IH1 r') as [->|(x & y & H)]; [apply Hc'; left|apply Hk'; left|done| |].
    + destruct IHr as [->|(s & s' & x & y & Hs & Hs' & H)]; [done|set_solver|set_solver|by left|].
      right. exists s, s', x, y. set_solver.
    + right. exists r, r', x, y. set_solver.
  - by left.
  - right. destruct H as (r & r' & x & y & Hr & Hr' & Hx & Hy & H). exists x, y.
    rewrite !elem_of_subcells. naive_solver.
Qed.
(** the representation hash binds the whole tree.  If two trees of cells
    within the TON limits have the same hash, they are equal, or somewhere
    below them two cells have different hash inputs with the same SHA-256
    digest: a collision of SHA-256. *)
Theorem hash_binds_tree c k :
  Forall small_cell (subcells c) -> Forall small_cell (subcells k) -> hash sha256 c = hash sha256 k ->
  c = k \/ exists x y, x ∈ subcells c /\ y ∈ subcells k /\
             preimage x <> preimage y /\ sha256 (preimage x) = sha256 (preimage y).
Proof using sha256_length. apply hash_tree_binding. Qed.
End Binding.

Lemma hash_binds_witness :
  toy_tree <> toy_leaf /\ (toy_tree = toy_tree \/ exists x y, x ∈ subcells toy_tree /\ y ∈ subcells toy_tree /\
     preimage toy_hash x <> preimage toy_hash y /\ toy_hash (preimage toy_hash x) = toy_hash (preimage toy_hash y)).
Proof.
  split; [discriminate|].
  apply (hash_binds_tree toy_hash (fun m => length_pad32 _) toy_tree toy_tree);
    [repeat (apply Forall_cons_2; [split; vm_compute; lia|]); constructor..|reflexivity].
Defined.
