(* ===== verification/DepositBytes.v ===== *)
(** * Bytes and TON addresses of the deposit-address signer

    packages/lit-deposit-address/src/common/bytes.ts and common/address/ton.ts.
    The hex codec of @noble/hashes and the optional [Buffer] of the host are
    operations of [Noble] and [Host]; [atob] and [btoa] are written out. *)

From Stdlib Require Import Strings.Byte.
From S2P Require Import Prelude JsNum JsString Scanner HexBytes Bech32 HederaIds HederaTx ToyRuntime.
Local Open Scope Z_scope.
Local Open Scope js_scope.

(** ** External operations *)

(** @noble/hashes. *)
Class Noble := {
  noble_hexToBytes : jsstring -> result bytes;
  noble_bytesToHex : bytes -> jsstring;
  noble_sha256 : bytes -> bytes;
  noble_ripemd160 : bytes -> bytes;
  noble_keccak_256 : bytes -> bytes;
}.

(** [hexToBytes] accepts the even-length strings of hex digits; [bytesToHex]
    prints two lower-case digits per byte; digest lengths. *)
Class NobleLaws (N : Noble) : Prop := {
  noble_hex_domain : forall s,
    is_ok (noble_hexToBytes s) = forallb is_hex_digit s && Nat.eqb (length s mod 2) 0;
  noble_hex_value : forall s l, noble_hexToBytes s = Ok l -> l = parse_pairs s;
  noble_hex_print : forall l, noble_bytesToHex l = HexBytes.bytesToHex l;
  noble_sha256_length : forall m, length (noble_sha256 m) = 32%nat;
  noble_ripemd160_length : forall m, length (noble_ripemd160 m) = 20%nat;
  noble_keccak_length : forall m, length (noble_keccak_256 m) = 32%nat;
}.

(** The [Buffer] global of the host, if there is one. *)
Class Host := {
  Buffer_from_base64 : option (jsstring -> bytes);
  Buffer_to_base64 : option (bytes -> jsstring);
}.

(** ** Base64 *)

(** [btoa] on the bytes of a binary string. *)
Fixpoint btoa (l : bytes) : jsstring :=
  match l with
  | x :: y :: z :: r =>
      base64_char (bz x / 4) :: base64_char (bz x mod 4 * 16 + bz y / 16) ::
      base64_char (bz y mod 16 * 4 + bz z / 64) :: base64_char (bz z mod 64) :: btoa r
  | [x; y] => [base64_char (bz x / 4); base64_char (bz x mod 4 * 16 + bz y / 16);
               base64_char (bz y mod 16 * 4); 61]
  | [x] => [base64_char (bz x / 4); base64_char (bz x mod 4 * 16); 61; 61]
  | [] => []
  end.

Definition is_ascii_space (c : Z) : bool := bool_decide (c ∈ [9; 10; 12; 13; 32]).

(** Up to two final [=] of a text whose length is a multiple of four. *)
Definition drop_padding (s : jsstring) : jsstring :=
  if Nat.eqb (length s mod 4) 0 then
    match reverse s with
    | 61 :: 61 :: r => reverse r
    | 61 :: r => reverse r
    | _ => s
    end
  else s.

Fixpoint atob_groups (s : jsstring) : bytes :=
  match s with
  | a :: b :: c :: d :: r =>
      let a := base64_val a in let b := base64_val b in
      let c := base64_val c in let d := base64_val d in
      u8 (a * 4 + b / 16) :: u8 (b mod 16 * 16 + c / 4) :: u8 (c mod 4 * 64 + d) :: atob_groups r
  | [a; b; c] =>
      let a := base64_val a in let b := base64_val b in let c := base64_val c in
      [u8 (a * 4 + b / 16); u8 (b mod 16 * 16 + c / 4)]
  | [a; b] => [u8 (base64_val a * 4 + base64_val b / 16)]
  | _ => []
  end.

Definition atob (value : jsstring) : result bytes :=
  let s := drop_padding (filter (fun c => is_ascii_space c = false) value) in
  fail_if Nat.eqb (length s mod 4) 1 || negb (forallb is_base64 s) with "InvalidCharacterError" ;;
  Ok (atob_groups s).

Section Bytes.
Context `{N : Noble, H : Host}.

Definition hexToBytes (value : jsstring) (name : string) : result bytes :=
  catch (noble_hexToBytes (if startsWith value (js "0x") then drop 2 value else value))
    (name +:+ " must be an even-length hex string").

Definition bytesToHex (value : bytes) : jsstring := noble_bytesToHex value.

(** The loop of [numberToBytesLE]: bytes written so far, then the rest. *)
Fixpoint le_loop (n : nat) (current : Z) (out : bytes) : bytes * Z :=
  match n with
  | O => (out, current)
  | S n' => le_loop n' (Z.shiftr current 8) (out ++ [u8 (Z.land current 255)])
  end.
Definition numberToBytesLE (value : Z) (len : nat) : result bytes :=
  let '(out, current) := le_loop len value [] in
  fail_if negb (current =? 0) with "number does not fit in target length" ;;
  Ok out.

(** [for (i = value.length - 1; i >= 0; i--) out = (out << 8n) | BigInt(value[i])]. *)
Definition bytesToNumberLE (value : bytes) : Z :=
  foldl (fun out b => Z.lor (Z.shiftl out 8) (bz b)) 0 (reverse value).

Definition bytesToBase64 (l : bytes) : jsstring :=
  match Buffer_to_base64 with
  | Some f => f l
  | None => btoa l
  end.

Definition base64ToBytes (value : jsstring) : result bytes :=
  match Buffer_from_base64 with
  | Some f => Ok (f value)
  | None => atob value
  end.

(** ** TON addresses *)

(** [/^(-?\d+):([0-9a-fA-F]{64})$/]. *)
Definition RAW_ADDRESS_RE (s : jsstring) : option (jsstring * jsstring) :=
  let neg := startsWith s (js "-") in
  '(d, s) ← re_digits1 (if neg then drop 1 s else s);
  s ← re_lit (js ":") s;
  '(h, s) ← re_count 64 is_hex_digit s;
  _ ← re_end s;
  Some (if neg then js "-" ++ d else d, h).

Definition FRIENDLY_LENGTH : nat := 36.

(** [Number.parseInt(s, 10)] of a match of [-?\d+]. *)
Definition parseInt10 (s : jsstring) : Z :=
  if startsWith s (js "-") then - Radix.of_digits 10 (dec_val <$> drop 1 s)
  else Radix.of_digits 10 (dec_val <$> s).

Fixpoint crc16_bits (k : nat) (crc : Z) : Z :=
  match k with
  | O => crc
  | S k' =>
      crc16_bits k' (js_and (if negb (js_and crc 0x8000 =? 0) then js_xor (js_shl crc 1) 0x1021
                             else js_shl crc 1) 0xffff)
  end.
Definition crc16 (data : bytes) : Z :=
  foldl (fun crc b => crc16_bits 8 (js_xor crc (js_shl (bz b) 8))) 0 data.

Definition byte_at (l : bytes) (i : nat) : Z := default 0 (bz <$> l !! i).

Definition decodeFriendly (address : jsstring) : result bytes :=
  let normalized := (fun c => if c =? 45 then 43 else if c =? 95 then 47 else c) <$> address in
  l ← catch (base64ToBytes normalized) "invalid TON address";
  fail_if negb (Nat.eqb (length l) FRIENDLY_LENGTH) with "invalid TON address" ;;
  let payload := take 34 l in
  let checksum := js_or (js_shl (byte_at l 34) 8) (byte_at l 35) in
  fail_if negb (crc16 payload =? checksum) with "invalid TON address checksum" ;;
  let workchain := if byte_at payload 1 =? 255 then -1 else byte_at payload 1 in
  fail_if negb (workchain =? 0) with "TON address does not match the expected basechain" ;;
  Ok (drop 2 payload).

Definition encodeTonAddress (address : jsstring) : result bytes :=
  match RAW_ADDRESS_RE (trim address) with
  | Some (wc, h) =>
      fail_if negb (parseInt10 wc =? 0) with "TON address does not match the expected basechain" ;;
      hexToBytes h "ton address"
  | None => decodeFriendly (trim address)
  end.

Definition encodeTonAddressToHex (address : jsstring) : result jsstring :=
  b ← encodeTonAddress address; Ok (js "0x" ++ bytesToHex b).

Definition decodeTonAddress (encoded : bytes) : result jsstring :=
  fail_if negb (Nat.eqb (length encoded) 32) with "invalid TON address byte length" ;;
  Ok (js "0:" ++ bytesToHex encoded).
End Bytes.

(** ** Lemmas *)

(** Node's [Buffer] reads and writes standard base64. *)
Class HostLaws (H : Host) : Prop := {
  buffer_from_law : forall f, Buffer_from_base64 = Some f -> forall l, f (btoa l) = l;
  buffer_to_law : forall f, Buffer_to_base64 = Some f -> forall l, f l = btoa l;
}.

Lemma btoa_ind (P : bytes -> Prop) : P [] -> (forall x, P [x]) -> (forall x y, P [x; y]) ->
  (forall x y z r, P r -> P (x :: y :: z :: r)) -> forall l, P l.
Proof.
  intros H0 H1 H2 H3. refine (fix F l := match l with
    | [] => H0 | [x] => H1 x | [x; y] => H2 x y | x :: y :: z :: r => H3 x y z r (F r) end).
Qed.

Lemma mod4_add4 n : (S (S (S (S n))) mod 4 = n mod 4)%nat.
Proof.
  change (S (S (S (S n)))) with (4 + n)%nat. rewrite <- Nat.Div0.add_mod_idemp_l.
  change (4 mod 4)%nat with 0%nat. done.
Qed.

Lemma btoa_split l : exists body k, btoa l = body ++ replicate k 61 /\ (k <= 2)%nat /\
  (length (btoa l) mod 4 = 0)%nat /\ (length body mod 4 <> 1)%nat /\
  Forall (fun c => is_base64 c = true) body /\ atob_groups body = l.
Proof.
  assert (forall v, 0 <= v < 64 -> is_base64 (base64_char v) = true) as Hb by (intros v Hv; by apply base64_val_char).
  assert (forall v, 0 <= v < 64 -> base64_val (base64_char v) = v) as Hv by (intros v Hv; by apply base64_val_char).
  induction l as [|x|x y|x y z r (body & k & E & Hk & Hm & Hl & HF & Hd)] using btoa_ind.
  - exists [], 0%nat. split_and!; done || lia || constructor.
  - pose proof (bz_range x). exists [base64_char (bz x / 4); base64_char (bz x mod 4 * 16)], 2%nat.
    split_and!; [done|lia|done|done| |].
    + repeat constructor; apply Hb; divmod_lia.
    + cbn [atob_groups]. rewrite !Hv by divmod_lia. f_equal. rewrite <- (u8_bz x) at 3. f_equal. divmod_lia.
  - destruct (base64_group x y x00) as ((Ha & Hb2 & Hc & _) & E1 & E2 & _). change (bz x00 / 64) with 0 in *.
    rewrite Z.add_0_r in *.
    exists [base64_char (bz x / 4); base64_char (bz x mod 4 * 16 + bz y / 16); base64_char (bz y mod 16 * 4)], 1%nat.
    split_and!; [done|lia|done|done| |].
    + repeat constructor; by apply Hb.
    + cbn [atob_groups]. rewrite !Hv by done. by rewrite E1, E2, !u8_bz.
  - destruct (base64_group x y z) as ((Ha & Hb2 & Hc & Hd2) & E1 & E2 & E3).
    eexists (_ :: _ :: _ :: _ :: body), k. cbn [btoa]. rewrite E. split_and!; [reflexivity|done| | | |].
    + cbn [length]. by rewrite mod4_add4, <- E.
    + cbn [length]. by rewrite mod4_add4.
    + repeat (constructor; [by apply Hb|]). done.
    + cbn [atob_groups]. rewrite !Hv by done. by rewrite E1, E2, E3, !u8_bz, Hd.
Qed.

Lemma base64_symbol c : is_base64 c = true -> c <> 61 /\ is_ascii_space c = false.
Proof.
  intros H. unfold is_ascii_space. split; [by intros ->|]. apply bool_decide_eq_false. intros Hc.
  repeat (apply elem_of_cons in Hc as [->|Hc]; [discriminate H|]). by apply elem_of_nil in Hc.
Qed.

Lemma filter_all {A} (P : A -> Prop) `{forall x, Decision (P x)} l : Forall P l -> filter P l = l.
Proof. induction 1 as [|x l Hx _ IH]; [done|]. rewrite filter_cons_True by done. by rewrite IH. Qed.

Lemma atob_btoa l : atob (btoa l) = Ok l.
Proof.
  destruct (btoa_split l) as (body & k & E & Hk & Hm & Hl & HF & Hd). unfold atob.
  assert (filter (fun c => is_ascii_space c = false) (btoa l) = btoa l) as ->.
  { apply filter_all. rewrite E. apply Forall_app. split.
    - eapply Forall_impl; [exact HF|]. intros c Hc. by apply base64_symbol.
    - apply Forall_replicate. done. }
  assert (drop_padding (btoa l) = body) as ->.
  { unfold drop_padding. rewrite Hm. cbn [Nat.eqb]. rewrite E, reverse_app, reverse_replicate.
    assert (forall c s, reverse body = c :: s -> c <> 61) as Hc.
    { intros c s Es. apply (base64_symbol c). rewrite Forall_forall in HF. apply HF.
      apply elem_of_reverse. rewrite Es. left. }
    assert (reverse (reverse body) = body) as R by apply reverse_involutive.
    destruct k as [|[|[|]]]; [| |by cbn|lia]; cbn [replicate app].
    - rewrite app_nil_r. destruct (reverse body) as [|c s] eqn:Es; [done|].
      specialize (Hc c s eq_refl). by repeat case_match; simplify_eq.
    - destruct (reverse body) as [|c s] eqn:Es; [done|].
      specialize (Hc c s eq_refl). by repeat case_match; simplify_eq. }
  rewrite (proj2 (Nat.eqb_neq _ _) Hl). apply forallb_Forall in HF. rewrite HF. cbn. by rewrite Hd.
Qed.

(** ** CRC16 *)

(** One step of the inner loop on 16-bit values, and its inverse. *)
Definition crc16_unstep (c : Z) : Z :=
  if Z.odd c then Z.lxor c 0x1021 / 2 + 0x8000 else c / 2.

Lemma lxor_16 c d : 0 <= c < 65536 -> 0 <= d < 65536 -> 0 <= Z.lxor c d < 65536.
Proof. apply (lxor_bound c d 16). lia. Qed.

Lemma land_top c : 0 <= c < 65536 -> (js_and c 0x8000 =? 0) = (c <? 0x8000).
Proof.
  intros Hc. unfold js_and. rewrite !to_int32_small by lia.
  assert (Z.land c (2 ^ 15) = if Z.testbit c 15 then 2 ^ 15 else 0) as E.
  { apply Z.bits_inj'. intros k Hk. rewrite Z.land_spec, Z.pow2_bits_eqb by lia.
    destruct (Z.eqb_spec 15 k) as [<-|Hne].
    - rewrite andb_true_r. destruct (Z.testbit c 15); [by rewrite Z.pow2_bits_true|by rewrite Z.bits_0].
    - rewrite andb_false_r. destruct (Z.testbit c 15); [by rewrite Z.pow2_bits_false|by rewrite Z.bits_0]. }
  change 0x8000 with (2 ^ 15). rewrite E, Z.testbit_odd, Z.shiftr_div_pow2 by lia.
  destruct (Z.ltb_spec c (2 ^ 15)).
  - by rewrite Z.div_small by lia.
  - replace (c / 2 ^ 15) with 1 by (apply Z.div_unique with (c - 2 ^ 15); lia). done.
Qed.

Lemma land_lxor a b m : Z.land (Z.lxor a b) m = Z.lxor (Z.land a m) (Z.land b m).
Proof.
  apply Z.bits_inj'. intros k _. rewrite Z.land_spec, !Z.lxor_spec, !Z.land_spec.
  by destruct (Z.testbit a k), (Z.testbit b k), (Z.testbit m k).
Qed.

(** The loop body on 16-bit values. *)
Lemma crc16_bits_1 c : 0 <= c < 65536 ->
  crc16_bits 1 c = if c <? 0x8000 then 2 * c else Z.lxor (2 * c - 65536) 0x1021.
Proof.
  intros Hc. cbn [crc16_bits]. rewrite land_top by done.
  assert (js_shl c 1 = 2 * c) as ->.
  { unfold js_shl. change (1 mod 32) with 1. rewrite (to_int32_small c), Z.shiftl_mul_pow2 by lia.
    rewrite to_int32_small by lia. lia. }
  unfold js_and, js_xor. change 0xffff with (Z.ones 16). rewrite (to_int32_small (Z.ones 16)) by done.
  destruct (Z.ltb_spec c 0x8000); cbn [negb].
  - rewrite to_int32_small, Z.land_ones by lia. apply Z.mod_small. lia.
  - rewrite (to_int32_small (2 * c)), (to_int32_small 0x1021) by lia.
    pose proof (lxor_bound (2 * c) 0x1021 17 ltac:(lia) ltac:(lia) ltac:(lia)).
    rewrite to_int32_small, land_lxor, Z.land_ones by lia. f_equal.
    symmetry. apply Z.mod_unique with 1; lia.
Qed.

Lemma crc16_step c : 0 <= c < 65536 ->
  crc16_unstep (crc16_bits 1 c) = c /\ 0 <= crc16_bits 1 c < 65536.
Proof.
  intros Hc. rewrite crc16_bits_1 by done. unfold crc16_unstep. destruct (Z.ltb_spec c 0x8000).
  - rewrite Z.odd_mul. cbn [Z.odd andb]. split; [|lia]. rewrite Z.mul_comm. apply Z.div_mul. lia.
  - split; [|apply lxor_16; lia].
    rewrite <- Z.bit0_odd, Z.lxor_spec. replace (2 * c - 65536) with (2 * (c - 0x8000)) by lia.
    rewrite Z.testbit_even_0. cbn [xorb]. change (Z.testbit 0x1021 0) with true. cbn [xorb].
    rewrite Z.lxor_assoc, Z.lxor_nilpotent, Z.lxor_0_r.
    rewrite (Z.mul_comm 2), Z.div_mul by lia. lia.
Qed.

Lemma crc16_bits_inj k c d : 0 <= c < 65536 -> 0 <= d < 65536 ->
  (crc16_bits k c = crc16_bits k d -> c = d) /\ 0 <= crc16_bits k c < 65536.
Proof.
  revert c d; induction k as [|k IH]; intros c d Hc Hd; [cbn; split; [done|lia]|].
  destruct (crc16_step c Hc) as [Ec Hc'], (crc16_step d Hd) as [Ed Hd'].
  change (crc16_bits (S k) c) with (crc16_bits k (crc16_bits 1 c)).
  change (crc16_bits (S k) d) with (crc16_bits k (crc16_bits 1 d)).
  destruct (IH _ _ Hc' Hd') as [Hi Hr]. split; [|done]. intros E. apply Hi in E. congruence.
Qed.

Lemma crc16_input c b : 0 <= c < 65536 -> js_xor c (js_shl (bz b) 8) = Z.lxor c (bz b * 256).
Proof.
  intros Hc. pose proof (bz_range b). unfold js_xor, js_shl.
  change (8 mod 32) with 8. rewrite (to_int32_small (bz b)), Z.shiftl_mul_pow2 by lia.
  change (2 ^ 8) with 256. rewrite (to_int32_small (bz b * 256)), (to_int32_small (bz b * 256)), (to_int32_small c) by lia. done.
Qed.

Definition crc16_from (crc : Z) (data : bytes) : Z :=
  foldl (fun crc b => crc16_bits 8 (js_xor crc (js_shl (bz b) 8))) crc data.

Lemma crc16_from_inj data c d : 0 <= c < 65536 -> 0 <= d < 65536 ->
  (crc16_from c data = crc16_from d data -> c = d) /\ 0 <= crc16_from c data < 65536.
Proof.
  revert c d; induction data as [|b data IH]; intros c d Hc Hd; [cbn; split; [done|lia]|]. cbn [crc16_from foldl].
  pose proof (bz_range b). rewrite !crc16_input by done.
  assert (forall x, 0 <= x < 65536 -> 0 <= Z.lxor x (bz b * 256) < 65536) as Hx by (intros; apply lxor_16; lia).
  destruct (crc16_bits_inj 8 _ _ (Hx c Hc) (Hx d Hd)) as [Hi Hr].
  destruct (crc16_bits_inj 8 _ _ (Hx d Hd) (Hx c Hc)) as [_ Hr'].
  destruct (IH _ _ Hr Hr') as [Hi2 Hr2]. split; [|exact Hr2].
  intros E. apply Hi2, Hi in E. apply (f_equal (fun z => Z.lxor z (bz b * 256))) in E.
  by rewrite !Z.lxor_assoc, Z.lxor_nilpotent, !Z.lxor_0_r in E.
Qed.

(** A change of one byte always changes the checksum. *)
Lemma crc16_one_byte pre x y post : x <> y -> crc16 (pre ++ x :: post) <> crc16 (pre ++ y :: post).
Proof.
  intros Hxy E. unfold crc16 in E. rewrite !foldl_app in E. cbn [foldl] in E.
  destruct (crc16_from_inj pre 0 0 ltac:(lia) ltac:(lia)) as [_ Hc]. unfold crc16_from in Hc.
  set (c := foldl _ 0 pre) in *. rewrite !crc16_input in E by done.
  pose proof (bz_range x). pose proof (bz_range y).
  destruct (crc16_bits_inj 8 (Z.lxor c (bz x * 256)) (Z.lxor c (bz y * 256))) as [Hi Hr]; [apply lxor_16; lia..|].
  destruct (crc16_bits_inj 8 (Z.lxor c (bz y * 256)) 0) as [_ Hr']; [apply lxor_16; lia|lia|].
  apply (crc16_from_inj post _ _ Hr Hr') in E. apply Hi in E.
  apply (f_equal (Z.lxor c)) in E. rewrite <- !Z.lxor_assoc, Z.lxor_nilpotent, !Z.lxor_0_l in E.
  apply Hxy, bz_inj. lia.
Qed.

(** ** Hex and TON addresses *)

Section AddressLemmas.
Context `{N : Noble, !NobleLaws N, H : Host, !HostLaws H}.

Lemma noble_hexToBytes_ok s name l :
  hexToBytes s name = Ok l <->
  let t := if startsWith s (js "0x") then drop 2 s else s in
  Forall (fun c => is_hex_digit c = true) t /\ (length t mod 2 = 0)%nat /\ l = parse_pairs t.
Proof using NobleLaws0.
  unfold hexToBytes. rewrite catch_ok. cbv zeta. 
  generalize (if startsWith s (js "0x") then drop 2 s else s). intros t.
  rewrite <- forallb_Forall. pose proof (noble_hex_domain t) as D. split.
  - intros E. rewrite E in D. cbn in D. symmetry in D. apply andb_true_iff in D as [D1 D2].
    apply Nat.eqb_eq in D2. split_and!; [done|done|by apply noble_hex_value].
  - intros (D1 & D2 & ->). rewrite D1, D2 in D. cbn in D.
    destruct (noble_hexToBytes t) eqn:E; [|done]. f_equal. by apply noble_hex_value.
Qed.

Lemma hexToBytes_print l name : hexToBytes (HexBytes.bytesToHex l) name = Ok l.
Proof using NobleLaws0.
  apply noble_hexToBytes_ok. pose proof (bytesToHex_hex l) as HF.
  assert (Forall (fun c => is_hex_digit c = true) (HexBytes.bytesToHex l)) as HF'.
  { eapply Forall_impl; [exact HF|]. naive_solver. }
  assert (startsWith (HexBytes.bytesToHex l) (js "0x") = false) as ->.
  { unfold startsWith. apply bool_decide_eq_false. intros E. clear HF.
    destruct (HexBytes.bytesToHex l) as [|a [|b r]]; try done. cbn in E. injection E as -> ->.
    apply Forall_cons_1 in HF' as [_ HF']. by apply Forall_cons_1 in HF' as [HF' _]. }
  split_and!; [done|rewrite length_bytesToHex; apply even_mod2|by rewrite parse_pairs_bytesToHex].
Qed.

Lemma hexToBytes_print_0x l name : hexToBytes (js "0x" ++ HexBytes.bytesToHex l) name = Ok l.
Proof using NobleLaws0.
  apply noble_hexToBytes_ok. change (startsWith (js "0x" ++ HexBytes.bytesToHex l) (js "0x")) with true.
  change (drop 2 (js "0x" ++ HexBytes.bytesToHex l)) with (HexBytes.bytesToHex l). pose proof (bytesToHex_hex l) as HF.
  split_and!; [|rewrite length_bytesToHex; apply even_mod2|by rewrite parse_pairs_bytesToHex].
  eapply Forall_impl; [exact HF|]. naive_solver.
Qed.

Lemma base64ToBytes_btoa l : base64ToBytes (btoa l) = Ok l.
Proof using HostLaws0.
  unfold base64ToBytes. destruct Buffer_from_base64 as [f|] eqn:E; [by rewrite (buffer_from_law f E)|apply atob_btoa].
Qed.

Lemma bytesToBase64_btoa l : bytesToBase64 l = btoa l.
Proof using HostLaws0.
  unfold bytesToBase64. destruct Buffer_to_base64 as [f|] eqn:E; [by rewrite (buffer_to_law f E)|done].
Qed.

(** The user-facing form of an address: tag, workchain, account hash, CRC16. *)
Definition friendly (tag : byte) (h : bytes) : jsstring :=
  let p := tag :: x00 :: h in btoa (p ++ [u8 (crc16 p / 256); u8 (crc16 p mod 256)]).

(** The url-safe alphabet. *)
Definition url_safe (s : jsstring) : jsstring :=
  (fun c => if c =? 43 then 45 else if c =? 47 then 95 else c) <$> s.

(** The symbols of either base64 alphabet. *)
Definition address_symbol (c : Z) : Prop := is_base64 c = true \/ c = 61 \/ c = 45 \/ c = 95.

Lemma btoa_symbols l : Forall (fun c => is_base64 c = true \/ c = 61) (btoa l).
Proof using.
  destruct (btoa_split l) as (body & k & -> & _ & _ & _ & HF & _). apply Forall_app. split.
  - eapply Forall_impl; [exact HF|]. auto.
  - apply Forall_replicate. auto.
Qed.

Lemma RAW_ADDRESS_RE_colon s r : RAW_ADDRESS_RE s = Some r -> 58 ∈ s.
Proof using.
  unfold RAW_ADDRESS_RE. intros E. scan_inv E.
  apply re_digits1_sound in Sc as [Es _]. apply re_lit_sound in Sc0 as ->.
  assert (58 ∈ if startsWith s (js "-") then drop 1 s else s) as Hin.
  { rewrite Es. apply elem_of_app. right. left. }
  destruct (startsWith s (js "-")); [|done].
  rewrite <- (take_drop 1 s). apply elem_of_app. by right.
Qed.

Lemma symbols_not_raw s : Forall address_symbol s -> trim s = s /\ RAW_ADDRESS_RE s = None.
Proof using.
  intros HF. rewrite Forall_forall in HF. split.
  - apply trim_id. intros c Hc. destruct (HF c Hc) as [Hb|[->|[->| ->]]]; try done.
    unfold is_space. apply orb_false_iff. split.
    + apply bool_decide_eq_false. intros Hs.
      repeat (apply elem_of_cons in Hs as [->|Hs]; [discriminate Hb|]). by apply elem_of_nil in Hs.
    + unfold is_base64, in_range in *. destruct (Z.leb_spec 8192 c); [|done]. cbn [andb].
      exfalso. revert Hb. zcmp. cbn. zcmp. done.
  - destruct (RAW_ADDRESS_RE s) as [r|] eqn:E; [|done]. apply RAW_ADDRESS_RE_colon in E.
    destruct (HF _ E) as [|[|[|]]]; done.
Qed.

Lemma normalize_symbols l :
  (fun c => if c =? 45 then 43 else if c =? 95 then 47 else c) <$> btoa l = btoa l /\
  (fun c => if c =? 45 then 43 else if c =? 95 then 47 else c) <$> url_safe (btoa l) = btoa l.
Proof using.
  pose proof (btoa_symbols l) as HF.
  assert (forall c, is_base64 c = true \/ c = 61 -> c <> 45 /\ c <> 95) as Hne.
  { intros c [Hc| ->]; [|done]. split; by intros ->. }
  unfold url_safe. rewrite <- list_fmap_compose. split.
  - rewrite <- (list_fmap_id (btoa l)) at 2. apply Forall_fmap_ext_1.
    eapply Forall_impl; [exact HF|]. intros c Hc. apply Hne in Hc as [? ?]. cbn. by zcmp.
  - rewrite <- (list_fmap_id (btoa l)) at 2. apply Forall_fmap_ext_1.
    eapply Forall_impl; [exact HF|]. intros c Hc. apply Hne in Hc as [? ?]. cbn.
    destruct (Z.eqb_spec c 43) as [->|]; [done|]. destruct (Z.eqb_spec c 47) as [->|]; [done|]. by zcmp.
Qed.

Lemma btoa_address l :
  encodeTonAddress (btoa l) = decodeFriendly (btoa l) /\
  encodeTonAddress (url_safe (btoa l)) = decodeFriendly (btoa l).
Proof using.
  pose proof (btoa_symbols l) as HF. unfold encodeTonAddress.
  destruct (symbols_not_raw (btoa l)) as [-> ->].
  { eapply Forall_impl; [exact HF|]. unfold address_symbol. intros; cbn in *. tauto. }
  destruct (symbols_not_raw (url_safe (btoa l))) as [-> ->].
  { apply Forall_fmap. eapply Forall_impl; [exact HF|]. intros c Hc. cbn. unfold address_symbol.
    destruct (Z.eqb_spec c 43); [tauto|]. destruct (Z.eqb_spec c 47); [tauto|]. cbn in Hc. tauto. }
  split; [done|]. unfold decodeFriendly. by destruct (normalize_symbols l) as [-> ->].
Qed.

Lemma checksum_value a b : 0 <= a < 256 -> 0 <= b < 256 -> js_or (js_shl a 8) b = a * 256 + b.
Proof using.
  intros Ha Hb. unfold js_or, js_shl. change (8 mod 32) with 8. rewrite (to_int32_small a) by lia.
  assert (0 <= Z.shiftl a 8 < 65536) by (rewrite Z.shiftl_mul_pow2 by lia; lia).
  rewrite (to_int32_small (Z.shiftl a 8)), (to_int32_small (Z.shiftl a 8)), (to_int32_small b) by lia.
  by apply (lor_shift_add a b 8).
Qed.

Lemma byte_at_range l i : 0 <= byte_at l i < 256.
Proof using. unfold byte_at. destruct (l !! i) as [b|]; cbn; [apply bz_range|lia]. Qed.

(** What the friendly form must contain. *)
Lemma decodeFriendly_btoa l h :
  decodeFriendly (btoa l) = Ok h <->
  length l = 36%nat /\ crc16 (take 34 l) = byte_at l 34 * 256 + byte_at l 35 /\
  byte_at l 1 = 0 /\ h = drop 2 (take 34 l).
Proof using HostLaws0.
  unfold decodeFriendly. rewrite (proj1 (normalize_symbols l)), base64ToBytes_btoa. cbn [catch mbind result_bind].
  rewrite checksum_value by apply byte_at_range. unfold FRIENDLY_LENGTH.
  assert (byte_at (take 34 l) 1 = byte_at l 1) as -> by (unfold byte_at; by rewrite lookup_take_lt by lia).
  pose proof (byte_at_range l 1) as Hb. split.
  - intros E. res_inv E. bool_prop. split_and!; [done|done| |done].
    destruct (Z.eqb_spec (byte_at l 1) 255); [discriminate|done].
  - intros (Hl & Hc & Hw & ->). rewrite Hl, Hc, Hw, !Z.eqb_refl. done.
Qed.

Lemma friendly_fields tag h : length h = 32%nat ->
  let p := tag :: x00 :: h in let l := p ++ [u8 (crc16 p / 256); u8 (crc16 p mod 256)] in
  length l = 36%nat /\ take 34 l = p /\ crc16 p = byte_at l 34 * 256 + byte_at l 35 /\ byte_at l 1 = 0.
Proof using.
  intros Hh p l. assert (length p = 34%nat) as Hp by (unfold p; cbn; lia).
  destruct (crc16_from_inj p 0 0 ltac:(lia) ltac:(lia)) as [_ Hc]. change (crc16_from 0 p) with (crc16 p) in Hc.
  unfold l. clear l. revert Hc. generalize (crc16 p). intros c Hc.
  unfold byte_at. rewrite length_app, Hp, (take_length_app p _ 34) by (symmetry; exact Hp).
  split; [done|]. split; [done|].
  rewrite (lookup_app_r p _ 34), (lookup_app_r p _ 35), Hp by lia.
  assert (0 <= c / 256 < 256 /\ 0 <= c mod 256 < 256 /\ c = c / 256 * 256 + c mod 256) as (B1 & B2 & E) by divmod_lia.
  change (c = bz (u8 (c / 256)) * 256 + bz (u8 (c mod 256)) /\ bz x00 = 0).
  by rewrite !bz_u8_small by done.
Qed.

(** Replacing one byte of an accepted friendly address. *)
Lemma friendly_one_byte l i b : length l = 36%nat -> (i < 36)%nat -> <[i := b]> l <> l ->
  is_ok (decodeFriendly (btoa l)) = true -> is_ok (decodeFriendly (btoa (<[i := b]> l))) = false.
Proof using HostLaws0.
  intros Hl Hi Hne E. destruct (decodeFriendly (btoa l)) as [h|] eqn:E1; [|done].
  destruct (decodeFriendly (btoa (<[i := b]> l))) as [h'|] eqn:E2; [exfalso|done].
  apply decodeFriendly_btoa in E1 as (_ & C1 & _ & _), E2 as (_ & C2 & _ & _).
  destruct (lookup_lt_is_Some_2 l i ltac:(lia)) as [x Hx].
  assert (x <> b) as Hxb by (intros ->; by rewrite list_insert_id in Hne).
  destruct (Nat.lt_ge_cases i 34) as [Hlt|Hge].
  - assert (byte_at (<[i:=b]> l) 34 = byte_at l 34 /\ byte_at (<[i:=b]> l) 35 = byte_at l 35) as [E34 E35].
    { unfold byte_at. by rewrite !list_lookup_insert_ne by lia. }
    rewrite E34, E35, <- C1 in C2. rewrite take_insert_lt in C2 by lia.
    assert (take 34 l !! i = Some x) as Ht by (by rewrite lookup_take_lt).
    apply (crc16_one_byte (take i (take 34 l)) b x (drop (S i) (take 34 l))); [done|].
    rewrite (take_drop_middle _ _ _ Ht). rewrite <- C2. f_equal.
    rewrite insert_take_drop; [done|]. rewrite length_take. lia.
  - rewrite take_insert_ge, C1 in C2 by lia.
    pose proof (byte_at_range l 34). pose proof (byte_at_range l 35).
    pose proof (byte_at_range (<[i:=b]> l) 34). pose proof (byte_at_range (<[i:=b]> l) 35).
    assert (byte_at (<[i:=b]> l) i = byte_at l i) as Eb.
    { assert (i = 34 \/ i = 35)%nat as [->| ->] by lia; divmod_lia. }
    unfold byte_at in Eb. rewrite list_lookup_insert_eq, Hx in Eb by lia. cbn in Eb.
    apply Hxb, bz_inj. congruence.
Qed.

(** The raw form [0:<hex>] of an account hash. *)
Lemma decode_ton_raw h : length h = 32%nat -> decodeTonAddress h = Ok (js "0:" ++ HexBytes.bytesToHex h).
Proof using All. intros Hh. unfold decodeTonAddress, bytesToHex. rewrite Hh, noble_hex_print. done. Qed.

Lemma encode_ton_raw h : length h = 32%nat -> encodeTonAddress (js "0:" ++ HexBytes.bytesToHex h) = Ok h.
Proof using All.
  intros Hh. assert (Forall (fun c => is_hex_digit c = true) (HexBytes.bytesToHex h)) as HF.
  { eapply Forall_impl; [apply bytesToHex_hex|]. naive_solver. }
  unfold encodeTonAddress. rewrite trim_id.
  2: { intros c Hc. do 2 (apply elem_of_cons in Hc as [->|Hc]; [done|]). rewrite Forall_forall in HF.
       specialize (HF c Hc). revert HF. clear. unfold is_space. intros HF. apply orb_false_iff. split.
       - apply bool_decide_eq_false. intros Hs.
         repeat (apply elem_of_cons in Hs as [->|Hs]; [discriminate HF|]). by apply elem_of_nil in Hs.
       - revert HF. unfold is_hex_digit, in_range. destruct (Z.leb_spec 8192 c); [|done]. zcmp. by cbn. }
  assert (RAW_ADDRESS_RE (js "0:" ++ HexBytes.bytesToHex h) = Some (js "0", HexBytes.bytesToHex h)) as ->.
  { unfold RAW_ADDRESS_RE. change (startsWith (js "0:" ++ HexBytes.bytesToHex h) (js "-")) with false. cbv iota.
    change (js "0:" ++ HexBytes.bytesToHex h) with (js "0" ++ js ":" ++ HexBytes.bytesToHex h).
    rewrite re_digits1_complete; [|by repeat constructor|done|by apply no_digit_cons].
    cbn [mbind option_bind]. rewrite re_lit_complete. cbn [mbind option_bind].
    rewrite <- (app_nil_r (HexBytes.bytesToHex h)) at 1.
    rewrite (re_count_complete 64 is_hex_digit (HexBytes.bytesToHex h) []); [done| |exact HF].
    rewrite length_bytesToHex, Hh. done. }
  change (parseInt10 (js "0") =? 0) with true. cbn [negb check mbind result_bind]. apply hexToBytes_print.
Qed.

(** the two textual forms of a TON account address.  A 32-byte account
    hash prints as [0:<hex>] and reads back; its friendly form (any tag byte,
    workchain 0, CRC16), in the standard or the url-safe base64 alphabet,
    reads as the same hash; and replacing any one byte of an accepted friendly
    address makes it rejected. *)
Theorem ton_address_codec h tag : length h = 32%nat ->
  decodeTonAddress h = Ok (js "0:" ++ HexBytes.bytesToHex h) /\
  encodeTonAddress (js "0:" ++ HexBytes.bytesToHex h) = Ok h /\
  encodeTonAddress (friendly tag h) = Ok h /\
  encodeTonAddress (url_safe (friendly tag h)) = Ok h /\
  (forall l i b, length l = 36%nat -> (i < 36)%nat -> <[i := b]> l <> l ->
   is_ok (encodeTonAddress (btoa l)) = true -> is_ok (encodeTonAddress (btoa (<[i := b]> l))) = false).
Proof using All.
  intros Hh. split_and!.
  - by apply decode_ton_raw.
  - by apply encode_ton_raw.
  - unfold friendly. rewrite (proj1 (btoa_address _)). apply decodeFriendly_btoa.
    destruct (friendly_fields tag h Hh) as (H1 & H2 & H3 & H4). rewrite H2.
    split_and!; [exact H1|exact H3|exact H4|reflexivity].
  - unfold friendly. rewrite (proj2 (btoa_address _)). apply decodeFriendly_btoa.
    destruct (friendly_fields tag h Hh) as (H1 & H2 & H3 & H4). rewrite H2.
    split_and!; [exact H1|exact H3|exact H4|reflexivity].
  - intros l i b. rewrite !(proj1 (btoa_address _)). apply friendly_one_byte.
Qed.
End AddressLemmas.

(** Little-endian integers. *)
Lemma le_loop_spec n v out :
  exists l, le_loop n v out = (out ++ l, v / 256 ^ Z.of_nat n) /\ length l = n /\
    Radix.of_digits 256 (bz <$> reverse l) = v mod 256 ^ Z.of_nat n.
Proof.
  revert v out; induction n as [|n IH]; intros v out.
  - exists []. cbn. by rewrite app_nil_r, Z.div_1_r, Z.mod_1_r.
  - cbn [le_loop]. rewrite Z.shiftr_div_pow2 by lia. change (2 ^ 8) with 256.
    destruct (IH (v / 256) (out ++ [u8 (Z.land v 255)])) as (l & -> & Hl & Hv').
    exists (u8 (Z.land v 255) :: l). split_and!; [|cbn; lia|].
    + rewrite <- app_assoc. f_equal. rewrite Nat2Z.inj_succ, Z.pow_succ_r by lia.
      rewrite Z.div_div by (try apply Z.pow_pos_nonneg; lia). done.
    + rewrite reverse_cons, fmap_app, Radix.of_digits_app, Hv' by lia. cbn [fmap list_fmap length].
      change (Radix.of_digits 256 [bz (u8 (Z.land v 255))]) with (bz (u8 (Z.land v 255))).
      change 255 with (Z.ones 8). rewrite Z.land_ones by lia. change (2 ^ 8) with 256.
      rewrite bz_u8_small by (apply Z.mod_pos_bound; lia).
      change (Z.of_nat 1) with 1. rewrite Z.pow_1_r.
      rewrite Nat2Z.inj_succ, Z.pow_succ_r by lia. rewrite Z.rem_mul_r by (try apply Z.pow_pos_nonneg; lia). lia.
Qed.

Lemma bytesToNumberLE_digits l : bytesToNumberLE l = Radix.of_digits 256 (bz <$> reverse l).
Proof. unfold bytesToNumberLE. by rewrite foldl_lor_be by lia. Qed.

(** ** Concrete externals *)

Definition toy_noble : Noble := {|
  noble_hexToBytes := fun s => if forallb is_hex_digit s && Nat.eqb (length s mod 2) 0
                               then Ok (parse_pairs s) else throw "hex";
  noble_bytesToHex := HexBytes.bytesToHex;
  noble_sha256 := toy_hash;
  noble_ripemd160 := fun m => take 20 (toy_hash m);
  noble_keccak_256 := toy_hash |}.

Lemma toy_noble_laws : NobleLaws toy_noble.
Proof.
  constructor; cbn.
  - intros s. by destruct (_ && _).
  - intros s l. destruct (_ && _); congruence.
  - done.
  - intros m. apply length_pad32.
  - intros m. unfold toy_hash. by rewrite length_take, length_pad32.
  - intros m. apply length_pad32.
Qed.

Definition toy_host : Host := {| Buffer_from_base64 := None; Buffer_to_base64 := None |}.
Lemma toy_host_laws : HostLaws toy_host.
Proof. by constructor. Qed.

Lemma ton_address_codec_witness :
  @encodeTonAddress toy_noble toy_host (friendly x51 (replicate 32 x07)) = Ok (replicate 32 x07) /\
  is_ok (@encodeTonAddress toy_noble toy_host (js "0:0707")) = false.
Proof.
  split; [|reflexivity].
  destruct (@ton_address_codec toy_noble toy_noble_laws toy_host toy_host_laws (replicate 32 x07) x51)
    as (_ & _ & E & _); [reflexivity|exact E].
Defined.
