(* ===== verification/DepositTypes.v ===== *)
(** * Signatures and types of the deposit package

    BIP32-Ed25519 signatures, then the data types, schemas and derivation paths.

    packages/lit-deposit-address/src/common/ed25519.ts.  The curve, SHA-512 and
    the public-key derivation of @metamask/key-tree are operations of
    [Ed25519]; the laws are those of a cyclic group with a base point. *)

From Stdlib Require Import Strings.Byte.
From S2P Require Import Prelude JsNum JsString HexBytes ToyRuntime DepositBytes Scanner.
Local Open Scope Z_scope.
Local Open Scope js_scope.

Class Ed25519 := {
  point : Type;
  ORDER : Z;
  base_multiply : Z -> result point;
  point_toBytes : point -> bytes;
  sha512 : bytes -> bytes;
  bip32_getPublicKey : bytes -> result bytes;
}.

Section Sign.
Context `{E : Ed25519}.

Definition signEd25519Bip32 (message privateKey : bytes) : result bytes :=
  let kL := take 32 privateKey in
  let kR := take 32 (drop 32 privateKey) in
  let order := ORDER in
  let scalar := bytesToNumberLE kL mod order in
  let r := bytesToNumberLE (sha512 (kR ++ message)) mod order in
  publicKey ← bip32_getPublicKey privateKey;
  encodedR ← point_toBytes <$> base_multiply r;
  let challenge := bytesToNumberLE (sha512 (encodedR ++ publicKey ++ message)) mod order in
  let s := (r + challenge * scalar) mod order in
  sBytes ← numberToBytesLE s 32;
  Ok (encodedR ++ sBytes).
End Sign.

(** The group: [mul n] is n times the base point.  [multiply] accepts the
    scalars 1 .. ORDER - 1; points encode to 32 bytes; the public key of an
    extended secret is its left half times the base point. *)
Class Ed25519Laws (E : Ed25519) := {
  mul : Z -> point;
  padd : point -> point -> point;
  pscale : Z -> point -> point;
  order_range : 1 < ORDER < 2 ^ 256;
  multiply_ok : forall n, 1 <= n < ORDER -> base_multiply n = Ok (mul n);
  multiply_zero : is_ok (base_multiply 0) = false;
  mul_add : forall a b, mul (a + b) = padd (mul a) (mul b);
  mul_mod : forall a, mul (a mod ORDER) = mul a;
  mul_scale : forall k a, pscale k (mul a) = mul (k * a);
  toBytes_length : forall p, length (point_toBytes p) = 32%nat;
  getPublicKey_ok : forall k, length k = 64%nat ->
    bip32_getPublicKey k = Ok (point_toBytes (mul (bytesToNumberLE (take 32 k))));
}.

Lemma numberToBytesLE_ok v n l : 0 <= v ->
  numberToBytesLE v n = Ok l <-> v < 256 ^ Z.of_nat n /\ length l = n /\ bytesToNumberLE l = v.
Proof.
  intros Hv. unfold numberToBytesLE. destruct (le_loop_spec n v []) as (k & -> & Hk & Ek). cbn [app].
  assert (0 < 256 ^ Z.of_nat n) by (apply Z.pow_pos_nonneg; lia).
  rewrite <- bytesToNumberLE_digits in Ek. split.
  - intros H0. res_inv H0. bool_prop. apply Z.div_small_iff in Hs; [|lia]. destruct Hs as [Hs|Hs]; [|lia].
    split; [lia|]. split; [done|]. by rewrite Ek, Z.mod_small.
  - intros (Hlt & Hl & El). rewrite Z.div_small by lia. cbn. f_equal.
    rewrite Z.mod_small in Ek by lia. rewrite !bytesToNumberLE_digits in *.
    rewrite <- (reverse_involutive k), <- (reverse_involutive l). f_equal. apply bz_list_inj.
    eapply (Radix.of_digits_inj 256); [lia|apply Forall_bz|apply Forall_bz| |congruence].
    rewrite !length_fmap, !length_reverse. congruence.
Qed.

Lemma signature_length `{E : Ed25519} `{L : !Ed25519Laws E} message key sig :
  signEd25519Bip32 message key = Ok sig -> length sig = 64%nat.
Proof.
  unfold signEd25519Bip32. intros H. res_inv H. rewrite length_app, toBytes_length.
  pose proof order_range. assert (0 < ORDER) as HO by lia.
  apply numberToBytesLE_ok in Hs0 as (_ & -> & _); [done|]. by apply Z.mod_pos_bound.
Qed.

(** a signature made with an extended secret is a valid Ed25519 signature
    for its public key.  Unless the nonce hash is a multiple of the group
    order (then the code throws), signing succeeds and gives 64 bytes
    [R || S] with S below the group order and
    [S]B = R + [H(R || A || M)]A, the equation of RFC 8032 verifiers. *)
Theorem ed25519_signature_verifies `{E : Ed25519} `{L : !Ed25519Laws E} message privateKey :
  length privateKey = 64%nat ->
  bytesToNumberLE (sha512 (take 32 (drop 32 privateKey) ++ message)) mod ORDER <> 0 ->
  exists sig R A, signEd25519Bip32 message privateKey = Ok sig /\ length sig = 64%nat /\
    bip32_getPublicKey privateKey = Ok (point_toBytes A) /\ take 32 sig = point_toBytes R /\
    let S := bytesToNumberLE (drop 32 sig) in
    let h := bytesToNumberLE (sha512 (point_toBytes R ++ point_toBytes A ++ message)) in
    0 <= S < ORDER /\ mul S = padd R (pscale h A).
Proof.
  intros Hk Hr. pose proof order_range as HO. assert (0 < ORDER) as HO0 by lia. unfold signEd25519Bip32.
  rewrite (getPublicKey_ok _ Hk). cbn [mbind result_bind].
  set (k := bytesToNumberLE (take 32 privateKey)).
  set (r := bytesToNumberLE (sha512 _) mod ORDER) in *.
  assert (0 <= r < ORDER) as Hb by (by apply Z.mod_pos_bound). rewrite multiply_ok by lia. cbn [fmap result_fmap mbind result_bind].
  set (h := bytesToNumberLE (sha512 _)). set (s := (r + _) mod ORDER).
  assert (0 <= s < ORDER) as Hs by (by apply Z.mod_pos_bound).
  destruct (numberToBytesLE s 32) as [sb|] eqn:Es.
  2: { destruct (le_loop_spec 32 s []) as (l & El & Hl & Ev). rewrite <- bytesToNumberLE_digits in Ev.
       rewrite Z.mod_small in Ev by (change (256 ^ Z.of_nat 32) with (2 ^ 256); lia).
       rewrite (proj2 (numberToBytesLE_ok s 32 l ltac:(lia))) in Es; [done|].
       change (256 ^ Z.of_nat 32) with (2 ^ 256). split_and!; [lia|done|done]. }
  apply numberToBytesLE_ok in Es as (_ & Hsl & Hsv); [|lia]. cbn [mbind result_bind].
  exists (point_toBytes (mul r) ++ sb), (mul r), (mul k). split; [done|].
  split; [by rewrite length_app, toBytes_length, Hsl|]. split; [done|].
  rewrite take_length_app, drop_length_app by (by rewrite toBytes_length). split; [done|].
  cbv zeta. rewrite Hsv. split; [done|]. fold h. unfold s.
  rewrite mul_mod, mul_add, mul_scale. f_equal. rewrite <- (mul_mod (h mod ORDER * (k mod ORDER))).
  rewrite <- Zmult_mod, mul_mod. done.
Qed.

(** ** A concrete group *)

Definition toy_order : Z := 2 ^ 252 + 27742317777372353535851937790883648493.
Definition le32 (v : Z) : bytes := fst (le_loop 32 v []).

Definition toy_ed25519 : Ed25519 := {|
  point := Z;
  ORDER := toy_order;
  base_multiply := fun n => if (1 <=? n) && (n <? toy_order) then Ok n else throw "scalar out of range";
  point_toBytes := fun p => le32 (p mod toy_order);
  sha512 := fun m => toy_hash m ++ toy_hash (x01 :: m);
  bip32_getPublicKey := fun k => Ok (le32 (bytesToNumberLE (take 32 k) mod toy_order)) |}.

Lemma length_le32 v : 0 <= v -> length (le32 v) = 32%nat.
Proof. intros Hv. unfold le32. by destruct (le_loop_spec 32 v []) as (l & -> & Hl & _). Qed.

#[refine] Definition toy_ed25519_laws : Ed25519Laws toy_ed25519 := {|
  mul := fun n => (n mod toy_order : @point toy_ed25519);
  padd := fun a b => (((a : Z) + (b : Z)) mod toy_order : @point toy_ed25519);
  pscale := fun k a => ((k * (a : Z)) mod toy_order : @point toy_ed25519) |}.
Proof.
  all: cbn [point ORDER base_multiply point_toBytes bip32_getPublicKey toy_ed25519].
  - vm_compute. split; reflexivity.
  - intros n Hn. rewrite Z.mod_small by lia. by zcmp.
  - reflexivity.
  - intros a b. apply Z.add_mod. done.
  - intros a. apply Z.mod_mod. done.
  - intros k a. rewrite Z.mul_mod_idemp_r by done. done.
  - intros p. apply length_le32, Z.mod_pos_bound. reflexivity.
  - intros k _. by rewrite Z.mod_mod by done.
Defined.

Lemma ed25519_signature_witness :
  let k := replicate 32 x05 ++ replicate 32 x09 in
  exists sig, @signEd25519Bip32 toy_ed25519 (replicate 32 x01) k = Ok sig /\ length sig = 64%nat.
Proof.
  cbv zeta.
  destruct (@ed25519_signature_verifies toy_ed25519 toy_ed25519_laws (replicate 32 x01)
              (replicate 32 x05 ++ replicate 32 x09)) as (sig & _ & _ & E & H & _);
    [reflexivity|vm_compute; discriminate|].
  exists sig. split; [exact E|exact H].
Defined.

(** ** Deposit-address triggers, attestations and orders

    The data of packages/lit-deposit-address/src/common/types.ts and
    common/relay-sdk.ts.  Amounts, salts and the like are decimal strings, as
    in the source; numbers that the code only uses as integers are integers. *)

Local Open Scope Z_scope.
Local Open Scope js_scope.

(** [VM_TYPES]. *)
Definition VM_TYPES : list jsstring :=
  [js "ethereum-vm"; js "bitcoin-vm"; js "solana-vm"; js "hyperliquid-vm"; js "ton-vm"; js "tron-vm"].

Record DepositAddressTriggerInput := {
  in_vmType : jsstring;
  in_chainId : jsstring;
  in_currency : jsstring;
  in_amount : jsstring;
}.

Record DepositAddressTriggerDerivationFields := {
  df_inputVmType : jsstring;
  df_outputVmType : jsstring;
  df_outputChainId : jsstring;
  df_outputCurrency : jsstring;
  df_outputRecipient : jsstring;
  df_solver : jsstring;
  df_pricingOracle : jsstring;
  df_depositor : jsstring;
  df_refundRecipient : jsstring;
  df_priceImpactBps : jsstring;
  df_salt : jsstring;
}.

Record DepositAddressTriggerCurrency := { cu_chainId : jsstring; cu_currency : jsstring }.

Record DepositAddressTriggerPrice := {
  pr_usdPrice : jsstring;
  pr_usdPriceDecimals : Z;
  pr_currencyDecimals : Z;
  pr_publishTime : jsstring;
  pr_expiration : jsstring;
}.

Record DepositAddressTrigger := {
  tr_input : DepositAddressTriggerInput;
  tr_derivationFields : DepositAddressTriggerDerivationFields;
  tr_orderId : jsstring;
  tr_nonce : jsstring;
  tr_currencies : list DepositAddressTriggerCurrency;
  tr_prices : list DepositAddressTriggerPrice;
  tr_extraData : jsstring;
}.

Record DepositAddressTriggerSignature := { ds_oracleSigner : jsstring; ds_signature : jsstring }.

Record DepositAddressTriggerAttestation := {
  ta_chainId : Z;
  ta_depositAddressManager : jsstring;
  ta_inputDepository : jsstring;
  ta_triggerHash : jsstring;
  ta_signatures : list DepositAddressTriggerSignature;
}.

Record WalletInfo := {
  wi_vmType : jsstring;
  wi_indexes : list Z;
  wi_path : jsstring;
  wi_address : jsstring;
  wi_publicKey : jsstring;
}.

Record AccountInfo := {
  ai_vmType : jsstring;
  ai_accountPath : jsstring;
  ai_publicKey : jsstring;
  ai_extendedPublicKey : jsstring;
}.

Record TonVmTransaction := {
  tt_to : jsstring;
  tt_amount : jsstring;
  tt_comment : jsstring;
  tt_bounce : bool;
  tt_seqno : Z;
  tt_validUntil : Z;
  tt_sendMode : Z;
}.

Record TonVmSignedTransaction := {
  ts_signature : jsstring;
  ts_signingHash : jsstring;
  ts_externalMessage : jsstring;
}.

Record BitcoinVmTransaction := {
  bt_unsignedTransaction : jsstring;
  bt_inputValues : list jsstring;
  bt_sighashes : list jsstring;
}.

(** ** Orders *)

Record InputPayment := { ip_chainId : jsstring; ip_currency : jsstring; ip_amount : jsstring; ip_weight : jsstring }.
Record InputRefund := {
  rf_chainId : jsstring; rf_recipient : jsstring; rf_currency : jsstring;
  rf_minimumAmount : jsstring; rf_deadline : Z; rf_extraData : jsstring }.
Record OrderInput := { oi_payment : InputPayment; oi_refunds : list InputRefund }.
Record OutputPayment := {
  op_recipient : jsstring; op_currency : jsstring; op_minimumAmount : jsstring; op_expectedAmount : jsstring }.
Record OrderOutput := {
  oo_chainId : jsstring; oo_payments : list OutputPayment; oo_calls : list jsstring;
  oo_deadline : Z; oo_extraData : jsstring }.
Record OrderFee := {
  fe_recipientChainId : jsstring; fe_recipient : jsstring; fe_currencyChainId : jsstring;
  fe_currency : jsstring; fe_amount : jsstring }.
Record Order := {
  or_version : jsstring;
  or_solverChainId : jsstring;
  or_solver : jsstring;
  or_salt : jsstring;
  or_inputs : list OrderInput;
  or_output : OrderOutput;
  or_fees : list OrderFee;
}.

(** ** The depositor tag of a deposit memo *)

Definition not_bar (c : Z) : bool := negb (c =? 124).

(** [/\|depositor=([^|]+)(?=\|)/] at one position. *)
Definition depositor_at (s : jsstring) : option jsstring :=
  s ← re_lit (js "|depositor=") s;
  let '(d, r) := re_span not_bar s in
  if bool_decide (d = []) then None
  else if startsWith r (js "|") then Some d else None.

(** [DEPOSITOR_RE.exec(s)?.[1]]: the first position that matches. *)
Fixpoint DEPOSITOR_RE (s : jsstring) : option jsstring :=
  match depositor_at s with
  | Some d => Some d
  | None => match s with [] => None | _ :: s' => DEPOSITOR_RE s' end
  end.

(** A memo [<order id>|depositor=<d>|...] whose order id has no bar. *)
Lemma depositor_of_memo id d rest : Forall (fun c => not_bar c = true) id -> d <> [] ->
  Forall (fun c => not_bar c = true) d ->
  DEPOSITOR_RE (id ++ js "|depositor=" ++ d ++ js "|" ++ rest) = Some d.
Proof.
  intros Hid Hd HF. induction Hid as [|c id Hc _ IH].
  - cbn [app]. assert (depositor_at (js "|depositor=" ++ d ++ js "|" ++ rest) = Some d) as E.
    { unfold depositor_at. rewrite re_lit_complete. cbn [mbind option_bind].
      assert (re_span not_bar (d ++ js "|" ++ rest) = (d, js "|" ++ rest)) as ->.
      { clear Hd. induction HF as [|c d Hc _ IH]; [done|]. cbn [app re_span]. by rewrite Hc, IH. }
      rewrite bool_decide_false by done. done. }
    destruct (js "|depositor=" ++ d ++ js "|" ++ rest) eqn:Es; cbn [DEPOSITOR_RE]; by rewrite E.
  - cbn [app DEPOSITOR_RE]. assert (depositor_at (c :: id ++ js "|depositor=" ++ d ++ js "|" ++ rest) = None) as ->.
    { unfold depositor_at. destruct (re_lit _ _) as [s|] eqn:El; [|done]. apply re_lit_sound in El.
      injection El as -> _. done. }
    exact IH.
Qed.

(** A match lies between [|depositor=] and the next bar. *)
Lemma DEPOSITOR_RE_sound s d : DEPOSITOR_RE s = Some d ->
  exists pre rest, s = pre ++ js "|depositor=" ++ d ++ js "|" ++ rest /\ d <> [] /\
    Forall (fun c => not_bar c = true) d.
Proof.
  assert (forall t, depositor_at t = Some d -> exists rest, t = js "|depositor=" ++ d ++ js "|" ++ rest /\ d <> [] /\
    Forall (fun c => not_bar c = true) d) as Hat.
  { intros t. unfold depositor_at. destruct (re_lit _ t) as [u|] eqn:El; [|done]. cbn [mbind option_bind].
    apply re_lit_sound in El as ->. destruct (re_span not_bar u) as [d' r] eqn:Es.
    apply re_span_sound in Es as [-> HF]. case_bool_decide; [done|].
    destruct (startsWith r (js "|")) eqn:Er; [|done]. intros [= <-].
    unfold startsWith in Er. apply bool_decide_eq_true in Er.
    exists (drop 1 r). split; [|done]. rewrite <- (take_drop 1 r) at 1. cbn [length js] in Er.
    change (length (js "|")) with 1%nat in Er. by rewrite Er. }
  induction s as [|c s IH]; cbn [DEPOSITOR_RE].
  - destruct (depositor_at []) eqn:E; [|done]. intros [= ->]. apply Hat in E as (rest & E & H).
    exists [], rest. by rewrite E.
  - destruct (depositor_at (c :: s)) eqn:E.
    + intros [= ->]. apply Hat in E as (rest & E & H). exists [], rest. by rewrite E.
    + intros H. destruct (IH H) as (pre & rest & -> & H'). exists (c :: pre), rest. done.
Qed.
