(* ===== verification/TonWallet.v ===== *)
(** * TON Wallet V5R1

    packages/lit-deposit-address/src/common/ton/wallet.ts: the wallet's
    StateInit and address, comment bodies, internal messages, the signed
    request and the external message. *)

From Stdlib Require Import Strings.Byte.
From S2P Require Import Prelude JsNum JsString HexBytes TonCell TonBoc ToyRuntime DepositBytes.
Local Open Scope Z_scope.
Local Open Scope js_scope.

Definition CODE_BOC_HEX : jsstring := js
  "b5ee9c7241021401000281000114ff00f4a413f4bcf2c80b01020120020d020148030402dcd020d749c120915b8f6320d70b1f2082106578746ebd21821073696e74bdb0925f03e082106578746eba8eb48020d72101d074d721fa4030fa44f828fa443058bd915be0ed44d0810141d721f4058307f40e6fa1319130e18040d721707fdb3ce03120d749810280b99130e070e2100f020120050c020120060902016e07080019adce76a2684020eb90eb85ffc00019af1df6a2684010eb90eb858fc00201480a0b0017b325fb51341c75c875c2c7e00011b262fb513435c280200019be5f0f6a2684080a0eb90fa02c0102f20e011e20d70b1f82107369676ebaf2e08a7f0f01e68ef0eda2edfb218308d722028308d723208020d721d31fd31fd31fed44d0d200d31f20d31fd3ffd70a000af90140ccf9109a28945f0adb31e1f2c087df02b35007b0f2d0845125baf2e0855036baf2e086f823bbf2d0882292f800de01a47fc8ca00cb1f01cf16c9ed542092f80fde70db3cd81003f6eda2edfb02f404216e926c218e4c0221d73930709421c700b38e2d01d72820761e436c20d749c008f2e09320d74ac002f2e09320d71d06c712c2005230b0f2d089d74cd7393001a4e86c128407bbf2e093d74ac000f2e093ed55e2d20001c000915be0ebd72c08142091709601d72c081c12e25210b1e30f20d74a111213009601fa4001fa44f828fa443058baf2e091ed44d0810141d718f405049d7fc8ca0040048307f453f2e08b8e14038307f45bf2e08c22d70a00216e01b3b0f2d090e2c85003cf1612f400c9ed54007230d72c08248e2d21f2e092d200ed44d0d2005113baf2d08f54503091319c01810140d721d70a00f2e08ee2c8ca0058cf16c9ed5493f2c08de20010935bdb31e1d74cd0b4d6c35e".

Definition TON_NETWORK_GLOBAL_ID : Z := -239.
Definition AUTH_SIGNED_EXTERNAL : Z := 0x7369676e.
Definition ACTION_SEND_MSG : Z := 0x0ec3c86d.
Definition SEND_MODE_IGNORE_ERRORS : Z := 2.
Definition SEND_MODE_CARRY_ALL : Z := 192.

Definition walletIdV5R1 (networkGlobalId workchain subwallet : Z) : Z :=
  let context := js_ushr (js_or (js_or (js_shl 1 31) (js_shl (js_and workchain 255) 23))
                                (js_and subwallet 0x7fff)) 0 in
  js_ushr (js_xor networkGlobalId context) 0.

Definition commentBody_fuel (l : bytes) : nat := length l + 2.

(** [writeSnakeString]; every nested call either ends or takes 127 bytes, so
    two more calls than there are bytes are enough. *)
Fixpoint writeSnakeString (fuel : nat) (b : Builder) (l : bytes) : result Builder :=
  match fuel with
  | O => throw "out of fuel"
  | S f =>
      let available := Z.to_nat (availableBits b / 8) in
      let b := storeBuffer b (take available l) in
      let rest := drop available l in
      if Nat.ltb 0 (length rest) then
        child ← writeSnakeString f beginCell rest;
        c ← endCell child;
        storeRef b c
      else Ok b
  end.

Definition commentBody (text : jsstring) : result Cell :=
  b ← storeUint beginCell 0 32;
  let l := TextEncoder_encode text in
  b ← writeSnakeString (commentBody_fuel l) b l;
  endCell b.

Definition internalMessage (destHash : bytes) (amount : Z) (bounce : bool) (body : Cell) : result Cell :=
  let b := storeBit (storeBit (storeBit (storeBit beginCell false) true) bounce) false in
  b ← storeAddressNone b;
  b ← storeAddressInt b 0 destHash;
  b ← storeCoins b amount;
  let b := storeBit b false in
  b ← storeCoins b 0;
  b ← storeCoins b 0;
  b ← storeUint b 0 64;
  b ← storeUint b 0 32;
  let b := storeBit (storeBit b false) true in
  b ← storeRef b body;
  endCell b.

Definition outMode (sendMode : Z) : Z := js_and (js_or sendMode SEND_MODE_IGNORE_ERRORS) 255.

Definition signingRequest (walletId seqno validUntil sendMode : Z) (message : Cell) : result Builder :=
  let mode := outMode sendMode in
  empty_ ← endCell beginCell;
  o ← storeRef beginCell empty_;
  o ← storeUint o ACTION_SEND_MSG 32;
  o ← storeUint o mode 8;
  o ← storeRef o message;
  outList ← endCell o;
  b ← storeUint beginCell AUTH_SIGNED_EXTERNAL 32;
  b ← storeUint b walletId 32;
  b ← (if seqno =? 0 then storeUint b 0xffffffff 32 else storeUint b validUntil 32);
  b ← storeUint b seqno 32;
  b ← storeRef (storeBit b true) outList;
  Ok (storeBit b false).

Definition signedRequestWithSignature (request : Builder) (signature : bytes) : result Cell :=
  b ← storeBuilder beginCell request;
  endCell (storeBuffer b signature).

Definition externalMessage (addressHash : bytes) (stateInit : option Cell) (body : Cell) : result Cell :=
  b ← storeUint beginCell 2 2;
  b ← storeAddressNone b;
  b ← storeAddressInt b 0 addressHash;
  b ← storeCoins b 0;
  b ← (match stateInit with
       | Some si => storeRef (storeBit (storeBit b true) true) si
       | None => Ok (storeBit b false)
       end);
  b ← storeRef (storeBit b true) body;
  endCell b.

Definition sendModeCarriesAll (sendMode : Z) : bool := negb (js_and sendMode SEND_MODE_CARRY_ALL =? 0).

Section Wallet.
Context `{N : Noble}.

Definition codeCell : result Cell :=
  l ← hexToBytes CODE_BOC_HEX "ton wallet code";
  bocToCell l.

Definition dataCell (publicKey : bytes) (networkGlobalId : Z) : result Cell :=
  fail_if negb (Nat.eqb (length publicKey) 32) with "ton public key must be 32 bytes" ;;
  b ← storeUint (storeBit beginCell true) 0 32;
  b ← storeUint b (walletIdV5R1 networkGlobalId 0 0) 32;
  endCell (storeBit (storeBuffer b publicKey) false).

Definition walletStateInit (publicKey : bytes) (networkGlobalId : Z) : result Cell :=
  let b := storeBit (storeBit beginCell false) false in
  code ← codeCell;
  b ← storeMaybeRef b (Some code);
  data ← dataCell publicKey networkGlobalId;
  b ← storeMaybeRef b (Some data);
  endCell (storeBit b false).

Definition walletAddressHash (publicKey : bytes) (networkGlobalId : Z) : result bytes :=
  c ← walletStateInit publicKey networkGlobalId; Ok (hash noble_sha256 c).
End Wallet.

(** ** TON Wallet V5R1 messages, decoded

    Reference readers for the TL-B layouts of the messages of TonWallet.v, and
    the theorems that the built cells decode to what they were built from. *)

Local Open Scope Z_scope.
Local Open Scope js_scope.

(** ** Running the builder *)

Lemma storeUint_run b v n : 0 <= n -> 0 <= v < 2 ^ n ->
  storeUint b v n = Ok (push_bits b (bits_be (Z.to_nat n) v)).
Proof. intros Hn Hv. by apply storeUint_ok. Qed.

Lemma storeCoins_run b v : 0 <= v < 2 ^ 120 -> storeCoins b v = Ok (push_bits b (coin_bits v)).
Proof. intros Hv. by apply storeCoins_ok. Qed.

Lemma storeAddressInt_run b wc h : length h = 32%nat -> -128 <= wc < 128 ->
  storeAddressInt b wc h = Ok (push_bits b (address_bits wc h)).
Proof. intros Hh Hw. by apply storeAddressInt_ok. Qed.

Lemma storeRef_run b c : (length (b_refs b) < 4)%nat ->
  storeRef b c = Ok {| b_bits := b_bits b; b_refs := b_refs b ++ [c] |}.
Proof. intros Hl. unfold storeRef, MAX_CELL_REFS. by zcmp. Qed.

Lemma endCell_run b : (length (b_bits b) <= 1023)%nat -> (length (b_refs b) <= 4)%nat ->
  endCell b = Ok (mkCell (b_bits b) (b_refs b)).
Proof. intros H1 H2. unfold endCell, newCell, MAX_CELL_BITS, MAX_CELL_REFS. by zcmp. Qed.

Lemma length_coin_bits v : 0 <= v < 2 ^ 120 -> (length (coin_bits v) <= 124)%nat.
Proof.
  intros Hv. unfold coin_bits. destruct (Z.eqb_spec v 0) as [|Hne]; [rewrite length_bits_be; lia|].
  destruct (coin_length v) as (n & -> & Hn & Hlo & _); [lia|].
  rewrite length_app, !length_bits_be. assert (n <= 15); [|lia].
  destruct (Z.le_gt_cases n 15) as [|Hgt]; [done|]. change (2 ^ 120) with (256 ^ 15) in Hv.
  assert (256 ^ 15 <= 256 ^ (n - 1)) by (apply Z.pow_le_mono_r; lia). lia.
Qed.

Lemma length_address_bits wc h : length (address_bits wc h) = (11 + 8 * length h)%nat.
Proof. unfold address_bits. rewrite !length_app, !length_bits_be, length_buffer_bits. cbn. lia. Qed.

Lemma bind_run {A B} (f : A -> result B) c x : c = Ok x -> (c ≫= f) = f x.
Proof. by intros ->. Qed.

(** Step through a chain of stores with in-range arguments. *)
Ltac run_store :=
  lazymatch goal with
  | |- context [mbind ?f (storeUint ?b ?v ?n)] =>
      rewrite (bind_run f _ _ (storeUint_run b v n ltac:(lia) ltac:(lia)))
  | |- context [mbind ?f (storeCoins ?b ?v)] =>
      rewrite (bind_run f _ _ (storeCoins_run b v ltac:(lia)))
  | |- context [mbind ?f (storeAddressInt ?b ?w ?h)] =>
      rewrite (bind_run f _ _ (storeAddressInt_run b w h ltac:(assumption) ltac:(lia)))
  | |- context [mbind ?f (storeRef ?b ?c)] =>
      rewrite (bind_run f _ _ (storeRef_run b c ltac:(cbn; lia)))
  end.

Ltac bits_length :=
  cbn [b_bits b_refs push_bits storeBit storeBuffer beginCell app length];
  repeat (progress (rewrite ?length_app, ?length_bits_be, ?length_address_bits, ?length_buffer_bits; cbn [length]));
  try lia.

(** ** Comments *)

(** A snake-encoded text: the bytes of the cell, then those of its reference. *)
Fixpoint read_snake (c : Cell) : option bytes :=
  match c with
  | mkCell bits refs =>
      '(l, r) ← load_bytes (length bits / 8) bits;
      match r, refs with
      | [], [] => Some l
      | [], [next] => tl ← read_snake next; Some (l ++ tl)
      | _, _ => None
      end
  end.

Lemma read_snake_buffer l refs :
  read_snake (mkCell (buffer_bits l) refs) =
  match refs with
  | [] => Some l
  | [next] => tl ← read_snake next; Some (l ++ tl)
  | _ => None
  end.
Proof.
  cbn [read_snake]. rewrite length_buffer_bits, Nat.mul_comm, Nat.div_mul by lia.
  pose proof (load_bytes_buffer l []) as E. rewrite app_nil_r in E. rewrite E. done.
Qed.

(** A comment: opcode 0 and a snake text. *)
Definition read_comment (c : Cell) : option bytes :=
  '(op, r) ← load_uint 32 (bits_of c);
  if op =? 0 then read_snake (mkCell r (refs_of c)) else None.

(** The writer on a builder that has [k] bits and no references. *)
Lemma writeSnakeString_ok fuel l pre : (length pre <= 1023)%nat ->
  (length l + 2 <= fuel)%nat \/ ((length l + 1 <= fuel)%nat /\ (length pre <= 1015)%nat) ->
  exists here refs, writeSnakeString fuel {| b_bits := pre; b_refs := [] |} l =
      Ok {| b_bits := pre ++ buffer_bits here; b_refs := refs |} /\
    (length pre + 8 * length here <= 1023)%nat /\ (length refs <= 1)%nat /\
    read_snake (mkCell (buffer_bits here) refs) = Some l /\
    Forall (fun r => Forall small_cell (subcells r)) refs /\
    (length (mjoin (subcells <$> refs)) <= length l + (if Nat.leb (length pre) 1015 then 0 else 1))%nat.
Proof.
  revert l pre; induction fuel as [|fuel IH]; intros l pre Hpre Hfuel; [lia|].
  cbn [writeSnakeString]. unfold availableBits, MAX_CELL_BITS. cbn [b_bits storeBuffer push_bits b_refs].
  set (a := Z.to_nat ((Z.of_nat 1023 - Z.of_nat (length pre)) / 8)).
  assert (length pre + 8 * a <= 1023)%nat as Ha.
  { unfold a. apply Nat2Z.inj_le. rewrite Nat2Z.inj_add, Nat2Z.inj_mul, Z2Nat.id by (apply Z.div_pos; lia).
    divmod_lia. }
  assert ((length pre <= 1015)%nat -> (1 <= a)%nat) as Ha1.
  { intros Hp. unfold a. apply Nat2Z.inj_le. rewrite Z2Nat.id by (apply Z.div_pos; lia). divmod_lia. }
  assert (length (take a l) <= a)%nat as Ht by (rewrite length_take; lia).
  destruct (Nat.ltb_spec 0 (length (drop a l))) as [Hd|Hd].
  - destruct (IH (drop a l) []) as (here & refs & E & Hh & Hr & Hs & HF & Hn); [cbn; lia| |].
    { rewrite length_drop in *. cbn [length]. right. lia. }
    change beginCell with {| b_bits := []; b_refs := [] |}. rewrite E. cbn [mbind result_bind app].
    cbn [length] in Hh.
    rewrite endCell_run by (cbn [b_bits b_refs]; rewrite ?length_buffer_bits; lia).
    cbn [mbind result_bind b_bits b_refs]. rewrite storeRef_run by (cbn; lia). cbn [b_bits b_refs app].
    exists (take a l), [mkCell (buffer_bits here) refs]. split; [reflexivity|]. split_and!; [lia|cbn; lia| | |].
    + rewrite read_snake_buffer. rewrite Hs. cbn [mbind option_bind]. by rewrite take_drop.
    + constructor; [|done]. cbn [subcells]. constructor.
      * split; cbn [bits_of refs_of]; unfold MAX_CELL_BITS, MAX_CELL_REFS; [rewrite length_buffer_bits|]; lia.
      * clear -HF. induction HF as [|r rs Hr _ IH]; [constructor|]. by apply Forall_app.
    + cbn [fmap list_fmap mjoin list_join subcells length app]. rewrite app_nil_r, length_drop in *.
      change (Nat.leb (length []) 1015) with true in Hn. cbv iota in Hn. rewrite Nat.add_0_r in Hn.
      etransitivity; [apply le_n_S, Hn|]. destruct (Nat.leb_spec (length pre) 1015); lia.
  - exists (take a l), []. cbn [b_refs]. split; [done|]. split_and!; [lia|cbn; lia| |constructor|cbn; lia].
    rewrite read_snake_buffer, take_ge by (rewrite length_drop in Hd; lia). done.
Qed.

Lemma comment_ok text :
  exists c, commentBody text = Ok c /\ read_comment c = Some (TextEncoder_encode text) /\
    Forall small_cell (subcells c) /\
    (length (subcells c) <= 1 + length (TextEncoder_encode text))%nat.
Proof.
  unfold commentBody. run_store. set (l := TextEncoder_encode text). cbn [push_bits b_bits b_refs beginCell app].
  destruct (writeSnakeString_ok (commentBody_fuel l) l (bits_be 32 0)) as (here & refs & E & Hh & Hr & Hs & HF & Hn).
  { rewrite length_bits_be. lia. } { left. unfold commentBody_fuel. lia. }
  unfold push_bits. cbn [b_bits b_refs beginCell app]. change (Z.to_nat 32) with 32%nat.
  rewrite E. cbn [mbind result_bind]. rewrite length_bits_be in *.
  rewrite endCell_run by (cbn [b_bits b_refs]; rewrite ?length_app, ?length_bits_be, ?length_buffer_bits; lia).
  eexists. split; [reflexivity|]. cbn [b_bits b_refs]. split_and!.
  - unfold read_comment. cbn [bits_of refs_of]. rewrite load_uint_bits by lia. exact Hs.
  - cbn [subcells]. constructor.
    + split; cbn [bits_of refs_of]; unfold MAX_CELL_BITS, MAX_CELL_REFS; [|lia].
      rewrite length_app, length_bits_be, length_buffer_bits. lia.
    + clear -HF. induction HF as [|r rs Hr _ IH]; [constructor|]. by apply Forall_app.
  - cbn [subcells length]. change (Nat.leb 32 1015) with true in Hn. cbv iota in Hn. lia.
Qed.

(** any text becomes a comment.  [commentBody] terminates and succeeds for
    every string, the chain of cells it returns respects the cell limits and
    has at most one cell per byte plus the first, and reading the opcode and
    the snake-encoded bytes gives the UTF-8 encoding of the string. *)
Theorem comment_roundtrip text :
  exists c, commentBody text = Ok c /\ read_comment c = Some (TextEncoder_encode text) /\
    Forall small_cell (subcells c) /\
    (length (subcells c) <= 1 + length (TextEncoder_encode text))%nat.
Proof. apply comment_ok. Qed.

(** ** Internal messages *)

Record Message := { m_bounce : bool; m_dest : Z * bytes; m_amount : Z; m_body : Cell }.

(** [int_msg_info$0] with an empty source and no extra currencies, no
    StateInit, the body in a reference. *)
Definition read_message (c : Cell) : option Message :=
  '(tag, r) ← load_uint 2 (bits_of c);
  '(bounce, r) ← load_uint 1 r;
  '(rest, r) ← load_uint 3 r;
  '(dest, r) ← load_address r;
  '(amount, r) ← load_coins r;
  '(extra, r) ← load_uint 1 r;
  '(ihr_fee, r) ← load_coins r;
  '(fwd_fee, r) ← load_coins r;
  '(lt, r) ← load_uint 64 r;
  '(at_, r) ← load_uint 32 r;
  match r, refs_of c with
  | [false; true], [body] =>
      if (tag =? 1) && (rest =? 0) && (extra =? 0)
      then Some {| m_bounce := bounce =? 1; m_dest := dest; m_amount := amount; m_body := body |}
      else None
  | _, _ => None
  end.

Lemma internalMessage_ok dest amount bounce body : length dest = 32%nat -> 0 <= amount < 2 ^ 120 ->
  exists c, internalMessage dest amount bounce body = Ok c /\
    read_message c = Some {| m_bounce := bounce; m_dest := (0, dest); m_amount := amount; m_body := body |} /\
    small_cell c /\ refs_of c = [body].
Proof.
  intros Hd Ha. unfold internalMessage, storeAddressNone. do 7 run_store. rewrite storeRef_run by (cbn; lia).
  cbn [mbind result_bind]. pose proof (length_coin_bits amount Ha) as Hc.
  assert (length (coin_bits 0) = 4%nat) as H0 by reflexivity.
  unfold storeBit. rewrite !push_bits_app. cbn [push_bits b_bits b_refs beginCell app].
  rewrite endCell_run by (bits_length; rewrite ?Hd, ?H0; lia).
  eexists. split; [reflexivity|]. cbn [b_bits b_refs]. split_and!; [| |done].
  - unfold read_message. cbn [bits_of refs_of]. rewrite <- ?app_assoc.
    match goal with |- context [load_uint 2 ?l] =>
      replace l with (bits_be 2 1 ++ bits_be 1 (Z.b2z bounce) ++ bits_be 3 0 ++ address_bits 0 dest ++ coin_bits amount ++
        bits_be 1 0 ++ coin_bits 0 ++ coin_bits 0 ++ bits_be 64 0 ++ bits_be 32 0 ++ [false; true])
        by (destruct bounce; reflexivity) end.
    rewrite load_uint_bits by lia. cbn [mbind option_bind].
    rewrite load_uint_bits by (destruct bounce; cbn; lia). cbn [mbind option_bind].
    rewrite load_uint_bits by lia. cbn [mbind option_bind].
    rewrite load_address_bits by (done || lia). cbn [mbind option_bind].
    rewrite load_coins_bits by done. cbn [mbind option_bind].
    rewrite load_uint_bits by lia. cbn [mbind option_bind].
    do 2 (rewrite load_coins_bits by lia; cbn [mbind option_bind]).
    do 2 (rewrite load_uint_bits by lia; cbn [mbind option_bind]). by destruct bounce.
  - split; cbn [bits_of refs_of]; unfold MAX_CELL_BITS, MAX_CELL_REFS; bits_length; rewrite ?Hd, ?H0; lia.
Qed.

(** ** Signed requests *)

Record Request := {
  q_walletId : Z; q_validUntil : Z; q_seqno : Z; q_mode : Z; q_message : Cell;
  q_signature : bytes; q_signed : Cell }.

(** One [action_send_msg] after the empty list. *)
Definition read_action (out : Cell) : option (Z * Cell) :=
  '(tag, r) ← load_uint 32 (bits_of out);
  '(mode, r) ← load_uint 8 r;
  match r, refs_of out with
  | [], [mkCell [] []; message] => if tag =? ACTION_SEND_MSG then Some (mode, message) else None
  | _, _ => None
  end.

(** The body the wallet contract reads: header, actions, then the signature;
    what is signed is the cell without the last 512 bits. *)
Definition read_request (c : Cell) : option Request :=
  '(op, r) ← load_uint 32 (bits_of c);
  '(walletId, r) ← load_uint 32 r;
  '(validUntil, r) ← load_uint 32 r;
  '(seqno, r) ← load_uint 32 r;
  '(flags, r) ← load_uint 2 r;
  '(signature, r) ← load_bytes 64 r;
  match r, refs_of c with
  | [], [out] =>
      '(mode, message) ← read_action out;
      if (op =? AUTH_SIGNED_EXTERNAL) && (flags =? 2)
      then Some {| q_walletId := walletId; q_validUntil := validUntil; q_seqno := seqno; q_mode := mode;
                   q_message := message; q_signature := signature;
                   q_signed := mkCell (take (length (bits_of c) - 512) (bits_of c)) (refs_of c) |}
      else None
  | _, _ => None
  end.

Ltac width_lia :=
  unfold ACTION_SEND_MSG, AUTH_SIGNED_EXTERNAL;
  change (Z.of_nat 32) with 32; change (Z.of_nat 8) with 8; change (Z.of_nat 2) with 2; lia.

Lemma outMode_range m : 0 <= outMode m < 256.
Proof.
  unfold outMode, js_and. change (to_int32 255) with (Z.ones 8). rewrite Z.land_ones by lia.
  apply Z.mod_pos_bound. lia.
Qed.

Definition outList (mode : Z) (message : Cell) : Cell :=
  mkCell (bits_be 32 ACTION_SEND_MSG ++ bits_be 8 mode) [mkCell [] []; message].
Definition request_bits (walletId validUntil seqno : Z) : list bool :=
  bits_be 32 AUTH_SIGNED_EXTERNAL ++ bits_be 32 walletId ++ bits_be 32 validUntil ++ bits_be 32 seqno ++ bits_be 2 2.

Lemma read_action_out mode message : 0 <= mode < 256 -> read_action (outList mode message) = Some (mode, message).
Proof.
  intros Hm. unfold read_action, outList. cbn [bits_of refs_of].
  rewrite load_uint_bits by width_lia. cbn [mbind option_bind].
  rewrite <- (app_nil_r (bits_be 8 mode)), load_uint_bits by width_lia. done.
Qed.

(** The time limit the request carries. *)
Definition request_validUntil (seqno validUntil : Z) : Z := if seqno =? 0 then 0xffffffff else validUntil.

Lemma signingRequest_run walletId seqno validUntil sendMode message :
  0 <= walletId < 2 ^ 32 -> 0 <= seqno < 2 ^ 32 -> 0 <= request_validUntil seqno validUntil < 2 ^ 32 ->
  signingRequest walletId seqno validUntil sendMode message =
  Ok {| b_bits := request_bits walletId (request_validUntil seqno validUntil) seqno;
        b_refs := [outList (outMode sendMode) message] |}.
Proof.
  intros Hw Hs Hv. pose proof (outMode_range sendMode) as Hm. unfold signingRequest.
  rewrite endCell_run by (cbn; lia). cbn [mbind result_bind]. unfold ACTION_SEND_MSG, AUTH_SIGNED_EXTERNAL.
  do 4 run_store. rewrite endCell_run by bits_length. cbn [mbind result_bind]. do 2 run_store.
  assert (forall b, (if seqno =? 0 then storeUint b 0xffffffff 32 else storeUint b validUntil 32) =
    Ok (push_bits b (bits_be 32 (request_validUntil seqno validUntil)))) as Ev.
  { intros b. unfold request_validUntil in *. destruct (seqno =? 0); by rewrite storeUint_run by lia. }
  rewrite Ev. cbn [mbind result_bind]. do 2 run_store. reflexivity.
Qed.

Lemma signedRequest_ok walletId validUntil seqno mode message signature :
  0 <= walletId < 2 ^ 32 -> 0 <= seqno < 2 ^ 32 -> 0 <= validUntil < 2 ^ 32 -> 0 <= mode < 256 ->
  length signature = 64%nat ->
  exists c, signedRequestWithSignature {| b_bits := request_bits walletId validUntil seqno;
                                          b_refs := [outList mode message] |} signature = Ok c /\
    read_request c = Some {| q_walletId := walletId; q_validUntil := validUntil; q_seqno := seqno; q_mode := mode;
      q_message := message; q_signature := signature;
      q_signed := mkCell (request_bits walletId validUntil seqno) [outList mode message] |} /\
    small_cell c /\ refs_of c = [outList mode message].
Proof.
  intros Hw Hs Hv Hm Hl. unfold signedRequestWithSignature, storeBuilder.
  cbn [b_bits b_refs store_refs]. rewrite storeRef_run by (cbn; lia). cbn [mbind result_bind].
  assert (length (request_bits walletId validUntil seqno) = 130%nat) as Hb by reflexivity.
  rewrite endCell_run by (cbn [b_bits b_refs push_bits storeBuffer beginCell app length];
    rewrite ?length_app, ?Hb, ?length_buffer_bits, ?Hl; lia).
  cbn [b_bits b_refs push_bits storeBuffer beginCell app]. eexists. split; [reflexivity|]. split_and!; [| |done].
  - unfold read_request. cbn [bits_of refs_of]. rewrite length_app, Hb, length_buffer_bits, Hl.
    rewrite (take_length_app _ _ (130 + 8 * 64 - 512)) by (by rewrite Hb).
    assert (forall tl, request_bits walletId validUntil seqno ++ tl = bits_be 32 AUTH_SIGNED_EXTERNAL ++
      bits_be 32 walletId ++ bits_be 32 validUntil ++ bits_be 32 seqno ++ bits_be 2 2 ++ tl) as E.
    { intros tl. unfold request_bits. by rewrite <- !app_assoc. }
    rewrite E.
    do 5 (rewrite load_uint_bits by width_lia; cbn [mbind option_bind]).
    rewrite <- (app_nil_r (buffer_bits signature)), <- Hl, load_bytes_buffer. cbn [mbind option_bind].
    rewrite read_action_out by done. done.
  - split; cbn [bits_of refs_of]; unfold MAX_CELL_BITS, MAX_CELL_REFS; cbn [length]; [|lia].
    rewrite length_app, Hb, length_buffer_bits, Hl. lia.
Qed.

(** ** External messages *)

Record External := { x_dest : Z * bytes; x_init : option Cell; x_body : Cell }.

(** [ext_in_msg_info$10] with an empty source. *)
Definition read_external (c : Cell) : option External :=
  '(tag, r) ← load_uint 4 (bits_of c);
  '(dest, r) ← load_address r;
  '(fee, r) ← load_coins r;
  if tag =? 8 then
    match r, refs_of c with
    | [true; true; true], [si; body] => Some {| x_dest := dest; x_init := Some si; x_body := body |}
    | [false; true], [body] => Some {| x_dest := dest; x_init := None; x_body := body |}
    | _, _ => None
    end
  else None.

Lemma externalMessage_ok dest init body : length dest = 32%nat ->
  exists c, externalMessage dest init body = Ok c /\
    read_external c = Some {| x_dest := (0, dest); x_init := init; x_body := body |} /\
    small_cell c /\ refs_of c = option_list init ++ [body].
Proof.
  intros Hd. unfold externalMessage, storeAddressNone. do 4 run_store.
  rewrite !push_bits_app, <- ?app_assoc.
  set (hd := bits_be (Z.to_nat 2) 2 ++ bits_be (Z.to_nat 2) 0 ++ address_bits 0 dest ++ coin_bits 0).
  assert (length hd = 275%nat) as Hh.
  { unfold hd. rewrite !length_app, !length_bits_be, length_address_bits, Hd. done. }
  assert (forall tl, read_external (mkCell (hd ++ tl) (option_list init ++ [body])) =
    match tl, option_list init ++ [body] with
    | [true; true; true], [si; b] => Some {| x_dest := (0, dest); x_init := Some si; x_body := b |}
    | [false; true], [b] => Some {| x_dest := (0, dest); x_init := None; x_body := b |}
    | _, _ => None
    end) as Hr.
  { intros tl. unfold read_external, hd. cbn [bits_of refs_of]. rewrite <- !app_assoc.
    match goal with |- context [load_uint 4 ?l] =>
      change l with (bits_be 4 8 ++ address_bits 0 dest ++ coin_bits 0 ++ tl) end.
    rewrite (load_uint_bits 4 8 (address_bits 0 dest ++ coin_bits 0 ++ tl)) by lia. cbn [mbind option_bind].
    rewrite load_address_bits by (done || lia). cbn [mbind option_bind].
    rewrite load_coins_bits by lia. done. }
  clearbody hd. destruct init as [si|].
  - run_store. run_store. unfold storeBit. rewrite endCell_run.
    + eexists. split; [reflexivity|]. cbn [b_bits b_refs push_bits beginCell app].
      rewrite <- !app_assoc. split; [apply Hr|]. split; [|done].
      split; cbn [bits_of refs_of]; unfold MAX_CELL_BITS, MAX_CELL_REFS; rewrite ?length_app, ?Hh; cbn; lia.
    + cbn [b_bits b_refs push_bits beginCell app]. rewrite ?length_app, ?Hh; cbn; lia.
    + cbn; lia.
  - cbn [mbind result_bind]. run_store. unfold storeBit. rewrite endCell_run.
    + eexists. split; [reflexivity|]. cbn [b_bits b_refs push_bits beginCell app].
      rewrite <- !app_assoc. split; [apply Hr|]. split; [|done].
      split; cbn [bits_of refs_of]; unfold MAX_CELL_BITS, MAX_CELL_REFS; rewrite ?length_app, ?Hh; cbn; lia.
    + cbn [b_bits b_refs push_bits beginCell app]. rewrite ?length_app, ?Hh; cbn; lia.
    + cbn; lia.
Qed.

(** ** The wallet's StateInit *)

Definition code_cell : Cell :=
  match bocToCell (parse_pairs CODE_BOC_HEX) with Ok c => c | Err _ => mkCell [] [] end.

Definition small_cellb (c : Cell) : bool :=
  Nat.leb (length (bits_of c)) MAX_CELL_BITS && Nat.leb (length (refs_of c)) MAX_CELL_REFS.

Lemma small_cells_check l : forallb small_cellb l = true -> Forall small_cell l.
Proof.
  rewrite forallb_Forall. intros HF. eapply Forall_impl; [exact HF|]. intros c Hc. cbn beta in Hc.
  apply andb_true_iff in Hc as [H1 H2]. split; by apply Nat.leb_le.
Qed.

Lemma code_cell_small : Forall small_cell (subcells code_cell) /\ (length (subcells code_cell) <= 40)%nat.
Proof. split; [apply small_cells_check|apply Nat.leb_le]; vm_compute; reflexivity. Qed.

Section StateInit.
Context `{N : Noble, !NobleLaws N}.

Lemma codeCell_ok : codeCell = Ok code_cell.
Proof using NobleLaws0.
  unfold codeCell. rewrite (proj2 (noble_hexToBytes_ok CODE_BOC_HEX "ton wallet code" (parse_pairs CODE_BOC_HEX))).
  - cbn [mbind result_bind]. vm_compute. reflexivity.
  - change (startsWith CODE_BOC_HEX (js "0x")) with false. cbv zeta iota.
    split_and!; [apply forallb_Forall|..]; vm_compute; reflexivity.
Qed.

Definition wallet_id : Z := walletIdV5R1 TON_NETWORK_GLOBAL_ID 0 0.

Definition data_bits (publicKey : bytes) : list bool :=
  [true] ++ bits_be 32 0 ++ bits_be 32 wallet_id ++ buffer_bits publicKey ++ [false].

Definition state_init (publicKey : bytes) : Cell :=
  mkCell [false; false; true; true; false] [code_cell; mkCell (data_bits publicKey) []].

Lemma walletStateInit_ok publicKey : length publicKey = 32%nat ->
  walletStateInit publicKey TON_NETWORK_GLOBAL_ID = Ok (state_init publicKey) /\
  Forall small_cell (subcells (state_init publicKey)) /\ (length (subcells (state_init publicKey)) <= 42)%nat.
Proof using NobleLaws0.
  intros Hl. assert (length (data_bits publicKey) = 322%nat) as Hd.
  { unfold data_bits. rewrite !length_app, !length_bits_be, length_buffer_bits, Hl. done. }
  assert (dataCell publicKey TON_NETWORK_GLOBAL_ID = Ok (mkCell (data_bits publicKey) [])) as Ed.
  { unfold dataCell. rewrite Hl. cbn [Nat.eqb negb check mbind result_bind]. fold wallet_id.
    assert (0 <= wallet_id < 2 ^ 32) by (vm_compute; split; congruence).
    do 2 run_store. unfold storeBit, storeBuffer. rewrite !push_bits_app.
    change (push_bits beginCell ?l) with {| b_bits := l; b_refs := [] |}.
    match goal with |- endCell {| b_bits := ?l; b_refs := _ |} = _ =>
      assert (l = data_bits publicKey) as -> end.
    { unfold data_bits. by rewrite <- ?app_assoc. }
    rewrite endCell_run; [done|cbn [b_bits]; rewrite Hd; lia|cbn; lia]. }
  destruct code_cell_small as [Hs Hn]. split_and!.
  - unfold walletStateInit. rewrite codeCell_ok. cbn [mbind result_bind storeMaybeRef].
    run_store. rewrite Ed. cbn [mbind result_bind storeMaybeRef]. run_store.
    rewrite endCell_run by (cbn; lia). done.
  - constructor; [split; cbn; unfold MAX_CELL_BITS, MAX_CELL_REFS; lia|].
    cbn [fmap list_fmap mjoin list_join]. apply Forall_app. split; [done|]. rewrite app_nil_r.
    constructor; [|constructor]. split; cbn [bits_of refs_of length]; unfold MAX_CELL_BITS, MAX_CELL_REFS; lia.
  - change (subcells (state_init publicKey)) with
      (state_init publicKey :: subcells code_cell ++ [mkCell (data_bits publicKey) []]).
    cbn [length]. rewrite length_app. cbn [length]. lia.
Qed.

Lemma data_bits_inj k1 k2 : length k1 = 32%nat -> length k2 = 32%nat -> data_bits k1 = data_bits k2 -> k1 = k2.
Proof using.
  intros H1 H2 E. unfold data_bits in E.
  apply app_inj_length in E as [_ E]; [|done]. apply app_inj_length in E as [_ E]; [|done].
  apply app_inj_length in E as [_ E]; [|done].
  pose proof (load_bytes_buffer k1 [false]) as L1. pose proof (load_bytes_buffer k2 [false]) as L2.
  rewrite E, H1 in L1. rewrite H2 in L2. rewrite L1 in L2. congruence.
Qed.

(** a deposit address belongs to one key.  Every 32-byte public key has a
    wallet address; if two public keys have the same address they are the same
    key, or the two StateInits contain two cells with different hash inputs
    and equal SHA-256 digests. *)
Theorem wallet_address_binds_key k1 k2 : length k1 = 32%nat -> length k2 = 32%nat ->
  exists a1 a2, walletAddressHash k1 TON_NETWORK_GLOBAL_ID = Ok a1 /\
    walletAddressHash k2 TON_NETWORK_GLOBAL_ID = Ok a2 /\ length a1 = 32%nat /\
    (a1 = a2 -> k1 = k2 \/
     exists x y, x ∈ subcells (state_init k1) /\ y ∈ subcells (state_init k2) /\
       preimage noble_sha256 x <> preimage noble_sha256 y /\
       noble_sha256 (preimage noble_sha256 x) = noble_sha256 (preimage noble_sha256 y)).
Proof using NobleLaws0.
  intros H1 H2. destruct (walletStateInit_ok k1 H1) as (E1 & S1 & _), (walletStateInit_ok k2 H2) as (E2 & S2 & _).
  unfold walletAddressHash. rewrite E1, E2. cbn [mbind result_bind].
  exists (hash noble_sha256 (state_init k1)), (hash noble_sha256 (state_init k2)).
  split_and!; [done|done|by rewrite hash_preimage, noble_sha256_length|].
  intros E. destruct (hash_tree_binding noble_sha256 noble_sha256_length _ _ S1 S2 E) as [Ek|Hc]; [|by right].
  left. apply (f_equal (fun c => bits_of (default c (refs_of c !! 1%nat)))) in Ek.
  by apply data_bits_inj.
Qed.
End StateInit.

Lemma wallet_address_witness :
  exists a, @walletAddressHash toy_noble (replicate 32 x01) TON_NETWORK_GLOBAL_ID = Ok a /\ length a = 32%nat.
Proof.
  destruct (@wallet_address_binds_key toy_noble toy_noble_laws (replicate 32 x01) (replicate 32 x02))
    as (a & _ & Ea & _ & Hl & _); [reflexivity..|].
  exists a. split; [exact Ea|exact Hl].
Defined.
