(* ===== verification/TonDeriver.v ===== *)
(** * The TON deposit wallet

    packages/lit-deposit-address/src/derivation/vm/ton/TonVmWalletDeriver.ts:
    which transfers the signer authorizes and the message it signs. *)

From Stdlib Require Import Strings.Byte.
From S2P Require Import Prelude JsNum JsString Scanner HexBytes TonCell TonBoc.
From S2P Require Import ToyRuntime DepositBytes DepositTypes TonWallet.
Local Open Scope Z_scope.
Local Open Scope js_scope.

Definition HASH_LEN : nat := 32.

Section Ton.
Context `{N : Noble, H : Host, E : Ed25519}.

Definition hex32Bytes (hex : jsstring) (field : string) : result bytes :=
  l ← hexToBytes hex field;
  fail_if negb (Nat.eqb (length l) HASH_LEN) with (field +:+ " must be 32 bytes") ;;
  Ok l.

Definition verifyTransactions (trigger : DepositAddressTrigger) (attestation : DepositAddressTriggerAttestation)
    (transactions : list TonVmTransaction) : result unit :=
  match transactions with
  | [tx] =>
      currency ← hexToBytes (in_currency (tr_input trigger)) "trigger.input.currency";
      fail_if negb (Nat.eqb (length currency) HASH_LEN) || negb (forallb (fun b => bz b =? 0) currency)
        with "ton-vm only supports native TON deposits" ;;
      fail_if tt_bounce tx with "deposit transfer must be non-bounceable" ;;
      expectedDepository ← hex32Bytes (ta_inputDepository attestation) "attestation.inputDepository";
      actualTo ← encodeTonAddress (tt_to tx);
      fail_if negb (equalBytes actualTo expectedDepository) with "to must equal input depository" ;;
      expectedAmount ← BigInt (in_amount (tr_input trigger));
      amount ← BigInt (tt_amount tx);
      fail_if negb (amount =? expectedAmount) with "amount must equal input.amount" ;;
      fail_if sendModeCarriesAll (tt_sendMode tx) with "send mode must not carry the remaining balance" ;;
      fail_if negb (startsWith (tt_comment tx) (tr_orderId trigger))
        with "comment must start with trigger.orderId" ;;
      depositor ← require (DEPOSITOR_RE (tt_comment tx)) "comment must include |depositor=<depositor>|";
      expectedDepositor ← hex32Bytes (df_depositor (tr_derivationFields trigger)) "trigger.derivationFields.depositor";
      encoded ← encodeTonAddress depositor;
      fail_if negb (equalBytes encoded expectedDepositor) with "comment depositor mismatch" ;;
      Ok tt
  | _ => throw "ton deposit requires exactly 1 transaction"
  end.

Definition signTransactionWithKey (privateKey : bytes) (transaction : TonVmTransaction)
  : result TonVmSignedTransaction :=
  publicKey ← bip32_getPublicKey privateKey;
  addressHash ← walletAddressHash publicKey TON_NETWORK_GLOBAL_ID;
  destHash ← encodeTonAddress (tt_to transaction);
  amount ← BigInt (tt_amount transaction);
  body ← commentBody (tt_comment transaction);
  message ← internalMessage destHash amount (tt_bounce transaction) body;
  request ← signingRequest (walletIdV5R1 TON_NETWORK_GLOBAL_ID 0 0) (tt_seqno transaction)
              (tt_validUntil transaction) (tt_sendMode transaction) message;
  signingCell ← endCell request;
  let signingHash := hash noble_sha256 signingCell in
  signature ← signEd25519Bip32 signingHash privateKey;
  body ← signedRequestWithSignature request signature;
  stateInit ← (if tt_seqno transaction =? 0
               then Some <$> walletStateInit publicKey TON_NETWORK_GLOBAL_ID else Ok None);
  external ← externalMessage addressHash stateInit body;
  boc ← cellToBoc noble_sha256 external;
  Ok {| ts_signature := js "0x" ++ bytesToHex signature;
        ts_signingHash := js "0x" ++ bytesToHex signingHash;
        ts_externalMessage := bytesToBase64 boc |}.

(** [walletFromNode], for the public key of the node. *)
Definition walletAddress (publicKey : bytes) : result jsstring :=
  h ← walletAddressHash publicKey TON_NETWORK_GLOBAL_ID; Ok (js "0:" ++ bytesToHex h).
End Ton.

(** ** What the policy accepts *)

Lemma zero_bytes l : forallb (fun b => bz b =? 0) l = true <-> l = replicate (length l) x00.
Proof.
  rewrite forallb_Forall. split.
  - induction 1 as [|b l Hb _ IH]; [done|]. cbn [length replicate]. f_equal; [|done].
    apply bz_inj. apply Z.eqb_eq in Hb. by rewrite Hb.
  - intros ->. apply Forall_replicate. done.
Qed.

Section Policy.
Context `{N : Noble, H : Host, E : Ed25519}.

(** An authorized deposit: the one transfer [tx] moves the attested amount of
    native TON to the attested depository, and names the order and the
    depositor. *)
Record ton_deposit (trigger : DepositAddressTrigger) (attestation : DepositAddressTriggerAttestation)
    (tx : TonVmTransaction) (depository : bytes) (amount : Z) : Prop := {
  td_native : hexToBytes (in_currency (tr_input trigger)) "trigger.input.currency" = Ok (replicate 32 x00);
  td_depository : hexToBytes (ta_inputDepository attestation) "attestation.inputDepository" = Ok depository /\
                  length depository = 32%nat;
  td_to : encodeTonAddress (tt_to tx) = Ok depository;
  td_amount : BigInt (in_amount (tr_input trigger)) = Ok amount /\ BigInt (tt_amount tx) = Ok amount;
  td_bounce : tt_bounce tx = false;
  td_mode : sendModeCarriesAll (tt_sendMode tx) = false;
  td_order : exists rest, tt_comment tx = tr_orderId trigger ++ rest;
  td_depositor : exists d h, DEPOSITOR_RE (tt_comment tx) = Some d /\ encodeTonAddress d = Ok h /\
    length h = 32%nat /\
    hexToBytes (df_depositor (tr_derivationFields trigger)) "trigger.derivationFields.depositor" = Ok h }.

Lemma startsWith_iff s p : startsWith s p = true <-> exists r, s = p ++ r.
Proof using.
  unfold startsWith. rewrite bool_decide_eq_true. split.
  - intros Ep. exists (drop (length p) s). by rewrite <- Ep at 1; rewrite take_drop.
  - intros [r ->]. apply take_app_length.
Qed.

Lemma hex32Bytes_ok hex field l :
  hex32Bytes hex field = Ok l <-> hexToBytes hex field = Ok l /\ length l = 32%nat.
Proof using.
  unfold hex32Bytes, HASH_LEN. split.
  - intros Hx. res_inv Hx. by bool_prop.
  - intros [-> Hl]. cbn [mbind result_bind]. by rewrite Hl.
Qed.

Lemma verifyTransactions_iff trigger attestation txs :
  verifyTransactions trigger attestation txs = Ok tt <->
  exists tx depository amount, txs = [tx] /\ ton_deposit trigger attestation tx depository amount.
Proof using.
  unfold verifyTransactions. split.
  - intros Hv. destruct txs as [|tx [|]]; [done| |done]. res_inv Hv. bool_prop.
    apply hex32Bytes_ok in Hs2 as [Hd Hdl], Hs11 as [Hp Hpl].
    apply equalBytes_spec in Hs4, Hs13. subst r3 r6 r12.
    exists tx, r2, r5. split; [done|]. split; try done.
    + apply zero_bytes in H1. unfold HASH_LEN in H0. rewrite H0 in H1. by rewrite <- H1.
    + by apply startsWith_iff.
    + eauto 10.
  - intros (tx & dep & amount & -> & [Hn [Hd Hdl] Hto [Ha Ha'] Hb Hm Ho (d & h & Hd1 & Hd2 & Hd3 & Hd4)]).
    rewrite Hn. cbn [mbind result_bind]. rewrite length_replicate, (proj2 (zero_bytes _)), Hb by done.
    cbn [HASH_LEN Nat.eqb negb orb check mbind result_bind].
    rewrite (proj2 (hex32Bytes_ok _ _ _) (conj Hd Hdl)). cbn [mbind result_bind]. rewrite Hto. cbn [mbind result_bind].
    rewrite (proj2 (equalBytes_spec dep dep) eq_refl). cbn [negb check mbind result_bind].
    rewrite Ha, Ha'. cbn [mbind result_bind]. rewrite Z.eqb_refl, Hm, (proj2 (startsWith_iff _ _) Ho), Hd1.
    cbn [negb check require mbind result_bind].
    rewrite (proj2 (hex32Bytes_ok _ _ _) (conj Hd4 Hd3)). cbn [mbind result_bind]. rewrite Hd2. cbn [mbind result_bind].
    by rewrite (proj2 (equalBytes_spec h h) eq_refl).
Qed.
End Policy.

(** ** The signed message *)

(** An authorized mode stays free of the carry-all bits. *)
Lemma outMode_exact m : sendModeCarriesAll m = false -> Z.land (outMode m) SEND_MODE_CARRY_ALL = 0.
Proof.
  unfold sendModeCarriesAll, outMode, SEND_MODE_CARRY_ALL, SEND_MODE_IGNORE_ERRORS, js_and, js_or. intros Hm.
  apply negb_false_iff, Z.eqb_eq in Hm. change (to_int32 192) with 192 in Hm. change (to_int32 2) with 2.
  change (to_int32 255) with (Z.ones 8). rewrite Z.land_ones, to_int32_mod, <- Z.land_ones by lia.
  rewrite <- Z.land_assoc. change (Z.land (Z.ones 8) 192) with 192. rewrite Z.land_lor_distr_l, Hm. done.
Qed.

Lemma ordered_length sha256 root :
  (forall x y, x ∈ subcells root -> y ∈ subcells root -> hash sha256 x = hash sha256 y -> x = y) ->
  (length (ordered sha256 root) <= length (subcells root))%nat.
Proof.
  intros Hinj. destruct (ordered_ok sha256 root) as (Hnd & _ & Hsub & _).
  { intros x y Hx Hy Hk. apply Hinj; [done|done|]. by apply bytesToHex_inj. }
  apply submseteq_length. by apply NoDup_submseteq.
Qed.

Lemma subcells_refs c : subcells c = c :: mjoin (subcells <$> refs_of c).
Proof. by destruct c. Qed.

(** A cell and its references. *)
Lemma small_tree c : small_cell c -> Forall (fun r => Forall small_cell (subcells r)) (refs_of c) ->
  Forall small_cell (subcells c).
Proof.
  intros Hc HF. rewrite subcells_refs. constructor; [done|].
  induction HF as [|r rs Hr _ IH]; [constructor|]. by apply Forall_app.
Qed.

(** The tree of an external message. *)
Section MessageTree.
Context (ext rq msg body : Cell) (init : option Cell) (mode : Z).
Context (Fe : refs_of ext = option_list init ++ [rq]) (Fq : refs_of rq = [outList mode msg])
        (Fm : refs_of msg = [body]).

Lemma message_tree : small_cell ext -> small_cell rq -> small_cell msg -> Forall small_cell (subcells body) ->
  Forall (fun c => Forall small_cell (subcells c)) (option_list init) -> Forall small_cell (subcells ext).
Proof using Fe Fq Fm.
  intros He Hq Hm Hb Hi. apply small_tree; [done|]. rewrite Fe. apply Forall_app. split; [done|].
  constructor; [|constructor]. apply small_tree; [done|]. rewrite Fq. constructor; [|constructor].
  apply small_tree; [split; apply Nat.leb_le; reflexivity|]. cbn [outList refs_of].
  constructor; [constructor; [split; cbn; unfold MAX_CELL_BITS, MAX_CELL_REFS; lia|constructor]|].
  constructor; [|constructor]. apply small_tree; [done|]. rewrite Fm. by constructor.
Qed.

Lemma message_tree_length :
  length (subcells ext) = (5 + length (mjoin (subcells <$> option_list init)) + length (subcells body))%nat.
Proof using Fe Fq Fm.
  rewrite (subcells_refs ext), Fe. cbn [length]. rewrite fmap_app, join_app, length_app.
  cbn [fmap list_fmap mjoin list_join]. rewrite app_nil_r, (subcells_refs rq), Fq.
  cbn [fmap list_fmap mjoin list_join length]. rewrite app_nil_r.
  change (subcells (outList mode msg)) with (outList mode msg :: [mkCell [] []] ++ subcells msg ++ []).
  cbn [length app]. rewrite app_nil_r, (subcells_refs msg), Fm. cbn [fmap list_fmap mjoin list_join length].
  rewrite app_nil_r. lia.
Qed.
End MessageTree.

#[local] Opaque code_cell.

Section Sweep.
Context `{N : Noble, !NobleLaws N, H : Host, !HostLaws H, E : Ed25519, L : !Ed25519Laws E}.

(** The transfer an external message carries, read from its cells: for which
    wallet it is, and what its one action sends where. *)
Record carries (ext : Cell) (tx : TonVmTransaction) (key publicKey depository : bytes) (amount : Z)
    (signature : bytes) : Prop := {
  ca_address : exists x, read_external ext = Some x /\
    x_dest x = (0, hash noble_sha256 (state_init publicKey)) /\
    x_init x = (if tt_seqno tx =? 0 then Some (state_init publicKey) else None) /\
    exists q, read_request (x_body x) = Some q /\ q_walletId q = wallet_id /\ q_seqno q = tt_seqno tx /\
      q_validUntil q = request_validUntil (tt_seqno tx) (tt_validUntil tx) /\
      Z.land (q_mode q) SEND_MODE_CARRY_ALL = 0 /\ q_signature q = signature /\
      signEd25519Bip32 (hash noble_sha256 (q_signed q)) key = Ok signature /\
      exists m, read_message (q_message q) = Some m /\ m_dest m = (0, depository) /\ m_amount m = amount /\
        m_bounce m = false /\ read_comment (m_body m) = Some (TextEncoder_encode (tt_comment tx)) }.

(** The cell whose hash is signed: the request, before the signature, for the
    transfer of [amount] to [depository]. *)
Definition signing_cell (tx : TonVmTransaction) (depository : bytes) (amount : Z) (sc : Cell) : Prop :=
  exists body msg request, commentBody (tt_comment tx) = Ok body /\
    internalMessage depository amount false body = Ok msg /\
    signingRequest wallet_id (tt_seqno tx) (tt_validUntil tx) (tt_sendMode tx) msg = Ok request /\
    endCell request = Ok sc.

Lemma sweep_cells trigger attestation tx depository amount key :
  ton_deposit trigger attestation tx depository amount -> 0 <= amount < 2 ^ 120 ->
  0 <= tt_seqno tx < 2 ^ 32 -> 0 <= tt_validUntil tx < 2 ^ 32 -> length key = 64%nat ->
  Z.of_nat (length (TextEncoder_encode (tt_comment tx))) <= 100000 ->
  exists publicKey sc, bip32_getPublicKey key = Ok publicKey /\ signing_cell tx depository amount sc /\
    (forall signed, signTransactionWithKey key tx = Ok signed ->
       exists signature, signEd25519Bip32 (hash noble_sha256 sc) key = Ok signature) /\
    forall signature, signEd25519Bip32 (hash noble_sha256 sc) key = Ok signature ->
    exists ext, carries ext tx key publicKey depository amount signature /\
      Forall small_cell (subcells ext) /\ Z.of_nat (length (subcells ext)) <= 118000 /\
      signTransactionWithKey key tx =
        (boc ← cellToBoc noble_sha256 ext;
         Ok {| ts_signature := js "0x" ++ bytesToHex signature;
               ts_signingHash := js "0x" ++ bytesToHex (hash noble_sha256 sc);
               ts_externalMessage := bytesToBase64 boc |}).
Proof using All.
  intros [_ [_ Hdl] Hto [_ Ha] Hb Hm _ _] Hamt Hseq Hvu Hkey Hlen.
  set (pk := point_toBytes (mul (bytesToNumberLE (take 32 key)))).
  assert (length pk = 32%nat) as Hpk by apply toBytes_length.
  destruct (walletStateInit_ok pk Hpk) as (Esi & Ssi & Nsi).
  unfold signTransactionWithKey. rewrite Hb.
  rewrite (getPublicKey_ok _ Hkey). fold pk. cbn [mbind result_bind].
  unfold walletAddressHash. rewrite Esi. cbn [mbind result_bind]. rewrite Hto, Ha. cbn [mbind result_bind].
  destruct (comment_ok (tt_comment tx)) as (body & Ebody & Rb & Sb & Nb). rewrite Ebody. cbn [mbind result_bind].
  destruct (internalMessage_ok depository amount false body Hdl Hamt) as (msg & Emsg & Rm & Sm & Fm).
  rewrite Emsg. cbn [mbind result_bind].
  assert (0 <= request_validUntil (tt_seqno tx) (tt_validUntil tx) < 2 ^ 32) as Hv.
  { unfold request_validUntil. destruct (_ =? 0); lia. }
  assert (0 <= wallet_id < 2 ^ 32) as Hw by (vm_compute; split; congruence).
  change (walletIdV5R1 TON_NETWORK_GLOBAL_ID 0 0) with wallet_id.
  pose proof (signingRequest_run wallet_id (tt_seqno tx) (tt_validUntil tx) (tt_sendMode tx) msg Hw Hseq Hv) as Erq.
  rewrite Erq. cbn [mbind result_bind]. set (rb := Build_Builder (request_bits _ _ _) _) in *.
  pose proof (eq_refl : rb = Build_Builder _ _) as Erb. clearbody rb.
  assert (endCell rb = Ok (mkCell (b_bits rb) (b_refs rb))) as Esc.
  { rewrite Erb. apply endCell_run; cbn [b_bits b_refs length]; [|lia]. apply Nat.leb_le; reflexivity. }
  rewrite Esc. cbn [mbind result_bind]. set (sc := mkCell _ _) in *.
  exists pk, sc. split; [done|]. split; [by exists body, msg, rb|].
  split; [intros signed Hs; apply bind_ok in Hs as (sig & Es & _); eauto|].
  intros sig Es. rewrite Es. unfold sc in *. clear Esc Erq sc. subst rb. cbn [mbind result_bind b_bits b_refs] in *.
  assert (length sig = 64%nat) as Hsl by (by eapply signature_length).
  destruct (signedRequest_ok wallet_id (request_validUntil (tt_seqno tx) (tt_validUntil tx)) (tt_seqno tx)
    (outMode (tt_sendMode tx)) msg sig Hw Hseq Hv (outMode_range _) Hsl) as (rq & -> & Rq & Sq & Fq).
  cbn [mbind result_bind].
  set (init := if tt_seqno tx =? 0 then Some (state_init pk) else None).
  assert ((if tt_seqno tx =? 0 then Some <$> Ok (state_init pk) else Ok None) = Ok init) as ->.
  { unfold init. by destruct (_ =? 0). }
  cbn [mbind result_bind].
  destruct (externalMessage_ok (hash noble_sha256 (state_init pk)) init rq) as (ext & -> & Re & Se & Fe).
  { by rewrite hash_preimage, noble_sha256_length. }
  cbn [mbind result_bind]. exists ext. split_and!; [| | |reflexivity].
  - constructor. eexists. split; [exact Re|]. cbn [x_dest x_init x_body].
    split; [reflexivity|]. split; [reflexivity|].
    eexists. split; [exact Rq|]. cbn [q_walletId q_seqno q_validUntil q_mode q_signature q_signed q_message].
    do 3 (split; [reflexivity|]). split; [by apply outMode_exact|]. split; [reflexivity|].
    split; [exact Es|].
    eexists. split; [exact Rm|]. cbn [m_dest m_amount m_bounce m_body]. done.
  - apply (message_tree ext rq msg body init (outMode (tt_sendMode tx))); try done.
    unfold init. destruct (_ =? 0); [constructor; [exact Ssi|constructor]|constructor].
  - assert (length (mjoin (subcells <$> option_list init)) <= 42)%nat as Ni.
    { unfold init. destruct (_ =? 0); [|cbn; lia].
      change (option_list (Some (state_init pk))) with [state_init pk].
      cbn [fmap list_fmap mjoin list_join]. rewrite app_nil_r. exact Nsi. }
    rewrite (message_tree_length ext rq msg body init (outMode (tt_sendMode tx))) by done. lia.
Qed.

(** what an authorized TON sweep does.  When the policy accepts the
    transactions, there is exactly one; with numbers in the range of their
    fields, the signer builds a signed request whose cells decode to: a
    message for the Wallet V5R1 of the derived key (with its StateInit exactly
    on the first use), signed over the request without its last 512 bits,
    with one action that sends exactly [trigger.input.amount] nanoton, not
    bounceable and without the carry-all send modes, to the attested
    depository, with the comment of the transaction (which starts with the
    order id).  The only further cause of failure is the Ed25519 signature
    of the request's hash.  If the distinct cells of that message have distinct hashes,
    signing succeeds and the returned base64 is a bag of cells that parses
    back to the message. *)
Theorem ton_sweep_pays_depository trigger attestation txs key :
  verifyTransactions trigger attestation txs = Ok tt ->
  length key = 64%nat ->
  Forall (fun tx => 0 <= tt_seqno tx < 2 ^ 32 /\ 0 <= tt_validUntil tx < 2 ^ 32 /\
                    Z.of_nat (length (TextEncoder_encode (tt_comment tx))) <= 100000) txs ->
  (forall a, BigInt (in_amount (tr_input trigger)) = Ok a -> 0 <= a < 2 ^ 120) ->
  exists tx depository amount publicKey sc, txs = [tx] /\
    hexToBytes (ta_inputDepository attestation) "attestation.inputDepository" = Ok depository /\
    BigInt (in_amount (tr_input trigger)) = Ok amount /\
    (exists rest, tt_comment tx = tr_orderId trigger ++ rest) /\
    bip32_getPublicKey key = Ok publicKey /\ signing_cell tx depository amount sc /\
    (forall signed, signTransactionWithKey key tx = Ok signed ->
       exists signature, signEd25519Bip32 (hash noble_sha256 sc) key = Ok signature) /\
    forall signature, signEd25519Bip32 (hash noble_sha256 sc) key = Ok signature ->
    exists ext, carries ext tx key publicKey depository amount signature /\
      ((forall x y, x ∈ subcells ext -> y ∈ subcells ext -> hash noble_sha256 x = hash noble_sha256 y -> x = y) ->
       exists boc signed, signTransactionWithKey key tx = Ok signed /\
         ts_externalMessage signed = btoa boc /\ bocToCell boc = Ok ext).
Proof using All.
  intros Hv Hkey HF Hamt. apply verifyTransactions_iff in Hv as (tx & dep & amount & -> & Hd).
  apply Forall_singleton in HF as (H1 & H2 & H3). pose proof Hd as [_ [Hdep _] _ [Ha _] _ _ Ho _].
  destruct (sweep_cells trigger attestation tx dep amount key) as (pk & sc & Epk & Hsc & Hfail & Hsw); [done|auto..|].
  exists tx, dep, amount, pk, sc. split_and!; [done..|]. intros sig Es.
  destruct (Hsw sig Es) as (ext & Hc & Hsm & Hn & Est). exists ext. split; [done|]. intros Hinj.
  destruct (boc_parses noble_sha256 ext Hsm Hinj) as (boc & Eb & Ep).
  { pose proof (ordered_length noble_sha256 ext Hinj). lia. }
  rewrite Eb in Est. cbn [mbind result_bind] in Est.
  eexists boc, _. split; [exact Est|]. cbn [ts_externalMessage]. split; [|done].
  apply bytesToBase64_btoa.
Qed.
End Sweep.

(** ** A concrete sweep *)

Definition toy_input (vm : string) (currency : jsstring) (amount : string) : DepositAddressTriggerInput :=
  {| in_vmType := js vm; in_chainId := js "1"; in_currency := currency; in_amount := js amount |}.
Definition toy_fields (vm : string) (depositor refund : jsstring) : DepositAddressTriggerDerivationFields := {|
  df_inputVmType := js vm; df_outputVmType := js "ethereum-vm"; df_outputChainId := js "10";
  df_outputCurrency := js "0x00"; df_outputRecipient := js "0x01"; df_solver := js "0x02";
  df_pricingOracle := js "0x03"; df_depositor := depositor; df_refundRecipient := refund;
  df_priceImpactBps := js "100"; df_salt := js "0" |}.
Definition hex_of (l : bytes) : jsstring := js "0x" ++ HexBytes.bytesToHex l.
Definition ton_trigger : DepositAddressTrigger := {|
  tr_input := toy_input "ton-vm" (hex_of (replicate 32 x00)) "1500000000";
  tr_derivationFields := toy_fields "ton-vm" (hex_of (replicate 32 x0c)) (hex_of (replicate 32 x0d));
  tr_orderId := js "0xabc"; tr_nonce := js "1"; tr_currencies := []; tr_prices := []; tr_extraData := js "0x" |}.
Definition ton_attestation : DepositAddressTriggerAttestation := {|
  ta_chainId := 1; ta_depositAddressManager := js "0x"; ta_inputDepository := hex_of (replicate 32 x0a);
  ta_triggerHash := js "0x"; ta_signatures := [] |}.
Definition ton_tx : TonVmTransaction := {|
  tt_to := js "0:" ++ HexBytes.bytesToHex (replicate 32 x0a); tt_amount := js "1500000000";
  tt_comment := js "0xabc|depositor=0:" ++ HexBytes.bytesToHex (replicate 32 x0c) ++ js "|";
  tt_bounce := false; tt_seqno := 0; tt_validUntil := 0; tt_sendMode := 1 |}.

Lemma ton_sweep_witness :
  @verifyTransactions toy_noble toy_host ton_trigger ton_attestation [ton_tx] = Ok tt /\
  exists tx depository, [ton_tx] = [tx] /\
    @hexToBytes toy_noble (ta_inputDepository ton_attestation) "attestation.inputDepository" = Ok depository.
Proof.
  split; [vm_compute; reflexivity|].
  destruct (@ton_sweep_pays_depository toy_noble toy_noble_laws toy_host toy_host_laws toy_ed25519 toy_ed25519_laws
              ton_trigger ton_attestation [ton_tx] (replicate 64 x07)) as (tx & dep & _ & _ & _ & E1 & E2 & _).
  - vm_compute. reflexivity.
  - reflexivity.
  - constructor; [|constructor]. split; [cbn; lia|]. split; [cbn; lia|]. vm_compute. discriminate.
  - intros a Ha. vm_compute in Ha. injection Ha as <-. lia.
  - exists tx, dep. split; [exact E1|exact E2].
Defined.
