(* ===== verification/DepositAttestation.v ===== *)
(** * Attestations of deposit-address triggers, and their orders

    packages/lit-deposit-address/src/attestation/index.ts, the hashes of
    common/relay-sdk.ts and the path of derivation/path.ts.  The functions of
    viem and @noble/curves are operations of [Viem]. *)

From Stdlib Require Import Strings.Byte QArith Lqa.
From S2P Require Import Prelude JsNum JsString Scanner HexBytes ToyRuntime DepositBytes DepositTypes.
Local Open Scope Z_scope.
Local Open Scope js_scope.

(** ** Bundle configuration *)

Record BundleConfig := {
  DEPOSIT_ADDRESS_MANAGER_ADDRESS : jsstring;
  HUB_EVM_CHAIN_ID : Z;
  ALLOWED_ORACLES : list jsstring;
  ORACLE_SIGNATURE_THRESHOLD : Z;
}.

(** ** ABI schemas and values *)

Inductive AbiType :=
  | T_string | T_bytes | T_bytes32 | T_uint256 | T_uint8 | T_address
  | T_tuple (components : list (string * AbiType))
  | T_array (component : AbiType).

Inductive AbiValue :=
  | V_text (s : jsstring)
  | V_num (n : Z)
  | V_tuple (fields : list AbiValue)
  | V_array (items : list AbiValue).

Definition DERIVATION_FIELDS_TUPLE : AbiType := T_tuple
  [("inputVmType", T_string); ("outputVmType", T_string); ("outputChainId", T_string);
   ("outputCurrency", T_bytes); ("outputRecipient", T_bytes); ("solver", T_address);
   ("pricingOracle", T_address); ("depositor", T_bytes); ("refundRecipient", T_bytes);
   ("priceImpactBps", T_uint256); ("salt", T_uint256)].

Definition TRIGGER_HASH_ABI : list AbiType :=
  [T_tuple [("vmType", T_string); ("chainId", T_string); ("currency", T_bytes); ("amount", T_uint256)];
   DERIVATION_FIELDS_TUPLE;
   T_bytes32;
   T_uint256;
   T_array (T_tuple [("chainId", T_string); ("currency", T_bytes)]);
   T_array (T_tuple [("usdPrice", T_uint256); ("usdPriceDecimals", T_uint8); ("currencyDecimals", T_uint8);
                     ("publishTime", T_uint256); ("expiration", T_uint256)]);
   T_bytes].

Definition ORDER_EIP712_TYPES : list (string * list (string * string)) :=
  [("Order", [("version", "string"); ("solverChainId", "string"); ("solver", "address"); ("salt", "uint256");
              ("inputs", "Input[]"); ("output", "Output"); ("fees", "Fee[]")]);
   ("Input", [("payment", "InputPayment"); ("refunds", "InputRefund[]")]);
   ("InputPayment", [("chainId", "string"); ("currency", "bytes"); ("amount", "uint256"); ("weight", "uint256")]);
   ("InputRefund", [("chainId", "string"); ("recipient", "bytes"); ("currency", "bytes");
                    ("minimumAmount", "uint256"); ("deadline", "uint32"); ("extraData", "bytes")]);
   ("Output", [("chainId", "string"); ("payments", "OutputPayment[]"); ("deadline", "uint32");
               ("calls", "bytes[]"); ("extraData", "bytes")]);
   ("OutputPayment", [("recipient", "bytes"); ("currency", "bytes"); ("minimumAmount", "uint256");
                      ("expectedAmount", "uint256")]);
   ("Fee", [("recipientChainId", "string"); ("recipient", "bytes"); ("currencyChainId", "string");
            ("currency", "bytes"); ("amount", "uint256")])].

(** [TRIGGER_TYPED_DATA] with the domain and message of one attestation. *)
Definition TRIGGER_TYPED_DATA : list (string * string) :=
  [("chainId", "uint256"); ("depositAddressManager", "address"); ("inputDepository", "bytes");
   ("triggerHash", "bytes32")].
Record TriggerTypedData := {
  tm_primaryType : string;
  tm_types : list (string * string);
  tm_domainChainId : Z;
  tm_domainName : jsstring;
  tm_domainContract : jsstring;
  tm_domainVersion : jsstring;
  tm_chainId : Z;
  tm_depositAddressManager : jsstring;
  tm_inputDepository : jsstring;
  tm_triggerHash : jsstring;
}.

(** ** External operations *)

Class Viem := {
  getAddress : jsstring -> result jsstring;
  hashTypedData : TriggerTypedData -> result jsstring;
  hashMessage_raw : jsstring -> result jsstring;
  keccak256_bytes : bytes -> jsstring;
  keccak256_hex : jsstring -> result jsstring;
  encodeAbiParameters : list AbiType -> list AbiValue -> result jsstring;
  encodePacked_string_bytes : jsstring -> jsstring -> result jsstring;
  hashStruct : list (string * list (string * string)) -> string -> Order -> result jsstring;
  secp256k1_recover : Z -> Z -> Z -> bytes -> result bytes;
}.

Definition zeroAddress : jsstring := js "0x0000000000000000000000000000000000000000".

(** [s.slice(-n)]. *)
Definition slice_last (n : nat) (s : jsstring) : jsstring := drop (length s - n) s.

Section Attestation.
Context `{N : Noble, V : Viem} (cfg : BundleConfig).

(** ** relay-sdk.ts *)

Definition generateAddress (chainId address : jsstring) : result jsstring :=
  packed ← encodePacked_string_bytes chainId address;
  h ← keccak256_hex packed;
  getAddress (js "0x" ++ slice_last 40 h).

Definition getOrderId (order : Order) : result jsstring := hashStruct ORDER_EIP712_TYPES "Order" order.

Definition derivationFields_value (d : DepositAddressTriggerDerivationFields) : result AbiValue :=
  priceImpactBps ← BigInt (df_priceImpactBps d);
  salt ← BigInt (df_salt d);
  Ok (V_tuple [V_text (df_inputVmType d); V_text (df_outputVmType d); V_text (df_outputChainId d);
               V_text (df_outputCurrency d); V_text (df_outputRecipient d); V_text (df_solver d);
               V_text (df_pricingOracle d); V_text (df_depositor d); V_text (df_refundRecipient d);
               V_num priceImpactBps; V_num salt]).

Definition price_value (p : DepositAddressTriggerPrice) : result AbiValue :=
  usdPrice ← BigInt (pr_usdPrice p);
  publishTime ← BigInt (pr_publishTime p);
  expiration ← BigInt (pr_expiration p);
  Ok (V_tuple [V_num usdPrice; V_num (pr_usdPriceDecimals p); V_num (pr_currencyDecimals p);
               V_num publishTime; V_num expiration]).

Definition trigger_values (t : DepositAddressTrigger) : result (list AbiValue) :=
  amount ← BigInt (in_amount (tr_input t));
  fields ← derivationFields_value (tr_derivationFields t);
  nonce ← BigInt (tr_nonce t);
  prices ← mapM price_value (tr_prices t);
  Ok [V_tuple [V_text (in_vmType (tr_input t)); V_text (in_chainId (tr_input t));
               V_text (in_currency (tr_input t)); V_num amount];
      fields; V_text (tr_orderId t); V_num nonce;
      V_array ((fun c => V_tuple [V_text (cu_chainId c); V_text (cu_currency c)]) <$> tr_currencies t);
      V_array prices; V_text (tr_extraData t)].

Definition getDepositAddressTriggerHash (t : DepositAddressTrigger) : result jsstring :=
  values ← trigger_values t;
  encoded ← encodeAbiParameters TRIGGER_HASH_ABI values;
  keccak256_hex encoded.

(** ** path.ts *)

Definition PATH_SEGMENTS : nat := 8.
Definition UINT31_MASK : Z := 0x7fffffff.

(** [Number.parseInt(hex, 16)] of a string of hex digits. *)
Definition parseInt16 (s : jsstring) : Z := Radix.of_digits 16 (hex_val <$> s).

Definition bytes32ToIndexes (hash : jsstring) : list Z :=
  let hex := if startsWith hash (js "0x") then drop 2 hash else hash in
  (fun i => js_and (parseInt16 (take 8 (drop (i * 8) hex))) UINT31_MASK) <$> seq 0 PATH_SEGMENTS.

Definition derivationFieldsToIndexes (d : DepositAddressTriggerDerivationFields) : result (list Z) :=
  value ← derivationFields_value d;
  encoded ← encodeAbiParameters [DERIVATION_FIELDS_TUPLE] [value];
  h ← keccak256_hex encoded;
  Ok (bytes32ToIndexes h).

(** ** Signature recovery *)

Definition normalizeAddress (address : jsstring) : result jsstring :=
  catch (getAddress address) "not a valid address".

Definition bytesToBigInt (l : bytes) : Z := foldl (fun value b => Z.lor (Z.shiftl value 8) (bz b)) 0 l.

Definition recoverAddressFromDigest (digest signature : jsstring) : result jsstring :=
  sigBytes ← noble_hexToBytes (if startsWith signature (js "0x") then drop 2 signature else signature);
  fail_if negb (Nat.eqb (length sigBytes) 65) with "signature must be 65 bytes" ;;
  let r := bytesToBigInt (take 32 sigBytes) in
  let s := bytesToBigInt (take 32 (drop 32 sigBytes)) in
  let v := byte_at sigBytes 64 in
  let v := if 27 <=? v then v - 27 else v in
  fail_if negb (v =? 0) && negb (v =? 1) with "invalid recovery bit" ;;
  digestBytes ← noble_hexToBytes (drop 2 digest);
  uncompressed ← secp256k1_recover r s v digestBytes;
  let addrHash := keccak256_bytes (drop 1 uncompressed) in
  getAddress (js "0x" ++ slice_last 40 addrHash).

Definition recoverEip712Address (typedData : TriggerTypedData) (signature : jsstring) : result jsstring :=
  digest ← hashTypedData typedData; recoverAddressFromDigest digest signature.

Definition recoverPersonalSignAddress (message signature : jsstring) : result jsstring :=
  digest ← hashMessage_raw message; recoverAddressFromDigest digest signature.

(** The typed data an oracle signs for an attestation. *)
Definition triggerTypedData (a : DepositAddressTriggerAttestation) (manager : jsstring) : TriggerTypedData :=
  {| tm_primaryType := "Trigger"; tm_types := TRIGGER_TYPED_DATA;
     tm_domainChainId := ta_chainId a; tm_domainName := js "Trigger";
     tm_domainContract := zeroAddress; tm_domainVersion := js "1";
     tm_chainId := ta_chainId a; tm_depositAddressManager := manager;
     tm_inputDepository := ta_inputDepository a; tm_triggerHash := ta_triggerHash a |}.

(** [undefined] when anything throws. *)
Definition recoverTriggerSigner (a : DepositAddressTriggerAttestation) (signature : jsstring) : option jsstring :=
  match (manager ← normalizeAddress (ta_depositAddressManager a);
         recoverEip712Address (triggerTypedData a manager) signature) with
  | Ok x => Some x
  | Err _ => None
  end.

Fixpoint trigger_signature_loop (a : DepositAddressTriggerAttestation) (allowed : gset jsstring)
    (sigs : list DepositAddressTriggerSignature) (verified : gset jsstring) : result (gset jsstring) :=
  match sigs with
  | [] => Ok verified
  | sig :: rest =>
      oracle ← normalizeAddress (ds_oracleSigner sig);
      fail_if negb (bool_decide (oracle ∈ allowed)) with "attestation oracle is not allowlisted" ;;
      recovered ← require (recoverTriggerSigner a (ds_signature sig)) "attestation signature mismatch";
      normalized ← normalizeAddress recovered;
      fail_if negb (bool_decide (normalized = oracle)) with "attestation signature mismatch" ;;
      trigger_signature_loop a allowed rest ({[oracle]} ∪ verified)
  end.

Definition verifyDepositAddressTriggerAttestation (trigger : DepositAddressTrigger)
    (a : DepositAddressTriggerAttestation) : result unit :=
  expectedTriggerHash ← getDepositAddressTriggerHash trigger;
  fail_if negb (bool_decide (toLowerCase (ta_triggerHash a) = toLowerCase expectedTriggerHash))
    with "attestation triggerHash mismatch" ;;
  fail_if negb (ta_chainId a =? HUB_EVM_CHAIN_ID cfg) with "attestation chainId mismatch" ;;
  expectedManager ← normalizeAddress (DEPOSIT_ADDRESS_MANAGER_ADDRESS cfg);
  providedManager ← normalizeAddress (ta_depositAddressManager a);
  fail_if negb (bool_decide (expectedManager = providedManager))
    with "attestation depositAddressManager mismatch" ;;
  allowed ← mapM normalizeAddress (ALLOWED_ORACLES cfg);
  verified ← trigger_signature_loop a (list_to_set allowed) (ta_signatures a) ∅;
  fail_if Z.of_nat (size verified) <? ORACLE_SIGNATURE_THRESHOLD cfg
    with "attestation signature threshold not met" ;;
  Ok tt.

(** ** Orders *)

Definition checkRefund (trigger : DepositAddressTrigger) (orderRefund : InputRefund) : result unit :=
  fail_if negb (bool_decide (rf_chainId orderRefund = in_chainId (tr_input trigger)))
    with "order refund chainId mismatch" ;;
  fail_if negb (bool_decide (toLowerCase (rf_currency orderRefund) = toLowerCase (in_currency (tr_input trigger))))
    with "order refund currency mismatch" ;;
  fail_if negb (bool_decide (toLowerCase (rf_recipient orderRefund) =
                             toLowerCase (df_refundRecipient (tr_derivationFields trigger))))
    with "order refund recipient mismatch" ;;
  Ok tt.

Fixpoint refund_loop (trigger : DepositAddressTrigger) (refunds : list InputRefund) : result unit :=
  match refunds with
  | [] => Ok tt
  | orderRefund :: rest => _ ← checkRefund trigger orderRefund; refund_loop trigger rest
  end.

(** [findPrice]: the price at the index of the first matching currency. *)
Fixpoint findPrice_loop (currencies : list DepositAddressTriggerCurrency) (prices : list DepositAddressTriggerPrice)
    (i : nat) (chainId currency : jsstring) : option DepositAddressTriggerPrice :=
  match currencies with
  | [] => None
  | entry :: rest =>
      if bool_decide (cu_chainId entry = chainId) &&
         bool_decide (toLowerCase (cu_currency entry) = toLowerCase currency)
      then prices !! i
      else findPrice_loop rest prices (S i) chainId currency
  end.
Definition findPrice (trigger : DepositAddressTrigger) (chainId currency : jsstring) :=
  findPrice_loop (tr_currencies trigger) (tr_prices trigger) 0 chainId currency.

(** [10n ** BigInt(n)]. *)
Definition pow10 (n : Z) : result Z :=
  fail_if n <? 0 with "Exponent must be non-negative" ;; Ok (10 ^ n).

Definition checkPriceImpact (trigger : DepositAddressTrigger) (orderOutput : OutputPayment) (now_ms : Z)
  : result unit :=
  inputPrice ← require (findPrice trigger (in_chainId (tr_input trigger)) (in_currency (tr_input trigger)))
                 "no price found for input currency";
  outputPrice ← require (findPrice trigger (df_outputChainId (tr_derivationFields trigger))
                           (df_outputCurrency (tr_derivationFields trigger)))
                  "no price found for output currency";
  let nowSeconds := now_ms / 1000 in
  inputExpiration ← BigInt (pr_expiration inputPrice);
  fail_if inputExpiration <=? nowSeconds with "input price expired" ;;
  outputExpiration ← BigInt (pr_expiration outputPrice);
  fail_if outputExpiration <=? nowSeconds with "output price expired" ;;
  inputAmount ← BigInt (in_amount (tr_input trigger));
  inputUsd ← BigInt (pr_usdPrice inputPrice);
  outputScale ← pow10 (pr_usdPriceDecimals outputPrice + pr_currencyDecimals outputPrice);
  outputAmount ← BigInt (op_minimumAmount orderOutput);
  outputUsd ← BigInt (pr_usdPrice outputPrice);
  inputScale ← pow10 (pr_usdPriceDecimals inputPrice + pr_currencyDecimals inputPrice);
  let inputUsdScaled := inputAmount * inputUsd * outputScale in
  let outputUsdScaled := outputAmount * outputUsd * inputScale in
  priceImpactBps ← BigInt (df_priceImpactBps (tr_derivationFields trigger));
  fail_if 10000 <? priceImpactBps with "priceImpactBps must be <= 10000" ;;
  fail_if outputUsdScaled * 10000 <? inputUsdScaled * (10000 - priceImpactBps) with "price impact exceeded" ;;
  Ok tt.

Definition verifyOrderData (trigger : DepositAddressTrigger) (order : Order) (orderSignature : jsstring)
    (now_ms : Z) : result unit :=
  match or_inputs order with
  | [input] =>
      let orderInput := oi_payment input in
      fail_if negb (bool_decide (ip_weight orderInput = js "1")) with "order input weight must be 1" ;;
      fail_if negb (bool_decide (ip_chainId orderInput = in_chainId (tr_input trigger)))
        with "order input chainId mismatch" ;;
      fail_if negb (bool_decide (toLowerCase (ip_currency orderInput) = toLowerCase (in_currency (tr_input trigger))))
        with "order input currency mismatch" ;;
      fail_if negb (bool_decide (ip_amount orderInput = in_amount (tr_input trigger)))
        with "order input amount mismatch" ;;
      fail_if Nat.ltb (length (oi_refunds input)) 1 with "expected order input to have at least one refund" ;;
      _ ← refund_loop trigger (oi_refunds input);
      match oo_payments (or_output order) with
      | [orderOutput] =>
          fail_if negb (Nat.eqb (length (oo_calls (or_output order))) 0)
            with "expected order output to have no calls" ;;
          fail_if negb (bool_decide (oo_chainId (or_output order) = df_outputChainId (tr_derivationFields trigger)))
            with "order output chainId mismatch" ;;
          fail_if negb (bool_decide (toLowerCase (op_currency orderOutput) =
                                     toLowerCase (df_outputCurrency (tr_derivationFields trigger))))
            with "order output currency mismatch" ;;
          fail_if negb (bool_decide (toLowerCase (op_recipient orderOutput) =
                                     toLowerCase (df_outputRecipient (tr_derivationFields trigger))))
            with "order output recipient mismatch" ;;
          _ ← checkPriceImpact trigger orderOutput now_ms;
          recomputedOrderId ← getOrderId order;
          fail_if negb (bool_decide (toLowerCase recomputedOrderId = toLowerCase (tr_orderId trigger)))
            with "order id mismatch" ;;
          recovered ← recoverPersonalSignAddress (tr_orderId trigger) orderSignature;
          fail_if negb (bool_decide (toLowerCase recovered = toLowerCase (or_solver order)))
            with "order signature mismatch" ;;
          expectedVirtual ← generateAddress (or_solverChainId order) (or_solver order);
          fail_if negb (bool_decide (toLowerCase expectedVirtual =
                                     toLowerCase (df_solver (tr_derivationFields trigger))))
            with "derivation fields solver mismatch" ;;
          Ok tt
      | _ => throw "expected order output to have exactly one payment"
      end
  | _ => throw "expected order to have exactly one input"
  end.
End Attestation.

(** ** What acceptance means *)

Section Theorems.
Context `{N : Noble, V : Viem} (cfg : BundleConfig).

(** One signature: the claimed signer is [oracle] and the signature over the
    typed data recovers to it. *)
Definition signed_by (a : DepositAddressTriggerAttestation) (sig : DepositAddressTriggerSignature)
    (oracle : jsstring) : Prop :=
  normalizeAddress (ds_oracleSigner sig) = Ok oracle /\
  exists manager recovered, normalizeAddress (ta_depositAddressManager a) = Ok manager /\
    recoverEip712Address (triggerTypedData a manager) (ds_signature sig) = Ok recovered /\
    normalizeAddress recovered = Ok oracle.

Record trigger_attested (trigger : DepositAddressTrigger) (a : DepositAddressTriggerAttestation) : Prop := {
  at_hash : exists h, getDepositAddressTriggerHash trigger = Ok h /\ toLowerCase (ta_triggerHash a) = toLowerCase h;
  at_chain : ta_chainId a = HUB_EVM_CHAIN_ID cfg;
  at_manager : exists m, normalizeAddress (DEPOSIT_ADDRESS_MANAGER_ADDRESS cfg) = Ok m /\
                         normalizeAddress (ta_depositAddressManager a) = Ok m;
  at_oracles : exists allowed oracles, mapM normalizeAddress (ALLOWED_ORACLES cfg) = Ok allowed /\
    Forall2 (signed_by a) (ta_signatures a) oracles /\ (forall o, o ∈ oracles -> o ∈ allowed) /\
    ORACLE_SIGNATURE_THRESHOLD cfg <= Z.of_nat (size (list_to_set oracles : gset jsstring)) }.

Lemma signed_by_iff a sig o :
  signed_by a sig o <-> normalizeAddress (ds_oracleSigner sig) = Ok o /\
    exists r, recoverTriggerSigner a (ds_signature sig) = Some r /\ normalizeAddress r = Ok o.
Proof using.
  unfold signed_by, recoverTriggerSigner. apply and_iff_compat_l. split.
  - intros (m & r & -> & Hr & Ho). exists r. cbn [mbind result_bind]. by rewrite Hr.
  - intros (r & Hr & Ho). destruct (normalizeAddress (ta_depositAddressManager a)) as [m|]; [|done].
    cbn [mbind result_bind] in Hr. destruct (recoverEip712Address _ _) eqn:Ee; [|done]. injection Hr as ->. eauto.
Qed.

Lemma signature_loop_iff a allowed sigs v v' :
  trigger_signature_loop a allowed sigs v = Ok v' <->
  exists oracles, Forall2 (signed_by a) sigs oracles /\ (forall o, o ∈ oracles -> o ∈ allowed) /\
    v' = list_to_set oracles ∪ v.
Proof using.
  revert v; induction sigs as [|sig sigs IH]; intros v; cbn [trigger_signature_loop].
  - split.
    + intros [= <-]. exists []. split; [constructor|]. split; [set_solver|]. set_solver.
    + intros (os & HF & _ & ->). apply Forall2_nil_inv_l in HF as ->. f_equal. set_solver.
  - split.
    + intros Hv. res_inv Hv. bool_prop. subst. apply IH in Hv as (os & HF & Ha & ->).
      exists (r :: os). split; [constructor; [|done]; apply signed_by_iff; eauto|]. split; [set_solver|]. set_solver.
    + intros (os & HF & Ha & ->). destruct os as [|o os]; [by apply Forall2_cons_nil_inv in HF|].
      apply Forall2_cons in HF as [Ho HF]. apply signed_by_iff in Ho as (Ho & r & Hr & Hn).
      rewrite Ho. cbn [mbind result_bind]. rewrite bool_decide_true by (apply Ha; left). cbn [negb check mbind result_bind].
      rewrite Hr. cbn [require mbind result_bind]. rewrite Hn. cbn [mbind result_bind].
      rewrite bool_decide_true by done. cbn [negb check mbind result_bind]. apply IH.
      exists os. split; [done|]. split; [set_solver|]. set_solver.
Qed.

Lemma attestation_iff trigger a :
  verifyDepositAddressTriggerAttestation cfg trigger a = Ok tt <-> trigger_attested trigger a.
Proof using.
  unfold verifyDepositAddressTriggerAttestation. split.
  - intros Hv. res_inv Hv. bool_prop.
    match goal with Hl : trigger_signature_loop _ _ _ _ = Ok _ |- _ => apply signature_loop_iff in Hl as (os & HF & Ha & ->) end.
    subst. split; [eauto|done|eauto|]. exists r5, os. split_and!; [done|done| |].
    + intros o Ho. specialize (Ha o Ho). by apply elem_of_list_to_set in Ha.
    + rewrite union_empty_r_L in *. lia.
  - intros [(h & Hh & El) Hc (m & Hm1 & Hm2) (al & os & Hal & HF & Ha & Ht)].
    rewrite Hh. cbn [mbind result_bind]. rewrite bool_decide_true by done. cbn [negb check mbind result_bind].
    rewrite Hc, Z.eqb_refl. cbn [negb check mbind result_bind]. rewrite Hm1, Hm2. cbn [mbind result_bind].
    rewrite bool_decide_true by done. cbn [negb check mbind result_bind]. rewrite Hal. cbn [mbind result_bind].
    rewrite (proj2 (signature_loop_iff a (list_to_set al) (ta_signatures a) ∅ (list_to_set os))).
    + cbn [mbind result_bind]. zcmp. done.
    + exists os. split; [done|]. split; [|by rewrite union_empty_r_L].
      intros o Ho. apply elem_of_list_to_set. auto.
Qed.

(** C4: a trigger attestation is accepted exactly when its hash is the hash
    of the trigger, it is for the bundled hub chain and manager, every
    signature on it is by an allowlisted oracle and recovers to that oracle
    over the typed data of this attestation, and the distinct oracles that
    signed reach the threshold. *)
Theorem trigger_accepted_iff_attested trigger a :
  verifyDepositAddressTriggerAttestation cfg trigger a = Ok tt <-> trigger_attested trigger a.
Proof using. apply attestation_iff. Qed.

(** ** Orders *)

(** The USD value of a raw amount under a price. *)
Definition usd_value (amount usdPrice usdPriceDecimals currencyDecimals : Z) : Q :=
  inject_Z (amount * usdPrice) / inject_Z (10 ^ (usdPriceDecimals + currencyDecimals)).

(** A price that is in the trigger and not expired. *)
Record live_price (trigger : DepositAddressTrigger) (chainId currency : jsstring) (now_ms usd dec cur : Z) : Prop := {
  lp_entry : exists i c p, tr_currencies trigger !! i = Some c /\ tr_prices trigger !! i = Some p /\
    cu_chainId c = chainId /\ toLowerCase (cu_currency c) = toLowerCase currency /\
    BigInt (pr_usdPrice p) = Ok usd /\ pr_usdPriceDecimals p = dec /\ pr_currencyDecimals p = cur /\
    exists e, BigInt (pr_expiration p) = Ok e /\ now_ms / 1000 < e;
  lp_scale : 0 <= dec + cur }.

Lemma findPrice_loop_sound currencies prices i chainId currency p :
  findPrice_loop currencies prices i chainId currency = Some p ->
  exists j c, currencies !! j = Some c /\ prices !! (i + j)%nat = Some p /\ cu_chainId c = chainId /\
    toLowerCase (cu_currency c) = toLowerCase currency.
Proof using.
  revert i; induction currencies as [|c cs IH]; intros i; cbn [findPrice_loop]; [done|].
  destruct (bool_decide (cu_chainId c = chainId) && _) eqn:Ec.
  - intros Hp. bool_prop. exists 0%nat, c. rewrite Nat.add_0_r. done.
  - intros Hp. destruct (IH _ Hp) as (j & c' & H1 & H2 & H3). exists (S j), c'.
    rewrite Nat.add_succ_r. done.
Qed.

Lemma refund_loop_iff trigger refunds :
  refund_loop trigger refunds = Ok tt <->
  Forall (fun r => rf_chainId r = in_chainId (tr_input trigger) /\
                   toLowerCase (rf_currency r) = toLowerCase (in_currency (tr_input trigger)) /\
                   toLowerCase (rf_recipient r) = toLowerCase (df_refundRecipient (tr_derivationFields trigger))) refunds.
Proof using.
  induction refunds as [|r rs IH]; cbn [refund_loop]; [split; [constructor|done]|].
  rewrite Forall_cons, <- IH. unfold checkRefund. split.
  - intros Hv. res_inv Hv. bool_prop. destruct (refund_loop trigger rs) as [[]|]; done.
  - intros [(-> & -> & ->) E]. rewrite !bool_decide_true by done. cbn. exact E.
Qed.

Lemma pow10_ok n v : pow10 n = Ok v <-> 0 <= n /\ v = 10 ^ n.
Proof using.
  unfold pow10. split.
  - intros Hp. res_inv Hp. bool_prop. done.
  - intros [Hn ->]. by zcmp.
Qed.

Lemma usd_bound a p d b q e bps : 0 <= d -> 0 <= e ->
  a * p * 10 ^ e * (10000 - bps) <= b * q * 10 ^ d * 10000 ->
  (inject_Z (a * p) / inject_Z (10 ^ d) * (inject_Z (10000 - bps) / 10000) <=
   inject_Z (b * q) / inject_Z (10 ^ e))%Q.
Proof using.
  intros Hd He Hle.
  assert (0 < 10 ^ d) as Pd by (apply Z.pow_pos_nonneg; lia). assert (0 < 10 ^ e) as Pe by (apply Z.pow_pos_nonneg; lia).
  assert (0 < inject_Z (10 ^ d))%Q as Qd by (by rewrite <- (Zlt_Qlt 0)).
  assert (0 < inject_Z (10 ^ e))%Q as Qe by (by rewrite <- (Zlt_Qlt 0)).
  assert (inject_Z (a * p) / inject_Z (10 ^ d) * (inject_Z (10000 - bps) / 10000) ==
    inject_Z (a * p) * inject_Z (10000 - bps) / (inject_Z (10 ^ d) * 10000))%Q as ->.
  { field. intros Hz. rewrite Hz in Qd. by apply Qlt_irrefl in Qd. }
  apply Qle_shift_div_r; [lra|].
  assert (inject_Z (b * q) / inject_Z (10 ^ e) * (inject_Z (10 ^ d) * 10000) ==
    inject_Z (b * q) * (inject_Z (10 ^ d) * 10000) / inject_Z (10 ^ e))%Q as ->.
  { field. intros Hz. rewrite Hz in Qe. by apply Qlt_irrefl in Qe. }
  apply Qle_shift_div_l; [done|]. change 10000%Q with (inject_Z 10000).
  rewrite <- !inject_Z_mult. rewrite <- Zle_Qle. lia.
Qed.

(** The price bound of an order: the minimum output is worth at least the
    input less the price impact, at unexpired prices of the trigger. *)
Definition fairly_priced (trigger : DepositAddressTrigger) (minimumAmount : jsstring) (now_ms : Z) : Prop :=
  exists amount min bps usd1 dec1 cur1 usd2 dec2 cur2,
    BigInt (in_amount (tr_input trigger)) = Ok amount /\ BigInt minimumAmount = Ok min /\
    BigInt (df_priceImpactBps (tr_derivationFields trigger)) = Ok bps /\ bps <= 10000 /\
    live_price trigger (in_chainId (tr_input trigger)) (in_currency (tr_input trigger)) now_ms usd1 dec1 cur1 /\
    live_price trigger (df_outputChainId (tr_derivationFields trigger))
      (df_outputCurrency (tr_derivationFields trigger)) now_ms usd2 dec2 cur2 /\
    (usd_value amount usd1 dec1 cur1 * (inject_Z (10000 - bps) / 10000) <= usd_value min usd2 dec2 cur2)%Q.

Lemma price_impact_sound trigger out now_ms : checkPriceImpact trigger out now_ms = Ok tt ->
  fairly_priced trigger (op_minimumAmount out) now_ms.
Proof using.
  unfold checkPriceImpact. intros Hv. res_inv Hv. bool_prop.
  unfold findPrice in Hs, Hs0. apply findPrice_loop_sound in Hs as (i1 & c1 & A1 & B1 & C1 & D1).
  apply findPrice_loop_sound in Hs0 as (i2 & c2 & A2 & B2 & C2 & D2). cbn [Nat.add] in B1, B2.
  repeat match goal with Hp : pow10 _ = Ok _ |- _ => apply pow10_ok in Hp as [? ->] end.
  match goal with
  | Ha : BigInt (in_amount _) = Ok ?a, Hm : BigInt (op_minimumAmount out) = Ok ?m,
    Hb : BigInt (df_priceImpactBps _) = Ok ?b, H1 : BigInt (pr_usdPrice r) = Ok ?u1,
    H2 : BigInt (pr_usdPrice r0) = Ok ?u2 |- _ =>
      exists a, m, b, u1, (pr_usdPriceDecimals r), (pr_currencyDecimals r), u2, (pr_usdPriceDecimals r0),
        (pr_currencyDecimals r0)
  end.
  split_and!; [done|done|done|lia| | |].
  - split; [|lia]. exists i1, c1, r. split_and!; try done. eexists. split; [eassumption|lia].
  - split; [|lia]. exists i2, c2, r0. split_and!; try done. eexists. split; [eassumption|lia].
  - unfold usd_value. apply usd_bound; [done|done|]. lia.
Qed.

(** What the signer knows about an accepted order. *)
Record order_authorised (trigger : DepositAddressTrigger) (order : Order) (orderSignature : jsstring)
    (now_ms : Z) (input : OrderInput) (out : OutputPayment) : Prop := {
  oa_input : or_inputs order = [input] /\ ip_weight (oi_payment input) = js "1" /\
    ip_chainId (oi_payment input) = in_chainId (tr_input trigger) /\
    toLowerCase (ip_currency (oi_payment input)) = toLowerCase (in_currency (tr_input trigger)) /\
    ip_amount (oi_payment input) = in_amount (tr_input trigger);
  oa_refunds : oi_refunds input <> [] /\
    Forall (fun r => rf_chainId r = in_chainId (tr_input trigger) /\
      toLowerCase (rf_currency r) = toLowerCase (in_currency (tr_input trigger)) /\
      toLowerCase (rf_recipient r) = toLowerCase (df_refundRecipient (tr_derivationFields trigger))) (oi_refunds input);
  oa_output : oo_payments (or_output order) = [out] /\ oo_calls (or_output order) = [] /\
    oo_chainId (or_output order) = df_outputChainId (tr_derivationFields trigger) /\
    toLowerCase (op_currency out) = toLowerCase (df_outputCurrency (tr_derivationFields trigger)) /\
    toLowerCase (op_recipient out) = toLowerCase (df_outputRecipient (tr_derivationFields trigger));
  oa_price : fairly_priced trigger (op_minimumAmount out) now_ms;
  oa_id : exists id, getOrderId order = Ok id /\ toLowerCase id = toLowerCase (tr_orderId trigger);
  oa_solver : exists s, recoverPersonalSignAddress (tr_orderId trigger) orderSignature = Ok s /\
    toLowerCase s = toLowerCase (or_solver order);
  oa_virtual : exists v, generateAddress (or_solverChainId order) (or_solver order) = Ok v /\
    toLowerCase v = toLowerCase (df_solver (tr_derivationFields trigger)) }.

Lemma order_data_sound trigger order orderSignature now_ms :
  verifyOrderData trigger order orderSignature now_ms = Ok tt ->
  exists input out, order_authorised trigger order orderSignature now_ms input out.
Proof using.
  unfold verifyOrderData. intros Hv. destruct (or_inputs order) as [|input [|]] eqn:Ei; [done| |done].
  res_inv Hv. destruct (oo_payments (or_output order)) as [|out [|]] eqn:Eo; [done| |done].
  res_inv Hv. bool_prop. exists input, out.
  repeat match goal with u : unit |- _ => destruct u end.
  match goal with Hr : refund_loop _ _ = Ok _ |- _ => apply refund_loop_iff in Hr end.
  match goal with Hp : checkPriceImpact _ _ _ = Ok _ |- _ => apply price_impact_sound in Hp end.
  match goal with Hc : length (oo_calls _) = 0%nat |- _ => apply nil_length_inv in Hc end.
  match goal with Hl : Nat.ltb (length (oi_refunds _)) 1 = false |- _ => apply Nat.ltb_ge in Hl end.
  assert (oi_refunds input <> []) by (intros Hz; rewrite Hz in *; cbn in *; lia).
  split; eauto 10.
Qed.

(** C5: an order passes only if it is the solver's own order for this
    deposit.  Acceptance means: one input, of weight 1, that matches the
    attested deposit; at least one refund, and every refund listed goes to the
    trigger's refund recipient in the input's chain and currency; one output
    payment and no calls, to the trigger's recipient; the minimum output is
    worth at least the input less [priceImpactBps], in USD at unexpired prices
    of the trigger; the order hashes to the trigger's order id, which the
    order's solver signed; and that solver is the one in the wallet's
    derivation fields. *)
Theorem order_is_authorised trigger order orderSignature now_ms :
  verifyOrderData trigger order orderSignature now_ms = Ok tt ->
  exists input out, order_authorised trigger order orderSignature now_ms input out.
Proof using. apply order_data_sound. Qed.
End Theorems.
