(* ===== verification/DepositAction.v ===== *)
(** * The per-VM signing action

    packages/lit-deposit-address/src/vm/action.ts and the base class of
    derivation/vm/base/VmWalletDeriver.ts.  A deriver is the record of its
    abstract members.  Requests are JSON trees (JsJson.v). *)

From Stdlib Require Import Strings.Byte Sorting.Sorted.
From S2P Require Import Prelude JsNum JsString JsJson HexBytes ToyRuntime DepositBytes DepositTypes DepositAttestation.
Local Open Scope Z_scope.
Local Open Scope js_scope.

(** ** Wallet derivation *)

Record VmWalletDeriver (Tx SignedTx : Type) := {
  vmType : jsstring;
  accountPath : jsstring;
  Node : Type;
  deriveAccountNode : jsstring -> result Node;
  deserializeAccountNode : jsstring -> result Node;
  deriveChildNode : Node -> Z -> result Node;
  privateKeyBytes : Node -> option bytes;
  accountFromNode : Node -> result AccountInfo;
  walletFromNode : list Z -> Node -> result WalletInfo;
  signTransactionWithKey : bytes -> Tx -> result SignedTx;
  verifyTransactions : DepositAddressTrigger -> DepositAddressTriggerAttestation -> list Tx -> result unit;
}.
Arguments vmType {_ _}. Arguments accountPath {_ _}. Arguments Node {_ _}. Arguments deriveAccountNode {_ _}.
Arguments deserializeAccountNode {_ _}. Arguments deriveChildNode {_ _}. Arguments privateKeyBytes {_ _}.
Arguments accountFromNode {_ _}. Arguments walletFromNode {_ _}. Arguments signTransactionWithKey {_ _}.
Arguments verifyTransactions {_ _}.

Definition MAX_UNHARDENED_INDEX : Z := 0x7fffffff.

Definition assertIndexes (indexes : list Z) : result unit :=
  fail_if Nat.eqb (length indexes) 0 with "at least one index is required" ;;
  fail_if negb (forallb (fun index => negb ((index <? 0) || (MAX_UNHARDENED_INDEX <? index))) indexes)
    with "index must be an unhardened uint31" ;;
  Ok tt.

Section Deriver.
Context {Tx SignedTx : Type} (this : VmWalletDeriver Tx SignedTx).

Definition deriveAccount (rootKeyHex : jsstring) : result AccountInfo :=
  node ← deriveAccountNode this rootKeyHex; accountFromNode this node.

Fixpoint deriveChildAtPath (node : Node this) (indexes : list Z) : result (Node this) :=
  match indexes with
  | [] => Ok node
  | index :: rest => node ← deriveChildNode this node index; deriveChildAtPath node rest
  end.

Definition deriveWallet (rootKeyHex : jsstring) (indexes : list Z) : result WalletInfo :=
  _ ← assertIndexes indexes;
  accountNode ← deriveAccountNode this rootKeyHex;
  childNode ← deriveChildAtPath accountNode indexes;
  walletFromNode this indexes childNode.

Definition deriveWalletFromExtendedPublicKey (extendedPublicKey : jsstring) (indexes : list Z) : result WalletInfo :=
  _ ← assertIndexes indexes;
  accountNode ← deserializeAccountNode this extendedPublicKey;
  childNode ← deriveChildAtPath accountNode indexes;
  walletFromNode this indexes childNode.

Definition deriveChildKey (rootKeyHex : jsstring) (indexes : list Z) : result (WalletInfo * bytes) :=
  _ ← assertIndexes indexes;
  accountNode ← deriveAccountNode this rootKeyHex;
  childNode ← deriveChildAtPath accountNode indexes;
  privateKey ← require (privateKeyBytes this childNode) "failed to derive child private key";
  wallet ← walletFromNode this indexes childNode;
  Ok (wallet, privateKey).

Definition signTransactions (rootKeyHex : jsstring) (indexes : list Z) (transactions : list Tx)
  : result (WalletInfo * list SignedTx) :=
  fail_if Nat.eqb (length transactions) 0 with "at least one transaction is required" ;;
  '(wallet, privateKey) ← deriveChildKey rootKeyHex indexes;
  signedTransactions ← mapM (signTransactionWithKey this privateKey) transactions;
  Ok (wallet, signedTransactions).
End Deriver.

(** [`${accountPath}/${indexes.join("/")}`]. *)
Definition path (accountPath_ : jsstring) (indexes : list Z) : jsstring :=
  accountPath_ ++ js "/" ++ join_with (js "/") (toString10 <$> indexes).

(** ** Canonical JSON *)

(** The order of [Array.prototype.sort] on strings: by code units. *)
Fixpoint key_leb (a b : jsstring) : bool :=
  match a, b with
  | [], _ => true
  | _ :: _, [] => false
  | x :: a', y :: b' => if x <? y then true else if y <? x then false else key_leb a' b'
  end.
Fixpoint insert_key {A} (e : jsstring * A) (l : list (jsstring * A)) : list (jsstring * A) :=
  match l with
  | [] => [e]
  | f :: l' => if key_leb e.1 f.1 then e :: l else f :: insert_key e l'
  end.
Definition sort_keys {A} (l : list (jsstring * A)) : list (jsstring * A) := foldr insert_key [] l.

(** An assignment to [__proto__] does not make an own key of [out]. *)
Definition keep_key (key : jsstring) : bool :=
  negb (bool_decide (key = js "requestSignature")) && negb (bool_decide (key = js "__proto__")).

Fixpoint stripSolverRequestSignature (value : Json) : Json :=
  match value with
  | JArr items => JArr (stripSolverRequestSignature <$> items)
  | JObj fields =>
      JObj (filter (fun e => keep_key e.1 = true) ((fun '(k, v) => (k, stripSolverRequestSignature v)) <$> fields))
  | _ => value
  end.

(** The text of an object: the fields are printed, then ordered by key; those
    that hold [undefined] are dropped. *)
Fixpoint canonicalJson (value : Json) : jsstring :=
  match value with
  | JUndefined | JNull => js "null"
  | JBool b => if b then js "true" else js "false"
  | JNum n => toString10 n
  | JStr s => quote s
  | JArr items => js "[" ++ join_with (js ",") (canonicalJson <$> items) ++ js "]"
  | JObj fields =>
      let printed := (fun '(k, v) => (k, (is_undefined v, canonicalJson v))) <$> fields in
      js "{" ++
      join_with (js ",") ((fun e => quote e.1 ++ js ":" ++ e.2.2) <$>
                          filter (fun e => e.2.1 = false) (sort_keys printed)) ++
      js "}"
  end.

(** ** The action *)

Record ActionParams (Tx : Type) := {
  pkpId : jsstring;
  action : jsstring;
  pa_vmType : option jsstring;
  pa_derivationFields : option DepositAddressTriggerDerivationFields;
  pa_trigger : option DepositAddressTrigger;
  pa_attestation : option DepositAddressTriggerAttestation;
  pa_order : option Order;
  pa_orderSignature : option jsstring;
  pa_requestSignature : option jsstring;
  pa_transactions : option (list Tx);
  pa_json : Json;
}.
Arguments pkpId {_}. Arguments action {_}. Arguments pa_vmType {_}. Arguments pa_derivationFields {_}.
Arguments pa_trigger {_}. Arguments pa_attestation {_}. Arguments pa_order {_}. Arguments pa_orderSignature {_}.
Arguments pa_requestSignature {_}. Arguments pa_transactions {_}. Arguments pa_json {_}.

Inductive DepositResult (SignedTx : Type) :=
  | AccountResult (a : AccountInfo)
  | WalletResult (w : WalletInfo)
  | SignResult (wallet : WalletInfo) (triggerHash : jsstring) (signedTransactions : list SignedTx).
Arguments AccountResult {_}. Arguments WalletResult {_}. Arguments SignResult {_}.

Section Action.
Context `{N : Noble, V : Viem} (cfg : BundleConfig).
(** [Lit.Actions.getPrivateKey] and [Date.now()]. *)
Context (getPrivateKey : jsstring -> result jsstring) (now_ms : Z).

Definition solverSignRequestHash (params : Json) : jsstring :=
  let unsigned := stripSolverRequestSignature params in
  let l := TextEncoder_encode (canonicalJson unsigned) in
  js "0x" ++ bytesToHex (noble_keccak_256 l).

Definition verifySolverRequestSignature (params : Json) (order : Order) (signature : jsstring) : result unit :=
  let requestHash := solverSignRequestHash params in
  recovered ← recoverPersonalSignAddress requestHash signature;
  fail_if negb (bool_decide (toLowerCase recovered = toLowerCase (or_solver order)))
    with "requestSignature mismatch" ;;
  Ok tt.

Definition assertVm (actual : option jsstring) (expected : jsstring) : result unit :=
  fail_if negb (bool_decide (actual = Some expected)) with "vmType mismatch for this action bundle" ;; Ok tt.

(** A required string parameter: [undefined] and the empty string are refused. *)
Definition nonempty (s : option jsstring) : option jsstring :=
  match s with Some [] => None | _ => s end.

Definition runVmAction {Tx SignedTx} (vm : jsstring) (deriver : VmWalletDeriver Tx SignedTx)
    (params : ActionParams Tx) : result (DepositResult SignedTx) :=
  rootKeyHex ← getPrivateKey (pkpId params);
  if bool_decide (action params = js "account") then
    _ ← assertVm (pa_vmType params) vm;
    AccountResult <$> deriveAccount deriver rootKeyHex
  else if bool_decide (action params = js "wallet") then
    derivationFields ← require (pa_derivationFields params) "derivationFields is required for action=wallet";
    _ ← assertVm (Some (df_inputVmType derivationFields)) vm;
    indexes ← derivationFieldsToIndexes derivationFields;
    WalletResult <$> deriveWallet deriver rootKeyHex indexes
  else if bool_decide (action params = js "sign") then
    trigger ← require (pa_trigger params) "trigger is required for action=sign";
    attestation ← require (pa_attestation params) "attestation is required for action=sign";
    order ← require (pa_order params) "order is required for action=sign";
    orderSignature ← require (nonempty (pa_orderSignature params)) "orderSignature is required for action=sign";
    requestSignature ← require (nonempty (pa_requestSignature params)) "requestSignature is required for action=sign";
    transactions ← require (pa_transactions params) "at least one transaction is required for action=sign";
    fail_if Nat.eqb (length transactions) 0 with "at least one transaction is required for action=sign" ;;
    _ ← assertVm (Some (in_vmType (tr_input trigger))) vm;
    _ ← assertVm (Some (df_inputVmType (tr_derivationFields trigger))) vm;
    _ ← verifySolverRequestSignature (pa_json params) order requestSignature;
    _ ← verifyDepositAddressTriggerAttestation cfg trigger attestation;
    _ ← verifyOrderData trigger order orderSignature now_ms;
    _ ← verifyTransactions deriver trigger attestation transactions;
    indexes ← derivationFieldsToIndexes (tr_derivationFields trigger);
    '(wallet, signedTransactions) ← signTransactions deriver rootKeyHex indexes transactions;
    Ok (SignResult wallet (ta_triggerHash attestation) signedTransactions)
  else throw "unknown action".
End Action.

(** ** The key order *)

Lemma key_leb_total a b : key_leb a b = true \/ key_leb b a = true.
Proof.
  revert b; induction a as [|x a IH]; intros [|y b]; cbn [key_leb]; auto.
  destruct (Z.ltb_spec x y), (Z.ltb_spec y x); auto.
Qed.

Lemma key_leb_antisym a b : key_leb a b = true -> key_leb b a = true -> a = b.
Proof.
  revert b; induction a as [|x a IH]; intros [|y b]; cbn [key_leb]; try done.
  destruct (Z.ltb_spec x y), (Z.ltb_spec y x); try done; try lia.
  intros H1 H2. f_equal; [lia|auto].
Qed.

Lemma key_leb_trans a b c : key_leb a b = true -> key_leb b c = true -> key_leb a c = true.
Proof.
  revert b c; induction a as [|x a IH]; intros [|y b] [|z c]; cbn [key_leb]; try done.
  destruct (Z.ltb_spec x y), (Z.ltb_spec y x), (Z.ltb_spec y z), (Z.ltb_spec z y), (Z.ltb_spec x z), (Z.ltb_spec z x);
    try done; try lia. apply IH.
Qed.

Section Sorting.
Context {A : Type}.
Implicit Types l : list (jsstring * A).
Definition key_le (e f : jsstring * A) : Prop := key_leb e.1 f.1 = true.

Lemma insert_key_sorted e l : StronglySorted key_le l -> StronglySorted key_le (insert_key e l).
Proof.
  induction 1 as [|f l Hl IH HF]; cbn [insert_key]; [by repeat constructor|].
  destruct (key_leb e.1 f.1) eqn:Ef.
  - constructor; [by constructor|]. constructor; [done|]. eapply Forall_impl; [exact HF|].
    intros g Hg. by eapply key_leb_trans.
  - constructor; [done|]. assert (key_le f e) as Hfe.
    { destruct (key_leb_total f.1 e.1) as [|Hc]; [done|]. by rewrite Ef in Hc. }
    clear -HF Hfe. induction l as [|g l IH]; cbn [insert_key]; [by repeat constructor|].
    apply Forall_cons_1 in HF as [Hg HF]. destruct (key_leb e.1 g.1); repeat constructor; auto.
Qed.

Lemma sort_keys_sorted l : StronglySorted key_le (sort_keys l).
Proof. induction l as [|e l IH]; cbn; [constructor|]. by apply insert_key_sorted. Qed.

Lemma filter_insert_key (P : jsstring * A -> Prop) `{forall e, Decision (P e)} e l : StronglySorted key_le l ->
  filter P (insert_key e l) = if decide (P e) then insert_key e (filter P l) else filter P l.
Proof.
  induction 1 as [|f l Hl IH HF]; cbn [insert_key].
  - rewrite filter_cons, filter_nil. by destruct (decide (P e)).
  - destruct (key_leb e.1 f.1) eqn:Ef.
    + rewrite (filter_cons P e). destruct (decide (P e)); [|done].
      assert (Forall (key_le e) (filter P (f :: l))) as HG.
      { apply Forall_forall. intros g [_ Hg]%list_elem_of_filter.
        apply elem_of_cons in Hg as [->|Hg]; [done|]. rewrite Forall_forall in HF. by eapply key_leb_trans, HF. }
      destruct (filter P (f :: l)) as [|g k]; [done|]. apply Forall_cons_1 in HG as [Hg _].
      cbn [insert_key]. unfold key_le in Hg. by rewrite Hg.
    + rewrite !filter_cons, IH. destruct (decide (P f)), (decide (P e)); cbn [insert_key]; rewrite ?Ef; done.
Qed.

(** Sorting commutes with filtering. *)
Lemma filter_sort_keys (P : jsstring * A -> Prop) `{forall e, Decision (P e)} l :
  filter P (sort_keys l) = sort_keys (filter P l).
Proof.
  induction l as [|e l IH]; [done|]. cbn [sort_keys foldr]. fold (sort_keys l).
  rewrite filter_insert_key by apply sort_keys_sorted. rewrite filter_cons, IH.
  by destruct (decide (P e)).
Qed.

Lemma insert_key_comm e f l : e.1 <> f.1 -> insert_key e (insert_key f l) = insert_key f (insert_key e l).
Proof.
  intros Hne. assert (key_leb e.1 f.1 = true -> key_leb f.1 e.1 = true -> False) as Hanti.
  { intros H1 H2. by apply Hne, key_leb_antisym. }
  pose proof (key_leb_total e.1 f.1) as Htot.
  induction l as [|g l IH]; cbn [insert_key].
  - destruct (key_leb e.1 f.1) eqn:E1, (key_leb f.1 e.1) eqn:E2; naive_solver.
  - destruct (key_leb f.1 g.1) eqn:Ef, (key_leb e.1 g.1) eqn:Ee; cbn [insert_key]; rewrite ?Ef, ?Ee.
    + destruct (key_leb e.1 f.1) eqn:E1, (key_leb f.1 e.1) eqn:E2; naive_solver.
    + destruct (key_leb e.1 f.1) eqn:E1; [|done]. exfalso.
      assert (key_leb e.1 g.1 = true) by (by eapply key_leb_trans). congruence.
    + destruct (key_leb f.1 e.1) eqn:E1; [|done]. exfalso.
      assert (key_leb f.1 g.1 = true) by (by eapply key_leb_trans). congruence.
    + by rewrite IH.
Qed.

(** Objects with the same entries sort to the same list. *)
Lemma sort_keys_perm l k : NoDup l.*1 -> l ≡ₚ k -> sort_keys l = sort_keys k.
Proof.
  intros Hnd HP. unfold sort_keys. apply (foldr_permutation (=)); [apply _| |exact HP].
  intros j1 a1 j2 a2 b Hj H1 H2. apply insert_key_comm. intros Ek. apply Hj.
  apply (NoDup_lookup l.*1 j1 j2 a1.1); [done|..]; rewrite list_lookup_fmap.
  - by rewrite H1.
  - rewrite H2. cbn. by rewrite Ek.
Qed.
End Sorting.

(** ** Requests that must have the same hash *)

(** Equal up to: the order of the fields of an object, fields that hold
    [undefined], and [requestSignature] fields, at every level. *)
Inductive same_request : Json -> Json -> Prop :=
  | sr_refl v : same_request v v
  | sr_sym v w : same_request v w -> same_request w v
  | sr_trans u v w : same_request u v -> same_request v w -> same_request u w
  | sr_item pre v w post : same_request v w -> same_request (JArr (pre ++ v :: post)) (JArr (pre ++ w :: post))
  | sr_field pre k v w post : same_request v w ->
      same_request (JObj (pre ++ (k, v) :: post)) (JObj (pre ++ (k, w) :: post))
  | sr_order fields fields' : NoDup fields.*1 -> fields ≡ₚ fields' -> same_request (JObj fields) (JObj fields')
  | sr_undefined pre k post : same_request (JObj (pre ++ (k, JUndefined) :: post)) (JObj (pre ++ post))
  | sr_signature pre v post :
      same_request (JObj (pre ++ (js "requestSignature", v) :: post)) (JObj (pre ++ post)).

Definition request_text (v : Json) : jsstring := canonicalJson (stripSolverRequestSignature v).

Definition print_field (e : jsstring * Json) : jsstring * (bool * jsstring) :=
  (e.1, (is_undefined e.2, request_text e.2)).

(** The entries of an object that are printed. *)
Definition printed_fields (fields : list (jsstring * Json)) : list (jsstring * (bool * jsstring)) :=
  filter (fun e => keep_key e.1 = true /\ e.2.1 = false) (print_field <$> fields).

Lemma is_undefined_strip v : is_undefined (stripSolverRequestSignature v) = is_undefined v.
Proof. by destruct v. Qed.

Lemma filter_filter_and {B} (P Q : B -> Prop) `{!forall x, Decision (P x), !forall x, Decision (Q x)} (l : list B) :
  filter Q (filter P l) = filter (fun x => P x /\ Q x) l.
Proof.
  induction l as [|x l IH]; [done|]. rewrite (filter_cons P), (filter_cons (fun x => P x /\ Q x)).
  destruct (decide (P x)), (decide (P x /\ Q x)); rewrite ?filter_cons, ?IH; try tauto;
    destruct (decide (Q x)); tauto || done.
Qed.

Lemma request_text_obj fields :
  request_text (JObj fields) =
  js "{" ++ join_with (js ",") ((fun e => quote e.1 ++ js ":" ++ e.2.2) <$> sort_keys (printed_fields fields)) ++ js "}".
Proof.
  unfold request_text. cbn [stripSolverRequestSignature canonicalJson].
  rewrite filter_sort_keys. do 5 f_equal. unfold printed_fields. rewrite <- filter_filter_and. f_equal.
  induction fields as [|[k v] fields IH]; [done|]. cbn [fmap list_fmap]. rewrite !filter_cons. change (print_field (k, v)).1 with k. cbn [fst].
  destruct (decide (keep_key k = true)); cbn [fmap list_fmap]; [|exact IH]. f_equal; [|exact IH].
  unfold print_field, request_text. cbn. by rewrite is_undefined_strip.
Qed.

Lemma printed_app l k : printed_fields (l ++ k) = printed_fields l ++ printed_fields k.
Proof. unfold printed_fields. by rewrite fmap_app, filter_app. Qed.

Lemma printed_keys fields : NoDup fields.*1 -> NoDup (printed_fields fields).*1.
Proof.
  intros Hnd. eapply sublist_NoDup; [exact Hnd|].
  assert (fields.*1 = (print_field <$> fields).*1) as -> by (rewrite <- list_fmap_compose; done).
  apply fmap_sublist, sublist_filter.
Qed.

Lemma same_request_text v w : same_request v w ->
  request_text v = request_text w /\ is_undefined v = is_undefined w.
Proof.
  induction 1 as [v|v w _ [IH1 IH2]|u v w _ [IH1 IH2] _ [IH3 IH4]|pre v w post _ [IH1 IH2]|pre k v w post _ [IH1 IH2]
                 |fields fields' Hnd HP|pre k post|pre v post]; split; try done; try congruence.
  - unfold request_text in *. cbn [stripSolverRequestSignature canonicalJson].
    rewrite !fmap_app. cbn [fmap list_fmap]. by rewrite IH1.
  - rewrite !request_text_obj, !printed_app. do 5 f_equal. unfold printed_fields. cbn [fmap list_fmap].
    do 2 f_equal. unfold print_field at 1 3. cbn [fst snd]. by rewrite IH1, IH2.
  - rewrite !request_text_obj. do 4 f_equal. apply sort_keys_perm; [by apply printed_keys|].
    unfold printed_fields. by rewrite HP.
  - rewrite !request_text_obj, !printed_app. do 5 f_equal. unfold printed_fields. cbn [fmap list_fmap].
    rewrite filter_cons_False; [done|]. cbn. naive_solver.
  - rewrite !request_text_obj, !printed_app. by do 5 f_equal.
Qed.

Section ActionTheorems.
Context `{N : Noble, V : Viem} (cfg : BundleConfig) (getPrivateKey : jsstring -> result jsstring) (now_ms : Z).

(** the hash a solver signs does not depend on how the request object was
    built: the order in which fields were set, fields set to [undefined], and
    the signature field itself do not change it, at any nesting level. *)
Theorem request_hash_canonical v w : same_request v w ->
  solverSignRequestHash v = solverSignRequestHash w.
Proof using.
  intros Hs. unfold solverSignRequestHash. destruct (same_request_text v w Hs) as [E _].
  unfold request_text in E. by rewrite E.
Qed.

(** What a signature of the action attests to. *)
Record sign_authorised {Tx SignedTx} (vm : jsstring) (deriver : VmWalletDeriver Tx SignedTx)
    (params : ActionParams Tx) (wallet : WalletInfo) (signed : list SignedTx) : Prop := {
  sa_action : action params = js "sign";
  sa_checks : exists trigger attestation order orderSignature requestSignature txs root indexes key input out,
    pa_trigger params = Some trigger /\ pa_attestation params = Some attestation /\ pa_order params = Some order /\
    pa_orderSignature params = Some orderSignature /\ pa_requestSignature params = Some requestSignature /\
    pa_transactions params = Some txs /\ getPrivateKey (pkpId params) = Ok root /\
    in_vmType (tr_input trigger) = vm /\ df_inputVmType (tr_derivationFields trigger) = vm /\
    trigger_attested cfg trigger attestation /\
    order_authorised trigger order orderSignature now_ms input out /\
    (exists s, recoverPersonalSignAddress (solverSignRequestHash (pa_json params)) requestSignature = Ok s /\
       toLowerCase s = toLowerCase (or_solver order)) /\
    verifyTransactions deriver trigger attestation txs = Ok tt /\
    derivationFieldsToIndexes (tr_derivationFields trigger) = Ok indexes /\
    deriveChildKey deriver root indexes = Ok (wallet, key) /\
    deriveWallet deriver root indexes = Ok wallet /\
    Forall2 (fun tx s => signTransactionWithKey deriver key tx = Ok s) txs signed }.

Lemma nonempty_some s t : nonempty s = Some t -> s = Some t.
Proof using. destruct s as [[|]|]; done. Qed.

Lemma deriveChildKey_wallet {Tx SignedTx} (d : VmWalletDeriver Tx SignedTx) root indexes w k :
  deriveChildKey d root indexes = Ok (w, k) -> deriveWallet d root indexes = Ok w.
Proof using.
  unfold deriveChildKey, deriveWallet. intros Hk. res_inv Hk.
  match goal with E1 : assertIndexes _ = Ok _, E2 : deriveAccountNode _ _ = Ok _, E3 : deriveChildAtPath _ _ _ = Ok _ |- _ =>
    rewrite E1; cbn [mbind result_bind]; rewrite E2; cbn [mbind result_bind]; rewrite E3 end.
  cbn [mbind result_bind]. congruence.
Qed.

Lemma assertVm_ok a e : assertVm a e = Ok tt -> a = Some e.
Proof using. unfold assertVm. intros Hv. res_inv Hv. by bool_prop. Qed.

Lemma request_signature_sound json order sig : verifySolverRequestSignature json order sig = Ok tt ->
  exists s, recoverPersonalSignAddress (solverSignRequestHash json) sig = Ok s /\
    toLowerCase s = toLowerCase (or_solver order).
Proof using. unfold verifySolverRequestSignature. intros Hv. res_inv Hv. bool_prop. eauto. Qed.

Lemma signTransactions_ok {Tx SignedTx} (d : VmWalletDeriver Tx SignedTx) root indexes txs w signed :
  signTransactions d root indexes txs = Ok (w, signed) ->
  exists key, deriveChildKey d root indexes = Ok (w, key) /\
    Forall2 (fun tx s => signTransactionWithKey d key tx = Ok s) txs signed.
Proof using.
  unfold signTransactions. intros Hv. apply bind_ok in Hv as (u & _ & Hv).
  apply bind_ok in Hv as ([w' k] & Hk & Hv). res_inv Hv.
  match goal with Hm : mapM _ _ = Ok _ |- _ => apply mapM_ok in Hm end. simplify_eq. eauto.
Qed.

Lemma sign_sound {Tx SignedTx} vm (deriver : VmWalletDeriver Tx SignedTx) params wallet h signed :
  runVmAction cfg getPrivateKey now_ms vm deriver params = Ok (SignResult wallet h signed) ->
  sign_authorised vm deriver params wallet signed.
Proof using.
  unfold runVmAction. intros Hv. res_inv Hv. case_bool_decide; [by res_inv Hv|]. case_bool_decide; [by res_inv Hv|].
  case_bool_decide as Hact; [|done]. split; [done|]. res_inv Hv.
  repeat match goal with u : unit |- _ => destruct u end.
  destruct r14 as [w sts]. injection Hv as <- _ <-.
  apply nonempty_some in Hs3, Hs4. apply assertVm_ok in Hs7, Hs8. apply attestation_iff in Hs10.
  destruct (order_data_sound _ _ _ _ Hs11) as (input & out & Ho).
  apply request_signature_sound in Hs9. apply signTransactions_ok in Hs14 as (key & Hk & HF).
  pose proof (deriveChildKey_wallet deriver r r13 w key Hk) as Hw.
  exists r0, r1, r2, r3, r4, r5, r, r13, key, input, out. split_and!; try done; congruence.
Qed.

(** C3: the action signs only what was attested, ordered and requested.
    Whenever it returns signatures, the request was a [sign] request for this
    VM; the oracles attested the trigger; the order is the solver's order for
    the deposit; the solver signed this very request; the VM's policy accepted
    the transactions; each signature is the deriver's signature of the
    corresponding transaction with the key of the wallet that the trigger's
    derivation fields determine, which is the wallet the [wallet] action
    reports for them. *)
Theorem deposit_sign_authorised {Tx SignedTx} vm (deriver : VmWalletDeriver Tx SignedTx) params wallet h signed :
  runVmAction cfg getPrivateKey now_ms vm deriver params = Ok (SignResult wallet h signed) ->
  sign_authorised vm deriver params wallet signed.
Proof using. apply sign_sound. Qed.
End ActionTheorems.

(** ** A concrete signing request *)

Definition byte_address (b : byte) : jsstring := js "0x" ++ HexBytes.bytesToHex (replicate 20 b).
Definition byte_hash (b : byte) : jsstring := js "0x" ++ HexBytes.bytesToHex (replicate 32 b).

(** Recovery returns the key made of the last byte of [r]; its hash repeats
    that byte. *)
Definition toy_viem : Viem := {|
  getAddress := Ok;
  hashTypedData := fun _ => Ok (byte_hash x01);
  hashMessage_raw := fun _ => Ok (byte_hash x02);
  keccak256_bytes := fun l => byte_hash (default x00 (head l));
  keccak256_hex := fun s => Ok (js "0x" ++ HexBytes.bytesToHex (toy_hash (TextEncoder_encode s)));
  encodeAbiParameters := fun _ vs => Ok (js "abi" ++ toString10 (Z.of_nat (length vs)));
  encodePacked_string_bytes := fun a b => Ok (a ++ b);
  hashStruct := fun _ _ _ => Ok (byte_hash x09);
  secp256k1_recover := fun r _ _ _ => Ok (x04 :: replicate 64 (u8 r)) |}.

Definition toy_sig (b : byte) : jsstring :=
  js "0x" ++ HexBytes.bytesToHex (replicate 31 x00 ++ [b] ++ replicate 32 x00 ++ [x1b]).

Definition toy_bundle : BundleConfig := {|
  DEPOSIT_ADDRESS_MANAGER_ADDRESS := byte_address x05; HUB_EVM_CHAIN_ID := 7;
  ALLOWED_ORACLES := [byte_address x0a; byte_address x0b]; ORACLE_SIGNATURE_THRESHOLD := 2 |}.

Definition toy_order_solver : jsstring := byte_address x0c.
Definition toy_trigger : DepositAddressTrigger := {|
  tr_input := {| in_vmType := js "ton-vm"; in_chainId := js "ton"; in_currency := js "0xAA"; in_amount := js "2000" |};
  tr_derivationFields := {|
    df_inputVmType := js "ton-vm"; df_outputVmType := js "ethereum-vm"; df_outputChainId := js "base";
    df_outputCurrency := js "0xbb"; df_outputRecipient := js "0xcc";
    df_solver := js "0x" ++ slice_last 40 (js "0x" ++ HexBytes.bytesToHex (toy_hash (TextEncoder_encode
                   (js "base" ++ toy_order_solver))));
    df_pricingOracle := js "0x"; df_depositor := js "0x"; df_refundRecipient := js "0xdd";
    df_priceImpactBps := js "500"; df_salt := js "3" |};
  tr_orderId := byte_hash x09; tr_nonce := js "1";
  tr_currencies := [{| cu_chainId := js "base"; cu_currency := js "0xBB" |};
                    {| cu_chainId := js "ton"; cu_currency := js "0xaa" |}];
  tr_prices := [{| pr_usdPrice := js "100"; pr_usdPriceDecimals := 2; pr_currencyDecimals := 6;
                   pr_publishTime := js "1"; pr_expiration := js "99" |};
                {| pr_usdPrice := js "5"; pr_usdPriceDecimals := 0; pr_currencyDecimals := 3;
                   pr_publishTime := js "1"; pr_expiration := js "99" |}];
  tr_extraData := js "0x" |}.

Definition toy_trigger_attestation : DepositAddressTriggerAttestation := {|
  ta_chainId := 7; ta_depositAddressManager := byte_address x05; ta_inputDepository := js "0x";
  ta_triggerHash := js "0x" ++ HexBytes.bytesToHex (toy_hash (TextEncoder_encode (js "abi7")));
  ta_signatures := [{| ds_oracleSigner := byte_address x0a; ds_signature := toy_sig x0a |};
                    {| ds_oracleSigner := byte_address x0b; ds_signature := toy_sig x0b |}] |}.

Definition toy_deposit_order : Order := {|
  or_version := js "v1"; or_solverChainId := js "base"; or_solver := toy_order_solver; or_salt := js "1";
  or_inputs := [{| oi_payment := {| ip_chainId := js "ton"; ip_currency := js "0xaa"; ip_amount := js "2000";
                                    ip_weight := js "1" |};
                   oi_refunds := [{| rf_chainId := js "ton"; rf_recipient := js "0xdd"; rf_currency := js "0xaa";
                                     rf_minimumAmount := js "0"; rf_deadline := 9; rf_extraData := js "0x" |}] |}];
  or_output := {| oo_chainId := js "base";
                  oo_payments := [{| op_recipient := js "0xcc"; op_currency := js "0xbb";
                                     op_minimumAmount := js "9500000"; op_expectedAmount := js "9900000" |}];
                  oo_calls := []; oo_deadline := 9; oo_extraData := js "0x" |};
  or_fees := [] |}.

Lemma order_authorised_witness :
  exists input out, @order_authorised toy_noble toy_viem toy_trigger toy_deposit_order (toy_sig x0c) 5000 input out.
Proof.
  apply (@order_is_authorised toy_noble toy_viem toy_trigger toy_deposit_order (toy_sig x0c) 5000).
  vm_compute. reflexivity.
Defined.

Definition toy_wallet : WalletInfo :=
  {| wi_vmType := js "ton-vm"; wi_indexes := []; wi_path := []; wi_address := js "0:0"; wi_publicKey := [] |}.
Definition toy_deriver : VmWalletDeriver jsstring jsstring := {|
  vmType := js "ton-vm"; accountPath := js "m/44'/607'/0'/0"; Node := bytes;
  deriveAccountNode := fun s => Ok (TextEncoder_encode s); deserializeAccountNode := fun s => Ok (TextEncoder_encode s);
  deriveChildNode := fun n i => Ok (u8 i :: n); privateKeyBytes := Some;
  accountFromNode := fun _ => throw "unused"; walletFromNode := fun _ _ => Ok toy_wallet;
  signTransactionWithKey := fun k tx => Ok (tx ++ HexBytes.bytesToHex k);
  verifyTransactions := fun _ _ _ => Ok tt |}.

Definition toy_action : ActionParams jsstring := {|
  pkpId := js "pkp"; action := js "sign"; pa_vmType := None; pa_derivationFields := None;
  pa_trigger := Some toy_trigger; pa_attestation := Some toy_trigger_attestation;
  pa_order := Some toy_deposit_order; pa_orderSignature := Some (toy_sig x0c);
  pa_requestSignature := Some (toy_sig x0c); pa_transactions := Some [js "tx"];
  pa_json := JObj [(js "action", JStr (js "sign")); (js "requestSignature", JStr (toy_sig x0c))] |}.

Lemma deposit_sign_witness :
  exists wallet signed, @sign_authorised toy_noble toy_viem toy_bundle Ok 5000 jsstring jsstring (js "ton-vm")
    toy_deriver toy_action wallet signed.
Proof.
  eexists _, _. eapply (@deposit_sign_authorised toy_noble toy_viem toy_bundle Ok 5000). vm_compute. reflexivity.
Defined.

Lemma request_hash_witness :
  @solverSignRequestHash toy_noble
    (JObj [(js "b", JArr [JObj [(js "y", JNum 1); (js "x", JNull)]]); (js "requestSignature", JStr (js "s"))]) =
  @solverSignRequestHash toy_noble (JObj [(js "b", JArr [JObj [(js "x", JNull); (js "y", JNum 1)]])]).
Proof.
  apply (@request_hash_canonical toy_noble).
  eapply sr_trans; [apply (sr_signature [(js "b", _)] _ [])|].
  apply (sr_field [] (js "b") _ _ []), (sr_item [] _ _ []), sr_order; [|apply Permutation_swap].
  repeat constructor; set_solver.
Defined.
