(* ===== verification/BitcoinTx.v ===== *)
(** * Bitcoin deposit transactions

    packages/lit-deposit-address/src/derivation/vm/bitcoin/transaction.ts, the
    address codec of common/address/bitcoin.ts and the transaction checks of
    BitcoinVmWalletDeriver.ts.  The base-58 and Bech32 codecs of @scure/base
    are operations of [Scure]; the UTF-8 decoder is written out. *)

From Stdlib Require Import Strings.Byte.
From S2P Require Import Prelude JsNum JsString HexBytes Bech32 ToyRuntime DepositBytes DepositTypes.
Local Open Scope Z_scope.
Local Open Scope js_scope.

(** ** [new TextDecoder().decode(data)] *)

Definition utf16_of_code (p : Z) : jsstring :=
  if p <? 65536 then [p] else [55296 + (p - 65536) / 1024; 56320 + (p - 65536) mod 1024].

(** Decoder state: continuation bytes still needed, bounds on the next one,
    and the code point so far. *)
Record Utf8State := { u_needed : nat; u_lower : Z; u_upper : Z; u_cp : Z }.
Definition utf8_idle : Utf8State := {| u_needed := 0; u_lower := 0x80; u_upper := 0xbf; u_cp := 0 |}.

(** A byte outside a sequence. *)
Definition utf8_start (b : Z) : jsstring * Utf8State :=
  if b <? 0x80 then ([b], utf8_idle)
  else if in_range 0xc2 0xdf b then
    ([], {| u_needed := 1; u_lower := 0x80; u_upper := 0xbf; u_cp := Z.land b 0x1f |})
  else if in_range 0xe0 0xef b then
    ([], {| u_needed := 2; u_lower := if b =? 0xe0 then 0xa0 else 0x80;
            u_upper := if b =? 0xed then 0x9f else 0xbf; u_cp := Z.land b 0xf |})
  else if in_range 0xf0 0xf4 b then
    ([], {| u_needed := 3; u_lower := if b =? 0xf0 then 0x90 else 0x80;
            u_upper := if b =? 0xf4 then 0x8f else 0xbf; u_cp := Z.land b 0x7 |})
  else ([0xfffd], utf8_idle).

Definition utf8_step (st : Utf8State) (b : Z) : jsstring * Utf8State :=
  match u_needed st with
  | O => utf8_start b
  | S n =>
      if in_range (u_lower st) (u_upper st) b then
        let cp := Z.lor (Z.shiftl (u_cp st) 6) (Z.land b 0x3f) in
        match n with
        | O => (utf16_of_code cp, utf8_idle)
        | _ => ([], {| u_needed := n; u_lower := 0x80; u_upper := 0xbf; u_cp := cp |})
        end
      else let '(out, st') := utf8_start b in (0xfffd :: out, st')
  end.

Fixpoint utf8_loop (st : Utf8State) (l : bytes) : jsstring :=
  match l with
  | [] => match u_needed st with O => [] | _ => [0xfffd] end
  | b :: l' => let '(out, st') := utf8_step st (bz b) in out ++ utf8_loop st' l'
  end.

(** The byte order mark is removed. *)
Definition TextDecoder_decode (l : bytes) : jsstring :=
  utf8_loop utf8_idle (if bool_decide (take 3 l = [xef; xbb; xbf]) then drop 3 l else l).

(** ** Constants and data *)

Definition SIGHASH_ALL : Z := 1.
Definition OP_RETURN : Z := 0x6a.
Definition LEGACY : Z := 0xff.
Definition P2PKH : Z := 0x00.
Definition P2SH : Z := 0x05.

Record TxInput := { txid : bytes; ti_index : Z; ti_sequence : Z }.
Record TxOutput := { to_value : Z; to_script : bytes }.
Record ParsedTx := { tx_version : Z; tx_inputs : list TxInput; tx_outputs : list TxOutput; tx_locktime : Z }.

(** ** [Reader]: the state is the input from [offset] on *)

Definition bytesN (len : Z) (s : bytes) : result (bytes * bytes) :=
  fail_if Z.of_nat (length s) <? len with "bitcoin transaction truncated" ;;
  Ok (take (Z.to_nat len) s, drop (Z.to_nat len) s).

Definition read_u8 (s : bytes) : result (Z * bytes) :=
  '(b, s) ← bytesN 1 s; Ok (byte_at b 0, s).

Definition read_u32 (s : bytes) : result (Z * bytes) :=
  '(b, s) ← bytesN 4 s;
  Ok (js_ushr (js_or (js_or (js_or (byte_at b 0) (js_shl (byte_at b 1) 8)) (js_shl (byte_at b 2) 16))
                     (js_shl (byte_at b 3) 24)) 0, s).

(** [for (let i = 7; i >= 0; i--) out = (out << 8n) | BigInt(b[i])]. *)
Definition read_u64 (s : bytes) : result (Z * bytes) :=
  '(b, s) ← bytesN 8 s;
  Ok (foldl (fun out x => Z.lor (Z.shiftl out 8) (bz x)) 0 (reverse b), s).

Definition MAX_SAFE_INTEGER : Z := 2 ^ 53 - 1.

Definition read_varInt (s : bytes) : result (Z * bytes) :=
  '(first, s) ← read_u8 s;
  if first <? 0xfd then Ok (first, s)
  else if first =? 0xfd then
    '(b, s) ← bytesN 2 s; Ok (js_or (byte_at b 0) (js_shl (byte_at b 1) 8), s)
  else if first =? 0xfe then read_u32 s
  else
    '(value, s) ← read_u64 s;
    fail_if MAX_SAFE_INTEGER <? value with "too large" ;;
    Ok (value, s).

(** [Array.from({ length: count }, read1)].  Every item takes at least one
    byte, so a count above the number of bytes left ends in a truncation
    error; the fuel is one more than that number. *)
Fixpoint read_many {A} (read1 : bytes -> result (A * bytes)) (fuel : nat) (count : Z) (s : bytes)
  : result (list A * bytes) :=
  if count <=? 0 then Ok ([], s)
  else match fuel with
  | O => throw "bitcoin transaction truncated"
  | S f => '(x, s) ← read1 s; '(xs, s) ← read_many read1 f (count - 1) s; Ok (x :: xs, s)
  end.

Definition read_input (s : bytes) : result (TxInput * bytes) :=
  '(id, s) ← bytesN 32 s;
  '(index, s) ← read_u32 s;
  '(len, s) ← read_varInt s;
  '(_, s) ← bytesN len s;
  '(sequence, s) ← read_u32 s;
  Ok ({| txid := id; ti_index := index; ti_sequence := sequence |}, s).

Definition read_output (s : bytes) : result (TxOutput * bytes) :=
  '(value, s) ← read_u64 s;
  '(len, s) ← read_varInt s;
  '(script, s) ← bytesN len s;
  Ok ({| to_value := value; to_script := script |}, s).

Definition read_witness (s : bytes) : result (unit * bytes) :=
  '(itemCount, s) ← read_varInt s;
  fail_if negb (itemCount =? 0) with "witness must be empty for unsigned deposits" ;;
  Ok (tt, s).

(** ** Serialization *)

(** [concat] copies the parts one after the other. *)
Definition concat (parts : list bytes) : bytes := HexBytes.concatBytes parts.

Definition u32le (n : Z) : bytes :=
  Uint8Array_from [js_and n 255; js_and (js_ushr n 8) 255; js_and (js_ushr n 16) 255; js_and (js_ushr n 24) 255].

Definition u64le (n : Z) : bytes := fst (le_loop 8 n []).

Definition varInt (v : Z) : bytes :=
  if v <? 0xfd then [u8 v]
  else if v <=? 0xffff then [xfd; u8 (Z.land v 255); u8 (Z.land (Z.shiftr v 8) 255)]
  else if v <=? 0xffffffff then concat [[xfe]; u32le v]
  else concat [[xff]; u64le v].

Definition equal (a b : bytes) : bool := Nat.eqb (length a) (length b) && bool_decide (a = b).

Definition outpoint (input : TxInput) : bytes := concat [txid input; u32le (ti_index input)].
Definition script (l : bytes) : bytes := concat [varInt (Z.of_nat (length l)); l].
Definition output (o : TxOutput) : bytes := concat [u64le (to_value o); script (to_script o)].

Section Bitcoin.
Context `{N : Noble}.

Definition hash256 (l : bytes) : bytes := noble_sha256 (noble_sha256 l).
Definition hash160 (data : bytes) : bytes := noble_ripemd160 (noble_sha256 data).

(** [parseTx] from the input count on. *)
Definition parse_body (version : Z) (hasWitness : bool) (inputCount : Z) (s : bytes) : result ParsedTx :=
  fail_if inputCount =? 0 with "bitcoin transaction must have at least one input" ;;
  '(inputs, s) ← read_many read_input (S (length s)) inputCount s;
  '(outputCount, s) ← read_varInt s;
  fail_if outputCount =? 0 with "bitcoin transaction must have at least one output" ;;
  '(outputs, s) ← read_many read_output (S (length s)) outputCount s;
  '(_, s) ← (if hasWitness then read_many read_witness (S (length s)) inputCount s else Ok ([], s));
  '(locktime, s) ← read_u32 s;
  fail_if negb (Nat.eqb (length s) 0) with "bitcoin transaction has trailing bytes" ;;
  Ok {| tx_version := version; tx_inputs := inputs; tx_outputs := outputs; tx_locktime := locktime |}.

Definition parseTx (rawHex : jsstring) : result ParsedTx :=
  s ← hexToBytes rawHex "transaction.unsignedTransaction";
  '(version, s) ← read_u32 s;
  '(inputCount, s) ← read_varInt s;
  let hasWitness := inputCount =? 0 in
  '(inputCount, s) ← (if hasWitness then
      '(flag, s) ← read_u8 s;
      fail_if negb (flag =? 1) with "unsupported bitcoin transaction marker/flag" ;;
      read_varInt s
    else Ok (inputCount, s));
  parse_body version hasWitness inputCount s.

Definition p2wpkhCode (pubkey : bytes) : bytes :=
  concat [[x76; xa9; x14]; hash160 pubkey; [x88; xac]].

Definition sighash_preimage (tx : ParsedTx) (input : TxInput) (pubkey : bytes) (value : Z) : bytes :=
  concat [u32le (tx_version tx);
          hash256 (concat (outpoint <$> tx_inputs tx));
          hash256 (concat ((fun i => u32le (ti_sequence i)) <$> tx_inputs tx));
          outpoint input;
          script (p2wpkhCode pubkey);
          u64le value;
          u32le (ti_sequence input);
          hash256 (concat (output <$> tx_outputs tx));
          u32le (tx_locktime tx);
          u32le SIGHASH_ALL].

Definition sighash (tx : ParsedTx) (input : TxInput) (pubkey : bytes) (value : Z) : bytes :=
  hash256 (sighash_preimage tx input pubkey value).

(** ** The scripts of an encoded address *)

Definition addressScripts (encodedHex : jsstring) (label : string) : result (list bytes) :=
  encoded ← hexToBytes encodedHex label;
  match encoded with
  | [] => throw "not a supported bitcoin address encoding"
  | first :: payload =>
      if bz first =? LEGACY then
        if Nat.eqb (length payload) 21 && (byte_at payload 0 =? P2PKH) then
          Ok [concat [[x76; xa9; x14]; drop 1 payload; [x88; xac]]]
        else if Nat.eqb (length payload) 21 && (byte_at payload 0 =? P2SH) then
          Ok [concat [[xa9; x14]; drop 1 payload; [x87]]]
        else throw "unsupported legacy bitcoin address encoding"
      else
        fail_if Nat.ltb (length encoded) 3 || (16 <? bz first)
          with "not a supported bitcoin address encoding" ;;
        let versionOp := if bz first =? 0 then 0 else 0x50 + bz first in
        let program := payload in
        Ok [concat [[u8 versionOp; u8 (Z.of_nat (length program))]; program]]
  end.

Definition depositoryScripts (encodedHex : jsstring) : result (list bytes) :=
  addressScripts encodedHex "attestation.inputDepository".
Definition refundScripts (encodedHex : jsstring) : result (list bytes) :=
  addressScripts encodedHex "trigger.derivationFields.refundRecipient".

Definition opReturn (scriptBytes : bytes) : option jsstring :=
  if negb (byte_at scriptBytes 0 =? OP_RETURN) || Nat.ltb (length scriptBytes) 2 then None
  else
    let op := byte_at scriptBytes 1 in
    if op <=? 75 then Some (TextDecoder_decode (take (Z.to_nat op) (drop 2 scriptBytes)))
    else if op =? 0x4c then
      Some (TextDecoder_decode (take (Z.to_nat (byte_at scriptBytes 2)) (drop 3 scriptBytes)))
    else None.

Definition assertCounts (tx : ParsedTx) (data : BitcoinVmTransaction) : result unit :=
  fail_if negb (Nat.eqb (length (bt_sighashes data)) (length (tx_inputs tx)))
    with "sighash count must equal input count" ;;
  fail_if negb (Nat.eqb (length (bt_inputValues data)) (length (tx_inputs tx)))
    with "inputValues count must equal input count" ;;
  Ok tt.

(** The digest of the input at index [i] of [tx.inputs.map]. *)
Definition check_digest (tx : ParsedTx) (data : BitcoinVmTransaction) (pubkey : bytes) (i : nat) (input : TxInput)
  : result bytes :=
  sighash_hex ← require (bt_sighashes data !! i) "undefined";
  actual ← hexToBytes sighash_hex "transaction.sighashes[]";
  fail_if negb (Nat.eqb (length actual) 32) with "transaction.sighashes[] must be 32 bytes" ;;
  value ← require (bt_inputValues data !! i) "undefined";
  value ← BigInt value;
  fail_if negb (equal actual (sighash tx input pubkey value))
    with "transaction.sighashes[] does not match unsignedTransaction" ;;
  Ok actual.

Definition signableBitcoinDigests (data : BitcoinVmTransaction) (pubkey : bytes) : result (list bytes) :=
  tx ← parseTx (bt_unsignedTransaction data);
  _ ← assertCounts tx data;
  mapM_idx (check_digest tx data pubkey) 0 (tx_inputs tx).
End Bitcoin.

(** ** Addresses *)

(** @scure/base. *)
Class Scure := {
  base58_decode : jsstring -> result bytes;
  base58_encode : bytes -> jsstring;
  bech32_decode : jsstring -> result (jsstring * list Z);
  bech32m_decode : jsstring -> result (jsstring * list Z);
  bech32_encode : jsstring -> list Z -> result jsstring;
  bech32m_encode : jsstring -> list Z -> result jsstring;
  bech32_fromWords : list Z -> result bytes;
  bech32_toWords : bytes -> list Z;
}.

Definition BITCOIN_MAINNET_HRP : jsstring := js "bc".

Section Address.
Context `{N : Noble, S : Scure}.

Definition doubleSha256 (l : bytes) : bytes := noble_sha256 (noble_sha256 l).

Definition encodeBase58CheckPayload (address : jsstring) : result bytes :=
  decoded ← base58_decode address;
  fail_if Nat.ltb (length decoded) 5 with "invalid bitcoin base58 address" ;;
  let payload := take (length decoded - 4) decoded in
  let checksum := drop (length decoded - 4) decoded in
  let expected := take 4 (doubleSha256 payload) in
  fail_if negb (equalBytes checksum expected) with "invalid bitcoin base58 checksum" ;;
  Ok payload.

Definition decodeBase58CheckPayload (payload : bytes) : jsstring :=
  base58_encode (HexBytes.concatBytes [payload; take 4 (doubleSha256 payload)]).

Definition legacy_payload (payload : bytes) : bool :=
  Nat.eqb (length payload) 21 && ((byte_at payload 0 =? P2PKH) || (byte_at payload 0 =? P2SH)).

(** The words after the witness version, as bytes. *)
Definition witness_bytes (words : list Z) : result bytes :=
  match words with
  | [] => throw "undefined"
  | v :: program => l ← bech32_fromWords program; Ok (u8 v :: l)
  end.

Definition encodeBitcoinAddress (address : jsstring) : result bytes :=
  if startsWith address (js "1") || startsWith address (js "3") then
    payload ← encodeBase58CheckPayload address;
    fail_if negb (legacy_payload payload) with "unsupported bitcoin base58 address format" ;;
    Ok (u8 LEGACY :: payload)
  else
    let lower := toLowerCase address in
    if startsWith lower (js "bc1") then
      let first := '(prefix, words) ← bech32_decode lower;
                   (if bool_decide (prefix = BITCOIN_MAINNET_HRP) && bool_decide (head words = Some 0)
                    then Some <$> witness_bytes words else Ok None) in
      match first with
      | Ok (Some l) => Ok l
      | _ =>
          '(prefix, words) ← bech32m_decode lower;
          (if bool_decide (prefix = BITCOIN_MAINNET_HRP) && (match words with v :: _ => 1 <=? v | [] => false end)
           then witness_bytes words
           else throw "unsupported bitcoin address format")
      end
    else throw "unsupported bitcoin address format".

Definition decodeBitcoinAddress (encoded : bytes) : result jsstring :=
  match encoded with
  | [] => throw "unsupported bitcoin address encoding"
  | version :: payload =>
      if bz version =? LEGACY then
        fail_if negb (legacy_payload payload) with "unsupported legacy bitcoin address encoding" ;;
        Ok (decodeBase58CheckPayload payload)
      else
        fail_if Nat.ltb (length encoded) 3 with "unsupported bitcoin address encoding" ;;
        fail_if 16 <? bz version with "unsupported bitcoin witness version" ;;
        let words := bz version :: bech32_toWords payload in
        if bz version =? 0 then bech32_encode BITCOIN_MAINNET_HRP words
        else bech32m_encode BITCOIN_MAINNET_HRP words
  end.

Definition encodeBitcoinAddressToHex (address : jsstring) : result jsstring :=
  l ← encodeBitcoinAddress address; Ok (js "0x" ++ bytesToHex l).

Definition normalizeBitcoinAddressHex (encodedHex : jsstring) : result jsstring :=
  encoded ← hexToBytes encodedHex "encoded address";
  address ← decodeBitcoinAddress encoded;
  hex ← encodeBitcoinAddressToHex address;
  Ok (toLowerCase hex).

Definition BTC_NATIVE : result jsstring :=
  hex ← encodeBitcoinAddressToHex (js "bc1qqqqqqqqqqqqqqqqqqqqqqqqqqqqqqqqmql8k8"); Ok (toLowerCase hex).

(** ** The deposit policy *)

Definition pays (scripts : list bytes) (o : TxOutput) : bool := existsb (fun s => equal s (to_script o)) scripts.

Definition depository_sum (scripts : list bytes) (outputs : list TxOutput) : Z :=
  foldl (fun sum o => sum + (if pays scripts o then to_value o else 0)) 0 outputs.

Definition invalid_change (scripts refunds : list bytes) (o : TxOutput) : bool :=
  negb (pays scripts o) && bool_decide (opReturn (to_script o) = None) && negb (pays refunds o).

(** [find((x) => x?.startsWith(orderId))]. *)
Fixpoint find_metadata (orderId : jsstring) (texts : list (option jsstring)) : option jsstring :=
  match texts with
  | [] => None
  | Some t :: rest => if startsWith t orderId then Some t else find_metadata orderId rest
  | None :: rest => find_metadata orderId rest
  end.

Definition assertBitcoinDepositTransaction (trigger : DepositAddressTrigger)
    (attestation : DepositAddressTriggerAttestation) (data : BitcoinVmTransaction) : result unit :=
  native ← BTC_NATIVE;
  currency ← normalizeBitcoinAddressHex (in_currency (tr_input trigger));
  fail_if negb (bool_decide (currency = native)) with "bitcoin-vm only supports native BTC deposits" ;;
  tx ← parseTx (bt_unsignedTransaction data);
  _ ← assertCounts tx data;
  expectedAmount ← BigInt (in_amount (tr_input trigger));
  scripts ← depositoryScripts (ta_inputDepository attestation);
  refunds ← refundScripts (df_refundRecipient (tr_derivationFields trigger));
  let actualAmount := depository_sum scripts (tx_outputs tx) in
  fail_if negb (actualAmount =? expectedAmount) with "value sent to input depository must equal input.amount" ;;
  fail_if existsb (invalid_change scripts refunds) (tx_outputs tx)
    with "non-depository, non-OP_RETURN outputs must pay refundRecipient" ;;
  metadata ← require (find_metadata (tr_orderId trigger) ((fun o => opReturn (to_script o)) <$> tx_outputs tx))
               "OP_RETURN metadata must start with trigger.orderId";
  fail_if bool_decide (metadata = []) with "OP_RETURN metadata must start with trigger.orderId" ;;
  depositor ← require (DEPOSITOR_RE metadata) "OP_RETURN metadata must include |depositor=<depositor>|";
  encodedDepositor ← encodeBitcoinAddressToHex depositor;
  fail_if negb (bool_decide (toLowerCase encodedDepositor = toLowerCase (df_depositor (tr_derivationFields trigger))))
    with "OP_RETURN depositor mismatch" ;;
  Ok tt.

(** [BitcoinVmWalletDeriver.verifyTransactions]. *)
Definition btc_verifyTransactions (trigger : DepositAddressTrigger)
    (attestation : DepositAddressTriggerAttestation) (transactions : list BitcoinVmTransaction) : result unit :=
  match transactions with
  | [data] => assertBitcoinDepositTransaction trigger attestation data
  | _ => throw "bitcoin deposit requires exactly 1 transaction"
  end.

Context (secp_getPublicKey : bytes -> result bytes) (secp_sign_compact : bytes -> bytes -> result bytes).

(** [BitcoinVmWalletDeriver.signTransactionWithKey]. *)
Definition btc_signTransactionWithKey (privateKey : bytes) (transaction : BitcoinVmTransaction)
  : result (list jsstring) :=
  fail_if Nat.eqb (length (bt_sighashes transaction)) 0 with "bitcoin transaction must have at least one sighash" ;;
  publicKey ← secp_getPublicKey privateKey;
  digests ← signableBitcoinDigests transaction publicKey;
  mapM (fun digest => sig ← secp_sign_compact digest privateKey; Ok (js "0x" ++ bytesToHex sig)) digests.
End Address.
