(* ===== verification/BitcoinProofs.v ===== *)
(** * Bitcoin deposit transactions: parsing, digests and policy

    [parseTx] reads back every serialized transaction, the BIP-143 digest
    binds what is signed, and the policy admits only the attested deposit. *)

From Stdlib Require Import Strings.Byte.
From S2P Require Import Prelude JsNum JsString HexBytes Bech32 HederaIds ToyRuntime DepositBytes DepositTypes.
From S2P Require Import DepositTypes BitcoinTx.
Local Open Scope Z_scope.
Local Open Scope js_scope.

(** ** Integers, read back *)

Lemma js_or_uint32 a b : js_or a b mod 2 ^ 32 = Z.lor (a mod 2 ^ 32) (b mod 2 ^ 32).
Proof.
  unfold js_or. rewrite <- !Z.land_ones, Z.land_lor_distr_l, !Z.land_ones by lia.
  by rewrite !to_int32_mod by lia.
Qed.

Lemma js_shl_uint32 b k : 0 <= b < 256 -> 0 <= k <= 24 -> js_shl b k mod 2 ^ 32 = Z.shiftl b k.
Proof.
  intros Hb Hk. unfold js_shl. rewrite to_int32_mod, (to_int32_small b), (Z.mod_small k) by lia.
  rewrite Z.shiftl_mul_pow2 by lia. apply Z.mod_small.
  assert (2 ^ k <= 2 ^ 24) by (apply Z.pow_le_mono_r; lia). assert (0 < 2 ^ k) by (apply Z.pow_pos_nonneg; lia).
  split; [nia|]. change (2 ^ 32) with (256 * 2 ^ 24). nia.
Qed.

Lemma lor_low a b n : 0 <= n -> 0 <= a < 2 ^ n -> Z.lor a (Z.shiftl b n) = a + b * 2 ^ n.
Proof. intros Hn Ha. rewrite Z.lor_comm, lor_shift_add by done. lia. Qed.

Lemma bytesN_app l s n : Z.of_nat (length l) = n -> bytesN n (l ++ s) = Ok (l, s).
Proof.
  intros <-. unfold bytesN. rewrite length_app. zcmp. cbn [negb check mbind result_bind].
  rewrite Nat2Z.id, take_app_length, drop_app_length. done.
Qed.

Lemma u32_bytes b0 b1 b2 b3 :
  js_ushr (js_or (js_or (js_or (bz b0) (js_shl (bz b1) 8)) (js_shl (bz b2) 16)) (js_shl (bz b3) 24)) 0 =
  bz b0 + bz b1 * 2 ^ 8 + bz b2 * 2 ^ 16 + bz b3 * 2 ^ 24.
Proof.
  pose proof (bz_range b0). pose proof (bz_range b1). pose proof (bz_range b2). pose proof (bz_range b3).
  unfold js_ushr, to_uint32. change (0 mod 32) with 0. rewrite Z.shiftr_0_r, !js_or_uint32.
  rewrite !js_shl_uint32, (Z.mod_small (bz b0)) by lia.
  rewrite (lor_low (bz b0)) by lia. rewrite (lor_low (bz b0 + _)) by lia. rewrite lor_low by lia. done.
Qed.

Lemma u32le_digits n : 0 <= n < 2 ^ 32 ->
  u32le n = [u8 (n mod 256); u8 (n / 2 ^ 8 mod 256); u8 (n / 2 ^ 16 mod 256); u8 (n / 2 ^ 24 mod 256)].
Proof.
  intros Hn. unfold u32le, js_and, js_ushr. change (to_int32 255) with (Z.ones 8).
  change (8 mod 32) with 8. change (16 mod 32) with 16. change (24 mod 32) with 24.
  rewrite !to_uint32_small by lia. rewrite !Z.land_ones, !to_int32_mod, !Z.shiftr_div_pow2 by lia. done.
Qed.

Lemma read_u32_app n s : 0 <= n < 2 ^ 32 -> read_u32 (u32le n ++ s) = Ok (n, s).
Proof.
  intros Hn. rewrite u32le_digits by done. unfold read_u32. rewrite bytesN_app by done. cbn [mbind result_bind].
  change (byte_at [?a; ?b; ?c; ?d] 0) with (bz a). change (byte_at [?a; ?b; ?c; ?d] 1) with (bz b).
  change (byte_at [?a; ?b; ?c; ?d] 2) with (bz c). change (byte_at [?a; ?b; ?c; ?d] 3) with (bz d).
  rewrite u32_bytes, !bz_u8, !Z.mod_mod by lia. do 2 f_equal.
  change (2 ^ 8) with 256. change (2 ^ 16) with 65536. change (2 ^ 24) with 16777216. divmod_lia.
Qed.

Lemma length_u32le n : length (u32le n) = 4%nat.
Proof. done. Qed.

Lemma u64le_spec n : 0 <= n < 2 ^ 64 -> length (u64le n) = 8%nat /\ bytesToNumberLE (u64le n) = n.
Proof.
  intros Hn. unfold u64le. destruct (le_loop_spec 8 n []) as (l & -> & Hl & Hv). cbn [app fst].
  split; [done|]. rewrite bytesToNumberLE_digits, Hv. apply Z.mod_small. exact Hn.
Qed.

Lemma read_u64_app n s : 0 <= n < 2 ^ 64 -> read_u64 (u64le n ++ s) = Ok (n, s).
Proof.
  intros Hn. destruct (u64le_spec n Hn) as [Hl Hv]. unfold read_u64. rewrite bytesN_app by (by rewrite Hl).
  cbn [mbind result_bind]. do 2 f_equal. exact Hv.
Qed.

Lemma read_u8_app b s : read_u8 (b :: s) = Ok (bz b, s).
Proof. unfold read_u8. change (b :: s) with ([b] ++ s). by rewrite bytesN_app by done. Qed.

Lemma concat_eq parts : concat parts = mjoin parts.
Proof. unfold concat. apply concatBytes_join. Qed.

Lemma varInt_nonempty v : varInt v <> [].
Proof.
  unfold varInt. destruct (v <? 0xfd); [done|]. destruct (v <=? 0xffff); [done|].
  destruct (v <=? 0xffffffff); by rewrite concat_eq.
Qed.

Lemma read_varInt_app v s : 0 <= v <= MAX_SAFE_INTEGER -> read_varInt (varInt v ++ s) = Ok (v, s).
Proof.
  unfold MAX_SAFE_INTEGER. intros Hv. unfold varInt, read_varInt.
  destruct (Z.ltb_spec v 0xfd).
  { cbn [app]. rewrite read_u8_app. cbn [mbind result_bind]. rewrite bz_u8_small by lia. by zcmp. }
  destruct (Z.leb_spec v 0xffff).
  { cbn [app]. rewrite read_u8_app. cbn [mbind result_bind].
    change (bz xfd <? 0xfd) with false. change (bz xfd =? 0xfd) with true. cbv iota.
    change (?a :: ?b :: s) with ([a; b] ++ s). rewrite bytesN_app by done. cbn [mbind result_bind].
    change (byte_at [?a; ?b] 0) with (bz a). change (byte_at [?a; ?b] 1) with (bz b).
    change 255 with (Z.ones 8). rewrite !Z.land_ones, Z.shiftr_div_pow2, !bz_u8, !Z.mod_mod by lia.
    change (2 ^ 8) with 256. assert (0 <= v mod 256 < 256 /\ 0 <= v / 256 mod 256 < 256) as [B1 B2] by divmod_lia.
    do 2 f_equal. unfold js_or. rewrite Z.lor_comm. fold (js_or (js_shl (v / 256 mod 256) 8) (v mod 256)).
    rewrite checksum_value by done. divmod_lia. }
  destruct (Z.leb_spec v 0xffffffff).
  { rewrite concat_eq. cbn [mjoin list_join app]. rewrite app_nil_r, read_u8_app. cbn [mbind result_bind].
    change (bz xfe <? 0xfd) with false. change (bz xfe =? 0xfd) with false. change (bz xfe =? 0xfe) with true. cbv iota.
    apply read_u32_app. lia. }
  rewrite concat_eq. cbn [mjoin list_join app]. rewrite app_nil_r, read_u8_app. cbn [mbind result_bind].
  change (bz xff <? 0xfd) with false. change (bz xff =? 0xfd) with false. change (bz xff =? 0xfe) with false. cbv iota.
  rewrite read_u64_app by lia. cbn [mbind result_bind]. unfold MAX_SAFE_INTEGER. by zcmp.
Qed.

(** ** Transactions, read back *)

Record valid_input (i : TxInput) : Prop := {
  vi_txid : length (txid i) = 32%nat;
  vi_index : 0 <= ti_index i < 2 ^ 32;
  vi_sequence : 0 <= ti_sequence i < 2 ^ 32 }.
Record valid_output (o : TxOutput) : Prop := {
  vo_value : 0 <= to_value o < 2 ^ 64;
  vo_script : Z.of_nat (length (to_script o)) <= MAX_SAFE_INTEGER }.
Record valid_parsed (tx : ParsedTx) : Prop := {
  vt_version : 0 <= tx_version tx < 2 ^ 32;
  vt_inputs : tx_inputs tx <> [] /\ Forall valid_input (tx_inputs tx) /\
              Z.of_nat (length (tx_inputs tx)) <= MAX_SAFE_INTEGER;
  vt_outputs : tx_outputs tx <> [] /\ Forall valid_output (tx_outputs tx) /\
               Z.of_nat (length (tx_outputs tx)) <= MAX_SAFE_INTEGER;
  vt_locktime : 0 <= tx_locktime tx < 2 ^ 32 }.

(** An input with its signature script. *)
Definition ser_input (e : bytes * TxInput) : bytes :=
  outpoint e.2 ++ script e.1 ++ u32le (ti_sequence e.2).

(** The network serialization, without or with the segwit marker (then with
    an empty witness per input). *)
Definition serialize (segwit : bool) (sigs : list bytes) (tx : ParsedTx) : bytes :=
  u32le (tx_version tx) ++ (if segwit then [x00; x01] else []) ++
  varInt (Z.of_nat (length (tx_inputs tx))) ++ mjoin (ser_input <$> zip sigs (tx_inputs tx)) ++
  varInt (Z.of_nat (length (tx_outputs tx))) ++ mjoin (output <$> tx_outputs tx) ++
  (if segwit then replicate (length (tx_inputs tx)) x00 else []) ++ u32le (tx_locktime tx).

Lemma read_script_app l s : Z.of_nat (length l) <= MAX_SAFE_INTEGER ->
  ('(len, s) ← read_varInt (script l ++ s); bytesN len s) = Ok (l, s).
Proof.
  intros Hl. unfold script. rewrite concat_eq. cbn [mjoin list_join]. rewrite app_nil_r, <- app_assoc.
  rewrite read_varInt_app by lia. cbn [mbind result_bind]. by rewrite bytesN_app.
Qed.

Lemma read_input_app e s : valid_input e.2 -> Z.of_nat (length e.1) <= MAX_SAFE_INTEGER ->
  read_input (ser_input e ++ s) = Ok (e.2, s).
Proof.
  destruct e as [sig i]. cbn [fst snd]. intros [H1 H2 H3] Hs. unfold read_input, ser_input, outpoint. cbn [fst snd].
  rewrite concat_eq. cbn [mjoin list_join]. rewrite app_nil_r, <- !app_assoc.
  rewrite bytesN_app by (by rewrite H1). cbn [mbind result_bind]. rewrite read_u32_app by done. cbn [mbind result_bind].
  unfold script. rewrite concat_eq. cbn [mjoin list_join]. rewrite app_nil_r, <- !app_assoc.
  rewrite read_varInt_app by lia. cbn [mbind result_bind]. rewrite bytesN_app by done. cbn [mbind result_bind].
  rewrite read_u32_app by done. by destruct i.
Qed.

Lemma output_app o s : valid_output o -> read_output (output o ++ s) = Ok (o, s).
Proof.
  intros [H1 H2]. unfold read_output, output. rewrite concat_eq. cbn [mjoin list_join]. rewrite app_nil_r, <- !app_assoc.
  rewrite read_u64_app by done. cbn [mbind result_bind]. unfold script. rewrite concat_eq. cbn [mjoin list_join].
  rewrite app_nil_r, <- !app_assoc. rewrite read_varInt_app by lia. cbn [mbind result_bind].
  rewrite bytesN_app by done. by destruct o.
Qed.

Lemma read_many_app {A B} (read1 : bytes -> result (B * bytes)) (enc : A -> bytes) (val : A -> B) xs fuel s :
  Forall (fun x => forall s, read1 (enc x ++ s) = Ok (val x, s)) xs -> (length xs <= fuel)%nat ->
  read_many read1 fuel (Z.of_nat (length xs)) (mjoin (enc <$> xs) ++ s) = Ok (val <$> xs, s).
Proof.
  intros HF. revert fuel; induction HF as [|x xs Hx _ IH]; intros fuel Hf; [by destruct fuel|].
  destruct fuel as [|f]; [cbn in Hf; lia|]. cbn [read_many length fmap list_fmap mjoin list_join]. zcmp.
  rewrite <- app_assoc, Hx. cbn [mbind result_bind]. replace (Z.of_nat (S (length xs)) - 1) with (Z.of_nat (length xs)) by lia.
  rewrite IH by (cbn in Hf; lia). done.
Qed.

Lemma length_mjoin_ge {A} (enc : A -> bytes) xs : (forall x, enc x <> []) -> (length xs <= length (mjoin (enc <$> xs)))%nat.
Proof.
  intros Hne. induction xs as [|x xs IH]; [cbn; lia|].
  change (mjoin (enc <$> x :: xs)) with (enc x ++ mjoin (enc <$> xs)). rewrite length_app.
  specialize (Hne x). destruct (enc x) as [|b l]; [done|]. cbn [length]. lia.
Qed.

Lemma ser_input_nonempty e : ser_input e <> [].
Proof. unfold ser_input, u32le. intros E. by apply app_eq_nil in E as [_ E]; apply app_eq_nil in E as [_ E]. Qed.

Lemma output_nonempty o : output o <> [].
Proof.
  unfold output, script. rewrite !concat_eq. cbn [mjoin list_join]. rewrite !app_nil_r. intros E.
  apply app_eq_nil in E as [_ E]. apply app_eq_nil in E as [E _]. by apply varInt_nonempty in E.
Qed.

Lemma read_witness_zero s : read_witness (x00 :: s) = Ok (tt, s).
Proof.
  unfold read_witness. change (x00 :: s) with (varInt 0 ++ s).
  by rewrite read_varInt_app by (unfold MAX_SAFE_INTEGER; lia).
Qed.

Lemma read_witnesses n fuel s : (n <= fuel)%nat ->
  read_many read_witness fuel (Z.of_nat n) (replicate n x00 ++ s) = Ok (replicate n tt, s).
Proof.
  revert fuel; induction n as [|n IH]; intros fuel Hf; [by destruct fuel|].
  destruct fuel as [|f]; [lia|]. cbn [read_many replicate app]. zcmp.
  rewrite read_witness_zero. cbn [mbind result_bind].
  replace (Z.of_nat (S n) - 1) with (Z.of_nat n) by lia. rewrite IH by lia. done.
Qed.

Lemma parse_body_ok segwit sigs tx : valid_parsed tx -> length sigs = length (tx_inputs tx) ->
  Forall (fun s => Z.of_nat (length s) <= MAX_SAFE_INTEGER) sigs ->
  parse_body (tx_version tx) segwit (Z.of_nat (length (tx_inputs tx)))
    (mjoin (ser_input <$> zip sigs (tx_inputs tx)) ++
     varInt (Z.of_nat (length (tx_outputs tx))) ++ mjoin (output <$> tx_outputs tx) ++
     (if segwit then replicate (length (tx_inputs tx)) x00 else []) ++ u32le (tx_locktime tx)) = Ok tx.
Proof.
  intros [Hv (Hi0 & Hi & Hi1) (Ho0 & Ho & Ho1) Hl] Hs HF. unfold parse_body.
  assert (0 < Z.of_nat (length (tx_inputs tx))) as Hip by (destruct (tx_inputs tx); [done|cbn; lia]).
  assert (0 < Z.of_nat (length (tx_outputs tx))) as Hop by (destruct (tx_outputs tx); [done|cbn; lia]).
  assert (length (zip sigs (tx_inputs tx)) = length (tx_inputs tx)) as Hz by (rewrite length_zip; lia).
  zcmp. cbn [negb check mbind result_bind]. rewrite <- Hz at 2.
  rewrite (read_many_app read_input ser_input snd).
  2: { apply Forall_forall. intros [sg i] Hin s. apply elem_of_zip_l in Hin as Hin1. apply elem_of_zip_r in Hin as Hin2.
       rewrite Forall_forall in Hi. rewrite Forall_forall in HF. apply read_input_app; cbn; auto. }
  2: { rewrite length_app. pose proof (length_mjoin_ge ser_input (zip sigs (tx_inputs tx)) ser_input_nonempty). lia. }
  cbn [mbind result_bind]. rewrite snd_zip by lia. rewrite read_varInt_app by lia. cbn [mbind result_bind].
  zcmp. cbn [negb check mbind result_bind]. rewrite (read_many_app read_output output id).
  2: { eapply Forall_impl; [exact Ho|]. intros o Hov s. by apply output_app. }
  2: { rewrite length_app. pose proof (length_mjoin_ge output (tx_outputs tx) output_nonempty). lia. }
  cbn [mbind result_bind]. rewrite list_fmap_id.
  assert ((if segwit then read_many read_witness (S (length ((if segwit then replicate (length (tx_inputs tx)) x00 else []) ++
      u32le (tx_locktime tx)))) (Z.of_nat (length (tx_inputs tx)))
      ((if segwit then replicate (length (tx_inputs tx)) x00 else []) ++ u32le (tx_locktime tx))
    else Ok ([], (if segwit then replicate (length (tx_inputs tx)) x00 else []) ++ u32le (tx_locktime tx))) =
    Ok (if segwit then replicate (length (tx_inputs tx)) tt else [], u32le (tx_locktime tx))) as ->.
  { destruct segwit; [|done]. apply read_witnesses. rewrite length_app, length_replicate. lia. }
  cbn [mbind result_bind]. rewrite <- (app_nil_r (u32le (tx_locktime tx))), read_u32_app by done.
  cbn. by destruct tx.
Qed.

Section Parse.
Context `{N : Noble, !NobleLaws N}.

Lemma parse_serialized segwit sigs tx : valid_parsed tx -> length sigs = length (tx_inputs tx) ->
  Forall (fun s => Z.of_nat (length s) <= MAX_SAFE_INTEGER) sigs ->
  parseTx (js "0x" ++ HexBytes.bytesToHex (serialize segwit sigs tx)) = Ok tx.
Proof using NobleLaws0.
  intros HV Hs HF. pose proof HV as [Hv (Hi0 & _ & Hi1) _ _]. unfold parseTx. rewrite hexToBytes_print_0x.
  cbn [mbind result_bind]. unfold serialize. rewrite read_u32_app by done. cbn [mbind result_bind].
  assert (0 < Z.of_nat (length (tx_inputs tx))) as Hip by (destruct (tx_inputs tx); [done|cbn; lia]).
  destruct segwit.
  - change ([x00; x01] ++ ?s) with (varInt 0 ++ x01 :: s). rewrite read_varInt_app by (unfold MAX_SAFE_INTEGER; lia).
    cbn [mbind result_bind Z.eqb]. rewrite read_u8_app. cbn [mbind result_bind].
    change (negb (bz x01 =? 1)) with false. cbn [check negb mbind result_bind].
    rewrite read_varInt_app by lia. cbn [mbind result_bind]. by apply parse_body_ok with (segwit := true).
  - cbn [app]. rewrite read_varInt_app by lia. cbn [mbind result_bind]. zcmp. cbn [mbind result_bind].
    by apply parse_body_ok with (segwit := false).
Qed.
End Parse.

(** ** What a digest commits to *)

Lemma mjoin_read_inj {A B} (enc : A -> bytes) (rd : bytes -> result (B * bytes)) (val : A -> B) xs ys :
  (forall x, enc x <> []) ->
  Forall (fun x => forall s, rd (enc x ++ s) = Ok (val x, s)) xs ->
  Forall (fun x => forall s, rd (enc x ++ s) = Ok (val x, s)) ys ->
  mjoin (enc <$> xs) = mjoin (enc <$> ys) -> val <$> xs = val <$> ys.
Proof.
  intros Hne Hx. revert ys; induction Hx as [|x xs Hx _ IH]; intros ys Hy Eq.
  - destruct ys as [|y ys]; [done|]. change (mjoin (enc <$> y :: ys)) with (enc y ++ mjoin (enc <$> ys)) in Eq.
    symmetry in Eq. apply app_eq_nil in Eq as [Eq _]. by apply Hne in Eq.
  - change (mjoin (enc <$> x :: xs)) with (enc x ++ mjoin (enc <$> xs)) in Eq. destruct ys as [|y ys].
    { apply app_eq_nil in Eq as [Eq _]. by apply Hne in Eq. }
    change (mjoin (enc <$> y :: ys)) with (enc y ++ mjoin (enc <$> ys)) in Eq.
    apply Forall_cons_1 in Hy as [Hy1 Hy]. pose proof (Hx (mjoin (enc <$> xs))) as R1.
    rewrite Eq, Hy1 in R1. injection R1 as Ev Es. cbn. f_equal; [done|]. by apply IH.
Qed.

Definition read_outpoint (s : bytes) : result ((bytes * Z) * bytes) :=
  '(id, s) ← bytesN 32 s; '(i, s) ← read_u32 s; Ok ((id, i), s).

Lemma outpoint_app i s : valid_input i -> read_outpoint (outpoint i ++ s) = Ok ((txid i, ti_index i), s).
Proof.
  intros [H1 H2 _]. unfold read_outpoint, outpoint. rewrite concat_eq. cbn [mjoin list_join]. rewrite app_nil_r, <- app_assoc.
  rewrite bytesN_app by (by rewrite H1). cbn [mbind result_bind]. by rewrite read_u32_app.
Qed.

Lemma length_outpoint i : valid_input i -> length (outpoint i) = 36%nat.
Proof. intros [H1 _ _]. unfold outpoint. rewrite concat_eq. cbn. rewrite length_app, H1. done. Qed.

Lemma u32le_inj a b : 0 <= a < 2 ^ 32 -> 0 <= b < 2 ^ 32 -> u32le a = u32le b -> a = b.
Proof.
  intros Ha Hb Eq. pose proof (read_u32_app a [] Ha) as R. rewrite Eq, read_u32_app in R by done. by injection R.
Qed.

Lemma parsed_ext tx1 tx2 : tx_version tx1 = tx_version tx2 -> tx_inputs tx1 = tx_inputs tx2 ->
  tx_outputs tx1 = tx_outputs tx2 -> tx_locktime tx1 = tx_locktime tx2 -> tx1 = tx2.
Proof. destruct tx1, tx2. cbn. congruence. Qed.

Section Digest.
Context `{N : Noble, !NobleLaws N}.

(** Two different messages with the same double SHA-256. *)
Definition collide (a b : bytes) : Prop := a <> b /\ hash256 a = hash256 b.

Lemma hash256_eq a b : hash256 a = hash256 b -> a = b \/ collide a b.
Proof using. intros Eq. destruct (decide (a = b)); [by left|right; split; done]. Qed.

Lemma length_hash256 l : length (hash256 l) = 32%nat.
Proof using NobleLaws0. apply noble_sha256_length. Qed.

Lemma length_script_code pk : length (script (p2wpkhCode pk)) = 26%nat.
Proof using NobleLaws0.
  assert (length (p2wpkhCode pk) = 25%nat) as Hp.
  { unfold p2wpkhCode, hash160. rewrite concat_eq. cbn [mjoin list_join]. rewrite !length_app, noble_ripemd160_length. done. }
  unfold script. rewrite concat_eq, Hp. cbn [mjoin list_join]. rewrite !length_app, Hp. done.
Qed.

Lemma script_code_inj p q : script (p2wpkhCode p) = script (p2wpkhCode q) -> hash160 p = hash160 q.
Proof using NobleLaws0.
  assert (forall pk, script (p2wpkhCode pk) = [x19; x76; xa9; x14] ++ hash160 pk ++ [x88; xac]) as Hs.
  { intros pk. unfold script. assert (length (p2wpkhCode pk) = 25%nat) as ->.
    { unfold p2wpkhCode, hash160. rewrite concat_eq. cbn [mjoin list_join].
      rewrite !length_app, noble_ripemd160_length. done. }
    unfold p2wpkhCode. rewrite !concat_eq. cbn [mjoin list_join]. by rewrite !app_nil_r. }
  rewrite !Hs. intros Eq. apply app_inj_length in Eq as [_ Eq]; [|done].
  apply app_inj_length in Eq as [Eq _]; [done|]. unfold hash160. by rewrite !noble_ripemd160_length.
Qed.

(** The inputs of the inner hashes. *)
Definition prevouts (tx : ParsedTx) : bytes := concat (outpoint <$> tx_inputs tx).
Definition sequences (tx : ParsedTx) : bytes := concat ((fun i => u32le (ti_sequence i)) <$> tx_inputs tx).
Definition outputs_bytes (tx : ParsedTx) : bytes := concat (output <$> tx_outputs tx).

Lemma inputs_inj tx1 tx2 : valid_parsed tx1 -> valid_parsed tx2 ->
  prevouts tx1 = prevouts tx2 -> sequences tx1 = sequences tx2 -> tx_inputs tx1 = tx_inputs tx2.
Proof using.
  intros [_ (_ & H1 & _) _ _] [_ (_ & H2 & _) _ _] Ep Es. unfold prevouts, sequences in *. rewrite !concat_eq in Ep, Es.
  apply (mjoin_read_inj outpoint read_outpoint (fun i => (txid i, ti_index i))) in Ep.
  2: { intros x E0. unfold outpoint in E0. rewrite concat_eq in E0. cbn [mjoin list_join] in E0.
       apply app_eq_nil in E0 as [_ E0]. by apply app_eq_nil in E0 as [E0 _]. }
  2,3: eapply Forall_impl; [eassumption|]; intros i Hi s; by apply outpoint_app.
  apply (mjoin_read_inj (fun i => u32le (ti_sequence i)) read_u32 ti_sequence) in Es.
  2: { done. }
  2,3: eapply Forall_impl; [eassumption|]; intros i [] s; by apply read_u32_app.
  clear -Ep Es. revert Ep Es. generalize (tx_inputs tx2). induction (tx_inputs tx1) as [|i l IH]; intros [|j k] Ep Es; try done.
  cbn in Ep, Es. injection Ep as E1 E2 E3. injection Es as E4 E5. f_equal; [|by apply IH].
  destruct i, j. cbn in *. by subst.
Qed.

Lemma outputs_inj tx1 tx2 : valid_parsed tx1 -> valid_parsed tx2 ->
  outputs_bytes tx1 = outputs_bytes tx2 -> tx_outputs tx1 = tx_outputs tx2.
Proof using.
  intros [_ _ (_ & H1 & _) _] [_ _ (_ & H2 & _) _] Eo. unfold outputs_bytes in Eo. rewrite !concat_eq in Eo.
  apply (mjoin_read_inj output read_output id) in Eo; [by rewrite !list_fmap_id in Eo|apply output_nonempty| |].
  all: eapply Forall_impl; [eassumption|]; intros o Ho s; by apply output_app.
Qed.

(** The ten fields of the preimage. *)
Lemma preimage_fields tx1 i1 pk1 v1 tx2 i2 pk2 v2 :
  valid_parsed tx1 -> valid_parsed tx2 -> valid_input i1 -> valid_input i2 -> 0 <= v1 < 2 ^ 64 -> 0 <= v2 < 2 ^ 64 ->
  sighash_preimage tx1 i1 pk1 v1 = sighash_preimage tx2 i2 pk2 v2 ->
  tx_version tx1 = tx_version tx2 /\ hash256 (prevouts tx1) = hash256 (prevouts tx2) /\
  hash256 (sequences tx1) = hash256 (sequences tx2) /\ i1 = i2 /\ hash160 pk1 = hash160 pk2 /\ v1 = v2 /\
  hash256 (outputs_bytes tx1) = hash256 (outputs_bytes tx2) /\ tx_locktime tx1 = tx_locktime tx2.
Proof using NobleLaws0.
  intros V1 V2 I1 I2 B1 B2 Eq. pose proof V1 as [Hv1 _ _ Hl1]. pose proof V2 as [Hv2 _ _ Hl2].
  unfold sighash_preimage in Eq. rewrite !concat_eq in Eq. cbn [mjoin list_join] in Eq.
  rewrite <- !concat_eq in Eq.
  apply app_inj_length in Eq as [E1 Eq]; [|done]. apply app_inj_length in Eq as [E2 Eq]; [|by rewrite !length_hash256].
  apply app_inj_length in Eq as [E3 Eq]; [|by rewrite !length_hash256].
  apply app_inj_length in Eq as [E4 Eq]; [|by rewrite !length_outpoint].
  apply app_inj_length in Eq as [E5 Eq]; [|by rewrite !length_script_code].
  apply app_inj_length in Eq as [E6 Eq]; [|by rewrite (proj1 (u64le_spec v1 B1)), (proj1 (u64le_spec v2 B2))].
  apply app_inj_length in Eq as [E7 Eq]; [|done]. apply app_inj_length in Eq as [E8 Eq]; [|by rewrite !length_hash256].
  apply app_inj_length in Eq as [E9 _]; [|done].
  assert (i1 = i2) as Ei.
  { pose proof (outpoint_app i1 [] I1) as R. rewrite E4, outpoint_app in R by done. injection R as Ra Rb.
    destruct I1 as [_ _ S1], I2 as [_ _ S2]. apply u32le_inj in E7; [|done..]. destruct i1, i2. cbn in *. by subst. }
  split_and!; try done.
  - by apply u32le_inj.
  - by apply script_code_inj.
  - rewrite <- (proj2 (u64le_spec v1 B1)), <- (proj2 (u64le_spec v2 B2)). by rewrite E6.
  - by apply u32le_inj.
Qed.

(** a BIP-143 digest commits to the whole transaction.  If two digests
    are equal, they are for the same version, inputs, outputs and locktime,
    the same input, the same spent value and the same public-key hash; or two
    different messages among the preimages, outpoint lists, sequence lists and
    output lists have the same double SHA-256. *)
Theorem sighash_binds_transaction tx1 i1 pk1 v1 tx2 i2 pk2 v2 :
  valid_parsed tx1 -> valid_parsed tx2 -> i1 ∈ tx_inputs tx1 -> i2 ∈ tx_inputs tx2 ->
  0 <= v1 < 2 ^ 64 -> 0 <= v2 < 2 ^ 64 ->
  sighash tx1 i1 pk1 v1 = sighash tx2 i2 pk2 v2 ->
  (tx1 = tx2 /\ i1 = i2 /\ v1 = v2 /\ hash160 pk1 = hash160 pk2) \/
  collide (sighash_preimage tx1 i1 pk1 v1) (sighash_preimage tx2 i2 pk2 v2) \/
  collide (prevouts tx1) (prevouts tx2) \/ collide (sequences tx1) (sequences tx2) \/
  collide (outputs_bytes tx1) (outputs_bytes tx2).
Proof using NobleLaws0.
  intros V1 V2 I1 I2 B1 B2 Eq. unfold sighash in Eq. apply hash256_eq in Eq as [Eq|]; [|by right; left].
  pose proof V1 as [_ (_ & F1 & _) _ _]. pose proof V2 as [_ (_ & F2 & _) _ _].
  rewrite Forall_forall in F1. rewrite Forall_forall in F2.
  destruct (preimage_fields _ _ _ _ _ _ _ _ V1 V2 (F1 _ I1) (F2 _ I2) B1 B2 Eq)
    as (E1 & E2 & E3 & E4 & E5 & E6 & E7 & E8).
  apply hash256_eq in E2 as [E2|]; [|by do 2 right; left]. apply hash256_eq in E3 as [E3|]; [|by do 3 right; left].
  apply hash256_eq in E7 as [E7|]; [|by do 4 right]. left. split_and!; try done.
  apply parsed_ext; [done|by apply inputs_inj|by apply outputs_inj|done].
Qed.
End Digest.

(** ** What the parser returns *)

Lemma bytesN_ok n s l r : bytesN n s = Ok (l, r) -> 0 <= n -> Z.of_nat (length l) = n /\ s = l ++ r.
Proof.
  unfold bytesN. intros Hb Hn. res_inv Hb. bool_prop. simplify_eq. split; [rewrite length_take; lia|].
  symmetry. apply take_drop.
Qed.

Section Policy.
Context `{N : Noble, !NobleLaws N, S : Scure}.

(** An authorized deposit: what the outputs of the transaction do. *)
Record btc_deposit (trigger : DepositAddressTrigger) (attestation : DepositAddressTriggerAttestation)
    (data : BitcoinVmTransaction) (tx : ParsedTx) (scripts refunds : list bytes) (amount : Z) : Prop := {
  bd_parsed : parseTx (bt_unsignedTransaction data) = Ok tx;
  bd_native : exists c, normalizeBitcoinAddressHex (in_currency (tr_input trigger)) = Ok c /\ BTC_NATIVE = Ok c;
  bd_scripts : depositoryScripts (ta_inputDepository attestation) = Ok scripts /\
               refundScripts (df_refundRecipient (tr_derivationFields trigger)) = Ok refunds;
  bd_amount : BigInt (in_amount (tr_input trigger)) = Ok amount /\
    foldr Z.add 0 (to_value <$> filter (fun o => to_script o ∈ scripts) (tx_outputs tx)) = amount;
  bd_rest : Forall (fun o => to_script o ∈ scripts \/ to_script o ∈ refunds \/
                             exists text, opReturn (to_script o) = Some text) (tx_outputs tx);
  bd_memo : exists o rest d enc, o ∈ tx_outputs tx /\ opReturn (to_script o) = Some (tr_orderId trigger ++ rest) /\
    DEPOSITOR_RE (tr_orderId trigger ++ rest) = Some d /\ encodeBitcoinAddressToHex d = Ok enc /\
    toLowerCase enc = toLowerCase (df_depositor (tr_derivationFields trigger));
  bd_counts : length (bt_sighashes data) = length (tx_inputs tx) /\
              length (bt_inputValues data) = length (tx_inputs tx) }.

Lemma equal_iff a b : equal a b = true <-> a = b.
Proof using.
  unfold equal. rewrite andb_true_iff, Nat.eqb_eq, bool_decide_eq_true. naive_solver.
Qed.

Lemma pays_iff scripts o : pays scripts o = true <-> to_script o ∈ scripts.
Proof using.
  unfold pays. rewrite existsb_exists. split.
  - intros (s & Hs & He). apply equal_iff in He as <-. by apply list_elem_of_In.
  - intros Ho. exists (to_script o). split; [by apply list_elem_of_In|by apply equal_iff].
Qed.

Lemma depository_sum_eq scripts outputs :
  depository_sum scripts outputs = foldr Z.add 0 (to_value <$> filter (fun o => to_script o ∈ scripts) outputs).
Proof using.
  assert (forall acc, foldl (fun sum o => sum + (if pays scripts o then to_value o else 0)) acc outputs =
    acc + foldr Z.add 0 (to_value <$> filter (fun o => to_script o ∈ scripts) outputs)) as Ha; [|apply Ha].
  induction outputs as [|o os IH]; intros acc; [cbn; lia|]. cbn [foldl]. rewrite IH, filter_cons.
  destruct (pays scripts o) eqn:Ep.
  - apply pays_iff in Ep. rewrite decide_True by done. cbn [fmap list_fmap foldr]. lia.
  - rewrite decide_False by (intros Hc; apply pays_iff in Hc; congruence). lia.
Qed.

Lemma no_invalid_change scripts refunds outputs :
  existsb (invalid_change scripts refunds) outputs = false ->
  Forall (fun o => to_script o ∈ scripts \/ to_script o ∈ refunds \/ exists text, opReturn (to_script o) = Some text) outputs.
Proof using.
  induction outputs as [|o os IH]; [constructor|]. cbn [existsb]. intros [Ho Hos]%orb_false_iff.
  constructor; [|by apply IH]. unfold invalid_change in Ho.
  destruct (pays scripts o) eqn:Ep; [left; by apply pays_iff|]. cbn in Ho.
  destruct (opReturn (to_script o)) as [t|] eqn:Eo; [right; right; eauto|]. cbn in Ho.
  destruct (pays refunds o) eqn:Er; [right; left; by apply pays_iff|done].
Qed.

Lemma find_metadata_sound orderId outputs t :
  find_metadata orderId ((fun o => opReturn (to_script o)) <$> outputs) = Some t ->
  exists o rest, o ∈ outputs /\ opReturn (to_script o) = Some t /\ t = orderId ++ rest.
Proof using.
  induction outputs as [|o os IH]; [done|]. cbn [fmap list_fmap find_metadata].
  destruct (opReturn (to_script o)) as [u|] eqn:Eo.
  - destruct (startsWith u orderId) eqn:Es.
    + intros [= ->]. unfold startsWith in Es. apply bool_decide_eq_true in Es.
      exists o, (drop (length orderId) t). split; [left|]. split; [done|]. rewrite <- Es at 1. by rewrite take_drop.
    + intros Ht. destruct (IH Ht) as (o' & r & Hi & H'). exists o', r. split; [by right|done].
  - intros Ht. destruct (IH Ht) as (o' & r & Hi & H'). exists o', r. split; [by right|done].
Qed.

Lemma btc_policy_sound trigger attestation txs : btc_verifyTransactions trigger attestation txs = Ok tt ->
  exists data tx scripts refunds amount, txs = [data] /\ btc_deposit trigger attestation data tx scripts refunds amount.
Proof using.
  unfold btc_verifyTransactions. destruct txs as [|data [|]]; [done| |done].
  unfold assertBitcoinDepositTransaction. intros Hv. res_inv Hv. bool_prop. subst.
  match goal with Hm : find_metadata _ _ = Some _ |- _ => apply find_metadata_sound in Hm as (o & rest & Hin & Ho & ->) end.
  match goal with Hc : assertCounts _ _ = Ok _ |- _ => unfold assertCounts in Hc; res_inv Hc; bool_prop end.
  match goal with Hs : depositoryScripts _ = Ok ?s, Hr : refundScripts _ = Ok ?r, Hp : parseTx _ = Ok ?t |- _ =>
    exists data, t, s, r, (depository_sum s (tx_outputs t)) end.
  split; [done|]. split; try done.
  - eauto.
  - split; [done|]. by rewrite depository_sum_eq.
  - by apply no_invalid_change.
  - eauto 10.
Qed.

(** what an authorized Bitcoin sweep does.  The policy accepts one
    transaction, for native BTC, in which the values of the outputs that pay
    the attested depository add up to exactly [trigger.input.amount], every
    other output pays the trigger's refund recipient or is an OP_RETURN, and
    one OP_RETURN text starts with the order id and names the trigger's
    depositor.  Every digest the wallet then signs is the BIP-143 digest of
    that very transaction at its input, with the spent value supplied for it,
    one per input. *)
Theorem bitcoin_sweep_pays_depository trigger attestation txs pubkey :
  btc_verifyTransactions trigger attestation txs = Ok tt ->
  exists data tx scripts refunds amount, txs = [data] /\ btc_deposit trigger attestation data tx scripts refunds amount /\
    forall digests, signableBitcoinDigests data pubkey = Ok digests ->
      length digests = length (tx_inputs tx) /\
      forall i input d, tx_inputs tx !! i = Some input -> digests !! i = Some d ->
        exists text value, bt_inputValues data !! i = Some text /\ BigInt text = Ok value /\
          d = sighash tx input pubkey value.
Proof using.
  intros Hv. destruct (btc_policy_sound _ _ _ Hv) as (data & tx & sc & rf & am & -> & Hd).
  exists data, tx, sc, rf, am. split; [done|]. split; [done|]. intros digests Hg.
  unfold signableBitcoinDigests in Hg. rewrite (bd_parsed _ _ _ _ _ _ _ Hd) in Hg. cbn [mbind result_bind] in Hg.
  apply bind_ok in Hg as (u & _ & Hg). apply mapM_idx_ok in Hg as [Hl Hg]. split; [done|].
  intros i input d Hi Hdi. specialize (Hg i input d Hi Hdi). cbn [Nat.add] in Hg. unfold check_digest in Hg.
  res_inv Hg. bool_prop.
  match goal with He : equal _ _ = true |- _ => apply equal_iff in He end. eauto.
Qed.
End Policy.

(** [parseTx] reads every unsigned transaction back.  The serialization
    of a transaction, with arbitrary signature scripts, without or with the
    segwit marker and empty witnesses, parses to exactly its version, inputs,
    outputs and locktime. *)
Theorem bitcoin_parse_roundtrip `{N : Noble} `{!NobleLaws N} segwit sigs tx :
  valid_parsed tx -> length sigs = length (tx_inputs tx) ->
  Forall (fun s => Z.of_nat (length s) <= MAX_SAFE_INTEGER) sigs ->
  parseTx (js "0x" ++ HexBytes.bytesToHex (serialize segwit sigs tx)) = Ok tx.
Proof. apply parse_serialized. Qed.

(** ** A concrete sweep *)

(** Addresses [bc1q<text>] for the witness program [<text>]. *)
Definition toy_scure : Scure := {|
  base58_decode := fun _ => throw "unused"; base58_encode := fun _ => [];
  bech32_decode := fun s => Ok (js "bc", 0 :: drop 4 s);
  bech32m_decode := fun _ => throw "unused";
  bech32_encode := fun hrp ws => Ok (hrp ++ js "1q" ++ drop 1 ws);
  bech32m_encode := fun _ _ => throw "unused";
  bech32_fromWords := fun ws => Ok (Uint8Array_from ws);
  bech32_toWords := fun l => bz <$> l |}.

Definition btc_hex (program : bytes) : jsstring := js "0x" ++ HexBytes.bytesToHex (x00 :: program).
Definition btc_script (program : bytes) : bytes := [x00; u8 (Z.of_nat (length program))] ++ program.
Definition memo : bytes := TextEncoder_encode (js "0xid|depositor=bc1qabc|").

Definition btc_tx : ParsedTx := {|
  tx_version := 2; tx_locktime := 500;
  tx_inputs := [{| txid := replicate 32 x11; ti_index := 1; ti_sequence := 0xfffffffd |}];
  tx_outputs := [{| to_value := 1000; to_script := btc_script (replicate 20 x61) |};
                 {| to_value := 0; to_script := [x6a; u8 (Z.of_nat (length memo))] ++ memo |};
                 {| to_value := 77; to_script := btc_script (replicate 20 x62) |}] |}.

Lemma btc_tx_valid : valid_parsed btc_tx.
Proof.
  split; cbn [btc_tx tx_version tx_inputs tx_outputs tx_locktime]; [lia| | |lia]; (split; [done|split; [|done]]).
  - repeat constructor; cbn; try lia; done.
  - repeat constructor; vm_compute; congruence.
Qed.

Definition btc_trigger : DepositAddressTrigger := {|
  tr_input := {| in_vmType := js "bitcoin-vm"; in_chainId := js "bitcoin";
                 in_currency := btc_hex (TextEncoder_encode (drop 4 (js "bc1qqqqqqqqqqqqqqqqqqqqqqqqqqqqqqqqmql8k8")));
                 in_amount := js "1000" |};
  tr_derivationFields := {|
    df_inputVmType := js "bitcoin-vm"; df_outputVmType := js "ethereum-vm"; df_outputChainId := js "base";
    df_outputCurrency := []; df_outputRecipient := []; df_solver := []; df_pricingOracle := [];
    df_depositor := btc_hex [x61; x62; x63]; df_refundRecipient := btc_hex (replicate 20 x62);
    df_priceImpactBps := js "0"; df_salt := js "0" |};
  tr_orderId := js "0xid"; tr_nonce := js "1"; tr_currencies := []; tr_prices := []; tr_extraData := [] |}.
Definition btc_attestation : DepositAddressTriggerAttestation := {|
  ta_chainId := 1; ta_depositAddressManager := []; ta_inputDepository := btc_hex (replicate 20 x61);
  ta_triggerHash := []; ta_signatures := [] |}.
Definition btc_data : BitcoinVmTransaction := {|
  bt_unsignedTransaction := js "0x" ++ HexBytes.bytesToHex (serialize true [[]] btc_tx);
  bt_inputValues := [js "2000"]; bt_sighashes := [js "0x00"] |}.

Lemma bitcoin_sweep_witness :
  exists data tx scripts refunds amount, [btc_data] = [data] /\
    @btc_deposit toy_noble toy_scure btc_trigger btc_attestation data tx scripts refunds amount.
Proof.
  destruct (@bitcoin_sweep_pays_depository toy_noble toy_scure btc_trigger btc_attestation [btc_data] (replicate 33 x02))
    as (data & tx & sc & rf & am & E1 & E2 & _); [vm_compute; reflexivity|].
  exists data, tx, sc, rf, am. split; [exact E1|exact E2].
Defined.

Lemma bitcoin_parse_witness :
  @parseTx toy_noble (js "0x" ++ HexBytes.bytesToHex (serialize false [[x51; x52]] btc_tx)) = Ok btc_tx.
Proof.
  apply (@bitcoin_parse_roundtrip toy_noble toy_noble_laws false [[x51; x52]] btc_tx btc_tx_valid);
    [reflexivity|]. constructor; [vm_compute; congruence|constructor].
Defined.

Lemma sighash_binds_witness :
  let i := {| txid := replicate 32 x11; ti_index := 1; ti_sequence := 0xfffffffd |} in
  (btc_tx = btc_tx /\ i = i /\ 2000 = 2000 /\ @hash160 toy_noble [x02] = @hash160 toy_noble [x02]) \/
  @collide toy_noble (@sighash_preimage toy_noble btc_tx i [x02] 2000) (@sighash_preimage toy_noble btc_tx i [x02] 2000) \/
  @collide toy_noble (prevouts btc_tx) (prevouts btc_tx) \/ @collide toy_noble (sequences btc_tx) (sequences btc_tx) \/
  @collide toy_noble (outputs_bytes btc_tx) (outputs_bytes btc_tx).
Proof.
  cbv zeta. apply (@sighash_binds_transaction toy_noble toy_noble_laws btc_tx
    {| txid := replicate 32 x11; ti_index := 1; ti_sequence := 0xfffffffd |} [x02] 2000 btc_tx
    {| txid := replicate 32 x11; ti_index := 1; ti_sequence := 0xfffffffd |} [x02] 2000
    btc_tx_valid btc_tx_valid); [left|left|lia|lia|reflexivity].
Defined.

(** The UTF-8 decoder on well-formed and malformed input. *)
Example decode_euro : TextDecoder_decode (TextEncoder_encode [0x20ac; 0xd83d; 0xde00; 65]) = [0x20ac; 0xd83d; 0xde00; 65].
Proof. reflexivity. Qed.
Example decode_malformed : TextDecoder_decode [xe2; x82; x41; xff; xc3] = [0xfffd; 65; 0xfffd; 0xfffd].
Proof. reflexivity. Qed.
