(* ===== verification/SolanaTx.v ===== *)
(** * Solana deposit transactions

    packages/lit-deposit-address/src/derivation/vm/solana/
    SolanaVmWalletDeriver.ts: the parser of compiled messages, the deposit
    policy and the signer.  The parser is shown to accept exactly a
    declarative grammar of messages, and the sweep to pay the depository. *)

From Stdlib Require Import Strings.Byte.
From S2P Require Import Prelude JsNum JsString HexBytes DepositBytes DepositTypes TonDeriver BitcoinProofs.
Local Open Scope Z_scope.
Local Open Scope js_scope.

(** ** Data *)

Record SolanaVmTransaction := { sv_message : jsstring }.
Record SolanaVmSignedTransaction := { sv_signature : jsstring; sv_rawTransaction : jsstring }.

Record ParsedSolanaInstruction := {
  ix_programIdIndex : Z;
  ix_accountIndexes : list Z;
  ix_data : bytes;
}.
Record ParsedSolanaMessage := {
  sm_numRequiredSignatures : Z;
  sm_staticAccountKeys : list bytes;
  sm_instructions : list ParsedSolanaInstruction;
}.

Definition DEPOSIT_NATIVE_DISCRIMINATOR : bytes := [x0d; x9e; x0d; xdf; x5f; xd5; x1c; x06].
Definition DEPOSIT_TOKEN_DISCRIMINATOR : bytes := [x0b; x9c; x60; xda; x27; xa3; xb4; x13].

Definition ANCHOR_SENDER_INDEX : nat := 1.
Definition NATIVE_ACCOUNT_DEPOSITOR_INDEX : nat := 2.
Definition NATIVE_ACCOUNT_COUNT : nat := 5.
Definition TOKEN_ACCOUNT_DEPOSITOR_INDEX : nat := 2.
Definition TOKEN_ACCOUNT_MINT_INDEX : nat := 4.
Definition TOKEN_ACCOUNT_COUNT : nat := 10.
Definition MAX_REQUIRED_SIGNATURES : Z := 2.
Definition SIGNATURE_LEN : nat := 64.
Definition DEPOSIT_ARGS_LEN : nat := 48.
Definition PUBKEY_LEN : nat := 32.

(** ** [ByteReader]: the state is the input from [offset] on *)

Definition requireRemaining (n : nat) (s : bytes) : result unit :=
  fail_if Nat.ltb (length s) n with "solana message truncated" ;; Ok tt.

Definition read (n : nat) (s : bytes) : result (bytes * bytes) :=
  _ ← requireRemaining n s; Ok (take n s, drop n s).

Definition readByte (s : bytes) : result (Z * bytes) :=
  _ ← requireRemaining 1 s; Ok (byte_at s 0, drop 1 s).

Definition skip (n : nat) (s : bytes) : result bytes :=
  _ ← requireRemaining n s; Ok (drop n s).

(** [for (let i = 0; i < 3; i++)]; [k] counts the iterations left. *)
Fixpoint shortU16_loop (k : nat) (i value : Z) (s : bytes) : result (Z * bytes) :=
  match k with
  | O => throw "malformed shortvec"
  | S k' =>
      '(b, s) ← readByte s;
      if i <? 2 then
        let value := js_or value (js_shl (js_and b 0x7f) (i * 7)) in
        if js_and b 0x80 =? 0 then Ok (value, s) else shortU16_loop k' (i + 1) value s
      else
        fail_if negb (js_and b 0xfc =? 0) with "invalid shortvec encoding (third byte > 0x03)" ;;
        Ok (js_or value (js_shl b 14), s)
  end.
Definition readShortU16 (s : bytes) : result (Z * bytes) := shortU16_loop 3 0 0 s.

(** [for (let i = 0; i < n; i++) out.push(read1())]. *)
Fixpoint read_times {A} (read1 : bytes -> result (A * bytes)) (n : nat) (s : bytes) : result (list A * bytes) :=
  match n with
  | O => Ok ([], s)
  | S n' => '(x, s) ← read1 s; '(xs, s) ← read_times read1 n' s; Ok (x :: xs, s)
  end.

Definition read_instruction (s : bytes) : result (ParsedSolanaInstruction * bytes) :=
  '(programIdIndex, s) ← readByte s;
  '(numIxAccounts, s) ← readShortU16 s;
  '(accountIndexes, s) ← read_times readByte (Z.to_nat numIxAccounts) s;
  '(dataLen, s) ← readShortU16 s;
  '(data, s) ← read (Z.to_nat dataLen) s;
  Ok ({| ix_programIdIndex := programIdIndex; ix_accountIndexes := accountIndexes; ix_data := data |}, s).

(** The version marker: a first byte with the high bit set. *)
Definition read_version (s : bytes) : result bytes :=
  if negb (js_and (byte_at s 0) 0x80 =? 0) then
    '(b, s) ← readByte s;
    fail_if negb (js_and b 0x7f =? 0) with "unsupported solana message version" ;;
    Ok s
  else Ok s.

Definition parseSolanaCompiledMessage (s : bytes) : result ParsedSolanaMessage :=
  fail_if Nat.eqb (length s) 0 with "solana message is empty" ;;
  s ← read_version s;
  '(numRequiredSignatures, s) ← readByte s;
  s ← skip 2 s;
  '(numAccounts, s) ← readShortU16 s;
  '(staticAccountKeys, s) ← read_times (read PUBKEY_LEN) (Z.to_nat numAccounts) s;
  s ← skip 32 s;
  '(numInstructions, s) ← readShortU16 s;
  '(instructions, s) ← read_times read_instruction (Z.to_nat numInstructions) s;
  Ok {| sm_numRequiredSignatures := numRequiredSignatures; sm_staticAccountKeys := staticAccountKeys;
        sm_instructions := instructions |}.

(** ** Verification helpers *)

(** The index is [undefined] when the instruction has too few accounts. *)
Definition resolveStaticKey (parsed : ParsedSolanaMessage) (index : option Z) (field : string) : result bytes :=
  index ← require index "undefined";
  fail_if Z.of_nat (length (sm_staticAccountKeys parsed)) <=? index
    with (field +:+ " references an account outside the static account keys") ;;
  require (sm_staticAccountKeys parsed !! Z.to_nat index) "undefined".

Definition isZeroBytes (l : bytes) : bool := forallb (fun b => bz b =? 0) l.

Section Solana.
Context `{N : Noble, H : Host, E : Ed25519}.

Definition sol_hex32Bytes (hex : jsstring) (field : string) : result bytes :=
  l ← hexToBytes hex field;
  fail_if negb (Nat.eqb (length l) PUBKEY_LEN) with (field +:+ " must be 32 bytes") ;;
  Ok l.

Definition verifyDepositNative (parsed : ParsedSolanaMessage) (ix : ParsedSolanaInstruction)
    (expectedDepositor : bytes) (expectedAmount : Z) (expectedOrderId : bytes) : result unit :=
  fail_if negb (Nat.eqb (length (ix_data ix)) DEPOSIT_ARGS_LEN) with "deposit_native: instruction data must be 48 bytes" ;;
  fail_if negb (equalBytes (take 8 (ix_data ix)) DEPOSIT_NATIVE_DISCRIMINATOR)
    with "instruction discriminator does not match deposit_native" ;;
  fail_if negb (Nat.eqb (length (ix_accountIndexes ix)) NATIVE_ACCOUNT_COUNT)
    with "deposit_native must reference exactly 5 accounts" ;;
  depositor ← resolveStaticKey parsed (ix_accountIndexes ix !! NATIVE_ACCOUNT_DEPOSITOR_INDEX) "deposit_native.depositor";
  fail_if negb (equalBytes depositor expectedDepositor) with "deposit_native.depositor mismatch" ;;
  let amount := bytesToNumberLE (take 8 (drop 8 (ix_data ix))) in
  fail_if negb (amount =? expectedAmount) with "deposit_native.amount mismatch" ;;
  let id := take 32 (drop 16 (ix_data ix)) in
  fail_if negb (equalBytes id expectedOrderId) with "deposit_native.id mismatch" ;;
  Ok tt.

Definition verifyDepositToken (parsed : ParsedSolanaMessage) (ix : ParsedSolanaInstruction)
    (expectedDepositor : bytes) (expectedAmount : Z) (expectedOrderId expectedMint : bytes) : result unit :=
  fail_if negb (Nat.eqb (length (ix_data ix)) DEPOSIT_ARGS_LEN) with "deposit_token: instruction data must be 48 bytes" ;;
  fail_if negb (equalBytes (take 8 (ix_data ix)) DEPOSIT_TOKEN_DISCRIMINATOR)
    with "instruction discriminator does not match deposit_token" ;;
  fail_if negb (Nat.eqb (length (ix_accountIndexes ix)) TOKEN_ACCOUNT_COUNT)
    with "deposit_token must reference exactly 10 accounts" ;;
  depositor ← resolveStaticKey parsed (ix_accountIndexes ix !! TOKEN_ACCOUNT_DEPOSITOR_INDEX) "deposit_token.depositor";
  fail_if negb (equalBytes depositor expectedDepositor) with "deposit_token.depositor mismatch" ;;
  mint ← resolveStaticKey parsed (ix_accountIndexes ix !! TOKEN_ACCOUNT_MINT_INDEX) "deposit_token.mint";
  fail_if negb (equalBytes mint expectedMint) with "deposit_token.mint mismatch" ;;
  let amount := bytesToNumberLE (take 8 (drop 8 (ix_data ix))) in
  fail_if negb (amount =? expectedAmount) with "deposit_token.amount mismatch" ;;
  let id := take 32 (drop 16 (ix_data ix)) in
  fail_if negb (equalBytes id expectedOrderId) with "deposit_token.id mismatch" ;;
  Ok tt.

(** [SolanaVmWalletDeriver.verifyTransactions]. *)
Definition sol_verifyTransactions (trigger : DepositAddressTrigger) (attestation : DepositAddressTriggerAttestation)
    (transactions : list SolanaVmTransaction) : result unit :=
  match transactions with
  | [tx] =>
      message ← base64ToBytes (sv_message tx);
      parsed ← parseSolanaCompiledMessage message;
      fail_if (sm_numRequiredSignatures parsed <? 1) || (MAX_REQUIRED_SIGNATURES <? sm_numRequiredSignatures parsed)
        with "numRequiredSignatures must be 1 or 2" ;;
      match sm_instructions parsed with
      | [ix] =>
          let expectedSenderSlot := sm_numRequiredSignatures parsed - 1 in
          let actualSenderSlot := ix_accountIndexes ix !! ANCHOR_SENDER_INDEX in
          fail_if negb (bool_decide (actualSenderSlot = Some expectedSenderSlot))
            with "instruction sender slot must be the deposit wallet" ;;
          expectedProgram ← sol_hex32Bytes (ta_inputDepository attestation) "attestation.inputDepository";
          programKey ← resolveStaticKey parsed (Some (ix_programIdIndex ix)) "instruction.programIdIndex";
          fail_if negb (equalBytes programKey expectedProgram) with "instruction program mismatch" ;;
          expectedDepositor ← sol_hex32Bytes (df_depositor (tr_derivationFields trigger))
                                "trigger.derivationFields.depositor";
          expectedAmount ← BigInt (in_amount (tr_input trigger));
          expectedOrderId ← sol_hex32Bytes (tr_orderId trigger) "trigger.orderId";
          currencyBytes ← sol_hex32Bytes (in_currency (tr_input trigger)) "trigger.input.currency";
          if isZeroBytes currencyBytes then
            verifyDepositNative parsed ix expectedDepositor expectedAmount expectedOrderId
          else verifyDepositToken parsed ix expectedDepositor expectedAmount expectedOrderId currencyBytes
      | _ => throw "solana deposit message must contain exactly 1 instruction"
      end
  | _ => throw "solana deposit requires exactly 1 transaction"
  end.

(** [SolanaVmWalletDeriver.signTransactionWithKey]. *)
Definition sol_signTransactionWithKey (privateKey : bytes) (transaction : SolanaVmTransaction)
  : result SolanaVmSignedTransaction :=
  messageBytes ← base64ToBytes (sv_message transaction);
  fail_if Nat.eqb (length messageBytes) 0 with "solana transaction message is empty" ;;
  parsed ← parseSolanaCompiledMessage messageBytes;
  fail_if (sm_numRequiredSignatures parsed <? 1) || (MAX_REQUIRED_SIGNATURES <? sm_numRequiredSignatures parsed)
    with "only 1 or 2 required signatures are supported" ;;
  let walletSlot := Z.to_nat (sm_numRequiredSignatures parsed - 1) in
  walletPubkey ← bip32_getPublicKey privateKey;
  slotKey ← require (sm_staticAccountKeys parsed !! walletSlot) "undefined";
  fail_if negb (equalBytes slotKey walletPubkey) with "deposit wallet must occupy the last signer slot" ;;
  signature ← signEd25519Bip32 messageBytes privateKey;
  let sigs := set_at (zeros (Z.to_nat (sm_numRequiredSignatures parsed) * SIGNATURE_LEN))
                (walletSlot * SIGNATURE_LEN) signature in
  let rawTransaction := HexBytes.concatBytes [[u8 (sm_numRequiredSignatures parsed)]; sigs; messageBytes] in
  Ok {| sv_signature := js "0x" ++ bytesToHex signature; sv_rawTransaction := bytesToBase64 rawTransaction |}.
End Solana.

(** ** Compiled Solana messages and what a sweep signs

    A declarative grammar of compiled messages, the parser's equivalence with
    it, and the deposit a signed message makes. *)

Local Open Scope Z_scope.
Local Open Scope js_scope.

(** ** The grammar *)

(** [shortvec v l]: [l] is an encoding of [v] in groups of seven bits, low
    group first, of at most three bytes. *)
Inductive shortvec : Z -> bytes -> Prop :=
  | shortvec1 b0 : bz b0 < 128 -> shortvec (bz b0) [b0]
  | shortvec2 b0 b1 : 128 <= bz b0 -> bz b1 < 128 -> shortvec (bz b0 - 128 + bz b1 * 128) [b0; b1]
  | shortvec3 b0 b1 b2 : 128 <= bz b0 -> 128 <= bz b1 -> bz b2 < 4 ->
      shortvec (bz b0 - 128 + (bz b1 - 128) * 128 + bz b2 * 16384) [b0; b1; b2].

Inductive instruction_layout : ParsedSolanaInstruction -> bytes -> Prop :=
  | instruction_bytes program accounts data na nd :
      shortvec (Z.of_nat (length accounts)) na -> shortvec (Z.of_nat (length data)) nd ->
      instruction_layout
        {| ix_programIdIndex := bz program; ix_accountIndexes := bz <$> accounts; ix_data := data |}
        ([program] ++ na ++ accounts ++ nd ++ data).

(** A message: an optional version-0 marker, the header, the account keys, the
    blockhash, the instructions, and what follows them. *)
Inductive message_layout : ParsedSolanaMessage -> bytes -> Prop :=
  | message_bytes marker n readonlySigned readonlyUnsigned nk keys blockhash ni ixs parts trailing :
      (marker = [x80] \/ marker = [] /\ bz n < 128) ->
      shortvec (Z.of_nat (length keys)) nk -> Forall (fun k => length k = 32%nat) keys ->
      length blockhash = 32%nat ->
      shortvec (Z.of_nat (length ixs)) ni -> Forall2 instruction_layout ixs parts ->
      message_layout
        {| sm_numRequiredSignatures := bz n; sm_staticAccountKeys := keys; sm_instructions := ixs |}
        (marker ++ [n; readonlySigned; readonlyUnsigned] ++ nk ++ mjoin keys ++ blockhash ++ ni ++ mjoin parts ++ trailing).

(** ** Readers *)

(** [reads read1 G]: [read1] takes off the front exactly the texts [G]
    describes, and returns what they mean. *)
Definition reads {A} (read1 : bytes -> result (A * bytes)) (G : A -> bytes -> Prop) : Prop :=
  forall s x r, read1 s = Ok (x, r) <-> exists l, G x l /\ s = l ++ r.

Lemma requireRemaining_ok n s u : requireRemaining n s = Ok u <-> (n <= length s)%nat.
Proof.
  unfold requireRemaining. destruct u. split.
  - intros H. res_inv H. apply Nat.ltb_ge in Hs. done.
  - intros H. apply Nat.ltb_ge in H. by rewrite H.
Qed.

Lemma read_reads n : reads (read n) (fun l k => k = l /\ length l = n).
Proof.
  intros s x r. unfold read. split.
  - intros H. res_inv H. apply requireRemaining_ok in Hs.
    exists (take n s). split; [split; [done|rewrite length_take; lia]|by rewrite take_drop].
  - intros (l & [-> <-] & ->). rewrite (proj2 (requireRemaining_ok _ _ tt)) by (rewrite length_app; lia).
    cbn [mbind result_bind]. by rewrite take_app_length, drop_app_length.
Qed.

Lemma readByte_reads : reads readByte (fun v l => exists b, v = bz b /\ l = [b]).
Proof.
  intros s x r. unfold readByte. split.
  - intros H. res_inv H. apply requireRemaining_ok in Hs.
    destruct s as [|b s]; [cbn in Hs; lia|]. exists [b]. split; [by exists b|]. cbn. by rewrite drop_0.
  - intros (l & (b & -> & ->) & ->). cbn. by rewrite drop_0.
Qed.

Lemma readByte_cons b s : readByte (b :: s) = Ok (bz b, s).
Proof. apply readByte_reads. exists [b]. eauto. Qed.

Lemma readByte_nil : is_ok (readByte []) = false.
Proof. done. Qed.

Lemma skip_ok n s r : skip n s = Ok r <-> exists l, length l = n /\ s = l ++ r.
Proof.
  unfold skip. split.
  - intros H. res_inv H. apply requireRemaining_ok in Hs. exists (take n s).
    split; [rewrite length_take; lia|by rewrite take_drop].
  - intros (l & <- & ->). rewrite (proj2 (requireRemaining_ok _ _ tt)) by (rewrite length_app; lia).
    cbn [mbind result_bind]. by rewrite drop_app_length.
Qed.

(** The bit tests of the reader. *)
Lemma and_7f b : js_and (bz b) 0x7f = bz b mod 128.
Proof.
  pose proof (bz_range b). unfold js_and. rewrite !to_int32_small by lia. apply (Z.land_ones (bz b) 7). lia.
Qed.
Lemma and_80 b : (js_and (bz b) 0x80 =? 0) = (bz b <? 128).
Proof. by destruct b. Qed.
Lemma and_fc b : (js_and (bz b) 0xfc =? 0) = (bz b <? 4).
Proof. by destruct b. Qed.

Lemma or_group v x k : 0 <= k <= 14 -> 0 <= v < 2 ^ k -> 0 <= x < 128 -> js_or v (js_shl x k) = v + x * 2 ^ k.
Proof.
  intros Hk Hv Hx. assert (2 ^ k <= 2 ^ 14) by (apply Z.pow_le_mono_r; lia).
  assert (0 < 2 ^ k) by (apply Z.pow_pos_nonneg; lia).
  assert (0 <= Z.shiftl x k < 2 ^ 21) as Hs by (rewrite Z.shiftl_mul_pow2 by lia; change (2 ^ 21) with (128 * 2 ^ 14); nia).
  unfold js_or, js_shl. rewrite (to_int32_small x), (Z.mod_small k) by lia.
  rewrite (to_int32_small (Z.shiftl x k)), (to_int32_small (Z.shiftl x k)), (to_int32_small v) by lia.
  apply lor_low; lia.
Qed.

(** What the three iterations compute. *)
Lemma shortU16_1 b0 s : bz b0 < 128 -> readShortU16 (b0 :: s) = Ok (bz b0, s).
Proof.
  intros H0. pose proof (bz_range b0). unfold readShortU16. cbn [shortU16_loop]. rewrite readByte_cons.
  cbn [mbind result_bind]. rewrite and_80, and_7f. zcmp. rewrite Z.mod_small by lia.
  rewrite (or_group 0) by lia. cbn [Z.ltb Z.compare]. f_equal. f_equal. lia.
Qed.

Lemma shortU16_2 b0 b1 s : 128 <= bz b0 -> bz b1 < 128 ->
  readShortU16 (b0 :: b1 :: s) = Ok (bz b0 - 128 + bz b1 * 128, s).
Proof.
  intros H0 H1. pose proof (bz_range b0). pose proof (bz_range b1).
  unfold readShortU16. cbn [shortU16_loop]. rewrite readByte_cons. cbn [mbind result_bind].
  rewrite and_80, and_7f. zcmp. change (0 <? 2) with true. cbn [mbind result_bind].
  rewrite readByte_cons. cbn [mbind result_bind]. rewrite and_80, and_7f. zcmp. change (0 + 1 <? 2) with true.
  cbn [mbind result_bind]. assert (bz b0 mod 128 = bz b0 - 128) as -> by divmod_lia.
  rewrite (Z.mod_small (bz b1)), (or_group 0), or_group by lia. f_equal. f_equal. lia.
Qed.

Lemma shortU16_3 b0 b1 b2 s : 128 <= bz b0 -> 128 <= bz b1 ->
  readShortU16 (b0 :: b1 :: b2 :: s) =
  if bz b2 <? 4 then Ok (bz b0 - 128 + (bz b1 - 128) * 128 + bz b2 * 16384, s)
  else throw "invalid shortvec encoding (third byte > 0x03)".
Proof.
  intros H0 H1. pose proof (bz_range b0). pose proof (bz_range b1). pose proof (bz_range b2).
  unfold readShortU16. cbn [shortU16_loop]. rewrite readByte_cons. cbn [mbind result_bind].
  rewrite and_80, and_7f. zcmp. change (0 <? 2) with true. cbn [mbind result_bind].
  rewrite readByte_cons. cbn [mbind result_bind]. rewrite and_80, and_7f. zcmp. change (0 + 1 <? 2) with true.
  cbn [mbind result_bind]. rewrite readByte_cons. cbn [mbind result_bind]. change (0 + 1 + 1 <? 2) with false.
  cbn [mbind result_bind]. rewrite and_fc. destruct (Z.ltb_spec (bz b2) 4); [|done]. cbn [negb check mbind result_bind].
  assert (bz b0 mod 128 = bz b0 - 128) as -> by divmod_lia. assert (bz b1 mod 128 = bz b1 - 128) as -> by divmod_lia.
  rewrite (or_group 0), (or_group _ (bz b1 - 128)), or_group by lia. f_equal. f_equal. lia.
Qed.

(** A continuation bit on the last byte of the input. *)
Lemma shortU16_short b0 s : 128 <= bz b0 -> s = [] \/ (exists b1, 128 <= bz b1 /\ s = [b1]) ->
  is_ok (readShortU16 (b0 :: s)) = false.
Proof.
  intros L0 Hs. unfold readShortU16. cbn [shortU16_loop]. rewrite readByte_cons. cbn [mbind result_bind].
  rewrite and_80. zcmp. change (0 <? 2) with true. cbn [mbind result_bind].
  destruct Hs as [->|(b1 & L1 & ->)]; [done|]. rewrite readByte_cons. cbn [mbind result_bind]. rewrite and_80. by zcmp.
Qed.

Lemma readShortU16_reads : reads readShortU16 shortvec.
Proof.
  intros s v r. split.
  - intros E. destruct s as [|b0 s]; [done|]. destruct (Z.lt_ge_cases (bz b0) 128) as [L0|L0].
    { rewrite shortU16_1 in E by done. injection E as <- <-. exists [b0]. split; [by constructor|done]. }
    destruct s as [|b1 s]; [pose proof (shortU16_short b0 [] L0 ltac:(auto)) as X; by rewrite E in X|].
    destruct (Z.lt_ge_cases (bz b1) 128) as [L1|L1].
    { rewrite shortU16_2 in E by done. injection E as <- <-. exists [b0; b1]. split; [by constructor|done]. }
    destruct s as [|b2 s]; [pose proof (shortU16_short b0 [b1] L0 ltac:(eauto)) as X; by rewrite E in X|].
    rewrite shortU16_3 in E by done. destruct (Z.ltb_spec (bz b2) 4); [|done]. injection E as <- <-.
    exists [b0; b1; b2]. split; [by constructor|done].
  - intros (l & [b0 L0|b0 b1 L0 L1|b0 b1 b2 L0 L1 L2] & ->); cbn [app].
    + by apply shortU16_1.
    + by apply shortU16_2.
    + rewrite shortU16_3 by done. by zcmp.
Qed.

Lemma read_times_reads {A} (read1 : bytes -> result (A * bytes)) G n : reads read1 G ->
  reads (read_times read1 n) (fun xs l => length xs = n /\ exists parts, Forall2 G xs parts /\ l = mjoin parts).
Proof.
  intros HG. induction n as [|n IH]; intros s xs r; cbn [read_times].
  - split.
    + intros [= <- <-]. exists []. split; [|done]. split; [done|]. by exists [].
    + intros (l & [Hn (parts & HF & ->)] & ->). destruct xs; [|done]. by inversion HF.
  - split.
    + intros H. apply bind_ok in H as ([x s1] & Hx & H). apply bind_ok in H as ([ys s2] & Hy & H).
      injection H as <- <-. apply HG in Hx as (l & Hl & ->).
      apply (IH s1 ys s2) in Hy as (k & [Hn (parts & HF & ->)] & ->).
      exists (l ++ mjoin parts). split; [|by rewrite <- app_assoc]. split; [cbn; lia|].
      exists (l :: parts). split; [by constructor|done].
    + intros (l & [Hn (parts & HF & ->)] & ->). destruct xs as [|x xs]; [done|]. inversion HF as [|? p ? ps Hx HF']; subst.
      cbn [mjoin list_join]. rewrite <- app_assoc.
      rewrite (proj2 (HG (p ++ mjoin ps ++ r) x (mjoin ps ++ r))) by eauto. cbn [mbind result_bind].
      rewrite (proj2 (IH (mjoin ps ++ r) xs r)); [done|]. exists (mjoin ps). split; [|done]. split; [cbn in Hn; lia|eauto].
Qed.

(** One step of a reading computation. *)
Lemma reads_bind {A B} (read1 : bytes -> result (A * bytes)) G (k : A -> bytes -> result B) s y : reads read1 G ->
  (read1 s ≫= (fun '(x, s) => k x s)) = Ok y <-> exists x l r, G x l /\ s = l ++ r /\ k x r = Ok y.
Proof.
  intros HG. rewrite bind_ok. split.
  - intros ([x r] & E & Hk). apply HG in E as (l & Hl & ->). eauto 10.
  - intros (x & l & r & Hl & -> & Hk). exists (x, r). split; [|done]. apply HG. eauto.
Qed.

Lemma bytes_reads n : reads (read_times readByte n) (fun v l => length l = n /\ v = bz <$> l).
Proof.
  assert (forall v parts, Forall2 (fun v l => exists b, v = bz b /\ l = [b]) v parts -> v = bz <$> mjoin parts) as H1.
  { induction 1 as [|x l v parts (b & -> & ->) _ IH]; [done|]. cbn [mjoin list_join fmap list_fmap app]. by f_equal. }
  intros s v r. rewrite (read_times_reads _ _ n readByte_reads s v r). split.
  - intros (l & [Hn (parts & HF & ->)] & ->). exists (mjoin parts). split; [|done]. apply H1 in HF. split; [|done].
    by rewrite <- Hn, HF, length_fmap.
  - intros (l & [Hn ->] & ->). exists l. split; [|done]. split; [by rewrite length_fmap|].
    exists ((fun b => [b]) <$> l). split.
    + clear Hn. induction l; constructor; eauto.
    + clear Hn. induction l as [|b l IH]; [done|]. cbn [fmap list_fmap mjoin list_join app]. by f_equal.
Qed.

Lemma keys_reads n : reads (read_times (read PUBKEY_LEN) n)
  (fun keys l => length keys = n /\ Forall (fun k => length k = 32%nat) keys /\ l = mjoin keys).
Proof.
  intros s keys r. rewrite (read_times_reads _ _ n (read_reads PUBKEY_LEN) s keys r).
  assert (forall parts, Forall2 (fun l k : bytes => k = l /\ length l = PUBKEY_LEN) keys parts <->
    parts = keys /\ Forall (fun k => length k = 32%nat) keys) as HF.
  { intros parts. split.
    - induction 1 as [|x y ? ? [-> ?] _ [-> ?]]; split; try done; constructor; done.
    - intros [-> HF]. induction HF; constructor; done. }
  split.
  - intros (l & [Hn (parts & [-> Hk]%HF & ->)] & ->). eauto 10.
  - intros (l & (Hn & Hk & ->) & ->). exists (mjoin keys). split; [|done]. split; [done|]. exists keys.
    split; [by apply HF|done].
Qed.

Lemma shortvec_nonneg v l : shortvec v l -> 0 <= v < 65536.
Proof.
  intros [b0 ?|b0 b1 ? ?|b0 b1 b2 ? ? ?]; pose proof (bz_range b0); [lia| |]; pose proof (bz_range b1); [lia|].
  pose proof (bz_range b2). lia.
Qed.

(** A reader of a counted sequence: the count, then as many items. *)
Lemma counted_reads {A B} (read1 : nat -> bytes -> result (A * bytes)) (size : A -> nat) G
    (k : A -> bytes -> result B) s y :
  (forall n, reads (read1 n) (fun x l => size x = n /\ G x l)) ->
  (readShortU16 s ≫= (fun '(n, s) => read1 (Z.to_nat n) s ≫= (fun '(x, s) => k x s))) = Ok y <->
  exists x nl l r, shortvec (Z.of_nat (size x)) nl /\ G x l /\ s = nl ++ l ++ r /\ k x r = Ok y.
Proof.
  intros HG. rewrite (reads_bind _ _ _ _ _ readShortU16_reads). split.
  - intros (n & nl & r & Hn & -> & E). rewrite (reads_bind _ _ _ _ _ (HG _)) in E.
    destruct E as (x & l & r' & [Hx Hl] & -> & E). exists x, nl, l, r'. split; [|done].
    rewrite Hx, Z2Nat.id; [done|]. apply shortvec_nonneg in Hn. lia.
  - intros (x & nl & l & r & Hn & Hl & -> & E). exists (Z.of_nat (size x)), nl, (l ++ r). split; [done|]. split; [done|].
    rewrite (reads_bind _ _ _ _ _ (HG _)). exists x, l, r. by rewrite Nat2Z.id.
Qed.

Lemma read_instruction_reads : reads read_instruction instruction_layout.
Proof.
  intros s x r. unfold read_instruction. rewrite (reads_bind _ _ _ _ _ readByte_reads).
  assert (forall n, reads (read_times readByte n) (fun v l => length v = n /\ v = bz <$> l)) as H1.
  { intros n s' v r'. rewrite (bytes_reads n s' v r'). split; intros (l & [Hl ->] & ->); exists l; rewrite length_fmap in *; done. }
  assert (forall n, reads (read n) (fun v l => length v = n /\ l = v)) as H2.
  { intros n s' v r'. rewrite (read_reads n s' v r'). split; intros (l & [? ?] & ->); eauto. }
  split.
  - intros (p & l & s1 & (b & -> & ->) & -> & E). rewrite (counted_reads _ _ _ _ _ _ H1) in E.
    destruct E as (v & na & la & s2 & Hna & -> & -> & E). rewrite (counted_reads _ _ _ _ _ _ H2) in E.
    destruct E as (d & nd & ld & s3 & Hnd & -> & -> & [= <- <-]).
    exists ([b] ++ na ++ la ++ nd ++ d). rewrite length_fmap in Hna. split; [by constructor|]. by rewrite <- !app_assoc.
  - intros (l & [p acc d na nd Hna Hnd] & ->). rewrite <- !app_assoc. exists (bz p), [p], (na ++ acc ++ nd ++ d ++ r).
    split; [eauto|]. split; [done|]. rewrite (counted_reads _ _ _ _ _ _ H1).
    exists (bz <$> acc), na, acc, (nd ++ d ++ r). rewrite length_fmap. split_and!; [done..|].
    rewrite (counted_reads _ _ _ _ _ _ H2). exists d, nd, d, r. done.
Qed.

Lemma read_version_ok s r : s <> [] ->
  read_version s = Ok r <-> s = x80 :: r \/ (s = r /\ exists n s', s = n :: s' /\ bz n < 128).
Proof.
  intros Hne. destruct s as [|b s]; [done|]. clear Hne. unfold read_version.
  change (byte_at (b :: s) 0) with (bz b). rewrite and_80. pose proof (bz_range b).
  destruct (Z.ltb_spec (bz b) 128) as [L|L]; cbn [negb].
  - split; [intros [= <-]; right; eauto|]. intros [[= -> _]|[-> _]]; [change (bz x80) with 128 in L; lia|done].
  - rewrite readByte_cons. cbn [mbind result_bind]. rewrite and_7f. split.
    + intros E. res_inv E. bool_prop. left. f_equal. apply bz_inj. change (bz x80) with 128. divmod_lia.
    + intros [[= -> ->]|[_ (n & s' & [= -> ->] & Hn)]]; [done|lia].
Qed.

Lemma message_layout_parsed msg p : parseSolanaCompiledMessage msg = Ok p <-> message_layout p msg.
Proof.
  assert (forall n, reads (read_times read_instruction n)
    (fun v l => length v = n /\ exists parts, Forall2 instruction_layout v parts /\ l = mjoin parts)) as HI
    by (intros n; apply read_times_reads, read_instruction_reads).
  unfold parseSolanaCompiledMessage. split.
  - intros E. apply bind_ok in E as (u & Hne & E). apply check_ok, negb_true_iff, Nat.eqb_neq in Hne.
    apply bind_ok in E as (s1 & Hv & E). rewrite (reads_bind _ _ _ _ _ readByte_reads) in E.
    destruct E as (n & l & s2 & (bn & -> & ->) & -> & E). apply bind_ok in E as (s3 & Hro & E).
    apply skip_ok in Hro as (ro & Hro & ->). rewrite (counted_reads _ _ _ _ _ _ keys_reads) in E.
    destruct E as (keys & nk & kl & s4 & Hnk & [Hk ->] & -> & E). apply bind_ok in E as (s5 & Hb & E).
    apply skip_ok in Hb as (blockhash & Hb & ->). rewrite (counted_reads _ _ _ _ _ _ HI) in E.
    destruct E as (ixs & ni & il & trailing & Hni & (parts & HF & ->) & -> & [= <-]).
    destruct ro as [|r1 [|r2 [|]]]; try discriminate Hro.
    apply read_version_ok in Hv; [|by intros ->].
    set (rest := nk ++ mjoin keys ++ blockhash ++ ni ++ mjoin parts ++ trailing) in *.
    destruct Hv as [->|[-> (n & s' & [= <- _] & Hn)]].
    + apply (message_bytes [x80]); auto.
    + apply (message_bytes []); auto.
  - intros [marker n r1 r2 nk keys blockhash ni ixs parts trailing Hm Hnk Hk Hb Hni HF].
    set (rest := nk ++ mjoin keys ++ blockhash ++ ni ++ mjoin parts ++ trailing).
    assert (marker ++ [n; r1; r2] ++ rest <> []) as Hne by (destruct marker; done).
    rewrite (proj2 (Nat.eqb_neq _ _)) by (intros El; by apply nil_length_inv in El). cbn [negb check mbind result_bind].
    rewrite (proj2 (read_version_ok _ ([n; r1; r2] ++ rest) Hne)) by (destruct Hm as [->|[-> ?]]; [by left|right; eauto]).
    cbn [mbind result_bind]. rewrite (reads_bind _ _ _ _ _ readByte_reads).
    exists (bz n), [n], ([r1; r2] ++ rest). split; [eauto|]. split; [done|].
    rewrite (proj2 (skip_ok 2 ([r1; r2] ++ rest) rest)) by (by exists [r1; r2]). cbn [mbind result_bind].
    rewrite (counted_reads _ _ _ _ _ _ keys_reads).
    exists keys, nk, (mjoin keys), (blockhash ++ ni ++ mjoin parts ++ trailing). split_and!; [done..|].
    rewrite (proj2 (skip_ok 32 (blockhash ++ ni ++ mjoin parts ++ trailing) (ni ++ mjoin parts ++ trailing)))
      by (by exists blockhash).
    cbn [mbind result_bind]. rewrite (counted_reads _ _ _ _ _ _ HI).
    exists ixs, ni, (mjoin parts), trailing. split_and!; [done|eauto|done|done].
Qed.

(** ** The deposit policy *)

(** The key the [i]-th account of an instruction names. *)
Definition account_key (p : ParsedSolanaMessage) (ix : ParsedSolanaInstruction) (i : nat) : option bytes :=
  ix_accountIndexes ix !! i ≫= fun k => sm_staticAccountKeys p !! Z.to_nat k.

(** The instruction data of a deposit: discriminator, amount (u64, little
    endian) and order id. *)
Definition deposit_data (discriminator : bytes) (amount : Z) (orderId data : bytes) : Prop :=
  exists a, length a = 8%nat /\ bytesToNumberLE a = amount /\ length orderId = 32%nat /\
    data = discriminator ++ a ++ orderId.

Lemma resolveStaticKey_ok p i f k : resolveStaticKey p i f = Ok k <->
  (i ≫= fun n => sm_staticAccountKeys p !! Z.to_nat n) = Some k.
Proof.
  unfold resolveStaticKey. destruct i as [n|]; [|done]. cbn [require mbind result_bind option_bind]. split.
  - intros E. by res_inv E.
  - intros E. pose proof (lookup_lt_Some _ _ _ E). zcmp. cbn [negb check mbind result_bind]. by rewrite E.
Qed.

Lemma deposit_data_split disc amount orderId data : length disc = 8%nat ->
  deposit_data disc amount orderId data <->
  length data = 48%nat /\ take 8 data = disc /\ bytesToNumberLE (take 8 (drop 8 data)) = amount /\
  take 32 (drop 16 data) = orderId.
Proof.
  intros Hd. unfold deposit_data. split.
  - intros (a & Ha & Hv & Ho & ->). rewrite !length_app, Hd, Ha, Ho.
    rewrite (take_length_app disc), (drop_length_app disc), (take_length_app a) by (symmetry; done).
    rewrite (app_assoc disc a), (drop_length_app (disc ++ a)) by (rewrite length_app, Hd, Ha; done).
    rewrite (take_ge orderId) by lia. done.
  - intros (Hl & <- & <- & <-). exists (take 8 (drop 8 data)).
    rewrite !length_take, !length_drop, Hl. split_and!; [done..|].
    rewrite <- (take_drop 8 data) at 1. f_equal. rewrite <- (take_drop 8 (drop 8 data)) at 1. f_equal.
    rewrite drop_drop. rewrite take_ge; [done|]. rewrite length_drop, Hl. done.
Qed.

Section Policy.
Context `{N : Noble, H : Host, E : Ed25519}.

Definition bytes32_of (hex : jsstring) (field : string) (l : bytes) : Prop :=
  hexToBytes hex field = Ok l /\ length l = 32%nat.

(** An authorized deposit: the only instruction calls the attested depository
    program with the last signer as the sender, the trigger's depositor, amount
    and order id, and the trigger's currency: native, or as the mint. *)
Record sol_deposit (trigger : DepositAddressTrigger) (attestation : DepositAddressTriggerAttestation)
    (p : ParsedSolanaMessage) (ix : ParsedSolanaInstruction) (amount : Z) : Prop := {
  sd_signers : 1 <= sm_numRequiredSignatures p <= 2;
  sd_only : sm_instructions p = [ix];
  sd_program : exists program, bytes32_of (ta_inputDepository attestation) "attestation.inputDepository" program /\
    sm_staticAccountKeys p !! Z.to_nat (ix_programIdIndex ix) = Some program;
  sd_sender : ix_accountIndexes ix !! 1%nat = Some (sm_numRequiredSignatures p - 1);
  sd_depositor : exists depositor, account_key p ix 2 = Some depositor /\
    bytes32_of (df_depositor (tr_derivationFields trigger)) "trigger.derivationFields.depositor" depositor;
  sd_amount : BigInt (in_amount (tr_input trigger)) = Ok amount;
  sd_call : exists currency orderId,
    bytes32_of (in_currency (tr_input trigger)) "trigger.input.currency" currency /\
    bytes32_of (tr_orderId trigger) "trigger.orderId" orderId /\
    (currency = zeros 32 /\ length (ix_accountIndexes ix) = 5%nat /\
       deposit_data DEPOSIT_NATIVE_DISCRIMINATOR amount orderId (ix_data ix) \/
     currency <> zeros 32 /\ length (ix_accountIndexes ix) = 10%nat /\ account_key p ix 4 = Some currency /\
       deposit_data DEPOSIT_TOKEN_DISCRIMINATOR amount orderId (ix_data ix)) }.

Lemma sol_hex32Bytes_ok hex field l : sol_hex32Bytes hex field = Ok l <-> bytes32_of hex field l.
Proof using. apply hex32Bytes_ok. Qed.

Lemma equal_true (a b : bytes) : negb (equalBytes a b) = false <-> a = b.
Proof using. rewrite negb_false_iff. apply equalBytes_spec. Qed.

Lemma native_iff p ix depositor amount orderId : length orderId = 32%nat ->
  verifyDepositNative p ix depositor amount orderId = Ok tt <->
  length (ix_accountIndexes ix) = 5%nat /\ account_key p ix 2 = Some depositor /\
  deposit_data DEPOSIT_NATIVE_DISCRIMINATOR amount orderId (ix_data ix).
Proof using.
  intros Ho. rewrite deposit_data_split by done. unfold verifyDepositNative. split.
  - intros Hv. res_inv Hv. apply resolveStaticKey_ok in Hs2. bool_prop.
    repeat match goal with X : equalBytes _ _ = true |- _ => apply equalBytes_spec in X end. subst. done.
  - intros (Hn & Hd & Hl & Hdisc & Ha & Hid). rewrite Hl, Hdisc, Hn, Ha, Hid.
    rewrite !(proj2 (equal_true _ _)) by done. cbn [negb check mbind result_bind Nat.eqb DEPOSIT_ARGS_LEN NATIVE_ACCOUNT_COUNT].
    rewrite (proj2 (resolveStaticKey_ok _ _ _ _) Hd). cbn [mbind result_bind]. rewrite !(proj2 (equal_true _ _)) by done.
    by rewrite Z.eqb_refl.
Qed.

Lemma token_iff p ix depositor amount orderId mint : length orderId = 32%nat ->
  verifyDepositToken p ix depositor amount orderId mint = Ok tt <->
  length (ix_accountIndexes ix) = 10%nat /\ account_key p ix 2 = Some depositor /\ account_key p ix 4 = Some mint /\
  deposit_data DEPOSIT_TOKEN_DISCRIMINATOR amount orderId (ix_data ix).
Proof using.
  intros Ho. rewrite deposit_data_split by done. unfold verifyDepositToken. split.
  - intros Hv. res_inv Hv. apply resolveStaticKey_ok in Hs2, Hs4. bool_prop.
    repeat match goal with X : equalBytes _ _ = true |- _ => apply equalBytes_spec in X end. subst. done.
  - intros (Hn & Hd & Hm & Hl & Hdisc & Ha & Hid). rewrite Hl, Hdisc, Hn, Ha, Hid.
    rewrite !(proj2 (equal_true _ _)) by done. cbn [negb check mbind result_bind Nat.eqb DEPOSIT_ARGS_LEN TOKEN_ACCOUNT_COUNT].
    rewrite (proj2 (resolveStaticKey_ok _ _ _ _) Hd). cbn [mbind result_bind]. rewrite !(proj2 (equal_true _ _)) by done.
    cbn [check negb mbind result_bind]. rewrite (proj2 (resolveStaticKey_ok _ _ _ _) Hm). cbn [mbind result_bind].
    rewrite !(proj2 (equal_true _ _)) by done. by rewrite Z.eqb_refl.
Qed.

Lemma isZeroBytes_iff l : length l = 32%nat -> isZeroBytes l = true <-> l = zeros 32.
Proof using. intros Hl. unfold isZeroBytes. rewrite zero_bytes, Hl. done. Qed.

Lemma sol_policy_iff trigger attestation txs :
  sol_verifyTransactions trigger attestation txs = Ok tt <->
  exists tx msg p ix amount, txs = [tx] /\ base64ToBytes (sv_message tx) = Ok msg /\
    parseSolanaCompiledMessage msg = Ok p /\ sol_deposit trigger attestation p ix amount.
Proof using.
  unfold sol_verifyTransactions. split.
  - intros Hv. destruct txs as [|tx [|]]; [done| |done]. apply bind_ok in Hv as (msg & Hm & Hv).
    apply bind_ok in Hv as (p & Hp & Hv). apply bind_ok in Hv as (u & Hn & Hv).
    apply check_ok in Hn. bool_prop. destruct (sm_instructions p) as [|ix [|]] eqn:Hix; [done| |done].
    res_inv Hv. bool_prop. apply sol_hex32Bytes_ok in Hs0, Hs3, Hs5, Hs6. apply resolveStaticKey_ok in Hs1.
    apply equalBytes_spec in Hs2. subst r1. exists tx, msg, p, ix, r4. split_and!; [done..|].
    destruct (isZeroBytes r6) eqn:Hz.
    + apply isZeroBytes_iff in Hz; [|apply Hs6]. apply native_iff in Hv as (Hn & Hd & Hx); [|apply Hs5].
      split; eauto 12; unfold MAX_REQUIRED_SIGNATURES in *; lia.
    + assert (r6 <> zeros 32) by (intros Ez; apply isZeroBytes_iff in Ez; [congruence|apply Hs6]).
      apply token_iff in Hv as (Hn & Hd & Hmint & Hx); [|apply Hs5].
      split; eauto 12; unfold MAX_REQUIRED_SIGNATURES in *; lia.
  - intros (tx & msg & p & ix & amount & -> & Hm & Hp & [Hn Ho (prog & Hpg & Hpk) Hse (dep & Hdk & Hd) Ha
      (cur & oid & Hc & Hid & Hcall)]).
    rewrite Hm. cbn [mbind result_bind]. rewrite Hp. cbn [mbind result_bind]. unfold MAX_REQUIRED_SIGNATURES. zcmp.
    cbn [orb negb check mbind result_bind]. rewrite Ho. unfold ANCHOR_SENDER_INDEX. rewrite Hse, bool_decide_true by done.
    cbn [negb check mbind result_bind]. rewrite (proj2 (sol_hex32Bytes_ok _ _ _) Hpg). cbn [mbind result_bind].
    rewrite (proj2 (resolveStaticKey_ok p (Some _) _ prog) Hpk). cbn [mbind result_bind].
    rewrite (proj2 (equal_true _ _)) by done. cbn [check negb mbind result_bind].
    rewrite (proj2 (sol_hex32Bytes_ok _ _ _) Hd). cbn [mbind result_bind]. rewrite Ha. cbn [mbind result_bind].
    rewrite (proj2 (sol_hex32Bytes_ok _ _ _) Hid). cbn [mbind result_bind].
    rewrite (proj2 (sol_hex32Bytes_ok _ _ _) Hc). cbn [mbind result_bind].
    destruct Hcall as [(Hz & Hcall)|(Hz & Hcall)].
    + rewrite (proj2 (isZeroBytes_iff cur (proj2 Hc)) Hz). apply native_iff; [apply Hid|tauto].
    + destruct (isZeroBytes cur) eqn:Ez; [apply isZeroBytes_iff in Ez; [done|apply Hc]|]. apply token_iff; [apply Hid|tauto].
Qed.
End Policy.

(** ** The signed transaction *)

Section Sweep.
Context `{N : Noble, H : Host, !HostLaws H, E : Ed25519, L : !Ed25519Laws E}.

(** The wire format: the signature count, a zero placeholder per other signer,
    the wallet's signature in the last slot, the message. *)
Lemma sol_sign_ok key tx signed : sol_signTransactionWithKey key tx = Ok signed ->
  exists msg p pk sig, base64ToBytes (sv_message tx) = Ok msg /\ parseSolanaCompiledMessage msg = Ok p /\
    1 <= sm_numRequiredSignatures p <= 2 /\ bip32_getPublicKey key = Ok pk /\
    sm_staticAccountKeys p !! Z.to_nat (sm_numRequiredSignatures p - 1) = Some pk /\
    signEd25519Bip32 msg key = Ok sig /\ sv_signature signed = js "0x" ++ bytesToHex sig /\
    base64ToBytes (sv_rawTransaction signed) =
      Ok ([u8 (sm_numRequiredSignatures p)] ++ zeros (64 * Z.to_nat (sm_numRequiredSignatures p - 1)) ++ sig ++ msg).
Proof using L HostLaws0.
  unfold sol_signTransactionWithKey. intros Hv. res_inv Hv. bool_prop. apply equalBytes_spec in Hs5. subst r4.
  match goal with X : signEd25519Bip32 _ _ = Ok ?s |- _ => pose proof (signature_length _ _ _ X) as Hl; exists r, r1, r3, s end.
  unfold MAX_REQUIRED_SIGNATURES in *. split_and!; try done || lia. cbn [sv_rawTransaction].
  rewrite bytesToBase64_btoa, base64ToBytes_btoa, concatBytes_join. cbn [mjoin list_join]. rewrite app_nil_r.
  f_equal. f_equal. rewrite (app_assoc (zeros _)). f_equal. unfold set_at, zeros, SIGNATURE_LEN.
  set (n := Z.to_nat (sm_numRequiredSignatures r1)). set (k := Z.to_nat (sm_numRequiredSignatures r1 - 1)).
  assert (n = S k) as -> by lia. rewrite take_replicate, drop_replicate, Hl.
  replace (S k * 64 - (k * 64 + 64))%nat with 0%nat by lia. cbn [replicate]. rewrite app_nil_r. f_equal. f_equal. lia.
Qed.

(** what an authorized Solana sweep does.  The policy accepts exactly one
    transaction, a compiled message with one instruction, which calls the
    attested depository program: [deposit_native] when the trigger's currency
    is the native one and [deposit_token] of that mint otherwise, with the
    trigger's depositor, amount and order id.  Whenever the wallet then signs
    it, the account debited is the wallet itself, the signature covers the very
    bytes that were checked, and the returned transaction is that message
    behind the signature in the wallet's slot, other signers' slots zero. *)
Theorem solana_sweep_pays_depository trigger attestation txs :
  sol_verifyTransactions trigger attestation txs = Ok tt ->
  exists tx msg p ix amount, txs = [tx] /\ base64ToBytes (sv_message tx) = Ok msg /\ message_layout p msg /\
    sol_deposit trigger attestation p ix amount /\
    forall key signed, sol_signTransactionWithKey key tx = Ok signed ->
    exists pk sig, bip32_getPublicKey key = Ok pk /\ account_key p ix 1 = Some pk /\
      signEd25519Bip32 msg key = Ok sig /\ sv_signature signed = js "0x" ++ bytesToHex sig /\
      base64ToBytes (sv_rawTransaction signed) =
        Ok ([u8 (sm_numRequiredSignatures p)] ++ zeros (64 * Z.to_nat (sm_numRequiredSignatures p - 1)) ++ sig ++ msg).
Proof using L HostLaws0.
  intros Hv. apply sol_policy_iff in Hv as (tx & msg & p & ix & amount & -> & Hm & Hp & Hd).
  exists tx, msg, p, ix, amount. split; [done|]. split; [done|]. split; [by apply message_layout_parsed|]. split; [done|].
  intros key signed Hk. apply sol_sign_ok in Hk as (msg' & p' & pk & sig & Hm' & Hp' & _ & Hpk & Hslot & Hs & Hsig & Hraw).
  rewrite Hm in Hm'. injection Hm' as <-. rewrite Hp in Hp'. injection Hp' as <-.
  exists pk, sig. split_and!; try done. unfold account_key. by rewrite (sd_sender _ _ _ _ _ Hd).
Qed.
End Sweep.

(** the parser of compiled messages is exact.  It accepts a byte string
    and returns a message if and only if the string is that message laid out
    as the format prescribes: an optional version-0 marker, the header, the
    counted 32-byte account keys, the blockhash and the counted instructions,
    with every count a shortvec of at most three bytes. *)
Theorem solana_parse_exact msg p : parseSolanaCompiledMessage msg = Ok p <-> message_layout p msg.
Proof. apply message_layout_parsed. Qed.

(** ** A concrete sweep *)

Definition sol_key : bytes := replicate 32 x05 ++ replicate 32 x09.
Definition sol_pk : bytes := le32 (bytesToNumberLE (take 32 sol_key) mod toy_order).
Definition sol_hex (b : byte) : jsstring := hex_of (replicate 32 b).

(** Two signers: a fee payer and the wallet; the token deposit of 1000. *)
Definition sol_message : bytes :=
  [x80; x02; x00; x01] ++ [x05] ++ replicate 32 xf0 ++ sol_pk ++ replicate 32 x22 ++ replicate 32 x33 ++ replicate 32 x44 ++
  replicate 32 xbb ++ [x01] ++
  [x03] ++ [x0a] ++ [x00; x01; x02; x00; x04; x00; x00; x00; x00; x00] ++
  [x30] ++ DEPOSIT_TOKEN_DISCRIMINATOR ++ [xe8; x03; x00; x00; x00; x00; x00; x00] ++ replicate 32 x99.

Definition sol_trigger : DepositAddressTrigger := {|
  tr_input := toy_input "solana-vm" (sol_hex x44) "1000";
  tr_derivationFields := toy_fields "solana-vm" (sol_hex x22) [];
  tr_orderId := sol_hex x99; tr_nonce := js "1"; tr_currencies := []; tr_prices := []; tr_extraData := [] |}.
Definition sol_attestation : DepositAddressTriggerAttestation := {|
  ta_chainId := 1; ta_depositAddressManager := []; ta_inputDepository := sol_hex x33;
  ta_triggerHash := []; ta_signatures := [] |}.
Definition sol_tx : SolanaVmTransaction := {| sv_message := btoa sol_message |}.

Lemma solana_sweep_witness :
  exists tx msg p ix amount, [sol_tx] = [tx] /\ message_layout p msg /\
    @sol_deposit toy_noble sol_trigger sol_attestation p ix amount /\
    (exists signed, @sol_signTransactionWithKey toy_noble toy_host toy_ed25519 sol_key tx = Ok signed) /\
    account_key p ix 1 = Some sol_pk.
Proof.
  destruct (@solana_sweep_pays_depository toy_noble toy_host toy_host_laws toy_ed25519 toy_ed25519_laws
              sol_trigger sol_attestation [sol_tx]) as (tx & msg & p & ix & amount & E1 & E2 & E3 & E4 & E5);
    [vm_compute; reflexivity|].
  exists tx, msg, p, ix, amount. split; [exact E1|]. split; [exact E3|]. split; [exact E4|].
  injection E1 as <-.
  assert (exists signed, @sol_signTransactionWithKey toy_noble toy_host toy_ed25519 sol_key sol_tx = Ok signed) as [signed Es]
    by (eexists; vm_compute; reflexivity).
  split; [by exists signed|]. destruct (E5 _ _ Es) as (pk & sig & Hpk & Hacc & _). rewrite Hacc.
  injection Hpk as <-. reflexivity.
Defined.
