(* ===== verification/EvmAddress.v ===== *)
(** * EVM-style addresses and secp256k1 signatures of the deposit signer

    packages/lit-deposit-address/src/common/address/ethereum.ts,
    common/address/hyperliquid.ts and the signature formats of common/eip712.ts
    and derivation/vm/ethereum/EthereumVmWalletDeriver.ts.  The curve
    operations of @noble/curves are those of [Secp256k1]. *)

From Stdlib Require Import Strings.Byte.
From S2P Require Import Prelude JsNum JsString HexBytes ToyRuntime DepositBytes DepositTypes TonDeriver.
Local Open Scope Z_scope.
Local Open Scope js_scope.

(** [secp256k1.sign] with [format: "recovered"] (recovery byte, r, s),
    [getPublicKey] and [Point.fromHex(_).toBytes(false)]. *)
Class Secp256k1 := {
  secp_sign : bytes -> bytes -> result bytes;
  secp_getPublicKey : bytes -> bool -> result bytes;
  secp_uncompress : jsstring -> result bytes;
}.

(** A recovered signature is one recovery byte and two 32-byte integers; an
    uncompressed key is 65 bytes. *)
Class Secp256k1Laws (S : Secp256k1) : Prop := {
  secp_sign_length : forall h k sig, secp_sign h k = Ok sig -> length sig = 65%nat;
  secp_uncompress_length : forall p l, secp_uncompress p = Ok l -> length l = 65%nat;
}.

Section Codec.
Context `{N : Noble}.

Definition encodeEthereumAddress (address : jsstring) : result bytes :=
  encoded ← hexToBytes address "address";
  fail_if negb (Nat.eqb (length encoded) 20) with "ethereum-vm address must be 20 bytes" ;;
  Ok encoded.

Definition decodeEthereumAddress (encoded : bytes) : result jsstring :=
  fail_if negb (Nat.eqb (length encoded) 20) with "ethereum-vm encoded address must be 20 bytes" ;;
  Ok (js "0x" ++ bytesToHex encoded).

Definition encodeEthereumAddressToHex (address : jsstring) : result jsstring :=
  l ← encodeEthereumAddress address; Ok (js "0x" ++ bytesToHex l).

Definition normalizeEthereumAddressHex (encodedHex : jsstring) : result jsstring :=
  encoded ← hexToBytes encodedHex "encoded address";
  address ← decodeEthereumAddress encoded;
  hex ← encodeEthereumAddressToHex address;
  Ok (toLowerCase hex).

Definition encodeHyperliquidAddress (address : jsstring) : result bytes :=
  encoded ← hexToBytes address "address";
  fail_if Nat.eqb (length encoded) 0 || Nat.ltb 20 (length encoded)
    with "hyperliquid-vm address must be between 1 and 20 bytes" ;;
  Ok encoded.

Definition decodeHyperliquidAddress (encoded : bytes) : result jsstring :=
  fail_if Nat.eqb (length encoded) 0 || Nat.ltb 20 (length encoded)
    with "hyperliquid-vm encoded address must be between 1 and 20 bytes" ;;
  Ok (js "0x" ++ bytesToHex encoded).

Definition encodeHyperliquidAddressToHex (address : jsstring) : result jsstring :=
  l ← encodeHyperliquidAddress address; Ok (js "0x" ++ bytesToHex l).

Definition normalizeHyperliquidAddressHex (encodedHex : jsstring) : result jsstring :=
  encoded ← hexToBytes encodedHex "encoded address";
  address ← decodeHyperliquidAddress encoded;
  hex ← encodeHyperliquidAddressToHex address;
  Ok (toLowerCase hex).
End Codec.

Section Keys.
Context `{N : Noble, S : Secp256k1}.

(** The account of a public key: [`0x${bytesToHex(keccak256(uncompressed.slice(1)).slice(12))}`]. *)
Definition evm_account (uncompressed : bytes) : jsstring :=
  js "0x" ++ bytesToHex (drop 12 (noble_keccak_256 (drop 1 uncompressed))).

(** [signEvmDigest]: r || s || v with v = 27 or 28. *)
Definition signEvmDigest (digest privateKey : bytes) : result bytes :=
  sig ← secp_sign digest privateKey;
  let out := set_at (zeros 65) 0 (drop 1 sig) in
  Ok (<[64%nat := u8 (if byte_at sig 0 =? 0 then 27 else 28)]> out).

(** [signTypedDataHash]: r || s || recovery + 27. *)
Definition signTypedDataHash (hash privateKey : bytes) : result jsstring :=
  sig ← secp_sign hash privateKey;
  let out := set_at (zeros 65) 0 (drop 1 sig) in
  Ok (js "0x" ++ bytesToHex (<[64%nat := u8 (byte_at sig 0 + 27)]> out)).
End Keys.

(** ** The codec on bytes *)

Lemma hex_of_inj a b : hex_of a = hex_of b -> a = b.
Proof. intros E. apply app_inv_head in E. by apply HexBytes.bytesToHex_inj. Qed.

Section CodecLemmas.
Context `{N : Noble, L : !NobleLaws N}.

(** [addr n hex l]: [hex] denotes the [n]-byte identifier [l]. *)
Definition evm_addr (hex : jsstring) (field : string) (l : bytes) : Prop :=
  hexToBytes hex field = Ok l /\ length l = 20%nat.
Definition hl_addr (hex : jsstring) (field : string) (l : bytes) : Prop :=
  hexToBytes hex field = Ok l /\ (1 <= length l <= 20)%nat.

Lemma print_hex_of l : js "0x" ++ bytesToHex l = hex_of l.
Proof using L. unfold bytesToHex, hex_of. by rewrite noble_hex_print. Qed.

Lemma encode_evm_ok s hex : encodeEthereumAddressToHex s = Ok hex <->
  exists l, evm_addr s "address" l /\ hex = hex_of l.
Proof using L.
  unfold encodeEthereumAddressToHex, encodeEthereumAddress, evm_addr. split.
  - intros Hv. res_inv Hv. bool_prop. exists r. split; [done|]. apply print_hex_of.
  - intros (l & [E Hl] & ->). rewrite E. cbn [mbind result_bind]. rewrite Hl. cbn [Nat.eqb negb check mbind result_bind]. by rewrite print_hex_of.
Qed.

Lemma decode_evm_ok l s : decodeEthereumAddress l = Ok s <-> length l = 20%nat /\ s = hex_of l.
Proof using L.
  unfold decodeEthereumAddress. rewrite print_hex_of. split.
  - intros Hv. apply bind_ok in Hv as (u & Hu & [= <-]). apply check_ok in Hu. by bool_prop.
  - intros [-> ->]. done.
Qed.

Lemma normalize_evm_ok s hex : normalizeEthereumAddressHex s = Ok hex <->
  exists l, evm_addr s "encoded address" l /\ hex = hex_of l.
Proof using L.
  unfold normalizeEthereumAddressHex. split.
  - intros Hv. apply bind_ok in Hv as (l & Hl & Hv). apply bind_ok in Hv as (a & Ha & Hv).
    apply bind_ok in Hv as (h & Hh & [= <-]). apply decode_evm_ok in Ha as [Hn ->].
    apply encode_evm_ok in Hh as (k & [E _] & ->). unfold hex_of in E. rewrite hexToBytes_print_0x in E.
    injection E as <-. exists l. split; [done|]. apply toLowerCase_0x.
  - intros (l & [E Hl] & ->). rewrite E. cbn [mbind result_bind]. rewrite (proj2 (decode_evm_ok l _) (conj Hl eq_refl)).
    cbn [mbind result_bind]. rewrite (proj2 (encode_evm_ok (hex_of l) (hex_of l))).
    + cbn [mbind result_bind]. f_equal. apply toLowerCase_0x.
    + exists l. split; [|done]. split; [apply hexToBytes_print_0x|done].
Qed.

Lemma encode_hl_ok s hex : encodeHyperliquidAddressToHex s = Ok hex <->
  exists l, hl_addr s "address" l /\ hex = hex_of l.
Proof using L.
  unfold encodeHyperliquidAddressToHex, encodeHyperliquidAddress, hl_addr. split.
  - intros Hv. res_inv Hv. bool_prop. apply Nat.ltb_ge in H0.
    exists r. split; [split; [done|lia]|]. apply print_hex_of.
  - intros (l & [E Hl] & ->). rewrite E. cbn [mbind result_bind]. zcmp. cbn [orb negb check mbind result_bind]. by rewrite print_hex_of.
Qed.

Lemma decode_hl_ok l s : decodeHyperliquidAddress l = Ok s <-> (1 <= length l <= 20)%nat /\ s = hex_of l.
Proof using L.
  unfold decodeHyperliquidAddress. rewrite print_hex_of. split.
  - intros Hv. apply bind_ok in Hv as (u & Hu & [= <-]). apply check_ok in Hu. bool_prop. apply Nat.ltb_ge in H0.
    split; [lia|done].
  - intros [Hl ->]. by zcmp.
Qed.

Lemma normalize_hl_ok s hex : normalizeHyperliquidAddressHex s = Ok hex <->
  exists l, hl_addr s "encoded address" l /\ hex = hex_of l.
Proof using L.
  unfold normalizeHyperliquidAddressHex. split.
  - intros Hv. apply bind_ok in Hv as (l & Hl & Hv). apply bind_ok in Hv as (a & Ha & Hv).
    apply bind_ok in Hv as (h & Hh & [= <-]). apply decode_hl_ok in Ha as [Hn ->].
    apply encode_hl_ok in Hh as (k & [E _] & ->). unfold hex_of in E. rewrite hexToBytes_print_0x in E.
    injection E as <-. exists l. split; [done|]. apply toLowerCase_0x.
  - intros (l & [E Hl] & ->). rewrite E. cbn [mbind result_bind]. rewrite (proj2 (decode_hl_ok l _) (conj Hl eq_refl)).
    cbn [mbind result_bind]. rewrite (proj2 (encode_hl_ok (hex_of l) (hex_of l))).
    + cbn [mbind result_bind]. f_equal. apply toLowerCase_0x.
    + exists l. split; [|done]. split; [apply hexToBytes_print_0x|done].
Qed.

(** The name in the error message does not matter. *)
Lemma hexToBytes_field s f g l : hexToBytes s f = Ok l -> hexToBytes s g = Ok l.
Proof using. unfold hexToBytes. by rewrite !catch_ok. Qed.
End CodecLemmas.

(** ** A concrete curve *)

Definition toy_secp : Secp256k1 := {|
  secp_sign := fun h k => Ok (x01 :: pad32 h ++ pad32 k);
  secp_getPublicKey := fun k c => Ok (if c : bool then x02 :: pad32 k else x04 :: pad32 k ++ pad32 k);
  secp_uncompress := fun s => let x := drop 1 (parse_pairs s) in Ok (x04 :: pad32 x ++ pad32 x) |}.
Lemma toy_secp_laws : Secp256k1Laws toy_secp.
Proof.
  assert (forall b x y, length (b :: pad32 x ++ pad32 y) = 65%nat) as Hl.
  { intros b x y. cbn [length]. by rewrite length_app, !length_pad32. }
  split; [intros h k sig [= <-]|intros q l [= <-]]; apply Hl.
Qed.
