(* ===== verification/EvmTx.v ===== *)
(** * Ethereum deposit transactions

    packages/lit-deposit-address/src/derivation/vm/ethereum/
    EthereumVmWalletDeriver.ts: the calldata checks of the native and the
    ERC-20 deposit and the signer.  viem's [parseTransaction] and
    [serializeTransaction] are operations of [EvmTransactions]; the chain id of
    a parsed transaction is an integer.  The second half reads the checks on
    bytes: what an Ethereum sweep calls. *)

From Stdlib Require Import Strings.Byte.
From S2P Require Import Prelude JsNum JsString HexBytes ToyRuntime DepositBytes DepositTypes TonDeriver EvmAddress.
Local Open Scope Z_scope.
Local Open Scope js_scope.

Record EthereumVmTransaction := { et_unsignedTransaction : jsstring }.
Record EthereumVmSignedTransaction := { et_rawTransaction : jsstring; et_transactionHash : jsstring }.

(** [{ r, s, v }] and [{ r, s, yParity }]. *)
Inductive EvmSignature :=
  | SigV (r s : jsstring) (v : Z)
  | SigParity (r s : jsstring) (yParity : Z).

(** viem: [undefined] fields are [None]. *)
Class EvmTransactions := {
  EvmTransaction : Type;
  evm_to : EvmTransaction -> option jsstring;
  evm_value : EvmTransaction -> option Z;
  evm_data : EvmTransaction -> option jsstring;
  evm_type : EvmTransaction -> option jsstring;
  evm_chainId : EvmTransaction -> option Z;
  parseTransaction : jsstring -> result EvmTransaction;
  serializeTransaction : EvmTransaction -> EvmSignature -> result jsstring;
}.

(** The data of a parsed transaction is a byte string in viem's hex form. *)
Class EvmTransactionsLaws (V : EvmTransactions) : Prop :=
  evm_data_hex : forall s tx d, parseTransaction s = Ok tx -> evm_data tx = Some d -> exists l, d = hex_of l.

Definition ZERO_ADDRESS : jsstring := js "0x0000000000000000000000000000000000000000".
Definition DEPOSIT_NATIVE_SELECTOR : jsstring := js "0x49290c1c".
Definition ERC20_APPROVE_SELECTOR : jsstring := js "0x095ea7b3".
Definition DEPOSIT_ERC20_SELECTOR : jsstring := js "0xe8017952".
Definition WORD_HEX_LEN : nat := 64.

Definition wordAt (data : jsstring) (index : nat) : jsstring :=
  let start := (2 + 8 + index * WORD_HEX_LEN)%nat in take WORD_HEX_LEN (drop start data).

Definition decodeAddressArg (data : jsstring) (index : nat) : jsstring :=
  js "0x" ++ toLowerCase (drop 24 (wordAt data index)).

Definition decodeUint256Arg (data : jsstring) (index : nat) : result Z := BigInt (js "0x" ++ wordAt data index).

Definition decodeBytes32Arg (data : jsstring) (index : nat) : jsstring := js "0x" ++ toLowerCase (wordAt data index).

Definition assertZeroValue (value : option Z) : result unit :=
  fail_if negb (default 0 value =? 0) with "value must be zero for ERC-20 deposits" ;; Ok tt.

Section Policy.
Context `{N : Noble, V : EvmTransactions}.

(** [to ? encodeEthereumAddressToHex(to).toLowerCase() : undefined]. *)
Definition recipient (to : option jsstring) : result (option jsstring) :=
  match to with
  | None | Some [] => Ok None
  | Some a => h ← encodeEthereumAddressToHex a; Ok (Some (toLowerCase h))
  end.

Definition verifyNativeDeposit (trigger : DepositAddressTrigger) (attestation : DepositAddressTriggerAttestation)
    (transactions : list EthereumVmTransaction) : result unit :=
  match transactions with
  | [tx] =>
      parsed ← parseTransaction (et_unsignedTransaction tx);
      expectedTo ← normalizeEthereumAddressHex (ta_inputDepository attestation);
      actualTo ← recipient (evm_to parsed);
      fail_if negb (bool_decide (actualTo = Some expectedTo)) with "to must equal input depository" ;;
      expectedAmount ← BigInt (in_amount (tr_input trigger));
      let actualValue := default 0 (evm_value parsed) in
      fail_if negb (actualValue =? expectedAmount) with "value must equal input.amount" ;;
      let data := default (js "0x") (evm_data parsed) in
      fail_if negb (startsWith (toLowerCase data) DEPOSIT_NATIVE_SELECTOR) with "data must call depositNative" ;;
      let expectedLen := (2 + 8 + 2 * WORD_HEX_LEN)%nat in
      fail_if negb (Nat.eqb (length data) expectedLen) with "calldata length mismatch" ;;
      let depositor := decodeAddressArg data 0 in
      depositorHex ← encodeEthereumAddressToHex depositor;
      expectedDepositor ← normalizeEthereumAddressHex (df_depositor (tr_derivationFields trigger));
      fail_if negb (bool_decide (toLowerCase depositorHex = expectedDepositor)) with "depositNative.depositor mismatch" ;;
      let orderId := decodeBytes32Arg data 1 in
      fail_if negb (bool_decide (toLowerCase orderId = toLowerCase (tr_orderId trigger)))
        with "depositNative.orderId mismatch" ;;
      Ok tt
  | _ => throw "native deposit requires exactly 1 transaction (depositNative)"
  end.

Definition verifyErc20Deposit (trigger : DepositAddressTrigger) (attestation : DepositAddressTriggerAttestation)
    (transactions : list EthereumVmTransaction) : result unit :=
  match transactions with
  | [tx0; tx1] =>
      expectedAmount ← BigInt (in_amount (tr_input trigger));
      approveTx ← parseTransaction (et_unsignedTransaction tx0);
      _ ← assertZeroValue (evm_value approveTx);
      expectedTokenTo ← normalizeEthereumAddressHex (in_currency (tr_input trigger));
      actualTokenTo ← recipient (evm_to approveTx);
      fail_if negb (bool_decide (actualTokenTo = Some expectedTokenTo)) with "to must equal input.currency (token)" ;;
      let approveData := default (js "0x") (evm_data approveTx) in
      fail_if negb (startsWith (toLowerCase approveData) ERC20_APPROVE_SELECTOR) with "data must call approve" ;;
      let approveExpectedLen := (2 + 8 + 2 * WORD_HEX_LEN)%nat in
      fail_if negb (Nat.eqb (length approveData) approveExpectedLen) with "approve calldata length mismatch" ;;
      let approveSpender := decodeAddressArg approveData 0 in
      approveValue ← decodeUint256Arg approveData 1;
      approveSpenderHex ← encodeEthereumAddressToHex approveSpender;
      expectedSpender ← normalizeEthereumAddressHex (ta_inputDepository attestation);
      fail_if negb (bool_decide (toLowerCase approveSpenderHex = expectedSpender)) with "approve.spender mismatch" ;;
      fail_if negb (approveValue =? expectedAmount) with "approve.value mismatch" ;;
      depositTx ← parseTransaction (et_unsignedTransaction tx1);
      _ ← assertZeroValue (evm_value depositTx);
      expectedDepositTo ← normalizeEthereumAddressHex (ta_inputDepository attestation);
      actualDepositTo ← recipient (evm_to depositTx);
      fail_if negb (bool_decide (actualDepositTo = Some expectedDepositTo)) with "to must equal input depository" ;;
      let depositData := default (js "0x") (evm_data depositTx) in
      fail_if negb (startsWith (toLowerCase depositData) DEPOSIT_ERC20_SELECTOR) with "data must call depositErc20" ;;
      let depositExpectedLen := (2 + 8 + 4 * WORD_HEX_LEN)%nat in
      fail_if negb (Nat.eqb (length depositData) depositExpectedLen) with "depositErc20 calldata length mismatch" ;;
      let depositor := decodeAddressArg depositData 0 in
      let token := decodeAddressArg depositData 1 in
      amount ← decodeUint256Arg depositData 2;
      let orderId := decodeBytes32Arg depositData 3 in
      erc20DepositorHex ← encodeEthereumAddressToHex depositor;
      expectedErc20Depositor ← normalizeEthereumAddressHex (df_depositor (tr_derivationFields trigger));
      fail_if negb (bool_decide (toLowerCase erc20DepositorHex = expectedErc20Depositor))
        with "depositErc20.depositor mismatch" ;;
      tokenHex ← encodeEthereumAddressToHex token;
      expectedToken ← normalizeEthereumAddressHex (in_currency (tr_input trigger));
      fail_if negb (bool_decide (toLowerCase tokenHex = expectedToken)) with "depositErc20.token mismatch" ;;
      fail_if negb (amount =? expectedAmount) with "depositErc20.amount mismatch" ;;
      fail_if negb (bool_decide (toLowerCase orderId = toLowerCase (tr_orderId trigger)))
        with "depositErc20.orderId mismatch" ;;
      Ok tt
  | _ => throw "erc-20 deposit requires exactly 2 transactions (approve + depositErc20)"
  end.

(** [EthereumVmWalletDeriver.verifyTransactions]. *)
Definition evm_verifyTransactions (trigger : DepositAddressTrigger) (attestation : DepositAddressTriggerAttestation)
    (transactions : list EthereumVmTransaction) : result unit :=
  currency ← normalizeEthereumAddressHex (in_currency (tr_input trigger));
  if bool_decide (currency = ZERO_ADDRESS) then verifyNativeDeposit trigger attestation transactions
  else verifyErc20Deposit trigger attestation transactions.

Context `{S : Secp256k1}.

Definition buildSignature (parsed : EvmTransaction) (sig : bytes) : result EvmSignature :=
  let r := js "0x" ++ bytesToHex (take 32 sig) in
  let s := js "0x" ++ bytesToHex (take 32 (drop 32 sig)) in
  let yParity := if byte_at sig 64 =? 27 then 0 else 1 in
  if bool_decide (evm_type parsed = Some (js "legacy")) then
    chainId ← require (evm_chainId parsed) "legacy transactions must include an EIP-155 chainId";
    Ok (SigV r s (35 + chainId * 2 + yParity))
  else Ok (SigParity r s yParity).

(** [EthereumVmWalletDeriver.signTransactionWithKey]. *)
Definition evm_signTransactionWithKey (privateKey : bytes) (transaction : EthereumVmTransaction)
  : result EthereumVmSignedTransaction :=
  let unsignedHex := et_unsignedTransaction transaction in
  parsed ← parseTransaction unsignedHex;
  unsigned ← hexToBytes unsignedHex "unsignedTransaction";
  let digest := noble_keccak_256 unsigned in
  sig ← signEvmDigest digest privateKey;
  signature ← buildSignature parsed sig;
  rawTransaction ← serializeTransaction parsed signature;
  raw ← hexToBytes rawTransaction "rawTransaction";
  Ok {| et_rawTransaction := rawTransaction;
        et_transactionHash := js "0x" ++ bytesToHex (noble_keccak_256 raw) |}.
End Policy.

(** ** What an Ethereum sweep calls

    The calldata checks of [EvmTx], read on bytes, and the transactions the
    wallet signs. *)

Local Open Scope Z_scope.
Local Open Scope js_scope.

Lemma decide_refl {A} `{EqDecision A} (x : A) : bool_decide (x = x) = true.
Proof. by apply bool_decide_eq_true. Qed.

(** ** Hex text and bytes *)

Lemma bytesToHex_app a b : HexBytes.bytesToHex (a ++ b) = HexBytes.bytesToHex a ++ HexBytes.bytesToHex b.
Proof. induction a as [|x a IH]; [done|]. cbn [app]. by rewrite !bytesToHex_cons, IH. Qed.

Lemma take_bytesToHex n l : take (2 * n) (HexBytes.bytesToHex l) = HexBytes.bytesToHex (take n l).
Proof.
  revert n; induction l as [|x l IH]; intros n; [rewrite (take_nil n); apply take_nil|]. destruct n as [|n]; [done|].
  replace (2 * S n)%nat with (S (S (2 * n))) by lia. cbn [take]. rewrite !bytesToHex_cons. cbn [take]. by rewrite IH.
Qed.

Lemma drop_bytesToHex n l : drop (2 * n) (HexBytes.bytesToHex l) = HexBytes.bytesToHex (drop n l).
Proof.
  revert n; induction l as [|x l IH]; intros n; [rewrite (drop_nil n); apply drop_nil|]. destruct n as [|n]; [done|].
  replace (2 * S n)%nat with (S (S (2 * n))) by lia. rewrite bytesToHex_cons. cbn [drop]. by rewrite IH.
Qed.

(** The [i]-th argument word of calldata. *)
Definition word (l : bytes) (i : nat) : bytes := take 32 (drop (4 + 32 * i) l).

Lemma wordAt_hex l i : wordAt (hex_of l) i = HexBytes.bytesToHex (word l i).
Proof.
  unfold wordAt, word, hex_of, WORD_HEX_LEN. rewrite <- take_bytesToHex, <- drop_bytesToHex.
  replace (2 + 8 + i * 64)%nat with (2 + 2 * (4 + 32 * i))%nat by lia. done.
Qed.

Lemma length_hex_of l : length (hex_of l) = (2 + 2 * length l)%nat.
Proof. unfold hex_of. rewrite length_app, length_bytesToHex. done. Qed.

Lemma selector_hex l sel : startsWith (toLowerCase (hex_of l)) (hex_of sel) = true <-> take (length sel) l = sel.
Proof.
  unfold hex_of. rewrite toLowerCase_0x, startsWith_iff. split.
  - intros [r E]. rewrite <- app_assoc in E. apply app_inv_head in E.
    apply (f_equal (take (2 * length sel))) in E. rewrite take_bytesToHex in E.
    rewrite take_length_app in E by (by rewrite length_bytesToHex). by apply HexBytes.bytesToHex_inj.
  - intros E. rewrite <- (take_drop (length sel) l), E, bytesToHex_app, app_assoc. eauto.
Qed.

Lemma decodeAddressArg_hex l i : decodeAddressArg (hex_of l) i = hex_of (drop 12 (word l i)).
Proof. unfold decodeAddressArg. rewrite wordAt_hex, (drop_bytesToHex 12), toLowerCase_bytesToHex. done. Qed.

Lemma decodeBytes32Arg_hex l i : toLowerCase (decodeBytes32Arg (hex_of l) i) = hex_of (word l i).
Proof. unfold decodeBytes32Arg. rewrite wordAt_hex, toLowerCase_bytesToHex. apply toLowerCase_0x. Qed.

(** ** Calls *)

Inductive evm_arg :=
  | ArgAddress (a : bytes)
  | ArgUint (v : Z)
  | ArgBytes32 (b : bytes).

(** What a 32-byte argument word holds; the padding of an address is free. *)
Definition arg_word (a : evm_arg) (w : bytes) : Prop :=
  match a with
  | ArgAddress x => drop 12 w = x
  | ArgUint v => be_val w = v
  | ArgBytes32 b => w = b
  end.

Definition depositNative_selector : bytes := [x49; x29; x0c; x1c].
Definition approve_selector : bytes := [x09; x5e; xa7; xb3].
Definition depositErc20_selector : bytes := [xe8; x01; x79; x52].

Section Calls.
Context `{N : Noble, L : !NobleLaws N, V : EvmTransactions, VL : !EvmTransactionsLaws V}.

(** The transaction calls [selector] with [args] on the contract [to], sending
    [value]. *)
Record evm_call (tx : EvmTransaction) (to : bytes) (value : Z) (selector : bytes) (args : list evm_arg) : Prop := {
  ec_to : exists a, evm_to tx = Some a /\ a <> [] /\ evm_addr a "address" to;
  ec_value : default 0 (evm_value tx) = value;
  ec_data : exists l, evm_data tx = Some (hex_of l) /\ length l = (4 + 32 * length args)%nat /\
    take 4 l = selector /\ forall i a, args !! i = Some a -> arg_word a (word l i) }.

Lemma recipient_ok to h : recipient to = Ok (Some h) <->
  exists a l, to = Some a /\ a <> [] /\ evm_addr a "address" l /\ h = hex_of l.
Proof using L.
  unfold recipient. destruct to as [[|c a]|].
  - split; [done|]. by intros (? & ? & [= <-] & ? & _).
  - split.
    + intros E. apply bind_ok in E as (h' & E & [= <-]). apply encode_evm_ok in E as (l & Hl & ->).
      exists (c :: a), l. split_and!; [done..|apply toLowerCase_0x].
    + intros (a' & l & [= <-] & _ & Hl & ->). rewrite (proj2 (encode_evm_ok (c :: a) (hex_of l))) by eauto.
      cbn [mbind result_bind]. do 2 f_equal. apply toLowerCase_0x.
  - split; [done|]. by intros (? & ? & ? & _).
Qed.

Lemma normalized s l : evm_addr s "encoded address" l -> normalizeEthereumAddressHex s = Ok (hex_of l).
Proof using L. intros Hl. apply normalize_evm_ok. by exists l. Qed.

Lemma normalized_inv s l : normalizeEthereumAddressHex s = Ok (toLowerCase (hex_of l)) -> evm_addr s "encoded address" l.
Proof using L.
  intros E. apply normalize_evm_ok in E as (k & Hk & E). unfold hex_of in E. rewrite toLowerCase_0x in E.
  by apply hex_of_inj in E as ->.
Qed.

Lemma evm_addr_fun s f a b : evm_addr s f a -> evm_addr s f b -> a = b.
Proof using. intros [E _] [E' _]. congruence. Qed.

Lemma call_recipient tx to value sel args : evm_call tx to value sel args -> recipient (evm_to tx) = Ok (Some (hex_of to)).
Proof using L. intros [(a & Ha & Hne & Hl) _ _]. apply recipient_ok. by exists a, to. Qed.

Lemma toLowerCase_hex_of l : toLowerCase (hex_of l) = hex_of l.
Proof using. apply toLowerCase_0x. Qed.

(** The selector and length tests. *)
Lemma call_data s tx sel n : parseTransaction s = Ok tx -> length sel = 4%nat ->
  let data := default (js "0x") (evm_data tx) in
  startsWith (toLowerCase data) (hex_of sel) = true /\ length data = (2 + 8 + n * WORD_HEX_LEN)%nat <->
  exists l, evm_data tx = Some (hex_of l) /\ length l = (4 + 32 * n)%nat /\ take 4 l = sel.
Proof using VL.
  intros Hp Hs. cbv zeta. unfold WORD_HEX_LEN. split.
  - intros [H1 H2]. destruct (evm_data tx) as [d|] eqn:Ed; cbn [from_option id] in *; [|cbn in H2; lia].
    destruct (evm_data_hex _ _ _ Hp Ed) as [l ->]. exists l. apply selector_hex in H1. rewrite Hs in H1.
    rewrite length_hex_of in H2. split_and!; [done|lia|done].
  - intros (l & -> & Hl & Ht). cbn [from_option id]. rewrite length_hex_of, Hl. split; [|lia]. apply selector_hex. by rewrite Hs.
Qed.

Lemma length_word_at l n i : length l = (4 + 32 * n)%nat -> (i < n)%nat -> length (word l i) = 32%nat.
Proof using. intros Hl Hi. unfold word. rewrite length_take, length_drop, Hl. lia. Qed.

(** An address argument, always readable. *)
Lemma address_arg l n i : length l = (4 + 32 * n)%nat -> (i < n)%nat ->
  encodeEthereumAddressToHex (decodeAddressArg (hex_of l) i) = Ok (hex_of (drop 12 (word l i))) /\
  length (drop 12 (word l i)) = 20%nat.
Proof using L.
  intros Hl Hi. pose proof (length_word_at l n i Hl Hi) as Hw.
  assert (length (drop 12 (word l i)) = 20%nat) as Ha by (rewrite length_drop, Hw; done). split; [|done].
  rewrite decodeAddressArg_hex. apply encode_evm_ok. exists (drop 12 (word l i)).
  split; [|done]. split; [apply hexToBytes_print_0x|done].
Qed.

Lemma uint_arg l n i : length l = (4 + 32 * n)%nat -> (i < n)%nat ->
  decodeUint256Arg (hex_of l) i = Ok (be_val (word l i)).
Proof using.
  intros Hl Hi. unfold decodeUint256Arg. rewrite wordAt_hex. apply BigInt_hex0x.
  intros E. pose proof (length_word_at l n i Hl Hi) as Hw. by rewrite E in Hw.
Qed.

Lemma native_deposit_iff trigger attestation txs depository :
  evm_addr (ta_inputDepository attestation) "encoded address" depository ->
  verifyNativeDeposit trigger attestation txs = Ok tt <->
  exists tx parsed amount depositor oid, txs = [tx] /\ parseTransaction (et_unsignedTransaction tx) = Ok parsed /\
    BigInt (in_amount (tr_input trigger)) = Ok amount /\
    evm_addr (df_depositor (tr_derivationFields trigger)) "encoded address" depositor /\
    toLowerCase (tr_orderId trigger) = hex_of oid /\
    evm_call parsed depository amount depositNative_selector [ArgAddress depositor; ArgBytes32 oid].
Proof using L VL.
  intros Hdep. unfold verifyNativeDeposit. split.
  - intros Hv. destruct txs as [|tx [|]]; [done| |done]. res_inv Hv. bool_prop. subst r1.
    apply normalize_evm_ok in Hs0 as (d & Hd & ->). assert (d = depository) as -> by (destruct Hd, Hdep; congruence).
    apply recipient_ok in Hs1 as (a & t & Ha & Hne & Ht & Et). apply hex_of_inj in Et as <-.
    destruct (proj1 (call_data _ _ depositNative_selector 2 Hs eq_refl) (conj Hs5 Hs6)) as (l & El & Hl & Hsel).
    rewrite El in *. cbn [from_option id] in *.
    destruct (address_arg l 2 0 Hl ltac:(lia)) as [Earg Hlen]. rewrite Earg in Hs7. injection Hs7 as <-.
    apply normalize_evm_ok in Hs8 as (dep & Hd8 & ->). rewrite toLowerCase_hex_of in Hs9.
    apply hex_of_inj in Hs9. rewrite decodeBytes32Arg_hex in Hs10.
    exists tx, r, r3, dep, (word l 1). split_and!; [done..|]. split; [eauto|done|].
    exists l. split_and!; [done..|]. intros [|[|i]] x Hx; cbn in Hx; [injection Hx as <-; exact Hs9|by injection Hx as <-|done].
  - intros (tx & parsed & amount & depositor & oid & -> & Hp & Ha & Hd & Hid & Hcall).
    rewrite Hp. cbn [mbind result_bind]. rewrite (normalized _ _ Hdep). cbn [mbind result_bind].
    rewrite (call_recipient _ _ _ _ _ Hcall). cbn [mbind result_bind]. destruct Hcall as [_ Hval (l & El & Hl & Hsel & Hargs)].
    rewrite decide_refl. cbn [negb check mbind result_bind]. rewrite Ha. cbn [mbind result_bind].
    rewrite Hval, Z.eqb_refl. cbn [negb check mbind result_bind].
    destruct (proj2 (call_data _ _ depositNative_selector 2 Hp eq_refl)) as [E1 E2]; [eauto|].
    change DEPOSIT_NATIVE_SELECTOR with (hex_of depositNative_selector). rewrite E1, E2. rewrite Nat.eqb_refl.
    cbn [negb check mbind result_bind]. rewrite El. cbn [from_option id].
    destruct (address_arg l 2 0 Hl ltac:(lia)) as [-> Hlen]. cbn [mbind result_bind].
    rewrite (normalized _ _ Hd). cbn [mbind result_bind].
    pose proof (Hargs 0%nat _ eq_refl) as H0. pose proof (Hargs 1%nat _ eq_refl) as H1. cbn [arg_word] in H0, H1.
    rewrite H0. rewrite toLowerCase_hex_of, decide_refl. cbn [negb check mbind result_bind].
    by rewrite decodeBytes32Arg_hex, H1, Hid, decide_refl.
Qed.

Lemma assertZeroValue_ok v u : assertZeroValue v = Ok u <-> default 0 v = 0.
Proof using.
  unfold assertZeroValue. destruct u. split.
  - intros Hv. res_inv Hv. by bool_prop.
  - intros ->. done.
Qed.

Lemma erc20_deposit_sound trigger attestation txs : verifyErc20Deposit trigger attestation txs = Ok tt ->
  exists t0 t1 p0 p1 amount token depository depositor oid, txs = [t0; t1] /\
    parseTransaction (et_unsignedTransaction t0) = Ok p0 /\ parseTransaction (et_unsignedTransaction t1) = Ok p1 /\
    BigInt (in_amount (tr_input trigger)) = Ok amount /\
    evm_addr (in_currency (tr_input trigger)) "encoded address" token /\
    evm_addr (ta_inputDepository attestation) "encoded address" depository /\
    evm_addr (df_depositor (tr_derivationFields trigger)) "encoded address" depositor /\
    toLowerCase (tr_orderId trigger) = hex_of oid /\
    evm_call p0 token 0 approve_selector [ArgAddress depository; ArgUint amount] /\
    evm_call p1 depository 0 depositErc20_selector
      [ArgAddress depositor; ArgAddress token; ArgUint amount; ArgBytes32 oid].
Proof using L VL.
  unfold verifyErc20Deposit. intros Hv. destruct txs as [|t0 [|t1 [|]]]; [done|done| |done].
  res_inv Hv. bool_prop. subst.
  repeat match goal with
  | X : assertZeroValue _ = Ok _ |- _ => apply assertZeroValue_ok in X
  | X : normalizeEthereumAddressHex _ = Ok _ |- _ => apply normalize_evm_ok in X as (? & ? & ->)
  | X : recipient _ = Ok (Some _) |- _ => apply recipient_ok in X as (? & ? & ? & ? & ? & ?%hex_of_inj); subst
  end.
  match goal with X : startsWith _ ERC20_APPROVE_SELECTOR = true, Y : length _ = (_ + 2 * _)%nat, P : parseTransaction (et_unsignedTransaction t0) = _ |- _ =>
    destruct (proj1 (call_data _ _ approve_selector 2 P eq_refl) (conj X Y)) as (l0 & El0 & Hl0 & Hsel0) end.
  match goal with X : startsWith _ DEPOSIT_ERC20_SELECTOR = true, Y : length _ = (_ + 4 * _)%nat, P : parseTransaction (et_unsignedTransaction t1) = _ |- _ =>
    destruct (proj1 (call_data _ _ depositErc20_selector 4 P eq_refl) (conj X Y)) as (l1 & El1 & Hl1 & Hsel1) end.
  rewrite El0, El1 in *. cbn [from_option id] in *.
  rewrite (proj1 (address_arg l0 2 0 Hl0 ltac:(lia))), (uint_arg l0 2 1 Hl0) in * by lia.
  rewrite (proj1 (address_arg l1 4 0 Hl1 ltac:(lia))), (proj1 (address_arg l1 4 1 Hl1 ltac:(lia))), (uint_arg l1 4 2 Hl1),
    decodeBytes32Arg_hex in * by lia.
  repeat match goal with X : Ok _ = Ok _ |- _ => injection X as X; try subst end.
  repeat match goal with X : normalizeEthereumAddressHex _ = Ok (toLowerCase _) |- _ => apply normalized_inv in X end.
  rename select (evm_addr (in_currency _) _ (drop _ _)) into Ht. rename select (evm_addr (ta_inputDepository _) _ (drop _ _)) into Hd.
  pose proof (evm_addr_fun _ _ _ _ Ht H0) as Htok. pose proof (evm_addr_fun _ _ _ _ Hd H) as Hdep.
  exists t0, t1, r0, r12, (be_val (word l1 2)), x3, x2, (drop 12 (word l1 0)), (word l1 3). split_and!; try done.
  - split; [eauto|done|]. exists l0. split_and!; [done..|].
    intros [|[|i]] a Ha; cbn in Ha; [injection Ha as <-; exact Hdep|by injection Ha as <-|done].
  - split; [eauto|done|]. exists l1. split_and!; [done..|].
    intros [|[|[|[|i]]]] a Ha; cbn in Ha; [by injection Ha as <-|injection Ha as <-; exact Htok|by injection Ha as <-..|done].
Qed.

Lemma zero_address l : length l = 20%nat -> hex_of l = ZERO_ADDRESS <-> l = zeros 20.
Proof using.
  intros Hl. change ZERO_ADDRESS with (hex_of (zeros 20)). split; [apply hex_of_inj|by intros ->].
Qed.

(** An authorized batch: the native deposit is one call of [depositNative],
    carrying the amount; a token deposit is an [approve] of exactly the amount
    for the depository, then [depositErc20] of it. *)
Definition evm_deposit (trigger : DepositAddressTrigger) (attestation : DepositAddressTriggerAttestation)
    (txs : list EthereumVmTransaction) (amount : Z) : Prop :=
  exists token depository depositor oid,
    BigInt (in_amount (tr_input trigger)) = Ok amount /\
    evm_addr (in_currency (tr_input trigger)) "encoded address" token /\
    evm_addr (ta_inputDepository attestation) "encoded address" depository /\
    evm_addr (df_depositor (tr_derivationFields trigger)) "encoded address" depositor /\
    toLowerCase (tr_orderId trigger) = hex_of oid /\
    (token = zeros 20 /\ (exists t p, txs = [t] /\ parseTransaction (et_unsignedTransaction t) = Ok p /\
       evm_call p depository amount depositNative_selector [ArgAddress depositor; ArgBytes32 oid]) \/
     token <> zeros 20 /\ exists t0 t1 p0 p1, txs = [t0; t1] /\
       parseTransaction (et_unsignedTransaction t0) = Ok p0 /\ parseTransaction (et_unsignedTransaction t1) = Ok p1 /\
       evm_call p0 token 0 approve_selector [ArgAddress depository; ArgUint amount] /\
       evm_call p1 depository 0 depositErc20_selector
         [ArgAddress depositor; ArgAddress token; ArgUint amount; ArgBytes32 oid]).

Lemma native_depository trigger attestation txs : verifyNativeDeposit trigger attestation txs = Ok tt ->
  exists depository, evm_addr (ta_inputDepository attestation) "encoded address" depository.
Proof using L.
  unfold verifyNativeDeposit. destruct txs as [|t [|]]; [done| |done]. intros Hv. res_inv Hv.
  apply normalize_evm_ok in Hs0 as (d & Hd & _). by exists d.
Qed.

Lemma evm_policy_sound trigger attestation txs : evm_verifyTransactions trigger attestation txs = Ok tt ->
  exists amount, evm_deposit trigger attestation txs amount.
Proof using L VL.
  unfold evm_verifyTransactions. intros Hv. apply bind_ok in Hv as (c & Hc & Hv).
  apply normalize_evm_ok in Hc as (token & Ht & ->). case_bool_decide as Hz.
  - apply zero_address in Hz; [|apply Ht]. destruct (native_depository _ _ _ Hv) as [d Hd].
    apply (native_deposit_iff _ _ _ d Hd) in Hv as (t & p & amount & depositor & oid & -> & Hp & Ha & Hdep & Hid & Hcall).
    exists amount, token, d, depositor, oid. split_and!; [done..|]. left. eauto 10.
  - apply erc20_deposit_sound in Hv as (t0 & t1 & p0 & p1 & amount & tk & d & depositor & oid & -> & Hp0 & Hp1 & Ha & Htk & Hd & Hdep & Hid & C0 & C1).
    pose proof (evm_addr_fun _ _ _ _ Htk Ht) as ->.
    exists amount, token, d, depositor, oid. split_and!; [done..|]. right.
    split; [intros ->; by apply Hz, zero_address|eauto 12].
Qed.
End Calls.

(** ** The signed transaction *)

Section Sign.
Context `{N : Noble, L : !NobleLaws N, V : EvmTransactions, S : Secp256k1, SL : !Secp256k1Laws S}.

(** The signature in the form the transaction's type asks for. *)
Definition evm_signature (p : EvmTransaction) (sig : bytes) (signature : EvmSignature) : Prop :=
  let r := hex_of (take 32 (drop 1 sig)) in let s := hex_of (drop 33 sig) in
  let yParity := if byte_at sig 0 =? 0 then 0 else 1 in
  if bool_decide (evm_type p = Some (js "legacy")) then
    exists chainId, evm_chainId p = Some chainId /\ signature = SigV r s (35 + chainId * 2 + yParity)
  else signature = SigParity r s yParity.

Lemma evm_digest_signature digest key out : signEvmDigest digest key = Ok out ->
  exists sig, secp_sign digest key = Ok sig /\ take 32 out = take 32 (drop 1 sig) /\
    take 32 (drop 32 out) = drop 33 sig /\ byte_at out 64 = if byte_at sig 0 =? 0 then 27 else 28.
Proof using SL.
  unfold signEvmDigest. intros Hv. apply bind_ok in Hv as (sig & Hs & Hv).
  assert (out = <[64%nat := u8 (if byte_at sig 0 =? 0 then 27 else 28)]> (set_at (zeros 65) 0 (drop 1 sig))) as -> by congruence.
  clear Hv. exists sig. split; [done|].
  pose proof (secp_sign_length _ _ _ Hs) as Hl. destruct sig as [|b rs]; [done|]. cbn [drop].
  assert (length rs = 64%nat) as Hr by (cbn in Hl; lia). clear Hl Hs.
  rewrite !drop_0. assert (set_at (zeros 65) 0 rs = rs ++ [x00]) as ->.
  { unfold set_at, zeros. rewrite take_0, drop_replicate, Hr. done. }
  rewrite insert_app_r_alt, Hr by lia. cbn [list_insert Nat.sub insert].
  rewrite take_app_le, drop_app_le by lia. rewrite (take_app_le _ _ 32) by (rewrite length_drop; lia).
  split; [done|]. split; [rewrite take_ge by (rewrite length_drop; lia); done|].
  unfold byte_at at 1. rewrite lookup_app_r, Hr by lia. cbn [Nat.sub lookup list_lookup fmap option_fmap option_map from_option id].
  change (byte_at (b :: rs) 0) with (bz b). by destruct (bz b =? 0).
Qed.

Lemma evm_sign_sound key tx signed : evm_signTransactionWithKey key tx = Ok signed ->
  exists p unsigned sig signature raw, parseTransaction (et_unsignedTransaction tx) = Ok p /\
    hexToBytes (et_unsignedTransaction tx) "unsignedTransaction" = Ok unsigned /\
    secp_sign (noble_keccak_256 unsigned) key = Ok sig /\ evm_signature p sig signature /\
    serializeTransaction p signature = Ok (et_rawTransaction signed) /\
    hexToBytes (et_rawTransaction signed) "rawTransaction" = Ok raw /\
    et_transactionHash signed = hex_of (noble_keccak_256 raw).
Proof using L SL.
  unfold evm_signTransactionWithKey. intros Hv. cbv zeta in Hv. apply bind_ok in Hv as (p & Hp & Hv).
  apply bind_ok in Hv as (unsigned & Hu & Hv). apply bind_ok in Hv as (out & Ho & Hv).
  apply bind_ok in Hv as (signature & Hsg & Hv). apply bind_ok in Hv as (rt & Hrt & Hv).
  apply bind_ok in Hv as (raw & Hraw & Hv). rewrite print_hex_of in Hv.
  apply evm_digest_signature in Ho as (sig & Hs & H1 & H2 & H3).
  exists p, unsigned, sig, signature, raw. 
  assert (signed = {| et_rawTransaction := rt; et_transactionHash := hex_of (noble_keccak_256 raw) |}) as -> by congruence.
  cbn [et_rawTransaction et_transactionHash]. split_and!; try done.
  unfold buildSignature in Hsg. rewrite !print_hex_of, H1, H2, H3 in Hsg. unfold evm_signature. cbv zeta in *.
  assert (((if byte_at sig 0 =? 0 then 27 else 28) =? 27) = (byte_at sig 0 =? 0)) as Hy by (by destruct (_ =? 0)).
  rewrite Hy in Hsg. case_bool_decide; [|congruence]. apply bind_ok in Hsg as (c & Hc & Hsg). apply require_ok in Hc.
  exists c. split; [done|]. congruence.
Qed.

(** what an authorized Ethereum sweep calls.  The policy accepts only the
    deposit of the trigger: for the native currency one transaction that sends
    exactly [trigger.input.amount] to the attested depository as
    [depositNative(depositor, orderId)]; for a token two that send no value,
    [approve(depository, amount)] on the token and then
    [depositErc20(depositor, token, amount, orderId)] on the depository.  Each
    signature the wallet returns is over the Keccak hash of the unsigned bytes,
    in the form of the transaction's type, and the raw transaction is the
    serialization of the very transaction that was checked. *)
Theorem ethereum_sweep_pays_depository `{VL : !EvmTransactionsLaws V} trigger attestation txs :
  evm_verifyTransactions trigger attestation txs = Ok tt ->
  (exists amount, evm_deposit trigger attestation txs amount) /\
  forall key tx signed, tx ∈ txs -> evm_signTransactionWithKey key tx = Ok signed ->
    exists p unsigned sig signature raw, parseTransaction (et_unsignedTransaction tx) = Ok p /\
      hexToBytes (et_unsignedTransaction tx) "unsignedTransaction" = Ok unsigned /\
      secp_sign (noble_keccak_256 unsigned) key = Ok sig /\ evm_signature p sig signature /\
      serializeTransaction p signature = Ok (et_rawTransaction signed) /\
      hexToBytes (et_rawTransaction signed) "rawTransaction" = Ok raw /\
      et_transactionHash signed = hex_of (noble_keccak_256 raw).
Proof using L SL.
  intros Hv. split; [by apply evm_policy_sound|]. intros key tx signed _. apply evm_sign_sound.
Qed.
End Sign.

(** ** A concrete sweep *)

(** Transactions laid out as recipient, one byte of value, data. *)
Definition toy_evm : EvmTransactions := {|
  EvmTransaction := bytes;
  evm_to := fun l => Some (hex_of (take 20 l));
  evm_value := fun l => bz <$> l !! 20%nat;
  evm_data := fun l => Some (hex_of (drop 21 l));
  evm_type := fun _ => Some (js "eip1559");
  evm_chainId := fun _ => Some 1;
  parseTransaction := fun s => Ok (parse_pairs (drop 2 s));
  serializeTransaction := fun l s => Ok (hex_of l) |}.
Lemma toy_evm_laws : EvmTransactionsLaws toy_evm.
Proof. intros s tx d _ [= <-]. by exists (drop 21 tx). Qed.

Definition evm_tx (to : byte) (value : byte) (data : bytes) : EthereumVmTransaction :=
  {| et_unsignedTransaction := hex_of (replicate 20 to ++ [value] ++ data) |}.
Definition evm_trigger (currency : byte) : DepositAddressTrigger := {|
  tr_input := toy_input "ethereum-vm" (hex_of (replicate 20 currency)) "200";
  tr_derivationFields := toy_fields "ethereum-vm" (hex_of (replicate 20 x0d)) [];
  tr_orderId := hex_of (replicate 32 xab); tr_nonce := js "1"; tr_currencies := []; tr_prices := []; tr_extraData := [] |}.
Definition evm_attestation : DepositAddressTriggerAttestation := {|
  ta_chainId := 1; ta_depositAddressManager := []; ta_inputDepository := hex_of (replicate 20 x0e);
  ta_triggerHash := []; ta_signatures := [] |}.
Definition pad_address (b : byte) : bytes := zeros 12 ++ replicate 20 b.
Definition amount_word : bytes := zeros 31 ++ [xc8].

Definition native_batch : list EthereumVmTransaction :=
  [evm_tx x0e xc8 (depositNative_selector ++ pad_address x0d ++ replicate 32 xab)].
Definition erc20_batch : list EthereumVmTransaction :=
  [evm_tx x11 x00 (approve_selector ++ pad_address x0e ++ amount_word);
   evm_tx x0e x00 (depositErc20_selector ++ pad_address x0d ++ pad_address x11 ++ amount_word ++ replicate 32 xab)].

Example native_batch_accepted : @evm_verifyTransactions toy_noble toy_evm (evm_trigger x00) evm_attestation native_batch = Ok tt.
Proof. vm_compute. reflexivity. Qed.

Lemma ethereum_sweep_witness :
  exists amount, @evm_deposit toy_noble toy_evm (evm_trigger x11) evm_attestation erc20_batch amount.
Proof.
  destruct (@ethereum_sweep_pays_depository toy_noble toy_noble_laws toy_evm toy_secp toy_secp_laws toy_evm_laws
              (evm_trigger x11) evm_attestation erc20_batch) as [H _]; [vm_compute; reflexivity|]. exact H.
Defined.
