(* ===== verification/TronTx.v ===== *)
(** * Tron deposit transactions

    packages/lit-deposit-address/src/common/address/tron.ts,
    common/tron/transaction.ts, derivation/vm/tron/policy.ts and
    TronVmWalletDeriver.ts.  TronWeb's protobuf codec is [TronWeb]; what its
    decoder returns is a JSON tree whose numbers are integers.  viem's
    [encodeFunctionData] is an operation of [TronAbi].  The second half shows
    what a Tron sweep pays. *)

From Stdlib Require Import Strings.Byte.
From S2P Require Import Prelude JsNum JsString JsJson Scanner HexBytes ToyRuntime DepositBytes DepositTypes DepositAttestation BitcoinTx DepositAction TonDeriver EvmAddress EvmTx.
Local Open Scope Z_scope.
Local Open Scope js_scope.

Record TronVmTransaction := { tv_purpose : jsstring; tv_rawData : jsstring }.
Record TronVmSignedTransaction := { tv_rawTransaction : jsstring; tv_transactionHash : jsstring }.

(** ** common/address/tron.ts *)

Definition TRON_MAINNET_PREFIX : Z := 0x41.
Definition TRON_ADDRESS_LENGTH : nat := 21.
Definition CHECKSUM_LENGTH : nat := 4.

Section Address.
Context `{N : Noble, B : Scure, S : Secp256k1}.

Definition checksum (payload : bytes) : bytes := take CHECKSUM_LENGTH (noble_sha256 (noble_sha256 payload)).

Definition encodeTronAddress (address : jsstring) : result bytes :=
  decoded ← catch (base58_decode address) "invalid Tron address encoding";
  fail_if negb (Nat.eqb (length decoded) (TRON_ADDRESS_LENGTH + CHECKSUM_LENGTH)) with "invalid Tron address length" ;;
  let payload := take TRON_ADDRESS_LENGTH decoded in
  fail_if negb (byte_at payload 0 =? TRON_MAINNET_PREFIX) with "invalid Tron address prefix" ;;
  fail_if negb (equalBytes (drop TRON_ADDRESS_LENGTH decoded) (checksum payload)) with "invalid Tron address checksum" ;;
  Ok payload.

Definition decodeTronAddress (encoded : bytes) : result jsstring :=
  fail_if negb (Nat.eqb (length encoded) TRON_ADDRESS_LENGTH) with "invalid Tron address length" ;;
  fail_if negb (byte_at encoded 0 =? TRON_MAINNET_PREFIX) with "invalid Tron address prefix" ;;
  Ok (base58_encode (HexBytes.concatBytes [encoded; checksum encoded])).

Definition tronAddressFromPublicKey (publicKeyHex : jsstring) : result jsstring :=
  publicKey ← hexToBytes publicKeyHex "Tron public key";
  uncompressed ← secp_uncompress (bytesToHex publicKey);
  let payload := HexBytes.concatBytes [[u8 TRON_MAINNET_PREFIX]; drop 12 (noble_keccak_256 (drop 1 uncompressed))] in
  decodeTronAddress payload.
End Address.

(** ** common/tron/transaction.ts *)

Definition TRIGGER_SMART_CONTRACT_TYPE_URL : jsstring := js "type.googleapis.com/protocol.TriggerSmartContract".

(** The fields of [TronWebRawData] that are not fixed by its type. *)
Record TronWebRawData := {
  tw_owner_address : jsstring;
  tw_contract_address : jsstring;
  tw_call_value : Z;
  tw_data : jsstring;
  tw_fee_limit : Z;
  tw_ref_block_bytes : jsstring;
  tw_ref_block_hash : jsstring;
  tw_expiration : Z;
  tw_timestamp : Z;
}.

(** The JSON object of a [TronWebRawData]. *)
Definition tron_raw_json (d : TronWebRawData) : Json := JObj [
  (js "contract", JArr [JObj [
     (js "parameter", JObj [
        (js "value", JObj [
           (js "owner_address", JStr (tw_owner_address d)); (js "contract_address", JStr (tw_contract_address d));
           (js "call_value", JNum (tw_call_value d)); (js "data", JStr (tw_data d));
           (js "call_token_value", JNum 0); (js "token_id", JNum 0)]);
        (js "type_url", JStr TRIGGER_SMART_CONTRACT_TYPE_URL)]);
     (js "type", JStr (js "TriggerSmartContract")); (js "Permission_id", JNum 0)]]);
  (js "data", JStr []); (js "fee_limit", JNum (tw_fee_limit d));
  (js "ref_block_bytes", JStr (tw_ref_block_bytes d)); (js "ref_block_hash", JStr (tw_ref_block_hash d));
  (js "expiration", JNum (tw_expiration d)); (js "timestamp", JNum (tw_timestamp d));
  (js "scripts", JStr []); (js "auths", JArr [])].

Record ParsedTronTriggerSmartContract := {
  tc_type : jsstring;
  tc_ownerAddress : jsstring;
  tc_contractAddress : jsstring;
  tc_callValue : Z;
  tc_data : jsstring;
}.
Record ParsedTronRawData := {
  td_refBlockBytes : jsstring;
  td_refBlockHash : jsstring;
  td_expiration : Z;
  td_timestamp : Z;
  td_feeLimit : Z;
  td_contract : ParsedTronTriggerSmartContract;
}.
Record ParsedTronTransaction := { tp_rawData : ParsedTronRawData; tp_rawDataBytes : bytes }.

(** TronWeb.  [txJsonToPb] may return something that is not a transaction. *)
Class TronWeb := {
  TronPb : Type;
  deserializeTransaction : jsstring -> jsstring -> result Json;
  txJsonToPb : Json -> result (option TronPb);
  pb_getRawData : TronPb -> bytes;
  pb_addSignature : TronPb -> bytes -> TronPb;
  pb_serializeBinary : TronPb -> bytes;
}.

(** A field of an object, [undefined] when absent. *)
Fixpoint field (k : jsstring) (fields : list (jsstring * Json)) : Json :=
  match fields with
  | [] => JUndefined
  | (k', v) :: rest => if bool_decide (k' = k) then v else field k rest
  end.

Definition record (value : Json) (name : string) : result (list (jsstring * Json)) :=
  match value with JObj fields => Ok fields | _ => throw (name +:+ " must be an object") end.

Definition stringField (value : Json) (name : string) : result jsstring :=
  match value with JStr s => Ok s | _ => throw (name +:+ " must be a string") end.

Definition integerField (value : Json) (name : string) : result Z :=
  match value with
  | JNum n => fail_if (MAX_SAFE_INTEGER <? Z.abs n) || (n <? 0) with (name +:+ " must be a non-negative safe integer") ;; Ok n
  | _ => throw (name +:+ " must be a non-negative safe integer")
  end.

(** [/^(?:[0-9a-f]{2})*$/u]. *)
Definition is_lower_hex (c : Z) : bool := in_range 48 57 c || in_range 97 102 c.
Definition hexField (value : Json) (name : string) : result jsstring :=
  s ← stringField value name;
  let normalized := toLowerCase s in
  fail_if negb (forallb is_lower_hex normalized && Nat.eqb (length normalized mod 2) 0) with (name +:+ " must be even-length hex") ;;
  Ok normalized.

Definition fixedHex (value : Json) (name : string) (byteLength : nat) : result jsstring :=
  normalized ← hexField value name;
  fail_if negb (Nat.eqb (length normalized) (byteLength * 2)) with (name +:+ " has the wrong length") ;;
  Ok normalized.

(** The one element of an array. *)
Definition single (value : Json) (msg : string) : result Json :=
  match value with JArr [x] => Ok x | _ => throw msg end.

Definition tronWebRawData (value : Json) : result TronWebRawData :=
  rawData ← record value "Tron raw_data";
  contract0 ← single (field (js "contract") rawData) "Tron raw_data must contain exactly one contract";
  contract ← record contract0 "Tron contract";
  fail_if (match field (js "type") contract with
           | JStr s => negb (bool_decide (s = js "TriggerSmartContract")) | _ => true end)
    with "Tron contract must be TriggerSmartContract" ;;
  permission ← integerField (field (js "Permission_id") contract) "Tron contract Permission_id";
  fail_if negb (permission =? 0) with "Tron contract Permission_id must be zero" ;;
  parameter ← record (field (js "parameter") contract) "Tron contract parameter";
  typeUrl ← stringField (field (js "type_url") parameter) "Tron contract type_url";
  fail_if negb (bool_decide (typeUrl = TRIGGER_SMART_CONTRACT_TYPE_URL))
    with "Tron contract type_url must identify TriggerSmartContract" ;;
  trigger ← record (field (js "value") parameter) "Tron TriggerSmartContract";
  callTokenValue ← integerField (field (js "call_token_value") trigger) "Tron TriggerSmartContract call_token_value";
  tokenId ← integerField (field (js "token_id") trigger) "Tron TriggerSmartContract token_id";
  fail_if negb (callTokenValue =? 0) || negb (tokenId =? 0) with "Tron TriggerSmartContract token fields must be zero" ;;
  memo ← stringField (field (js "data") rawData) "Tron raw_data data";
  scripts ← stringField (field (js "scripts") rawData) "Tron raw_data scripts";
  fail_if negb (bool_decide (memo = [])) || negb (bool_decide (scripts = []))
    with "Tron raw_data memo and scripts must be empty" ;;
  fail_if (match field (js "auths") rawData with JArr [] => false | _ => true end) with "Tron raw_data auths must be empty" ;;
  timestamp ← integerField (field (js "timestamp") rawData) "Tron raw_data timestamp";
  expiration ← integerField (field (js "expiration") rawData) "Tron raw_data expiration";
  fail_if (timestamp =? 0) || (expiration =? 0) with "Tron raw_data timestamp and expiration are required" ;;
  owner_address ← fixedHex (field (js "owner_address") trigger) "Tron TriggerSmartContract owner_address" 21;
  contract_address ← fixedHex (field (js "contract_address") trigger) "Tron TriggerSmartContract contract_address" 21;
  call_value ← integerField (field (js "call_value") trigger) "Tron TriggerSmartContract call_value";
  data ← hexField (field (js "data") trigger) "Tron TriggerSmartContract data";
  fee_limit ← integerField (field (js "fee_limit") rawData) "Tron raw_data fee_limit";
  ref_block_bytes ← fixedHex (field (js "ref_block_bytes") rawData) "Tron raw_data ref_block_bytes" 2;
  ref_block_hash ← fixedHex (field (js "ref_block_hash") rawData) "Tron raw_data ref_block_hash" 8;
  Ok {| tw_owner_address := owner_address; tw_contract_address := contract_address; tw_call_value := call_value;
        tw_data := data; tw_fee_limit := fee_limit; tw_ref_block_bytes := ref_block_bytes;
        tw_ref_block_hash := ref_block_hash; tw_expiration := expiration; tw_timestamp := timestamp |}.

(** [left.length === right.length && left.every((value, index) => value === right[index])]. *)
Definition tron_equalBytes (left right : bytes) : bool :=
  Nat.eqb (length left) (length right) && forallb (fun '(a, b) => bool_decide (a = b)) (zip left right).

Section Transaction.
Context `{N : Noble, W : TronWeb}.

Definition protobufTransaction (value : option TronPb) : result TronPb :=
  require value "TronWeb returned an invalid protobuf transaction".

Definition encodeWithTronWeb (rawData : TronWebRawData) : result TronPb :=
  encoded ← txJsonToPb (JObj [(js "visible", JBool false); (js "txID", JStr []); (js "raw_data_hex", JStr []);
                              (js "raw_data", tron_raw_json rawData)]);
  protobufTransaction encoded.

(** [BigInt] of a safe integer and back is the integer. *)
Definition decodeTronRawData (encoded : jsstring) : result ParsedTronTransaction :=
  rawDataBytes ← hexToBytes encoded "Tron raw_data";
  decoded ← catch (deserializeTransaction (js "TriggerSmartContract") (bytesToHex rawDataBytes)) "invalid Tron raw_data";
  decodedRawData ← tronWebRawData decoded;
  transaction ← encodeWithTronWeb decodedRawData;
  let reencoded := pb_getRawData transaction in
  fail_if negb (tron_equalBytes rawDataBytes reencoded) with "Tron raw_data is not canonical" ;;
  Ok {| tp_rawData := {|
          td_refBlockBytes := tw_ref_block_bytes decodedRawData; td_refBlockHash := tw_ref_block_hash decodedRawData;
          td_expiration := tw_expiration decodedRawData; td_timestamp := tw_timestamp decodedRawData;
          td_feeLimit := tw_fee_limit decodedRawData;
          td_contract := {|
            tc_type := js "TriggerSmartContract"; tc_ownerAddress := tw_owner_address decodedRawData;
            tc_contractAddress := tw_contract_address decodedRawData; tc_callValue := tw_call_value decodedRawData;
            tc_data := tw_data decodedRawData |} |};
        tp_rawDataBytes := rawDataBytes |}.

Definition parsedRawData (rawData : ParsedTronRawData) : TronWebRawData := {|
  tw_owner_address := tc_ownerAddress (td_contract rawData);
  tw_contract_address := tc_contractAddress (td_contract rawData);
  tw_call_value := tc_callValue (td_contract rawData); tw_data := tc_data (td_contract rawData);
  tw_fee_limit := td_feeLimit rawData; tw_ref_block_bytes := td_refBlockBytes rawData;
  tw_ref_block_hash := td_refBlockHash rawData; tw_expiration := td_expiration rawData;
  tw_timestamp := td_timestamp rawData |}.

Definition tronTransactionHash (encodedRawData : jsstring) : result jsstring :=
  parsed ← decodeTronRawData encodedRawData; Ok (bytesToHex (noble_sha256 (tp_rawDataBytes parsed))).

Definition encodeSignedTronTransaction (parsed : ParsedTronTransaction) (signature : bytes) : result jsstring :=
  fail_if negb (Nat.eqb (length signature) 65) with "Tron signature must be 65 bytes" ;;
  transaction ← encodeWithTronWeb (parsedRawData (tp_rawData parsed));
  let reencoded := pb_getRawData transaction in
  fail_if negb (tron_equalBytes (tp_rawDataBytes parsed) reencoded) with "Tron raw_data changed before signing" ;;
  let transaction := pb_addSignature transaction signature in
  Ok (js "0x" ++ bytesToHex (pb_serializeBinary transaction)).
End Transaction.

(** ** policy.ts *)

Definition TRON_NATIVE_CURRENCY : jsstring := js "410000000000000000000000000000000000000000".
Definition MAX_EXPIRATION_WINDOW_MS : Z := 3600000.
Definition MAX_FUTURE_TIMESTAMP_MS : Z := 60000.
Definition MAX_FEE_LIMIT : Z := 1000000000.
Definition DEPOSITORY_ABI : list string :=
  ["function depositNative(address depositor, bytes32 id)";
   "function depositErc20(address depositor, address token, uint256 amount, bytes32 id)"].
Definition ERC20_ABI : list string := ["function approve(address spender, uint256 amount)"].

(** viem's [encodeFunctionData({ abi: parseAbi(abi), functionName, args })]. *)
Class TronAbi := { encodeFunctionData : list string -> string -> list AbiValue -> result jsstring }.

Section Policy.
Context `{N : Noble, B : Scure, W : TronWeb, A : TronAbi}.
(** [BigInt(Date.now())]. *)
Context (now_ms : Z).

Definition addressHex (value : jsstring) (name : string) : result jsstring :=
  l ← hexToBytes value name;
  _ ← catch (decodeTronAddress l) (name +:+ " must be a settlement-encoded Tron address");
  Ok (bytesToHex l).

Definition protocolHexToAbiAddress (value : jsstring) : jsstring := js "0x" ++ drop 2 value.

Definition abiAddress (value : jsstring) (name : string) : result jsstring :=
  protocolHexToAbiAddress <$> addressHex value name.

Definition bytes32Hex (value : jsstring) (name : string) : result jsstring :=
  l ← hexToBytes value name;
  fail_if negb (Nat.eqb (length l) 32) with (name +:+ " must be 32 bytes") ;;
  Ok (js "0x" ++ bytesToHex l).

Definition parseAuthorizedTransaction (transaction : TronVmTransaction) : result ParsedTronTransaction :=
  parsed ← decodeTronRawData (tv_rawData transaction);
  let now := now_ms in
  fail_if td_expiration (tp_rawData parsed) <=? now with "transaction is expired" ;;
  fail_if now + MAX_FUTURE_TIMESTAMP_MS <? td_timestamp (tp_rawData parsed) with "timestamp is too far in the future" ;;
  fail_if td_expiration (tp_rawData parsed) <=? td_timestamp (tp_rawData parsed)
    with "expiration must be after timestamp" ;;
  fail_if MAX_EXPIRATION_WINDOW_MS <? td_expiration (tp_rawData parsed) - td_timestamp (tp_rawData parsed)
    with "expiration exceeds the 1 hour maximum" ;;
  fail_if (td_feeLimit (tp_rawData parsed) <? 0) || (MAX_FEE_LIMIT <? td_feeLimit (tp_rawData parsed))
    with "fee_limit exceeds the policy maximum" ;;
  Ok parsed.

Definition triggerContract (parsed : ParsedTronTransaction) : result ParsedTronTriggerSmartContract :=
  let contract := td_contract (tp_rawData parsed) in
  fail_if negb (bool_decide (tc_type contract = js "TriggerSmartContract")) with "expected TriggerSmartContract" ;;
  Ok contract.

(** [transactions[i]] where the code reads a property of it. *)
Definition tx_at (transactions : list TronVmTransaction) (i : nat) : result TronVmTransaction :=
  require (transactions !! i) "undefined".

Definition assertNativeDeposit (trigger : DepositAddressTrigger) (attestation : DepositAddressTriggerAttestation)
    (transactions : list TronVmTransaction) : result unit :=
  match transactions with
  | [tx] =>
      fail_if negb (bool_decide (tv_purpose tx = js "native-deposit"))
        with "native Tron deposit requires exactly one native-deposit transaction" ;;
      parsed ← parseAuthorizedTransaction tx;
      contract ← triggerContract parsed;
      expectedDepository ← addressHex (ta_inputDepository attestation) "attestation.inputDepository";
      fail_if negb (bool_decide (tc_contractAddress contract = expectedDepository))
        with "contract_address must equal input depository" ;;
      amount ← BigInt (in_amount (tr_input trigger));
      fail_if negb (tc_callValue contract =? amount) with "call_value must equal input.amount" ;;
      depositor ← abiAddress (df_depositor (tr_derivationFields trigger)) "trigger.derivationFields.depositor";
      oid ← bytes32Hex (tr_orderId trigger) "trigger.orderId";
      encoded ← encodeFunctionData DEPOSITORY_ABI "depositNative" [V_text depositor; V_text oid];
      let expectedData := drop 2 encoded in
      fail_if negb (bool_decide (tc_data contract = expectedData)) with "depositNative calldata mismatch" ;;
      Ok tt
  | _ => throw "native Tron deposit requires exactly one native-deposit transaction"
  end.

Definition assertApproval (transaction : TronVmTransaction) (token depository : jsstring) (amount : Z) : result unit :=
  parsed ← parseAuthorizedTransaction transaction;
  contract ← triggerContract parsed;
  fail_if negb (bool_decide (tc_contractAddress contract = token)) with "approval token mismatch" ;;
  fail_if negb (tc_callValue contract =? 0) with "approval call_value must be zero" ;;
  encoded ← encodeFunctionData ERC20_ABI "approve" [V_text (protocolHexToAbiAddress depository); V_num amount];
  let expectedData := drop 2 encoded in
  fail_if negb (bool_decide (tc_data contract = expectedData)) with "approve calldata mismatch" ;;
  Ok tt.

Definition direct : jsstring := js "trc20-approval,trc20-deposit".
Definition reset : jsstring := js "trc20-pre-approval,trc20-approval,trc20-deposit".

Definition assertTrc20Deposit (trigger : DepositAddressTrigger) (attestation : DepositAddressTriggerAttestation)
    (transactions : list TronVmTransaction) : result unit :=
  let purposes := join_with (js ",") (tv_purpose <$> transactions) in
  fail_if negb (bool_decide (purposes = direct)) && negb (bool_decide (purposes = reset))
    with "invalid TRC20 transaction purposes" ;;
  token ← addressHex (in_currency (tr_input trigger)) "trigger.input.currency";
  depository ← addressHex (ta_inputDepository attestation) "attestation.inputDepository";
  amount ← BigInt (in_amount (tr_input trigger));
  depositIndex ← (if bool_decide (purposes = reset) then
      tx0 ← tx_at transactions 0; _ ← assertApproval tx0 token depository 0;
      tx1 ← tx_at transactions 1; _ ← assertApproval tx1 token depository amount; Ok 2%nat
    else tx0 ← tx_at transactions 0; _ ← assertApproval tx0 token depository amount; Ok 1%nat);
  tx ← tx_at transactions depositIndex;
  parsed ← parseAuthorizedTransaction tx;
  contract ← triggerContract parsed;
  fail_if negb (bool_decide (tc_contractAddress contract = depository)) with "contract_address must equal input depository" ;;
  fail_if negb (tc_callValue contract =? 0) with "depositErc20 call_value must be zero" ;;
  depositor ← abiAddress (df_depositor (tr_derivationFields trigger)) "trigger.derivationFields.depositor";
  oid ← bytes32Hex (tr_orderId trigger) "trigger.orderId";
  encoded ← encodeFunctionData DEPOSITORY_ABI "depositErc20"
              [V_text depositor; V_text (protocolHexToAbiAddress token); V_num amount; V_text oid];
  let expectedData := drop 2 encoded in
  fail_if negb (bool_decide (tc_data contract = expectedData)) with "depositErc20 calldata mismatch" ;;
  Ok tt.

(** [TronVmWalletDeriver.verifyTransactions]. *)
Definition assertTronTransactions (trigger : DepositAddressTrigger) (attestation : DepositAddressTriggerAttestation)
    (transactions : list TronVmTransaction) : result unit :=
  currency ← addressHex (in_currency (tr_input trigger)) "trigger.input.currency";
  if bool_decide (currency = TRON_NATIVE_CURRENCY) then assertNativeDeposit trigger attestation transactions
  else assertTrc20Deposit trigger attestation transactions.

Context `{S : Secp256k1}.

(** [TronVmWalletDeriver.signTransactionWithKey]. *)
Definition tron_signTransactionWithKey (privateKey : bytes) (transaction : TronVmTransaction)
  : result TronVmSignedTransaction :=
  parsed ← decodeTronRawData (tv_rawData transaction);
  publicKey ← secp_getPublicKey privateKey true;
  address ← tronAddressFromPublicKey (bytesToHex publicKey);
  signer ← encodeTronAddress address;
  let signerAddress := bytesToHex signer in
  fail_if negb (bool_decide (tc_ownerAddress (td_contract (tp_rawData parsed)) = signerAddress))
    with "Tron transaction owner mismatch" ;;
  let digest := noble_sha256 (tp_rawDataBytes parsed) in
  recovered ← secp_sign digest privateKey;
  let signature := <[64%nat := u8 (byte_at recovered 0)]> (set_at (zeros 65) 0 (drop 1 recovered)) in
  rawTransaction ← encodeSignedTronTransaction parsed signature;
  Ok {| tv_rawTransaction := rawTransaction; tv_transactionHash := bytesToHex digest |}.
End Policy.

(** ** What a Tron sweep calls

    The batches the Tron policy accepts, and what the wallet signs for them. *)

Local Open Scope Z_scope.
Local Open Scope js_scope.

(** ** Addresses *)

(** Base-58 decoding undoes encoding. *)
Class ScureLaws (B : Scure) : Prop := base58_roundtrip : forall l, base58_decode (base58_encode l) = Ok l.

Section Addresses.
Context `{N : Noble, L : !NobleLaws N, B : Scure, BL : !ScureLaws B}.

(** [hex] encodes the account [a] behind the mainnet prefix. *)
Definition tron_addr (hex : jsstring) (name : string) (a : bytes) : Prop :=
  hexToBytes hex name = Ok (x41 :: a) /\ length a = 20%nat.

Lemma decodeTronAddress_ok l s : decodeTronAddress l = Ok s <->
  exists a, l = x41 :: a /\ length a = 20%nat /\ s = base58_encode (l ++ checksum l).
Proof using.
  unfold decodeTronAddress. rewrite concatBytes_join. cbn [mjoin list_join]. rewrite app_nil_r. split.
  - intros Hv. apply bind_ok in Hv as (u & H1 & Hv). apply check_ok in H1. apply bind_ok in Hv as (v & H2 & Hv).
    apply check_ok in H2. bool_prop. destruct l as [|b a]; [done|]. exists a. unfold TRON_ADDRESS_LENGTH in H1. cbn in H1.
    change (bz b = bz x41) in H2. apply bz_inj in H2 as ->. split_and!; [done|lia|congruence].
  - intros (a & -> & Hl & ->). cbn [length]. rewrite Hl. done.
Qed.

Lemma addressHex_ok value name h : addressHex value name = Ok h <->
  exists a, tron_addr value name a /\ h = HexBytes.bytesToHex (x41 :: a).
Proof using L.
  unfold addressHex, tron_addr, bytesToHex. split.
  - intros Hv. apply bind_ok in Hv as (l & Hl & Hv). apply bind_ok in Hv as (s & Hs & Hv). apply catch_ok in Hs.
    apply decodeTronAddress_ok in Hs as (a & -> & Ha & _). exists a. rewrite noble_hex_print in Hv. split; [done|congruence].
  - intros (a & [E Ha] & ->). rewrite E. cbn [mbind result_bind].
    rewrite (proj2 (decodeTronAddress_ok (x41 :: a) _)) by eauto. cbn [catch mbind result_bind]. by rewrite noble_hex_print.
Qed.

Lemma protocol_abi a : protocolHexToAbiAddress (HexBytes.bytesToHex (x41 :: a)) = hex_of a.
Proof using. exact (f_equal (app (js "0x")) (drop_bytesToHex 1 (x41 :: a))). Qed.

Lemma abiAddress_ok value name s : abiAddress value name = Ok s <-> exists a, tron_addr value name a /\ s = hex_of a.
Proof using L.
  unfold abiAddress. rewrite fmap_ok. split.
  - intros (h & Hh & <-). apply addressHex_ok in Hh as (a & Ha & ->). exists a. by rewrite protocol_abi.
  - intros (a & Ha & ->). exists (HexBytes.bytesToHex (x41 :: a)). rewrite protocol_abi. split; [|done].
    apply addressHex_ok. eauto.
Qed.

Lemma bytes32Hex_ok value name s : bytes32Hex value name = Ok s <->
  exists l, hexToBytes value name = Ok l /\ length l = 32%nat /\ s = hex_of l.
Proof using L.
  unfold bytes32Hex. split.
  - intros Hv. apply bind_ok in Hv as (l & Hl & Hv). apply bind_ok in Hv as (u & Hu & Hv). apply check_ok in Hu. bool_prop.
    exists l. rewrite print_hex_of in Hv. split_and!; congruence.
  - intros (l & E & Hl & ->). rewrite E. cbn [mbind result_bind]. rewrite Hl. cbn [Nat.eqb negb check mbind result_bind].
    by rewrite print_hex_of.
Qed.

(** An address round trip: the printed account decodes to its payload. *)
Lemma encode_decode_tron l s : decodeTronAddress l = Ok s -> encodeTronAddress s = Ok l.
Proof using L BL.
  intros Hd. apply decodeTronAddress_ok in Hd as (a & -> & Ha & ->). unfold encodeTronAddress.
  rewrite base58_roundtrip. cbn [catch mbind result_bind].
  assert (length (checksum (x41 :: a)) = 4%nat) as Hc by (unfold checksum; rewrite length_take, noble_sha256_length; done).
  rewrite length_app, Hc. cbn [length]. rewrite Ha. cbn [Nat.eqb Nat.add negb check mbind result_bind TRON_ADDRESS_LENGTH CHECKSUM_LENGTH].
  rewrite (take_length_app (x41 :: a)), (drop_length_app (x41 :: a)) by (cbn; by rewrite Ha).
  change (byte_at (x41 :: a) 0 =? TRON_MAINNET_PREFIX) with true. cbn [negb check mbind result_bind].
  by rewrite (proj2 (equalBytes_spec _ _) eq_refl).
Qed.
End Addresses.

(** ** ABI words *)

(** A 20-byte or 32-byte hex value, or an unsigned integer, as one word. *)
Definition abi_word (v : AbiValue) (w : bytes) : Prop :=
  match v with
  | V_text s => exists l, toLowerCase s = hex_of l /\
      (length l = 20%nat /\ w = zeros 12 ++ l \/ length l = 32%nat /\ w = l)
  | V_num n => length w = 32%nat /\ be_val w = n
  | _ => False
  end.

(** The functions the policy encodes, with their selectors. *)
Definition tron_selectors : list (list string * string * bytes) :=
  [(DEPOSITORY_ABI, "depositNative", depositNative_selector); (DEPOSITORY_ABI, "depositErc20", depositErc20_selector);
   (ERC20_ABI, "approve", approve_selector)].

(** Standard ABI encoding of static arguments: the selector, then one word per
    argument. *)
Class TronAbiLaws (A : TronAbi) : Prop :=
  encode_words : forall abi fn sel args e, (abi, fn, sel) ∈ tron_selectors -> encodeFunctionData abi fn args = Ok e ->
    exists words, Forall2 abi_word args words /\ e = hex_of (sel ++ mjoin words).

Lemma abi_word_address a w : length a = 20%nat -> abi_word (V_text (hex_of a)) w -> w = zeros 12 ++ a.
Proof.
  intros Ha (l & E & Hw). unfold hex_of in E. rewrite toLowerCase_0x in E. apply hex_of_inj in E as <-.
  destruct Hw as [[_ ->]|[Hl _]]; [done|lia].
Qed.
Lemma abi_word_bytes32 b w : length b = 32%nat -> abi_word (V_text (hex_of b)) w -> w = b.
Proof.
  intros Hb (l & E & Hw). unfold hex_of in E. rewrite toLowerCase_0x in E. apply hex_of_inj in E as <-.
  destruct Hw as [[Hl _]|[_ ->]]; [lia|done].
Qed.

(** ** The accepted batches *)

Definition commas (s : jsstring) : nat := length (filter (fun c : Z => c = 44) s).

(** A joined list has at least one comma per item after the first. *)
Lemma commas_join ps : (length ps <= S (commas (join_with (js ",") ps)))%nat.
Proof.
  induction ps as [|p ps IH]; [cbn; lia|]. destruct ps as [|q ps]; [cbn; lia|].
  change (join_with (js ",") (p :: q :: ps)) with (p ++ js "," ++ join_with (js ",") (q :: ps)).
  unfold commas in *. rewrite !filter_app, !length_app. change (length (filter (fun c : Z => c = 44) (js ","))) with 1%nat.
  change (length (p :: q :: ps)) with (S (length (q :: ps))). lia.
Qed.

Section Batches.
Context `{N : Noble, L : !NobleLaws N, B : Scure, W : TronWeb, A : TronAbi, AL : !TronAbiLaws A}.
Context (now_ms : Z).

(** The transaction is fresh, its fee is bounded, and it calls the contract
    [to] with [value] and [data]. *)
Record tron_call (tx : TronVmTransaction) (to : bytes) (value : Z) (data : bytes) (p : ParsedTronTransaction) : Prop := {
  tl_decoded : decodeTronRawData (tv_rawData tx) = Ok p;
  tl_fresh : now_ms < td_expiration (tp_rawData p) <= td_timestamp (tp_rawData p) + 3600000 /\
    td_timestamp (tp_rawData p) <= now_ms + 60000 /\ td_timestamp (tp_rawData p) < td_expiration (tp_rawData p);
  tl_fee : 0 <= td_feeLimit (tp_rawData p) <= 1000000000;
  tl_contract : tc_contractAddress (td_contract (tp_rawData p)) = HexBytes.bytesToHex (x41 :: to);
  tl_value : tc_callValue (td_contract (tp_rawData p)) = value;
  tl_data : tc_data (td_contract (tp_rawData p)) = HexBytes.bytesToHex data }.

Lemma parse_authorized tx p : parseAuthorizedTransaction now_ms tx = Ok p ->
  decodeTronRawData (tv_rawData tx) = Ok p /\
  (now_ms < td_expiration (tp_rawData p) <= td_timestamp (tp_rawData p) + 3600000 /\
   td_timestamp (tp_rawData p) <= now_ms + 60000 /\ td_timestamp (tp_rawData p) < td_expiration (tp_rawData p)) /\
  0 <= td_feeLimit (tp_rawData p) <= 1000000000.
Proof using.
  unfold parseAuthorizedTransaction. intros Hv. res_inv Hv. bool_prop.
  unfold MAX_EXPIRATION_WINDOW_MS, MAX_FUTURE_TIMESTAMP_MS, MAX_FEE_LIMIT in *. split; [done|]. lia.
Qed.

Lemma triggerContract_ok p c : triggerContract p = Ok c -> c = td_contract (tp_rawData p).
Proof using. unfold triggerContract. intros Hv. apply bind_ok in Hv as (u & _ & Hv). congruence. Qed.

(** An [approve] of [amount] for the depository. *)
Definition approve_data (depository : bytes) (amount : Z) (data : bytes) : Prop :=
  exists w, length w = 32%nat /\ be_val w = amount /\ data = approve_selector ++ (zeros 12 ++ depository) ++ w.

Lemma approval_sound tx token depository amount : length depository = 20%nat ->
  assertApproval now_ms tx (HexBytes.bytesToHex (x41 :: token)) (HexBytes.bytesToHex (x41 :: depository)) amount = Ok tt ->
  exists p data, tron_call tx token 0 data p /\ approve_data depository amount data.
Proof using L AL.
  intros Hd. unfold assertApproval. intros Hv. rewrite protocol_abi in Hv. res_inv Hv. bool_prop.
  apply parse_authorized in Hs as (H1 & H2 & H3). apply triggerContract_ok in Hs0 as ->.
  apply (encode_words _ _ approve_selector) in Hs3 as (words & HF & ->); [|do 2 right; left].
  apply Forall2_cons_inv_l in HF as (w0 & ws & Hw0 & HF & ->). apply Forall2_cons_inv_l in HF as (w1 & ws' & Hw1 & HF & ->).
  apply Forall2_nil_inv_l in HF as ->.
  apply abi_word_address in Hw0 as ->; [|done]. cbn [mjoin list_join] in Hs4. rewrite app_nil_r in Hs4.
  destruct Hw1 as [Hl Hw1]. eexists r, _. split; [split; try done; exact Hs4|]. by exists w1.
Qed.

(** [depositNative(depositor, id)] and [depositErc20(depositor, token, amount, id)]. *)
Definition native_data (depositor oid : bytes) : bytes := depositNative_selector ++ (zeros 12 ++ depositor) ++ oid.
Definition erc20_data (depositor token : bytes) (amount : Z) (oid data : bytes) : Prop :=
  exists w, length w = 32%nat /\ be_val w = amount /\
    data = depositErc20_selector ++ (zeros 12 ++ depositor) ++ (zeros 12 ++ token) ++ w ++ oid.

(** An authorized batch.  A token deposit may first reset the allowance. *)
Definition tron_deposit (trigger : DepositAddressTrigger) (attestation : DepositAddressTriggerAttestation)
    (txs : list TronVmTransaction) (amount : Z) : Prop :=
  exists token depository depositor oid,
    BigInt (in_amount (tr_input trigger)) = Ok amount /\
    tron_addr (in_currency (tr_input trigger)) "trigger.input.currency" token /\
    tron_addr (ta_inputDepository attestation) "attestation.inputDepository" depository /\
    tron_addr (df_depositor (tr_derivationFields trigger)) "trigger.derivationFields.depositor" depositor /\
    hexToBytes (tr_orderId trigger) "trigger.orderId" = Ok oid /\ length oid = 32%nat /\
    (token = zeros 20 /\ (exists tx p, txs = [tx] /\ tron_call tx depository amount (native_data depositor oid) p) \/
     token <> zeros 20 /\ exists pre t0 t1 p0 p1 d0 d1, txs = pre ++ [t0; t1] /\
       tron_call t0 token 0 d0 p0 /\ approve_data depository amount d0 /\
       tron_call t1 depository 0 d1 p1 /\ erc20_data depositor token amount oid d1 /\
       (pre = [] \/ exists t p d, pre = [t] /\ tron_call t token 0 d p /\ approve_data depository 0 d)).

Lemma native_sound trigger attestation txs : assertNativeDeposit now_ms trigger attestation txs = Ok tt ->
  exists tx p amount depository depositor oid, txs = [tx] /\ BigInt (in_amount (tr_input trigger)) = Ok amount /\
    tron_addr (ta_inputDepository attestation) "attestation.inputDepository" depository /\
    tron_addr (df_depositor (tr_derivationFields trigger)) "trigger.derivationFields.depositor" depositor /\
    hexToBytes (tr_orderId trigger) "trigger.orderId" = Ok oid /\ length oid = 32%nat /\
    tron_call tx depository amount (native_data depositor oid) p.
Proof using L AL.
  unfold assertNativeDeposit. intros Hv. destruct txs as [|tx [|]]; [done| |done]. res_inv Hv. bool_prop.
  apply parse_authorized in Hs0 as (H1 & H2 & H3). apply triggerContract_ok in Hs1 as ->.
  apply addressHex_ok in Hs2 as (dep & Hdep & ->). apply abiAddress_ok in Hs6 as (d & Hd & ->).
  apply bytes32Hex_ok in Hs7 as (oid & Ho & Hol & ->).
  apply (encode_words _ _ depositNative_selector) in Hs8 as (words & HF & ->); [|left].
  apply Forall2_cons_inv_l in HF as (w0 & ws & Hw0 & HF & ->). apply Forall2_cons_inv_l in HF as (w1 & ws' & Hw1 & HF & ->).
  apply Forall2_nil_inv_l in HF as ->.
  apply abi_word_address in Hw0 as ->; [|apply Hd]. apply abi_word_bytes32 in Hw1 as ->; [|done].
  cbn [mjoin list_join] in Hs9. rewrite app_nil_r in Hs9.
  exists tx, r0, r4, dep, d, oid. split_and!; try done.
Qed.

(** The approvals: the batch is an optional reset, the approval, the rest. *)
Lemma approvals_sound txs token depository amount i : length depository = 20%nat ->
  let purposes := join_with (js ",") (tv_purpose <$> txs) in
  let tk := HexBytes.bytesToHex (x41 :: token) in let dp := HexBytes.bytesToHex (x41 :: depository) in
  purposes = direct \/ purposes = reset ->
  (if bool_decide (purposes = reset) then
     tx0 ← tx_at txs 0; _ ← assertApproval now_ms tx0 tk dp 0;
     tx1 ← tx_at txs 1; _ ← assertApproval now_ms tx1 tk dp amount; Ok 2%nat
   else tx0 ← tx_at txs 0; _ ← assertApproval now_ms tx0 tk dp amount; Ok 1%nat) = Ok i ->
  forall t1, txs !! i = Some t1 ->
  exists pre t0 p0 d0, txs = pre ++ [t0; t1] /\ tron_call t0 token 0 d0 p0 /\ approve_data depository amount d0 /\
    (pre = [] \/ exists t p d, pre = [t] /\ tron_call t token 0 d p /\ approve_data depository 0 d).
Proof using L AL.
  intros Hd purposes tk dp Hp Hv t1 Ht1. pose proof (commas_join (tv_purpose <$> txs)) as Hc. rewrite length_fmap in Hc.
  fold purposes in Hc. unfold tx_at in Hv. case_bool_decide as Hr.
  - rewrite Hr in Hc. change (commas reset) with 2%nat in Hc.
    apply bind_ok in Hv as (t & Ht & Hv). apply bind_ok in Hv as ([] & Ha & Hv).
    apply bind_ok in Hv as (t0 & Ht0 & Hv). apply bind_ok in Hv as ([] & Ha0 & [= <-]). apply require_ok in Ht, Ht0.
    apply approval_sound in Ha as (p & d & Hcall & Hdata); [|done]. apply approval_sound in Ha0 as (p0 & d0 & Hcall0 & Hdata0); [|done].
    destruct txs as [|a [|b [|c [|]]]]; cbn in Ht, Ht0, Ht1, Hc; simplify_eq; try lia.
    exists [t], t0, p0, d0. split_and!; [done..|]. right. eauto 10.
  - destruct Hp as [Hp|Hp]; [|done]. rewrite Hp in Hc. change (commas direct) with 1%nat in Hc.
    apply bind_ok in Hv as (t0 & Ht0 & Hv). apply bind_ok in Hv as ([] & Ha & [= <-]). apply require_ok in Ht0.
    apply approval_sound in Ha as (p & d & Hcall & Hdata); [|done].
    destruct txs as [|a [|b [|c]]]; cbn in Ht0, Ht1, Hc; simplify_eq; try lia.
    exists [], t0, p, d. split_and!; [done..|]. by left.
Qed.

Lemma trc20_sound trigger attestation txs : assertTrc20Deposit now_ms trigger attestation txs = Ok tt ->
  exists amount token depository depositor oid,
    BigInt (in_amount (tr_input trigger)) = Ok amount /\
    tron_addr (in_currency (tr_input trigger)) "trigger.input.currency" token /\
    tron_addr (ta_inputDepository attestation) "attestation.inputDepository" depository /\
    tron_addr (df_depositor (tr_derivationFields trigger)) "trigger.derivationFields.depositor" depositor /\
    hexToBytes (tr_orderId trigger) "trigger.orderId" = Ok oid /\ length oid = 32%nat /\
    exists pre t0 t1 p0 p1 d0 d1, txs = pre ++ [t0; t1] /\
       tron_call t0 token 0 d0 p0 /\ approve_data depository amount d0 /\
       tron_call t1 depository 0 d1 p1 /\ erc20_data depositor token amount oid d1 /\
       (pre = [] \/ exists t p d, pre = [t] /\ tron_call t token 0 d p /\ approve_data depository 0 d).
Proof using L AL.
  unfold assertTrc20Deposit. intros Hv. cbv zeta in Hv. apply bind_ok in Hv as (u & Hp & Hv).
  apply check_ok, negb_true_iff, andb_false_iff in Hp. rewrite !negb_false_iff, !bool_decide_eq_true in Hp.
  apply bind_ok in Hv as (tk & Htk & Hv). apply addressHex_ok in Htk as (token & Ht & ->).
  apply bind_ok in Hv as (dp & Hdp & Hv). apply addressHex_ok in Hdp as (depository & Hd & ->).
  apply bind_ok in Hv as (amount & Ha & Hv). apply bind_ok in Hv as (i & Hi & Hv).
  apply bind_ok in Hv as (t1 & Ht1 & Hv). apply require_ok in Ht1.
  destruct (approvals_sound txs token depository amount i (proj2 Hd) Hp Hi t1 Ht1) as (pre & t0 & p0 & d0 & Htx & Hc0 & Hd0 & Hpre).
  rewrite protocol_abi in Hv. res_inv Hv. bool_prop. apply parse_authorized in Hs as (H1 & H2 & H3).
  apply triggerContract_ok in Hs0 as ->. apply abiAddress_ok in Hs3 as (dep & Hdep & ->).
  apply bytes32Hex_ok in Hs4 as (oid & Ho & Hol & ->).
  apply (encode_words _ _ depositErc20_selector) in Hs5 as (words & HF & ->); [|right; left].
  apply Forall2_cons_inv_l in HF as (w0 & ws & Hw0 & HF & ->). apply Forall2_cons_inv_l in HF as (w1 & ws' & Hw1 & HF & ->).
  apply Forall2_cons_inv_l in HF as (w2 & ws & Hw2 & HF & ->). apply Forall2_cons_inv_l in HF as (w3 & ws' & Hw3 & HF & ->).
  apply Forall2_nil_inv_l in HF as ->. apply abi_word_address in Hw0 as ->; [|apply Hdep].
  apply abi_word_address in Hw1 as ->; [|apply Ht]. apply abi_word_bytes32 in Hw3 as ->; [|done].
  cbn [mjoin list_join] in Hs6. rewrite app_nil_r in Hs6. destruct Hw2 as [Hl2 Hw2].
  exists amount, token, depository, dep, oid. split_and!; try done.
  eexists pre, t0, t1, p0, r, d0, _. split_and!; [done..|split; try done; exact Hs6|by exists w2|done].
Qed.

Lemma tron_policy_sound trigger attestation txs : assertTronTransactions now_ms trigger attestation txs = Ok tt ->
  exists amount, tron_deposit trigger attestation txs amount.
Proof using L AL.
  unfold assertTronTransactions. intros Hv. apply bind_ok in Hv as (c & Hc & Hv).
  apply addressHex_ok in Hc as (token & Ht & ->).
  assert (HexBytes.bytesToHex (x41 :: token) = TRON_NATIVE_CURRENCY <-> token = zeros 20) as Hz.
  { change TRON_NATIVE_CURRENCY with (HexBytes.bytesToHex (x41 :: zeros 20)). split; [|by intros ->].
    intros E. apply HexBytes.bytesToHex_inj in E. congruence. }
  case_bool_decide as Hn.
  - apply native_sound in Hv as (tx & p & amount & depository & depositor & oid & -> & Ha & Hd & Hdep & Ho & Hol & Hcall).
    exists amount, token, depository, depositor, oid. split_and!; [done..|]. left. split; [by apply Hz|eauto].
  - apply trc20_sound in Hv as (amount & tk & depository & depositor & oid & Ha & Htk & Hd & Hdep & Ho & Hol & Hrest).
    assert (tk = token) as -> by (destruct Ht, Htk; congruence).
    exists amount, token, depository, depositor, oid. split_and!; [done..|]. right. split; [by rewrite <- Hz|done].
Qed.
End Batches.

(** ** The signed transaction *)

Lemma tron_equalBytes_iff a b : tron_equalBytes a b = true <-> a = b.
Proof.
  unfold tron_equalBytes. rewrite andb_true_iff, Nat.eqb_eq. split.
  - intros [Hl Hf]. revert b Hl Hf. induction a as [|x a IH]; intros [|y b] Hl Hf; try done.
    cbn [zip_with zip forallb] in Hf. apply andb_true_iff in Hf as [Hx Hf]. apply bool_decide_eq_true in Hx as ->.
    f_equal. apply IH; [cbn in Hl; lia|done].
  - intros ->. split; [done|]. induction b as [|y b IH]; [done|]. cbn [zip_with zip forallb].
    by rewrite IH, bool_decide_true by done.
Qed.

Section Sign.
Context `{N : Noble, L : !NobleLaws N, B : Scure, BL : !ScureLaws B, W : TronWeb, S : Secp256k1, SL : !Secp256k1Laws S}.

(** A decoded transaction encodes back to exactly the bytes it came from. *)
Lemma decoded_canonical s p : decodeTronRawData s = Ok p ->
  exists pb, encodeWithTronWeb (parsedRawData (tp_rawData p)) = Ok pb /\ pb_getRawData pb = tp_rawDataBytes p /\
    hexToBytes s "Tron raw_data" = Ok (tp_rawDataBytes p).
Proof using.
  unfold decodeTronRawData. intros Hv. apply bind_ok in Hv as (l & Hl & Hv). apply bind_ok in Hv as (j & Hj & Hv).
  apply bind_ok in Hv as (d & Hd & Hv). apply bind_ok in Hv as (pb & Hpb & Hv). apply bind_ok in Hv as (u & Hu & Hv).
  apply check_ok, negb_true_iff, negb_false_iff, tron_equalBytes_iff in Hu. injection Hv as <-.
  cbn [tp_rawData tp_rawDataBytes]. exists pb. split_and!; [|done|done].
  unfold parsedRawData. cbn. by destruct d.
Qed.

(** The account a key owns. *)
Definition tron_owner (publicKey owner : bytes) : Prop :=
  exists uncompressed, secp_uncompress (bytesToHex publicKey) = Ok uncompressed /\
    owner = x41 :: drop 12 (noble_keccak_256 (drop 1 uncompressed)) /\ length owner = 21%nat.

Lemma signer_address publicKey address signer : tronAddressFromPublicKey (bytesToHex publicKey) = Ok address ->
  encodeTronAddress address = Ok signer -> tron_owner publicKey signer.
Proof using L BL.
  unfold tronAddressFromPublicKey. intros Ha Hs. apply bind_ok in Ha as (l & Hl & Ha).
  unfold bytesToHex in Hl. rewrite noble_hex_print, hexToBytes_print in Hl. injection Hl as <-.
  apply bind_ok in Ha as (unc & Hu & Ha). rewrite concatBytes_join in Ha. cbn [mjoin list_join] in Ha. rewrite app_nil_r in Ha.
  pose proof Ha as Hx. apply decodeTronAddress_ok in Hx as (a & Ea & Hla & _). apply encode_decode_tron in Ha.
  rewrite Ha in Hs. injection Hs as <-. exists unc. split; [done|]. split; [done|].
  apply (f_equal length) in Ea. cbn [app length] in *. lia.
Qed.

Lemma tron_signature sig : length sig = 65%nat ->
  <[64%nat := u8 (byte_at sig 0)]> (set_at (zeros 65) 0 (drop 1 sig)) = drop 1 sig ++ take 1 sig.
Proof using.
  intros Hl. destruct sig as [|b rs]; [done|]. assert (length rs = 64%nat) as Hr by (cbn in Hl; lia).
  change (drop 1 (b :: rs)) with rs. change (take 1 (b :: rs)) with [b]. change (byte_at (b :: rs) 0) with (bz b).
  assert (set_at (zeros 65) 0 rs = rs ++ [x00]) as ->.
  { unfold set_at, zeros. rewrite take_0, drop_replicate, Hr. done. }
  rewrite u8_bz, insert_app_r_alt, Hr by lia. done.
Qed.

(** The re-encoding check before signing. *)
Lemma signed_encoding_total s p sig : decodeTronRawData s = Ok p -> length sig = 65%nat ->
  is_ok (encodeSignedTronTransaction p sig) = true.
Proof using.
  intros Hp Hl. destruct (decoded_canonical _ _ Hp) as (pb & Hpb & Hraw & _). unfold encodeSignedTronTransaction.
  rewrite Hl, Hpb. cbn [Nat.eqb negb check mbind result_bind]. by rewrite (proj2 (tron_equalBytes_iff _ _)) by done.
Qed.

Lemma tron_sign_sound key tx signed : tron_signTransactionWithKey key tx = Ok signed ->
  exists p publicKey owner sig pb, decodeTronRawData (tv_rawData tx) = Ok p /\
    secp_getPublicKey key true = Ok publicKey /\ tron_owner publicKey owner /\
    tc_ownerAddress (td_contract (tp_rawData p)) = HexBytes.bytesToHex owner /\
    secp_sign (noble_sha256 (tp_rawDataBytes p)) key = Ok sig /\
    pb_getRawData pb = tp_rawDataBytes p /\
    tv_rawTransaction signed = hex_of (pb_serializeBinary (pb_addSignature pb (drop 1 sig ++ take 1 sig))) /\
    tv_transactionHash signed = HexBytes.bytesToHex (noble_sha256 (tp_rawDataBytes p)).
Proof using L BL SL.
  unfold tron_signTransactionWithKey. intros Hv. apply bind_ok in Hv as (p & Hp & Hv). apply bind_ok in Hv as (pk & Hpk & Hv).
  apply bind_ok in Hv as (address & Ha & Hv). apply bind_ok in Hv as (signer & Hsg & Hv). cbv zeta in Hv.
  apply bind_ok in Hv as (u & Hu & Hv). apply check_ok in Hu. bool_prop. apply bind_ok in Hv as (sig & Hs & Hv).
  apply bind_ok in Hv as (rt & Hrt & Hv). pose proof (signer_address _ _ _ Ha Hsg) as Ho.
  unfold bytesToHex in Hu, Hv. rewrite noble_hex_print in Hu, Hv.
  rewrite (tron_signature sig (secp_sign_length _ _ _ Hs)) in Hrt. unfold encodeSignedTronTransaction in Hrt.
  apply bind_ok in Hrt as (v & _ & Hrt). destruct (decoded_canonical _ _ Hp) as (pb & Hpb & Hraw & _).
  rewrite Hpb in Hrt. cbn [mbind result_bind] in Hrt. apply bind_ok in Hrt as (w & _ & Hrt). rewrite print_hex_of in Hrt.
  exists p, pk, signer, sig, pb.
  assert (signed = {| tv_rawTransaction := rt; tv_transactionHash := HexBytes.bytesToHex (noble_sha256 (tp_rawDataBytes p)) |})
    as -> by congruence.
  cbn [tv_rawTransaction tv_transactionHash]. split_and!; try done. congruence.
Qed.

(** what an authorized Tron sweep calls.  The policy accepts only fresh
    transactions (unexpired, at most an hour of validity, a bounded fee) that
    make the trigger's deposit: [depositNative] carrying exactly
    [trigger.input.amount], or an optional reset of the allowance, the approval
    of exactly the amount for the depository and [depositErc20] of it, in this
    order and nothing else.  The wallet signs the SHA-256 hash of the very
    bytes that were decoded, only for transactions it owns, and the check that
    the bytes did not change before signing cannot fail. *)
Theorem tron_sweep_pays_depository `{A : TronAbi, !TronAbiLaws A} now_ms trigger attestation txs :
  assertTronTransactions now_ms trigger attestation txs = Ok tt ->
  (exists amount, tron_deposit now_ms trigger attestation txs amount) /\
  (forall tx p sig, tx ∈ txs -> decodeTronRawData (tv_rawData tx) = Ok p -> length sig = 65%nat ->
     is_ok (encodeSignedTronTransaction p sig) = true) /\
  forall key tx signed, tx ∈ txs -> tron_signTransactionWithKey key tx = Ok signed ->
    exists p publicKey owner sig pb, decodeTronRawData (tv_rawData tx) = Ok p /\
      secp_getPublicKey key true = Ok publicKey /\ tron_owner publicKey owner /\
      tc_ownerAddress (td_contract (tp_rawData p)) = HexBytes.bytesToHex owner /\
      secp_sign (noble_sha256 (tp_rawDataBytes p)) key = Ok sig /\
      pb_getRawData pb = tp_rawDataBytes p /\
      tv_rawTransaction signed = hex_of (pb_serializeBinary (pb_addSignature pb (drop 1 sig ++ take 1 sig))) /\
      tv_transactionHash signed = HexBytes.bytesToHex (noble_sha256 (tp_rawDataBytes p)).
Proof using L BL SL.
  intros Hv. split; [by apply tron_policy_sound|]. split; [intros tx p sig _; apply signed_encoding_total|].
  intros key tx signed _. apply tron_sign_sound.
Qed.
End Sign.

(** ** A concrete sweep *)

Definition toy_base58 : Scure := {|
  base58_decode := fun s => Ok (Uint8Array_from s); base58_encode := fun l => bz <$> l;
  bech32_decode := fun _ => throw "unused"; bech32m_decode := fun _ => throw "unused";
  bech32_encode := fun _ _ => throw "unused"; bech32m_encode := fun _ _ => throw "unused";
  bech32_fromWords := fun _ => throw "unused"; bech32_toWords := fun _ => [] |}.
Lemma toy_base58_laws : ScureLaws toy_base58.
Proof. intros l. cbn. by rewrite Uint8Array_from_bz. Qed.

(** One word per argument, or an error. *)
Definition toy_word (v : AbiValue) : result bytes :=
  match v with
  | V_text s =>
      let l := parse_pairs (drop 2 (toLowerCase s)) in
      fail_if negb (bool_decide (toLowerCase s = hex_of l)) with "invalid hex" ;;
      if Nat.eqb (length l) 20 then Ok (zeros 12 ++ l)
      else if Nat.eqb (length l) 32 then Ok l else throw "invalid length"
  | V_num n =>
      fail_if (n <? 0) || (2 ^ 256 <=? n) with "out of range" ;;
      Ok (Uint8Array_from (Radix.fixed_digits 32 256 n []))
  | _ => throw "unsupported"
  end.
Definition toy_abi : TronAbi := {|
  encodeFunctionData := fun abi fn args =>
    match List.find (fun e => bool_decide (e.1 = (abi, fn))) tron_selectors with
    | Some (_, sel) => words ← mapM toy_word args; Ok (hex_of (sel ++ mjoin words))
    | None => throw "unknown function"
    end |}.

Lemma toy_word_ok v w : toy_word v = Ok w -> abi_word v w.
Proof.
  destruct v as [s|n| |]; cbn [toy_word abi_word]; try done.
  - intros Hv. res_inv Hv. bool_prop. exists (parse_pairs (drop 2 (toLowerCase s))). split; [done|].
    destruct (Nat.eqb_spec (length (parse_pairs (drop 2 (toLowerCase s)))) 20).
    + left. split; [done|]. congruence.
    + destruct (Nat.eqb_spec (length (parse_pairs (drop 2 (toLowerCase s)))) 32); [|done]. right. split; congruence.
  - intros Hv. apply bind_ok in Hv as (u & Hu & Hv). apply check_ok in Hu. bool_prop.
    assert (w = Uint8Array_from (Radix.fixed_digits 32 256 n [])) as -> by congruence. unfold Uint8Array_from. rewrite length_fmap, Radix.length_fixed_digits by lia. split; [done|].
    unfold be_val. rewrite <- list_fmap_compose.
    rewrite (list_fmap_ext _ id), list_fmap_id, Radix.of_fixed_digits by
      (lia || (intros i x Hx; cbn; apply bz_u8_small; eapply (Forall_lookup_1 _ _ _ _ (Radix.fixed_digits_ok 256 ltac:(lia) 32 n)); exact Hx)).
    apply Z.mod_small. change (256 ^ Z.of_nat 32) with (2 ^ 256). lia.
Qed.

Lemma toy_abi_laws : TronAbiLaws toy_abi.
Proof.
  intros abi fn sel args e Hin. cbn [encodeFunctionData toy_abi].
  assert (List.find (fun x => bool_decide (x.1 = (abi, fn))) tron_selectors = Some (abi, fn, sel)) as ->.
  { repeat (apply elem_of_cons in Hin as [[= -> -> ->]|Hin]; [reflexivity|]). by apply elem_of_nil in Hin. }
  intros Hv. apply bind_ok in Hv as (words & Hw & Hv). apply mapM_ok in Hw. exists words. split; [|congruence].
  eapply Forall2_impl; [exact Hw|]. apply toy_word_ok.
Qed.

(** A codec that knows the given transactions. *)
Definition toy_raw (d : TronWebRawData) : bytes := TextEncoder_encode (canonicalJson (tron_raw_json d)).
Definition toy_tronweb (known : list TronWebRawData) : TronWeb := {|
  TronPb := bytes * bytes;
  deserializeTransaction := fun _ hex =>
    match List.find (fun d => bool_decide (HexBytes.bytesToHex (toy_raw d) = hex)) known with
    | Some d => Ok (tron_raw_json d) | None => throw "malformed" end;
  txJsonToPb := fun j =>
    match j with JObj fields => Ok (Some (TextEncoder_encode (canonicalJson (field (js "raw_data") fields)), []))
               | _ => Ok None end;
  pb_getRawData := fst; pb_addSignature := fun pb sig => (fst pb, sig);
  pb_serializeBinary := fun pb => fst pb ++ snd pb |}.

Definition tron_hex (b : byte) : jsstring := HexBytes.bytesToHex (x41 :: replicate 20 b).
Definition tron_raw (contract : byte) (value : Z) (data : bytes) : TronWebRawData := {|
  tw_owner_address := tron_hex x07; tw_contract_address := tron_hex contract; tw_call_value := value;
  tw_data := HexBytes.bytesToHex data; tw_fee_limit := 1000; tw_ref_block_bytes := js "0102";
  tw_ref_block_hash := js "0102030405060708"; tw_expiration := 5000; tw_timestamp := 1000 |}.
Definition tron_batch : list (string * TronWebRawData) :=
  [("trc20-pre-approval", tron_raw x11 0 (approve_selector ++ (zeros 12 ++ replicate 20 x0e) ++ zeros 32));
   ("trc20-approval", tron_raw x11 0 (approve_selector ++ (zeros 12 ++ replicate 20 x0e) ++ amount_word));
   ("trc20-deposit", tron_raw x0e 0 (depositErc20_selector ++ (zeros 12 ++ replicate 20 x0d) ++
      (zeros 12 ++ replicate 20 x11) ++ amount_word ++ replicate 32 xab))].
Definition tron_txs : list TronVmTransaction :=
  (fun e => {| tv_purpose := js e.1; tv_rawData := hex_of (toy_raw e.2) |}) <$> tron_batch.
Definition tron_trigger : DepositAddressTrigger := {|
  tr_input := toy_input "tron-vm" (js "0x" ++ tron_hex x11) "200";
  tr_derivationFields := toy_fields "tron-vm" (js "0x" ++ tron_hex x0d) [];
  tr_orderId := hex_of (replicate 32 xab); tr_nonce := js "1"; tr_currencies := []; tr_prices := []; tr_extraData := [] |}.
Definition tron_attestation : DepositAddressTriggerAttestation := {|
  ta_chainId := 1; ta_depositAddressManager := []; ta_inputDepository := js "0x" ++ tron_hex x0e;
  ta_triggerHash := []; ta_signatures := [] |}.

Lemma tron_sweep_witness :
  exists amount, @tron_deposit toy_noble (toy_tronweb (snd <$> tron_batch)) 2000 tron_trigger tron_attestation tron_txs amount.
Proof.
  destruct (@tron_sweep_pays_depository toy_noble toy_noble_laws toy_base58 toy_base58_laws
              (toy_tronweb (snd <$> tron_batch)) toy_secp toy_secp_laws toy_abi toy_abi_laws 2000
              tron_trigger tron_attestation tron_txs) as [H _]; [vm_compute; reflexivity|]. exact H.
Defined.
