(* ===== verification/HyperliquidTx.v ===== *)
(** * Typed data and Hyperliquid deposit transactions

    packages/lit-deposit-address/src/derivation/vm/hyperliquid: the sendAsset
    policy, its signer and what a sweep pays; first
    packages/lit-deposit-address/src/common/eip712.ts: the hash of flat
    EIP-712 structures.  Field values are strings or integers.  Equal hashes
    come from equal data, up to collisions of Keccak on the hashed texts. *)

From Stdlib Require Import Strings.Byte.
From S2P Require Import Prelude JsNum JsString JsJson HexBytes ToyRuntime DepositBytes DepositAction Scanner JsNumber DepositTypes DepositAttestation TonDeriver EvmAddress EvmTx.
Local Open Scope Z_scope.
Local Open Scope js_scope.

Record Eip712Field := { ef_name : jsstring; ef_type : jsstring }.
Definition Eip712Types : Type := list (jsstring * list Eip712Field).

Inductive Eip712Value :=
  | EStr (s : jsstring)
  | EInt (z : Z).

Record Eip712Domain := {
  ed_name : option jsstring;
  ed_version : option jsstring;
  ed_chainId : option Z;
  ed_verifyingContract : option jsstring;
}.

(** A property of an object, [None] when it is [undefined]. *)
Fixpoint prop {A} (k : jsstring) (o : list (jsstring * A)) : option A :=
  match o with
  | [] => None
  | (k', v) :: rest => if bool_decide (k' = k) then Some v else prop k rest
  end.

(** [String(v)]. *)
Definition to_String (v : option Eip712Value) : jsstring :=
  match v with None => js "undefined" | Some (EStr s) => s | Some (EInt z) => toString10 z end.

(** [BigInt(v)]. *)
Definition to_BigInt (v : option Eip712Value) : result Z :=
  match v with None => throw "Cannot convert undefined to a BigInt" | Some (EStr s) => BigInt s | Some (EInt z) => Ok z end.

Section Eip712.
Context `{N : Noble}.

Definition typeString (primaryType : jsstring) (types : Eip712Types) : result jsstring :=
  fields ← require (prop primaryType types) "undefined";
  Ok (primaryType ++ js "(" ++
      join_with (js ",") ((fun f => ef_type f ++ js " " ++ ef_name f) <$> fields) ++ js ")").

(** [for (let i = 31; i >= 0; i--, v >>= 8n) out[i] = Number(v & 0xffn)]. *)
Definition uint256 (v : option Eip712Value) : result bytes :=
  n ← to_BigInt v; Ok (reverse (fst (le_loop 32 n []))).

Definition eip_address (value : jsstring) : result bytes :=
  raw ← hexToBytes value "address";
  fail_if negb (Nat.eqb (length raw) 20) with "address must be 20 bytes" ;;
  Ok (set_at (zeros 32) 12 raw).

Definition eip_bytes32 (value : jsstring) : result bytes :=
  raw ← hexToBytes value "bytes32";
  fail_if negb (Nat.eqb (length raw) 32) with "bytes32 must be 32 bytes" ;;
  Ok raw.

Definition eip_value (type : jsstring) (v : option Eip712Value) : result bytes :=
  if bool_decide (type = js "string") then Ok (noble_keccak_256 (TextEncoder_encode (to_String v)))
  else if bool_decide (type = js "address") then eip_address (to_String v)
  else if bool_decide (type = js "bytes32") then eip_bytes32 (to_String v)
  else if startsWith type (js "uint") then uint256 v
  else throw "unsupported EIP-712 type".

(** The text [structHash] hashes. *)
Definition struct_preimage (primaryType : jsstring) (data : list (jsstring * Eip712Value)) (types : Eip712Types) : result bytes :=
  type ← typeString primaryType types;
  fields ← require (prop primaryType types) "undefined";
  words ← mapM (fun f => eip_value (ef_type f) (prop (ef_name f) data)) fields;
  Ok (HexBytes.concatBytes (noble_keccak_256 (TextEncoder_encode type) :: words)).

Definition structHash (primaryType : jsstring) (data : list (jsstring * Eip712Value)) (types : Eip712Types) : result bytes :=
  noble_keccak_256 <$> struct_preimage primaryType data types.

Definition domainTypes (domain : Eip712Domain) : Eip712Types :=
  let push (b : bool) (name type : string) := if b then [{| ef_name := js name; ef_type := js type |}] else [] in
  [(js "EIP712Domain",
    push (bool_decide (is_Some (ed_name domain))) "name" "string" ++
    push (bool_decide (is_Some (ed_version domain))) "version" "string" ++
    push (bool_decide (is_Some (ed_chainId domain))) "chainId" "uint256" ++
    push (bool_decide (is_Some (ed_verifyingContract domain))) "verifyingContract" "address")].

(** The domain as an object. *)
Definition domain_object (d : Eip712Domain) : list (jsstring * Eip712Value) :=
  let entry (k : string) (v : option Eip712Value) := match v with Some x => [(js k, x)] | None => [] end in
  entry "name" (EStr <$> ed_name d) ++ entry "version" (EStr <$> ed_version d) ++
  entry "chainId" (EInt <$> ed_chainId d) ++ entry "verifyingContract" (EStr <$> ed_verifyingContract d).

(** The text [hashTypedData] hashes. *)
Definition typed_preimage (domain : Eip712Domain) (types : Eip712Types) (primaryType : jsstring)
    (message : list (jsstring * Eip712Value)) : result bytes :=
  d ← structHash (js "EIP712Domain") (domain_object domain) (domainTypes domain);
  m ← structHash primaryType message types;
  Ok (HexBytes.concatBytes [[x19; x01]; d; m]).

Definition eip_hashTypedData (domain : Eip712Domain) (types : Eip712Types) (primaryType : jsstring)
    (message : list (jsstring * Eip712Value)) : result bytes :=
  noble_keccak_256 <$> typed_preimage domain types primaryType message.
End Eip712.

(** ** Equal hashes *)

Section Binding.
Context `{N : Noble, L : !NobleLaws N}.

(** Two values agree as values of a type. *)
Definition value_agrees (type : jsstring) (v v' : option Eip712Value) : Prop :=
  if bool_decide (type = js "string") then TextEncoder_encode (to_String v) = TextEncoder_encode (to_String v')
  else if bool_decide (type = js "address") then hexToBytes (to_String v) "address" = hexToBytes (to_String v') "address"
  else if bool_decide (type = js "bytes32") then hexToBytes (to_String v) "bytes32" = hexToBytes (to_String v') "bytes32"
  else exists n n', to_BigInt v = Ok n /\ to_BigInt v' = Ok n' /\ n mod 2 ^ 256 = n' mod 2 ^ 256.

Definition fields_agree (fields : list Eip712Field) (m m' : list (jsstring * Eip712Value)) : Prop :=
  Forall (fun f => value_agrees (ef_type f) (prop (ef_name f) m) (prop (ef_name f) m')) fields.

(** Two different texts with the same hash. *)
Definition collision (x y : bytes) : Prop := x <> y /\ noble_keccak_256 x = noble_keccak_256 y.

(** A collision between the texts of a string field. *)
Definition text_collision (fields : list Eip712Field) (m m' : list (jsstring * Eip712Value)) : Prop :=
  Exists (fun f => ef_type f = js "string" /\
    collision (TextEncoder_encode (to_String (prop (ef_name f) m))) (TextEncoder_encode (to_String (prop (ef_name f) m')))) fields.

Lemma length_uint256 v w : uint256 v = Ok w -> length w = 32%nat.
Proof using.
  unfold uint256. intros Hv. apply bind_ok in Hv as (n & _ & Hv).
  assert (w = reverse (fst (le_loop 32 n []))) as -> by congruence.
  destruct (le_loop_spec 32 n []) as (l & -> & Hl & _). by rewrite length_reverse.
Qed.

Lemma uint256_val v w : uint256 v = Ok w -> exists n, to_BigInt v = Ok n /\ be_val w = n mod 2 ^ 256.
Proof using.
  unfold uint256. intros Hv. apply bind_ok in Hv as (n & Hn & Hv). exists n. split; [done|].
  assert (w = reverse (fst (le_loop 32 n []))) as -> by congruence.
  destruct (le_loop_spec 32 n []) as (l & -> & _ & Hl). exact Hl.
Qed.

Lemma length_value type v w : eip_value type v = Ok w -> length w = 32%nat.
Proof using L.
  unfold eip_value. case_bool_decide; [intros E; assert (w = noble_keccak_256 (TextEncoder_encode (to_String v))) as -> by congruence;
    apply noble_keccak_length|].
  case_bool_decide.
  { unfold eip_address. intros Hv. apply bind_ok in Hv as (raw & Hr & Hv). apply bind_ok in Hv as (u & Hu & Hv).
    apply check_ok in Hu. bool_prop. assert (w = set_at (zeros 32) 12 raw) as -> by congruence.
    unfold set_at, zeros. rewrite !length_app, length_take, length_drop, length_replicate, Hu. done. }
  case_bool_decide.
  { unfold eip_bytes32. intros Hv. apply bind_ok in Hv as (raw & Hr & Hv). apply bind_ok in Hv as (u & Hu & Hv).
    apply check_ok in Hu. bool_prop. by assert (w = raw) as -> by congruence. }
  destruct (startsWith type (js "uint")); [|done]. apply length_uint256.
Qed.

Lemma eip_address_ok s w : eip_address s = Ok w -> exists l, hexToBytes s "address" = Ok l /\ length l = 20%nat /\ w = zeros 12 ++ l.
Proof using.
  unfold eip_address. intros Hv. apply bind_ok in Hv as (l & Hl & Hv). apply bind_ok in Hv as (u & Hu & Hv).
  apply check_ok in Hu. bool_prop. exists l. split_and!; [done..|].
  assert (w = set_at (zeros 32) 12 l) as -> by congruence. unfold set_at, zeros.
  rewrite take_replicate, drop_replicate, Hu. cbn [Nat.sub replicate]. by rewrite app_nil_r.
Qed.

Lemma eip_bytes32_ok s w : eip_bytes32 s = Ok w -> hexToBytes s "bytes32" = Ok w.
Proof using.
  unfold eip_bytes32. intros Hv. apply bind_ok in Hv as (l & Hl & Hv). apply bind_ok in Hv as (u & _ & Hv). congruence.
Qed.

(** Equal words: equal values, or a collision of the hashed strings. *)
Lemma value_binds type v v' w : eip_value type v = Ok w -> eip_value type v' = Ok w ->
  value_agrees type v v' \/
  type = js "string" /\ collision (TextEncoder_encode (to_String v)) (TextEncoder_encode (to_String v')).
Proof using.
  unfold eip_value, value_agrees. case_bool_decide.
  { intros E E'. destruct (decide (TextEncoder_encode (to_String v) = TextEncoder_encode (to_String v'))); [by left|right].
    split; [done|]. split; congruence. }
  case_bool_decide.
  { intros (l & E & Hl & ->)%eip_address_ok (l' & E' & Hl' & Ew)%eip_address_ok. apply app_inv_head in Ew as ->. left. by rewrite E, E'. }
  case_bool_decide.
  { intros E%eip_bytes32_ok E'%eip_bytes32_ok. left. congruence. }
  destruct (startsWith type (js "uint")); [|done]. intros (n & En & Hn)%uint256_val (n' & En' & Hn')%uint256_val.
  left. exists n, n'. split_and!; [done..|congruence].
Qed.

Lemma words_inj (ws ws' : list bytes) : Forall (fun w => length w = 32%nat) ws -> Forall (fun w => length w = 32%nat) ws' ->
  length ws = length ws' -> mjoin ws = mjoin ws' -> ws = ws'.
Proof using.
  intros HF. revert ws'. induction HF as [|w ws Hw _ IH]; intros [|w' ws'] HF' Hl E; try done.
  apply Forall_cons_1 in HF' as [Hw' HF']. cbn [mjoin list_join] in E. apply app_inj_length in E as [-> E]; [|congruence].
  f_equal. apply IH; [done|cbn in Hl; lia|done].
Qed.

Lemma words_length fields m (ws : list bytes) :
  Forall2 (fun f w => eip_value (ef_type f) (prop (ef_name f) m) = Ok w) fields ws -> Forall (fun w => length w = 32%nat) ws.
Proof using L. induction 1 as [|f w fs ws Hw _ IH]; [constructor|]. constructor; [by eapply length_value|done]. Qed.

Lemma struct_binds primaryType types m m' pre : struct_preimage primaryType m types = Ok pre ->
  struct_preimage primaryType m' types = Ok pre ->
  exists fields, prop primaryType types = Some fields /\ (fields_agree fields m m' \/ text_collision fields m m').
Proof using L.
  unfold struct_preimage. intros Hv Hv'. apply bind_ok in Hv as (t & Ht & Hv). apply bind_ok in Hv' as (t' & Ht' & Hv').
  apply bind_ok in Hv as (fields & Hf & Hv). apply bind_ok in Hv' as (fields' & Hf' & Hv'). apply require_ok in Hf, Hf'.
  rewrite Hf in Hf'. injection Hf' as <-. exists fields. split; [done|].
  apply bind_ok in Hv as (ws & Hw & Hv). apply bind_ok in Hv' as (ws' & Hw' & Hv'). apply mapM_ok in Hw, Hw'.
  rewrite concatBytes_join in Hv, Hv'.
  assert (mjoin (noble_keccak_256 (TextEncoder_encode t) :: ws) = mjoin (noble_keccak_256 (TextEncoder_encode t') :: ws')) as E by congruence.
  apply app_inj_length in E as [_ E]; [|by rewrite !noble_keccak_length].
  apply words_inj in E as <-; [|by eapply words_length..|by rewrite <- (Forall2_length _ _ _ Hw), <- (Forall2_length _ _ _ Hw')].
  clear -Hw Hw'. unfold fields_agree, text_collision. revert Hw'. induction Hw as [|f w fs ws Hf _ IH]; intros Hw'; [by left; constructor|].
  apply Forall2_cons_1 in Hw' as [Hf' Hw']. destruct (value_binds _ _ _ _ Hf Hf') as [Ha|Ha]; [|right; by left].
  destruct (IH Hw') as [Hb|Hb]; [left; by constructor|right; by right].
Qed.

(** a typed-data hash determines the data.  When two messages of the same
    type, under domains with the same fields, have the same hash, the domains
    and the messages agree field by field (strings as UTF-8, addresses and
    words as bytes, integers modulo 2^256), unless Keccak collides on one of
    the texts hashed for them. *)
Theorem typed_data_hash_binds types primaryType d m d' m' h :
  domainTypes d = domainTypes d' ->
  eip_hashTypedData d types primaryType m = Ok h -> eip_hashTypedData d' types primaryType m' = Ok h ->
  exists dt mt, prop (js "EIP712Domain") (domainTypes d) = Some dt /\ prop primaryType types = Some mt /\
    (fields_agree dt (domain_object d) (domain_object d') /\ fields_agree mt m m' \/
     text_collision dt (domain_object d) (domain_object d') \/ text_collision mt m m' \/
     (exists x y, struct_preimage (js "EIP712Domain") (domain_object d) (domainTypes d) = Ok x /\
        struct_preimage (js "EIP712Domain") (domain_object d') (domainTypes d') = Ok y /\ collision x y) \/
     (exists x y, struct_preimage primaryType m types = Ok x /\ struct_preimage primaryType m' types = Ok y /\ collision x y) \/
     (exists x y, typed_preimage d types primaryType m = Ok x /\ typed_preimage d' types primaryType m' = Ok y /\ collision x y)).
Proof using L.
  intros Hdt Hv Hv'. apply fmap_ok in Hv as (p & Hp & <-). apply fmap_ok in Hv' as (p' & Hp' & Eh).
  pose proof Hp as Hp0. pose proof Hp' as Hp0'. unfold typed_preimage, structHash in Hp, Hp'.
  apply bind_ok in Hp as (sd & Hsd & Hp). apply bind_ok in Hp as (sm & Hsm & Hp).
  apply bind_ok in Hp' as (sd' & Hsd' & Hp'). apply bind_ok in Hp' as (sm' & Hsm' & Hp').
  apply fmap_ok in Hsd as (x & Hx & <-), Hsd' as (x' & Hx' & <-), Hsm as (y & Hy & <-), Hsm' as (y' & Hy' & <-).
  rewrite concatBytes_join in Hp, Hp'.
  assert (exists dt, prop (js "EIP712Domain") (domainTypes d) = Some dt) as [dt Edt] by (eexists; reflexivity).
  assert (exists mt, prop primaryType types = Some mt) as [mt Emt].
  { unfold struct_preimage in Hy. apply bind_ok in Hy as (t & _ & Hy). apply bind_ok in Hy as (f & Hf & _). apply require_ok in Hf. eauto. }
  exists dt, mt. split; [done|]. split; [done|].
  destruct (decide (p = p')) as [->|Hne]; [|do 5 right; exists p, p'; split_and!; [done..|by split]].
  assert (mjoin [[x19; x01]; noble_keccak_256 x; noble_keccak_256 y] = mjoin [[x19; x01]; noble_keccak_256 x'; noble_keccak_256 y'])
    as E by congruence.
  apply app_inv_head, app_inj_length in E as [E1 E2]; [|by rewrite !noble_keccak_length].
  apply app_inv_tail in E2.
  destruct (decide (x = x')) as [->|Hx0]; [|do 3 right; left; exists x, x'; by split_and!].
  destruct (decide (y = y')) as [->|Hy0]; [|do 4 right; left; exists y, y'; by split_and!].
  rewrite Hdt in Hx. destruct (struct_binds _ _ _ _ _ Hx Hx') as (dt' & Edt' & [Hd|Hd]); rewrite Hdt, Edt' in Edt; injection Edt as ->;
    [|by right; left].
  destruct (struct_binds _ _ _ _ _ Hy Hy') as (mt' & Emt' & [Hm|Hm]); rewrite Emt' in Emt; injection Emt as ->; [by left|by do 2 right; left].
Qed.
End Binding.

(** ** Hyperliquid deposits

    packages/lit-deposit-address/src/derivation/vm/hyperliquid/policy.ts,
    signing.ts and HyperliquidVmWalletDeriver.ts. *)

Local Open Scope Z_scope.
Local Open Scope js_scope.

Record HyperliquidVmSendAsset := {
  ha_type : jsstring;
  ha_signatureChainId : jsstring;
  ha_hyperliquidChain : jsstring;
  ha_destination : jsstring;
  ha_sourceDex : jsstring;
  ha_destinationDex : jsstring;
  ha_token : jsstring;
  ha_amount : jsstring;
  ha_fromSubAccount : jsstring;
  ha_nonce : jsnum;
}.
Record HyperliquidVmNonceMapping := {
  hn_walletChainId : jsstring;
  hn_wallet : jsstring;
  hn_depositor : jsstring;
  hn_id : jsstring;
  hn_nonce : jsstring;
}.
Record HyperliquidVmTransaction := { hv_nonceMapping : HyperliquidVmNonceMapping; hv_sendAsset : HyperliquidVmSendAsset }.
Record DigestSignature := { dg_digest : jsstring; dg_signature : jsstring }.
Record HyperliquidVmSignedTransaction := { hs_nonceMapping : DigestSignature; hs_sendAsset : DigestSignature }.

Definition NATIVE_CURRENCY : jsstring := js "0x00000000000000000000000000000000".
Definition SPOT_USDC : jsstring := js "0x6d1e7cde53ba9467b783cb7c530ce054".

(** [s.split(c)] for one code unit. *)
Fixpoint split_on (c : Z) (s : jsstring) : list jsstring :=
  match s with
  | [] => [[]]
  | x :: s' =>
      if x =? c then [] :: split_on c s'
      else match split_on c s' with
           | p :: ps => (x :: p) :: ps
           | [] => [[x]]
           end
  end.

(** [/^\d+(\.\d+)?$/u]. *)
Definition DECIMAL_RE (s : jsstring) : bool :=
  match re_digits1 s with
  | Some (_, []) => true
  | Some (_, 46 :: r) => match re_digits1 r with Some (_, []) => true | _ => false end
  | _ => false
  end.

(** [s.padEnd(n, c)]. *)
Definition padEnd (n : nat) (c : Z) (s : jsstring) : jsstring := s ++ replicate (n - length s) c.

Definition rawAmount (decimal : jsstring) (decimals : Z) : result Z :=
  fail_if negb (DECIMAL_RE decimal) with "sendAsset.amount must be an unsigned decimal string" ;;
  let parts := split_on 46 decimal in
  let whole := default [] (parts !! 0%nat) in
  let frac := default [] (parts !! 1%nat) in
  fail_if decimals <? Z.of_nat (length frac) with "sendAsset.amount has too many decimals" ;;
  BigInt (whole ++ padEnd (Z.to_nat decimals) 48 frac).

(** [Number.parseInt(s)]: leading space, a sign, a [0x] prefix, then the
    longest run of digits. *)
Definition parseInt (str : jsstring) : jsnum :=
  let s := trim_left str in
  let neg := startsWith s (js "-") in
  let s := if neg || startsWith s (js "+") then drop 1 s else s in
  let hex := startsWith s (js "0x") || startsWith s (js "0X") in
  let '(digits, _) := re_span (if hex then is_hex_digit else is_digit) (if hex then drop 2 s else s) in
  if bool_decide (digits = []) then JNaN
  else let v := Radix.of_digits (if hex then 16 else 10) (hex_val <$> digits) in
       round_double (if neg then - v else v) 1.

(** [BigInt(n)] of a number. *)
Definition BigInt_of_number (x : jsnum) : result Z :=
  match x with JInt z => Ok z | _ => throw "The number cannot be converted to a BigInt because it is not an integer" end.

Fixpoint findIndex {A} (f : A -> bool) (l : list A) : option nat :=
  match l with
  | [] => None
  | x :: l' => if f x then Some 0%nat else S <$> findIndex f l'
  end.

Definition inputCurrencyDecimals (trigger : DepositAddressTrigger) : result Z :=
  i ← require (findIndex (fun c => bool_decide (cu_chainId c = in_chainId (tr_input trigger)) &&
                                   bool_decide (toLowerCase (cu_currency c) = toLowerCase (in_currency (tr_input trigger))))
                 (tr_currencies trigger)) "input currency price/decimals missing from trigger";
  price ← require (tr_prices trigger !! i) "undefined";
  Ok (pr_currencyDecimals price).

Section Policy.
Context `{N : Noble}.

Definition hl_currency (hex : jsstring) (label : string) : result jsstring :=
  l ← hexToBytes hex label;
  fail_if negb (Nat.eqb (length l) 16) with (label +:+ " must be 16 bytes") ;;
  Ok (toLowerCase hex).

Definition assertHyperliquidDeposit (trigger : DepositAddressTrigger) (attestation : DepositAddressTriggerAttestation)
    (tx : HyperliquidVmTransaction) : result unit :=
  let nonceMapping := hv_nonceMapping tx in
  let sendAsset := hv_sendAsset tx in
  inputCurrency ← hl_currency (in_currency (tr_input trigger)) "trigger.input.currency";
  let isNative := bool_decide (inputCurrency = NATIVE_CURRENCY) in
  let expectedDex := if isNative then [] else js "spot" in
  fail_if negb (bool_decide (ha_type sendAsset = js "sendAsset")) with "hyperliquid action must be sendAsset" ;;
  fail_if negb (bool_decide (ha_hyperliquidChain sendAsset = js "Mainnet")) with "sendAsset.hyperliquidChain must be Mainnet" ;;
  fail_if negb (bool_decide (ha_sourceDex sendAsset = expectedDex)) || negb (bool_decide (ha_destinationDex sendAsset = expectedDex))
    with "sendAsset sourceDex/destinationDex mismatch" ;;
  fail_if negb (bool_decide (ha_fromSubAccount sendAsset = [])) with "sendAsset.fromSubAccount must be empty" ;;
  nonce ← BigInt (hn_nonce nonceMapping);
  sendNonce ← BigInt_of_number (ha_nonce sendAsset);
  fail_if negb (nonce =? sendNonce) with "nonceMapping.nonce must equal sendAsset.nonce" ;;
  fail_if negb (bool_decide (hn_walletChainId nonceMapping = in_chainId (tr_input trigger)))
    with "nonceMapping.walletChainId must equal trigger.input.chainId" ;;
  fail_if negb (bool_decide (toLowerCase (hn_id nonceMapping) = toLowerCase (tr_orderId trigger)))
    with "nonceMapping.id must equal trigger.orderId" ;;
  expectedDepositor ← normalizeHyperliquidAddressHex (df_depositor (tr_derivationFields trigger));
  depositor ← encodeHyperliquidAddressToHex (hn_depositor nonceMapping);
  fail_if negb (bool_decide (toLowerCase depositor = expectedDepositor)) with "nonceMapping.depositor mismatch" ;;
  expectedDestination ← normalizeHyperliquidAddressHex (ta_inputDepository attestation);
  destination ← encodeHyperliquidAddressToHex (ha_destination sendAsset);
  fail_if negb (bool_decide (toLowerCase destination = expectedDestination)) with "sendAsset.destination mismatch" ;;
  let parts := split_on 58 (ha_token sendAsset) in
  let symbol := default [] (parts !! 0%nat) in
  let token := default [] (parts !! 1%nat) in
  fail_if bool_decide (symbol = []) || bool_decide (token = []) with "sendAsset.token must be SYMBOL:0x<16-byte-token>" ;;
  tokenCurrency ← hl_currency token "sendAsset.token";
  _ ← (if isNative then
         fail_if negb (bool_decide (symbol = js "USDC")) || negb (bool_decide (tokenCurrency = SPOT_USDC))
           with "native hyperliquid deposits must use USDC" ;; Ok tt
       else fail_if negb (bool_decide (tokenCurrency = inputCurrency)) with "sendAsset token mismatch" ;; Ok tt);
  decimals ← inputCurrencyDecimals trigger;
  amount ← rawAmount (ha_amount sendAsset) decimals;
  expected ← BigInt (in_amount (tr_input trigger));
  fail_if negb (amount =? expected) with "sendAsset.amount mismatch" ;;
  Ok tt.

(** [HyperliquidVmWalletDeriver.verifyTransactions]. *)
Definition hl_verifyTransactions (trigger : DepositAddressTrigger) (attestation : DepositAddressTriggerAttestation)
    (transactions : list HyperliquidVmTransaction) : result unit :=
  match transactions with
  | [tx] => assertHyperliquidDeposit trigger attestation tx
  | _ => throw "hyperliquid deposit requires exactly 1 transaction (nonceMapping + sendAsset)"
  end.

(** ** signing.ts *)

Definition HL_ZERO_ADDRESS : jsstring := js "0x0000000000000000000000000000000000000000".
Definition NONCE_MAPPING_DOMAIN_CHAIN_ID : Z := 1.

Definition eip_fields (l : list (string * string)) : list Eip712Field :=
  (fun e => {| ef_name := js e.1; ef_type := js e.2 |}) <$> l.
Definition NONCE_MAPPING_TYPES : Eip712Types :=
  [(js "NonceMapping", eip_fields [("chainId", "string"); ("wallet", "address"); ("depositor", "address");
                                   ("id", "bytes32"); ("nonce", "uint256")])].
Definition SEND_ASSET_TYPES : Eip712Types :=
  [(js "HyperliquidTransaction:SendAsset",
    eip_fields [("hyperliquidChain", "string"); ("destination", "string"); ("sourceDex", "string");
                ("destinationDex", "string"); ("token", "string"); ("amount", "string");
                ("fromSubAccount", "string"); ("nonce", "uint64")])].

Definition nonce_domain : Eip712Domain := {|
  ed_name := Some (js "RelayNonceMapping"); ed_version := Some (js "2");
  ed_chainId := Some NONCE_MAPPING_DOMAIN_CHAIN_ID; ed_verifyingContract := Some HL_ZERO_ADDRESS |}.
Definition nonce_message (m : HyperliquidVmNonceMapping) (nonce : Z) : list (jsstring * Eip712Value) :=
  [(js "chainId", EStr (hn_walletChainId m)); (js "wallet", EStr (hn_wallet m)); (js "depositor", EStr (hn_depositor m));
   (js "id", EStr (hn_id m)); (js "nonce", EInt nonce)].

Definition send_domain (chainId : Z) : Eip712Domain := {|
  ed_name := Some (js "HyperliquidSignTransaction"); ed_version := Some (js "1");
  ed_chainId := Some chainId; ed_verifyingContract := Some HL_ZERO_ADDRESS |}.
Definition send_message (m : HyperliquidVmSendAsset) (nonce : Z) : list (jsstring * Eip712Value) :=
  [(js "type", EStr (ha_type m)); (js "signatureChainId", EStr (ha_signatureChainId m));
   (js "hyperliquidChain", EStr (ha_hyperliquidChain m)); (js "destination", EStr (ha_destination m));
   (js "sourceDex", EStr (ha_sourceDex m)); (js "destinationDex", EStr (ha_destinationDex m));
   (js "token", EStr (ha_token m)); (js "amount", EStr (ha_amount m));
   (js "fromSubAccount", EStr (ha_fromSubAccount m)); (js "nonce", EInt nonce)].

(** The digests; a chain id that is not an integer makes the hash throw. *)
Definition nonce_digest (m : HyperliquidVmNonceMapping) : result bytes :=
  nonce ← BigInt (hn_nonce m);
  eip_hashTypedData nonce_domain NONCE_MAPPING_TYPES (js "NonceMapping") (nonce_message m nonce).
Definition send_digest (m : HyperliquidVmSendAsset) : result bytes :=
  nonce ← BigInt_of_number (ha_nonce m);
  chainId ← BigInt_of_number (parseInt (ha_signatureChainId m));
  eip_hashTypedData (send_domain chainId) SEND_ASSET_TYPES (js "HyperliquidTransaction:SendAsset") (send_message m nonce).

Context `{S : Secp256k1}.

Definition signNonceMapping (message : HyperliquidVmNonceMapping) (privateKey : bytes) : result DigestSignature :=
  digest ← nonce_digest message;
  signature ← signTypedDataHash digest privateKey;
  Ok {| dg_digest := js "0x" ++ bytesToHex digest; dg_signature := signature |}.

Definition signSendAsset (message : HyperliquidVmSendAsset) (privateKey : bytes) : result DigestSignature :=
  digest ← send_digest message;
  signature ← signTypedDataHash digest privateKey;
  Ok {| dg_digest := js "0x" ++ bytesToHex digest; dg_signature := signature |}.

(** [HyperliquidVmWalletDeriver.signTransactionWithKey]. *)
Definition hl_signTransactionWithKey (privateKey : bytes) (transaction : HyperliquidVmTransaction)
  : result HyperliquidVmSignedTransaction :=
  publicKey ← secp_getPublicKey privateKey false;
  let wallet := evm_account publicKey in
  expectedWallet ← normalizeHyperliquidAddressHex (hn_wallet (hv_nonceMapping transaction));
  actualWallet ← encodeHyperliquidAddressToHex wallet;
  fail_if negb (bool_decide (toLowerCase actualWallet = expectedWallet))
    with "nonceMapping.wallet must equal derived hyperliquid wallet" ;;
  nonceMapping ← signNonceMapping (hv_nonceMapping transaction) privateKey;
  sendAsset ← signSendAsset (hv_sendAsset transaction) privateKey;
  Ok {| hs_nonceMapping := nonceMapping; hs_sendAsset := sendAsset |}.
End Policy.

(** ** What a Hyperliquid sweep signs

    The decimal amounts, the deposit the policy accepts, and the two messages
    the wallet signs for it. *)

Local Open Scope Z_scope.
Local Open Scope js_scope.

(** ** Decimal amounts *)

Abbreviation digits s := (Forall (fun c => is_digit c = true) s).

(** [s] is [ip] or [ip.fp], in decimal digits. *)
Definition decimal_text (s ip fp : jsstring) : Prop :=
  digits ip /\ digits fp /\ ip <> [] /\ (fp = [] /\ s = ip \/ fp <> [] /\ s = ip ++ js "." ++ fp).

Definition decimal_value (s : jsstring) : Z := Radix.of_digits 10 (dec_val <$> s).

Lemma BigInt_digits s : digits s -> s <> [] -> BigInt s = Ok (decimal_value s).
Proof.
  intros Hd Hne. unfold BigInt, StringToBigInt.
  assert (forall c, is_digit c = true -> 48 <= c <= 57) as Hr by (intros c; unfold is_digit, in_range; lia).
  rewrite trim_id.
  2: { intros c Hc. rewrite Forall_forall in Hd. specialize (Hr c (Hd c Hc)). unfold is_space.
       apply orb_false_iff. split; [|unfold in_range; lia]. apply bool_decide_eq_false. intros Hin.
       repeat (apply elem_of_cons in Hin as [->|Hin]; [lia|]). by apply elem_of_nil in Hin. }
  rewrite bool_decide_false by done.
  assert (radix_literal 10 is_digit s = Some (decimal_value s)) as E.
  { unfold radix_literal. rewrite bool_decide_false, (proj2 (forallb_Forall _ _) Hd) by done. do 2 f_equal.
    unfold decimal_value. f_equal. apply Forall_fmap_ext_1. eapply Forall_impl; [exact Hd|]. intros c Hc. cbn.
    apply Hr in Hc. unfold hex_val, dec_val, in_range. by zcmp. }
  destruct s as [|a [|b r]]; [done| |]; apply Forall_cons_1 in Hd as [Ha Hd]; apply Hr in Ha.
  - rewrite E. by repeat case_match.
  - apply Forall_cons_1 in Hd as [Hb Hd]. apply Hr in Hb. rewrite E. repeat case_match; simplify_eq; try lia; done.
Qed.

Lemma split_on_none c s : c ∉ s -> split_on c s = [s].
Proof.
  induction s as [|x s IH]; [done|]. intros Hn. apply not_elem_of_cons in Hn as [Hx Hn]. cbn [split_on].
  rewrite (proj2 (Z.eqb_neq _ _)) by done. by rewrite IH.
Qed.
Lemma split_on_app c s t : c ∉ s -> split_on c (s ++ [c] ++ t) = s :: split_on c t.
Proof.
  induction s as [|x s IH]; intros Hn; cbn [app split_on]; [by rewrite Z.eqb_refl|].
  apply not_elem_of_cons in Hn as [Hx Hn]. rewrite (proj2 (Z.eqb_neq _ _)) by done.
  change (s ++ c :: t) with (s ++ [c] ++ t). by rewrite IH.
Qed.

Lemma no_dot s : digits s -> 46 ∉ s.
Proof. intros Hd Hin. rewrite Forall_forall in Hd. by specialize (Hd _ Hin). Qed.

Lemma DECIMAL_RE_iff s : DECIMAL_RE s = true <-> exists ip fp, decimal_text s ip fp.
Proof.
  unfold DECIMAL_RE, decimal_text. split.
  - destruct (re_digits1 s) as [[d r]|] eqn:E; [|done]. apply re_digits1_sound in E as (-> & Hd & Hne).
    destruct r as [|c r]; [intros _; exists d, []; rewrite app_nil_r; split_and!; auto; constructor|].
    destruct (Z.eq_dec c 46) as [->|Hc]; [|intros X; exfalso; revert X; repeat case_match; by simplify_eq].
    destruct (re_digits1 r) as [[d' r']|] eqn:E; [|done]. apply re_digits1_sound in E as (-> & Hd' & Hne').
    destruct r'; [|done]. intros _. exists d, d'. rewrite app_nil_r. split_and!; auto.
  - intros (ip & fp & Hi & Hf & Hne & [[-> ->]|[Hf' ->]]).
    + rewrite <- (app_nil_r ip). rewrite re_digits1_complete by eauto with relay. done.
    + rewrite re_digits1_complete by (try done; by apply no_digit_cons). cbn [app js].
      change (js "." ++ fp) with (46 :: fp). rewrite <- (app_nil_r fp), re_digits1_complete by eauto with relay. done.
Qed.

Lemma decimal_value_pad s n : decimal_value (s ++ replicate n 48) = decimal_value s * 10 ^ Z.of_nat n.
Proof.
  unfold decimal_value. rewrite fmap_app, Radix.of_digits_app by lia. rewrite length_fmap, length_replicate, fmap_replicate.
  change (dec_val 48) with 0. rewrite <- (app_nil_r (replicate n 0)), Radix.of_digits_replicate_0 by lia. cbn. lia.
Qed.

(** The amount in the smallest unit: a decimal text times ten to the number of
    decimals, exactly. *)
Lemma rawAmount_ok s d a : rawAmount s d = Ok a <->
  exists ip fp, decimal_text s ip fp /\ Z.of_nat (length fp) <= d /\
    a = decimal_value (ip ++ fp) * 10 ^ (d - Z.of_nat (length fp)).
Proof.
  assert (forall ip fp, decimal_text s ip fp -> default [] (split_on 46 s !! 0%nat) = ip /\ default [] (split_on 46 s !! 1%nat) = fp) as Hsp.
  { intros ip fp (Hi & Hf & _ & [[-> ->]|[_ ->]]).
    - rewrite split_on_none by (by apply no_dot). done.
    - change (js ".") with [46]. rewrite split_on_app, split_on_none by (by apply no_dot). done. }
  assert (forall ip fp, decimal_text s ip fp -> Z.of_nat (length fp) <= d ->
    BigInt (ip ++ padEnd (Z.to_nat d) 48 fp) = Ok (decimal_value (ip ++ fp) * 10 ^ (d - Z.of_nat (length fp)))) as Hb.
  { intros ip fp (Hi & Hf & Hne & _) Hd. unfold padEnd. rewrite app_assoc, BigInt_digits.
    - rewrite decimal_value_pad. do 3 f_equal. lia.
    - apply Forall_app. split; [by apply Forall_app|by apply Forall_replicate].
    - intros E. apply app_eq_nil in E as [E _]. by apply app_eq_nil in E as [? _]. }
  unfold rawAmount. split.
  - intros Hv. apply bind_ok in Hv as (u & Hu & Hv). apply check_ok, negb_true_iff, negb_false_iff, DECIMAL_RE_iff in Hu as (ip & fp & Ht).
    cbv zeta in Hv. destruct (Hsp _ _ Ht) as [E1 E2]. rewrite E1, E2 in Hv. apply bind_ok in Hv as (v & Hl & Hv).
    apply check_ok in Hl. bool_prop. rewrite (Hb ip fp Ht Hl) in Hv. exists ip, fp. split_and!; [done..|congruence].
  - intros (ip & fp & Ht & Hl & ->). rewrite (proj2 (DECIMAL_RE_iff s)) by eauto. cbn [negb check mbind result_bind]. cbv zeta.
    destruct (Hsp _ _ Ht) as [-> ->]. rewrite (proj2 (Z.ltb_ge _ _) Hl). cbn [negb check mbind result_bind]. by apply Hb.
Qed.

(** ** The deposit policy *)

Lemma split_on_join c s : s = join_with [c] (split_on c s).
Proof.
  induction s as [|x s IH]; [done|]. cbn [split_on]. destruct (Z.eqb_spec x c) as [->|Hx].
  - destruct (split_on c s) as [|p ps] eqn:E; [by destruct s; cbn in E; repeat case_match|].
    change (join_with [c] ([] :: p :: ps)) with ([] ++ [c] ++ join_with [c] (p :: ps)). by rewrite <- IH.
  - destruct (split_on c s) as [|p ps] eqn:E; [by rewrite IH|]. rewrite IH. by destruct ps.
Qed.

Section Policy.
Context `{N : Noble, L : !NobleLaws N}.

(** The token text [symbol:token], and what may follow another colon. *)
Definition token_text (s symbol token : jsstring) : Prop :=
  symbol <> [] /\ token <> [] /\ exists rest, s = join_with (js ":") (symbol :: token :: rest).

(** An authorized deposit: the order's nonce mapping, and a transfer with the
    same nonce of exactly the trigger's amount of its currency from the wallet
    to the attested depository. *)
Record hl_deposit (trigger : DepositAddressTrigger) (attestation : DepositAddressTriggerAttestation)
    (tx : HyperliquidVmTransaction) (amount : Z) : Prop := {
  hd_action : ha_type (hv_sendAsset tx) = js "sendAsset" /\ ha_hyperliquidChain (hv_sendAsset tx) = js "Mainnet" /\
    ha_fromSubAccount (hv_sendAsset tx) = [];
  hd_nonce : exists n, BigInt (hn_nonce (hv_nonceMapping tx)) = Ok n /\ ha_nonce (hv_sendAsset tx) = JInt n;
  hd_order : hn_walletChainId (hv_nonceMapping tx) = in_chainId (tr_input trigger) /\
    toLowerCase (hn_id (hv_nonceMapping tx)) = toLowerCase (tr_orderId trigger);
  hd_depositor : exists a, hl_addr (hn_depositor (hv_nonceMapping tx)) "address" a /\
    hl_addr (df_depositor (tr_derivationFields trigger)) "encoded address" a;
  hd_destination : exists a, hl_addr (ha_destination (hv_sendAsset tx)) "address" a /\
    hl_addr (ta_inputDepository attestation) "encoded address" a;
  hd_token : exists symbol token, token_text (ha_token (hv_sendAsset tx)) symbol token /\
    (exists l, hexToBytes token "sendAsset.token" = Ok l /\ length l = 16%nat) /\
    (toLowerCase (in_currency (tr_input trigger)) = NATIVE_CURRENCY /\
       symbol = js "USDC" /\ toLowerCase token = SPOT_USDC /\
       ha_sourceDex (hv_sendAsset tx) = [] /\ ha_destinationDex (hv_sendAsset tx) = [] \/
     toLowerCase (in_currency (tr_input trigger)) <> NATIVE_CURRENCY /\
       toLowerCase token = toLowerCase (in_currency (tr_input trigger)) /\
       ha_sourceDex (hv_sendAsset tx) = js "spot" /\ ha_destinationDex (hv_sendAsset tx) = js "spot");
  hd_amount : BigInt (in_amount (tr_input trigger)) = Ok amount /\ exists decimals ip fp,
    inputCurrencyDecimals trigger = Ok decimals /\ decimal_text (ha_amount (hv_sendAsset tx)) ip fp /\
    Z.of_nat (length fp) <= decimals /\ decimal_value (ip ++ fp) * 10 ^ (decimals - Z.of_nat (length fp)) = amount }.

Lemma hl_currency_ok hex label s : hl_currency hex label = Ok s ->
  s = toLowerCase hex /\ exists l, hexToBytes hex label = Ok l /\ length l = 16%nat.
Proof using.
  unfold hl_currency. intros Hv. apply bind_ok in Hv as (l & Hl & Hv). apply bind_ok in Hv as (u & Hu & Hv).
  apply check_ok in Hu. bool_prop. split; [congruence|eauto].
Qed.

(** The two codecs agree: equal texts name equal identifiers. *)
Lemma hl_same text encoded h e : encodeHyperliquidAddressToHex text = Ok h ->
  normalizeHyperliquidAddressHex encoded = Ok e -> toLowerCase h = e ->
  exists a, hl_addr text "address" a /\ hl_addr encoded "encoded address" a.
Proof using L.
  intros Ht He Eh. apply encode_hl_ok in Ht as (a & Ha & ->). apply normalize_hl_ok in He as (b & Hb & ->).
  rewrite toLowerCase_hex_of in Eh. apply hex_of_inj in Eh as ->. eauto.
Qed.

Lemma number_bigint x n : BigInt_of_number x = Ok n -> x = JInt n.
Proof using. destruct x; cbn; congruence. Qed.

Lemma split_two s : default [] (split_on 58 s !! 0%nat) <> [] -> default [] (split_on 58 s !! 1%nat) <> [] ->
  token_text s (default [] (split_on 58 s !! 0%nat)) (default [] (split_on 58 s !! 1%nat)).
Proof using.
  intros H0 H1. split; [done|]. split; [done|]. pose proof (split_on_join 58 s) as E.
  destruct (split_on 58 s) as [|p [|q ps]]; [done|done|]. exists ps. exact E.
Qed.

Lemma hl_policy_sound trigger attestation txs : hl_verifyTransactions trigger attestation txs = Ok tt ->
  exists tx amount, txs = [tx] /\ hl_deposit trigger attestation tx amount.
Proof using L.
  unfold hl_verifyTransactions. destruct txs as [|tx [|]]; [done| |done]. intros Hv. exists tx.
  unfold assertHyperliquidDeposit in Hv. cbv zeta in Hv. res_inv Hv. bool_prop.
  repeat match goal with X : hl_currency _ _ = Ok _ |- _ => apply hl_currency_ok in X as [-> ?] end.
  rename select (rawAmount _ _ = Ok _) into Hraw. apply rawAmount_ok in Hraw as (ip & fp & Ht & Hl & ->).
  rename select (BigInt_of_number _ = Ok _) into Hnum. apply number_bigint in Hnum. subst.
  exists (decimal_value (ip ++ fp) * 10 ^ (r18 - Z.of_nat (length fp))). split; [done|]. split; [done|eauto|done| | | |].
  - by eapply hl_same.
  - by eapply hl_same.
  - eexists _, _. split; [by apply split_two|]. split; [done|]. case_bool_decide; res_inv Hs17; bool_prop; [left|right]; done.
  - split; [done|]. by exists r18, ip, fp.
Qed.
End Policy.

(** ** The signed messages *)

Section Sign.
Context `{N : Noble, L : !NobleLaws N, S : Secp256k1, SL : !Secp256k1Laws S}.

(** [d] is a digest with its signature: r, s and the recovery value. *)
Definition signed_digest (key digest : bytes) (d : DigestSignature) : Prop :=
  exists sig, secp_sign digest key = Ok sig /\ dg_digest d = hex_of digest /\
    dg_signature d = hex_of (drop 1 sig ++ [u8 (byte_at sig 0 + 27)]).

Lemma typed_signature sig b : length sig = 65%nat ->
  <[64%nat := b]> (set_at (zeros 65) 0 (drop 1 sig)) = drop 1 sig ++ [b].
Proof using.
  intros Hl. destruct sig as [|x rs]; [done|]. assert (length rs = 64%nat) as Hr by (cbn in Hl; lia).
  change (drop 1 (x :: rs)) with rs.
  assert (set_at (zeros 65) 0 rs = rs ++ [x00]) as ->.
  { unfold set_at, zeros. rewrite take_0, drop_replicate, Hr. done. }
  rewrite insert_app_r_alt, Hr by lia. done.
Qed.

Lemma signTypedDataHash_ok digest key s d : signTypedDataHash digest key = Ok s ->
  d = {| dg_digest := js "0x" ++ bytesToHex digest; dg_signature := s |} -> signed_digest key digest d.
Proof using L SL.
  unfold signTypedDataHash. intros Hv ->. apply bind_ok in Hv as (sig & Hs & Hv). exists sig.
  rewrite (typed_signature sig _ (secp_sign_length _ _ _ Hs)), print_hex_of in Hv. cbn [dg_digest dg_signature].
  split; [done|]. split; [apply print_hex_of|congruence].
Qed.

(** what an authorized Hyperliquid sweep does.  The policy accepts exactly
    one transaction: a [sendAsset] of the root account on Mainnet that moves
    exactly [trigger.input.amount], written as a decimal in the currency's
    decimals, of the trigger's currency to the attested depository, and a
    nonce mapping that ties the same nonce to the order and its depositor.
    When the wallet signs it, the mapping names the wallet itself, and the two
    signatures are over the EIP-712 digests of these very messages. *)
Theorem hyperliquid_sweep_pays_depository trigger attestation txs :
  hl_verifyTransactions trigger attestation txs = Ok tt ->
  exists tx amount, txs = [tx] /\ hl_deposit trigger attestation tx amount /\
    forall key signed, hl_signTransactionWithKey key tx = Ok signed ->
    exists publicKey nd sd, secp_getPublicKey key false = Ok publicKey /\
      hl_addr (hn_wallet (hv_nonceMapping tx)) "encoded address" (drop 12 (noble_keccak_256 (drop 1 publicKey))) /\
      nonce_digest (hv_nonceMapping tx) = Ok nd /\ signed_digest key nd (hs_nonceMapping signed) /\
      send_digest (hv_sendAsset tx) = Ok sd /\ signed_digest key sd (hs_sendAsset signed).
Proof using L SL.
  intros Hv. destruct (hl_policy_sound _ _ _ Hv) as (tx & amount & -> & Hd). exists tx, amount. split; [done|]. split; [done|].
  intros key signed Hk. unfold hl_signTransactionWithKey in Hk. apply bind_ok in Hk as (pk & Hpk & Hk). cbv zeta in Hk.
  apply bind_ok in Hk as (e & He & Hk). apply bind_ok in Hk as (h & Hh & Hk). apply bind_ok in Hk as (u & Hu & Hk).
  apply check_ok in Hu. bool_prop. destruct (hl_same _ _ _ _ Hh He Hu) as (a & [Ha _] & Hw).
  unfold evm_account in Ha. rewrite print_hex_of in Ha. unfold hex_of in Ha. rewrite hexToBytes_print_0x in Ha. injection Ha as <-.
  unfold signNonceMapping, signSendAsset in Hk. apply bind_ok in Hk as (nm & Hnm & Hk). apply bind_ok in Hk as (sa & Hsa & Hk).
  apply bind_ok in Hnm as (nd & Hnd & Hnm). apply bind_ok in Hnm as (s1 & Hs1 & Hnm).
  apply bind_ok in Hsa as (sd & Hsd & Hsa). apply bind_ok in Hsa as (s2 & Hs2 & Hsa).
  assert (signed = {| hs_nonceMapping := nm; hs_sendAsset := sa |}) as -> by congruence. cbn [hs_nonceMapping hs_sendAsset].
  exists pk, nd, sd. split_and!; try done.
  - apply (signTypedDataHash_ok _ _ _ _ Hs1). congruence.
  - apply (signTypedDataHash_ok _ _ _ _ Hs2). congruence.
Qed.
End Sign.

(** ** A concrete sweep *)

Definition hl_tx (amount : string) : HyperliquidVmTransaction := {|
  hv_nonceMapping := {| hn_walletChainId := js "1"; hn_wallet := hex_of (drop 12 (toy_hash (pad32 [x07] ++ pad32 [x07])));
    hn_depositor := hex_of (replicate 20 x0d); hn_id := hex_of (replicate 32 xab); hn_nonce := js "77" |};
  hv_sendAsset := {| ha_type := js "sendAsset"; ha_signatureChainId := js "0xa4b1"; ha_hyperliquidChain := js "Mainnet";
    ha_destination := hex_of (replicate 20 x0e); ha_sourceDex := js "spot"; ha_destinationDex := js "spot";
    ha_token := js "PURR:" ++ hex_of (replicate 16 xc1); ha_amount := js amount; ha_fromSubAccount := []; ha_nonce := JInt 77 |} |}.
Definition hl_trigger : DepositAddressTrigger := {|
  tr_input := toy_input "hyperliquid-vm" (hex_of (replicate 16 xc1)) "1250";
  tr_derivationFields := toy_fields "hyperliquid-vm" (hex_of (replicate 20 x0d)) [];
  tr_orderId := hex_of (replicate 32 xab); tr_nonce := js "1";
  tr_currencies := [{| cu_chainId := js "1"; cu_currency := hex_of (replicate 16 xc1) |}];
  tr_prices := [{| pr_usdPrice := js "1"; pr_usdPriceDecimals := 0; pr_currencyDecimals := 3;
                   pr_publishTime := js "1"; pr_expiration := js "9" |}]; tr_extraData := [] |}.
Definition hl_attestation : DepositAddressTriggerAttestation := {|
  ta_chainId := 1; ta_depositAddressManager := []; ta_inputDepository := hex_of (replicate 20 x0e);
  ta_triggerHash := []; ta_signatures := [] |}.

Lemma hyperliquid_sweep_witness :
  exists tx amount, [hl_tx "1.25"] = [tx] /\ @hl_deposit toy_noble hl_trigger hl_attestation tx amount /\
    exists signed, @hl_signTransactionWithKey toy_noble toy_secp [x07] tx = Ok signed.
Proof.
  destruct (@hyperliquid_sweep_pays_depository toy_noble toy_noble_laws toy_secp toy_secp_laws hl_trigger hl_attestation
              [hl_tx "1.25"]) as (tx & amount & E & Hd & _); [vm_compute; reflexivity|].
  exists tx, amount. split; [exact E|]. split; [exact Hd|]. injection E as <-. eexists. vm_compute. reflexivity.
Defined.

(** The same digest from the same message: the hypotheses can be met. *)
Lemma typed_data_witness :
  exists h dt mt, @eip_hashTypedData toy_noble nonce_domain NONCE_MAPPING_TYPES (js "NonceMapping")
      (nonce_message (hv_nonceMapping (hl_tx "1")) 77) = Ok h /\
    prop (js "EIP712Domain") (domainTypes nonce_domain) = Some dt /\ prop (js "NonceMapping") NONCE_MAPPING_TYPES = Some mt.
Proof.
  assert (exists h, @eip_hashTypedData toy_noble nonce_domain NONCE_MAPPING_TYPES (js "NonceMapping")
    (nonce_message (hv_nonceMapping (hl_tx "1")) 77) = Ok h) as [h Eh] by (eexists; vm_compute; reflexivity).
  destruct (@typed_data_hash_binds toy_noble toy_noble_laws NONCE_MAPPING_TYPES (js "NonceMapping") nonce_domain
    (nonce_message (hv_nonceMapping (hl_tx "1")) 77) nonce_domain (nonce_message (hv_nonceMapping (hl_tx "1")) 77) h
    eq_refl Eh Eh) as (dt & mt & E1 & E2 & _).
  exists h, dt, mt. split; [exact Eh|]. split; [exact E1|exact E2].
Defined.
