(* ===== verification/DepositDerivers.v ===== *)
(** * Address codecs and wallet derivers of the VM families

    The base classes of derivation/vm/base, the six derivers and the registry
    are the second half.  First
    packages/lit-deposit-address/src/common/vm.ts, common/address/solana.ts
    and common/address.ts: the dispatch from a VM family to its address codec.
    Every codec reads its own output back, so comparing normalized addresses
    compares account bytes. *)

From Stdlib Require Import Strings.Byte.
From S2P Require Import Prelude JsNum JsString HexBytes ToyRuntime DepositBytes BitcoinTx BitcoinProofs TonDeriver EvmAddress TronTx JsJson DepositTypes DepositAttestation DepositAction TonWallet SolanaTx EvmTx HyperliquidTx.
Local Open Scope Z_scope.
Local Open Scope js_scope.

Inductive VmType := EthereumVm | BitcoinVm | SolanaVm | HyperliquidVm | TonVm | TronVm.

#[global] Instance VmType_eq_dec : EqDecision VmType.
Proof. solve_decision. Defined.

Definition all_vms : list VmType := [EthereumVm; BitcoinVm; SolanaVm; HyperliquidVm; TonVm; TronVm].

(** The string a family is written as. *)
Definition vm_name (v : VmType) : jsstring :=
  match v with
  | EthereumVm => js "ethereum-vm" | BitcoinVm => js "bitcoin-vm" | SolanaVm => js "solana-vm"
  | HyperliquidVm => js "hyperliquid-vm" | TonVm => js "ton-vm" | TronVm => js "tron-vm"
  end.

Definition isVmType (value : jsstring) : bool := bool_decide (value ∈ VM_TYPES).

Definition assertVmType (value : jsstring) : result VmType :=
  fail_if negb (isVmType value) with "unsupported VM type" ;;
  require (List.find (fun v => bool_decide (vm_name v = value)) all_vms) "unsupported VM type".

Section Codec.
Context `{N : Noble, H : Host, B : Scure}.

Definition encodeSolanaAddress (address : jsstring) : result bytes :=
  encoded ← base58_decode address;
  fail_if negb (Nat.eqb (length encoded) 32) with "solana-vm address must be 32 bytes" ;;
  Ok encoded.

Definition decodeSolanaAddress (encoded : bytes) : result jsstring :=
  fail_if negb (Nat.eqb (length encoded) 32) with "solana-vm encoded address must be 32 bytes" ;;
  Ok (base58_encode encoded).

Definition encodeAddress (address : jsstring) (vm : VmType) : result bytes :=
  match vm with
  | BitcoinVm => encodeBitcoinAddress address
  | EthereumVm => encodeEthereumAddress address
  | HyperliquidVm => encodeHyperliquidAddress address
  | SolanaVm => encodeSolanaAddress address
  | TonVm => encodeTonAddress address
  | TronVm => encodeTronAddress address
  end.

Definition encodeAddressToHex (address : jsstring) (vm : VmType) : result jsstring :=
  l ← encodeAddress address vm; Ok (js "0x" ++ bytesToHex l).

Definition decodeAddress (encoded : bytes) (vm : VmType) : result jsstring :=
  match vm with
  | BitcoinVm => decodeBitcoinAddress encoded
  | EthereumVm => decodeEthereumAddress encoded
  | HyperliquidVm => decodeHyperliquidAddress encoded
  | SolanaVm => decodeSolanaAddress encoded
  | TonVm => decodeTonAddress encoded
  | TronVm => decodeTronAddress encoded
  end.

Definition decodeAddressFromHex (encodedHex : jsstring) (vm : VmType) : result jsstring :=
  l ← hexToBytes encodedHex "encoded address"; decodeAddress l vm.

Definition normalizeAddressHex (encodedHex : jsstring) (vm : VmType) : result jsstring :=
  address ← decodeAddressFromHex encodedHex vm;
  hex ← encodeAddressToHex address vm;
  Ok (toLowerCase hex).
End Codec.

(** ** Laws of the base-58 and Bech32 codecs *)

(** Decoding undoes encoding; the leading character of a base-58 Bitcoin
    address is fixed by its version byte; Bech32 prints lower case, and its
    checksum is not that of Bech32m. *)
Class BitcoinCodecLaws (B : Scure) : Prop := {
  codec_base58 :: ScureLaws B;
  base58_p2pkh : forall l, length l = 25%nat -> byte_at l 0 = P2PKH -> startsWith (base58_encode l) (js "1") = true;
  base58_p2sh : forall l, length l = 25%nat -> byte_at l 0 = P2SH -> startsWith (base58_encode l) (js "3") = true;
  bech32_back : forall ws s, bech32_encode BITCOIN_MAINNET_HRP ws = Ok s ->
    bech32_decode s = Ok (BITCOIN_MAINNET_HRP, ws) /\ toLowerCase s = s /\ startsWith s (js "bc1") = true;
  bech32m_back : forall ws s, bech32m_encode BITCOIN_MAINNET_HRP ws = Ok s ->
    bech32m_decode s = Ok (BITCOIN_MAINNET_HRP, ws) /\ toLowerCase s = s /\ startsWith s (js "bc1") = true /\
    is_ok (bech32_decode s) = false;
  words_back : forall l, bech32_fromWords (bech32_toWords l) = Ok l;
}.

Section Laws.
Context `{N : Noble, L : !NobleLaws N, H : Host, HL : !HostLaws H, B : Scure, BL : !BitcoinCodecLaws B}.

Lemma startsWith_bc1 s : startsWith s (js "bc1") = true -> startsWith s (js "1") || startsWith s (js "3") = false.
Proof using.
  unfold startsWith. rewrite bool_decide_eq_true. intros E. destruct s as [|c s]; [done|].
  cbn in E. injection E as -> _. done.
Qed.

Lemma encode_legacy payload : legacy_payload payload = true ->
  encodeBitcoinAddress (decodeBase58CheckPayload payload) = Ok (u8 LEGACY :: payload).
Proof using L BL.
  intros Hl. unfold decodeBase58CheckPayload. rewrite concatBytes_join. cbn [mjoin list_join]. rewrite app_nil_r.
  set (sum := take 4 (doubleSha256 payload)).
  assert (length sum = 4%nat) as Hs by (unfold sum, doubleSha256; rewrite length_take, noble_sha256_length; done).
  pose proof Hl as Hl0. unfold legacy_payload in Hl. bool_prop.
  assert (length (payload ++ sum) = 25%nat) as H25 by (rewrite length_app; lia).
  assert (byte_at (payload ++ sum) 0 = byte_at payload 0) as Hb by (destruct payload; done).
  unfold encodeBitcoinAddress.
  assert (startsWith (base58_encode (payload ++ sum)) (js "1") || startsWith (base58_encode (payload ++ sum)) (js "3") = true) as ->.
  { destruct (Z.eqb_spec (byte_at payload 0) P2PKH) as [E|E].
    - rewrite base58_p2pkh by congruence. done.
    - rewrite orb_comm, base58_p2sh; [done..|]. rewrite Hb. bool_prop. lia. }
  unfold encodeBase58CheckPayload. rewrite base58_roundtrip. cbn [mbind result_bind]. rewrite H25.
  change (25 - 4)%nat with 21%nat. cbn [Nat.ltb Nat.leb check mbind result_bind].
  rewrite take_length_app, drop_length_app by congruence. fold sum. rewrite (proj2 (equalBytes_spec _ _) eq_refl).
  cbn [negb check mbind result_bind]. by rewrite Hl0.
Qed.

Lemma encode_decode_bitcoin l s : decodeBitcoinAddress l = Ok s -> encodeBitcoinAddress s = Ok l.
Proof using L BL.
  destruct l as [|v p]; [done|]. cbn [decodeBitcoinAddress]. destruct (Z.eqb_spec (bz v) LEGACY) as [E|E].
  { intros Hd. apply bind_ok in Hd as (u & Hu & Hd). apply check_ok in Hu. bool_prop.
    assert (s = decodeBase58CheckPayload p) as -> by congruence. rewrite encode_legacy by done. rewrite <- E. by rewrite u8_bz. }
  intros Hd. apply bind_ok in Hd as (u & _ & Hd). apply bind_ok in Hd as (u' & Hu & Hd). clear u u' Hu.
  assert (witness_bytes (bz v :: bech32_toWords p) = Ok (v :: p)) as Hw.
  { unfold witness_bytes. rewrite words_back. cbn [mbind result_bind]. by rewrite u8_bz. }
  destruct (Z.eqb_spec (bz v) 0) as [E0|E0].
  - apply bech32_back in Hd as (Hdec & Hlow & Hst). unfold encodeBitcoinAddress. rewrite startsWith_bc1, Hlow, Hst, Hdec by done.
    cbn [mbind result_bind head]. rewrite E0 in *. rewrite !bool_decide_eq_true_2 by done. cbn [andb].
    rewrite Hw. done.
  - apply bech32m_back in Hd as (Hdec & Hlow & Hst & Hno). unfold encodeBitcoinAddress.
    rewrite startsWith_bc1, Hlow, Hst by done. destruct (bech32_decode s) as [|m]; [done|]. cbn [mbind result_bind].
    rewrite Hdec. cbn [mbind result_bind]. rewrite bool_decide_eq_true_2 by done.
    pose proof (bz_range v). zcmp. exact Hw.
Qed.

Lemma encode_decode_address v l s : decodeAddress l v = Ok s -> encodeAddress s v = Ok l.
Proof using L HL BL.
  destruct v; cbn [decodeAddress encodeAddress].
  - intros (Hl & ->)%decode_evm_ok. unfold encodeEthereumAddress, hex_of. rewrite hexToBytes_print_0x. cbn [mbind result_bind].
    by rewrite Hl.
  - apply encode_decode_bitcoin.
  - unfold decodeSolanaAddress, encodeSolanaAddress. intros Hd. apply bind_ok in Hd as (u & Hu & Hd). apply check_ok in Hu. bool_prop.
    assert (s = base58_encode l) as -> by congruence. rewrite base58_roundtrip. cbn [mbind result_bind]. by rewrite Hu.
  - intros (Hl & ->)%decode_hl_ok. unfold encodeHyperliquidAddress, hex_of. rewrite hexToBytes_print_0x. cbn [mbind result_bind].
    by zcmp.
  - intros Hd. assert (length l = 32%nat) as Hl.
    { unfold decodeTonAddress in Hd. apply bind_ok in Hd as (u & Hu & _). apply check_ok in Hu. by bool_prop. }
    rewrite decode_ton_raw in Hd by done. assert (s = js "0:" ++ HexBytes.bytesToHex l) as -> by congruence.
    by apply encode_ton_raw.
  - apply encode_decode_tron.
Qed.

(** the address codecs.  For every VM family, the text an encoding decodes
    to encodes back to the same bytes, so that different account bytes have
    different texts; and normalizing an encoded address accepts exactly the
    hex strings of decodable account bytes, in any spelling, and returns the
    lower-case hex of these bytes, so that equal normal forms mean equal
    accounts. *)
Theorem address_codec_roundtrip v :
  (forall l s, decodeAddress l v = Ok s -> encodeAddress s v = Ok l) /\
  (forall hex n, normalizeAddressHex hex v = Ok n <->
     exists l s, hexToBytes hex "encoded address" = Ok l /\ decodeAddress l v = Ok s /\ n = hex_of l).
Proof using L HL BL.
  split; [apply encode_decode_address|]. intros hex n. unfold normalizeAddressHex, decodeAddressFromHex, encodeAddressToHex. split.
  - intros Hn. apply bind_ok in Hn as (s & Hs & Hn). apply bind_ok in Hs as (l & Hl & Hs). apply bind_ok in Hn as (h & Hh & Hn).
    rewrite (encode_decode_address v l s Hs) in Hh. cbn [mbind result_bind] in Hh. rewrite print_hex_of in Hh.
    assert (h = hex_of l) as -> by congruence. unfold hex_of in Hn. rewrite toLowerCase_0x in Hn.
    exists l, s. split_and!; [done..|]. unfold hex_of. congruence.
  - intros (l & s & Hl & Hs & ->). rewrite Hl. cbn [mbind result_bind]. rewrite Hs. cbn [mbind result_bind].
    rewrite (encode_decode_address v l s Hs). cbn [mbind result_bind]. rewrite print_hex_of. unfold hex_of. by rewrite toLowerCase_0x.
Qed.
End Laws.

(** ** A concrete codec *)

(** A base-58 text shows its version in front of the bytes; a Bech32 text is
    [bc1], the kind of checksum and the words. *)
Definition codec_scure : Scure := {|
  base58_decode := fun s => Ok (Uint8Array_from (drop 1 s));
  base58_encode := fun l => (if byte_at l 0 =? P2PKH then 49 else 51) :: (bz <$> l);
  bech32_decode := fun s => if bool_decide (s !! 3%nat = Some 98) then Ok (js "bc", drop 4 s) else throw "checksum";
  bech32m_decode := fun s => if bool_decide (s !! 3%nat = Some 109) then Ok (js "bc", drop 4 s) else throw "checksum";
  bech32_encode := fun hrp ws => if forallb (in_range 0 31) ws then Ok (hrp ++ js "1b" ++ ws) else throw "word";
  bech32m_encode := fun hrp ws => if forallb (in_range 0 31) ws then Ok (hrp ++ js "1m" ++ ws) else throw "word";
  bech32_fromWords := fun ws => Ok (Uint8Array_from ws);
  bech32_toWords := fun l => bz <$> l |}.

Lemma lower_words ws : forallb (in_range 0 31) ws = true -> toLowerCase ws = ws.
Proof.
  intros Hf. apply toLowerCase_id. apply forallb_Forall in Hf. eapply Forall_impl; [exact Hf|]. intros c Hc. cbn in Hc. char_solve.
Qed.

Lemma codec_scure_laws : BitcoinCodecLaws codec_scure.
Proof.
  split.
  - intros l. cbn. exact (f_equal Ok (Uint8Array_from_bz l)).
  - intros l _ E. unfold startsWith. cbn. by rewrite E.
  - intros l _ E. unfold startsWith. cbn. by rewrite E.
  - intros ws s. cbn. destruct (forallb _ ws) eqn:E; [|done]. intros [= <-]. split_and!; [done| |done].
    change (toLowerCase ([98; 99; 49; 98] ++ ws) = [98; 99; 49; 98] ++ ws). unfold toLowerCase. rewrite fmap_app.
    f_equal. by apply lower_words.
  - intros ws s. cbn. destruct (forallb _ ws) eqn:E; [|done]. intros [= <-]. split_and!; [done| |done..].
    change (toLowerCase ([98; 99; 49; 109] ++ ws) = [98; 99; 49; 109] ++ ws). unfold toLowerCase. rewrite fmap_app.
    f_equal. by apply lower_words.
  - intros l. exact (f_equal Ok (Uint8Array_from_bz l)).
Qed.

Lemma address_codec_witness :
  @encodeAddress toy_noble toy_host codec_scure (js "bc1m" ++ [2; 7; 9]) BitcoinVm = Ok [x02; x07; x09] /\
  @normalizeAddressHex toy_noble toy_host codec_scure (js "0xFF00" ++ HexBytes.bytesToHex (replicate 20 x0a)) BitcoinVm =
    Ok (hex_of (xff :: x00 :: replicate 20 x0a)).
Proof.
  pose proof toy_noble_laws. pose proof toy_host_laws. pose proof codec_scure_laws. split.
  - apply (address_codec_roundtrip BitcoinVm). reflexivity.
  - apply (address_codec_roundtrip BitcoinVm). eexists _, _. split_and!; reflexivity.
Defined.

(** ** The wallet derivers

    packages/lit-deposit-address/src/common/crypto.ts, the curve base classes
    of derivation/vm/base/, the six derivers of derivation/vm/ and their
    registry derivation/index.ts, as values of the record the deposit-address
    action is written against.  @metamask/key-tree, the key-derivation functions
    of @noble/hashes and bs58 are operations of [KeyTree]. *)

Local Open Scope Z_scope.
Local Open Scope js_scope.

Inductive Curve := secp256k1 | ed25519Bip32.

(** [SLIP10Node]; [extendedKey] exists for secp256k1 nodes only. *)
Class KeyTree := {
  SLIP10Node : Type;
  node_curve : SLIP10Node -> Curve;
  fromSeed : bytes -> list jsstring -> result SLIP10Node;
  fromExtendedKey : jsstring -> result SLIP10Node;
  fromExtendedKey_cip3 : bytes -> bytes -> result SLIP10Node;
  fromJSON : Json -> result SLIP10Node;
  toJSON : SLIP10Node -> Json;
  derive : SLIP10Node -> list jsstring -> result SLIP10Node;
  neuter : SLIP10Node -> SLIP10Node;
  extendedKey : SLIP10Node -> result jsstring;
  node_privateKey : SLIP10Node -> option bytes;
  publicKeyBytes : SLIP10Node -> bytes;
  compressedPublicKeyBytes : SLIP10Node -> bytes;
  compressedPublicKey : SLIP10Node -> jsstring;
  hkdf_sha256 : bytes -> bytes -> bytes -> Z -> bytes;
  pbkdf2_sha512 : bytes -> bytes -> Z -> Z -> bytes;
  ed25519Bip32_secret : bytes;
  bs58_encode : bytes -> jsstring;
}.

(** ** common/crypto.ts *)

Definition DOMAIN_SEPARATOR : jsstring := js "lit-deposit-address".
Definition PBKDF2_ITERATIONS : Z := 4096.

(** [bytes[i] &= mask] and [bytes[i] |= mask]: out of range nothing happens. *)
Definition and_at (i : nat) (mask : Z) (l : bytes) : bytes := <[i := u8 (js_and (byte_at l i) mask)]> l.
Definition or_at (i : nat) (mask : Z) (l : bytes) : bytes := <[i := u8 (js_or (byte_at l i) mask)]> l.

Section Derivers.
Context `{K : KeyTree, N : Noble, H : Host, B : Scure, S : Secp256k1, E : Ed25519, V : EvmTransactions, W : TronWeb, A : TronAbi}.
(** [secp256k1.sign] with [format: "compact"], and [Date.now()]. *)
Context (secp_sign_compact : bytes -> bytes -> result bytes) (now_ms : Z).

Definition deriveVmSeed (rootKey : bytes) (vm : jsstring) : bytes :=
  hkdf_sha256 rootKey (TextEncoder_encode DOMAIN_SEPARATOR) (TextEncoder_encode vm) 64.

(** ** Secp256k1VmWalletDeriver.ts *)

Definition Secp256k1VmWalletDeriver {Tx SignedTx} (vm path_ : jsstring) (accountSegments : list jsstring)
    (walletFromNode_ : list Z -> SLIP10Node -> result WalletInfo) (sign : bytes -> Tx -> result SignedTx)
    (verify : DepositAddressTrigger -> DepositAddressTriggerAttestation -> list Tx -> result unit)
  : VmWalletDeriver Tx SignedTx := {|
  vmType := vm;
  accountPath := path_;
  Node := SLIP10Node;
  deriveAccountNode := fun rootKeyHex =>
    rootKey ← hexToBytes rootKeyHex "rootKeyHex";
    let seed := deriveVmSeed rootKey vm in
    fromSeed seed accountSegments;
  deserializeAccountNode := fromExtendedKey;
  deriveChildNode := fun node index => derive node [js "bip32:" ++ toString10 index];
  privateKeyBytes := node_privateKey;
  accountFromNode := fun accountNode =>
    extended ← extendedKey (neuter accountNode);
    Ok {| ai_vmType := vm; ai_accountPath := path_; ai_publicKey := compressedPublicKey accountNode;
          ai_extendedPublicKey := extended |};
  walletFromNode := walletFromNode_;
  DepositAction.signTransactionWithKey := sign;
  DepositAction.verifyTransactions := verify |}.

(** ** Ed25519Bip32VmWalletDeriver.ts *)

(** The PBKDF2 output with the bits of its first and 32nd byte clamped. *)
Definition cip3_root (entropy : bytes) : bytes :=
  let rootNode := pbkdf2_sha512 ed25519Bip32_secret entropy PBKDF2_ITERATIONS 96 in
  let rootNode := and_at 0 248 rootNode in
  let rootNode := and_at 31 31 rootNode in
  or_at 31 64 rootNode.

Definition Ed25519Bip32VmWalletDeriver {Tx SignedTx} (vm path_ : jsstring) (accountSegments : list jsstring)
    (formatPublicKey : bytes -> jsstring)
    (walletFromNode_ : list Z -> SLIP10Node -> result WalletInfo) (sign : bytes -> Tx -> result SignedTx)
    (verify : DepositAddressTrigger -> DepositAddressTriggerAttestation -> list Tx -> result unit)
  : VmWalletDeriver Tx SignedTx := {|
  vmType := vm;
  accountPath := path_;
  Node := SLIP10Node;
  deriveAccountNode := fun rootKeyHex =>
    rootKey ← hexToBytes rootKeyHex "rootKeyHex";
    let entropy := deriveVmSeed rootKey vm in
    let rootNode := cip3_root entropy in
    master ← fromExtendedKey_cip3 (drop 64 rootNode) (take 64 rootNode);
    derive master accountSegments;
  deserializeAccountNode := fun extendedPublicKey => json ← JSON_parse extendedPublicKey; fromJSON json;
  deriveChildNode := fun node index => derive node [js "cip3:" ++ toString10 index];
  privateKeyBytes := node_privateKey;
  accountFromNode := fun accountNode =>
    Ok {| ai_vmType := vm; ai_accountPath := path_; ai_publicKey := formatPublicKey (publicKeyBytes accountNode);
          ai_extendedPublicKey := JSON_stringify (toJSON (neuter accountNode)) |};
  walletFromNode := walletFromNode_;
  DepositAction.signTransactionWithKey := sign;
  DepositAction.verifyTransactions := verify |}.

(** ** The six derivers *)

Definition wallet_info (vm path_ : jsstring) (indexes : list Z) (address publicKey : jsstring) : WalletInfo :=
  {| wi_vmType := vm; wi_indexes := indexes; wi_path := path path_ indexes; wi_address := address; wi_publicKey := publicKey |}.

Definition segments (l : list string) : list jsstring := js <$> l.

(** [walletFromNode] of the Ethereum and the Hyperliquid deriver. *)
Definition evm_walletFromNode (vm path_ : jsstring) (indexes : list Z) (childNode : SLIP10Node) : result WalletInfo :=
  uncompressed ← secp_uncompress (bytesToHex (compressedPublicKeyBytes childNode));
  Ok (wallet_info vm path_ indexes (evm_account uncompressed) (compressedPublicKey childNode)).

Definition ETH_PATH : jsstring := js "m/44'/60'/0'/0".
Definition ETH_SEGMENTS : list jsstring := segments ["bip32:44'"; "bip32:60'"; "bip32:0'"; "bip32:0"].

Definition EthereumVmWalletDeriver : VmWalletDeriver EthereumVmTransaction EthereumVmSignedTransaction :=
  Secp256k1VmWalletDeriver (js "ethereum-vm") ETH_PATH ETH_SEGMENTS
    (evm_walletFromNode (js "ethereum-vm") ETH_PATH) evm_signTransactionWithKey evm_verifyTransactions.

Definition HyperliquidVmWalletDeriver : VmWalletDeriver HyperliquidVmTransaction HyperliquidVmSignedTransaction :=
  Secp256k1VmWalletDeriver (js "hyperliquid-vm") ETH_PATH ETH_SEGMENTS
    (evm_walletFromNode (js "hyperliquid-vm") ETH_PATH) hl_signTransactionWithKey hl_verifyTransactions.

Definition BTC_PATH : jsstring := js "m/84'/0'/0'/0".
Definition btc_walletFromNode (indexes : list Z) (childNode : SLIP10Node) : result WalletInfo :=
  let program := hash160 (compressedPublicKeyBytes childNode) in
  address ← bech32_encode (js "bc") (0 :: bech32_toWords program);
  Ok (wallet_info (js "bitcoin-vm") BTC_PATH indexes address (compressedPublicKey childNode)).

Definition BitcoinVmWalletDeriver : VmWalletDeriver BitcoinVmTransaction (list jsstring) :=
  Secp256k1VmWalletDeriver (js "bitcoin-vm") BTC_PATH (segments ["bip32:84'"; "bip32:0'"; "bip32:0'"; "bip32:0"])
    btc_walletFromNode (btc_signTransactionWithKey (fun k => secp_getPublicKey k true) secp_sign_compact) btc_verifyTransactions.

Definition TRON_PATH : jsstring := js "m/44'/195'/0'/0".
Definition tron_walletFromNode (indexes : list Z) (childNode : SLIP10Node) : result WalletInfo :=
  address ← tronAddressFromPublicKey (compressedPublicKey childNode);
  Ok (wallet_info (js "tron-vm") TRON_PATH indexes address (compressedPublicKey childNode)).

Definition TronVmWalletDeriver : VmWalletDeriver TronVmTransaction TronVmSignedTransaction :=
  Secp256k1VmWalletDeriver (js "tron-vm") TRON_PATH (segments ["bip32:44'"; "bip32:195'"; "bip32:0'"; "bip32:0"])
    tron_walletFromNode tron_signTransactionWithKey (assertTronTransactions now_ms).

Definition SOL_PATH : jsstring := js "m/44'/501'/0'/0".
Definition sol_walletFromNode (indexes : list Z) (childNode : SLIP10Node) : result WalletInfo :=
  let address := bs58_encode (publicKeyBytes childNode) in
  Ok (wallet_info (js "solana-vm") SOL_PATH indexes address address).

Definition SolanaVmWalletDeriver : VmWalletDeriver SolanaVmTransaction SolanaVmSignedTransaction :=
  Ed25519Bip32VmWalletDeriver (js "solana-vm") SOL_PATH (segments ["cip3:44'"; "cip3:501'"; "cip3:0'"; "cip3:0"])
    bs58_encode sol_walletFromNode sol_signTransactionWithKey sol_verifyTransactions.

Definition TON_PATH : jsstring := js "m/44'/607'/0'/0".
Definition ton_walletFromNode (indexes : list Z) (childNode : SLIP10Node) : result WalletInfo :=
  let publicKey := publicKeyBytes childNode in
  address ← walletAddress publicKey;
  Ok (wallet_info (js "ton-vm") TON_PATH indexes address (js "0x" ++ bytesToHex publicKey)).

Definition TonVmWalletDeriver : VmWalletDeriver TonVmTransaction TonVmSignedTransaction :=
  Ed25519Bip32VmWalletDeriver (js "ton-vm") TON_PATH (segments ["cip3:44'"; "cip3:607'"; "cip3:0'"; "cip3:0"])
    (fun publicKeyBytes => js "0x" ++ bytesToHex publicKeyBytes)
    ton_walletFromNode TonDeriver.signTransactionWithKey TonDeriver.verifyTransactions.

(** ** derivation/index.ts *)

Definition VmTransactionMap (v : VmType) : Type :=
  match v with
  | EthereumVm => EthereumVmTransaction | BitcoinVm => BitcoinVmTransaction | SolanaVm => SolanaVmTransaction
  | HyperliquidVm => HyperliquidVmTransaction | TonVm => TonVmTransaction | TronVm => TronVmTransaction
  end.
Definition VmSignedTransactionMap (v : VmType) : Type :=
  match v with
  | EthereumVm => EthereumVmSignedTransaction | BitcoinVm => list jsstring | SolanaVm => SolanaVmSignedTransaction
  | HyperliquidVm => HyperliquidVmSignedTransaction | TonVm => TonVmSignedTransaction | TronVm => TronVmSignedTransaction
  end.

Definition getDeriver (v : VmType) : VmWalletDeriver (VmTransactionMap v) (VmSignedTransactionMap v) :=
  match v with
  | EthereumVm => EthereumVmWalletDeriver | BitcoinVm => BitcoinVmWalletDeriver | SolanaVm => SolanaVmWalletDeriver
  | HyperliquidVm => HyperliquidVmWalletDeriver | TonVm => TonVmWalletDeriver | TronVm => TronVmWalletDeriver
  end.

Definition getSupportedVmTypes : list jsstring := VM_TYPES.

Definition registry_deriveAccount (rootKeyHex : jsstring) (v : VmType) : result AccountInfo :=
  deriveAccount (getDeriver v) rootKeyHex.
Definition registry_deriveWallet (rootKeyHex : jsstring) (v : VmType) (indexes : list Z) : result WalletInfo :=
  deriveWallet (getDeriver v) rootKeyHex indexes.
Definition registry_deriveWalletFromExtendedPublicKey (v : VmType) (extendedPublicKey : jsstring) (indexes : list Z)
  : result WalletInfo := deriveWalletFromExtendedPublicKey (getDeriver v) extendedPublicKey indexes.
Definition signTransactionsWithWallet (rootKeyHex : jsstring) (v : VmType) (indexes : list Z)
    (transactions : list (VmTransactionMap v)) : result (WalletInfo * list (VmSignedTransactionMap v)) :=
  signTransactions (getDeriver v) rootKeyHex indexes transactions.

(** The untyped batch is read at the transaction type of the family named by
    the trigger. *)
Definition verifyTransactionsWithWallet (trigger : DepositAddressTrigger) (attestation : DepositAddressTriggerAttestation)
    (transactions : forall v, list (VmTransactionMap v)) : result unit :=
  v ← assertVmType (df_inputVmType (tr_derivationFields trigger));
  DepositAction.verifyTransactions (getDeriver v) trigger attestation (transactions v).
End Derivers.
