(* ===== verification/DerivationProofs.v ===== *)
(** * Public derivation and the sweeps the action signs

    The wallets derived from an account's extended public key are those of the
    root key; the key that signs is the key of the reported address; and every
    VM's action signs only deposits its policy specifies. *)

From Stdlib Require Import Strings.Byte.
From S2P Require Import Prelude JsNum JsString JsJson HexBytes ToyRuntime DepositBytes DepositTypes.
From S2P Require Import DepositAttestation DepositAction TonWallet TonDeriver BitcoinTx BitcoinProofs SolanaTx.
From S2P Require Import EvmAddress EvmTx TronTx HyperliquidTx.
From S2P Require Import DepositDerivers.
Local Open Scope Z_scope.
Local Open Scope js_scope.

(** ** Laws of the key tree *)

(** [same_public n m]: the nodes have the same public key, and so have their
    unhardened children.  A node is related to what the two public formats
    give back for it; the JSON of a node is plain data. *)
Class KeyTreeLaws (K : KeyTree) := {
  same_public : SLIP10Node -> SLIP10Node -> Prop;
  same_publicKey : forall n m, same_public n m -> publicKeyBytes n = publicKeyBytes m;
  same_compressedBytes : forall n m, same_public n m -> compressedPublicKeyBytes n = compressedPublicKeyBytes m;
  same_compressed : forall n m, same_public n m -> compressedPublicKey n = compressedPublicKey m;
  same_derive : forall n m p i, same_public n m -> p ∈ [js "bip32:"; js "cip3:"] -> 0 <= i <= MAX_UNHARDENED_INDEX ->
    (forall n', derive n [p ++ toString10 i] = Ok n' -> exists m', derive m [p ++ toString10 i] = Ok m' /\ same_public n' m') /\
    (forall m', derive m [p ++ toString10 i] = Ok m' -> exists n', derive n [p ++ toString10 i] = Ok n' /\ same_public n' m');
  extendedKey_back : forall n s, extendedKey (neuter n) = Ok s -> exists m, fromExtendedKey s = Ok m /\ same_public n m;
  json_back : forall n, exists m, fromJSON (toJSON (neuter n)) = Ok m /\ same_public n m;
  json_plain : forall n, json_wf (toJSON (neuter n));
}.

(** ** Walking down from two related nodes *)

Section Public.
Context `{K : KeyTree, KL : !KeyTreeLaws K, N : Noble, H : Host, B : Scure, S : Secp256k1, E : Ed25519, V : EvmTransactions, W : TronWeb, A : TronAbi}.

Fixpoint walk_down (p : jsstring) (node : SLIP10Node) (indexes : list Z) : result SLIP10Node :=
  match indexes with
  | [] => Ok node
  | i :: rest => node ← derive node [p ++ toString10 i]; walk_down p node rest
  end.

Definition unhardened (indexes : list Z) : Prop := Forall (fun i => 0 <= i <= MAX_UNHARDENED_INDEX) indexes.

Lemma assertIndexes_ok indexes u : assertIndexes indexes = Ok u -> unhardened indexes.
Proof using.
  unfold assertIndexes. intros Hv. apply bind_ok in Hv as (u1 & _ & Hv). apply bind_ok in Hv as (u2 & Hf & _).
  apply check_ok in Hf. rewrite negb_involutive in Hf. apply forallb_Forall in Hf. eapply Forall_impl; [exact Hf|]. intros i Hi. cbn in Hi. bool_prop. lia.
Qed.

Lemma walk_same p indexes : p ∈ [js "bip32:"; js "cip3:"] -> unhardened indexes -> forall n m, same_public n m ->
  (forall n', walk_down p n indexes = Ok n' -> exists m', walk_down p m indexes = Ok m' /\ same_public n' m') /\
  (forall m', walk_down p m indexes = Ok m' -> exists n', walk_down p n indexes = Ok n' /\ same_public n' m').
Proof using.
  intros Hp. induction 1 as [|i l Hi _ IH]; intros n m Hs; cbn [walk_down].
  - split; intros x [= <-]; eauto.
  - destruct (same_derive n m p i Hs Hp Hi) as [H1 H2]. split; intros x Hx; apply bind_ok in Hx as (y & Hy & Hx).
    + destruct (H1 _ Hy) as (m1 & -> & Hs1). cbn [mbind result_bind]. by apply (proj1 (IH y m1 Hs1)).
    + destruct (H2 _ Hy) as (n1 & -> & Hs1). cbn [mbind result_bind]. by apply (proj2 (IH n1 y Hs1)).
Qed.

(** Wallets made from the two ends. *)
Lemma wallets_same p wf n m indexes w : p ∈ [js "bip32:"; js "cip3:"] ->
  (forall x y, same_public x y -> wf indexes x = wf indexes y) -> same_public n m ->
  (_ ← assertIndexes indexes; c ← walk_down p n indexes; wf indexes c) = Ok (w : WalletInfo) <->
  (_ ← assertIndexes indexes; c ← walk_down p m indexes; wf indexes c) = Ok w.
Proof using.
  intros Hp Hwf Hs. destruct (assertIndexes indexes) as [u|] eqn:Hi; [|done]. cbn [mbind result_bind].
  apply assertIndexes_ok in Hi. destruct (walk_same p indexes Hp Hi n m Hs) as [H1 H2]. split; intros Hx; apply bind_ok in Hx as (c & Hc & Hx).
  - destruct (H1 _ Hc) as (c' & -> & Hs'). cbn [mbind result_bind]. by rewrite <- (Hwf _ _ Hs').
  - destruct (H2 _ Hc) as (c' & -> & Hs'). cbn [mbind result_bind]. by rewrite (Hwf _ _ Hs').
Qed.

Section Classes.
Context {Tx SignedTx : Type} (vm path_ : jsstring) (segs : list jsstring) (wf : list Z -> SLIP10Node -> result WalletInfo).
Context (sign : bytes -> Tx -> result SignedTx).
Context (verify : DepositAddressTrigger -> DepositAddressTriggerAttestation -> list Tx -> result unit).
Context (Hwf : forall indexes x y, same_public x y -> wf indexes x = wf indexes y).

Lemma secp_walk n indexes :
  deriveChildAtPath (Secp256k1VmWalletDeriver vm path_ segs wf sign verify) n indexes = walk_down (js "bip32:") n indexes.
Proof using.
  revert n; induction indexes as [|i l IH]; intros n; [done|]. cbn [deriveChildAtPath walk_down deriveChildNode Secp256k1VmWalletDeriver].
  destruct (derive n _) as [m|]; [apply IH|done].
Qed.

Lemma ed_walk fmt n indexes :
  deriveChildAtPath (Ed25519Bip32VmWalletDeriver vm path_ segs fmt wf sign verify) n indexes = walk_down (js "cip3:") n indexes.
Proof using.
  revert n; induction indexes as [|i l IH]; intros n; [done|]. cbn [deriveChildAtPath walk_down deriveChildNode Ed25519Bip32VmWalletDeriver].
  destruct (derive n _) as [m|]; [apply IH|done].
Qed.

Lemma secp_public root a indexes w : let d := Secp256k1VmWalletDeriver vm path_ segs wf sign verify in
  deriveAccount d root = Ok a ->
  deriveWallet d root indexes = Ok w <-> deriveWalletFromExtendedPublicKey d (ai_extendedPublicKey a) indexes = Ok w.
Proof using Hwf KL.
  intros d Ha. unfold deriveAccount in Ha. apply bind_ok in Ha as (n & Hn & Ha). cbn [accountFromNode d Secp256k1VmWalletDeriver] in Ha.
  apply bind_ok in Ha as (x & Hx & Ha). assert (ai_extendedPublicKey a = x) as -> by (injection Ha as <-; done).
  destruct (extendedKey_back n x Hx) as (m & Hm & Hs). unfold deriveWallet, deriveWalletFromExtendedPublicKey.
  rewrite Hn. change (deserializeAccountNode d x) with (fromExtendedKey x). rewrite Hm. cbn [mbind result_bind].
  unfold d. rewrite !secp_walk. apply wallets_same; [left|auto|done].
Qed.

Lemma ed_public fmt root a indexes w : let d := Ed25519Bip32VmWalletDeriver vm path_ segs fmt wf sign verify in
  deriveAccount d root = Ok a ->
  deriveWallet d root indexes = Ok w <-> deriveWalletFromExtendedPublicKey d (ai_extendedPublicKey a) indexes = Ok w.
Proof using Hwf KL.
  intros d Ha. unfold deriveAccount in Ha. apply bind_ok in Ha as (n & Hn & Ha). cbn [accountFromNode d Ed25519Bip32VmWalletDeriver] in Ha.
  assert (ai_extendedPublicKey a = JSON_stringify (toJSON (neuter n))) as -> by (injection Ha as <-; done).
  destruct (json_back n) as (m & Hm & Hs). unfold deriveWallet, deriveWalletFromExtendedPublicKey.
  rewrite Hn. change (deserializeAccountNode d (JSON_stringify (toJSON (neuter n)))) with
    (json ← JSON_parse (JSON_stringify (toJSON (neuter n))); fromJSON json).
  rewrite JSON_roundtrip by apply json_plain. cbn [mbind result_bind]. rewrite Hm. cbn [mbind result_bind].
  unfold d. rewrite !ed_walk. apply wallets_same; [right; left|auto|done].
Qed.
End Classes.

Context (secp_sign_compact : bytes -> bytes -> result bytes) (now_ms : Z).

(** C36: wallets need no private key.  For every VM, the wallet derived from
    the extended public key of the account is, for every child path, the
    wallet derived from the root key: the same address, public key and path,
    and one derivation succeeds exactly when the other does. *)
Theorem public_derivation_matches v root a indexes w :
  registry_deriveAccount secp_sign_compact now_ms root v = Ok a ->
  registry_deriveWallet secp_sign_compact now_ms root v indexes = Ok w <->
  registry_deriveWalletFromExtendedPublicKey secp_sign_compact now_ms v (ai_extendedPublicKey a) indexes = Ok w.
Proof using KL.
  unfold registry_deriveAccount, registry_deriveWallet, registry_deriveWalletFromExtendedPublicKey.
  destruct v; cbn [getDeriver];
    first [apply secp_public|apply ed_public]; intros idx x y Hs;
    unfold evm_walletFromNode, btc_walletFromNode, sol_walletFromNode, ton_walletFromNode, tron_walletFromNode;
    by rewrite ?(same_publicKey x y Hs), ?(same_compressedBytes x y Hs), ?(same_compressed x y Hs).
Qed.
End Public.

(** ** The key that signs is the key of the reported address *)

(** Curves of derived nodes; the two keys of a node belong together, in the
    formats of the curve libraries. *)
Class KeyPairLaws (K : KeyTree) (B : Scure) (S : Secp256k1) (E : Ed25519) (N : Noble) : Prop := {
  curve_seed : forall s segs n, fromSeed s segs = Ok n -> node_curve n = secp256k1;
  curve_cip3 : forall c k n, fromExtendedKey_cip3 c k = Ok n -> node_curve n = ed25519Bip32;
  curve_derive : forall n segs m, derive n segs = Ok m -> node_curve m = node_curve n;
  pair_secp : forall n k, node_curve n = secp256k1 -> node_privateKey n = Some k ->
    secp_getPublicKey k true = Ok (compressedPublicKeyBytes n);
  pair_ed : forall n k, node_curve n = ed25519Bip32 -> node_privateKey n = Some k ->
    bip32_getPublicKey k = Ok (publicKeyBytes n);
  compressed_text : forall n name, node_curve n = secp256k1 ->
    hexToBytes (compressedPublicKey n) name = Ok (compressedPublicKeyBytes n);
  uncompress_pair : forall k c, secp_getPublicKey k true = Ok c ->
    secp_getPublicKey k false = secp_uncompress (bytesToHex c);
  bs58_base58 : forall l, bs58_encode l = base58_encode l;
  pbkdf2_length : forall p s c n, length (pbkdf2_sha512 p s c n) = Z.to_nat n;
}.

Section Pairs.
Context `{K : KeyTree, N : Noble, NL : !NobleLaws N, H : Host, B : Scure, S : Secp256k1, E : Ed25519, V : EvmTransactions, W : TronWeb, A : TronAbi}.
Context `{PL : !KeyPairLaws K B S E N}.

(** The address of a private key in a VM's format. *)
Definition signer_address (v : VmType) (key : bytes) : result jsstring :=
  match v with
  | EthereumVm | HyperliquidVm => pk ← secp_getPublicKey key false; Ok (evm_account pk)
  | BitcoinVm => pk ← secp_getPublicKey key true; bech32_encode (js "bc") (0 :: bech32_toWords (hash160 pk))
  | TronVm => pk ← secp_getPublicKey key true; tronAddressFromPublicKey (bytesToHex pk)
  | SolanaVm => pk ← bip32_getPublicKey key; Ok (base58_encode pk)
  | TonVm => pk ← bip32_getPublicKey key; walletAddress pk
  end.

Lemma walk_curve p indexes : forall n m, walk_down p n indexes = Ok m -> node_curve m = node_curve n.
Proof using PL.
  induction indexes as [|i l IH]; intros n m; cbn [walk_down]; [by intros [= <-]|].
  intros Hv. apply bind_ok in Hv as (x & Hx & Hv). rewrite (IH _ _ Hv). by eapply curve_derive.
Qed.

Section Child.
Context {Tx SignedTx : Type} (vm path_ : jsstring) (segs : list jsstring) (wf : list Z -> SLIP10Node -> result WalletInfo).
Context (sign : bytes -> Tx -> result SignedTx).
Context (verify : DepositAddressTrigger -> DepositAddressTriggerAttestation -> list Tx -> result unit).

Lemma secp_child root indexes w key :
  deriveChildKey (Secp256k1VmWalletDeriver vm path_ segs wf sign verify) root indexes = Ok (w, key) ->
  exists n, node_curve n = secp256k1 /\ node_privateKey n = Some key /\ wf indexes n = Ok w.
Proof using PL.
  unfold deriveChildKey. intros Hv. apply bind_ok in Hv as (u & _ & Hv). apply bind_ok in Hv as (n & Hn & Hv).
  rewrite secp_walk in Hv. apply bind_ok in Hv as (c & Hc & Hv). apply bind_ok in Hv as (k & Hk & Hv).
  apply bind_ok in Hv as (w' & Hw & Hv). injection Hv as -> ->. apply require_ok in Hk. exists c. split; [|done].
  rewrite (walk_curve _ _ _ _ Hc). cbn [deriveAccountNode Secp256k1VmWalletDeriver] in Hn.
  apply bind_ok in Hn as (r & _ & Hn). by eapply curve_seed.
Qed.

Lemma ed_child fmt root indexes w key :
  deriveChildKey (Ed25519Bip32VmWalletDeriver vm path_ segs fmt wf sign verify) root indexes = Ok (w, key) ->
  exists n, node_curve n = ed25519Bip32 /\ node_privateKey n = Some key /\ wf indexes n = Ok w.
Proof using PL.
  unfold deriveChildKey. intros Hv. apply bind_ok in Hv as (u & _ & Hv). apply bind_ok in Hv as (n & Hn & Hv).
  rewrite ed_walk in Hv. apply bind_ok in Hv as (c & Hc & Hv). apply bind_ok in Hv as (k & Hk & Hv).
  apply bind_ok in Hv as (w' & Hw & Hv). injection Hv as -> ->. apply require_ok in Hk. exists c. split; [|done].
  rewrite (walk_curve _ _ _ _ Hc). cbn [deriveAccountNode Ed25519Bip32VmWalletDeriver] in Hn.
  apply bind_ok in Hn as (r & _ & Hn). cbv zeta in Hn. apply bind_ok in Hn as (m & Hm & Hn).
  rewrite (curve_derive _ _ _ Hn). by eapply curve_cip3.
Qed.
End Child.

Context (secp_sign_compact : bytes -> bytes -> result bytes) (now_ms : Z).

Lemma child_key_address v root indexes w key :
  deriveChildKey (getDeriver secp_sign_compact now_ms v) root indexes = Ok (w, key) ->
  signer_address v key = Ok (wi_address w).
Proof using PL NL.
  destruct v; cbn [getDeriver signer_address]; intros Hk;
    first [apply secp_child in Hk as (n & Hc & Hp & Hw); pose proof (pair_secp n key Hc Hp) as Hpk
          |apply ed_child in Hk as (n & Hc & Hp & Hw); pose proof (pair_ed n key Hc Hp) as Hpk];
    unfold evm_walletFromNode, btc_walletFromNode, sol_walletFromNode, ton_walletFromNode, tron_walletFromNode in Hw.
  1,4: rewrite (uncompress_pair _ _ Hpk).
  all: rewrite ?Hpk; cbn [mbind result_bind].
  all: try (apply bind_ok in Hw as (a & Ha & Hw)).
  - rewrite Ha. cbn [mbind result_bind]. by injection Hw as <-.
  - rewrite Ha. cbn [mbind result_bind]. by injection Hw as <-.
  - rewrite Ha. by injection Hw as <-.
  - cbv zeta in Hw. injection Hw as <-. unfold wallet_info. cbn [wi_address]. by rewrite bs58_base58.
  - rewrite Ha. by injection Hw as <-.
  - assert (tronAddressFromPublicKey (bytesToHex (compressedPublicKeyBytes n)) = Ok a) as ->; [|by injection Hw as <-].
    rewrite <- Ha. unfold tronAddressFromPublicKey. rewrite compressed_text by done.
    unfold bytesToHex at 1. rewrite noble_hex_print, hexToBytes_print. done.
Qed.
End Pairs.

(** ** The CIP-3 root key *)

Section Cip3.
Context `{K : KeyTree, N : Noble, B : Scure, S : Secp256k1, E : Ed25519, PL : !KeyPairLaws K B S E N}.

Lemma le_ends b0 mid b31 : length mid = 30%nat ->
  exists m, 0 <= m < 256 ^ 30 /\ bytesToNumberLE (b0 :: mid ++ [b31]) = bz b0 + 256 * m + 256 ^ 31 * bz b31.
Proof using.
  intros Hm. exists (bytesToNumberLE mid). rewrite !bytesToNumberLE_digits. rewrite reverse_cons, reverse_app.
  cbn [reverse]. change (reverse [b31]) with [b31]. rewrite !fmap_app. rewrite !Radix.of_digits_app by lia.
  change (Radix.of_digits 256 (bz <$> [b31])) with (bz b31). change (Radix.of_digits 256 (bz <$> [b0])) with (bz b0).
  cbn [fmap list_fmap length]. rewrite !length_fmap, length_reverse, Hm.
  pose proof (Radix.of_digits_bound 256 ltac:(lia) (bz <$> reverse mid)) as Hb.
  rewrite length_fmap, length_reverse, Hm in Hb. split; [|change (Z.of_nat 30) with 30; change (Z.of_nat 1) with 1; lia].
  apply Hb. apply Forall_fmap, Forall_true. intros x. apply bz_range.
Qed.

Lemma at_31 x mid b tl : length mid = 30%nat ->
  byte_at (x :: mid ++ b :: tl) 31 = bz b /\ forall y, <[31%nat := y]> (x :: mid ++ b :: tl) = x :: mid ++ y :: tl.
Proof using.
  intros Hm. split; [|intros y].
  - unfold byte_at. change ((x :: mid ++ b :: tl) !! 31%nat) with ((mid ++ b :: tl) !! 30%nat). by rewrite lookup_app_r, Hm by lia.
  - change (x :: <[30%nat := y]> (mid ++ b :: tl) = x :: mid ++ y :: tl). f_equal.
    by rewrite insert_app_r_alt, Hm by lia.
Qed.

Lemma clamp_low b : bz (u8 (js_and (bz b) 248)) mod 8 = 0.
Proof using. by destruct b. Qed.
Lemma clamp_high b : 64 <= bz (u8 (js_or (bz (u8 (js_and (bz b) 31))) 64)) < 96.
Proof using. destruct b; split; reflexivity || discriminate. Qed.

(** the master key of an Ed25519 VM is a valid CIP-3 root.  Whatever the
    entropy, the clamped PBKDF2 output has 96 bytes, its first 32 read as a
    little-endian scalar in [2^254, 2^254 + 2^253) that is a multiple of the
    cofactor 8, and no other byte of it is changed. *)
Theorem cip3_root_clamped entropy :
  length (cip3_root entropy) = 96%nat /\
  2 ^ 254 <= bytesToNumberLE (take 32 (cip3_root entropy)) < 2 ^ 254 + 2 ^ 253 /\
  bytesToNumberLE (take 32 (cip3_root entropy)) mod 8 = 0 /\
  (forall i, i <> 0%nat -> i <> 31%nat ->
     cip3_root entropy !! i = pbkdf2_sha512 ed25519Bip32_secret entropy PBKDF2_ITERATIONS 96 !! i).
Proof using PL.
  pose proof (pbkdf2_length ed25519Bip32_secret entropy PBKDF2_ITERATIONS 96) as Hl. unfold cip3_root.
  set (r := pbkdf2_sha512 _ _ _ _) in *. change (Z.to_nat 96) with 96%nat in Hl.
  assert (exists b0 mid b31 tl, r = b0 :: mid ++ b31 :: tl /\ length mid = 30%nat) as (b0 & mid & b31 & tl & -> & Hm).
  { destruct r as [|b0 r]; [done|]. exists b0, (take 30 r). destruct (drop 30 r) as [|b31 tl] eqn:Ed.
    - apply (f_equal length) in Ed. rewrite length_drop in Ed. cbn in Hl, Ed. lia.
    - exists b31, tl. rewrite <- Ed, take_drop. split; [done|]. rewrite length_take. cbn in Hl. lia. }
  assert (and_at 0 248 (b0 :: mid ++ b31 :: tl) = u8 (js_and (bz b0) 248) :: mid ++ b31 :: tl) as -> by done.
  set (c0 := u8 (js_and (bz b0) 248)). unfold and_at. rewrite (proj1 (at_31 c0 mid b31 tl Hm)), (proj2 (at_31 c0 mid b31 tl Hm)).
  set (b := u8 (js_and (bz b31) 31)). unfold or_at. rewrite (proj1 (at_31 c0 mid b tl Hm)), (proj2 (at_31 c0 mid b tl Hm)).
  assert (take 32 (c0 :: mid ++ u8 (js_or (bz b) 64) :: tl) = c0 :: mid ++ [u8 (js_or (bz b) 64)]) as ->.
  { cbn [take]. f_equal. rewrite take_app_ge, Hm by lia. done. }
  destruct (le_ends c0 mid (u8 (js_or (bz b) 64)) Hm) as (m & Hmb & ->).
  pose proof (clamp_low b0) as H0. fold c0 in H0. pose proof (clamp_high b31) as H31. fold b in H31. pose proof (bz_range c0).
  change (256 ^ 31) with (2 ^ 248) in *. change (256 ^ 30) with (2 ^ 240) in *. split_and!.
  - cbn [length] in *. rewrite length_app in *. cbn [length] in *. lia.
  - lia.
  - lia.
  - rewrite Z.add_mod by done. change (2 ^ 248) with (8 * 2 ^ 245). rewrite <- Z.mul_assoc, (Z.mul_comm 8), Z.mod_mul by done.
    rewrite Z.add_0_r, Z.mod_mod by done. change 256 with (32 * 8). rewrite (Z.mul_comm 32 8), <- Z.mul_assoc, (Z.mul_comm 8), Z.mod_add by done. done.
  - intros i Hi0 Hi31. destruct i as [|i]; [done|]. change ((mid ++ u8 (js_or (bz b) 64) :: tl) !! i = (mid ++ b31 :: tl) !! i).
    destruct (decide (i < 30)%nat); [by rewrite !lookup_app_l by lia|]. rewrite !lookup_app_r, Hm by lia.
    destruct (i - 30)%nat eqn:Ei; [lia|done].
Qed.
End Cip3.

(** ** The action of every VM signs only that VM's deposit *)

Section Sweeps.
Context `{K : KeyTree, N : Noble, NL : !NobleLaws N, H : Host, B : Scure, S : Secp256k1, E : Ed25519}.
Context `{PL : !KeyPairLaws K B S E N, V : EvmTransactions, VL : !EvmTransactionsLaws V, W : TronWeb, A : TronAbi, AL : !TronAbiLaws A}.
Context `{VI : Viem}.
Context (secp_sign_compact : bytes -> bytes -> result bytes) (now_ms : Z).

(** What the policy of a VM specifies. *)
Definition deposit_made (v : VmType) (trigger : DepositAddressTrigger) (attestation : DepositAddressTriggerAttestation)
  : list (VmTransactionMap v) -> Prop :=
  match v with
  | EthereumVm => fun txs => exists amount, evm_deposit trigger attestation txs amount
  | BitcoinVm => fun txs => exists data tx scripts refunds amount, txs = [data] /\ btc_deposit trigger attestation data tx scripts refunds amount
  | SolanaVm => fun txs => exists tx msg p ix amount, txs = [tx] /\ base64ToBytes (sv_message tx) = Ok msg /\
      message_layout p msg /\ sol_deposit trigger attestation p ix amount
  | HyperliquidVm => fun txs => exists tx amount, txs = [tx] /\ hl_deposit trigger attestation tx amount
  | TonVm => fun txs => exists tx depository amount, txs = [tx] /\ ton_deposit trigger attestation tx depository amount
  | TronVm => fun txs => exists amount, tron_deposit now_ms trigger attestation txs amount
  end.

Lemma policy_specifies v trigger attestation txs :
  DepositAction.verifyTransactions (getDeriver secp_sign_compact now_ms v) trigger attestation txs = Ok tt ->
  deposit_made v trigger attestation txs.
Proof using NL VL AL.
  destruct v; cbn [getDeriver deposit_made]; intros Hv.
  - by apply evm_policy_sound.
  - by apply btc_policy_sound.
  - apply sol_policy_iff in Hv as (tx & msg & p & ix & amount & E1 & E2 & E3 & E4). exists tx, msg, p, ix, amount.
    split_and!; [done..| |done]. by apply message_layout_parsed.
  - by apply hl_policy_sound.
  - by apply verifyTransactions_iff.
  - by apply tron_policy_sound.
Qed.

(** C35: the deposit signer, end to end.  When the action built for a VM
    returns signatures, the request carried an attested trigger, the solver's
    order for it and the solver's signature of the request; the transactions
    are exactly the deposit that VM's policy specifies for the trigger and the
    attested depository; and each of them is signed with one key, which is the
    key of the very address the response reports as the deposit wallet. *)
Theorem deposit_action_sweeps cfg getPrivateKey v params wallet h signed :
  runVmAction cfg getPrivateKey now_ms (vm_name v) (getDeriver secp_sign_compact now_ms v) params =
    Ok (SignResult wallet h signed) ->
  sign_authorised cfg getPrivateKey now_ms (vm_name v) (getDeriver secp_sign_compact now_ms v) params wallet signed /\
  exists trigger attestation txs key,
    pa_trigger params = Some trigger /\ pa_attestation params = Some attestation /\ pa_transactions params = Some txs /\
    deposit_made v trigger attestation txs /\ signer_address v key = Ok (wi_address wallet) /\
    Forall2 (fun tx s => DepositAction.signTransactionWithKey (getDeriver secp_sign_compact now_ms v) key tx = Ok s) txs signed.
Proof using NL VL AL PL.
  intros Hv. apply sign_sound in Hv. split; [exact Hv|]. destruct Hv as [_ Hc].
  destruct Hc as (trigger & attestation & order & osig & rsig & txs & root & indexes & key & input & out & Ht & Ha & _ & _ & _ & Hx &
    _ & _ & _ & _ & _ & _ & Hp & _ & Hk & _ & HF).
  exists trigger, attestation, txs, key. split_and!; [done..|by apply policy_specifies|by eapply child_key_address|done].
Qed.
End Sweeps.

(** ** A concrete key tree and a Solana sweep *)

(** A child adds the length of its path to every byte of the key. *)
Record toy_node := { tn_curve : Curve; tn_private : bool; tn_key : bytes }.
Definition toy_neuter (n : toy_node) : toy_node := {| tn_curve := tn_curve n; tn_private := false; tn_key := tn_key n |}.

Definition toy_tree : KeyTree := {|
  SLIP10Node := toy_node;
  node_curve := tn_curve;
  fromSeed := fun s _ => Ok {| tn_curve := secp256k1; tn_private := true; tn_key := s |};
  fromExtendedKey := fun s => Ok {| tn_curve := secp256k1; tn_private := false; tn_key := Uint8Array_from s |};
  fromExtendedKey_cip3 := fun _ k => Ok {| tn_curve := ed25519Bip32; tn_private := true; tn_key := k |};
  fromJSON := fun j =>
    match j with
    | JObj [(_, JBool b); (_, JStr s)] =>
        Ok {| tn_curve := if b then secp256k1 else ed25519Bip32; tn_private := false; tn_key := Uint8Array_from s |}
    | _ => throw "invalid node"
    end;
  toJSON := fun n => JObj [(js "secp", JBool (match tn_curve n with secp256k1 => true | _ => false end));
                           (js "key", JStr (bz <$> tn_key n))];
  derive := fun n segs => Ok {| tn_curve := tn_curve n; tn_private := tn_private n;
    tn_key := (fun b => u8 (bz b + Z.of_nat (length (mjoin segs)))) <$> tn_key n |};
  neuter := toy_neuter;
  extendedKey := fun n => match tn_curve n with secp256k1 => Ok (bz <$> tn_key n) | _ => throw "no extended key" end;
  node_privateKey := fun n => if tn_private n then Some (tn_key n) else None;
  publicKeyBytes := fun n => le32 (bytesToNumberLE (take 32 (tn_key n)) mod toy_order);
  compressedPublicKeyBytes := fun n => x02 :: pad32 (tn_key n);
  compressedPublicKey := fun n => hex_of (x02 :: pad32 (tn_key n));
  hkdf_sha256 := fun k _ info n => take (Z.to_nat n) (k ++ info ++ zeros (Z.to_nat n));
  pbkdf2_sha512 := fun _ s _ n => take (Z.to_nat n) (s ++ zeros (Z.to_nat n));
  ed25519Bip32_secret := [x65];
  bs58_encode := @base58_encode codec_scure |}.

#[refine] Definition toy_tree_laws : KeyTreeLaws toy_tree := {|
  same_public := fun n m : @SLIP10Node toy_tree => tn_curve n = tn_curve m /\ tn_key n = tn_key m |}.
Proof.
  - intros n m [_ Hk]. cbn. by rewrite Hk.
  - intros n m [_ Hk]. cbn. by rewrite Hk.
  - intros n m [_ Hk]. cbn. by rewrite Hk.
  - intros n m p i [Hc Hk] _ _. split; intros x [= <-]; eexists; (split; [reflexivity|]); cbn; by rewrite Hc, Hk.
  - intros n s Hx. cbn in Hx. destruct (tn_curve n) eqn:Hc; [|done]. injection Hx as <-. eexists. split; [reflexivity|].
    cbn. by rewrite Uint8Array_from_bz.
  - intros n. eexists. split; [reflexivity|]. cbn. rewrite Uint8Array_from_bz. by destruct (tn_curve n).
  - intros n. constructor; [by vm_compute; repeat constructor; set_solver|].
    assert (Forall code_unit (js "secp") /\ Forall code_unit (js "key")) as [H1 H2] by (split; repeat constructor; lia).
    repeat constructor; try done. cbn. apply Forall_fmap, Forall_true. intros b. pose proof (bz_range b). unfold code_unit. cbn. lia.
Defined.

Lemma pad32_idem l : pad32 (pad32 l) = pad32 l.
Proof. unfold pad32 at 1. by rewrite take_app_le, take_ge by (rewrite length_pad32; lia). Qed.

Lemma toy_pairs : KeyPairLaws toy_tree codec_scure toy_secp toy_ed25519 toy_noble.
Proof.
  split; try by intros; simplify_eq.
  - by intros s segs n [= <-].
  - by intros c k n [= <-].
  - by intros n segs m [= <-].
  - intros n k _. cbn. destruct (tn_private n); [|done]. by intros [= ->].
  - intros n k _. cbn. destruct (tn_private n); [|done]. by intros [= ->].
  - intros n name _. apply (@hexToBytes_print_0x toy_noble toy_noble_laws).
  - intros k c [= <-]. cbn [secp_getPublicKey secp_uncompress toy_secp]. unfold bytesToHex.
    rewrite (@noble_hex_print toy_noble toy_noble_laws), parse_pairs_bytesToHex. cbv zeta. change (drop 1 (x02 :: pad32 k)) with (pad32 k). by rewrite pad32_idem.
  - intros q l c n. cbn. rewrite length_take, length_app. unfold zeros. rewrite length_replicate. lia.
Qed.

Section SolanaAccount.
Local Existing Instances toy_tree toy_noble toy_host codec_scure toy_secp toy_ed25519 toy_evm toy_abi.
Local Instance no_transactions : TronWeb := toy_tronweb [].
Definition sol_account : result AccountInfo := registry_deriveAccount (fun _ _ => Ok []) 0 (js "0x0102") SolanaVm.
Definition sol_wallet : result WalletInfo := registry_deriveWallet (fun _ _ => Ok []) 0 (js "0x0102") SolanaVm [3; 2147483647].

Lemma public_derivation_witness : exists a w, sol_account = Ok a /\
  registry_deriveWalletFromExtendedPublicKey (fun _ _ => Ok []) 0 SolanaVm (ai_extendedPublicKey a) [3; 2147483647] = Ok w.
Proof.
  destruct sol_account as [a|] eqn:Ha; [|by vm_compute in Ha]. destruct sol_wallet as [w|] eqn:Hw; [|by vm_compute in Hw].
  exists a, w. split; [done|].
  apply (@public_derivation_matches toy_tree toy_tree_laws toy_noble toy_host codec_scure toy_secp toy_ed25519 toy_evm
           no_transactions toy_abi (fun _ _ => Ok []) 0 SolanaVm (js "0x0102") a [3; 2147483647] w Ha). exact Hw.
Defined.
End SolanaAccount.

Lemma cip3_root_witness :
  2 ^ 254 <= bytesToNumberLE (take 32 (@cip3_root toy_tree [x07; xff])) < 2 ^ 254 + 2 ^ 253.
Proof.
  apply (@cip3_root_clamped toy_tree toy_noble codec_scure toy_secp toy_ed25519 toy_pairs [x07; xff]).
Defined.

Definition sweep_order_id : bytes := replicate 32 x09.
Definition sweep_trigger : DepositAddressTrigger := {|
  tr_input := {| in_vmType := js "solana-vm"; in_chainId := js "solana"; in_currency := sol_hex x44; in_amount := js "2000" |};
  tr_derivationFields := {|
    df_inputVmType := js "solana-vm"; df_outputVmType := js "ethereum-vm"; df_outputChainId := js "base";
    df_outputCurrency := js "0xbb"; df_outputRecipient := js "0xcc";
    df_solver := df_solver (tr_derivationFields toy_trigger);
    df_pricingOracle := js "0x"; df_depositor := sol_hex x22; df_refundRecipient := js "0xdd";
    df_priceImpactBps := js "500"; df_salt := js "3" |};
  tr_orderId := byte_hash x09; tr_nonce := js "1";
  tr_currencies := [{| cu_chainId := js "base"; cu_currency := js "0xBB" |};
                    {| cu_chainId := js "solana"; cu_currency := sol_hex x44 |}];
  tr_prices := tr_prices toy_trigger; tr_extraData := js "0x" |}.
Definition sweep_attestation : DepositAddressTriggerAttestation := {|
  ta_chainId := 7; ta_depositAddressManager := byte_address x05; ta_inputDepository := sol_hex x33;
  ta_triggerHash := ta_triggerHash toy_trigger_attestation; ta_signatures := ta_signatures toy_trigger_attestation |}.
Definition sweep_order : Order := {|
  or_version := js "v1"; or_solverChainId := js "base"; or_solver := toy_order_solver; or_salt := js "1";
  or_inputs := [{| oi_payment := {| ip_chainId := js "solana"; ip_currency := sol_hex x44; ip_amount := js "2000";
                                    ip_weight := js "1" |};
                   oi_refunds := [{| rf_chainId := js "solana"; rf_recipient := js "0xdd"; rf_currency := sol_hex x44;
                                     rf_minimumAmount := js "0"; rf_deadline := 9; rf_extraData := js "0x" |}] |}];
  or_output := or_output toy_deposit_order; or_fees := [] |}.

Definition sweep_deriver : VmWalletDeriver SolanaVmTransaction SolanaVmSignedTransaction :=
  @getDeriver toy_tree toy_noble toy_host codec_scure toy_secp toy_ed25519 toy_evm (toy_tronweb []) toy_abi (fun _ _ => Ok []) 5000 SolanaVm.
Definition sweep_root : jsstring := js "0x0102".
(** The wallet's public key, in the last signer slot of the message. *)
Definition sweep_pk : bytes :=
  match (indexes ← @derivationFieldsToIndexes toy_viem (tr_derivationFields sweep_trigger);
         deriveChildKey sweep_deriver sweep_root indexes) with
  | Ok (_, key) => le32 (bytesToNumberLE (take 32 key) mod toy_order)
  | _ => []
  end.
Definition sweep_message : bytes :=
  [x80; x02; x00; x01] ++ [x05] ++ replicate 32 xf0 ++ sweep_pk ++ replicate 32 x22 ++ replicate 32 x33 ++ replicate 32 x44 ++
  replicate 32 xbb ++ [x01] ++
  [x03] ++ [x0a] ++ [x00; x01; x02; x00; x04; x00; x00; x00; x00; x00] ++
  [x30] ++ DEPOSIT_TOKEN_DISCRIMINATOR ++ [xd0; x07; x00; x00; x00; x00; x00; x00] ++ sweep_order_id.
Definition sweep_action : ActionParams SolanaVmTransaction := {|
  pkpId := js "pkp"; action := js "sign"; pa_vmType := None; pa_derivationFields := None;
  pa_trigger := Some sweep_trigger; pa_attestation := Some sweep_attestation;
  pa_order := Some sweep_order; pa_orderSignature := Some (toy_sig x0c);
  pa_requestSignature := Some (toy_sig x0c); pa_transactions := Some [{| sv_message := btoa sweep_message |}];
  pa_json := JObj [(js "action", JStr (js "sign"))] |}.

Lemma deposit_action_witness : exists wallet signed,
  sign_authorised (N := toy_noble) (V := toy_viem) toy_bundle (fun _ => Ok sweep_root) 5000 (js "solana-vm") sweep_deriver sweep_action wallet signed.
Proof.
  eexists _, _.
  eapply (@deposit_action_sweeps toy_tree toy_noble toy_noble_laws toy_host codec_scure toy_secp toy_ed25519 toy_pairs
           toy_evm toy_evm_laws (toy_tronweb []) toy_abi toy_abi_laws toy_viem (fun _ _ => Ok []) 5000 toy_bundle
           (fun _ => Ok sweep_root) SolanaVm sweep_action).
  vm_compute. reflexivity.
Defined.
