(* ===== verification/SdkAddress.v ===== *)
(** * The SDK's address codec and hub identifiers

    packages/sdk/src/utils.ts (native currencies, address encoding) and
    packages/sdk/src/hub/hub-utils.ts (token ids and virtual addresses).  The
    codecs of bs58, bech32, @ton/core, tronweb and ripple-address-codec and the
    hash of bitcoinjs-lib are operations of [SdkLibs], viem's packing, hashing
    and checksumming those of [DepositAttestation.Viem]. *)

From Stdlib Require Import Strings.Byte.
From S2P Require Import Prelude JsNum JsString JsNumber Scanner HexBytes DepositAttestation Abi HederaIds.
Local Open Scope Z_scope.
Local Open Scope js_scope.

Inductive SdkVm := bitcoin_vm | ethereum_vm | gateway_vm | hedera_vm | hyperliquid_vm | solana_vm | ton_vm | tron_vm
  | lighter_vm | xrp_vm.
#[export] Instance SdkVm_eq_dec : EqDecision SdkVm.
Proof. solve_decision. Defined.

Definition sdk_vms : list SdkVm :=
  [bitcoin_vm; ethereum_vm; gateway_vm; hedera_vm; hyperliquid_vm; solana_vm; ton_vm; tron_vm; lighter_vm; xrp_vm].
Definition sdk_vm_name (v : SdkVm) : jsstring :=
  match v with
  | bitcoin_vm => js "bitcoin-vm" | ethereum_vm => js "ethereum-vm" | gateway_vm => js "gateway-vm"
  | hedera_vm => js "hedera-vm" | hyperliquid_vm => js "hyperliquid-vm" | solana_vm => js "solana-vm"
  | ton_vm => js "ton-vm" | tron_vm => js "tron-vm" | lighter_vm => js "lighter-vm" | xrp_vm => js "xrp-vm"
  end.
(** A string that is one of the families. *)
Definition sdk_vm_of (s : jsstring) : option SdkVm := List.find (fun v => bool_decide (sdk_vm_name v = s)) sdk_vms.

(** [chainsConfig[chainId]]. *)
Definition ChainIdToVmType : Type := jsstring -> option SdkVm.
Definition getChainVmType (chainId : jsstring) (chainsConfig : ChainIdToVmType) : result SdkVm :=
  require (chainsConfig chainId) "Unknown vm type for chain".

Definition getVmTypeNativeCurrency (vm : SdkVm) : jsstring :=
  match vm with
  | bitcoin_vm => js "bc1qqqqqqqqqqqqqqqqqqqqqqqqqqqqqqqqmql8k8"
  | ethereum_vm | gateway_vm => js "0x0000000000000000000000000000000000000000"
  | hedera_vm => HEDERA_HBAR_TOKEN_ID
  | hyperliquid_vm => js "0x00000000000000000000000000000000"
  | solana_vm => js "11111111111111111111111111111111"
  | ton_vm => js "EQAAAAAAAAAAAAAAAAAAAAAAAAAAAAAAAAAAAAAAAAAAAM9c"
  | tron_vm => js "T9yD14Nj9j7xAB4dbGeiX9h8unkKHxuWwb"
  | lighter_vm => js "0"
  | xrp_vm => js "rrrrrrrrrrrrrrrrrrrrrhoLvTp"
  end.

(** The libraries the codec calls.  The Bech32 decoders get the length limit;
    an X-address decodes to its classic address and its tag, [false] being
    [None]. *)
Class SdkLibs := {
  bs58_decode : jsstring -> result bytes;
  bs58_encode : bytes -> jsstring;
  lib_bech32_decode : jsstring -> nat -> result (jsstring * list Z);
  lib_bech32m_decode : jsstring -> nat -> result (jsstring * list Z);
  lib_bech32_encode : jsstring -> list Z -> result jsstring;
  lib_bech32m_encode : jsstring -> list Z -> result jsstring;
  lib_fromWords : list Z -> result bytes;
  lib_toWords : bytes -> list Z;
  hash256 : bytes -> bytes;
  ton_parse : jsstring -> result (Z * bytes);
  ton_toRawString : Z -> bytes -> jsstring;
  tronweb_toHex : jsstring -> result jsstring;
  tronweb_fromHex : jsstring -> result jsstring;
  isValidXAddress : jsstring -> bool;
  xAddressToClassicAddress : jsstring -> result (jsstring * option Z);
  isValidClassicAddress : jsstring -> bool;
  decodeAccountID : jsstring -> result bytes;
  encodeAccountID : bytes -> result jsstring;
  (** [bech32m.encode("bc", [undefined])]. *)
  bech32m_of_undefined : result jsstring;
  (** [String(x)] of a number beyond 10^21. *)
  large_toString : Z -> jsstring;
}.

Inductive BitcoinAddressType := p2pkh | p2sh | bech32 | bech32m.

Section Codec.
Context {V : Viem} {L : SdkLibs} {D : DepositAttestation.Viem}.

Definition encodeBytes (b : jsstring) : result bytes := viem_hexToBytes b.
Definition encodeBytesToHex (b : jsstring) : result jsstring := l ← encodeBytes b; Ok (js "0x" ++ bytesToHex l).

(** ** Encoding *)

(** The default length limit of the Bech32 decoders. *)
Definition BECH32_LIMIT : nat := 90.
Definition LEGACY_BITCOIN_ADDRESS_DISCRIMINATOR : Z := 0xff.

Definition getBitcoinAddressType (address : jsstring) : result BitcoinAddressType :=
  if startsWith address (js "1") then Ok p2pkh
  else if startsWith address (js "3") then Ok p2sh
  else if startsWith address (js "bc1") then
    let lower := toLowerCase address in
    let is_v0 := match lib_bech32_decode lower BECH32_LIMIT with
                 | Ok (prefix, words) => bool_decide (prefix = js "bc") && bool_decide (head words = Some 0)
                 | Err _ => false
                 end in
    if is_v0 then Ok bech32
    else
      let is_v1 := match lib_bech32m_decode lower BECH32_LIMIT with
                   | Ok (prefix, words) => bool_decide (prefix = js "bc") && match words with v :: _ => 1 <=? v | [] => false end
                   | Err _ => false
                   end in
      if is_v1 then Ok bech32m else Err "Unsupported address format"
  else Err "Unsupported address format".

Definition encodeBitcoin (address : jsstring) : result bytes :=
  type ← getBitcoinAddressType address;
  match type with
  | p2pkh | p2sh =>
      decoded ← bs58_decode address;
      Ok (u8 LEGACY_BITCOIN_ADDRESS_DISCRIMINATOR :: take (length decoded - 4) decoded)
  | bech32 | bech32m =>
      '(_, words) ← (match type with bech32 => lib_bech32_decode | _ => lib_bech32m_decode end) address BECH32_LIMIT;
      let version := default 0 (head words) in
      program ← lib_fromWords (tail words);
      Ok (u8 version :: program)
  end.

(** [Number(address).toString(16).padStart(32, "0")], which is not
    hexadecimal unless the number is a natural number. *)
Definition encodeLighter (address : jsstring) : result bytes :=
  match Number address with
  | JInt z => if z <? 0 then Err "Invalid hex" else viem_hexToBytes (js "0x" ++ padStart 32 48 (toString16 z))
  | _ => Err "Invalid hex"
  end.

Definition encodeXrp (address : jsstring) : result bytes :=
  classicAddress ← (if isValidXAddress address then
    '(classic, tag) ← xAddressToClassicAddress address;
    match tag with Some _ => Err "XRP X-address carries a destination tag" | None => Ok classic end
  else Ok address);
  fail_if negb (isValidClassicAddress classicAddress) with "Invalid XRP address" ;;
  decodeAccountID classicAddress.

Definition encodeAddress (address : jsstring) (vm : SdkVm) : result bytes :=
  match vm with
  | bitcoin_vm => encodeBitcoin address
  | ethereum_vm =>
      encoded ← viem_hexToBytes address;
      fail_if negb (Nat.eqb (length encoded) 20) with "Invalid ethereum-vm address byte length" ;; Ok encoded
  | gateway_vm => Err "Address encoding is intentionally unsupported for gateway-vm"
  | hedera_vm => encodeHederaAddress address
  | hyperliquid_vm =>
      encoded ← viem_hexToBytes address;
      fail_if Nat.eqb (length encoded) 0 || Nat.ltb 20 (length encoded) with "Invalid hyperliquid-vm address byte length" ;;
      Ok encoded
  | solana_vm =>
      encoded ← bs58_decode address;
      fail_if negb (Nat.eqb (length encoded) 32) with "Invalid solana-vm address byte length" ;; Ok encoded
  | ton_vm =>
      '(workChain, hash) ← ton_parse address;
      fail_if negb (workChain =? 0) with "TON address does not match the expected basechain" ;; Ok hash
  | tron_vm => hex ← tronweb_toHex address; viem_hexToBytes (js "0x" ++ hex)
  | lighter_vm => encodeLighter address
  | xrp_vm => encodeXrp address
  end.
Definition encodeAddressToHex (address : jsstring) (vm : SdkVm) : result jsstring :=
  l ← encodeAddress address vm; Ok (js "0x" ++ bytesToHex l).

(** ** Decoding *)

Definition decodeBitcoin (address : bytes) : result jsstring :=
  match address with
  | [] => bech32m_of_undefined
  | version :: payload =>
      if bz version =? LEGACY_BITCOIN_ADDRESS_DISCRIMINATOR then
        fail_if negb (Nat.eqb (length payload) 21) ||
                negb (bool_decide (head payload = Some x00) || bool_decide (head payload = Some x05))
          with "Unsupported legacy bitcoin address encoding" ;;
        Ok (bs58_encode (payload ++ take 4 (hash256 payload)))
      else
        let words := bz version :: lib_toWords payload in
        if bz version =? 0 then lib_bech32_encode (js "bc") words else lib_bech32m_encode (js "bc") words
  end.

Definition decodeLighter (address : bytes) : jsstring :=
  match Number (js "0x" ++ bytesToHex address) with
  | JInt z => if z <? 10 ^ 21 then toString10 z else large_toString z
  | JInf _ => js "Infinity"
  | _ => js "NaN"
  end.

Definition decodeAddress (address : bytes) (vm : SdkVm) : result jsstring :=
  match vm with
  | bitcoin_vm => decodeBitcoin address
  | ethereum_vm =>
      fail_if negb (Nat.eqb (length address) 20) with "Invalid ethereum-vm address byte length" ;; Ok (viem_bytesToHex address)
  | gateway_vm => Err "Address decoding is intentionally unsupported for gateway-vm"
  | hedera_vm => decodeHederaAddress address
  | hyperliquid_vm =>
      fail_if Nat.eqb (length address) 0 || Nat.ltb 20 (length address) with "Invalid hyperliquid-vm address byte length" ;;
      Ok (viem_bytesToHex address)
  | solana_vm =>
      fail_if negb (Nat.eqb (length address) 32) with "Invalid solana-vm address byte length" ;; Ok (bs58_encode address)
  | ton_vm =>
      fail_if negb (Nat.eqb (length address) 32) with "Invalid TON address byte length" ;; Ok (ton_toRawString 0 address)
  | tron_vm => tronweb_fromHex (drop 2 (viem_bytesToHex address))
  | lighter_vm => Ok (decodeLighter address)
  | xrp_vm =>
      fail_if negb (Nat.eqb (length address) 20) with "Invalid XRP account id byte length" ;; encodeAccountID address
  end.

Definition decodeXrpDestination (address : jsstring) : result (jsstring * option Z) :=
  if isValidXAddress address then xAddressToClassicAddress address
  else fail_if negb (isValidClassicAddress address) with "Invalid XRP address" ;; Ok (address, None).

(** ** hub-utils.ts *)

Record HubComponents := { hb_family : SdkVm; hb_chainId : jsstring; hb_address : jsstring }.

Definition HYPERLIQUID_ACCOUNT_BYTES : nat := 20.
Definition HYPERLIQUID_CURRENCY_BYTES : nat := 16.

Definition encodeHubField (address : jsstring) (family : SdkVm) (hyperliquidBytes : nat) : result jsstring :=
  encoded ← encodeAddress address family;
  fail_if bool_decide (family = hyperliquid_vm) && negb (Nat.eqb (length encoded) hyperliquidBytes)
    with "Invalid hyperliquid-vm byte length" ;;
  Ok (js "0x" ++ bytesToHex encoded).

Definition generateAddress (c : HubComponents) : result jsstring :=
  field ← encodeHubField (hb_address c) (hb_family c) HYPERLIQUID_ACCOUNT_BYTES;
  packed ← encodePacked_string_bytes (hb_chainId c) field;
  addressHash ← keccak256_hex packed;
  let digits := drop 2 addressHash in
  getAddress (js "0x" ++ drop (length digits - 40) digits).

Definition generateTokenId (c : HubComponents) : result Z :=
  field ← encodeHubField (hb_address c) (hb_family c) HYPERLIQUID_CURRENCY_BYTES;
  packedData ← encodePacked_string_bytes (hb_chainId c) field;
  hash ← keccak256_hex packedData;
  BigInt hash.
End Codec.
