(* ===== verification/SdkOrder.v ===== *)
(** * The SDK's orders and deposit-address triggers

    packages/sdk/src/order/index.ts (orders of both versions, their
    normalization and ids) and messages/v2.3/deposit-address.ts (the trigger
    hash).  An order as the SDK takes it has the shape of
    [DepositTypes.Order], with addresses as texts of their VM; normalization
    turns them into hex.  The deposit-address action carries a port of these
    functions, which the theorems here compare with the originals. *)

From Stdlib Require Import Strings.Byte.
From S2P Require Import Prelude JsNum JsString HexBytes DepositBytes DepositTypes DepositAttestation HederaIds SdkAddress.
Local Open Scope Z_scope.
Local Open Scope js_scope.

(** ** Orders of version 1 *)

Definition SDK_ORDER_EIP712_TYPES : list (string * list (string * string)) :=
  [("Order", [("version", "string"); ("solverChainId", "string"); ("solver", "address"); ("salt", "uint256");
              ("inputs", "Input[]"); ("output", "Output"); ("fees", "Fee[]")]);
   ("Input", [("payment", "InputPayment"); ("refunds", "InputRefund[]")]);
   ("InputPayment", [("chainId", "string"); ("currency", "bytes"); ("amount", "uint256"); ("weight", "uint256")]);
   ("InputRefund", [("chainId", "string"); ("recipient", "bytes"); ("currency", "bytes");
                    ("minimumAmount", "uint256"); ("deadline", "uint32"); ("extraData", "bytes")]);
   ("Output", [("chainId", "string"); ("payments", "OutputPayment[]"); ("deadline", "uint32");
               ("calls", "bytes[]"); ("extraData", "bytes")]);
   ("OutputPayment", [("recipient", "bytes"); ("currency", "bytes"); ("minimumAmount", "uint256");
                      ("expectedAmount", "uint256")]);
   ("Fee", [("recipientChainId", "string"); ("recipient", "bytes"); ("currencyChainId", "string");
            ("currency", "bytes"); ("amount", "uint256")])].

(** ** Orders of version 2 *)

Record OrderV2Input := { i2_chainId : jsstring; i2_currency : jsstring; i2_amount : jsstring }.
Record OrderV2Refund := {
  r2_chainId : jsstring; r2_currency : jsstring; r2_minimumAmount : jsstring; r2_recipient : jsstring }.
Record OrderV2Withdraw := { w2_currency : jsstring; w2_minimumAmount : jsstring }.
Record OrderV2Fill := {
  f2_currency : jsstring; f2_minimumAmount : jsstring; f2_recipient : jsstring; f2_calls : list jsstring }.
Record OrderV2Output := { o2_chainId : jsstring; o2_withdraw : OrderV2Withdraw; o2_fill : OrderV2Fill }.
Record OrderV2 := {
  v2_version : jsstring; v2_relayerChainId : jsstring; v2_relayer : jsstring; v2_salt : jsstring; v2_deadline : Z;
  v2_input : OrderV2Input; v2_refunds : list OrderV2Refund; v2_output : OrderV2Output; v2_fees : list OrderFee }.

Definition ORDER_V2_EIP712_TYPES : list (string * list (string * string)) :=
  [("Order", [("version", "string"); ("relayerChainId", "string"); ("relayer", "address"); ("salt", "uint256");
              ("deadline", "uint32"); ("input", "Input"); ("refunds", "Refund[]"); ("output", "Output"); ("fees", "Fee[]")]);
   ("Input", [("chainId", "string"); ("currency", "bytes"); ("amount", "uint256")]);
   ("Refund", [("chainId", "string"); ("currency", "bytes"); ("minimumAmount", "uint256"); ("recipient", "bytes")]);
   ("Output", [("chainId", "string"); ("withdraw", "Withdraw"); ("fill", "Fill")]);
   ("Withdraw", [("currency", "bytes"); ("minimumAmount", "uint256")]);
   ("Fill", [("currency", "bytes"); ("minimumAmount", "uint256"); ("recipient", "bytes"); ("calls", "bytes[]")]);
   ("Fee", [("recipientChainId", "string"); ("recipient", "bytes"); ("currencyChainId", "string");
            ("currency", "bytes"); ("amount", "uint256")])].

(** ** The trigger hash *)

Definition SDK_TRIGGER_HASH_ABI : list AbiType :=
  [T_tuple [("vmType", T_string); ("chainId", T_string); ("currency", T_bytes); ("amount", T_uint256)];
   T_tuple [("inputVmType", T_string); ("outputVmType", T_string); ("outputChainId", T_string);
            ("outputCurrency", T_bytes); ("outputRecipient", T_bytes); ("solver", T_address);
            ("pricingOracle", T_address); ("depositor", T_bytes); ("refundRecipient", T_bytes);
            ("priceImpactBps", T_uint256); ("salt", T_uint256)];
   T_bytes32; T_uint256;
   T_array (T_tuple [("chainId", T_string); ("currency", T_bytes)]);
   T_array (T_tuple [("usdPrice", T_uint256); ("usdPriceDecimals", T_uint8); ("currencyDecimals", T_uint8);
                     ("publishTime", T_uint256); ("expiration", T_uint256)]);
   T_bytes].

Section Orders.
Context {V : HederaIds.Viem} {L : SdkLibs} {D : DepositAttestation.Viem}.
(** viem's [hashStruct] on orders of version 2. *)
Context (hashStruct_v2 : list (string * list (string * string)) -> string -> OrderV2 -> result jsstring).

(** [encodeAddressToHex(address, vmType(chainId))]. *)
Definition encodeOn (config : ChainIdToVmType) (chainId address : jsstring) : result jsstring :=
  vm ← getChainVmType chainId config; SdkAddress.encodeAddressToHex address vm.

Definition normalizePayment (config : ChainIdToVmType) (p : InputPayment) : result InputPayment :=
  currency ← encodeOn config (ip_chainId p) (ip_currency p);
  Ok {| ip_chainId := ip_chainId p; ip_currency := currency; ip_amount := ip_amount p; ip_weight := ip_weight p |}.
Definition normalizeRefund (config : ChainIdToVmType) (r : InputRefund) : result InputRefund :=
  recipient ← encodeOn config (rf_chainId r) (rf_recipient r);
  currency ← encodeOn config (rf_chainId r) (rf_currency r);
  extraData ← encodeBytesToHex (rf_extraData r);
  Ok {| rf_chainId := rf_chainId r; rf_recipient := recipient; rf_currency := currency;
        rf_minimumAmount := rf_minimumAmount r; rf_deadline := rf_deadline r; rf_extraData := extraData |}.
Definition normalizeInput (config : ChainIdToVmType) (i : OrderInput) : result OrderInput :=
  payment ← normalizePayment config (oi_payment i);
  refunds ← mapM (normalizeRefund config) (oi_refunds i);
  Ok {| oi_payment := payment; oi_refunds := refunds |}.
Definition normalizeOutputPayment (config : ChainIdToVmType) (chainId : jsstring) (p : OutputPayment) : result OutputPayment :=
  recipient ← encodeOn config chainId (op_recipient p);
  currency ← encodeOn config chainId (op_currency p);
  Ok {| op_recipient := recipient; op_currency := currency; op_minimumAmount := op_minimumAmount p;
        op_expectedAmount := op_expectedAmount p |}.
Definition normalizeOutput (config : ChainIdToVmType) (o : OrderOutput) : result OrderOutput :=
  payments ← mapM (normalizeOutputPayment config (oo_chainId o)) (oo_payments o);
  calls ← mapM encodeBytesToHex (oo_calls o);
  extraData ← encodeBytesToHex (oo_extraData o);
  Ok {| oo_chainId := oo_chainId o; oo_payments := payments; oo_calls := calls; oo_deadline := oo_deadline o;
        oo_extraData := extraData |}.
Definition normalizeFee (config : ChainIdToVmType) (f : OrderFee) : result OrderFee :=
  recipient ← encodeOn config (fe_recipientChainId f) (fe_recipient f);
  currency ← encodeOn config (fe_currencyChainId f) (fe_currency f);
  Ok {| fe_recipientChainId := fe_recipientChainId f; fe_recipient := recipient; fe_currencyChainId := fe_currencyChainId f;
        fe_currency := currency; fe_amount := fe_amount f |}.

Definition normalizeOrder (order : Order) (config : ChainIdToVmType) : result Order :=
  inputs ← mapM (normalizeInput config) (or_inputs order);
  output ← normalizeOutput config (or_output order);
  fees ← mapM (normalizeFee config) (or_fees order);
  Ok {| or_version := or_version order; or_solverChainId := or_solverChainId order; or_solver := or_solver order;
        or_salt := or_salt order; or_inputs := inputs; or_output := output; or_fees := fees |}.

Definition sdk_getOrderId (order : Order) (config : ChainIdToVmType) : result jsstring :=
  data ← normalizeOrder order config; hashStruct SDK_ORDER_EIP712_TYPES "Order" data.

Definition normalizeV2Refund (config : ChainIdToVmType) (r : OrderV2Refund) : result OrderV2Refund :=
  currency ← encodeOn config (r2_chainId r) (r2_currency r);
  recipient ← encodeOn config (r2_chainId r) (r2_recipient r);
  Ok {| r2_chainId := r2_chainId r; r2_currency := currency; r2_minimumAmount := r2_minimumAmount r; r2_recipient := recipient |}.
Definition normalizeV2Output (config : ChainIdToVmType) (o : OrderV2Output) : result OrderV2Output :=
  let chainId := o2_chainId o in
  withdrawCurrency ← encodeOn config chainId (w2_currency (o2_withdraw o));
  fillCurrency ← encodeOn config chainId (f2_currency (o2_fill o));
  recipient ← encodeOn config chainId (f2_recipient (o2_fill o));
  calls ← mapM encodeBytesToHex (f2_calls (o2_fill o));
  Ok {| o2_chainId := chainId;
        o2_withdraw := {| w2_currency := withdrawCurrency; w2_minimumAmount := w2_minimumAmount (o2_withdraw o) |};
        o2_fill := {| f2_currency := fillCurrency; f2_minimumAmount := f2_minimumAmount (o2_fill o);
                      f2_recipient := recipient; f2_calls := calls |} |}.
Definition normalizeOrderV2 (order : OrderV2) (config : ChainIdToVmType) : result OrderV2 :=
  currency ← encodeOn config (i2_chainId (v2_input order)) (i2_currency (v2_input order));
  refunds ← mapM (normalizeV2Refund config) (v2_refunds order);
  output ← normalizeV2Output config (v2_output order);
  fees ← mapM (normalizeFee config) (v2_fees order);
  Ok {| v2_version := v2_version order; v2_relayerChainId := v2_relayerChainId order; v2_relayer := v2_relayer order;
        v2_salt := v2_salt order; v2_deadline := v2_deadline order;
        v2_input := {| i2_chainId := i2_chainId (v2_input order); i2_currency := currency; i2_amount := i2_amount (v2_input order) |};
        v2_refunds := refunds; v2_output := output; v2_fees := fees |}.
Definition getOrderV2Id (order : OrderV2) (config : ChainIdToVmType) : result jsstring :=
  data ← normalizeOrderV2 order config; hashStruct_v2 ORDER_V2_EIP712_TYPES "Order" data.

(** ** The trigger hash *)

Definition sdk_trigger_values (trigger : DepositAddressTrigger) : result (list AbiValue) :=
  let i := tr_input trigger in
  let d := tr_derivationFields trigger in
  amount ← BigInt (in_amount i);
  priceImpactBps ← BigInt (df_priceImpactBps d);
  salt ← BigInt (df_salt d);
  nonce ← BigInt (tr_nonce trigger);
  prices ← mapM (fun price =>
    usdPrice ← BigInt (pr_usdPrice price);
    publishTime ← BigInt (pr_publishTime price);
    expiration ← BigInt (pr_expiration price);
    Ok (V_tuple [V_num usdPrice; V_num (pr_usdPriceDecimals price); V_num (pr_currencyDecimals price);
                 V_num publishTime; V_num expiration])) (tr_prices trigger);
  Ok [V_tuple [V_text (in_vmType i); V_text (in_chainId i); V_text (in_currency i); V_num amount];
      V_tuple [V_text (df_inputVmType d); V_text (df_outputVmType d); V_text (df_outputChainId d);
               V_text (df_outputCurrency d); V_text (df_outputRecipient d); V_text (df_solver d);
               V_text (df_pricingOracle d); V_text (df_depositor d); V_text (df_refundRecipient d);
               V_num priceImpactBps; V_num salt];
      V_text (tr_orderId trigger); V_num nonce;
      V_array ((fun currency => V_tuple [V_text (cu_chainId currency); V_text (cu_currency currency)]) <$> tr_currencies trigger);
      V_array prices; V_text (tr_extraData trigger)].
Definition sdk_getDepositAddressTriggerHash (trigger : DepositAddressTrigger) : result jsstring :=
  values ← sdk_trigger_values trigger;
  encoded ← encodeAbiParameters SDK_TRIGGER_HASH_ABI values;
  keccak256_hex encoded.
End Orders.
