(* ===== verification/SdkProofs.v ===== *)
(** * The SDK's codecs read back, its identifiers bind, and its port agrees

    Every VM's address text encodes back to the bytes it was decoded from;
    equal token ids name the same account bytes on the same chain unless the
    hash collides; the functions the deposit-address action ports from the SDK
    compute what the SDK computes. *)

From Stdlib Require Import Strings.Byte.
From S2P Require Import Prelude JsNum JsString JsNumber Scanner ToyRuntime DepositBytes HexBytes DepositTypes DepositAttestation Abi HederaIds SdkAddress SdkOrder.
Local Open Scope Z_scope.
Local Open Scope js_scope.

(** ** Documented behaviour of the libraries *)

(** Decoding undoes encoding; the leading character of a base-58 Bitcoin
    address is fixed by its version byte; Bech32 prints lower case, and its
    checksum is not that of Bech32m; a classic XRP address is not an
    X-address. *)
Class SdkLibsLaws (L : SdkLibs) : Prop := {
  bs58_back : forall l, bs58_decode (bs58_encode l) = Ok l;
  bs58_p2pkh : forall l, length l = 25%nat -> head l = Some x00 -> startsWith (bs58_encode l) (js "1") = true;
  bs58_p2sh : forall l, length l = 25%nat -> head l = Some x05 ->
    startsWith (bs58_encode l) (js "3") = true /\ startsWith (bs58_encode l) (js "1") = false;
  lib_bech32_back : forall ws s, lib_bech32_encode (js "bc") ws = Ok s ->
    lib_bech32_decode s BECH32_LIMIT = Ok (js "bc", ws) /\ toLowerCase s = s /\ startsWith s (js "bc1") = true;
  lib_bech32m_back : forall ws s, lib_bech32m_encode (js "bc") ws = Ok s ->
    lib_bech32m_decode s BECH32_LIMIT = Ok (js "bc", ws) /\ toLowerCase s = s /\ startsWith s (js "bc1") = true /\
    is_ok (lib_bech32_decode s BECH32_LIMIT) = false;
  lib_words_back : forall l, lib_fromWords (lib_toWords l) = Ok l;
  hash256_length : forall l, length (hash256 l) = 32%nat;
  ton_back : forall l, length l = 32%nat -> ton_parse (ton_toRawString 0 l) = Ok (0, l);
  tron_back : forall a s, length a = 20%nat -> tronweb_fromHex (bytesToHex (x41 :: a)) = Ok s ->
    tronweb_toHex s = Ok (bytesToHex (x41 :: a));
  xrp_back : forall l s, encodeAccountID l = Ok s ->
    isValidXAddress s = false /\ isValidClassicAddress s = true /\ decodeAccountID s = Ok l;
}.

(** viem packs a string and bytes by concatenation and hashes with Keccak-256. *)
Class HubHashLaws (D : DepositAttestation.Viem) (keccak : bytes -> bytes) : Prop := {
  keccak_length : forall l, length (keccak l) = 32%nat;
  packed_law : forall chainId l,
    encodePacked_string_bytes chainId (js "0x" ++ bytesToHex l) = Ok (js "0x" ++ bytesToHex (TextEncoder_encode chainId ++ l));
  keccak_law : forall l, keccak256_hex (js "0x" ++ bytesToHex l) = Ok (js "0x" ++ bytesToHex (keccak l));
}.

(** ** Fixed-width hexadecimal *)

(** The digits of a byte string. *)
Lemma hex_digits_of l : exists d, bytesToHex l = hex_char <$> d /\ Radix.digits_ok 16 d /\
  length d = (2 * length l)%nat /\ Radix.of_digits 16 d = be_val l.
Proof.
  induction l as [|b l (d & E & Hok & Hlen & Hv)]; [exists []; split_and!; [done|constructor|done|done]|].
  exists (bz b / 16 :: bz b mod 16 :: d). destruct (nibbles b) as [H1 H2]. rewrite bytesToHex_cons, E. split_and!.
  - done.
  - constructor; [done|]. by constructor.
  - cbn. lia.
  - change (b :: l) with ([b] ++ l). rewrite be_val_app, !Radix.of_digits_cons, Hv by lia. cbn [length]. rewrite Hlen.
    rewrite Nat2Z.inj_succ, Nat2Z.inj_mul, Z.pow_succ_r, Z.pow_mul_r by lia. change (16 ^ Z.of_nat 2) with 256.
    change (be_val [b]) with (0 * 256 + bz b). pose proof (Z.div_mod (bz b) 16 ltac:(lia)).
    generalize (256 ^ Z.of_nat (length l)). intros P. nia.
Qed.

Lemma pad_hex l : l <> [] -> padStart (2 * length l) 48 (toString16 (be_val l)) = bytesToHex l.
Proof.
  intros Hne. destruct (hex_digits_of l) as (d & E & Hok & Hlen & Hv). rewrite E. pose proof (be_val_bound l) as Hb.
  assert (exists k, toString16 (be_val l) = hex_char <$> k /\ Radix.digits_ok 16 k /\ Radix.of_digits 16 k = be_val l /\
    (length k <= 2 * length l)%nat) as (k & Ek & Hk & Hkv & Hkl).
  { unfold toString16. destruct (Z.eqb_spec (be_val l) 0) as [E0|E0].
    - exists [0]. split_and!; [done|repeat constructor; lia|by rewrite E0|]. destruct l; [done|]. cbn. lia.
    - destruct (Z.ltb_spec (be_val l) 0); [lia|]. destruct (Radix.to_digits_spec 16 ltac:(lia) (be_val l) ltac:(lia)) as (D1 & D2 & D3).
      assert (Radix.to_digits 16 (be_val l) <> []) as Hd0 by (intros Ed; rewrite Ed in D1; cbn in D1; lia).
      pose proof (Radix.no_leading_zero_lower 16 ltac:(lia) _ D2 D3 Hd0) as Hlow. rewrite D1 in Hlow.
      eexists. split_and!; [done|done|done|]. set (n := length (Radix.to_digits 16 (be_val l))) in *.
      assert (Z.of_nat n - 1 < 2 * Z.of_nat (length l)); [|lia]. apply (Z.pow_lt_mono_r_iff 16); [lia|lia|].
      rewrite Z.pow_mul_r by lia. change (16 ^ 2) with 256. lia. }
  rewrite Ek. unfold padStart. rewrite length_fmap.
  assert (d = replicate (2 * length l - length k) 0 ++ k) as ->.
  { apply (Radix.of_digits_inj 16 ltac:(lia)); [done| | |].
    - apply Forall_app. split; [|done]. apply Forall_replicate. lia.
    - rewrite length_app, length_replicate. lia.
    - rewrite (Radix.of_digits_replicate_0 16) by lia. congruence. }
  rewrite fmap_app, fmap_replicate. done.
Qed.

(** ** Addresses *)

Section Codec.
Context `{V : Viem, VL : !ViemLaws V, L : SdkLibs, LL : !SdkLibsLaws L}.

(** The byte strings that are addresses of a VM: 21 bytes behind the Tron
    prefix, 16 bytes with an exact number for Lighter, any for the others. *)
Definition address_slot (vm : SdkVm) (l : bytes) : Prop :=
  match vm with
  | tron_vm => exists a, l = x41 :: a /\ length a = 20%nat
  | lighter_vm => length l = 16%nat /\ be_val l <= 2 ^ 53
  | bitcoin_vm => l <> []
  | _ => True
  end.

Lemma bc1_not_legacy s : startsWith s (js "bc1") = true -> startsWith s (js "1") = false /\ startsWith s (js "3") = false.
Proof using.
  unfold startsWith. rewrite bool_decide_eq_true. intros E. destruct s as [|c s]; [done|]. cbn in E. injection E as -> _. done.
Qed.

Lemma bitcoin_back l s : l <> [] -> decodeBitcoin l = Ok s -> encodeBitcoin s = Ok l.
Proof using LL.
  destruct l as [|v p]; [done|]. intros _. cbn [decodeBitcoin]. destruct (Z.eqb_spec (bz v) LEGACY_BITCOIN_ADDRESS_DISCRIMINATOR) as [E|E].
  - intros Hd. apply bind_ok in Hd as (u & Hu & Hd). apply check_ok in Hu. clear u. bool_prop.
    set (sum := take 4 (hash256 p)) in *. assert (length sum = 4%nat) as Hs by (unfold sum; rewrite length_take, hash256_length; done).
    assert (s = bs58_encode (p ++ sum)) as -> by congruence.
    assert (length (p ++ sum) = 25%nat) as H25 by (rewrite length_app; lia).
    assert (head (p ++ sum) = head p) as Hh by (destruct p; [done|done]).
    unfold encodeBitcoin.
    assert (exists ty, getBitcoinAddressType (bs58_encode (p ++ sum)) = Ok ty /\ (ty = p2pkh \/ ty = p2sh)) as (ty & -> & Hty).
    { unfold getBitcoinAddressType. destruct (decide (head p = Some x00)) as [E0|E0].
      - rewrite bs58_p2pkh by congruence. eauto.
      - apply orb_true_iff in H0 as [H0|H0]; apply bool_decide_eq_true in H0; [done|]. destruct (bs58_p2sh (p ++ sum)) as [E3 E1]; [done|congruence|].
        rewrite E1, E3. eauto. }
    assert (take (length (p ++ sum) - 4) (p ++ sum) = p) as Ht by (rewrite H25; apply take_app_length'; lia).
    cbn [mbind result_bind]. destruct Hty as [-> | ->]; rewrite bs58_back; cbn [mbind result_bind]; rewrite Ht, <- E, u8_bz; done.
  - destruct (Z.eqb_spec (bz v) 0) as [E0|E0]; intros Hd.
    + apply lib_bech32_back in Hd as (Hdec & Hlow & Hst). destruct (bc1_not_legacy s Hst) as [H1 H3].
      unfold encodeBitcoin, getBitcoinAddressType. rewrite H1, H3, Hst, Hlow, Hdec. rewrite E0. cbn [head].
      rewrite !bool_decide_eq_true_2 by done. cbn [andb mbind result_bind]. rewrite Hdec. cbn [mbind result_bind head default tail].
      rewrite lib_words_back. cbn [mbind result_bind]. unfold default. cbn [from_option id]. by rewrite u8_bz.
    + apply lib_bech32m_back in Hd as (Hdec & Hlow & Hst & Hno). destruct (bc1_not_legacy s Hst) as [H1 H3].
      unfold encodeBitcoin, getBitcoinAddressType. rewrite H1, H3, Hst, Hlow. destruct (lib_bech32_decode s BECH32_LIMIT); [done|].
      rewrite Hdec. rewrite bool_decide_eq_true_2 by done. pose proof (bz_range v). zcmp. cbn [andb mbind result_bind]. rewrite Hdec.
      cbn [mbind result_bind head default tail]. rewrite lib_words_back. cbn [mbind result_bind]. unfold default. cbn [from_option id].
      by rewrite u8_bz.
Qed.

Lemma radix_number_hex l : l <> [] -> be_val l <= 2 ^ 53 -> Number (js "0x" ++ bytesToHex l) = JInt (be_val l).
Proof using.
  intros Hne Hv. pose proof (bytesToHex_hex l) as Hhex. pose proof (be_val_bound l) as [Hb _].
  assert (Forall (fun c => is_hex_digit c = true) (bytesToHex l)) as Hdig by (eapply Forall_impl; [exact Hhex|naive_solver]).
  unfold Number. rewrite trim_id.
  2: { intros c Hc. apply elem_of_app in Hc as [Hc|Hc].
       - repeat (apply elem_of_cons in Hc as [->|Hc]; [done|]). by apply not_elem_of_nil in Hc.
       - rewrite Forall_forall in Hdig. by apply hex_not_space, Hdig. }
  change (js "0x" ++ bytesToHex l) with (48 :: 120 :: bytesToHex l). rewrite bool_decide_false by done.
  cbn [take drop]. rewrite bool_decide_eq_true_2 by done. cbn [orb]. unfold radix_number, radix_literal.
  rewrite bool_decide_false by (destruct l; [done|by rewrite bytesToHex_cons]).
  rewrite (proj2 (forallb_Forall _ _)) by done.
  rewrite drop_0.
  destruct (parse_pairs_val (bytesToHex l) Hdig) as [<- _]; [rewrite length_bytesToHex; apply even_mod2|].
  rewrite parse_pairs_bytesToHex. apply round_double_int. lia.
Qed.

Lemma lighter_back l : length l = 16%nat -> be_val l <= 2 ^ 53 -> encodeLighter (decodeLighter l) = Ok l.
Proof using VL.
  intros Hl Hv. assert (l <> []) as Hne by (by intros ->). pose proof (be_val_bound l) as [Hb _].
  unfold decodeLighter. rewrite radix_number_hex by done. assert (2 ^ 53 < 10 ^ 21) as Hpow by reflexivity.
  rewrite (proj2 (Z.ltb_lt _ _)) by lia. unfold encodeLighter. rewrite Number_toString10 by lia.
  rewrite (proj2 (Z.ltb_ge _ _)) by lia. replace 32%nat with (2 * length l)%nat by lia. rewrite pad_hex by done. apply viem_read.
Qed.

Lemma decode_encode_address vm l s : address_slot vm l -> decodeAddress l vm = Ok s -> encodeAddress s vm = Ok l.
Proof using VL LL.
  intros Hs Hd. destruct vm; cbn [decodeAddress encodeAddress address_slot] in *; try done.
  - by apply bitcoin_back.
  - apply bind_ok in Hd as (u & Hu & Hd). apply check_ok in Hu. bool_prop. assert (s = viem_bytesToHex l) as -> by congruence.
    rewrite viem_print, viem_read. cbn [mbind result_bind]. by rewrite Hu.
  - apply decode_ok in Hd as (a & Ha & ->). apply encode_ok. exists a. split; [by eapply parse_format|done].
  - apply bind_ok in Hd as (u & Hu & Hd). apply check_ok in Hu. assert (s = viem_bytesToHex l) as -> by congruence.
    rewrite viem_print, viem_read. cbn [mbind result_bind]. by rewrite Hu.
  - apply bind_ok in Hd as (u & Hu & Hd). apply check_ok in Hu. bool_prop. assert (s = bs58_encode l) as -> by congruence.
    rewrite bs58_back. cbn [mbind result_bind]. by rewrite Hu.
  - apply bind_ok in Hd as (u & Hu & Hd). apply check_ok in Hu. bool_prop. assert (s = ton_toRawString 0 l) as -> by congruence.
    rewrite ton_back by done. done.
  - destruct Hs as (a & -> & Ha). rewrite viem_print in Hd. cbn [drop app js] in Hd. rewrite (tron_back a s Ha Hd).
    cbn [mbind result_bind]. apply viem_read.
  - assert (s = decodeLighter l) as -> by congruence. destruct Hs. by apply lighter_back.
  - apply bind_ok in Hd as (u & Hu & Hd). apply xrp_back in Hd as (H1 & H2 & H3). unfold encodeXrp. rewrite H1.
    cbn [mbind result_bind]. by rewrite H2.
Qed.

(** C16: Address texts read back: for every VM, the text an address decodes to
    encodes to the same bytes, so different accounts have different texts.
    Lighter account numbers are exact up to 2^53. *)
Theorem sdk_address_roundtrip vm l s :
  address_slot vm l -> decodeAddress l vm = Ok s ->
  encodeAddress s vm = Ok l /\
  forall k, address_slot vm k -> decodeAddress k vm = Ok s -> k = l.
Proof using VL LL.
  intros Hs Hd. pose proof (decode_encode_address vm l s Hs Hd) as E. split; [done|].
  intros k Hk Hdk. pose proof (decode_encode_address vm k s Hk Hdk). congruence.
Qed.
End Codec.

(** ** Hub identifiers *)

Section Hub.
Context {V : Viem} {L : SdkLibs} {D : DepositAttestation.Viem} (keccak : bytes -> bytes) `{HL : !HubHashLaws D keccak}.

(** The bytes that are hashed. *)
Definition packed_bytes (c : HubComponents) (l : bytes) : bytes := TextEncoder_encode (hb_chainId c) ++ l.

Lemma hub_field_ok address family n h : encodeHubField address family n = Ok h <->
  exists l, encodeAddress address family = Ok l /\ (family = hyperliquid_vm -> length l = n) /\ h = js "0x" ++ bytesToHex l.
Proof using.
  unfold encodeHubField. split.
  - intros H. apply bind_ok in H as (l & Hl & H). apply bind_ok in H as (u & Hu & H). apply check_ok in Hu. exists l.
    split_and!; [done| |congruence]. intros ->. rewrite bool_decide_eq_true_2 in Hu by done. cbn in Hu. bool_prop. done.
  - intros (l & Hl & Hn & ->). rewrite Hl. cbn [mbind result_bind].
    case_bool_decide as Hf; cbn [andb]; [|done]. rewrite (Hn Hf), Nat.eqb_refl. done.
Qed.

Lemma token_id_ok c n : generateTokenId c = Ok n <->
  exists l, encodeAddress (hb_address c) (hb_family c) = Ok l /\ (hb_family c = hyperliquid_vm -> length l = HYPERLIQUID_CURRENCY_BYTES) /\
            n = be_val (keccak (packed_bytes c l)).
Proof using HL.
  unfold generateTokenId.
  assert (forall l, BigInt (js "0x" ++ bytesToHex (keccak l)) = Ok (be_val (keccak l))) as Hb.
  { intros l. apply BigInt_hex0x. intros E. pose proof (keccak_length l) as Hk. by rewrite E in Hk. }
  split.
  - intros H. apply bind_ok in H as (h & Hh & H). apply hub_field_ok in Hh as (l & Hl & Hn & ->). exists l.
    split_and!; [done|done|]. rewrite packed_law in H. cbn [mbind result_bind] in H. rewrite keccak_law in H.
    cbn [mbind result_bind] in H. rewrite Hb in H. unfold packed_bytes. congruence.
  - intros (l & Hl & Hn & ->). rewrite (proj2 (hub_field_ok _ _ _ (js "0x" ++ bytesToHex l))) by eauto.
    cbn [mbind result_bind]. rewrite packed_law. cbn [mbind result_bind]. rewrite keccak_law. cbn [mbind result_bind]. apply Hb.
Qed.

(** Two strings of which neither continues the other. *)
Definition prefix_free (p q : bytes) : Prop := p `prefix_of` q \/ q `prefix_of` p -> p = q.
Lemma prefix_free_split p q l k : prefix_free p q -> p ++ l = q ++ k -> p = q /\ l = k.
Proof using.
  intros Hpf E. assert (p = q) as ->; [|by apply app_inv_head in E].
  apply Hpf. apply (prefix_weak_total p q (p ++ l)); [by apply prefix_app_r|rewrite E; by apply prefix_app_r].
Qed.

(** A token id is below 2^256 and names its chain and currency: components
    with the same token id have the same account bytes behind chain ids with
    the same bytes, provided neither chain id continues the other, or they
    exhibit a Keccak collision. *)
Theorem token_id_binds c d n :
  generateTokenId c = Ok n -> generateTokenId d = Ok n ->
  prefix_free (TextEncoder_encode (hb_chainId c)) (TextEncoder_encode (hb_chainId d)) ->
  0 <= n < 2 ^ 256 /\
  ((exists p q, p <> q /\ keccak p = keccak q) \/
   TextEncoder_encode (hb_chainId c) = TextEncoder_encode (hb_chainId d) /\
   encodeAddress (hb_address c) (hb_family c) = encodeAddress (hb_address d) (hb_family d)).
Proof using HL.
  intros (l & Hl & _ & ->)%token_id_ok (k & Hk & _ & E)%token_id_ok Hpf. split.
  - pose proof (be_val_bound (keccak (packed_bytes c l))) as Hb. rewrite keccak_length in Hb.
    change (256 ^ Z.of_nat 32) with (2 ^ 256) in Hb. lia.
  - apply be_val_inj in E; [|by rewrite !keccak_length].
    destruct (decide (packed_bytes c l = packed_bytes d k)) as [Ep|Ep]; [right|left; eauto].
    unfold packed_bytes in Ep. apply prefix_free_split in Ep as [E1 ->]; [|done]. split; [done|congruence].
Qed.
End Hub.

(** ** The port of the deposit-address action *)

Section Port.
Context {V : HederaIds.Viem} {L : SdkLibs} {D : DepositAttestation.Viem} (keccak : bytes -> bytes) `{HL : !HubHashLaws D keccak}.

Lemma mapM_ext {A B} (f g : A -> result B) l : (forall x, f x = g x) -> mapM f l = mapM g l.
Proof using. intros H. induction l as [|x l IH]; [done|]. cbn. by rewrite H, IH. Qed.

Lemma trigger_values_agree t : sdk_trigger_values t = trigger_values t.
Proof using.
  unfold sdk_trigger_values, trigger_values, derivationFields_value. destruct (BigInt (in_amount _)); [|done]. cbn [mbind result_bind].
  destruct (BigInt (df_priceImpactBps _)); [|done]. cbn [mbind result_bind]. destruct (BigInt (df_salt _)); [|done].
  cbn [mbind result_bind]. done.
Qed.

(** C17: The action's copies of the SDK's functions compute what the SDK computes:
    the id of a normalized order is the SDK's id of the order, the virtual
    address of encoded account bytes is the SDK's address of the account, and
    the trigger hashes are the same. *)
Theorem action_port_agrees :
  (forall order config n, normalizeOrder order config = Ok n -> DepositAttestation.getOrderId n = sdk_getOrderId order config) /\
  (forall c h, encodeHubField (hb_address c) (hb_family c) HYPERLIQUID_ACCOUNT_BYTES = Ok h ->
     DepositAttestation.generateAddress (hb_chainId c) h = SdkAddress.generateAddress c) /\
  (forall t, DepositAttestation.getDepositAddressTriggerHash t = sdk_getDepositAddressTriggerHash t).
Proof using HL.
  split_and!.
  - intros order config n Hn. unfold sdk_getOrderId. rewrite Hn. done.
  - intros c h Hh. unfold SdkAddress.generateAddress. rewrite Hh. cbn [mbind result_bind].
    apply hub_field_ok in Hh as (l & _ & _ & ->). unfold DepositAttestation.generateAddress. rewrite packed_law.
    cbn [mbind result_bind]. rewrite keccak_law. cbn [mbind result_bind]. f_equal. f_equal. unfold slice_last.
    set (k := bytesToHex (keccak _)). assert (length k = 64%nat) as Hk by (unfold k; rewrite length_bytesToHex, keccak_length; done).
    rewrite length_app. change (drop 2 (js "0x" ++ k)) with (drop 0 k). rewrite drop_0, Hk. done.
  - intros t. unfold DepositAttestation.getDepositAddressTriggerHash, sdk_getDepositAddressTriggerHash.
    by rewrite trigger_values_agree.
Qed.
End Port.

(** ** Concrete libraries *)

(** A base-58 text shows its version in front of the bytes; a Bech32 text is
    [bc1], the kind of checksum and the words; the other texts are the bytes. *)
Definition sdk_libs : SdkLibs := {|
  bs58_decode := fun s => Ok (Uint8Array_from (drop 1 s));
  bs58_encode := fun l => (if bool_decide (head l = Some x00) then 49 else 51) :: (bz <$> l);
  lib_bech32_decode := fun s _ => if bool_decide (s !! 3%nat = Some 98) then Ok (js "bc", drop 4 s) else Err "checksum";
  lib_bech32m_decode := fun s _ => if bool_decide (s !! 3%nat = Some 109) then Ok (js "bc", drop 4 s) else Err "checksum";
  lib_bech32_encode := fun hrp ws => if forallb (in_range 0 31) ws then Ok (hrp ++ js "1b" ++ ws) else Err "word";
  lib_bech32m_encode := fun hrp ws => if forallb (in_range 0 31) ws then Ok (hrp ++ js "1m" ++ ws) else Err "word";
  lib_fromWords := fun ws => Ok (Uint8Array_from ws);
  lib_toWords := fun l => bz <$> l;
  hash256 := toy_hash;
  ton_parse := fun s => Ok (0, Uint8Array_from s);
  ton_toRawString := fun _ l => bz <$> l;
  tronweb_toHex := Ok; tronweb_fromHex := Ok;
  isValidXAddress := fun _ => false;
  xAddressToClassicAddress := fun s => Ok (s, None);
  isValidClassicAddress := fun _ => true;
  decodeAccountID := fun s => Ok (Uint8Array_from s);
  encodeAccountID := fun l => Ok (bz <$> l);
  bech32m_of_undefined := Err "undefined";
  large_toString := fun _ => [] |}.

Lemma length_toy_hash l : length (toy_hash l) = 32%nat.
Proof. apply length_pad32. Qed.
Lemma sdk_libs_laws : SdkLibsLaws sdk_libs.
Proof.
  assert (forall ws, forallb (in_range 0 31) ws = true -> toLowerCase ws = ws) as Hlow.
  { intros ws Hf. apply toLowerCase_id. apply forallb_Forall in Hf. eapply Forall_impl; [exact Hf|]. intros c Hc. cbn in Hc. char_solve. }
  assert (forall l, Ok (Uint8Array_from (bz <$> l)) = Ok l) as Hback by (intros l; by rewrite Uint8Array_from_bz).
  split; cbn.
  - exact Hback.
  - intros l _ E. unfold startsWith. cbn. by rewrite E.
  - intros l _ E. unfold startsWith. cbn. by rewrite E.
  - intros ws s. destruct (forallb _ ws) eqn:E; [|done]. intros [= <-]. split_and!; [done| |done].
    change (toLowerCase ([98; 99; 49; 98] ++ ws) = [98; 99; 49; 98] ++ ws). unfold toLowerCase. rewrite fmap_app. f_equal. by apply Hlow.
  - intros ws s. destruct (forallb _ ws) eqn:E; [|done]. intros [= <-]. split_and!; [done| |done..].
    change (toLowerCase ([98; 99; 49; 109] ++ ws) = [98; 99; 49; 109] ++ ws). unfold toLowerCase. rewrite fmap_app. f_equal. by apply Hlow.
  - exact Hback.
  - apply length_toy_hash.
  - intros l _. by rewrite Uint8Array_from_bz.
  - intros a s _ [= <-]. done.
  - intros l s [= <-]. split_and!; [done|done|apply Hback].
Qed.

(** viem, with a hash that keeps the first bytes. *)
Definition sdk_viem : DepositAttestation.Viem := {|
  getAddress := Ok;
  hashTypedData := fun _ => Err "unused";
  hashMessage_raw := fun _ => Err "unused";
  keccak256_bytes := fun l => js "0x" ++ bytesToHex (toy_hash l);
  keccak256_hex := fun s => l ← hexToBytes s "hex"; Ok (js "0x" ++ bytesToHex (toy_hash l));
  encodeAbiParameters := fun _ _ => Ok (js "0x00");
  encodePacked_string_bytes := fun c h => l ← hexToBytes h "hex"; Ok (js "0x" ++ bytesToHex (TextEncoder_encode c ++ l));
  hashStruct := fun _ _ o => Ok (or_salt o);
  secp256k1_recover := fun _ _ _ _ => Err "unused" |}.
Lemma sdk_viem_laws : HubHashLaws sdk_viem toy_hash.
Proof.
  split; cbn [encodePacked_string_bytes keccak256_hex sdk_viem].
  - apply length_toy_hash.
  - intros c l. by rewrite hexToBytes_0x.
  - intros l. by rewrite hexToBytes_0x.
Qed.

Lemma sdk_address_witness :
  @encodeAddress concrete_viem sdk_libs (js "12345") lighter_vm = Ok (zeros 14 ++ [x30; x39]) /\
  @encodeAddress concrete_viem sdk_libs (js "0.0.456858") hedera_vm = Ok (zeros 17 ++ [x06; xf8; x9a]).
Proof.
  pose proof concrete_viem_laws. pose proof sdk_libs_laws. split.
  - apply (sdk_address_roundtrip (V := concrete_viem) (L := sdk_libs) lighter_vm); [split; [reflexivity|vm_compute; discriminate]|vm_compute; reflexivity].
  - apply (sdk_address_roundtrip (V := concrete_viem) (L := sdk_libs) hedera_vm); [exact I|vm_compute; reflexivity].
Defined.

Definition hub_token (chain address : jsstring) : HubComponents := {|
  hb_family := ethereum_vm; hb_chainId := chain; hb_address := address |}.
Lemma token_id_witness :
  let c := hub_token (js "base") (js "0x" ++ replicate 40 97) in
  let d := hub_token (js "base") (js "0x" ++ replicate 40 65) in
  exists n, @generateTokenId concrete_viem sdk_libs sdk_viem c = Ok n /\ 0 <= n < 2 ^ 256 /\
    ((exists p q, p <> q /\ toy_hash p = toy_hash q) \/
     TextEncoder_encode (hb_chainId c) = TextEncoder_encode (hb_chainId d) /\
     @encodeAddress concrete_viem sdk_libs (hb_address c) (hb_family c) = @encodeAddress concrete_viem sdk_libs (hb_address d) (hb_family d)).
Proof.
  intros c d. pose proof sdk_viem_laws. destruct (@generateTokenId concrete_viem sdk_libs sdk_viem c) as [n|] eqn:Hc; [|vm_compute in Hc; discriminate].
  exists n. split; [reflexivity|].
  apply (token_id_binds (V := concrete_viem) (L := sdk_libs) (D := sdk_viem) toy_hash c d n Hc).
  - rewrite <- Hc. vm_compute. reflexivity.
  - intros _. reflexivity.
Defined.

Definition sample_fee : OrderFee := {|
  fe_recipientChainId := js "hedera"; fe_recipient := js "0.0.456858"; fe_currencyChainId := js "base";
  fe_currency := js "0x" ++ replicate 40 65; fe_amount := js "7" |}.
Definition sample_order : Order := {|
  or_version := js "v1"; or_solverChainId := js "base"; or_solver := js "0x00"; or_salt := js "42"; or_inputs := [];
  or_output := {| oo_chainId := js "base"; oo_payments := []; oo_calls := []; oo_deadline := 0; oo_extraData := js "0x" |};
  or_fees := [sample_fee] |}.
Definition sample_chains : ChainIdToVmType := fun c =>
  if bool_decide (c = js "base") then Some ethereum_vm else if bool_decide (c = js "hedera") then Some hedera_vm else None.
Lemma action_port_witness :
  match @normalizeOrder concrete_viem sdk_libs sample_order sample_chains with
  | Ok n => (fe_currency <$> or_fees n) = [js "0x" ++ replicate 40 97] /\
      @DepositAttestation.getOrderId sdk_viem n = @sdk_getOrderId concrete_viem sdk_libs sdk_viem sample_order sample_chains
  | Err _ => False
  end.
Proof.
  pose proof sdk_viem_laws.
  destruct (@normalizeOrder concrete_viem sdk_libs sample_order sample_chains) as [n|] eqn:Hn; [|vm_compute in Hn; discriminate].
  split.
  - vm_compute in Hn. assert (n = _) as -> by (symmetry; injection Hn as Hn; exact Hn). reflexivity.
  - apply (action_port_agrees (V := concrete_viem) (L := sdk_libs) (D := sdk_viem) toy_hash). exact Hn.
Defined.
