(* ===== verification/IndexerWorld.v ===== *)
(** * The indexer's world

    The tables of packages/indexer (src/migrations) as finite maps keyed by
    their unique constraints, and computations that read and write them.  A
    computation runs against an explicit world: the database, a clock that
    counts the external calls made, and the in-process caches.  An external
    call is an SQL statement or an RPC; the outcome of the call made at time
    [t] is chosen by the environment, so a program is studied under every
    schedule of failures and every sequence of chain responses.  A failed
    statement may or may not have been applied.  The columns [created_at],
    [updated_at] and [balance_scaled] and the serial ids are not modelled. *)

From S2P Require Import Prelude JsNum JsString.
Local Open Scope Z_scope.
Local Open Scope js_scope.

(** ** Logs and rows *)

Record Log := { lg_block : Z; lg_tx : jsstring; lg_index : Z; lg_topics : list jsstring; lg_data : jsstring }.

Record TokenRow := {
  tk_name : option jsstring; tk_symbol : option jsstring; tk_decimals : option Z;
  tk_originFamily : option jsstring; tk_originChainId : option jsstring; tk_originAsset : option jsstring;
  tk_totalSupply : Z; tk_holders : Z; tk_transfers : Z }.
Record BalanceRow := { bl_balance : Z; bl_last : option Z }.
Record EventRow := {
  ev_block : Z; ev_operator : jsstring; ev_from : jsstring; ev_to : jsstring;
  ev_token : jsstring; ev_amount : Z; ev_timestamp : Z }.
Record FailedRow := { fl_topics : list jsstring; fl_data : jsstring; fl_error : string; fl_retries : Z }.
Record RoleEventRow := {
  re_block : Z; re_type : jsstring; re_role : jsstring; re_account : option jsstring; re_sender : option jsstring;
  re_previousAdmin : option jsstring; re_newAdmin : option jsstring; re_timestamp : Z }.
Record OracleRow := {
  or_block : Z; or_timestamp : Z; or_contract : jsstring; or_key : jsstring; or_actions : list jsstring;
  or_submitted : option jsstring; or_signature : jsstring }.

(** An oracle transaction decoded from its call data. *)
Record DecodedOracleExecution := {
  de_key : jsstring; de_actions : list jsstring; de_signature : jsstring; de_index : nat }.
Record DecodedOracleTransaction := {
  dt_method : jsstring; dt_submitted : option jsstring; dt_executions : list DecodedOracleExecution }.

(** Keys: (address, token), (tx hash, log index), (contract, block, log index,
    tx hash), (contract, tx hash, log index), (contract, role, account). *)
Record Db := {
  tokens : gmap jsstring TokenRow;
  balances : gmap (jsstring * jsstring) BalanceRow;
  events : gmap (jsstring * Z) EventRow;
  failed_events : gmap (jsstring * Z * Z * jsstring) FailedRow;
  role_events : gmap (jsstring * jsstring * Z) RoleEventRow;
  role_members : gset (jsstring * jsstring * jsstring);
  role_admins : gmap (jsstring * jsstring) jsstring;
  oracle_executions : gmap (jsstring * Z) OracleRow;
  meta : gmap jsstring jsstring }.

Definition set_tokens f d := {| tokens := f (tokens d); balances := balances d; events := events d;
  failed_events := failed_events d; role_events := role_events d; role_members := role_members d;
  role_admins := role_admins d; oracle_executions := oracle_executions d; meta := meta d |}.
Definition set_balances f d := {| tokens := tokens d; balances := f (balances d); events := events d;
  failed_events := failed_events d; role_events := role_events d; role_members := role_members d;
  role_admins := role_admins d; oracle_executions := oracle_executions d; meta := meta d |}.
Definition set_events f d := {| tokens := tokens d; balances := balances d; events := f (events d);
  failed_events := failed_events d; role_events := role_events d; role_members := role_members d;
  role_admins := role_admins d; oracle_executions := oracle_executions d; meta := meta d |}.
Definition set_failed f d := {| tokens := tokens d; balances := balances d; events := events d;
  failed_events := f (failed_events d); role_events := role_events d; role_members := role_members d;
  role_admins := role_admins d; oracle_executions := oracle_executions d; meta := meta d |}.
Definition set_role_events f d := {| tokens := tokens d; balances := balances d; events := events d;
  failed_events := failed_events d; role_events := f (role_events d); role_members := role_members d;
  role_admins := role_admins d; oracle_executions := oracle_executions d; meta := meta d |}.
Definition set_role_members f d := {| tokens := tokens d; balances := balances d; events := events d;
  failed_events := failed_events d; role_events := role_events d; role_members := f (role_members d);
  role_admins := role_admins d; oracle_executions := oracle_executions d; meta := meta d |}.
Definition set_role_admins f d := {| tokens := tokens d; balances := balances d; events := events d;
  failed_events := failed_events d; role_events := role_events d; role_members := role_members d;
  role_admins := f (role_admins d); oracle_executions := oracle_executions d; meta := meta d |}.
Definition set_oracle f d := {| tokens := tokens d; balances := balances d; events := events d;
  failed_events := failed_events d; role_events := role_events d; role_members := role_members d;
  role_admins := role_admins d; oracle_executions := f (oracle_executions d); meta := meta d |}.
Definition set_meta f d := {| tokens := tokens d; balances := balances d; events := events d;
  failed_events := failed_events d; role_events := role_events d; role_members := role_members d;
  role_admins := role_admins d; oracle_executions := oracle_executions d; meta := f (meta d) |}.

(** ** Computations *)

(** [w_cache] is the block-timestamp cache, [w_txs] the cache of decoded
    oracle transactions; [w_updated] is the local variable
    [updated] of [refreshAddressBalances], which a transaction body increments:
    a rollback does not restore it. *)
Record World := { w_db : Db; w_time : nat; w_cache : gmap Z Z; w_updated : Z;
  w_txs : gmap jsstring (list DecodedOracleTransaction) }.

(** The world after an external call that leaves the database [d]. *)
Definition advance (d : Db) (w : World) : World :=
  {| w_db := d; w_time := S (w_time w); w_cache := w_cache w; w_updated := w_updated w; w_txs := w_txs w |}.

Definition M (A : Type) : Type := World -> result A * World.
#[export] Instance M_ret : MRet M := fun A a w => (Ok a, w).
#[export] Instance M_bind : MBind M := fun A B f c w =>
  match c w with (Ok a, w') => f a w' | (Err e, w') => (Err e, w') end.

Definition throwM {A} (e : string) : M A := fun w => (Err e, w).
(** [try { c } catch (e) { h(e) }]. *)
Definition try_catch {A} (c : M A) (h : string -> M A) : M A := fun w =>
  match c w with (Ok a, w') => (Ok a, w') | (Err e, w') => h e w' end.
(** [for (const x of l) await f(x)]. *)
Fixpoint forM_ {A} (l : list A) (f : A -> M unit) : M unit :=
  match l with [] => mret tt | x :: l' => f x ≫= fun _ => forM_ l' f end.
Fixpoint foldM {A S} (f : S -> A -> M S) (s : S) (l : list A) : M S :=
  match l with [] => mret s | x :: l' => s' ← f s x; foldM f s' l' end.
Fixpoint mapMM {A B} (f : A -> M B) (l : list A) : M (list B) :=
  match l with [] => mret [] | x :: l' => y ← f x; ys ← mapMM f l'; mret (y :: ys) end.
Definition getCache : M (gmap Z Z) := fun w => (Ok (w_cache w), w).
Definition setCache (k v : Z) : M unit := fun w =>
  (Ok tt, {| w_db := w_db w; w_time := w_time w; w_cache := <[k := v]> (w_cache w);
            w_updated := w_updated w; w_txs := w_txs w |}).
Definition getUpdated : M Z := fun w => (Ok (w_updated w), w).
Definition setUpdated (n : Z) : M unit := fun w =>
  (Ok tt, {| w_db := w_db w; w_time := w_time w; w_cache := w_cache w; w_updated := n; w_txs := w_txs w |}).
Definition getTxs : M (gmap jsstring (list DecodedOracleTransaction)) := fun w => (Ok (w_txs w), w).
Definition setTxs (m : gmap jsstring (list DecodedOracleTransaction)) : M unit := fun w =>
  (Ok tt, {| w_db := w_db w; w_time := w_time w; w_cache := w_cache w; w_updated := w_updated w; w_txs := m |}).

(** The environment's part of the database: whether the statement issued at
    time [t] fails, with which message, and whether it was applied anyway. *)
Class Faults := sql_fault : nat -> option (string * bool).

Section Statements.
Context `{F : Faults}.

Definition sql {A} (f : Db -> A * Db) : M A := fun w =>
  let '(a, d) := f (w_db w) in
  match sql_fault (w_time w) with
  | None => (Ok a, advance d w)
  | Some (e, applied) => (Err e, advance (if applied : bool then d else w_db w) w)
  end.
Definition query {A} (f : Db -> A) : M A := sql (fun d => (f d, d)).
Definition execute (f : Db -> Db) : M unit := sql (fun d => (tt, f d)).

(** [db.tx(body)]: the statements of a body that throws are rolled back; the
    commit is a statement of its own. *)
Definition tx {A} (body : M A) : M A := fun w =>
  match body w with
  | (Ok a, w') =>
      match sql_fault (w_time w') with
      | None => (Ok a, advance (w_db w') w')
      | Some (e, applied) => (Err e, advance (if applied : bool then w_db w' else w_db w) w')
      end
  | (Err e, w') => (Err e, advance (w_db w) w')
  end.
End Statements.

(** An RPC, answered by the environment. *)
Definition rpc {A} (f : nat -> result A) : M A := fun w => (f (w_time w), advance (w_db w) w).

(** ** Reasoning about computations *)

(** [wp c Q E w]: from [w], a normal return satisfies [Q] and an exception
    satisfies [E]. *)
Definition wp {A} (c : M A) (Q : A -> World -> Prop) (E : string -> World -> Prop) (w : World) : Prop :=
  match c w with (Ok a, w') => Q a w' | (Err e, w') => E e w' end.

Section Wp.
Context {A B : Type}.
Implicit Types (c : M A) (w : World).

Lemma wp_conseq c (Q Q' : A -> World -> Prop) (E E' : string -> World -> Prop) w :
  wp c Q E w -> (forall a w', Q a w' -> Q' a w') -> (forall e w', E e w' -> E' e w') -> wp c Q' E' w.
Proof. unfold wp. destruct (c w) as [[a|e] w']; auto. Qed.

Lemma wp_and c (Q1 Q2 : A -> World -> Prop) (E1 E2 : string -> World -> Prop) w :
  wp c Q1 E1 w -> wp c Q2 E2 w -> wp c (fun a w' => Q1 a w' /\ Q2 a w') (fun e w' => E1 e w' /\ E2 e w') w.
Proof. unfold wp. by destruct (c w) as [[a|e] w']. Qed.

Lemma wp_ret (a : A) Q E w : Q a w -> wp (mret a) Q E w.
Proof. done. Qed.

Lemma wp_throw e (Q : A -> World -> Prop) (E : string -> World -> Prop) w : E e w -> wp (throwM e) Q E w.
Proof. done. Qed.

Lemma wp_bind c (f : A -> M B) Q E w : wp c (fun a => wp (f a) Q E) E w -> wp (c ≫= f) Q E w.
Proof. unfold wp, mbind, M_bind. by destruct (c w) as [[a|e] w']. Qed.

Lemma wp_try c h Q E w : wp c Q (fun e => wp (h e) Q E) w -> wp (try_catch c h) Q E w.
Proof. unfold wp, try_catch. by destruct (c w) as [[a|e] w']. Qed.

Lemma wp_rpc (f : nat -> result A) (Q : A -> World -> Prop) (E : string -> World -> Prop) w :
  (forall a, f (w_time w) = Ok a -> Q a (advance (w_db w) w)) ->
  (forall e, f (w_time w) = Err e -> E e (advance (w_db w) w)) ->
  wp (rpc f) Q E w.
Proof. intros HQ HE. unfold wp, rpc. destruct (f (w_time w)) eqn:Hf; [by apply HQ|by apply HE]. Qed.

Context `{F : Faults}.

Lemma wp_sql (f : Db -> A * Db) (Q : A -> World -> Prop) (E : string -> World -> Prop) w :
  Q (f (w_db w)).1 (advance (f (w_db w)).2 w) ->
  (forall e, E e (advance (f (w_db w)).2 w)) ->
  (forall e, E e (advance (w_db w) w)) ->
  wp (sql f) Q E w.
Proof.
  intros HQ HE HE'. unfold wp, sql. destruct (f (w_db w)) as [a d].
  destruct (sql_fault (w_time w)) as [[e []]|]; cbn in *; auto.
Qed.

(** An exception of the body never leaves its statements behind. *)
Lemma wp_tx c (Q : A -> World -> Prop) (E : string -> World -> Prop) w :
  wp c (fun a w' => Q a (advance (w_db w') w') /\
                    (forall e, E e (advance (w_db w') w')) /\ (forall e, E e (advance (w_db w) w')))
       (fun e w' => E e (advance (w_db w) w')) w ->
  wp (tx c) Q E w.
Proof.
  unfold wp, tx. destruct (c w) as [[a|e] w']; [|auto].
  intros (HQ & HE & HE'). destruct (sql_fault (w_time w')) as [[e []]|]; auto.
Qed.

End Wp.

Section Loops.
Context {A X : Type}.

(** Loops keep an invariant of the world. *)
Lemma wp_forM_ (I : World -> Prop) (f : X -> M unit) (E : string -> World -> Prop) l w :
  I w -> (forall x w, x ∈ l -> I w -> wp (f x) (fun _ => I) E w) -> wp (forM_ l f) (fun _ => I) E w.
Proof using.
  intros Hw Hf. revert w Hw. induction l as [|x l IH]; intros w Hw; [done|]. cbn [forM_].
  apply wp_bind. eapply wp_conseq; [apply Hf; [left|done]| |done].
  intros [] w' Hw'. apply IH; [|done]. intros y w'' Hy. apply Hf. by right.
Qed.

Lemma wp_mapMM (I : World -> Prop) (R : X -> A -> Prop) (f : X -> M A) (E : string -> World -> Prop) l w :
  I w -> (forall x w, x ∈ l -> I w -> wp (f x) (fun a w' => I w' /\ R x a) E w) ->
  wp (mapMM f l) (fun k w' => I w' /\ Forall2 R l k) E w.
Proof using.
  intros Hw Hf. revert w Hw. induction l as [|x l IH]; intros w Hw; [by split; [|constructor]|]. cbn [mapMM].
  apply wp_bind. eapply wp_conseq; [apply Hf; [left|done]| |done]. intros a w' [Hw' Ha].
  apply wp_bind. eapply wp_conseq; [apply IH; [|done]| |done].
  { intros y w'' Hy. apply Hf. by right. }
  intros k w'' [Hw'' Hk]. apply wp_ret. by split; [|constructor].
Qed.

Lemma wp_foldM_from (I : list X -> A -> World -> Prop) (f : A -> X -> M A) (E : string -> World -> Prop) l pre s w :
  I pre s w ->
  (forall p x post s w, pre ++ l = p ++ x :: post -> I p s w -> wp (f s x) (I (p ++ [x])) E w) ->
  wp (foldM f s l) (I (pre ++ l)) E w.
Proof using.
  revert pre s w. induction l as [|x l IH]; intros pre s w Hw Hf.
  - rewrite app_nil_r. by apply wp_ret.
  - cbn [foldM]. apply wp_bind. eapply wp_conseq; [by eapply Hf| |done].
    intros s' w' Hw'. replace (pre ++ x :: l) with ((pre ++ [x]) ++ l) in * by (by rewrite <- app_assoc).
    by apply IH.
Qed.

Lemma wp_foldM (I : list X -> A -> World -> Prop) (f : A -> X -> M A) (E : string -> World -> Prop) l s w :
  I [] s w ->
  (forall p x post s w, l = p ++ x :: post -> I p s w -> wp (f s x) (I (p ++ [x])) E w) ->
  wp (foldM f s l) (I l) E w.
Proof using. apply (wp_foldM_from I f E l [] s w). Qed.
End Loops.

(** ** Relations that every computation keeps

    [keeps R c]: however [c] ends, the database after it is related by [R] to
    the database before. *)
Definition keeps {A} (R : Db -> Db -> Prop) (c : M A) : Prop :=
  forall w, wp c (fun _ w' => R (w_db w) (w_db w')) (fun _ w' => R (w_db w) (w_db w')) w.

Section Keeps.
Context (R : Db -> Db -> Prop) `{!PreOrder R} `{F : Faults}.

Lemma keeps_ret {A} (a : A) : keeps R (mret a).
Proof. intros w. apply wp_ret. reflexivity. Qed.
Lemma keeps_throw {A} e : keeps R (throwM (A := A) e).
Proof. intros w. apply wp_throw. reflexivity. Qed.
Lemma keeps_bind {A B} (c : M A) (f : A -> M B) : keeps R c -> (forall a, keeps R (f a)) -> keeps R (c ≫= f).
Proof.
  intros Hc Hf w. apply wp_bind. eapply wp_conseq; [apply Hc| |done].
  intros a w' Hw. eapply wp_conseq; [apply Hf|intros; cbn in *; by etrans..].
Qed.
Lemma keeps_try {A} (c : M A) h : keeps R c -> (forall e, keeps R (h e)) -> keeps R (try_catch c h).
Proof.
  intros Hc Hh w. apply wp_try. eapply wp_conseq; [apply Hc|done|].
  intros e w' Hw. eapply wp_conseq; [apply Hh|intros; cbn in *; by etrans..].
Qed.
Lemma keeps_rpc {A} (f : nat -> result A) : keeps R (rpc f).
Proof. intros w. apply wp_rpc; intros; cbn; reflexivity. Qed.
Lemma keeps_sql {A} (f : Db -> A * Db) : (forall d, R d (f d).2) -> keeps R (sql f).
Proof. intros Hf w. apply wp_sql; cbn; [apply Hf|intros; apply Hf|intros; reflexivity]. Qed.
Lemma keeps_query {A} (f : Db -> A) : keeps R (query f).
Proof. apply keeps_sql. intros d. cbn. reflexivity. Qed.
Lemma keeps_execute (f : Db -> Db) : (forall d, R d (f d)) -> keeps R (execute f).
Proof. intros Hf. apply keeps_sql. exact Hf. Qed.
Lemma keeps_tx {A} (c : M A) : keeps R c -> keeps R (tx c).
Proof.
  intros Hc w. apply wp_tx. eapply wp_conseq; [apply Hc| |]; cbn.
  - intros _ w' Hw. split_and!; [done|intros; done|intros; reflexivity].
  - intros. reflexivity.
Qed.
Lemma keeps_forM_ {X} (l : list X) f : (forall x, x ∈ l -> keeps R (f x)) -> keeps R (forM_ l f).
Proof.
  intros Hf. induction l as [|x l IH]; [apply keeps_ret|]. apply keeps_bind; [apply Hf; left|].
  intros _. apply IH. intros y Hy. apply Hf. by right.
Qed.
(** What a computation returns may be used by its continuation. *)
Lemma keeps_bind_post {A B} (P : A -> Prop) (c : M A) (f : A -> M B) :
  (forall w, wp c (fun a w' => R (w_db w) (w_db w') /\ P a) (fun _ w' => R (w_db w) (w_db w')) w) ->
  (forall a, P a -> keeps R (f a)) -> keeps R (c ≫= f).
Proof.
  intros Hc Hf w. apply wp_bind. eapply wp_conseq; [apply Hc| |done].
  intros a w' [Hw Ha]. eapply wp_conseq; [by apply Hf|intros; cbn in *; by etrans..].
Qed.
Lemma keeps_foldM {X S} (f : S -> X -> M S) s l : (forall s x, keeps R (f s x)) -> keeps R (foldM f s l).
Proof.
  intros Hf. revert s. induction l as [|x l IH]; intros s; [apply keeps_ret|]. apply keeps_bind; [apply Hf|done].
Qed.
Lemma keeps_mapMM {X A} (f : X -> M A) l : (forall x, keeps R (f x)) -> keeps R (mapMM f l).
Proof.
  intros Hf. induction l as [|x l IH]; [apply keeps_ret|].
  apply keeps_bind; [apply Hf|]. intros y. apply keeps_bind; [done|]. intros ys. apply keeps_ret.
Qed.
Lemma keeps_getCache : keeps R getCache.
Proof. intros w. cbn. reflexivity. Qed.
Lemma keeps_setCache k v : keeps R (setCache k v).
Proof. intros w. cbn. reflexivity. Qed.
Lemma keeps_getUpdated : keeps R getUpdated.
Proof. intros w. cbn. reflexivity. Qed.
Lemma keeps_setUpdated n : keeps R (setUpdated n).
Proof. intros w. cbn. reflexivity. Qed.
Lemma keeps_getTxs : keeps R getTxs.
Proof. intros w. cbn. reflexivity. Qed.
Lemma keeps_setTxs m : keeps R (setTxs m).
Proof. intros w. cbn. reflexivity. Qed.
End Keeps.

Create HintDb keeps.
#[export] Hint Resolve keeps_ret keeps_throw keeps_rpc keeps_query keeps_tx keeps_getCache keeps_setCache
  keeps_getUpdated keeps_setUpdated keeps_getTxs keeps_setTxs : keeps.

(** Decompose a computation down to its statements. *)
Ltac keeps_step :=
  lazymatch goal with
  | |- forall _, _ => intros ?
  | |- keeps _ (match ?x with _ => _ end) => destruct x
  | |- keeps _ (let _ := _ in _) => cbv zeta
  | |- keeps ?R (?c ≫= ?f) => apply keeps_bind; [typeclasses eauto| |]
  | |- keeps _ (try_catch _ _) => apply keeps_try; [typeclasses eauto| |]
  | |- keeps _ (forM_ _ _) => apply keeps_forM_; [typeclasses eauto|]
  | |- keeps _ (foldM _ _ _) => apply keeps_foldM; [typeclasses eauto|]
  | |- keeps _ (mapMM _ _) => apply keeps_mapMM; [typeclasses eauto|]
  | |- keeps _ (tx _) => apply keeps_tx; [typeclasses eauto|]
  | |- keeps _ _ => solve [eauto with keeps typeclass_instances]
  end.
Ltac keeps_auto := repeat keeps_step.
