(* ===== verification/IndexerTransfers.v ===== *)
(** * Transfer processing

    packages/indexer/src/services/transferProcessor.ts, utils.ts and retry.ts,
    protocol/transferSemantics.ts and db/meta.ts.  The hub contract, the
    provider and the ABI decoder of ethers are operations of [Chain]. *)

From S2P Require Import Prelude JsNum JsString IndexerWorld.
Local Open Scope Z_scope.
Local Open Scope js_scope.

(** ** The chain, as the indexer reads it *)

(** An argument of a decoded event. *)
Inductive JsArg := AString (s : jsstring) | ABigint (z : Z) | AMissing.
Record ParsedLog := { pl_name : jsstring; pl_named : string -> JsArg; pl_pos : nat -> JsArg }.

(** [metadata.originFamily ?? metadata[3]] and so on. *)
Record Metadata := { md_family : option jsstring; md_chainId : option jsstring; md_asset : option jsstring }.

Class Chain := {
  hub_name : nat -> jsstring -> result jsstring;
  hub_symbol : nat -> jsstring -> result jsstring;
  hub_decimals : nat -> jsstring -> result Z;
  hub_tokenMetadata : nat -> jsstring -> result Metadata;
  hub_balanceOf : nat -> jsstring -> jsstring -> result Z;
  hub_totalSupply : nat -> jsstring -> result Z;
  provider_getBlock : nat -> Z -> result (option Z);
  hub_parseLog : list jsstring -> jsstring -> result (option ParsedLog);
  (** The [code] of the error object with this message. *)
  pg_code : string -> jsstring;
}.

(** ** retry.ts *)

Definition RETRY_MAX : nat := 5.
Definition RETRYABLE_PG_ERROR_CODES : list jsstring := [js "40001"; js "40P01"; js "55P03"].

(** [s.includes(p)]. *)
Fixpoint includes (s p : jsstring) : bool :=
  startsWith s p || match s with [] => false | _ :: s' => includes s' p end.

Section Retry.
Context `{C : Chain}.

Definition isRetryablePgError (e : string) : bool :=
  let message := toLowerCase (js e) in
  bool_decide (pg_code e ∈ RETRYABLE_PG_ERROR_CODES) ||
  includes message (js "could not serialize access") ||
  includes message (js "deadlock detected") ||
  includes message (js "lock not available").

(** [left] retries remain; the sleep between attempts has no effect. *)
Fixpoint retry_loop {A} (left : nat) (fn : M A) : M A :=
  try_catch fn (fun e =>
    if negb (isRetryablePgError e) then throwM e
    else match left with O => throwM e | S l => retry_loop l fn end).
Definition runWithRetry {A} (fn : M A) : M A := retry_loop RETRY_MAX fn.
End Retry.

(** ** transferSemantics.ts *)

Inductive ProtocolTransferType := mint | transfer | burn.
Inductive RelayOperation := Uniform (t : ProtocolTransferType) | Mixed.
#[export] Instance transferType_eq_dec : EqDecision ProtocolTransferType.
Proof. solve_decision. Defined.

Definition ZERO_ADDRESS_LOWERCASE : jsstring := js "0x" ++ replicate 40 48.
Definition isZeroAddress (a : jsstring) : bool := bool_decide (toLowerCase a = ZERO_ADDRESS_LOWERCASE).

Definition getProtocolTransferType (fromAddress toAddress : jsstring) : ProtocolTransferType :=
  if isZeroAddress fromAddress then mint else if isZeroAddress toAddress then burn else transfer.

(** The size of the set of types is compared with 1. *)
Definition deriveRelayOperation (types : list ProtocolTransferType) : RelayOperation :=
  match types with
  | t :: _ => if Nat.eqb (length (remove_dups types)) 1 then Uniform t else Mixed
  | [] => Mixed
  end.

(** ** db/meta.ts *)

Section Store.
Context `{F : Faults}.

Definition getMeta (key : jsstring) : M (option jsstring) := query (fun d => meta d !! key).
Definition setMeta (key value : jsstring) : M unit := execute (set_meta <[key := value]>).

(** ** Balances and tokens *)

Definition SKIP_TOKEN_IDS : list jsstring :=
  [js "645919125454048919867832098713637349341491234231283657783660937934976435626"].
Definition shouldSkipTokenId (tokenId : jsstring) : bool := bool_decide (tokenId ∈ SKIP_TOKEN_IDS).

Definition selectToken (tokenId : jsstring) : M (option TokenRow) := query (fun d => tokens d !! tokenId).

Definition balance_of (d : Db) (address tokenId : jsstring) : Z :=
  match balances d !! (address, tokenId) with Some row => bl_balance row | None => 0 end.
Definition getBalance (address tokenId : jsstring) : M Z := query (fun d => balance_of d address tokenId).

(** [last_transfer_at = CASE WHEN EXCLUDED.last_transfer_at IS NOT NULL AND ...]. *)
Definition later_transfer (excluded stored : option Z) : option Z :=
  match excluded, stored with
  | Some x, None => Some x
  | Some x, Some y => Some (if y <? x then x else y)
  | None, _ => stored
  end.

Definition upsert_balance (address tokenId : jsstring) (balance : Z) (timestamp : option Z)
    (m : gmap (jsstring * jsstring) BalanceRow) : gmap (jsstring * jsstring) BalanceRow :=
  <[(address, tokenId) :=
      {| bl_balance := balance;
         bl_last := match m !! (address, tokenId) with
                    | Some row => later_transfer timestamp (bl_last row)
                    | None => timestamp
                    end |}]> m.

Definition setBalance (address tokenId : jsstring) (balance : Z) (timestamp : option Z) : M unit :=
  if balance <=? 0 then execute (set_balances (delete (address, tokenId)))
  else execute (set_balances (upsert_balance address tokenId balance timestamp)).

Definition with_state (totalSupply holders : Z) (r : TokenRow) : TokenRow := {|
  tk_name := tk_name r; tk_symbol := tk_symbol r; tk_decimals := tk_decimals r;
  tk_originFamily := tk_originFamily r; tk_originChainId := tk_originChainId r; tk_originAsset := tk_originAsset r;
  tk_totalSupply := totalSupply; tk_holders := holders; tk_transfers := tk_transfers r |}.
Definition with_transfers (n : Z) (r : TokenRow) : TokenRow := {|
  tk_name := tk_name r; tk_symbol := tk_symbol r; tk_decimals := tk_decimals r;
  tk_originFamily := tk_originFamily r; tk_originChainId := tk_originChainId r; tk_originAsset := tk_originAsset r;
  tk_totalSupply := tk_totalSupply r; tk_holders := tk_holders r; tk_transfers := n |}.

(** [UPDATE tokens SET ... WHERE token_id = $n]: no row, no effect. *)
Definition setTokenState (tokenId : jsstring) (totalSupply holders : Z) : M unit :=
  execute (set_tokens (alter (with_state totalSupply holders) tokenId)).

Definition holder_count (d : Db) (tokenId : jsstring) : Z :=
  Z.of_nat (size (filter (fun p => p.1.2 = tokenId) (balances d))).
Definition getHolderCount (tokenId : jsstring) : M Z := query (fun d => holder_count d tokenId).

Definition event_count (d : Db) (tokenId : jsstring) : Z :=
  Z.of_nat (size (filter (fun p => ev_token p.2 = tokenId) (events d))).
Definition syncTokenTransfersFromEvents (tokenId : jsstring) : M unit :=
  execute (fun d => set_tokens (alter (with_transfers (event_count d tokenId)) tokenId) d).

Context `{C : Chain}.

(** A call whose failure gives [null]. *)
Definition or_null {A} (c : M A) : M (option A) := try_catch (a ← c; mret (Some a)) (fun _ => mret None).

(** [String(x ?? "") || null]. *)
Definition text_or_null (x : option jsstring) : option jsstring :=
  match x with Some [] => None | _ => x end.

Definition new_token (name symbol : option jsstring) (decimals : option Z) (metadata : option Metadata) : TokenRow := {|
  tk_name := Some (default (js "Unknown") name); tk_symbol := symbol; tk_decimals := decimals;
  tk_originFamily := m ← metadata; text_or_null (md_family m);
  tk_originChainId := m ← metadata; text_or_null (md_chainId m);
  tk_originAsset := m ← metadata; text_or_null (md_asset m);
  tk_totalSupply := 0; tk_holders := 0; tk_transfers := 0 |}.

(** [INSERT INTO tokens ... ON CONFLICT(token_id) DO NOTHING]. *)
Definition insert_token (tokenId : jsstring) (row : TokenRow) (m : gmap jsstring TokenRow) : gmap jsstring TokenRow :=
  match m !! tokenId with Some _ => m | None => <[tokenId := row]> m end.

Definition ensureToken (tokenId : jsstring) : M TokenRow :=
  existing ← selectToken tokenId;
  match existing with
  | Some row => mret row
  | None =>
      name ← or_null (rpc (fun t => hub_name t tokenId));
      symbol ← or_null (rpc (fun t => hub_symbol t tokenId));
      decimals ← or_null (rpc (fun t => hub_decimals t tokenId));
      metadata ← or_null (rpc (fun t => hub_tokenMetadata t tokenId));
      let row := new_token name symbol decimals metadata in
      _ ← execute (set_tokens (insert_token tokenId row));
      stored ← selectToken tokenId;
      mret (default row stored)
  end.

Definition with_metadata (name symbol : option jsstring) (decimals : option Z) (metadata : option Metadata)
    (r : TokenRow) : TokenRow := {|
  tk_name := Some (default (js "Unknown") name); tk_symbol := symbol; tk_decimals := decimals;
  tk_originFamily := m ← metadata; text_or_null (md_family m);
  tk_originChainId := m ← metadata; text_or_null (md_chainId m);
  tk_originAsset := m ← metadata; text_or_null (md_asset m);
  tk_totalSupply := tk_totalSupply r; tk_holders := tk_holders r; tk_transfers := tk_transfers r |}.

Definition refreshTokenMetadata (tokenId : jsstring) : M unit :=
  name ← or_null (rpc (fun t => hub_name t tokenId));
  symbol ← or_null (rpc (fun t => hub_symbol t tokenId));
  decimals ← or_null (rpc (fun t => hub_decimals t tokenId));
  metadata ← or_null (rpc (fun t => hub_tokenMetadata t tokenId));
  execute (set_tokens (alter (with_metadata name symbol decimals metadata) tokenId)).

(** [[...new Set(l)]]: first occurrences, in order. *)
Fixpoint js_unique {A} `{EqDecision A} (seen : list A) (l : list A) : list A :=
  match l with
  | [] => []
  | x :: l' => if bool_decide (x ∈ seen) then js_unique seen l' else x :: js_unique (x :: seen) l'
  end.

Definition tracked (addresses : list jsstring) : list jsstring :=
  List.filter (fun a => negb (isZeroAddress a)) (js_unique [] (toLowerCase <$> addresses)).

Definition reconcileTransferStateFromChain (tokenId : jsstring) (addresses : list jsstring)
    (timestamp : option Z) : M unit :=
  _ ← ensureToken tokenId;
  items ← mapMM (fun a => b ← rpc (fun t => hub_balanceOf t a tokenId); mret (a, b)) (tracked addresses);
  _ ← forM_ items (fun item =>
        previous ← getBalance item.1 tokenId;
        if previous =? item.2 then mret tt else setBalance item.1 tokenId item.2 timestamp);
  totalSupply ← rpc (fun t => hub_totalSupply t tokenId);
  holders ← getHolderCount tokenId;
  setTokenState tokenId totalSupply holders.

(** ** [refreshAddressBalances] *)

Record ChainBalance := { cb_token : jsstring; cb_supply : option Z; cb_balance : Z }.

(** One token: nothing is recorded when the balance call fails. *)
Definition read_chain_balance (wallet tokenId : jsstring) : M (list ChainBalance) :=
  balance ← or_null (rpc (fun t => hub_balanceOf t wallet tokenId));
  supply ← or_null (rpc (fun t => hub_totalSupply t tokenId));
  mret (match balance with
        | Some b => [{| cb_token := tokenId; cb_supply := supply; cb_balance := b |}]
        | None => []
        end).

Definition holder_delta (previous balance : Z) : Z :=
  if (previous =? 0) && (0 <? balance) then 1
  else if (0 <? previous) && (balance =? 0) then -1
  else 0.

Definition refresh_item (wallet : jsstring) (item : ChainBalance) : M unit :=
  previous ← getBalance wallet (cb_token item);
  if (previous =? cb_balance item) && bool_decide (cb_supply item = None) then mret tt
  else
    let holderDelta := holder_delta previous (cb_balance item) in
    _ ← (if previous =? cb_balance item then mret tt else setBalance wallet (cb_token item) (cb_balance item) None);
    _ ← (match cb_supply item with
         | Some s => execute (set_tokens (alter (fun r => with_state s (tk_holders r + holderDelta) r) (cb_token item)))
         | None =>
             if holderDelta =? 0 then mret tt
             else execute (set_tokens (alter (fun r => with_state (tk_totalSupply r) (tk_holders r + holderDelta) r)
                                             (cb_token item)))
         end);
    updated ← getUpdated; setUpdated (updated + 1).

(** The batches of five only bound how many calls are in flight. *)
Definition refreshAddressBalances (address : jsstring) : M (jsstring * nat * Z) :=
  let wallet := toLowerCase address in
  ids ← query (fun d => (map_to_list (tokens d)).*1);
  let eligible := List.filter (fun id => negb (shouldSkipTokenId id)) ids in
  found ← mapMM (read_chain_balance wallet) eligible;
  let chainBalances := mjoin found in
  _ ← setUpdated 0;
  _ ← runWithRetry (tx (forM_ chainBalances (refresh_item wallet)));
  updated ← getUpdated;
  mret (wallet, length chainBalances, updated).

(** ** Events *)

Record ParsedTransferLog := { pt_amount : Z; pt_from : jsstring; pt_operator : jsstring; pt_to : jsstring; pt_tokenId : jsstring }.

Definition transferArg (args : ParsedLog) (name : string) (index : nat) : JsArg :=
  match pl_named args name with AMissing => pl_pos args index | a => a end.

Definition arg_toString (a : JsArg) : jsstring :=
  match a with AString s => s | ABigint z => toString10 z | AMissing => [] end.

Definition normalizeTransferArgs (args : ParsedLog) : result (option ParsedTransferLog) :=
  match transferArg args "caller" 0, transferArg args "from" 1, transferArg args "to" 2,
        transferArg args "id" 3, transferArg args "amount" 4 with
  | AString _, AString _, AString _, AMissing, _ | AString _, AString _, AString _, _, AMissing => Ok None
  | AString operator, AString from, AString to, id, amount =>
      a ← BigInt (arg_toString amount);
      Ok (Some {| pt_amount := a; pt_from := from; pt_operator := operator; pt_to := to; pt_tokenId := arg_toString id |})
  | _, _, _, _, _ => Ok None
  end.

Definition parseTransferLog (log : Log) : option ParsedTransferLog :=
  match (parsed ← hub_parseLog (lg_topics log) (lg_data log);
         match parsed with Some p => normalizeTransferArgs p | None => Ok None end) with
  | Ok o => o
  | Err _ => None
  end.

Definition event_key (log : Log) : jsstring * Z := (lg_tx log, lg_index log).
Definition event_row (log : Log) (t : ParsedTransferLog) (timestamp : Z) : EventRow := {|
  ev_block := lg_block log; ev_operator := toLowerCase (pt_operator t); ev_from := toLowerCase (pt_from t);
  ev_to := toLowerCase (pt_to t); ev_token := pt_tokenId t; ev_amount := pt_amount t; ev_timestamp := timestamp |}.

(** [ON CONFLICT(tx_hash, log_index) DO NOTHING RETURNING 1]: the row count. *)
Definition insertEvent (key : jsstring * Z) (row : EventRow) : M Z :=
  sql (fun d => match events d !! key with
                | Some _ => (0, d)
                | None => (1, set_events <[key := row]> d)
                end).

Definition insertParsedTransferLog (t : ParsedTransferLog) (log : Log) (timestamp : Z) : M Z :=
  insertEvent (event_key log) (event_row log t timestamp).

Definition replayTransferLogFromChain (t : ParsedTransferLog) (log : Log) (timestamp : Z) : M Z :=
  inserted ← insertParsedTransferLog t log timestamp;
  _ ← reconcileTransferStateFromChain (pt_tokenId t) [pt_from t; pt_to t] (Some timestamp);
  _ ← syncTokenTransfersFromEvents (pt_tokenId t);
  mret inserted.

Definition failed_key (contractAddress : jsstring) (log : Log) : jsstring * Z * Z * jsstring :=
  (toLowerCase contractAddress, lg_block log, lg_index log, lg_tx log).

(** [ON CONFLICT DO UPDATE SET error = EXCLUDED.error, retry_count = failed_events.retry_count + 1]. *)
Definition upsert_failed (log : Log) (e : string) (old : option FailedRow) : FailedRow :=
  match old with
  | None => {| fl_topics := lg_topics log; fl_data := lg_data log; fl_error := e; fl_retries := 0 |}
  | Some r => {| fl_topics := fl_topics r; fl_data := fl_data r; fl_error := e; fl_retries := fl_retries r + 1 |}
  end.
Definition recordFailedEvent (contractAddress : jsstring) (log : Log) (e : string) : M unit :=
  let k := failed_key contractAddress log in
  execute (fun d => set_failed <[k := upsert_failed log e (failed_events d !! k)]> d).

(** ** utils.ts *)

Definition getBlockTimestamp (blockNumber : Z) : M Z :=
  cache ← getCache;
  match cache !! blockNumber with
  | Some ts => mret ts
  | None =>
      block ← rpc (fun t => provider_getBlock t blockNumber);
      match block with
      | None => throwM "Block not found"
      | Some ts => _ ← setCache blockNumber ts; mret ts
      end
  end.
End Store.
