(* ===== verification/IndexerRoles.v ===== *)
(** * Role events and oracle executions

    packages/indexer/src/services/accessControlProcessor.ts,
    oracleExecutionProcessor.ts, db/oracleExecutions.ts and the
    [processSingleLog] of transferProcessor.ts. *)

From S2P Require Import Prelude JsNum JsString IndexerWorld IndexerTransfers.
Local Open Scope Z_scope.
Local Open Scope js_scope.

(** ** Access control *)

Inductive RoleEventType := RoleGranted | RoleRevoked | RoleAdminChanged.
Record AccessControlEvent := {
  ac_type : RoleEventType; ac_role : option jsstring; ac_account : option jsstring; ac_sender : option jsstring;
  ac_previousAdmin : option jsstring; ac_newAdmin : option jsstring }.

Definition eventType_name (t : RoleEventType) : jsstring :=
  match t with
  | RoleGranted => js "RoleGranted" | RoleRevoked => js "RoleRevoked" | RoleAdminChanged => js "RoleAdminChanged"
  end.

(** The role views of the two contracts. *)
Class AccessChain := {
  hasRole : nat -> jsstring -> jsstring -> jsstring -> result bool;
  getRoleAdmin : nat -> jsstring -> jsstring -> result jsstring;
}.

Definition arg_string (a : JsArg) : option jsstring :=
  match a with AString s => Some s | ABigint z => Some (toString10 z) | AMissing => None end.

Section Access.
Context `{F : Faults, C : Chain, AC : AccessChain}.

Definition parseAccessControlLog (log : Log) : option AccessControlEvent :=
  match hub_parseLog (lg_topics log) (lg_data log) with
  | Ok (Some p) =>
      let arg name := arg_string (pl_named p name) in
      let membership ty := Some {| ac_type := ty; ac_role := arg "role"; ac_account := arg "account";
                                   ac_sender := arg "sender"; ac_previousAdmin := None; ac_newAdmin := None |} in
      if bool_decide (pl_name p = js "RoleGranted") then membership RoleGranted
      else if bool_decide (pl_name p = js "RoleRevoked") then membership RoleRevoked
      else if bool_decide (pl_name p = js "RoleAdminChanged") then
        Some {| ac_type := RoleAdminChanged; ac_role := arg "role"; ac_account := None; ac_sender := None;
                ac_previousAdmin := arg "previousAdminRole"; ac_newAdmin := arg "newAdminRole" |}
      else None
  | _ => None
  end.

Definition role_key (contractAddress : jsstring) (log : Log) : jsstring * jsstring * Z :=
  (toLowerCase contractAddress, lg_tx log, lg_index log).

(** [role] is a NOT NULL column; [ON CONFLICT ... DO NOTHING RETURNING 1]. *)
Definition insertRoleEvent (contractAddress : jsstring) (log : Log) (timestamp : Z) (event : AccessControlEvent) : M Z :=
  match ac_role event with
  | None => throwM "null value in column role"
  | Some role =>
      let k := role_key contractAddress log in
      let row := {| re_block := lg_block log; re_type := eventType_name (ac_type event); re_role := role;
                    re_account := toLowerCase <$> ac_account event; re_sender := toLowerCase <$> ac_sender event;
                    re_previousAdmin := ac_previousAdmin event; re_newAdmin := ac_newAdmin event;
                    re_timestamp := timestamp |} in
      sql (fun d => match role_events d !! k with
                    | Some _ => (0, d)
                    | None => (1, set_role_events <[k := row]> d)
                    end)
  end.

Definition upsertRoleMember (contractAddress role account : jsstring) : M unit :=
  execute (set_role_members (fun s => {[(toLowerCase contractAddress, role, toLowerCase account)]} ∪ s)).
Definition deleteRoleMember (contractAddress role account : jsstring) : M unit :=
  execute (set_role_members (fun s => s ∖ {[(toLowerCase contractAddress, role, toLowerCase account)]})).
Definition upsertRoleAdmin (contractAddress role adminRole : jsstring) : M unit :=
  execute (set_role_admins <[(toLowerCase contractAddress, role) := adminRole]>).

(** [undefined] and the empty string are falsy. *)
Definition truthy (s : option jsstring) : option jsstring :=
  match s with Some [] => None | _ => s end.

Definition applyRoleEvent (contractAddress : jsstring) (event : AccessControlEvent) : M unit :=
  let role := default [] (ac_role event) in
  match ac_type event with
  | RoleGranted => match truthy (ac_account event) with
                   | None => mret tt | Some a => upsertRoleMember contractAddress role a end
  | RoleRevoked => match truthy (ac_account event) with
                   | None => mret tt | Some a => deleteRoleMember contractAddress role a end
  | RoleAdminChanged => match truthy (ac_newAdmin event) with
                        | None => mret tt | Some a => upsertRoleAdmin contractAddress role a end
  end.

Definition reconcileRoleStateFromChain (contractAddress : jsstring) (event : AccessControlEvent) : M unit :=
  let role := default [] (ac_role event) in
  match ac_type event with
  | RoleAdminChanged =>
      adminRole ← rpc (fun t => getRoleAdmin t contractAddress role);
      upsertRoleAdmin contractAddress role adminRole
  | _ =>
      match truthy (ac_account event) with
      | None => mret tt
      | Some account =>
          has ← rpc (fun t => hasRole t contractAddress role account);
          if has : bool then upsertRoleMember contractAddress role account
          else deleteRoleMember contractAddress role account
      end
  end.

Definition processSingleLog (contractAddress : jsstring) (log : Log) (timestamp : Z) : M unit :=
  runWithRetry (tx (
    match parseAccessControlLog log with
    | None => mret tt
    | Some event =>
        inserted ← insertRoleEvent contractAddress log timestamp event;
        if inserted =? 0 then mret tt else applyRoleEvent contractAddress event
    end)).
End Access.

(** ** Oracle executions *)

(** A decoded ABI value: a string form or a tuple or array. *)
Inductive EthValue := EText (s : jsstring) | EList (l : list EthValue).
Record ParsedCall := { pc_name : jsstring; pc_inputs : list jsstring; pc_args : list EthValue }.

Class OracleChain := {
  oracle_parseLog : list jsstring -> jsstring -> result (option (jsstring * jsstring * list jsstring));
  oracle_parseTransaction : jsstring -> result (option ParsedCall);
  multicall_parseTransaction : jsstring -> result (option ParsedCall);
  provider_getTransaction : nat -> jsstring -> result (option (option jsstring * jsstring));
}.

Inductive ExecutionEvent := Executed | ExecutionFailed.

(** [String(v)]: an array joins its elements with commas. *)
Fixpoint value_text (v : EthValue) : jsstring :=
  match v with
  | EText s => s
  | EList l => (fix join (l : list EthValue) : jsstring :=
                  match l with [] => [] | [x] => value_text x | x :: l' => value_text x ++ js "," ++ join l' end) l
  end.
Definition value_list (v : EthValue) : list EthValue := match v with EList l => l | EText _ => [] end.
Definition arg_at (args : list EthValue) (i : nat) : EthValue := default (EText []) (args !! i).

Section Oracle.
Context `{F : Faults, OC : OracleChain}.

Definition normalizeActions (values : list EthValue) : list jsstring := (fun v => toLowerCase (value_text v)) <$> values.

(** The tuple [(idempotencyKey, actions)]. *)
Definition normalizeExecutionStruct (execution : EthValue) (executionIndex : nat) (aggregatedSignature : jsstring)
  : DecodedOracleExecution :=
  let fields := value_list execution in
  {| de_key := toLowerCase (value_text (arg_at fields 0));
     de_actions := normalizeActions (value_list (arg_at fields 1));
     de_signature := toLowerCase aggregatedSignature;
     de_index := executionIndex |}.

Definition actionsEqual (left right : list jsstring) : bool := bool_decide (left = right).

Definition parseOracleExecutionLog (log : Log) : option (ExecutionEvent * jsstring * list jsstring) :=
  match oracle_parseLog (lg_topics log) (lg_data log) with
  | Ok (Some (name, key, actions)) =>
      let make ty := Some (ty, toLowerCase key, toLowerCase <$> actions) in
      if bool_decide (name = js "Executed") then make Executed
      else if bool_decide (name = js "ExecutionFailed") then make ExecutionFailed
      else None
  | _ => None
  end.

Fixpoint normalize_all (execs : list EthValue) (sigs : list jsstring) (i : nat) : list DecodedOracleExecution :=
  match execs, sigs with
  | e :: es, s :: ss => normalizeExecutionStruct e i s :: normalize_all es ss (S i)
  | _, _ => []
  end.

Definition decodeOracleTransaction (data : jsstring) : result DecodedOracleTransaction :=
  parsed ← oracle_parseTransaction data;
  parsed ← require parsed "Oracle transaction input could not be decoded";
  let hasOracleArgument := bool_decide (pc_inputs parsed !! 1%nat = Some (js "address")) in
  let signatureArg := arg_at (pc_args parsed) (if hasOracleArgument then 2 else 1)%nat in
  let submitted := if hasOracleArgument then Some (toLowerCase (value_text (arg_at (pc_args parsed) 1))) else None in
  if bool_decide (pc_name parsed = js "execute") then
    Ok {| dt_method := js "execute"; dt_submitted := submitted;
          dt_executions := [normalizeExecutionStruct (arg_at (pc_args parsed) 0) 0 (value_text signatureArg)] |}
  else if bool_decide (pc_name parsed = js "executeMultiple") then
    let signatures := value_text <$> value_list signatureArg in
    let executions := value_list (arg_at (pc_args parsed) 0) in
    fail_if negb (Nat.eqb (length executions) (length signatures)) with "Oracle batch decode mismatch" ;;
    Ok {| dt_method := js "executeMultiple"; dt_submitted := submitted;
          dt_executions := normalize_all executions signatures 0 |}
  else throw "Unsupported oracle transaction method".

(** The calls that decode; an error of one call does not affect the others. *)
Fixpoint decode_calls (callDataIndex : nat) (calls : list EthValue) : list DecodedOracleTransaction :=
  match calls with
  | [] => []
  | c :: cs =>
      match decodeOracleTransaction (value_text (arg_at (value_list c) callDataIndex)) with
      | Ok d => d :: decode_calls callDataIndex cs
      | Err _ => decode_calls callDataIndex cs
      end
  end.

Definition decodeOracleTransactionCalls (transactionTarget : option jsstring) (data oracleContractAddress : jsstring)
  : result (list DecodedOracleTransaction) :=
  let normalizedOracleAddress := toLowerCase oracleContractAddress in
  if bool_decide (toLowerCase <$> transactionTarget = Some normalizedOracleAddress) then
    d ← decodeOracleTransaction data; Ok [d]
  else
    match multicall_parseTransaction data with
    | Ok (Some parsed) =>
        if bool_decide (pc_name parsed = js "aggregate3") || bool_decide (pc_name parsed = js "aggregate3Value") then
          let calls := value_list (arg_at (pc_args parsed) 0) in
          let oracleCalls := List.filter (fun c =>
            bool_decide (toLowerCase (value_text (arg_at (value_list c) 0)) = normalizedOracleAddress)) calls in
          fail_if Nat.eqb (length oracleCalls) 0 with "Multicall3 transaction does not contain an Oracle call" ;;
          let callDataIndex := (if bool_decide (pc_name parsed = js "aggregate3Value") then 3 else 2)%nat in
          let decodedCalls := decode_calls callDataIndex oracleCalls in
          fail_if Nat.eqb (length decodedCalls) 0 with "Multicall3 Oracle calls could not be decoded" ;;
          Ok decodedCalls
        else throw "Oracle transaction target mismatch"
    | _ => throw "Oracle transaction target mismatch"
    end.

(** A failed decoding is not cached. *)
Definition getDecodedOracleTransaction (oracleContractAddress txHash : jsstring) : M (list DecodedOracleTransaction) :=
  cache ← getTxs;
  match cache !! txHash with
  | Some existing => mret existing
  | None =>
      transaction ← rpc (fun t => provider_getTransaction t txHash);
      match transaction with
      | None => throwM "Oracle transaction not found"
      | Some (to, data) =>
          if bool_decide (data = []) then throwM "Oracle transaction missing calldata"
          else match decodeOracleTransactionCalls to data oracleContractAddress with
          | Err e => throwM e
          | Ok decoded => _ ← setTxs (<[txHash := decoded]> cache); mret decoded
          end
      end
  end.

Record NormalizedOracleExecution := {
  no_txHash : jsstring; no_block : Z; no_logIndex : Z; no_timestamp : Z; no_contract : jsstring; no_key : jsstring;
  no_actions : list jsstring; no_submitted : option jsstring; no_signature : jsstring; no_index : nat;
  no_count : nat; no_method : jsstring }.

Definition candidates (ds : list DecodedOracleTransaction) : list (DecodedOracleExecution * DecodedOracleTransaction) :=
  mjoin ((fun d => (fun e => (e, d)) <$> dt_executions d) <$> ds).

Definition processOracleExecutionLog (oracleContractAddress : jsstring) (log : Log) (timestamp : Z)
  : M (option NormalizedOracleExecution) :=
  match parseOracleExecutionLog log with
  | None => throwM "Oracle execution log could not be decoded"
  | Some (ExecutionFailed, _, _) => mret None
  | Some (Executed, key, actions) =>
      decoded ← getDecodedOracleTransaction oracleContractAddress (lg_tx log);
      let matchingKey := List.filter (fun c => bool_decide (de_key c.1 = key)) (candidates decoded) in
      match matchingKey, List.find (fun c => actionsEqual (de_actions c.1) actions) matchingKey with
      | [], _ => throwM "Oracle execution not found in decoded transaction"
      | _, None => throwM "Oracle execution actions mismatch for transaction"
      | _, Some (execution, transaction) =>
          mret (Some {| no_txHash := lg_tx log; no_block := lg_block log; no_logIndex := lg_index log;
                        no_timestamp := timestamp; no_contract := toLowerCase oracleContractAddress; no_key := key;
                        no_actions := actions; no_submitted := dt_submitted transaction;
                        no_signature := de_signature execution; no_index := de_index execution;
                        no_count := length (dt_executions transaction); no_method := dt_method transaction |})
      end
  end.

Definition oracle_row (n : NormalizedOracleExecution) : OracleRow := {|
  or_block := no_block n; or_timestamp := no_timestamp n; or_contract := no_contract n; or_key := no_key n;
  or_actions := no_actions n; or_submitted := no_submitted n; or_signature := no_signature n |}.

Definition insertOracleExecution (n : NormalizedOracleExecution) : M Z :=
  let k := (no_txHash n, no_logIndex n) in
  sql (fun d => match oracle_executions d !! k with
                | Some _ => (0, d)
                | None => (1, set_oracle <[k := oracle_row n]> d)
                end).

Definition processAndStoreOracleExecutionLog (oracleContractAddress : jsstring) (log : Log) (timestamp : Z)
  : M (option NormalizedOracleExecution) :=
  normalized ← processOracleExecutionLog oracleContractAddress log timestamp;
  match normalized with
  | None => mret None
  | Some n => _ ← insertOracleExecution n; mret (Some n)
  end.
End Oracle.
