(* ===== verification/IndexerLanes.v ===== *)
(** * Indexing lanes

    packages/indexer/src/indexer.ts: the lanes with their checkpoints, the
    processing of log batches, the range splitting and the polling loop.  The
    logger, the yields to the event loop and the re-entrancy flag of [poll]
    have no effect on the state modelled here. *)

From S2P Require Import Prelude JsNum JsString JsNumber IndexerWorld IndexerTransfers IndexerRoles.
Local Open Scope Z_scope.
Local Open Scope js_scope.

(** ** JavaScript maps: insertion order, first key kept in place *)

Section JsMap.
Context {K V : Type} `{EqDecision K}.

Fixpoint map_get (k : K) (m : list (K * V)) : option V :=
  match m with [] => None | (k', v) :: m' => if decide (k' = k) then Some v else map_get k m' end.
Fixpoint map_set (k : K) (v : V) (m : list (K * V)) : list (K * V) :=
  match m with
  | [] => [(k, v)]
  | (k', v') :: m' => if decide (k' = k) then (k', v) :: m' else (k', v') :: map_set k v m'
  end.
End JsMap.

(** ** Lanes *)

Record Lane := {
  ln_name : jsstring; ln_contract : jsstring; ln_overlap : option Z; ln_topics : list (list jsstring);
  ln_metaKey : jsstring; ln_legacyKey : option jsstring; ln_start : Z;
  ln_processLog : option (Log -> Z -> M unit); ln_afterBatch : option (M unit); ln_token : bool }.

Class LogProvider := {
  getLogs : nat -> jsstring -> list (list jsstring) -> Z -> Z -> result (list Log);
  (** One page and the next cursor. *)
  getLogsWithCursor : nat -> jsstring -> list (list jsstring) -> Z -> Z -> option jsstring ->
                      result (list Log * option jsstring);
  getBlockNumber : nat -> result Z;
  (** A bound on the pages read for one block; a provider that goes on
      answering with a cursor beyond it makes the loop diverge, which is an
      exception here. *)
  cursor_pages : nat;
  (** [String(x)] of the numbers whose decimal form is not that of an integer. *)
  other_toString : jsnum -> jsstring;
}.

Record IndexerConfig := { batchSize : Z; confirmationBlocks : Z }.

(** The addresses touched per token with their latest timestamp, and the logs
    that touched the token. *)
Abbreviation Touched := (list (jsstring * list (jsstring * Z))).
Abbreviation TouchedLogs := (list (jsstring * list Log)).

Section Lanes.
Context `{F : Faults, C : Chain, LP : LogProvider}.

Definition isResponseSizeError (e : string) : bool :=
  includes (toLowerCase (js e)) (js "response size exceeds limit").

(** [if (checkpoint) return checkpoint]: an empty value falls through. *)
Definition getCheckpointValue (lane : Lane) : M (option jsstring) :=
  checkpoint ← getMeta (ln_metaKey lane);
  match truthy checkpoint with
  | Some c => mret (Some c)
  | None => match ln_legacyKey lane with Some k => getMeta k | None => mret None end
  end.

(** *** Transfers *)

Definition addTouchedAddress (touched : Touched) (tokenId address : jsstring) (timestamp : Z) : Touched :=
  let a := toLowerCase address in
  let addresses := default [] (map_get tokenId touched) in
  map_set tokenId (map_set a (Z.max (default 0 (map_get a addresses)) timestamp) addresses) touched.

(** One log of the batch; an exception records the log in [failed_events] and
    leaves the collected addresses as they were. *)
Definition process_transfer_log (lane : Lane) (parsedCheckpoint : jsnum) (st : Touched * TouchedLogs) (log : Log)
  : M (Touched * TouchedLogs) :=
  try_catch (
    match parseTransferLog log with
    | None => mret st
    | Some t =>
        if shouldSkipTokenId (pt_tokenId t) then mret st
        else
          timestamp ← getBlockTimestamp (lg_block log);
          inserted ← tx (insertParsedTransferLog t log timestamp);
          mret (if negb (inserted =? 0) || int_gt (lg_block log) parsedCheckpoint then
                  (addTouchedAddress (addTouchedAddress st.1 (pt_tokenId t) (pt_from t) timestamp)
                     (pt_tokenId t) (pt_to t) timestamp,
                   map_set (pt_tokenId t) (default [] (map_get (pt_tokenId t) st.2) ++ [log]) st.2)
                else st)
    end)
  (fun e => _ ← recordFailedEvent (ln_contract lane) log e; mret st).

Fixpoint group_by_timestamp (l : list (jsstring * Z)) (groups : list (Z * list jsstring)) : list (Z * list jsstring) :=
  match l with
  | [] => groups
  | (address, ts) :: l' => group_by_timestamp l' (map_set ts (default [] (map_get ts groups) ++ [address]) groups)
  end.

(** One touched token: reconcile its addresses, then sync its counter. *)
Definition process_touched_token (lane : Lane) (touchedLogsByToken : TouchedLogs) (entry : jsstring * list (jsstring * Z))
  : M unit :=
  let tokenId := entry.1 in
  let touchedLogs := default [] (map_get tokenId touchedLogsByToken) in
  let fail_all e := forM_ touchedLogs (fun log => recordFailedEvent (ln_contract lane) log e) in
  tokenFailed ← try_catch
    (_ ← forM_ (group_by_timestamp entry.2 [])
           (fun g => reconcileTransferStateFromChain tokenId g.2 (Some g.1));
     mret false)
    (fun e => _ ← fail_all e; mret true);
  try_catch (syncTokenTransfersFromEvents tokenId)
    (fun e => if tokenFailed : bool then mret tt else fail_all e).

Definition processTransferLogs (lane : Lane) (logs : list Log) : M unit :=
  checkpoint ← getCheckpointValue lane;
  let parsedCheckpoint := match checkpoint with None => JInt (-1) | Some c => Number c end in
  st ← foldM (process_transfer_log lane parsedCheckpoint) ([], []) logs;
  forM_ st.1 (process_touched_token lane st.2).

(** *** Batches *)

Definition process_log (lane : Lane) (processLog : Log -> Z -> M unit) (log : Log) : M unit :=
  try_catch (timestamp ← getBlockTimestamp (lg_block log); processLog log timestamp)
    (fun e => recordFailedEvent (ln_contract lane) log e).

Definition processLogs (lane : Lane) (logs : list Log) : M unit :=
  let afterBatch := default (mret tt) (ln_afterBatch lane) in
  if ln_token lane then _ ← processTransferLogs lane logs; afterBatch
  else match ln_processLog lane with
  | None => throwM "Lane is missing a log processor"
  | Some processLog => _ ← forM_ logs (process_log lane processLog); afterBatch
  end.

(** [do { ... } while (cursor)]. *)
Fixpoint cursor_loop (pages : nat) (lane : Lane) (start end_ : Z) (cursor : option jsstring) (acc : list Log)
  : M (list Log) :=
  match pages with
  | O => throwM "cursor pagination does not end"
  | S p =>
      page ← rpc (fun t => getLogsWithCursor t (ln_contract lane) (ln_topics lane) start end_ cursor);
      let acc := acc ++ page.1 in
      match truthy page.2 with
      | None => mret acc
      | Some c => cursor_loop p lane start end_ (Some c) acc
      end
  end.
Definition fetchLogsWithCursor (lane : Lane) (start end_ : Z) : M (list Log) :=
  cursor_loop cursor_pages lane start end_ None [].

Definition number_toString (x : jsnum) : jsstring :=
  match x with
  | JNaN => js "NaN"
  | JInf neg => js (if neg then "-Infinity" else "Infinity")
  | JInt z => if Z.abs z <? 10 ^ 21 then toString10 z else other_toString x
  | JFrac _ _ => other_toString x
  end.

(** [Math.max(parsed, end)] for a finite [parsed]. *)
Definition max_number (x : jsnum) (n : Z) : jsnum := if int_gt n x then JInt n else x.

Definition setLaneCheckpoint (lane : Lane) (end_ : Z) : M unit :=
  checkpoint ← getCheckpointValue lane;
  let next := match checkpoint with
              | None => JInt end_
              | Some c => let parsed := Number c in
                          if isFinite parsed then max_number parsed end_ else JInt end_
              end in
  setMeta (ln_metaKey lane) (number_toString next).

(** *** Ranges *)

Definition run_batch (lane : Lane) (logs : list Log) (end_ : Z) : M unit :=
  _ ← (match logs with [] => mret tt | _ => processLogs lane logs end);
  setLaneCheckpoint lane end_.

(** The [while (queue.length)] loop of [processRange]; returns the queue left
    when the fuel is used up. *)
Fixpoint range_loop (fuel : nat) (lane : Lane) (queue : list (Z * Z)) : M (list (Z * Z)) :=
  match queue, fuel with
  | [], _ => mret []
  | _, O => mret queue
  | (start, end_) :: rest, S f =>
      next ← try_catch
        (logs ← rpc (fun t => getLogs t (ln_contract lane) (ln_topics lane) start end_);
         _ ← run_batch lane logs end_; mret rest)
        (fun e =>
           if isResponseSizeError e then
             if start <? end_ then
               let mid := (start + end_) / 2 in mret ((start, mid) :: (mid + 1, end_) :: rest)
             else
               logs ← fetchLogsWithCursor lane start end_;
               _ ← run_batch lane logs end_; mret rest
           else throwM e);
      range_loop f lane next
  end.

(** A range of n blocks is split at most n - 1 times. *)
Definition range_fuel (fromBlock toBlock : Z) : nat := S (2 * Z.to_nat (toBlock - fromBlock + 1)).
Definition processRange (lane : Lane) (fromBlock toBlock : Z) : M unit :=
  _ ← range_loop (range_fuel fromBlock toBlock) lane [(fromBlock, toBlock)]; mret tt.

Definition getNextStartBlock (lane : Lane) : M Z :=
  checkpoint ← getCheckpointValue lane;
  match truthy checkpoint with
  | None => mret (ln_start lane)
  | Some c =>
      match Number c with
      | JInt parsed =>
          if parsed <? 0 then throwM "Invalid checkpoint for lane"
          else mret (Z.max (ln_start lane) (parsed + 1 - default 0 (ln_overlap lane)))
      | _ => throwM "Invalid checkpoint for lane"
      end
  end.

(** [while (currentBlock <= latestBlock)]; returns the block reached. *)
Fixpoint lane_loop (fuel : nat) (cfg : IndexerConfig) (lane : Lane) (currentBlock latestBlock : Z) : M Z :=
  if latestBlock <? currentBlock then mret currentBlock
  else match fuel with
  | O => mret currentBlock
  | S f =>
      let toBlock := Z.min (currentBlock + batchSize cfg - 1) latestBlock in
      _ ← processRange lane currentBlock toBlock;
      lane_loop f cfg lane (toBlock + 1) latestBlock
  end.

Definition processLaneUntil (cfg : IndexerConfig) (lane : Lane) (latestBlock : Z) : M unit :=
  currentBlock ← getNextStartBlock lane;
  _ ← lane_loop (Z.to_nat (latestBlock - currentBlock + 1)) cfg lane currentBlock latestBlock;
  mret tt.

(** *** The lanes of the process, the backfill and a poll *)

Context `{AC : AccessChain, OC : OracleChain}.
Context (cfg : IndexerConfig) (hub oracle : jsstring) (hubStart oracleStart transferOverlap : Z)
        (transferTopics roleTopics executionTopics : list (list jsstring)).

Definition role_lane (name contract metaKey : jsstring) (legacy : option jsstring) : Lane := {|
  ln_name := name; ln_contract := contract; ln_overlap := None; ln_topics := roleTopics; ln_metaKey := metaKey;
  ln_legacyKey := legacy; ln_start := 0; ln_processLog := Some (processSingleLog contract);
  ln_afterBatch := None; ln_token := false |}.

Definition transfer_lane : Lane := {|
  ln_name := js "hub-transfers"; ln_contract := hub; ln_overlap := Some transferOverlap; ln_topics := transferTopics;
  ln_metaKey := js "hub_last_processed_transfer_block"; ln_legacyKey := Some (js "last_processed_block");
  ln_start := hubStart; ln_processLog := None; ln_afterBatch := None; ln_token := true |}.

Definition lanes : list Lane := [
  transfer_lane;
  {| ln_name := js "oracle-executions"; ln_contract := oracle; ln_overlap := None; ln_topics := executionTopics;
     ln_metaKey := js "oracle_last_processed_execution_block"; ln_legacyKey := None; ln_start := oracleStart;
     ln_processLog := Some (fun log ts => _ ← processAndStoreOracleExecutionLog oracle log ts; mret tt);
     ln_afterBatch := Some (setTxs ∅); ln_token := false |};
  role_lane (js "hub-roles") hub (js "hub_last_processed_role_block") (Some (js "last_processed_block_roles"));
  role_lane (js "oracle-roles") oracle (js "oracle_last_processed_role_block") None].

Definition poll_lanes : M unit :=
  chainLatest ← rpc getBlockNumber;
  let latest := Z.max 0 (chainLatest - confirmationBlocks cfg) in
  forM_ lanes (fun lane => processLaneUntil cfg lane latest).

Definition poll : M unit := try_catch poll_lanes (fun _ => mret tt).
End Lanes.
