(* ===== verification/IndexerJobs.v ===== *)
(** * Background jobs

    packages/indexer/src/jobs/failedEventRetry.ts and jobs/reconciler.ts: the
    replay of the logs recorded in [failed_events], and the recomputation of
    supply and holders from the balances.  The [running] flags, the timers and
    the logger are not modelled: a run of a job is one computation. *)

From stdpp Require Import sorting.
From S2P Require Import Prelude JsNum JsString IndexerWorld IndexerTransfers IndexerRoles.
Local Open Scope Z_scope.
Local Open Scope js_scope.

Section Jobs.
Context `{F : Faults, C : Chain, AC : AccessChain, OC : OracleChain}.
Context (hubContractAddress oracleContractAddress : jsstring).

(** ** failedEventRetry.ts *)

(** The log of a row: [data] holds the JSON of topics and data. *)
Definition row_log (k : jsstring * Z * Z * jsstring) (row : FailedRow) : Log := {|
  lg_block := k.1.1.2; lg_tx := k.2; lg_index := k.1.2; lg_topics := fl_topics row; lg_data := fl_data row |}.

Definition replay_failed_log (contract : jsstring) (log : Log) : M unit :=
  let contractAddress := toLowerCase contract in
  let isHub := bool_decide (contractAddress = hubContractAddress) in
  let isOracle := bool_decide (contractAddress = oracleContractAddress) in
  if negb (isHub || isOracle) then throwM "Unknown failed-event contract address"
  else
    let parsedTransfer := if isHub then parseTransferLog log else None in
    let parsedOracleExecution := if isOracle then parseOracleExecutionLog log else None in
    let parsedAccess := match parsedTransfer, parsedOracleExecution with
                        | None, None => parseAccessControlLog log
                        | _, _ => None
                        end in
    match parsedTransfer, parsedOracleExecution, parsedAccess with
    | None, None, None => mret tt
    | _, _, _ =>
        timestamp ← getBlockTimestamp (lg_block log);
        match parsedTransfer with
        | Some t =>
            if shouldSkipTokenId (pt_tokenId t) then mret tt
            else _ ← replayTransferLogFromChain t log timestamp; mret tt
        | None =>
            tx (match parsedOracleExecution, parsedAccess with
                | Some _, _ => _ ← processAndStoreOracleExecutionLog oracleContractAddress log timestamp; mret tt
                | None, Some event =>
                    inserted ← insertRoleEvent contractAddress log timestamp event;
                    if inserted =? 0 then mret tt else reconcileRoleStateFromChain contractAddress event
                | None, None => mret tt
                end)
        end
    end.

Definition processFailedLog (contract : jsstring) (log : Log) : M unit :=
  runWithRetry (replay_failed_log contract log).

(** [ORDER BY block_number ASC, log_index ASC]. *)
Definition failed_order (p q : (jsstring * Z * Z * jsstring) * FailedRow) : Prop :=
  p.1.1.1.2 < q.1.1.1.2 \/ (p.1.1.1.2 = q.1.1.1.2 /\ p.1.1.2 <= q.1.1.2).
#[export] Instance failed_order_dec p q : Decision (failed_order p q).
Proof. unfold failed_order. apply _. Defined.

Definition FAILED_LIMIT : nat := 200.
Definition select_failed (d : Db) : list ((jsstring * Z * Z * jsstring) * FailedRow) :=
  take FAILED_LIMIT (merge_sort failed_order (map_to_list (failed_events d))).

Definition retried (e : string) (r : FailedRow) : FailedRow :=
  {| fl_topics := fl_topics r; fl_data := fl_data r; fl_error := e; fl_retries := fl_retries r + 1 |}.

Definition retry_row (p : (jsstring * Z * Z * jsstring) * FailedRow) : M unit :=
  try_catch
    (_ ← processFailedLog p.1.1.1.1 (row_log p.1 p.2);
     execute (set_failed (delete p.1)))
    (fun e => execute (set_failed (alter (retried e) p.1))).

Definition retry_failed_events : M unit :=
  try_catch (rows ← query select_failed; forM_ rows retry_row) (fun _ => mret tt).

(** ** reconciler.ts *)

Definition positive_balances (d : Db) (tokenId : jsstring) : list Z :=
  (fun p => bl_balance p.2) <$>
  List.filter (fun p => bool_decide (p.1.2 = tokenId) && (0 <? bl_balance p.2)) (map_to_list (balances d)).

Definition reconcile_token (tokenId : jsstring) : M unit :=
  runWithRetry (
    held ← query (fun d => positive_balances d tokenId);
    execute (set_tokens (alter (with_state (foldl Z.add 0 held) (Z.of_nat (length held))) tokenId))).

Definition reconcile : M unit :=
  try_catch
    (ids ← query (fun d => (map_to_list (tokens d)).*1); forM_ ids reconcile_token)
    (fun _ => mret tt).
End Jobs.
