(* ===== verification/IndexerProofs.v ===== *)
(** * No transfer is lost

    The invariant of the transfer lane: every decodable transfer log up to the
    lane's checkpoint is in [events] or in [failed_events], under every
    schedule of database and RPC failures. *)

From S2P Require Import Prelude JsNum JsString JsNumber Scanner IndexerWorld IndexerTransfers IndexerRoles IndexerLanes.
Local Open Scope Z_scope.
Local Open Scope js_scope.

(** ** Statements and the relation they keep *)

(** The checkpoint string a lane reads. *)
Definition stored_checkpoint (lane : Lane) (d : Db) : option jsstring :=
  match truthy (meta d !! ln_metaKey lane) with
  | Some c => Some c
  | None => match ln_legacyKey lane with Some k => meta d !! k | None => None end
  end.

(** Rows of [events] are never changed or removed, rows of [failed_events]
    never removed, and the checkpoint of [lane] stays. *)
Record grows (lane : Lane) (d d' : Db) : Prop := {
  gr_events : events d ⊆ events d';
  gr_failed : forall k, is_Some (failed_events d !! k) -> is_Some (failed_events d' !! k);
  gr_checkpoint : stored_checkpoint lane d' = stored_checkpoint lane d }.

#[export] Instance grows_preorder lane : PreOrder (grows lane).
Proof.
  split.
  - intros d. by split.
  - intros d1 d2 d3 [E1 F1 C1] [E2 F2 C2]. split; [by etrans|auto|congruence].
Qed.

Section Grows.
Context `{F : Faults, C : Chain, LP : LogProvider, AC : AccessChain, OC : OracleChain} (lane : Lane).

Lemma grows_tokens f d : grows lane d (set_tokens f d).
Proof using. by split. Qed.
Lemma grows_balances f d : grows lane d (set_balances f d).
Proof using. by split. Qed.
Lemma grows_roles f d : grows lane d (set_role_events f d).
Proof using. by split. Qed.
Lemma grows_members f d : grows lane d (set_role_members f d).
Proof using. by split. Qed.
Lemma grows_admins f d : grows lane d (set_role_admins f d).
Proof using. by split. Qed.
Lemma grows_oracle f d : grows lane d (set_oracle f d).
Proof using. by split. Qed.
Lemma grows_failed k r d : grows lane d (set_failed <[k := r]> d).
Proof using.
  split; [done| |done]. cbn. intros k' Hk'. destruct (decide (k' = k)) as [->|Hn].
  - rewrite lookup_insert_eq. eauto.
  - by rewrite lookup_insert_ne by done.
Qed.
Lemma grows_event k r d : events d !! k = None -> grows lane d (set_events <[k := r]> d).
Proof using. intros Hk. split; [|done|done]. cbn. by apply insert_subseteq. Qed.

Lemma insertEvent_grows k r : keeps (grows lane) (insertEvent k r).
Proof using.
  apply keeps_sql; [typeclasses eauto|]. intros d. destruct (events d !! k) eqn:Hk; cbn; [reflexivity|by apply grows_event].
Qed.
Lemma insertRoleEvent_grows a l t e : keeps (grows lane) (insertRoleEvent a l t e).
Proof using.
  unfold insertRoleEvent. destruct (ac_role e); [|eauto with keeps typeclass_instances].
  apply keeps_sql; [typeclasses eauto|]. intros d. case_match; cbn; [reflexivity|apply grows_roles].
Qed.
Lemma insertOracle_grows n : keeps (grows lane) (insertOracleExecution n).
Proof using.
  apply keeps_sql; [typeclasses eauto|]. intros d. case_match; cbn; [reflexivity|apply grows_oracle].
Qed.
Lemma execute_grows f : (forall d, grows lane d (f d)) -> keeps (grows lane) (execute f).
Proof using. apply keeps_execute. typeclasses eauto. Qed.
Lemma recordFailed_grows a l e : keeps (grows lane) (recordFailedEvent a l e).
Proof using. apply execute_grows. intros d. apply grows_failed. Qed.
Lemma retry_grows {A} (fn : M A) : keeps (grows lane) fn -> keeps (grows lane) (runWithRetry fn).
Proof using.
  intros Hf. unfold runWithRetry. generalize RETRY_MAX as n. induction n as [|n IH]; cbn; keeps_auto; done.
Qed.
End Grows.

#[export] Hint Resolve grows_tokens grows_balances grows_roles grows_members grows_admins grows_oracle grows_failed : keeps.
#[export] Hint Resolve insertEvent_grows insertRoleEvent_grows insertOracle_grows execute_grows recordFailed_grows
  retry_grows : keeps.

Section Ops.
Context `{F : Faults, C : Chain, LP : LogProvider, AC : AccessChain, OC : OracleChain} (lane : Lane).

Lemma setBalance_grows a t b ts : keeps (grows lane) (setBalance a t b ts).
Proof using. unfold setBalance. keeps_auto. Qed.
Lemma or_null_grows {A} (c : M A) : keeps (grows lane) c -> keeps (grows lane) (or_null c).
Proof using. intros Hc. unfold or_null. keeps_auto. Qed.
#[local] Hint Resolve setBalance_grows or_null_grows : keeps.
Lemma ensureToken_grows t : keeps (grows lane) (ensureToken t).
Proof using. unfold ensureToken, selectToken. keeps_auto. Qed.
#[local] Hint Resolve ensureToken_grows : keeps.
Lemma reconcile_grows t l ts : keeps (grows lane) (reconcileTransferStateFromChain t l ts).
Proof using. unfold reconcileTransferStateFromChain, getBalance, getHolderCount, setTokenState. keeps_auto. Qed.
Lemma sync_grows t : keeps (grows lane) (syncTokenTransfersFromEvents t).
Proof using. unfold syncTokenTransfersFromEvents. keeps_auto. Qed.
Lemma timestamp_grows b : keeps (grows lane) (getBlockTimestamp b).
Proof using. unfold getBlockTimestamp. keeps_auto. Qed.
Lemma checkpoint_grows l : keeps (grows lane) (getCheckpointValue l).
Proof using. unfold getCheckpointValue, getMeta. keeps_auto. Qed.
#[local] Hint Resolve reconcile_grows sync_grows timestamp_grows checkpoint_grows : keeps.
Lemma process_log_grows l cp st log : keeps (grows lane) (process_transfer_log l cp st log).
Proof using. unfold process_transfer_log, insertParsedTransferLog. keeps_auto. Qed.
Lemma touched_grows l logs e : keeps (grows lane) (process_touched_token l logs e).
Proof using. unfold process_touched_token. keeps_auto. Qed.
End Ops.

#[export] Hint Resolve setBalance_grows or_null_grows ensureToken_grows reconcile_grows sync_grows timestamp_grows
  checkpoint_grows process_log_grows touched_grows : keeps.

(** ** The lane's promise *)

Section NoLoss.
Context `{F : Faults, C : Chain, LP : LogProvider}.
Context (on_chain : Log -> Prop) (lane : Lane).

(** A log the lane has dealt with: it does not decode to a transfer, its token
    is skipped, or it is in one of the two tables. *)
Definition accounted (d : Db) (log : Log) : Prop :=
  match parseTransferLog log with
  | None => True
  | Some t => shouldSkipTokenId (pt_tokenId t) = true \/ is_Some (events d !! event_key log) \/
              is_Some (failed_events d !! failed_key (ln_contract lane) log)
  end.

Definition accounted_upto (d : Db) (n : Z) : Prop :=
  forall log, on_chain log -> ln_start lane <= lg_block log <= n -> accounted d log.

Definition lane_checkpoint (d : Db) : option Z :=
  match truthy (stored_checkpoint lane d) with
  | Some c => match Number c with JInt n => Some n | _ => None end
  | None => None
  end.

(** Everything up to the checkpoint is accounted for. *)
Definition covered (d : Db) : Prop := forall n, lane_checkpoint d = Some n -> accounted_upto d n.

(** The provider answers with every log of the range it is asked for; the
    pages of a block, followed by their cursors, contain all of its logs. *)
Record honest_provider : Prop := {
  ho_logs : forall t s e logs, getLogs t (ln_contract lane) (ln_topics lane) s e = Ok logs ->
    forall log, on_chain log -> s <= lg_block log <= e -> log ∈ logs;
  ho_cursor : exists pending : Z -> option jsstring -> Log -> Prop,
    (forall log, on_chain log -> pending (lg_block log) None log) /\
    (forall t b c page next, getLogsWithCursor t (ln_contract lane) (ln_topics lane) b b c = Ok (page, next) ->
       forall log, pending b c log -> log ∈ page \/ exists c', truthy next = Some c' /\ pending b (Some c') log) }.

Lemma accounted_grows d d' log : grows lane d d' -> accounted d log -> accounted d' log.
Proof using.
  intros [Ge Gf _]. unfold accounted. destruct (parseTransferLog log) as [t|]; [|done].
  intros [H|[[r H]|H]]; [by left|right; left; exists r; by eapply lookup_weaken|right; right; auto].
Qed.
Lemma accounted_upto_grows d d' n : grows lane d d' -> accounted_upto d n -> accounted_upto d' n.
Proof using. intros G H log Hc Hb. eapply accounted_grows; eauto. Qed.
Lemma covered_grows d d' : grows lane d d' -> covered d -> covered d'.
Proof using.
  intros G H n. unfold lane_checkpoint. rewrite (gr_checkpoint _ _ _ G). intros Hn.
  eapply accounted_upto_grows; eauto.
Qed.

(** ** A batch *)

Lemma insertEvent_inserted k r w : wp (insertEvent k r) (fun _ w' => is_Some (events (w_db w') !! k)) (fun _ _ => True) w.
Proof using.
  apply wp_sql; [|done|done]. destruct (events (w_db w) !! k) eqn:E; cbn; [by rewrite E|].
  rewrite lookup_insert_eq. eauto.
Qed.

Lemma recordFailed_recorded a l e w :
  wp (recordFailedEvent a l e) (fun _ w' => is_Some (failed_events (w_db w') !! failed_key a l)) (fun _ _ => True) w.
Proof using. apply wp_sql; [|done|done]. cbn. rewrite lookup_insert_eq. eauto. Qed.

Lemma process_log_accounts cp st log w :
  wp (process_transfer_log lane cp st log) (fun _ w' => accounted (w_db w') log) (fun _ _ => True) w.
Proof using.
  unfold process_transfer_log. apply wp_try.
  assert (forall e w', wp (_ ← recordFailedEvent (ln_contract lane) log e; mret st)
            (fun _ w' => accounted (w_db w') log) (fun _ _ => True) w') as Hfail.
  { intros e w'. apply wp_bind. eapply wp_conseq; [apply recordFailed_recorded| |done].
    intros u w'' H. cbn in H. apply wp_ret. unfold accounted. destruct (parseTransferLog log); auto. }
  destruct (parseTransferLog log) as [t|] eqn:Hp; [|apply wp_ret; unfold accounted; by rewrite Hp].
  destruct (shouldSkipTokenId (pt_tokenId t)) eqn:Hs; [apply wp_ret; unfold accounted; rewrite Hp; auto|].
  apply wp_bind. eapply wp_conseq; [apply (timestamp_grows lane)| |intros; apply Hfail].
  intros ts w1 _. apply wp_bind, wp_tx. eapply wp_conseq; [apply insertEvent_inserted| |intros; apply Hfail].
  intros u w2 H. cbn in H. split_and!; [|intros; apply Hfail|intros; apply Hfail].
  apply wp_ret. unfold accounted. rewrite Hp. auto.
Qed.

Lemma transfers_accounts logs w :
  wp (processTransferLogs lane logs)
     (fun _ w' => grows lane (w_db w) (w_db w') /\ forall log, log ∈ logs -> accounted (w_db w') log)
     (fun _ w' => grows lane (w_db w) (w_db w')) w.
Proof using.
  unfold processTransferLogs. apply wp_bind.
  eapply wp_conseq; [apply (checkpoint_grows lane)| |done]. intros cp w1 G1.
  apply wp_bind. eapply wp_conseq.
  - apply (wp_foldM (fun pre _ w' => grows lane (w_db w) (w_db w') /\ forall log, log ∈ pre -> accounted (w_db w') log)
                    _ (fun _ w' => grows lane (w_db w) (w_db w'))).
    + split; [done|]. intros log Hl. by apply elem_of_nil in Hl.
    + intros pre x post st w2 _ [G2 A2].
      eapply wp_conseq; [apply wp_and; [apply (process_log_grows lane)|apply process_log_accounts]| |].
      * intros st' w3 [G3 A3]. split; [by etrans|]. intros log Hl. apply elem_of_app in Hl as [Hl|Hl].
        { eapply accounted_grows; [exact G3|auto]. }
        apply list_elem_of_singleton in Hl. by subst.
      * intros e w3 [G3 _]. by etrans.
  - cbn beta. intros st w2 [G2 A2].
    assert (keeps (grows lane) (forM_ st.1 (process_touched_token lane st.2))) as Hk by keeps_auto.
    eapply wp_conseq; [apply Hk| |]; cbn.
    + intros u w3 G3. split; [by etrans|]. intros log Hl. eapply accounted_grows; eauto.
    + intros e w3 G3. by etrans.
  - done.
Qed.
(** ** Checkpoints *)

(** The checkpoint is absent or a block number. *)
Definition sane (d : Db) : Prop :=
  forall c, stored_checkpoint lane d = Some c -> exists n, Number c = JInt n /\ 0 <= n <= 2 ^ 53.

Lemma sane_grows d d' : grows lane d d' -> sane d -> sane d'.
Proof using. intros G H c. rewrite (gr_checkpoint _ _ _ G). apply H. Qed.

Lemma getCheckpoint_spec l w :
  wp (getCheckpointValue l) (fun c w' => c = stored_checkpoint l (w_db w) /\ w_db w' = w_db w)
     (fun _ w' => w_db w' = w_db w) w.
Proof using.
  unfold getCheckpointValue, stored_checkpoint, getMeta, query. apply wp_bind, wp_sql; cbn; [|done|done].
  destruct (truthy (meta (w_db w) !! ln_metaKey l)); [by apply wp_ret|].
  destruct (ln_legacyKey l); [|by apply wp_ret]. apply wp_sql; by cbn.
Qed.

Lemma number_printed n : 0 <= n <= 2 ^ 53 ->
  number_toString (JInt n) = toString10 n /\ Number (number_toString (JInt n)) = JInt n /\
  truthy (Some (number_toString (JInt n))) = Some (number_toString (JInt n)).
Proof using.
  intros Hn. assert (number_toString (JInt n) = toString10 n) as E.
  { unfold number_toString. rewrite (proj2 (Z.ltb_lt _ _)); [done|]. rewrite Z.abs_eq by lia.
    eapply Z.le_lt_trans; [apply Hn|reflexivity]. }
  rewrite E. split; [done|]. split; [by apply Number_toString10|].
  destruct (toString10_nonneg n ltac:(lia)) as (l & -> & _ & Hl & _). by destruct l.
Qed.

Lemma stored_after_set v d : truthy (Some v) = Some v ->
  stored_checkpoint lane (set_meta <[ln_metaKey lane := v]> d) = Some v.
Proof using. intros Hv. unfold stored_checkpoint. cbn. by rewrite lookup_insert_eq, Hv. Qed.

Lemma accounted_set_meta f d n : accounted_upto d n -> accounted_upto (set_meta f d) n.
Proof using. done. Qed.

(** Advancing the checkpoint to a block up to which everything is accounted
    for keeps the promise, whether or not the statement reports success. *)
Lemma setCheckpoint_covered e w :
  0 <= e <= 2 ^ 53 -> covered (w_db w) -> sane (w_db w) -> accounted_upto (w_db w) e ->
  let P := fun w' => covered (w_db w') /\ sane (w_db w') /\ accounted_upto (w_db w') e in
  wp (setLaneCheckpoint lane e) (fun _ => P) (fun _ => P) w.
Proof using.
  intros He Hc Hs Ha P. assert (forall w', w_db w' = w_db w -> P w') as HP0.
  { intros w' E. unfold P. by rewrite E. }
  unfold setLaneCheckpoint. apply wp_bind. eapply wp_conseq; [apply getCheckpoint_spec| |cbn; auto].
  cbn. intros cp w1 [-> E1].
  assert (exists n, 0 <= n <= 2 ^ 53 /\ accounted_upto (w_db w) n /\
    match stored_checkpoint lane (w_db w) with
    | Some c => if isFinite (Number c) then max_number (Number c) e else JInt e
    | None => JInt e
    end = JInt n) as (n & Hn & An & ->).
  { destruct (stored_checkpoint lane (w_db w)) as [c|] eqn:Ec; [|eauto].
    destruct (Hs c Ec) as (k & Ek & Hk). rewrite Ek. cbn [isFinite]. unfold max_number. cbn [int_gt].
    destruct (Z.ltb_spec k e); [eauto|]. exists k. split_and!; [lia|lia| |done].
    destruct c as [|x c]; [cbn in Ek; injection Ek as <-; assert (e = 0) as -> by lia; done|].
    apply Hc. unfold lane_checkpoint. rewrite Ec. cbn [truthy]. by rewrite Ek. }
  destruct (number_printed n Hn) as (_ & Pn & Tn).
  assert (forall w', w_db w' = set_meta <[ln_metaKey lane := number_toString (JInt n)]> (w_db w) -> P w') as HP1.
  { intros w' E. unfold P. rewrite E. split_and!; [| |done].
    - intros m. unfold lane_checkpoint. rewrite stored_after_set, Tn, Pn by done. intros [= <-]. done.
    - intros c. rewrite stored_after_set by done. intros [= <-]. eauto. }
  unfold setMeta, execute. apply wp_sql; cbn; rewrite ?E1; [by apply HP1|intros; by apply HP1|intros; by apply HP0].
Qed.

(** ** Ranges *)

Context (Htoken : ln_token lane = true) (Hafter : ln_afterBatch lane = None) (Hhonest : honest_provider).

Record progress (n : Z) (w : World) : Prop := {
  pg_covered : covered (w_db w); pg_sane : sane (w_db w); pg_upto : accounted_upto (w_db w) n }.

Lemma progress_grows n w w' : grows lane (w_db w) (w_db w') -> progress n w -> progress n w'.
Proof using.
  intros G [P1 P2 P3]. split; [by eapply covered_grows|by eapply sane_grows|by eapply accounted_upto_grows].
Qed.

Lemma accounted_upto_extend d s e (logs : list Log) :
  accounted_upto d (s - 1) -> (forall log, on_chain log -> s <= lg_block log <= e -> log ∈ logs) ->
  (forall log, log ∈ logs -> accounted d log) -> accounted_upto d e.
Proof using.
  intros Hs Hl Ha log Hc Hb. destruct (Z.le_gt_cases s (lg_block log)); [apply Ha, Hl; [done|lia]|].
  apply Hs; [done|lia].
Qed.

Lemma run_batch_progress logs s e w :
  0 <= e <= 2 ^ 53 -> s <= e -> progress (s - 1) w ->
  (forall log, on_chain log -> s <= lg_block log <= e -> log ∈ logs) ->
  wp (run_batch lane logs e) (fun _ => progress e) (fun _ => progress (s - 1)) w.
Proof using Htoken Hafter.
  intros He Hse Hw Hl. unfold run_batch. apply wp_bind.
  assert (wp (match logs with [] => mret tt | _ => processLogs lane logs end)
    (fun _ w' => grows lane (w_db w) (w_db w') /\ forall log, log ∈ logs -> accounted (w_db w') log)
    (fun _ w' => grows lane (w_db w) (w_db w')) w) as Hp.
  { destruct logs as [|x logs]; [apply wp_ret; split; [reflexivity|intros log Hx; by apply elem_of_nil in Hx]|].
    unfold processLogs. rewrite Htoken, Hafter. apply wp_bind.
    eapply wp_conseq; [apply transfers_accounts| |done]. intros u w' Hw'. by apply wp_ret. }
  eapply wp_conseq; [exact Hp| |].
  - cbn. intros u w1 [G1 A1]. pose proof (progress_grows _ _ _ G1 Hw) as [P1 P2 P3].
    assert (accounted_upto (w_db w1) e) as A2 by (by eapply accounted_upto_extend).
    eapply wp_conseq; [apply setCheckpoint_covered; eauto| |]; cbn.
    + intros u' w2 (X1 & X2 & X3). by split.
    + intros e' w2 (X1 & X2 & X3). split; [done|done|].
      intros log Hc Hb. apply X3; [done|lia].
  - cbn. intros _ w1 G1. by eapply progress_grows.
Qed.

Lemma cursor_complete b pages c acc w (pending : Z -> option jsstring -> Log -> Prop) :
  (forall t b c page next, getLogsWithCursor t (ln_contract lane) (ln_topics lane) b b c = Ok (page, next) ->
     forall log, pending b c log -> log ∈ page \/ exists c', truthy next = Some c' /\ pending b (Some c') log) ->
  wp (cursor_loop pages lane b b c acc)
     (fun logs w' => w_db w' = w_db w /\ forall log, log ∈ acc \/ pending b c log -> log ∈ logs)
     (fun _ w' => w_db w' = w_db w) w.
Proof using.
  intros Hp. revert c acc w. induction pages as [|n IH]; intros c acc w; cbn [cursor_loop]; [by apply wp_throw|].
  apply wp_bind, wp_rpc; [|done]. intros [page next] Hpage. specialize (Hp _ _ _ _ _ Hpage). cbn [fst snd].
  destruct (truthy next) as [c'|] eqn:Hn.
  - eapply wp_conseq; [apply IH| |done]. cbn. intros logs w' [E H]. split; [done|].
    intros log [Hl|Hl]; apply H; [left; apply elem_of_app; by left|].
    destruct (Hp log Hl) as [Hl'|(c'' & [= <-] & Hl')]; [left; apply elem_of_app; by right|by right].
  - apply wp_ret. split; [done|]. intros log [Hl|Hl]; apply elem_of_app; [by left|].
    destruct (Hp log Hl) as [Hl'|(? & ? & _)]; [by right|done].
Qed.

Lemma fetchCursor_complete b w :
  wp (fetchLogsWithCursor lane b b)
     (fun logs w' => w_db w' = w_db w /\ forall log, on_chain log -> b <= lg_block log <= b -> log ∈ logs)
     (fun _ w' => w_db w' = w_db w) w.
Proof using Hhonest.
  destruct (ho_cursor Hhonest) as (pending & H0 & Hp). unfold fetchLogsWithCursor.
  eapply wp_conseq; [by apply (cursor_complete b _ _ _ _ pending)| |done]. cbn. intros logs w' [E H].
  split; [done|]. intros log Hc Hb. apply H. right. replace b with (lg_block log) by lia. by apply H0.
Qed.

(** A queue of adjacent ranges from [s] to [e]. *)
Fixpoint adjacent (s e : Z) (queue : list (Z * Z)) : Prop :=
  match queue with
  | [] => s = e + 1
  | (a, b) :: q => a = s /\ a <= b <= e /\ adjacent (b + 1) e q
  end.

Definition queue_work (queue : list (Z * Z)) : Z := foldr (fun r n => 2 * (r.2 - r.1 + 1) - 1 + n) 0 queue.

Lemma queue_work_nonneg s e q : adjacent s e q -> 0 <= queue_work q.
Proof using.
  revert s. induction q as [|[a b] q IH]; intros s Hq; cbn in *; [lia|]. destruct Hq as (-> & Hb & Hq).
  specialize (IH _ Hq). unfold queue_work in IH. lia.
Qed.

Lemma progress_db n w w' : w_db w' = w_db w -> progress n w -> progress n w'.
Proof using. intros E [? ? ?]. split; by rewrite E. Qed.

(** The queue is emptied within the fuel, and everything up to its end is
    accounted for; an exception leaves the promise intact. *)
Lemma range_loop_progress fuel s e queue w :
  0 <= s -> e <= 2 ^ 53 -> adjacent s e queue -> queue_work queue <= Z.of_nat fuel -> progress (s - 1) w ->
  wp (range_loop fuel lane queue) (fun q w' => q = [] /\ progress e w') (fun _ w' => covered (w_db w')) w.
Proof using Htoken Hafter Hhonest.
  revert s queue w. induction fuel as [|f IH]; intros s queue w Hs He Hq Hf Hw.
  - destruct queue as [|[a b] q]; cbn in Hq.
    + apply wp_ret. split; [done|]. by replace e with (s - 1) by lia.
    + exfalso. destruct Hq as (-> & Hb & Hq). cbn in Hf.
      pose proof (queue_work_nonneg _ _ _ Hq) as H0. unfold queue_work in H0. lia.
  - destruct queue as [|[a b] q]; cbn [range_loop].
    { apply wp_ret. split; [done|]. cbn in Hq. by replace e with (s - 1) by lia. }
    destruct Hq as (-> & Hb & Hq). cbn in Hf. fold (queue_work q) in Hf.
    assert (forall w', progress b w' -> wp (range_loop f lane q) (fun q w' => q = [] /\ progress e w')
              (fun _ w' => covered (w_db w')) w') as Hnext.
    { intros w' Hw'. apply (IH (b + 1)); [lia|done|done|lia|]. by replace (b + 1 - 1) with b by lia. }
    set (Q := fun next => wp (range_loop f lane next) (fun q w' => q = [] /\ progress e w') (fun _ w' => covered (w_db w'))).
    assert (forall err w1, progress (s - 1) w1 ->
      wp (if isResponseSizeError err then
            if s <? b then let mid := (s + b) / 2 in mret ((s, mid) :: (mid + 1, b) :: q)
            else logs ← fetchLogsWithCursor lane s b; _ ← run_batch lane logs b; mret q
          else throwM err) Q (fun _ w' => covered (w_db w')) w1) as Hcatch.
    { intros err w1 P1. destruct (isResponseSizeError err); [|apply wp_throw, P1].
      destruct (Z.ltb_spec s b) as [Hlt|Hge].
      - apply wp_ret. apply (IH s); [done|done| | |done]; cbn; fold (queue_work q).
        + assert (s <= (s + b) / 2 < b) by (split; [apply Z.div_le_lower_bound|apply Z.div_lt_upper_bound]; lia).
          split_and!; try done; lia.
        + lia.
      - assert (s = b) as -> by lia. apply wp_bind.
        eapply wp_conseq; [apply fetchCursor_complete| |cbn; intros _ w2 E2; rewrite E2; apply P1].
        cbn. intros logs w2 [E2 H2]. apply wp_bind.
        eapply wp_conseq; [apply (run_batch_progress logs b b); [lia|lia|by eapply progress_db|done]| |].
        + intros u w3 P3. apply wp_ret. exact (Hnext w3 P3).
        + cbn. intros err' w3 P3. apply P3. }
    apply wp_bind, wp_try, wp_bind, wp_rpc.
    + intros logs Hlogs. apply wp_bind. eapply wp_conseq.
      * apply (run_batch_progress logs s b); [lia|lia|by apply (progress_db _ w)|]. exact (ho_logs Hhonest _ _ _ _ Hlogs).
      * intros u w1 P1. apply wp_ret. exact (Hnext w1 P1).
      * cbn. intros err w1 P1. by apply Hcatch.
    + intros err Herr. apply Hcatch. by apply (progress_db _ w).
Qed.

Lemma processRange_progress s e w :
  0 <= s <= e -> e <= 2 ^ 53 -> progress (s - 1) w ->
  wp (processRange lane s e) (fun _ => progress e) (fun _ w' => covered (w_db w')) w.
Proof using Htoken Hafter Hhonest.
  intros Hs He Hw. unfold processRange. apply wp_bind.
  assert (queue_work [(s, e)] <= Z.of_nat (range_fuel s e)) as Hf by (unfold range_fuel; cbn [queue_work foldr fst snd]; lia).
  eapply wp_conseq; [apply (range_loop_progress _ s e); [lia|done|cbn; lia|exact Hf|done]| |done].
  intros q w' [_ P]. by apply wp_ret.
Qed.

(** ** Lanes *)

Context (cfg : IndexerConfig) (Hbatch : 1 <= batchSize cfg) (Hstart : 0 <= ln_start lane)
        (Hoverlap : 0 <= default 0 (ln_overlap lane)).

Lemma lane_loop_progress fuel cur latest w :
  0 <= cur -> latest <= 2 ^ 53 -> latest - cur + 1 <= Z.of_nat fuel -> progress (cur - 1) w ->
  wp (lane_loop fuel cfg lane cur latest) (fun c w' => latest < c /\ covered (w_db w') /\ accounted_upto (w_db w') (c - 1))
     (fun _ w' => covered (w_db w')) w.
Proof using Htoken Hafter Hhonest Hbatch.
  intros Hcur Hlat. revert cur w Hcur. induction fuel as [|f IH]; intros cur w Hcur Hf Hw; cbn [lane_loop].
  - rewrite (proj2 (Z.ltb_lt latest cur)) by lia. apply wp_ret. destruct Hw. by split; [lia|].
  - destruct (Z.ltb_spec latest cur); [apply wp_ret; destruct Hw; by split; [lia|]|].
    set (to := Z.min _ _). apply wp_bind.
    eapply wp_conseq; [apply processRange_progress; [lia|lia|done]| |done].
    cbn. intros u w' P'. apply IH; [lia|lia|]. by replace (to + 1 - 1) with to by lia.
Qed.

(** However it ends, processing a lane keeps the promise; when it ends
    normally, everything up to [latest] is accounted for. *)
Lemma processLane_covered latest w :
  latest + default 0 (ln_overlap lane) <= 2 ^ 53 -> covered (w_db w) ->
  wp (processLaneUntil cfg lane latest)
     (fun _ w' => covered (w_db w') /\ accounted_upto (w_db w') latest) (fun _ w' => covered (w_db w')) w.
Proof using Htoken Hafter Hhonest Hbatch Hstart Hoverlap.
  intros Hlat Hw. unfold processLaneUntil. apply wp_bind. unfold getNextStartBlock. apply wp_bind.
  eapply wp_conseq; [apply getCheckpoint_spec| |cbn; intros _ w' ->; done].
  cbn. intros cp w1 [-> E1]. rewrite <- E1 in Hw.
  assert (forall cur, (forall log, on_chain log -> ln_start lane <= lg_block log < cur -> accounted (w_db w1) log) ->
    0 <= cur -> sane (w_db w1) \/ latest < cur ->
    wp (_ ← lane_loop (Z.to_nat (latest - cur + 1)) cfg lane cur latest; mret tt)
       (fun _ w' => covered (w_db w') /\ accounted_upto (w_db w') latest) (fun _ w' => covered (w_db w')) w1) as Hgo.
  { intros cur Ha Hc [Hs|Hl]; apply wp_bind.
    - eapply wp_conseq; [apply (lane_loop_progress _ cur latest); [done|lia|lia|]| |done].
      + split; [done|done|]. intros log Hl Hb. apply Ha; [done|lia].
      + intros c w' (Hl & Hc' & Hu). apply wp_ret. split; [done|].
        intros log Hlog Hb. apply Hu; [done|lia].
    - destruct (Z.to_nat (latest - cur + 1)); cbn [lane_loop]; rewrite (proj2 (Z.ltb_lt latest cur)) by lia;
        apply wp_ret; apply wp_ret; (split; [done|]); intros log Hlog Hb; apply Ha; [done|lia|done|lia]. }
  unfold covered, lane_checkpoint in Hw. unfold sane in Hgo. rewrite E1 in *.
  destruct (stored_checkpoint lane (w_db w)) as [c|] eqn:Ec.
  - destruct c as [|x c].
    + cbn [truthy]. apply wp_ret. apply Hgo; [intros; lia|lia|]. left. intros c [= <-]. exists 0. split; [done|lia].
    + cbn [truthy] in *. destruct (Number (x :: c)) as [| |n|] eqn:En; try (apply wp_throw; unfold covered, lane_checkpoint; rewrite E1, Ec; cbn [truthy]; by rewrite En).
      destruct (Z.ltb_spec n 0); [apply wp_throw; unfold covered, lane_checkpoint; rewrite E1, Ec; cbn [truthy]; by rewrite En|].
      apply wp_ret. apply Hgo.
      * intros log Hl Hb. apply (Hw n); [done|done|lia].
      * lia.
      * destruct (Z.le_gt_cases n (2 ^ 53)); [left|right; lia]. intros c' [= <-]. eauto.
  - cbn [truthy]. apply wp_ret. apply Hgo; [intros; lia|lia|]. left. by intros c [=].
Qed.
End NoLoss.
