(* ===== verification/IndexerSystem.v ===== *)
(** * The background process

    Runs of the polling loop, of the retry of failed events and of the
    reconciler, and restarts of the process, in any order and under any
    failures, lose no transfer (interleavings inside a run are not modelled:
    each run is one step). *)

From stdpp Require Import sorting.
From S2P Require Import Prelude JsNum JsString JsNumber Scanner IndexerWorld IndexerTransfers IndexerRoles IndexerLanes IndexerJobs IndexerProofs.
Local Open Scope Z_scope.
Local Open Scope js_scope.

(** ** Relations kept by a lane *)

Section LaneKeeps.
Context `{F : Faults, C : Chain, LP : LogProvider}.
Context (R : Db -> Db -> Prop) `{!PreOrder R} (lane : Lane) (real : Log -> Prop).
Context (Hlogs : forall t s e logs, getLogs t (ln_contract lane) (ln_topics lane) s e = Ok logs -> Forall real logs).
Context (Hpages : forall t s e c page next,
  getLogsWithCursor t (ln_contract lane) (ln_topics lane) s e c = Ok (page, next) -> Forall real page).
Context (Hbatch : forall logs e, Forall real logs -> keeps R (run_batch lane logs e)).

Lemma cursor_real pages s e c acc w : Forall real acc ->
  wp (cursor_loop pages lane s e c acc) (fun logs w' => R (w_db w) (w_db w') /\ Forall real logs)
     (fun _ w' => R (w_db w) (w_db w')) w.
Proof using PreOrder0 Hpages.
  revert c acc w. induction pages as [|n IH]; intros c acc w Hacc; cbn [cursor_loop]; [apply wp_throw; reflexivity|].
  apply wp_bind, wp_rpc; [|intros; cbn; reflexivity]. intros [page next] Hpage. cbn [fst snd].
  assert (Forall real (acc ++ page)) by (apply Forall_app; eauto).
  destruct (truthy next); [exact (IH _ _ (advance (w_db w) w) ltac:(done))|]. apply wp_ret. split; [cbn; reflexivity|done].
Qed.

Lemma range_loop_keeps fuel queue : keeps R (range_loop fuel lane queue).
Proof using PreOrder0 Hlogs Hpages Hbatch.
  revert queue. induction fuel as [|f IH]; intros [|[s e] q]; cbn [range_loop]; try solve [keeps_auto].
  apply keeps_bind; [typeclasses eauto| |done]. apply keeps_try; [typeclasses eauto| |].
  - apply (keeps_bind_post R (Forall real)).
    + intros w. apply wp_rpc; intros; cbn; [split; [reflexivity|eauto]|reflexivity].
    + intros logs Hl. apply keeps_bind; [typeclasses eauto|by apply Hbatch|keeps_auto].
  - intros err. destruct (isResponseSizeError err); [|keeps_auto]. destruct (s <? e); [keeps_auto|].
    apply (keeps_bind_post R (Forall real)).
    + intros w. unfold fetchLogsWithCursor. by apply cursor_real.
    + intros logs Hl. apply keeps_bind; [typeclasses eauto|by apply Hbatch|keeps_auto].
Qed.

Lemma checkpoint_keeps l : keeps R (getCheckpointValue l).
Proof using PreOrder0. unfold getCheckpointValue, getMeta. keeps_auto. Qed.

Lemma lane_loop_keeps cfg fuel cur latest : keeps R (lane_loop fuel cfg lane cur latest).
Proof using PreOrder0 Hlogs Hpages Hbatch.
  revert cur. induction fuel as [|f IH]; intros cur; cbn [lane_loop]; destruct (latest <? cur); try solve [keeps_auto].
  unfold processRange. apply keeps_bind; [typeclasses eauto| |done].
  apply keeps_bind; [typeclasses eauto|apply range_loop_keeps|keeps_auto].
Qed.

Lemma processLane_keeps cfg latest : keeps R (processLaneUntil cfg lane latest).
Proof using PreOrder0 Hlogs Hpages Hbatch.
  unfold processLaneUntil, getNextStartBlock. pose proof lane_loop_keeps. pose proof checkpoint_keeps. keeps_auto; auto.
Qed.
End LaneKeeps.

(** ** The rows of [failed_events] are the logs they stand for *)

Section Faithful.
Context `{F : Faults, C : Chain, LP : LogProvider, AC : AccessChain, OC : OracleChain}.
Context (on_chain : Log -> Prop) (hub : jsstring).

Definition faithful (d : Db) : Prop := forall log row, on_chain log ->
  failed_events d !! failed_key hub log = Some row -> fl_topics row = lg_topics log /\ fl_data row = lg_data log.
Definition stays_faithful (d d' : Db) : Prop := faithful d -> faithful d'.
#[export] Instance stays_faithful_preorder : PreOrder stays_faithful.
Proof. split; unfold stays_faithful; [by intros d|]. intros d1 d2 d3 ? ?. auto. Qed.

(** A log of contract [a] as it is on the chain: whatever transfer has its
    key has its contents. *)
Definition real (a : jsstring) (log : Log) : Prop := forall log', on_chain log' ->
  failed_key hub log' = failed_key a log -> lg_topics log' = lg_topics log /\ lg_data log' = lg_data log.

Lemma faithful_same d d' : failed_events d' = failed_events d -> stays_faithful d d'.
Proof using. intros E. unfold stays_faithful, faithful. by rewrite E. Qed.

Lemma execute_faithful f : (forall d, failed_events (f d) = failed_events d) -> keeps stays_faithful (execute f).
Proof using. intros Hf. apply keeps_execute; [typeclasses eauto|]. intros d. by apply faithful_same. Qed.
Lemma sql_faithful {A} (f : Db -> A * Db) : (forall d, failed_events (f d).2 = failed_events d) -> keeps stays_faithful (sql f).
Proof using. intros Hf. apply keeps_sql; [typeclasses eauto|]. intros d. by apply faithful_same. Qed.

Lemma recordFailed_faithful a log e : real a log -> keeps stays_faithful (recordFailedEvent a log e).
Proof using.
  intros Hr. apply keeps_execute; [typeclasses eauto|]. intros d Hd log' row Hc. cbn.
  destruct (decide (failed_key a log = failed_key hub log')) as [Hk|Hk]; [|rewrite lookup_insert_ne by done; by apply Hd].
  rewrite Hk, lookup_insert_eq. intros [= <-].
  destruct (failed_events d !! failed_key hub log') as [r|] eqn:Hf; cbn; [by eapply Hd|].
  destruct (Hr log') as [E1 E2]; [done..|]. by rewrite E1, E2.
Qed.

Lemma retry_keeps {A} (R : Db -> Db -> Prop) `{!PreOrder R} (fn : M A) : keeps R fn -> keeps R (runWithRetry fn).
Proof using.
  intros Hf. unfold runWithRetry. generalize RETRY_MAX as n. induction n as [|n IH]; cbn [retry_loop]; keeps_auto; done.
Qed.

(** Statements that do not touch [failed_events]. *)
Ltac frame := intros; repeat case_match; done.
Ltac faithful_auto :=
  repeat first [keeps_step | apply retry_keeps; [typeclasses eauto|] | apply execute_faithful; frame | apply sql_faithful; frame].

Lemma setBalance_faithful a t b ts : keeps stays_faithful (setBalance a t b ts).
Proof using. unfold setBalance. faithful_auto. Qed.
Lemma ensureToken_faithful t : keeps stays_faithful (ensureToken t).
Proof using. unfold ensureToken, selectToken, or_null. faithful_auto. Qed.
#[local] Hint Resolve setBalance_faithful ensureToken_faithful : keeps.
Lemma reconcile_faithful t l ts : keeps stays_faithful (reconcileTransferStateFromChain t l ts).
Proof using. unfold reconcileTransferStateFromChain, getBalance, getHolderCount, setTokenState. faithful_auto. Qed.
Lemma sync_faithful t : keeps stays_faithful (syncTokenTransfersFromEvents t).
Proof using. unfold syncTokenTransfersFromEvents. faithful_auto. Qed.
Lemma timestamp_faithful b : keeps stays_faithful (getBlockTimestamp b).
Proof using. unfold getBlockTimestamp. faithful_auto. Qed.
Lemma insertEvent_faithful k r : keeps stays_faithful (insertEvent k r).
Proof using. unfold insertEvent. faithful_auto. Qed.
Lemma setCheckpoint_faithful l e : keeps stays_faithful (setLaneCheckpoint l e).
Proof using. unfold setLaneCheckpoint, setMeta, getCheckpointValue, getMeta. faithful_auto. Qed.
Lemma processSingleLog_faithful a log ts : keeps stays_faithful (processSingleLog a log ts).
Proof using.
  unfold processSingleLog, insertRoleEvent, applyRoleEvent, upsertRoleMember, deleteRoleMember, upsertRoleAdmin.
  faithful_auto.
Qed.
Lemma storeOracle_faithful a log ts : keeps stays_faithful (processAndStoreOracleExecutionLog a log ts).
Proof using.
  unfold processAndStoreOracleExecutionLog, processOracleExecutionLog, getDecodedOracleTransaction, insertOracleExecution.
  faithful_auto.
Qed.
End Faithful.

#[export] Hint Resolve setBalance_faithful ensureToken_faithful reconcile_faithful sync_faithful timestamp_faithful
  insertEvent_faithful setCheckpoint_faithful processSingleLog_faithful storeOracle_faithful recordFailed_faithful : keeps.

(** ** Batches *)

Section Batches.
Context `{F : Faults, C : Chain, LP : LogProvider, AC : AccessChain, OC : OracleChain}.
Context (on_chain : Log -> Prop) (hub : jsstring).
Let ok (lane : Lane) := real on_chain hub (ln_contract lane).
Let Rf := stays_faithful on_chain hub.

Lemma map_get_real lane k (m : TouchedLogs) :
  Forall (fun p => Forall (ok lane) p.2) m -> Forall (ok lane) (default [] (map_get k m)).
Proof using.
  induction m as [|[k' v] m IH]; cbn; [constructor|]. intros [Hv Hm]%Forall_cons. case_decide; auto.
Qed.
Lemma map_set_real lane k v (m : TouchedLogs) :
  Forall (ok lane) v -> Forall (fun p => Forall (ok lane) p.2) m -> Forall (fun p => Forall (ok lane) p.2) (map_set k v m).
Proof using.
  intros Hv. induction m as [|[k' v'] m IH]; cbn; [by repeat constructor|].
  intros [Hv' Hm]%Forall_cons. case_decide; constructor; auto.
Qed.

Lemma transfer_log_faithful lane cp st log w : ok lane log -> Forall (fun p => Forall (ok lane) p.2) st.2 ->
  wp (process_transfer_log lane cp st log)
     (fun st' w' => Rf (w_db w) (w_db w') /\ Forall (fun p => Forall (ok lane) p.2) st'.2)
     (fun _ w' => Rf (w_db w) (w_db w')) w.
Proof using.
  intros Hlog Hst.
  assert (wp (process_transfer_log lane cp st log) (fun st' _ => Forall (fun p => Forall (ok lane) p.2) st'.2)
             (fun _ _ => True) w) as Hpost.
  { assert (forall e w', wp (_ ← recordFailedEvent (ln_contract lane) log e; mret st)
      (fun st' _ => Forall (fun p => Forall (ok lane) p.2) st'.2) (fun _ _ => True) w') as Hcatch.
    { intros e w'. apply wp_bind, wp_sql; [|done|done]. by apply wp_ret. }
    unfold process_transfer_log. apply wp_try. destruct (parseTransferLog log) as [t|]; [|by apply wp_ret].
    destruct (shouldSkipTokenId (pt_tokenId t)); [by apply wp_ret|]. apply wp_bind.
    eapply wp_conseq; [apply (timestamp_grows lane)| |intros; apply Hcatch]. intros ts w1 _. apply wp_bind, wp_tx.
    eapply wp_conseq; [apply (insertEvent_grows lane)| |intros; apply Hcatch].
    intros n w2 _. split_and!; [|intros; apply Hcatch..]. apply wp_ret. case_match; [|done].
    cbn [snd]. apply map_set_real; [|done]. apply Forall_app. split; [by apply map_get_real|by constructor]. }
  assert (keeps Rf (process_transfer_log lane cp st log)) as Hk.
  { unfold process_transfer_log, insertParsedTransferLog. keeps_auto. }
  eapply wp_conseq; [apply wp_and; [apply Hk|apply Hpost]|done|]. by intros e w' [H _].
Qed.

Lemma touched_faithful lane (m : TouchedLogs) e : Forall (fun p => Forall (ok lane) p.2) m ->
  keeps Rf (process_touched_token lane m e).
Proof using.
  intros Hm. unfold process_touched_token. cbv zeta. pose proof (map_get_real lane e.1 m Hm) as Hl.
  rewrite Forall_forall in Hl. keeps_auto; by apply recordFailed_faithful, Hl.
Qed.

Lemma transfers_faithful lane logs : Forall (ok lane) logs -> keeps Rf (processTransferLogs lane logs).
Proof using.
  intros Hl w. unfold processTransferLogs. apply wp_bind.
  eapply wp_conseq; [apply (checkpoint_keeps Rf)| |done]. intros cp w1 H1. apply wp_bind. eapply wp_conseq.
  - apply (wp_foldM (fun _ st w' => Rf (w_db w) (w_db w') /\ Forall (fun p => Forall (ok lane) p.2) st.2)
             _ (fun _ w' => Rf (w_db w) (w_db w'))); [by split; [|constructor]|].
    intros p x post st w2 E [H2 Hst]. eapply wp_conseq; [apply transfer_log_faithful; [|done]| |].
    + rewrite E in Hl. by apply Forall_app in Hl as [_ [Hx _]%Forall_cons].
    + intros st' w3 [H3 Hst']. split; [by etrans|done].
    + intros e w3 H3. by etrans.
  - intros st w2 [H2 Hst]. assert (keeps Rf (forM_ st.1 (process_touched_token lane st.2))) as Hk.
    { apply keeps_forM_; [typeclasses eauto|]. intros x _. by apply touched_faithful. }
    eapply wp_conseq; [apply Hk|intros; cbn in *; by etrans..].
  - done.
Qed.

(** A lane whose own processing leaves [failed_events] alone. *)
Definition lane_frame (lane : Lane) : Prop :=
  (forall f log ts, ln_processLog lane = Some f -> keeps Rf (f log ts)) /\
  (forall f, ln_afterBatch lane = Some f -> keeps Rf f).

Lemma run_batch_faithful lane logs e : lane_frame lane -> Forall (ok lane) logs -> keeps Rf (run_batch lane logs e).
Proof using.
  intros [Hp Ha] Hl. unfold run_batch. apply keeps_bind; [typeclasses eauto| |intros; eauto with keeps].
  assert (keeps Rf (processLogs lane logs)) as Hk; [|destruct logs; [keeps_auto|exact Hk]].
  assert (keeps Rf (default (mret tt) (ln_afterBatch lane))) as Hafter.
  { destruct (ln_afterBatch lane) eqn:E; cbn; [by apply Ha|keeps_auto]. }
  unfold processLogs. destruct (ln_token lane).
  - apply keeps_bind; [typeclasses eauto|by apply transfers_faithful|done].
  - destruct (ln_processLog lane) as [f|] eqn:E; [|keeps_auto].
    apply keeps_bind; [typeclasses eauto| |done]. apply keeps_forM_; [typeclasses eauto|]. intros log Hlog.
    rewrite Forall_forall in Hl. unfold process_log.
    apply keeps_try; [typeclasses eauto| |intros; by apply recordFailed_faithful, Hl]. keeps_auto; by apply Hp.
Qed.
End Batches.

(** ** The other lanes leave the transfer lane's promise alone *)

Section OtherLanes.
Context `{F : Faults, C : Chain, LP : LogProvider, AC : AccessChain, OC : OracleChain}.
Context (tl : Lane).

Lemma setMeta_grows k v : k <> ln_metaKey tl -> ln_legacyKey tl <> Some k -> keeps (grows tl) (setMeta k v).
Proof using.
  intros H1 H2. apply keeps_execute; [typeclasses eauto|]. intros d. split; [done..|].
  unfold stored_checkpoint. cbn. rewrite lookup_insert_ne by done. case_match; [done|].
  destruct (ln_legacyKey tl); [|done]. rewrite lookup_insert_ne by congruence. done.
Qed.

Lemma processSingleLog_grows a log ts : keeps (grows tl) (processSingleLog a log ts).
Proof using.
  unfold processSingleLog, applyRoleEvent, upsertRoleMember, deleteRoleMember, upsertRoleAdmin.
  apply retry_keeps; [typeclasses eauto|]. keeps_auto.
Qed.
Lemma storeOracle_grows a log ts : keeps (grows tl) (processAndStoreOracleExecutionLog a log ts).
Proof using.
  unfold processAndStoreOracleExecutionLog, processOracleExecutionLog, getDecodedOracleTransaction. keeps_auto.
Qed.

Definition lane_apart (lane : Lane) : Prop :=
  ln_token lane = false /\ ln_metaKey lane <> ln_metaKey tl /\ ln_legacyKey tl <> Some (ln_metaKey lane) /\
  (forall f log ts, ln_processLog lane = Some f -> keeps (grows tl) (f log ts)) /\
  (forall f, ln_afterBatch lane = Some f -> keeps (grows tl) f).

Lemma run_batch_grows lane logs e : lane_apart lane -> keeps (grows tl) (run_batch lane logs e).
Proof using.
  intros (Ht & Hm & Hl & Hp & Ha). unfold run_batch. apply keeps_bind; [typeclasses eauto| |].
  - assert (keeps (grows tl) (processLogs lane logs)) as Hk; [|destruct logs; [keeps_auto|exact Hk]].
    unfold processLogs. rewrite Ht. destruct (ln_processLog lane) as [f|] eqn:E; [|keeps_auto].
    apply keeps_bind; [typeclasses eauto| |].
    + unfold process_log. keeps_auto; by apply Hp.
    + intros _. destruct (ln_afterBatch lane) eqn:Ea; cbn; [by apply Ha|keeps_auto].
  - intros _. unfold setLaneCheckpoint. apply keeps_bind; [typeclasses eauto|apply checkpoint_grows|].
    intros cp. by apply setMeta_grows.
Qed.

Lemma processLane_grows cfg lane latest : lane_apart lane -> keeps (grows tl) (processLaneUntil cfg lane latest).
Proof using.
  intros Ha. apply (processLane_keeps _ lane (fun _ => True)).
  1,2: intros; by apply Forall_true.
  intros. by apply run_batch_grows.
Qed.
End OtherLanes.

(** ** Replaying a failed log *)

Lemma wp_retry `{C : Chain} {A} (I : World -> Prop) (fn : M A) Q w :
  I w -> (forall w, I w -> wp fn Q (fun _ => I) w) -> wp (runWithRetry fn) Q (fun _ => I) w.
Proof.
  intros Hw Hf. unfold runWithRetry. revert w Hw. induction RETRY_MAX as [|n IH]; intros w Hw; cbn [retry_loop];
    apply wp_try; (eapply wp_conseq; [by apply Hf|done|]); intros e w' Hw'; 
    destruct (negb (isRetryablePgError e)); first [by apply wp_throw|by apply IH].
Qed.

Section Retry.
Context `{F : Faults, C : Chain, LP : LogProvider, AC : AccessChain, OC : OracleChain}.
Context (on_chain : Log -> Prop) (hub oracle : jsstring) (Hhub : toLowerCase hub = hub) (tl : Lane) (Htl : ln_contract tl = hub).

(** Dealt with for good: undecodable, skipped or stored. *)
Definition stored (d : Db) (log : Log) : Prop :=
  match parseTransferLog log with
  | None => True
  | Some t => shouldSkipTokenId (pt_tokenId t) = true \/ is_Some (events d !! event_key log)
  end.

(** The relation a run of the retry job keeps. *)
Definition loses_nothing (d d' : Db) : Prop := faithful on_chain hub d ->
  faithful on_chain hub d' /\ stored_checkpoint tl d' = stored_checkpoint tl d /\
  forall log, on_chain log -> accounted tl d log -> accounted tl d' log.
#[export] Instance loses_nothing_preorder : PreOrder loses_nothing.
Proof.
  split; unfold loses_nothing; [by intros d|]. intros d1 d2 d3 H1 H2 Hd.
  destruct (H1 Hd) as (A1 & B1 & C1). destruct (H2 A1) as (A2 & B2 & C2). split_and!; [done|congruence|auto].
Qed.

Lemma grows_loses_nothing d d' :
  grows tl d d' -> failed_events d' = failed_events d -> loses_nothing d d'.
Proof using.
  intros G E Hd. split_and!; [by apply (faithful_same _ _ _ _ E)|apply G|].
  intros log _. by apply accounted_grows.
Qed.

Definition same_failed (d d' : Db) : Prop := failed_events d' = failed_events d.
#[export] Instance same_failed_preorder : PreOrder same_failed.
Proof. split; unfold same_failed; [by intros d|]. intros d1 d2 d3 E1 E2. congruence. Qed.

Lemma replay_same_failed a log : keeps same_failed (replay_failed_log hub oracle a log).
Proof using.
  assert (forall f, (forall d, failed_events (f d) = failed_events d) -> keeps same_failed (execute f)) as He.
  { intros f Hf. apply keeps_execute; [typeclasses eauto|exact Hf]. }
  assert (forall A (f : Db -> A * Db), (forall d, failed_events (f d).2 = failed_events d) -> keeps same_failed (sql f)) as Hs.
  { intros A f Hf. apply keeps_sql; [typeclasses eauto|exact Hf]. }
  unfold replay_failed_log, replayTransferLogFromChain, insertParsedTransferLog, insertEvent, reconcileTransferStateFromChain,
    ensureToken, selectToken, or_null, getBalance, setBalance, getHolderCount, setTokenState, syncTokenTransfersFromEvents,
    getBlockTimestamp, processAndStoreOracleExecutionLog, processOracleExecutionLog, getDecodedOracleTransaction,
    insertOracleExecution, insertRoleEvent, reconcileRoleStateFromChain, upsertRoleMember, deleteRoleMember, upsertRoleAdmin.
  repeat first [keeps_step | apply He; done | apply Hs; intros; repeat case_match; done].
Qed.

Lemma replay_grows a log : keeps (grows tl) (replay_failed_log hub oracle a log).
Proof using.
  unfold replay_failed_log, replayTransferLogFromChain, insertParsedTransferLog, reconcileRoleStateFromChain,
    upsertRoleMember, deleteRoleMember, upsertRoleAdmin.
  pose proof (storeOracle_grows tl). keeps_auto; done.
Qed.

(** A transfer whose replay returns is stored. *)
Lemma replay_stores log w :
  wp (replay_failed_log hub oracle hub log) (fun _ w' => stored (w_db w') log) (fun _ _ => True) w.
Proof using Hhub tl.
  unfold replay_failed_log. rewrite Hhub. rewrite (bool_decide_eq_true_2 (hub = hub)) by done. cbn [orb negb].
  assert (forall d, parseTransferLog log = None -> stored d log) as Hnone by (intros d E; unfold stored; by rewrite E).
  destruct (parseTransferLog log) as [t|] eqn:Hp.
  - assert (forall d, shouldSkipTokenId (pt_tokenId t) = true \/ is_Some (events d !! event_key log) -> stored d log) as Hs
      by (intros d H; unfold stored; by rewrite Hp).
    assert (wp (timestamp ← getBlockTimestamp (lg_block log);
                if shouldSkipTokenId (pt_tokenId t) then mret tt
                else _ ← replayTransferLogFromChain t log timestamp; mret tt)
               (fun _ w' => stored (w_db w') log) (fun _ _ => True) w) as H; [|by repeat case_match].
    apply wp_bind. eapply wp_conseq; [apply (timestamp_grows tl)| |done]. intros ts w1 _.
    destruct (shouldSkipTokenId (pt_tokenId t)); [apply wp_ret; auto|].
    unfold replayTransferLogFromChain. do 2 apply wp_bind.
    eapply wp_conseq; [apply insertEvent_inserted| |done]. intros n w2 Hev. apply wp_bind.
    eapply wp_conseq; [apply (reconcile_grows tl)| |done]. intros u w3 G3. apply wp_bind.
    eapply wp_conseq; [apply (sync_grows tl)| |done]. intros u' w4 G4. apply wp_ret, wp_ret, Hs. right.
    destruct Hev as [r Hr]. exists r. eapply lookup_weaken; [eapply lookup_weaken; [exact Hr|apply G3]|apply G4].
  - unfold wp. case_match eqn:E. destruct r; [by apply Hnone|done].
Qed.

Lemma stored_accounted d log : stored d log -> accounted tl d log.
Proof using. unfold stored, accounted. destruct (parseTransferLog log); [intros [H|H]; auto|done]. Qed.

Lemma failed_key_lower a : (failed_key hub a).1.1.1 = hub.
Proof using Hhub. exact Hhub. Qed.

Definition row_faithful (p : (jsstring * Z * Z * jsstring) * FailedRow) : Prop := forall log, on_chain log ->
  failed_key hub log = p.1 -> fl_topics p.2 = lg_topics log /\ fl_data p.2 = lg_data log.

Lemma row_log_eq p log : row_faithful p -> on_chain log -> failed_key hub log = p.1 -> row_log p.1 p.2 = log.
Proof using.
  intros Hp Hc Hk. destruct (Hp log Hc Hk) as [E1 E2]. unfold row_log. rewrite <- Hk, E1, E2. by destruct log.
Qed.

Lemma delete_loses_nothing (p : (jsstring * Z * Z * jsstring) * FailedRow) d :
  (forall log, on_chain log -> failed_key hub log = p.1 -> stored d log) -> loses_nothing d (set_failed (delete p.1) d).
Proof using Htl.
  intros Hs Hd. split_and!; [|done|].
  - intros log row Hc. cbn. intros [_ H]%lookup_delete_Some. by eapply Hd.
  - intros log Hc. destruct (decide (failed_key hub log = p.1)) as [Hk|Hk].
    + intros _. apply stored_accounted. by apply (Hs log).
    + unfold accounted. destruct (parseTransferLog log); [|done]. cbn. rewrite Htl, lookup_delete_ne by done. done.
Qed.

Lemma mark_loses_nothing p e : keeps loses_nothing (execute (set_failed (alter (retried e) p))).
Proof using Htl.
  apply keeps_execute; [typeclasses eauto|]. intros d Hd. split_and!; [|done|].
  - intros log row Hc. cbn. destruct (decide (failed_key hub log = p)) as [<-|Hn].
    + rewrite lookup_alter_eq. intros (r & Hr & ->)%fmap_Some. by eapply (Hd log r).
    + rewrite lookup_alter_ne by done. by apply Hd.
  - intros log Hc. unfold accounted. destruct (parseTransferLog log); [|done]. cbn. rewrite lookup_alter_is_Some. done.
Qed.

Lemma retry_row_loses_nothing p : row_faithful p -> keeps loses_nothing (retry_row hub oracle p).
Proof using Hhub Htl.
  intros Hp w. assert (forall e w', loses_nothing (w_db w) (w_db w') ->
    wp (execute (set_failed (alter (retried e) p.1))) (fun _ w'' => loses_nothing (w_db w) (w_db w''))
       (fun _ w'' => loses_nothing (w_db w) (w_db w'')) w') as Hmark.
  { intros e w' H. eapply wp_conseq; [apply mark_loses_nothing|intros; cbn in *; by etrans..]. }
  unfold retry_row. apply wp_try, wp_bind. eapply wp_conseq.
  - apply (wp_retry (fun w' => loses_nothing (w_db w) (w_db w')) _
      (fun _ w' => loses_nothing (w_db w) (w_db w') /\
                   forall log, on_chain log -> failed_key hub log = p.1 -> stored (w_db w') log)); [reflexivity|].
    intros w1 H1. assert (wp (replay_failed_log hub oracle p.1.1.1.1 (row_log p.1 p.2))
       (fun _ w' => forall log, on_chain log -> failed_key hub log = p.1 -> stored (w_db w') log) (fun _ _ => True) w1) as Hst.
    { destruct (decide (p.1.1.1.1 = hub)) as [->|Hn].
      - eapply wp_conseq; [apply replay_stores| |done]. intros u w' H log Hc Hk. by rewrite (row_log_eq p log) in H.
      - unfold wp. case_match. destruct r; [|done]. intros log Hc Hk. destruct Hn. by rewrite <- Hk, failed_key_lower. }
    eapply wp_conseq; [apply wp_and; [apply wp_and; [apply replay_grows|apply replay_same_failed]|apply Hst]| |].
    + intros u w' [[G E] H]. split; [|done]. etrans; [exact H1|by apply grows_loses_nothing].
    + intros e w' [[G E] _]. etrans; [exact H1|by apply grows_loses_nothing].
  - intros u w' [H1 Hst]. pose proof (delete_loses_nothing p _ Hst) as H2.
    apply wp_sql; [by etrans|intros; apply Hmark; by etrans|intros; by apply Hmark].
  - intros e w' H1. by apply Hmark.
Qed.

Lemma failed_faithful d p : faithful on_chain hub d -> p ∈ select_failed d -> row_faithful p.
Proof using.
  intros Hd Hp log Hc Hk. eapply Hd; [done|]. rewrite Hk. apply elem_of_map_to_list.
  apply elem_of_take in Hp as (i & Hi & _). apply list_elem_of_lookup_2 in Hi. rewrite merge_sort_Permutation in Hi.
  by destruct p.
Qed.

(** However it ends, a run of the retry job loses nothing. *)
Lemma retry_job_loses_nothing w : faithful on_chain hub (w_db w) ->
  wp (retry_failed_events hub oracle) (fun _ w' => loses_nothing (w_db w) (w_db w')) (fun _ _ => False) w.
Proof using Hhub Htl.
  intros Hd. unfold retry_failed_events. apply wp_try.
  apply (wp_conseq _ (fun _ w' => loses_nothing (w_db w) (w_db w')) _ (fun _ w' => loses_nothing (w_db w) (w_db w'))); [|done|intros; by apply wp_ret].
  apply wp_bind, wp_sql; [|intros; cbn; reflexivity..]. cbn [fst snd].
  assert (keeps loses_nothing (forM_ (select_failed (w_db w)) (retry_row hub oracle))) as Hk.
  { apply keeps_forM_; [typeclasses eauto|]. intros p Hp. apply retry_row_loses_nothing. by eapply failed_faithful. }
  exact (Hk (advance (w_db w) w)).
Qed.
End Retry.

(** ** The process *)

(** The poller and the retry job have caches of their own. *)
Record System := {
  sys_db : Db; sys_time : nat;
  poll_cache : gmap Z Z; poll_txs : gmap jsstring (list DecodedOracleTransaction);
  retry_cache : gmap Z Z; retry_txs : gmap jsstring (list DecodedOracleTransaction) }.

Definition poll_world (s : System) : World :=
  {| w_db := sys_db s; w_time := sys_time s; w_cache := poll_cache s; w_updated := 0; w_txs := poll_txs s |}.
Definition retry_world (s : System) : World :=
  {| w_db := sys_db s; w_time := sys_time s; w_cache := retry_cache s; w_updated := 0; w_txs := retry_txs s |}.
Definition after_poll (s : System) (w : World) : System := {|
  sys_db := w_db w; sys_time := w_time w; poll_cache := w_cache w; poll_txs := w_txs w;
  retry_cache := retry_cache s; retry_txs := retry_txs s |}.
Definition after_retry (s : System) (w : World) : System := {|
  sys_db := w_db w; sys_time := w_time w; poll_cache := poll_cache s; poll_txs := poll_txs s;
  retry_cache := w_cache w; retry_txs := w_txs w |}.

Section Process.
Context `{F : Faults, C : Chain, LP : LogProvider, AC : AccessChain, OC : OracleChain}.
Context (cfg : IndexerConfig) (hub oracle : jsstring) (hubStart oracleStart overlap : Z)
        (transferTopics roleTopics executionTopics : list (list jsstring)).
Let tl := transfer_lane hub hubStart overlap transferTopics.
Let poll' := poll cfg hub oracle hubStart oracleStart overlap transferTopics roleTopics executionTopics.

Inductive step : System -> System -> Prop :=
| step_poll s : step s (after_poll s (poll' (poll_world s)).2)
| step_retry s : step s (after_retry s (retry_failed_events hub oracle (retry_world s)).2)
| step_reconcile s : step s (after_poll s (reconcile (poll_world s)).2)
| step_refresh s address : step s (after_poll s (refreshAddressBalances address (poll_world s)).2)
| step_restart s t : (sys_time s <= t)%nat ->
    step s {| sys_db := sys_db s; sys_time := t; poll_cache := ∅; poll_txs := ∅; retry_cache := ∅; retry_txs := ∅ |}.

(** What the lanes assume of the chain and its provider. *)
Record honest_chain (chain : jsstring -> Log -> Prop) (transfers : Log -> Prop) : Prop := {
  hc_sub : forall log, transfers log -> chain hub log;
  hc_id : forall a b l1 l2, chain a l1 -> chain b l2 -> failed_key a l1 = failed_key b l2 -> l1 = l2;
  hc_logs : forall t a topics s e logs, getLogs t a topics s e = Ok logs -> Forall (chain a) logs;
  hc_pages : forall t a topics s e c page next,
    getLogsWithCursor t a topics s e c = Ok (page, next) -> Forall (chain a) page;
  hc_complete : honest_provider transfers tl;
  hc_height : forall t n, getBlockNumber t = Ok n -> n + overlap <= 2 ^ 53 }.

Context (chain : jsstring -> Log -> Prop) (transfers : Log -> Prop) (Hchain : honest_chain chain transfers).
Context (Hhub : toLowerCase hub = hub) (Hbatch : 1 <= batchSize cfg) (Hstart : 0 <= hubStart)
        (Hconf : 0 <= confirmationBlocks cfg) (Hoverlap : 0 <= overlap <= 2 ^ 53).

Definition safe (d : Db) : Prop := covered transfers tl d /\ faithful transfers hub d.

Lemma real_of_chain lane : forall log, chain (ln_contract lane) log -> real transfers hub (ln_contract lane) log.
Proof using Hchain.
  intros log Hc log' Ht Hk. pose proof (hc_id _ _ Hchain _ _ _ _ (hc_sub _ _ Hchain _ Ht) Hc Hk) as ->. done.
Qed.

Lemma lane_stays_faithful lane latest : lane_frame transfers hub lane ->
  keeps (stays_faithful transfers hub) (processLaneUntil cfg lane latest).
Proof using Hchain.
  intros Hf. apply (processLane_keeps _ lane (real transfers hub (ln_contract lane))).
  - intros t s e logs H. eapply Forall_impl; [exact (hc_logs _ _ Hchain _ _ _ _ _ _ H)|apply real_of_chain].
  - intros t s e c page next H. eapply Forall_impl; [exact (hc_pages _ _ Hchain _ _ _ _ _ _ _ _ H)|apply real_of_chain].
  - intros logs e Hl. by apply run_batch_faithful.
Qed.

Definition other_lanes : list Lane := tail (lanes hub oracle hubStart oracleStart overlap transferTopics roleTopics executionTopics).

Lemma other_lane lane (f : Log -> Z -> M unit) :
  ln_token lane = false -> ln_processLog lane = Some f -> ln_metaKey lane <> ln_metaKey tl ->
  ln_legacyKey tl <> Some (ln_metaKey lane) ->
  (forall log ts, keeps (stays_faithful transfers hub) (f log ts) /\ keeps (grows tl) (f log ts)) ->
  ln_afterBatch lane = None \/ ln_afterBatch lane = Some (setTxs ∅) ->
  lane_frame transfers hub lane /\ lane_apart tl lane.
Proof using.
  intros Ht Hp Hm Hl Hf Ha.
  assert (forall R g, PreOrder R -> ln_afterBatch lane = Some g -> keeps R g) as Hafter.
  { intros R g HR Hg. destruct Ha as [Ha|Ha]; rewrite Ha in Hg; [done|]. injection Hg as <-. by apply keeps_setTxs. }
  split; [split|split_and!]; try done.
  - intros f' log ts E. rewrite Hp in E. injection E as <-. apply Hf.
  - intros g Hg. eapply Hafter; [typeclasses eauto|done].
  - intros f' log ts E. rewrite Hp in E. injection E as <-. apply Hf.
  - intros g Hg. eapply Hafter; [typeclasses eauto|done].
Qed.

Lemma others_frame : Forall (fun lane => lane_frame transfers hub lane /\ lane_apart tl lane) other_lanes.
Proof using.
  repeat (apply List.Forall_cons; [eapply other_lane; [done|done| | |intros log ts; split|auto]|]); [..|apply List.Forall_nil].
  all: try (cbn; intros E; vm_compute in E; discriminate).
  all: eauto using processSingleLog_grows with keeps.
  - apply keeps_bind; [typeclasses eauto|apply storeOracle_faithful|keeps_auto].
  - apply keeps_bind; [typeclasses eauto|apply storeOracle_grows|keeps_auto].
Qed.

Lemma poll_safe s : safe (sys_db s) -> safe (w_db (poll' (poll_world s)).2).
Proof using Hchain Hbatch Hstart Hconf Hoverlap.
  intros Hs. assert (wp poll' (fun _ w => safe (w_db w)) (fun _ w => safe (w_db w)) (poll_world s)) as H.
  { unfold poll', poll, poll_lanes. apply wp_try, wp_bind, wp_rpc; [|intros; by apply wp_ret].
    intros n Hn. pose proof (hc_height _ _ Hchain _ _ Hn) as Hh. set (latest := Z.max 0 _).
    apply (wp_conseq _ (fun _ w => safe (w_db w)) _ (fun _ w => safe (w_db w))); [|done|intros e w He; by apply wp_ret].
    apply (wp_forM_ (fun w => safe (w_db w)) _ (fun _ w => safe (w_db w))); [done|].
    intros lane w Hl [Hc Hf].
    assert (lane = tl \/ lane_frame transfers hub lane /\ lane_apart tl lane) as Hlane.
    { apply elem_of_cons in Hl as [->|Hl]; [by left|right]. by apply (proj1 (Forall_forall _ _) others_frame). }
    assert (lane_frame transfers hub lane) as Hframe by (destruct Hlane as [->|[Hx _]]; [by split|done]).
    assert (wp (processLaneUntil cfg lane latest) (fun _ w' => covered transfers tl (w_db w'))
              (fun _ w' => covered transfers tl (w_db w')) w) as Hcov.
    { destruct Hlane as [->|[_ Ha]].
      - eapply wp_conseq; [apply (processLane_covered transfers tl); try done|by intros ? ? [? _]|done].
        + apply Hchain.
        + cbn. lia.
        + cbn. lia.
      - eapply wp_conseq; [by apply (processLane_grows tl)|intros; cbn in *; by eapply covered_grows..]. }
    eapply wp_conseq; [apply wp_and; [exact Hcov|apply (lane_stays_faithful lane latest Hframe)]| |];
      intros ? ? [? H]; split; auto. }
  unfold wp in H. by destruct (poll' (poll_world s)) as [[] ?].
Qed.

Lemma keeps_safe {A} (c : M A) w : keeps (grows tl) c -> keeps (stays_faithful transfers hub) c ->
  safe (w_db w) -> safe (w_db (c w).2).
Proof using.
  intros Hg Hf [S1 S2]. specialize (Hg w). specialize (Hf w). unfold wp in *.
  destruct (c w) as [[a|e] w']; split; auto; by eapply covered_grows.
Qed.

Lemma reconcile_keeps (R : Db -> Db -> Prop) `{!PreOrder R} :
  (forall f d, R d (set_tokens f d)) -> keeps R reconcile.
Proof using.
  intros HR. unfold reconcile, reconcile_token.
  repeat first [keeps_step | apply retry_keeps; [done|] | apply keeps_execute; [done|]]. auto.
Qed.

Lemma refresh_keeps (R : Db -> Db -> Prop) `{!PreOrder R} address :
  (forall f d, R d (set_tokens f d)) -> (forall f d, R d (set_balances f d)) -> keeps R (refreshAddressBalances address).
Proof using.
  intros HT HB. unfold refreshAddressBalances, read_chain_balance, refresh_item, getBalance, setBalance, or_null.
  repeat first [keeps_step | apply retry_keeps; [done|] | apply keeps_execute; [done|]]; auto.
Qed.

Lemma step_safe s s' : step s s' -> safe (sys_db s) -> safe (sys_db s').
Proof using Hchain Hbatch Hstart Hconf Hoverlap Hhub.
  intros [] Hs; cbn; [by apply poll_safe| | | |done].
  - destruct Hs as [S1 S2].
    pose proof (retry_job_loses_nothing transfers hub oracle Hhub tl eq_refl (retry_world s0) S2) as H.
    unfold wp in H. destruct (retry_failed_events hub oracle (retry_world s0)) as [[] w]; [|done]. cbn.
    destruct (H S2) as (H1 & H2 & H3). split; [|done].
    intros n. unfold lane_checkpoint. rewrite H2. intros Hn log Hl Hb. apply H3; [done|]. by apply (S1 n).
  - apply keeps_safe; [| |done]; apply reconcile_keeps; try typeclasses eauto; intros; [apply grows_tokens|by apply faithful_same].
  - apply keeps_safe; [| |done]; apply refresh_keeps; try typeclasses eauto; intros; first [by apply faithful_same|by split].
Qed.

(** Every state reachable from an empty store is safe. *)
Lemma reachable_safe s0 s : meta (sys_db s0) = ∅ -> failed_events (sys_db s0) = ∅ -> rtc step s0 s -> safe (sys_db s).
Proof using Hchain Hbatch Hstart Hconf Hoverlap Hhub.
  intros Hm Hf Hsteps. assert (safe (sys_db s0)) as S0.
  { split; [|intros l row _; by rewrite Hf, lookup_empty]. intros k. unfold lane_checkpoint, stored_checkpoint.
    cbn. by rewrite Hm, !lookup_empty. }
  clear Hm Hf. induction Hsteps as [|s1 s2 s3 Hstep _ IH]; [done|]. apply IH. by eapply step_safe.
Qed.
End Process.
