(* ===== verification/IndexerBalances.v ===== *)
(** * Balances follow the chain

    What [reconcileTransferStateFromChain], [refreshAddressBalances] and the
    reconciler of packages/indexer do to [balances] and [tokens]: a
    reconciliation that returns has copied the chain's answers, and the holder
    count of a token is the number of its balance rows. *)

From S2P Require Import Prelude JsNum JsString IndexerWorld IndexerTransfers IndexerRoles IndexerJobs IndexerProofs IndexerSystem.
Local Open Scope Z_scope.
Local Open Scope js_scope.

(** ** Tracked addresses *)

Lemma elem_js_unique {A} `{EqDecision A} (seen l : list A) x : x ∈ js_unique seen l <-> x ∈ l /\ x ∉ seen.
Proof.
  revert seen. induction l as [|y l IH]; intros seen; cbn.
  - rewrite elem_of_nil. tauto.
  - rewrite elem_of_cons. case_bool_decide as Hy.
    + rewrite IH. split; [tauto|]. intros [[->|H] Hx]; [done|tauto].
    + rewrite elem_of_cons, IH, not_elem_of_cons. destruct (decide (x = y)) as [->|]; tauto.
Qed.

Lemma NoDup_js_unique {A} `{EqDecision A} (seen l : list A) : NoDup (js_unique seen l).
Proof.
  revert seen. induction l as [|y l IH]; intros seen; cbn; [constructor|].
  case_bool_decide; [done|]. constructor; [|done]. rewrite elem_js_unique, not_elem_of_cons. tauto.
Qed.

Lemma elem_tracked a l : a ∈ tracked l <-> a ∈ toLowerCase <$> l /\ isZeroAddress a = false.
Proof.
  unfold tracked. rewrite list_elem_of_In, filter_In, <- list_elem_of_In, elem_js_unique, negb_true_iff.
  rewrite elem_of_nil. tauto.
Qed.

Lemma NoDup_tracked l : NoDup (tracked l).
Proof. unfold tracked. rewrite NoDup_ListNoDup. apply List.NoDup_filter. rewrite <- NoDup_ListNoDup. apply NoDup_js_unique. Qed.

(** ** Counting holders *)

Definition positive (d : Db) : Prop := map_Forall (fun _ r => 0 < bl_balance r) (balances d).
Definition count (m : gmap (jsstring * jsstring) BalanceRow) (t : jsstring) : Z :=
  Z.of_nat (size (filter (fun p => p.1.2 = t) m)).

Lemma count_insert a t r m t' :
  count (<[(a, t) := r]> m) t' = count m t' + (if decide (t = t' /\ m !! (a, t) = None) then 1 else 0).
Proof.
  unfold count. destruct (decide (t = t')) as [->|Ht].
  - rewrite map_filter_insert_True by done. destruct (m !! (a, t')) as [r'|] eqn:E.
    + rewrite decide_False by (intros [_ ?]; done). rewrite map_size_insert_Some; [lia|].
      exists r'. by apply map_lookup_filter_Some.
    + rewrite decide_True by done. rewrite map_size_insert_None; [lia|]. apply map_lookup_filter_None. by left.
  - rewrite decide_False by tauto. rewrite map_filter_insert_False by done. rewrite map_filter_delete_not; [lia|].
    cbn. by intros.
Qed.

Lemma count_delete a t m t' :
  count (delete (a, t) m) t' = count m t' - (if decide (t = t' /\ is_Some (m !! (a, t))) then 1 else 0).
Proof.
  unfold count. rewrite map_filter_delete. destruct (decide (t = t')) as [->|Ht].
  - destruct (m !! (a, t')) as [r|] eqn:E.
    + rewrite decide_True by eauto.
      assert (filter (fun p : jsstring * jsstring * BalanceRow => p.1.2 = t') m !! (a, t') = Some r) as Hf
        by (by apply map_lookup_filter_Some).
      rewrite map_size_delete_Some by eauto.
      enough (0 < size (filter (fun p : jsstring * jsstring * BalanceRow => p.1.2 = t') m))%nat by lia.
      apply Nat.neq_0_lt_0. intros H0%map_size_empty_inv. by rewrite H0, lookup_empty in Hf.
    + rewrite decide_False by (intros [_ [? ?]]; done). rewrite delete_id; [lia|]. apply map_lookup_filter_None. by left.
  - rewrite decide_False by tauto. rewrite delete_id; [lia|]. apply map_lookup_filter_None. right. by intros.
Qed.

(** ** Writing a balance *)

Definition write_balance (a t : jsstring) (b : Z) (ts : option Z) : Db -> Db :=
  if b <=? 0 then set_balances (delete (a, t)) else set_balances (upsert_balance a t b ts).

Lemma setBalance_execute `{F : Faults} a t b ts : setBalance a t b ts = execute (write_balance a t b ts).
Proof. unfold setBalance, write_balance. by destruct (b <=? 0). Qed.

Lemma write_balance_at a t b ts d : balance_of (write_balance a t b ts d) a t = Z.max 0 b.
Proof.
  unfold write_balance, balance_of, upsert_balance. destruct (Z.leb_spec b 0); cbn.
  - rewrite lookup_delete_eq. lia.
  - rewrite lookup_insert_eq. cbn. lia.
Qed.
Lemma write_balance_other a t b ts d k : k <> (a, t) -> balances (write_balance a t b ts d) !! k = balances d !! k.
Proof.
  intros Hk. unfold write_balance, upsert_balance. destruct (b <=? 0); cbn; [by rewrite lookup_delete_ne|by rewrite lookup_insert_ne].
Qed.
Lemma write_balance_tokens a t b ts d : tokens (write_balance a t b ts d) = tokens d.
Proof. unfold write_balance. by destruct (b <=? 0). Qed.
Lemma write_balance_positive a t b ts d : positive d -> positive (write_balance a t b ts d).
Proof.
  intros Hd. unfold write_balance, positive, upsert_balance. destruct (Z.leb_spec b 0); cbn.
  - by apply map_Forall_delete.
  - apply map_Forall_insert_2; [done|exact Hd].
Qed.
Lemma balance_row d a t : positive d -> 0 <= balance_of d a t /\ (balance_of d a t = 0 <-> balances d !! (a, t) = None).
Proof.
  intros Hd. unfold balance_of. destruct (balances d !! (a, t)) as [r|] eqn:E; [|by split; [lia|]].
  pose proof (Hd _ _ E) as Hr. cbn in Hr. split; [lia|]. split; [lia|done].
Qed.
Lemma balance_of_eq d d' a t : balances d' !! (a, t) = balances d !! (a, t) -> balance_of d' a t = balance_of d a t.
Proof. intros E. unfold balance_of. by rewrite E. Qed.

(** ** Reconciliation *)

Lemma forM_foldM {A} (f : A -> M unit) l : forall w, forM_ l f w = foldM (fun _ x => f x) tt l w.
Proof.
  induction l as [|x l IH]; intros w; [done|]. cbn. unfold mbind, M_bind.
  destruct (f x w) as [[[]|e] w']; [apply IH|done].
Qed.

(** A loop whose invariant knows the elements done. *)
Lemma wp_forM_prefix {A} (I : list A -> World -> Prop) (f : A -> M unit) (E : string -> World -> Prop) l w :
  I [] w -> (forall p x post w, l = p ++ x :: post -> I p w -> wp (f x) (fun _ => I (p ++ [x])) E w) ->
  wp (forM_ l f) (fun _ => I l) E w.
Proof.
  intros H0 Hf. unfold wp. rewrite forM_foldM. apply (wp_foldM (fun p _ => I p)); [done|]. intros p x post [] w'. apply Hf.
Qed.

(** The clock never goes back. *)
Definition forward {A} (c : M A) : Prop := forall w, (w_time w <= w_time (c w).2)%nat.
Lemma forward_bind {A B} (c : M A) (f : A -> M B) : forward c -> (forall a, forward (f a)) -> forward (c ≫= f).
Proof.
  intros Hc Hf w. unfold mbind, M_bind. specialize (Hc w). destruct (c w) as [[a|e] w']; cbn in *; [|done].
  specialize (Hf a w'). lia.
Qed.
Lemma forward_ret {A} (a : A) : forward (mret a).
Proof. intros w. cbn. lia. Qed.
Lemma forward_sql `{F : Faults} {A} (f : Db -> A * Db) : forward (sql f).
Proof. intros w. unfold sql. destruct (f (w_db w)). destruct (sql_fault (w_time w)) as [[]|]; cbn; lia. Qed.
Lemma forward_forM_ {A} (l : list A) f : (forall x, forward (f x)) -> forward (forM_ l f).
Proof. intros Hf. induction l; [apply forward_ret|]. by apply forward_bind. Qed.
Lemma wp_forward {A} (c : M A) Q E w : forward c -> wp c Q E w ->
  wp c (fun a w' => Q a w' /\ (w_time w <= w_time w')%nat) E w.
Proof. intros Hc. specialize (Hc w). unfold wp. by destruct (c w) as [[a|e] w']. Qed.

Section Reconcile.
Context `{F : Faults, C : Chain} (tokenId : jsstring).

(** Only [tokens] changes, and there only the row of the token. *)
Record token_frame (w w' : World) : Prop := {
  tf_time : (w_time w <= w_time w')%nat;
  tf_balances : balances (w_db w') = balances (w_db w);
  tf_others : forall t, t <> tokenId -> tokens (w_db w') !! t = tokens (w_db w) !! t }.

Lemma token_frame_refl w w' : w_db w' = w_db w -> (w_time w <= w_time w')%nat -> token_frame w w'.
Proof using. intros E Ht. split; [done|by rewrite E..]. Qed.

#[local] Instance token_frame_trans : Transitive token_frame.
Proof using.
  intros w1 w2 w3 [T1 B1 O1] [T2 B2 O2]. split; [lia|congruence|]. intros t Ht. by rewrite O2, O1.
Qed.

Lemma or_null_frame {A} (f : nat -> result A) w :
  wp (or_null (rpc f)) (fun _ w' => token_frame w w' /\ w_db w' = w_db w) (fun _ _ => False) w.
Proof using.
  unfold or_null. apply wp_try, wp_bind, wp_rpc; intros; apply wp_ret; (split; [apply token_frame_refl; cbn; [done|lia]|done]).
Qed.

Lemma ensureToken_spec w :
  wp (ensureToken tokenId) (fun _ w' => token_frame w w' /\ is_Some (tokens (w_db w') !! tokenId))
     (fun _ w' => token_frame w w') w.
Proof using.
  assert (forall w', w_db w' = w_db w -> (w_time w <= w_time w')%nat -> token_frame w w') as Hr by (intros; by apply token_frame_refl).
  unfold ensureToken, selectToken, query. apply wp_bind, wp_sql; cbn; [|intros; apply Hr; cbn; [done|lia]..].
  destruct (tokens (w_db w) !! tokenId) as [row|] eqn:Ht.
  { apply wp_ret. split; [apply Hr; cbn; [done|lia]|]. cbn. eauto. }
  set (w0 := advance (w_db w) w). assert (token_frame w w0 /\ w_db w0 = w_db w) as [G0 E0] by (split; [apply Hr; cbn; [done|lia]|done]).
  clearbody w0. apply wp_bind. eapply wp_conseq; [apply or_null_frame| |done]. intros name w1 [G1 E1].
  apply wp_bind. eapply wp_conseq; [apply or_null_frame| |done]. intros symbol w2 [G2 E2].
  apply wp_bind. eapply wp_conseq; [apply or_null_frame| |done]. intros decimals w3 [G3 E3].
  apply wp_bind. eapply wp_conseq; [apply or_null_frame| |done]. intros metadata w4 [G4 E4].
  assert (token_frame w w4) as G by (do 4 (etrans; [|eassumption]); exact G0).
  assert (tokens (w_db w4) !! tokenId = None) as Ht4 by congruence. clear -G Ht4.
  set (row := new_token _ _ _ _). apply wp_bind.
  assert (forall d, tokens d !! tokenId = None -> tokens (set_tokens (insert_token tokenId row) d) = <[tokenId := row]> (tokens d)) as Hins
    by (intros d Hd; cbn; unfold insert_token; by rewrite Hd).
  assert (token_frame w4 (advance (set_tokens (insert_token tokenId row) (w_db w4)) w4)) as G5.
  { split; [cbn; lia|done|]. intros t Hn. cbn -[set_tokens]. rewrite Hins by done. by rewrite lookup_insert_ne. }
  apply wp_sql; cbn [fst snd]; [|intros; by etrans|intros; etrans; [exact G|by apply token_frame_refl; cbn; [|lia]]].
  assert (is_Some (tokens (w_db (advance (set_tokens (insert_token tokenId row) (w_db w4)) w4)) !! tokenId)) as Hs.
  { cbn -[set_tokens]. rewrite Hins by done. rewrite lookup_insert_eq. eauto. }
  set (w5 := advance _ w4) in *. clearbody w5.
  assert (token_frame w (advance (w_db w5) w5)) as G6.
  { etrans; [exact G|]. etrans; [exact G5|]. apply token_frame_refl; cbn; [done|lia]. }
  apply wp_bind, wp_sql; cbn [fst snd]; [|done|done]. apply wp_ret. by split.
Qed.

(** A balance the chain reported at or after time [t0]. *)
Definition reported (t0 : nat) (a : jsstring) (b : Z) : Prop :=
  exists t, (t0 <= t)%nat /\ hub_balanceOf t a tokenId = Ok b.

Lemma read_balances addresses w :
  wp (mapMM (fun a => b ← rpc (fun t => hub_balanceOf t a tokenId); mret (a, b)) addresses)
     (fun items w' => token_frame w w' /\ w_db w' = w_db w /\ items.*1 = addresses /\
                      Forall (fun item => reported (w_time w) item.1 item.2) items)
     (fun _ w' => token_frame w w' /\ w_db w' = w_db w) w.
Proof using.
  assert (forall w', w_db w' = w_db w -> (w_time w <= w_time w')%nat -> token_frame w w') as Hr by (intros; by apply token_frame_refl).
  eapply wp_conseq.
  - apply (wp_mapMM (fun w' => w_db w' = w_db w /\ (w_time w <= w_time w')%nat)
      (fun a item => item.1 = a /\ reported (w_time w) a item.2) _
      (fun _ w' => token_frame w w' /\ w_db w' = w_db w)); [done|].
    intros a w' _ [E Ht]. apply wp_bind, wp_rpc.
    + intros b Hb. apply wp_ret. split; [split; [done|cbn; lia]|]. split; [done|]. by exists (w_time w').
    + intros e He. split; [apply Hr; [done|cbn; lia]|done].
  - cbn. intros items w' [[E Ht] Hi]. split_and!; [by apply Hr|done| |].
    + clear -Hi. induction Hi as [|a i l k [<- _] _ IH]; cbn; [done|by f_equal].
    + clear -Hi. induction Hi as [|a i l k [<- H] _ IH]; by constructor.
  - done.
Qed.

(** The state after the items [done] have been written over [d]. *)
Record written (d : Db) (finished : list (jsstring * Z)) (d' : Db) : Prop := {
  wr_positive : positive d';
  wr_tokens : tokens d' = tokens d;
  wr_items : forall a b, (a, b) ∈ finished -> balance_of d' a tokenId = Z.max 0 b;
  wr_others : forall k, k.2 <> tokenId \/ k.1 ∉ finished.*1 -> balances d' !! k = balances d !! k }.

Lemma write_item d finished d' a b ts : NoDup (finished.*1 ++ [a]) -> written d finished d' ->
  written d (finished ++ [(a, b)]) (if balance_of d' a tokenId =? b then d' else write_balance a tokenId b ts d').
Proof using.
  intros (_ & Hn & _)%NoDup_app [P T I O].
  assert (a ∉ finished.*1) as Ha by (intros H; by eapply Hn, list_elem_of_singleton).
  destruct (Z.eqb_spec (balance_of d' a tokenId) b) as [E|E]; split.
  - done.
  - done.
  - intros a' b' [H|H]%elem_of_app; [by apply I|]. apply list_elem_of_singleton in H as [= -> ->].
    pose proof (proj1 (balance_row d' a tokenId P)). lia.
  - intros k Hk. apply O. rewrite fmap_app, elem_of_app in Hk. tauto.
  - by apply write_balance_positive.
  - by rewrite write_balance_tokens.
  - intros a' b' [H|H]%elem_of_app.
    + rewrite <- (I a' b') by done. apply balance_of_eq, write_balance_other. intros [= ->].
      destruct Ha. by apply (list_elem_of_fmap_2' fst) with (x := (a, b')).
    + apply list_elem_of_singleton in H as [= -> ->]. apply write_balance_at.
  - intros k Hk. rewrite fmap_app, elem_of_app in Hk. rewrite write_balance_other.
    + apply O. tauto.
    + intros ->. destruct Hk as [Hk|Hk]; cbn in Hk; [done|]. apply Hk. right. by apply list_elem_of_singleton.
Qed.

Lemma write_items items ts w : NoDup items.*1 -> positive (w_db w) ->
  wp (forM_ items (fun item =>
        previous ← getBalance item.1 tokenId;
        if previous =? item.2 then mret tt else setBalance item.1 tokenId item.2 ts))
     (fun _ w' => written (w_db w) items (w_db w'))
     (fun _ w' => exists finished, (forall i, i ∈ finished -> i ∈ items) /\ written (w_db w) finished (w_db w')) w.
Proof using.
  intros Hnd Hpos. apply (wp_forM_prefix (fun p w' => written (w_db w) p (w_db w'))).
  { split; [done|done|by intros a b ?%elem_of_nil|done]. }
  intros p [a b] post w1 E H1.
  assert (forall x, x ∈ p -> x ∈ items) as Hp by (intros x Hx; rewrite E; apply elem_of_app; by left).
  assert (NoDup (p.*1 ++ [a])) as Hnd'.
  { rewrite E, fmap_app, fmap_cons in Hnd. cbn in Hnd.
    replace (p.*1 ++ a :: post.*1) with ((p.*1 ++ [a]) ++ post.*1) in Hnd by (by rewrite <- app_assoc).
    by apply NoDup_app in Hnd as [? _]. }
  pose proof (write_item _ p _ a b ts Hnd' H1) as H2.
  unfold getBalance, query. apply wp_bind, wp_sql; cbn [fst snd]; [|intros; by exists p..].
  destruct (balance_of (w_db w1) a tokenId =? b); [by apply wp_ret|].
  rewrite setBalance_execute. apply wp_sql; cbn [fst snd].
  - exact H2.
  - intros _. exists (p ++ [(a, b)]). split; [|exact H2].
    intros x [Hx|Hx]%elem_of_app; [by apply Hp|].
    apply list_elem_of_singleton in Hx as ->. rewrite E. apply elem_of_app. right. left.
  - intros _. by exists p.
Qed.

(** What a reconciliation of [addresses] started at [t0] does, however it
    ends: it writes nothing but balances the chain reported. *)
Record reconcile_frame (t0 : nat) (addresses : list jsstring) (d d' : Db) : Prop := {
  rf_moved : forall a, balance_of d' a tokenId = balance_of d a tokenId \/
    exists b, reported t0 a b /\ balance_of d' a tokenId = Z.max 0 b;
  rf_positive : positive d';
  rf_balances : forall k, k.2 <> tokenId \/ k.1 ∉ tracked addresses -> balances d' !! k = balances d !! k;
  rf_tokens : forall t, t <> tokenId -> tokens d' !! t = tokens d !! t }.

(** The token's row agrees with the chain and with the balances. *)
Definition token_reconciled (t0 : nat) (d : Db) : Prop := exists row t, tokens d !! tokenId = Some row /\
  tk_holders row = holder_count d tokenId /\ (t0 <= t)%nat /\ hub_totalSupply t tokenId = Ok (tk_totalSupply row).

Lemma written_frame addresses w w' finished d' : positive (w_db w) -> token_frame w w' ->
  (forall i, i ∈ finished -> i.1 ∈ tracked addresses /\ reported (w_time w) i.1 i.2) -> written (w_db w') finished d' ->
  reconcile_frame (w_time w) addresses (w_db w) d'.
Proof using.
  intros Hp [_ B O] Hf' [P T I O'].
  assert (forall a, a ∈ finished.*1 -> a ∈ tracked addresses) as Hf
    by (intros a ([a' b] & -> & Hi)%list_elem_of_fmap; by apply (Hf' (a', b))).
  split; [|done| |].
  - intros a. destruct (decide (a ∈ finished.*1)) as [([a' b] & -> & Hi)%list_elem_of_fmap|Hn].
    + right. exists b. split; [by apply (Hf' (a', b))|by apply I].
    + left. apply balance_of_eq. rewrite O', B; [done|by right].
  - intros k Hk. rewrite O', B; [done|]. destruct Hk as [Hk|Hk]; [by left|right; auto].
  - intros t Ht. rewrite T. by apply O.
Qed.

Lemma holder_count_tokens f d : holder_count (set_tokens f d) tokenId = holder_count d tokenId.
Proof using. done. Qed.

Lemma reconcile_frame_tokens t0 addresses d d' d'' : reconcile_frame t0 addresses d d' -> balances d'' = balances d' ->
  (forall t, t <> tokenId -> tokens d'' !! t = tokens d' !! t) -> reconcile_frame t0 addresses d d''.
Proof using.
  intros [Mv P B T] E O. split; [intros a; unfold balance_of; rewrite E; exact (Mv a)|unfold positive; by rewrite E|intros k Hk; rewrite E; by apply B|].
  intros t Ht. rewrite O by done. by apply T.
Qed.

Lemma write_forward (items : list (jsstring * Z)) ts : forward (forM_ items (fun item =>
  previous ← getBalance item.1 tokenId; if previous =? item.2 then mret tt else setBalance item.1 tokenId item.2 ts)).
Proof using.
  apply forward_forM_. intros item. apply forward_bind; [apply forward_sql|]. intros previous.
  case_match; [apply forward_ret|]. rewrite setBalance_execute. apply forward_sql.
Qed.

Lemma store_state w : is_Some (tokens (w_db w) !! tokenId) -> positive (w_db w) ->
  wp (totalSupply ← rpc (fun t => hub_totalSupply t tokenId);
      holders ← getHolderCount tokenId;
      setTokenState tokenId totalSupply holders)
     (fun _ w' => balances (w_db w') = balances (w_db w) /\
        (forall t, t <> tokenId -> tokens (w_db w') !! t = tokens (w_db w) !! t) /\ token_reconciled (w_time w) (w_db w'))
     (fun _ w' => balances (w_db w') = balances (w_db w) /\
        forall t, t <> tokenId -> tokens (w_db w') !! t = tokens (w_db w) !! t) w.
Proof using.
  intros [row Hrow] Hpos. apply wp_bind, wp_rpc; [|done]. intros supply Hs.
  unfold getHolderCount, query. apply wp_bind, wp_sql; cbn [fst snd]; [|done..].
  unfold setTokenState, execute. apply wp_sql; cbn [fst snd]; [split_and!| |done].
  - done.
  - intros t Ht. cbn. by rewrite lookup_alter_ne.
  - eexists _, (w_time w). split_and!; [cbn; rewrite lookup_alter_eq, Hrow; reflexivity|done|lia|done].
  - intros _. split; [done|]. intros t Ht. cbn. by rewrite lookup_alter_ne.
Qed.

Lemma reconcile_spec addresses ts w : positive (w_db w) ->
  wp (reconcileTransferStateFromChain tokenId addresses ts)
     (fun _ w' => reconcile_frame (w_time w) addresses (w_db w) (w_db w') /\ token_reconciled (w_time w) (w_db w') /\
                  forall a, a ∈ tracked addresses -> exists b, reported (w_time w) a b /\ balance_of (w_db w') a tokenId = Z.max 0 b)
     (fun _ w' => reconcile_frame (w_time w) addresses (w_db w) (w_db w')) w.
Proof using.
  intros Hpos. unfold reconcileTransferStateFromChain. apply wp_bind.
  assert (forall w', token_frame w w' -> reconcile_frame (w_time w) addresses (w_db w) (w_db w')) as Hframe.
  { intros w' G. eapply (written_frame addresses w w' []); [done|done|by intros i ?%elem_of_nil|].
    split; [|done|by intros a b ?%elem_of_nil|done]. unfold positive. by rewrite (tf_balances _ _ G). }
  eapply wp_conseq; [apply ensureToken_spec| |intros e w' G; by apply Hframe]. intros row0 w1 [G1 Htok].
  apply wp_bind. eapply wp_conseq; [apply read_balances| |].
  2: { intros e w2 [G2 _]. apply Hframe. by etrans. }
  intros items w2 (G2 & E2 & Hitems & Hrep). assert (token_frame w w2) as G02 by (by etrans).
  assert (forall i, i ∈ items -> i.1 ∈ tracked addresses /\ reported (w_time w) i.1 i.2) as Hitem.
  { intros i Hi. split; [rewrite <- Hitems; by apply list_elem_of_fmap_2|].
    destruct (proj1 (Forall_forall _ _) Hrep _ Hi) as (t & Ht & Hb). exists t. pose proof (tf_time _ _ G1). split; [lia|done]. }
  assert (NoDup items.*1) as Hnd by (rewrite Hitems; apply NoDup_tracked).
  assert (positive (w_db w2)) as P2 by apply (rf_positive _ _ _ _ (Hframe _ G02)).
  apply wp_bind. eapply wp_conseq; [apply wp_forward; [apply write_forward|apply write_items; done]| |].
  2: { intros e w3 (fin & Hsub & Hw). eapply written_frame; [done|exact G02| |exact Hw]. auto. }
  intros u w3 [Hw Ht3]. assert (reconcile_frame (w_time w) addresses (w_db w) (w_db w3)) as RF.
  { by eapply written_frame. }
  eapply wp_conseq; [apply (store_state w3); [by rewrite (wr_tokens _ _ _ Hw), E2|exact (rf_positive _ _ _ _ RF)]| |].
  - intros u' w4 (B4 & O4 & row & t & Hrow & Hh & Ht & Hs). split_and!.
    + by apply (reconcile_frame_tokens _ _ _ _ _ RF).
    + exists row, t. pose proof (tf_time _ _ G02). split_and!; [done|done|lia|done].
    + intros a Ha. rewrite <- Hitems in Ha. apply list_elem_of_fmap in Ha as ([a' b] & -> & Hi). exists b. split.
      * by apply (Hitem (a', b)).
      * rewrite <- (wr_items _ _ _ Hw a' b Hi). apply balance_of_eq. by rewrite B4.
  - intros e w4 [B4 O4]. by apply (reconcile_frame_tokens _ _ _ _ _ RF).
Qed.

(** *** What a reconciliation leaves alone *)

(** The tables other than [tokens] and [balances]. *)
Definition other_tables (d : Db) := (events d, failed_events d, role_events d, role_members d, role_admins d, oracle_executions d, meta d).
(** The token's row as it was, or as [ensureToken] creates a missing one. *)
Definition base_row (d : Db) (row : TokenRow) : Prop :=
  tokens d !! tokenId = Some row \/
  tokens d !! tokenId = None /\ exists name symbol decimals metadata, row = new_token name symbol decimals metadata.
(** Of the row, at most the supply and the holder count change, to a supply the
    chain reported and the number of balance rows. *)
Record reconcile_rest (t0 : nat) (d d' : Db) : Prop := {
  rr_tables : other_tables d' = other_tables d;
  rr_row : tokens d' !! tokenId = tokens d !! tokenId \/
    exists row, base_row d row /\
      (tokens d' !! tokenId = Some row \/
       exists t supply, (t0 <= t)%nat /\ hub_totalSupply t tokenId = Ok supply /\
         tokens d' !! tokenId = Some (with_state supply (holder_count d' tokenId) row)) }.

(** Before the last statement the row is untouched or new. *)
Definition untouched (d d' : Db) : Prop :=
  other_tables d' = other_tables d /\ (tokens d' !! tokenId = tokens d !! tokenId \/ exists row, base_row d row /\ tokens d' !! tokenId = Some row).
#[local] Instance untouched_preorder : PreOrder untouched.
Proof using.
  split; [intros d; split; auto|]. intros d1 d2 d3 [T12 R12] [T23 R23]. split; [congruence|].
  destruct R23 as [E23|(row & Hb & E3)].
  - rewrite E23. exact R12.
  - right. destruct R12 as [E12|(row1 & Hb1 & E2)].
    + exists row. unfold base_row in *. rewrite E12 in Hb. auto.
    + unfold base_row in Hb. rewrite E2 in Hb. destruct Hb as [Hb|[Hb _]]; [|done]. exists row1. split; [done|congruence].
Qed.
Lemma untouched_balances f d : untouched d (set_balances f d).
Proof using. split; [done|]. by left. Qed.
Lemma untouched_insert name symbol decimals metadata d : untouched d (set_tokens (insert_token tokenId (new_token name symbol decimals metadata)) d).
Proof using.
  split; [done|]. cbn [set_tokens tokens]. unfold insert_token. destruct (tokens d !! tokenId) as [row|] eqn:E; [left; done|right].
  eexists. split; [right; split; [done|eauto]|]. by rewrite lookup_insert_eq.
Qed.
Lemma ensureToken_untouched : keeps untouched (ensureToken tokenId).
Proof using.
  unfold ensureToken, selectToken, or_null. keeps_auto. apply keeps_execute; [typeclasses eauto|]. intros d. apply untouched_insert.
Qed.
Lemma write_untouched (items : list (jsstring * Z)) ts : keeps untouched (forM_ items (fun item =>
  previous ← getBalance item.1 tokenId; if previous =? item.2 then mret tt else setBalance item.1 tokenId item.2 ts)).
Proof using.
  unfold getBalance, setBalance. keeps_auto; (apply keeps_execute; [typeclasses eauto|]); intros d; apply untouched_balances.
Qed.
Lemma read_untouched addresses : keeps untouched (mapMM (fun a => b ← rpc (fun t => hub_balanceOf t a tokenId); mret (a, b)) addresses).
Proof using. keeps_auto. Qed.

Lemma forward_rpc {A} (f : nat -> result A) : forward (rpc f).
Proof using. intros w. unfold rpc. destruct (f (w_time w)); cbn; lia. Qed.
Lemma forward_or_null {A} (c : M A) : forward c -> forward (or_null c).
Proof using.
  intros Hc w. unfold or_null, try_catch, mbind, M_bind. specialize (Hc w). destruct (c w) as [[a|e] w']; cbn in *; exact Hc.
Qed.
Lemma forward_mapMM {A B} (f : A -> M B) l : (forall x, forward (f x)) -> forward (mapMM f l).
Proof using.
  intros Hf. induction l as [|x l IH]; [apply forward_ret|]. apply forward_bind; [done|]. intros y.
  apply forward_bind; [done|]. intros ys. apply forward_ret.
Qed.
Lemma ensureToken_forward : forward (ensureToken tokenId).
Proof using.
  unfold ensureToken, selectToken. apply forward_bind; [apply forward_sql|]. intros [row|]; [apply forward_ret|].
  do 4 (apply forward_bind; [apply forward_or_null, forward_rpc|intros ?]).
  apply forward_bind; [apply forward_sql|]. intros _. apply forward_bind; [apply forward_sql|]. intros ?. apply forward_ret.
Qed.
Lemma read_forward addresses : forward (mapMM (fun a => b ← rpc (fun t => hub_balanceOf t a tokenId); mret (a, b)) addresses).
Proof using. apply forward_mapMM. intros a. apply forward_bind; [apply forward_rpc|]. intros b. apply forward_ret. Qed.

Lemma untouched_rest t0 d d' : untouched d d' -> reconcile_rest t0 d d'.
Proof using. intros [T [E|(row & Hb & E)]]; (split; [done|]); [by left|right; eauto]. Qed.
(** The last statement, applied or not. *)
Lemma state_rest t0 d d' t supply : untouched d d' -> (t0 <= t)%nat -> hub_totalSupply t tokenId = Ok supply ->
  reconcile_rest t0 d (set_tokens (alter (with_state supply (holder_count d' tokenId)) tokenId) d').
Proof using.
  intros [T R] Ht Hs. split; [done|]. cbn [set_tokens tokens]. rewrite lookup_alter_eq.
  destruct R as [E|(row & Hb & E)]; rewrite E; [|right; exists row; split; [done|right; by exists t, supply]].
  destruct (tokens d !! tokenId) as [row|] eqn:E0; [right|by left].
  exists row. split; [by left|]. right. by exists t, supply.
Qed.
Lemma reconcile_rest_spec addresses ts w :
  wp (reconcileTransferStateFromChain tokenId addresses ts)
     (fun _ w' => reconcile_rest (w_time w) (w_db w) (w_db w')) (fun _ w' => reconcile_rest (w_time w) (w_db w) (w_db w')) w.
Proof using.
  unfold reconcileTransferStateFromChain.
  apply wp_bind. eapply wp_conseq; [apply wp_forward; [apply ensureToken_forward|apply ensureToken_untouched]| |intros; by apply untouched_rest].
  intros row w1 [U1 T1]. cbn in U1.
  apply wp_bind. eapply wp_conseq; [apply wp_forward; [apply read_forward|apply read_untouched]| |intros e w2 U2; apply untouched_rest; by etrans].
  intros items w2 [U2 T2]. cbn in U2. assert (untouched (w_db w) (w_db w2)) as U02 by (by etrans).
  apply wp_bind. eapply wp_conseq; [apply wp_forward; [apply write_forward|apply write_untouched]| |intros e w3 U3; apply untouched_rest; by etrans].
  intros u w3 [U3 T3]. cbn in U3. assert (untouched (w_db w) (w_db w3)) as U03 by (by etrans).
  apply wp_bind, wp_rpc; [|intros; by apply untouched_rest]. intros supply Hs.
  unfold getHolderCount, query. apply wp_bind, wp_sql; cbn [fst snd]; [|intros; by apply untouched_rest..].
  unfold setTokenState, execute. apply wp_sql; cbn [fst snd]; [|intros _|intros; by apply untouched_rest].
  all: eapply (state_rest _ _ _ (w_time w3)); [done|lia|done].
Qed.
End Reconcile.

(** ** Refreshing a wallet *)

(** Every balance row is positive and every token counts its rows. *)
Definition holders_exact (d : Db) : Prop :=
  positive d /\ map_Forall (fun t row => tk_holders row = holder_count d t) (tokens d).

Lemma holder_delta_exact a t b ts d t' : positive d -> 0 <= b -> balance_of d a t <> b ->
  holder_count (write_balance a t b ts d) t' = holder_count d t' + (if decide (t = t') then holder_delta (balance_of d a t) b else 0).
Proof.
  intros Hp Hb Hne. destruct (balance_row d a t Hp) as [H0 Hnone].
  change (count (balances (write_balance a t b ts d)) t' = count (balances d) t' +
            (if decide (t = t') then holder_delta (balance_of d a t) b else 0)).
  unfold write_balance, holder_delta, upsert_balance. destruct (Z.leb_spec b 0); cbn [balances set_balances].
  - rewrite count_delete. destruct (decide (t = t')) as [<-|Hn]; [|rewrite decide_False by tauto; lia].
    rewrite decide_True; [|split; [done|]; apply not_eq_None_Some; rewrite <- Hnone; lia].
    assert (b = 0) as -> by lia. rewrite (proj2 (Z.eqb_neq (balance_of d a t) 0)) by done. cbn.
    rewrite (proj2 (Z.ltb_lt 0 (balance_of d a t))) by lia. cbn. lia.
  - rewrite count_insert. destruct (decide (t = t')) as [<-|Hn]; [|rewrite decide_False by tauto; lia].
    destruct (Z.eqb_spec (balance_of d a t) 0) as [E|E].
    + rewrite decide_True by (split; [done|by apply Hnone]). rewrite (proj2 (Z.ltb_lt 0 b)) by lia. cbn. lia.
    + rewrite decide_False by (intros [_ Hx%Hnone]; done). cbn. rewrite (proj2 (Z.eqb_neq b 0)) by lia. rewrite andb_false_r. lia.
Qed.

Section Refresh.
Context `{F : Faults, C : Chain} (wallet : jsstring).
Context (Hunsigned : forall t a k b, hub_balanceOf t a k = Ok b -> 0 <= b).

Lemma holders_updated d a t b ts f : positive d -> 0 <= b ->
  map_Forall (fun t row => tk_holders row = holder_count d t) (tokens d) ->
  (forall row, tk_holders (f row) = tk_holders row + holder_delta (balance_of d a t) b) ->
  let d' := if balance_of d a t =? b then d else write_balance a t b ts d in
  holders_exact (set_tokens (alter f t) d').
Proof using.
  intros Hp Hb Hh Hf d'. unfold d'. destruct (Z.eqb_spec (balance_of d a t) b) as [E|E].
  - assert (holder_delta (balance_of d a t) b = 0) as Hz.
    { unfold holder_delta. rewrite E. destruct (Z.eqb_spec b 0), (Z.ltb_spec 0 b); cbn; try done; lia. }
    split; [done|]. intros t' row. cbn. destruct (decide (t' = t)) as [->|Hn].
    + rewrite lookup_alter_eq. intros (r & Hr & ->)%fmap_Some. rewrite Hf, Hz. specialize (Hh _ _ Hr). cbn in Hh.
      rewrite Hh. change (holder_count d t + 0 = holder_count d t). lia.
    + rewrite lookup_alter_ne by done. apply Hh.
  - split; [by apply write_balance_positive|]. intros t' row. cbn. rewrite write_balance_tokens.
    change (alter f t (tokens d) !! t' = Some row -> tk_holders row = holder_count (write_balance a t b ts d) t').
    rewrite holder_delta_exact by done. destruct (decide (t = t')) as [<-|Hn].
    + rewrite lookup_alter_eq. intros (r & Hr & ->)%fmap_Some. rewrite Hf. specialize (Hh _ _ Hr). cbn in Hh. lia.
    + rewrite lookup_alter_ne by done. intros Hr. specialize (Hh _ _ Hr). cbn in Hh. lia.
Qed.

Lemma refresh_item_exact item w : 0 <= cb_balance item -> holders_exact (w_db w) ->
  wp (refresh_item wallet item) (fun _ w' => holders_exact (w_db w')) (fun _ _ => True) w.
Proof using.
  intros Hb [Hp Hh]. unfold refresh_item, getBalance, query. apply wp_bind, wp_sql; cbn [fst snd]; [|done..].
  set (prev := balance_of (w_db w) wallet (cb_token item)).
  pose proof (fun f => holders_updated (w_db w) wallet (cb_token item) (cb_balance item) None f Hp Hb Hh) as Hup.
  fold prev in Hup. cbv zeta in Hup. destruct ((prev =? cb_balance item) && bool_decide (cb_supply item = None)) eqn:Hskip; [by apply wp_ret|].
  apply wp_bind. set (d' := if prev =? cb_balance item then w_db w else write_balance wallet (cb_token item) (cb_balance item) None (w_db w)) in *.
  assert (wp (if prev =? cb_balance item then mret tt else setBalance wallet (cb_token item) (cb_balance item) None)
    (fun _ w' => w_db w' = d') (fun _ _ => True) (advance (w_db w) w)) as Hset.
  { unfold d'. destruct (prev =? cb_balance item); [by apply wp_ret|]. rewrite setBalance_execute. by apply wp_sql. }
  eapply wp_conseq; [exact Hset| |done]. intros u w1 E1. apply wp_bind.
  assert (wp (match cb_supply item with
     | Some s => execute (set_tokens (alter (fun r => with_state s (tk_holders r + holder_delta prev (cb_balance item)) r) (cb_token item)))
     | None => if holder_delta prev (cb_balance item) =? 0 then mret tt
               else execute (set_tokens (alter (fun r => with_state (tk_totalSupply r) (tk_holders r + holder_delta prev (cb_balance item)) r)
                                               (cb_token item)))
     end) (fun _ w' => holders_exact (w_db w')) (fun _ _ => True) w1) as Htok.
  { destruct (cb_supply item) as [s|]; [apply wp_sql; [|done..]; cbn [fst snd]; rewrite E1; by apply Hup|].
    destruct (Z.eqb_spec (holder_delta prev (cb_balance item)) 0) as [Hz|Hz].
    - apply wp_ret. rewrite E1. specialize (Hup id). unfold id in Hup.
      replace d' with (set_tokens (alter (fun r => r) (cb_token item)) d'); [apply Hup; intros; rewrite Hz; lia|].
      unfold set_tokens. destruct d'. cbn. f_equal. apply map_eq. intros i. destruct (decide (i = cb_token item)) as [->|Hn].
      + rewrite lookup_alter_eq. by destruct (_ !! _).
      + by rewrite lookup_alter_ne.
    - apply wp_sql; [|done..]. cbn [fst snd]. rewrite E1. by apply Hup. }
  eapply wp_conseq; [exact Htok| |done]. intros u' w2 H2. apply wp_bind. done.
Qed.

Lemma read_chain_unsigned tokenId w :
  wp (read_chain_balance wallet tokenId)
     (fun l w' => w_db w' = w_db w /\ Forall (fun item => 0 <= cb_balance item) l) (fun _ w' => w_db w' = w_db w) w.
Proof using Hunsigned.
  unfold read_chain_balance. apply wp_bind. unfold or_null at 1. apply wp_try, wp_bind, wp_rpc.
  - intros b Hb. apply wp_ret, wp_bind. eapply wp_conseq; [apply (or_null_frame tokenId)| |done].
    intros s w1 [_ E1]. apply wp_ret. rewrite E1. split; [done|]. constructor; [by eapply Hunsigned|constructor].
  - intros e _. apply wp_ret, wp_bind. eapply wp_conseq; [apply (or_null_frame tokenId)| |done].
    intros s w1 [_ E1]. apply wp_ret. rewrite E1. by split; [|constructor].
Qed.

Lemma refresh_exact address w : toLowerCase address = wallet -> holders_exact (w_db w) ->
  wp (refreshAddressBalances address) (fun _ w' => holders_exact (w_db w')) (fun _ w' => holders_exact (w_db w')) w.
Proof using Hunsigned.
  intros Ea Hw. unfold refreshAddressBalances, query. cbv zeta. rewrite Ea. apply wp_bind, wp_sql; cbn [fst snd]; [|done..].
  apply wp_bind. eapply wp_conseq.
  - apply (wp_mapMM (fun w' => holders_exact (w_db w')) (fun _ l => Forall (fun item => 0 <= cb_balance item) l) _
             (fun _ w' => holders_exact (w_db w'))); [done|].
    intros id w1 _ H1. eapply wp_conseq; [apply read_chain_unsigned| |].
    + intros l w2 [E2 Hl]. by rewrite E2.
    + intros e w2 E2. by rewrite E2.
  - intros found w1 [H1 Hfound]. assert (Forall (fun item => 0 <= cb_balance item) (mjoin found)) as Hall.
    { apply Forall_join. clear -Hfound. induction Hfound; by constructor. }
    apply wp_bind. eapply wp_conseq with (E := fun _ _ => False); [apply (H1 : wp (setUpdated 0) (fun _ w' => holders_exact (w_db w')) _ w1)| |done].
    intros u w2 H2. apply wp_bind. eapply wp_conseq.
    + apply (wp_retry (fun w' => holders_exact (w_db w')) _ (fun _ w' => holders_exact (w_db w'))); [done|].
      intros w3 H3. apply wp_tx. eapply wp_conseq.
      * apply (wp_forM_ (fun w' => holders_exact (w_db w')) _ (fun _ _ => True)); [done|].
        intros item w4 Hi H4. apply refresh_item_exact; [|done]. by apply (proj1 (Forall_forall _ _) Hall).
      * cbn. intros u' w4 H4. split_and!; intros; done.
      * cbn. intros e w4 _. exact H3.
    + intros u' w3 H3. exact H3.
    + done.
  - done.
Qed.
End Refresh.
