(* ===== verification/IndexerBatches.v ===== *)
(** * A batch settles the logs it contains

    [processTransferLogs] of packages/indexer/src/indexer.ts: when it returns,
    every new transfer of the batch has either been recorded as failed or had
    the balances of both its parties copied from the chain. *)

From S2P Require Import Prelude JsNum JsString JsNumber IndexerWorld IndexerTransfers IndexerRoles IndexerLanes IndexerProofs IndexerBalances.
Local Open Scope Z_scope.
Local Open Scope js_scope.

(** ** Maps in insertion order *)

Section JsMapFacts.
Context {K V : Type} `{EqDecision K}.
Implicit Types (m : list (K * V)).

Lemma map_get_set k k' v m : map_get k (map_set k' v m) = if decide (k' = k) then Some v else map_get k m.
Proof.
  induction m as [|[k1 v1] m IH]; cbn; [done|]. destruct (decide (k1 = k')) as [->|Hn]; cbn.
  - by destruct (decide (k' = k)).
  - rewrite IH. destruct (decide (k1 = k)) as [->|]; [|done]. by rewrite decide_False.
Qed.
Lemma map_get_elem k v m : map_get k m = Some v -> (k, v) ∈ m.
Proof.
  induction m as [|[k1 v1] m IH]; cbn; [done|]. case_decide as E; [|intros H; right; by apply IH].
  intros [= <-]. subst. left.
Qed.
Lemma elem_map_set k v m : k ∈ (map_set k v m).*1.
Proof.
  induction m as [|[k1 v1] m IH]; cbn; [by left|]. case_decide as E; cbn; [subst; left|by right].
Qed.
Lemma map_set_keys k k' v m : k ∈ m.*1 -> k ∈ (map_set k' v m).*1.
Proof.
  induction m as [|[k1 v1] m IH]; cbn; [by intros ?%elem_of_nil|]. intros [->|H]%elem_of_cons; case_decide; cbn.
  - left.
  - left.
  - by right.
  - right. by apply IH.
Qed.
End JsMapFacts.

(** Every grouped address is in one of the groups. *)
Lemma group_by_elem l : forall groups a,
  a ∈ l.*1 \/ (exists g, g ∈ groups /\ a ∈ g.2) -> exists g, g ∈ group_by_timestamp l groups /\ a ∈ g.2.
Proof.
  assert (forall (ts : Z) a x (groups : list (Z * list jsstring)),
    (a = x \/ exists g, g ∈ groups /\ a ∈ g.2) ->
    exists g, g ∈ map_set ts (default [] (map_get ts groups) ++ [x]) groups /\ a ∈ g.2) as Hset.
  { intros ts a x groups. induction groups as [|[ts' l'] groups IH]; cbn.
    - intros [->|(g & Hg%elem_of_nil & _)]; [|done]. exists (ts, [x]). split; [left|by left].
    - destruct (decide (ts' = ts)) as [->|Hn]; cbn.
      + intros [->|(g & [->|Hg]%elem_of_cons & Ha)]; [| |exists g; split; [by right|done]].
        * eexists. split; [left|]. apply elem_of_app. right. by left.
        * eexists. split; [left|]. apply elem_of_app. by left.
      + intros [->|(g & [->|Hg]%elem_of_cons & Ha)].
        * destruct IH as (g & Hg & Ha); [by left|]. exists g. split; [by right|done].
        * eexists. split; [left|done].
        * destruct IH as (g' & Hg' & Ha'); [right; eauto|]. exists g'. split; [by right|done]. }
  induction l as [|[x ts] l IH]; intros groups a; cbn.
  - intros [H%elem_of_nil|H]; done.
  - intros H. apply IH. rewrite elem_of_cons in H. destruct H as [[->|H]|H]; [right; apply Hset; by left|by left|].
    right. apply Hset. by right.
Qed.

(** ** The clock *)

Section Forward.
Context `{F : Faults, C : Chain}.
Lemma forward_throw {A} e : forward (throwM (A := A) e).
Proof using. intros w. cbn. lia. Qed.
Lemma forward_try {A} (c : M A) h : forward c -> (forall e, forward (h e)) -> forward (try_catch c h).
Proof using.
  intros Hc Hh w. unfold try_catch. specialize (Hc w). destruct (c w) as [[a|e] w']; cbn in *; [done|].
  specialize (Hh e w'). lia.
Qed.
Lemma forward_tx {A} (c : M A) : forward c -> forward (tx c).
Proof using.
  intros Hc w. unfold tx. specialize (Hc w). destruct (c w) as [[a|e] w']; cbn in *; [|lia].
  destruct (sql_fault (w_time w')) as [[]|]; cbn; lia.
Qed.
Lemma forward_cache : forward getCache /\ forall k v, forward (setCache k v).
Proof using. split; [intros w|intros k v w]; cbn; lia. Qed.
End Forward.

Ltac forward_step :=
  lazymatch goal with
  | |- forall _, _ => intros ?
  | |- forward (match ?x with _ => _ end) => destruct x
  | |- forward (_ ≫= _) => apply forward_bind
  | |- forward (try_catch _ _) => apply forward_try
  | |- forward (tx _) => apply forward_tx
  | |- forward (forM_ _ _) => apply forward_forM_
  | |- forward (mapMM _ _) => apply forward_mapMM
  | |- forward (rpc _) => apply forward_rpc
  | |- forward (sql _) => apply forward_sql
  | |- forward (mret _) => apply forward_ret
  | |- forward (throwM _) => apply forward_throw
  | |- forward getCache => apply (proj1 forward_cache)
  | |- forward (setCache _ _) => apply (proj2 forward_cache)
  end.
Ltac forward_auto := unfold query, execute; cbv zeta; repeat forward_step.

(** ** Settled logs *)

Section Settle.
Context `{F : Faults, C : Chain} (lane : Lane) (t0 : nat).

(** The balance of [a] is one the chain reported since time [t0]; the zero
    address has no balance. *)
Definition fresh (d : Db) (tokenId a : jsstring) : Prop :=
  isZeroAddress a = true \/ exists b, reported tokenId t0 a b /\ balance_of d a tokenId = Z.max 0 b.

Definition recorded (d : Db) (log : Log) : Prop := is_Some (failed_events d !! failed_key (ln_contract lane) log).

Record live (w : World) : Prop := { lv_time : (t0 <= w_time w)%nat; lv_positive : positive (w_db w) }.
Record onward (w w' : World) : Prop := {
  ow_live : live w';
  ow_recorded : forall log, recorded (w_db w) log -> recorded (w_db w') log;
  ow_fresh : forall tokenId a, fresh (w_db w) tokenId a -> fresh (w_db w') tokenId a }.

#[local] Instance onward_trans : Transitive onward.
Proof using. intros w1 w2 w3 [L1 R1 F1] [L2 R2 F2]. split; auto. Qed.

(** Statements that leave the balances alone. *)
Definition quiet (d d' : Db) : Prop :=
  balances d' = balances d /\ forall k, is_Some (failed_events d !! k) -> is_Some (failed_events d' !! k).
#[export] Instance quiet_preorder : PreOrder quiet.
Proof using.
  split; [by intros d|]. intros d1 d2 d3 [B1 F1] [B2 F2]. split; [congruence|auto].
Qed.

Lemma quiet_onward w w' : live w -> (w_time w <= w_time w')%nat -> quiet (w_db w) (w_db w') -> onward w w'.
Proof using.
  intros [T P] Ht [B Fl]. split; [split; [lia|unfold positive; by rewrite B]|intros log; apply Fl|].
  intros tok a [Z|(b & Hb & E)]; [by left|right]. exists b. split; [done|]. rewrite <- E. apply balance_of_eq. by rewrite B.
Qed.

Definition goes {A} (c : M A) : Prop := forall w, live w -> wp c (fun _ => onward w) (fun _ => onward w) w.

Lemma goes_quiet {A} (c : M A) : forward c -> keeps quiet c -> goes c.
Proof using.
  intros Hf Hk w Hw. specialize (Hf w). specialize (Hk w). unfold wp in *.
  destruct (c w) as [[a|e] w']; cbn in *; by apply quiet_onward.
Qed.
Lemma goes_forM_ {A} (l : list A) f : (forall x, x ∈ l -> goes (f x)) -> goes (forM_ l f).
Proof using.
  intros Hf w Hw. eapply wp_conseq.
  - apply (wp_forM_ (fun w' => w' = w \/ onward w w') f (fun _ w' => onward w w')); [by left|].
    intros x w' Hx Hw'. assert (live w') as Hl by (destruct Hw' as [->|[? _ _]]; done).
    assert (forall w2, onward w' w2 -> onward w w2) as Hn by (intros w2 H2; destruct Hw' as [->|Hw']; [done|by etrans]).
    eapply wp_conseq; [by apply Hf|intros u w2 H2; right; auto|intros e w2 H2; auto].
  - intros u w' [->|H]; [|done]. split; [done|auto|auto].
  - done.
Qed.

Lemma execute_quiet f : (forall d, balances (f d) = balances d /\ failed_events (f d) = failed_events d) -> keeps quiet (execute f).
Proof using. intros Hf. apply keeps_execute; [typeclasses eauto|]. intros d. destruct (Hf d) as [E1 E2]. split; [done|]. by rewrite E2. Qed.

Lemma record_goes log e : goes (recordFailedEvent (ln_contract lane) log e).
Proof using.
  apply goes_quiet; [apply forward_sql|]. apply keeps_execute; [typeclasses eauto|]. intros d. split; [done|].
  intros k. apply (gr_failed lane), grows_failed.
Qed.
Lemma sync_goes tok : goes (syncTokenTransfersFromEvents tok).
Proof using. apply goes_quiet; [apply forward_sql|]. by apply execute_quiet. Qed.
Lemma timestamp_goes b : goes (getBlockTimestamp b).
Proof using. apply goes_quiet; [unfold getBlockTimestamp; forward_auto|unfold getBlockTimestamp; keeps_auto]. Qed.
Lemma insert_goes t log ts : goes (tx (insertParsedTransferLog t log ts)).
Proof using.
  apply goes_quiet; [apply forward_tx, forward_sql|]. apply keeps_tx; [typeclasses eauto|].
  apply keeps_sql; [typeclasses eauto|]. intros d. by destruct (events d !! event_key log).
Qed.

Lemma reconcile_forward tok l ts : forward (reconcileTransferStateFromChain tok l ts).
Proof using.
  unfold reconcileTransferStateFromChain, ensureToken, selectToken, or_null, getBalance, setBalance, getHolderCount, setTokenState.
  forward_auto.
Qed.

(** A reconciliation that returns has refreshed its addresses; however it
    ends, a fresh balance stays fresh. *)
Lemma reconcile_goes tok l ts w : live w ->
  wp (reconcileTransferStateFromChain tok l ts)
     (fun _ w' => onward w w' /\ forall a, a ∈ tracked l -> fresh (w_db w') tok a) (fun _ w' => onward w w') w.
Proof using.
  intros Hw. pose proof (reconcile_forward tok l ts w) as Ht.
  assert (forall w', (w_time w <= w_time w')%nat -> reconcile_frame tok (w_time w) l (w_db w) (w_db w') ->
    grows lane (w_db w) (w_db w') -> onward w w') as Hon.
  { intros w' Ht' [Mv P B _] G. split; [destruct Hw; split; [lia|done]|intros log; apply (gr_failed _ _ _ G)|].
    intros tok' a [Hz|(b & Hb & E)]; [by left|]. right. destruct (decide (tok' = tok)) as [->|Hn].
    - destruct (Mv a) as [Hm|(b' & (t & Ht2 & Hb') & Hm)]; [exists b; split; [done|congruence]|].
      exists b'. split; [|done]. exists t. destruct Hw. split; [lia|done].
    - exists b. split; [done|]. rewrite <- E. apply balance_of_eq, B. by left. }
  pose proof (reconcile_spec tok l ts w (lv_positive _ Hw)) as Hs. pose proof (reconcile_grows lane tok l ts w) as G.
  unfold wp in *. destruct (reconcileTransferStateFromChain tok l ts w) as [[u|e] w']; cbn in *; [|by apply Hon].
  destruct Hs as (Hfr & _ & Ha). split; [by apply Hon|]. intros a Hl. right.
  destruct (Ha a Hl) as (b & (t & Hb & Hc) & E). exists b. split; [|done]. exists t. destruct Hw. split; [lia|done].
Qed.

Lemma onward_refl w : live w -> onward w w.
Proof using. by split. Qed.

(** What an iteration achieves for its element stays achieved. *)
Lemma wp_forM_each {A} (P : A -> World -> Prop) (f : A -> M unit) l w : live w ->
  (forall x w w', P x w -> onward w w' -> P x w') ->
  (forall x w, x ∈ l -> live w -> wp (f x) (fun _ w' => onward w w' /\ P x w') (fun _ w' => onward w w') w) ->
  wp (forM_ l f) (fun _ w' => onward w w' /\ forall x, x ∈ l -> P x w') (fun _ w' => onward w w') w.
Proof using.
  intros Hw HP Hf. revert w Hw. induction l as [|x l IH]; intros w Hw; cbn [forM_].
  - apply wp_ret. split; [by apply onward_refl|by intros x ?%elem_of_nil].
  - apply wp_bind. eapply wp_conseq; [apply Hf; [left|done]| |done]. intros u w1 [O1 P1].
    eapply wp_conseq; [apply IH; [intros y w' Hy; apply Hf; by right|apply O1]| |intros e w2 O2; by etrans].
    intros u' w2 [O2 P2]. split; [by etrans|]. intros y [->|Hy]%elem_of_cons; [by eapply HP|auto].
Qed.

Lemma fresh_onward tok a w w' : fresh (w_db w) tok a -> onward w w' -> fresh (w_db w') tok a.
Proof using. intros H O. by apply (ow_fresh _ _ O). Qed.

(** Recording a list of logs. *)
Lemma record_all logs e w : live w ->
  wp (forM_ logs (fun log => recordFailedEvent (ln_contract lane) log e))
     (fun _ w' => onward w w' /\ forall log, log ∈ logs -> recorded (w_db w') log) (fun _ w' => onward w w') w.
Proof using.
  intros Hw. apply (wp_forM_each (fun log w => recorded (w_db w) log)); [done|intros log w1 w2 H O; by apply (ow_recorded _ _ O)|].
  intros log w1 _ H1. eapply wp_conseq; [apply wp_and; [by apply record_goes|apply recordFailed_recorded]|done|by intros e' w2 [O _]].
Qed.

(** What is known of a touched token once it has been processed. *)
Definition token_settled (logs : TouchedLogs) (entry : jsstring * list (jsstring * Z)) (w : World) : Prop :=
  (forall log, log ∈ default [] (map_get entry.1 logs) -> recorded (w_db w) log) \/
  (forall a, a ∈ entry.2.*1 -> fresh (w_db w) entry.1 (toLowerCase a)).

Lemma token_settled_onward logs entry w w' : token_settled logs entry w -> onward w w' -> token_settled logs entry w'.
Proof using.
  intros [H|H] O; [left; intros log Hl; by apply (ow_recorded _ _ O), H|right; intros a Ha; by apply (ow_fresh _ _ O), H].
Qed.

Lemma reconcile_groups tok addresses w : live w ->
  wp (forM_ (group_by_timestamp addresses []) (fun g => reconcileTransferStateFromChain tok g.2 (Some g.1)))
     (fun _ w' => onward w w' /\ forall a, a ∈ addresses.*1 -> fresh (w_db w') tok (toLowerCase a)) (fun _ w' => onward w w') w.
Proof using.
  intros Hw. eapply wp_conseq.
  - apply (wp_forM_each (fun g w' => forall a, a ∈ tracked g.2 -> fresh (w_db w') tok a)); [done| |].
    + intros g w1 w2 H O a Ha. by eapply fresh_onward; [apply H|].
    + intros g w1 _ H1. by apply reconcile_goes.
  - intros u w' [O H]. split; [done|]. intros a Ha. destruct (isZeroAddress (toLowerCase a)) eqn:Hz; [by left|].
    destruct (group_by_elem addresses [] a (or_introl Ha)) as (g & Hg & Hag). apply (H g Hg), elem_tracked.
    split; [by apply list_elem_of_fmap_2|done].
  - done.
Qed.

Lemma checkpoint_quiet : keeps quiet (getCheckpointValue lane).
Proof using. unfold getCheckpointValue, getMeta. keeps_auto. Qed.

(** One touched token: its logs are recorded, or its addresses are fresh. *)
Lemma touched_goes logs entry w : live w ->
  wp (process_touched_token lane logs entry) (fun _ w' => onward w w' /\ token_settled logs entry w')
     (fun _ w' => onward w w') w.
Proof using.
  intros Hw. unfold process_touched_token. cbv zeta. apply wp_bind, wp_try.
  assert (forall (failed : bool) w1, onward w w1 -> token_settled logs entry w1 ->
    wp (try_catch (syncTokenTransfersFromEvents entry.1)
         (fun e => if failed then mret tt else forM_ (default [] (map_get entry.1 logs)) (fun log => recordFailedEvent (ln_contract lane) log e)))
       (fun _ w' => onward w w' /\ token_settled logs entry w') (fun _ w' => onward w w') w1) as Hsync.
  { intros failed w1 O1 S1. apply wp_try. eapply wp_conseq; [apply sync_goes, O1| |].
    - intros u w2 O2. split; [by etrans|by eapply token_settled_onward].
    - intros e w2 O2. destruct failed; [apply wp_ret; split; [by etrans|by eapply token_settled_onward]|].
      eapply wp_conseq; [apply record_all, O2| |intros e' w3 O3; etrans; [exact O1|exact (onward_trans _ _ _ O2 O3)]].
      intros u w3 [O3 R3]. split; [etrans; [exact O1|exact (onward_trans _ _ _ O2 O3)]|by left]. }
  apply wp_bind. eapply wp_conseq; [by apply reconcile_groups| |].
  - intros u w1 [O1 F1]. apply wp_ret. apply (Hsync false); [done|by right].
  - intros e w1 O1. apply wp_bind. eapply wp_conseq; [apply record_all, O1| |intros e' w2 O2; exact (onward_trans _ _ _ O1 O2)].
    intros u w2 [O2 R2]. apply wp_ret. apply (Hsync true); [exact (onward_trans _ _ _ O1 O2)|by left].
Qed.

(** ** Collecting the touched addresses *)

Definition touches (touched : Touched) (tok a : jsstring) : Prop :=
  exists addresses, map_get tok touched = Some addresses /\ toLowerCase a ∈ addresses.*1.

Lemma add_touched touched tok a ts : touches (addTouchedAddress touched tok a ts) tok a.
Proof using.
  unfold touches, addTouchedAddress. rewrite map_get_set, decide_True by done. eexists. split; [done|]. apply elem_map_set.
Qed.
Lemma add_touched_mono touched tok a ts tok' a' : touches touched tok' a' -> touches (addTouchedAddress touched tok a ts) tok' a'.
Proof using.
  intros (l & Hl & Ha). unfold touches, addTouchedAddress. rewrite map_get_set. case_decide as E; [|by exists l].
  subst. eexists. split; [done|]. rewrite Hl. cbn. by apply map_set_keys.
Qed.

(** The batch's state knows the log and both its parties. *)
Definition noted (st : Touched * TouchedLogs) (log : Log) (t : ParsedTransferLog) : Prop :=
  log ∈ default [] (map_get (pt_tokenId t) st.2) /\
  touches st.1 (pt_tokenId t) (pt_from t) /\ touches st.1 (pt_tokenId t) (pt_to t).

Definition note (st : Touched * TouchedLogs) (log : Log) (t : ParsedTransferLog) (ts : Z) : Touched * TouchedLogs :=
  (addTouchedAddress (addTouchedAddress st.1 (pt_tokenId t) (pt_from t) ts) (pt_tokenId t) (pt_to t) ts,
   map_set (pt_tokenId t) (default [] (map_get (pt_tokenId t) st.2) ++ [log]) st.2).

Lemma noted_note st log t ts : noted (note st log t ts) log t.
Proof using.
  split_and!; cbn.
  - rewrite map_get_set, decide_True by done. cbn. apply elem_of_app. right. by left.
  - apply add_touched_mono, add_touched.
  - apply add_touched.
Qed.
Lemma noted_mono st log t log' t' ts : noted st log t -> noted (note st log' t' ts) log t.
Proof using.
  intros (Hl & Hf & Ht). split_and!; cbn; [|by do 2 apply add_touched_mono..].
  rewrite map_get_set. case_decide as E; [|done]. rewrite <- E in Hl. cbn. apply elem_of_app. by left.
Qed.

(** A new transfer: decodable, not skipped, beyond the checkpoint. *)
Definition new_transfer (cp : jsnum) (log : Log) (t : ParsedTransferLog) : Prop :=
  parseTransferLog log = Some t /\ shouldSkipTokenId (pt_tokenId t) = false /\ int_gt (lg_block log) cp = true.

Lemma transfer_log_noted cp st log w : live w ->
  wp (process_transfer_log lane cp st log)
     (fun st' w' => onward w w' /\ (forall l t, noted st l t -> noted st' l t) /\
                    forall t, new_transfer cp log t -> recorded (w_db w') log \/ noted st' log t)
     (fun _ w' => onward w w') w.
Proof using.
  intros Hw. unfold process_transfer_log. apply wp_try.
  assert (forall e w1, onward w w1 -> wp (_ ← recordFailedEvent (ln_contract lane) log e; mret st)
    (fun st' w' => onward w w' /\ (forall l t, noted st l t -> noted st' l t) /\
                   forall t, new_transfer cp log t -> recorded (w_db w') log \/ noted st' log t)
    (fun _ w' => onward w w') w1) as Hcatch.
  { intros e w1 O1. apply wp_bind.
    eapply wp_conseq; [apply wp_and; [apply record_goes, O1|apply recordFailed_recorded]| |].
    - intros u w2 [O2 R2]. apply wp_ret. split_and!; [exact (onward_trans _ _ _ O1 O2)|done|by left].
    - intros e' w2 [O2 _]. exact (onward_trans _ _ _ O1 O2). }
  destruct (parseTransferLog log) as [t|] eqn:Hp.
  2: { apply wp_ret. split_and!; [by apply onward_refl|done|]. intros t (H & _). congruence. }
  destruct (shouldSkipTokenId (pt_tokenId t)) eqn:Hs.
  { apply wp_ret. split_and!; [by apply onward_refl|done|]. intros t' (H & H' & _). congruence. }
  apply wp_bind. eapply wp_conseq; [by apply timestamp_goes| |intros e w1 O1; by apply Hcatch].
  intros ts w1 O1. apply wp_bind.
  eapply wp_conseq; [apply insert_goes, O1| |intros e w2 O2; apply Hcatch; exact (onward_trans _ _ _ O1 O2)].
  intros n w2 O2. apply wp_ret. split; [exact (onward_trans _ _ _ O1 O2)|].
  fold (note st log t ts). destruct (negb (n =? 0) || int_gt (lg_block log) cp) eqn:Hcond.
  - split; [intros; by apply noted_mono|]. intros t' (H & _). right. rewrite Hp in H. injection H as <-. apply noted_note.
  - split; [done|]. intros t' (_ & _ & H). apply orb_false_iff in Hcond as [_ Hc]. congruence.
Qed.

(** ** The batch *)

(** A transfer is settled: recorded as failed, or both parties' balances are
    fresh. *)
Definition settled (d : Db) (log : Log) (t : ParsedTransferLog) : Prop :=
  recorded d log \/ forall a, a ∈ [pt_from t; pt_to t] -> fresh d (pt_tokenId t) (toLowerCase a).

Lemma noted_settled st log t w : noted st log t -> (forall entry, entry ∈ st.1 -> token_settled st.2 entry w) ->
  settled (w_db w) log t.
Proof using.
  intros (Hl & (l1 & E1 & H1) & (l2 & E2 & H2)) Hs. specialize (Hs _ (map_get_elem _ _ _ E1)).
  rewrite E1 in E2. injection E2 as <-. destruct Hs as [Hs|Hs]; [left; by apply Hs|right]. cbn in Hs.
  intros a [->|[->|?%elem_of_nil]%elem_of_cons]%elem_of_cons; [..|done]; rewrite <- toLowerCase_idem; by apply Hs.
Qed.

Definition checkpoint_number (d : Db) : jsnum :=
  match stored_checkpoint lane d with None => JInt (-1) | Some c => Number c end.

Lemma transfers_settled logs w0 : live w0 ->
  wp (processTransferLogs lane logs)
     (fun _ w' => onward w0 w' /\ forall log t, log ∈ logs -> new_transfer (checkpoint_number (w_db w0)) log t ->
                  settled (w_db w') log t)
     (fun _ w' => onward w0 w') w0.
Proof using.
  intros Hw0. unfold processTransferLogs. apply wp_bind. eapply wp_conseq.
  { apply wp_and; [apply getCheckpoint_spec|apply goes_quiet; [|apply checkpoint_quiet|exact Hw0]].
    unfold getCheckpointValue, getMeta. forward_auto. }
  2: { by intros e w' [_ O]. }
  intros cp w [[-> Edb] O0]. fold (checkpoint_number (w_db w0)). set (cpn := checkpoint_number (w_db w0)).
  eapply (wp_conseq _ (fun _ w' => onward w w' /\ forall log t, log ∈ logs -> new_transfer cpn log t -> settled (w_db w') log t)
            _ (fun _ w' => onward w w'));
    [|intros u w' [O H]; split; [exact (onward_trans _ _ _ O0 O)|done]|intros e w' O; exact (onward_trans _ _ _ O0 O)].
  pose proof (ow_live _ _ O0) as Hw. apply wp_bind. eapply wp_conseq.
  - apply (wp_foldM (fun pre st w' => onward w w' /\ forall log t, log ∈ pre -> new_transfer cpn log t ->
             recorded (w_db w') log \/ noted st log t) _ (fun _ w' => onward w w')).
    + split; [by apply onward_refl|by intros log t ?%elem_of_nil].
    + intros p x post st w1 _ [O1 H1]. eapply wp_conseq; [apply transfer_log_noted, O1| |intros e w2 O2; exact (onward_trans _ _ _ O1 O2)].
      intros st' w2 (O2 & Hm & Hx). split; [exact (onward_trans _ _ _ O1 O2)|].
      intros log t [Hl|Hl]%elem_of_app Hn; [|apply list_elem_of_singleton in Hl as ->; by apply Hx].
      destruct (H1 log t Hl Hn) as [H|H]; [left; by apply (ow_recorded _ _ O2)|right; by apply Hm].
  - intros st w1 [O1 H1]. eapply wp_conseq.
    + apply (wp_forM_each (token_settled st.2)); [apply O1|intros x w2 w3; apply token_settled_onward|].
      intros x w2 _ H2. by apply touched_goes.
    + intros u w2 [O2 H2]. split; [exact (onward_trans _ _ _ O1 O2)|]. intros log t Hl Hn.
      destruct (H1 log t Hl Hn) as [H|H]; [left; by apply (ow_recorded _ _ O2)|by eapply noted_settled].
    + intros e w2 O2. exact (onward_trans _ _ _ O1 O2).
  - done.
Qed.
End Settle.
