(* ===== verification/IndexerReplay.v ===== *)
(** * Transfer replay

    packages/indexer/src/services/transferReplay.ts: the validation of a
    replay request, the recursive splitting of log queries, and the replay of
    a block range under the advisory lock.  The clock-dependent fields of the
    progress report and [percentComplete] are left out; a replay runs in a
    world whose timestamp cache is its own. *)

From stdpp Require Import sorting.
From S2P Require Import Prelude JsNum JsString JsNumber Scanner IndexerWorld IndexerTransfers IndexerRoles IndexerLanes.
Local Open Scope Z_scope.
Local Open Scope js_scope.

(** ** Requests *)

(** A value of the request body. *)
Inductive InputValue := INumber (x : jsnum) | IString (s : jsstring) | INullish | IOther.

Record ReplayNumbers := { rn_batchSize : jsnum; rn_fromBlock : jsnum; rn_reconcileChunkSize : jsnum; rn_toBlock : jsnum }.
(** A validated request. *)
Record TransferReplayRequest := { rq_batchSize : Z; rq_fromBlock : Z; rq_reconcileChunkSize : Z; rq_toBlock : Z }.

Definition as_integer (x : jsnum) (msg : string) : result Z := match x with JInt z => Ok z | _ => Err msg end.

Definition validateTransferReplayRequest (request : ReplayNumbers) (maxBlockRange : option jsnum)
  : result TransferReplayRequest :=
  batchSize ← as_integer (rn_batchSize request) "batchSize must be an integer";
  fromBlock ← as_integer (rn_fromBlock request) "fromBlock must be an integer";
  reconcileChunkSize ← as_integer (rn_reconcileChunkSize request) "reconcileChunkSize must be an integer";
  toBlock ← as_integer (rn_toBlock request) "toBlock must be an integer";
  fail_if (fromBlock <? 0) || (toBlock <? 0) with "block numbers must be >= 0" ;;
  fail_if batchSize <? 1 with "batchSize must be >= 1" ;;
  fail_if reconcileChunkSize <? 1 with "reconcileChunkSize must be >= 1" ;;
  fail_if toBlock <? fromBlock with "fromBlock must be <= toBlock" ;;
  fail_if match maxBlockRange with Some m => int_gt (toBlock - fromBlock + 1) m | None => false end
    with "block range exceeds maxBlockRange" ;;
  Ok {| rq_batchSize := batchSize; rq_fromBlock := fromBlock; rq_reconcileChunkSize := reconcileChunkSize;
        rq_toBlock := toBlock |}.

Definition isInteger (x : jsnum) : bool := match x with JInt _ => true | _ => false end.

Definition parseInteger (value : InputValue) : result jsnum :=
  let number x := if isInteger x then Ok x else Err "must be an integer" in
  match value with
  | INumber x => number x
  | IString s => if bool_decide (trim s = []) then Err "must be an integer" else number (Number s)
  | _ => Err "must be an integer"
  end.
Definition readRequiredInteger (input : string -> InputValue) (name : string) : result jsnum :=
  match input name with INullish => Err "is required" | value => parseInteger value end.
Definition readOptionalInteger (input : string -> InputValue) (name : string) (fallback : jsnum) : result jsnum :=
  match input name with INullish => Ok fallback | value => parseInteger value end.

Definition buildTransferReplayRequest (input : string -> InputValue) (defaultBatchSize defaultChunkSize : jsnum)
    (maxBlockRange : option jsnum) : result TransferReplayRequest :=
  batchSize ← readOptionalInteger input "batchSize" defaultBatchSize;
  fromBlock ← readRequiredInteger input "fromBlock";
  reconcileChunkSize ← readOptionalInteger input "reconcileChunkSize" defaultChunkSize;
  toBlock ← readRequiredInteger input "toBlock";
  validateTransferReplayRequest {| rn_batchSize := batchSize; rn_fromBlock := fromBlock;
    rn_reconcileChunkSize := reconcileChunkSize; rn_toBlock := toBlock |} maxBlockRange.

(** ** Progress *)

Record Counters := { ct_decoded : Z; ct_inserted : Z; ct_reconciled : Z; ct_skipped : Z }.
Record Completed := { cp_currentBlock : option Z; cp_lastFrom : option Z; cp_lastTo : option Z }.
Record TransferReplayProgress := {
  pr_currentBlock : option Z; pr_decoded : Z; pr_fromBlock : Z; pr_inserted : Z; pr_lastBatchFromBlock : option Z;
  pr_lastBatchToBlock : option Z; pr_processedBlocks : Z; pr_reconciledAddresses : Z; pr_remainingBlocks : Z;
  pr_skipped : Z; pr_toBlock : Z; pr_totalBlocks : Z }.

Definition buildTransferReplayProgress (request : TransferReplayRequest) (counters : Counters) (completed : Completed)
  : TransferReplayProgress :=
  let totalBlocks := rq_toBlock request - rq_fromBlock request + 1 in
  let processedBlocks := match cp_currentBlock completed with
                         | None => 0
                         | Some c => Z.max 0 (Z.min c (rq_toBlock request) - rq_fromBlock request + 1)
                         end in
  {| pr_currentBlock := cp_currentBlock completed; pr_decoded := ct_decoded counters;
     pr_fromBlock := rq_fromBlock request; pr_inserted := ct_inserted counters;
     pr_lastBatchFromBlock := cp_lastFrom completed; pr_lastBatchToBlock := cp_lastTo completed;
     pr_processedBlocks := processedBlocks; pr_reconciledAddresses := ct_reconciled counters;
     pr_remainingBlocks := totalBlocks - processedBlocks; pr_skipped := ct_skipped counters;
     pr_toBlock := rq_toBlock request; pr_totalBlocks := totalBlocks |}.

(** ** Querying logs *)

(** An error object as [isGetLogsResponseTooLargeError] reads it: [code], the
    strings among [message], [shortMessage] and [reason], and [error]. *)
Inductive ErrorObject := NotAnObject | AnObject (code : option Z) (texts : list jsstring) (error : ErrorObject).

Class ReplayEnv := {
  error_object : string -> ErrorObject;
  (** [pg_try_advisory_lock] at a time. *)
  lock_free : nat -> bool;
}.

Fixpoint isGetLogsResponseTooLargeError (e : ErrorObject) : bool :=
  match e with
  | NotAnObject => false
  | AnObject code texts inner =>
      bool_decide (code = Some (-32005)) ||
      existsb (fun text => includes text (js "Response size exceeds limit")) texts ||
      isGetLogsResponseTooLargeError inner
  end.

Section Replay.
Context `{F : Faults, C : Chain, LP : LogProvider, RE : ReplayEnv}.

(** The address and topic of a query, as a lane. *)
Definition query_lane (address : jsstring) (topics : list (list jsstring)) : Lane := {|
  ln_name := js "replay"; ln_contract := address; ln_overlap := None; ln_topics := topics; ln_metaKey := [];
  ln_legacyKey := None; ln_start := 0; ln_processLog := None; ln_afterBatch := None; ln_token := true |}.

(** Every split makes both halves shorter, so a range of n blocks is split at
    most n deep. *)
Fixpoint split_logs (fuel : nat) (address : jsstring) (topics : list (list jsstring)) (from to : Z) : M (list Log) :=
  match fuel with
  | O => throwM "log range split without end"
  | S f =>
      try_catch (rpc (fun t => getLogs t address topics from to))
        (fun e =>
           if negb (isGetLogsResponseTooLargeError (error_object e)) then throwM e
           else if to <=? from then fetchLogsWithCursor (query_lane address topics) from to
           else
             let midpoint := (from + to) / 2 in
             left ← split_logs f address topics from midpoint;
             right ← split_logs f address topics (midpoint + 1) to;
             mret (left ++ right))
  end.
Definition getTransferLogsWithSplit (address : jsstring) (topics : list (list jsstring)) (from to : Z) : M (list Log) :=
  split_logs (S (Z.to_nat (to - from))) address topics from to.

(** ** The replay *)

Fixpoint chunk_loop {A} (fuel : nat) (items : list A) (size : nat) : list (list A) :=
  match fuel, items with
  | S f, _ :: _ => take size items :: chunk_loop f (drop size items) size
  | _, _ => []
  end.
Definition chunk {A} (items : list A) (size : Z) : list (list A) := chunk_loop (length items) items (Z.to_nat size).

(** [Set.add]. *)
Definition set_add {A} `{EqDecision A} (x : A) (s : list A) : list A := if decide (x ∈ s) then s else s ++ [x].

Definition addReplayTouched (touched : list (jsstring * list jsstring)) (tokenId address : jsstring)
  : list (jsstring * list jsstring) :=
  map_set tokenId (set_add (toLowerCase address) (default [] (map_get tokenId touched))) touched.

Definition log_order (a b : Log) : Prop :=
  lg_block a < lg_block b \/ (lg_block a = lg_block b /\ lg_index a <= lg_index b).
#[export] Instance log_order_dec a b : Decision (log_order a b).
Proof. unfold log_order. apply _. Defined.

Record ReplayBatch := {
  rb_transfers : list (Log * Z * ParsedTransferLog); rb_touched : list (jsstring * list jsstring);
  rb_tokens : list jsstring; rb_skipped : Z }.

Definition collect_log (st : ReplayBatch) (log : Log) : M ReplayBatch :=
  let skip := {| rb_transfers := rb_transfers st; rb_touched := rb_touched st; rb_tokens := rb_tokens st;
                 rb_skipped := rb_skipped st + 1 |} in
  match parseTransferLog log with
  | None => mret skip
  | Some t =>
      if shouldSkipTokenId (pt_tokenId t) then mret skip
      else
        timestamp ← getBlockTimestamp (lg_block log);
        mret {| rb_transfers := rb_transfers st ++ [(log, timestamp, t)];
                rb_touched := addReplayTouched (addReplayTouched (rb_touched st) (pt_tokenId t) (pt_from t))
                                (pt_tokenId t) (pt_to t);
                rb_tokens := set_add (pt_tokenId t) (rb_tokens st); rb_skipped := rb_skipped st |}
  end.

(** The insertions of a batch; returns (decoded, inserted). *)
Definition insert_transfers (transfers : list (Log * Z * ParsedTransferLog)) : M (Z * Z) :=
  foldM (fun counts item =>
    let '(log, timestamp, t) := item in
    n ← insertEvent (event_key log) (event_row log t timestamp);
    mret (counts.1 + 1, counts.2 + n)) (0, 0) transfers.

Definition reconcile_chunks (chunkSize : Z) (entry : jsstring * list jsstring) : M Z :=
  foldM (fun n addressChunk =>
    _ ← reconcileTransferStateFromChain entry.1 addressChunk None;
    mret (n + Z.of_nat (length addressChunk))) 0 (chunk entry.2 chunkSize).

Definition replay_batch (address : jsstring) (topics : list (list jsstring)) (chunkSize start end_ : Z) (counters : Counters)
  : M Counters :=
  logs ← getTransferLogsWithSplit address topics start end_;
  batch ← foldM collect_log {| rb_transfers := []; rb_touched := []; rb_tokens := []; rb_skipped := 0 |}
            (merge_sort log_order logs);
  counts ← tx (insert_transfers (rb_transfers batch));
  reconciled ← foldM (fun n entry => m ← reconcile_chunks chunkSize entry; mret (n + m)) 0 (rb_touched batch);
  _ ← forM_ (rb_tokens batch) syncTokenTransfersFromEvents;
  mret {| ct_decoded := ct_decoded counters + counts.1; ct_inserted := ct_inserted counters + counts.2;
          ct_reconciled := ct_reconciled counters + reconciled; ct_skipped := ct_skipped counters + rb_skipped batch |}.

(** [for (start = fromBlock; start <= toBlock; start += batchSize)]. *)
Fixpoint replay_loop (fuel : nat) (address : jsstring) (topics : list (list jsstring)) (request : TransferReplayRequest)
    (start : Z) (st : Counters * Completed) : M (Counters * Completed) :=
  if rq_toBlock request <? start then mret st
  else match fuel with
  | O => throwM "replay does not end"
  | S f =>
      let end_ := Z.min (start + rq_batchSize request - 1) (rq_toBlock request) in
      counters ← replay_batch address topics (rq_reconcileChunkSize request) start end_ st.1;
      replay_loop f address topics request (start + rq_batchSize request)
        (counters, {| cp_currentBlock := Some end_; cp_lastFrom := Some start; cp_lastTo := Some end_ |})
  end.

(** [try { return await c } finally { await f }]. *)
Definition finallyM {A} (c : M A) (f : M unit) : M A := fun w =>
  match c w with
  | (r, w') => match f w' with (Ok _, w'') => (r, w'') | (Err e, w'') => (Err e, w'') end
  end.

Definition withReplayLock {A} (callback : M A) : M A :=
  _ ← query (fun _ => tt);
  acquired ← (fun w => (Ok (lock_free (w_time w)), w));
  if acquired : bool then finallyM callback (query (fun _ => tt))
  else throwM "Another transfer replay is already running".

Definition runTransferReplay (address : jsstring) (topics : list (list jsstring)) (numbers : ReplayNumbers)
  : M TransferReplayProgress :=
  match validateTransferReplayRequest numbers None with
  | Err e => throwM e
  | Ok request =>
      st ← withReplayLock (replay_loop (Z.to_nat (rq_toBlock request - rq_fromBlock request + 1)) address topics request
             (rq_fromBlock request)
             ({| ct_decoded := 0; ct_inserted := 0; ct_reconciled := 0; ct_skipped := 0 |},
              {| cp_currentBlock := None; cp_lastFrom := None; cp_lastTo := None |}));
      mret (buildTransferReplayProgress request st.1 st.2)
  end.
End Replay.
