(* ===== verification/IndexerLiveness.v ===== *)
(** * Replays and lanes reach the end of their range

    The second half shows progress when the environment cooperates.

    When a transfer replay returns, every transfer of the range is stored and
    the balances of its parties are the chain's. *)

From stdpp Require Import sorting.
From S2P Require Import Prelude JsNum JsString JsNumber Scanner IndexerWorld IndexerTransfers IndexerRoles IndexerLanes IndexerProofs IndexerBalances IndexerBatches IndexerReplay.
Local Open Scope Z_scope.
Local Open Scope js_scope.

(** ** Collections *)

Lemma elem_set_add {A} `{EqDecision A} (x y : A) s : y ∈ set_add x s <-> y = x \/ y ∈ s.
Proof.
  unfold set_add. case_decide as Hx; [split; [by right|by intros [->|?]]|].
  rewrite elem_of_app, list_elem_of_singleton. tauto.
Qed.

Lemma chunk_loop_elem {A} fuel (items : list A) size x :
  (1 <= size)%nat -> (length items <= fuel)%nat -> x ∈ items -> exists c, c ∈ chunk_loop fuel items size /\ x ∈ c.
Proof.
  intros Hs. revert items. induction fuel as [|f IH]; intros items Hl Hx; destruct items as [|y items]; cbn in *.
  - by apply elem_of_nil in Hx.
  - lia.
  - by apply elem_of_nil in Hx.
  - rewrite <- (take_drop size (y :: items)) in Hx. apply elem_of_app in Hx as [Hx|Hx].
    + eexists. split; [left|done].
    + destruct (IH (drop size (y :: items))) as (c & Hc & Hxc); [rewrite length_drop; cbn; lia|done|].
      exists c. split; [by right|done].
Qed.
Lemma chunk_elem {A} (items : list A) size x : 1 <= size -> x ∈ items -> exists c, c ∈ chunk items size /\ x ∈ c.
Proof. intros Hs Hx. apply chunk_loop_elem; [lia|done|done]. Qed.

Definition replay_touches (touched : list (jsstring * list jsstring)) (tok a : jsstring) : Prop :=
  exists l, map_get tok touched = Some l /\ toLowerCase a ∈ l.
Lemma add_replay touched tok a : replay_touches (addReplayTouched touched tok a) tok a.
Proof.
  unfold replay_touches, addReplayTouched. rewrite map_get_set, decide_True by done. eexists. split; [done|].
  apply elem_set_add. by left.
Qed.
Lemma add_replay_mono touched tok a tok' a' : replay_touches touched tok' a' -> replay_touches (addReplayTouched touched tok a) tok' a'.
Proof.
  intros (l & Hl & Ha). unfold replay_touches, addReplayTouched. rewrite map_get_set. case_decide as E; [|by exists l].
  subst. eexists. split; [done|]. rewrite Hl. apply elem_set_add. by right.
Qed.

Section ReplayRange.
Context `{F : Faults, C : Chain, LP : LogProvider, RE : ReplayEnv}.
Context (on_chain : Log -> Prop) (address : jsstring) (topics : list (list jsstring)) (t0 : nat).
Abbreviation lane := (query_lane address topics).
Context (Hhonest : honest_provider on_chain lane).

(** ** Querying *)

Lemma cursor_forward pages s e c acc : forward (cursor_loop pages lane s e c acc).
Proof using. revert c acc. induction pages; intros c acc; cbn [cursor_loop]; forward_auto; done. Qed.
Lemma split_forward fuel s e : forward (split_logs fuel address topics s e).
Proof using.
  revert s e. induction fuel as [|f IH]; intros s e; cbn [split_logs]; [forward_auto|].
  apply forward_try; [apply forward_rpc|]. intros err. repeat case_match; [forward_auto|apply cursor_forward|].
  apply forward_bind; [apply IH|]. intros l. apply forward_bind; [apply IH|]. intros r. apply forward_ret.
Qed.

Lemma split_complete fuel s e w : s <= e -> e - s + 1 <= Z.of_nat fuel ->
  wp (split_logs fuel address topics s e)
     (fun logs w' => w_db w' = w_db w /\ forall log, on_chain log -> s <= lg_block log <= e -> log ∈ logs)
     (fun _ w' => w_db w' = w_db w) w.
Proof using Hhonest.
  revert s e w. induction fuel as [|f IH]; intros s e w Hse Hf; cbn [split_logs]; [lia|].
  apply wp_try, wp_rpc.
  - intros logs Hlogs. split; [done|]. exact (ho_logs _ _ Hhonest _ _ _ _ Hlogs).
  - intros err _. destruct (negb _); [by apply wp_throw|]. destruct (Z.leb_spec e s) as [Hle|Hlt].
    + assert (s = e) as -> by lia. exact (fetchCursor_complete on_chain lane Hhonest e (advance (w_db w) w)).
    + assert (s <= (s + e) / 2 < e) by (split; [apply Z.div_le_lower_bound|apply Z.div_lt_upper_bound]; lia).
      apply wp_bind. eapply wp_conseq; [apply IH; lia| |by intros _ w1 ->].
      intros l w1 [E1 H1]. apply wp_bind. eapply wp_conseq; [apply IH; lia| |intros _ w2 ->; by rewrite E1].
      intros r w2 [E2 H2]. apply wp_ret. split; [by rewrite E2, E1|]. intros log Hc Hb. apply elem_of_app.
      destruct (Z.le_gt_cases (lg_block log) ((s + e) / 2)); [left; apply H1; [done|lia]|right; apply H2; [done|lia]].
Qed.

(** ** A batch *)

(** The database gains, and fresh balances stay fresh. *)
Definition gains (w w' : World) : Prop := onward lane t0 w w' /\ grows lane (w_db w) (w_db w').
Lemma gains_trans w1 w2 w3 : gains w1 w2 -> gains w2 w3 -> gains w1 w3.
Proof using. intros [O1 G1] [O2 G2]. split; [by eapply onward_trans|by etrans]. Qed.
Lemma gains_refl w : live t0 w -> gains w w.
Proof using. intros Hw. split; [by apply onward_refl|done]. Qed.

Lemma wp_gains {A} (c : M A) (Q : A -> World -> Prop) w : live t0 w -> goes lane t0 c -> keeps (grows lane) c ->
  wp c Q (fun _ _ => True) w -> wp c (fun a w' => gains w w' /\ Q a w') (fun _ w' => gains w w') w.
Proof using.
  intros Hw Hg Hk HQ. specialize (Hg w Hw). specialize (Hk w). unfold wp in *. by destruct (c w) as [[a|e] w'].
Qed.

(** Nothing is left to do for a log: undecodable or skipped, or its event is
    stored and its parties' balances are fresh. *)
Definition repaired (w : World) (log : Log) : Prop :=
  match parseTransferLog log with
  | None => True
  | Some t => shouldSkipTokenId (pt_tokenId t) = true \/
      (is_Some (events (w_db w) !! event_key log) /\
       forall a, a ∈ [pt_from t; pt_to t] -> fresh t0 (w_db w) (pt_tokenId t) (toLowerCase a))
  end.

Lemma repaired_gains w w' log : repaired w log -> gains w w' -> repaired w' log.
Proof using.
  unfold repaired. intros H [O G]. destruct (parseTransferLog log) as [t|]; [|done].
  destruct H as [H|[[r H] Hf]]; [by left|right]. split; [exists r; by eapply lookup_weaken, G|].
  intros a Ha. by eapply fresh_onward; [apply Hf|].
Qed.

Lemma timestamp_same b w :
  wp (getBlockTimestamp b) (fun _ w' => w_db w' = w_db w) (fun _ w' => w_db w' = w_db w) w.
Proof using.
  unfold getBlockTimestamp. apply wp_bind. unfold wp at 1. cbn. destruct (w_cache w !! b); [by apply wp_ret|].
  apply wp_bind, wp_rpc; [|done]. intros [ts|] _; [|by apply wp_throw]. by apply wp_bind.
Qed.

(** What the collected batch knows of a log. *)
Definition collected (st : ReplayBatch) (log : Log) : Prop :=
  match parseTransferLog log with
  | None => True
  | Some t => shouldSkipTokenId (pt_tokenId t) = true \/
      ((exists ts, (log, ts, t) ∈ rb_transfers st) /\
       replay_touches (rb_touched st) (pt_tokenId t) (pt_from t) /\ replay_touches (rb_touched st) (pt_tokenId t) (pt_to t))
  end.

Lemma collect_spec logs st0 w :
  wp (foldM collect_log st0 logs) (fun st w' => w_db w' = w_db w /\ forall log, log ∈ logs -> collected st log)
     (fun _ w' => w_db w' = w_db w) w.
Proof using.
  apply (wp_foldM (fun p st w' => w_db w' = w_db w /\ forall log, log ∈ p -> collected st log)).
  { split; [done|by intros log ?%elem_of_nil]. }
  intros p x post st w1 _ [E1 H1]. unfold collect_log.
  assert (forall st', (forall log, collected st log -> collected st' log) -> collected st' x ->
    forall log, log ∈ p ++ [x] -> collected st' log) as Hstep.
  { intros st' Hm Hx log [Hl|Hl]%elem_of_app; [by apply Hm, H1|]. by apply list_elem_of_singleton in Hl as ->. }
  destruct (parseTransferLog x) as [t|] eqn:Hp; [|apply wp_ret; split; [done|]; apply Hstep; [done|unfold collected; by rewrite Hp]].
  destruct (shouldSkipTokenId (pt_tokenId t)) eqn:Hs;
    [apply wp_ret; split; [done|]; apply Hstep; [done|unfold collected; rewrite Hp; by left]|].
  apply wp_bind. eapply wp_conseq; [apply timestamp_same| |intros e w2 E2; by rewrite E2].
  intros ts w2 E2. apply wp_ret. split; [by rewrite E2|]. apply Hstep.
  - intros log. unfold collected. destruct (parseTransferLog log) as [t'|]; [|done].
    intros [H|((ts' & H) & Hf & Ht)]; [by left|right]. cbn. split_and!.
    + exists ts'. apply elem_of_app. by left.
    + by do 2 apply add_replay_mono.
    + by do 2 apply add_replay_mono.
  - unfold collected. rewrite Hp. right. cbn. split_and!.
    + exists ts. apply elem_of_app. right. by left.
    + apply add_replay_mono, add_replay.
    + apply add_replay.
Qed.

Lemma insert_all items w :
  wp (insert_transfers items)
     (fun _ w' => forall log ts t, (log, ts, t) ∈ items -> is_Some (events (w_db w') !! event_key log)) (fun _ _ => True) w.
Proof using address topics.
  eapply wp_conseq with (E := fun _ _ => True); [|intros a w' H; exact H|done].
  apply (wp_foldM (fun p _ w' => forall log ts t, (log, ts, t) ∈ p -> is_Some (events (w_db w') !! event_key log))).
  { by intros log ts t ?%elem_of_nil. }
  intros p [[log ts] t] post counts w1 _ H1. apply wp_bind.
  eapply wp_conseq; [apply wp_and; [apply (insertEvent_grows lane)|apply insertEvent_inserted]| |done].
  intros n w2 [G2 H2]. apply wp_ret. intros log' ts' t' [Hl|Hl]%elem_of_app.
  - destruct (H1 _ _ _ Hl) as [r Hr]. exists r. by eapply lookup_weaken, G2.
  - apply list_elem_of_singleton in Hl as [= -> _ _]. done.
Qed.

Lemma insert_keeps (R : Db -> Db -> Prop) `{!PreOrder R} items :
  (forall k r, keeps R (insertEvent k r)) -> keeps R (insert_transfers items).
Proof using.
  intros HR. unfold insert_transfers. apply keeps_foldM; [done|]. intros counts [[log ts] t].
  apply keeps_bind; [done|apply HR|]. intros n. by apply keeps_ret.
Qed.
Lemma forward_foldM {X S} (f : S -> X -> M S) s l : (forall s x, forward (f s x)) -> forward (foldM f s l).
Proof using.
  intros Hf. revert s. induction l as [|x l IH]; intros s; [apply forward_ret|]. apply forward_bind; [apply Hf|done].
Qed.

Lemma insert_gains items w : live t0 w ->
  wp (tx (insert_transfers items))
     (fun _ w' => gains w w' /\ forall log ts t, (log, ts, t) ∈ items -> is_Some (events (w_db w') !! event_key log))
     (fun _ w' => gains w w') w.
Proof using.
  intros Hw. apply (wp_gains _ (fun _ w' => forall log ts t, (log, ts, t) ∈ items -> is_Some (events (w_db w') !! event_key log))); [done| | |].
  - apply goes_quiet.
    + apply forward_tx, forward_foldM. intros counts [[log ts] t]. apply forward_bind; [apply forward_sql|intros; apply forward_ret].
    + apply keeps_tx; [typeclasses eauto|]. apply insert_keeps; [typeclasses eauto|]. intros k r.
      apply keeps_sql; [typeclasses eauto|]. intros d. by destruct (events d !! k).
  - apply keeps_tx; [typeclasses eauto|]. apply insert_keeps; [typeclasses eauto|]. intros k r. apply insertEvent_grows.
  - apply wp_tx. eapply wp_conseq; [apply insert_all| |done]. cbn. intros a w' H. by split_and!.
Qed.

Lemma reconcile_gains tok l ts w : live t0 w ->
  wp (reconcileTransferStateFromChain tok l ts)
     (fun _ w' => gains w w' /\ forall a, a ∈ tracked l -> fresh t0 (w_db w') tok a) (fun _ w' => gains w w') w.
Proof using.
  intros Hw. pose proof (reconcile_goes lane t0 tok l ts w Hw) as Hg. pose proof (reconcile_grows lane tok l ts w) as Hk.
  unfold wp in *. destruct (reconcileTransferStateFromChain tok l ts w) as [[u|e] w']; [|done].
  destruct Hg as [Hg Hf]. done.
Qed.

(** Folds whose steps gain and achieve a stable fact each. *)
Lemma wp_foldM_gains {X S} (P : X -> World -> Prop) (f : S -> X -> M S) s l w : live t0 w ->
  (forall x w w', P x w -> gains w w' -> P x w') ->
  (forall s x w, live t0 w -> wp (f s x) (fun _ w' => gains w w' /\ P x w') (fun _ w' => gains w w') w) ->
  wp (foldM f s l) (fun _ w' => gains w w' /\ forall x, x ∈ l -> P x w') (fun _ w' => gains w w') w.
Proof using.
  intros Hw HP Hf. apply (wp_foldM (fun p _ w' => gains w w' /\ forall x, x ∈ p -> P x w')).
  { split; [by apply gains_refl|by intros x ?%elem_of_nil]. }
  intros p x post s' w1 _ [G1 H1].
  eapply wp_conseq; [apply Hf, G1| |intros e w2 G2; by eapply gains_trans].
  intros s'' w2 [G2 H2]. split; [by eapply gains_trans|].
  intros y [Hy|Hy]%elem_of_app; [by eapply HP; [apply H1|]|]. by apply list_elem_of_singleton in Hy as ->.
Qed.

Definition entry_fresh (entry : jsstring * list jsstring) (w : World) : Prop :=
  forall a, a ∈ entry.2 -> fresh t0 (w_db w) entry.1 (toLowerCase a).

Lemma reconcile_entry chunkSize entry w : 1 <= chunkSize -> live t0 w ->
  wp (reconcile_chunks chunkSize entry) (fun _ w' => gains w w' /\ entry_fresh entry w') (fun _ w' => gains w w') w.
Proof using.
  intros Hc Hw. unfold reconcile_chunks. eapply wp_conseq.
  - apply (wp_foldM_gains (fun c w' => forall a, a ∈ tracked c -> fresh t0 (w_db w') entry.1 a)); [done| |].
    + intros c w1 w2 H [O _] a Ha. by eapply fresh_onward; [apply H|].
    + intros n c w1 H1. apply wp_bind. eapply wp_conseq; [by apply reconcile_gains| |done]. intros u w2 H2. by apply wp_ret.
  - intros n w' [G H]. split; [done|]. intros a Ha. destruct (isZeroAddress (toLowerCase a)) eqn:Hz; [by left|].
    destruct (chunk_elem entry.2 chunkSize a Hc Ha) as (c & Hcc & Hac). apply (H c Hcc), elem_tracked.
    split; [by apply list_elem_of_fmap_2|done].
  - done.
Qed.

Lemma collected_repaired st log w : collected st log ->
  (forall log ts t, (log, ts, t) ∈ rb_transfers st -> is_Some (events (w_db w) !! event_key log)) ->
  (forall entry, entry ∈ rb_touched st -> entry_fresh entry w) -> repaired w log.
Proof using.
  unfold collected, repaired. intros Hc He Hf. destruct (parseTransferLog log) as [t|]; [|done].
  destruct Hc as [Hc|((ts & Hts) & (l1 & E1 & H1) & (l2 & E2 & H2))]; [by left|right]. split; [by eapply He|].
  rewrite E1 in E2. injection E2 as <-. specialize (Hf _ (map_get_elem _ _ _ E1)).
  intros a [->|[->|?%elem_of_nil]%elem_of_cons]%elem_of_cons; [..|done]; rewrite <- toLowerCase_idem; by apply Hf.
Qed.

Lemma same_gains w w' : live t0 w -> (w_time w <= w_time w')%nat -> w_db w' = w_db w -> gains w w'.
Proof using. intros Hw Ht E. split; [apply quiet_onward; [done|done|by rewrite E]|by rewrite E]. Qed.

Lemma collect_forward logs st0 : forward (foldM collect_log st0 logs).
Proof using. apply forward_foldM. intros st log. unfold collect_log, getBlockTimestamp. forward_auto. Qed.

Lemma wp_same_gains {A} (c : M A) (Q : A -> Prop) w : live t0 w -> forward c ->
  wp c (fun a w' => w_db w' = w_db w /\ Q a) (fun _ w' => w_db w' = w_db w) w ->
  wp c (fun a w' => gains w w' /\ Q a) (fun _ w' => gains w w') w.
Proof using.
  intros Hw Hf Hc. specialize (Hf w). unfold wp in *. destruct (c w) as [[a|e] w']; cbn in *.
  - destruct Hc as [E HQ]. split; [by apply same_gains|done].
  - by apply same_gains.
Qed.

Lemma sync_gains toks w : live t0 w ->
  wp (forM_ toks syncTokenTransfersFromEvents) (fun _ w' => gains w w') (fun _ w' => gains w w') w.
Proof using.
  intros Hw. eapply wp_conseq; [apply (wp_gains _ (fun _ _ => True)); [done| | |]|by intros ? ? [? _]|done].
  - apply goes_quiet; [apply forward_forM_; intros; apply forward_sql|].
    apply keeps_forM_; [typeclasses eauto|]. intros tok _. by apply execute_quiet.
  - apply keeps_forM_; [typeclasses eauto|]. intros tok _. apply sync_grows.
  - unfold wp. by case_match; destruct r.
Qed.

Lemma replay_batch_repairs chunkSize s e counters w : 1 <= chunkSize -> s <= e -> live t0 w ->
  wp (replay_batch address topics chunkSize s e counters)
     (fun _ w' => gains w w' /\ forall log, on_chain log -> s <= lg_block log <= e -> repaired w' log)
     (fun _ w' => gains w w') w.
Proof using Hhonest.
  intros Hc Hse Hw. unfold replay_batch, getTransferLogsWithSplit. apply wp_bind.
  eapply wp_conseq; [apply wp_same_gains; [done|apply split_forward|apply split_complete; [done|lia]]| |done].
  intros logs w1 [G1 H1]. apply wp_bind.
  eapply wp_conseq; [apply wp_same_gains; [apply G1|apply collect_forward|apply collect_spec]| |intros err w2 G2; by eapply gains_trans].
  intros st w2 [G2 H2]. pose proof (gains_trans _ _ _ G1 G2) as G02. apply wp_bind.
  eapply wp_conseq; [apply insert_gains, G02| |intros err w3 G3; by eapply gains_trans].
  intros counts w3 [G3 H3]. pose proof (gains_trans _ _ _ G02 G3) as G03. apply wp_bind.
  eapply wp_conseq; [apply (wp_foldM_gains entry_fresh); [apply G03| |]| |intros err w4 G4; by eapply gains_trans].
  { intros entry w4 w5 H [O _] a Ha. by eapply fresh_onward; [apply H|]. }
  { intros n entry w4 H4. apply wp_bind. eapply wp_conseq; [by apply reconcile_entry| |done]. intros m w5 H5. by apply wp_ret. }
  intros rec w4 [G4 H4]. pose proof (gains_trans _ _ _ G03 G4) as G04. apply wp_bind.
  eapply wp_conseq; [apply sync_gains, G04| |intros err w5 G5; by eapply gains_trans].
  intros u w5 G5. apply wp_ret. split; [by eapply gains_trans|]. intros log Hl Hb.
  eapply repaired_gains; [|exact G5]. eapply collected_repaired; [|intros log' ts t Hin|exact H4].
  - apply (H2 log). rewrite merge_sort_Permutation. by apply H1.
  - destruct (H3 _ _ _ Hin) as [r Hr]. exists r. eapply lookup_weaken; [exact Hr|apply G4].
Qed.

(** ** The whole range *)

Lemma replay_loop_repairs fuel request start st w :
  1 <= rq_batchSize request -> 1 <= rq_reconcileChunkSize request ->
  rq_toBlock request - start + 1 <= Z.of_nat fuel -> live t0 w ->
  rq_fromBlock request <= start ->
  (rq_toBlock request < start -> cp_currentBlock st.2 = Some (rq_toBlock request)) ->
  (forall log, on_chain log -> rq_fromBlock request <= lg_block log < start -> lg_block log <= rq_toBlock request -> repaired w log) ->
  wp (replay_loop fuel address topics request start st)
     (fun st' w' => gains w w' /\ cp_currentBlock st'.2 = Some (rq_toBlock request) /\
        forall log, on_chain log -> rq_fromBlock request <= lg_block log <= rq_toBlock request -> repaired w' log)
     (fun _ w' => gains w w') w.
Proof using Hhonest.
  intros Hb Hc. revert start st w. induction fuel as [|f IH]; intros start st w Hf Hw Hfrom Hcur Hdone; cbn [replay_loop];
    destruct (Z.ltb_spec (rq_toBlock request) start) as [Hlt|Hge]; try lia.
  1, 2: apply wp_ret; split_and!; [by apply gains_refl|by apply Hcur|]; intros log Hl Hlb; apply Hdone; [done|lia|lia].
  set (e := Z.min _ _). apply wp_bind.
  eapply wp_conseq; [apply (replay_batch_repairs (rq_reconcileChunkSize request) start e st.1); [done|lia|done]| |done].
  intros counters w1 [G1 H1]. eapply wp_conseq; [apply IH; [lia|apply G1|lia| |]| |intros err w2 G2; by eapply gains_trans].
  - cbn. intros H. f_equal. lia.
  - intros log Hl Hlb Hto. destruct (Z.le_gt_cases start (lg_block log)); [apply H1; [done|lia]|].
    eapply repaired_gains; [|exact G1]. apply Hdone; [done|lia|lia].
  - intros st' w2 (G2 & E2 & H2). split_and!; [by eapply gains_trans|done|done].
Qed.
End ReplayRange.

(** ** Progress when the environment cooperates

    With a database that executes every statement and a provider that answers
    (too-large responses included), a pass of the transfer lane and a replay
    return; with the safety results they have done their work.  This is where
    the fuel of the loops is shown to be enough. *)

Local Open Scope Z_scope.
Local Open Scope js_scope.

(** ** Computations that return *)

Definition succeeds {A} (c : M A) : Prop := forall w, exists a w', c w = (Ok a, w').

Lemma succeeds_ret {A} (a : A) : succeeds (mret a).
Proof. intros w. by exists a, w. Qed.
Lemma succeeds_bind {A B} (c : M A) (f : A -> M B) : succeeds c -> (forall a, succeeds (f a)) -> succeeds (c ≫= f).
Proof. intros Hc Hf w. destruct (Hc w) as (a & w' & E). unfold mbind, M_bind. rewrite E. apply Hf. Qed.
Lemma succeeds_try {A} (c : M A) h : (forall e, succeeds (h e)) -> succeeds (try_catch c h).
Proof. intros Hh w. unfold try_catch. destruct (c w) as [[a|e] w'] eqn:E; [by exists a, w'|apply Hh]. Qed.
Lemma succeeds_try_left {A} (c : M A) h : succeeds c -> succeeds (try_catch c h).
Proof. intros Hc w. unfold try_catch. destruct (Hc w) as (a & w' & E). rewrite E. by exists a, w'. Qed.
Lemma succeeds_forM_ {A} (l : list A) f : (forall x, succeeds (f x)) -> succeeds (forM_ l f).
Proof. intros Hf. induction l; [apply succeeds_ret|by apply succeeds_bind]. Qed.
Lemma succeeds_foldM {A S} (f : S -> A -> M S) s l : (forall s x, succeeds (f s x)) -> succeeds (foldM f s l).
Proof. intros Hf. revert s. induction l; intros s; [apply succeeds_ret|]. apply succeeds_bind; [apply Hf|done]. Qed.
Lemma succeeds_mapMM {A B} (f : A -> M B) l : (forall x, succeeds (f x)) -> succeeds (mapMM f l).
Proof.
  intros Hf. induction l; [apply succeeds_ret|]. apply succeeds_bind; [done|]. intros y. apply succeeds_bind; [done|].
  intros ys. apply succeeds_ret.
Qed.
Lemma succeeds_rpc {A} (f : nat -> result A) : (forall t, exists a, f t = Ok a) -> succeeds (rpc f).
Proof. intros Hf w. unfold rpc. destruct (Hf (w_time w)) as [a ->]. eauto. Qed.
Lemma succeeds_cache : succeeds getCache /\ forall k v, succeeds (setCache k v).
Proof. split; [intros w|intros k v w]; unfold getCache, setCache; eauto. Qed.

(** A cooperative environment.  Too-large answers are allowed for ranges of
    more than one block or when the block can be paged. *)
Class Calm `{F : Faults, C : Chain, LP : LogProvider, RE : ReplayEnv} : Prop := {
  calm_sql : forall t, sql_fault t = None;
  calm_logs : forall t a topics s e, (exists logs, getLogs t a topics s e = Ok logs) \/
    (exists err, getLogs t a topics s e = Err err /\ isResponseSizeError err = true /\
                 isGetLogsResponseTooLargeError (error_object err) = true);
  calm_pages : exists rank : option jsstring -> nat, (rank None < cursor_pages)%nat /\
    forall t a topics s e c, exists page next, getLogsWithCursor t a topics s e c = Ok (page, next) /\
      forall c', truthy next = Some c' -> (rank (Some c') < rank c)%nat;
  calm_block : forall t b, exists ts, provider_getBlock t b = Ok (Some ts);
  calm_balance : forall t a k, exists b, hub_balanceOf t a k = Ok b;
  calm_supply : forall t k, exists s, hub_totalSupply t k = Ok s }.

Section Progress.
Context `{F : Faults, C : Chain, LP : LogProvider, RE : ReplayEnv, Hcalm : !Calm}.

Lemma succeeds_sql {A} (f : Db -> A * Db) : succeeds (sql f).
Proof using Hcalm. intros w. unfold sql. rewrite calm_sql. destruct (f (w_db w)). eauto. Qed.
Lemma succeeds_tx {A} (c : M A) : succeeds c -> succeeds (tx c).
Proof using Hcalm. intros Hc w. unfold tx. destruct (Hc w) as (a & w' & ->). rewrite calm_sql. eauto. Qed.

Lemma cursor_succeeds lane s e : succeeds (fetchLogsWithCursor lane s e).
Proof using Hcalm.
  destruct calm_pages as (rank & H0 & Hp). unfold fetchLogsWithCursor. revert H0.
  generalize (None (A := jsstring)) as c, (@nil Log) as acc, cursor_pages as n.
  intros c acc n. revert c acc. induction n as [|n IH]; intros c acc Hr; [lia|]. cbn [cursor_loop]. intros w.
  unfold mbind, M_bind, rpc. destruct (Hp (w_time w) (ln_contract lane) (ln_topics lane) s e c) as (page & next & -> & Hn).
  cbn [fst snd]. destruct (truthy next) as [c'|]; [|apply succeeds_ret]. apply IH. specialize (Hn c' eq_refl). lia.
Qed.

Ltac ok_step :=
  lazymatch goal with
  | |- forall _, _ => intros ?
  | |- succeeds (match ?x with _ => _ end) => destruct x
  | |- succeeds (_ ≫= _) => apply succeeds_bind
  | |- succeeds (tx _) => apply succeeds_tx
  | |- succeeds (forM_ _ _) => apply succeeds_forM_
  | |- succeeds (foldM _ _ _) => apply succeeds_foldM
  | |- succeeds (mapMM _ _) => apply succeeds_mapMM
  | |- succeeds (sql _) => apply succeeds_sql
  | |- succeeds (mret _) => apply succeeds_ret
  | |- succeeds getCache => apply (proj1 succeeds_cache)
  | |- succeeds (setCache _ _) => apply (proj2 succeeds_cache)
  end.
Ltac ok_auto := unfold query, execute; cbv zeta; repeat ok_step.

Lemma timestamp_succeeds b : succeeds (getBlockTimestamp b).
Proof using Hcalm.
  unfold getBlockTimestamp. apply succeeds_bind; [apply succeeds_cache|]. intros cache. destruct (cache !! b); [apply succeeds_ret|].
  intros w. unfold mbind, M_bind, rpc. destruct (calm_block (w_time w) b) as [ts ->]. cbn. eauto.
Qed.
Lemma or_null_succeeds {A} (c : M A) : succeeds (or_null c).
Proof using. apply succeeds_try. intros e. apply succeeds_ret. Qed.
Lemma reconcile_succeeds tok l ts : succeeds (reconcileTransferStateFromChain tok l ts).
Proof using Hcalm.
  unfold reconcileTransferStateFromChain, ensureToken, selectToken, getBalance, setBalance, getHolderCount, setTokenState.
  ok_auto; try apply or_null_succeeds; apply succeeds_rpc; intros t; [apply calm_balance|apply calm_supply].
Qed.
Lemma record_succeeds a log e : succeeds (recordFailedEvent a log e).
Proof using Hcalm. unfold recordFailedEvent. ok_auto. Qed.
Lemma sync_succeeds tok : succeeds (syncTokenTransfersFromEvents tok).
Proof using Hcalm. unfold syncTokenTransfersFromEvents. ok_auto. Qed.
Lemma checkpoint_succeeds lane : succeeds (getCheckpointValue lane).
Proof using Hcalm. unfold getCheckpointValue, getMeta. ok_auto. Qed.

(** ** The lane *)

Lemma transfers_succeed lane logs : succeeds (processTransferLogs lane logs).
Proof using Hcalm.
  unfold processTransferLogs. apply succeeds_bind; [apply checkpoint_succeeds|]. intros cp. apply succeeds_bind.
  - apply succeeds_foldM. intros st log. apply succeeds_try. intros e. apply succeeds_bind; [apply record_succeeds|].
    intros u. apply succeeds_ret.
  - intros st. apply succeeds_forM_. intros entry. unfold process_touched_token. apply succeeds_bind.
    + apply succeeds_try. intros e. apply succeeds_bind; [apply succeeds_forM_; intros; apply record_succeeds|].
      intros u. apply succeeds_ret.
    + intros failed. apply succeeds_try. intros e. destruct failed; [apply succeeds_ret|].
      apply succeeds_forM_. intros. apply record_succeeds.
Qed.

Lemma run_batch_succeeds lane logs e : ln_token lane = true -> ln_afterBatch lane = None -> succeeds (run_batch lane logs e).
Proof using Hcalm.
  intros Ht Ha. unfold run_batch. apply succeeds_bind.
  - assert (succeeds (processLogs lane logs)) as H; [|destruct logs; [apply succeeds_ret|exact H]].
    unfold processLogs. rewrite Ht, Ha. apply succeeds_bind; [apply transfers_succeed|]. intros u. apply succeeds_ret.
  - intros u. unfold setLaneCheckpoint, setMeta. apply succeeds_bind; [apply checkpoint_succeeds|]. intros cp. ok_auto.
Qed.

Lemma range_loop_succeeds lane fuel queue : ln_token lane = true -> ln_afterBatch lane = None ->
  succeeds (range_loop fuel lane queue).
Proof using Hcalm.
  intros Ht Ha. revert queue. induction fuel as [|f IH]; intros [|[s e] q]; cbn [range_loop]; try apply succeeds_ret.
  apply succeeds_bind; [|apply IH].
  assert (forall logs e0 (q0 : list (Z * Z)), succeeds (_ ← run_batch lane logs e0; mret q0)) as Hb.
  { intros logs e0 q0. apply succeeds_bind; [by apply run_batch_succeeds|]. intros u. apply succeeds_ret. }
  intros w. unfold try_catch, mbind at 1, M_bind at 1, rpc.
  destruct (calm_logs (w_time w) (ln_contract lane) (ln_topics lane) s e) as [[logs ->]|(err & -> & Hs & _)].
  - destruct (Hb logs e q (advance (w_db w) w)) as (a & w' & E). rewrite E. eauto.
  - rewrite Hs. destruct (s <? e); [apply succeeds_ret|].
    apply succeeds_bind; [apply cursor_succeeds|]. intros logs. apply Hb.
Qed.

Lemma lane_loop_succeeds cfg lane fuel cur latest : ln_token lane = true -> ln_afterBatch lane = None ->
  succeeds (lane_loop fuel cfg lane cur latest).
Proof using Hcalm.
  intros Ht Ha. revert cur. induction fuel as [|f IH]; intros cur; cbn [lane_loop]; destruct (latest <? cur); try apply succeeds_ret.
  apply succeeds_bind; [|intros; apply IH]. unfold processRange. apply succeeds_bind; [by apply range_loop_succeeds|].
  intros. apply succeeds_ret.
Qed.

Lemma lane_succeeds cfg lane latest w : ln_token lane = true -> ln_afterBatch lane = None -> sane lane (w_db w) ->
  exists w', processLaneUntil cfg lane latest w = (Ok tt, w').
Proof using Hcalm.
  intros Ht Ha Hs.
  assert (exists n w', getNextStartBlock lane w = (Ok n, w')) as (n & w1 & E1).
  { pose proof (getCheckpoint_spec lane w) as Hspec. destruct (checkpoint_succeeds lane w) as (cp & w1 & E).
    unfold wp in Hspec. rewrite E in Hspec. destruct Hspec as [-> Edb]. unfold getNextStartBlock, mbind, M_bind. rewrite E.
    destruct (stored_checkpoint lane (w_db w)) as [c|] eqn:Ec; [|cbn; eauto]. destruct (Hs c Ec) as (k & Ek & Hk).
    destruct c as [|x c]; cbn [truthy]; [eauto|]. rewrite Ek. rewrite (proj2 (Z.ltb_ge k 0)) by lia. eauto. }
  unfold processLaneUntil, mbind, M_bind. rewrite E1.
  destruct (lane_loop_succeeds cfg lane (Z.to_nat (latest - n + 1)) n latest Ht Ha w1) as (c & w2 & E2). rewrite E2. eauto.
Qed.

(** ** The replay *)

Lemma split_succeeds fuel a topics s e : s <= e -> e - s + 1 <= Z.of_nat fuel -> succeeds (split_logs fuel a topics s e).
Proof using Hcalm.
  revert s e. induction fuel as [|f IH]; intros s e Hse Hf; [lia|]. cbn [split_logs]. intros w.
  unfold try_catch, rpc. destruct (calm_logs (w_time w) a topics s e) as [[logs ->]|(err & -> & _ & Hl)]; [eauto|].
  rewrite Hl. cbn [negb]. destruct (Z.leb_spec e s); [apply cursor_succeeds|].
  assert (s <= (s + e) / 2 < e) by (split; [apply Z.div_le_lower_bound|apply Z.div_lt_upper_bound]; lia).
  apply succeeds_bind; [apply IH; lia|]. intros l. apply succeeds_bind; [apply IH; lia|]. intros r. apply succeeds_ret.
Qed.

Lemma replay_batch_succeeds a topics k s e counters : s <= e -> succeeds (replay_batch a topics k s e counters).
Proof using Hcalm.
  intros Hse. unfold replay_batch, getTransferLogsWithSplit. apply succeeds_bind; [apply split_succeeds; lia|]. intros logs.
  apply succeeds_bind.
  { apply succeeds_foldM. intros st log. unfold collect_log. repeat ok_step. apply timestamp_succeeds. }
  intros batch. apply succeeds_bind.
  { apply succeeds_tx. unfold insert_transfers. apply succeeds_foldM. intros counts [[log ts] t].
    apply succeeds_bind; [apply succeeds_sql|]. intros n. apply succeeds_ret. }
  intros counts. apply succeeds_bind.
  { apply succeeds_foldM. intros n entry. apply succeeds_bind; [|intros; apply succeeds_ret]. unfold reconcile_chunks.
    apply succeeds_foldM. intros m l. apply succeeds_bind; [apply reconcile_succeeds|intros; apply succeeds_ret]. }
  intros n. apply succeeds_bind; [apply succeeds_forM_; intros; apply sync_succeeds|]. intros u. apply succeeds_ret.
Qed.

Lemma replay_loop_succeeds fuel a topics request start st : 1 <= rq_batchSize request ->
  rq_toBlock request - start + 1 <= Z.of_nat fuel -> succeeds (replay_loop fuel a topics request start st).
Proof using Hcalm.
  intros Hb. revert start st. induction fuel as [|f IH]; intros start st Hf; cbn [replay_loop];
    destruct (Z.ltb_spec (rq_toBlock request) start); try apply succeeds_ret; [lia|].
  apply succeeds_bind; [apply replay_batch_succeeds; lia|]. intros counters. apply IH. lia.
Qed.

Lemma lock_succeeds {A} (c : M A) : (forall t, lock_free t = true) -> succeeds c -> succeeds (withReplayLock c).
Proof using Hcalm.
  intros Hl Hc. unfold withReplayLock. apply succeeds_bind; [apply succeeds_sql|]. intros u. intros w.
  unfold mbind, M_bind. rewrite Hl. unfold finallyM. destruct (Hc w) as (a & w1 & ->).
  destruct (succeeds_sql (fun d => (tt, d)) w1) as (b & w2 & E2). unfold query. rewrite E2. eauto.
Qed.
End Progress.

(** ** Theorems *)

Lemma validate_inv numbers maxRange request : validateTransferReplayRequest numbers maxRange = Ok request ->
  1 <= rq_batchSize request /\ 1 <= rq_reconcileChunkSize request /\ 0 <= rq_fromBlock request <= rq_toBlock request /\
  (forall m, maxRange = Some m -> int_gt (rq_toBlock request - rq_fromBlock request + 1) m = false) /\
  rn_batchSize numbers = JInt (rq_batchSize request) /\ rn_fromBlock numbers = JInt (rq_fromBlock request) /\
  rn_reconcileChunkSize numbers = JInt (rq_reconcileChunkSize request) /\ rn_toBlock numbers = JInt (rq_toBlock request).
Proof.
  unfold validateTransferReplayRequest. destruct numbers as [[| |bs|] [| |fb|] [| |rc|] [| |tb|]]; try done. cbn.
  destruct (Z.ltb_spec fb 0), (Z.ltb_spec tb 0); cbn; try done.
  destruct (Z.ltb_spec bs 1); cbn; [done|]. destruct (Z.ltb_spec rc 1); cbn; [done|]. destruct (Z.ltb_spec tb fb); cbn; [done|].
  destruct (match maxRange with Some m => int_gt (tb - fb + 1) m | None => false end) eqn:Hm; cbn; [done|].
  intros [= <-]. cbn. split_and!; try done; try lia. intros m ->. exact Hm.
Qed.

Section Statements.
Context `{F : Faults, C : Chain, LP : LogProvider, RE : ReplayEnv}.

Lemma lock_spec {A} (c : M A) Q w : (forall w1, w_db w1 = w_db w -> (w_time w <= w_time w1)%nat ->
    wp c (fun a w' => forall w'', w_db w'' = w_db w' -> Q a w'') (fun _ w' => True) w1) ->
  wp (withReplayLock c) Q (fun _ _ => True) w.
Proof using.
  intros Hc. unfold withReplayLock. apply wp_bind, wp_sql; [|done..]. cbn [fst snd].
  specialize (Hc (advance (w_db w) w) eq_refl ltac:(cbn; lia)). unfold wp in *. unfold mbind, M_bind.
  destruct (lock_free _); [|done]. unfold finallyM. destruct (c (advance (w_db w) w)) as [[a|e] w1].
  - unfold query, sql. destruct (sql_fault (w_time w1)) as [[err []]|]; cbn; auto.
  - unfold query, sql. by destruct (sql_fault (w_time w1)) as [[err []]|].
Qed.

Lemma replay_spec on_chain a topics numbers w : honest_provider on_chain (query_lane a topics) -> positive (w_db w) ->
  wp (runTransferReplay a topics numbers)
     (fun p w' => exists request, validateTransferReplayRequest numbers None = Ok request /\
        pr_processedBlocks p = pr_totalBlocks p /\ pr_remainingBlocks p = 0 /\
        forall log, on_chain log -> rq_fromBlock request <= lg_block log <= rq_toBlock request -> repaired (w_time w) w' log)
     (fun _ _ => True) w.
Proof using.
  intros Hh Hp. unfold runTransferReplay. destruct (validateTransferReplayRequest numbers None) as [request|e] eqn:Hv; [|by apply wp_throw].
  destruct (validate_inv _ _ _ Hv) as (H1 & H2 & H3 & _). apply wp_bind.
  apply (lock_spec _ (fun st w' => wp (mret (buildTransferReplayProgress request st.1 st.2)) _ _ w')). intros w1 E1 T1.
  assert (live (w_time w) w1) as Hl by (split; [done|by rewrite E1]).
  eapply wp_conseq; [eapply (replay_loop_repairs on_chain a topics (w_time w) Hh)| |done].
  - done.
  - done.
  - lia.
  - done.
  - done.
  - intros. lia.
  - intros log _ Hb. lia.
  - cbn beta. intros st w2 (_ & Hcur & Hrep) w3 E3. apply wp_ret. exists request. split; [done|].
    unfold buildTransferReplayProgress. rewrite Hcur. cbn. split_and!; [lia|lia|].
    intros log Hlog Hb. specialize (Hrep log Hlog Hb). unfold repaired in *. by rewrite E3.
Qed.
End Statements.
