(* ===== verification/IndexerTheorems.v ===== *)
(** * The indexer loses no transfer: statements

    The theorems on the lanes and the background process, and a small chain
    on which they are exercised: one transfer, a database that fails the
    insertion of its event, and a retry that recovers it. *)

From S2P Require Import Prelude JsNum JsString JsNumber Scanner IndexerWorld IndexerTransfers IndexerRoles IndexerLanes IndexerJobs IndexerProofs IndexerSystem IndexerBalances IndexerBatches IndexerReplay IndexerLiveness.
Local Open Scope Z_scope.
Local Open Scope js_scope.

(** ** A small chain *)

Module Toy.
Definition hub : jsstring := js "0xhub".
Definition oracle : jsstring := js "0xoracle".
Definition transfer_log : Log :=
  {| lg_block := 3; lg_tx := js "0xt1"; lg_index := 0; lg_topics := [js "Transfer"]; lg_data := js "0x" |}.
Definition named (name : string) : JsArg :=
  if bool_decide (name = "caller"%string) then AString (js "0xop")
  else if bool_decide (name = "from"%string) then AString (js "0xaa")
  else if bool_decide (name = "to"%string) then AString (js "0xBB")
  else if bool_decide (name = "id"%string) then ABigint 7
  else if bool_decide (name = "amount"%string) then ABigint 100 else AMissing.

#[export] Instance chain : Chain := {|
  hub_name := fun _ _ => Ok (js "Token"); hub_symbol := fun _ _ => Ok (js "TKN"); hub_decimals := fun _ _ => Ok 6;
  hub_tokenMetadata := fun _ _ => Err "no metadata";
  hub_balanceOf := fun _ a _ => Ok (if bool_decide (a = js "0xbb") then 100 else 0);
  hub_totalSupply := fun _ _ => Ok 100;
  provider_getBlock := fun _ b => Ok (Some (1000 + b));
  hub_parseLog := fun topics _ => Ok (if bool_decide (topics = [js "Transfer"]) then
    Some {| pl_name := js "Transfer"; pl_named := named; pl_pos := fun _ => AMissing |} else None);
  pg_code := fun _ => [] |}.

Definition logs_of (a : jsstring) : list Log := if bool_decide (a = hub) then [transfer_log] else [].
Definition logs_in (a : jsstring) (s e : Z) : list Log :=
  List.filter (fun l => (s <=? lg_block l) && (lg_block l <=? e)) (logs_of a).

(** Ranges of more than two blocks are too large for the provider. *)
#[export] Instance provider : LogProvider := {|
  getLogs := fun _ a _ s e => if 1 <? e - s then Err "Response size exceeds limit" else Ok (logs_in a s e);
  getLogsWithCursor := fun _ a _ s e c => Ok (match c with None => logs_in a s e | Some _ => [] end, None);
  getBlockNumber := fun _ => Ok 10;
  cursor_pages := 5; other_toString := fun _ => [] |}.

#[export] Instance access : AccessChain := {|
  hasRole := fun _ _ _ _ => Ok false; getRoleAdmin := fun _ _ _ => Ok [] |}.
#[export] Instance oracle_chain : OracleChain := {|
  oracle_parseLog := fun _ _ => Ok None; oracle_parseTransaction := fun _ => Ok None;
  multicall_parseTransaction := fun _ => Ok None; provider_getTransaction := fun _ _ => Ok None |}.

(** The statement issued at time 16 fails. *)
#[export] Instance faults : Faults := fun t => if Nat.eqb t 16 then Some ("connection lost"%string, false) else None.

Definition cfg : IndexerConfig := {| batchSize := 100; confirmationBlocks := 2 |}.
Definition empty_db : Db := {|
  tokens := ∅; balances := ∅; events := ∅; failed_events := ∅; role_events := ∅; role_members := ∅;
  role_admins := ∅; oracle_executions := ∅; meta := ∅ |}.
Definition start : System := {|
  sys_db := empty_db; sys_time := 0; poll_cache := ∅; poll_txs := ∅; retry_cache := ∅; retry_txs := ∅ |}.
Definition polled : System := after_poll start (poll cfg hub oracle 0 0 0 [] [] [] (poll_world start)).2.
Definition recovered : System := after_retry polled (retry_failed_events hub oracle (retry_world polled)).2.

Definition on_chain (a : jsstring) (log : Log) : Prop := log ∈ logs_of a.
Definition transfers (log : Log) : Prop := log = transfer_log.

Lemma elem_logs a log : on_chain a log <-> a = hub /\ log = transfer_log.
Proof. 
  unfold on_chain, logs_of. case_bool_decide as Ha; rewrite ?elem_of_nil, ?list_elem_of_singleton; [|by split; [|intros [? _]]].
  split; [by intros ->|by intros [_ ->]].
Qed.
Lemma elem_logs_in a s e log : log ∈ logs_in a s e <-> on_chain a log /\ s <= lg_block log <= e.
Proof.
  unfold logs_in. rewrite list_elem_of_In, filter_In, <- list_elem_of_In, andb_true_iff, !Z.leb_le. done.
Qed.

Lemma honest overlap : overlap <= 1000 -> honest_chain hub 0 overlap [] on_chain transfers.
Proof.
  intros Ho. split.
  - intros log ->. by apply elem_logs.
  - intros a b l1 l2 [-> ->]%elem_logs [-> ->]%elem_logs. done.
  - intros t a topics s e logs. cbn. case_match; [done|]. intros [= <-]. apply Forall_forall. intros log.
    by intros [Hx _]%elem_logs_in.
  - intros t a topics s e c page next. cbn. intros [= <- <-]. apply Forall_forall. intros log.
    destruct c; [by intros ?%elem_of_nil|]. by intros [Hx _]%elem_logs_in.
  - split.
    + intros t s e logs. cbn. case_match; [done|]. intros [= <-] log -> Hb. apply elem_logs_in. split; [by apply elem_logs|done].
    + exists (fun b c log => c = None /\ log = transfer_log /\ lg_block log = b). split; [by intros log ->|].
      intros t b c page next. cbn. intros [= <- <-] log (-> & -> & <-). left. apply elem_logs_in.
      split; [by apply elem_logs|lia].
  - intros t n [= <-]. lia.
Qed.
End Toy.

(** ** Theorems *)

(** C6: whatever the order of polls, retries of failed events, reconciler
    runs, balance refreshes and restarts, and whichever database statements
    and RPCs fail on the way, every transfer log of the hub from the start
    block up to the stored checkpoint is in [events] or waiting in
    [failed_events], unless it does not decode or its token is skipped. *)
Theorem no_transfer_lost `{F : Faults, C : Chain, LP : LogProvider, AC : AccessChain, OC : OracleChain}
    cfg hub oracle hubStart oracleStart overlap transferTopics roleTopics executionTopics chain transfers s0 s :
  honest_chain hub hubStart overlap transferTopics chain transfers ->
  toLowerCase hub = hub -> 1 <= batchSize cfg -> 0 <= confirmationBlocks cfg -> 0 <= hubStart ->
  0 <= overlap <= 2 ^ 53 ->
  meta (sys_db s0) = ∅ -> failed_events (sys_db s0) = ∅ ->
  rtc (step cfg hub oracle hubStart oracleStart overlap transferTopics roleTopics executionTopics) s0 s ->
  forall n log, lane_checkpoint (transfer_lane hub hubStart overlap transferTopics) (sys_db s) = Some n ->
    transfers log -> hubStart <= lg_block log <= n ->
    accounted (transfer_lane hub hubStart overlap transferTopics) (sys_db s) log.
Proof.
  intros Hc Hl Hb Hconf Hs Ho Hm Hf Hsteps n log Hn Ht Hblk.
  destruct (reachable_safe cfg hub oracle hubStart oracleStart overlap transferTopics roleTopics executionTopics chain transfers
    Hc Hl Hb Hs Hconf Ho s0 s Hm Hf Hsteps) as [S _]. by apply (S n).
Qed.

(** C9: when database and provider answer (answers that a range is too large
    included), a pass of the transfer lane returns, and every transfer log up
    to the block it was asked for is accounted for.  The loops of the model
    have enough fuel: with a batch size of at least one every block is
    reached, however ranges are split or paged. *)
Theorem lane_reaches_latest `{F : Faults, C : Chain, LP : LogProvider, RE : ReplayEnv, Hcalm : !Calm}
    on_chain lane cfg latest w :
  ln_token lane = true -> ln_afterBatch lane = None -> honest_provider on_chain lane ->
  1 <= batchSize cfg -> 0 <= ln_start lane -> 0 <= default 0 (ln_overlap lane) ->
  latest + default 0 (ln_overlap lane) <= 2 ^ 53 -> sane lane (w_db w) -> covered on_chain lane (w_db w) ->
  exists w', processLaneUntil cfg lane latest w = (Ok tt, w') /\
    forall log, on_chain log -> ln_start lane <= lg_block log <= latest -> accounted lane (w_db w') log.
Proof.
  intros Ht Ha Hh Hb Hs Ho Hl Hsane Hc. destruct (lane_succeeds cfg lane latest w Ht Ha Hsane) as [w' E]. exists w'.
  split; [done|]. pose proof (processLane_covered on_chain lane Ht Ha Hh cfg Hb Hs Ho latest w Hl Hc) as H.
  unfold wp in H. rewrite E in H. apply H.
Qed.

(** C10: a transfer replay that returns has processed every block of its range;
    every transfer of the range is stored (or skipped or undecodable) and the
    balances of its parties are ones the chain reported during the replay.
    For a valid request it does return when database and provider answer and
    the advisory lock is free. *)
Theorem replay_repairs_range `{F : Faults, C : Chain, LP : LogProvider, RE : ReplayEnv} on_chain address topics numbers w :
  honest_provider on_chain (query_lane address topics) -> positive (w_db w) ->
  match runTransferReplay address topics numbers w with
  | (Ok p, w') => exists request, validateTransferReplayRequest numbers None = Ok request /\
      pr_processedBlocks p = pr_totalBlocks p /\ pr_remainingBlocks p = 0 /\
      forall log, on_chain log -> rq_fromBlock request <= lg_block log <= rq_toBlock request -> repaired (w_time w) w' log
  | (Err _, _) => ~ (Calm /\ (forall t, lock_free t = true) /\ is_ok (validateTransferReplayRequest numbers None) = true)
  end.
Proof.
  intros Hh Hp. pose proof (replay_spec on_chain address topics numbers w Hh Hp) as H. unfold wp in H.
  destruct (runTransferReplay address topics numbers w) as [[p|e] w'] eqn:E; [done|]. intros (Hcalm & Hlock & Hv).
  unfold runTransferReplay in E. destruct (validateTransferReplayRequest numbers None) as [request|] eqn:Ev; [|done].
  destruct (validate_inv _ _ _ Ev) as (H1 & _ & H3 & _). unfold mbind, M_bind in E.
  match type of E with match withReplayLock ?c w with _ => _ end = _ =>
    destruct (lock_succeeds c Hlock ltac:(apply replay_loop_succeeds; [done|lia]) w) as (st & w1 & E1) end.
  rewrite E1 in E. done.
Qed.

(** C8: a reconciliation of a token that returns has given every address it
    was asked for (zero address apart) a balance the chain reported during the
    call, stored the supply the chain reported and the number of balance rows
    as the holder count, and left everything else as it was: every other
    balance and token, every other table, and the other columns of the token's
    row, which is created when it is missing.  One that throws has also written
    nothing but balances the chain reported and, at most, that row: as
    [ensureToken] creates it, or with a supply the chain reported and the
    number of balance rows.  Balance rows stay positive. *)
Theorem reconcile_copies_chain `{F : Faults, C : Chain} tokenId addresses timestamp w :
  positive (w_db w) ->
  match reconcileTransferStateFromChain tokenId addresses timestamp w with
  | (Ok _, w') =>
      reconcile_frame tokenId (w_time w) addresses (w_db w) (w_db w') /\ reconcile_rest tokenId (w_time w) (w_db w) (w_db w') /\
      token_reconciled tokenId (w_time w) (w_db w') /\
      forall a, a ∈ addresses -> isZeroAddress (toLowerCase a) = false ->
        exists t b, (w_time w <= t)%nat /\ hub_balanceOf t (toLowerCase a) tokenId = Ok b /\
                    balance_of (w_db w') (toLowerCase a) tokenId = Z.max 0 b
  | (Err _, w') => reconcile_frame tokenId (w_time w) addresses (w_db w) (w_db w') /\ reconcile_rest tokenId (w_time w) (w_db w) (w_db w')
  end.
Proof.
  intros Hp. pose proof (reconcile_spec tokenId addresses timestamp w Hp) as H. pose proof (reconcile_rest_spec tokenId addresses timestamp w) as R.
  unfold wp in H, R. destruct (reconcileTransferStateFromChain tokenId addresses timestamp w) as [[u|e] w']; [|done].
  destruct H as (H1 & H2 & H3). split_and!; [done|done|done|]. intros a Ha Hz.
  destruct (H3 (toLowerCase a)) as (b & (t & Ht & Hb) & E); [|by exists t, b].
  apply elem_tracked. split; [by apply list_elem_of_fmap_2|done].
Qed.

(** C7: when a batch of transfer logs returns, every log in it that decodes,
    is not skipped and lies beyond the checkpoint is in [failed_events], or
    the balances of its sender and its receiver are the ones the chain
    reported while the batch ran (the zero address apart); a balance row is
    never zero or negative, however the batch ends. *)
Theorem batch_settles_transfers `{F : Faults, C : Chain} lane logs w :
  positive (w_db w) ->
  match processTransferLogs lane logs w with
  | (Ok _, w') => positive (w_db w') /\
      forall log t, log ∈ logs -> parseTransferLog log = Some t -> shouldSkipTokenId (pt_tokenId t) = false ->
        int_gt (lg_block log) (checkpoint_number lane (w_db w)) = true ->
        settled lane (w_time w) (w_db w') log t
  | (Err _, w') => positive (w_db w')
  end.
Proof.
  intros Hp. assert (live (w_time w) w) as Hl by (by split).
  pose proof (transfers_settled lane (w_time w) logs w Hl) as H. unfold wp in H.
  destruct (processTransferLogs lane logs w) as [[u|e] w']; [|apply H]. destruct H as [O H].
  split; [apply O|]. intros log t Hlog H1 H2 H3. by apply H.
Qed.

(** a balance refresh keeps the holder count of every token equal to the
    number of its balance rows, whether it succeeds, fails, or is retried. *)
Theorem refresh_keeps_holder_counts `{F : Faults, C : Chain} address w :
  (forall t a k b, hub_balanceOf t a k = Ok b -> 0 <= b) -> holders_exact (w_db w) ->
  holders_exact (w_db (refreshAddressBalances address w).2).
Proof.
  intros Hu Hw. pose proof (refresh_exact (toLowerCase address) Hu address w eq_refl Hw) as H. unfold wp in H.
  by destruct (refreshAddressBalances address w) as [[u|e] w'].
Qed.

(** ** On the small chain *)

#[local] Existing Instances Toy.chain Toy.provider Toy.access Toy.oracle_chain Toy.faults.

(** The transfer that failed to be stored is stored after the retry. *)
Lemma no_transfer_lost_witness :
  rtc (step Toy.cfg Toy.hub Toy.oracle 0 0 0 [] [] []) Toy.start Toy.recovered /\
  lane_checkpoint (transfer_lane Toy.hub 0 0 []) (sys_db Toy.recovered) = Some 8 /\
  is_Some (failed_events (sys_db Toy.polled) !! failed_key Toy.hub Toy.transfer_log) /\
  accounted (transfer_lane Toy.hub 0 0 []) (sys_db Toy.recovered) Toy.transfer_log /\
  failed_events (sys_db Toy.recovered) = ∅ /\
  is_Some (events (sys_db Toy.recovered) !! event_key Toy.transfer_log).
Proof.
  assert (rtc (step Toy.cfg Toy.hub Toy.oracle 0 0 0 [] [] []) Toy.start Toy.recovered) as Hr.
  { eapply rtc_l; [apply step_poll|]. eapply rtc_l; [apply step_retry|]. apply rtc_refl. }
  assert (lane_checkpoint (transfer_lane Toy.hub 0 0 []) (sys_db Toy.recovered) = Some 8) as Hn by (vm_compute; reflexivity).
  split_and!; [exact Hr|exact Hn|vm_compute; eexists; reflexivity| |vm_compute; reflexivity|vm_compute; eexists; reflexivity].
  assert (0 <= 0 <= 2 ^ 53) as Ho by lia.
  assert (0 <= lg_block Toy.transfer_log <= 8) as Hb by (cbn; lia).
  assert (1 <= batchSize Toy.cfg /\ 0 <= confirmationBlocks Toy.cfg) as [Hc1 Hc2] by (cbn; lia).
  exact (no_transfer_lost Toy.cfg Toy.hub Toy.oracle 0 0 0 [] [] [] Toy.on_chain Toy.transfers Toy.start Toy.recovered
           (Toy.honest 0 ltac:(lia)) eq_refl Hc1 Hc2 (Z.le_refl 0) Ho eq_refl eq_refl Hr 8 Toy.transfer_log Hn eq_refl Hb).
Defined.

(** The same chain with a database that never fails. *)
Definition no_faults : Faults := fun _ => None.
Definition toy_replay : ReplayEnv := {|
  error_object := fun e => AnObject None [js e] NotAnObject; lock_free := fun _ => true |}.
#[local] Existing Instance toy_replay.

Lemma toy_calm : Calm (F := no_faults).
Proof.
  split.
  - done.
  - intros t a topics s e. cbn. destruct (1 <? e - s); [right|left; eauto].
    eexists. split_and!; [done|vm_compute; reflexivity|vm_compute; reflexivity].
  - exists (fun c => match c with None => 1%nat | Some _ => O end). split; [cbn; lia|].
    intros t a topics s e c. cbn. eexists _, None. split; [done|]. intros c' H. discriminate.
  - intros t b. cbn. eauto.
  - intros t a k. cbn. eauto.
  - intros t k. cbn. eauto.
Qed.

Lemma lane_reaches_witness : exists w',
  processLaneUntil (F := no_faults) Toy.cfg (transfer_lane Toy.hub 0 250 []) 8 (poll_world Toy.start) = (Ok tt, w') /\
  accounted (transfer_lane Toy.hub 0 250 []) (w_db w') Toy.transfer_log.
Proof.
  destruct (lane_reaches_latest (Hcalm := toy_calm) Toy.transfers (transfer_lane Toy.hub 0 250 []) Toy.cfg 8
    (poll_world Toy.start) eq_refl eq_refl (hc_complete _ _ _ _ _ _ (Toy.honest 250 ltac:(lia))) ltac:(cbn; lia) ltac:(cbn; lia)
    ltac:(cbn; lia) ltac:(cbn; lia)) as (w' & E & H).
  - intros c Hc. vm_compute in Hc. discriminate.
  - intros n Hn. vm_compute in Hn. discriminate.
  - exists w'. split; [exact E|]. apply H; [reflexivity|cbn; lia].
Defined.

Definition toy_request : ReplayNumbers :=
  {| rn_batchSize := JInt 2; rn_fromBlock := JInt 1; rn_reconcileChunkSize := JInt 1; rn_toBlock := JInt 5 |}.
Lemma replay_witness :
  match runTransferReplay (F := no_faults) Toy.hub [] toy_request (poll_world Toy.start) with
  | (Ok p, w') => pr_remainingBlocks p = 0 /\ repaired 0 w' Toy.transfer_log
  | (Err _, _) => False
  end.
Proof.
  assert (positive Toy.empty_db) as Hp by (intros k r H; vm_compute in H; discriminate).
  assert (honest_provider Toy.transfers (query_lane Toy.hub [])) as Hh.
  { destruct (hc_complete _ _ _ _ _ _ (Toy.honest 0 ltac:(lia))) as [H1 H2]. split; [exact H1|exact H2]. }
  pose proof (replay_repairs_range (F := no_faults) Toy.transfers Toy.hub [] toy_request (poll_world Toy.start) Hh Hp) as H.
  destruct (runTransferReplay (F := no_faults) Toy.hub [] toy_request (poll_world Toy.start)) as [[p|e] w'].
  - destruct H as (request & Hv & _ & H0 & H). split; [exact H0|]. apply H; [reflexivity|].
    vm_compute in Hv. injection Hv as <-. cbn. lia.
  - apply H. split; [exact toy_calm|]. split; [reflexivity|vm_compute; reflexivity].
Defined.

Lemma reconcile_copies_chain_witness :
  positive Toy.empty_db /\ isZeroAddress (toLowerCase (js "0xBB")) = false /\
  match reconcileTransferStateFromChain (js "7") [js "0xBB"; js "0xaa"] (Some 5) (poll_world Toy.start) with
  | (Ok _, w') => exists t b, (0 <= t)%nat /\ hub_balanceOf t (toLowerCase (js "0xBB")) (js "7") = Ok b /\
                              balance_of (w_db w') (toLowerCase (js "0xBB")) (js "7") = Z.max 0 b
  | (Err _, _) => False
  end.
Proof.
  assert (positive Toy.empty_db) as Hp by (intros k r H; vm_compute in H; discriminate).
  assert (isZeroAddress (toLowerCase (js "0xBB")) = false) as Hz by (vm_compute; reflexivity).
  split; [exact Hp|split; [exact Hz|]].
  pose proof (reconcile_copies_chain (js "7") [js "0xBB"; js "0xaa"] (Some 5) (poll_world Toy.start) Hp) as H.
  destruct (reconcileTransferStateFromChain (js "7") [js "0xBB"; js "0xaa"] (Some 5) (poll_world Toy.start)) as [[u|e] w'] eqn:E.
  - destruct H as (_ & _ & _ & H). apply H; [left|exact Hz].
  - vm_compute in E. discriminate.
Defined.

Lemma batch_settles_witness :
  match processTransferLogs (transfer_lane Toy.hub 0 0 []) [Toy.transfer_log] (poll_world Toy.start) with
  | (Ok _, w') => exists t, parseTransferLog Toy.transfer_log = Some t /\
                            settled (transfer_lane Toy.hub 0 0 []) 0 (w_db w') Toy.transfer_log t
  | (Err _, _) => False
  end.
Proof.
  assert (positive Toy.empty_db) as Hp by (intros k r H; vm_compute in H; discriminate).
  pose proof (batch_settles_transfers (transfer_lane Toy.hub 0 0 []) [Toy.transfer_log] (poll_world Toy.start) Hp) as H.
  destruct (parseTransferLog Toy.transfer_log) as [t|] eqn:Ht; [|vm_compute in Ht; discriminate].
  destruct (processTransferLogs (transfer_lane Toy.hub 0 0 []) [Toy.transfer_log] (poll_world Toy.start)) as [[u|e] w'] eqn:E.
  - destruct H as [_ H]. exists t. split; [reflexivity|]. apply H; [left|exact Ht| |vm_compute; reflexivity].
    vm_compute in Ht. injection Ht as <-. vm_compute. reflexivity.
  - vm_compute in E. discriminate.
Defined.

Lemma refresh_witness : holders_exact (sys_db Toy.recovered) /\
  holders_exact (w_db (refreshAddressBalances (js "0xBB") (poll_world Toy.recovered)).2).
Proof.
  assert (holders_exact (sys_db Toy.recovered)) as H0.
  { split; [apply (bool_decide_unpack (map_Forall (fun _ r => 0 < bl_balance r) (balances (sys_db Toy.recovered))))
           |apply (bool_decide_unpack (map_Forall (fun t row => tk_holders row = holder_count (sys_db Toy.recovered) t) (tokens (sys_db Toy.recovered))))];
      vm_compute; exact I. }
  split; [exact H0|]. apply (refresh_keeps_holder_counts (js "0xBB") (poll_world Toy.recovered)); [|exact H0].
  intros t a k b. cbn. case_bool_decide; intros [= <-]; lia.
Defined.

(** ** Two behaviours worth knowing *)

(** Statements 17 to 22 fail: an outage between the insertion of an event and
    the end of the poll. *)
Definition outage : Faults :=
  fun t => if Nat.leb 17 t && Nat.leb t 22 then Some ("connection lost"%string, false) else None.

(** The transfer at block 3 was missing from the provider's answer when the
    checkpoint passed it. *)
Definition late : System := {|
  sys_db := set_meta (fun _ => {[js "hub_last_processed_transfer_block" := js "8"]}) Toy.empty_db;
  sys_time := 0; poll_cache := ∅; poll_txs := ∅; retry_cache := ∅; retry_txs := ∅ |}.
Definition poll_again (s : System) : System :=
  after_poll s (poll (F := outage) Toy.cfg Toy.hub Toy.oracle 0 0 250 [] [] [] (poll_world s)).2.
Definition retry_again (s : System) : System :=
  after_retry s (retry_failed_events (F := outage) Toy.hub Toy.oracle (retry_world s)).2.

(** The overlap finds the late transfer and stores its event, the outage stops
    the batch before its balances are reconciled, and later polls and retries
    leave the balance as it is: the event is no longer new and its block is
    not beyond the checkpoint. *)
Theorem late_transfer_left_stale :
  let s := retry_again (poll_again (poll_again late)) in
  is_Some (events (sys_db s) !! event_key Toy.transfer_log) /\ failed_events (sys_db s) = ∅ /\
  balance_of (sys_db s) (js "0xbb") (js "7") = 0 /\ forall t, hub_balanceOf t (js "0xbb") (js "7") = Ok 100.
Proof.
  cbv zeta. split_and!; [vm_compute; eexists; reflexivity|vm_compute; reflexivity|vm_compute; reflexivity|reflexivity].
Qed.

(** The commit of the first attempt is refused. *)
Definition refused_commit : Faults := fun t => if Nat.eqb t 5 then Some ("could not serialize access"%string, false) else None.

(** A refresh of one token that is retried once reports two updates: the
    counter is not reset when the transaction is run again. *)
Theorem refresh_counts_attempts :
  (refreshAddressBalances (F := refused_commit) (js "0xAA")
     {| w_db := sys_db Toy.recovered; w_time := 0; w_cache := ∅; w_updated := 0; w_txs := ∅ |}).1
  = Ok (js "0xaa", 1%nat, 2).
Proof. vm_compute. reflexivity. Qed.
