(* ===== verification/IndexerRanges.v ===== *)
(** * Suggested replay ranges

    packages/indexer/src/services/indexerAudit.ts,
    [buildSuggestedReplayRanges] and [mergeSuggestedReplayRanges]: block
    ranges are sorted, merged where they overlap or touch, and cut into pieces
    the replay accepts.  Limits and padding are integers here. *)

From stdpp Require Import sorting.
From S2P Require Import Prelude JsNum JsString JsNumber.
Local Open Scope Z_scope.

(** The reason of a range; a stored range may carry another one. *)
Inductive RangeReason := transfer_coverage | multiple | other_reason (raw : option jsstring).
#[export] Instance RangeReason_eq_dec : EqDecision RangeReason.
Proof. solve_decision. Defined.

Record SuggestedReplayRange := { findingCount : Z; fromBlock : Z; reason : RangeReason; toBlock : Z }.

(** [(a, b) => a.fromBlock - b.fromBlock || a.toBlock - b.toBlock]. *)
Definition range_order (a b : SuggestedReplayRange) : Prop :=
  fromBlock a < fromBlock b \/ (fromBlock a = fromBlock b /\ toBlock a <= toBlock b).
#[export] Instance range_order_dec a b : Decision (range_order a b).
Proof. unfold range_order. apply _. Defined.

Definition absorb (last range : SuggestedReplayRange) : SuggestedReplayRange := {|
  findingCount := findingCount last + findingCount range; fromBlock := fromBlock last;
  reason := if decide (reason last = reason range) then reason last else multiple;
  toBlock := Z.max (toBlock last) (toBlock range) |}.

(** The loop over the sorted ranges; [merged] holds the last range first. *)
Fixpoint merge_loop (merged ranges : list SuggestedReplayRange) : list SuggestedReplayRange :=
  match ranges with
  | [] => rev merged
  | range :: rest =>
      match merged with
      | last :: before =>
          if fromBlock range <=? toBlock last + 1 then merge_loop (absorb last range :: before) rest
          else merge_loop (range :: merged) rest
      | [] => merge_loop [range] rest
      end
  end.

(** [while (fromBlock <= range.toBlock)]; at most one iteration per block. *)
Fixpoint cap_loop (fuel : nat) (maxRange : Z) (range : SuggestedReplayRange) (from : Z) : list SuggestedReplayRange :=
  match fuel with
  | O => []
  | S f =>
      if from <=? toBlock range then
        let to := Z.min (from + maxRange - 1) (toBlock range) in
        {| findingCount := findingCount range; fromBlock := from; reason := reason range; toBlock := to |}
        :: cap_loop f maxRange range (to + 1)
      else []
  end.
Definition cap_range (maxRange : Z) (range : SuggestedReplayRange) : list SuggestedReplayRange :=
  cap_loop (Z.to_nat (toBlock range - fromBlock range + 1)) maxRange range (fromBlock range).

Definition mergeSuggestedReplayRanges (ranges : list SuggestedReplayRange) (maxRange : Z) : list SuggestedReplayRange :=
  let cappedMaxRange := Z.max 1 maxRange in
  mjoin (cap_range cappedMaxRange <$> merge_loop [] (merge_sort range_order ranges)).

Definition padded_range (padding : Z) (why : RangeReason) (block : Z) : SuggestedReplayRange :=
  {| findingCount := 1; fromBlock := Z.max 0 (block - padding); reason := why; toBlock := block + padding |}.

(** [blocks.filter((block) => Number.isInteger(block) && block >= 0)]. *)
Definition valid_block (x : jsnum) : option Z :=
  match x with JInt z => if 0 <=? z then Some z else None | _ => None end.

Definition buildSuggestedReplayRanges (blocks : list jsnum) (maxRange padding : Z) (why : RangeReason)
  : list SuggestedReplayRange :=
  let maxRange := Z.max 1 maxRange in
  let padding := Z.max 0 padding in
  let ranges := merge_sort range_order (padded_range padding why <$> omap valid_block blocks) in
  mjoin (cap_range maxRange <$> merge_loop [] ranges).

(** ** Coverage *)

Definition within (b : Z) (r : SuggestedReplayRange) : Prop := fromBlock r <= b <= toBlock r.
Definition covered_by (b : Z) (l : list SuggestedReplayRange) : Prop := exists r, r ∈ l /\ within b r.
(** Earlier and later ranges do not touch. *)
Definition apart (r1 r2 : SuggestedReplayRange) : Prop := toBlock r1 < fromBlock r2.

Lemma covered_cons b r l : covered_by b (r :: l) <-> within b r \/ covered_by b l.
Proof.
  unfold covered_by. split.
  - intros (x & [->|Hx]%elem_of_cons & Hb); eauto.
  - intros [H|(x & Hx & Hb)]; [exists r; by split; [left|]|exists x; by split; [right|]].
Qed.
Lemma covered_app b l k : covered_by b (l ++ k) <-> covered_by b l \/ covered_by b k.
Proof.
  induction l as [|r l IH]; cbn; [|rewrite !covered_cons, IH; tauto].
  split; [tauto|]. intros [(x & Hx%elem_of_nil & _)|H]; done.
Qed.
Lemma covered_rev b l : covered_by b (rev l) <-> covered_by b l.
Proof.
  unfold covered_by. setoid_rewrite list_elem_of_In. setoid_rewrite <- in_rev. done.
Qed.
Lemma covered_perm b l k : l ≡ₚ k -> covered_by b l -> covered_by b k.
Proof. intros Hp (r & Hr & Hb). exists r. by rewrite <- Hp. Qed.

Lemma absorb_covers b last range : fromBlock last <= fromBlock range -> fromBlock range <= toBlock last + 1 ->
  within b (absorb last range) <-> within b last \/ within b range.
Proof. unfold within, absorb. cbn. lia. Qed.

(** The loop keeps coverage and leaves gaps between the ranges. *)
Lemma merge_loop_spec b ranges merged :
  Sorted (fun r1 r2 => fromBlock r1 <= fromBlock r2) ranges ->
  (forall r last, head merged = Some last -> r ∈ ranges -> fromBlock last <= fromBlock r) ->
  StronglySorted (fun later earlier => toBlock earlier + 1 < fromBlock later) merged ->
  (covered_by b (merge_loop merged ranges) <-> covered_by b merged \/ covered_by b ranges) /\
  StronglySorted apart (merge_loop merged ranges).
Proof.
  revert merged. induction ranges as [|range rest IH]; intros merged Hs Hh Hm; cbn.
  - split.
    + rewrite covered_rev. split; [tauto|]. intros [H|(x & Hx%elem_of_nil & _)]; done.
    + clear -Hm. induction Hm as [|x l Hl IH Hx]; cbn; [constructor|].
      apply StronglySorted_app_2; [|done|repeat constructor].
      intros y z Hy Hz%list_elem_of_singleton. subst. rewrite list_elem_of_In, <- in_rev, <- list_elem_of_In in Hy.
      rewrite Forall_forall in Hx. specialize (Hx y Hy). unfold apart. lia.
  - apply Sorted_StronglySorted in Hs; [|intros x y z; lia].
    apply StronglySorted_inv in Hs as [Hs Hle]. rewrite Forall_forall in Hle. apply StronglySorted_Sorted in Hs.
    destruct merged as [|last before].
    + destruct (IH [range]) as [IH1 IH2]; [done|by intros r l [= <-] Hr; apply Hle|repeat constructor|].
      rewrite IH1. rewrite !covered_cons. split; [|done]. split; [tauto|]. tauto.
    + assert (fromBlock last <= fromBlock range) as Hlr by (apply Hh; [done|left]).
      destruct (Z.leb_spec (fromBlock range) (toBlock last + 1)) as [Hmerge|Hgap].
      * apply StronglySorted_inv in Hm as [Hm Hb].
        destruct (IH (absorb last range :: before)) as [IH1 IH2].
        { done. }
        { intros r l [= <-] Hr. cbn. apply Hh; [done|by right]. }
        { constructor; [done|]. eapply Forall_impl; [exact Hb|]. cbn. auto. }
        rewrite IH1, !covered_cons, absorb_covers by done. split; [tauto|done].
      * pose proof Hm as Hm'. apply StronglySorted_inv in Hm' as [_ Hb].
        destruct (IH (range :: last :: before)) as [IH1 IH2].
        { done. }
        { intros r l [= <-] Hr. by apply Hle. }
        { constructor; [done|]. constructor; [lia|]. eapply Forall_impl; [exact Hb|]. cbn. intros x Hx. lia. }
        rewrite IH1, !covered_cons. split; [tauto|done].
Qed.

(** ** Capping *)

Lemma cap_loop_spec fuel maxRange range from b :
  1 <= maxRange -> toBlock range - from + 1 <= Z.of_nat fuel ->
  let l := cap_loop fuel maxRange range from in
  (covered_by b l <-> from <= b <= toBlock range) /\
  Forall (fun r => from <= fromBlock r /\ fromBlock r <= toBlock r /\ toBlock r - fromBlock r + 1 <= maxRange /\
                   toBlock r <= toBlock range) l /\
  StronglySorted apart l.
Proof.
  intros Hmax. revert from. induction fuel as [|f IH]; intros from Hf; cbn.
  - split; [|by split; constructor]. split; [by intros (x & Hx%elem_of_nil & _)|lia].
  - destruct (Z.leb_spec from (toBlock range)) as [Hle|Hgt].
    2: { split; [|by split; constructor]. split; [by intros (x & Hx%elem_of_nil & _)|lia]. }
    set (to := Z.min (from + maxRange - 1) (toBlock range)). destruct (IH (to + 1)) as (H1 & H2 & H3); [lia|].
    split_and!.
    + rewrite covered_cons, H1. unfold within. cbn. lia.
    + constructor; [cbn; lia|]. eapply Forall_impl; [exact H2|]. cbn. intros r Hr. lia.
    + constructor; [done|]. eapply Forall_impl; [exact H2|]. unfold apart. cbn. intros r Hr. lia.
Qed.

Lemma cap_range_spec maxRange range b : 1 <= maxRange ->
  (covered_by b (cap_range maxRange range) <-> within b range) /\
  Forall (fun r => fromBlock range <= fromBlock r <= toBlock r /\ toBlock r - fromBlock r + 1 <= maxRange /\
                   toBlock r <= toBlock range) (cap_range maxRange range) /\
  StronglySorted apart (cap_range maxRange range).
Proof.
  intros Hmax. unfold cap_range.
  destruct (cap_loop_spec (Z.to_nat (toBlock range - fromBlock range + 1)) maxRange range (fromBlock range) b Hmax ltac:(lia))
    as (H1 & H2 & H3). split_and!; [done| |done]. eapply Forall_impl; [exact H2|]. cbn. intros r Hr. lia.
Qed.

Lemma capped_spec maxRange l b : 1 <= maxRange -> StronglySorted apart l ->
  (covered_by b (mjoin (cap_range maxRange <$> l)) <-> covered_by b l) /\
  Forall (fun r => fromBlock r <= toBlock r /\ toBlock r - fromBlock r + 1 <= maxRange) (mjoin (cap_range maxRange <$> l)) /\
  StronglySorted apart (mjoin (cap_range maxRange <$> l)).
Proof.
  intros Hmax. induction l as [|r l IH]; intros Hs; cbn; [by split_and!; [|constructor|constructor]|].
  apply StronglySorted_inv in Hs as [Hs Hr]. destruct (IH Hs) as (H1 & H2 & H3).
  destruct (cap_range_spec maxRange r b Hmax) as (C1 & C2 & C3). split_and!.
  - rewrite covered_app, covered_cons, C1, H1. done.
  - apply Forall_app. split; [|done]. eapply Forall_impl; [exact C2|]. cbn. intros x Hx. lia.
  - apply StronglySorted_app_2; [|done|done]. intros x y Hx Hy. rewrite Forall_forall in C2, Hr. specialize (C2 x Hx).
    apply list_elem_of_join in Hy as (k & Hyk & Hk). apply list_elem_of_fmap in Hk as (r' & -> & Hr').
    specialize (Hr r' Hr'). destruct (cap_range_spec maxRange r' b Hmax) as (_ & C2' & _). rewrite Forall_forall in C2'.
    specialize (C2' y Hyk). unfold apart in *. lia.
Qed.

#[export] Instance range_order_total : Total range_order.
Proof. intros a b. unfold range_order. lia. Qed.

Lemma sorted_from l : Sorted (fun r1 r2 => fromBlock r1 <= fromBlock r2) (merge_sort range_order l).
Proof.
  pose proof (Sorted_merge_sort range_order l) as Hs. induction Hs as [|x l' Hl IH Hx]; constructor; [done|].
  destruct Hx as [|y l'' Hy]; constructor. unfold range_order in Hy. lia.
Qed.

(** Sorting, merging and capping keep exactly the blocks covered. *)
Lemma merged_capped_spec maxRange l b : 1 <= maxRange ->
  let rs := mjoin (cap_range maxRange <$> merge_loop [] (merge_sort range_order l)) in
  (covered_by b rs <-> covered_by b l) /\
  Forall (fun r => fromBlock r <= toBlock r /\ toBlock r - fromBlock r + 1 <= maxRange) rs /\ StronglySorted apart rs.
Proof.
  intros Hmax rs. destruct (merge_loop_spec b (merge_sort range_order l) []) as [M1 M2];
    [apply sorted_from|done|constructor|].
  destruct (capped_spec maxRange _ b Hmax M2) as (H1 & H2 & H3). split_and!; [|done|done].
  unfold rs. rewrite H1, M1. split.
  - intros [(x & Hx%elem_of_nil & _)|H]; [done|]. eapply covered_perm; [apply (merge_sort_Permutation range_order)|done].
  - intros H. right. eapply covered_perm; [symmetry; apply (merge_sort_Permutation range_order)|done].
Qed.

(** C11: the suggested replay ranges cover a block exactly when it lies within
    the padding of one of the valid input blocks; each range is non-empty and
    no longer than the replay's limit, and they are in ascending order without
    overlap. *)
Theorem suggested_ranges_cover blocks maxRange padding why b :
  let rs := buildSuggestedReplayRanges blocks maxRange padding why in
  ((exists r, r ∈ rs /\ fromBlock r <= b <= toBlock r) <->
   exists x, JInt x ∈ blocks /\ 0 <= x /\ Z.max 0 (x - Z.max 0 padding) <= b <= x + Z.max 0 padding) /\
  Forall (fun r => fromBlock r <= toBlock r /\ toBlock r - fromBlock r + 1 <= Z.max 1 maxRange) rs /\
  StronglySorted (fun r1 r2 => toBlock r1 < fromBlock r2) rs.
Proof.
  intros rs. destruct (merged_capped_spec (Z.max 1 maxRange) (padded_range (Z.max 0 padding) why <$> omap valid_block blocks) b
    ltac:(lia)) as (H1 & H2 & H3). split_and!; [|done|done].
  change ((covered_by b rs) <-> exists x, JInt x ∈ blocks /\ 0 <= x /\ Z.max 0 (x - Z.max 0 padding) <= b <= x + Z.max 0 padding).
  unfold rs, buildSuggestedReplayRanges. rewrite H1. unfold covered_by. split.
  - intros (r & (x & -> & (y & Hy & Hv)%list_elem_of_omap)%list_elem_of_fmap & Hb). exists x.
    destruct y as [| |z|]; cbn in Hv; try done. destruct (Z.leb_spec 0 z); [|done]. injection Hv as <-. split; [done|split; [done|exact Hb]].
  - intros (x & Hx & H0 & Hb). exists (padded_range (Z.max 0 padding) why x). split; [|exact Hb]. apply list_elem_of_fmap_2.
    apply list_elem_of_omap. exists (JInt x). split; [done|]. cbn. by rewrite (proj2 (Z.leb_le 0 x)).
Qed.

(** Merging suggested ranges keeps exactly the blocks they cover, in
    ascending disjoint non-empty pieces no longer than the limit. *)
Theorem merged_ranges_cover ranges maxRange b :
  let rs := mergeSuggestedReplayRanges ranges maxRange in
  ((exists r, r ∈ rs /\ fromBlock r <= b <= toBlock r) <-> exists r, r ∈ ranges /\ fromBlock r <= b <= toBlock r) /\
  Forall (fun r => fromBlock r <= toBlock r /\ toBlock r - fromBlock r + 1 <= Z.max 1 maxRange) rs /\
  StronglySorted (fun r1 r2 => toBlock r1 < fromBlock r2) rs.
Proof. cbv zeta. apply (merged_capped_spec (Z.max 1 maxRange) ranges b). lia. Qed.
