(* ===== verification/IndexerService.v ===== *)
(** * The service around the indexer

    packages/indexer/src: config.ts (environment values), auth.ts (API key
    middleware), runtimeState.ts, cache.ts, services/health.ts (the response
    built from the checkpoints), protocol/transactionRequest.ts and
    services/transferReplayJobs.ts (the job table).  Clocks and job ids are
    arguments. *)

From stdpp Require Import sorting.
From S2P Require Import Prelude JsNum JsString JsNumber Scanner HexBytes Abi IndexerTransfers IndexerRoles IndexerLanes IndexerReplay.
Local Open Scope Z_scope.
Local Open Scope js_scope.

(** ** config.ts *)

Definition resolvePort (value : option jsstring) : jsnum :=
  match truthy value with
  | None => JInt 3001
  | Some v => let parsed := Number v in if isFinite parsed then parsed else JInt 3001
  end.

Definition resolveBoolean (value : option jsstring) (fallback : bool) : result bool :=
  match truthy value with
  | None => Ok fallback
  | Some v =>
      let normalized := toLowerCase (trim v) in
      if bool_decide (normalized = js "1") || bool_decide (normalized = js "true") then Ok true
      else if bool_decide (normalized = js "0") || bool_decide (normalized = js "false") then Ok false
      else Err "Invalid boolean env value"
  end.

Definition resolveAddress (value : option jsstring) (fallback : jsstring) : jsstring :=
  match truthy value with Some v => toLowerCase v | None => fallback end.

Definition resolveEnableApi (requested : bool) (authApiKey : option jsstring) (allowUnauthenticatedApi : bool) : bool :=
  requested && (bool_decide (is_Some (truthy authApiKey)) || allowUnauthenticatedApi).

Definition resolveNumber (value : option jsstring) (fallback : jsnum) : jsnum :=
  match truthy value with
  | None => fallback
  | Some v => let parsed := Number v in if isFinite parsed then parsed else fallback
  end.

(** [Math.trunc] of a finite number. *)
Definition trunc (x : jsnum) : Z :=
  match x with JInt z => z | JFrac m e => Z.quot m (2 ^ (- e)) | _ => 0 end.

Definition resolveNonNegativeInteger (value : option jsstring) (fallback : jsnum) : jsnum :=
  let resolved := resolveNumber value fallback in
  if isFinite resolved then JInt (Z.max 0 (trunc resolved)) else fallback.

(** The fields [validateRuntimeConfig] reads. *)
Record RuntimeConfig := {
  rc_doBackgroundWork : bool; rc_enableApi : bool; rc_databaseUrl : option jsstring; rc_rpcWsUrl : option jsstring;
  rc_oracleApiUrl : option jsstring }.
Definition missing (value : option jsstring) : bool := bool_decide (truthy value = None).
Definition validateRuntimeConfig (config : RuntimeConfig) : result unit :=
  fail_if (rc_doBackgroundWork config || rc_enableApi config) && missing (rc_databaseUrl config)
    with "DATABASE_URL is required when ENABLE_API=1 or DO_BACKGROUND_WORK=1" ;;
  fail_if rc_doBackgroundWork config && missing (rc_rpcWsUrl config)
    with "RPC_WS_URL is required when DO_BACKGROUND_WORK=1" ;;
  fail_if rc_doBackgroundWork config && missing (rc_oracleApiUrl config)
    with "ORACLE_API_URL is required when DO_BACKGROUND_WORK=1" ;;
  Ok tt.

(** ** auth.ts *)

(** A header: absent, one value, or several. *)
Inductive Header := HNone | HOne (v : jsstring) | HMany (vs : list jsstring).

Definition safeEqual (left right : jsstring) : bool :=
  let leftBuffer := TextEncoder_encode left in
  let rightBuffer := TextEncoder_encode right in
  Nat.eqb (length leftBuffer) (length rightBuffer) && bool_decide (leftBuffer = rightBuffer).

Definition isApiKeyAuthorized (providedApiKey : Header) (expectedApiKey : option jsstring) : bool :=
  match truthy expectedApiKey with
  | None => true
  | Some expected =>
      match providedApiKey with
      | HMany vs => existsb (fun v => safeEqual v expected) vs
      | HNone => false
      | HOne v => safeEqual v expected
      end
  end.

Inductive MiddlewareResult := Next | Unauthorized.
Definition createApiKeyMiddleware (expectedApiKey : option jsstring) (pathPrefix : jsstring)
    (path : jsstring) (header : Header) : MiddlewareResult :=
  if negb (startsWith path pathPrefix) then Next
  else if isApiKeyAuthorized header expectedApiKey then Next
  else Unauthorized.

(** ** protocol/transactionRequest.ts *)

Definition MAX_PROTOCOL_TRANSACTION_BATCH_SIZE : nat := 200.
(** The request value: an array of values, or something else. *)
Definition normalizeProtocolTransactionHashes (txHashes : option (list InputValue)) (maxBatchSize : nat)
  : result (list jsstring) :=
  match txHashes with
  | None => Err "txHashes must be an array"
  | Some values =>
      strings ← (fix strings (l : list InputValue) : result (list jsstring) :=
                   match l with
                   | [] => Ok []
                   | IString s :: l' => rest ← strings l'; Ok (s :: rest)
                   | _ => Err "txHashes must contain only strings"
                   end) values;
      let normalizedTxHashes := js_unique [] (toLowerCase <$> strings) in
      fail_if Nat.eqb (length normalizedTxHashes) 0 with "txHashes must not be empty" ;;
      fail_if Nat.ltb maxBatchSize (length normalizedTxHashes) with "txHashes must contain at most maxBatchSize entries" ;;
      Ok normalizedTxHashes
  end.

(** ** runtimeState.ts *)

Record RuntimeState := {
  rs_enableApi : bool; rs_doBackgroundWork : bool; rs_apiReady : bool; rs_backgroundWorkReady : bool;
  rs_backgroundWorkError : option string }.
Record RuntimeReadinessResponse := {
  rr_ok : bool; rr_apiReady : bool; rr_apiRequired : bool; rr_workError : option string; rr_workReady : bool;
  rr_workRequired : bool }.

Definition buildReadinessResponse (s : RuntimeState) : RuntimeReadinessResponse :=
  let apiRequired := rs_enableApi s in
  let backgroundWorkRequired := rs_doBackgroundWork s in
  {| rr_ok := (negb apiRequired || rs_apiReady s) && (negb backgroundWorkRequired || rs_backgroundWorkReady s);
     rr_apiReady := if apiRequired then rs_apiReady s else false; rr_apiRequired := apiRequired;
     rr_workError := if backgroundWorkRequired then rs_backgroundWorkError s else None;
     rr_workReady := if backgroundWorkRequired then rs_backgroundWorkReady s else false;
     rr_workRequired := backgroundWorkRequired |}.

Definition createRuntimeState (enableApi doBackgroundWork : bool) : RuntimeState := {|
  rs_enableApi := enableApi; rs_doBackgroundWork := doBackgroundWork; rs_apiReady := false;
  rs_backgroundWorkReady := false; rs_backgroundWorkError := None |}.
Definition markApiReady (s : RuntimeState) : RuntimeState := {|
  rs_enableApi := rs_enableApi s; rs_doBackgroundWork := rs_doBackgroundWork s; rs_apiReady := true;
  rs_backgroundWorkReady := rs_backgroundWorkReady s; rs_backgroundWorkError := rs_backgroundWorkError s |}.
Definition markBackgroundWorkReady (s : RuntimeState) : RuntimeState := {|
  rs_enableApi := rs_enableApi s; rs_doBackgroundWork := rs_doBackgroundWork s; rs_apiReady := rs_apiReady s;
  rs_backgroundWorkReady := true; rs_backgroundWorkError := None |}.
Definition markBackgroundWorkUnready (error : string) (s : RuntimeState) : RuntimeState := {|
  rs_enableApi := rs_enableApi s; rs_doBackgroundWork := rs_doBackgroundWork s; rs_apiReady := rs_apiReady s;
  rs_backgroundWorkReady := false; rs_backgroundWorkError := Some error |}.

(** ** services/health.ts: the response *)

(** Block numbers are integers here; [parseBlock] drops what is not finite. *)
Definition minIfAllPresent (values : list (option Z)) : option Z :=
  match values with
  | [Some a; Some b] => Some (Z.min a b)
  | _ => None
  end.
Definition toLag (latestChainBlock : Z) (lastProcessedBlock : option Z) : Z :=
  match lastProcessedBlock with None => latestChainBlock | Some b => Z.max (latestChainBlock - b) 0 end.

Record FailedEventStatus := { fe_count : Z; fe_oldestBlockNumber : option Z }.

Section Health.
(** The audit report, of which only [ok] is read. *)
Context {IndexerAuditHealth : Type} (audits_ok : IndexerAuditHealth -> bool).

Record HealthCheckpointState := {
  hs_audits : option IndexerAuditHealth; hs_latestChainBlock : Z; hs_latestIndexedBlock : option Z; hs_maxAllowedLag : Z;
  hs_hubTransfer : option Z; hs_hubRole : option Z; hs_oracleRole : option Z; hs_oracleExecution : option Z;
  hs_failedEvents : option FailedEventStatus }.
Record HealthResponse := {
  hr_audits : option IndexerAuditHealth; hr_ok : bool; hr_latestChainBlock : Z; hr_latestIndexedBlock : Z;
  hr_maxAllowedLag : Z; hr_failedEvents : FailedEventStatus;
  hr_hubLast : option Z; hr_hubLag : Z; hr_hubTransferLast : option Z; hr_hubRoleLast : option Z;
  hr_oracleLast : option Z; hr_oracleLag : Z; hr_oracleRoleLast : option Z; hr_oracleExecutionLast : option Z }.

Definition buildHealthResponse (s : HealthCheckpointState) : HealthResponse :=
  let failedEvents := default {| fe_count := 0; fe_oldestBlockNumber := None |} (hs_failedEvents s) in
  let latestIndexedBlock := default (hs_latestChainBlock s) (hs_latestIndexedBlock s) in
  let hubLast := minIfAllPresent [hs_hubTransfer s; hs_hubRole s] in
  let oracleLast := minIfAllPresent [hs_oracleRole s; hs_oracleExecution s] in
  let hubLag := toLag latestIndexedBlock hubLast in
  let oracleLag := toLag latestIndexedBlock oracleLast in
  {| hr_audits := hs_audits s; hr_failedEvents := failedEvents;
     hr_hubLag := hubLag; hr_hubLast := hubLast; hr_hubRoleLast := hs_hubRole s; hr_hubTransferLast := hs_hubTransfer s;
     hr_latestChainBlock := hs_latestChainBlock s; hr_latestIndexedBlock := latestIndexedBlock;
     hr_maxAllowedLag := hs_maxAllowedLag s;
     hr_ok := (hubLag <=? hs_maxAllowedLag s) && (oracleLag <=? hs_maxAllowedLag s) &&
              default true (audits_ok <$> hs_audits s) && (fe_count failedEvents =? 0);
     hr_oracleExecutionLast := hs_oracleExecution s; hr_oracleLag := oracleLag; hr_oracleLast := oracleLast;
     hr_oracleRoleLast := hs_oracleRole s |}.
End Health.

(** ** cache.ts *)

Record CacheEntry := { ce_expiresAt : Z; ce_value : jsstring }.
Definition CacheEntries : Type := list (jsstring * CacheEntry).

Definition map_delete {V} (k : jsstring) (m : list (jsstring * V)) : list (jsstring * V) :=
  List.filter (fun p => negb (bool_decide (p.1 = k))) m.

Definition cache_get (now : Z) (key : jsstring) (entries : CacheEntries) : option jsstring * CacheEntries :=
  match map_get key entries with
  | None => (None, entries)
  | Some entry =>
      if ce_expiresAt entry <=? now then (None, map_delete key entries) else (Some (ce_value entry), entries)
  end.
Definition cache_set (now : Z) (key value : jsstring) (ttlMs : Z) (entries : CacheEntries) : CacheEntries :=
  map_set key {| ce_expiresAt := now + ttlMs; ce_value := value |}
    (List.filter (fun p => negb (ce_expiresAt p.2 <=? now)) entries).

(** ** services/transferReplayJobs.ts *)

Inductive TransferReplayJobState := failed | running | succeeded.
#[export] Instance jobState_eq_dec : EqDecision TransferReplayJobState.
Proof. solve_decision. Defined.
Record TransferReplayJob := {
  jb_completedAt : option Z; jb_error : option string; jb_id : jsstring; jb_progress : option TransferReplayProgress;
  jb_request : TransferReplayRequest; jb_startedAt : Z; jb_state : TransferReplayJobState }.
Definition Jobs : Type := list (jsstring * TransferReplayJob).

Record JobOptions := {
  jo_defaultBatchSize : jsnum; jo_defaultChunkSize : jsnum; jo_maxBlockRange : jsnum; jo_maxRetainedJobs : nat;
  jo_terminalJobTtlMs : Z }.

Definition is_running (p : jsstring * TransferReplayJob) : bool := bool_decide (jb_state p.2 = running).
Definition started_order (p q : jsstring * TransferReplayJob) : Prop := jb_startedAt p.2 <= jb_startedAt q.2.
#[export] Instance started_order_dec p q : Decision (started_order p q).
Proof. unfold started_order. apply _. Defined.

Section JobManager.
Context (options : JobOptions).

Definition expired (now : Z) (p : jsstring * TransferReplayJob) : bool :=
  negb (is_running p) &&
  match jb_completedAt p.2 with Some c => c + jo_terminalJobTtlMs options <? now | None => false end.

Definition pruneTerminalJobs (now : Z) (jobs : Jobs) : Jobs :=
  let jobs := List.filter (fun p => negb (expired now p)) jobs in
  let retained := merge_sort started_order (List.filter (fun p => negb (is_running p)) jobs) in
  let doomed := take (length retained - jo_maxRetainedJobs options) retained in
  List.filter (fun p => negb (bool_decide (p.1 ∈ doomed.*1))) jobs.

Definition start (now : Z) (id : jsstring) (input : string -> InputValue) (jobs : Jobs)
  : result TransferReplayJob * Jobs :=
  let jobs := pruneTerminalJobs now jobs in
  match List.find is_running jobs with
  | Some _ => (Err "Transfer replay job is already running", jobs)
  | None =>
      match buildTransferReplayRequest input (jo_defaultBatchSize options) (jo_defaultChunkSize options)
              (Some (jo_maxBlockRange options)) with
      | Err e => (Err e, jobs)
      | Ok request =>
          let job := {| jb_completedAt := None; jb_error := None; jb_id := id;
            jb_progress := Some (buildTransferReplayProgress request
              {| ct_decoded := 0; ct_inserted := 0; ct_reconciled := 0; ct_skipped := 0 |}
              {| cp_currentBlock := None; cp_lastFrom := None; cp_lastTo := None |});
            jb_request := request; jb_startedAt := now; jb_state := running |} in
          (Ok job, map_set id job jobs)
      end
  end.

Definition alter_job (id : jsstring) (f : TransferReplayJob -> TransferReplayJob) (jobs : Jobs) : Jobs :=
  (fun p => if bool_decide (p.1 = id) then (p.1, f p.2) else p) <$> jobs.

(** [onProgress], [.then] and [.catch] of a started replay. *)
Definition progressed (id : jsstring) (progress : TransferReplayProgress) (jobs : Jobs) : Jobs :=
  alter_job id (fun j => {| jb_completedAt := jb_completedAt j; jb_error := jb_error j; jb_id := jb_id j;
    jb_progress := Some progress; jb_request := jb_request j; jb_startedAt := jb_startedAt j; jb_state := jb_state j |}) jobs.
Definition completed (now : Z) (id : jsstring) (outcome : result TransferReplayProgress) (jobs : Jobs) : Jobs :=
  pruneTerminalJobs now (alter_job id (fun j =>
    match outcome with
    | Ok progress => {| jb_completedAt := Some now; jb_error := jb_error j; jb_id := jb_id j;
        jb_progress := Some progress; jb_request := jb_request j; jb_startedAt := jb_startedAt j; jb_state := succeeded |}
    | Err e => {| jb_completedAt := Some now; jb_error := Some e; jb_id := jb_id j;
        jb_progress := jb_progress j; jb_request := jb_request j; jb_startedAt := jb_startedAt j; jb_state := failed |}
    end) jobs).
Definition get_job (now : Z) (id : jsstring) (jobs : Jobs) : option TransferReplayJob * Jobs :=
  let jobs := pruneTerminalJobs now jobs in (map_get id jobs, jobs).
End JobManager.
