(* ===== verification/IndexerServiceProofs.v ===== *)
(** * The service keeps its promises

    The replay job table never holds two running jobs and stays bounded; the
    cache never serves an expired value; the configuration yields what the
    lanes assume of it. *)

From stdpp Require Import sorting.
From S2P Require Import Prelude JsNum JsString JsNumber Scanner HexBytes Abi IndexerWorld IndexerTransfers IndexerRoles IndexerLanes IndexerBatches IndexerReplay IndexerService.
Local Open Scope Z_scope.
Local Open Scope js_scope.

(** ** Replay jobs *)

Section JobTable.
Context (options : JobOptions).

Inductive job_step : Jobs -> Jobs -> Prop :=
| job_start now id input jobs : job_step jobs (start options now id input jobs).2
| job_progress id p jobs : job_step jobs (progressed id p jobs)
| job_completed now id outcome jobs : job_step jobs (completed options now id outcome jobs)
| job_get now id jobs : job_step jobs (get_job options now id jobs).2.

Definition running_jobs (jobs : Jobs) : Jobs := List.filter is_running jobs.
Definition terminal_jobs (jobs : Jobs) : Jobs := List.filter (fun p => negb (is_running p)) jobs.

Lemma filter_comm {A} (f g : A -> bool) l : List.filter f (List.filter g l) = List.filter g (List.filter f l).
Proof using.
  induction l as [|x l IH]; cbn; [done|]. destruct (f x) eqn:Ef, (g x) eqn:Eg; cbn; rewrite ?Ef, ?Eg, IH; done.
Qed.
Lemma filter_le {A} (f : A -> bool) l : (length (List.filter f l) <= length l)%nat.
Proof using. induction l as [|x l IH]; cbn; [lia|]. destruct (f x); cbn; lia. Qed.

(** Removing the ids of the first [n] entries removes at least [n] entries. *)
Lemma drop_doomed (l : Jobs) n :
  (length (List.filter (fun p => negb (bool_decide (p.1 ∈ (take n l).*1))) l) <= length l - n)%nat.
Proof using.
  set (g := fun p : jsstring * TransferReplayJob => negb (bool_decide (p.1 ∈ (take n l).*1))).
  replace (List.filter g l) with (List.filter g (take n l ++ drop n l)) by (by rewrite take_drop).
  rewrite List.filter_app, length_app.
  assert (forall k, (forall p, p ∈ k -> p.1 ∈ (take n l).*1) ->
    List.filter g k = []) as Hnil.
  { intros k Hk. induction k as [|p k IH]; cbn; [done|]. unfold g at 1. rewrite bool_decide_eq_true_2 by (apply Hk; left). cbn.
    apply IH. intros q Hq. apply Hk. by right. }
  rewrite (Hnil (take n l)) by (intros p Hp; by apply list_elem_of_fmap_2). cbn.
  etrans; [apply filter_le|]. rewrite length_drop. lia.
Qed.

Lemma prune_terminal now jobs : (length (terminal_jobs (pruneTerminalJobs options now jobs)) <= jo_maxRetainedJobs options)%nat.
Proof using.
  unfold pruneTerminalJobs, terminal_jobs. cbv zeta. set (kept := List.filter (fun p => negb (expired options now p)) jobs).
  rewrite filter_comm. set (term := List.filter (fun p => negb (is_running p)) kept).
  set (sorted := merge_sort started_order term).
  assert (sorted ≡ₚ term) as Hp by apply (merge_sort_Permutation started_order).
  rewrite <- (Permutation_length (filter_perm _ _ _ Hp)). etrans; [apply drop_doomed|]. lia.
Qed.
Lemma prune_running now jobs : (length (running_jobs (pruneTerminalJobs options now jobs)) <= length (running_jobs jobs))%nat.
Proof using.
  unfold pruneTerminalJobs, running_jobs. cbv zeta. rewrite filter_comm. etrans; [apply filter_le|].
  rewrite filter_comm. apply filter_le.
Qed.

Lemma map_set_filter (f : jsstring * TransferReplayJob -> bool) id job (jobs : Jobs) :
  (length (List.filter f (map_set id job jobs)) <= length (List.filter f jobs) + (if f (id, job) then 1 else 0))%nat.
Proof using.
  induction jobs as [|[k v] jobs IH]; cbn [map_set List.filter]; [case_match; cbn; lia|].
  case_decide as E; cbn [List.filter].
  - subst k. destruct (f (id, job)), (f (id, v)); cbn; lia.
  - destruct (f (k, v)); cbn; lia.
Qed.

Lemma alter_running id g (jobs : Jobs) : (forall j, jb_state (g j) = running -> jb_state j = running) ->
  (length (running_jobs (alter_job id g jobs)) <= length (running_jobs jobs))%nat.
Proof using.
  intros Hg. unfold running_jobs, alter_job. induction jobs as [|[k v] jobs IH]; cbn [fmap list_fmap List.filter fst snd]; [done|].
  destruct (bool_decide (k = id)).
  - destruct (is_running (k, g v)) eqn:E1, (is_running (k, v)) eqn:E2; cbn in *; try lia.
    apply bool_decide_eq_true in E1. apply bool_decide_eq_false in E2. by apply Hg in E1.
  - destruct (is_running (k, v)); cbn in *; lia.
Qed.
Lemma alter_terminal id g (jobs : Jobs) : (forall j, jb_state (g j) = jb_state j) ->
  length (terminal_jobs (alter_job id g jobs)) = length (terminal_jobs jobs).
Proof using.
  intros Hg. unfold terminal_jobs, alter_job. induction jobs as [|[k v] jobs IH]; cbn [fmap list_fmap List.filter fst snd]; [done|].
  assert (is_running (k, g v) = is_running (k, v)) as E by (unfold is_running; cbn; by rewrite Hg).
  destruct (bool_decide (k = id)); rewrite ?E; destruct (negb (is_running (k, v))); cbn in *; lia.
Qed.

(** The table after any number of steps. *)
Definition bounded_jobs (jobs : Jobs) : Prop :=
  (length (running_jobs jobs) <= 1)%nat /\ (length (terminal_jobs jobs) <= jo_maxRetainedJobs options)%nat.

Lemma find_none_running (jobs : Jobs) : List.find is_running jobs = None -> running_jobs jobs = [].
Proof using.
  unfold running_jobs. induction jobs as [|p jobs IH]; cbn; [done|]. by destruct (is_running p).
Qed.

Lemma job_step_bounded jobs jobs' : job_step jobs jobs' -> bounded_jobs jobs -> bounded_jobs jobs'.
Proof using.
  intros Hstep [Hr Ht]. destruct Hstep as [now id input jobs|id p jobs|now id outcome jobs|now id jobs]; cbn.
  - pose proof (prune_terminal now jobs) as Pt. pose proof (prune_running now jobs) as Pr. unfold start. cbv zeta.
    set (pruned := pruneTerminalJobs options now jobs) in *.
    destruct (List.find is_running pruned) eqn:Ef; [split; cbn [snd]; lia|]. apply find_none_running in Ef.
    destruct (buildTransferReplayRequest _ _ _ _) as [request|e]; [|split; cbn [snd]; lia]. cbn [snd]. split.
    + etrans; [apply map_set_filter|]. fold (running_jobs pruned). rewrite Ef. case_match; cbn; lia.
    + etrans; [apply map_set_filter|]. fold (terminal_jobs pruned). unfold is_running at 1.
      rewrite bool_decide_eq_true_2 by done. cbn. lia.
  - split; [etrans; [by apply alter_running|done]|]. unfold progressed. by rewrite alter_terminal.
  - split; [|apply prune_terminal]. unfold completed. etrans; [apply prune_running|]. etrans; [apply alter_running|done].
    intros j. by destruct outcome.
  - split; [etrans; [apply prune_running|done]|apply prune_terminal].
Qed.
End JobTable.

(** ** The cache *)

Inductive cache_op := CSet (now : Z) (key value : jsstring) (ttlMs : Z) | CGet (now : Z) (key : jsstring).
Definition op_time (op : cache_op) : Z := match op with CSet now _ _ _ | CGet now _ => now end.

(** The entries after a history, newest operation first. *)
Fixpoint cache_after (history : list cache_op) : CacheEntries :=
  match history with
  | [] => []
  | CSet now key value ttl :: older => cache_set now key value ttl (cache_after older)
  | CGet now key :: older => (cache_get now key (cache_after older)).2
  end.

(** The last value set for a key, with the time it expires. *)
Fixpoint last_set (key : jsstring) (history : list cache_op) : option CacheEntry :=
  match history with
  | [] => None
  | CSet now k value ttl :: older =>
      if bool_decide (k = key) then Some {| ce_expiresAt := now + ttl; ce_value := value |} else last_set key older
  | CGet _ _ :: older => last_set key older
  end.

Section CacheFacts.
Context {V : Type}.
Implicit Types (m : list (jsstring * V)).

Lemma map_get_filter (P : jsstring * V -> bool) k m : NoDup m.*1 ->
  map_get k (List.filter P m) = match map_get k m with Some v => if P (k, v) then Some v else None | None => None end.
Proof using.
  induction m as [|[k' v] m IH]; cbn; [done|]. intros [Hn Hm]%NoDup_cons. specialize (IH Hm).
  assert (map_get k' m = None) as Hnone.
  { destruct (map_get k' m) as [v'|] eqn:E; [|done]. destruct Hn. clear -E. induction m as [|[k1 v1] m IH]; cbn in *; [done|].
    case_decide; subst; [left|right; by apply IH]. }
  case_decide as E; [subst k'|].
  - destruct (P (k, v)) eqn:Ep; cbn; [by rewrite decide_True|]. by rewrite IH, Hnone.
  - destruct (P (k', v)); cbn; [by rewrite decide_False|done].
Qed.
Lemma NoDup_filter_keys (P : jsstring * V -> bool) m : NoDup m.*1 -> NoDup (List.filter P m).*1.
Proof using.
  induction m as [|[k v] m IH]; cbn; [done|]. intros [Hn Hm]%NoDup_cons. destruct (P (k, v)); cbn; [|by apply IH].
  constructor; [|by apply IH]. intros Hk. destruct Hn. apply list_elem_of_fmap in Hk as ([k' v'] & -> & Hk).
  rewrite list_elem_of_In, filter_In, <- list_elem_of_In in Hk. by apply (list_elem_of_fmap_2 fst m (k', v')), Hk.
Qed.
Lemma map_set_keys_in k v m x : x ∈ (map_set k v m).*1 -> x = k \/ x ∈ m.*1.
Proof using.
  induction m as [|[k' v'] m IH]; cbn; [intros ->%list_elem_of_singleton; by left|].
  case_decide; cbn; rewrite !elem_of_cons; [tauto|]. intros [->|Hx]; [tauto|]. apply IH in Hx. tauto.
Qed.
Lemma NoDup_map_set k v m : NoDup m.*1 -> NoDup (map_set k v m).*1.
Proof using.
  induction m as [|[k' v'] m IH]; cbn; [repeat constructor; by intros ?%elem_of_nil|]. intros [Hn Hm]%NoDup_cons.
  case_decide; cbn; [by constructor|]. constructor; [|by apply IH]. intros [->|Hx]%map_set_keys_in; done.
Qed.
End CacheFacts.

Lemma cache_after_nodup history : NoDup (cache_after history).*1.
Proof.
  induction history as [|[now k v ttl|now k] older IH]; cbn; [constructor| |].
  - by apply NoDup_map_set, NoDup_filter_keys.
  - unfold cache_get. destruct (map_get k _) as [e|]; [|done]. destruct (ce_expiresAt e <=? now); [|done].
    by apply NoDup_filter_keys.
Qed.

(** An entry is the last one set, or the last one set has expired. *)
Lemma cache_after_spec history now key :
  StronglySorted (fun a b => op_time b <= op_time a) history -> Forall (fun op => op_time op <= now) history ->
  match map_get key (cache_after history) with
  | Some entry => last_set key history = Some entry
  | None => forall entry, last_set key history = Some entry -> ce_expiresAt entry <= now
  end.
Proof.
  revert now. induction history as [|op older IH]; intros now Hs Hn; cbn; [done|].
  apply StronglySorted_inv in Hs as [Hs Hop]. apply Forall_cons in Hn as [Hnow _].
  specialize (IH (op_time op) Hs Hop). pose proof (cache_after_nodup older) as Hd. destruct op as [t k v ttl|t k]; cbn in *.
  - unfold cache_set. rewrite map_get_set. destruct (decide (k = key)) as [->|Hk].
    + by rewrite bool_decide_eq_true_2.
    + rewrite bool_decide_eq_false_2 by done. rewrite map_get_filter by done.
      destruct (map_get key (cache_after older)) as [e|]; [|intros e He; specialize (IH e He); lia]. cbn.
      destruct (Z.leb_spec (ce_expiresAt e) t); cbn; [|done]. rewrite IH. intros e' [= <-]. lia.
  - unfold cache_get. destruct (map_get k (cache_after older)) as [e|] eqn:Ek; cbn [snd].
    2: { destruct (map_get key (cache_after older)); [done|]. intros e He. specialize (IH e He). lia. }
    destruct (Z.leb_spec (ce_expiresAt e) t); cbn.
    2: { destruct (map_get key (cache_after older)); [done|]. intros e' He. specialize (IH e' He). lia. }
    unfold map_delete. rewrite map_get_filter by done. destruct (map_get key (cache_after older)) as [e'|] eqn:E; cbn.
    + destruct (decide (key = k)) as [->|Hk]; [|by rewrite bool_decide_eq_false_2].
      rewrite bool_decide_eq_true_2 by done. cbn. rewrite IH. intros e'' [= <-]. assert (e' = e) as -> by congruence. lia.
    + intros e' He. specialize (IH e' He). lia.
Qed.

(** ** Configuration *)

Lemma resolveAddress_lower value fallback : toLowerCase fallback = fallback ->
  toLowerCase (resolveAddress value fallback) = resolveAddress value fallback.
Proof. intros Hf. unfold resolveAddress. destruct (truthy value); [apply toLowerCase_idem|done]. Qed.

Lemma resolveNonNegative_spec value fallback : 0 <= fallback ->
  exists n, resolveNonNegativeInteger value (JInt fallback) = JInt n /\ 0 <= n.
Proof.
  intros Hf. unfold resolveNonNegativeInteger. destruct (isFinite _) eqn:E; [eexists; split; [done|lia]|]. eauto.
Qed.

(** ** Theorems *)

(** C12: in every state of the replay job table that starts, progress reports,
    completions and queries can reach, at most one job is running and at most
    the configured number of finished jobs is kept. *)
Theorem replay_jobs_bounded options jobs :
  rtc (job_step options) [] jobs ->
  (length (running_jobs jobs) <= 1)%nat /\ (length (terminal_jobs jobs) <= jo_maxRetainedJobs options)%nat.
Proof.
  intros Hr. change (bounded_jobs options jobs). assert (bounded_jobs options []) as H0 by (split; cbn; lia).
  induction Hr as [|x y z Hstep _ IH]; [done|]. apply IH. by eapply job_step_bounded.
Qed.

(** A lookup serves exactly the last value set for the key, until it expires,
    whatever operations came before on a clock that does not go back. *)
Theorem cache_serves_last_unexpired history now key :
  StronglySorted (fun a b => op_time b <= op_time a) history -> Forall (fun op => op_time op <= now) history ->
  (cache_get now key (cache_after history)).1 =
  match last_set key history with
  | Some entry => if ce_expiresAt entry <=? now then None else Some (ce_value entry)
  | None => None
  end.
Proof.
  intros Hs Hn. pose proof (cache_after_spec history now key Hs Hn) as H. unfold cache_get.
  destruct (map_get key (cache_after history)) as [e|].
  - rewrite H. by destruct (ce_expiresAt e <=? now).
  - destruct (last_set key history) as [e|]; [|done]. rewrite (proj2 (Z.leb_le _ _)); [done|]. by apply H.
Qed.

(** The middleware passes a request under its prefix exactly when one of the
    keys sent has the bytes of the expected key. *)
Theorem api_key_required expected prefix path header :
  expected <> [] -> startsWith path prefix = true ->
  createApiKeyMiddleware (Some expected) prefix path header = Next <->
  exists key, (header = HOne key \/ exists keys, header = HMany keys /\ key ∈ keys) /\
              TextEncoder_encode key = TextEncoder_encode expected.
Proof.
  intros He Hp. unfold createApiKeyMiddleware, isApiKeyAuthorized. rewrite Hp. cbn [negb].
  destruct expected as [|c cs]; [done|]. cbn [truthy]. set (expected := c :: cs).
  assert (forall key, safeEqual key expected = true <-> TextEncoder_encode key = TextEncoder_encode expected) as Heq.
  { intros key. unfold safeEqual. rewrite andb_true_iff, Nat.eqb_eq, bool_decide_eq_true. split; [tauto|].
    intros E. split; [by rewrite E|done]. }
  destruct header as [|key|keys].
  - split; [done|]. intros (key & [H|(keys & H & _)] & _); done.
  - destruct (safeEqual key expected) eqn:E; split; try done.
    + intros _. exists key. split; [by left|by apply Heq].
    + intros (k & [[= ->]|(keys & H & _)] & H'); [|done]. apply Heq in H'. congruence.
  - destruct (existsb (fun v => safeEqual v expected) keys) eqn:E; split; try done.
    + intros _. apply existsb_exists in E as (k & Hk & Hs). exists k. split; [|by apply Heq].
      right. exists keys. split; [done|by apply list_elem_of_In].
    + intros (k & [H|(ks & [= ->] & Hk)] & H'); [done|]. apply Heq in H'.
      assert (existsb (fun v => safeEqual v expected) ks = true); [|congruence].
      apply existsb_exists. exists k. split; [by apply list_elem_of_In|done].
Qed.

(** The indexer reports healthy exactly when every lane has a checkpoint within
    the allowed lag of the newest indexable block (or that block itself is
    within the lag of zero), no event is waiting for a retry and the audits are
    fine. *)
Theorem healthy_iff {A} (audits_ok : A -> bool) s :
  let latest := default (hs_latestChainBlock s) (hs_latestIndexedBlock s) in
  let near c := match c with Some b => latest - b <= hs_maxAllowedLag s | None => latest <= hs_maxAllowedLag s end in
  0 <= hs_maxAllowedLag s ->
  hr_ok (buildHealthResponse audits_ok s) = true <->
  near (minIfAllPresent [hs_hubTransfer s; hs_hubRole s]) /\ near (minIfAllPresent [hs_oracleRole s; hs_oracleExecution s]) /\
  (forall a, hs_audits s = Some a -> audits_ok a = true) /\ (forall f, hs_failedEvents s = Some f -> fe_count f = 0).
Proof.
  cbv zeta. intros H0. unfold buildHealthResponse. cbn [hr_ok]. rewrite !andb_true_iff, !Z.leb_le, Z.eqb_eq.
  assert (forall b c, toLag b c <= hs_maxAllowedLag s <->
    match c with Some x => b - x <= hs_maxAllowedLag s | None => b <= hs_maxAllowedLag s end) as Hlag.
  { intros b [x|]; cbn; lia. }
  rewrite !Hlag. clear Hlag. destruct (hs_audits s) as [a|], (hs_failedEvents s) as [f|]; cbn;
    (split; [intros [[[H1 H2] H3] H4]|intros (H1 & H2 & H3 & H4)]); split_and!; intros; simplify_eq; auto.
Qed.

(** A path that spells the prefix with other letter case passes unchecked. *)
Theorem prefix_case_unchecked key :
  createApiKeyMiddleware (Some key) (js "/api/admin/") (js "/API/admin/replay/transfers") HNone = Next.
Proof. vm_compute. reflexivity. Qed.

(** A batch size of zero, which the configuration accepts, never moves a lane
    forward. *)
Theorem zero_batch_never_advances `{F : Faults, C : Chain, LP : LogProvider} cfg lane fuel cur latest w :
  resolveNumber (Some (js "0")) (JInt 2000) = JInt (batchSize cfg) -> cur <= latest ->
  match lane_loop fuel cfg lane cur latest w with (Ok c, _) => c = cur | (Err _, _) => True end.
Proof.
  intros Hb Hle. assert (batchSize cfg = 0) as H0 by (change (JInt 0 = JInt (batchSize cfg)) in Hb; congruence). revert w. induction fuel as [|f IH]; intros w; cbn [lane_loop];
    rewrite (proj2 (Z.ltb_ge latest cur)) by done; [done|].
  rewrite H0. replace (Z.min (cur + 0 - 1) latest + 1) with cur by lia. unfold mbind, M_bind.
  destruct (processRange lane cur _ w) as [[u|e] w']; [apply IH|done].
Qed.

(** Two replays started and finished, a third one running, one finished job
    kept. *)
Definition toy_options : JobOptions := {|
  jo_defaultBatchSize := JInt 2000; jo_defaultChunkSize := JInt 100; jo_maxBlockRange := JInt 100000;
  jo_maxRetainedJobs := 1; jo_terminalJobTtlMs := 3600000 |}.
Definition toy_input (name : string) : InputValue := INumber (JInt (if bool_decide (name = "toBlock"%string) then 9 else 3)).
Definition toy_jobs : Jobs :=
  let jobs := (start toy_options 1 (js "a") toy_input []).2 in
  let jobs := completed toy_options 2 (js "a") (Err "stopped") jobs in
  let jobs := (start toy_options 3 (js "b") toy_input jobs).2 in
  let jobs := completed toy_options 4 (js "b") (Err "stopped") jobs in
  (start toy_options 5 (js "c") toy_input jobs).2.

Lemma replay_jobs_witness : rtc (job_step toy_options) [] toy_jobs /\ length toy_jobs = 2%nat /\
  (length (running_jobs toy_jobs) <= 1)%nat /\ (length (terminal_jobs toy_jobs) <= 1)%nat.
Proof.
  assert (rtc (job_step toy_options) [] toy_jobs) as Hr.
  { unfold toy_jobs. cbv zeta. eapply rtc_l; [apply job_start|]. eapply rtc_l; [apply job_completed|].
    eapply rtc_l; [apply job_start|]. eapply rtc_l; [apply job_completed|]. eapply rtc_l; [apply job_start|]. apply rtc_refl. }
  split; [exact Hr|]. split; [vm_compute; reflexivity|]. exact (replay_jobs_bounded toy_options toy_jobs Hr).
Defined.
