(* ===== verification/IndexerAudit.v ===== *)
(** * Indexer audits and the health of the service

    packages/indexer/src: services/indexerAudit.ts (audit runs, the transfer
    coverage audit, audit health, the latest report), jobs/indexerAudit.ts
    (one run of the job) and services/health.ts (the checkpoints a health
    response is built from).  The audit tables are kept beside the database of
    the indexer; their statements fail like the others, at the same clock.
    Times are milliseconds.  Reads the code issues together with [Promise.all]
    are issued one after the other here. *)

From stdpp Require Import sorting.
From S2P Require Import Prelude JsNum JsString JsNumber JsJson Scanner IndexerWorld IndexerTransfers IndexerRoles IndexerLanes IndexerReplay IndexerRanges IndexerService.
Local Open Scope Z_scope.
Local Open Scope js_scope.

(** ** Rows *)

Inductive IndexerAuditKind := KTransferCoverage.
Inductive IndexerAuditStatus := RunFailed | RunRunning | RunSucceeded.
Inductive IndexerAuditClassification := Confirmed.
#[export] Instance auditKind_eq_dec : EqDecision IndexerAuditKind.
Proof. solve_decision. Defined.
#[export] Instance auditStatus_eq_dec : EqDecision IndexerAuditStatus.
Proof. solve_decision. Defined.
#[export] Instance classification_eq_dec : EqDecision IndexerAuditClassification.
Proof. solve_decision. Defined.

Definition INDEXER_AUDIT_KINDS : list IndexerAuditKind := [KTransferCoverage].
Definition kind_text (k : IndexerAuditKind) : jsstring := match k with KTransferCoverage => js "transfer-coverage" end.
Definition classification_text (c : IndexerAuditClassification) : jsstring := match c with Confirmed => js "confirmed" end.

(** A row of [indexer_audit_runs]. *)
Record AuditRunRow := {
  ar_kind : IndexerAuditKind; ar_status : IndexerAuditStatus; ar_started_at : Z; ar_completed_at : option Z;
  ar_audit_block : option Z; ar_latest_chain_block : option Z; ar_checked_count : Z; ar_confirmed_count : Z;
  ar_error : option string }.
(** A row of [indexer_audit_findings]. *)
Record AuditFindingRow := {
  fr_run_id : Z; fr_kind : IndexerAuditKind; fr_classification : IndexerAuditClassification;
  fr_token_id : option jsstring; fr_token_name : option jsstring; fr_block_number : option Z;
  fr_tx_hash : option jsstring; fr_log_index : option Z; fr_details_json : jsstring }.

Record IndexerAuditFinding := {
  fd_blockNumber : option Z; fd_classification : IndexerAuditClassification; fd_details : Json; fd_id : option Z;
  fd_kind : IndexerAuditKind; fd_logIndex : option Z; fd_tokenId : option jsstring; fd_tokenName : option jsstring;
  fd_txHash : option jsstring }.

Record IndexerAuditRunSummary := {
  rsm_auditBlock : option Z; rsm_checkedCount : Z; rsm_completedAt : option Z; rsm_confirmedCount : Z;
  rsm_error : option string; rsm_id : Z; rsm_kind : IndexerAuditKind; rsm_latestChainBlock : option Z;
  rsm_startedAt : Z; rsm_status : IndexerAuditStatus }.

Definition normalizeRun (row : Z * AuditRunRow) : IndexerAuditRunSummary := {|
  rsm_auditBlock := ar_audit_block row.2; rsm_checkedCount := ar_checked_count row.2;
  rsm_completedAt := ar_completed_at row.2; rsm_confirmedCount := ar_confirmed_count row.2;
  rsm_error := ar_error row.2; rsm_id := row.1; rsm_kind := ar_kind row.2;
  rsm_latestChainBlock := ar_latest_chain_block row.2; rsm_startedAt := ar_started_at row.2;
  rsm_status := ar_status row.2 |}.

Definition parseDetails (value : jsstring) : Json :=
  match JSON_parse value with Ok v => v | Err _ => JObj [] end.

Definition normalizeFinding (row : Z * AuditFindingRow) : IndexerAuditFinding := {|
  fd_blockNumber := fr_block_number row.2; fd_classification := fr_classification row.2;
  fd_details := parseDetails (fr_details_json row.2); fd_id := Some row.1; fd_kind := fr_kind row.2;
  fd_logIndex := fr_log_index row.2; fd_tokenId := fr_token_id row.2; fd_tokenName := fr_token_name row.2;
  fd_txHash := fr_tx_hash row.2 |}.

(** ** Tables and computations *)

(** The tables by id, with the next values of their sequences. *)
Record AuditTables := {
  at_runs : gmap Z AuditRunRow; at_findings : gmap Z AuditFindingRow; at_next_run : Z; at_next_finding : Z }.
Record AuditWorld := { aw_world : World; aw_tables : AuditTables }.

Definition AM (A : Type) : Type := AuditWorld -> result A * AuditWorld.
#[export] Instance AM_ret : MRet AM := fun A a s => (Ok a, s).
#[export] Instance AM_bind : MBind AM := fun A B f c s =>
  match c s with (Ok a, s') => f a s' | (Err e, s') => (Err e, s') end.
Definition throwA {A} (e : string) : AM A := fun s => (Err e, s).
Definition try_catchA {A} (c : AM A) (h : string -> AM A) : AM A := fun s =>
  match c s with (Ok a, s') => (Ok a, s') | (Err e, s') => h e s' end.
Fixpoint forA {A} (l : list A) (f : A -> AM unit) : AM unit :=
  match l with [] => mret tt | x :: l' => f x ≫= fun _ => forA l' f end.
(** A computation on the tables of the indexer. *)
Definition lift {A} (c : M A) : AM A := fun s =>
  match c (aw_world s) with (r, w) => (r, {| aw_world := w; aw_tables := aw_tables s |}) end.
Definition liftR {A} (r : result A) : AM A := fun s => (r, s).

(** [new Date()] when so many external calls were made. *)
Class Clock := clock_ms : nat -> Z.

Section AuditStatements.
Context `{F : Faults, K : Clock}.

Definition nowA : AM Z := fun s => (Ok (clock_ms (w_time (aw_world s))), s).

(** A statement on the audit tables; it fails like those of [sql]. *)
Definition audit_sql {A} (f : AuditTables -> A * AuditTables) : AM A := fun s =>
  let '(a, t) := f (aw_tables s) in
  let w := advance (w_db (aw_world s)) (aw_world s) in
  match sql_fault (w_time (aw_world s)) with
  | None => (Ok a, {| aw_world := w; aw_tables := t |})
  | Some (e, applied) => (Err e, {| aw_world := w; aw_tables := if applied : bool then t else aw_tables s |})
  end.
Definition audit_query {A} (f : AuditTables -> A) : AM A := audit_sql (fun t => (f t, t)).

(** ** Audit runs *)

Definition new_run (kind : IndexerAuditKind) (now : Z) : AuditRunRow := {|
  ar_kind := kind; ar_status := RunRunning; ar_started_at := now; ar_completed_at := None; ar_audit_block := None;
  ar_latest_chain_block := None; ar_checked_count := 0; ar_confirmed_count := 0; ar_error := None |}.

Definition insertAuditRun (kind : IndexerAuditKind) : AM Z :=
  now ← nowA;
  audit_sql (fun t => (at_next_run t, {|
    at_runs := <[at_next_run t := new_run kind now]> (at_runs t); at_findings := at_findings t;
    at_next_run := at_next_run t + 1; at_next_finding := at_next_finding t |})).

Record RunCompletion := {
  rcn_auditBlock : option Z; rcn_checkedCount : Z; rcn_confirmedCount : Z; rcn_error : option string;
  rcn_latestChainBlock : option Z; rcn_status : IndexerAuditStatus }.

Definition complete_row (now : Z) (input : RunCompletion) (row : AuditRunRow) : AuditRunRow := {|
  ar_kind := ar_kind row; ar_status := rcn_status input; ar_started_at := ar_started_at row;
  ar_completed_at := Some now; ar_audit_block := rcn_auditBlock input;
  ar_latest_chain_block := rcn_latestChainBlock input; ar_checked_count := rcn_checkedCount input;
  ar_confirmed_count := rcn_confirmedCount input; ar_error := rcn_error input |}.

Definition completeAuditRun (runId : Z) (input : RunCompletion) : AM unit :=
  now ← nowA;
  audit_sql (fun t => (tt, {|
    at_runs := alter (complete_row now input) runId (at_runs t); at_findings := at_findings t;
    at_next_run := at_next_run t; at_next_finding := at_next_finding t |})).

Definition finding_row (runId : Z) (finding : IndexerAuditFinding) : AuditFindingRow := {|
  fr_run_id := runId; fr_kind := fd_kind finding; fr_classification := fd_classification finding;
  fr_token_id := fd_tokenId finding; fr_token_name := fd_tokenName finding; fr_block_number := fd_blockNumber finding;
  fr_tx_hash := fd_txHash finding; fr_log_index := fd_logIndex finding;
  fr_details_json := JSON_stringify (fd_details finding) |}.

Definition insertAuditFindings (runId : Z) (findings : list IndexerAuditFinding) : AM unit :=
  forA findings (fun finding =>
    audit_sql (fun t => (tt, {|
      at_runs := at_runs t; at_findings := <[at_next_finding t := finding_row runId finding]> (at_findings t);
      at_next_run := at_next_run t; at_next_finding := at_next_finding t + 1 |}))).

Record AuditResult := {
  au_auditBlock : Z; au_checkedCount : Z; au_findings : list IndexerAuditFinding; au_latestChainBlock : Z }.

Definition is_confirmed (finding : IndexerAuditFinding) : bool := bool_decide (fd_classification finding = Confirmed).

(** Returns the result with the confirmed count and the id of the run. *)
Definition withAuditRun (kind : IndexerAuditKind) (run : M AuditResult) : AM (AuditResult * Z * Z) :=
  runId ← insertAuditRun kind;
  try_catchA
    (result ← lift run;
     _ ← insertAuditFindings runId (au_findings result);
     let confirmedCount := Z.of_nat (length (List.filter is_confirmed (au_findings result))) in
     _ ← completeAuditRun runId {|
       rcn_auditBlock := Some (au_auditBlock result); rcn_checkedCount := au_checkedCount result;
       rcn_confirmedCount := confirmedCount; rcn_error := None;
       rcn_latestChainBlock := Some (au_latestChainBlock result); rcn_status := RunSucceeded |};
     mret (result, confirmedCount, runId))
    (fun error =>
     _ ← completeAuditRun runId {|
       rcn_auditBlock := None; rcn_checkedCount := 0; rcn_confirmedCount := 0; rcn_error := Some error;
       rcn_latestChainBlock := None; rcn_status := RunFailed |};
     throwA error).
End AuditStatements.

(** ** The transfer coverage audit *)

Record TransferCoverageAuditOptions := {
  co_auditBlock : option Z; co_latestChainBlock : option Z; co_lookbackBlocks : Z; co_maxReplayRange : Z;
  co_replayPaddingBlocks : Z }.

Definition HUB_TRANSFER_META_KEY : jsstring := js "hub_last_processed_transfer_block".

(** The key of an event: transaction hash and log index. *)
Definition eventKey (tx : jsstring) (index : Z) : jsstring := toLowerCase tx ++ js ":" ++ toString10 index.

(** A range as an object of the stored details. *)
Definition reason_json (r : RangeReason) : Json :=
  match r with
  | transfer_coverage => JStr (js "transfer-coverage")
  | multiple => JStr (js "multiple")
  | other_reason (Some s) => JStr s
  | other_reason None => JUndefined
  end.
Definition range_json (r : SuggestedReplayRange) : Json := JObj [
  (js "findingCount", JNum (findingCount r)); (js "fromBlock", JNum (fromBlock r));
  (js "reason", reason_json (reason r)); (js "toBlock", JNum (toBlock r))].

Section Coverage.
Context `{F : Faults, C : Chain, LP : LogProvider, RE : ReplayEnv}.

Definition getAuditBlock (override : option Z) : M Z :=
  match override with
  | Some b => mret b
  | None =>
      raw ← getMeta HUB_TRANSFER_META_KEY;
      match Number <$> raw with
      | Some (JInt parsed) => if parsed <? 0 then throwM "Hub transfer checkpoint is not available for indexer audit" else mret parsed
      | _ => throwM "Hub transfer checkpoint is not available for indexer audit"
      end
  end.

(** The same search as transferReplay.ts's [getTransferLogsWithSplit]. *)
Definition getLogsWithSplitForFilter (address : jsstring) (topics : list (list jsstring)) (from to : Z) : M (list Log) :=
  getTransferLogsWithSplit address topics from to.

Definition getIndexedEventKeys (from to : Z) : M (gset jsstring) :=
  query (fun d => list_to_set ((fun p => eventKey p.1.1 p.1.2) <$>
    List.filter (fun p => (from <=? ev_block p.2) && (ev_block p.2 <=? to)) (map_to_list (events d)))).

Definition getTokenNames : M (gmap jsstring (option jsstring)) := query (fun d => tk_name <$> tokens d).

Definition finding_details (options : TransferCoverageAuditOptions) (log : Log) (t : ParsedTransferLog) : Json := JObj [
  (js "amount", JStr (toString10 (pt_amount t)));
  (js "from", JStr (toLowerCase (pt_from t)));
  (js "operator", JStr (toLowerCase (pt_operator t)));
  (js "suggestedReplayRanges", JArr (range_json <$>
     buildSuggestedReplayRanges [JInt (lg_block log)] (co_maxReplayRange options) (co_replayPaddingBlocks options)
       transfer_coverage));
  (js "to", JStr (toLowerCase (pt_to t)))].

Definition missing_transfer (options : TransferCoverageAuditOptions) (names : gmap jsstring (option jsstring)) (log : Log)
    (t : ParsedTransferLog) : IndexerAuditFinding := {|
  fd_blockNumber := Some (lg_block log); fd_classification := Confirmed; fd_details := finding_details options log t;
  fd_id := None; fd_kind := KTransferCoverage; fd_logIndex := Some (lg_index log); fd_tokenId := Some (pt_tokenId t);
  fd_tokenName := mjoin (names !! pt_tokenId t); fd_txHash := Some (lg_tx log) |}.

(** One iteration over the sorted logs: (checkedCount, findings). *)
Definition audit_log (options : TransferCoverageAuditOptions) (keys : gset jsstring) (names : gmap jsstring (option jsstring))
    (st : Z * list IndexerAuditFinding) (log : Log) : Z * list IndexerAuditFinding :=
  match parseTransferLog log with
  | None => st
  | Some t =>
      if shouldSkipTokenId (pt_tokenId t) then st
      else if bool_decide (eventKey (lg_tx log) (lg_index log) ∈ keys) then (st.1 + 1, st.2)
      else (st.1 + 1, st.2 ++ [missing_transfer options names log t])
  end.

(** The callback of [runTransferCoverageAudit]. *)
Definition transfer_coverage_audit (hub transferTopic : jsstring) (options : TransferCoverageAuditOptions) : M AuditResult :=
  auditBlock ← getAuditBlock (co_auditBlock options);
  latestChainBlock ← match co_latestChainBlock options with Some n => mret n | None => rpc getBlockNumber end;
  let fromBlock := Z.max 0 (auditBlock - co_lookbackBlocks options + 1) in
  logs ← getLogsWithSplitForFilter hub [[transferTopic]] fromBlock auditBlock;
  indexedKeys ← getIndexedEventKeys fromBlock auditBlock;
  tokenNames ← getTokenNames;
  let '(checkedCount, findings) := foldl (audit_log options indexedKeys tokenNames) (0, []) (merge_sort log_order logs) in
  mret {| au_auditBlock := auditBlock; au_checkedCount := checkedCount; au_findings := findings;
          au_latestChainBlock := latestChainBlock |}.

Definition runTransferCoverageAudit `{K : Clock} (hub transferTopic : jsstring) (options : TransferCoverageAuditOptions)
  : AM (AuditResult * Z * Z) :=
  withAuditRun KTransferCoverage (transfer_coverage_audit hub transferTopic options).

(** jobs/indexerAudit.ts: one run of the job, not overlapping another. *)
Definition audit_job `{K : Clock} (hub transferTopic : jsstring) (lookback maxRange overlap : Z) : AM unit :=
  try_catchA
    (checkpoint ← lift (getMeta HUB_TRANSFER_META_KEY);
     match truthy checkpoint with
     | None => mret tt
     | Some _ =>
         try_catchA
           (_ ← runTransferCoverageAudit hub transferTopic {| co_auditBlock := None; co_latestChainBlock := None;
                  co_lookbackBlocks := lookback; co_maxReplayRange := maxRange; co_replayPaddingBlocks := overlap |};
            mret tt)
           (fun _ => mret tt)
     end)
    (fun _ => mret tt).
End Coverage.

(** ** Reading the runs back *)

Definition run_order (key : AuditRunRow -> Z) (p q : Z * AuditRunRow) : Prop :=
  key q.2 < key p.2 \/ (key p.2 = key q.2 /\ q.1 <= p.1).
#[export] Instance run_order_dec key p q : Decision (run_order key p q).
Proof. unfold run_order. apply _. Defined.

Definition of_kind (kind : IndexerAuditKind) (p : Z * AuditRunRow) : bool := bool_decide (ar_kind p.2 = kind).

(** [DISTINCT ON (kind) ... ORDER BY kind, started_at DESC, id DESC]. *)
Definition latest_run (t : AuditTables) (kind : IndexerAuditKind) : option (Z * AuditRunRow) :=
  head (merge_sort (run_order ar_started_at) (List.filter (of_kind kind) (map_to_list (at_runs t)))).

Definition is_complete (p : Z * AuditRunRow) : bool :=
  bool_decide (ar_status p.2 = RunSucceeded) && bool_decide (is_Some (ar_completed_at p.2)).
(** [WHERE kind = $1 AND status = 'succeeded' AND completed_at IS NOT NULL
    ORDER BY completed_at DESC, id DESC LIMIT $2]. *)
Definition completed_runs (t : AuditTables) (kind : IndexerAuditKind) (limit : Z) : list (Z * AuditRunRow) :=
  take (Z.to_nat limit) (merge_sort (run_order (fun r => default 0 (ar_completed_at r)))
    (List.filter (fun p => of_kind kind p && is_complete p) (map_to_list (at_runs t)))).

Record IndexerAuditHealthOptions := {
  ho_consecutiveFailures : Z; ho_failureThreshold : Z; ho_maxAgeMs : Z; ho_now : option Z }.

Inductive KindStatus := OfRun (s : IndexerAuditStatus) | Missing | Stale.
Record IndexerAuditKindHealth := {
  kh_auditBlock : option Z; kh_checkedCount : Z; kh_completedAt : option Z; kh_confirmedCount : Z;
  kh_consecutiveConfirmedRuns : Z; kh_error : option string; kh_kind : IndexerAuditKind; kh_ok : bool;
  kh_reason : option string; kh_startedAt : option Z; kh_status : KindStatus }.
Record IndexerAuditHealth := {
  ah_consecutiveFailures : Z; ah_failureThreshold : Z; ah_kinds : list IndexerAuditKindHealth; ah_maxAgeMs : Z;
  ah_ok : bool }.

Definition missing_kind (kind : IndexerAuditKind) : IndexerAuditKindHealth := {|
  kh_auditBlock := None; kh_checkedCount := 0; kh_completedAt := None; kh_confirmedCount := 0;
  kh_consecutiveConfirmedRuns := 0; kh_error := None; kh_kind := kind; kh_ok := true; kh_reason := None;
  kh_startedAt := None; kh_status := Missing |}.

(** The verdict on the latest run alone: ok, reason and status. *)
Definition run_verdict (maxAgeMs nowMs : Z) (latest : IndexerAuditRunSummary) : bool * option string * KindStatus :=
  if bool_decide (rsm_status latest = RunFailed) then (false, Some "latest audit failed"%string, OfRun (rsm_status latest))
  else if bool_decide (rsm_status latest = RunRunning) && (maxAgeMs <? nowMs - rsm_startedAt latest) then
    (false, Some "audit run is stale"%string, Stale)
  else match rsm_completedAt latest with
       | Some completedAtMs =>
           if maxAgeMs <? nowMs - completedAtMs then (false, Some "latest audit is stale"%string, Stale)
           else (true, None, OfRun (rsm_status latest))
       | None => (true, None, OfRun (rsm_status latest))
       end.

Section Reports.
Context `{F : Faults, K : Clock}.

Definition getLatestAuditRuns : AM (list IndexerAuditRunSummary) :=
  audit_query (fun t => normalizeRun <$> omap (latest_run t) INDEXER_AUDIT_KINDS).

Definition getRecentCompletedRuns (kind : IndexerAuditKind) (limit : Z) : AM (list IndexerAuditRunSummary) :=
  audit_query (fun t => normalizeRun <$> completed_runs t kind limit).

Definition kind_health (maxAgeMs failureThreshold consecutiveFailures nowMs : Z)
    (latestRuns : list IndexerAuditRunSummary) (kind : IndexerAuditKind) : AM IndexerAuditKindHealth :=
  match List.find (fun run => bool_decide (rsm_kind run = kind)) latestRuns with
  | None => mret (missing_kind kind)
  | Some latest =>
      let '(ok, reason, status) := run_verdict maxAgeMs nowMs latest in
      recentRuns ← getRecentCompletedRuns kind consecutiveFailures;
      let consecutiveConfirmedRuns :=
        if (consecutiveFailures <=? Z.of_nat (length recentRuns)) &&
           forallb (fun run => failureThreshold <=? rsm_confirmedCount run) recentRuns
        then consecutiveFailures else 0 in
      let exceeded := ok && (consecutiveFailures <=? consecutiveConfirmedRuns) in
      mret {| kh_auditBlock := rsm_auditBlock latest; kh_checkedCount := rsm_checkedCount latest;
              kh_completedAt := rsm_completedAt latest; kh_confirmedCount := rsm_confirmedCount latest;
              kh_consecutiveConfirmedRuns := consecutiveConfirmedRuns; kh_error := rsm_error latest; kh_kind := kind;
              kh_ok := ok && negb exceeded;
              kh_reason := if exceeded then Some "confirmed audit findings exceeded threshold"%string else reason;
              kh_startedAt := Some (rsm_startedAt latest); kh_status := status |}
  end.

Fixpoint mapA {A B} (f : A -> AM B) (l : list A) : AM (list B) :=
  match l with [] => mret [] | x :: l' => y ← f x; ys ← mapA f l'; mret (y :: ys) end.

Definition getIndexerAuditHealth (options : IndexerAuditHealthOptions) : AM IndexerAuditHealth :=
  let maxAgeMs := Z.max 1 (ho_maxAgeMs options) in
  let failureThreshold := Z.max 1 (ho_failureThreshold options) in
  let consecutiveFailures := Z.max 1 (ho_consecutiveFailures options) in
  nowMs ← match ho_now options with Some n => mret n | None => nowA end;
  latestRuns ← getLatestAuditRuns;
  kinds ← mapA (kind_health maxAgeMs failureThreshold consecutiveFailures nowMs latestRuns) INDEXER_AUDIT_KINDS;
  mret {| ah_consecutiveFailures := consecutiveFailures; ah_failureThreshold := failureThreshold; ah_kinds := kinds;
          ah_maxAgeMs := maxAgeMs; ah_ok := forallb kh_ok kinds |}.

(** ** The report *)

(** [ORDER BY classification ASC, kind ASC, block_number ASC NULLS LAST, id ASC];
    there is one classification and one kind. *)
Definition finding_order (p q : Z * AuditFindingRow) : Prop :=
  match fr_block_number p.2, fr_block_number q.2 with
  | Some b, Some c => b < c \/ (b = c /\ p.1 <= q.1)
  | Some _, None => True
  | None, Some _ => False
  | None, None => p.1 <= q.1
  end.
#[export] Instance finding_order_dec p q : Decision (finding_order p q).
Proof using. unfold finding_order. repeat case_match; apply _. Defined.

Definition findings_of (t : AuditTables) (runIds : list Z) : list (Z * AuditFindingRow) :=
  merge_sort finding_order (List.filter (fun p => bool_decide (fr_run_id p.2 ∈ runIds)) (map_to_list (at_findings t))).

Definition getFindingsForRuns (runIds : list Z) : AM (list IndexerAuditFinding) :=
  match runIds with
  | [] => mret []
  | _ => audit_query (fun t => normalizeFinding <$> findings_of t runIds)
  end.

(** [value.key]: reading a property of [null] throws. *)
Definition property (value : Json) (key : string) : result Json :=
  match value with
  | JObj fields => Ok (default JUndefined (map_get (js key) fields))
  | JNull | JUndefined => Err "TypeError"
  | _ => Ok JUndefined
  end.

(** The reason of a stored range; one that is not a string is read as absent. *)
Definition json_reason (value : Json) : RangeReason :=
  match value with
  | JStr s => if bool_decide (s = js "transfer-coverage") then transfer_coverage
              else if bool_decide (s = js "multiple") then multiple else other_reason (Some s)
  | _ => other_reason None
  end.

(** The filter on the elements of [suggestedReplayRanges]. *)
Definition stored_range (range : Json) : option SuggestedReplayRange :=
  match property range "fromBlock", property range "toBlock", property range "findingCount", property range "reason" with
  | Ok (JNum from), Ok (JNum to), Ok (JNum n), Ok why =>
      Some {| findingCount := n; fromBlock := from; reason := json_reason why; toBlock := to |}
  | _, _, _, _ => None
  end.

Definition finding_ranges (finding : IndexerAuditFinding) : result (list SuggestedReplayRange) :=
  ranges ← property (fd_details finding) "suggestedReplayRanges";
  Ok (match ranges with JArr items => omap stored_range items | _ => [] end).
Fixpoint extractSuggestedRanges (findings : list IndexerAuditFinding) : result (list SuggestedReplayRange) :=
  match findings with
  | [] => Ok []
  | finding :: rest => ranges ← finding_ranges finding; others ← extractSuggestedRanges rest; Ok (ranges ++ others)
  end.

(** One count per kind and classification. *)
Record GroupedFinding := { gf_classification : IndexerAuditClassification; gf_count : Z; gf_kind : IndexerAuditKind }.
Definition group_finding (grouped : list (jsstring * GroupedFinding)) (finding : IndexerAuditFinding)
  : list (jsstring * GroupedFinding) :=
  let key := kind_text (fd_kind finding) ++ js ":" ++ classification_text (fd_classification finding) in
  let current := default {| gf_classification := fd_classification finding; gf_count := 0; gf_kind := fd_kind finding |}
                   (map_get key grouped) in
  map_set key {| gf_classification := gf_classification current; gf_count := gf_count current + 1;
                 gf_kind := gf_kind current |} grouped.

Record IndexerAuditReport := {
  rp_findings : list IndexerAuditFinding; rp_generatedAt : Z; rp_groupedFindings : list GroupedFinding;
  rp_health : IndexerAuditHealth; rp_ok : bool; rp_runs : list IndexerAuditRunSummary;
  rp_suggestedReplayRanges : list SuggestedReplayRange }.

Definition getLatestIndexerAuditReport (options : IndexerAuditHealthOptions) (maxReplayRange : Z) : AM IndexerAuditReport :=
  health ← getIndexerAuditHealth options;
  runs ← getLatestAuditRuns;
  findings ← getFindingsForRuns (rsm_id <$> runs);
  let grouped := foldl group_finding [] findings in
  ranges ← liftR (extractSuggestedRanges (List.filter is_confirmed findings));
  generatedAt ← nowA;
  mret {| rp_findings := findings; rp_generatedAt := generatedAt; rp_groupedFindings := grouped.*2; rp_health := health;
          rp_ok := ah_ok health; rp_runs := runs;
          rp_suggestedReplayRanges := mergeSuggestedReplayRanges ranges maxReplayRange |}.

(** ** health.ts: collecting the status *)

Context `{LP : LogProvider}.

(** A finite checkpoint; a number that is not an integer is dropped here. *)
Definition parseBlock (value : option jsstring) : option Z :=
  match Number <$> value with Some (JInt z) => Some z | _ => None end.

Definition getMetaWithFallback (key : jsstring) (fallbackKey : option jsstring) : M (option jsstring) :=
  value ← getMeta key;
  match value with
  | Some v => mret (Some v)
  | None => match fallbackKey with None => mret None | Some k => getMeta k end
  end.

(** [COUNT] and [MIN(block_number)] over [failed_events]. *)
Definition getFailedEventStatus : M FailedEventStatus :=
  query (fun d =>
    let blocks := (fun p : (jsstring * Z * Z * jsstring) * FailedRow => p.1.1.1.2) <$> map_to_list (failed_events d) in
    {| fe_count := Z.of_nat (length blocks);
       fe_oldestBlockNumber := match blocks with [] => None | b :: rest => Some (foldr Z.min b rest) end |}).

Record HealthConfig := { hc_confirmationBlocks : Z; hc_healthMaxLagBlocks : Z; hc_audit : IndexerAuditHealthOptions }.

Definition getHealthStatus (config : HealthConfig) : AM (HealthResponse (IndexerAuditHealth := IndexerAuditHealth)) :=
  latestChainBlock ← lift (rpc getBlockNumber);
  let latestIndexedBlock := Z.max 0 (latestChainBlock - hc_confirmationBlocks config) in
  hubTransferRaw ← lift (getMetaWithFallback HUB_TRANSFER_META_KEY (Some (js "last_processed_block")));
  hubRoleRaw ← lift (getMetaWithFallback (js "hub_last_processed_role_block") (Some (js "last_processed_block_roles")));
  oracleRoleRaw ← lift (getMeta (js "oracle_last_processed_role_block"));
  oracleExecutionRaw ← lift (getMeta (js "oracle_last_processed_execution_block"));
  failedEvents ← lift getFailedEventStatus;
  audits ← getIndexerAuditHealth (hc_audit config);
  mret (buildHealthResponse ah_ok {|
    hs_audits := Some audits; hs_failedEvents := Some failedEvents; hs_hubRole := parseBlock hubRoleRaw;
    hs_hubTransfer := parseBlock hubTransferRaw; hs_latestChainBlock := latestChainBlock;
    hs_latestIndexedBlock := Some latestIndexedBlock; hs_maxAllowedLag := hc_healthMaxLagBlocks config;
    hs_oracleExecution := parseBlock oracleExecutionRaw; hs_oracleRole := parseBlock oracleRoleRaw |}).
End Reports.
