(* ===== verification/IndexerAuditProofs.v ===== *)
(** * Audits find what is missing, and what they suggest repairs it

    The transfer coverage audit reports exactly the transfers of its window
    that are not in [events]; its run is recorded however it ends; replaying
    the ranges of the latest report stores every transfer found; a healthy
    status means that no old transfer is missing. *)

From stdpp Require Import sorting.
From S2P Require Import Prelude JsNum JsString JsNumber JsJson Scanner IndexerWorld IndexerTransfers IndexerRoles IndexerLanes IndexerJobs IndexerProofs IndexerSystem IndexerBalances IndexerBatches IndexerReplay IndexerLiveness IndexerTheorems IndexerRanges IndexerService IndexerAudit.
Local Open Scope Z_scope.
Local Open Scope js_scope.

(** ** Reasoning about audit computations *)

Definition awp {A} (c : AM A) (Q : A -> AuditWorld -> Prop) (E : string -> AuditWorld -> Prop) (s : AuditWorld) : Prop :=
  match c s with (Ok a, s') => Q a s' | (Err e, s') => E e s' end.
Definition in_world (s : AuditWorld) (w : World) : AuditWorld := {| aw_world := w; aw_tables := aw_tables s |}.
Definition in_tables (s : AuditWorld) (t : AuditTables) : AuditWorld :=
  {| aw_world := advance (w_db (aw_world s)) (aw_world s); aw_tables := t |}.

Section Awp.
Context {A B : Type}.
Implicit Types (c : AM A) (s : AuditWorld).

Lemma awp_conseq c (Q Q' : A -> AuditWorld -> Prop) (E E' : string -> AuditWorld -> Prop) s :
  awp c Q E s -> (forall a s', Q a s' -> Q' a s') -> (forall e s', E e s' -> E' e s') -> awp c Q' E' s.
Proof using. unfold awp. destruct (c s) as [[a|e] s']; auto. Qed.
Lemma awp_ret (a : A) Q E s : Q a s -> awp (mret a) Q E s.
Proof using. done. Qed.
Lemma awp_throw e (Q : A -> AuditWorld -> Prop) (E : string -> AuditWorld -> Prop) s : E e s -> awp (throwA e) Q E s.
Proof using. done. Qed.
Lemma awp_bind c (f : A -> AM B) Q E s : awp c (fun a => awp (f a) Q E) E s -> awp (c ≫= f) Q E s.
Proof using. unfold awp, mbind, AM_bind. by destruct (c s) as [[a|e] s']. Qed.
Lemma awp_try c h Q E s : awp c Q (fun e => awp (h e) Q E) s -> awp (try_catchA c h) Q E s.
Proof using. unfold awp, try_catchA. by destruct (c s) as [[a|e] s']. Qed.
Lemma awp_lift (c : M A) (Q : A -> AuditWorld -> Prop) (E : string -> AuditWorld -> Prop) s :
  wp c (fun a w => Q a (in_world s w)) (fun e w => E e (in_world s w)) (aw_world s) -> awp (lift c) Q E s.
Proof using. unfold awp, wp, lift. by destruct (c (aw_world s)) as [[a|e] w]. Qed.
Lemma awp_now `{K : Clock} (Q : Z -> AuditWorld -> Prop) (E : string -> AuditWorld -> Prop) s :
  Q (clock_ms (w_time (aw_world s))) s -> awp nowA Q E s.
Proof using. done. Qed.

(** A statement that fails is applied or not. *)
Lemma awp_sql `{F : Faults} (f : AuditTables -> A * AuditTables) (Q : A -> AuditWorld -> Prop)
    (E : string -> AuditWorld -> Prop) s :
  Q (f (aw_tables s)).1 (in_tables s (f (aw_tables s)).2) ->
  (forall e b t, sql_fault (w_time (aw_world s)) = Some (e, b) -> t = (f (aw_tables s)).2 \/ t = aw_tables s ->
     E e (in_tables s t)) ->
  awp (audit_sql f) Q E s.
Proof using.
  intros HQ HE. unfold awp, audit_sql. destruct (f (aw_tables s)) as [a t].
  destruct (sql_fault _) as [[e []]|] eqn:Ef; [| |done]; (eapply HE; [done|auto]).
Qed.
Lemma awp_query `{F : Faults} (f : AuditTables -> A) (Q : A -> AuditWorld -> Prop) (E : string -> AuditWorld -> Prop) s :
  Q (f (aw_tables s)) (in_tables s (aw_tables s)) ->
  (forall e b, sql_fault (w_time (aw_world s)) = Some (e, b) -> E e (in_tables s (aw_tables s))) ->
  awp (audit_query f) Q E s.
Proof using. intros HQ HE. apply awp_sql; [done|]. intros e b t Hf [->| ->]; eauto. Qed.
End Awp.

(** ** Event keys *)

Lemma toString10_no_colon n : 58 ∉ toString10 n.
Proof.
  assert (forall m, 0 <= m -> 58 ∉ toString10 m) as Hpos.
  { intros m Hm H. destruct (digits_of_toString10 m Hm) as [Hd _]. rewrite Forall_forall in Hd. by specialize (Hd _ H). }
  destruct (Z.le_gt_cases 0 n) as [Hn|Hn]; [by apply Hpos|]. specialize (Hpos (- n) ltac:(lia)).
  unfold toString10 in *. rewrite (proj2 (Z.eqb_neq n 0)), (proj2 (Z.ltb_lt n 0)) by lia.
  rewrite (proj2 (Z.eqb_neq (- n) 0)), (proj2 (Z.ltb_ge (- n) 0)) in Hpos by lia. by intros [H|H]%elem_of_cons.
Qed.
Lemma toString10_injective n m : toString10 n = toString10 m -> n = m.
Proof.
  assert (forall k, k < 0 -> exists r, toString10 k = 45 :: r /\ r = toString10 (- k)) as Hneg.
  { intros k Hk. unfold toString10. rewrite (proj2 (Z.eqb_neq k 0)), (proj2 (Z.ltb_lt k 0)) by lia.
    rewrite (proj2 (Z.eqb_neq (- k) 0)), (proj2 (Z.ltb_ge (- k) 0)) by lia. eauto. }
  assert (forall k, 0 <= k -> forall r, toString10 k <> 45 :: r) as Hpos.
  { intros k Hk r E. destruct (digits_of_toString10 k Hk) as [Hd _]. rewrite E in Hd. by apply Forall_cons in Hd as [Hd _]. }
  intros E. destruct (Z.le_gt_cases 0 n) as [Hn|Hn], (Z.le_gt_cases 0 m) as [Hm|Hm].
  - by apply toString10_inj.
  - destruct (Hneg m Hm) as (r & Er & _). rewrite Er in E. by apply Hpos in E.
  - destruct (Hneg n Hn) as (r & Er & _). rewrite Er in E. symmetry in E. by apply Hpos in E.
  - destruct (Hneg n Hn) as (r & Er & ->), (Hneg m Hm) as (r' & Er' & ->). rewrite Er, Er' in E. injection E as E.
    apply toString10_inj in E; lia.
Qed.

(** The part after the last colon is determined. *)
Lemma split_last_colon (a b x y : jsstring) : 58 ∉ x -> 58 ∉ y -> a ++ 58 :: x = b ++ 58 :: y -> a = b /\ x = y.
Proof.
  intros Hx Hy. revert b. induction a as [|c a IH]; intros [|d b] E; cbn in E.
  - by injection E as ->.
  - injection E as <- ->. destruct Hx. apply elem_of_app. right. left.
  - injection E as -> <-. destruct Hy. apply elem_of_app. right. left.
  - injection E as -> E. by destruct (IH b E) as [-> ->].
Qed.
Lemma eventKey_inj tx i tx' i' : eventKey tx i = eventKey tx' i' -> toLowerCase tx = toLowerCase tx' /\ i = i'.
Proof.
  unfold eventKey. change (js ":") with [58]. cbn [app]. intros E.
  apply split_last_colon in E as [-> E]; [|apply toString10_no_colon..]. by apply toString10_injective in E.
Qed.

(** ** What the audit finds *)

Section Findings.
Context `{F : Faults, C : Chain, LP : LogProvider, RE : ReplayEnv}.

(** A transfer the audit checks. *)
Definition audited (log : Log) (t : ParsedTransferLog) : Prop :=
  parseTransferLog log = Some t /\ shouldSkipTokenId (pt_tokenId t) = false.
Definition checks (log : Log) : bool :=
  match parseTransferLog log with Some t => negb (shouldSkipTokenId (pt_tokenId t)) | None => false end.

(** The transfer is in [events], at a block of the window. *)
Definition indexed (d : Db) (from to : Z) (log : Log) : Prop :=
  exists tx row, events d !! (tx, lg_index log) = Some row /\ toLowerCase tx = toLowerCase (lg_tx log) /\
                 from <= ev_block row <= to.

Definition missed (options : TransferCoverageAuditOptions) (keys : gset jsstring) (names : gmap jsstring (option jsstring))
    (log : Log) : option IndexerAuditFinding :=
  t ← parseTransferLog log;
  if shouldSkipTokenId (pt_tokenId t) then None
  else if bool_decide (eventKey (lg_tx log) (lg_index log) ∈ keys) then None
  else Some (missing_transfer options names log t).

Lemma audit_fold options keys names logs n acc :
  foldl (audit_log options keys names) (n, acc) logs =
  (n + Z.of_nat (length (List.filter checks logs)), acc ++ omap (missed options keys names) logs).
Proof using.
  revert n acc. induction logs as [|log logs IH]; intros n acc; cbn; [by rewrite app_nil_r, Z.add_0_r|].
  unfold audit_log at 2, checks at 1, missed at 1. cbn. destruct (parseTransferLog log) as [t|]; cbn; [|by rewrite IH].
  destruct (shouldSkipTokenId (pt_tokenId t)); cbn; [by rewrite IH|].
  case_bool_decide; cbn; rewrite IH; f_equal; try lia. by rewrite <- app_assoc.
Qed.

Lemma indexed_key d from to log :
  eventKey (lg_tx log) (lg_index log) ∈ (list_to_set ((fun p : (jsstring * Z) * EventRow => eventKey p.1.1 p.1.2) <$>
    List.filter (fun p => (from <=? ev_block p.2) && (ev_block p.2 <=? to)) (map_to_list (events d))) : gset jsstring) <->
  indexed d from to log.
Proof using.
  rewrite elem_of_list_to_set, list_elem_of_fmap. unfold indexed. split.
  - intros ([[tx i] row] & Hk & Hin). cbn in Hk. rewrite list_elem_of_In, filter_In, <- list_elem_of_In in Hin.
    destruct Hin as [Hin Hb]. apply eventKey_inj in Hk as [Hk ->]. apply elem_of_map_to_list in Hin. cbn in Hb.
    exists tx, row. split; [done|]. split; [done|]. lia.
  - intros (tx & row & Hin & Htx & Hb). exists ((tx, lg_index log), row). split.
    + cbn [fst snd]. unfold eventKey. by rewrite Htx.
    + rewrite list_elem_of_In, filter_In, <- list_elem_of_In. split; [by apply elem_of_map_to_list|]. cbn. lia.
Qed.

(** The findings are missing transfers, and every missing transfer of the window
    is found. *)
Record findings_cover (options : TransferCoverageAuditOptions) (d : Db) (from to : Z) (on_chain : Log -> Prop)
    (findings : list IndexerAuditFinding) : Prop := {
  fe_sound : forall f, f ∈ findings -> exists log t names, audited log t /\ ~ indexed d from to log /\
    f = missing_transfer options names log t;
  fe_complete : forall log t, on_chain log -> from <= lg_block log <= to -> audited log t -> ~ indexed d from to log ->
    exists names, missing_transfer options names log t ∈ findings }.

(** One finding for every transfer of the window that is missing from [events],
    in some order, and no other. *)
Definition findings_exact (options : TransferCoverageAuditOptions) (d : Db) (from to : Z) (on_chain : Log -> Prop)
    (findings : list IndexerAuditFinding) : Prop := exists logs, NoDup logs /\
  (forall log, log ∈ logs <-> on_chain log /\ from <= lg_block log <= to /\ (exists t, audited log t) /\ ~ indexed d from to log) /\
  findings = omap (fun log => missing_transfer options (tk_name <$> tokens d) log <$> parseTransferLog log) logs.

(** The provider answers with logs of the chain in the range it is asked for,
    each once, also over the pages of a block: [rest] are the logs a cursor has
    still to give. *)
Record truthful_provider (on_chain : Log -> Prop) (address : jsstring) (topics : list (list jsstring)) : Prop := {
  tr_logs : forall t s e logs, getLogs t address topics s e = Ok logs ->
    NoDup logs /\ forall log, log ∈ logs -> on_chain log /\ s <= lg_block log <= e;
  tr_cursor : exists rest : Z -> Z -> option jsstring -> Log -> Prop,
    forall t s e c page next, getLogsWithCursor t address topics s e c = Ok (page, next) ->
      NoDup page /\ (forall log, log ∈ page -> rest s e c log /\ on_chain log /\ s <= lg_block log <= e) /\
      (forall c' log, truthy next = Some c' -> rest s e (Some c') log -> rest s e c log /\ log ∉ page) }.

Definition window_start (options : TransferCoverageAuditOptions) (auditBlock : Z) : Z :=
  Z.max 0 (auditBlock - co_lookbackBlocks options + 1).

Lemma omap_exact options d from to on_chain names keys logs :
  (forall log, eventKey (lg_tx log) (lg_index log) ∈ keys <-> indexed d from to log) ->
  (forall log, on_chain log -> from <= lg_block log <= to -> log ∈ logs) ->
  findings_cover options d from to on_chain (omap (missed options keys names) (merge_sort log_order logs)).
Proof using.
  intros Hk Hl. split.
  - intros f (log & Hin & Hm)%list_elem_of_omap. unfold missed in Hm. destruct (parseTransferLog log) as [t|] eqn:Ep; [|done].
    cbn in Hm. destruct (shouldSkipTokenId _) eqn:Es; [done|]. case_bool_decide as Hn; [done|]. injection Hm as <-.
    exists log, t, names. split; [done|]. split; [by rewrite <- Hk|done].
  - intros log t Hc Hb [Ep Es] Hn. exists names. apply list_elem_of_omap. exists log. split.
    + rewrite (merge_sort_Permutation log_order). by apply Hl.
    + unfold missed. rewrite Ep. cbn. rewrite Es, bool_decide_eq_false_2; [done|]. by rewrite Hk.
Qed.

(** *** What the provider gave *)

Section Truthful.
Context (on_chain : Log -> Prop) (address : jsstring) (topics : list (list jsstring)) (Htrue : truthful_provider on_chain address topics).

Definition fetched (s e : Z) (logs : list Log) : Prop := NoDup logs /\ forall log, log ∈ logs -> on_chain log /\ s <= lg_block log <= e.
Lemma cursor_fetched s e rest pages c acc w :
  (forall t s e c page next, getLogsWithCursor t address topics s e c = Ok (page, next) ->
     NoDup page /\ (forall log, log ∈ page -> rest s e c log /\ on_chain log /\ s <= lg_block log <= e) /\
     (forall c' log, truthy next = Some c' -> rest s e (Some c') log -> rest s e c log /\ log ∉ page)) ->
  fetched s e acc -> (forall log, log ∈ acc -> ~ rest s e c log) ->
  wp (cursor_loop pages (query_lane address topics) s e c acc) (fun logs _ => fetched s e logs) (fun _ _ => True) w.
Proof using.
  intros Hr. revert c acc w. induction pages as [|n IH]; intros c acc w Ha Hd; cbn [cursor_loop]; [by apply wp_throw|].
  apply wp_bind, wp_rpc; [|done]. intros [page next] Hpage. cbn [fst snd].
  destruct (Hr _ _ _ _ _ _ Hpage) as (Hn & Hin & Hnext). destruct Ha as [Ha Hb].
  assert (fetched s e (acc ++ page)) as Hf.
  { split.
    - apply NoDup_app. split_and!; [done| |done]. intros log Hl Hp. by apply (Hd log Hl), Hin.
    - intros log [Hl|Hl]%elem_of_app; [by apply Hb|by apply Hin]. }
  destruct (truthy next) as [c'|] eqn:En; [|by apply wp_ret]. apply IH; [done|].
  intros log [Hl|Hl]%elem_of_app Hrest; destruct (Hnext c' log eq_refl Hrest) as [H1 H2]; [by apply (Hd log)|done].
Qed.
Lemma split_fetched fuel s e w : wp (split_logs fuel address topics s e) (fun logs _ => fetched s e logs) (fun _ _ => True) w.
Proof using Htrue.
  revert s e w. induction fuel as [|f IH]; intros s e w; cbn [split_logs]; [by apply wp_throw|].
  apply wp_try, wp_rpc; [intros logs Hlogs; exact (tr_logs _ _ _ Htrue _ _ _ _ Hlogs)|].
  intros err _. destruct (negb _); [by apply wp_throw|]. destruct (Z.leb_spec e s) as [Hle|Hlt].
  - destruct (tr_cursor _ _ _ Htrue) as [rest Hr]. apply (cursor_fetched s e rest); [done| |by intros log ?%elem_of_nil].
    split; [apply NoDup_nil_2|by intros log ?%elem_of_nil].
  - apply wp_bind. eapply wp_conseq; [apply IH| |done]. intros l w1 [N1 H1]. apply wp_bind. eapply wp_conseq; [apply IH| |done].
    intros r w2 [N2 H2]. apply wp_ret. assert (s <= (s + e) / 2 < e) by (split; [apply Z.div_le_lower_bound|apply Z.div_lt_upper_bound]; lia).
    split.
    + apply NoDup_app. split_and!; [done| |done]. intros log Hl Hr. apply H1 in Hl as [_ ?]. apply H2 in Hr as [_ ?]. lia.
    + intros log [Hl|Hl]%elem_of_app; [apply H1 in Hl as [? ?]|apply H2 in Hl as [? ?]]; (split; [done|lia]).
Qed.
End Truthful.

(** The logs a run reports. *)
Definition reports (keys : gset jsstring) (log : Log) : bool := checks log && negb (bool_decide (eventKey (lg_tx log) (lg_index log) ∈ keys)).
Lemma missed_reports options keys names logs :
  omap (missed options keys names) logs =
  omap (fun log => missing_transfer options names log <$> parseTransferLog log) (List.filter (reports keys) logs).
Proof using.
  induction logs as [|log logs IH]; [done|]. cbn [omap list_omap List.filter]. unfold missed at 1, reports at 1, checks at 1.
  destruct (parseTransferLog log) as [t|] eqn:Ep; cbn; [|exact IH]. destruct (shouldSkipTokenId (pt_tokenId t)); cbn; [exact IH|].
  case_bool_decide; cbn; [exact IH|]. rewrite Ep. cbn. by rewrite IH.
Qed.
Lemma reports_exact options d from to on_chain keys logs :
  (forall log, eventKey (lg_tx log) (lg_index log) ∈ keys <-> indexed d from to log) ->
  (forall log, on_chain log -> from <= lg_block log <= to -> log ∈ logs) -> fetched on_chain from to logs ->
  findings_exact options d from to on_chain (omap (missed options keys (tk_name <$> tokens d)) (merge_sort log_order logs)).
Proof using.
  intros Hk Hc [Hn Hf]. exists (List.filter (reports keys) (merge_sort log_order logs)). split_and!; [| |apply missed_reports].
  - apply base.NoDup_ListNoDup, List.NoDup_filter, base.NoDup_ListNoDup. by rewrite (merge_sort_Permutation log_order).
  - intros log. rewrite list_elem_of_In, filter_In, <- list_elem_of_In, (merge_sort_Permutation log_order).
    unfold reports, checks. rewrite andb_true_iff, negb_true_iff, bool_decide_eq_false, Hk. split.
    + intros (Hl & Ht & Hi). destruct (Hf log Hl) as [Ho Hb]. split_and!; [done|lia|lia| |done].
      destruct (parseTransferLog log) as [t|] eqn:Ep; [|done]. exists t. split; [done|]. by apply negb_true_iff.
    + intros (Ho & Hb & [t [Ep Es]] & Hi). split_and!; [by apply Hc|by rewrite Ep, Es|done].
Qed.

Context (on_chain : Log -> Prop) (hub transferTopic : jsstring).
Context (Hhonest : honest_provider on_chain (query_lane hub [[transferTopic]])).

Lemma logs_complete from to w : from <= to ->
  wp (getLogsWithSplitForFilter hub [[transferTopic]] from to)
     (fun logs w' => w_db w' = w_db w /\ forall log, on_chain log -> from <= lg_block log <= to -> log ∈ logs)
     (fun _ w' => w_db w' = w_db w) w.
Proof using Hhonest.
  intros Hle. unfold getLogsWithSplitForFilter, getTransferLogsWithSplit.
  apply (split_complete on_chain hub [[transferTopic]] Hhonest); lia.
Qed.
(** An empty window is asked for once. *)
Lemma logs_empty from to w : to < from ->
  wp (getLogsWithSplitForFilter hub [[transferTopic]] from to) (fun _ w' => w_db w' = w_db w) (fun _ w' => w_db w' = w_db w) w.
Proof using.
  intros Hlt. assert (keeps eq (getLogsWithSplitForFilter hub [[transferTopic]] from to)) as H; [|].
  2: { specialize (H w). eapply wp_conseq; [exact H|intros; cbn in *; congruence..]. }
  unfold getLogsWithSplitForFilter, getTransferLogsWithSplit. generalize (S (Z.to_nat (to - from))). clear.
  intros fuel. revert from to. induction fuel as [|f IH]; intros from to; cbn [split_logs]; [apply keeps_throw; typeclasses eauto|].
  apply keeps_try; [typeclasses eauto|apply keeps_rpc; typeclasses eauto|]. intros e.
  destruct (negb _); [apply keeps_throw; typeclasses eauto|]. destruct (to <=? from).
  - unfold fetchLogsWithCursor. generalize (@None jsstring) (@nil Log). induction cursor_pages as [|n IHn]; intros c acc; cbn [cursor_loop];
      [apply keeps_throw; typeclasses eauto|]. apply keeps_bind; [typeclasses eauto|apply keeps_rpc; typeclasses eauto|].
    intros [page next]. cbn [fst snd]. destruct (truthy next); [apply IHn|apply keeps_ret; typeclasses eauto].
  - apply keeps_bind; [typeclasses eauto|apply IH|]. intros l. apply keeps_bind; [typeclasses eauto|apply IH|]. intros r.
    apply keeps_ret; typeclasses eauto.
Qed.

(** What the provider gives is also what the chain has, when it is truthful. *)
Lemma logs_with_truth from to w (R : list Log -> Prop) (E : string -> World -> Prop) w0 :
  wp (getLogsWithSplitForFilter hub [[transferTopic]] from to) (fun logs w' => w_db w' = w_db w0 /\ R logs) E w ->
  wp (getLogsWithSplitForFilter hub [[transferTopic]] from to)
     (fun logs w' => w_db w' = w_db w0 /\ R logs /\ (truthful_provider on_chain hub [[transferTopic]] -> fetched on_chain from to logs)) E w.
Proof using.
  intros H. unfold wp in *. destruct (getLogsWithSplitForFilter hub [[transferTopic]] from to w) as [[logs|e] w'] eqn:Eg; [|done].
  destruct H as [H1 H2]. split_and!; [done|done|]. intros Ht.
  pose proof (split_fetched on_chain hub [[transferTopic]] Ht (S (Z.to_nat (to - from))) from to w) as Hs.
  unfold wp in Hs. unfold getLogsWithSplitForFilter, getTransferLogsWithSplit in Eg. by rewrite Eg in Hs.
Qed.

Lemma getAuditBlock_spec override w :
  wp (getAuditBlock override) (fun b w' => w_db w' = w_db w /\ (override = None -> 0 <= b))
     (fun _ w' => w_db w' = w_db w) w.
Proof using.
  unfold getAuditBlock. destruct override as [b|]; [by apply wp_ret|]. apply wp_bind. unfold getMeta, query.
  apply wp_sql; [|done..]. cbn. destruct (Number <$> _) as [[| |z|]|]; try by apply wp_throw.
  destruct (Z.ltb_spec z 0); [by apply wp_throw|]. apply wp_ret. split; [done|]. intros _. lia.
Qed.

Lemma coverage_spec options w :
  wp (transfer_coverage_audit hub transferTopic options)
     (fun r w' => w_db w' = w_db w /\
        findings_cover options (w_db w) (window_start options (au_auditBlock r)) (au_auditBlock r) on_chain (au_findings r) /\
        (length (au_findings r) <= Z.to_nat (au_checkedCount r))%nat /\ 0 <= au_checkedCount r /\
        (truthful_provider on_chain hub [[transferTopic]] ->
           findings_exact options (w_db w) (window_start options (au_auditBlock r)) (au_auditBlock r) on_chain (au_findings r)))
     (fun _ w' => w_db w' = w_db w) w.
Proof using Hhonest.
  unfold transfer_coverage_audit. apply wp_bind. eapply wp_conseq; [apply getAuditBlock_spec| |done].
  intros b w1 [E1 _]. apply wp_bind.
  apply (wp_conseq _ (fun _ w' => w_db w' = w_db w) _ (fun _ w' => w_db w' = w_db w)); [| |done].
  { destruct (co_latestChainBlock options); [by apply wp_ret|]. by apply wp_rpc. }
  intros latest w2 E2. fold (window_start options b). set (from := window_start options b). apply wp_bind.
  apply (wp_conseq _ (fun logs w' => w_db w' = w_db w /\
    (forall log, on_chain log -> from <= lg_block log <= b -> log ∈ logs) /\
    (truthful_provider on_chain hub [[transferTopic]] -> fetched on_chain from b logs)) _ (fun _ w' => w_db w' = w_db w)); [| |done].
  { apply logs_with_truth. destruct (Z.le_gt_cases from b) as [Hle|Hgt].
    - eapply wp_conseq; [by apply logs_complete|by intros logs w3 [-> H]|by intros e w3 ->].
    - eapply wp_conseq; [by apply logs_empty|intros logs w3 ->; split; [done|lia]|by intros e w3 ->]. }
  intros logs w3 (E3 & Hl & Hf). apply wp_bind. unfold getIndexedEventKeys, query. apply wp_sql; [|done..]. cbn [fst snd].
  apply wp_bind. unfold getTokenNames, query. apply wp_sql; [|done..]. cbn [fst snd w_db advance].
  rewrite audit_fold. apply wp_ret. cbn [au_auditBlock au_findings au_checkedCount w_db advance app]. rewrite E3. split; [done|]. split.
  - apply omap_exact; [|done]. intros log. apply indexed_key.
  - split_and!; [|lia|intros Ht; apply reports_exact; [intros log; apply indexed_key|done|by apply Hf]]. rewrite Z.add_0_l, Nat2Z.id. set (sorted := merge_sort log_order logs).
    clear. induction sorted as [|log l IH]; cbn; [lia|]. unfold missed at 1, checks at 1. destruct (parseTransferLog log); cbn; [|done].
    destruct (shouldSkipTokenId _); cbn; [done|]. case_bool_decide; cbn; lia.
Qed.
End Findings.

(** ** The record of a run *)

Section Recorded.
Context `{F : Faults, K : Clock}.

(** The findings [fs] of a run are appended to the table. *)
Record appended (runId : Z) (fs : list IndexerAuditFinding) (t t' : AuditTables) : Prop := {
  ap_runs : at_runs t' = at_runs t;
  ap_next_run : at_next_run t' = at_next_run t;
  ap_next_finding : at_next_finding t' = at_next_finding t + Z.of_nat (length fs);
  ap_new : forall i f, fs !! i = Some f -> at_findings t' !! (at_next_finding t + Z.of_nat i) = Some (finding_row runId f);
  ap_old : forall id, id < at_next_finding t \/ at_next_finding t' <= id -> at_findings t' !! id = at_findings t !! id }.

Lemma appended_nil runId t : appended runId [] t t.
Proof using. split; cbn; [done|done|lia|done|done]. Qed.
Lemma appended_cons runId f fs t t' :
  appended runId fs {| at_runs := at_runs t; at_findings := <[at_next_finding t := finding_row runId f]> (at_findings t);
    at_next_run := at_next_run t; at_next_finding := at_next_finding t + 1 |} t' -> appended runId (f :: fs) t t'.
Proof using.
  intros [H1 H2 H3 H4 H5]. cbn in *. split; cbn; [done|done|lia| |].
  - intros [|i] g Hg; cbn in Hg.
    + injection Hg as <-. rewrite H5 by lia. rewrite Z.add_0_r. apply lookup_insert_eq.
    + specialize (H4 i g Hg). rewrite <- H4. f_equal. lia.
  - intros id Hid. rewrite H5 by lia. apply lookup_insert_ne. lia.
Qed.

Lemma insert_findings_spec runId fs s :
  awp (insertAuditFindings runId fs)
    (fun _ s' => w_db (aw_world s') = w_db (aw_world s) /\ (w_time (aw_world s) <= w_time (aw_world s'))%nat /\
                 appended runId fs (aw_tables s) (aw_tables s'))
    (fun _ s' => w_db (aw_world s') = w_db (aw_world s) /\ (w_time (aw_world s) <= w_time (aw_world s'))%nat /\
                 exists k, appended runId (take k fs) (aw_tables s) (aw_tables s')) s.
Proof using.
  revert s. induction fs as [|f fs IH]; intros s; [apply awp_ret; split_and!; [done|done|apply appended_nil]|].
  unfold insertAuditFindings. cbn [forA]. apply awp_bind, awp_sql; cbn [fst snd].
  - eapply awp_conseq; [apply IH| |]; cbn; intros ? s' (Hd & Ht & H); split_and!; [done|lia| |done|lia|].
    + by apply appended_cons.
    + destruct H as [k H]. exists (S k). cbn. by apply appended_cons.
  - intros e b t _ [->| ->]; cbn; split_and!; [done|lia| |done|lia|].
    + exists 1%nat. cbn. apply appended_cons, appended_nil.
    + exists O. apply appended_nil.
Qed.

(** The row of a run that ended. *)
Definition ended_row (kind : IndexerAuditKind) (started now : Z) (input : RunCompletion) : AuditRunRow :=
  complete_row now input (new_run kind started).

(** Apart from the run [id], the runs are those of [t]. *)
Definition other_runs (id : Z) (t t' : AuditTables) : Prop :=
  at_next_run t' = id + 1 /\ forall i, i <> id -> at_runs t' !! i = at_runs t !! i.

Lemma complete_spec id input row s (Q : unit -> AuditWorld -> Prop) (E : string -> AuditWorld -> Prop) :
  at_runs (aw_tables s) !! id = Some row ->
  (forall t, at_findings t = at_findings (aw_tables s) -> at_next_finding t = at_next_finding (aw_tables s) ->
     at_runs t !! id = Some (complete_row (clock_ms (w_time (aw_world s))) input row) ->
     (forall i, i <> id -> at_runs t !! i = at_runs (aw_tables s) !! i) ->
     at_next_run t = at_next_run (aw_tables s) -> Q tt (in_tables s t)) ->
  (forall e b t, sql_fault (w_time (aw_world s)) = Some (e, b) ->
     (exists row', at_runs t !! id = Some row' /\ ar_kind row' = ar_kind row /\ ar_started_at row' = ar_started_at row) ->
     (forall i, i <> id -> at_runs t !! i = at_runs (aw_tables s) !! i) ->
     at_next_run t = at_next_run (aw_tables s) -> E e (in_tables s t)) ->
  awp (completeAuditRun id input) Q E s.
Proof using.
  intros Hrow HQ HE. unfold completeAuditRun. apply awp_bind, awp_now, awp_sql; cbn [fst snd].
  - apply HQ; cbn; [done|done|by rewrite lookup_alter_eq, Hrow| |done]. intros i Hi. by rewrite lookup_alter_ne.
  - intros e b t Hf [->| ->]; (eapply HE; [done|..]); cbn; try done.
    + rewrite lookup_alter_eq, Hrow. eexists. split; [done|done].
    + intros i Hi. by rewrite lookup_alter_ne.
    + eauto.
Qed.

Lemma complete_row_same now input row row' :
  ar_kind row' = ar_kind row -> ar_started_at row' = ar_started_at row ->
  complete_row now input row' = complete_row now input row.
Proof using. intros H1 H2. unfold complete_row. by rewrite H1, H2. Qed.

Context (kind : IndexerAuditKind) (run : M AuditResult) (R : AuditResult -> Db -> Prop).
Context (Hrun : forall w, wp run (fun r w' => w_db w' = w_db w /\ R r (w_db w)) (fun _ w' => w_db w' = w_db w) w).

Definition success (r : AuditResult) : RunCompletion := {|
  rcn_auditBlock := Some (au_auditBlock r); rcn_checkedCount := au_checkedCount r;
  rcn_confirmedCount := Z.of_nat (length (List.filter is_confirmed (au_findings r))); rcn_error := None;
  rcn_latestChainBlock := Some (au_latestChainBlock r); rcn_status := RunSucceeded |}.
Definition failure (e : string) : RunCompletion := {|
  rcn_auditBlock := None; rcn_checkedCount := 0; rcn_confirmedCount := 0; rcn_error := Some e;
  rcn_latestChainBlock := None; rcn_status := RunFailed |}.

(** The tables after a run that returned [r]. *)
Record recorded (s : AuditWorld) (r : AuditResult) (t' : AuditTables) : Prop := {
  rd_others : other_runs (at_next_run (aw_tables s)) (aw_tables s) t';
  rd_row : exists now, at_runs t' !! at_next_run (aw_tables s) =
    Some (ended_row kind (clock_ms (w_time (aw_world s))) now (success r));
  rd_findings : exists t, appended (at_next_run (aw_tables s)) (au_findings r) t t' /\
    at_findings t = at_findings (aw_tables s) /\ at_next_finding t = at_next_finding (aw_tables s) }.

(** The tables after a run that failed with [e]. *)
Definition failed_run (s : AuditWorld) (e : string) (t' : AuditTables) : Prop :=
  other_runs (at_next_run (aw_tables s)) (aw_tables s) t' /\
  exists now, at_runs t' !! at_next_run (aw_tables s) =
    Some (ended_row kind (clock_ms (w_time (aw_world s))) now (failure e)).

(** The run is in the table and nothing else of the runs changed. *)
Definition run_open (s : AuditWorld) (t : AuditTables) : Prop :=
  other_runs (at_next_run (aw_tables s)) (aw_tables s) t /\
  exists row, at_runs t !! at_next_run (aw_tables s) = Some row /\ ar_kind row = kind /\
              ar_started_at row = clock_ms (w_time (aw_world s)).

Lemma fail_spec s0 e s : run_open s0 (aw_tables s) -> w_db (aw_world s) = w_db (aw_world s0) ->
  awp (_ ← completeAuditRun (at_next_run (aw_tables s0)) (failure e); throwA (A := AuditResult * Z * Z) e)
    (fun _ _ => False)
    (fun e s' => w_db (aw_world s') = w_db (aw_world s0) /\
       (sql_fault (pred (w_time (aw_world s'))) = None -> failed_run s0 e (aw_tables s'))) s.
Proof using.
  intros [[Hn Ho] (row & Hrow & Hk & Hs)] Hd. apply awp_bind. eapply complete_spec; [done| |].
  - intros t _ _ Ht Hot Hnt. apply awp_throw. split; [done|]. intros _. split; [split; [cbn; congruence|]|].
    + intros i Hi. cbn. rewrite Hot, Ho; done.
    + exists (clock_ms (w_time (aw_world s))). cbn. rewrite Ht. unfold ended_row. f_equal. by apply complete_row_same.
  - intros err b t Hf _ _ _. split; [done|]. cbn. by rewrite Hf.
Qed.

Lemma withAuditRun_spec s :
  awp (withAuditRun kind run)
    (fun x s' => w_db (aw_world s') = w_db (aw_world s) /\ R x.1.1 (w_db (aw_world s)) /\
       x.2 = at_next_run (aw_tables s) /\ x.1.2 = rcn_confirmedCount (success x.1.1) /\ recorded s x.1.1 (aw_tables s'))
    (fun e s' => w_db (aw_world s') = w_db (aw_world s) /\
       (sql_fault (pred (w_time (aw_world s'))) = None -> failed_run s e (aw_tables s'))) s.
Proof using Hrun.
  unfold withAuditRun. apply awp_bind. unfold insertAuditRun. apply awp_bind, awp_now, awp_sql; cbn [fst snd].
  2: { intros e b t Hf _. split; [done|]. cbn. by rewrite Hf. }
  set (id := at_next_run (aw_tables s)). set (t0 := {| at_runs := _ |}).
  assert (run_open s t0) as H0.
  { split; [split; [done|intros i Hi; by apply lookup_insert_ne]|]. eexists. split; [apply lookup_insert_eq|done]. }
  apply awp_try, awp_bind, awp_lift. cbn [aw_world in_tables].
  eapply wp_conseq; [apply Hrun| |].
  2: { intros e w1 Hw1. apply (awp_conseq _ (fun _ _ => False) _ (fun e s' => w_db (aw_world s') = w_db (aw_world s) /\
         (sql_fault (pred (w_time (aw_world s'))) = None -> failed_run s e (aw_tables s')))); [by apply (fail_spec s e)|done|done]. }
  intros r w1 [Hw1 HR]. cbn in Hw1, HR. apply awp_bind. eapply awp_conseq; [apply insert_findings_spec| |]; cbn [aw_world aw_tables in_world in_tables].
  - intros [] s1 (Hd1 & _ & Hap). pose proof Hap as [A1 A2 _ _ _]. cbn in Hd1. apply awp_bind.
    destruct H0 as [[Hn Ho] (row & Hrow & Hk & Hs)].
    apply (complete_spec id (success r) row); [by rewrite A1| |].
    + intros t T1 T2 T3 T4 T5. apply awp_ret. cbn [fst snd]. split_and!; [cbn; congruence|done|done|done|].
      split.
      * split; [cbn; congruence|]. intros i Hi. cbn. rewrite T4, A1, Ho; done.
      * exists (clock_ms (w_time (aw_world s1))). etrans; [exact T3|]. unfold ended_row. f_equal. by apply complete_row_same.
      * exists {| at_runs := at_runs t; at_findings := at_findings t0; at_next_run := at_next_run t;
                  at_next_finding := at_next_finding t0 |}. split; [|done].
        destruct Hap as [_ _ B3 B4 B5]. cbn. split; cbn; [done|done|by rewrite T2|..].
        -- intros i f Hf. rewrite T1. by apply B4.
        -- intros i Hi. rewrite T1. apply B5. cbn. rewrite <- T2. exact Hi.
    + intros e b t Hf (row' & R1 & R2 & R3) T4 T5.
      apply (awp_conseq _ (fun _ _ => False) _ (fun e s' => w_db (aw_world s') = w_db (aw_world s) /\
         (sql_fault (pred (w_time (aw_world s'))) = None -> failed_run s e (aw_tables s')))); [|done|done].
      apply (fail_spec s e); [|cbn; congruence]. split; [split; [cbn; congruence|]|].
      * intros i Hi. cbn. rewrite T4, A1, Ho; done.
      * exists row'. cbn. split_and!; [done|congruence|congruence].
  - intros e s1 (Hd1 & _ & k & Hap). pose proof Hap as [A1 A2 _ _ _]. cbn in Hd1.
    apply (awp_conseq _ (fun _ _ => False) _ (fun e s' => w_db (aw_world s') = w_db (aw_world s) /\
       (sql_fault (pred (w_time (aw_world s'))) = None -> failed_run s e (aw_tables s')))); [|done|done].
    apply (fail_spec s e); [|congruence]. destruct H0 as [[Hn Ho] Hrow]. split; [split; [congruence|]|].
    + intros i Hi. rewrite A1, Ho; done.
    + by rewrite A1.
Qed.
End Recorded.

(** ** The latest run *)

Lemma head_merge_sort {A} (R : A -> A -> Prop) `{!forall x y, Decision (R x y), !Total R, !Transitive R} x l :
  x ∈ l -> (forall y, y ∈ l -> R y x -> y = x) -> head (merge_sort R l) = Some x.
Proof.
  intros Hx Hy. pose proof (StronglySorted_merge_sort R l) as Hs. pose proof (merge_sort_Permutation R l) as Hp.
  destruct (merge_sort R l) as [|h rest]; [by rewrite <- Hp in Hx; apply elem_of_nil in Hx|]. cbn. f_equal.
  rewrite <- Hp in Hx. apply elem_of_cons in Hx as [->|Hx]; [done|].
  apply StronglySorted_inv in Hs as [_ Hs]. rewrite Forall_forall in Hs. apply Hy; [rewrite <- Hp; left|by apply Hs].
Qed.
#[export] Instance run_order_total key : Total (run_order key).
Proof. intros p q. unfold run_order. lia. Qed.
#[export] Instance run_order_trans key : Transitive (run_order key).
Proof. intros p q r. unfold run_order. lia. Qed.

Section Latest.
Context `{F : Faults, K : Clock}.

(** Ids come from the sequence, and no run starts in the future. *)
Record audit_wf (s : AuditWorld) : Prop := {
  wf_runs : forall id row, at_runs (aw_tables s) !! id = Some row ->
    id < at_next_run (aw_tables s) /\ ar_started_at row <= clock_ms (w_time (aw_world s));
  wf_findings : forall id row, at_findings (aw_tables s) !! id = Some row ->
    id < at_next_finding (aw_tables s) /\ fr_run_id row < at_next_run (aw_tables s) }.

Lemma latest_is_new s t' row : audit_wf s -> other_runs (at_next_run (aw_tables s)) (aw_tables s) t' ->
  at_runs t' !! at_next_run (aw_tables s) = Some row -> ar_started_at row = clock_ms (w_time (aw_world s)) ->
  latest_run t' (ar_kind row) = Some (at_next_run (aw_tables s), row).
Proof using.
  intros [Hw _] [_ Ho] Hrow Hs. unfold latest_run. apply (head_merge_sort (run_order ar_started_at)).
  - rewrite list_elem_of_In, filter_In, <- list_elem_of_In. split; [by apply elem_of_map_to_list|].
    unfold of_kind. by apply bool_decide_eq_true.
  - intros [id r]. rewrite list_elem_of_In, filter_In, <- list_elem_of_In. intros [Hin%elem_of_map_to_list _] Hle.
    destruct (decide (id = at_next_run (aw_tables s))) as [->|Hne]; [f_equal; congruence|].
    rewrite Ho in Hin by done. destruct (Hw id r Hin) as [H1 H2]. unfold run_order in Hle. cbn in Hle. lia.
Qed.

Lemma ended_started kind started now input : ar_started_at (ended_row kind started now input) = started.
Proof using. done. Qed.
Lemma latest_recorded kind s r t' : audit_wf s -> recorded kind s r t' -> exists now,
  latest_run t' kind = Some (at_next_run (aw_tables s), ended_row kind (clock_ms (w_time (aw_world s))) now (success r)).
Proof using. intros Hw [Ho [now Hr] _]. exists now. exact (latest_is_new s t' _ Hw Ho Hr eq_refl). Qed.
Lemma latest_failed kind s e t' : audit_wf s -> failed_run kind s e t' -> exists now,
  latest_run t' kind = Some (at_next_run (aw_tables s), ended_row kind (clock_ms (w_time (aw_world s))) now (failure e)).
Proof using. intros Hw [Ho [now Hr]]. exists now. exact (latest_is_new s t' _ Hw Ho Hr eq_refl). Qed.

(** ** Audit health *)

(** The runs that make the audit unhealthy by their findings. *)
Definition exceeds (options : IndexerAuditHealthOptions) (t : AuditTables) (kind : IndexerAuditKind) : Prop :=
  let n := Z.max 1 (ho_consecutiveFailures options) in
  n <= Z.of_nat (length (completed_runs t kind n)) /\
  forall p, p ∈ completed_runs t kind n -> Z.max 1 (ho_failureThreshold options) <= ar_confirmed_count p.2.

(** When the latest run of the kind is reported as healthy at [now]. *)
Definition kind_healthy (options : IndexerAuditHealthOptions) (t : AuditTables) (now : Z) (kind : IndexerAuditKind) : Prop :=
  match latest_run t kind with
  | None => True
  | Some (_, row) =>
      ar_status row <> RunFailed /\
      (ar_status row = RunRunning -> now - ar_started_at row <= Z.max 1 (ho_maxAgeMs options)) /\
      (forall c, ar_completed_at row = Some c -> now - c <= Z.max 1 (ho_maxAgeMs options)) /\
      ~ exceeds options t kind
  end.

Lemma verdict_spec maxAge now p :
  (run_verdict maxAge now (normalizeRun p)).1.1 = true <->
  ar_status p.2 <> RunFailed /\ (ar_status p.2 = RunRunning -> now - ar_started_at p.2 <= maxAge) /\
  (forall c, ar_completed_at p.2 = Some c -> now - c <= maxAge).
Proof using.
  unfold run_verdict. cbn. case_bool_decide as Hf; [split; [done|by intros [? _]]|].
  destruct (bool_decide (ar_status p.2 = RunRunning)) eqn:Hr; cbn.
  - apply bool_decide_eq_true in Hr. destruct (Z.ltb_spec maxAge (now - ar_started_at p.2)); cbn.
    + split; [done|]. intros (_ & H1 & _). specialize (H1 Hr). lia.
    + destruct (ar_completed_at p.2) as [c|]; [|cbn; split; [intros _; split_and!; done|done]].
      destruct (Z.ltb_spec maxAge (now - c)); cbn; split; try done.
      * intros (_ & _ & H1). specialize (H1 c eq_refl). lia.
      * intros _. split_and!; [done|done|]. by intros c' [= <-].
  - apply bool_decide_eq_false in Hr. destruct (ar_completed_at p.2) as [c|]; [|cbn; split; [intros _; split_and!; done|done]].
    destruct (Z.ltb_spec maxAge (now - c)); cbn; split; try done.
    + intros (_ & _ & H1). specialize (H1 c eq_refl). lia.
    + intros _. split_and!; [done|done|]. by intros c' [= <-].
Qed.

Lemma exceeds_spec options t kind :
  (Z.max 1 (ho_consecutiveFailures options) <=?
     (if (Z.max 1 (ho_consecutiveFailures options) <=?
           Z.of_nat (length (normalizeRun <$> completed_runs t kind (Z.max 1 (ho_consecutiveFailures options))))) &&
         forallb (fun run => Z.max 1 (ho_failureThreshold options) <=? rsm_confirmedCount run)
           (normalizeRun <$> completed_runs t kind (Z.max 1 (ho_consecutiveFailures options)))
      then Z.max 1 (ho_consecutiveFailures options) else 0)) = true <-> exceeds options t kind.
Proof using.
  unfold exceeds. set (n := Z.max 1 (ho_consecutiveFailures options)). set (rs := completed_runs t kind n).
  rewrite length_fmap. destruct (Z.leb_spec n (Z.of_nat (length rs))); cbn.
  2: { split; [|lia]. intros H1%Z.leb_le. lia. }
  destruct (forallb _ (normalizeRun <$> rs)) eqn:Ef.
  - split; [|intros _; by apply Z.leb_refl]. intros _. split; [done|]. intros p Hp. rewrite forallb_forall in Ef.
    apply Z.leb_le. apply (Ef (normalizeRun p)). apply list_elem_of_In. by apply list_elem_of_fmap_2.
  - split; [intros H1%Z.leb_le; lia|]. intros [_ H1]. exfalso. apply not_true_iff_false in Ef. apply Ef, forallb_forall.
    intros x Hx%list_elem_of_In. apply list_elem_of_fmap in Hx as (p & -> & Hp). apply Z.leb_le. by apply H1.
Qed.

Definition health_now (options : IndexerAuditHealthOptions) (s : AuditWorld) : Z :=
  default (clock_ms (w_time (aw_world s))) (ho_now options).

Lemma health_spec options s :
  awp (getIndexerAuditHealth options)
    (fun h s' => w_db (aw_world s') = w_db (aw_world s) /\ aw_tables s' = aw_tables s /\
       (ah_ok h = true <-> kind_healthy options (aw_tables s) (health_now options s) KTransferCoverage))
    (fun _ s' => aw_tables s' = aw_tables s /\ w_db (aw_world s') = w_db (aw_world s) /\
       exists n, is_Some (sql_fault n)) s.
Proof using.
  unfold getIndexerAuditHealth, health_now. set (now := default _ _). apply awp_bind.
  apply (awp_conseq _ (fun n s' => n = now /\ s' = s) _ (fun _ _ => False)); [|intros n s' [-> ->]|done].
  { unfold now. destruct (ho_now options); [by apply awp_ret|by apply awp_now]. }
  apply awp_bind, awp_query; [|intros e b Hf; split_and!; [done|done|by eexists _, _]]. cbn [INDEXER_AUDIT_KINDS mapA omap list_omap].
  unfold kind_healthy.
  destruct (latest_run (aw_tables s) KTransferCoverage) as [p|] eqn:El; cbn [fmap list_fmap].
  2: { apply awp_bind, awp_bind, awp_ret, awp_ret. cbn. split_and!; [done|done|done]. }
  apply awp_bind, awp_bind. unfold kind_health. cbn [List.find].
  replace (bool_decide (rsm_kind (normalizeRun p) = KTransferCoverage)) with true
    by (symmetry; apply bool_decide_eq_true; by destruct (rsm_kind (normalizeRun p))).
  destruct (run_verdict _ _ _) as [[ok why] status] eqn:Ev. apply awp_bind, awp_query.
  2: { intros e b Hf. split_and!; [done|done|by eexists _, _]. }
  apply awp_ret, awp_bind, awp_ret, awp_ret. cbn [fst snd aw_tables in_tables aw_world w_db advance ah_ok forallb kh_ok].
  split_and!; [done|done|]. destruct p as [id row]. pose proof (verdict_spec (Z.max 1 (ho_maxAgeMs options)) now (id, row)) as Hv.
  rewrite Ev in Hv. cbn [fst snd] in Hv. pose proof (exceeds_spec options (aw_tables s) KTransferCoverage) as Hx.
  cbn [ah_ok]. revert Hx. match goal with |- (?e = true <-> _) -> _ => set (b := e) end. clearbody b. intros Hx.
  rewrite andb_true_r. clear -Hv Hx. destruct ok, b; cbn; naive_solver.
Qed.
End Latest.

(** ** The report *)

Lemma cap_loop_reason fuel maxRange range from : Forall (fun r => reason r = reason range /\ findingCount r = findingCount range)
  (cap_loop fuel maxRange range from).
Proof.
  revert from. induction fuel as [|f IH]; intros from; cbn; [constructor|]. destruct (from <=? toBlock range); [|constructor].
  constructor; [done|apply IH].
Qed.

(** The ranges suggested for one block. *)
Lemma one_block_ranges b maxRange padding : 0 <= b ->
  let rs := buildSuggestedReplayRanges [JInt b] maxRange padding transfer_coverage in
  covered_by b rs /\
  Forall (fun r => reason r = transfer_coverage /\ findingCount r = 1 /\ 0 <= fromBlock r <= toBlock r /\
                   toBlock r <= b + Z.max 0 padding) rs.
Proof.
  intros Hb rs. set (range := padded_range (Z.max 0 padding) transfer_coverage b).
  assert (rs = cap_range (Z.max 1 maxRange) range) as ->.
  { unfold rs, buildSuggestedReplayRanges. cbn [omap list_omap valid_block]. rewrite (proj2 (Z.leb_le 0 b) Hb).
    cbn. by rewrite app_nil_r. }
  destruct (cap_range_spec (Z.max 1 maxRange) range b ltac:(lia)) as (H1 & H2 & _). split.
  - apply H1. unfold within, range. cbn. lia.
  - rewrite Forall_forall in H2 |- *. intros r Hr. specialize (H2 r Hr).
    pose proof (cap_loop_reason (Z.to_nat (toBlock range - fromBlock range + 1)) (Z.max 1 maxRange) range (fromBlock range)) as H3.
    rewrite Forall_forall in H3. specialize (H3 r Hr) as [-> ->]. cbn in H2. split_and!; try done; lia.
Qed.

Lemma json_value_object n r v r2 : json_value (S n) (123 :: r) = Some (v, r2) -> exists fields, v = JObj fields.
Proof.
  cbn [json_value]. cbn [Z.eqb Pos.eqb]. destruct (json_members n r) as [[l r']|]; cbn [mbind option_bind];
    repeat case_match; intros [=]; subst; eauto.
Qed.
Lemma parse_object r v : JSON_parse (123 :: r) = Ok v -> exists fields, v = JObj fields.
Proof.
  unfold JSON_parse. change (skip_ws (123 :: r)) with (123 :: r).
  destruct (json_value _ _) as [[w r2]|] eqn:E; [|done]. apply json_value_object in E as [fields ->].
  cbn. destruct (bool_decide _); cbn; [intros [= <-]; eauto|done].
Qed.

Section Report.
Context `{F : Faults, C : Chain, LP : LogProvider, RE : ReplayEnv, K : Clock}.

(** The details of the finding are printed without loss. *)
Definition printable (options : TransferCoverageAuditOptions) (log : Log) (t : ParsedTransferLog) : Prop :=
  Forall code_unit (toLowerCase (pt_from t)) /\ Forall code_unit (toLowerCase (pt_operator t)) /\
  Forall code_unit (toLowerCase (pt_to t)) /\ 0 <= lg_block log /\
  lg_block log + Z.max 0 (co_replayPaddingBlocks options) <= 2 ^ 53.

Lemma toString10_units n : Forall code_unit (toString10 n).
Proof using.
  assert (forall m, 0 <= m -> Forall code_unit (toString10 m)) as Hpos.
  { intros m Hm. destruct (digits_of_toString10 m Hm) as [Hd _]. eapply Forall_impl; [exact Hd|]. intros c Hc.
    unfold is_digit, in_range in Hc. unfold code_unit. lia. }
  destruct (Z.le_gt_cases 0 n) as [Hn|Hn]; [by apply Hpos|]. specialize (Hpos (- n) ltac:(lia)).
  unfold toString10 in *. rewrite (proj2 (Z.eqb_neq n 0)), (proj2 (Z.ltb_lt n 0)) by lia.
  rewrite (proj2 (Z.eqb_neq (- n) 0)), (proj2 (Z.ltb_ge (- n) 0)) in Hpos by lia. constructor; [unfold code_unit; lia|done].
Qed.

Ltac closed_units := apply Forall_forall; intros c Hc; vm_compute in Hc;
  repeat (apply elem_of_cons in Hc as [->|Hc]; [unfold code_unit; lia|]); by apply elem_of_nil in Hc.
Ltac closed_nodup := apply (bool_decide_unpack _); vm_compute; exact I.

Lemma details_wf options log t : printable options log t -> json_wf (finding_details options log t).
Proof using.
  intros (H1 & H2 & H3 & H4 & H5). unfold finding_details. constructor; [closed_nodup|].
  repeat (apply List.Forall_cons; [split; [closed_units|]|]); [..|apply List.Forall_nil].
  - constructor. apply toString10_units.
  - by constructor.
  - by constructor.
  - constructor. apply Forall_fmap.
    destruct (one_block_ranges (lg_block log) (co_maxReplayRange options) (co_replayPaddingBlocks options) H4) as [_ Hr].
    eapply Forall_impl; [exact Hr|]. intros r (E1 & E2 & E3 & E4). cbn. unfold range_json. constructor; [closed_nodup|].
    rewrite E1, E2. repeat (apply List.Forall_cons; [split; [closed_units|]|]); [..|apply List.Forall_nil].
    + constructor. lia.
    + constructor. lia.
    + constructor. closed_units.
    + constructor. lia.
  - by constructor.
Qed.

Lemma stored_range_json r : exists r', stored_range (range_json r) = Some r' /\ fromBlock r' = fromBlock r /\ toBlock r' = toBlock r.
Proof using. eexists. split; [reflexivity|done]. Qed.

Lemma details_cover options log t names i id : printable options log t ->
  exists rs, finding_ranges (normalizeFinding (i, finding_row id (missing_transfer options names log t))) = Ok rs /\
             covered_by (lg_block log) rs.
Proof using.
  intros Hp. unfold finding_ranges. cbn [normalizeFinding fd_details finding_row fr_details_json fst snd missing_transfer].
  unfold parseDetails. rewrite JSON_roundtrip by (by apply details_wf).
  destruct Hp as (_ & _ & _ & H4 & _).
  destruct (one_block_ranges (lg_block log) (co_maxReplayRange options) (co_replayPaddingBlocks options) H4) as [(r & Hr & Hw) _].
  eexists. split; [reflexivity|]. destruct (stored_range_json r) as (r' & E & E1 & E2). exists r'. split.
  - apply list_elem_of_omap. exists (range_json r). split; [|done]. by apply list_elem_of_fmap_2.
  - unfold within. by rewrite E1, E2.
Qed.

(** Stored details are never [null]. *)
Lemma details_ok options log t names i id :
  is_ok (finding_ranges (normalizeFinding (i, finding_row id (missing_transfer options names log t)))) = true.
Proof using.
  unfold finding_ranges. cbn [normalizeFinding fd_details finding_row fr_details_json fst snd missing_transfer].
  unfold parseDetails. destruct (JSON_parse _) as [v|] eqn:E; [|done]. apply parse_object in E as [fields ->]. done.
Qed.

Lemma extract_elem fs rs f k : extractSuggestedRanges fs = Ok rs -> f ∈ fs -> finding_ranges f = Ok k -> forall r, r ∈ k -> r ∈ rs.
Proof using.
  revert rs. induction fs as [|g fs IH]; intros rs E Hf Hk r Hr; [by apply elem_of_nil in Hf|]. cbn in E.
  destruct (finding_ranges g) as [rg|] eqn:Eg; [|done]. destruct (extractSuggestedRanges fs) as [others|]; [|done].
  cbn in E. assert (rs = rg ++ others) as -> by congruence. apply elem_of_app. apply elem_of_cons in Hf as [->|Hf].
  - left. assert (rg = k) as -> by congruence. done.
  - right. by eapply IH.
Qed.
Lemma extract_total fs : (forall f, f ∈ fs -> is_ok (finding_ranges f) = true) -> exists rs, extractSuggestedRanges fs = Ok rs.
Proof using.
  induction fs as [|f fs IH]; intros H; [by eexists|]. cbn. destruct IH as [rs ->]; [intros g Hg; apply H; by right|].
  specialize (H f ltac:(left)). destruct (finding_ranges f); [by eexists|done].
Qed.

Lemma report_findings s r t' f' : audit_wf s -> recorded KTransferCoverage s r t' ->
  f' ∈ normalizeFinding <$> findings_of t' [at_next_run (aw_tables s)] <->
  exists i f, au_findings r !! i = Some f /\
    f' = normalizeFinding (at_next_finding (aw_tables s) + Z.of_nat i, finding_row (at_next_run (aw_tables s)) f).
Proof using.
  intros [_ Hw] [_ _ (t & [_ _ A3 A4 A5] & Et & En)]. rewrite En, Et in *. rewrite list_elem_of_fmap.
  unfold findings_of. setoid_rewrite (merge_sort_Permutation finding_order).
  setoid_rewrite list_elem_of_In. setoid_rewrite filter_In. setoid_rewrite <- list_elem_of_In. split.
  - intros ([id row] & -> & Hin%elem_of_map_to_list & Hr). apply bool_decide_eq_true, list_elem_of_singleton in Hr. cbn in Hr.
    destruct (decide (at_next_finding (aw_tables s) <= id < at_next_finding t')) as [Hid|Hid].
    2: { rewrite A5 in Hin by lia. apply Hw in Hin as [_ H]. lia. }
    destruct (lookup_lt_is_Some_2 (au_findings r) (Z.to_nat (id - at_next_finding (aw_tables s)))) as [f Hf]; [lia|].
    exists (Z.to_nat (id - at_next_finding (aw_tables s))), f. split; [done|]. specialize (A4 _ _ Hf).
    rewrite Z2Nat.id in * by lia. replace (at_next_finding (aw_tables s) + (id - at_next_finding (aw_tables s))) with id in * by lia.
    congruence.
  - intros (i & f & Hf & ->). eexists (_, _). split; [reflexivity|]. split; [by apply elem_of_map_to_list, A4|].
    apply bool_decide_eq_true. cbn. by left.
Qed.
End Report.

Section Composition.
Context `{F : Faults, C : Chain, LP : LogProvider, RE : ReplayEnv, K : Clock}.

Lemma latest_runs_spec s (Q : list IndexerAuditRunSummary -> AuditWorld -> Prop) (E : string -> AuditWorld -> Prop) :
  Q (normalizeRun <$> omap (latest_run (aw_tables s)) INDEXER_AUDIT_KINDS) (in_tables s (aw_tables s)) ->
  (forall e s', is_Some (sql_fault (w_time (aw_world s))) -> E e s') -> awp getLatestAuditRuns Q E s.
Proof using. intros HQ HE. apply awp_query; [done|]. intros e b Hf. apply HE. by rewrite Hf. Qed.

(** The report on a recorded audit covers the block of every finding. *)
Lemma report_spec s r s1 options health maxRange d from to on_chain :
  audit_wf s -> recorded KTransferCoverage s r (aw_tables s1) -> findings_cover options d from to on_chain (au_findings r) ->
  awp (getLatestIndexerAuditReport health maxRange)
    (fun rep s2 =>
       Forall (fun range => fromBlock range <= toBlock range /\ toBlock range - fromBlock range + 1 <= Z.max 1 maxRange)
         (rp_suggestedReplayRanges rep) /\
       forall log t names, missing_transfer options names log t ∈ au_findings r -> printable options log t ->
         covered_by (lg_block log) (rp_suggestedReplayRanges rep))
    (fun _ _ => exists n, is_Some (sql_fault n)) s1.
Proof using.
  intros Hw Hr Hf. unfold getLatestIndexerAuditReport. apply awp_bind.
  eapply awp_conseq; [apply health_spec| |by intros e s' (_ & _ & H)].
  intros h s2 (_ & E2 & _). apply awp_bind, latest_runs_spec; [|intros; by eexists]. rewrite E2.
  destruct (latest_recorded _ _ _ _ Hw Hr) as [now El]. cbn [INDEXER_AUDIT_KINDS omap list_omap]. rewrite El.
  cbn [fmap list_fmap]. apply awp_bind, awp_query; [|intros e b Hb; by eexists _, _]. cbn [aw_tables in_tables].
  set (fs := normalizeFinding <$> findings_of (aw_tables s1) _).
  assert (forall f', f' ∈ fs <-> exists i f, au_findings r !! i = Some f /\
    f' = normalizeFinding (at_next_finding (aw_tables s) + Z.of_nat i, finding_row (at_next_run (aw_tables s)) f)) as Hfs
    by (intros f'; by apply report_findings).
  assert (forall f', f' ∈ fs -> f' ∈ List.filter is_confirmed fs) as Hconf.
  { intros f' H. rewrite list_elem_of_In, filter_In, <- list_elem_of_In. split; [done|]. unfold is_confirmed.
    apply bool_decide_eq_true. by destruct (fd_classification f'). }
  destruct (extract_total (List.filter is_confirmed fs)) as [ranges Er].
  { intros f' Hin. rewrite list_elem_of_In, filter_In, <- list_elem_of_In in Hin. destruct Hin as [Hin _].
    apply Hfs in Hin as (i & f & Hi & ->). apply list_elem_of_lookup_2 in Hi.
    destruct (fe_sound _ _ _ _ _ _ Hf f Hi) as (log & t & names & _ & _ & ->). apply details_ok. }
  apply awp_bind. unfold liftR. rewrite Er. apply awp_bind, awp_now, awp_ret. cbn [rp_suggestedReplayRanges].
  destruct (merged_capped_spec (Z.max 1 maxRange) ranges 0 ltac:(lia)) as (_ & Hlen & _). split; [exact Hlen|].
  intros log t names Hin Hp. apply list_elem_of_lookup_1 in Hin as [i Hi].
  destruct (details_cover options log t names (at_next_finding (aw_tables s) + Z.of_nat i) (at_next_run (aw_tables s)) Hp)
    as (rs & Ers & range & Hrange & Hwithin).
  destruct (merged_capped_spec (Z.max 1 maxRange) ranges (lg_block log) ltac:(lia)) as (Hcov & _). apply Hcov.
  exists range. split; [|done]. eapply extract_elem; [done|apply Hconf, Hfs; by exists i, (missing_transfer options names log t)|done|done].
Qed.

Lemma audit_run_spec on_chain hub transferTopic options s : honest_provider on_chain (query_lane hub [[transferTopic]]) ->
  awp (runTransferCoverageAudit hub transferTopic options)
    (fun x s' => w_db (aw_world s') = w_db (aw_world s) /\
       (findings_cover options (w_db (aw_world s)) (window_start options (au_auditBlock x.1.1)) (au_auditBlock x.1.1) on_chain
          (au_findings x.1.1) /\
        (length (au_findings x.1.1) <= Z.to_nat (au_checkedCount x.1.1))%nat /\ 0 <= au_checkedCount x.1.1 /\
        (truthful_provider on_chain hub [[transferTopic]] ->
           findings_exact options (w_db (aw_world s)) (window_start options (au_auditBlock x.1.1)) (au_auditBlock x.1.1) on_chain
             (au_findings x.1.1))) /\
       x.2 = at_next_run (aw_tables s) /\ x.1.2 = rcn_confirmedCount (success x.1.1) /\
       recorded KTransferCoverage s x.1.1 (aw_tables s'))
    (fun e s' => w_db (aw_world s') = w_db (aw_world s) /\
       (sql_fault (pred (w_time (aw_world s'))) = None -> failed_run KTransferCoverage s e (aw_tables s'))) s.
Proof using.
  intros Hh. apply (withAuditRun_spec KTransferCoverage (transfer_coverage_audit hub transferTopic options)
    (fun r d => findings_cover options d (window_start options (au_auditBlock r)) (au_auditBlock r) on_chain (au_findings r) /\
       (length (au_findings r) <= Z.to_nat (au_checkedCount r))%nat /\ 0 <= au_checkedCount r /\
       (truthful_provider on_chain hub [[transferTopic]] ->
          findings_exact options d (window_start options (au_auditBlock r)) (au_auditBlock r) on_chain (au_findings r)))).
  intros w. apply (coverage_spec on_chain hub transferTopic Hh options w).
Qed.

(** A replay of a range whose numbers it accepts. *)
Definition range_request (batch chunk : Z) (range : SuggestedReplayRange) : ReplayNumbers := {|
  rn_batchSize := JInt batch; rn_fromBlock := JInt (fromBlock range); rn_reconcileChunkSize := JInt chunk;
  rn_toBlock := JInt (toBlock range) |}.

Lemma range_replayed on_chain hub topics batch chunk range w log :
  honest_provider on_chain (query_lane hub topics) -> positive (w_db w) -> on_chain log ->
  within (lg_block log) range ->
  match runTransferReplay hub topics (range_request batch chunk range) w with
  | (Ok _, w') => repaired (w_time w) w' log
  | (Err _, _) => True
  end.
Proof using.
  intros Hh Hp Hl Hr. pose proof (replay_spec on_chain hub topics (range_request batch chunk range) w Hh Hp) as H.
  unfold wp in H. destruct (runTransferReplay hub topics _ w) as [[p|e] w']; [|done].
  destruct H as (request & Hv & _ & _ & H). apply H; [done|].
  destruct (validate_inv _ _ _ Hv) as (_ & _ & _ & _ & _ & E1 & _ & E2). cbn in E1, E2. injection E1 as <-. injection E2 as <-.
  exact Hr.
Qed.
End Composition.

(** ** The health status *)

Section Status.
Context `{F : Faults, C : Chain, LP : LogProvider, K : Clock}.

Lemma getMeta_reads k w (Q : option jsstring -> World -> Prop) (E : string -> World -> Prop) :
  Q (meta (w_db w) !! k) (advance (w_db w) w) -> (forall e, E e (advance (w_db w) w)) -> wp (getMeta k) Q E w.
Proof using. intros HQ HE. unfold getMeta, query. by apply wp_sql. Qed.

Definition meta_or (d : Db) (key fallback : jsstring) : option jsstring :=
  match meta d !! key with Some v => Some v | None => meta d !! fallback end.
Lemma fallback_reads key fallback w :
  wp (getMetaWithFallback key (Some fallback))
     (fun v w' => v = meta_or (w_db w) key fallback /\ w_db w' = w_db w) (fun _ w' => w_db w' = w_db w) w.
Proof using.
  unfold getMetaWithFallback, meta_or. apply wp_bind, getMeta_reads; [|done]. destruct (meta (w_db w) !! key); [by apply wp_ret|].
  by apply getMeta_reads.
Qed.

Lemma failed_status_reads w :
  wp getFailedEventStatus (fun st w' => w_db w' = w_db w /\ (fe_count st = 0 -> failed_events (w_db w) = ∅)) (fun _ w' => w_db w' = w_db w) w.
Proof using.
  unfold getFailedEventStatus, query. apply wp_sql; [|done|done]. cbn [fst snd fe_count]. split; [done|].
  rewrite length_fmap. intros H. apply map_to_list_empty_iff, nil_length_inv. lia.
Qed.

(** What a healthy response says of the checkpoints it was built from. *)
Lemma status_spec config s :
  awp (getHealthStatus config)
    (fun h s' => w_db (aw_world s') = w_db (aw_world s) /\ aw_tables s' = aw_tables s /\
       (hr_ok h = true ->
          failed_events (w_db (aw_world s)) = ∅ /\
          toLag (hr_latestIndexedBlock h) (minIfAllPresent
            [parseBlock (meta_or (w_db (aw_world s)) HUB_TRANSFER_META_KEY (js "last_processed_block"));
             parseBlock (meta_or (w_db (aw_world s)) (js "hub_last_processed_role_block") (js "last_processed_block_roles"))])
            <= hc_healthMaxLagBlocks config /\
          exists now, kind_healthy (hc_audit config) (aw_tables s) now KTransferCoverage))
    (fun _ _ => True) s.
Proof using.
  unfold getHealthStatus. apply awp_bind, awp_lift, wp_rpc; [|done]. intros latest _.
  apply awp_bind, awp_lift. eapply wp_conseq; [apply fallback_reads| |done]. intros v1 w1 [-> E1].
  apply awp_bind, awp_lift. eapply wp_conseq; [apply fallback_reads| |done]. intros v2 w2 [-> E2].
  apply awp_bind, awp_lift. apply getMeta_reads; [|done].
  apply awp_bind, awp_lift. apply getMeta_reads; [|done].
  apply awp_bind, awp_lift. eapply wp_conseq; [apply failed_status_reads| |done]. intros st w5 [E5 Hst].
  apply awp_bind. eapply awp_conseq; [apply health_spec| |done]. intros audits s6 (E6 & T6 & Ha). apply awp_ret.
  cbn [aw_world aw_tables in_world w_db advance] in *. rewrite E2, E1 in *.
  split; [congruence|]. split; [congruence|]. unfold buildHealthResponse. cbn [hr_ok hr_latestIndexedBlock hs_failedEvents
    hs_latestIndexedBlock hs_hubTransfer hs_hubRole hs_audits hs_maxAllowedLag default fmap option_fmap option_map].
  rewrite !andb_true_iff, Z.leb_le, Z.eqb_eq. intros (((H1 & _) & H3) & H4). split; [by apply Hst|]. split; [exact H1|].
  eexists. by apply Ha.
Qed.

(** A finite checkpoint of the status above block 0 is the lane's. *)
Lemma status_checkpoint hub hubStart overlap topics d a : 1 <= a ->
  parseBlock (meta_or d HUB_TRANSFER_META_KEY (js "last_processed_block")) = Some a ->
  lane_checkpoint (transfer_lane hub hubStart overlap topics) d = Some a.
Proof using.
  intros Ha. unfold parseBlock, meta_or, lane_checkpoint, stored_checkpoint.
  cbn [transfer_lane ln_metaKey ln_legacyKey]. change (js "hub_last_processed_transfer_block") with HUB_TRANSFER_META_KEY.
  assert (forall v, (match Number v with JInt z => Some z | _ => None end) = Some a ->
    match truthy (Some v) with Some c => match Number c with JInt n => Some n | _ => None end | None => None end = Some a) as Hv.
  { intros [|c v] H; [|exact H]. vm_compute in H. injection H as <-. lia. }
  destruct (meta d !! HUB_TRANSFER_META_KEY) as [v|].
  - cbn [fmap option_fmap option_map]. intros H. specialize (Hv v H). by destruct v.
  - cbn [truthy]. destruct (meta d !! js "last_processed_block") as [v|]; [|done]. cbn [fmap option_fmap option_map]. apply Hv.
Qed.
End Status.

(** ** Theorems *)

(** C13: The transfer coverage audit never touches the indexer's tables.  When it
    returns, its findings are exactly the decodable transfers of the hub in its
    window that have no row in [events] at a block of the window, each once; the
    run is recorded as succeeded with the number of findings, and the findings
    are stored under it.  The provider is assumed to answer with all logs of the
    range it is asked for and no others, each once.  When it throws and the last statement did not fail, the run is
    recorded as failed with the error. *)
Theorem audit_finds_missing_transfers `{F : Faults, C : Chain, LP : LogProvider, RE : ReplayEnv, K : Clock}
    on_chain hub transferTopic options s :
  honest_provider on_chain (query_lane hub [[transferTopic]]) -> truthful_provider on_chain hub [[transferTopic]] ->
  match runTransferCoverageAudit hub transferTopic options s with
  | (Ok (r, n, id), s') =>
      w_db (aw_world s') = w_db (aw_world s) /\
      findings_exact options (w_db (aw_world s)) (window_start options (au_auditBlock r)) (au_auditBlock r) on_chain (au_findings r) /\
      n = Z.of_nat (length (au_findings r)) /\ n <= au_checkedCount r /\
      id = at_next_run (aw_tables s) /\ recorded KTransferCoverage s r (aw_tables s')
  | (Err e, s') =>
      w_db (aw_world s') = w_db (aw_world s) /\
      (sql_fault (pred (w_time (aw_world s'))) = None -> failed_run KTransferCoverage s e (aw_tables s'))
  end.
Proof.
  intros Hh Htrue. pose proof (audit_run_spec on_chain hub transferTopic options s Hh) as H. unfold awp in H.
  destruct (runTransferCoverageAudit hub transferTopic options s) as [[[[r n] id]|e] s']; [|exact H]. cbn in H.
  destruct H as (H1 & (_ & H3 & H4 & H2) & H5 & H6 & H7).
  assert (forall fs, List.filter is_confirmed fs = fs) as Hall.
  { induction fs as [|f fs IH]; [done|]. cbn. unfold is_confirmed at 1. rewrite bool_decide_eq_true_2; [by rewrite IH|].
    by destruct (fd_classification f). }
  rewrite Hall in H6. split_and!; try done; [by apply H2|lia].
Qed.

(** The report after an audit suggests, for every transfer the audit missed, a
    range of at most the replay's limit around its block; a replay of that
    range that returns has stored the transfer and refreshed its parties'
    balances.  The report is returned unless a statement fails. *)
Theorem audit_report_repairs `{F : Faults, C : Chain, LP : LogProvider, RE : ReplayEnv, K : Clock}
    on_chain hub transferTopic options s r n id s1 health maxRange :
  honest_provider on_chain (query_lane hub [[transferTopic]]) -> audit_wf s ->
  runTransferCoverageAudit hub transferTopic options s = (Ok (r, n, id), s1) ->
  match getLatestIndexerAuditReport health maxRange s1 with
  | (Ok report, _) =>
      forall log t, on_chain log -> window_start options (au_auditBlock r) <= lg_block log <= au_auditBlock r ->
        audited log t -> ~ indexed (w_db (aw_world s)) (window_start options (au_auditBlock r)) (au_auditBlock r) log ->
        printable options log t ->
        exists range, range ∈ rp_suggestedReplayRanges report /\ toBlock range - fromBlock range + 1 <= Z.max 1 maxRange /\
          forall batch chunk w, positive (w_db w) ->
            match runTransferReplay hub [[transferTopic]] (range_request batch chunk range) w with
            | (Ok _, w') => repaired (w_time w) w' log
            | (Err _, _) => True
            end
  | (Err _, _) => exists m, is_Some (sql_fault m)
  end.
Proof.
  intros Hh Hw Hrun. pose proof (audit_run_spec on_chain hub transferTopic options s Hh) as H. unfold awp in H.
  rewrite Hrun in H. cbn in H.
  destruct H as (_ & (Hf & _) & _ & _ & Hr).
  pose proof (report_spec s r s1 options health maxRange _ _ _ _ Hw Hr Hf) as Hrep. unfold awp in Hrep.
  destruct (getLatestIndexerAuditReport health maxRange s1) as [[report|e] s2]; [|exact Hrep]. destruct Hrep as [Hlen Hcov].
  intros log t Hl Hb Ha Hn Hp. destruct (fe_complete _ _ _ _ _ _ Hf log t Hl Hb Ha Hn) as [names Hin].
  destruct (Hcov log t names Hin Hp) as (range & Hrange & Hwithin). exists range. split; [done|].
  rewrite Forall_forall in Hlen. split; [by apply Hlen|]. intros batch chunk w Hpos.
  by apply (range_replayed on_chain).
Qed.

(** C14: A healthy status means that nothing old is missing: in every state the
    process can reach, when [getHealthStatus] answers ok, every decodable
    transfer of the hub that is older than the allowed lag is in [events]. *)
Theorem healthy_means_indexed `{F : Faults, C : Chain, LP : LogProvider, AC : AccessChain, OC : OracleChain, K : Clock}
    cfg hub oracle hubStart oracleStart overlap transferTopics roleTopics executionTopics chain transfers s0 s
    config tables response a' :
  honest_chain hub hubStart overlap transferTopics chain transfers ->
  toLowerCase hub = hub -> 1 <= batchSize cfg -> 0 <= confirmationBlocks cfg -> 0 <= hubStart ->
  0 <= overlap <= 2 ^ 53 ->
  meta (sys_db s0) = ∅ -> failed_events (sys_db s0) = ∅ ->
  rtc (step cfg hub oracle hubStart oracleStart overlap transferTopics roleTopics executionTopics) s0 s ->
  getHealthStatus config {| aw_world := poll_world s; aw_tables := tables |} = (Ok response, a') -> hr_ok response = true ->
  forall log t, transfers log -> audited log t -> hubStart <= lg_block log ->
    1 <= lg_block log <= hr_latestIndexedBlock response - hc_healthMaxLagBlocks config ->
    is_Some (events (sys_db s) !! event_key log).
Proof.
  intros Hc Hl Hb Hconf Hs Ho Hm Hf Hsteps Hstatus Hok log t Ht [Hp Hskip] Hstart Hblk.
  destruct (reachable_safe cfg hub oracle hubStart oracleStart overlap transferTopics roleTopics executionTopics chain transfers
    Hc Hl Hb Hs Hconf Ho s0 s Hm Hf Hsteps) as [S _].
  pose proof (status_spec config {| aw_world := poll_world s; aw_tables := tables |}) as H. unfold awp in H. rewrite Hstatus in H.
  destruct H as (_ & _ & H). destruct (H Hok) as (Hfail & Hlag & _). change (w_db (poll_world s)) with (sys_db s) in *. clear H.
  cbn [aw_world] in *. change (w_db (poll_world s)) with (sys_db s) in *.
  destruct (parseBlock (meta_or (sys_db s) HUB_TRANSFER_META_KEY (js "last_processed_block"))) as [n|] eqn:En.
  2: { cbn in Hlag. lia. }
  destruct (parseBlock (meta_or (sys_db s) (js "hub_last_processed_role_block") _)) as [m|]; cbn in Hlag; [|lia].
  pose proof (status_checkpoint hub hubStart overlap transferTopics (sys_db s) n ltac:(lia) En) as Hn.
  specialize (S n Hn log Ht ltac:(cbn; lia)). unfold accounted in S. rewrite Hp in S.
  destruct S as [S|[S|S]]; [congruence|done|]. rewrite Hfail, lookup_empty in S. by destruct S.
Qed.

(** A failed audit is visible: when an audit throws and its failure could be
    recorded, the next health status that is returned is not ok, whatever the
    checkpoints say. *)
Theorem failed_audit_unhealthy `{F : Faults, C : Chain, LP : LogProvider, RE : ReplayEnv, K : Clock}
    on_chain hub transferTopic options s e s1 config response s2 :
  honest_provider on_chain (query_lane hub [[transferTopic]]) -> audit_wf s ->
  runTransferCoverageAudit hub transferTopic options s = (Err e, s1) -> sql_fault (pred (w_time (aw_world s1))) = None ->
  getHealthStatus config s1 = (Ok response, s2) -> hr_ok response = false.
Proof.
  intros Hh Hw Hrun Hnone Hstatus. pose proof (audit_run_spec on_chain hub transferTopic options s Hh) as H. unfold awp in H.
  rewrite Hrun in H. destruct H as [_ H].
  destruct (latest_failed _ _ _ _ Hw (H Hnone)) as [now El].
  pose proof (status_spec config s1) as Hs. unfold awp in Hs. rewrite Hstatus in Hs. destruct Hs as (_ & _ & Hs).
  apply not_true_iff_false. intros Hok. destruct (Hs Hok) as (_ & _ & t & Hk). unfold kind_healthy in Hk. rewrite El in Hk. by destruct Hk.
Qed.

(** ** Witnesses *)

Section ToyAudit.
#[local] Existing Instances Toy.chain Toy.provider Toy.access Toy.oracle_chain toy_replay.

Definition toy_clock : Clock := fun t => Z.of_nat t.
Definition toy_topic : jsstring := js "0xddf2".
Definition toy_options : TransferCoverageAuditOptions := {|
  co_auditBlock := Some 8; co_latestChainBlock := None; co_lookbackBlocks := 100; co_maxReplayRange := 1000;
  co_replayPaddingBlocks := 2 |}.
Definition toy_tables : AuditTables := {| at_runs := ∅; at_findings := ∅; at_next_run := 1; at_next_finding := 1 |}.
Definition toy_state : AuditWorld := {| aw_world := poll_world Toy.start; aw_tables := toy_tables |}.
Definition toy_health : IndexerAuditHealthOptions := {|
  ho_consecutiveFailures := 3; ho_failureThreshold := 1; ho_maxAgeMs := 1000; ho_now := None |}.
Definition toy_status : HealthConfig := {|
  hc_confirmationBlocks := 2; hc_healthMaxLagBlocks := 3; hc_audit := toy_health |}.

Lemma toy_honest : honest_provider Toy.transfers (query_lane Toy.hub [[toy_topic]]).
Proof using. destruct (hc_complete _ _ _ _ _ _ (Toy.honest 0 ltac:(lia))) as [H1 H2]. split; [exact H1|exact H2]. Qed.
Lemma toy_truthful : truthful_provider Toy.transfers Toy.hub [[toy_topic]].
Proof using.
  assert (forall s e, NoDup (Toy.logs_in Toy.hub s e) /\ forall log, log ∈ Toy.logs_in Toy.hub s e -> Toy.transfers log /\ s <= lg_block log <= e) as H.
  { intros s e. split.
    - apply base.NoDup_ListNoDup, List.NoDup_filter, base.NoDup_ListNoDup. apply NoDup_singleton.
    - intros log [[_ ->]%Toy.elem_logs Hb]%Toy.elem_logs_in. by split. }
  split.
  - intros t s e logs. cbn. case_match; [done|]. intros [= <-]. apply H.
  - exists (fun s e c log => c = None). intros t s e c page next. cbn. intros [= <- <-]. destruct c.
    + split_and!; [apply NoDup_nil_2|by intros log ?%elem_of_nil|done].
    + destruct (H s e) as [H1 H2]. split_and!; [done|intros log Hl; split; [done|by apply H2]|done].
Qed.
Lemma toy_wf : audit_wf (K := toy_clock) toy_state.
Proof using. split; intros id row H; cbn in H; by rewrite lookup_empty in H. Qed.

Definition toy_run := runTransferCoverageAudit (F := no_faults) (K := toy_clock) Toy.hub toy_topic toy_options toy_state.

Lemma audit_finds_witness :
  match toy_run with
  | (Ok (r, n, id), s') => n = 1 /\ id = 1 /\ at_findings (aw_tables s') !! 1 <> None /\
      findings_exact toy_options (w_db (aw_world toy_state)) 0 8 Toy.transfers (au_findings r)
  | (Err _, _) => False
  end.
Proof using.
  pose proof (audit_finds_missing_transfers (F := no_faults) (K := toy_clock) Toy.transfers Toy.hub toy_topic toy_options toy_state
    toy_honest toy_truthful) as H. fold toy_run in H.
  assert (match toy_run with (Ok (r, n, id), s') => n = 1 /\ id = 1 /\ au_auditBlock r = 8 /\
    is_Some (at_findings (aw_tables s') !! 1) | _ => False end) as Hc by (vm_compute; eauto).
  destruct toy_run as [[[[r n] id]|e] s']; [|done]. destruct Hc as (-> & -> & Hb & Hs). destruct H as (_ & H & _). rewrite Hb in H.
  split_and!; [done|done|by intros E; rewrite E in Hs; destruct Hs|exact H].
Defined.

Definition toy_transfer : option ParsedTransferLog := parseTransferLog Toy.transfer_log.
Lemma audit_report_witness :
  match toy_run with
  | (Ok _, s1) =>
      match getLatestIndexerAuditReport (F := no_faults) (K := toy_clock) toy_health 1000 s1 with
      | (Ok report, _) => exists range, range ∈ rp_suggestedReplayRanges report /\
          match runTransferReplay (F := no_faults) Toy.hub [[toy_topic]] (range_request 2 1 range) (poll_world Toy.start) with
          | (Ok _, w') => repaired 0 w' Toy.transfer_log
          | (Err _, _) => True
          end
      | (Err _, _) => False
      end
  | (Err _, _) => False
  end.
Proof using.
  assert (match toy_run with (Ok (r, _, _), s') => au_auditBlock r = 8 | _ => False end) as Hc by (vm_compute; reflexivity).
  destruct toy_run as [[[[r n] id]|e] s1] eqn:Hrun; [|done].
  pose proof (audit_report_repairs (F := no_faults) (K := toy_clock) Toy.transfers Toy.hub toy_topic toy_options toy_state r n id s1
    toy_health 1000 toy_honest toy_wf Hrun) as H.
  destruct (getLatestIndexerAuditReport _ _ s1) as [[report|e] s2]; [|destruct H as (m & x & Hm); discriminate Hm].
  destruct toy_transfer as [t|] eqn:Ht; [|vm_compute in Ht; discriminate].
  destruct (H Toy.transfer_log t) as (range & Hr & _ & Hrep).
  - reflexivity.
  - rewrite Hc. vm_compute. split; discriminate.
  - split; [exact Ht|]. vm_compute in Ht. injection Ht as <-. vm_compute. reflexivity.
  - intros (tx & row & Hin & _). cbn in Hin. by rewrite lookup_empty in Hin.
  - vm_compute in Ht. injection Ht as <-. unfold printable. cbn [pt_from pt_to pt_operator].
    split_and!; try (apply Forall_forall; intros c Hx; vm_compute in Hx;
      repeat (apply elem_of_cons in Hx as [->|Hx]; [unfold code_unit; lia|]); by apply elem_of_nil in Hx); vm_compute; discriminate.
  - exists range. split; [exact Hr|]. apply (Hrep 2 1 (poll_world Toy.start)). intros k x Hk. vm_compute in Hk. discriminate.
Defined.

Definition toy_healthy := getHealthStatus (F := Toy.faults) (K := toy_clock) toy_status
  {| aw_world := poll_world Toy.recovered; aw_tables := toy_tables |}.
Lemma healthy_witness :
  match toy_healthy with
  | (Ok response, _) => hr_ok response = true /\ hr_latestIndexedBlock response = 8 /\
      is_Some (events (sys_db Toy.recovered) !! event_key Toy.transfer_log)
  | (Err _, _) => False
  end.
Proof using.
  assert (match toy_healthy with (Ok h, _) => hr_ok h = true /\ hr_latestIndexedBlock h = 8 | _ => False end) as Hc
    by (vm_compute; auto).
  destruct toy_healthy as [[response|e] s'] eqn:Hs; [|done]. destruct Hc as [Hok Hb]. split; [exact Hok|]. split; [exact Hb|].
  assert (rtc (step (F := Toy.faults) Toy.cfg Toy.hub Toy.oracle 0 0 0 [] [] []) Toy.start Toy.recovered) as Hr.
  { eapply rtc_l; [apply step_poll|]. eapply rtc_l; [apply step_retry|]. apply rtc_refl. }
  destruct toy_transfer as [t|] eqn:Ht; [|vm_compute in Ht; discriminate].
  refine (healthy_means_indexed (F := Toy.faults) (K := toy_clock) Toy.cfg Toy.hub Toy.oracle 0 0 0 [] [] [] Toy.on_chain Toy.transfers Toy.start
    Toy.recovered toy_status toy_tables response s' (Toy.honest 0 ltac:(lia)) eq_refl _ _ _ _ eq_refl eq_refl Hr Hs Hok
    Toy.transfer_log t eq_refl _ _ _).
  - cbn. lia.
  - cbn. lia.
  - lia.
  - lia.
  - split; [exact Ht|]. vm_compute in Ht. injection Ht as <-. vm_compute. reflexivity.
  - cbn. lia.
  - rewrite Hb. cbn. lia.
Defined.

(** Without a stored checkpoint there is no block to audit. *)
Definition no_checkpoint : TransferCoverageAuditOptions := {|
  co_auditBlock := None; co_latestChainBlock := None; co_lookbackBlocks := 100; co_maxReplayRange := 1000;
  co_replayPaddingBlocks := 2 |}.
Definition toy_failed_run := runTransferCoverageAudit (F := no_faults) (K := toy_clock) Toy.hub toy_topic no_checkpoint toy_state.
Lemma failed_audit_witness :
  match toy_failed_run with
  | (Err e, s1) => e = "Hub transfer checkpoint is not available for indexer audit"%string /\
      match getHealthStatus (F := no_faults) (K := toy_clock) toy_status s1 with
      | (Ok response, _) => hr_ok response = false
      | (Err _, _) => False
      end
  | (Ok _, _) => False
  end.
Proof using.
  assert (match toy_failed_run with
    | (Err e, s1) => e = "Hub transfer checkpoint is not available for indexer audit"%string /\
        match getHealthStatus (F := no_faults) (K := toy_clock) toy_status s1 with (Ok _, _) => True | (Err _, _) => False end
    | _ => False end) as Hc by (vm_compute; auto).
  destruct toy_failed_run as [[x|e] s1] eqn:Hrun; [done|]. destruct Hc as [He Hc]. split; [exact He|].
  destruct (getHealthStatus toy_status s1) as [[response|e'] s2] eqn:Hs; [|done].
  exact (failed_audit_unhealthy (F := no_faults) (K := toy_clock) Toy.transfers Toy.hub toy_topic no_checkpoint toy_state e s1 toy_status
    response s2 toy_honest toy_wf Hrun eq_refl Hs).
Defined.
End ToyAudit.
