(* ===== verification/DepositoryAudit.v ===== *)
(** * The depository balance audit

    packages/indexer/src/services/depositoryBalanceAudit.ts and
    jobs/depositoryBalanceAudit.ts: for every token of the hub, the balance its
    depository holds on the origin chain against the supply of the hub.  HTTP
    requests are answered by the environment with the JSON of the body (or an
    error); ethers' providers, @solana/web3.js and the table of networks are
    operations of [DepositoryEnv].  The logger is not modelled, error messages
    are abbreviated, and the balance and the supply, which the code requests
    together, are requested one after the other. *)

From Stdlib Require Import Strings.Byte.
From stdpp Require Import sorting.
From S2P Require Import Prelude JsNum JsString JsNumber JsJson Scanner HexBytes HederaIds SdkAddress.
From S2P Require Import IndexerWorld IndexerTransfers IndexerRoles IndexerLanes IndexerReplay IndexerAudit.
Local Open Scope Z_scope.
Local Open Scope js_scope.

(** ** Constants and types *)

Definition SUPPORTED_VM_TYPES : list jsstring :=
  [js "bitcoin-vm"; js "ethereum-vm"; js "hyperliquid-vm"; js "lighter-vm"; js "solana-vm"; js "ton-vm"; js "tron-vm";
   js "xrp-vm"].
Definition NATIVE_ONLY_VM_TYPES : list jsstring := [js "bitcoin-vm"; js "ton-vm"; js "xrp-vm"].

Inductive DepositoryBalanceAuditStatus := Covered | Deficit | AuditError | Unsupported.
#[export] Instance auditBalanceStatus_eq_dec : EqDecision DepositoryBalanceAuditStatus.
Proof. solve_decision. Defined.

Record OracleChainInfo := { oc_depository : jsstring; oc_id : jsstring; oc_vmType : jsstring }.
Record TokenAuditRow := {
  ta_decimals : option Z; ta_name : option jsstring; ta_origin_asset : option jsstring; ta_origin_chain_id : option jsstring;
  ta_origin_family : option jsstring; ta_symbol : option jsstring; ta_token_id : jsstring }.
(** The fields of [tokenMetadata], by name or by position. *)
Record RawMetadata := {
  rm_name : option jsstring; rm_symbol : option jsstring; rm_decimals : option jsnum; rm_family : option jsstring;
  rm_chainId : option jsstring; rm_asset : option jsstring }.
Record TokenOriginMetadata := {
  om_decimals : Z; om_name : jsstring; om_originAsset : jsstring; om_originChainId : jsstring; om_originFamily : jsstring;
  om_symbol : jsstring }.
Record BalanceInput := {
  bi_chainId : jsstring; bi_currency : jsstring; bi_decimals : option Z; bi_depository : jsstring; bi_rpcUrl : jsstring;
  bi_vmType : jsstring }.
Record NetworkEntry := { nw_slug : jsstring; nw_chainId : jsstring; nw_family : jsstring }.

Record DepositoryBalanceAuditResult := {
  dr_chainId : option jsstring; dr_currency : option jsstring; dr_decimals : option Z; dr_delta : option jsstring;
  dr_deltaFormatted : option jsstring; dr_depository : option jsstring; dr_depositoryBalance : option jsstring;
  dr_depositoryBalanceFormatted : option jsstring; dr_error : option string; dr_status : DepositoryBalanceAuditStatus;
  dr_tokenId : jsstring; dr_tokenName : option jsstring; dr_tokenSymbol : option jsstring; dr_totalSupply : option jsstring;
  dr_totalSupplyFormatted : option jsstring; dr_vmType : option jsstring }.

Class DepositoryEnv := {
  (** The body at a URL, with an API key. *)
  http_get : nat -> jsstring -> option jsstring -> result Json;
  (** The body of the answer to a POST with a JSON body. *)
  http_post : nat -> jsstring -> Json -> result Json;
  (** The body of Lighter's [/api/v1/account?by=index&value=...]. *)
  lighter_account : nat -> jsstring -> jsstring -> result Json;
  evm_chainId : nat -> jsstring -> result Z;
  evm_getBalance : nat -> jsstring -> jsstring -> result Z;
  evm_balanceOf : nat -> jsstring -> jsstring -> jsstring -> result Z;
  (** [encodeFunctionData("balanceOf", [account])]. *)
  balanceOf_data : jsstring -> result jsstring;
  solana_vault : jsstring -> result jsstring;
  solana_getBalance : nat -> jsstring -> jsstring -> result Z;
  solana_mintOwner : nat -> jsstring -> jsstring -> result (option jsstring);
  solana_tokenAccount : jsstring -> jsstring -> jsstring -> result jsstring;
  solana_tokenBalance : nat -> jsstring -> jsstring -> result jsstring;
  (** [Buffer.from(hex, "hex").toString("utf8")]. *)
  utf8_of_hex : jsstring -> jsstring;
  hub_rawMetadata : nat -> jsstring -> result RawMetadata;
  network_of : jsstring -> option NetworkEntry;
  ethers_id : jsstring -> jsstring;
  environment : jsstring -> option jsstring;
  formatUnits : jsstring -> Z -> result jsstring;
}.

Definition ofR {A} (r : result A) : M A := fun w => (r, w).

(** ** Pure helpers *)

Definition is_alnum (c : Z) : bool := in_range 48 57 c || in_range 65 90 c || in_range 97 122 c.
Definition upper_char (c : Z) : Z := if in_range 97 122 c then c - 32 else c.
(** [replace(/[^a-zA-Z0-9]+/g, "_")]; [run] is true inside a replaced run. *)
Fixpoint replace_runs (run : bool) (s : jsstring) : jsstring :=
  match s with
  | [] => []
  | c :: r => if is_alnum c then c :: replace_runs false r else if run then replace_runs true r else 95 :: replace_runs true r
  end.
Definition rpcEnvNameForChain (chainId : jsstring) : jsstring :=
  (upper_char <$> replace_runs false chainId) ++ js "_RPC_URL".

Definition classifyDepositoryBalance (balance totalSupply : Z) : DepositoryBalanceAuditStatus :=
  if totalSupply <=? balance then Covered else Deficit.

(** [typeof x === "string" && x]. *)
Definition json_text (v : Json) : option jsstring := match v with JStr (c :: s) => Some (c :: s) | _ => None end.
Definition json_object (v : Json) : bool := match v with JObj _ | JArr _ => true | _ => false end.

Fixpoint parse_chains (parsed : list OracleChainInfo) (chains : list Json) : result (list OracleChainInfo) :=
  match chains with
  | [] => Ok parsed
  | value :: rest =>
      fail_if negb (json_object value) with "Oracle chain must be an object" ;;
      vm ← property value "vmType";
      vmType ← require (json_text vm) "Oracle chain is invalid";
      if negb (bool_decide (vmType ∈ SUPPORTED_VM_TYPES)) then parse_chains parsed rest
      else
        idv ← property value "id";
        id ← require (json_text idv) "Oracle chain is invalid";
        dep ← property value "depository";
        depository ← require (json_text dep) "Oracle chain is invalid";
        fail_if existsb (fun c => bool_decide (oc_id c = id)) parsed with "Oracle chains response contains duplicate id" ;;
        parse_chains (parsed ++ [{| oc_depository := depository; oc_id := id; oc_vmType := vmType |}]) rest
  end.
Definition parseOracleChains (payload : Json) : result (list OracleChainInfo) :=
  fail_if negb (json_object payload) with "Oracle chains response must be an object" ;;
  chains ← property payload "chains";
  match chains with
  | JArr l => parse_chains [] l
  | _ => Err "Oracle chains response is missing chains"
  end.

(** [/^(\d+)(?:\.(\d+))?$/]. *)
Definition decimal_text (s : jsstring) : option (jsstring * jsstring) :=
  '(ip, r) ← re_digits1 s;
  match r with
  | [] => Some (ip, [])
  | 46 :: r' => '(fp, e) ← re_digits1 r'; if bool_decide (e = []) then Some (ip, fp) else None
  | _ => None
  end.
Definition digits_value (s : jsstring) : Z := Radix.of_digits 10 (dec_val <$> s).
(** [fraction.padEnd(decimals, "0") || "0"] as a number. *)
Definition parseDecimalUnits (value : jsstring) (decimals : Z) : result Z :=
  '(ip, fp) ← require (decimal_text value) "Invalid decimal balance";
  fail_if decimals <? 0 with "RangeError" ;;
  let fraction := take (Z.to_nat decimals) fp in
  let padded := fraction ++ replicate (Z.to_nat decimals - length fraction) 48 in
  Ok (digits_value ip * 10 ^ decimals + digits_value padded).

(** [value.toString()] of a number or a string. *)
Definition json_toString (v : Json) : option jsstring :=
  match v with JStr s => Some s | JNum n => Some (toString10 n) | _ => None end.
Definition json_truthy (v : Json) : bool :=
  match v with JUndefined | JNull | JBool false | JNum 0 | JStr [] => false | _ => true end.
Definition nullish (v : Json) : bool := match v with JUndefined | JNull => true | _ => false end.
(** A non-empty text of digits. *)
Definition digit_text (v : Json) : option jsstring :=
  s ← json_toString v; if negb (json_truthy v) || negb (forallb is_digit s) then None else Some s.

Definition decimal_of (v : Json) (decimals : Z) : result Z :=
  text ← require (json_toString v) "Invalid decimal balance"; parseDecimalUnits text decimals.

Fixpoint find_asset (assets : list Json) (currency : jsstring) : result (option Json) :=
  match assets with
  | [] => Ok None
  | item :: rest =>
      assetId ← property item "asset_id";
      text ← require (json_toString assetId) "TypeError";
      if bool_decide (text = currency) then Ok (Some item) else find_asset rest currency
  end.
Definition parseLighterAccountBalance (account : Json) (currency : jsstring) (decimals : Z) : result Z :=
  if bool_decide (currency = getVmTypeNativeCurrency lighter_vm) then
    collateral ← property account "collateral";
    if nullish collateral then Err "Lighter response is missing collateral balance" else decimal_of collateral decimals
  else
    assets ← property account "assets";
    asset ← (match assets with JArr l => find_asset l currency | _ => if nullish assets then Ok None else Err "TypeError" end);
    match asset with
    | Some item => balance ← property item "balance"; decimal_of balance decimals
    | None => Ok 0
    end.

(** [url.replace(/\/+$/, "")]. *)
Fixpoint drop_slashes (reversed : jsstring) : jsstring :=
  match reversed with 47 :: r => drop_slashes r | _ => reversed end.
Definition without_trailing_slashes (url : jsstring) : jsstring := rev (drop_slashes (rev url)).
Definition oracleChainsUrl (oracleApiUrl : jsstring) : jsstring := without_trailing_slashes oracleApiUrl ++ js "/chains/v1".

(** ** Reading balances *)

Section Reader.
Context {V : Viem} {L : SdkLibs} {E : DepositoryEnv}.

Definition jsonRpcRequest (rpcUrl method : jsstring) (params : Json) : M Json :=
  payload ← rpc (fun t => http_post t rpcUrl (JObj [(js "id", JStr (js "depository-balance-audit"));
    (js "jsonrpc", JStr (js "2.0")); (js "method", JStr method); (js "params", params)]));
  error ← ofR (property payload "error");
  (if json_truthy error then throwM "RPC request failed"
   else
     value ← ofR (property payload "result");
     if nullish value then throwM "RPC response is missing the result" else mret value).

Definition hyperliquidInfoRequest (rpcUrl : jsstring) (body : Json) : M Json :=
  rpc (fun t => http_post t (without_trailing_slashes rpcUrl ++ js "/info") body).

Definition requireDecimals (input : BalanceInput) : M Z := ofR (require (bi_decimals input) "Token decimals are missing").

Definition toTronEvmAddress (address : jsstring) : result jsstring :=
  encoded ← encodeAddressToHex address tron_vm;
  Ok (js "0x" ++ drop (length encoded - 40) encoded).

Definition getBitcoinBalance (input : BalanceInput) : M Z :=
  value ← jsonRpcRequest (bi_rpcUrl input) (js "bb_getAddress") (JArr [JStr (bi_depository input);
    JObj [(js "details", JStr (js "basic")); (js "fromHeight", JNum 0); (js "page", JNum 1); (js "size", JNum 1)]]);
  balance ← ofR (property value "balance");
  text ← ofR (require (digit_text balance) "Bitcoin RPC response is missing the address balance");
  ofR (BigInt text).

Definition getEthereumBalance (input : BalanceInput) : M Z :=
  chainId ← rpc (fun t => evm_chainId t (bi_rpcUrl input));
  expected ← ofR (BigInt (bi_chainId input));
  if negb (chainId =? expected) then throwM "RPC chain id does not match expected chain id"
  else if bool_decide (toLowerCase (bi_currency input) = getVmTypeNativeCurrency ethereum_vm)
  then rpc (fun t => evm_getBalance t (bi_rpcUrl input) (bi_depository input))
  else rpc (fun t => evm_balanceOf t (bi_rpcUrl input) (bi_currency input) (bi_depository input)).

(** [meta.tokens?.find(...)] and [state.balances?.find(...)]. *)
Fixpoint find_token (tokens : list Json) (tokenId : jsstring) : result (option Json) :=
  match tokens with
  | [] => Ok None
  | item :: rest =>
      v ← property item "tokenId";
      text ← require (match v with JStr s => Some s | _ => None end) "TypeError";
      if bool_decide (toLowerCase text = tokenId) then Ok (Some item) else find_token rest tokenId
  end.
Fixpoint find_balance (balances : list Json) (index : Json) : result (option Json) :=
  match balances with
  | [] => Ok None
  | item :: rest =>
      token ← property item "token";
      let same := match token, index with JNum a, JNum b => a =? b | _, _ => false end in
      if same then Ok (Some item) else find_balance rest index
  end.
Definition items_of (v : Json) : result (list Json) :=
  match v with JArr l => Ok l | _ => if nullish v then Ok [] else Err "TypeError" end.

Definition getHyperliquidBalance (input : BalanceInput) : M Z :=
  if bool_decide (bi_currency input = getVmTypeNativeCurrency hyperliquid_vm) then
    state ← hyperliquidInfoRequest (bi_rpcUrl input)
      (JObj [(js "type", JStr (js "clearinghouseState")); (js "user", JStr (bi_depository input))]);
    withdrawable ← ofR (property state "withdrawable");
    if nullish withdrawable then throwM "Hyperliquid response is missing withdrawable balance"
    else decimals ← requireDecimals input; ofR (decimal_of withdrawable decimals)
  else
    let lower := toLowerCase (bi_currency input) in
    let normalizedCurrency := if startsWith lower (js "0x") then drop 2 lower else lower in
    if Nat.ltb (length normalizedCurrency) 32 then throwM "Invalid Hyperliquid currency"
    else
      let tokenId := js "0x" ++ take 32 normalizedCurrency in
      let dexHex := drop 32 normalizedCurrency in
      let dex := if bool_decide (dexHex = []) then [] else utf8_of_hex dexHex in
      let suffix := if bool_decide (dex = []) then [] else [(js "dex", JStr dex)] in
      meta ← hyperliquidInfoRequest (bi_rpcUrl input) (JObj ((js "type", JStr (js "spotMeta")) :: suffix));
      state ← hyperliquidInfoRequest (bi_rpcUrl input)
        (JObj ([(js "type", JStr (js "spotClearinghouseState")); (js "user", JStr (bi_depository input))] ++ suffix));
      tokens ← ofR (v ← property meta "tokens"; items_of v);
      token ← ofR (find_token tokens tokenId);
      match token with
      | None => throwM "Hyperliquid token not found"
      | Some token =>
          index ← ofR (property token "index");
          balances ← ofR (v ← property state "balances"; items_of v);
          balance ← ofR (find_balance balances index);
          total ← ofR (match balance with Some item => property item "total" | None => Ok JUndefined end);
          decimals ← (match bi_decimals input with
                      | Some d => mret d
                      | None => ofR (v ← property token "weiDecimals"; match v with JNum d => Ok d | _ => Err "TypeError" end)
                      end);
          ofR (decimal_of (if nullish total then JStr (js "0") else total) decimals)
      end.

Definition getLighterBalance (input : BalanceInput) : M Z :=
  payload ← rpc (fun t => lighter_account t (bi_rpcUrl input) (bi_depository input));
  accounts ← ofR (v ← property payload "accounts"; items_of v);
  match accounts with
  | account :: _ =>
      if negb (json_truthy account) then throwM "Lighter account not found"
      else decimals ← requireDecimals input; ofR (parseLighterAccountBalance account (bi_currency input) decimals)
  | [] => throwM "Lighter account not found"
  end.

Definition getSolanaBalance (input : BalanceInput) : M Z :=
  vault ← ofR (solana_vault (bi_depository input));
  if bool_decide (bi_currency input = getVmTypeNativeCurrency solana_vm) then
    rpc (fun t => solana_getBalance t (bi_rpcUrl input) vault)
  else
    owner ← rpc (fun t => solana_mintOwner t (bi_rpcUrl input) (bi_currency input));
    match owner with
    | None => throwM "Solana mint account not found"
    | Some owner =>
        account ← ofR (solana_tokenAccount (bi_currency input) vault owner);
        amount ← rpc (fun t => solana_tokenBalance t (bi_rpcUrl input) account);
        ofR (BigInt amount)
    end.

Definition getTonBalance (input : BalanceInput) : M Z :=
  balance ← jsonRpcRequest (bi_rpcUrl input) (js "getAddressBalance") (JObj [(js "address", JStr (bi_depository input))]);
  text ← ofR (require (json_toString balance) "TON RPC response contains an invalid account balance");
  if bool_decide (text = []) || negb (forallb is_digit text) then throwM "TON RPC response contains an invalid account balance"
  else ofR (BigInt text).

(** [BigInt(balance)] of the value of an RPC. *)
Definition json_BigInt (v : Json) : result Z :=
  match v with JStr s => BigInt s | JNum n => Ok n | JBool b => Ok (if b then 1 else 0) | _ => Err "TypeError" end.

Definition getTronBalance (input : BalanceInput) : M Z :=
  depository ← ofR (toTronEvmAddress (bi_depository input));
  if bool_decide (bi_currency input = getVmTypeNativeCurrency tron_vm) then
    balance ← jsonRpcRequest (bi_rpcUrl input) (js "eth_getBalance") (JArr [JStr depository; JStr (js "latest")]);
    ofR (json_BigInt balance)
  else
    currency ← ofR (toTronEvmAddress (bi_currency input));
    data ← ofR (balanceOf_data depository);
    balance ← jsonRpcRequest (bi_rpcUrl input) (js "eth_call")
      (JArr [JObj [(js "data", JStr data); (js "to", JStr currency)]; JStr (js "latest")]);
    ofR (json_BigInt balance).

Definition getXrpBalance (input : BalanceInput) : M Z :=
  value ← jsonRpcRequest (bi_rpcUrl input) (js "account_info")
    (JArr [JObj [(js "account", JStr (bi_depository input)); (js "ledger_index", JStr (js "validated"))]]);
  account ← ofR (property value "account_data");
  balance ← ofR (if nullish account then Ok JUndefined else property account "Balance");
  text ← ofR (require (digit_text balance) "XRP RPC response is missing the account balance");
  ofR (BigInt text).

(** [BalanceReader.getBalance]. *)
Definition reader_getBalance (input : BalanceInput) : M Z :=
  match sdk_vm_of (bi_vmType input) with
  | Some bitcoin_vm => getBitcoinBalance input
  | Some ethereum_vm => getEthereumBalance input
  | Some hyperliquid_vm => getHyperliquidBalance input
  | Some lighter_vm => getLighterBalance input
  | Some solana_vm => getSolanaBalance input
  | Some ton_vm => getTonBalance input
  | Some tron_vm => getTronBalance input
  | Some xrp_vm => getXrpBalance input
  | _ => throwM "Unsupported VM type"
  end.
End Reader.

(** ** Tokens and chains *)

(** [ORDER BY token_id ASC] on the decimal texts of token ids. *)
Fixpoint text_leb (s t : jsstring) : bool :=
  match s, t with
  | [], _ => true
  | _, [] => false
  | a :: s', b :: t' => if a =? b then text_leb s' t' else a <? b
  end.
Definition token_order (p q : jsstring * TokenRow) : Prop := text_leb p.1 q.1 = true.
#[export] Instance token_order_dec p q : Decision (token_order p q).
Proof. unfold token_order. apply _. Defined.

Definition audit_row (p : jsstring * TokenRow) : TokenAuditRow := {|
  ta_decimals := tk_decimals p.2; ta_name := tk_name p.2; ta_origin_asset := tk_originAsset p.2;
  ta_origin_chain_id := tk_originChainId p.2; ta_origin_family := tk_originFamily p.2; ta_symbol := tk_symbol p.2;
  ta_token_id := p.1 |}.
Definition select_tokens (d : Db) : list TokenAuditRow := audit_row <$> merge_sort token_order (map_to_list (tokens d)).

Definition or_text (a b : option jsstring) : option jsstring := match truthy a with Some x => Some x | None => b end.

(** The columns of the token row the audit writes. *)
Definition with_origin (m : TokenOriginMetadata) (token : TokenAuditRow) (r : TokenRow) : TokenRow := {|
  tk_name := or_text (Some (om_name m)) (or_text (ta_name token) (Some (js "Unknown")));
  tk_symbol := or_text (Some (om_symbol m)) (ta_symbol token); tk_decimals := Some (om_decimals m);
  tk_originFamily := Some (om_originFamily m); tk_originChainId := Some (om_originChainId m);
  tk_originAsset := Some (om_originAsset m); tk_totalSupply := tk_totalSupply r; tk_holders := tk_holders r;
  tk_transfers := tk_transfers r |}.

Record ResultBase := { rb_chainId : jsstring; rb_depository : jsstring; rb_vmType : jsstring }.
(** The overrides of [resultFor]. *)
Record ResultValues := {
  rv_base : option ResultBase; rv_delta : option jsstring; rv_balance : option jsstring; rv_error : option string;
  rv_status : DepositoryBalanceAuditStatus }.
Definition verdict_only (base : option ResultBase) (error : option string) (status : DepositoryBalanceAuditStatus) : ResultValues :=
  {| rv_base := base; rv_delta := None; rv_balance := None; rv_error := error; rv_status := status |}.

Record AuditSummary := {
  sm_checked : Z; sm_covered : Z; sm_deficit : Z; sm_error : Z; sm_results : list DepositoryBalanceAuditResult;
  sm_unsupported : Z }.
Definition count_status (status : DepositoryBalanceAuditStatus) (results : list DepositoryBalanceAuditResult) : Z :=
  Z.of_nat (length (List.filter (fun r => bool_decide (dr_status r = status)) results)).
Definition is_checked (r : DepositoryBalanceAuditResult) : bool :=
  bool_decide (dr_status r = Covered) || bool_decide (dr_status r = Deficit).
Definition summarize (results : list DepositoryBalanceAuditResult) : AuditSummary := {|
  sm_checked := Z.of_nat (length (List.filter is_checked results)); sm_covered := count_status Covered results;
  sm_deficit := count_status Deficit results; sm_error := count_status AuditError results; sm_results := results;
  sm_unsupported := count_status Unsupported results |}.

Section Audit.
Context {V : Viem} {L : SdkLibs} {D : DepositAttestation.Viem} {E : DepositoryEnv} `{F : Faults, C : Chain}.

Definition origin_metadata (raw : RawMetadata) : TokenOriginMetadata := {|
  om_decimals := match rm_decimals raw with Some (JInt z) => if z =? 0 then 18 else z | _ => 18 end;
  om_name := default [] (rm_name raw); om_originAsset := default [] (rm_asset raw);
  om_originChainId := default [] (rm_chainId raw); om_originFamily := default [] (rm_family raw);
  om_symbol := default [] (rm_symbol raw) |}.
Definition readTokenOriginMetadata (tokenId : jsstring) : M TokenOriginMetadata :=
  raw ← rpc (fun t => hub_rawMetadata t tokenId);
  mret (origin_metadata raw).
(** The token with the metadata of the hub. *)
Definition filled_token (metadata : TokenOriginMetadata) (token : TokenAuditRow) : TokenAuditRow := {|
  ta_decimals := Some (om_decimals metadata);
  ta_name := or_text (Some (om_name metadata)) (or_text (ta_name token) (Some (js "Unknown")));
  ta_origin_asset := Some (om_originAsset metadata); ta_origin_chain_id := Some (om_originChainId metadata);
  ta_origin_family := Some (om_originFamily metadata);
  ta_symbol := or_text (Some (om_symbol metadata)) (ta_symbol token); ta_token_id := ta_token_id token |}.

(** The metadata read from the hub and stored, when it names an origin. *)
Definition fetchTokenOrigin (token : TokenAuditRow) : M (option TokenAuditRow) :=
  metadata ← readTokenOriginMetadata (ta_token_id token);
  match om_originFamily metadata, om_originChainId metadata, om_originAsset metadata with
  | _ :: _, _ :: _, _ :: _ =>
      _ ← execute (set_tokens (alter (with_origin metadata token) (ta_token_id token)));
      mret (Some (filled_token metadata token))
  | _, _, _ => mret None
  end.
Definition ensureTokenOriginMetadata (token : TokenAuditRow) : M (option TokenAuditRow) :=
  match truthy (ta_origin_family token), truthy (ta_origin_chain_id token), truthy (ta_origin_asset token) with
  | Some _, Some _, Some _ => mret (Some token)
  | _, _, _ => fetchTokenOrigin token
  end.

Definition chain_by_id (chains : list OracleChainInfo) (id : jsstring) : option OracleChainInfo :=
  List.find (fun c => bool_decide (oc_id c = id)) chains.

(** The token id of the token's asset on the chain, when it can be encoded. *)
Definition derived_token_id (token : TokenAuditRow) (chain : OracleChainInfo) : option jsstring :=
  family ← truthy (ta_origin_family token);
  asset ← truthy (ta_origin_asset token);
  vm ← sdk_vm_of family;
  match generateTokenId {| hb_family := vm; hb_chainId := oc_id chain; hb_address := asset |} with
  | Ok id => Some (toString10 id)
  | Err _ => None
  end.
Definition derived_chain_id (chain : OracleChainInfo) : result jsstring :=
  match network_of (oc_id chain) with
  | Some n => Ok (nw_chainId n)
  | None => z ← BigInt (ethers_id (oc_id chain)); Ok (toString10 z)
  end.
Fixpoint scan_chains (token : TokenAuditRow) (originChainId : jsstring) (chains : list OracleChainInfo)
  : result (option (OracleChainInfo * option NetworkEntry)) :=
  match chains with
  | [] => Ok None
  | chain :: rest =>
      derived ← derived_chain_id chain;
      if bool_decide (derived = originChainId) || bool_decide (derived_token_id token chain = Some (ta_token_id token))
      then Ok (Some (chain, network_of (oc_id chain)))
      else scan_chains token originChainId rest
  end.
Definition findOracleChain (chains : list OracleChainInfo) (token : TokenAuditRow)
  : result (option (OracleChainInfo * option NetworkEntry)) :=
  match truthy (ta_origin_chain_id token) with
  | None => Ok None
  | Some originChainId =>
      let configured :=
        network ← network_of originChainId;
        chain ← chain_by_id chains (nw_slug network);
        Some (chain, Some network) in
      match configured with
      | Some found => Ok (Some found)
      | None => scan_chains token originChainId chains
      end
  end.

Definition formatAuditAmount (amount : option jsstring) (decimals : option Z) : result (option jsstring) :=
  match amount, decimals with
  | Some a, Some d => text ← formatUnits a d; Ok (Some text)
  | _, _ => Ok None
  end.

Definition resultFor (token : TokenAuditRow) (totalSupply : option Z) (values : ResultValues) : result DepositoryBalanceAuditResult :=
  let supply := toString10 <$> totalSupply in
  deltaFormatted ← formatAuditAmount (rv_delta values) (ta_decimals token);
  balanceFormatted ← formatAuditAmount (rv_balance values) (ta_decimals token);
  supplyFormatted ← formatAuditAmount supply (ta_decimals token);
  Ok {| dr_chainId := rb_chainId <$> rv_base values; dr_currency := ta_origin_asset token; dr_decimals := ta_decimals token;
        dr_delta := rv_delta values; dr_deltaFormatted := deltaFormatted; dr_depository := rb_depository <$> rv_base values;
        dr_depositoryBalance := rv_balance values; dr_depositoryBalanceFormatted := balanceFormatted;
        dr_error := rv_error values; dr_status := rv_status values; dr_tokenId := ta_token_id token;
        dr_tokenName := ta_name token; dr_tokenSymbol := ta_symbol token; dr_totalSupply := supply;
        dr_totalSupplyFormatted := supplyFormatted;
        dr_vmType := match rv_base values with Some b => Some (rb_vmType b) | None => ta_origin_family token end |}.

(** ** The audit *)

Definition balance_input (token : TokenAuditRow) (chain : OracleChainInfo) (rpcUrl : jsstring) : BalanceInput := {|
  bi_chainId := default [] (ta_origin_chain_id token); bi_currency := default [] (ta_origin_asset token);
  bi_decimals := ta_decimals token; bi_depository := oc_depository chain; bi_rpcUrl := rpcUrl;
  bi_vmType := default [] (ta_origin_family token) |}.

(** Balance against supply, in the [try] block. *)
Definition compare_balance (getBalance : BalanceInput -> M Z) (token : TokenAuditRow) (chain : OracleChainInfo)
    (base : ResultBase) (rpcUrl : jsstring) : M DepositoryBalanceAuditResult :=
  try_catch
    (balance ← getBalance (balance_input token chain rpcUrl);
     totalSupply ← rpc (fun t => hub_totalSupply t (ta_token_id token));
     ofR (resultFor token (Some totalSupply) {| rv_base := Some base; rv_delta := Some (toString10 (balance - totalSupply));
       rv_balance := Some (toString10 balance); rv_error := None; rv_status := classifyDepositoryBalance balance totalSupply |}))
    (fun e => ofR (resultFor token None (verdict_only (Some base) (Some e) AuditError))).

(** The checks on a token whose origin is known. *)
Definition audit_origin (getBalance : BalanceInput -> M Z) (chains : list OracleChainInfo) (token : TokenAuditRow)
  : M DepositoryBalanceAuditResult :=
  let verdict base error status := ofR (resultFor token None (verdict_only base error status)) in
  let family := default [] (ta_origin_family token) in
  if negb (bool_decide (family ∈ SUPPORTED_VM_TYPES)) then verdict None (Some "Unsupported origin family"%string) Unsupported
  else
    resolved ← ofR (findOracleChain chains token);
    match resolved with
    | None => verdict None (Some "Oracle chain not found for origin chain"%string) Unsupported
    | Some (chain, network) =>
        let base := {| rb_chainId := oc_id chain; rb_depository := oc_depository chain; rb_vmType := oc_vmType chain |} in
        let mismatch := match network with Some n => negb (bool_decide (nw_family n = family)) | None => false end in
        if negb (bool_decide (oc_vmType chain = family)) || mismatch then
          verdict (Some base) (Some "VM type does not match token origin family"%string) AuditError
        else match truthy (environment (rpcEnvNameForChain (oc_id chain))) with
        | None => verdict (Some base) (Some "Missing required env var"%string) AuditError
        | Some rpcUrl =>
            if bool_decide (family ∈ NATIVE_ONLY_VM_TYPES) &&
               negb (bool_decide (ta_origin_asset token = getVmTypeNativeCurrency <$> sdk_vm_of family))
            then verdict (Some base) None Unsupported
            else compare_balance getBalance token chain base rpcUrl
        end
    end.

Definition audit_token (getBalance : BalanceInput -> M Z) (chains : list OracleChainInfo) (originalToken : TokenAuditRow)
  : M DepositoryBalanceAuditResult :=
  outcome ← try_catch (token ← ensureTokenOriginMetadata originalToken; mret (inl token)) (fun e => mret (inr e));
  match outcome with
  | inr e => ofR (resultFor originalToken None (verdict_only None (Some e) AuditError))
  | inl None => ofR (resultFor originalToken None (verdict_only None None Unsupported))
  | inl (Some token) => audit_origin getBalance chains token
  end.

Definition fetchOracleChains (oracleApiUrl : jsstring) (oracleApiKey : option jsstring) : M (list OracleChainInfo) :=
  payload ← rpc (fun t => http_get t (oracleChainsUrl oracleApiUrl) (truthy oracleApiKey));
  ofR (parseOracleChains payload).

Definition runDepositoryBalanceAudit (getBalance : BalanceInput -> M Z) (oracleApiUrl oracleApiKey : option jsstring)
  : M AuditSummary :=
  url ← ofR (require (truthy oracleApiUrl) "Oracle API URL is required");
  chains ← fetchOracleChains url oracleApiKey;
  tokens ← query select_tokens;
  results ← mapMM (audit_token getBalance chains) tokens;
  mret (summarize results).

(** jobs/depositoryBalanceAudit.ts: one run under the advisory lock, not
    overlapping another; the findings are logged. *)
Definition depository_audit_job `{RE : ReplayEnv} (oracleApiUrl oracleApiKey : option jsstring) : M (option AuditSummary) :=
  try_catch
    (_ ← query (fun _ => tt);
     acquired ← (fun w => (Ok (lock_free (w_time w)), w));
     if acquired : bool then
       summary ← finallyM (runDepositoryBalanceAudit reader_getBalance oracleApiUrl oracleApiKey) (query (fun _ => tt));
       mret (Some summary)
     else mret None)
    (fun _ => mret None).
End Audit.
