(* ===== verification/DepositoryProofs.v ===== *)
(** * The verdicts of the depository balance audit

    Every token gets one verdict; a token is reported as covered or in deficit
    only from a balance that the chain of its origin reported and a supply the hub
    reported, and has no such verdict only for one of the reasons listed; the
    audit writes nothing but the metadata of tokens whose origin was missing. *)

From Stdlib Require Import Strings.Byte.
From stdpp Require Import sorting.
From S2P Require Import Prelude JsNum JsString JsNumber JsJson Scanner HexBytes HederaIds SdkAddress SdkProofs.
From S2P Require Import IndexerWorld IndexerTransfers IndexerRoles IndexerLanes IndexerReplay IndexerTheorems IndexerAudit DepositoryAudit.
Local Open Scope Z_scope.
Local Open Scope js_scope.

(** ** Decimal texts *)

Definition is_digits (s : jsstring) : Prop := Forall (fun c => is_digit c = true) s.
(** [ip], or [ip.fp]. *)
Definition decimal_form (ip fp : jsstring) : jsstring := if bool_decide (fp = []) then ip else ip ++ 46 :: fp.

Lemma decimal_text_iff s ip fp : decimal_text s = Some (ip, fp) <->
  is_digits ip /\ ip <> [] /\ is_digits fp /\ s = decimal_form ip fp.
Proof.
  unfold decimal_text, decimal_form. split.
  - intros H. destruct (re_digits1 s) as [[ip' r]|] eqn:E1; [|done]. cbn in H. apply re_digits1_sound in E1 as (-> & Hd & Hne).
    destruct r as [|c r]; [injection H as <- <-; rewrite bool_decide_eq_true_2 by done; split_and!; try done; [by constructor|by rewrite app_nil_r]|].
    assert (c = 46) as ->. { destruct (decide (c = 46)) as [->|Hc]; [done|]. exfalso. clear -H Hc. repeat case_match; done. }
    destruct (re_digits1 r) as [[fp' e]|] eqn:E2; [|done]. cbn in H. apply re_digits1_sound in E2 as (-> & Hf & Hnf).
    case_bool_decide as He; [|done]. subst e. injection H as <- <-. rewrite app_nil_r, bool_decide_eq_false_2 by done. done.
  - intros (Hd & Hne & Hf & ->). unfold re_digits1. case_bool_decide as E.
    + subst fp. rewrite <- (app_nil_r ip) at 1. rewrite re_span_complete by (done || apply no_digit_nil).
      rewrite bool_decide_eq_false_2 by done. done.
    + rewrite re_span_complete by (done || by apply no_digit_cons). rewrite bool_decide_eq_false_2 by done. cbn.
      rewrite <- (app_nil_r fp) at 1. rewrite re_span_complete by (done || apply no_digit_nil). rewrite bool_decide_eq_false_2 by done. cbn.
      done.
Qed.

Lemma digits_value_app a b : digits_value (a ++ b) = digits_value a * 10 ^ Z.of_nat (length b) + digits_value b.
Proof. unfold digits_value. rewrite fmap_app, Radix.of_digits_app by lia. by rewrite length_fmap. Qed.
Lemma digits_value_bound a : is_digits a -> 0 <= digits_value a < 10 ^ Z.of_nat (length a).
Proof.
  intros Ha. unfold digits_value. rewrite <- (length_fmap dec_val a). apply Radix.of_digits_bound; [lia|].
  apply Forall_fmap. eapply Forall_impl; [exact Ha|]. intros c Hc. unfold is_digit, in_range in Hc. unfold dec_val. cbn. lia.
Qed.
Lemma digits_value_zeros n : digits_value (replicate n 48) = 0.
Proof.
  unfold digits_value. rewrite fmap_replicate. change (dec_val 48) with 0. rewrite <- (app_nil_r (replicate n 0)).
  by rewrite Radix.of_digits_replicate_0 by lia.
Qed.

(** The fraction, cut or padded to [k] digits, is the value scaled down. *)
Lemma fraction_value fp k : is_digits fp ->
  digits_value (take k fp ++ replicate (k - length (take k fp)) 48) = digits_value fp * 10 ^ Z.of_nat k / 10 ^ Z.of_nat (length fp).
Proof.
  intros Hf. rewrite digits_value_app, digits_value_zeros, Z.add_0_r, length_replicate, length_take.
  destruct (Nat.le_gt_cases k (length fp)) as [Hk|Hk].
  - rewrite Nat.min_l by lia. rewrite Nat.sub_diag. change (10 ^ Z.of_nat 0) with 1. rewrite Z.mul_1_r.
    rewrite <- (take_drop k fp) at 2. rewrite digits_value_app, length_drop.
    pose proof (digits_value_bound (drop k fp) ltac:(by apply Forall_drop)) as Hb. rewrite length_drop in Hb.
    replace (10 ^ Z.of_nat (length fp)) with (10 ^ Z.of_nat (length fp - k) * 10 ^ Z.of_nat k)
      by (rewrite <- Z.pow_add_r by lia; f_equal; lia).
    assert (0 < 10 ^ Z.of_nat k) by (apply Z.pow_pos_nonneg; lia).
    rewrite Z.div_mul_cancel_r by lia. rewrite Z.div_add_l by lia. rewrite Z.div_small by lia. lia.
  - rewrite take_ge, Nat.min_r by lia. replace (10 ^ Z.of_nat k) with (10 ^ Z.of_nat (k - length fp) * 10 ^ Z.of_nat (length fp))
      by (rewrite <- Z.pow_add_r by lia; f_equal; lia).
    rewrite Z.mul_assoc, Z.div_mul; [done|]. apply Z.pow_nonzero; lia.
Qed.

(** Decimal balances are read exactly, rounding down: a text [ip.fp] with
    [decimals] places is the floor of its value times [10 ^ decimals], and no
    other text is accepted. *)
Theorem decimal_units_exact value decimals n : 0 <= decimals ->
  parseDecimalUnits value decimals = Ok n <->
  exists ip fp, is_digits ip /\ ip <> [] /\ is_digits fp /\ value = decimal_form ip fp /\
    n = digits_value (ip ++ fp) * 10 ^ decimals / 10 ^ Z.of_nat (length fp).
Proof.
  intros Hd. unfold parseDecimalUnits.
  assert (forall ip fp, is_digits fp -> digits_value ip * 10 ^ decimals +
    digits_value (take (Z.to_nat decimals) fp ++ replicate (Z.to_nat decimals - length (take (Z.to_nat decimals) fp)) 48) =
    digits_value (ip ++ fp) * 10 ^ decimals / 10 ^ Z.of_nat (length fp)) as Hval.
  { intros ip fp Hf. rewrite fraction_value, digits_value_app, Z2Nat.id by done. rewrite Z.mul_add_distr_r.
    replace (digits_value ip * 10 ^ Z.of_nat (length fp) * 10 ^ decimals)
      with (digits_value ip * 10 ^ decimals * 10 ^ Z.of_nat (length fp)) by ring.
    rewrite Z.div_add_l; [done|]. apply Z.pow_nonzero; lia. }
  split.
  - intros H. destruct (decimal_text value) as [[ip fp]|] eqn:E; [|done]. cbn in H.
    rewrite (proj2 (Z.ltb_ge decimals 0)) in H by done. cbn in H. apply decimal_text_iff in E as (H1 & H2 & H3 & ->).
    exists ip, fp. split_and!; try done. rewrite <- Hval by done. congruence.
  - intros (ip & fp & H1 & H2 & H3 & -> & ->). rewrite (proj2 (decimal_text_iff _ ip fp)) by done. cbn [mbind result_bind require].
    rewrite (proj2 (Z.ltb_ge decimals 0)) by done. cbn [check mbind result_bind]. by rewrite Hval.
Qed.

(** ** What the audit may change *)

(** The row lacks a part of the origin. *)
Definition needs_origin (token : TokenAuditRow) : bool :=
  match truthy (ta_origin_family token), truthy (ta_origin_chain_id token), truthy (ta_origin_asset token) with
  | Some _, Some _, Some _ => false
  | _, _, _ => true
  end.
Definition names_origin (m : TokenOriginMetadata) : bool :=
  match om_originFamily m, om_originChainId m, om_originAsset m with _ :: _, _ :: _, _ :: _ => true | _, _, _ => false end.

Section Written.
Context {E : DepositoryEnv}.
(** A row stays as it is or, for one of the [audited] tokens without an origin,
    gets the name, the symbol, the decimals and the origin that the hub reported;
    its supply and counts stay. *)
Definition row_written (audited : list TokenAuditRow) (k : jsstring) (r r' : TokenRow) : Prop :=
  r' = r \/ exists token t raw, token ∈ audited /\ ta_token_id token = k /\ needs_origin token = true /\
    hub_rawMetadata t k = Ok raw /\ names_origin (origin_metadata raw) = true /\ r' = with_origin (origin_metadata raw) token r.
(** No other table changes, and no row comes or goes. *)
Record metadata_only (audited : list TokenAuditRow) (d d' : Db) : Prop := {
  mo_tokens : forall k, option_Forall2 (row_written audited k) (tokens d !! k) (tokens d' !! k);
  mo_balances : balances d' = balances d;
  mo_events : events d' = events d;
  mo_failed : failed_events d' = failed_events d;
  mo_roles : role_events d' = role_events d /\ role_members d' = role_members d /\ role_admins d' = role_admins d;
  mo_oracle : oracle_executions d' = oracle_executions d;
  mo_meta : meta d' = meta d }.
#[export] Instance metadata_only_preorder audited : PreOrder (metadata_only audited).
Proof.
  split.
  - intros d. split; try done. intros k. destruct (tokens d !! k); constructor. by left.
  - intros d1 d2 d3 [A1 A2 A3 A4 A5 A6 A7] [B1 B2 B3 B4 B5 B6 B7].
    split; [|congruence|congruence|congruence|destruct A5 as (? & ? & ?), B5 as (? & ? & ?); split_and!; congruence|congruence|congruence].
    intros k. specialize (A1 k). specialize (B1 k). inversion A1 as [x1 x2 Hx E1 E2|E1 E2]; rewrite <- E2 in B1; inversion B1 as [y1 y2 Hy E3 E4|E3 E4];
      constructor. subst. destruct Hy as [-> |(token & t & raw & H1 & H2 & H3 & H4 & H5 & ->)]; [done|]. right.
    exists token, t, raw. split_and!; try done. by destruct Hx as [-> |(? & ? & ? & _ & _ & _ & _ & _ & ->)].
Qed.
End Written.

Section Verdicts.
Context {V : Viem} {L : SdkLibs} {D : DepositAttestation.Viem} {E : DepositoryEnv} `{F : Faults, C : Chain}.

Lemma keeps_ofR (R : Db -> Db -> Prop) `{!PreOrder R} {A} (r : result A) : keeps R (ofR r).
Proof using. intros w. unfold wp, ofR. destruct r; cbn; reflexivity. Qed.
#[local] Hint Resolve keeps_ofR : keeps.

Lemma reader_keeps (R : Db -> Db -> Prop) `{!PreOrder R} input : keeps R (reader_getBalance input).
Proof using.
  unfold reader_getBalance, getBitcoinBalance, getEthereumBalance, getHyperliquidBalance, getLighterBalance, getSolanaBalance,
    getTonBalance, getTronBalance, getXrpBalance, requireDecimals, hyperliquidInfoRequest, jsonRpcRequest.
  destruct (sdk_vm_of _) as [[]|]; keeps_auto.
Qed.

(** The token with its origin: the stored one, or the one the hub reported. *)
Inductive origin_known (token : TokenAuditRow) : TokenAuditRow -> Prop :=
  | origin_stored : needs_origin token = false -> origin_known token token
  | origin_reported t raw : needs_origin token = true -> hub_rawMetadata t (ta_token_id token) = Ok raw ->
      names_origin (origin_metadata raw) = true -> origin_known token (filled_token (origin_metadata raw) token).
Lemma origin_known_id token o : origin_known token o -> ta_token_id o = ta_token_id token.
Proof using. by destruct 1. Qed.
(** Its origin cannot be had: the hub or the database failed, or the hub names
    none. *)
Definition origin_failed (token : TokenAuditRow) : Prop := needs_origin token = true /\
  ((exists t e, hub_rawMetadata t (ta_token_id token) = Err e) \/ exists t, sql_fault t <> None).
Definition origin_unnamed (token : TokenAuditRow) : Prop := needs_origin token = true /\
  exists t raw, hub_rawMetadata t (ta_token_id token) = Ok raw /\ names_origin (origin_metadata raw) = false.

Lemma store_written audited token t raw d : token ∈ audited -> needs_origin token = true ->
  hub_rawMetadata t (ta_token_id token) = Ok raw -> names_origin (origin_metadata raw) = true ->
  metadata_only audited d (set_tokens (alter (with_origin (origin_metadata raw) token) (ta_token_id token)) d).
Proof using.
  intros Hin Hn Hraw Hm. split; cbn; try done. intros k. destruct (decide (k = ta_token_id token)) as [->|Hk].
  - rewrite lookup_alter_eq. destruct (tokens d !! _); constructor. right. by exists token, t, raw.
  - rewrite lookup_alter_ne by done. destruct (tokens d !! k); constructor. by left.
Qed.
Lemma fetch_spec audited token w : token ∈ audited -> needs_origin token = true ->
  wp (fetchTokenOrigin token)
     (fun o w' => metadata_only audited (w_db w) (w_db w') /\ match o with Some t => origin_known token t | None => origin_unnamed token end)
     (fun _ w' => metadata_only audited (w_db w) (w_db w') /\ origin_failed token) w.
Proof using.
  intros Hin Hn. unfold fetchTokenOrigin, readTokenOriginMetadata. apply wp_bind, wp_bind, wp_rpc.
  2:{ intros e He. split; [done|]. split; [done|]. left. eauto. }
  intros raw Hraw. apply wp_ret. set (m := origin_metadata raw) in *. destruct (names_origin m) eqn:Hm.
  - pose proof (fun d => store_written audited token (w_time w) raw d Hin Hn Hraw Hm) as Hset.
    unfold names_origin in Hm. destruct (om_originFamily m) eqn:E1, (om_originChainId m) eqn:E2, (om_originAsset m) eqn:E3; try done.
    apply wp_bind. unfold execute, sql, wp at 1. cbn [w_db w_time advance]. destruct (sql_fault _) as [[e applied]|] eqn:Ef.
    + split; [destruct applied; [apply Hset|done]|]. split; [done|]. right. exists (S (w_time w)). by rewrite Ef.
    + apply wp_ret. split; [apply Hset|]. apply (origin_reported token (w_time w)); try done. unfold names_origin. fold m. by rewrite E1, E2, E3.
  - assert (origin_unnamed token) as Hu by (split; [done|]; by exists (w_time w), raw).
    unfold names_origin in Hm. destruct (om_originFamily m), (om_originChainId m), (om_originAsset m); try done; apply wp_ret; by split.
Qed.
Lemma ensure_spec audited token w : token ∈ audited ->
  wp (ensureTokenOriginMetadata token)
     (fun o w' => metadata_only audited (w_db w) (w_db w') /\ match o with Some t => origin_known token t | None => origin_unnamed token end)
     (fun _ w' => metadata_only audited (w_db w) (w_db w') /\ origin_failed token) w.
Proof using.
  intros Hin. pose proof (fetch_spec audited token w Hin) as Hfetch. pose proof (origin_stored token) as Hst.
  unfold needs_origin in Hfetch, Hst. unfold ensureTokenOriginMetadata.
  destruct (truthy (ta_origin_family token)), (truthy (ta_origin_chain_id token)), (truthy (ta_origin_asset token)); try exact (Hfetch eq_refl).
  apply wp_ret. split; [done|by apply Hst].
Qed.

(** ** Verdicts *)

Lemma resultFor_verdict token base error status : exists res,
  resultFor token None (verdict_only base error status) = Ok res /\ dr_tokenId res = ta_token_id token /\
  dr_status res = status /\ dr_delta res = None /\ dr_totalSupply res = None /\ dr_depositoryBalance res = None.
Proof using. eexists. split; [reflexivity|]. done. Qed.

Lemma find_chain_elem chains id c : chain_by_id chains id = Some c -> c ∈ chains.
Proof using. intros H. apply list_elem_of_In. by apply List.find_some in H as [H _]. Qed.
(** The hash of a chain id is not the text of an integer. *)
Definition unreadable_id : Prop := exists c, is_ok (BigInt (ethers_id c)) = false.
Lemma scan_chains_elem token id chains :
  match scan_chains token id chains with Ok (Some (c, _)) => c ∈ chains | Ok None => True | Err _ => unreadable_id end.
Proof using.
  induction chains as [|c chains IH]; [done|]. cbn. unfold derived_chain_id. destruct (network_of (oc_id c)) as [n|]; cbn.
  - destruct (_ || _); cbn; [left|]. destruct (scan_chains token id chains) as [[[x y]|]|]; [by right|done|done].
  - destruct (BigInt (ethers_id (oc_id c))) eqn:Eb; cbn; [|exists (oc_id c); by rewrite Eb].
    destruct (_ || _); cbn; [left|]. destruct (scan_chains token id chains) as [[[x y]|]|]; [by right|done|done].
Qed.
Lemma findOracleChain_elem chains token :
  match findOracleChain chains token with Ok (Some (c, _)) => c ∈ chains | Ok None => True | Err _ => unreadable_id end.
Proof using.
  unfold findOracleChain. destruct (truthy (ta_origin_chain_id token)) as [id|]; [|done].
  destruct (network_of id) as [n|]; cbn; [|apply scan_chains_elem].
  destruct (chain_by_id chains (nw_slug n)) as [c|] eqn:Ec; cbn; [by eapply find_chain_elem|apply scan_chains_elem].
Qed.

(** The chain and the endpoint at which the token's depository is asked: the
    chain of the oracle's list that [findOracleChain] finds for the origin, with
    the VM of the origin's family. *)
Record resolved_to (chains : list OracleChainInfo) (token o : TokenAuditRow) (chain : OracleChainInfo) (rpcUrl : jsstring) : Prop := {
  rt_origin : origin_known token o;
  rt_listed : chain ∈ chains;
  rt_found : exists network, findOracleChain chains o = Ok (Some (chain, network)) /\
    forall n, network = Some n -> Some (nw_family n) = ta_origin_family o;
  rt_vm : Some (oc_vmType chain) = ta_origin_family o;
  rt_supported : oc_vmType chain ∈ SUPPORTED_VM_TYPES;
  rt_rpc : truthy (environment (rpcEnvNameForChain (oc_id chain))) = Some rpcUrl;
  rt_native : oc_vmType chain ∈ NATIVE_ONLY_VM_TYPES -> ta_origin_asset o = getVmTypeNativeCurrency <$> sdk_vm_of (oc_vmType chain) }.
(** Why a token has no verdict on its balance. *)
Inductive unchecked (chains : list OracleChainInfo) (token : TokenAuditRow) : DepositoryBalanceAuditStatus -> Prop :=
  | no_metadata : origin_failed token -> unchecked chains token AuditError
  | no_origin : origin_unnamed token -> unchecked chains token Unsupported
  | no_reader o : origin_known token o -> default [] (ta_origin_family o) ∉ SUPPORTED_VM_TYPES -> unchecked chains token Unsupported
  | no_chain o : origin_known token o -> findOracleChain chains o = Ok None -> unchecked chains token Unsupported
  | other_family o chain network : origin_known token o -> findOracleChain chains o = Ok (Some (chain, network)) ->
      (oc_vmType chain <> default [] (ta_origin_family o) \/ exists n, network = Some n /\ nw_family n <> default [] (ta_origin_family o)) ->
      unchecked chains token AuditError
  | no_endpoint o chain network : origin_known token o -> findOracleChain chains o = Ok (Some (chain, network)) ->
      truthy (environment (rpcEnvNameForChain (oc_id chain))) = None -> unchecked chains token AuditError
  | not_native o : origin_known token o -> default [] (ta_origin_family o) ∈ NATIVE_ONLY_VM_TYPES ->
      ta_origin_asset o <> getVmTypeNativeCurrency <$> sdk_vm_of (default [] (ta_origin_family o)) -> unchecked chains token Unsupported
  | no_balance o chain rpcUrl w1 w2 e : resolved_to chains token o chain rpcUrl ->
      reader_getBalance (balance_input o chain rpcUrl) w1 = (Err e, w2) -> unchecked chains token AuditError
  | no_supply o chain rpcUrl t e : resolved_to chains token o chain rpcUrl -> hub_totalSupply t (ta_token_id token) = Err e ->
      unchecked chains token AuditError
  | no_format o chain rpcUrl amount e : resolved_to chains token o chain rpcUrl ->
      formatAuditAmount amount (ta_decimals o) = Err e -> unchecked chains token AuditError.

(** A verdict on the balance of a token rests on what the chain of its origin
    and the hub reported; the other verdicts carry no amounts and have one of the
    reasons above. *)
Definition verdict_sound (chains : list OracleChainInfo) (token : TokenAuditRow) (res : DepositoryBalanceAuditResult) : Prop :=
  dr_tokenId res = ta_token_id token /\
  if is_checked res then
    exists o chain rpcUrl w1 w2 balance t supply,
      resolved_to chains token o chain rpcUrl /\
      reader_getBalance (balance_input o chain rpcUrl) w1 = (Ok balance, w2) /\ hub_totalSupply t (ta_token_id token) = Ok supply /\
      dr_chainId res = Some (oc_id chain) /\ dr_depository res = Some (oc_depository chain) /\ dr_currency res = ta_origin_asset o /\
      dr_depositoryBalance res = Some (toString10 balance) /\ dr_totalSupply res = Some (toString10 supply) /\
      dr_delta res = Some (toString10 (balance - supply)) /\ (dr_status res = Covered <-> supply <= balance)
  else dr_delta res = None /\ dr_totalSupply res = None /\ dr_depositoryBalance res = None /\ unchecked chains token (dr_status res).

Lemma verdict_audited chains token o base error status w (Q : World -> Prop) (X : string -> World -> Prop) :
  Q w -> status <> Covered -> status <> Deficit -> ta_token_id o = ta_token_id token -> unchecked chains token status ->
  wp (ofR (resultFor o None (verdict_only base error status))) (fun res w' => Q w' /\ verdict_sound chains token res) X w.
Proof using.
  intros HQ H1 H2 Hid Hu. destruct (resultFor_verdict o base error status) as (res & -> & R1 & R2 & R3 & R4 & R5).
  unfold wp, ofR. split; [done|]. split; [congruence|]. unfold is_checked. rewrite R2.
  rewrite !bool_decide_eq_false_2 by done. done.
Qed.

Lemma resultFor_ok token supply values res : resultFor token (Some supply) values = Ok res ->
  exists x1 x2 x3, res = {| dr_chainId := rb_chainId <$> rv_base values; dr_currency := ta_origin_asset token; dr_decimals := ta_decimals token;
        dr_delta := rv_delta values; dr_deltaFormatted := x1; dr_depository := rb_depository <$> rv_base values;
        dr_depositoryBalance := rv_balance values; dr_depositoryBalanceFormatted := x2;
        dr_error := rv_error values; dr_status := rv_status values; dr_tokenId := ta_token_id token;
        dr_tokenName := ta_name token; dr_tokenSymbol := ta_symbol token; dr_totalSupply := Some (toString10 supply);
        dr_totalSupplyFormatted := x3;
        dr_vmType := match rv_base values with Some b => Some (rb_vmType b) | None => ta_origin_family token end |}.
Proof using.
  unfold resultFor. intros H. apply bind_ok in H as (x1 & _ & H). apply bind_ok in H as (x2 & _ & H). apply bind_ok in H as (x3 & _ & H).
  exists x1, x2, x3. injection H as H. symmetry. exact H.
Qed.
Lemma resultFor_err token supply values e : resultFor token supply values = Err e ->
  exists amount e', formatAuditAmount amount (ta_decimals token) = Err e'.
Proof using.
  unfold resultFor. intros H. destruct (formatAuditAmount (rv_delta values) _) eqn:E1; [|eauto].
  destruct (formatAuditAmount (rv_balance values) _) eqn:E2; [|eauto].
  destruct (formatAuditAmount (toString10 <$> supply) _) eqn:E3; [done|eauto].
Qed.

Lemma compare_audited chains token o chain rpcUrl w : resolved_to chains token o chain rpcUrl ->
  wp (compare_balance reader_getBalance o chain {| rb_chainId := oc_id chain; rb_depository := oc_depository chain; rb_vmType := oc_vmType chain |} rpcUrl)
     (fun res w' => w_db w' = w_db w /\ verdict_sound chains token res) (fun _ _ => False) w.
Proof using.
  intros Hr. pose proof (origin_known_id _ _ (rt_origin _ _ _ _ _ Hr)) as Hid. unfold compare_balance. apply wp_try.
  assert (forall e w', w_db w' = w_db w -> unchecked chains token AuditError -> wp (ofR (resultFor o None (verdict_only
    (Some {| rb_chainId := oc_id chain; rb_depository := oc_depository chain; rb_vmType := oc_vmType chain |}) (Some e) AuditError)))
     (fun res w' => w_db w' = w_db w /\ verdict_sound chains token res) (fun _ _ => False) w') as Hcatch.
  { intros e w' Hw Hu. by apply (verdict_audited chains token o _ _ _ w' (fun w' => w_db w' = w_db w)). }
  apply wp_bind. pose proof (reader_keeps eq (balance_input o chain rpcUrl) w) as Hk.
  unfold wp at 1 in Hk. unfold wp at 1. destruct (reader_getBalance _ w) as [[balance|e] w1] eqn:Er;
    [|apply Hcatch; [done|by eapply no_balance]].
  rewrite Hid. apply wp_bind, wp_rpc; [|intros e He; apply Hcatch; [done|by eapply no_supply]]. intros supply Hs.
  destruct (resultFor o (Some supply) _) as [res|e] eqn:Eres;
    [|apply Hcatch; [done|]; destruct (resultFor_err _ _ _ _ Eres) as (amount & e' & He'); by eapply no_format].
  unfold wp, ofR. split; [done|]. apply resultFor_ok in Eres as (x1 & x2 & x3 & ->). split; [done|].
  unfold is_checked, classifyDepositoryBalance. cbn [dr_status rv_status].
  destruct (Z.leb_spec supply balance); cbn [bool_decide orb];
    (exists o, chain, rpcUrl, w, w1, balance, (w_time w1), supply; split_and!; try done).
  split; [by intros [=]|lia].
Qed.

Lemma supported_family (f : option jsstring) : default [] f ∈ SUPPORTED_VM_TYPES -> f = Some (default [] f).
Proof using. destruct f; [done|]. intros H. exfalso. revert H. cbn. set_solver. Qed.
Lemma origin_audited chains token o w : origin_known token o ->
  wp (audit_origin reader_getBalance chains o)
     (fun res w' => w_db w' = w_db w /\ verdict_sound chains token res) (fun _ w' => w_db w' = w_db w /\ unreadable_id) w.
Proof using.
  intros Ho. pose proof (origin_known_id _ _ Ho) as Hid.
  assert (forall base error status, status <> Covered -> status <> Deficit -> unchecked chains token status ->
    wp (ofR (resultFor o None (verdict_only base error status)))
     (fun res w' => w_db w' = w_db w /\ verdict_sound chains token res) (fun _ w' => w_db w' = w_db w /\ unreadable_id) w) as Hv.
  { intros. by apply (verdict_audited chains token o _ _ _ w (fun w' => w_db w' = w_db w)). }
  unfold audit_origin. case_bool_decide as Hsup; cbn [negb]; [|apply Hv; [done..|by eapply no_reader]].
  apply wp_bind. pose proof (findOracleChain_elem chains o) as Hf. unfold wp at 1, ofR at 1.
  destruct (findOracleChain chains o) as [[[chain network]|]|e] eqn:Efind; [|apply Hv; [done..|by eapply no_chain]|done].
  case_bool_decide as Hvm; cbn [negb orb]; [|apply Hv; [done..|eapply other_family; eauto]].
  destruct (match network with Some _ => _ | None => _ end) eqn:Hnet.
  { apply Hv; [done..|]. destruct network as [n|]; [|done]. apply negb_true_iff, bool_decide_eq_false_1 in Hnet. eapply other_family; eauto. }
  destruct (truthy (environment _)) as [rpcUrl|] eqn:Erpc; [|apply Hv; [done..|by eapply no_endpoint]].
  pose proof (supported_family _ Hsup) as Hfam.
  destruct (bool_decide (_ ∈ NATIVE_ONLY_VM_TYPES) && _) eqn:Hnat.
  { apply andb_true_iff in Hnat as [H1%bool_decide_eq_true_1 H2%negb_true_iff%bool_decide_eq_false_1]. apply Hv; [done..|]. by eapply not_native. }
  eapply wp_conseq; [apply (compare_audited chains token)|done|done]. split; try done.
  - exists network. split; [done|]. intros n ->. apply negb_false_iff, bool_decide_eq_true_1 in Hnet. congruence.
  - congruence.
  - congruence.
  - rewrite Hvm. intros Hn. rewrite bool_decide_eq_true_2 in Hnat by done. by apply negb_false_iff, bool_decide_eq_true_1 in Hnat.
Qed.

Lemma token_audited_spec audited chains token w : token ∈ audited ->
  wp (audit_token reader_getBalance chains token)
     (fun res w' => metadata_only audited (w_db w) (w_db w') /\ verdict_sound chains token res)
     (fun _ w' => metadata_only audited (w_db w) (w_db w') /\ unreadable_id) w.
Proof using.
  intros Hin. unfold audit_token. apply wp_bind, wp_try, wp_bind. eapply wp_conseq; [by apply ensure_spec| |].
  - intros o w1 [H1 H2]. apply wp_ret. destruct o as [t|].
    + eapply wp_conseq; [by apply (origin_audited chains token)| |].
      * by intros res w2 [-> Hs].
      * by intros e w2 [-> Hu].
    + apply (verdict_audited chains token _ _ _ _ w1 (fun w' => metadata_only audited (w_db w) (w_db w'))); try done. by apply no_origin.
  - intros e w1 [H1 H2]. apply wp_ret.
    apply (verdict_audited chains token _ _ _ _ w1 (fun w' => metadata_only audited (w_db w) (w_db w'))); try done. by apply no_metadata.
Qed.

Lemma counts_add_up results : let s := summarize results in
  sm_covered s + sm_deficit s + sm_error s + sm_unsupported s = Z.of_nat (length results) /\
  sm_checked s = sm_covered s + sm_deficit s.
Proof using.
  cbn. unfold count_status. induction results as [|r results [IH1 IH2]]; [done|]. cbn [List.filter length].
  unfold is_checked in *. destruct (dr_status r) eqn:Er; repeat (case_bool_decide; try done); cbn [orb length] in *; lia.
Qed.

Lemma parse_chains_nodup l : forall parsed chains,
  NoDup (oc_id <$> parsed) -> parse_chains parsed l = Ok chains -> NoDup (oc_id <$> chains).
Proof using.
  induction l as [|v l IH]; intros parsed chains Hp H; [by injection H as <-|]. cbn [parse_chains] in H.
  apply bind_ok in H as (? & _ & H). apply bind_ok in H as (? & _ & H). apply bind_ok in H as (vm & _ & H).
  destruct (negb (bool_decide (vm ∈ SUPPORTED_VM_TYPES))); [by eapply IH|].
  apply bind_ok in H as (? & _ & H). apply bind_ok in H as (id & _ & H). apply bind_ok in H as (? & _ & H).
  apply bind_ok in H as (dep & _ & H). apply bind_ok in H as (? & Hdup & H). apply check_ok in Hdup.
  eapply IH; [|exact H]. rewrite fmap_app. apply NoDup_app. split_and!; [done| |by apply NoDup_singleton].
  intros i Hx ->%list_elem_of_singleton. apply list_elem_of_fmap in Hx as (c & Hid & Hc).
  assert (existsb (fun c => bool_decide (oc_id c = id)) parsed = true) as Ht by
    (apply existsb_exists; exists c; split; [by apply list_elem_of_In|by apply bool_decide_eq_true_2]).
  by rewrite Ht in Hdup.
Qed.
Lemma parseOracleChains_nodup payload chains : parseOracleChains payload = Ok chains -> NoDup (oc_id <$> chains).
Proof using.
  unfold parseOracleChains. intros H. apply bind_ok in H as (? & _ & H). apply bind_ok in H as (v & _ & H).
  destruct v; try done. eapply parse_chains_nodup; [|exact H]. constructor.
Qed.

(** The chain list cannot be had: no URL, no answer, or an answer that is not
    a list of chains. *)
Definition chains_unavailable (oracleApiUrl oracleApiKey : option jsstring) (t : nat) : Prop :=
  match truthy oracleApiUrl with
  | None => True
  | Some url =>
      match http_get t (oracleChainsUrl url) (truthy oracleApiKey) with
      | Ok payload => is_ok (parseOracleChains payload) = false
      | Err _ => True
      end
  end.

(** The chains that the oracle lists at time [t]. *)
Definition oracle_lists (oracleApiUrl oracleApiKey : option jsstring) (t : nat) (chains : list OracleChainInfo) : Prop :=
  exists url payload, truthy oracleApiUrl = Some url /\ http_get t (oracleChainsUrl url) (truthy oracleApiKey) = Ok payload /\
    parseOracleChains payload = Ok chains.

(** C34: One verdict per token of the hub, in the order of token ids.  A token
    is covered or in deficit exactly by the balance that the reader returned for
    its depository on the chain which the oracle lists for the token's origin,
    and the supply the hub returned; any other verdict has one of the listed
    reasons, so the failure of one token never stops the others.  The counts add
    up.  The audit writes nothing but the name, symbol, decimals and origin of
    tokens whose origin was missing, as the hub reports them.  It fails only
    without the chain list, on the token query, or on a network id that is not a
    number, and then too it has written nothing else. *)
Theorem depository_audit_sound oracleApiUrl oracleApiKey w :
  let audited := select_tokens (w_db w) in
  wp (runDepositoryBalanceAudit reader_getBalance oracleApiUrl oracleApiKey)
     (fun s w' => (exists chains, oracle_lists oracleApiUrl oracleApiKey (w_time w) chains /\ NoDup (oc_id <$> chains) /\
          Forall2 (verdict_sound chains) audited (sm_results s)) /\
        sm_covered s + sm_deficit s + sm_error s + sm_unsupported s = Z.of_nat (length (sm_results s)) /\
        sm_checked s = sm_covered s + sm_deficit s /\ metadata_only audited (w_db w) (w_db w'))
     (fun _ w' => metadata_only audited (w_db w) (w_db w') /\
        (chains_unavailable oracleApiUrl oracleApiKey (w_time w) \/ sql_fault (S (w_time w)) <> None \/ unreadable_id)) w.
Proof using.
  intros audited. unfold runDepositoryBalanceAudit, chains_unavailable. apply wp_bind. unfold wp at 1, ofR, require.
  destruct (truthy oracleApiUrl) as [url|] eqn:Eu; [|by split; [|left]]. unfold fetchOracleChains. apply wp_bind, wp_bind, wp_rpc.
  2:{ intros e He. rewrite He. by split; [|left]. }
  intros payload Hp. rewrite Hp. unfold wp at 1, ofR. destruct (parseOracleChains payload) as [chains|e] eqn:Ec; [|by split; [|left]].
  apply wp_bind. unfold query, sql, wp at 1. cbn [w_db w_time advance]. destruct (sql_fault (S (w_time w))) as [[s []]|];
    [split; [reflexivity|by right; left]..|].
  apply wp_bind. set (w0 := advance _ _). fold audited. eapply wp_conseq.
  - apply (wp_mapMM (fun w' => metadata_only audited (w_db w) (w_db w')) (verdict_sound chains)); [done|].
    intros token w1 Hin H1. eapply wp_conseq; [by apply (token_audited_spec audited)| |].
    + intros res w2 [H2 Hres]. split; [by etrans|exact Hres].
    + intros e w2 [H2 Hu]. instantiate (1 := fun _ w' => metadata_only audited (w_db w) (w_db w') /\ unreadable_id). split; [by etrans|done].
  - intros results w1 [H1 Hres]. apply wp_ret. destruct (counts_add_up results). split_and!; try done.
    exists chains. split; [by exists url, payload|]. split; [by eapply parseOracleChains_nodup|exact Hres].
  - intros e w1 [H1 Hu]. split; [done|]. by right; right.
Qed.
End Verdicts.

(** ** A concrete run *)

Section ToyDepository.
Definition toy_chain_list : Json := JObj [(js "chains", JArr
  [JObj [(js "id", JStr (js "ethereum")); (js "depository", JStr (js "0xdep")); (js "vmType", JStr (js "ethereum-vm"))];
   JObj [(js "id", JStr (js "bitcoin")); (js "depository", JStr (js "bc1dep")); (js "vmType", JStr (js "bitcoin-vm"))];
   JObj [(js "id", JStr (js "sui")); (js "vmType", JStr (js "sui-vm"))]])].
Definition toy_bitcoin_answer : Json := JObj [(js "result", JObj [(js "balance", JStr (js "2500"))])].
Definition toy_no_metadata : RawMetadata := {|
  rm_name := None; rm_symbol := None; rm_decimals := None; rm_family := None; rm_chainId := None; rm_asset := None |}.

Definition toy_depository : DepositoryEnv := {|
  http_get := fun _ url _ => if bool_decide (url = js "https://oracle/chains/v1") then Ok toy_chain_list else Err "404";
  http_post := fun _ _ _ => Ok toy_bitcoin_answer;
  lighter_account := fun _ _ _ => Err "offline";
  evm_chainId := fun _ _ => Ok 1;
  evm_getBalance := fun _ _ _ => Ok 100;
  evm_balanceOf := fun _ _ _ _ => Ok 40;
  balanceOf_data := fun _ => Err "unused";
  solana_vault := fun _ => Err "unused";
  solana_getBalance := fun _ _ _ => Err "unused";
  solana_mintOwner := fun _ _ _ => Err "unused";
  solana_tokenAccount := fun _ _ _ => Err "unused";
  solana_tokenBalance := fun _ _ _ => Err "unused";
  utf8_of_hex := fun h => h;
  hub_rawMetadata := fun _ _ => Ok toy_no_metadata;
  network_of := fun id =>
    if bool_decide (id = js "1") || bool_decide (id = js "ethereum")
    then Some {| nw_slug := js "ethereum"; nw_chainId := js "1"; nw_family := js "ethereum-vm" |}
    else if bool_decide (id = js "bitcoin") || bool_decide (id = js "0x00b")
    then Some {| nw_slug := js "bitcoin"; nw_chainId := js "0x00b"; nw_family := js "bitcoin-vm" |} else None;
  ethers_id := fun _ => js "0x01";
  environment := fun name => if bool_decide (name = js "ETHEREUM_RPC_URL") || bool_decide (name = js "BITCOIN_RPC_URL")
                             then Some (js "https://rpc") else None;
  formatUnits := fun text _ => Ok text |}.
Definition toy_supply : Chain := {|
  hub_name := @hub_name Toy.chain; hub_symbol := @hub_symbol Toy.chain; hub_decimals := @hub_decimals Toy.chain;
  hub_tokenMetadata := @hub_tokenMetadata Toy.chain; hub_balanceOf := @hub_balanceOf Toy.chain;
  hub_totalSupply := fun _ id => if bool_decide (id = js "10") then Ok 70 else Ok 2501;
  provider_getBlock := @provider_getBlock Toy.chain; hub_parseLog := @hub_parseLog Toy.chain; pg_code := @pg_code Toy.chain |}.

Definition toy_token (family chainId asset : option jsstring) : TokenRow := {|
  tk_name := None; tk_symbol := None; tk_decimals := Some 0; tk_originFamily := family; tk_originChainId := chainId;
  tk_originAsset := asset; tk_totalSupply := 0; tk_holders := 0; tk_transfers := 0 |}.
Definition toy_tokens : gmap jsstring TokenRow := {[
  js "30" := toy_token None None None;
  js "10" := toy_token (Some (js "ethereum-vm")) (Some (js "1")) (Some (getVmTypeNativeCurrency ethereum_vm));
  js "20" := toy_token (Some (js "bitcoin-vm")) (Some (js "0x00b")) (Some (getVmTypeNativeCurrency bitcoin_vm)) ]}.
Definition toy_audit_world : World := {|
  w_db := set_tokens (fun _ => toy_tokens) Toy.empty_db; w_time := 0; w_cache := ∅; w_updated := 0; w_txs := ∅ |}.

Example depository_audit_runs :
  match runDepositoryBalanceAudit (V := concrete_viem) (L := sdk_libs) (D := sdk_viem) (E := toy_depository) (F := no_faults) (C := toy_supply)
    (reader_getBalance (V := concrete_viem) (L := sdk_libs) (E := toy_depository)) (Some (js "https://oracle//")) None toy_audit_world with
  | (Ok s, _) => (fun r => (dr_tokenId r, dr_status r, dr_delta r)) <$> sm_results s =
      [(js "10", Covered, Some (js "30")); (js "20", Deficit, Some (js "-1")); (js "30", Unsupported, None)] /\ sm_checked s = 2
  | _ => False
  end.
Proof using. vm_compute. done. Qed.

Lemma decimal_units_witness : parseDecimalUnits (js "12.3456789") 4 = Ok 123456.
Proof using.
  apply (decimal_units_exact (js "12.3456789") 4 123456 ltac:(lia)). exists (js "12"), (js "3456789").
  split_and!; [repeat constructor|discriminate|repeat constructor|vm_compute; reflexivity|vm_compute; reflexivity].
Defined.
End ToyDepository.
