(* ===== verification/AbiSpec.v ===== *)
(** * Solidity's ABI encoding

    The contract ABI as its specification defines it: head and tail of a
    sequence, words, dynamic byte strings, arrays and tuples.  viem's
    [encodeAbiParameters] and [decodeAbiParameters], which the SDK's messages
    go through, are an interface whose laws refer to this encoding; the
    decoder below shows that the laws can hold.  Values are as viem takes
    them: numbers, hex strings, texts, booleans, arrays and objects. *)

From Stdlib Require Import Strings.Byte.
From S2P Require Import Prelude JsNum JsString HexBytes Abi BitcoinTx.
Local Open Scope Z_scope.
Local Open Scope js_scope.

(** ** Types and values *)

Inductive AbiTy :=
  | TUint (bits : Z) | TBool | TAddress | TFixed (size : nat) | TBytes | TString
  | TArray (item : AbiTy) | TTuple (fields : list (string * AbiTy)).
Inductive AbiVal :=
  | VNum (n : Z) | VBool (b : bool) | VHex (s : jsstring) | VText (s : jsstring)
  | VArr (items : list AbiVal) | VTup (fields : list AbiVal).

Fixpoint dynamic (t : AbiTy) : bool :=
  match t with
  | TBytes | TString | TArray _ => true
  | TTuple fields => existsb (fun f => dynamic f.2) fields
  | _ => false
  end.
(** The bytes a value of the type takes in the head. *)
Fixpoint static_size (t : AbiTy) : nat :=
  match t with
  | TTuple fields => foldr (fun f n => ((if dynamic f.2 then 32 else static_size f.2) + n)%nat) 0%nat fields
  | _ => 32
  end.
Definition head_size (t : AbiTy) : nat := if dynamic t then 32 else static_size t.

(** The bytes of a 0x-prefixed hex string. *)
Definition hex_value (s : jsstring) : option bytes :=
  if startsWith s (js "0x") then match hexToBytes s "hex" with Ok l => Some l | Err _ => None end else None.
Definition hex_bytes (s : jsstring) : bytes := default [] (hex_value s).
Definition hex0x (l : bytes) : jsstring := js "0x" ++ bytesToHex l.
(** A text that UTF-8 carries. *)
Definition carried (s : jsstring) : Prop := TextDecoder_decode (TextEncoder_encode s) = s.

(** Values of a type; without [strict], numbers may be out of range. *)
Inductive typed_in (strict : bool) : AbiTy -> AbiVal -> Prop :=
  | typed_uint bits n : 0 <= bits <= 256 -> (strict = true -> 0 <= n < 2 ^ bits) -> typed_in strict (TUint bits) (VNum n)
  | typed_bool b : typed_in strict TBool (VBool b)
  | typed_address s l : hex_value s = Some l -> length l = 20%nat -> typed_in strict TAddress (VHex s)
  | typed_fixed k s l : hex_value s = Some l -> length l = k -> (k <= 32)%nat -> typed_in strict (TFixed k) (VHex s)
  | typed_bytes s l : hex_value s = Some l -> typed_in strict TBytes (VHex s)
  | typed_string s : carried s -> typed_in strict TString (VText s)
  | typed_array t l : Forall (typed_in strict t) l -> Z.of_nat (length l) < 2 ^ 256 -> typed_in strict (TArray t) (VArr l)
  | typed_tuple fs l : Forall2 (fun f v => typed_in strict f.2 v) fs l -> typed_in strict (TTuple fs) (VTup l).
Abbreviation typed := (typed_in true).

(** ** Encoding *)

Definition word (n : Z) : bytes := word_loop 32 n [].
(** Each part with whether it goes to the tail. *)
Definition parts_head (parts : list (bool * bytes)) : nat :=
  foldr (fun (p : bool * bytes) n => ((if p.1 then 32 else length p.2) + n)%nat) 0%nat parts.
Fixpoint heads (offset : nat) (parts : list (bool * bytes)) : bytes :=
  match parts with
  | [] => []
  | (true, e) :: r => word (Z.of_nat offset) ++ heads (offset + length e) r
  | (false, e) :: r => e ++ heads offset r
  end.
Definition tails (parts : list (bool * bytes)) : bytes := mjoin ((fun p : bool * bytes => if p.1 then p.2 else []) <$> parts).
Definition enc_seq (parts : list (bool * bytes)) : bytes := heads (parts_head parts) parts ++ tails parts.

Fixpoint enc (v : AbiVal) (t : AbiTy) {struct v} : bytes :=
  match v, t with
  | VNum n, TUint _ => word n
  | VBool b, TBool => word (Z.b2z b)
  | VHex s, TAddress => zeros 12 ++ hex_bytes s
  | VHex s, TFixed k => hex_bytes s ++ zeros (32 - k)
  | VHex s, TBytes => enc_part (hex_bytes s)
  | VText s, TString => enc_part (TextEncoder_encode s)
  | VArr l, TArray t' => word (Z.of_nat (length l)) ++ enc_seq (List.map (fun w => (dynamic t', enc w t')) l)
  | VTup l, TTuple fs => enc_seq (zip_with (fun w f => (dynamic f.2, enc w f.2)) l fs)
  | _, _ => []
  end.
(** [encodeAbiParameters(types, values)] as bytes. *)
Definition abi_encode (ts : list AbiTy) (vs : list AbiVal) : bytes := enc_seq (zip_with (fun v t => (dynamic t, enc v t)) vs ts).
Definition abi_typed (ts : list AbiTy) (vs : list AbiVal) : Prop :=
  Forall2 typed ts vs /\ Z.of_nat (length (abi_encode ts vs)) < 2 ^ 256.

(** ** Decoding *)

(** What viem returns for an encoded value: hex in lower case, addresses with
    their checksum. *)
Fixpoint canon (checksum : jsstring -> jsstring) (v : AbiVal) (t : AbiTy) {struct v} : AbiVal :=
  match v, t with
  | VHex s, TAddress => VHex (checksum (hex0x (hex_bytes s)))
  | VHex s, _ => VHex (hex0x (hex_bytes s))
  | VArr l, TArray t' => VArr (List.map (fun w => canon checksum w t') l)
  | VTup l, TTuple fs => VTup (zip_with (fun w f => canon checksum w f.2) l fs)
  | _, _ => v
  end.

Section Decode.
Context (checksum : jsstring -> jsstring).

Definition at_head (f : AbiTy -> bytes -> option AbiVal) (t : AbiTy) (frame : bytes) (pos : nat) : option AbiVal :=
  if dynamic t then
    let offset := word_at frame pos in
    if offset <=? Z.of_nat (length frame) then f t (drop (Z.to_nat offset) frame) else None
  else f t (drop pos frame).
Definition read_bytes (l : bytes) : option bytes :=
  let n := word_at l 0 in
  if n <=? Z.of_nat (length l) then Some (take (Z.to_nat n) (drop 32 l)) else None.
Fixpoint dec (t : AbiTy) (l : bytes) {struct t} : option AbiVal :=
  match t with
  | TUint _ => Some (VNum (word_at l 0))
  | TBool => Some (VBool (negb (word_at l 0 =? 0)))
  | TAddress => if Nat.leb 32 (length l) then Some (VHex (checksum (hex0x (take 20 (drop 12 l))))) else None
  | TFixed k => if Nat.leb 32 (length l) then Some (VHex (hex0x (take k l))) else None
  | TBytes => VHex ∘ hex0x <$> read_bytes l
  | TString => VText ∘ TextDecoder_decode <$> read_bytes l
  | TArray t' =>
      let n := word_at l 0 in
      if n * Z.of_nat (head_size t') <=? Z.of_nat (length l) then
        VArr <$> mapM (fun i => at_head (fun _ => dec t') t' (drop 32 l) (i * head_size t')) (seq 0 (Z.to_nat n))
      else None
  | TTuple fs =>
      VTup <$> (fix go (fs : list (string * AbiTy)) (pos : nat) : option (list AbiVal) :=
        match fs with
        | [] => Some []
        | f :: fs' =>
            v ← at_head (fun _ => dec f.2) f.2 l pos;
            vs ← go fs' (pos + head_size f.2)%nat;
            Some (v :: vs)
        end) fs 0%nat
  end.
Fixpoint dec_fields (ts : list AbiTy) (l : bytes) (pos : nat) : option (list AbiVal) :=
  match ts with
  | [] => Some []
  | t :: ts' => v ← at_head dec t l pos; vs ← dec_fields ts' l (pos + head_size t)%nat; Some (v :: vs)
  end.
Definition abi_decode_all (ts : list AbiTy) (l : bytes) : option (list AbiVal) :=
  vs ← dec_fields ts l 0;
  if Z.of_nat (length (abi_encode ts vs)) <? 2 ^ 256 then Some vs else None.
End Decode.

(** ** Sequences *)

Lemma length_abi_word n : length (word n) = 32%nat.
Proof. apply length_word_loop. Qed.
Lemma word_at_app n post : 0 <= n < 2 ^ 256 -> word_at (word n ++ post) 0 = n.
Proof. intros Hn. by apply (word_at_word _ 0 n post). Qed.

Lemma length_heads o parts : length (heads o parts) = parts_head parts.
Proof.
  revert o. induction parts as [|[[] e] parts IH]; intros o; [done| |]; cbn [heads]; rewrite length_app, IH, ?length_abi_word; done.
Qed.
Lemma tails_app p q : tails (p ++ q) = tails p ++ tails q.
Proof. unfold tails. by rewrite fmap_app, join_app. Qed.
Lemma heads_app o p q : heads o (p ++ q) = heads o p ++ heads (o + length (tails p)) q.
Proof.
  revert o. induction p as [|[[] e] p IH]; intros o; cbn [heads app].
  - by rewrite Nat.add_0_r.
  - rewrite IH, <- app_assoc. replace (length (tails ((true, e) :: p))) with (length e + length (tails p))%nat
      by (unfold tails; cbn; by rewrite length_app). by rewrite Nat.add_assoc.
  - rewrite IH, <- app_assoc. done.
Qed.
Lemma parts_head_cons x p : parts_head (x :: p) = ((if x.1 then 32 else length x.2) + parts_head p)%nat.
Proof. done. Qed.
Lemma parts_head_app p q : parts_head (p ++ q) = (parts_head p + parts_head q)%nat.
Proof. induction p as [|x p IH]; [done|]. rewrite <- app_comm_cons, !parts_head_cons, IH. lia. Qed.

Lemma length_enc_seq parts : length (enc_seq parts) = (parts_head parts + length (tails parts))%nat.
Proof. unfold enc_seq. by rewrite length_app, length_heads. Qed.
Lemma part_length_le parts b e : (b, e) ∈ parts -> (length e <= length (enc_seq parts))%nat.
Proof.
  intros H. rewrite length_enc_seq. apply list_elem_of_split in H as (p & q & ->). rewrite parts_head_app, tails_app, length_app.
  rewrite parts_head_cons. unfold tails at 2. destruct b; cbn [fst snd fmap list_fmap mjoin list_join]; rewrite ?length_app; lia.
Qed.

(** A static part is in the head. *)
Lemma seq_static p e q rest : exists rest', drop (parts_head p) (enc_seq (p ++ (false, e) :: q) ++ rest) = e ++ rest'.
Proof.
  unfold enc_seq. rewrite heads_app, <- !app_assoc. rewrite drop_app_length' by (by rewrite length_heads). cbn [heads].
  rewrite <- app_assoc. eauto.
Qed.
(** A dynamic part is where its word of the head points. *)
Lemma seq_dynamic p e q rest : let frame := enc_seq (p ++ (true, e) :: q) ++ rest in
  Z.of_nat (length (enc_seq (p ++ (true, e) :: q))) < 2 ^ 256 ->
  0 <= word_at frame (parts_head p) <= Z.of_nat (length frame) /\
  exists rest', drop (Z.to_nat (word_at frame (parts_head p))) frame = e ++ rest'.
Proof.
  intros frame Hlen. set (parts := p ++ (true, e) :: q) in *. set (off := (parts_head parts + length (tails p))%nat).
  assert (length frame = (length (enc_seq parts) + length rest)%nat) as Hf by (unfold frame; by rewrite length_app).
  assert (off <= length (enc_seq parts))%nat as Ho.
  { unfold off. rewrite length_enc_seq. unfold parts. rewrite tails_app, length_app. lia. }
  assert (word_at frame (parts_head p) = Z.of_nat off) as Hw.
  { eapply word_at_word; [|lia]. unfold frame, enc_seq, parts. rewrite heads_app, <- !app_assoc.
    rewrite drop_app_length' by (by rewrite length_heads). cbn [heads]. rewrite <- app_assoc. reflexivity. }
  rewrite Hw, Nat2Z.id. split; [lia|]. unfold frame, enc_seq, off. rewrite <- app_assoc, <- drop_drop.
  rewrite drop_app_length' by (by rewrite length_heads). unfold parts. rewrite tails_app, <- app_assoc, drop_app_length.
  unfold tails at 1. cbn. rewrite <- app_assoc. eauto.
Qed.

(** ** Induction over types *)

Section TypeInduction.
Context (P : AbiTy -> Prop).
Context (Huint : forall n, P (TUint n)) (Hbool : P TBool) (Haddress : P TAddress) (Hfixed : forall k, P (TFixed k)).
Context (Hbytes : P TBytes) (Hstring : P TString) (Harray : forall t, P t -> P (TArray t)).
Context (Htuple : forall fs, Forall (fun f => P f.2) fs -> P (TTuple fs)).
Fixpoint AbiTy_nested_ind (t : AbiTy) : P t :=
  match t with
  | TUint n => Huint n | TBool => Hbool | TAddress => Haddress | TFixed k => Hfixed k | TBytes => Hbytes | TString => Hstring
  | TArray t' => Harray t' (AbiTy_nested_ind t')
  | TTuple fs => Htuple fs ((fix go (fs : list (string * AbiTy)) : Forall (fun f => P f.2) fs :=
      match fs with [] => Forall_nil_2 _ | f :: fs' => Forall_cons_2 _ _ _ (AbiTy_nested_ind f.2) (go fs') end) fs)
  end.
End TypeInduction.

(** The part of a field in a sequence. *)
Definition part (v : AbiVal) (t : AbiTy) : bool * bytes := (dynamic t, enc v t).

Lemma static_length t v : typed t v -> dynamic t = false -> length (enc v t) = static_size t.
Proof.
  revert v. induction t as [| | | | | | |fs IH] using AbiTy_nested_ind; intros v Ht Hd; inversion Ht; subst; try done; cbn [enc static_size];
    try apply length_abi_word.
  - unfold hex_bytes, zeros. rewrite length_app, length_replicate. match goal with H : hex_value _ = _ |- _ => rewrite H end. cbn. lia.
  - unfold hex_bytes, zeros. rewrite length_app, length_replicate. match goal with H : hex_value _ = _ |- _ => rewrite H end. cbn. lia.
  - match goal with H : Forall2 _ fs l |- _ => rename H into Hl end. cbn in Hd. clear Ht.
    assert (forall o, length (heads o (zip_with (fun w f => (dynamic f.2, enc w f.2)) l fs)) =
      foldr (fun f n => ((if dynamic f.2 then 32 else static_size f.2) + n)%nat) 0%nat fs /\
      tails (zip_with (fun w f => (dynamic f.2, enc w f.2)) l fs) = []) as Hs.
    { induction Hl as [|f w fs l Hw Hl IHl]; intros o; [done|]. apply Forall_cons in IH as [IHf IHs]. cbn in Hd.
      apply orb_false_iff in Hd as [Hd1 Hd2]. destruct (IHl IHs Hd2 o) as [E1 E2].
      cbn [zip_with heads foldr]. rewrite Hd1. unfold tails in *. cbn [fmap list_fmap mjoin list_join fst]. split; [|exact E2].
      rewrite length_app, IHf by done. rewrite E1. done. }
    unfold enc_seq. destruct (Hs (parts_head (zip_with (fun w f => (dynamic f.2, enc w f.2)) l fs))) as [E1 E2].
    by rewrite E2, app_nil_r.
Qed.
Lemma part_head_size t v : typed t v -> (if (part v t).1 then 32 else length (part v t).2)%nat = head_size t.
Proof. intros Ht. unfold part, head_size. cbn. destruct (dynamic t) eqn:E; [done|]. by apply static_length. Qed.
Lemma parts_head_typed ts vs : Forall2 typed ts vs ->
  parts_head (zip_with part vs ts) = foldr (fun t n => (head_size t + n)%nat) 0%nat ts.
Proof. induction 1 as [|t v ts vs Ht _ IH]; [done|]. cbn [zip_with foldr]. by rewrite parts_head_cons, part_head_size, IH. Qed.

(** ** Reading back *)

Section RoundTrip.
Context (checksum : jsstring -> jsstring).
Abbreviation dec := (dec checksum).
Abbreviation canon := (canon checksum).
Abbreviation dec_fields := (dec_fields checksum).

Definition reads (t : AbiTy) : Prop := forall v rest,
  typed t v -> Z.of_nat (length (enc v t)) < 2 ^ 256 -> dec t (enc v t ++ rest) = Some (canon v t).

Lemma at_head_reads t v p q rest : reads t -> typed t v ->
  Z.of_nat (length (enc_seq (p ++ part v t :: q))) < 2 ^ 256 ->
  at_head dec t (enc_seq (p ++ part v t :: q) ++ rest) (parts_head p) = Some (canon v t).
Proof using.
  intros Hr Ht Hlen. assert (Z.of_nat (length (enc v t)) < 2 ^ 256) as He.
  { assert (part v t ∈ p ++ part v t :: q) as Hin by set_solver. apply part_length_le in Hin. lia. }
  unfold at_head. unfold part in *. destruct (dynamic t) eqn:Hd.
  - destruct (seq_dynamic p (enc v t) q rest Hlen) as [Hw [rest' E]].
    rewrite (proj2 (Z.leb_le _ _)) by lia. rewrite E. by apply Hr.
  - destruct (seq_static p (enc v t) q rest) as [rest' E]. rewrite E. by apply Hr.
Qed.

Lemma dec_fields_reads ts : Forall reads ts -> forall vs p rest, Forall2 typed ts vs ->
  Z.of_nat (length (enc_seq (p ++ zip_with part vs ts))) < 2 ^ 256 ->
  dec_fields ts (enc_seq (p ++ zip_with part vs ts) ++ rest) (parts_head p) = Some (zip_with canon vs ts).
Proof using.
  induction 1 as [|t ts Hr Hrs IH]; intros vs p rest Hty Hlen; inversion Hty as [|? v ? vs' Ht Hty']; subst; [done|].
  cbn [dec_fields zip_with] in *. rewrite at_head_reads by done. cbn [mbind option_bind].
  specialize (IH vs' (p ++ [part v t]) rest Hty'). rewrite <- (app_assoc p [_]) in IH. cbn [app] in IH.
  replace (parts_head p + head_size t)%nat with (parts_head (p ++ [part v t])).
  2:{ rewrite parts_head_app, parts_head_cons, part_head_size by done. cbn. lia. }
  by rewrite IH.
Qed.

Lemma read_bytes_part l rest : Z.of_nat (length (enc_part l)) < 2 ^ 256 -> read_bytes (enc_part l ++ rest) = Some l.
Proof using.
  unfold enc_part, read_bytes. fold (word (Z.of_nat (length l))). intros Hlen. rewrite !length_app, length_abi_word in Hlen.
  rewrite <- !app_assoc. rewrite word_at_app by lia. rewrite (proj2 (Z.leb_le _ _)) by (rewrite !length_app; lia).
  rewrite Nat2Z.id, drop_app_length' by (by rewrite length_abi_word). by rewrite take_app_length.
Qed.

Lemma hex_value_hex0x l : hex_value (hex0x l) = Some l.
Proof using. unfold hex_value, hex0x. rewrite hexToBytes_0x. done. Qed.
Lemma hex_bytes_of s l : hex_value s = Some l -> hex_bytes s = l.
Proof using. unfold hex_bytes. by intros ->. Qed.

(** The anonymous loop of [dec] over the fields of a tuple. *)
Lemma dec_tuple fs l : dec (TTuple fs) l = VTup <$> dec_fields (snd <$> fs) l 0.
Proof using.
  cbn [AbiSpec.dec]. f_equal. generalize 0%nat. induction fs as [|f fs IH]; intros pos; [done|]. cbn [fmap list_fmap AbiSpec.dec_fields].
  rewrite <- IH. done.
Qed.

Lemma array_reads t : reads t -> reads (TArray t).
Proof using.
  intros Hr v rest Hty Hlen. inversion Hty as [| | | | | |? l Hl Hn|]; subst. cbn [enc AbiSpec.canon] in *. cbn [AbiSpec.dec].
  change (List.map (fun w => (dynamic t, enc w t)) l) with (List.map (fun w => part w t) l) in *.
  set (parts := List.map (fun w => part w t) l) in *. rewrite length_app, length_abi_word in Hlen.
  assert (forall k, (k <= length l)%nat -> parts_head (take k parts) = (k * head_size t)%nat) as Hheads.
  { clear -Hl. unfold parts. induction Hl as [|w l Hw Hl IH]; intros k Hk; [by destruct k; [|cbn in Hk; lia]|].
    destruct k as [|k]; [done|]. cbn [List.map take length] in *. rewrite parts_head_cons, part_head_size, IH by (done || lia). lia. }
  assert (length parts = length l) as Hpl by (unfold parts; apply List.length_map).
  assert (length l * head_size t <= length (enc_seq parts))%nat as Hle.
  { rewrite length_enc_seq, <- (Hheads (length l)) by done. rewrite take_ge by lia. lia. }
  rewrite <- app_assoc, word_at_app by lia. rewrite (proj2 (Z.leb_le _ _)) by (rewrite !length_app, length_abi_word; lia).
  rewrite Nat2Z.id, drop_app_length' by (by rewrite length_abi_word).
  erewrite (proj2 (mapM_Some _ _ (List.map (fun w => canon w t) l))); [done|].
  apply Forall2_same_length_lookup_2; [by rewrite length_seq, List.length_map|].
  intros i x y Hx Hy. apply lookup_seq in Hx as [-> Hi]. cbn [Nat.add] in *.
  change (List.map (fun w => canon w t) l) with ((fun w => canon w t) <$> l) in Hy.
  apply list_lookup_fmap_Some in Hy as (w & -> & Hw).
  assert (parts !! i = Some (part w t)) as Hp.
  { unfold parts. change (List.map (fun w => part w t) l) with ((fun w => part w t) <$> l). by rewrite list_lookup_fmap, Hw. }
  rewrite Forall_lookup in Hl. rewrite <- (Hheads i) by lia.
  rewrite <- (take_drop_middle parts i (part w t) Hp) at 1.
  apply (at_head_reads t w (take i parts) (drop (S i) parts) rest Hr); [by eapply Hl|].
  rewrite (take_drop_middle parts i (part w t) Hp). lia.
Qed.

Lemma tuple_parts l (fs : list (string * AbiTy)) :
  zip_with (fun w f => (dynamic f.2, enc w f.2)) l fs = zip_with part l (snd <$> fs).
Proof using. revert fs. induction l as [|v l IH]; intros [|f fs]; [done..|]. cbn. by rewrite IH. Qed.

Theorem dec_enc t : reads t.
Proof using.
  induction t as [bits| | |k| | |t IH|fs IH] using AbiTy_nested_ind; [intros v rest Hty Hlen; inversion Hty; subst; cbn [enc AbiSpec.canon AbiSpec.dec]..| |].
  - rewrite word_at_app; [done|]. assert (2 ^ bits <= 2 ^ 256) by (apply Z.pow_le_mono_r; lia). assert (0 <= n < 2 ^ bits) by eauto. lia.
  - rewrite word_at_app by (destruct b; cbn; lia). by destruct b.
  - erewrite hex_bytes_of by done. rewrite (proj2 (Nat.leb_le _ _)) by (unfold zeros; rewrite !length_app, length_replicate; lia).
    rewrite <- app_assoc, drop_app_length' by done. by rewrite take_app_length'.
  - erewrite hex_bytes_of by done. rewrite (proj2 (Nat.leb_le _ _)) by (unfold zeros; rewrite !length_app, length_replicate; lia).
    rewrite <- app_assoc. by rewrite take_app_length.
  - by rewrite read_bytes_part.
  - rewrite read_bytes_part by done. cbn. f_equal. f_equal. done.
  - by apply array_reads.
  - intros v rest Hty Hlen. inversion Hty as [| | | | | | |? l Hl]; subst. rewrite dec_tuple. cbn [enc AbiSpec.canon] in *.
    rewrite tuple_parts in *. assert (Forall2 typed (snd <$> fs) l) as Hl' by (by apply Forall2_fmap_l).
    pose proof (dec_fields_reads (snd <$> fs) ltac:(by apply Forall_fmap) l [] rest Hl' Hlen) as E.
    change (parts_head []) with 0%nat in E. rewrite app_nil_l in E. rewrite E. cbn [fmap option_fmap option_map]. do 2 f_equal.
    clear. revert fs. induction l as [|v l IH]; intros [|f fs]; [done..|]. cbn. by rewrite IH.
Qed.

Hypothesis checksum_law : forall l, hex_value (checksum (hex0x l)) = Some l.

(** The canonical form encodes as the value does. *)
Lemma enc_canon t : forall v, typed t v -> enc (canon v t) t = enc v t.
Proof using checksum_law.
  induction t as [bits| | |k| | |t IH|fs IH] using AbiTy_nested_ind; intros v Hty; inversion Hty; subst; cbn [enc AbiSpec.canon]; try done.
  - unfold hex_bytes at 1. rewrite checksum_law. done.
  - unfold hex_bytes at 1. rewrite hex_value_hex0x. done.
  - unfold hex_bytes at 1. rewrite hex_value_hex0x. done.
  - rewrite List.length_map. f_equal. f_equal. rewrite List.map_map. apply List.map_ext_in. intros w Hw.
    rewrite IH; [done|]. match goal with H : Forall _ l |- _ => rewrite Forall_forall in H; apply H end. by apply list_elem_of_In.
  - f_equal. match goal with H : Forall2 _ fs l |- _ => rename H into Hl end. clear Hty. induction Hl as [|f w fs l Hw Hl IHl]; [done|].
    apply Forall_cons in IH as [Hf IHs]. cbn [zip_with]. rewrite Hf by done. f_equal. by apply IHl.
Qed.
Lemma abi_encode_canon ts vs : Forall2 typed ts vs -> abi_encode ts (zip_with canon vs ts) = abi_encode ts vs.
Proof using checksum_law.
  intros H. unfold abi_encode. f_equal. induction H as [|t v ts vs Ht _ IH]; [done|]. cbn [zip_with]. by rewrite IH, enc_canon.
Qed.

(** Encoded parameters decode to their canonical form, whatever follows. *)
Theorem abi_roundtrip ts vs rest : abi_typed ts vs ->
  abi_decode_all checksum ts (abi_encode ts vs ++ rest) = Some (zip_with canon vs ts).
Proof using checksum_law.
  intros [Hty Hlen]. unfold abi_decode_all. 
  assert (dec_fields ts (abi_encode ts vs ++ rest) 0 = Some (zip_with canon vs ts)) as ->.
  { apply (dec_fields_reads ts ltac:(apply Forall_forall; intros; apply dec_enc) vs [] rest Hty Hlen). }
  cbn [mbind option_bind]. rewrite abi_encode_canon by done. by rewrite (proj2 (Z.ltb_lt _ _)).
Qed.
(** Equal encodings are of equal values. *)
Theorem abi_encode_inj ts vs ws : abi_typed ts vs -> abi_typed ts ws -> abi_encode ts vs = abi_encode ts ws ->
  zip_with canon vs ts = zip_with canon ws ts.
Proof using checksum_law.
  intros Hv Hw E. pose proof (abi_roundtrip ts vs [] Hv) as E1. pose proof (abi_roundtrip ts ws [] Hw) as E2. congruence.
Qed.

(** *** Decoded values have their type *)

(** Types whose decoder cannot return a value of another type: viem does not
    check that a narrow integer fits. *)
Fixpoint wide (t : AbiTy) : bool :=
  match t with
  | TUint bits => bits =? 256
  | TFixed k => Nat.leb k 32
  | TString => false
  | TArray t' => wide t'
  | TTuple fs => forallb (fun f => wide f.2) fs
  | _ => true
  end.

Lemma word_at_bound l off : 0 <= word_at l off < 2 ^ 256.
Proof using.
  unfold word_at. pose proof (be_val_bound (take 32 (drop off l))) as H. rewrite length_take in H.
  assert (256 ^ Z.of_nat (32 `min` length (drop off l)) <= 256 ^ 32) by (apply Z.pow_le_mono_r; lia).
  change (256 ^ 32) with (2 ^ 256) in *. lia.
Qed.

Lemma at_head_typed t l pos v : (forall l v, dec t l = Some v -> typed t v) -> at_head dec t l pos = Some v -> typed t v.
Proof using. intros Ht. unfold at_head. destruct (dynamic t); [destruct (_ <=? _); [|done]|]; apply Ht. Qed.
Lemma dec_fields_typed ts : Forall (fun t => forall l v, dec t l = Some v -> typed t v) ts ->
  forall l pos vs, dec_fields ts l pos = Some vs -> Forall2 typed ts vs.
Proof using.
  induction 1 as [|t ts Ht _ IH]; intros l pos vs H; [injection H as <-; constructor|]. cbn [AbiSpec.dec_fields] in H.
  destruct (at_head dec t l pos) as [v|] eqn:E1; [|done]. cbn in H. destruct (dec_fields ts l _) as [vs'|] eqn:E2; [|done]. injection H as <-.
  constructor; [by eapply at_head_typed|by eapply IH].
Qed.
Lemma dec_typed t : wide t = true -> forall l v, dec t l = Some v -> typed t v.
Proof using checksum_law.
  induction t as [bits| | |k| | |t IH|fs IH] using AbiTy_nested_ind; intros Hw l v H; cbn [wide] in Hw; [cbn [AbiSpec.dec] in H..|].
  - injection H as <-. apply Z.eqb_eq in Hw. subst. constructor; [lia|]. intros _. apply word_at_bound.
  - injection H as <-. constructor.
  - destruct (Nat.leb_spec 32 (length l)); [|done]. injection H as <-. econstructor; [apply checksum_law|].
    rewrite length_take, length_drop. lia.
  - destruct (Nat.leb_spec 32 (length l)); [|done]. injection H as <-. apply Nat.leb_le in Hw.
    econstructor; [apply hex_value_hex0x|rewrite length_take; lia|done].
  - destruct (read_bytes l); [|done]. injection H as <-. econstructor. apply hex_value_hex0x.
  - done.
  - destruct (_ <=? _); [|done]. destruct (mapM _ _) as [vs|] eqn:E; [|done]. injection H as <-. apply mapM_Some in E. constructor.
    + apply Forall_lookup. intros i x Hx. destruct (Forall2_lookup_r _ _ _ _ _ E Hx) as (j & _ & Hj). eapply at_head_typed; [|exact Hj].
      by apply IH.
    + apply Forall2_length in E. rewrite length_seq in E. pose proof (word_at_bound l 0). lia.
  - rewrite dec_tuple in H. destruct (dec_fields _ _ _) as [vs|] eqn:E; [|done]. injection H as <-. constructor.
    apply Forall2_fmap_l. eapply dec_fields_typed; [|exact E]. apply Forall_fmap. apply forallb_Forall in Hw.
    rewrite Forall_forall in IH, Hw |- *. intros f Hf. exact (IH f Hf (Hw f Hf)).
Qed.
Theorem abi_decoded_typed ts l vs : forallb wide ts = true -> abi_decode_all checksum ts l = Some vs -> abi_typed ts vs.
Proof using checksum_law.
  unfold abi_decode_all. intros Hw H. destruct (dec_fields ts l 0) as [ws|] eqn:E; [|done]. cbn [mbind option_bind] in H.
  destruct (Z.ltb_spec (Z.of_nat (length (abi_encode ts ws))) (2 ^ 256)); [|done]. injection H as <-. split; [|done].
  eapply dec_fields_typed; [|exact E]. apply forallb_Forall in Hw. eapply Forall_impl; [exact Hw|]. intros t Ht. by apply dec_typed.
Qed.
End RoundTrip.

(** ** Deciding types *)

Section Deciding.
Context (strict : bool).

Definition hex_sized (s : jsstring) (ok : nat -> bool) : bool :=
  match hex_value s with Some l => ok (length l) | None => false end.
Fixpoint typedb (v : AbiVal) (t : AbiTy) {struct v} : bool :=
  match v, t with
  | VNum n, TUint bits => (0 <=? bits) && (bits <=? 256) && (negb strict || (0 <=? n) && (n <? 2 ^ bits))
  | VBool _, TBool => true
  | VHex s, TAddress => hex_sized s (Nat.eqb 20)
  | VHex s, TFixed k => hex_sized s (Nat.eqb k) && Nat.leb k 32
  | VHex s, TBytes => hex_sized s (fun _ => true)
  | VText s, TString => bool_decide (TextDecoder_decode (TextEncoder_encode s) = s)
  | VArr l, TArray t' => forallb (fun w => typedb w t') l && (Z.of_nat (length l) <? 2 ^ 256)
  | VTup l, TTuple fs =>
      (fix go (l : list AbiVal) (fs : list (string * AbiTy)) : bool :=
        match l, fs with
        | [], [] => true
        | w :: l', f :: fs' => typedb w f.2 && go l' fs'
        | _, _ => false
        end) l fs
  | _, _ => false
  end.

Lemma hex_sized_true s ok : hex_sized s ok = true <-> exists l, hex_value s = Some l /\ ok (length l) = true.
Proof using. unfold hex_sized. destruct (hex_value s) as [l|]; [|naive_solver]. split; [eauto|]. by intros (? & [= ->] & ?). Qed.

Lemma typedb_spec t : forall v, typedb v t = true <-> typed_in strict t v.
Proof using.
  induction t as [bits| | |k| | |t IH|fs IH] using AbiTy_nested_ind; intros v; (split; [destruct v; try done; cbn [typedb]|intros H; inversion H; subst; cbn [typedb]]).
  - intros H. apply andb_true_iff in H as [H1 H2]. apply andb_true_iff in H1 as [H0 H1]. constructor; [lia|]. intros ->. cbn in H2. lia.
  - match goal with H : strict = true -> _ |- _ => destruct strict; [specialize (H eq_refl)|clear H] end; cbn; lia.
  - constructor.
  - done.
  - intros (l & Hl & Hk)%hex_sized_true. apply Nat.eqb_eq in Hk. by econstructor.
  - apply hex_sized_true. exists l. split; [done|]. apply Nat.eqb_eq. done.
  - intros [(l & Hl & Hk)%hex_sized_true Hle]%andb_true_iff. apply Nat.eqb_eq in Hk. apply Nat.leb_le in Hle. by econstructor.
  - apply andb_true_iff. split; [|by apply Nat.leb_le]. apply hex_sized_true. exists l. split; [done|]. apply Nat.eqb_refl.
  - intros (l & Hl & _)%hex_sized_true. by econstructor.
  - apply hex_sized_true. eauto.
  - intros H. apply bool_decide_eq_true in H. by constructor.
  - by apply bool_decide_eq_true.
  - intros [H Hn]%andb_true_iff. apply forallb_Forall in H. constructor; [|lia]. eapply Forall_impl; [exact H|]. intros w. apply IH.
  - apply andb_true_iff. split; [|lia]. apply forallb_Forall. eapply Forall_impl; [eassumption|]. intros w. apply IH.
  - intros H. constructor. revert fields H. induction IH as [|f fs Hf _ IHs]; intros [|w l] H; try done.
    apply andb_true_iff in H as [H1 H2]. constructor; [by apply Hf|by apply IHs].
  - match goal with H : Forall2 _ fs l |- _ => rename H into Hl end. clear H. induction Hl as [|f w fs l Hw Hl IHl]; [done|].
    apply Forall_cons in IH as [Hf IHs]. apply andb_true_iff. split; [by apply Hf|by apply IHl].
Qed.
End Deciding.
