(* ===== verification/SdkCodec.v ===== *)
(** * Withdrawal payloads: the codec interface and the call requests

    packages/sdk/src/messages/v2.1/withdrawals/codec.ts and ethereum-vm.ts,
    and messages/common/ethereum-vm/routed.ts.
    viem's ABI functions are the interface [SdkAbi]; numbers that a payload
    carries as JavaScript numbers are [jsnum] where their precision matters
    and integers otherwise. *)

From Stdlib Require Import Strings.Byte.
From S2P Require Import Prelude JsNum JsString JsNumber Scanner HexBytes Abi BitcoinTx HederaIds SdkAddress AbiSpec.
Local Open Scope Z_scope.
Local Open Scope js_scope.

(** ** viem *)

Class SdkAbi := {
  encodeAbi : list AbiTy -> list AbiVal -> result jsstring;
  decodeAbi : list AbiTy -> jsstring -> result (list AbiVal);
  (** [encodeFunctionData] of the function with this name and inputs. *)
  encodeCall : string -> list AbiTy -> list AbiVal -> result jsstring;
  (** [keccak256] of a hex string. *)
  keccakHex : jsstring -> result jsstring;
  (** [tronweb.utils._TypedDataEncoder.hashStruct] and viem's [hashStruct]. *)
  hashStructOf : list (string * list (string * string)) -> string -> list AbiVal -> result jsstring;
}.

(** [stringToHex(s)]. *)
Definition stringToHex (s : jsstring) : jsstring := hex0x (TextEncoder_encode s).
(** [concat(parts)] of hex strings. *)
Definition concatHex (parts : list jsstring) : jsstring := js "0x" ++ mjoin (drop 2 <$> parts).
(** [BigInt(n)] of a number. *)
Definition BigInt_num (n : jsnum) : result Z := match n with JInt z => Ok z | _ => Err "RangeError" end.

(** ** codec.ts *)

Record WithdrawalCodec (W : Type) := {
  wc_encode : W -> result jsstring;
  wc_decode : jsstring -> result W;
  wc_getId : W -> result jsstring;
  wc_getCurrency : W -> result jsstring;
  wc_getAmount : W -> result jsstring;
  wc_getRecipient : W -> result jsstring }.
Arguments wc_encode {W}. Arguments wc_decode {W}. Arguments wc_getId {W}.
Arguments wc_getCurrency {W}. Arguments wc_getAmount {W}. Arguments wc_getRecipient {W}.

(** Both directions of one ABI schema. *)
Record AbiCodec (W : Type) := { ac_encode : W -> result jsstring; ac_decode : jsstring -> result W }.
Arguments ac_encode {W}. Arguments ac_decode {W}.
Definition defineAbiWithdrawalCodec `{SdkAbi} {W} (params : list AbiTy) (toAbi : W -> result (list AbiVal))
    (fromAbi : list AbiVal -> result W) : AbiCodec W := {|
  ac_encode := fun withdrawal => values ← toAbi withdrawal; encodeAbi params values;
  ac_decode := fun encodedWithdrawal => values ← decodeAbi params encodedWithdrawal; fromAbi values |}.

(** ** Call requests (ethereum-vm.ts) *)

Record CommittedCall := {
  cc_to : jsstring; cc_data : jsstring; cc_dataHash : jsstring; cc_value : jsstring; cc_allowFailure : bool }.
Record CommittedCallRequestWithdrawal := {
  cw_calls : list CommittedCall; cw_nonce : jsstring; cw_expiration : jsnum }.
Record ExecCall := { xc_to : jsstring; xc_data : jsstring; xc_value : jsstring; xc_allowFailure : bool }.
Record CallRequestWithdrawal := { xw_calls : list ExecCall; xw_nonce : jsstring; xw_expiration : jsnum }.

Definition callTuple : AbiTy :=
  TTuple [("to", TAddress); ("data", TBytes); ("value", TUint 256); ("allowFailure", TBool)].
Definition callRequestAbiParams : list AbiTy :=
  [TTuple [("calls", TArray callTuple); ("nonce", TUint 256); ("expiration", TUint 256)]].
Definition committedCallTuple : AbiTy :=
  TTuple [("to", TAddress); ("data", TBytes); ("dataHash", TFixed 32); ("value", TUint 256); ("allowFailure", TBool)].
Definition committedCallRequestAbiParams : list AbiTy :=
  [TTuple [("calls", TArray committedCallTuple); ("nonce", TUint 256); ("expiration", TUint 256)]].

Definition ZERO_DATA_HASH : jsstring := js "0x0000000000000000000000000000000000000000000000000000000000000000".

(** The parts of a call that the shared readers use. *)
Record TransferCall := { tc_to : jsstring; tc_data : jsstring; tc_value : jsstring }.
Definition committed_transfer (c : CommittedCall) : TransferCall :=
  {| tc_to := cc_to c; tc_data := cc_data c; tc_value := cc_value c |}.
Definition exec_transfer (c : ExecCall) : TransferCall := {| tc_to := xc_to c; tc_data := xc_data c; tc_value := xc_value c |}.
(** [withdrawal.calls[0]], whose fields are then read. *)
Definition firstCall (calls : list TransferCall) : result TransferCall := require (head calls) "TypeError".

Section CallRequests.
Context `{A : SdkAbi}.

Definition getCallRequestCurrency (calls : list TransferCall) (vmType : SdkVm) : result jsstring :=
  first ← firstCall calls;
  Ok (if bool_decide (tc_data first = js "0x") then getVmTypeNativeCurrency vmType else tc_to first).

Definition TRANSFER_SELECTOR : jsstring := js "0xa9059cbb".
Definition decodeERC20TransferParams (data : jsstring) : result (jsstring * Z) :=
  if startsWith (toLowerCase data) (toLowerCase TRANSFER_SELECTOR) then
    params ← decodeAbi [TAddress; TUint 256] (js "0x" ++ drop (length TRANSFER_SELECTOR) data);
    match params with
    | [VHex to; VNum amount] => Ok (to, amount)
    | _ => Err "TypeError"
    end
  else Err "Unsupported function call data".

Definition getCallRequestAmount (calls : list TransferCall) : result jsstring :=
  first ← firstCall calls;
  if bool_decide (tc_data first = js "0x") then Ok (tc_value first)
  else '(_, amount) ← decodeERC20TransferParams (tc_data first); Ok (toString10 amount).
Definition getCallRequestRecipient (calls : list TransferCall) : result jsstring :=
  first ← firstCall calls;
  if bool_decide (tc_data first = js "0x") then Ok (tc_to first)
  else '(to, _) ← decodeERC20TransferParams (tc_data first); Ok to.

Definition CALL_TYPE : jsstring := js "Call(address to,bytes data,uint256 value,bool allowFailure)".
Definition CALL_REQUEST_TYPE : jsstring :=
  js "CallRequest(Call[] calls,uint256 nonce,uint256 expiration)Call(address to,bytes data,uint256 value,bool allowFailure)".
Definition CALL_TYPEHASH : result jsstring := keccakHex (stringToHex CALL_TYPE).
Definition CALL_REQUEST_TYPEHASH : result jsstring := keccakHex (stringToHex CALL_REQUEST_TYPE).

(** The struct hash of one call, with the hash of its calldata given. *)
Definition hashCall (typehash : jsstring) (to dataHash value : jsstring) (allowFailure : bool) : result jsstring :=
  amount ← BigInt value;
  encoded ← encodeAbi [TFixed 32; TAddress; TFixed 32; TUint 256; TBool]
    [VHex typehash; VHex to; VHex dataHash; VNum amount; VBool allowFailure];
  keccakHex encoded.
Definition committed_call_hash (call : CommittedCall) : result jsstring :=
  fail_if negb (bool_decide (cc_dataHash call = ZERO_DATA_HASH)) && negb (bool_decide (cc_data call = js "0x"))
    with "Call carries both calldata and a commitment to it" ;;
  dataHash ← if bool_decide (cc_dataHash call = ZERO_DATA_HASH) then keccakHex (cc_data call) else Ok (cc_dataHash call);
  typehash ← CALL_TYPEHASH;
  hashCall typehash (cc_to call) dataHash (cc_value call) (cc_allowFailure call).
Definition getCommittedCallRequestId (withdrawal : CommittedCallRequestWithdrawal) : result jsstring :=
  callHashes ← mapM committed_call_hash (cw_calls withdrawal);
  typehash ← CALL_REQUEST_TYPEHASH;
  callsHash ← keccakHex (concatHex callHashes);
  nonce ← BigInt (cw_nonce withdrawal);
  expiration ← BigInt_num (cw_expiration withdrawal);
  encoded ← encodeAbi [TFixed 32; TFixed 32; TUint 256; TUint 256]
    [VHex typehash; VHex callsHash; VNum nonce; VNum expiration];
  keccakHex encoded.

(** The indexes of the calls that carry a commitment. *)
Fixpoint committed_indexes (index : nat) (calls : list CommittedCall) : list nat :=
  match calls with
  | [] => []
  | call :: rest =>
      if bool_decide (cc_dataHash call = ZERO_DATA_HASH) then committed_indexes (S index) rest
      else index :: committed_indexes (S index) rest
  end.
Definition exec_call (data : jsstring) (call : CommittedCall) : ExecCall := {|
  xc_to := cc_to call; xc_data := data; xc_value := cc_value call; xc_allowFailure := cc_allowFailure call |}.
Definition exec_calls (committedIndex : option nat) (calldata : jsstring) (calls : list CommittedCall) : list ExecCall :=
  imap (fun index call => exec_call (if bool_decide (Some index = committedIndex) then toLowerCase calldata else cc_data call) call) calls.
Definition toExecutableCallRequest (withdrawal : CommittedCallRequestWithdrawal) (calldata : option jsstring)
  : result CallRequestWithdrawal :=
  let committedIndexes := committed_indexes 0 (cw_calls withdrawal) in
  fail_if Nat.ltb 1 (length committedIndexes) with "Expected at most one committed call" ;;
  let committedIndex := head committedIndexes in
  let committed := committedIndex ≫= fun i => cw_calls withdrawal !! i in
  fail_if match committed with Some call => negb (bool_decide (cc_data call = js "0x")) | None => false end
    with "Call carries both calldata and a commitment to it" ;;
  _ ← match committed with
      | None => fail_if bool_decide (is_Some calldata) with "Calldata supplied for a request with no committed call" ;; Ok tt
      | Some call =>
          data ← require calldata "Missing calldata for the committed call";
          hash ← keccakHex data;
          fail_if negb (bool_decide (toLowerCase hash = toLowerCase (cc_dataHash call)))
            with "Calldata does not match the call commitment" ;;
          Ok tt
      end;
  Ok {| xw_calls := exec_calls committedIndex (default [] calldata) (cw_calls withdrawal);
        xw_nonce := cw_nonce withdrawal; xw_expiration := cw_expiration withdrawal |}.

Definition committed_call_toAbi (call : CommittedCall) : result AbiVal :=
  value ← BigInt (cc_value call);
  Ok (VTup [VHex (cc_to call); VHex (cc_data call); VHex (cc_dataHash call); VNum value; VBool (cc_allowFailure call)]).
Definition committed_call_fromAbi (item : AbiVal) : result CommittedCall :=
  match item with
  | VTup [VHex to; VHex data; VHex dataHash; VNum value; VBool allowFailure] =>
      Ok {| cc_to := toLowerCase to; cc_data := toLowerCase data; cc_dataHash := toLowerCase dataHash;
            cc_value := toString10 value; cc_allowFailure := allowFailure |}
  | _ => Err "TypeError"
  end.
Definition committed_toAbi (withdrawal : CommittedCallRequestWithdrawal) : result (list AbiVal) :=
  calls ← mapM committed_call_toAbi (cw_calls withdrawal);
  nonce ← BigInt (cw_nonce withdrawal);
  expiration ← BigInt_num (cw_expiration withdrawal);
  Ok [VTup [VArr calls; VNum nonce; VNum expiration]].
Definition committed_fromAbi (values : list AbiVal) : result CommittedCallRequestWithdrawal :=
  match values with
  | [VTup [VArr items; VNum nonce; VNum expiration]] =>
      calls ← mapM committed_call_fromAbi items;
      Ok {| cw_calls := calls; cw_nonce := toString10 nonce; cw_expiration := Number (toString10 expiration) |}
  | _ => Err "TypeError"
  end.
Definition abiCodec : AbiCodec CommittedCallRequestWithdrawal :=
  defineAbiWithdrawalCodec committedCallRequestAbiParams committed_toAbi committed_fromAbi.

Definition call_toAbi (to : jsstring) (call : ExecCall) : result AbiVal :=
  value ← BigInt (xc_value call);
  Ok (VTup [VHex to; VHex (xc_data call); VNum value; VBool (xc_allowFailure call)]).
(** [address] turns the decoded address into the text of the VM. *)
Definition call_fromAbi (address : jsstring -> jsstring) (item : AbiVal) : result ExecCall :=
  match item with
  | VTup [VHex to; VHex data; VNum value; VBool allowFailure] =>
      Ok {| xc_to := address to; xc_data := toLowerCase data; xc_value := toString10 value; xc_allowFailure := allowFailure |}
  | _ => Err "TypeError"
  end.
Definition call_request_toAbi (address : jsstring -> jsstring) (withdrawal : CallRequestWithdrawal) : result (list AbiVal) :=
  calls ← mapM (fun call => call_toAbi (address (xc_to call)) call) (xw_calls withdrawal);
  nonce ← BigInt (xw_nonce withdrawal);
  expiration ← BigInt_num (xw_expiration withdrawal);
  Ok [VTup [VArr calls; VNum nonce; VNum expiration]].
Definition call_request_fromAbi (address : jsstring -> jsstring) (values : list AbiVal) : result CallRequestWithdrawal :=
  match values with
  | [VTup [VArr items; VNum nonce; VNum expiration]] =>
      calls ← mapM (call_fromAbi address) items;
      Ok {| xw_calls := calls; xw_nonce := toString10 nonce; xw_expiration := Number (toString10 expiration) |}
  | _ => Err "TypeError"
  end.
Definition legacyAbiCodec : AbiCodec CallRequestWithdrawal :=
  defineAbiWithdrawalCodec callRequestAbiParams (call_request_toAbi id) (call_request_fromAbi toLowerCase).

(** A candidate counts only if it encodes back to its own input. *)
Definition decodeUnderSchema {W} (codec : AbiCodec W) (encodedWithdrawal : jsstring) : option W :=
  match (withdrawal ← ac_decode codec encodedWithdrawal; again ← ac_encode codec withdrawal; Ok (withdrawal, again)) with
  | Ok (withdrawal, again) => if bool_decide (toLowerCase again = toLowerCase encodedWithdrawal) then Some withdrawal else None
  | Err _ => None
  end.
Definition uncommitted (call : ExecCall) : CommittedCall := {|
  cc_to := xc_to call; cc_data := xc_data call; cc_dataHash := ZERO_DATA_HASH; cc_value := xc_value call;
  cc_allowFailure := xc_allowFailure call |}.
Definition uncommitted_request (w : CallRequestWithdrawal) : CommittedCallRequestWithdrawal :=
  {| cw_calls := uncommitted <$> xw_calls w; cw_nonce := xw_nonce w; cw_expiration := xw_expiration w |}.

Definition ethereum_decode (encodedWithdrawal : jsstring) : result CommittedCallRequestWithdrawal :=
  match decodeUnderSchema abiCodec encodedWithdrawal with
  | Some committed => Ok committed
  | None =>
      match decodeUnderSchema legacyAbiCodec encodedWithdrawal with
      | Some legacy => Ok (uncommitted_request legacy)
      | None => Err "Failed to decode ethereum-vm CallRequest"
      end
  end.
Definition ethereumVmCodec : WithdrawalCodec CommittedCallRequestWithdrawal := {|
  wc_encode := ac_encode abiCodec; wc_decode := ethereum_decode; wc_getId := getCommittedCallRequestId;
  wc_getCurrency := fun w => getCallRequestCurrency (committed_transfer <$> cw_calls w) ethereum_vm;
  wc_getAmount := fun w => getCallRequestAmount (committed_transfer <$> cw_calls w);
  wc_getRecipient := fun w => getCallRequestRecipient (committed_transfer <$> cw_calls w) |}.

(** ** routed.ts *)

Record RoutedCall := { rc_to : jsstring; rc_data : jsstring; rc_value : jsstring; rc_allowFailure : bool }.
Definition encodeRoutedCallsCalldata (calls : list RoutedCall) : result jsstring :=
  fail_if bool_decide (calls = []) with "Routed withdrawal data requires at least one call" ;;
  items ← mapM (fun call => value ← BigInt (rc_value call);
    Ok (VTup [VHex (rc_to call); VHex (rc_data call); VNum value; VBool (rc_allowFailure call)])) calls;
  encodeCall "multicall" [TArray callTuple] [VArr items].
Definition hashRoutedCalls (calls : list RoutedCall) : result jsstring :=
  calldata ← encodeRoutedCallsCalldata calls; keccakHex calldata.

Definition ROUTED_WITHDRAWAL_DATA_VERSION : Z := 1.
Record RoutedWithdrawalData := { rd_version : Z; rd_router : jsstring; rd_dataHash : jsstring }.
Definition routedWithdrawalDataAbiParams : list AbiTy :=
  [TTuple [("version", TUint 8); ("router", TAddress); ("dataHash", TFixed 32)]].
Definition check_routed (version : Z) (dataHash : jsstring) : result unit :=
  fail_if negb (version =? ROUTED_WITHDRAWAL_DATA_VERSION) with "Unsupported routed withdrawal data version" ;;
  fail_if bool_decide (toLowerCase dataHash = ZERO_DATA_HASH) with "Routed withdrawal data requires a non-zero data hash" ;;
  Ok tt.
Definition encodeRoutedWithdrawalData (data : RoutedWithdrawalData) : result jsstring :=
  _ ← check_routed (rd_version data) (rd_dataHash data);
  encodeAbi routedWithdrawalDataAbiParams [VTup [VNum (rd_version data); VHex (rd_router data); VHex (rd_dataHash data)]].
Definition decodeRoutedWithdrawalData (data : jsstring) : result RoutedWithdrawalData :=
  match decodeAbi routedWithdrawalDataAbiParams data with
  | Ok [VTup [VNum version; VHex router; VHex dataHash]] =>
      _ ← check_routed version dataHash;
      Ok {| rd_version := version; rd_router := toLowerCase router; rd_dataHash := toLowerCase dataHash |}
  | _ => Err "Failed to decode routed withdrawal data"
  end.
End CallRequests.
