(* ===== verification/SdkCallProofs.v ===== *)
(** * Call requests: round trips and identities

    The laws of viem's ABI functions, the contract of a withdrawal codec, and
    what the ethereum-vm codec guarantees: payloads of both schemas read back,
    a request's id binds what will be executed, and revealing the committed
    calldata keeps the id. *)

From Stdlib Require Import Strings.Byte.
From S2P Require Import Prelude JsNum JsString JsNumber Scanner HexBytes Abi BitcoinTx HederaIds ToyRuntime SdkAddress AbiSpec SdkCodec.
Local Open Scope Z_scope.
Local Open Scope js_scope.

Create HintDb abi.

(** ** What viem promises *)

Class SdkAbiLaws (A : SdkAbi) (keccak : bytes -> bytes) (checksum : jsstring -> jsstring)
    (selector : string -> list AbiTy -> bytes) : Prop := {
  (** Values of the types are encoded as the ABI prescribes, others rejected. *)
  encode_law ts vs : abi_typed ts vs -> encodeAbi ts vs = Ok (hex0x (abi_encode ts vs));
  range_law ts vs s : Forall2 (typed_in false) ts vs -> encodeAbi ts vs = Ok s -> abi_typed ts vs;
  decode_law ts vs : abi_typed ts vs -> decodeAbi ts (hex0x (abi_encode ts vs)) = Ok (zip_with (canon checksum) vs ts);
  decoded_law ts s vs : forallb wide ts = true -> decodeAbi ts s = Ok vs -> abi_typed ts vs;
  call_law name ts vs : abi_typed ts vs -> encodeCall name ts vs = Ok (hex0x (selector name ts ++ abi_encode ts vs));
  selector_length name ts : length (selector name ts) = 4%nat;
  keccakHex_law s l : hex_value s = Some l -> keccakHex s = Ok (hex0x (keccak l));
  keccakHex_length l : length (keccak l) = 32%nat;
  checksum_value l : hex_value (checksum (hex0x l)) = Some l;
  checksum_lower l : toLowerCase (checksum (hex0x l)) = hex0x l }.

(** ** The contract of a codec *)

(** Canonical withdrawals encode, and read back as they are. *)
Class CodecLaws {W} (codec : WithdrawalCodec W) (canonical : W -> Prop) : Prop :=
  codec_roundtrip w : canonical w -> exists s, wc_encode codec w = Ok s /\ wc_decode codec s = Ok w.

(** ** Hex texts *)

Lemma hex0x_inj l k : hex0x l = hex0x k -> l = k.
Proof. unfold hex0x. intros E. apply app_inv_head in E. by apply bytesToHex_inj. Qed.
Lemma hex0x_lower l : toLowerCase (hex0x l) = hex0x l.
Proof. apply toLowerCase_0x. Qed.
Lemma hex_bytes_hex0x l : hex_bytes (hex0x l) = l.
Proof. apply hex_bytes_of, hex_value_hex0x. Qed.
Lemma hex_value_lower s l : hex_value s = Some l -> toLowerCase s = hex0x l.
Proof.
  unfold hex_value. destruct (startsWith s (js "0x")) eqn:Es; [|done]. destruct (hexToBytes s "hex") as [k|] eqn:Eh; [|done].
  intros [= <-]. apply hexToBytes_ok, normalizeHex_ok in Eh as (_ & _ & Eh). apply bool_decide_eq_true in Es. cbn in Es.
  destruct s as [|c [|d r]]; [done..|]. injection Es as -> ->. cbn [strip_0x] in Eh. unfold hex0x. by rewrite Eh.
Qed.
Lemma hex_value_toLowerCase s l : hex_value s = Some l -> hex_value (toLowerCase s) = Some l.
Proof. intros H. rewrite (hex_value_lower s l H). apply hex_value_hex0x. Qed.

Section Calls.
Context `{A : SdkAbi} {keccak : bytes -> bytes} {checksum : jsstring -> jsstring} {selector : string -> list AbiTy -> bytes}.
Context `{AL : !SdkAbiLaws A keccak checksum selector}.

(** ** Canonical requests *)

Record CallData := { k_to : bytes; k_data : bytes; k_hash : bytes; k_value : Z; k_allow : bool }.
Record RequestData := { q_calls : list CallData; q_nonce : Z; q_expiration : Z }.

Definition call_text (c : CallData) : CommittedCall := {|
  cc_to := hex0x (k_to c); cc_data := hex0x (k_data c); cc_dataHash := hex0x (k_hash c); cc_value := toString10 (k_value c);
  cc_allowFailure := k_allow c |}.
Definition request_text (q : RequestData) : CommittedCallRequestWithdrawal := {|
  cw_calls := call_text <$> q_calls q; cw_nonce := toString10 (q_nonce q); cw_expiration := JInt (q_expiration q) |}.
(** A request without commitments, with the VM's text of an address. *)
Definition plain_call_text (address : bytes -> jsstring) (c : CallData) : ExecCall := {|
  xc_to := address (k_to c); xc_data := hex0x (k_data c); xc_value := toString10 (k_value c); xc_allowFailure := k_allow c |}.
Definition plain_text (address : bytes -> jsstring) (q : RequestData) : CallRequestWithdrawal := {|
  xw_calls := plain_call_text address <$> q_calls q; xw_nonce := toString10 (q_nonce q); xw_expiration := JInt (q_expiration q) |}.
Definition legacy_call_text : CallData -> ExecCall := plain_call_text hex0x.
Definition legacy_text : RequestData -> CallRequestWithdrawal := plain_text hex0x.

Definition call_value (c : CallData) : AbiVal :=
  VTup [VHex (hex0x (k_to c)); VHex (hex0x (k_data c)); VHex (hex0x (k_hash c)); VNum (k_value c); VBool (k_allow c)].
Definition request_value (q : RequestData) : list AbiVal :=
  [VTup [VArr (call_value <$> q_calls q); VNum (q_nonce q); VNum (q_expiration q)]].
Definition legacy_call_value (c : CallData) : AbiVal :=
  VTup [VHex (hex0x (k_to c)); VHex (hex0x (k_data c)); VNum (k_value c); VBool (k_allow c)].
Definition legacy_value (q : RequestData) : list AbiVal :=
  [VTup [VArr (legacy_call_value <$> q_calls q); VNum (q_nonce q); VNum (q_expiration q)]].

Record call_ok (c : CallData) : Prop := {
  co_to : length (k_to c) = 20%nat; co_hash : length (k_hash c) = 32%nat; co_value : 0 <= k_value c < 2 ^ 256 }.
(** The fields fit their types, the expiration is exact as a number, and the
    payload is below 2^256 bytes. *)
Record request_ok (q : RequestData) : Prop := {
  ro_calls : Forall call_ok (q_calls q);
  ro_count : Z.of_nat (length (q_calls q)) < 2 ^ 256;
  ro_nonce : 0 <= q_nonce q < 2 ^ 256;
  ro_expiration : 0 <= q_expiration q <= 2 ^ 53;
  ro_size : Z.of_nat (length (abi_encode committedCallRequestAbiParams (request_value q))) < 2 ^ 256;
  ro_legacy_size : Z.of_nat (length (abi_encode callRequestAbiParams (legacy_value q))) < 2 ^ 256 }.

Lemma typed_hex k l : length l = k -> (k <= 32)%nat -> typed (TFixed k) (VHex (hex0x l)).
Proof using. intros. econstructor; [apply hex_value_hex0x|done|done]. Qed.
Lemma typed_address_hex l : length l = 20%nat -> typed TAddress (VHex (hex0x l)).
Proof using. intros. econstructor; [apply hex_value_hex0x|done]. Qed.
Lemma typed_bytes_hex l : typed TBytes (VHex (hex0x l)).
Proof using. econstructor. apply hex_value_hex0x. Qed.
Lemma typed_num bits n : 0 <= bits <= 256 -> 0 <= n < 2 ^ bits -> typed (TUint bits) (VNum n).
Proof using. intros. by constructor. Qed.
#[local] Hint Resolve typed_hex typed_address_hex typed_bytes_hex typed_bool : abi.
#[local] Hint Extern 1 (typed (TUint _) (VNum _)) => apply typed_num; lia : abi.
#[local] Hint Extern 1 (typed (TFixed _) (VHex (hex0x _))) => apply typed_hex; [done|lia] : abi.

Ltac typed_fields := constructor; repeat (constructor; [cbn [snd]; auto with abi|]); constructor.

Lemma call_typed c : call_ok c -> typed committedCallTuple (call_value c).
Proof using. intros [H1 H2 H3]. typed_fields. Qed.
Lemma legacy_call_typed c : call_ok c -> typed callTuple (legacy_call_value c).
Proof using. intros [H1 H2 H3]. typed_fields. Qed.

(** A request of either schema: its calls, then nonce and expiration. *)
Lemma fields_typed item items nonce expiration :
  Forall (typed item) items -> Z.of_nat (length items) < 2 ^ 256 -> 0 <= nonce < 2 ^ 256 -> 0 <= expiration <= 2 ^ 53 ->
  Forall2 typed [TTuple [("calls", TArray item); ("nonce", TUint 256); ("expiration", TUint 256)]]
    [VTup [VArr items; VNum nonce; VNum expiration]].
Proof using.
  intros H1 H2 H3 H4. constructor; [|constructor]. constructor. constructor; [by constructor|].
  repeat (constructor; [cbn [snd]; auto with abi|]). constructor.
Qed.
Lemma request_typed q : request_ok q -> abi_typed committedCallRequestAbiParams (request_value q).
Proof using.
  intros []. split; [|done]. apply fields_typed; try done; [|by rewrite length_fmap].
  apply Forall_fmap. eapply Forall_impl; [done|]. apply call_typed.
Qed.
Lemma legacy_typed q : request_ok q -> abi_typed callRequestAbiParams (legacy_value q).
Proof using.
  intros []. split; [|done]. apply fields_typed; try done; [|by rewrite length_fmap].
  apply Forall_fmap. eapply Forall_impl; [done|]. apply legacy_call_typed.
Qed.

(** ** Round trips *)

Lemma mapM_length_ok {X Y} (f : X -> result Y) l k : mapM f l = Ok k -> length l = length k.
Proof using.
  revert k. induction l as [|x l IH]; intros k H; [by injection H as <-|]. cbn [mapM] in H. apply bind_ok in H as (y & _ & H).
  apply bind_ok in H as (ys & Hys & H). injection H as <-. cbn. f_equal. by apply IH.
Qed.
(** Reading back item by item. *)
Lemma mapM_fmap_ok {X Y Z} (f : Y -> result Z) (g : X -> Y) (h : X -> Z) l :
  (forall x, x ∈ l -> f (g x) = Ok (h x)) -> mapM f (g <$> l) = Ok (h <$> l).
Proof using.
  induction l as [|x l IH]; intros H; [done|]. rewrite !fmap_cons. cbn [mapM]. rewrite H by left. cbn [mbind result_bind].
  rewrite IH by (intros y Hy; apply H; by right). done.
Qed.

Lemma committed_encode q : request_ok q ->
  ac_encode abiCodec (request_text q) = Ok (hex0x (abi_encode committedCallRequestAbiParams (request_value q))).
Proof using AL.
  intros Hq. unfold abiCodec, defineAbiWithdrawalCodec, committed_toAbi. cbn [ac_encode request_text cw_calls cw_nonce cw_expiration].
  pose proof Hq as [Hc _ Hn _ _ _]. rewrite Forall_forall in Hc. rewrite (mapM_fmap_ok _ _ call_value).
  2:{ intros c Hin. destruct (Hc c Hin) as [_ _ Hv]. unfold committed_call_toAbi. cbn [call_text cc_value]. by rewrite BigInt_toString10 by lia. }
  cbn [mbind result_bind]. rewrite BigInt_toString10 by lia. cbn [mbind result_bind BigInt_num]. apply encode_law. by apply request_typed.
Qed.
(** The codec of requests without commitments, for any text of addresses. *)
Definition plain_codec (toEvm fromEvm : jsstring -> jsstring) : AbiCodec CallRequestWithdrawal :=
  defineAbiWithdrawalCodec callRequestAbiParams (call_request_toAbi toEvm) (call_request_fromAbi fromEvm).
Lemma plain_encode address toEvm fromEvm q : request_ok q -> (forall l, toEvm (address l) = hex0x l) ->
  ac_encode (plain_codec toEvm fromEvm) (plain_text address q) = Ok (hex0x (abi_encode callRequestAbiParams (legacy_value q))).
Proof using AL.
  intros Hq Ha. unfold plain_codec, defineAbiWithdrawalCodec, call_request_toAbi. cbn [ac_encode plain_text xw_calls xw_nonce xw_expiration].
  pose proof Hq as [Hc _ Hn _ _ _]. rewrite Forall_forall in Hc. rewrite (mapM_fmap_ok _ _ legacy_call_value).
  2:{ intros c Hin. destruct (Hc c Hin) as [_ _ Hv]. unfold call_toAbi. cbn [plain_call_text xc_value xc_to]. rewrite Ha.
      by rewrite BigInt_toString10 by lia. }
  cbn [mbind result_bind]. rewrite BigInt_toString10 by lia. cbn [mbind result_bind BigInt_num]. apply encode_law. by apply legacy_typed.
Qed.

Lemma canon_call c : canon checksum (call_value c) committedCallTuple =
  VTup [VHex (checksum (hex0x (k_to c))); VHex (hex0x (k_data c)); VHex (hex0x (k_hash c)); VNum (k_value c); VBool (k_allow c)].
Proof using. unfold call_value, committedCallTuple. cbn [canon zip_with snd]. by rewrite !hex_bytes_hex0x. Qed.
Lemma canon_legacy_call c : canon checksum (legacy_call_value c) callTuple =
  VTup [VHex (checksum (hex0x (k_to c))); VHex (hex0x (k_data c)); VNum (k_value c); VBool (k_allow c)].
Proof using. unfold legacy_call_value, callTuple. cbn [canon zip_with snd]. by rewrite !hex_bytes_hex0x. Qed.
Lemma canon_request item items nonce expiration :
  zip_with (canon checksum) [VTup [VArr items; VNum nonce; VNum expiration]]
    [TTuple [("calls", TArray item); ("nonce", TUint 256); ("expiration", TUint 256)]] =
  [VTup [VArr ((fun w => canon checksum w item) <$> items); VNum nonce; VNum expiration]].
Proof using. done. Qed.

Lemma committed_decode q : request_ok q ->
  ac_decode abiCodec (hex0x (abi_encode committedCallRequestAbiParams (request_value q))) = Ok (request_text q).
Proof using AL.
  intros Hq. unfold abiCodec, defineAbiWithdrawalCodec. cbn [ac_decode]. rewrite decode_law by (by apply request_typed).
  unfold request_value, committedCallRequestAbiParams. rewrite canon_request. cbn [mbind result_bind]. unfold committed_fromAbi.
  rewrite <- list_fmap_compose, (mapM_fmap_ok _ _ call_text).
  2:{ intros c _. unfold compose. by rewrite canon_call; cbn [committed_call_fromAbi]; rewrite checksum_lower, !hex0x_lower. }
  cbn [mbind result_bind]. destruct Hq. rewrite Number_toString10 by done. done.
Qed.
Lemma plain_decode address toEvm fromEvm q : request_ok q -> (forall l, fromEvm (checksum (hex0x l)) = address l) ->
  ac_decode (plain_codec toEvm fromEvm) (hex0x (abi_encode callRequestAbiParams (legacy_value q))) = Ok (plain_text address q).
Proof using AL.
  intros Hq Ha. unfold plain_codec, defineAbiWithdrawalCodec. cbn [ac_decode]. rewrite decode_law by (by apply legacy_typed).
  unfold legacy_value, callRequestAbiParams. rewrite canon_request. cbn [mbind result_bind]. unfold call_request_fromAbi.
  rewrite <- list_fmap_compose, (mapM_fmap_ok _ _ (plain_call_text address)).
  2:{ intros c _. unfold compose. by rewrite canon_legacy_call; cbn [call_fromAbi]; rewrite Ha, !hex0x_lower. }
  cbn [mbind result_bind]. destruct Hq. rewrite Number_toString10 by done. done.
Qed.
Lemma legacy_encode q : request_ok q ->
  ac_encode legacyAbiCodec (legacy_text q) = Ok (hex0x (abi_encode callRequestAbiParams (legacy_value q))).
Proof using AL. intros Hq. by apply plain_encode. Qed.
Lemma legacy_request_decode q : request_ok q ->
  ac_decode legacyAbiCodec (hex0x (abi_encode callRequestAbiParams (legacy_value q))) = Ok (legacy_text q).
Proof using AL. intros Hq. apply plain_decode; [done|]. apply checksum_lower. Qed.

Lemma schema_accepts {W} (codec : AbiCodec W) w s : ac_encode codec w = Ok s -> ac_decode codec s = Ok w -> decodeUnderSchema codec s = Some w.
Proof using. intros He Hd. unfold decodeUnderSchema. rewrite Hd. cbn [mbind result_bind]. rewrite He. cbn. by rewrite bool_decide_eq_true_2. Qed.
Lemma schema_sound {W} (codec : AbiCodec W) w s : decodeUnderSchema codec s = Some w ->
  ac_decode codec s = Ok w /\ exists s', ac_encode codec w = Ok s' /\ toLowerCase s' = toLowerCase s.
Proof using.
  unfold decodeUnderSchema. destruct (ac_decode codec s) as [v|]; [|done]. cbn [mbind result_bind].
  destruct (ac_encode codec v) as [s'|] eqn:Ee; [|done]. cbn. case_bool_decide; [|done]. intros [= <-]. eauto.
Qed.

(** *** The two schemas are told apart *)

Lemma request_layout (item : AbiTy) items nonce expiration : dynamic item = true ->
  abi_encode [TTuple [("calls", TArray item); ("nonce", TUint 256); ("expiration", TUint 256)]]
    [VTup [VArr items; VNum nonce; VNum expiration]] =
  word 32 ++ word 96 ++ word nonce ++ word expiration ++ word (Z.of_nat (length items)) ++
    enc_seq ((fun v => (true, enc v item)) <$> items).
Proof using.
  intros Hd. unfold abi_encode. cbn [zip_with dynamic existsb orb snd enc]. rewrite Hd. unfold enc_seq at 1.
  unfold tails, parts_head. cbn [foldr fst snd fmap list_fmap mjoin list_join heads app]. rewrite app_nil_r.
  unfold enc_seq at 1. unfold tails, parts_head. cbn [foldr fst snd fmap list_fmap mjoin list_join heads app].
  rewrite !length_abi_word, !app_nil_r. rewrite <- !app_assoc. done.
Qed.

(** The second word of a call says which schema it has. *)
Lemma tuple_shape fs v : typed (TTuple fs) v -> exists l, v = VTup l /\ Forall2 (fun f w => typed f.2 w) fs l.
Proof using. intros H. inversion H; subst. eauto. Qed.
Ltac split_fields :=
  repeat match goal with
  | H : Forall2 _ (_ :: _) _ |- _ => apply Forall2_cons_inv_l in H as (? & ? & ? & H & ->); cbn [snd] in *
  | H : Forall2 _ [] _ |- _ => apply Forall2_nil_inv_l in H as ->
  end;
  repeat match goal with H : typed_in _ ?t ?v |- _ => is_var v; inversion H; subst; clear H end.
Lemma address_part_length s l : hex_value s = Some l -> length l = 20%nat -> length (zeros 12 ++ hex_bytes s) = 32%nat.
Proof using. intros H Hl. rewrite (hex_bytes_of s l H), length_app, Hl. done. Qed.
Lemma fixed_part_length s l k : hex_value s = Some l -> length l = k -> (k <= 32)%nat -> length (hex_bytes s ++ zeros (32 - k)) = 32%nat.
Proof using. intros H Hl Hk. rewrite (hex_bytes_of s l H), length_app, Hl. unfold zeros. rewrite length_replicate. lia. Qed.

Lemma committed_call_layout v : typed committedCallTuple v ->
  exists to rest, length to = 32%nat /\ enc v committedCallTuple = to ++ word 160 ++ rest.
Proof using.
  intros (l & -> & Hl)%tuple_shape. split_fields. unfold committedCallTuple. cbn [enc zip_with snd dynamic].
  unfold enc_seq. cbn [heads app]. unfold parts_head. cbn [foldr fst snd].
  rewrite !length_abi_word. erewrite address_part_length, (fixed_part_length _ _ 32) by eassumption.
  match goal with |- exists to rest, _ /\ ((?a ++ word ?z ++ ?b) ++ ?c) = _ =>
    exists a, (b ++ c); assert (z = 160) as -> by done; split; [by eapply address_part_length|by rewrite <- !app_assoc] end.
Qed.
Lemma legacy_call_layout v : typed callTuple v -> exists to rest, length to = 32%nat /\ enc v callTuple = to ++ word 128 ++ rest.
Proof using.
  intros (l & -> & Hl)%tuple_shape. split_fields. unfold callTuple. cbn [enc zip_with snd dynamic].
  unfold enc_seq. cbn [heads app]. unfold parts_head. cbn [foldr fst snd].
  rewrite !length_abi_word. erewrite address_part_length by eassumption.
  match goal with |- exists to rest, _ /\ ((?a ++ word ?z ++ ?b) ++ ?c) = _ =>
    exists a, (b ++ c); assert (z = 128) as -> by done; split; [by eapply address_part_length|by rewrite <- !app_assoc] end.
Qed.

Lemma word_inj n m : 0 <= n < 2 ^ 256 -> 0 <= m < 2 ^ 256 -> word n = word m -> n = m.
Proof using. intros Hn Hm E. rewrite <- (word_at_app n []), <- (word_at_app m []) by done. by rewrite E. Qed.
Lemma word_app_inj n m a b : 0 <= n < 2 ^ 256 -> 0 <= m < 2 ^ 256 -> word n ++ a = word m ++ b -> n = m /\ a = b.
Proof using.
  intros Hn Hm E. apply app_inj_1 in E as [E1 E2]; [|by rewrite !length_abi_word]. split; [by apply word_inj|done].
Qed.

(** A payload that both schemas encode has no calls. *)
Lemma schemas_disjoint items n e items' n' e' :
  abi_typed committedCallRequestAbiParams [VTup [VArr items; VNum n; VNum e]] ->
  abi_typed callRequestAbiParams [VTup [VArr items'; VNum n'; VNum e']] ->
  abi_encode committedCallRequestAbiParams [VTup [VArr items; VNum n; VNum e]] =
  abi_encode callRequestAbiParams [VTup [VArr items'; VNum n'; VNum e']] ->
  items = [] /\ items' = [] /\ n = n' /\ e = e'.
Proof using.
  unfold committedCallRequestAbiParams, callRequestAbiParams. intros [H1 _] [H2 _] E. rewrite !request_layout in E by done.
  apply Forall2_cons_inv_l in H1 as (? & ? & H1 & _ & [= <- <-]). apply Forall2_cons_inv_l in H2 as (? & ? & H2 & _ & [= <- <-]).
  apply tuple_shape in H1 as (l1 & [= <-] & H1). apply tuple_shape in H2 as (l2 & [= <-] & H2).
  repeat match goal with H : Forall2 _ (_ :: _) (_ :: _) |- _ => apply Forall2_cons_1 in H as [? H]; cbn [snd] in * end.
  repeat match goal with H : typed_in _ (TUint _) _ |- _ => inversion H; subst; clear H end.
  repeat match goal with H : typed_in _ (TArray _) _ |- _ => inversion H; subst; clear H end.
  repeat match goal with H : true = true -> _ |- _ => specialize (H eq_refl) end.
  do 5 (apply word_app_inj in E as [? E]; [|lia..]). subst.
  assert (length items = length items') as Hlen by lia.
  destruct items as [|v items], items' as [|v' items']; [done|done|done|exfalso].
  unfold enc_seq in E. apply app_inj_1 in E as [_ E].
  2:{ rewrite !length_heads. clear -Hlen. generalize (v :: items) (v' :: items') Hlen. clear. intros l. induction l as [|x l IH]; intros [|y k] H; try done.
      rewrite !fmap_cons, !parts_head_cons. cbn [fst]. f_equal. apply IH. cbn in H. lia. }
  rewrite !fmap_cons in E. unfold tails in E. cbn [fmap list_fmap fst snd mjoin list_join] in E.
  repeat match goal with H : Forall _ (_ :: _) |- _ => apply Forall_cons in H as [? _] end.
  destruct (committed_call_layout v) as (to1 & r1 & L1 & E1); [done|]. destruct (legacy_call_layout v') as (to2 & r2 & L2 & E2); [done|].
  rewrite E1, E2, <- !app_assoc in E. apply app_inj_1 in E as [_ E]; [|congruence]. apply word_app_inj in E as [E _]; lia.
Qed.

(** What a decoded request encodes to again. *)
Lemma committed_call_again item c v : typed committedCallTuple item -> committed_call_fromAbi item = Ok c ->
  committed_call_toAbi c = Ok v -> typed_in false committedCallTuple v.
Proof using.
  intros (l & -> & Hl)%tuple_shape. split_fields. cbn [committed_call_fromAbi]. intros [= <-]. unfold committed_call_toAbi. cbn [cc_value].
  intros Hv. apply bind_ok in Hv as (value & _ & Hv). injection Hv as <-. constructor.
  repeat (apply Forall2_cons_2; [cbn [snd]|]); [..|apply Forall2_nil_2]; econstructor; try (by apply hex_value_toLowerCase); done.
Qed.
Lemma committed_again vs w s' : abi_typed committedCallRequestAbiParams vs -> committed_fromAbi vs = Ok w ->
  ac_encode abiCodec w = Ok s' ->
  exists items n e, abi_typed committedCallRequestAbiParams [VTup [VArr items; VNum n; VNum e]] /\
    s' = hex0x (abi_encode committedCallRequestAbiParams [VTup [VArr items; VNum n; VNum e]]) /\
    length items = length (cw_calls w) /\ cw_nonce w = toString10 n /\ cw_expiration w = JInt e.
Proof using AL.
  unfold committedCallRequestAbiParams. intros [Hty _] Hw He.
  apply Forall2_cons_inv_l in Hty as (v & vs' & Hv & Hnil & ->). apply Forall2_nil_inv_l in Hnil as ->.
  apply tuple_shape in Hv as (l & -> & Hl). split_fields. cbn [committed_fromAbi] in Hw.
  match goal with H : Forall (typed_in true committedCallTuple) ?x |- _ => rename H into Hitems, x into items end.
  match goal with Hn : true = true -> 0 <= ?x < 2 ^ 256 |- _ => idtac end.
  apply bind_ok in Hw as (calls & Hcalls & Hw). injection Hw as <-.
  unfold abiCodec, defineAbiWithdrawalCodec in He. cbn [ac_encode] in He. apply bind_ok in He as (vs & Hvs & He).
  unfold committed_toAbi in Hvs. cbn [cw_calls cw_nonce cw_expiration] in Hvs. apply bind_ok in Hvs as (vals & Hvals & Hvs).
  apply bind_ok in Hvs as (nonce & Hnonce & Hvs). apply bind_ok in Hvs as (expiration & Hexp & Hvs). injection Hvs as <-.
  assert (Forall (typed_in false committedCallTuple) vals) as Hvt.
  { clear -Hitems Hcalls Hvals. revert calls vals Hcalls Hvals. induction Hitems as [|item items Hi Hitems IH]; intros calls vals Hc Hv.
    { injection Hc as <-. injection Hv as <-. constructor. }
    cbn [mapM] in Hc. apply bind_ok in Hc as (c & Hc1 & Hc). apply bind_ok in Hc as (cs & Hc2 & Hc). injection Hc as <-.
    cbn [mapM] in Hv. apply bind_ok in Hv as (v & Hv1 & Hv). apply bind_ok in Hv as (vs & Hv2 & Hv). injection Hv as <-.
    constructor; [by eapply committed_call_again|by eapply IH]. }
  assert (length vals = length calls) as Hlen by (symmetry; by eapply mapM_length_ok).
  assert (length calls = length items) as Hlen' by (symmetry; by eapply mapM_length_ok).
  assert (nonce = n0) as ->. { specialize (H5 eq_refl). rewrite BigInt_toString10 in Hnonce by lia. congruence. }
  assert (Number (toString10 n) = JInt expiration) as Hexp' by (destruct (Number (toString10 n)); [done|done|by injection Hexp as ->|done]).
  assert (abi_typed committedCallRequestAbiParams [VTup [VArr vals; VNum n0; VNum expiration]]) as Habi.
  { eapply range_law; [|exact He]. constructor; [|constructor]. constructor.
    repeat (apply Forall2_cons_2; [cbn [snd]|]); [constructor; [done|lia]|by constructor|by constructor|apply Forall2_nil_2]. }
  exists vals, n0, expiration. cbn [cw_calls cw_nonce cw_expiration]. split_and!; [exact Habi| |done|done|done].
  rewrite (encode_law _ _ Habi) in He. by injection He as <-.
Qed.

Lemma legacy_reads q : request_ok q ->
  wc_decode ethereumVmCodec (hex0x (abi_encode callRequestAbiParams (legacy_value q))) = Ok (uncommitted_request (legacy_text q)).
Proof using AL.
  intros Hq. cbn [wc_decode ethereumVmCodec]. unfold ethereum_decode.
  rewrite (schema_accepts legacyAbiCodec (legacy_text q)) by (by apply legacy_encode || by apply legacy_request_decode).
  destruct (decodeUnderSchema abiCodec _) as [w|] eqn:Ew; [|done]. apply schema_sound in Ew as (Hd & s' & He & Hs).
  unfold abiCodec, defineAbiWithdrawalCodec in Hd. cbn [ac_decode] in Hd. apply bind_ok in Hd as (vs & Hvs & Hd).
  apply decoded_law in Hvs; [|done]. destruct (committed_again vs w s' Hvs Hd He) as (items & n & e & Hty & -> & Hlen & Hn & Hexp).
  rewrite !hex0x_lower in Hs. apply hex0x_inj in Hs. unfold legacy_value in Hs.
  apply schemas_disjoint in Hs as (-> & Hc & -> & ->); [|done|by apply legacy_typed]. apply fmap_nil_inv in Hc.
  destruct w as [calls nonce expiration]. cbn [cw_calls cw_nonce cw_expiration length] in *. destruct calls; [|done].
  unfold uncommitted_request, legacy_text, plain_text. cbn [xw_calls xw_nonce xw_expiration]. rewrite Hc. cbn. by rewrite Hn, Hexp.
Qed.

(** ** Identities *)

(** The struct hash of an executed call and of a call request, as the
    depository contract computes them. *)
Definition call_struct (to data_hash : bytes) (value : Z) (allow : bool) : bytes :=
  keccak (keccak (TextEncoder_encode CALL_TYPE) ++ (zeros 12 ++ to) ++ data_hash ++ word value ++ word (Z.b2z allow)).
Definition request_struct (call_hashes : list bytes) (nonce expiration : Z) : bytes :=
  keccak (keccak (TextEncoder_encode CALL_REQUEST_TYPE) ++ keccak (mjoin call_hashes) ++ word nonce ++ word expiration).
Definition executed_call (c : CallData) : bytes := call_struct (k_to c) (keccak (k_data c)) (k_value c) (k_allow c).
Definition executed_request (q : RequestData) : bytes := request_struct (executed_call <$> q_calls q) (q_nonce q) (q_expiration q).

(** The hash of a call's data, committed or computed. *)
Definition data_hash (c : CallData) : bytes := if bool_decide (k_hash c = zeros 32) then keccak (k_data c) else k_hash c.

Lemma zero_hash_text : ZERO_DATA_HASH = hex0x (zeros 32).
Proof using. vm_compute. reflexivity. Qed.
Lemma zero_hash_iff l : hex0x l = ZERO_DATA_HASH <-> l = zeros 32.
Proof using. rewrite zero_hash_text. split; [apply hex0x_inj|by intros ->]. Qed.
Lemma empty_data_iff l : hex0x l = js "0x" <-> l = [].
Proof using. change (js "0x") with (hex0x []). split; [apply hex0x_inj|by intros ->]. Qed.

Lemma static_fields_5 (a b c : bytes) n d : length a = 32%nat -> length b = 20%nat -> length c = 32%nat ->
  abi_encode [TFixed 32; TAddress; TFixed 32; TUint 256; TBool] [VHex (hex0x a); VHex (hex0x b); VHex (hex0x c); VNum n; VBool d] =
  a ++ (zeros 12 ++ b) ++ c ++ word n ++ word (Z.b2z d).
Proof using.
  intros Ha Hb Hc. unfold abi_encode. cbn [zip_with dynamic enc]. unfold enc_seq, tails. cbn [heads fmap list_fmap fst snd mjoin list_join].
  rewrite !hex_bytes_hex0x. change (zeros (32 - 32)) with (@nil byte). by rewrite !app_nil_r.
Qed.
Lemma static_fields_4 (a b : bytes) n m : length a = 32%nat -> length b = 32%nat ->
  abi_encode [TFixed 32; TFixed 32; TUint 256; TUint 256] [VHex (hex0x a); VHex (hex0x b); VNum n; VNum m] = a ++ b ++ word n ++ word m.
Proof using.
  intros Ha Hb. unfold abi_encode. cbn [zip_with dynamic enc]. unfold enc_seq, tails. cbn [heads fmap list_fmap fst snd mjoin list_join].
  rewrite !hex_bytes_hex0x. change (zeros (32 - 32)) with (@nil byte). by rewrite !app_nil_r.
Qed.

Lemma keccak_of l : keccakHex (hex0x l) = Ok (hex0x (keccak l)).
Proof using AL. apply keccakHex_law, hex_value_hex0x. Qed.

Lemma call_hash_ok c : call_ok c -> k_hash c = zeros 32 \/ k_data c = [] ->
  committed_call_hash (call_text c) = Ok (hex0x (call_struct (k_to c) (data_hash c) (k_value c) (k_allow c))).
Proof using AL.
  intros [Hto Hh Hv] Hone. unfold committed_call_hash, data_hash. cbn [call_text cc_dataHash cc_data cc_to cc_value cc_allowFailure].
  rewrite (bool_decide_ext _ _ (zero_hash_iff (k_hash c))), (bool_decide_ext _ _ (empty_data_iff (k_data c))).
  assert (exists dh, length dh = 32%nat /\ data_hash c = dh /\
    (if bool_decide (k_hash c = zeros 32) then keccakHex (hex0x (k_data c)) else Ok (hex0x (k_hash c))) = Ok (hex0x dh)) as (dh & Hl & Hdh & E).
  { exists (data_hash c). unfold data_hash. case_bool_decide; [rewrite keccak_of; split_and!; [apply keccakHex_length|done|done]|done]. }
  assert (negb (bool_decide (k_hash c = zeros 32)) && negb (bool_decide (k_data c = [])) = false) as ->.
  { apply andb_false_iff. destruct Hone as [Hz|Hz]; [left|right]; by rewrite bool_decide_eq_true_2. }
  cbn [check negb mbind result_bind]. fold (data_hash c). rewrite E, Hdh. cbn [mbind result_bind].
  unfold CALL_TYPEHASH, stringToHex. rewrite keccak_of. cbn [mbind result_bind]. unfold hashCall. rewrite BigInt_toString10 by lia.
  cbn [mbind result_bind]. rewrite encode_law.
  - cbn [mbind result_bind]. rewrite static_fields_5 by (done || apply keccakHex_length). by rewrite keccak_of.
  - split.
    + repeat (apply Forall2_cons_2); [apply typed_hex; [apply keccakHex_length|lia]|by apply typed_address_hex|
        apply typed_hex; [done|lia]|apply typed_num; [lia|done]|constructor|apply Forall2_nil_2].
    + rewrite static_fields_5 by (done || apply keccakHex_length). unfold zeros.
      rewrite !length_app, !length_abi_word, length_replicate, keccakHex_length, Hto, Hl. cbn. lia.
Qed.

Lemma concatHex_hex0x l : concatHex (hex0x <$> l) = hex0x (mjoin l).
Proof using.
  unfold concatHex. unfold hex0x at 2. f_equal. induction l as [|x l IH]; [done|]. rewrite !fmap_cons.
  change (mjoin (drop 2 (hex0x x) :: (drop 2 <$> (hex0x <$> l))) = bytesToHex (x ++ mjoin l)).
  change (bytesToHex x ++ mjoin (drop 2 <$> (hex0x <$> l)) = bytesToHex (x ++ mjoin l)). rewrite IH.
  unfold bytesToHex. by rewrite fmap_app, join_app.
Qed.

Lemma request_id q : request_ok q -> Forall (fun c => k_hash c = zeros 32 \/ k_data c = []) (q_calls q) ->
  getCommittedCallRequestId (request_text q) = Ok (hex0x (request_struct
    ((fun c => call_struct (k_to c) (data_hash c) (k_value c) (k_allow c)) <$> q_calls q) (q_nonce q) (q_expiration q))).
Proof using AL.
  intros [Hc _ Hn He _ _] Hone. unfold getCommittedCallRequestId. cbn [request_text cw_calls cw_nonce cw_expiration].
  rewrite Forall_forall in Hc, Hone.
  rewrite (mapM_fmap_ok _ _ (fun c => hex0x (call_struct (k_to c) (data_hash c) (k_value c) (k_allow c)))) by (intros c Hin; apply call_hash_ok; auto).
  cbn [mbind result_bind]. unfold CALL_REQUEST_TYPEHASH, stringToHex. rewrite keccak_of. cbn [mbind result_bind].
  rewrite (list_fmap_compose (fun c => call_struct (k_to c) (data_hash c) (k_value c) (k_allow c)) hex0x), concatHex_hex0x, keccak_of.
  cbn [mbind result_bind]. rewrite BigInt_toString10 by lia. cbn [mbind result_bind BigInt_num]. rewrite encode_law.
  - cbn [mbind result_bind]. rewrite static_fields_4 by apply keccakHex_length. by rewrite keccak_of.
  - split.
    + repeat (apply Forall2_cons_2); [apply typed_hex; [apply keccakHex_length|lia]|apply typed_hex; [apply keccakHex_length|lia]|
        apply typed_num; [lia|done]|apply typed_num; [lia|lia]|apply Forall2_nil_2].
    + rewrite static_fields_4 by apply keccakHex_length. rewrite !length_app, !length_abi_word, !keccakHex_length. cbn. lia.
Qed.

(** ** Revealing the committed calldata *)

Lemma no_index n calls : committed_indexes n (call_text <$> calls) = [] -> Forall (fun c => k_hash c = zeros 32) calls.
Proof using.
  revert n. induction calls as [|c calls IH]; intros n H; [constructor|]. rewrite fmap_cons in H. cbn [committed_indexes call_text cc_dataHash] in H.
  case_bool_decide as Hz; [|done]. apply zero_hash_iff in Hz. constructor; [done|by eapply IH].
Qed.
Lemma one_index n calls i : committed_indexes n (call_text <$> calls) = [i] -> exists pre c post,
  calls = pre ++ c :: post /\ i = (n + length pre)%nat /\ k_hash c <> zeros 32 /\
  Forall (fun c => k_hash c = zeros 32) pre /\ Forall (fun c => k_hash c = zeros 32) post.
Proof using.
  revert n. induction calls as [|c calls IH]; intros n H; [done|]. rewrite fmap_cons in H. cbn [committed_indexes call_text cc_dataHash] in H.
  case_bool_decide as Hz.
  - apply zero_hash_iff in Hz. destruct (IH (S n) H) as (pre & d & post & -> & -> & Hd & Hpre & Hpost).
    exists (c :: pre), d, post. split_and!; [done|cbn; lia|done|by constructor|done].
  - injection H as <- H. exists [], c, calls. split_and!; [done|cbn; lia|by rewrite zero_hash_iff in Hz|constructor|by eapply no_index].
Qed.

Lemma imap_plain {X Y} (f : nat -> X -> Y) g l : (forall k x, (k < length l)%nat -> f k x = g x) -> imap f l = g <$> l.
Proof using.
  revert f. induction l as [|x l IH]; intros f H; [done|]. rewrite imap_cons, fmap_cons. rewrite H by (cbn; lia). f_equal.
  apply IH. intros k y Hk. apply H. cbn. lia.
Qed.
Definition reveal (data : bytes) (c : CallData) : CallData :=
  {| k_to := k_to c; k_data := data; k_hash := k_hash c; k_value := k_value c; k_allow := k_allow c |}.
Lemma exec_calls_none d calls : exec_calls None d (call_text <$> calls) = legacy_call_text <$> calls.
Proof using. unfold exec_calls. rewrite (imap_plain _ (fun c => exec_call (cc_data c) c)) by done. by rewrite <- list_fmap_compose. Qed.
Lemma exec_calls_one d l pre c post : toLowerCase d = hex0x l ->
  exec_calls (Some (length pre)) d (call_text <$> (pre ++ c :: post)) = legacy_call_text <$> (pre ++ reveal l c :: post).
Proof using.
  intros Hd. unfold exec_calls. rewrite !fmap_app, !fmap_cons, imap_app, imap_cons. rewrite length_fmap. f_equal; [|f_equal].
  - rewrite (imap_plain _ (fun c => exec_call (cc_data c) c)); [by rewrite <- list_fmap_compose|].
    intros k x Hk. rewrite length_fmap in Hk. rewrite bool_decide_eq_false_2; [done|]. intros [= ->]. lia.
  - rewrite bool_decide_eq_true_2 by (f_equal; lia). unfold exec_call. by rewrite Hd.
  - rewrite (imap_plain _ (fun c => exec_call (cc_data c) c)); [by rewrite <- list_fmap_compose|].
    intros k x Hk. cbn. rewrite bool_decide_eq_false_2; [done|]. intros [= E]. lia.
Qed.

(** The calls that are executed: as committed, with the calldata revealed. *)
Definition revealed (calldata : option jsstring) (c c' : CallData) : Prop :=
  k_to c' = k_to c /\ k_value c' = k_value c /\ k_allow c' = k_allow c /\ k_hash c' = k_hash c /\
  (k_hash c = zeros 32 /\ k_data c' = k_data c \/
   k_hash c <> zeros 32 /\ k_hash c = keccak (k_data c') /\ k_data c = [] /\ exists d, calldata = Some d /\ hex_value d = Some (k_data c')).
Definition hex_calldata (calldata : option jsstring) : Prop := forall d, calldata = Some d -> is_Some (hex_value d).

Lemma executable_ok q calldata r : request_ok q -> hex_calldata calldata ->
  toExecutableCallRequest (request_text q) calldata = Ok r ->
  exists calls', r = legacy_text {| q_calls := calls'; q_nonce := q_nonce q; q_expiration := q_expiration q |} /\
    Forall2 (revealed calldata) (q_calls q) calls' /\ Forall (fun c => k_hash c = zeros 32 \/ k_data c = []) (q_calls q).
Proof using AL.
  intros Hq Hhex H. unfold toExecutableCallRequest in H. cbn [request_text cw_calls cw_nonce cw_expiration] in H.
  apply bind_ok in H as ([] & Hone & H). apply check_ok in Hone. rewrite negb_true_iff, Nat.ltb_ge in Hone.
  apply bind_ok in H as ([] & Hboth & H). apply check_ok in Hboth. rewrite negb_true_iff in Hboth. apply bind_ok in H as ([] & Hcd & H).
  assert (forall calls, Forall (fun c => k_hash c = zeros 32) calls -> Forall2 (revealed calldata) calls calls) as Hplain.
  { intros calls Hc. induction Hc as [|c calls Hz _ IH]; constructor; [|done]. split_and!; [done..|by left]. }
  destruct (committed_indexes 0 (call_text <$> q_calls q)) as [|i [|j js]] eqn:Ei; [| |cbn in Hone; lia]; cbn [head hd_error mbind option_bind] in *.
  - exists (q_calls q). apply no_index in Ei. rewrite exec_calls_none in H. split_and!; [by injection H as <-|by apply Hplain|].
    eapply Forall_impl; [exact Ei|]. by left.
  - apply one_index in Ei as (pre & c & post & E & -> & Hnz & Hpre & Hpost). cbn [Nat.add] in *.
    assert ((call_text <$> q_calls q) !! length pre = Some (call_text c)) as Hlook.
    { rewrite E, fmap_app, fmap_cons. rewrite <- (length_fmap call_text pre). by apply list_lookup_middle. }
    rewrite Hlook in Hboth, Hcd. cbn [call_text cc_data cc_dataHash] in *. apply negb_false_iff, bool_decide_eq_true, empty_data_iff in Hboth.
    apply bind_ok in Hcd as (d & Hd & Hcd). apply require_ok in Hd. destruct (Hhex d Hd) as [l Hl].
    rewrite (keccakHex_law d l Hl) in Hcd. cbn [mbind result_bind] in Hcd. apply bind_ok in Hcd as ([] & Hk & _). apply check_ok in Hk.
    rewrite negb_involutive, bool_decide_eq_true, !hex0x_lower in Hk. apply hex0x_inj in Hk.
    exists (pre ++ reveal l c :: post). rewrite E in *. rewrite Hd in H. cbn [default] in H.
    rewrite (exec_calls_one d l) in H by (by apply hex_value_lower). split_and!; [by injection H as <-| |].
    + apply Forall2_app; [by apply Hplain|]. constructor; [|by apply Hplain]. split_and!; [done..|]. right. split_and!; [done|by rewrite <- Hk|done|].
      exists d. done.
    + apply Forall_app. split; [eapply Forall_impl; [exact Hpre|]; by left|]. constructor; [by right|]. eapply Forall_impl; [exact Hpost|]. by left.
Qed.

Lemma revealed_hash calldata c c' : revealed calldata c c' ->
  call_struct (k_to c) (data_hash c) (k_value c) (k_allow c) = executed_call c'.
Proof using.
  intros (H1 & H2 & H3 & _ & Hd). unfold executed_call, data_hash. rewrite H1, H2, H3. destruct Hd as [[Hz ->]|(Hn & Hz & _)].
  - by rewrite bool_decide_eq_true_2.
  - rewrite bool_decide_eq_false_2 by done. by rewrite Hz.
Qed.

(** ** Binding *)

Definition collision : Prop := exists x y : bytes, x <> y /\ keccak x = keccak y.
Lemma keccak_binds x y : keccak x = keccak y -> x = y \/ collision.
Proof using. intros E. destruct (decide (x = y)); [by left|right]. by exists x, y. Qed.

Lemma join_chunks_inj (k : nat) (l l' : list bytes) : (0 < k)%nat -> Forall (fun x => length x = k) l -> Forall (fun x => length x = k) l' ->
  mjoin l = mjoin l' -> l = l'.
Proof using.
  intros Hk Hl. revert l'. induction Hl as [|x l Hx _ IH]; intros l' Hl' E; destruct Hl' as [|y l' Hy Hl']; [done| | |].
  - symmetry in E. apply app_nil in E as [-> _]. cbn in Hy. lia.
  - apply app_nil in E as [-> _]. cbn in Hx. lia.
  - apply app_inj_1 in E as [-> E]; [|congruence]. f_equal. by apply IH.
Qed.

Lemma call_struct_binds to dh v b to' dh' v' b' : length to = length to' -> length dh = length dh' ->
  0 <= v < 2 ^ 256 -> 0 <= v' < 2 ^ 256 -> call_struct to dh v b = call_struct to' dh' v' b' ->
  (to = to' /\ dh = dh' /\ v = v' /\ b = b') \/ collision.
Proof using.
  intros Ht Hd Hv Hv' E. apply keccak_binds in E as [E|E]; [left|by right]. apply app_inv_head in E. rewrite <- !app_assoc in E.
  apply app_inv_head in E. apply app_inj_1 in E as [-> E]; [|done]. apply app_inj_1 in E as [-> E]; [|done].
  apply word_app_inj in E as [-> E]; [|done..]. apply word_inj in E; [|destruct b, b'; cbn; lia..]. split_and!; try done. by destruct b, b'.
Qed.
Lemma request_struct_binds hs n e hs' n' e' : Forall (fun x => length x = 32%nat) hs -> Forall (fun x => length x = 32%nat) hs' ->
  0 <= n < 2 ^ 256 -> 0 <= n' < 2 ^ 256 -> 0 <= e < 2 ^ 256 -> 0 <= e' < 2 ^ 256 ->
  request_struct hs n e = request_struct hs' n' e' -> (hs = hs' /\ n = n' /\ e = e') \/ collision.
Proof using AL.
  intros Hh Hh' Hn Hn' He He' E. apply keccak_binds in E as [E|E]; [|by right]. apply app_inv_head in E.
  apply app_inj_1 in E as [E1 E]; [|by rewrite !keccakHex_length]. apply word_app_inj in E as [-> E]; [|done..]. apply word_inj in E; [|done..].
  apply keccak_binds in E1 as [E1|E1]; [left|by right]. split_and!; [|done|done]. by apply (join_chunks_inj 32) in E1; [|lia|..].
Qed.
Lemma executed_calls_bind calls calls' : Forall call_ok calls -> Forall call_ok calls' ->
  executed_call <$> calls = executed_call <$> calls' -> legacy_call_text <$> calls = legacy_call_text <$> calls' \/ collision.
Proof using AL.
  intros Hc. revert calls'. induction Hc as [|c calls [Ht _ Hv] _ IH]; intros calls' Hc' E; destruct Hc' as [|c' calls' [Ht' _ Hv'] Hc'];
    [by left|done|done|]. rewrite !fmap_cons.
  change (executed_call c :: (executed_call <$> calls) = executed_call c' :: (executed_call <$> calls')) in E. injection E as E1 E.
  destruct (IH calls' Hc' E) as [->|Hx]; [|by right].
  apply call_struct_binds in E1 as [(E1 & E2 & E3 & E4)|Hx]; [|by right|congruence|by rewrite !keccakHex_length|done|done].
  apply keccak_binds in E2 as [E2|Hx]; [left|by right]. f_equal. unfold legacy_call_text, plain_call_text. congruence.
Qed.

Lemma revealed_calls_ok calldata calls calls' : Forall2 (revealed calldata) calls calls' -> Forall call_ok calls -> Forall call_ok calls'.
Proof using.
  induction 1 as [|c c' calls calls' (E1 & E2 & _ & E4 & _) _ IH]; intros H; [constructor|]. apply Forall_cons in H as [[H1 H2 H3] H].
  constructor; [|by apply IH]. split; congruence || lia.
Qed.
Lemma request_executes q calldata r : request_ok q -> hex_calldata calldata ->
  toExecutableCallRequest (request_text q) calldata = Ok r ->
  exists calls', let q' := {| q_calls := calls'; q_nonce := q_nonce q; q_expiration := q_expiration q |} in
    r = legacy_text q' /\ Forall2 (revealed calldata) (q_calls q) calls' /\
    getCommittedCallRequestId (request_text q) = Ok (hex0x (executed_request q')).
Proof using AL.
  intros Hq Hhex H. destruct (executable_ok q calldata r Hq Hhex H) as (calls' & -> & Hrev & Hone). exists calls'. split_and!; [done|done|].
  rewrite request_id by done. unfold executed_request. cbn [q_calls q_nonce q_expiration]. do 3 f_equal.
  clear -Hrev. induction Hrev as [|c c' calls calls' Hc _ IH]; [done|]. rewrite !fmap_cons, IH. f_equal. by eapply revealed_hash.
Qed.

(** ** Theorems *)

(** The ethereum-vm codec reads back what it writes, and payloads of the older
    schema, whose calls carry no commitment, read as the same calls with a zero
    commitment: the two schemas are never confused. *)
Theorem call_request_roundtrip q : request_ok q ->
  (exists s, wc_encode ethereumVmCodec (request_text q) = Ok s /\ wc_decode ethereumVmCodec s = Ok (request_text q)) /\
  (exists s, ac_encode legacyAbiCodec (legacy_text q) = Ok s /\
     wc_decode ethereumVmCodec s = Ok (uncommitted_request (legacy_text q))).
Proof using AL.
  intros Hq. split.
  - exists (hex0x (abi_encode committedCallRequestAbiParams (request_value q))). pose proof (committed_encode q Hq) as He. split; [done|].
    cbn [wc_decode ethereumVmCodec]. unfold ethereum_decode. by rewrite (schema_accepts abiCodec (request_text q)) by (done || by apply committed_decode).
  - eexists. split; [by apply legacy_encode|by apply legacy_reads].
Qed.

(** C19: The request that [toExecutableCallRequest] releases has the calls of the
    committed request with the committed calldata revealed, and the id of the
    committed request, which the allocator signs, is the struct hash the
    depository computes for the executed one. *)
Theorem execution_keeps_id q calldata r : request_ok q -> hex_calldata calldata ->
  toExecutableCallRequest (request_text q) calldata = Ok r ->
  exists q', r = legacy_text q' /\ q_nonce q' = q_nonce q /\ q_expiration q' = q_expiration q /\
    Forall2 (revealed calldata) (q_calls q) (q_calls q') /\
    getCommittedCallRequestId (request_text q) = Ok (hex0x (executed_request q')).
Proof using AL.
  intros Hq Hhex H. destruct (request_executes q calldata r Hq Hhex H) as (calls' & -> & Hrev & Hid). eexists. split_and!; done.
Qed.

(** An id admits one execution: two committed requests with the same id, each
    with its calldata revealed, release the same executable request, or they
    exhibit a Keccak collision. *)
Theorem call_request_id_binds q1 q2 c1 c2 r1 r2 id : request_ok q1 -> request_ok q2 -> hex_calldata c1 -> hex_calldata c2 ->
  toExecutableCallRequest (request_text q1) c1 = Ok r1 -> toExecutableCallRequest (request_text q2) c2 = Ok r2 ->
  getCommittedCallRequestId (request_text q1) = Ok id -> getCommittedCallRequestId (request_text q2) = Ok id ->
  r1 = r2 \/ collision.
Proof using AL.
  intros Hq1 Hq2 Hx1 Hx2 H1 H2 I1 I2. destruct (request_executes q1 c1 r1 Hq1 Hx1 H1) as (calls1 & -> & R1 & E1).
  destruct (request_executes q2 c2 r2 Hq2 Hx2 H2) as (calls2 & -> & R2 & E2).
  assert (executed_request {| q_calls := calls1; q_nonce := q_nonce q1; q_expiration := q_expiration q1 |} =
          executed_request {| q_calls := calls2; q_nonce := q_nonce q2; q_expiration := q_expiration q2 |}) as E by (apply hex0x_inj; congruence).
  destruct Hq1, Hq2. assert (forall calls, Forall (fun x => length x = 32%nat) (executed_call <$> calls)) as Hlen.
  { intros calls. apply Forall_fmap, Forall_forall. intros c _. unfold compose, executed_call, call_struct. apply keccakHex_length. }
  unfold executed_request in E. cbn [q_calls q_nonce q_expiration] in E.
  apply request_struct_binds in E as [(E & En & Ee)|Hx]; [|by right|apply Hlen|apply Hlen|lia..].
  apply executed_calls_bind in E as [E|Hx]; [|by right|by eapply revealed_calls_ok..]. left. unfold legacy_text, plain_text. fold legacy_call_text.
  cbn [q_calls q_nonce q_expiration]. by rewrite E, En, Ee.
Qed.
End Calls.

(** ** A concrete viem *)

Section ConcreteViem.
Fixpoint all_typed (strict : bool) (ts : list AbiTy) (vs : list AbiVal) : bool :=
  match ts, vs with
  | [], [] => true
  | t :: ts', v :: vs' => typedb strict v t && all_typed strict ts' vs'
  | _, _ => false
  end.
Lemma all_typed_spec strict ts vs : all_typed strict ts vs = true <-> Forall2 (typed_in strict) ts vs.
Proof using.
  revert vs. induction ts as [|t ts IH]; intros [|v vs]; cbn; [split; [constructor|done]|split; [done|inversion 1]|split; [done|inversion 1]|].
  rewrite andb_true_iff, typedb_spec, IH. split; [intros []; by constructor|by inversion 1].
Qed.
Definition toy_encode (ts : list AbiTy) (vs : list AbiVal) : result bytes :=
  if all_typed true ts vs && (Z.of_nat (length (abi_encode ts vs)) <? 2 ^ 256) then Ok (abi_encode ts vs) else Err "invalid value".
Lemma toy_encode_ok ts vs l : toy_encode ts vs = Ok l <-> abi_typed ts vs /\ l = abi_encode ts vs.
Proof using.
  unfold toy_encode, abi_typed. rewrite <- all_typed_spec. destruct (all_typed true ts vs); cbn [andb]; [|split; [done|by intros [[? _] _]]].
  destruct (Z.ltb_spec (Z.of_nat (length (abi_encode ts vs))) (2 ^ 256)); [|split; [done|by intros [[_ ?] _]; lia]].
  split; [intros E; injection E as <-; done|by intros [_ ->]].
Qed.
Definition toy_selector (name : string) (ts : list AbiTy) : bytes := [xac; x96; x50; xd8].
Definition toy_abi : SdkAbi := {|
  encodeAbi := fun ts vs => l ← toy_encode ts vs; Ok (hex0x l);
  decodeAbi := fun ts s => l ← require (hex_value s) "hex"; require (abi_decode_all id ts l) "decode";
  encodeCall := fun name ts vs => l ← toy_encode ts vs; Ok (hex0x (toy_selector name ts ++ l));
  keccakHex := fun s => l ← require (hex_value s) "hex"; Ok (hex0x (toy_hash l));
  hashStructOf := fun _ name vs => Ok (js name) |}.
Lemma toy_sdk_abi_laws : SdkAbiLaws toy_abi toy_hash id toy_selector.
Proof using.
  assert (forall l, hex_value (id (hex0x l)) = Some l) as Hck by apply hex_value_hex0x.
  split; cbn [encodeAbi decodeAbi encodeCall keccakHex toy_abi].
  - intros ts vs H. by rewrite (proj2 (toy_encode_ok ts vs _) (conj H eq_refl)).
  - intros ts vs s _ H. apply bind_ok in H as (l & Hl & _). by apply toy_encode_ok in Hl as [Hl _].
  - intros ts vs H. rewrite hex_value_hex0x. cbn [require mbind result_bind].
    pose proof (abi_roundtrip id Hck ts vs [] H) as E. rewrite app_nil_r in E. by rewrite E.
  - intros ts s vs Hw H. apply bind_ok in H as (l & _ & H). apply require_ok in H. by eapply abi_decoded_typed.
  - intros name ts vs H. by rewrite (proj2 (toy_encode_ok ts vs _) (conj H eq_refl)).
  - done.
  - intros s l H. by rewrite H.
  - intros l. apply length_pad32.
  - exact Hck.
  - apply hex0x_lower.
Qed.

(** A transfer of a token to a router, then a committed call of the router. *)
Definition toy_calldata : bytes := [xac; x96; x50; xd8; x01; x02].
Definition toy_calls : list CallData :=
  [{| k_to := replicate 20 x11; k_data := [xa9; x05; x9c; xbb; x07]; k_hash := zeros 32; k_value := 0; k_allow := false |};
   {| k_to := replicate 20 x22; k_data := []; k_hash := toy_hash toy_calldata; k_value := 5; k_allow := true |}].
Definition toy_request_data : RequestData := {| q_calls := toy_calls; q_nonce := 77; q_expiration := 1700000000 |}.
Lemma toy_request_ok : request_ok toy_request_data.
Proof using.
  split; [|vm_compute; reflexivity|cbn; lia|cbn; lia|vm_compute; reflexivity|vm_compute; reflexivity].
  repeat constructor; cbn; lia.
Qed.
Lemma toy_hex : hex_calldata (Some (hex0x toy_calldata)).
Proof using. intros d [= <-]. exists toy_calldata. apply hex_value_hex0x. Qed.

Lemma call_request_witness :
  (exists s, wc_encode (ethereumVmCodec (A := toy_abi)) (request_text toy_request_data) = Ok s /\
     wc_decode (ethereumVmCodec (A := toy_abi)) s = Ok (request_text toy_request_data)).
Proof using.
  pose proof toy_sdk_abi_laws. exact (proj1 (call_request_roundtrip (A := toy_abi) (keccak := toy_hash) (checksum := id) (selector := toy_selector) toy_request_data toy_request_ok)).
Defined.
Definition toy_released := toExecutableCallRequest (A := toy_abi) (request_text toy_request_data) (Some (hex0x toy_calldata)).
Lemma execution_witness :
  match toy_released with
  | Ok r => xc_data <$> xw_calls r = [js "0xa9059cbb07"; js "0xac9650d80102"] /\
      exists q', r = legacy_text q' /\
        getCommittedCallRequestId (A := toy_abi) (request_text toy_request_data) = Ok (hex0x (executed_request (keccak := toy_hash) q'))
  | Err _ => False
  end.
Proof using.
  pose proof toy_sdk_abi_laws. destruct toy_released as [r|e] eqn:E; [|vm_compute in E; discriminate].
  split; [vm_compute in E; injection E as <-; reflexivity|].
  destruct (execution_keeps_id (A := toy_abi) (keccak := toy_hash) (checksum := id) (selector := toy_selector)
    toy_request_data (Some (hex0x toy_calldata)) r toy_request_ok toy_hex E) as (q' & Hr & _ & _ & _ & Hid). exists q'. split; assumption.
Defined.
(** The same calls without a commitment. *)
Definition toy_plain_data : RequestData := {| q_calls := imap (fun i c => if Nat.eqb i 1 then
    {| k_to := k_to c; k_data := toy_calldata; k_hash := zeros 32; k_value := k_value c; k_allow := k_allow c |} else c) toy_calls;
  q_nonce := 77; q_expiration := 1700000000 |}.
Lemma toy_plain_ok : request_ok toy_plain_data.
Proof using.
  split; [|vm_compute; reflexivity|cbn; lia|cbn; lia|vm_compute; reflexivity|vm_compute; reflexivity].
  repeat constructor; cbn; lia.
Qed.
Lemma call_request_id_witness :
  match toy_released, toExecutableCallRequest (A := toy_abi) (request_text toy_plain_data) None,
    getCommittedCallRequestId (A := toy_abi) (request_text toy_request_data) with
  | Ok r1, Ok r2, Ok _ => r1 = r2 \/ collision (keccak := toy_hash)
  | _, _, _ => False
  end.
Proof using.
  pose proof toy_sdk_abi_laws. destruct toy_released as [r1|e] eqn:E1; [|vm_compute in E1; discriminate].
  destruct (toExecutableCallRequest (A := toy_abi) (request_text toy_plain_data) None) as [r2|e] eqn:E2; [|vm_compute in E2; discriminate].
  destruct (getCommittedCallRequestId (A := toy_abi) (request_text toy_request_data)) as [i|e] eqn:Ei; [|vm_compute in Ei; discriminate].
  assert (getCommittedCallRequestId (A := toy_abi) (request_text toy_plain_data) = Ok i) as Ei' by (rewrite <- Ei; vm_compute; reflexivity).
  exact (call_request_id_binds (A := toy_abi) (keccak := toy_hash) (checksum := id) (selector := toy_selector)
    toy_request_data toy_plain_data (Some (hex0x toy_calldata)) None r1 r2 i
    toy_request_ok toy_plain_ok toy_hex ltac:(intros d; discriminate) E1 E2 Ei Ei').
Defined.
End ConcreteViem.
