(* ===== verification/SdkPayloads.v ===== *)
(** * Withdrawal payloads of the chains

    The payloads of the VMs other than Ethereum, in three parts.  First Bitcoin,
    Tron, Lighter and Hyperliquid.

    packages/sdk/src/messages/v2.1/withdrawals/bitcoin-vm.ts, tron-vm.ts,
    lighter-vm.ts and hyperliquid-vm.ts.  The client libraries of the chains
    (bitcoinjs-lib, Anchor's Borsh coder, @solana/web3.js, @ton/core,
    ripple-binary-codec, viem's [parseUnits]) are the interface [PayloadLibs],
    which the other payloads use too.  Numbers that come from narrow ABI
    integers are integers. *)

From Stdlib Require Import Strings.Byte.
From S2P Require Import Prelude JsNum JsString JsNumber Scanner HexBytes Abi BitcoinTx HederaIds SdkAddress AbiSpec SdkCodec.
Local Open Scope Z_scope.
Local Open Scope js_scope.

(** ** Client libraries *)

(** The fields of the Borsh type [TransferRequest]. *)
Record SolanaRequest := {
  sr_domain : bytes; sr_recipient : bytes; sr_token : option bytes; sr_amount : Z; sr_nonce : Z; sr_expiration : Z;
  sr_vault : bytes }.
(** What a TON cell is built from. *)
Inductive TonStore := StoreUint (value bits : Z) | StoreRef (cell : bytes).
(** The fields of an XRPL payment. *)
Record XrpPayment := {
  xp_Account : jsstring; xp_Destination : jsstring; xp_Amount : jsstring; xp_Fee : jsstring; xp_Sequence : Z;
  xp_LastLedgerSequence : Z; xp_Flags : Z; xp_SigningPubKey : jsstring; xp_DestinationTag : option Z }.
Class PayloadLibs := {
  lib_sha256_text : jsstring -> jsstring;
  lib_sha256 : bytes -> bytes;
  lib_sha512 : bytes -> bytes;
  (** [psbt.finalizeAllInputs().getFee()], and value and address of the first output. *)
  psbt_fee : jsstring -> result Z;
  psbt_first_value : jsstring -> result Z;
  psbt_first_address : jsstring -> result jsstring;
  borsh_encode : SolanaRequest -> result bytes;
  borsh_decode : bytes -> result SolanaRequest;
  publicKey_parse : jsstring -> result bytes;
  publicKey_base58 : bytes -> jsstring;
  (** [new BN(text)]. *)
  bn_parse : jsstring -> result Z;
  (** [storeMessageRelaxed(internal({ to, value, bounce }))] of a parsed address, as a cell. *)
  ton_message : Z * bytes -> Z -> bool -> result bytes;
  ton_cell_hash : list TonStore -> result bytes;
  encodeForSigning : XrpPayment -> result jsstring;
  parseUnits : jsstring -> Z -> result Z;
}.

Section Payloads.
Context {A : SdkAbi} {V : Viem} {L : SdkLibs} {P : PayloadLibs}.

(** ** bitcoin-vm.ts *)

Definition bitcoinVmCodec : WithdrawalCodec jsstring := {|
  wc_encode := fun psbt => Ok (js "0x" ++ psbt);
  wc_decode := fun encodedWithdrawal => Ok (drop 2 encodedWithdrawal);
  wc_getId := fun psbt => Ok (js "0x" ++ lib_sha256_text (js "0x" ++ psbt));
  wc_getCurrency := fun _ => Ok (getVmTypeNativeCurrency bitcoin_vm);
  wc_getAmount := fun psbt => fee ← psbt_fee psbt; value ← psbt_first_value psbt; Ok (toString10 (value + fee));
  wc_getRecipient := psbt_first_address |}.

(** ** tron-vm.ts *)

(** tronweb's [ADDRESS_PREFIX] is [41] and its [ADDRESS_PREFIX_REGEX] matches it
    at the start; [replace] with a string replaces the first occurrence. *)
Definition ADDRESS_PREFIX : jsstring := js "41".
Definition tron_to_evm (to : jsstring) : jsstring := if startsWith to ADDRESS_PREFIX then js "0x" ++ drop 2 to else to.
Fixpoint replace_0x (s : jsstring) : jsstring :=
  match s with
  | [] => []
  | c :: r => if startsWith s (js "0x") then ADDRESS_PREFIX ++ drop 1 r else c :: replace_0x r
  end.
Definition evm_to_tron (to : jsstring) : jsstring := replace_0x (toLowerCase to).
Definition tron_types : list (string * list (string * string)) :=
  [("CallRequest", [("calls", "Call[]"); ("nonce", "uint256"); ("expiration", "uint256")]);
   ("Call", [("to", "address"); ("data", "bytes"); ("value", "uint256"); ("allowFailure", "bool")])].
Definition tron_struct (withdrawal : CallRequestWithdrawal) : list AbiVal :=
  [VArr ((fun c => VTup [VText (xc_to c); VText (xc_data c); VText (xc_value c); VBool (xc_allowFailure c)]) <$> xw_calls withdrawal);
   VText (xw_nonce withdrawal); match xw_expiration withdrawal with JInt z => VNum z | _ => VText [] end].
Definition tronAbiCodec : AbiCodec CallRequestWithdrawal :=
  defineAbiWithdrawalCodec callRequestAbiParams (call_request_toAbi tron_to_evm) (call_request_fromAbi evm_to_tron).
Definition tronVmCodec : WithdrawalCodec CallRequestWithdrawal := {|
  wc_encode := ac_encode tronAbiCodec; wc_decode := ac_decode tronAbiCodec;
  wc_getId := fun w => hashStructOf tron_types "CallRequest" (tron_struct w);
  wc_getCurrency := fun w => getCallRequestCurrency (exec_transfer <$> xw_calls w) tron_vm;
  wc_getAmount := fun w => getCallRequestAmount (exec_transfer <$> xw_calls w);
  wc_getRecipient := fun w => getCallRequestRecipient (exec_transfer <$> xw_calls w) |}.

(** ** lighter-vm.ts *)

Record LighterTransferParams := {
  lt_nonce : jsstring; lt_fromAccountIndex : jsstring; lt_fromRouteType : jsstring; lt_apiKeyIndex : jsstring;
  lt_toAccountIndex : jsstring; lt_toRouteType : jsstring; lt_assetIndex : jsstring; lt_amount : jsstring;
  lt_usdcFee : jsstring; lt_lighterChainId : jsstring; lt_memo : jsstring }.
Record LighterWithdrawal := { lw_actionType : Z; lw_parameters : LighterTransferParams }.
Definition lighterEnvelope : list AbiTy := [TTuple [("actionType", TUint 8); ("parameters", TBytes)]].
Definition transferAbiParams : list AbiTy := [TTuple [("nonce", TUint 64); ("fromAccountIndex", TUint 64); ("fromRouteType", TUint 64);
  ("apiKeyIndex", TUint 64); ("toAccountIndex", TUint 64); ("toRouteType", TUint 64); ("assetIndex", TUint 64); ("amount", TUint 64);
  ("usdcFee", TUint 64); ("lighterChainId", TUint 64); ("memo", TFixed 32)]].
(** [s.padEnd(64, "0")]. *)
Definition padEnd64 (s : jsstring) : jsstring := s ++ replicate (64 - length s) 48.
Definition transfer_toAbi (p : LighterTransferParams) : result (list AbiVal) :=
  nonce ← BigInt (lt_nonce p); fromAccountIndex ← BigInt (lt_fromAccountIndex p); fromRouteType ← BigInt (lt_fromRouteType p);
  apiKeyIndex ← BigInt (lt_apiKeyIndex p); toAccountIndex ← BigInt (lt_toAccountIndex p); toRouteType ← BigInt (lt_toRouteType p);
  assetIndex ← BigInt (lt_assetIndex p); amount ← BigInt (lt_amount p); usdcFee ← BigInt (lt_usdcFee p);
  lighterChainId ← BigInt (lt_lighterChainId p);
  Ok [VTup [VNum nonce; VNum fromAccountIndex; VNum fromRouteType; VNum apiKeyIndex; VNum toAccountIndex; VNum toRouteType;
    VNum assetIndex; VNum amount; VNum usdcFee; VNum lighterChainId; VHex (js "0x" ++ padEnd64 (lt_memo p))]].
Definition transfer_fromAbi (values : list AbiVal) : result LighterTransferParams :=
  match values with
  | [VTup [VNum nonce; VNum fromAccountIndex; VNum fromRouteType; VNum apiKeyIndex; VNum toAccountIndex; VNum toRouteType;
      VNum assetIndex; VNum amount; VNum usdcFee; VNum lighterChainId; VHex memo]] =>
      Ok {| lt_nonce := toString10 nonce; lt_fromAccountIndex := toString10 fromAccountIndex;
            lt_fromRouteType := toString10 fromRouteType; lt_apiKeyIndex := toString10 apiKeyIndex;
            lt_toAccountIndex := toString10 toAccountIndex; lt_toRouteType := toString10 toRouteType;
            lt_assetIndex := toString10 assetIndex; lt_amount := toString10 amount; lt_usdcFee := toString10 usdcFee;
            lt_lighterChainId := toString10 lighterChainId; lt_memo := drop 2 memo |}
  | _ => Err "TypeError"
  end.
Definition transferCodec : AbiCodec LighterTransferParams := defineAbiWithdrawalCodec transferAbiParams transfer_toAbi transfer_fromAbi.

Definition lighterToHex16 (val : jsstring) : result jsstring :=
  n ← BigInt val; Ok (js "0x" ++ padStart 16 48 (toString16 n)).
(** [lines.join("\n")]. *)
Fixpoint join_lines (lines : list jsstring) : jsstring :=
  match lines with [] => [] | [l] => l | l :: rest => l ++ 10 :: join_lines rest end.
Definition buildLighterTransferL1Message (w : LighterTransferParams) : result jsstring :=
  nonce ← lighterToHex16 (lt_nonce w); from ← lighterToHex16 (lt_fromAccountIndex w); fromRoute ← lighterToHex16 (lt_fromRouteType w);
  apiKey ← lighterToHex16 (lt_apiKeyIndex w); to ← lighterToHex16 (lt_toAccountIndex w); toRoute ← lighterToHex16 (lt_toRouteType w);
  asset ← lighterToHex16 (lt_assetIndex w); amount ← lighterToHex16 (lt_amount w); fee ← lighterToHex16 (lt_usdcFee w);
  chainId ← lighterToHex16 (lt_lighterChainId w);
  Ok (join_lines [js "Transfer"; []; js "nonce: " ++ nonce; js "from: " ++ from ++ js " (route " ++ fromRoute ++ js ")";
    js "api key: " ++ apiKey; js "to: " ++ to ++ js " (route " ++ toRoute ++ js ")"; js "asset: " ++ asset;
    js "amount: " ++ amount; js "fee: " ++ fee; js "chainId: " ++ chainId; js "memo: " ++ padEnd64 (lt_memo w);
    js "Only sign this message for a trusted client!"]).
Definition lighter_encode (withdrawal : LighterWithdrawal) : result jsstring :=
  parameters ← ac_encode transferCodec (lw_parameters withdrawal);
  encodeAbi lighterEnvelope [VTup [VNum (lw_actionType withdrawal); VHex parameters]].
Definition lighter_decode (encodedWithdrawal : jsstring) : result LighterWithdrawal :=
  values ← decodeAbi lighterEnvelope encodedWithdrawal;
  match values with
  | [VTup [VNum actionType; VHex parameters]] =>
      fail_if negb (actionType =? 0) with "Unsupported Lighter action type" ;;
      p ← ac_decode transferCodec parameters;
      Ok {| lw_actionType := actionType; lw_parameters := p |}
  | _ => Err "TypeError"
  end.
Definition lighterVmCodec : WithdrawalCodec LighterWithdrawal := {|
  wc_encode := lighter_encode; wc_decode := lighter_decode;
  wc_getId := fun w => message ← buildLighterTransferL1Message (lw_parameters w); keccakHex (stringToHex message);
  wc_getCurrency := fun w => Ok (lt_assetIndex (lw_parameters w));
  wc_getAmount := fun w => Ok (lt_amount (lw_parameters w));
  wc_getRecipient := fun w => Ok (lt_toAccountIndex (lw_parameters w)) |}.

(** ** hyperliquid-vm.ts *)

Record UsdSend := { us_hyperliquidChain : jsstring; us_destination : jsstring; us_amount : jsstring; us_time : jsstring }.
Record SendAsset := {
  sa_hyperliquidChain : jsstring; sa_destination : jsstring; sa_sourceDex : jsstring; sa_destinationDex : jsstring;
  sa_token : jsstring; sa_amount : jsstring; sa_fromSubAccount : jsstring; sa_nonce : jsstring }.
Inductive HyperliquidParameters := UsdSendParameters (p : UsdSend) | SendAssetParameters (p : SendAsset).
Record HyperliquidWithdrawal := { hw_txType : Z; hw_parameters : HyperliquidParameters }.
Definition hyperliquidEnvelope : list AbiTy := [TTuple [("txType", TUint 8); ("parameters", TBytes)]].
Definition usdSendAbiParams : list AbiTy :=
  [TTuple [("hyperliquidChain", TString); ("destination", TString); ("amount", TString); ("time", TUint 64)]].
Definition sendAssetAbiParams : list AbiTy :=
  [TTuple [("hyperliquidChain", TString); ("destination", TString); ("sourceDex", TString); ("destinationDex", TString);
           ("token", TString); ("amount", TString); ("fromSubAccount", TString); ("nonce", TUint 64)]].
Definition usdSend_values (p : UsdSend) : result (list AbiVal) :=
  time ← BigInt (us_time p);
  Ok [VText (us_hyperliquidChain p); VText (us_destination p); VText (us_amount p); VNum time].
Definition sendAsset_values (p : SendAsset) : result (list AbiVal) :=
  nonce ← BigInt (sa_nonce p);
  Ok [VText (sa_hyperliquidChain p); VText (sa_destination p); VText (sa_sourceDex p); VText (sa_destinationDex p);
      VText (sa_token p); VText (sa_amount p); VText (sa_fromSubAccount p); VNum nonce].
Definition usdSendCodec : AbiCodec UsdSend := defineAbiWithdrawalCodec usdSendAbiParams
  (fun p => fields ← usdSend_values p; Ok [VTup fields])
  (fun values => match values with
   | [VTup [VText chain; VText destination; VText amount; VNum time]] =>
       Ok {| us_hyperliquidChain := chain; us_destination := destination; us_amount := amount; us_time := toString10 time |}
   | _ => Err "TypeError" end).
Definition sendAssetCodec : AbiCodec SendAsset := defineAbiWithdrawalCodec sendAssetAbiParams
  (fun p => fields ← sendAsset_values p; Ok [VTup fields])
  (fun values => match values with
   | [VTup [VText chain; VText destination; VText sourceDex; VText destinationDex; VText token; VText amount;
            VText fromSubAccount; VNum nonce]] =>
       Ok {| sa_hyperliquidChain := chain; sa_destination := destination; sa_sourceDex := sourceDex;
             sa_destinationDex := destinationDex; sa_token := token; sa_amount := amount;
             sa_fromSubAccount := fromSubAccount; sa_nonce := toString10 nonce |}
   | _ => Err "TypeError" end).
Definition hyperliquid_encode (withdrawal : HyperliquidWithdrawal) : result jsstring :=
  parameters ← match hw_parameters withdrawal with
               | UsdSendParameters p => ac_encode usdSendCodec p
               | SendAssetParameters p => ac_encode sendAssetCodec p
               end;
  encodeAbi hyperliquidEnvelope [VTup [VNum (hw_txType withdrawal); VHex parameters]].
Definition hyperliquid_decode (encodedWithdrawal : jsstring) : result HyperliquidWithdrawal :=
  values ← decodeAbi hyperliquidEnvelope encodedWithdrawal;
  match values with
  | [VTup [VNum txType; VHex parameters]] =>
      if txType =? 0 then p ← ac_decode usdSendCodec parameters; Ok {| hw_txType := txType; hw_parameters := UsdSendParameters p |}
      else if txType =? 1 then
        p ← ac_decode sendAssetCodec parameters; Ok {| hw_txType := txType; hw_parameters := SendAssetParameters p |}
      else Err "Unsupported Hyperliquid transaction type"
  | _ => Err "TypeError"
  end.
Definition usdSend_types : list (string * list (string * string)) :=
  [("HyperliquidTransaction:UsdSend",
    [("hyperliquidChain", "string"); ("destination", "string"); ("amount", "string"); ("time", "uint64")])].
Definition sendAsset_types : list (string * list (string * string)) :=
  [("HyperliquidTransaction:SendAsset",
    [("hyperliquidChain", "string"); ("destination", "string"); ("sourceDex", "string"); ("destinationDex", "string");
     ("token", "string"); ("amount", "string"); ("fromSubAccount", "string"); ("nonce", "uint64")])].
Definition hyperliquid_getId (withdrawal : HyperliquidWithdrawal) : result jsstring :=
  match hw_parameters withdrawal with
  | UsdSendParameters p => values ← usdSend_values p; hashStructOf usdSend_types "HyperliquidTransaction:UsdSend" values
  | SendAssetParameters p => values ← sendAsset_values p; hashStructOf sendAsset_types "HyperliquidTransaction:SendAsset" values
  end.
Definition SPOT_USDC : jsstring := js "0x6d1e7cde53ba9467b783cb7c530ce054".
(** [s.split(c)[1]]. *)
Fixpoint after (c : Z) (s : jsstring) : option jsstring :=
  match s with [] => None | x :: r => if x =? c then Some r else after c r end.
Fixpoint before (c : Z) (s : jsstring) : jsstring :=
  match s with [] => [] | x :: r => if x =? c then [] else x :: before c r end.
Definition split_second (c : Z) (s : jsstring) : option jsstring := before c <$> after c s.
(** [Buffer.from(s, "ascii").toString("hex")]. *)
Definition ascii_hex (s : jsstring) : jsstring := bytesToHex (Uint8Array_from s).
Definition hyperliquid_getCurrency (withdrawal : HyperliquidWithdrawal) : result jsstring :=
  match hw_parameters withdrawal with
  | UsdSendParameters _ => Ok (getVmTypeNativeCurrency hyperliquid_vm)
  | SendAssetParameters p =>
      token ← require (split_second 58 (sa_token p)) "TypeError";
      let tokenAddress := toLowerCase token in
      let tokenDex := sa_sourceDex p in
      fail_if bool_decide (tokenDex = []) && negb (bool_decide (tokenAddress = SPOT_USDC))
        with "Only USDC is supported as a Perps token" ;;
      Ok (if bool_decide (tokenDex = js "spot") then toLowerCase tokenAddress
          else if bool_decide (tokenDex = []) then getVmTypeNativeCurrency hyperliquid_vm
          else toLowerCase tokenAddress ++ ascii_hex tokenDex)
  end.
Definition hyperliquid_amount (w : HyperliquidWithdrawal) : jsstring :=
  match hw_parameters w with UsdSendParameters p => us_amount p | SendAssetParameters p => sa_amount p end.
Definition hyperliquidVmCodec : WithdrawalCodec HyperliquidWithdrawal := {|
  wc_encode := hyperliquid_encode; wc_decode := hyperliquid_decode; wc_getId := hyperliquid_getId;
  wc_getCurrency := hyperliquid_getCurrency;
  wc_getAmount := fun w =>
    fraction ← require (split_second 46 (hyperliquid_amount w)) "TypeError";
    units ← parseUnits (hyperliquid_amount w) (Z.of_nat (length fraction));
    Ok (toString10 units);
  wc_getRecipient := fun w =>
    Ok (match hw_parameters w with UsdSendParameters p => us_destination p | SendAssetParameters p => sa_destination p end) |}.
End Payloads.

(** ** Withdrawal payloads of TON, XRP, Solana and the Gateway

    packages/sdk/src/messages/v2.1/withdrawals/ton-vm.ts, xrp-vm.ts,
    solana-vm.ts and gateway-vm/. *)

Local Open Scope Z_scope.
Local Open Scope js_scope.

Section Chains.
Context {A : SdkAbi} {V : Viem} {L : SdkLibs} {P : PayloadLibs}.

(** ** ton-vm.ts *)

Record TonWithdrawal := {
  tw_receiver : jsstring; tw_amount : jsstring; tw_createdAt : Z; tw_queryId : Z; tw_subwalletId : Z; tw_timeout : Z }.
Definition tonTransferRequestAbiParams : list AbiTy := [TTuple [("receiver", TFixed 32); ("amount", TUint 128);
  ("createdAt", TUint 32); ("queryId", TUint 32); ("subwalletId", TUint 32); ("timeout", TUint 32)]].
Definition TON_SEND_MODE : Z := 1.
Definition TON_BOUNCE : bool := false.
(** [queryId >>> 10] and [queryId & 0x3ff] on a 32-bit number. *)
Definition getTonVmWithdrawalCellHash (withdrawal : TonWithdrawal) : result jsstring :=
  '(workChain, receiver) ← ton_parse (tw_receiver withdrawal);
  amount ← BigInt (tw_amount withdrawal);
  messageCell ← ton_message (workChain, receiver) amount TON_BOUNCE;
  let shift := Z.shiftr (tw_queryId withdrawal mod 2 ^ 32) 10 in
  let bitNumber := Z.land (tw_queryId withdrawal) 0x3ff in
  hash ← ton_cell_hash [StoreUint (tw_subwalletId withdrawal) 32; StoreRef messageCell; StoreUint TON_SEND_MODE 8;
    StoreUint shift 13; StoreUint bitNumber 10; StoreUint (tw_createdAt withdrawal) 64; StoreUint (tw_timeout withdrawal) 22];
  Ok (hex0x hash).
Definition ton_toAbi (w : TonWithdrawal) : result (list AbiVal) :=
  receiver ← encodeAddress (tw_receiver w) ton_vm;
  amount ← BigInt (tw_amount w);
  Ok [VTup [VHex (hex0x receiver); VNum amount; VNum (tw_createdAt w); VNum (tw_queryId w); VNum (tw_subwalletId w); VNum (tw_timeout w)]].
Definition ton_fromAbi (values : list AbiVal) : result TonWithdrawal :=
  match values with
  | [VTup [VHex receiver; VNum amount; VNum createdAt; VNum queryId; VNum subwalletId; VNum timeout]] =>
      l ← viem_hexToBytes receiver;
      text ← decodeAddress l ton_vm;
      Ok {| tw_receiver := text; tw_amount := toString10 amount; tw_createdAt := createdAt; tw_queryId := queryId;
            tw_subwalletId := subwalletId; tw_timeout := timeout |}
  | _ => Err "TypeError"
  end.
Definition tonAbiCodec : AbiCodec TonWithdrawal := defineAbiWithdrawalCodec tonTransferRequestAbiParams ton_toAbi ton_fromAbi.
Definition tonVmCodec : WithdrawalCodec TonWithdrawal := {|
  wc_encode := ac_encode tonAbiCodec; wc_decode := ac_decode tonAbiCodec; wc_getId := getTonVmWithdrawalCellHash;
  wc_getCurrency := fun _ => Ok (getVmTypeNativeCurrency ton_vm);
  wc_getAmount := fun w => Ok (tw_amount w); wc_getRecipient := fun w => Ok (tw_receiver w) |}.

(** ** xrp-vm.ts *)

Record XrpWithdrawal := {
  xr_account : jsstring; xr_destination : jsstring; xr_amount : jsstring; xr_fee : jsstring; xr_sequence : Z;
  xr_lastLedgerSequence : Z; xr_flags : Z; xr_signingPubKey : jsstring; xr_destinationTag : option Z;
  xr_currency : option jsstring; xr_issuer : option jsstring }.
Definition assertNativeXrp (w : XrpWithdrawal) : result unit :=
  let hasCurrency := bool_decide (is_Some (xr_currency w)) in
  let hasIssuer := bool_decide (is_Some (xr_issuer w)) in
  fail_if negb (Bool.eqb hasCurrency hasIssuer) with "xrp-vm: issued currencies require both currency and issuer" ;;
  fail_if hasCurrency || hasIssuer with "xrp-vm: issued (non-native) currencies are not yet supported" ;;
  Ok tt.
Definition xrpPaymentRequestAbiParams : list AbiTy := [TTuple [("account", TFixed 20); ("destination", TFixed 20); ("amount", TUint 64);
  ("fee", TUint 64); ("sequence", TUint 32); ("lastLedgerSequence", TUint 32); ("flags", TUint 32); ("destinationTag", TUint 32);
  ("hasDestinationTag", TBool); ("signingPubKey", TBytes)]].
Definition upper (s : jsstring) : jsstring := (fun c => if in_range 97 122 c then c - 32 else c) <$> s.
Definition strip_lower_0x (s : jsstring) : jsstring := if startsWith s (js "0x") then drop 2 s else s.
Definition getXrpVmWithdrawalSigningHash (w : XrpWithdrawal) : result jsstring :=
  _ ← assertNativeXrp w;
  signingData ← encodeForSigning {| xp_Account := xr_account w; xp_Destination := xr_destination w; xp_Amount := xr_amount w;
    xp_Fee := xr_fee w; xp_Sequence := xr_sequence w; xp_LastLedgerSequence := xr_lastLedgerSequence w; xp_Flags := xr_flags w;
    xp_SigningPubKey := upper (strip_lower_0x (xr_signingPubKey w)); xp_DestinationTag := xr_destinationTag w |};
  l ← viem_hexToBytes (js "0x" ++ signingData);
  let digest := take 32 (lib_sha512 l) in
  Ok (js "0x" ++ upper (bytesToHex digest)).
Definition xrp_toAbi (w : XrpWithdrawal) : result (list AbiVal) :=
  _ ← assertNativeXrp w;
  account ← encodeAddress (xr_account w) xrp_vm;
  destination ← encodeAddress (xr_destination w) xrp_vm;
  amount ← BigInt (xr_amount w);
  fee ← BigInt (xr_fee w);
  Ok [VTup [VHex (hex0x account); VHex (hex0x destination); VNum amount; VNum fee; VNum (xr_sequence w);
    VNum (xr_lastLedgerSequence w); VNum (xr_flags w); VNum (default 0 (xr_destinationTag w));
    VBool (bool_decide (is_Some (xr_destinationTag w))); VHex (xr_signingPubKey w)]].
Definition xrp_fromAbi (values : list AbiVal) : result XrpWithdrawal :=
  match values with
  | [VTup [VHex account; VHex destination; VNum amount; VNum fee; VNum sequence; VNum lastLedgerSequence; VNum flags;
      VNum destinationTag; VBool hasDestinationTag; VHex signingPubKey]] =>
      la ← viem_hexToBytes account; a ← decodeAddress la xrp_vm;
      ld ← viem_hexToBytes destination; d ← decodeAddress ld xrp_vm;
      Ok {| xr_account := a; xr_destination := d; xr_amount := toString10 amount; xr_fee := toString10 fee;
            xr_sequence := sequence; xr_lastLedgerSequence := lastLedgerSequence; xr_flags := flags;
            xr_signingPubKey := signingPubKey; xr_destinationTag := if hasDestinationTag then Some destinationTag else None;
            xr_currency := None; xr_issuer := None |}
  | _ => Err "TypeError"
  end.
Definition xrpAbiCodec : AbiCodec XrpWithdrawal := defineAbiWithdrawalCodec xrpPaymentRequestAbiParams xrp_toAbi xrp_fromAbi.
Definition xrpVmCodec : WithdrawalCodec XrpWithdrawal := {|
  wc_encode := ac_encode xrpAbiCodec; wc_decode := ac_decode xrpAbiCodec; wc_getId := getXrpVmWithdrawalSigningHash;
  wc_getCurrency := fun _ => Ok (getVmTypeNativeCurrency xrp_vm);
  wc_getAmount := fun w => Ok (xr_amount w); wc_getRecipient := fun w => Ok (xr_destination w) |}.

(** ** solana-vm.ts *)

Record SolanaWithdrawal := {
  sw_domain : jsstring; sw_recipient : jsstring; sw_token : jsstring; sw_amount : jsstring; sw_nonce : jsstring;
  sw_expiration : Z; sw_vaultAddress : jsstring }.
Definition SYSTEM_PROGRAM : jsstring := js "11111111111111111111111111111111".
(** [Buffer.from(s, "hex")] stops at the first pair that is not hex. *)
Fixpoint buffer_hex (s : jsstring) : bytes :=
  match s with
  | a :: b :: r => if is_hex_digit a && is_hex_digit b then u8 (16 * hex_val a + hex_val b) :: buffer_hex r else []
  | _ => []
  end.
Definition encodeTransferRequest (w : SolanaWithdrawal) : result bytes :=
  recipient ← publicKey_parse (sw_recipient w);
  token ← (if bool_decide (sw_token w = SYSTEM_PROGRAM) then Ok None else t ← publicKey_parse (sw_token w); Ok (Some t));
  amount ← bn_parse (sw_amount w);
  nonce ← bn_parse (sw_nonce w);
  vault ← publicKey_parse (sw_vaultAddress w);
  borsh_encode {| sr_domain := buffer_hex (drop 2 (sw_domain w)); sr_recipient := recipient; sr_token := token; sr_amount := amount;
    sr_nonce := nonce; sr_expiration := sw_expiration w; sr_vault := vault |}.
Definition solana_decode (encodedWithdrawal : jsstring) : result SolanaWithdrawal :=
  request ← borsh_decode (buffer_hex (drop 2 encodedWithdrawal));
  fail_if negb (Z.abs (sr_expiration request) <? 2 ^ 53) with "Number can only safely store up to 53 bits" ;;
  Ok {| sw_domain := js "0x" ++ bytesToHex (sr_domain request); sw_recipient := publicKey_base58 (sr_recipient request);
        sw_token := match sr_token request with Some t => publicKey_base58 t | None => SYSTEM_PROGRAM end;
        sw_amount := toString10 (sr_amount request); sw_nonce := toString10 (sr_nonce request);
        sw_expiration := sr_expiration request; sw_vaultAddress := publicKey_base58 (sr_vault request) |}.
Definition solanaVmCodec : WithdrawalCodec SolanaWithdrawal := {|
  wc_encode := fun w => l ← encodeTransferRequest w; Ok (js "0x" ++ bytesToHex l);
  wc_decode := solana_decode;
  wc_getId := fun w => l ← encodeTransferRequest w; Ok (js "0x" ++ bytesToHex (lib_sha256 l));
  wc_getCurrency := fun w => Ok (sw_token w); wc_getAmount := fun w => Ok (sw_amount w);
  wc_getRecipient := fun w => Ok (sw_recipient w) |}.

(** ** gateway-vm *)

Record GatewayTransferSpec := {
  gs_version : Z; gs_sourceDomain : Z; gs_destinationDomain : Z; gs_sourceContract : jsstring; gs_destinationContract : jsstring;
  gs_sourceToken : jsstring; gs_destinationToken : jsstring; gs_sourceDepositor : jsstring; gs_destinationRecipient : jsstring;
  gs_sourceSigner : jsstring; gs_destinationCaller : jsstring; gs_value : jsstring; gs_salt : jsstring; gs_hookData : jsstring }.
Record GatewayBurnIntent := { gb_maxBlockHeight : jsstring; gb_maxFee : jsstring; gb_spec : GatewayTransferSpec }.
Record GatewayVmWithdrawal := { gw_destinationChainId : jsstring; gw_executionPayload : jsstring; gw_burnIntent : GatewayBurnIntent }.

Definition ETHEREUM_VM_GATEWAY_MINTER : jsstring := js "0x0000000000000000000000002222222d7164433c4c09b0b0d809a9b52c04c205".
Definition gatewayEthereumVmCallRequestAbiParams : list AbiTy :=
  [TTuple [("transferSpecHash", TFixed 32); ("calls", TArray committedCallTuple); ("nonce", TUint 256); ("expiration", TUint 256)]].
Record GatewayEthereumVmCallRequest := {
  ge_transferSpecHash : jsstring; ge_calls : list CommittedCall; ge_nonce : jsstring; ge_expiration : jsnum }.
(** The hash keeps the case viem returns. *)
Definition gateway_call_fromAbi (item : AbiVal) : result CommittedCall :=
  match item with
  | VTup [VHex to; VHex data; VHex dataHash; VNum value; VBool allowFailure] =>
      Ok {| cc_to := toLowerCase to; cc_data := toLowerCase data; cc_dataHash := dataHash; cc_value := toString10 value;
            cc_allowFailure := allowFailure |}
  | _ => Err "TypeError"
  end.
Definition validateGatewayEthereumVmCallRequest (request : GatewayEthereumVmCallRequest) : result GatewayEthereumVmCallRequest :=
  fail_if existsb (fun call => negb (bool_decide (cc_dataHash call = ZERO_DATA_HASH)) && negb (bool_decide (cc_data call = js "0x"))) (ge_calls request)
    with "Gateway EVM call contains both data and dataHash" ;;
  Ok request.
Definition decodeGatewayEthereumVmCallRequest (executionPayload : jsstring) : result GatewayEthereumVmCallRequest :=
  values ← decodeAbi gatewayEthereumVmCallRequestAbiParams executionPayload;
  match values with
  | [VTup [VHex transferSpecHash; VArr items; VNum nonce; VNum expiration]] =>
      calls ← mapM gateway_call_fromAbi items;
      validateGatewayEthereumVmCallRequest {| ge_transferSpecHash := transferSpecHash; ge_calls := calls;
        ge_nonce := toString10 nonce; ge_expiration := Number_of_bigint expiration |}
  | _ => Err "TypeError"
  end.
Definition GATEWAY_REQUEST_TYPE : jsstring :=
  js "CallRequest(bytes32 transferSpecHash,Call[] calls,uint256 nonce,uint256 expiration)Call(address to,bytes data,uint256 value,bool allowFailure)".
Definition gateway_call_hash (typehash : jsstring) (call : CommittedCall) : result jsstring :=
  dataHash ← if bool_decide (cc_dataHash call = ZERO_DATA_HASH) then keccakHex (cc_data call) else Ok (cc_dataHash call);
  hashCall typehash (cc_to call) dataHash (cc_value call) (cc_allowFailure call).
Definition getGatewayEthereumVmCallRequestId (request : GatewayEthereumVmCallRequest) : result jsstring :=
  callTypehash ← CALL_TYPEHASH;
  requestTypehash ← keccakHex (stringToHex GATEWAY_REQUEST_TYPE);
  callHashes ← mapM (gateway_call_hash callTypehash) (ge_calls request);
  callsHash ← keccakHex (concatHex callHashes);
  nonce ← BigInt (ge_nonce request);
  expiration ← BigInt_num (ge_expiration request);
  encoded ← encodeAbi [TFixed 32; TFixed 32; TFixed 32; TUint 256; TUint 256]
    [VHex requestTypehash; VHex (ge_transferSpecHash request); VHex callsHash; VNum nonce; VNum expiration];
  keccakHex encoded.

(** A destination codec; the only one registered is ethereum-vm's. *)
Record GatewayDestinationWithdrawalCodec := {
  gd_vmType : SdkVm; gd_matches : GatewayTransferSpec -> bool; gd_getId : jsstring -> result jsstring;
  gd_getRecipient : jsstring -> result jsstring; gd_getExpiration : jsstring -> result jsnum }.
Definition gatewayEthereumVmDestinationCodec : GatewayDestinationWithdrawalCodec := {|
  gd_vmType := ethereum_vm;
  gd_matches := fun spec => bool_decide (toLowerCase (gs_destinationContract spec) = ETHEREUM_VM_GATEWAY_MINTER);
  gd_getId := fun payload => request ← decodeGatewayEthereumVmCallRequest payload; getGatewayEthereumVmCallRequestId request;
  gd_getRecipient := fun payload =>
    request ← decodeGatewayEthereumVmCallRequest payload; getCallRequestRecipient (committed_transfer <$> ge_calls request);
  gd_getExpiration := fun payload => request ← decodeGatewayEthereumVmCallRequest payload; Ok (ge_expiration request) |}.
Definition destinationCodecs : list GatewayDestinationWithdrawalCodec := [gatewayEthereumVmDestinationCodec].
Definition getGatewayDestinationCodec (withdrawal : GatewayVmWithdrawal) : result GatewayDestinationWithdrawalCodec :=
  require (List.find (fun candidate => gd_matches candidate (gb_spec (gw_burnIntent withdrawal))) destinationCodecs)
    "Unsupported Gateway destination contract".
Definition getGatewayDestinationVmType (withdrawal : GatewayVmWithdrawal) : result SdkVm :=
  codec ← getGatewayDestinationCodec withdrawal; Ok (gd_vmType codec).
Definition getGatewayDestinationExpiration (withdrawal : GatewayVmWithdrawal) : result jsnum :=
  codec ← getGatewayDestinationCodec withdrawal; gd_getExpiration codec (gw_executionPayload withdrawal).

Definition transferSpecTuple : AbiTy := TTuple [("version", TUint 32); ("sourceDomain", TUint 32); ("destinationDomain", TUint 32);
  ("sourceContract", TFixed 32); ("destinationContract", TFixed 32); ("sourceToken", TFixed 32); ("destinationToken", TFixed 32);
  ("sourceDepositor", TFixed 32); ("destinationRecipient", TFixed 32); ("sourceSigner", TFixed 32); ("destinationCaller", TFixed 32);
  ("value", TUint 256); ("salt", TFixed 32); ("hookData", TBytes)].
Definition gatewayVmPayloadAbiParams : list AbiTy := [TTuple [("destinationChainId", TString); ("executionPayload", TBytes);
  ("burnIntent", TTuple [("maxBlockHeight", TUint 256); ("maxFee", TUint 256); ("spec", transferSpecTuple)])]].
Definition spec_toAbi (s : GatewayTransferSpec) : result AbiVal :=
  value ← BigInt (gs_value s);
  Ok (VTup [VNum (gs_version s); VNum (gs_sourceDomain s); VNum (gs_destinationDomain s); VHex (gs_sourceContract s);
    VHex (gs_destinationContract s); VHex (gs_sourceToken s); VHex (gs_destinationToken s); VHex (gs_sourceDepositor s);
    VHex (gs_destinationRecipient s); VHex (gs_sourceSigner s); VHex (gs_destinationCaller s); VNum value; VHex (gs_salt s);
    VHex (gs_hookData s)]).
Definition gateway_toAbi (w : GatewayVmWithdrawal) : result (list AbiVal) :=
  maxBlockHeight ← BigInt (gb_maxBlockHeight (gw_burnIntent w));
  maxFee ← BigInt (gb_maxFee (gw_burnIntent w));
  spec ← spec_toAbi (gb_spec (gw_burnIntent w));
  Ok [VTup [VText (gw_destinationChainId w); VHex (gw_executionPayload w); VTup [VNum maxBlockHeight; VNum maxFee; spec]]].
Definition gateway_fromAbi (values : list AbiVal) : result GatewayVmWithdrawal :=
  match values with
  | [VTup [VText destinationChainId; VHex executionPayload; VTup [VNum maxBlockHeight; VNum maxFee;
      VTup [VNum version; VNum sourceDomain; VNum destinationDomain; VHex sourceContract; VHex destinationContract; VHex sourceToken;
        VHex destinationToken; VHex sourceDepositor; VHex destinationRecipient; VHex sourceSigner; VHex destinationCaller;
        VNum value; VHex salt; VHex hookData]]]] =>
      Ok {| gw_destinationChainId := destinationChainId; gw_executionPayload := executionPayload; gw_burnIntent := {|
        gb_maxBlockHeight := toString10 maxBlockHeight; gb_maxFee := toString10 maxFee; gb_spec := {|
          gs_version := version; gs_sourceDomain := sourceDomain; gs_destinationDomain := destinationDomain;
          gs_sourceContract := sourceContract; gs_destinationContract := destinationContract; gs_sourceToken := sourceToken;
          gs_destinationToken := destinationToken; gs_sourceDepositor := sourceDepositor;
          gs_destinationRecipient := destinationRecipient; gs_sourceSigner := sourceSigner;
          gs_destinationCaller := destinationCaller; gs_value := toString10 value; gs_salt := salt; gs_hookData := hookData |} |} |}
  | _ => Err "TypeError"
  end.
Definition gatewayVmAbiCodec : AbiCodec GatewayVmWithdrawal := defineAbiWithdrawalCodec gatewayVmPayloadAbiParams gateway_toAbi gateway_fromAbi.
Definition gatewayVmCodec : WithdrawalCodec GatewayVmWithdrawal := {|
  wc_encode := ac_encode gatewayVmAbiCodec; wc_decode := ac_decode gatewayVmAbiCodec;
  wc_getId := fun w => codec ← getGatewayDestinationCodec w; gd_getId codec (gw_executionPayload w);
  wc_getCurrency := fun _ => Ok (getVmTypeNativeCurrency gateway_vm);
  wc_getAmount := fun w => Ok (gs_value (gb_spec (gw_burnIntent w)));
  wc_getRecipient := fun w => codec ← getGatewayDestinationCodec w; gd_getRecipient codec (gw_executionPayload w) |}.
End Chains.

(** ** Hedera withdrawals and the dispatch over VMs

    packages/sdk/src/messages/v2.1/withdrawals/hedera-vm.ts (with its protobuf
    serializer), index.ts and v2.1/depository-withdrawal.ts. *)

Local Open Scope Z_scope.
Local Open Scope js_scope.

(** ** Protobuf *)

Definition BODY_TRANSACTION_ID : Z := 1.
Definition BODY_NODE_ACCOUNT_ID : Z := 2.
Definition BODY_TRANSACTION_FEE : Z := 3.
Definition BODY_VALID_DURATION : Z := 4.
Definition BODY_MEMO : Z := 6.
Definition BODY_CRYPTO_TRANSFER : Z := 14.
Definition TRANSACTION_ID_VALID_START : Z := 1.
Definition TRANSACTION_ID_ACCOUNT_ID : Z := 2.
Definition TRANSACTION_ID_SCHEDULED : Z := 3.
Definition ENTITY_SHARD : Z := 1.
Definition ENTITY_REALM : Z := 2.
Definition ENTITY_NUM : Z := 3.
Definition TIMESTAMP_SECONDS : Z := 1.
Definition TIMESTAMP_NANOS : Z := 2.
Definition DURATION_SECONDS : Z := 1.
Definition CRYPTO_TRANSFER_TRANSFERS : Z := 1.
Definition CRYPTO_TRANSFER_TOKEN_TRANSFERS : Z := 2.
Definition TRANSFER_LIST_ACCOUNT_AMOUNTS : Z := 1.
Definition TOKEN_TRANSFER_LIST_TOKEN : Z := 1.
Definition TOKEN_TRANSFER_LIST_TRANSFERS : Z := 2.
Definition ACCOUNT_AMOUNT_ACCOUNT_ID : Z := 1.
Definition ACCOUNT_AMOUNT_AMOUNT : Z := 2.
Definition ACCOUNT_AMOUNT_IS_APPROVAL : Z := 3.
Definition WIRE_VARINT : Z := 0.
Definition WIRE_LENGTH_DELIMITED : Z := 2.

(** The loop of [varint]: one step per seven bits. *)
Fixpoint varint_loop (fuel : nat) (remaining : Z) : list Z :=
  match fuel with
  | O => [remaining]
  | S f => if 0x80 <=? remaining then Z.lor (Z.land remaining 0x7f) 0x80 :: varint_loop f (Z.shiftr remaining 7) else [remaining]
  end.
Definition varint (value : Z) : bytes := Uint8Array_from (varint_loop (Z.to_nat (Z.log2 value)) value).
Definition tag (fieldNumber wireType : Z) : bytes := Uint8Array_from [Z.lor (Z.shiftl fieldNumber 3) wireType].
Definition varintField (fieldNumber value : Z) : bytes := concatBytes [tag fieldNumber WIRE_VARINT; varint value].
Definition zigzag (value : Z) : Z := if value <? 0 then -2 * value - 1 else 2 * value.
Definition sint64Field (fieldNumber value : Z) : bytes := varintField fieldNumber (zigzag value).
Definition embedded (fieldNumber : Z) (message : bytes) : bytes :=
  concatBytes [tag fieldNumber WIRE_LENGTH_DELIMITED; varint (Z.of_nat (length message)); message].
Definition entity (num : Z) : bytes := concatBytes [varintField ENTITY_SHARD 0; varintField ENTITY_REALM 0; varintField ENTITY_NUM num].
Definition accountAmount (accountNum amount : Z) : bytes := concatBytes
  [embedded ACCOUNT_AMOUNT_ACCOUNT_ID (entity accountNum); sint64Field ACCOUNT_AMOUNT_AMOUNT amount;
   varintField ACCOUNT_AMOUNT_IS_APPROVAL 0].
Definition transferEntries (senderNum receiverNum amount fieldNumber : Z) : bytes :=
  let senderEntry := embedded fieldNumber (accountAmount senderNum (- amount)) in
  let receiverEntry := embedded fieldNumber (accountAmount receiverNum amount) in
  if senderNum <? receiverNum then concatBytes [senderEntry; receiverEntry] else concatBytes [receiverEntry; senderEntry].

Record TransferRequest := {
  hr_payerNum : Z; hr_senderNum : Z; hr_receiverNum : Z; hr_amount : Z; hr_tokenNum : Z; hr_nodeAccountNum : Z;
  hr_validStartSeconds : Z; hr_validStartNanos : Z; hr_validDurationSeconds : Z; hr_maxTransactionFee : Z }.
Definition cryptoTransfer (request : TransferRequest) : bytes :=
  if hr_tokenNum request =? 0 then
    embedded CRYPTO_TRANSFER_TRANSFERS
      (transferEntries (hr_senderNum request) (hr_receiverNum request) (hr_amount request) TRANSFER_LIST_ACCOUNT_AMOUNTS)
  else concatBytes
    [embedded CRYPTO_TRANSFER_TRANSFERS [];
     embedded CRYPTO_TRANSFER_TOKEN_TRANSFERS (concatBytes
       [embedded TOKEN_TRANSFER_LIST_TOKEN (entity (hr_tokenNum request));
        transferEntries (hr_senderNum request) (hr_receiverNum request) (hr_amount request) TOKEN_TRANSFER_LIST_TRANSFERS])].
(** The body of the transaction, of the request's numbers. *)
Definition transaction_body (request : TransferRequest) : bytes := concatBytes
  [embedded BODY_TRANSACTION_ID (concatBytes
     [embedded TRANSACTION_ID_VALID_START (concatBytes
        [varintField TIMESTAMP_SECONDS (hr_validStartSeconds request); varintField TIMESTAMP_NANOS (hr_validStartNanos request)]);
      embedded TRANSACTION_ID_ACCOUNT_ID (entity (hr_payerNum request)); varintField TRANSACTION_ID_SCHEDULED 0]);
   embedded BODY_NODE_ACCOUNT_ID (entity (hr_nodeAccountNum request));
   varintField BODY_TRANSACTION_FEE (hr_maxTransactionFee request);
   embedded BODY_VALID_DURATION (varintField DURATION_SECONDS (hr_validDurationSeconds request));
   embedded BODY_MEMO [];
   embedded BODY_CRYPTO_TRANSFER (cryptoTransfer request)].

(** ** The withdrawal *)

Record HederaWithdrawal := {
  he_payer : jsstring; he_sender : jsstring; he_receiver : jsstring; he_amount : jsstring; he_token : jsstring;
  he_nodeAccount : jsstring; he_validStart : jsstring; he_validDurationSeconds : Z; he_maxTransactionFee : jsstring }.
Definition hederaTransferRequestAbiParams : list AbiTy := [TTuple [("payerNum", TUint 64); ("senderNum", TUint 64); ("receiverNum", TUint 64);
  ("amount", TUint 64); ("tokenNum", TUint 64); ("nodeAccountNum", TUint 64); ("validStartSeconds", TUint 64); ("validStartNanos", TUint 32);
  ("validDurationSeconds", TUint 32); ("maxTransactionFee", TUint 64)]].

(** Seconds without leading zero, a dot and exactly nine digits. *)
Definition HEDERA_TIMESTAMP_REGEX (s : jsstring) : option (jsstring * jsstring) :=
  '(seconds, r) ← re_digits1 s;
  if negb (bool_decide (seconds = js "0")) && bool_decide (head seconds = Some 48) then None
  else match r with
  | 46 :: nanos => if Nat.eqb (length nanos) 9 && forallb is_digit nanos then Some (seconds, nanos) else None
  | _ => None
  end.

Section Hedera.
Context {A : SdkAbi} {V : Viem} {L : SdkLibs} {P : PayloadLibs}.

Definition toEntityNum (value : jsstring) : result Z :=
  address ← parseHederaAddress value None;
  match address with
  | EntityIdAddress id => Ok (num id)
  | EvmAlias _ => Err "hedera-vm: field must be an account id (0.0.x), not an account alias"
  end.
Definition fromEntityNum (n : Z) : jsstring := formatHederaEntityId {| shard := 0; realm := 0; num := n |}.

Definition toTransferRequest (w : HederaWithdrawal) : result TransferRequest :=
  '(seconds, nanos) ← require (HEDERA_TIMESTAMP_REGEX (he_validStart w)) "hedera-vm: invalid valid start";
  payerNum ← toEntityNum (he_payer w);
  senderNum ← toEntityNum (he_sender w);
  receiverNum ← toEntityNum (he_receiver w);
  amount ← BigInt (he_amount w);
  tokenNum ← toEntityNum (he_token w);
  nodeAccountNum ← toEntityNum (he_nodeAccount w);
  validStartSeconds ← BigInt seconds;
  validStartNanos ← BigInt_num (Number nanos);
  maxTransactionFee ← BigInt (he_maxTransactionFee w);
  Ok {| hr_payerNum := payerNum; hr_senderNum := senderNum; hr_receiverNum := receiverNum; hr_amount := amount;
        hr_tokenNum := tokenNum; hr_nodeAccountNum := nodeAccountNum; hr_validStartSeconds := validStartSeconds;
        hr_validStartNanos := validStartNanos; hr_validDurationSeconds := he_validDurationSeconds w;
        hr_maxTransactionFee := maxTransactionFee |}.
Definition getHederaVmTransactionBody (w : HederaWithdrawal) : result bytes :=
  request ← toTransferRequest w; Ok (transaction_body request).

Definition hedera_toAbi (w : HederaWithdrawal) : result (list AbiVal) :=
  r ← toTransferRequest w;
  Ok [VTup [VNum (hr_payerNum r); VNum (hr_senderNum r); VNum (hr_receiverNum r); VNum (hr_amount r); VNum (hr_tokenNum r);
    VNum (hr_nodeAccountNum r); VNum (hr_validStartSeconds r); VNum (hr_validStartNanos r); VNum (hr_validDurationSeconds r);
    VNum (hr_maxTransactionFee r)]].
Definition hedera_fromAbi (values : list AbiVal) : result HederaWithdrawal :=
  match values with
  | [VTup [VNum payerNum; VNum senderNum; VNum receiverNum; VNum amount; VNum tokenNum; VNum nodeAccountNum; VNum validStartSeconds;
      VNum validStartNanos; VNum validDurationSeconds; VNum maxTransactionFee]] =>
      Ok {| he_payer := fromEntityNum payerNum; he_sender := fromEntityNum senderNum; he_receiver := fromEntityNum receiverNum;
            he_amount := toString10 amount; he_token := fromEntityNum tokenNum; he_nodeAccount := fromEntityNum nodeAccountNum;
            he_validStart := toString10 validStartSeconds ++ js "." ++ padStart 9 48 (toString10 validStartNanos);
            he_validDurationSeconds := validDurationSeconds; he_maxTransactionFee := toString10 maxTransactionFee |}
  | _ => Err "TypeError"
  end.
Definition hederaAbiCodec : AbiCodec HederaWithdrawal := defineAbiWithdrawalCodec hederaTransferRequestAbiParams hedera_toAbi hedera_fromAbi.
Definition hederaVmCodec : WithdrawalCodec HederaWithdrawal := {|
  wc_encode := ac_encode hederaAbiCodec; wc_decode := ac_decode hederaAbiCodec;
  wc_getId := fun w => body ← getHederaVmTransactionBody w; keccakHex (hex0x body);
  wc_getCurrency := fun w => Ok (he_token w); wc_getAmount := fun w => Ok (he_amount w);
  wc_getRecipient := fun w => Ok (he_receiver w) |}.

(** ** depository-withdrawal.ts and index.ts *)

Inductive DecodedWithdrawal :=
  | DecodedBitcoinVmWithdrawal (psbt : jsstring)
  | DecodedEthereumVmWithdrawal (w : CommittedCallRequestWithdrawal)
  | DecodedGatewayVmWithdrawal (w : GatewayVmWithdrawal)
  | DecodedHederaVmWithdrawal (w : HederaWithdrawal)
  | DecodedHyperliquidVmWithdrawal (w : HyperliquidWithdrawal)
  | DecodedLighterVmWithdrawal (w : LighterWithdrawal)
  | DecodedSolanaVmWithdrawal (w : SolanaWithdrawal)
  | DecodedTonVmWithdrawal (w : TonWithdrawal)
  | DecodedTronVmWithdrawal (w : CallRequestWithdrawal)
  | DecodedXrpVmWithdrawal (w : XrpWithdrawal).
Definition withdrawal_vm (d : DecodedWithdrawal) : SdkVm :=
  match d with
  | DecodedBitcoinVmWithdrawal _ => bitcoin_vm | DecodedEthereumVmWithdrawal _ => ethereum_vm
  | DecodedGatewayVmWithdrawal _ => gateway_vm | DecodedHederaVmWithdrawal _ => hedera_vm
  | DecodedHyperliquidVmWithdrawal _ => hyperliquid_vm | DecodedLighterVmWithdrawal _ => lighter_vm
  | DecodedSolanaVmWithdrawal _ => solana_vm | DecodedTonVmWithdrawal _ => ton_vm
  | DecodedTronVmWithdrawal _ => tron_vm | DecodedXrpVmWithdrawal _ => xrp_vm
  end.
(** The codec registered for a VM, applied to a withdrawal of that VM. *)
Definition with_codec {R} (f : forall W, WithdrawalCodec W -> W -> R) (d : DecodedWithdrawal) : R :=
  match d with
  | DecodedBitcoinVmWithdrawal w => f _ bitcoinVmCodec w
  | DecodedEthereumVmWithdrawal w => f _ ethereumVmCodec w
  | DecodedGatewayVmWithdrawal w => f _ gatewayVmCodec w
  | DecodedHederaVmWithdrawal w => f _ hederaVmCodec w
  | DecodedHyperliquidVmWithdrawal w => f _ hyperliquidVmCodec w
  | DecodedLighterVmWithdrawal w => f _ lighterVmCodec w
  | DecodedSolanaVmWithdrawal w => f _ solanaVmCodec w
  | DecodedTonVmWithdrawal w => f _ tonVmCodec w
  | DecodedTronVmWithdrawal w => f _ tronVmCodec w
  | DecodedXrpVmWithdrawal w => f _ xrpVmCodec w
  end.
Definition encodeWithdrawal (d : DecodedWithdrawal) : result jsstring := with_codec (fun _ codec => wc_encode codec) d.
Definition decodeWithdrawal (encodedWithdrawal : jsstring) (vmType : SdkVm) : result DecodedWithdrawal :=
  match vmType with
  | bitcoin_vm => w ← wc_decode bitcoinVmCodec encodedWithdrawal; Ok (DecodedBitcoinVmWithdrawal w)
  | ethereum_vm => w ← wc_decode ethereumVmCodec encodedWithdrawal; Ok (DecodedEthereumVmWithdrawal w)
  | gateway_vm => w ← wc_decode gatewayVmCodec encodedWithdrawal; Ok (DecodedGatewayVmWithdrawal w)
  | hedera_vm => w ← wc_decode hederaVmCodec encodedWithdrawal; Ok (DecodedHederaVmWithdrawal w)
  | hyperliquid_vm => w ← wc_decode hyperliquidVmCodec encodedWithdrawal; Ok (DecodedHyperliquidVmWithdrawal w)
  | lighter_vm => w ← wc_decode lighterVmCodec encodedWithdrawal; Ok (DecodedLighterVmWithdrawal w)
  | solana_vm => w ← wc_decode solanaVmCodec encodedWithdrawal; Ok (DecodedSolanaVmWithdrawal w)
  | ton_vm => w ← wc_decode tonVmCodec encodedWithdrawal; Ok (DecodedTonVmWithdrawal w)
  | tron_vm => w ← wc_decode tronVmCodec encodedWithdrawal; Ok (DecodedTronVmWithdrawal w)
  | xrp_vm => w ← wc_decode xrpVmCodec encodedWithdrawal; Ok (DecodedXrpVmWithdrawal w)
  end.
Definition getDecodedWithdrawalId (d : DecodedWithdrawal) : result jsstring := with_codec (fun _ codec => wc_getId codec) d.
End Hedera.
