(* ===== verification/SdkPayloadProofs.v ===== *)
(** * Withdrawal payloads read back

    The codec contract of SdkCallProofs for Bitcoin, Tron, Ethereum, Lighter,
    Hyperliquid, TON, XRP, Solana and the Gateway. *)

From Stdlib Require Import Strings.Byte.
From S2P Require Import Prelude JsNum JsString JsNumber Scanner HexBytes Abi BitcoinTx HederaIds ToyRuntime SdkAddress SdkProofs.
From S2P Require Import AbiSpec SdkCodec SdkCallProofs SdkPayloads.
Local Open Scope Z_scope.
Local Open Scope js_scope.

(** ** Canonical texts *)

Definition num_text (bits : Z) (s : jsstring) : Prop := exists n, 0 <= n < 2 ^ bits /\ s = toString10 n.
Definition hex_text (k : nat) (s : jsstring) : Prop := exists l, length l = k /\ s = hex0x l.
Definition hex_blob (s : jsstring) : Prop := exists l, Z.of_nat (length l) < 2 ^ 64 /\ s = hex0x l.
Definition plain_utf8 (s : jsstring) : Prop := carried s /\ Z.of_nat (length (TextEncoder_encode s)) < 2 ^ 64.

(** ** Sizes *)

Definition part_size (p : bool * bytes) : nat := if p.1 then 32 + length p.2 else length p.2.
Lemma length_enc_seq_sum parts : length (enc_seq parts) = foldr (fun p n => (part_size p + n)%nat) 0%nat parts.
Proof.
  rewrite length_enc_seq. induction parts as [|[b e] parts IH]; [done|]. rewrite parts_head_cons. cbn [foldr]. rewrite <- IH.
  change (tails ((b, e) :: parts)) with ((if b then e else []) ++ tails parts). rewrite length_app. unfold part_size.
  destruct b; cbn [fst snd length]; lia.
Qed.
Lemma length_enc_part l : (length (enc_part l) <= length l + 63)%nat.
Proof. unfold enc_part. fold (word (Z.of_nat (length l))). unfold zeros. rewrite !length_app, length_abi_word, length_replicate. pose proof (padded_length_le l). lia. Qed.

(** The sizes of the parts of a typed value. *)
Lemma static_enc_size t v : typed t v -> dynamic t = false -> length (enc v t) = static_size t.
Proof. apply static_length. Qed.
Lemma abi_typed_static t v : typed t v -> dynamic t = false -> Z.of_nat (static_size t) < 2 ^ 256 -> abi_typed [t] [v].
Proof.
  intros Ht Hd Hs. split; [by constructor; [|constructor]|]. unfold abi_encode. rewrite length_enc_seq_sum. cbn [zip_with foldr].
  unfold part_size. cbn [fst snd]. rewrite Hd, static_length by done. lia.
Qed.
Lemma abi_typed_dynamic t v : typed t v -> dynamic t = true -> Z.of_nat (length (enc v t)) < 2 ^ 255 -> abi_typed [t] [v].
Proof.
  intros Ht Hd Hs. split; [by constructor; [|constructor]|]. unfold abi_encode. rewrite length_enc_seq_sum. cbn [zip_with foldr].
  unfold part_size. cbn [fst snd]. rewrite Hd. lia.
Qed.

Ltac typed_tuple := constructor; repeat (apply Forall2_cons_2; [cbn [snd]|]); [..|apply Forall2_nil_2].
Ltac typed_field :=
  match goal with
  | |- typed (TUint _) (VNum _) => apply typed_num; [lia|lia || assumption]
  | |- typed (TFixed _) (VHex (hex0x _)) => apply typed_hex; [assumption|lia]
  | |- typed TBytes (VHex (hex0x _)) => apply typed_bytes_hex
  | |- typed TString (VText _) => constructor; assumption
  | |- typed TBool _ => constructor
  end.
(** The size of a tuple with dynamic fields. *)
Ltac tuple_size :=
  cbn [enc zip_with snd dynamic existsb orb];
  repeat (rewrite length_enc_seq_sum; cbn [foldr]; unfold part_size; cbn [fst snd]);
  rewrite ?length_abi_word, ?hex_bytes_hex0x.

Section Payloads.
Context `{A : SdkAbi} {keccak : bytes -> bytes} {checksum : jsstring -> jsstring} {selector : string -> list AbiTy -> bytes}.
Context `{AL : !SdkAbiLaws A keccak checksum selector}.
Context {V : Viem} `{VL : !ViemLaws V} {L : SdkLibs} `{LL : !SdkLibsLaws L} {P : PayloadLibs}.

(** A codec over one tuple: what is to be shown of its two conversions. *)
Lemma tuple_codec {W} (codec : AbiCodec W) t toAbi fromAbi w v : codec = defineAbiWithdrawalCodec [t] toAbi fromAbi ->
  toAbi w = Ok [v] -> abi_typed [t] [v] -> fromAbi [canon checksum v t] = Ok w ->
  ac_encode codec w = Ok (hex0x (abi_encode [t] [v])) /\ ac_decode codec (hex0x (abi_encode [t] [v])) = Ok w.
Proof using AL.
  intros -> Ht Hty Hf. unfold defineAbiWithdrawalCodec. cbn [ac_encode ac_decode]. rewrite Ht.
  cbn [mbind result_bind]. rewrite encode_law, decode_law by done. done.
Qed.
Lemma length_single t v : length (abi_encode [t] [v]) = ((if dynamic t then 32 else 0) + length (enc v t))%nat.
Proof using. unfold abi_encode. rewrite length_enc_seq_sum. cbn [zip_with foldr]. unfold part_size. cbn [fst snd]. destruct (dynamic t); lia. Qed.

(** ** Bitcoin and Tron *)

#[export] Instance bitcoin_codec_laws : CodecLaws bitcoinVmCodec (fun _ => True).
Proof using. intros psbt _. by exists (js "0x" ++ psbt). Qed.

Definition tron_address (l : bytes) : jsstring := js "41" ++ bytesToHex l.
Lemma tron_to_evm_address l : tron_to_evm (tron_address l) = hex0x l.
Proof using. done. Qed.
Lemma evm_to_tron_address l : evm_to_tron (checksum (hex0x l)) = tron_address l.
Proof using AL. unfold evm_to_tron. by rewrite checksum_lower. Qed.
Definition tron_canonical (w : CallRequestWithdrawal) : Prop := exists q, request_ok q /\ w = plain_text tron_address q.
#[export] Instance tron_codec_laws : CodecLaws tronVmCodec tron_canonical.
Proof using AL.
  intros w (q & Hq & ->). eexists. split.
  - apply (plain_encode tron_address tron_to_evm evm_to_tron q Hq tron_to_evm_address).
  - apply (plain_decode tron_address tron_to_evm evm_to_tron q Hq evm_to_tron_address).
Qed.
Definition ethereum_canonical (w : CommittedCallRequestWithdrawal) : Prop := exists q, request_ok q /\ w = request_text q.
#[export] Instance ethereum_codec_laws : CodecLaws ethereumVmCodec ethereum_canonical.
Proof using AL.
  intros w (q & Hq & ->). eexists. split; [by apply committed_encode|]. cbn [wc_decode ethereumVmCodec]. unfold ethereum_decode.
  by rewrite (schema_accepts abiCodec (request_text q)) by (by apply committed_encode || by apply committed_decode).
Qed.

(** ** Lighter *)

Record lighter_params_ok (p : LighterTransferParams) : Prop := {
  lo_nums : Forall (num_text 64) [lt_nonce p; lt_fromAccountIndex p; lt_fromRouteType p; lt_apiKeyIndex p; lt_toAccountIndex p;
    lt_toRouteType p; lt_assetIndex p; lt_amount p; lt_usdcFee p; lt_lighterChainId p];
  lo_memo : exists l, length l = 32%nat /\ lt_memo p = bytesToHex l }.
Definition lighter_canonical (w : LighterWithdrawal) : Prop := lw_actionType w = 0 /\ lighter_params_ok (lw_parameters w).

Lemma padEnd64_full l : length l = 32%nat -> padEnd64 (bytesToHex l) = bytesToHex l.
Proof using. intros Hl. unfold padEnd64. rewrite length_bytesToHex, Hl. apply app_nil_r. Qed.
Lemma BigInt_num_text n : 0 <= n -> BigInt (toString10 n) = Ok n.
Proof using. apply BigInt_toString10. Qed.

Lemma transfer_roundtrip p : lighter_params_ok p -> exists l, length l = 352%nat /\
  ac_encode transferCodec p = Ok (hex0x l) /\ ac_decode transferCodec (hex0x l) = Ok p.
Proof using AL.
  intros [Hn (memo & Hm & Em)]. destruct p as [? ? ? ? ? ? ? ? ? ? m]. cbn in Hn, Em. subst m.
  repeat match goal with H : Forall _ (_ :: _) |- _ => apply Forall_cons in H as [(? & ? & ->) H] end.
  set (v := VTup [VNum x; VNum x0; VNum x1; VNum x2; VNum x3; VNum x4; VNum x5; VNum x6; VNum x7; VNum x8; VHex (hex0x memo)]).
  match goal with |- context [ac_encode transferCodec ?w] =>
    destruct (tuple_codec transferCodec _ _ _ w v eq_refl) as [E1 E2] end.
  - unfold transfer_toAbi. cbn [lt_nonce lt_fromAccountIndex lt_fromRouteType lt_apiKeyIndex lt_toAccountIndex lt_toRouteType lt_assetIndex
      lt_amount lt_usdcFee lt_lighterChainId lt_memo]. rewrite !BigInt_num_text by lia. cbn [mbind result_bind]. by rewrite padEnd64_full.
  - apply abi_typed_static; [|done|cbn; lia]. unfold v. typed_tuple; typed_field.
  - unfold v. cbn [canon zip_with snd transfer_fromAbi]. rewrite hex_bytes_hex0x. done.
  - eexists. split; [|split; [exact E1|exact E2]]. rewrite length_single, static_length; [done| |done]. unfold v. typed_tuple; typed_field.
Qed.

(** An envelope of a small number and a byte string. *)
Definition envelope (n1 n2 : string) : AbiTy := TTuple [(n1, TUint 8); (n2, TBytes)].
Lemma envelope_roundtrip n1 n2 k l : 0 <= k < 256 -> Z.of_nat (length l) < 2 ^ 250 ->
  encodeAbi [envelope n1 n2] [VTup [VNum k; VHex (hex0x l)]] = Ok (hex0x (abi_encode [envelope n1 n2] [VTup [VNum k; VHex (hex0x l)]])) /\
  decodeAbi [envelope n1 n2] (hex0x (abi_encode [envelope n1 n2] [VTup [VNum k; VHex (hex0x l)]])) = Ok [VTup [VNum k; VHex (hex0x l)]].
Proof using AL.
  intros Hk Hl. assert (abi_typed [envelope n1 n2] [VTup [VNum k; VHex (hex0x l)]]) as Hty.
  { apply abi_typed_dynamic; [typed_tuple; typed_field|done|]. unfold envelope. tuple_size. pose proof (length_enc_part l). lia. }
  rewrite encode_law, decode_law by done. split; [done|]. cbn [zip_with canon envelope snd]. by rewrite hex_bytes_hex0x.
Qed.

#[export] Instance lighter_codec_laws : CodecLaws lighterVmCodec lighter_canonical.
Proof using AL.
  intros [actionType p] [Ha Hp]. cbn in Ha, Hp. subst actionType. destruct (transfer_roundtrip p Hp) as (l & Hl & E1 & E2).
  destruct (envelope_roundtrip "actionType" "parameters" 0 l) as [E3 E4]; [lia|rewrite Hl; lia|]. eexists.
  cbn [wc_encode wc_decode lighterVmCodec]. unfold lighter_encode, lighter_decode.
  change lighterEnvelope with [envelope "actionType" "parameters"]. cbn [lw_parameters lw_actionType]. rewrite E1.
  cbn [mbind result_bind]. split; [exact E3|]. rewrite E4.
  cbn [mbind result_bind Z.eqb negb check]. by rewrite E2.
Qed.

(** ** Hyperliquid *)

Record usd_send_ok (p : UsdSend) : Prop := {
  uo_texts : Forall plain_utf8 [us_hyperliquidChain p; us_destination p; us_amount p]; uo_time : num_text 64 (us_time p) }.
Record send_asset_ok (p : SendAsset) : Prop := {
  so_texts : Forall plain_utf8 [sa_hyperliquidChain p; sa_destination p; sa_sourceDex p; sa_destinationDex p; sa_token p; sa_amount p;
    sa_fromSubAccount p]; so_nonce : num_text 64 (sa_nonce p) }.
Definition hyperliquid_canonical (w : HyperliquidWithdrawal) : Prop :=
  match hw_parameters w with
  | UsdSendParameters p => hw_txType w = 0 /\ usd_send_ok p
  | SendAssetParameters p => hw_txType w = 1 /\ send_asset_ok p
  end.

Ltac text_sizes := repeat match goal with |- context [length (enc_part ?l)] => pose proof (length_enc_part l); generalize dependent (length (enc_part l)); intros end.

Lemma usd_send_roundtrip p : usd_send_ok p -> exists l, Z.of_nat (length l) < 2 ^ 250 /\
  ac_encode usdSendCodec p = Ok (hex0x l) /\ ac_decode usdSendCodec (hex0x l) = Ok p.
Proof using AL.
  intros [Ht (time & Hn & En)]. destruct p as [chain dest amount ?]. cbn in Ht, En. subst.
  repeat match goal with H : Forall _ (_ :: _) |- _ => apply Forall_cons in H as [[? ?] H] end.
  set (v := VTup [VText chain; VText dest; VText amount; VNum time]).
  match goal with |- context [ac_encode usdSendCodec ?w] => destruct (tuple_codec usdSendCodec _ _ _ w v eq_refl) as [E1 E2] end.
  - cbn beta. unfold usdSend_values. cbn [us_time us_hyperliquidChain us_destination us_amount]. rewrite BigInt_num_text by lia. reflexivity.
  - unfold v. apply abi_typed_dynamic; [typed_tuple; typed_field|done|]. tuple_size. text_sizes. lia.
  - reflexivity.
  - eexists. split; [|split; [exact E1|exact E2]]. rewrite length_single. unfold v. tuple_size. text_sizes. lia.
Qed.
Lemma send_asset_roundtrip p : send_asset_ok p -> exists l, Z.of_nat (length l) < 2 ^ 250 /\
  ac_encode sendAssetCodec p = Ok (hex0x l) /\ ac_decode sendAssetCodec (hex0x l) = Ok p.
Proof using AL.
  intros [Ht (nonce & Hn & En)]. destruct p as [chain dest sourceDex destDex token amount sub ?]. cbn in Ht, En. subst.
  repeat match goal with H : Forall _ (_ :: _) |- _ => apply Forall_cons in H as [[? ?] H] end.
  set (v := VTup [VText chain; VText dest; VText sourceDex; VText destDex; VText token; VText amount; VText sub; VNum nonce]).
  match goal with |- context [ac_encode sendAssetCodec ?w] => destruct (tuple_codec sendAssetCodec _ _ _ w v eq_refl) as [E1 E2] end.
  - cbn beta. unfold sendAsset_values. cbn [sa_nonce sa_hyperliquidChain sa_destination sa_sourceDex sa_destinationDex sa_token sa_amount sa_fromSubAccount].
    rewrite BigInt_num_text by lia. reflexivity.
  - unfold v. apply abi_typed_dynamic; [typed_tuple; typed_field|done|]. tuple_size. text_sizes. lia.
  - reflexivity.
  - eexists. split; [|split; [exact E1|exact E2]]. rewrite length_single. unfold v. tuple_size. text_sizes. lia.
Qed.

#[export] Instance hyperliquid_codec_laws : CodecLaws hyperliquidVmCodec hyperliquid_canonical.
Proof using AL.
  intros [txType [p|p]] [Ht Hp]; cbn in Ht, Hp; subst txType; [destruct (usd_send_roundtrip p Hp) as (l & Hl & E1 & E2)|
    destruct (send_asset_roundtrip p Hp) as (l & Hl & E1 & E2)];
  (destruct (envelope_roundtrip "txType" "parameters" 0 l) as [E3 E4]; [lia|lia|]);
  (destruct (envelope_roundtrip "txType" "parameters" 1 l) as [E5 E6]; [lia|lia|]); eexists;
  cbn [wc_encode wc_decode hyperliquidVmCodec]; unfold hyperliquid_encode, hyperliquid_decode;
  change hyperliquidEnvelope with [envelope "txType" "parameters"]; cbn [hw_parameters hw_txType]; rewrite E1; cbn [mbind result_bind];
  (split; [exact E3 || exact E5|]); rewrite ?E4, ?E6; cbn [mbind result_bind]; rewrite ?E2; done.
Qed.

(** ** TON and XRP *)

Definition u32 (n : Z) : Prop := 0 <= n < 2 ^ 32.
(** The text of an account of [k] bytes. *)
Definition account_text (vm : SdkVm) (k : nat) (s : jsstring) : Prop :=
  exists l, length l = k /\ address_slot vm l /\ decodeAddress l vm = Ok s.
Lemma viem_read0x l : viem_hexToBytes (hex0x l) = Ok l.
Proof using VL. apply viem_read. Qed.
Record ton_canonical (w : TonWithdrawal) : Prop := {
  to_receiver : account_text ton_vm 32 (tw_receiver w); to_amount : num_text 128 (tw_amount w);
  to_nums : u32 (tw_createdAt w) /\ u32 (tw_queryId w) /\ u32 (tw_subwalletId w) /\ u32 (tw_timeout w) }.
#[export] Instance ton_codec_laws : CodecLaws tonVmCodec ton_canonical.
Proof using AL VL LL.
  intros w [(l & Hl & Hs & Hd) (amount & Hn & En) (U1 & U2 & U3 & U4)]. destruct w as [receiver am created query sub timeout].
  cbn [tw_receiver tw_amount tw_createdAt tw_queryId tw_subwalletId tw_timeout] in *. subst.
  pose proof (decode_encode_address ton_vm l receiver Hs Hd) as He. unfold u32 in *.
  set (v := VTup [VHex (hex0x l); VNum amount; VNum created; VNum query; VNum sub; VNum timeout]).
  match goal with |- context [wc_encode tonVmCodec ?w] => destruct (tuple_codec tonAbiCodec _ _ _ w v eq_refl) as [E1 E2] end; [..|by eexists].
  - unfold ton_toAbi. cbn [tw_receiver tw_amount tw_createdAt tw_queryId tw_subwalletId tw_timeout]. rewrite He. cbn [mbind result_bind].
    rewrite BigInt_num_text by lia. reflexivity.
  - unfold v. apply abi_typed_static; [typed_tuple; typed_field|done|cbn; lia].
  - unfold v. cbn [canon zip_with snd ton_fromAbi]. rewrite hex_bytes_hex0x, viem_read0x. cbn [mbind result_bind]. by rewrite Hd.
Qed.

Record xrp_canonical (w : XrpWithdrawal) : Prop := {
  xo_account : account_text xrp_vm 20 (xr_account w); xo_destination : account_text xrp_vm 20 (xr_destination w);
  xo_amount : num_text 64 (xr_amount w); xo_fee : num_text 64 (xr_fee w);
  xo_nums : u32 (xr_sequence w) /\ u32 (xr_lastLedgerSequence w) /\ u32 (xr_flags w) /\ u32 (default 0 (xr_destinationTag w));
  xo_key : hex_blob (xr_signingPubKey w); xo_native : xr_currency w = None /\ xr_issuer w = None }.
#[export] Instance xrp_codec_laws : CodecLaws xrpVmCodec xrp_canonical.
Proof using AL VL LL.
  intros w [(la & Hla & Hsa & Hda) (ld & Hld & Hsd & Hdd) (amount & Hn & En) (fee & Hf & Ef) (U1 & U2 & U3 & U4) (key & Hk & Ek) [Hc Hi]].
  destruct w as [account destination am fe sequence lastLedger flags pk dtag cur iss].
  cbn [xr_currency xr_issuer xr_account xr_destination xr_amount xr_fee xr_sequence xr_lastLedgerSequence xr_flags xr_destinationTag xr_signingPubKey] in *. subst. unfold u32 in *.
  pose proof (decode_encode_address xrp_vm la account Hsa Hda) as Hea. pose proof (decode_encode_address xrp_vm ld destination Hsd Hdd) as Hed.
  set (v := VTup [VHex (hex0x la); VHex (hex0x ld); VNum amount; VNum fee; VNum sequence; VNum lastLedger; VNum flags;
    VNum (default 0 dtag); VBool (bool_decide (is_Some dtag)); VHex (hex0x key)]).
  match goal with |- context [wc_encode xrpVmCodec ?w] => destruct (tuple_codec xrpAbiCodec _ _ _ w v eq_refl) as [E1 E2] end; [..|by eexists].
  - unfold xrp_toAbi, assertNativeXrp. cbn [xr_currency xr_issuer xr_account xr_destination xr_amount xr_fee xr_sequence xr_lastLedgerSequence xr_flags xr_destinationTag xr_signingPubKey].
    rewrite !(bool_decide_eq_false_2 (is_Some None)) by (by intros [? ?]). cbn [Bool.eqb negb orb check mbind result_bind].
    rewrite Hea, Hed. cbn [mbind result_bind]. rewrite !BigInt_num_text by lia. reflexivity.
  - unfold v. apply abi_typed_dynamic; [typed_tuple; typed_field|done|]. tuple_size. unfold zeros. rewrite !length_app, !length_replicate, Hla, Hld. text_sizes. lia.
  - unfold v. cbn [canon zip_with snd xrp_fromAbi]. rewrite !hex_bytes_hex0x, !viem_read0x. cbn [mbind result_bind].
    rewrite Hda. cbn [mbind result_bind]. rewrite Hdd. cbn [mbind result_bind]. by destruct dtag.
Qed.

(** ** Solana *)

Record borsh_valid (r : SolanaRequest) : Prop := {
  bv_domain : length (sr_domain r) = 32%nat; bv_recipient : length (sr_recipient r) = 32%nat; bv_vault : length (sr_vault r) = 32%nat;
  bv_token : forall t, sr_token r = Some t -> length t = 32%nat; bv_amount : 0 <= sr_amount r < 2 ^ 64; bv_nonce : 0 <= sr_nonce r < 2 ^ 64;
  bv_expiration : - 2 ^ 63 <= sr_expiration r < 2 ^ 63 }.
(** Borsh and base-58 texts of keys read back; [BN] parses decimal texts. *)
Class SolanaLaws : Prop := {
  borsh_law r : borsh_valid r -> exists l, borsh_encode r = Ok l /\ borsh_decode l = Ok r;
  publicKey_law l : length l = 32%nat -> publicKey_parse (publicKey_base58 l) = Ok l;
  bn_law n : 0 <= n -> bn_parse (toString10 n) = Ok n }.
Definition key_text (s : jsstring) : Prop := exists l, length l = 32%nat /\ s = publicKey_base58 l.
Record solana_canonical (w : SolanaWithdrawal) : Prop := {
  sc_domain : hex_text 32 (sw_domain w); sc_recipient : key_text (sw_recipient w);
  sc_token : sw_token w = SYSTEM_PROGRAM \/ key_text (sw_token w) /\ sw_token w <> SYSTEM_PROGRAM;
  sc_amount : num_text 64 (sw_amount w); sc_nonce : num_text 64 (sw_nonce w); sc_expiration : 0 <= sw_expiration w < 2 ^ 53;
  sc_vault : key_text (sw_vaultAddress w) }.
Lemma buffer_hex_bytes l : buffer_hex (bytesToHex l) = l.
Proof using.
  induction l as [|b l IH]; [done|]. rewrite bytesToHex_cons. cbn [buffer_hex]. destruct (nibbles b).
  rewrite !hex_char_is_hex by done. cbn [andb]. rewrite !hex_char_val, IH by done. f_equal.
  rewrite <- (u8_bz b) at 3. f_equal. pose proof (Z.div_mod (bz b) 16). lia.
Qed.
#[export] Instance solana_codec_laws `{SL : !SolanaLaws} : CodecLaws solanaVmCodec solana_canonical.
Proof using.
  intros w [(d & Hd & Ed) (r & Hr & Er) Ht (amount & Ha & Ea) (nonce & Hn & En) He (vault & Hv & Ev)].
  destruct w as [domain recipient token am no expiration va].
  cbn [sw_domain sw_recipient sw_token sw_amount sw_nonce sw_expiration sw_vaultAddress] in *. subst.
  assert (exists t, (if bool_decide (token = SYSTEM_PROGRAM) then Ok None else t ← publicKey_parse token; Ok (Some t)) = Ok t /\
    (forall l, t = Some l -> length l = 32%nat) /\ match t with Some t => publicKey_base58 t | None => SYSTEM_PROGRAM end = token) as (t & Et & Hl & Htext).
  { destruct Ht as [->|[(l & Hl & ->) Hne]].
    - exists None. by rewrite bool_decide_eq_true_2.
    - exists (Some l). rewrite bool_decide_eq_false_2 by done. rewrite publicKey_law by done. split_and!; [done|by intros ? [= <-]|done]. }
  set (request := {| sr_domain := d; sr_recipient := r; sr_token := t; sr_amount := amount; sr_nonce := nonce; sr_expiration := expiration; sr_vault := vault |}).
  destruct (borsh_law request) as (l & E1 & E2); [split; cbn; (done || lia)|].
  exists (js "0x" ++ bytesToHex l). cbn [wc_encode wc_decode solanaVmCodec]. unfold encodeTransferRequest, solana_decode.
  cbn [sw_domain sw_recipient sw_token sw_amount sw_nonce sw_expiration sw_vaultAddress]. rewrite publicKey_law by done. cbn [mbind result_bind].
  rewrite Et. cbn [mbind result_bind]. rewrite !bn_law by lia. cbn [mbind result_bind]. rewrite publicKey_law by done. cbn [mbind result_bind].
  change (drop 2 (hex0x d)) with (bytesToHex d). change (drop 2 (js "0x" ++ bytesToHex l)) with (bytesToHex l). rewrite !buffer_hex_bytes.
  fold request. rewrite E1, E2. split; [done|]. cbn [mbind result_bind]. rewrite (proj2 (Z.ltb_lt _ _)) by (cbn; lia).
  cbn [negb check mbind result_bind request sr_token sr_domain sr_recipient sr_amount sr_nonce sr_expiration sr_vault]. by rewrite Htext.
Qed.

(** ** Gateway *)

Record gateway_spec_ok (s : GatewayTransferSpec) : Prop := {
  gk_nums : u32 (gs_version s) /\ u32 (gs_sourceDomain s) /\ u32 (gs_destinationDomain s);
  gk_words : Forall (hex_text 32) [gs_sourceContract s; gs_destinationContract s; gs_sourceToken s; gs_destinationToken s;
    gs_sourceDepositor s; gs_destinationRecipient s; gs_sourceSigner s; gs_destinationCaller s; gs_salt s];
  gk_value : num_text 256 (gs_value s); gk_hook : hex_blob (gs_hookData s) }.
Record gateway_canonical (w : GatewayVmWithdrawal) : Prop := {
  gc_chain : plain_utf8 (gw_destinationChainId w); gc_payload : hex_blob (gw_executionPayload w);
  gc_height : num_text 256 (gb_maxBlockHeight (gw_burnIntent w)); gc_fee : num_text 256 (gb_maxFee (gw_burnIntent w));
  gc_spec : gateway_spec_ok (gb_spec (gw_burnIntent w)) }.
#[export] Instance gateway_codec_laws : CodecLaws gatewayVmCodec gateway_canonical.
Proof using AL.
  intros w [[Hc1 Hc2] (payload & Hp & Ep) (height & Hh & Eh) (fee & Hf & Ef) [(U1 & U2 & U3) Hw (value & Hv & Ev) (hook & Hk & Ek)]].
  destruct w as [chain pl [mh mf [version source dest c1 c2 c3 c4 c5 c6 c7 c8 va salt hk]]].
  cbn [gw_destinationChainId gw_executionPayload gw_burnIntent gb_maxBlockHeight gb_maxFee gb_spec gs_version gs_sourceDomain gs_destinationDomain
    gs_sourceContract gs_destinationContract gs_sourceToken gs_destinationToken gs_sourceDepositor gs_destinationRecipient gs_sourceSigner
    gs_destinationCaller gs_value gs_salt gs_hookData] in *. subst. unfold u32 in *.
  repeat match goal with H : Forall _ (_ :: _) |- _ => apply Forall_cons in H as [(? & ? & ->) H] end.
  set (spec := VTup [VNum version; VNum source; VNum dest; VHex (hex0x x); VHex (hex0x x0); VHex (hex0x x1); VHex (hex0x x2); VHex (hex0x x3);
    VHex (hex0x x4); VHex (hex0x x5); VHex (hex0x x6); VNum value; VHex (hex0x x7); VHex (hex0x hook)]).
  set (v := VTup [VText chain; VHex (hex0x payload); VTup [VNum height; VNum fee; spec]]).
  match goal with |- context [wc_encode gatewayVmCodec ?w] => destruct (tuple_codec gatewayVmAbiCodec _ _ _ w v eq_refl) as [E1 E2] end; [..|by eexists].
  - unfold gateway_toAbi, spec_toAbi. cbn [gw_destinationChainId gw_executionPayload gw_burnIntent gb_maxBlockHeight gb_maxFee gb_spec gs_version
      gs_sourceDomain gs_destinationDomain gs_sourceContract gs_destinationContract gs_sourceToken gs_destinationToken gs_sourceDepositor
      gs_destinationRecipient gs_sourceSigner gs_destinationCaller gs_value gs_salt gs_hookData].
    rewrite !BigInt_num_text by lia. reflexivity.
  - unfold v, spec. apply abi_typed_dynamic; [|done|].
    + typed_tuple; try typed_field. typed_tuple; try typed_field. unfold transferSpecTuple. typed_tuple; typed_field.
    + unfold transferSpecTuple. tuple_size. unfold zeros. rewrite !length_app, !length_replicate.
      repeat match goal with H : length _ = 32%nat |- _ => rewrite H; clear H end. text_sizes. lia.
  - unfold v, spec, transferSpecTuple. cbn [canon zip_with snd gateway_fromAbi]. rewrite !hex_bytes_hex0x. done.
Qed.
End Payloads.
