(* ===== verification/SdkWithdrawalProofs.v ===== *)
(** * Withdrawals of every VM: Hedera's codec and the dispatch

    The codec contract for Hedera, the round trip of [encodeWithdrawal] and
    [decodeWithdrawal] over the ten VMs, and what the messages that are signed
    for Hedera and Lighter determine. *)

From Stdlib Require Import Strings.Byte.
From S2P Require Import Prelude JsNum JsString JsNumber Scanner DepositBytes HexBytes Abi BitcoinTx BitcoinProofs HederaIds HederaTx ToyRuntime SdkAddress SdkProofs AbiSpec SdkCodec SdkCallProofs SdkPayloads SdkPayloadProofs.
Local Open Scope Z_scope.
Local Open Scope js_scope.

(** ** Hedera's texts *)

Lemma nanos_number n : 0 <= n < 10 ^ 9 -> Number (nanosText n) = JInt n.
Proof.
  intros Hn. unfold nanosText. rewrite padStart_fixed by (lia || exact Hn).
  assert (Radix.of_digits 10 (Radix.fixed_digits 9 10 n []) = n) as E by (rewrite Radix.of_fixed_digits by lia; by apply Z.mod_small).
  rewrite Number_dec_chars; rewrite ?E; [done| |done|lia]. by apply Radix.fixed_digits_ok.
Qed.
Lemma sdk_timestamp s n : 0 <= s -> 0 <= n < 10 ^ 9 ->
  SdkPayloads.HEDERA_TIMESTAMP_REGEX (toString10 s ++ js "." ++ nanosText n) = Some (toString10 s, nanosText n).
Proof.
  intros Hs Hn. unfold SdkPayloads.HEDERA_TIMESTAMP_REGEX. destruct (digits_of_toString10 s Hs) as [Hd Hne].
  rewrite re_digits1_complete by (done || by apply no_digit_cons). cbn [mbind option_bind].
  destruct (nanosText_spec n Hn) as (Hl & Hnd & _).
  assert (negb (bool_decide (toString10 s = js "0")) && bool_decide (head (toString10 s) = Some 48) = false) as ->.
  { destruct (toString10_nonneg s Hs) as (l & -> & Hok & Hnl & _ & [->|Hlz]); [done|]. destruct l as [|x l]; [done|].
    apply andb_false_iff. right. apply bool_decide_eq_false. cbn. intros [= E]. apply Forall_cons_1 in Hok as [Hx _].
    unfold dec_char in E. assert (x = 0) as -> by lia. by apply Hlz. }
  change (js "." ++ nanosText n) with (46 :: nanosText n). cbv iota. rewrite Hl. cbn [Nat.eqb andb]. by rewrite (proj2 (forallb_Forall _ _)).
Qed.

Section Withdrawals.
Context `{A : SdkAbi} {keccak : bytes -> bytes} {checksum : jsstring -> jsstring} {selector : string -> list AbiTy -> bytes}.
Context `{AL : !SdkAbiLaws A keccak checksum selector}.
Context {V : Viem} `{VL : !ViemLaws V} {L : SdkLibs} `{LL : !SdkLibsLaws L} {P : PayloadLibs} `{SL : !SolanaLaws}.

(** ** Hedera's codec *)

Definition entity_text (s : jsstring) : Prop := exists n, 0 <= n < 2 ^ 63 /\ s = fromEntityNum n.
Record hedera_canonical (w : HederaWithdrawal) : Prop := {
  ho_entities : Forall entity_text [he_payer w; he_sender w; he_receiver w; he_token w; he_nodeAccount w];
  ho_amount : num_text 64 (he_amount w); ho_fee : num_text 64 (he_maxTransactionFee w);
  ho_start : exists s n, 0 <= s < 2 ^ 64 /\ 0 <= n < 10 ^ 9 /\ he_validStart w = toString10 s ++ js "." ++ nanosText n;
  ho_duration : u32 (he_validDurationSeconds w) }.

Lemma toEntityNum_text n : 0 <= n < 2 ^ 63 -> toEntityNum (fromEntityNum n) = Ok n.
Proof using VL.
  intros Hn. assert (valid_component n) by (unfold valid_component; change HEDERA_ENTITY_COMPONENT_MAX with (2 ^ 63 - 1); lia).
  unfold toEntityNum, fromEntityNum. set (id := {| shard := 0; realm := 0; num := n |}).
  change (formatHederaEntityId id) with (formatHederaAddress (EntityIdAddress id)).
  rewrite (parse_format (EntityIdAddress id) (id_bytes id)); [done|]. by constructor.
Qed.
(** The numbers of a canonical withdrawal. *)
Definition request_numbers (w : HederaWithdrawal) (r : TransferRequest) : Prop :=
  Forall (fun n => 0 <= n < 2 ^ 64) [hr_payerNum r; hr_senderNum r; hr_receiverNum r; hr_amount r; hr_tokenNum r; hr_nodeAccountNum r;
    hr_validStartSeconds r; hr_maxTransactionFee r] /\ 0 <= hr_validStartNanos r < 10 ^ 9 /\ u32 (hr_validDurationSeconds r) /\
  w = {| he_payer := fromEntityNum (hr_payerNum r); he_sender := fromEntityNum (hr_senderNum r);
         he_receiver := fromEntityNum (hr_receiverNum r); he_amount := toString10 (hr_amount r);
         he_token := fromEntityNum (hr_tokenNum r); he_nodeAccount := fromEntityNum (hr_nodeAccountNum r);
         he_validStart := toString10 (hr_validStartSeconds r) ++ js "." ++ nanosText (hr_validStartNanos r);
         he_validDurationSeconds := hr_validDurationSeconds r; he_maxTransactionFee := toString10 (hr_maxTransactionFee r) |}.
Lemma hedera_request w : hedera_canonical w -> exists r, toTransferRequest w = Ok r /\ request_numbers w r.
Proof using VL.
  intros [He (amount & Ha & Ea) (fee & Hf & Ef) (s & n & Hs & Hn & Et) Hd].
  destruct w as [payer sender receiver am token node start dur fe].
  cbn [he_payer he_sender he_receiver he_amount he_token he_nodeAccount he_validStart he_validDurationSeconds he_maxTransactionFee] in *. subst.
  repeat match goal with H : Forall _ (_ :: _) |- _ => apply Forall_cons in H as [(? & ? & ->) H] end.
  eexists. unfold toTransferRequest.
  cbn [he_payer he_sender he_receiver he_amount he_token he_nodeAccount he_validStart he_validDurationSeconds he_maxTransactionFee].
  rewrite sdk_timestamp by lia. cbn [require mbind result_bind]. rewrite !toEntityNum_text by lia. cbn [mbind result_bind].
  rewrite !BigInt_num_text by lia. cbn [mbind result_bind]. rewrite nanos_number by lia. cbn [BigInt_num mbind result_bind].
  split; [reflexivity|]. split; [|split_and!; done || apply Hn]. repeat constructor; cbn; lia.
Qed.
#[export] Instance hedera_codec_laws : CodecLaws hederaVmCodec hedera_canonical.
Proof using AL VL.
  intros w Hw. destruct (hedera_request w Hw) as (r & Er & Hn & Hnanos & Hdur & Ew). unfold u32 in Hdur.
  repeat match goal with H : Forall _ (_ :: _) |- _ => apply Forall_cons in H as [? H] end.
  set (v := VTup [VNum (hr_payerNum r); VNum (hr_senderNum r); VNum (hr_receiverNum r); VNum (hr_amount r); VNum (hr_tokenNum r);
    VNum (hr_nodeAccountNum r); VNum (hr_validStartSeconds r); VNum (hr_validStartNanos r); VNum (hr_validDurationSeconds r);
    VNum (hr_maxTransactionFee r)]).
  destruct (tuple_codec hederaAbiCodec _ _ _ w v eq_refl) as [E1 E2]; [..|by eexists].
  - unfold hedera_toAbi. rewrite Er. reflexivity.
  - unfold v. apply abi_typed_static; [typed_tuple; typed_field|done|cbn; lia].
  - unfold v. cbn [canon zip_with snd hedera_fromAbi]. rewrite Ew. done.
Qed.

(** ** Every VM *)

Definition withdrawal_canonical (d : DecodedWithdrawal) : Prop :=
  match d with
  | DecodedBitcoinVmWithdrawal _ => True
  | DecodedEthereumVmWithdrawal w => ethereum_canonical w
  | DecodedGatewayVmWithdrawal w => gateway_canonical w
  | DecodedHederaVmWithdrawal w => hedera_canonical w
  | DecodedHyperliquidVmWithdrawal w => hyperliquid_canonical w
  | DecodedLighterVmWithdrawal w => lighter_canonical w
  | DecodedSolanaVmWithdrawal w => solana_canonical w
  | DecodedTonVmWithdrawal w => ton_canonical w
  | DecodedTronVmWithdrawal w => tron_canonical w
  | DecodedXrpVmWithdrawal w => xrp_canonical w
  end.

(** C18: A withdrawal of any VM that is written canonically (decimal and hex texts
    as the decoder prints them, integers within their ABI width, addresses that
    stand for the chain's account) is encoded without error, and decoding the
    payload under the withdrawal's VM returns exactly that withdrawal: no
    field of the ten payload formats is lost, reordered or mistaken for
    another VM's. *)
Theorem withdrawal_roundtrip d : withdrawal_canonical d ->
  exists s, encodeWithdrawal d = Ok s /\ decodeWithdrawal s (withdrawal_vm d) = Ok d.
Proof using AL VL LL SL.
  destruct d as [w|w|w|w|w|w|w|w|w|w]; intros Hw; cbn [withdrawal_canonical] in Hw;
    [destruct (codec_roundtrip (codec := bitcoinVmCodec) w Hw) as (s & E1 & E2)|destruct (codec_roundtrip w Hw) as (s & E1 & E2)..];
    exists s; (split; [exact E1|]); cbn [withdrawal_vm decodeWithdrawal]; by rewrite E2.
Qed.
End Withdrawals.

(** ** Concrete client libraries *)

Definition toy_borsh (r : SolanaRequest) : bytes :=
  sr_domain r ++ sr_recipient r ++ match sr_token r with None => [x00] | Some t => x01 :: t end ++
  u64le (sr_amount r) ++ u64le (sr_nonce r) ++ u64le (sr_expiration r mod 2 ^ 64) ++ sr_vault r.
Definition cut (n : nat) (l : bytes) : bytes * bytes := (take n l, drop n l).
Lemma cut_app n a l : length a = n -> cut n (a ++ l) = (a, l).
Proof. intros <-. unfold cut. by rewrite take_app_length, drop_app_length. Qed.
Definition toy_unborsh (l : bytes) : result SolanaRequest :=
  let '(domain, l) := cut 32 l in
  let '(recipient, l) := cut 32 l in
  let '(flag, l) := cut 1 l in
  let '(token, l) := if bool_decide (flag = [x00]) then (None, l) else let '(t, l) := cut 32 l in (Some t, l) in
  let '(amount, l) := cut 8 l in
  let '(nonce, l) := cut 8 l in
  let '(expiration, vault) := cut 8 l in
  let expiration := bytesToNumberLE expiration in
  Ok {| sr_domain := domain; sr_recipient := recipient; sr_token := token; sr_amount := bytesToNumberLE amount;
        sr_nonce := bytesToNumberLE nonce;
        sr_expiration := if expiration <? 2 ^ 63 then expiration else expiration - 2 ^ 64; sr_vault := vault |}.
Definition toy_payloads : PayloadLibs := {|
  lib_sha256_text := id; lib_sha256 := toy_hash; lib_sha512 := toy_hash;
  psbt_fee := fun _ => Ok 0; psbt_first_value := fun _ => Ok 0; psbt_first_address := Ok;
  borsh_encode := fun r => Ok (toy_borsh r); borsh_decode := toy_unborsh;
  publicKey_parse := fun s => Ok (buffer_hex s); publicKey_base58 := bytesToHex; bn_parse := BigInt;
  ton_message := fun to _ _ => Ok to.2; ton_cell_hash := fun _ => Ok []; encodeForSigning := fun p => Ok (xp_Account p);
  parseUnits := fun s _ => BigInt s |}.

Lemma toy_borsh_back r : borsh_valid r -> toy_unborsh (toy_borsh r) = Ok r.
Proof.
  intros [Hd Hr Hv Ht Ha Hn He]. destruct r as [domain recipient token amount nonce expiration vault].
  cbn [sr_domain sr_recipient sr_token sr_amount sr_nonce sr_expiration sr_vault] in *.
  destruct (u64le_spec amount Ha) as [La Va]. destruct (u64le_spec nonce Hn) as [Ln Vn].
  destruct (u64le_spec (expiration mod 2 ^ 64)) as [Le Ve]; [apply Z.mod_pos_bound; lia|].
  assert ((if expiration mod 2 ^ 64 <? 2 ^ 63 then expiration mod 2 ^ 64 else expiration mod 2 ^ 64 - 2 ^ 64) = expiration) as Ee.
  { destruct (Z.ltb_spec expiration 0) as [Hneg|Hpos].
    - replace (expiration mod 2 ^ 64) with (expiration + 2 ^ 64); [rewrite (proj2 (Z.ltb_ge _ _)) by lia; lia|].
      apply (Z.mod_unique_pos _ _ (-1)); lia.
    - rewrite Z.mod_small by lia. by rewrite (proj2 (Z.ltb_lt _ _)) by lia. }
  unfold toy_unborsh, toy_borsh. cbn [sr_domain sr_recipient sr_token sr_amount sr_nonce sr_expiration sr_vault].
  rewrite !cut_app by done. destruct token as [t|].
  - change (x01 :: t) with ([x01] ++ t). rewrite <- (app_assoc [x01]), cut_app by done.
    rewrite bool_decide_eq_false_2, cut_app by auto. rewrite !cut_app by done. by rewrite Va, Vn, Ve, Ee.
  - rewrite cut_app by done. rewrite bool_decide_eq_true_2 by done. rewrite !cut_app by done. by rewrite Va, Vn, Ve, Ee.
Qed.
Lemma toy_solana_laws : SolanaLaws (P := toy_payloads).
Proof.
  split; cbn [borsh_encode borsh_decode publicKey_parse publicKey_base58 bn_parse toy_payloads].
  - intros r Hr. exists (toy_borsh r). split; [done|by apply toy_borsh_back].
  - intros l _. f_equal. apply buffer_hex_bytes.
  - apply BigInt_toString10.
Qed.

(** A transfer on Solana, a payment on Hedera and a transfer on TON. *)
Definition toy_solana : SolanaWithdrawal := {|
  sw_domain := hex0x (replicate 32 x01); sw_recipient := bytesToHex (replicate 32 x02); sw_token := bytesToHex (replicate 32 x03);
  sw_amount := js "1000"; sw_nonce := js "18446744073709551615"; sw_expiration := 1700000000;
  sw_vaultAddress := bytesToHex (replicate 32 x04) |}.
Definition toy_hedera : HederaWithdrawal := {|
  he_payer := js "0.0.1001"; he_sender := js "0.0.1002"; he_receiver := js "0.0.1003"; he_amount := js "500"; he_token := js "0.0.0";
  he_nodeAccount := js "0.0.3"; he_validStart := js "1700000000.000000042"; he_validDurationSeconds := 120;
  he_maxTransactionFee := js "100000" |}.
Definition toy_ton : TonWithdrawal := {|
  tw_receiver := bz <$> replicate 32 x07; tw_amount := js "5"; tw_createdAt := 1700000000; tw_queryId := 4242; tw_subwalletId := 1; tw_timeout := 3600 |}.
Lemma num_witness bits n s : 0 <= n < 2 ^ bits -> toString10 n = s -> num_text bits s.
Proof. intros H <-. by exists n. Qed.
Lemma toy_solana_canonical : solana_canonical (P := toy_payloads) toy_solana.
Proof.
  split; cbn [sw_domain sw_recipient sw_token sw_amount sw_nonce sw_expiration sw_vaultAddress toy_solana].
  - by exists (replicate 32 x01).
  - by exists (replicate 32 x02).
  - right. split; [by exists (replicate 32 x03)|]. vm_compute. discriminate.
  - by apply (num_witness 64 1000).
  - by apply (num_witness 64 18446744073709551615).
  - lia.
  - by exists (replicate 32 x04).
Qed.
Lemma toy_hedera_canonical : hedera_canonical toy_hedera.
Proof.
  split; cbn [he_payer he_sender he_receiver he_amount he_token he_nodeAccount he_validStart he_validDurationSeconds he_maxTransactionFee toy_hedera].
  - repeat constructor; [exists 1001|exists 1002|exists 1003|exists 0|exists 3]; by split; [lia|vm_compute].
  - by apply (num_witness 64 500).
  - by apply (num_witness 64 100000).
  - exists 1700000000, 42. by split_and!; [lia..|vm_compute].
  - unfold u32. lia.
Qed.
Lemma toy_ton_canonical : ton_canonical (V := concrete_viem) (L := sdk_libs) toy_ton.
Proof.
  split; cbn [tw_receiver tw_amount tw_createdAt tw_queryId tw_subwalletId tw_timeout toy_ton].
  - exists (replicate 32 x07). by split_and!.
  - by apply (num_witness 128 5).
  - unfold u32. lia.
Qed.
Lemma withdrawal_witness :
  Forall (fun d => exists s, encodeWithdrawal (A := toy_abi) (V := concrete_viem) (L := sdk_libs) (P := toy_payloads) d = Ok s /\
    decodeWithdrawal (A := toy_abi) (V := concrete_viem) (L := sdk_libs) (P := toy_payloads) s (withdrawal_vm d) = Ok d)
  [DecodedSolanaVmWithdrawal toy_solana; DecodedHederaVmWithdrawal toy_hedera; DecodedTonVmWithdrawal toy_ton;
   DecodedEthereumVmWithdrawal (request_text toy_request_data)].
Proof.
  pose proof toy_sdk_abi_laws. pose proof concrete_viem_laws. pose proof sdk_libs_laws. pose proof toy_solana_laws.
  repeat constructor; apply (withdrawal_roundtrip (keccak := toy_hash) (checksum := id) (selector := toy_selector)).
  - exact toy_solana_canonical.
  - exact toy_hedera_canonical.
  - exact toy_ton_canonical.
  - exists toy_request_data. split; [exact toy_request_ok|reflexivity].
Defined.

(** ** What a withdrawal id determines

    The id of a Hedera withdrawal is the hash of the serialized transaction
    body and the id of a Lighter withdrawal the hash of the message its
    allocator signs.  Both serializations are read back unambiguously. *)

Local Open Scope Z_scope.
Local Open Scope js_scope.

(** ** Prefix codes *)

(** A serializer whose output ends where it says it does. *)
Definition self_delimiting {A} (dom : A -> Prop) (f : A -> bytes) : Prop :=
  forall a b r s, dom a -> dom b -> f a ++ r = f b ++ s -> a = b /\ r = s.

Lemma u8_inj x y : 0 <= x < 256 -> 0 <= y < 256 -> u8 x = u8 y -> x = y.
Proof. intros Hx Hy E. rewrite <- (bz_u8_small x), <- (bz_u8_small y) by done. by rewrite E. Qed.
Lemma low_bits n : 0 <= n -> Z.lor (Z.land n 0x7f) 0x80 = n mod 128 + 128.
Proof.
  intros Hn. change 0x7f with (Z.ones 7). rewrite Z.land_ones by lia. change (2 ^ 7) with 128.
  pose proof (Z.mod_pos_bound n 128 ltac:(lia)) as Hm. generalize dependent (n mod 128). intros m Hm.
  rewrite <- Z.add_lor_land. replace (Z.land m 0x80) with 0; [lia|]. symmetry. apply Z.bits_inj'. intros k Hk.
  rewrite Z.land_spec, Z.bits_0. destruct (Z.eq_dec k 7) as [->|Hne].
  - rewrite (proj2 (Z.testbit_false m 7 ltac:(lia))); [done|]. change (2 ^ 7) with 128. by rewrite Z.div_small by lia.
  - change 0x80 with (2 ^ 7). rewrite Z.pow2_bits_false by lia. apply andb_false_r.
Qed.

Lemma varint_loop_delimits f1 f2 n m r s : 0 <= n < 2 ^ (7 * (Z.of_nat f1 + 1)) -> 0 <= m < 2 ^ (7 * (Z.of_nat f2 + 1)) ->
  (u8 <$> varint_loop f1 n) ++ r = (u8 <$> varint_loop f2 m) ++ s -> n = m /\ r = s.
Proof.
  assert (forall n, Z.shiftr n 7 = n / 128) as Hsh by (intros; by rewrite Z.shiftr_div_pow2).
  assert (forall f n, 0 <= n < 2 ^ (7 * (Z.of_nat (S f) + 1)) -> 0 <= n / 128 < 2 ^ (7 * (Z.of_nat f + 1))) as Hstep.
  { intros f k [H1 H2]. split; [apply Z.div_pos; lia|]. apply Z.div_lt_upper_bound; [lia|]. change 128 with (2 ^ 7).
    rewrite <- Z.pow_add_r by lia. eapply Z.lt_le_trans; [exact H2|]. apply Z.pow_le_mono_r; lia. }
  assert (forall f n, 0 <= n < 2 ^ (7 * (Z.of_nat f + 1)) -> varint_loop f n = [n] /\ n < 128 \/
    exists f', f = S f' /\ varint_loop f n = (n mod 128 + 128) :: varint_loop f' (n / 128)) as Hcase.
  { intros [|f] k Hk; cbn [varint_loop]; [left; split; [done|cbn in Hk; lia]|].
    destruct (Z.leb_spec 0x80 k); [right|left; split; [done|lia]]. exists f. by rewrite low_bits, Hsh by lia. }
  revert f2 n m. induction f1 as [|f1 IH]; intros f2 n m Hn Hm E;
    (destruct (Hcase _ _ Hn) as [[E1 L1]|(g & Eg & E1)]; destruct (Hcase _ _ Hm) as [[E2 L2]|(g' & -> & E2)]; rewrite E1, E2 in E;
     cbn [fmap list_fmap app] in E; injection E as Hb Hr;
     pose proof (Z.mod_pos_bound n 128 ltac:(lia)); pose proof (Z.mod_pos_bound m 128 ltac:(lia));
     apply u8_inj in Hb; try lia; try (split; [lia|done]); try discriminate Eg).
  injection Eg as <-. apply Hstep in Hn, Hm. destruct (IH g' _ _ Hn Hm Hr) as [Hd ->]. split; [|done].
  rewrite (Z.div_mod n 128), (Z.div_mod m 128) by lia. lia.
Qed.
Lemma varint_delimits : self_delimiting (fun n => 0 <= n) varint.
Proof.
  assert (forall n, 0 <= n -> 0 <= n < 2 ^ (7 * (Z.of_nat (Z.to_nat (Z.log2 n)) + 1))) as Hf.
  { intros n Hn. split; [done|]. pose proof (Z.log2_nonneg n). destruct (Z.eq_dec n 0) as [->|]; [done|].
    eapply Z.lt_le_trans; [apply Z.log2_spec; lia|]. apply Z.pow_le_mono_r; lia. }
  intros n m r s Hn Hm E. eapply varint_loop_delimits; [by apply Hf..|exact E].
Qed.
Lemma delimited_inj {A} (dom : A -> Prop) f a b : self_delimiting dom f -> dom a -> dom b -> f a = f b -> a = b.
Proof. intros H Ha Hb E. apply (H a b [] [] Ha Hb). by rewrite E. Qed.

(** ** Protobuf fields *)

Lemma varintField_delimits f : self_delimiting (fun n => 0 <= n) (varintField f).
Proof.
  intros n m r s Hn Hm. unfold varintField. rewrite !concatBytes_join. cbn [mjoin list_join]. rewrite !app_nil_r, <- !app_assoc.
  intros E. apply app_inv_head in E. by apply varint_delimits.
Qed.
Lemma embedded_delimits f : self_delimiting (fun _ => True) (embedded f).
Proof.
  intros a b r s _ _. unfold embedded. rewrite !concatBytes_join. cbn [mjoin list_join]. rewrite !app_nil_r, <- !app_assoc.
  intros E. apply app_inv_head, varint_delimits in E as [Hl E]; [|lia..]. apply app_inj_1 in E; [done|lia].
Qed.
Lemma zigzag_nonneg n : 0 <= zigzag n.
Proof. unfold zigzag. destruct (Z.ltb_spec n 0); lia. Qed.
Lemma zigzag_inj n m : zigzag n = zigzag m -> n = m.
Proof. unfold zigzag. destruct (Z.ltb_spec n 0), (Z.ltb_spec m 0); lia. Qed.
Lemma sint64Field_delimits f : self_delimiting (fun _ => True) (sint64Field f).
Proof.
  intros n m r s _ _ E. apply varintField_delimits in E as [E ->]; [|apply zigzag_nonneg..]. split; [by apply zigzag_inj|done].
Qed.

(** Strip a field from both sides. *)
Ltac strip L := match goal with H : _ ++ _ = _ ++ _ |- _ => apply L in H as [? H]; [|(lia || done)..] end.

Lemma entity_inj n m : 0 <= n -> 0 <= m -> entity n = entity m -> n = m.
Proof.
  intros Hn Hm. unfold entity. rewrite !concatBytes_join. cbn [mjoin list_join]. intros E.
  do 2 strip varintField_delimits. by strip varintField_delimits.
Qed.
Lemma embedded_inj f a b r s : embedded f a ++ r = embedded f b ++ s -> a = b /\ r = s.
Proof. by apply embedded_delimits. Qed.
Lemma entity_field f n m r s : 0 <= n -> 0 <= m -> embedded f (entity n) ++ r = embedded f (entity m) ++ s -> n = m /\ r = s.
Proof. intros Hn Hm E. apply embedded_inj in E as [E ->]. by apply entity_inj in E. Qed.
Lemma accountAmount_inj n a m b : 0 <= n -> 0 <= m -> accountAmount n a = accountAmount m b -> n = m /\ a = b.
Proof.
  intros Hn Hm. unfold accountAmount. rewrite !concatBytes_join. cbn [mjoin list_join]. intros E.
  strip entity_field. by strip sint64Field_delimits.
Qed.
Lemma account_field f n a m b r s : 0 <= n -> 0 <= m ->
  embedded f (accountAmount n a) ++ r = embedded f (accountAmount m b) ++ s -> (n = m /\ a = b) /\ r = s.
Proof. intros Hn Hm E. apply embedded_inj in E as [E ->]. by apply accountAmount_inj in E. Qed.

(** The debit has the negative amount, whatever the order of the entries. *)
Lemma transferEntries_inj s1 r1 a1 s2 r2 a2 f : 0 <= s1 -> 0 <= r1 -> 0 < a1 -> 0 <= s2 -> 0 <= r2 -> 0 < a2 ->
  transferEntries s1 r1 a1 f = transferEntries s2 r2 a2 f -> s1 = s2 /\ r1 = r2 /\ a1 = a2.
Proof.
  intros. unfold transferEntries in *. rewrite !concatBytes_join in *. cbn [mjoin list_join] in *.
  destruct (s1 <? r1), (s2 <? r2); (strip account_field; strip account_field); lia.
Qed.
Lemma transferEntries_nonempty s r a f : transferEntries s r a f <> [].
Proof.
  unfold transferEntries. rewrite !concatBytes_join. unfold embedded. rewrite !concatBytes_join. by destruct (s <? r).
Qed.

(** The numbers of a payment of a positive amount. *)
Record payment (r : TransferRequest) : Prop := {
  pay_nums : Forall (fun n => 0 <= n) [hr_payerNum r; hr_senderNum r; hr_receiverNum r; hr_tokenNum r; hr_nodeAccountNum r;
    hr_validStartSeconds r; hr_validStartNanos r; hr_validDurationSeconds r; hr_maxTransactionFee r];
  pay_amount : 0 < hr_amount r }.
Lemma cryptoTransfer_inj p q : payment p -> payment q -> cryptoTransfer p = cryptoTransfer q ->
  hr_senderNum p = hr_senderNum q /\ hr_receiverNum p = hr_receiverNum q /\ hr_amount p = hr_amount q /\ hr_tokenNum p = hr_tokenNum q.
Proof.
  intros [Hp ?] [Hq ?].
  repeat match goal with H : Forall _ (_ :: _) |- _ => apply Forall_cons in H as [? H] end. unfold cryptoTransfer. rewrite !concatBytes_join. cbn [mjoin list_join].
  destruct (Z.eqb_spec (hr_tokenNum p) 0) as [E1|E1], (Z.eqb_spec (hr_tokenNum q) 0) as [E2|E2]; intros E.
  - rewrite <- (app_nil_r (embedded _ _)) in E. rewrite <- (app_nil_r (embedded _ (transferEntries (hr_senderNum q) _ _ _))) in E.
    apply embedded_inj in E as [E _]. apply transferEntries_inj in E; [|done..]. lia.
  - rewrite <- (app_nil_r (embedded _ (transferEntries _ _ _ _))) in E. apply embedded_inj in E as [E _].
    by apply transferEntries_nonempty in E.
  - rewrite <- (app_nil_r (embedded _ (transferEntries _ _ _ _))) in E. apply embedded_inj in E as [E _].
    by symmetry in E; apply transferEntries_nonempty in E.
  - strip embedded_inj. strip embedded_inj.
    match goal with H : embedded _ _ ++ _ = embedded _ _ ++ _ |- _ => apply entity_field in H as [? H]; [|done..] end.
    rewrite !app_nil_r in *.
    match goal with H : transferEntries _ _ _ _ = _ |- _ => apply transferEntries_inj in H; [|done..] end. lia.
Qed.
Lemma transaction_body_inj p q : payment p -> payment q -> transaction_body p = transaction_body q -> p = q.
Proof.
  intros Hp Hq. pose proof (pay_nums p Hp). pose proof (pay_nums q Hq).
  repeat match goal with H : Forall _ (_ :: _) |- _ => apply Forall_cons in H as [? H] end. unfold transaction_body. rewrite !concatBytes_join. cbn [mjoin list_join]. intros E.
  apply embedded_inj in E as [Eid E]. apply entity_field in E as [? E]; [|done..]. apply varintField_delimits in E as [? E]; [|done..].
  apply embedded_inj in E as [Edur E]. apply embedded_inj in E as [_ E]. apply embedded_inj in E as [E _].
  apply cryptoTransfer_inj in E as (? & ? & ? & ?); [|done..].
  eapply delimited_inj in Edur; [|apply varintField_delimits|done..].
  apply embedded_inj in Eid as [Et Eid]. apply entity_field in Eid as [? _]; [|done..].
  apply varintField_delimits in Et as [? Et]; [|done..]. apply varintField_delimits in Et as [? _]; [|done..].
  destruct p, q. cbn in *. by subst.
Qed.

(** ** Lighter's message *)

Definition ascii (s : jsstring) : Prop := Forall (fun c => 0 <= c < 128) s.
Lemma TextEncoder_ascii s : ascii s -> TextEncoder_encode s = u8 <$> s.
Proof.
  induction 1 as [|c s Hc _ IH]; [done|]. cbn [TextEncoder_encode].
  replace (in_range 55296 56319 c) with false by (symmetry; char_solve). replace (in_range 56320 57343 c) with false by (symmetry; char_solve).
  unfold utf8_of_code. rewrite (proj2 (Z.ltb_lt c 128)) by lia. by rewrite IH.
Qed.
Lemma TextEncoder_ascii_inj s t : ascii s -> ascii t -> TextEncoder_encode s = TextEncoder_encode t -> s = t.
Proof.
  intros Hs Ht. rewrite !TextEncoder_ascii by done. revert t Ht. induction Hs as [|c s Hc _ IH]; intros [|d t] Ht E; try done.
  apply Forall_cons in Ht as [Hd Ht]. cbn [fmap list_fmap] in E. injection E as Eb E. apply u8_inj in Eb; [|lia..]. subst. f_equal. by apply IH.
Qed.
Lemma ascii_hex_text l : ascii (bytesToHex l).
Proof. eapply Forall_impl; [apply bytesToHex_hex|]. intros c [Hc _]. char_solve. Qed.

(** The 16 digits of a 64-bit number. *)
Definition hex16 (n : Z) : jsstring := hex0x (word_loop 8 n []).
Lemma lighterToHex16_text n : 0 <= n < 2 ^ 64 -> lighterToHex16 (toString10 n) = Ok (hex16 n).
Proof.
  intros Hn. unfold lighterToHex16, hex16. rewrite BigInt_num_text by lia. cbn [mbind result_bind]. unfold hex0x. do 2 f_equal.
  pose proof (pad_hex (word_loop 8 n [])) as E. rewrite length_word_loop, be_val_word_loop in E. change (256 ^ Z.of_nat 8) with (2 ^ 64) in E.
  rewrite Z.mod_small in E by done. apply E. intros E0. pose proof (length_word_loop 8 n) as Hl. by rewrite E0 in Hl.
Qed.
Lemma hex16_inj n m : 0 <= n < 2 ^ 64 -> 0 <= m < 2 ^ 64 -> hex16 n = hex16 m -> n = m.
Proof.
  intros Hn Hm E. apply hex0x_inj in E. pose proof (be_val_word_loop 8 n) as E1. pose proof (be_val_word_loop 8 m) as E2.
  change (256 ^ Z.of_nat 8) with (2 ^ 64) in *. rewrite Z.mod_small in E1, E2 by done. congruence.
Qed.
Lemma length_hex16 n : length (hex16 n) = 18%nat.
Proof. unfold hex16, hex0x. rewrite length_app, length_bytesToHex, length_word_loop. done. Qed.
Lemma ascii_hex16 n : ascii (hex16 n).
Proof. apply Forall_app. split; [repeat constructor; lia|apply ascii_hex_text]. Qed.

(** The message of the numbers of a transfer, field by field. *)
Definition message_fields (n : list Z) (memo : bytes) : list jsstring :=
  match n with
  | [nonce; from; fromRoute; apiKey; to; toRoute; asset; amount; fee; chainId] =>
      [js "Transfer" ++ [10; 10] ++ js "nonce: "; hex16 nonce; [10] ++ js "from: "; hex16 from; js " (route "; hex16 fromRoute;
       js ")" ++ [10] ++ js "api key: "; hex16 apiKey; [10] ++ js "to: "; hex16 to; js " (route "; hex16 toRoute; js ")" ++ [10] ++ js "asset: ";
       hex16 asset; [10] ++ js "amount: "; hex16 amount; [10] ++ js "fee: "; hex16 fee; [10] ++ js "chainId: "; hex16 chainId;
       [10] ++ js "memo: "; bytesToHex memo; [10] ++ js "Only sign this message for a trusted client!"]
  | _ => []
  end.
Lemma mjoin_same_lengths (l k : list jsstring) : Forall2 (fun a b => length a = length b) l k -> mjoin l = mjoin k -> l = k.
Proof.
  induction 1 as [|a b l k Hab _ IH]; [done|]. cbn [mjoin list_join]. intros E. apply app_inj_1 in E as [-> E]; [|done]. f_equal. by apply IH.
Qed.
Definition lighter_numbers (p : LighterTransferParams) : list jsstring :=
  [lt_nonce p; lt_fromAccountIndex p; lt_fromRouteType p; lt_apiKeyIndex p; lt_toAccountIndex p; lt_toRouteType p; lt_assetIndex p;
   lt_amount p; lt_usdcFee p; lt_lighterChainId p].
Lemma lighter_message p : lighter_params_ok p -> exists n memo, length n = 10%nat /\ Forall (fun n => 0 <= n < 2 ^ 64) n /\ length memo = 32%nat /\
  lighter_numbers p = toString10 <$> n /\ lt_memo p = bytesToHex memo /\ buildLighterTransferL1Message p = Ok (mjoin (message_fields n memo)).
Proof.
  intros [Hn (memo & Hm & Em)]. destruct p as [p0 p1 p2 p3 p4 p5 p6 p7 p8 p9 m].
  cbn [lt_nonce lt_fromAccountIndex lt_fromRouteType lt_apiKeyIndex lt_toAccountIndex lt_toRouteType lt_assetIndex lt_amount lt_usdcFee
    lt_lighterChainId lt_memo] in *. subst m.
  repeat match goal with H : Forall _ (_ :: _) |- _ => apply Forall_cons in H as [(? & ? & ->) H] end.
  exists [x; x0; x1; x2; x3; x4; x5; x6; x7; x8], memo. split; [done|]. split; [repeat (constructor; [assumption|]); constructor|]. split; [done|].
  split; [reflexivity|]. split; [done|].
  unfold buildLighterTransferL1Message. cbn [lt_nonce lt_fromAccountIndex lt_fromRouteType lt_apiKeyIndex lt_toAccountIndex lt_toRouteType
    lt_assetIndex lt_amount lt_usdcFee lt_lighterChainId lt_memo]. rewrite !lighterToHex16_text by done. cbn [mbind result_bind].
  rewrite padEnd64_full by done. f_equal. cbn [join_lines message_fields mjoin list_join]. rewrite <- !app_assoc. reflexivity.
Qed.
Ltac ten n := let a := fresh "a" in let b := fresh "b" in let c := fresh "c" in let d := fresh "d" in let e := fresh "e" in let f := fresh "f" in
  let g := fresh "g" in let h := fresh "h" in let i := fresh "i" in let j := fresh "j" in
  destruct n as [|a [|b [|c [|d [|e [|f [|g [|h [|i [|j [|]]]]]]]]]]]; try discriminate.
Ltac field k E := let H := fresh in pose proof (f_equal (fun l => nth k l []) E) as H; cbn [nth] in H; apply hex16_inj in H; [|assumption..].
Lemma message_inj n n' memo memo' : length n = 10%nat -> length n' = 10%nat -> Forall (fun n => 0 <= n < 2 ^ 64) n ->
  Forall (fun n => 0 <= n < 2 ^ 64) n' -> length memo = 32%nat -> length memo' = 32%nat ->
  mjoin (message_fields n memo) = mjoin (message_fields n' memo') -> n = n' /\ memo = memo'.
Proof.
  intros Hl Hl' Hn Hn' Hm Hm' E. ten n. ten n'. apply mjoin_same_lengths in E.
  - repeat match goal with H : Forall _ (_ :: _) |- _ => apply Forall_cons in H as [? H] end. cbn [message_fields] in E.
    pose proof (f_equal (fun l => nth 21 l []) E) as Ememo. cbn [nth] in Ememo.
    field 1%nat E; field 3%nat E; field 5%nat E; field 7%nat E; field 9%nat E; field 11%nat E; field 13%nat E; field 15%nat E; field 17%nat E; field 19%nat E.
    apply bytesToHex_inj in Ememo. by subst.
  - cbn [message_fields]. repeat constructor; rewrite ?length_hex16, ?length_bytesToHex; congruence.
Qed.
Lemma message_ascii n memo : length n = 10%nat -> ascii (mjoin (message_fields n memo)).
Proof.
  intros Hl. enough (Forall ascii (message_fields n memo)) as H by (induction H; [constructor|by apply Forall_app]).
  ten n. cbn [message_fields].
  repeat match goal with
  | |- Forall ascii (_ :: _) => apply Forall_cons; split
  | |- ascii (hex16 _) => apply ascii_hex16
  | |- ascii (bytesToHex _) => apply ascii_hex_text
  | |- ascii _ => apply (bool_decide_unpack _); vm_compute; exact I
  end.
  constructor.
Qed.

(** ** Ids *)

Section Ids.
Context `{A : SdkAbi} {keccak : bytes -> bytes} {checksum : jsstring -> jsstring} {selector : string -> list AbiTy -> bytes}.
Context `{AL : !SdkAbiLaws A keccak checksum selector}.
Context {V : Viem} `{VL : !ViemLaws V} {L : SdkLibs} {P : PayloadLibs}.

(** The withdrawals whose id is the hash of their own serialization. *)
Definition serialized_id (d : DecodedWithdrawal) : Prop :=
  match d with
  | DecodedHederaVmWithdrawal w => hedera_canonical w /\ he_amount w <> js "0"
  | DecodedLighterVmWithdrawal w => lighter_canonical w
  | _ => False
  end.
(** The bytes that are hashed: a Hedera body opens with the tag of its first
    field, a Lighter message with its title. *)
Inductive preimage : DecodedWithdrawal -> bytes -> Prop :=
  | preimage_hedera w r : request_numbers w r -> payment r -> preimage (DecodedHederaVmWithdrawal w) (transaction_body r)
  | preimage_lighter p n memo : length n = 10%nat -> Forall (fun n => 0 <= n < 2 ^ 64) n -> length memo = 32%nat ->
      lighter_numbers p = toString10 <$> n -> lt_memo p = bytesToHex memo ->
      preimage (DecodedLighterVmWithdrawal {| lw_actionType := 0; lw_parameters := p |}) (TextEncoder_encode (mjoin (message_fields n memo))).
Lemma id_preimage d : serialized_id d -> exists l, preimage d l /\ getDecodedWithdrawalId d = Ok (hex0x (keccak l)).
Proof using AL VL.
  destruct d as [w|w|w|w|w|w|w|w|w|w]; try done; cbn [serialized_id].
  - intros [Hw Ha]. destruct (hedera_request w Hw) as (r & Er & Hr). exists (transaction_body r). split.
    + constructor; [done|]. destruct Hr as (Hn & Hnanos & Hdur & ->). unfold u32 in Hdur.
      repeat match goal with H : Forall _ (_ :: _) |- _ => apply Forall_cons in H as [? H] end.
      split; [repeat constructor; lia|]. cbn [he_amount] in Ha. destruct (Z.eq_dec (hr_amount r) 0) as [E|]; [by rewrite E in Ha|lia].
    + cbn [getDecodedWithdrawalId with_codec wc_getId hederaVmCodec]. unfold getDecodedWithdrawalId, with_codec. cbn [wc_getId hederaVmCodec].
      unfold getHederaVmTransactionBody. rewrite Er. cbn [mbind result_bind]. apply keccak_of.
  - destruct w as [action p]. intros [Ha Hp]. cbn [lw_actionType lw_parameters] in *. subst action.
    destruct (lighter_message p Hp) as (n & memo & H1 & H2 & H3 & H4 & H5 & E). eexists. split; [by apply (preimage_lighter p n memo)|].
    unfold getDecodedWithdrawalId, with_codec. cbn [wc_getId lighterVmCodec lw_parameters]. rewrite E. cbn [mbind result_bind]. apply keccak_of.
Qed.
Lemma body_head r : exists l, transaction_body r = x0a :: l.
Proof using. unfold transaction_body. rewrite concatBytes_join. cbn [mjoin list_join]. unfold embedded at 1. rewrite concatBytes_join. by eexists. Qed.
Lemma message_head n memo : length n = 10%nat -> exists l, TextEncoder_encode (mjoin (message_fields n memo)) = x54 :: l.
Proof using. intros Hl. rewrite TextEncoder_ascii by (by apply message_ascii). ten n. by eexists. Qed.
Lemma withdrawal_preimage_inj d1 d2 l1 l2 : preimage d1 l1 -> preimage d2 l2 -> l1 = l2 -> d1 = d2.
Proof using.
  intros H1 H2. destruct H1 as [w r Hr Hp|p n memo Hl Hn Hm En Em], H2 as [w' r' Hr' Hp'|p' n' memo' Hl' Hn' Hm' En' Em']; intros E.
  - apply transaction_body_inj in E as ->; [|done..]. destruct Hr as (_ & _ & _ & ->), Hr' as (_ & _ & _ & ->). done.
  - destruct (body_head r) as [k1 E1], (message_head n' memo' Hl') as [k2 E2]. congruence.
  - destruct (body_head r') as [k1 E1], (message_head n memo Hl) as [k2 E2]. congruence.
  - apply TextEncoder_ascii_inj in E; [|by apply message_ascii..]. apply message_inj in E as [-> ->]; [|done..].
    rewrite <- En in En'. rewrite <- Em in Em'. destruct p, p'. unfold lighter_numbers in En'. cbn in En', Em'. by simplify_eq.
Qed.

(** A Hedera or Lighter withdrawal id names one withdrawal: two canonical
    withdrawals (of a positive amount on Hedera) with the same id are equal in
    every field, and in particular of the same VM, or they exhibit a Keccak
    collision. *)
Theorem withdrawal_id_binds d1 d2 id : serialized_id d1 -> serialized_id d2 ->
  getDecodedWithdrawalId d1 = Ok id -> getDecodedWithdrawalId d2 = Ok id -> d1 = d2 \/ collision (keccak := keccak).
Proof using AL VL.
  intros H1 H2 E1 E2. destruct (id_preimage d1 H1) as (l1 & P1 & I1). destruct (id_preimage d2 H2) as (l2 & P2 & I2).
  rewrite E1 in I1. rewrite E2, I1 in I2. injection I2 as I2. apply bytesToHex_inj, keccak_binds in I2 as [E|]; [left|by right].
  by eapply withdrawal_preimage_inj.
Qed.
End Ids.

(** ** A concrete instance *)

Definition toy_lighter : LighterWithdrawal := {| lw_actionType := 0; lw_parameters := {|
  lt_nonce := js "7"; lt_fromAccountIndex := js "12"; lt_fromRouteType := js "0"; lt_apiKeyIndex := js "3"; lt_toAccountIndex := js "18446744073709551615";
  lt_toRouteType := js "0"; lt_assetIndex := js "3"; lt_amount := js "1500000"; lt_usdcFee := js "0"; lt_lighterChainId := js "304";
  lt_memo := bytesToHex (replicate 32 x0a) |} |}.
Lemma toy_lighter_canonical : lighter_canonical toy_lighter.
Proof.
  split; [done|]. split; [|by exists (replicate 32 x0a)].
  cbn [lw_parameters toy_lighter lt_nonce lt_fromAccountIndex lt_fromRouteType lt_apiKeyIndex lt_toAccountIndex lt_toRouteType lt_assetIndex
    lt_amount lt_usdcFee lt_lighterChainId].
  repeat (apply Forall_cons; split); [by apply (num_witness 64 7)|by apply (num_witness 64 12)|by apply (num_witness 64 0)|by apply (num_witness 64 3)|
    by apply (num_witness 64 18446744073709551615)|by apply (num_witness 64 0)|by apply (num_witness 64 3)|by apply (num_witness 64 1500000)|
    by apply (num_witness 64 0)|by apply (num_witness 64 304)|constructor].
Qed.
Lemma withdrawal_id_witness :
  match getDecodedWithdrawalId (A := toy_abi) (V := concrete_viem) (L := sdk_libs) (P := toy_payloads) (DecodedHederaVmWithdrawal toy_hedera),
    getDecodedWithdrawalId (A := toy_abi) (V := concrete_viem) (L := sdk_libs) (P := toy_payloads) (DecodedLighterVmWithdrawal toy_lighter) with
  | Ok i, Ok j => i <> j \/ collision (keccak := toy_hash)
  | _, _ => False
  end.
Proof.
  pose proof toy_sdk_abi_laws. pose proof concrete_viem_laws.
  destruct (getDecodedWithdrawalId (DecodedHederaVmWithdrawal toy_hedera)) as [i|e] eqn:E1; [|vm_compute in E1; discriminate].
  destruct (getDecodedWithdrawalId (DecodedLighterVmWithdrawal toy_lighter)) as [j|e] eqn:E2; [|vm_compute in E2; discriminate].
  destruct (decide (i = j)) as [->|Hne]; [|by left].
  assert (he_amount toy_hedera <> js "0") as Ha by (vm_compute; discriminate).
  destruct (withdrawal_id_binds (A := toy_abi) (V := concrete_viem) (L := sdk_libs) (P := toy_payloads) (keccak := toy_hash) (checksum := id)
    (selector := toy_selector) (DecodedHederaVmWithdrawal toy_hedera) (DecodedLighterVmWithdrawal toy_lighter) j
    (conj toy_hedera_canonical Ha) toy_lighter_canonical E1 E2) as [Hd|Hc]; [discriminate Hd|by right].
Defined.
