(* ===== verification/IndexerTypes.v ===== *)
(** * The types of the indexer's rows

    Addresses are stored in lower case, balances are positive, counters are
    not negative and event types are the three known ones: every statement the
    indexer issues keeps the tables well typed, so every reachable state is. *)

From stdpp Require Import sorting.
From S2P Require Import Prelude JsNum JsString JsNumber Scanner IndexerWorld IndexerTransfers IndexerRoles IndexerLanes IndexerJobs IndexerProofs.
From S2P Require Import IndexerSystem IndexerTheorems.
Local Open Scope Z_scope.
Local Open Scope js_scope.

(** ** Well-typed tables *)

Definition lower (s : jsstring) : Prop := toLowerCase s = s.
Definition lower_opt (o : option jsstring) : Prop := forall s, o = Some s -> lower s.

Definition balance_ok (k : jsstring * jsstring) (r : BalanceRow) : Prop := lower k.1 /\ 0 < bl_balance r.
Definition event_ok (_ : jsstring * Z) (r : EventRow) : Prop := lower (ev_operator r) /\ lower (ev_from r) /\ lower (ev_to r).
Definition failed_ok (k : jsstring * Z * Z * jsstring) (r : FailedRow) : Prop := lower k.1.1.1 /\ 0 <= fl_retries r.
Definition role_event_ok (k : jsstring * jsstring * Z) (r : RoleEventRow) : Prop :=
  lower k.1.1 /\ re_type r ∈ eventType_name <$> [RoleGranted; RoleRevoked; RoleAdminChanged] /\
  lower_opt (re_account r) /\ lower_opt (re_sender r).
Definition member_ok (m : jsstring * jsstring * jsstring) : Prop := lower m.1.1 /\ lower m.2.
Definition admin_ok (k : jsstring * jsstring) (_ : jsstring) : Prop := lower k.1.
Definition oracle_ok (_ : jsstring * Z) (r : OracleRow) : Prop := lower (or_contract r) /\ lower (or_key r) /\ Forall lower (or_actions r).
Definition token_ok (_ : jsstring) (r : TokenRow) : Prop := is_Some (tk_name r) /\ 0 <= tk_transfers r.

Record typed_tables (d : Db) : Prop := {
  ty_tokens : map_Forall token_ok (tokens d);
  ty_balances : map_Forall balance_ok (balances d);
  ty_events : map_Forall event_ok (events d);
  ty_failed : map_Forall failed_ok (failed_events d);
  ty_role_events : map_Forall role_event_ok (role_events d);
  ty_members : set_Forall member_ok (role_members d);
  ty_admins : map_Forall admin_ok (role_admins d);
  ty_oracle : map_Forall oracle_ok (oracle_executions d) }.

Definition stays_typed (d d' : Db) : Prop := typed_tables d -> typed_tables d'.
#[export] Instance stays_typed_preorder : PreOrder stays_typed.
Proof. split; unfold stays_typed; [by intros d|]. intros d1 d2 d3 ? ?. auto. Qed.

Lemma lower_toLowerCase s : lower (toLowerCase s).
Proof. apply toLowerCase_idem. Qed.
Lemma lower_opt_fmap o : lower_opt (toLowerCase <$> o).
Proof. intros s Hs. apply fmap_Some in Hs as (x & _ & ->). apply lower_toLowerCase. Qed.
#[local] Hint Resolve lower_toLowerCase lower_opt_fmap : keeps.

(** ** Changes of one table *)

Lemma typed_set_tokens f d : (map_Forall token_ok (tokens d) -> map_Forall token_ok (f (tokens d))) -> stays_typed d (set_tokens f d).
Proof. intros Hf []. split; cbn; auto. Qed.
Lemma typed_set_balances f d : (map_Forall balance_ok (balances d) -> map_Forall balance_ok (f (balances d))) -> stays_typed d (set_balances f d).
Proof. intros Hf []. split; cbn; auto. Qed.
Lemma typed_set_events f d : (map_Forall event_ok (events d) -> map_Forall event_ok (f (events d))) -> stays_typed d (set_events f d).
Proof. intros Hf []. split; cbn; auto. Qed.
Lemma typed_set_failed f d : (map_Forall failed_ok (failed_events d) -> map_Forall failed_ok (f (failed_events d))) -> stays_typed d (set_failed f d).
Proof. intros Hf []. split; cbn; auto. Qed.
Lemma typed_set_role_events f d : (map_Forall role_event_ok (role_events d) -> map_Forall role_event_ok (f (role_events d))) ->
  stays_typed d (set_role_events f d).
Proof. intros Hf []. split; cbn; auto. Qed.
Lemma typed_set_members f d : (set_Forall member_ok (role_members d) -> set_Forall member_ok (f (role_members d))) -> stays_typed d (set_role_members f d).
Proof. intros Hf []. split; cbn; auto. Qed.
Lemma typed_set_admins f d : (map_Forall admin_ok (role_admins d) -> map_Forall admin_ok (f (role_admins d))) -> stays_typed d (set_role_admins f d).
Proof. intros Hf []. split; cbn; auto. Qed.
Lemma typed_set_oracle f d : (map_Forall oracle_ok (oracle_executions d) -> map_Forall oracle_ok (f (oracle_executions d))) -> stays_typed d (set_oracle f d).
Proof. intros Hf []. split; cbn; auto. Qed.
Lemma typed_set_meta f d : stays_typed d (set_meta f d).
Proof. intros []. split; cbn; auto. Qed.

Lemma map_Forall_alter_same {K V} `{Countable K} (P : K -> V -> Prop) g k (m : gmap K V) :
  (forall v, P k v -> P k (g v)) -> map_Forall P m -> map_Forall P (alter g k m).
Proof.
  intros Hg Hm k' v'. destruct (decide (k = k')) as [<-|Hne]; [|rewrite lookup_alter_ne by done; apply Hm].
  rewrite lookup_alter_eq. intros (v & Hv & ->)%fmap_Some. by apply Hg, Hm.
Qed.
Lemma alter_tokens g t d : (forall r, is_Some (tk_name r) -> is_Some (tk_name (g r))) -> (forall r, 0 <= tk_transfers r -> 0 <= tk_transfers (g r)) ->
  stays_typed d (set_tokens (alter g t) d).
Proof. intros H1 H2. apply typed_set_tokens, map_Forall_alter_same. intros v [? ?]. split; auto. Qed.

(** ** Statements *)

Section Statements.
Context `{F : Faults, C : Chain, LP : LogProvider, AC : AccessChain, OC : OracleChain}.

Lemma execute_typed f : (forall d, stays_typed d (f d)) -> keeps stays_typed (execute f).
Proof using. apply keeps_execute. typeclasses eauto. Qed.
Lemma sql_typed {A} (f : Db -> A * Db) : (forall d, stays_typed d (f d).2) -> keeps stays_typed (sql f).
Proof using. apply keeps_sql. typeclasses eauto. Qed.
Lemma retry_typed {A} (fn : M A) : keeps stays_typed fn -> keeps stays_typed (runWithRetry fn).
Proof using. apply retry_keeps. typeclasses eauto. Qed.

Lemma setBalance_typed a t b ts : lower a -> keeps stays_typed (setBalance a t b ts).
Proof using.
  intros Ha. unfold setBalance. destruct (Z.leb_spec b 0); apply execute_typed; intros d; apply typed_set_balances; intros Hd.
  - by apply map_Forall_delete.
  - unfold upsert_balance. apply map_Forall_insert_2; [by split|done].
Qed.
Lemma setTokenState_typed t s h : keeps stays_typed (setTokenState t s h).
Proof using. apply execute_typed. intros d. by apply alter_tokens. Qed.
Lemma sync_typed t : keeps stays_typed (syncTokenTransfersFromEvents t).
Proof using. apply execute_typed. intros d. apply alter_tokens; [done|]. intros r _. cbn. unfold event_count. lia. Qed.
Lemma holders_typed t s k : keeps stays_typed (execute (set_tokens (alter (fun r => with_state (s r) (tk_holders r + k) r) t))).
Proof using. apply execute_typed. intros d. by apply alter_tokens. Qed.
Lemma insert_token_typed t n s dec m : keeps stays_typed (execute (set_tokens (insert_token t (new_token n s dec m)))).
Proof using.
  apply execute_typed. intros d. apply typed_set_tokens. intros Hd. unfold insert_token. destruct (tokens d !! t); [done|].
  apply map_Forall_insert_2; [|done]. split; [by eexists|cbn; lia].
Qed.
Lemma insertEvent_typed k log t ts : keeps stays_typed (insertEvent k (event_row log t ts)).
Proof using.
  apply sql_typed. intros d. destruct (events d !! k); cbn [snd]; [reflexivity|]. apply typed_set_events. intros Hd.
  apply map_Forall_insert_2; [|done]. split_and!; apply lower_toLowerCase.
Qed.
Lemma recordFailed_typed a log e : keeps stays_typed (recordFailedEvent a log e).
Proof using.
  apply execute_typed. intros d. apply typed_set_failed. intros Hd. apply map_Forall_insert_2; [|done].
  split; [apply lower_toLowerCase|]. unfold upsert_failed. destruct (failed_events d !! failed_key a log) as [r|] eqn:Hr; cbn; [|lia].
  apply Hd in Hr as [_ Hr]. lia.
Qed.
Lemma setMeta_typed k v : keeps stays_typed (setMeta k v).
Proof using. apply execute_typed. intros d. apply typed_set_meta. Qed.
Lemma insertRoleEvent_typed a log ts e : keeps stays_typed (insertRoleEvent a log ts e).
Proof using.
  unfold insertRoleEvent. destruct (ac_role e) as [role|]; [|apply keeps_throw; typeclasses eauto]. apply sql_typed. intros d.
  case_match; cbn [snd]; [reflexivity|]. apply typed_set_role_events. intros Hd. apply map_Forall_insert_2; [|done].
  split_and!; cbn; [apply lower_toLowerCase| |apply lower_opt_fmap..]. destruct (ac_type e); repeat constructor.
Qed.
Lemma upsertRoleMember_typed a r x : keeps stays_typed (upsertRoleMember a r x).
Proof using.
  apply execute_typed. intros d. apply typed_set_members. intros Hd. apply set_Forall_union; [|done].
  apply set_Forall_singleton. split; apply lower_toLowerCase.
Qed.
Lemma deleteRoleMember_typed a r x : keeps stays_typed (deleteRoleMember a r x).
Proof using. apply execute_typed. intros d. apply typed_set_members. intros Hd m [Hm _]%elem_of_difference. by apply Hd. Qed.
Lemma upsertRoleAdmin_typed a r x : keeps stays_typed (upsertRoleAdmin a r x).
Proof using.
  apply execute_typed. intros d. apply typed_set_admins. intros Hd. apply map_Forall_insert_2; [apply lower_toLowerCase|done].
Qed.
End Statements.
#[local] Hint Resolve setTokenState_typed sync_typed holders_typed insert_token_typed insertEvent_typed recordFailed_typed setMeta_typed
  insertRoleEvent_typed upsertRoleMember_typed deleteRoleMember_typed upsertRoleAdmin_typed : keeps.
Ltac typed_auto := repeat first [keeps_step | apply retry_typed | apply holders_typed].

(** ** Operations *)

Section Operations.
Context `{F : Faults, C : Chain, LP : LogProvider, AC : AccessChain, OC : OracleChain}.

Lemma ensureToken_typed t : keeps stays_typed (ensureToken t).
Proof using. unfold ensureToken, selectToken, or_null. typed_auto. Qed.
#[local] Hint Resolve ensureToken_typed : keeps.
Lemma tracked_lower addresses a : a ∈ tracked addresses -> lower a.
Proof using.
  unfold tracked. rewrite list_elem_of_In, filter_In, <- list_elem_of_In. intros [Ha _].
  assert (forall seen l, a ∈ js_unique seen l -> a ∈ l) as Hu.
  { intros seen l. revert seen. induction l as [|x l IH]; intros seen; cbn [js_unique]; [done|]. case_bool_decide.
    - intros H1. right. by eapply IH.
    - intros [->|H1]%elem_of_cons; [left|right; by eapply IH]. }
  apply Hu, list_elem_of_fmap in Ha as (x & -> & _). apply lower_toLowerCase.
Qed.
Lemma mapMM_keys (f : jsstring -> M Z) l w : wp (mapMM (fun a => b ← f a; mret (a, b)) l)
  (fun items _ => Forall (fun p => p.1 ∈ l) items) (fun _ _ => True) w.
Proof using.
  assert (forall (L l : list jsstring) w, (forall x, x ∈ l -> x ∈ L) -> wp (mapMM (fun a => b ← f a; mret (a, b)) l)
    (fun items _ => Forall (fun p => p.1 ∈ L) items) (fun _ _ => True) w) as H; [|by apply H].
  clear l w. intros L l. induction l as [|x l IH]; intros w HL; cbn [mapMM]; [by apply wp_ret|]. apply wp_bind, wp_bind.
  unfold wp at 1. destruct (f x w) as [[b|e] w']; [|done]. apply wp_ret. apply wp_bind.
  eapply wp_conseq; [apply IH; intros y Hy; apply HL; by right| |done]. intros items w2 Hi. apply wp_ret. constructor; [|done]. apply HL. left.
Qed.
Lemma reconcile_typed t l ts : keeps stays_typed (reconcileTransferStateFromChain t l ts).
Proof using.
  unfold reconcileTransferStateFromChain, getBalance, getHolderCount. apply keeps_bind; [typeclasses eauto|apply ensureToken_typed|]. intros _.
  apply (keeps_bind_post _ (Forall (fun p => p.1 ∈ tracked l))).
  - intros w. assert (keeps stays_typed (mapMM (fun a => b ← rpc (fun t0 => hub_balanceOf t0 a t); mret (a, b)) (tracked l))) as Hk by typed_auto.
    eapply wp_conseq; [apply wp_and; [apply Hk|apply mapMM_keys]|done|]. by intros e w' [H _].
  - intros items Hi. apply keeps_bind; [typeclasses eauto| |typed_auto]. apply keeps_forM_; [typeclasses eauto|]. intros item Hin.
    rewrite Forall_forall in Hi. apply Hi, tracked_lower in Hin. typed_auto. by apply setBalance_typed.
Qed.
#[local] Hint Resolve reconcile_typed : keeps.
Lemma timestamp_typed b : keeps stays_typed (getBlockTimestamp b).
Proof using. unfold getBlockTimestamp. typed_auto. Qed.
#[local] Hint Resolve timestamp_typed : keeps.
Lemma processSingleLog_typed a log ts : keeps stays_typed (processSingleLog a log ts).
Proof using. unfold processSingleLog, applyRoleEvent. typed_auto. Qed.

(** The key and the actions come from the log; the contract is configured. *)
Lemma parseOracle_lower log ty key actions : parseOracleExecutionLog log = Some (ty, key, actions) -> lower key /\ Forall lower actions.
Proof using.
  unfold parseOracleExecutionLog. destruct (oracle_parseLog _ _) as [[[[name k] l]|]|]; [|done..].
  assert (forall t, Some (t, toLowerCase k, toLowerCase <$> l) = Some (ty, key, actions) -> lower key /\ Forall lower actions) as H.
  { intros t [= _ <- <-]. split; [apply lower_toLowerCase|]. apply Forall_fmap, Forall_true. intros x. apply lower_toLowerCase. }
  repeat case_bool_decide; try done; apply H.
Qed.
Definition execution_ok (o : option NormalizedOracleExecution) : Prop :=
  forall n, o = Some n -> lower (no_contract n) /\ lower (no_key n) /\ Forall lower (no_actions n).
Lemma processOracle_ok a log ts w : wp (processOracleExecutionLog a log ts) (fun o _ => execution_ok o) (fun _ _ => True) w.
Proof using.
  unfold processOracleExecutionLog. destruct (parseOracleExecutionLog log) as [[[[] key] actions]|] eqn:E; [|by apply wp_ret|done].
  apply parseOracle_lower in E as [Hk Ha]. apply wp_bind. unfold wp at 1.
  destruct (getDecodedOracleTransaction a (lg_tx log) w) as [[ds|e] w']; [|done]. cbv zeta.
  destruct (List.filter _ _) as [|c cs]; [done|]. destruct (List.find _ (c :: cs)) as [[x t]|]; [|done].
  apply wp_ret. intros n [= <-]. split_and!; [apply lower_toLowerCase|done|done].
Qed.
Lemma insertOracle_typed n : lower (no_contract n) /\ lower (no_key n) /\ Forall lower (no_actions n) -> keeps stays_typed (insertOracleExecution n).
Proof using.
  intros Hn. apply sql_typed. intros d. case_match; cbn [snd]; [reflexivity|]. apply typed_set_oracle. intros Hd. by apply map_Forall_insert_2.
Qed.
Lemma storeOracle_typed a log ts : keeps stays_typed (processAndStoreOracleExecutionLog a log ts).
Proof using.
  unfold processAndStoreOracleExecutionLog. apply (keeps_bind_post _ execution_ok).
  - intros w. assert (keeps stays_typed (processOracleExecutionLog a log ts)) as Hk
      by (unfold processOracleExecutionLog, getDecodedOracleTransaction; typed_auto).
    eapply wp_conseq; [apply wp_and; [apply Hk|apply processOracle_ok]|done|]. by intros e w' [H _].
  - intros [n|] Hn; [|typed_auto]. apply keeps_bind; [typeclasses eauto|by apply insertOracle_typed, Hn|typed_auto].
Qed.
#[local] Hint Resolve processSingleLog_typed storeOracle_typed : keeps.

Lemma transfers_typed lane logs : keeps stays_typed (processTransferLogs lane logs).
Proof using.
  unfold processTransferLogs, process_transfer_log, process_touched_token, insertParsedTransferLog, getCheckpointValue, getMeta. typed_auto.
Qed.
(** A lane whose own processing keeps the tables typed. *)
Definition lane_typed (lane : Lane) : Prop :=
  (forall f log ts, ln_processLog lane = Some f -> keeps stays_typed (f log ts)) /\
  (forall f, ln_afterBatch lane = Some f -> keeps stays_typed f).
Lemma run_batch_typed lane logs e : lane_typed lane -> keeps stays_typed (run_batch lane logs e).
Proof using.
  intros [Hp Ha]. unfold run_batch, setLaneCheckpoint, getCheckpointValue, getMeta. apply keeps_bind; [typeclasses eauto| |typed_auto].
  assert (keeps stays_typed (default (mret tt) (ln_afterBatch lane))) as Hafter.
  { destruct (ln_afterBatch lane) eqn:E; cbn; [by apply Ha|typed_auto]. }
  assert (keeps stays_typed (processLogs lane logs)) as Hk; [|destruct logs; [typed_auto|exact Hk]].
  unfold processLogs. destruct (ln_token lane); [apply keeps_bind; [typeclasses eauto|apply transfers_typed|done]|].
  destruct (ln_processLog lane) as [f|] eqn:E; [|typed_auto]. apply keeps_bind; [typeclasses eauto| |done].
  unfold process_log. typed_auto; by apply Hp.
Qed.
Lemma processLane_typed cfg lane latest : lane_typed lane -> keeps stays_typed (processLaneUntil cfg lane latest).
Proof using.
  intros Hl. apply (processLane_keeps _ lane (fun _ => True)); [intros; by apply Forall_true..|]. intros. by apply run_batch_typed.
Qed.
End Operations.
#[local] Hint Resolve ensureToken_typed reconcile_typed timestamp_typed processSingleLog_typed storeOracle_typed setBalance_typed : keeps.

(** ** The process *)

Section Process.
Context `{F : Faults, C : Chain, LP : LogProvider, AC : AccessChain, OC : OracleChain}.
Context (cfg : IndexerConfig) (hub oracle : jsstring) (hubStart oracleStart overlap : Z)
        (transferTopics roleTopics executionTopics : list (list jsstring)).

Lemma lanes_typed : Forall lane_typed (lanes hub oracle hubStart oracleStart overlap transferTopics roleTopics executionTopics).
Proof using.
  repeat (apply List.Forall_cons; [split; [intros f log ts Hf; cbn in Hf; simplify_eq; typed_auto|
    intros f Hf; cbn in Hf; simplify_eq; typed_auto]|]). apply List.Forall_nil.
Qed.
Lemma poll_typed : keeps stays_typed (poll cfg hub oracle hubStart oracleStart overlap transferTopics roleTopics executionTopics).
Proof using.
  unfold poll, poll_lanes. typed_auto. apply processLane_typed. by apply (proj1 (Forall_forall _ _) lanes_typed).
Qed.
Lemma replay_typed a log : keeps stays_typed (replay_failed_log hub oracle a log).
Proof using.
  unfold replay_failed_log, replayTransferLogFromChain, insertParsedTransferLog, reconcileRoleStateFromChain. typed_auto.
Qed.
Lemma retry_failed_typed : keeps stays_typed (retry_failed_events hub oracle).
Proof using.
  unfold retry_failed_events, retry_row, processFailedLog.
  typed_auto; [apply replay_typed|apply execute_typed..]; intros d; apply typed_set_failed; intros Hd.
  - by apply map_Forall_delete.
  - apply map_Forall_alter_same; [|done]. intros v [? ?]. split; [done|]. cbn. lia.
Qed.
Lemma reconcile_job_typed : keeps stays_typed reconcile.
Proof using. unfold reconcile, reconcile_token. typed_auto. Qed.
Lemma refresh_typed address : keeps stays_typed (refreshAddressBalances address).
Proof using.
  unfold refreshAddressBalances, read_chain_balance, refresh_item, getBalance, or_null.
  typed_auto.
Qed.
Lemma keeps_typed {A} (c : M A) w : keeps stays_typed c -> typed_tables (w_db w) -> typed_tables (w_db (c w).2).
Proof using. intros Hk Hw. specialize (Hk w). unfold wp in Hk. destruct (c w) as [[a|e] w']; by apply Hk. Qed.
Lemma step_typed s s' : step cfg hub oracle hubStart oracleStart overlap transferTopics roleTopics executionTopics s s' ->
  typed_tables (sys_db s) -> typed_tables (sys_db s').
Proof using.
  intros [] Hs; cbn; [by apply keeps_typed; [apply poll_typed|]|by apply keeps_typed; [apply retry_failed_typed|]|
    by apply keeps_typed; [apply reconcile_job_typed|]|by apply keeps_typed; [apply refresh_typed|]|done].
Qed.
End Process.

(** ** Every reachable state *)

(** C15: Whatever the order of polls, retries of failed events, reconciler runs,
    balance refreshes and restarts, and whichever statements and RPCs fail or
    are applied in spite of an error, every table stays well typed: balances
    are positive and kept under lower-case addresses, transfers, role events,
    role members and admins, oracle executions and failed events name
    lower-case addresses, role events have one of the three event types, retry
    and transfer counters are not negative and every token has a name. *)
Theorem tables_stay_typed `{F : Faults, C : Chain, LP : LogProvider, AC : AccessChain, OC : OracleChain}
    cfg hub oracle hubStart oracleStart overlap transferTopics roleTopics executionTopics s0 s :
  typed_tables (sys_db s0) ->
  rtc (step cfg hub oracle hubStart oracleStart overlap transferTopics roleTopics executionTopics) s0 s ->
  typed_tables (sys_db s).
Proof.
  intros H0 Hsteps. induction Hsteps as [|s1 s2 s3 Hstep _ IH]; [done|]. apply IH. by eapply step_typed.
Qed.

#[local] Existing Instances Toy.faults Toy.chain Toy.provider Toy.access Toy.oracle_chain.
Lemma empty_typed : typed_tables Toy.empty_db.
Proof. split; first [apply map_Forall_empty|apply set_Forall_empty]. Qed.
Lemma tables_typed_witness : is_Some (balances (sys_db Toy.recovered) !! (js "0xbb", js "7")) /\ typed_tables (sys_db Toy.recovered).
Proof.
  split; [vm_compute; eexists; reflexivity|].
  assert (rtc (step Toy.cfg Toy.hub Toy.oracle 0 0 0 [] [] []) Toy.start Toy.recovered) as Hr.
  { eapply rtc_l; [apply step_poll|]. eapply rtc_l; [apply step_retry|]. apply rtc_refl. }
  exact (tables_stay_typed Toy.cfg Toy.hub Toy.oracle 0 0 0 [] [] [] Toy.start Toy.recovered empty_typed Hr).
Defined.
