(* ===== verification/SdkMessages.v ===== *)
(** * Messages of the SDK: withdraw requests, executions and the funding pool

    packages/sdk/src/messages/v2.3/withdrawal.ts, v2.2/execution.ts,
    v2.3/funding-pool.ts and the call and extra-data codecs of order/index.ts.
    bitcoinjs-lib's [toOutputScript], viem's [hashTypedData] and TronWeb's ABI
    coder are the interface [MessageLibs]. *)

From Stdlib Require Import Strings.Byte.
From S2P Require Import Prelude JsNum JsString JsNumber Scanner HexBytes Abi HederaIds SdkAddress AbiSpec SdkCodec SdkPayloads BitcoinTx ToyRuntime SdkProofs SdkCallProofs SdkPayloadProofs.
Local Open Scope Z_scope.
Local Open Scope js_scope.

Abbreviation Eip712Fields := (list (string * list (string * string))).
Record MessageDomain := { td_name : jsstring; td_version : jsstring; td_chainId : Z; td_verifyingContract : jsstring }.
Class MessageLibs := {
  (** [bitcoin.address.toOutputScript(address, bitcoin.networks.bitcoin)]. *)
  toOutputScript : jsstring -> result bytes;
  hashTypedDataOf : MessageDomain -> Eip712Fields -> string -> list AbiVal -> result jsstring;
  (** [tronweb.utils.abi.encodeParams(["address"], [x])] and [decodeParams]. *)
  tron_encodeAddress : jsstring -> result jsstring;
  tron_decodeAddress : jsstring -> result jsstring;
  (** [encodePacked(["address", "bytes32"], [a, h])]. *)
  packAddressHash : jsstring -> jsstring -> result jsstring;
}.

(** [number | bigint | string] and [BigInt] of it. *)
Inductive Quantity := QNumber (n : jsnum) | QBigint (z : Z) | QText (s : jsstring).
Definition BigInt_of (q : Quantity) : result Z :=
  match q with QNumber n => BigInt_num n | QBigint z => Ok z | QText s => BigInt s end.

(** ** Additional data of a withdraw request *)

Record AllocatorUtxo := { au_txid : jsstring; au_vout : Z; au_value : jsstring }.
Record FeeUtxo := { fu_txid : jsstring; fu_vout : Z; fu_value : jsstring; fu_address : jsstring }.
Record BitcoinVmWithdrawRequestAdditionalData := {
  ba_allocatorUtxos : list AllocatorUtxo; ba_feeUtxos : list FeeUtxo; ba_feeRate : jsnum; ba_feeChangeAddress : jsstring }.
Record HederaVmWithdrawRequestAdditionalData := {
  ha_payerNum : option Quantity; ha_nodeAccountNum : option Quantity; ha_validStartSeconds : option Quantity;
  ha_validDurationSeconds : option Z; ha_maxTransactionFee : option Quantity }.
Record LighterVmWithdrawRequestAdditionalData := {
  la_nonce : option Quantity; la_apiKeyIndex : option Quantity; la_usdcFee : option Quantity }.
Record XrpVmWithdrawRequestAdditionalData := {
  xa_sequence : option Z; xa_fee : option Quantity; xa_lastLedgerSequence : option Z; xa_flags : option Z;
  xa_destinationTag : option Z }.
Record EthereumVmWithdrawRequestAdditionalData := { ea_router : jsstring; ea_calls : list RoutedCall }.
Record GatewayVmDestinationAdditionalData := { gd_destinationVm : jsstring; gd_routed : EthereumVmWithdrawRequestAdditionalData }.
Record GatewayVmWithdrawRequestAdditionalData := {
  ga_allocator : jsstring; ga_destinationChainId : jsstring; ga_maxBlockHeight : Quantity;
  ga_destinationData : option GatewayVmDestinationAdditionalData }.
Record WithdrawRequestAdditionalData := {
  wa_bitcoin : option BitcoinVmWithdrawRequestAdditionalData; wa_hedera : option HederaVmWithdrawRequestAdditionalData;
  (** The only field of hyperliquid-vm's data is its nonce. *)
  wa_hyperliquid : option Quantity; wa_lighter : option LighterVmWithdrawRequestAdditionalData;
  wa_xrp : option XrpVmWithdrawRequestAdditionalData; wa_gateway : option GatewayVmWithdrawRequestAdditionalData;
  wa_ethereum : option EthereumVmWithdrawRequestAdditionalData }.

Definition utxoTuple : AbiTy := TTuple [("txid", TFixed 32); ("index", TUint 32); ("value", TUint 64); ("scriptPubKey", TBytes)].
Definition bitcoinDataAbi : list AbiTy := [TTuple [("allocatorUtxos", TArray utxoTuple); ("feeUtxos", TArray utxoTuple);
  ("feeChangeScript", TBytes); ("feeRate", TUint 64)]].
Definition xrpDataAbi : list AbiTy := [TTuple [("sequence", TUint 32); ("fee", TUint 64); ("lastLedgerSequence", TUint 32);
  ("flags", TUint 32); ("destinationTag", TUint 32); ("hasDestinationTag", TBool)]].
Definition gatewayDataAbi : list AbiTy := [TTuple [("allocator", TAddress); ("destinationChainId", TString); ("maxBlockHeight", TUint 256);
  ("destinationData", TBytes)]].
Definition hederaDataAbi : list AbiTy := [TTuple [("payerNum", TUint 64); ("nodeAccountNum", TUint 64); ("validStartSeconds", TUint 64);
  ("validDurationSeconds", TUint 32); ("maxTransactionFee", TUint 64)]].

Section Requests.
Context `{A : SdkAbi, V : Viem, L : SdkLibs, ML : MessageLibs}.

(** The test is [/^[0-9a-fA-F]{64}$/]. *)
Definition toLittleEndianTxid (txid : jsstring) : result jsstring :=
  let normalizedTxid := if startsWith txid (js "0x") then drop 2 txid else txid in
  fail_if negb (Nat.eqb (length normalizedTxid) 64 && forallb is_hex_digit normalizedTxid) with "Invalid bitcoin UTXO txid" ;;
  Ok (hex0x (reverse (buffer_hex normalizedTxid))).
Definition toScriptPubKey (address : jsstring) : result jsstring := l ← toOutputScript address; Ok (hex0x l).
Definition toAllocatorScriptPubKey (address : jsstring) : result jsstring :=
  scriptPubKey ← toScriptPubKey address;
  let script := buffer_hex (drop 2 scriptPubKey) in
  fail_if negb (Nat.eqb (length script) 22) || negb (bool_decide (script !! 0%nat = Some x00)) ||
    negb (bool_decide (script !! 1%nat = Some x14)) with "bitcoin-vm allocator must be a P2WPKH address" ;;
  Ok scriptPubKey.
Definition utxo_value (txid : jsstring) (vout : Z) (value : jsstring) (scriptPubKey : result jsstring) : result AbiVal :=
  t ← toLittleEndianTxid txid; v ← BigInt value; script ← scriptPubKey; Ok (VTup [VHex t; VNum vout; VNum v; VHex script]).
Definition bitcoin_additional (data : BitcoinVmWithdrawRequestAdditionalData) (depository : jsstring) : result jsstring :=
  allocatorScriptPubKey ← toAllocatorScriptPubKey depository;
  allocatorUtxos ← mapM (fun u => utxo_value (au_txid u) (au_vout u) (au_value u) (Ok allocatorScriptPubKey)) (ba_allocatorUtxos data);
  feeUtxos ← mapM (fun u => utxo_value (fu_txid u) (fu_vout u) (fu_value u) (toScriptPubKey (fu_address u))) (ba_feeUtxos data);
  feeChangeScript ← toScriptPubKey (ba_feeChangeAddress data);
  feeRate ← BigInt_num (ba_feeRate data);
  encodeAbi bitcoinDataAbi [VTup [VArr allocatorUtxos; VArr feeUtxos; VHex feeChangeScript; VNum feeRate]].
Definition lighter_additional (data : LighterVmWithdrawRequestAdditionalData) : result jsstring :=
  nonce ← require (la_nonce data) "nonce is required in lighter-vm additionalData";
  apiKeyIndex ← require (la_apiKeyIndex data) "apiKeyIndex is required in lighter-vm additionalData";
  usdcFee ← require (la_usdcFee data) "usdcFee is required in lighter-vm additionalData";
  n ← BigInt_of nonce; k ← BigInt_of apiKeyIndex; f ← BigInt_of usdcFee;
  encodeAbi [TUint 64; TUint 64; TUint 64] [VNum n; VNum k; VNum f].
Definition xrp_additional (data : XrpVmWithdrawRequestAdditionalData) : result jsstring :=
  sequence ← require (xa_sequence data) "sequence is required in xrp-vm additionalData";
  fee ← require (xa_fee data) "fee is required in xrp-vm additionalData";
  lastLedgerSequence ← require (xa_lastLedgerSequence data) "lastLedgerSequence is required in xrp-vm additionalData";
  f ← BigInt_of fee;
  encodeAbi xrpDataAbi [VTup [VNum sequence; VNum f; VNum lastLedgerSequence; VNum (default 0 (xa_flags data));
    VNum (default 0 (xa_destinationTag data)); VBool (bool_decide (is_Some (xa_destinationTag data)))]].
(** Only the commitment to the calls is encoded. *)
Definition routed_additional (data : EthereumVmWithdrawRequestAdditionalData) : result jsstring :=
  dataHash ← hashRoutedCalls (ea_calls data);
  encodeRoutedWithdrawalData {| rd_version := ROUTED_WITHDRAWAL_DATA_VERSION; rd_router := ea_router data; rd_dataHash := dataHash |}.
Definition gateway_additional (data : GatewayVmWithdrawRequestAdditionalData) : result jsstring :=
  fail_if match ga_destinationData data with
          | Some d => negb (bool_decide (gd_destinationVm d = js "ethereum-vm")) | None => false
          end with "Unsupported gateway-vm destination data" ;;
  destinationData ← match ga_destinationData data with Some d => routed_additional (gd_routed d) | None => Ok (js "0x") end;
  maxBlockHeight ← BigInt_of (ga_maxBlockHeight data);
  encodeAbi gatewayDataAbi [VTup [VHex (ga_allocator data); VText (ga_destinationChainId data); VNum maxBlockHeight; VHex destinationData]].
Definition hedera_additional (data : HederaVmWithdrawRequestAdditionalData) : result jsstring :=
  payerNum ← require (ha_payerNum data) "payerNum is required in hedera-vm additionalData";
  nodeAccountNum ← require (ha_nodeAccountNum data) "nodeAccountNum is required in hedera-vm additionalData";
  validStartSeconds ← require (ha_validStartSeconds data) "validStartSeconds is required in hedera-vm additionalData";
  validDurationSeconds ← require (ha_validDurationSeconds data) "validDurationSeconds is required in hedera-vm additionalData";
  maxTransactionFee ← require (ha_maxTransactionFee data) "maxTransactionFee is required in hedera-vm additionalData";
  p ← BigInt_of payerNum; n ← BigInt_of nodeAccountNum; s ← BigInt_of validStartSeconds; f ← BigInt_of maxTransactionFee;
  encodeAbi hederaDataAbi [VTup [VNum p; VNum n; VNum s; VNum validDurationSeconds; VNum f]].

Definition encodeWithdrawRequestAdditionalData (vmType : SdkVm) (additionalData : option WithdrawRequestAdditionalData)
    (depository : option jsstring) : result jsstring :=
  match vmType with
  | bitcoin_vm =>
      data ← require (additionalData ≫= wa_bitcoin) "Additional data is required for bitcoin-vm";
      fail_if match depository with Some (_ :: _) => false | _ => true end
        with "depository is required for bitcoin-vm additionalData" ;;
      bitcoin_additional data (default [] depository)
  | hyperliquid_vm =>
      nonce ← require (additionalData ≫= wa_hyperliquid) "Additional data is required for hyperliquid-vm";
      n ← BigInt_of nonce; encodeAbi [TUint 64] [VNum n]
  | lighter_vm => data ← require (additionalData ≫= wa_lighter) "Additional data is required for lighter-vm"; lighter_additional data
  | xrp_vm => data ← require (additionalData ≫= wa_xrp) "Additional data is required for xrp-vm"; xrp_additional data
  | gateway_vm => data ← require (additionalData ≫= wa_gateway) "Additional data is required for gateway-vm"; gateway_additional data
  | ethereum_vm => match additionalData ≫= wa_ethereum with None => Ok (js "0x") | Some data => routed_additional data end
  | hedera_vm => data ← require (additionalData ≫= wa_hedera) "Additional data is required for hedera-vm"; hedera_additional data
  | solana_vm | ton_vm | tron_vm => Ok (js "0x")
  end.

(** ** Withdraw requests *)

(** A request with the chain's own texts; [dw_request] has no [data] yet. *)
Record DenormalizedWithdrawRequest := {
  dw_chainId : jsstring; dw_depository : jsstring; dw_currency : jsstring; dw_amount : jsstring; dw_spenderChainId : jsstring;
  dw_spender : jsstring; dw_receiver : jsstring; dw_nonce : jsstring; dw_additionalData : option WithdrawRequestAdditionalData;
  dw_vmType : SdkVm; dw_spenderVmType : SdkVm }.
Definition normalizeWithdrawRequest (request : DenormalizedWithdrawRequest) : result WithdrawRequest :=
  let encode address := match dw_vmType request with
                        | gateway_vm => Ok address
                        | vmType => encodeAddressToHex address vmType
                        end in
  depository ← encode (dw_depository request);
  currency ← encode (dw_currency request);
  spender ← encodeAddressToHex (dw_spender request) (dw_spenderVmType request);
  receiver ← encode (dw_receiver request);
  data ← encodeWithdrawRequestAdditionalData (dw_vmType request) (dw_additionalData request)
           match dw_vmType request with bitcoin_vm => Some (dw_depository request) | _ => None end;
  Ok {| chainId := dw_chainId request; depository := depository; currency := currency; amount := dw_amount request;
        spenderChainId := dw_spenderChainId request; spender := spender; receiver := receiver; data := data; nonce := dw_nonce request |}.

Definition withdrawRequestAbi : list AbiTy := [TTuple [("chainId", TString); ("depository", TBytes); ("currency", TBytes); ("amount", TUint 256);
  ("spenderChainId", TString); ("spender", TBytes); ("receiver", TBytes); ("data", TBytes); ("nonce", TFixed 32)]].
Definition getWithdrawRequestHash (request : WithdrawRequest) : result jsstring :=
  amount_ ← BigInt (amount request);
  encoded ← encodeAbi withdrawRequestAbi [VTup [VText (chainId request); VHex (depository request); VHex (currency request); VNum amount_;
    VText (spenderChainId request); VHex (spender request); VHex (receiver request); VHex (data request); VHex (nonce request)]];
  keccakHex encoded.

Record ExecuteAndWithdrawFee := { ef_recipient : jsstring; ef_amount : jsstring }.
Record ExecuteAndWithdrawRequest := {
  ew_inChainId : jsstring; ew_inCurrency : jsstring; ew_outChainId : jsstring; ew_outCurrency : jsstring; ew_outAmountMinimum : jsstring;
  ew_depository : jsstring; ew_orderAddress : jsstring; ew_receiver : jsstring; ew_data : jsstring; ew_fees : list ExecuteAndWithdrawFee;
  ew_nonce : jsstring; ew_deadline : jsstring }.
Definition executeAndWithdrawRequestTypes : Eip712Fields :=
  [("ExecuteAndWithdrawRequest", [("inChainId", "string"); ("inCurrency", "bytes"); ("outChainId", "string"); ("outCurrency", "bytes");
     ("outAmountMinimum", "uint256"); ("depository", "bytes"); ("orderAddress", "address"); ("receiver", "bytes"); ("data", "bytes");
     ("fees", "Fee[]"); ("nonce", "bytes32"); ("deadline", "uint256")]);
   ("Fee", [("recipient", "address"); ("amount", "uint256")])].
Definition getExecuteAndWithdrawRequestHash (chainId_ : Z) (executor : jsstring) (request : ExecuteAndWithdrawRequest) : result jsstring :=
  outAmountMinimum ← BigInt (ew_outAmountMinimum request);
  fees ← mapM (fun fee => a ← BigInt (ef_amount fee); Ok (VTup [VHex (ef_recipient fee); VNum a])) (ew_fees request);
  deadline ← BigInt (ew_deadline request);
  hashTypedDataOf {| td_name := js "RelayExecutor"; td_version := js "1"; td_chainId := chainId_; td_verifyingContract := executor |}
    executeAndWithdrawRequestTypes "ExecuteAndWithdrawRequest"
    [VText (ew_inChainId request); VHex (ew_inCurrency request); VText (ew_outChainId request); VHex (ew_outCurrency request);
     VNum outAmountMinimum; VHex (ew_depository request); VHex (ew_orderAddress request); VHex (ew_receiver request); VHex (ew_data request);
     VArr fees; VHex (ew_nonce request); VNum deadline].
End Requests.

(** ** v2.2/execution.ts *)

Inductive DecodedAction :=
  | MINT (hubToAddress : jsstring) (hubTokenId : Z) (amount : jsstring)
  | BURN (hubFromAddress : jsstring) (hubTokenId : Z) (amount : jsstring)
  | TRANSFER (hubFromAddress hubToAddress : jsstring) (hubTokenId : Z) (amount : jsstring)
  | FAST_MINT (hubToAddress : jsstring) (hubTokenId : Z) (amount : jsstring) (feeCalculator feeCalculatorData rateLimiter rateLimiterData : jsstring).
Definition ActionType (action : DecodedAction) : Z :=
  match action with MINT _ _ _ => 0 | BURN _ _ _ => 1 | TRANSFER _ _ _ _ => 2 | FAST_MINT _ _ _ _ _ _ _ => 3 end.
(** Mints and burns have one layout. *)
Definition mintAbi : list AbiTy := [TUint 8; TAddress; TUint 256; TUint 256].
Definition transferAbi : list AbiTy := [TUint 8; TAddress; TAddress; TUint 256; TUint 256].
Definition fastMintAbi : list AbiTy := [TUint 8; TAddress; TUint 256; TUint 256; TAddress; TBytes; TAddress; TBytes].

(** ** v2.3/funding-pool.ts *)

Record PoolResolverCall := { pc_to : jsstring; pc_data : jsstring }.
Record DrawLeg := {
  dl_pool : jsstring; dl_account : jsstring; dl_kind : Z; dl_tokenIn : jsstring; dl_tokenOut : jsstring; dl_amount : Z;
  dl_amountOutMinimum : Z; dl_calls : list PoolResolverCall }.
Record PoolDrawResolverExecution := { pe_legs : list DrawLeg; pe_calls : list PoolResolverCall; pe_salt : jsstring }.
Definition poolCallTuple : AbiTy := TTuple [("to", TAddress); ("data", TBytes)].
Definition drawLegTuple : AbiTy := TTuple [("pool", TAddress); ("account", TAddress); ("kind", TUint 8); ("tokenIn", TAddress);
  ("tokenOut", TAddress); ("amount", TUint 256); ("amountOutMinimum", TUint 256); ("calls", TArray poolCallTuple)].
Definition poolDrawResolverExecutionAbi : list AbiTy :=
  [TTuple [("legs", TArray drawLegTuple); ("calls", TArray poolCallTuple); ("salt", TFixed 32)]].
Definition poolDrawResolverDataAbi : list AbiTy := [TBytes; TArray TBytes].

Record FundingPoolWithdrawal := {
  fw_account : jsstring; fw_token : jsstring; fw_amount : Z; fw_recipient : jsstring; fw_nonce : Z; fw_deadline : Z }.
Record FundingPoolSponsorshipConfigUpdate := {
  fc_account : jsstring; fc_token : jsstring; fc_authorizer : jsstring; fc_perOrderCap : Z; fc_budget : Z; fc_expiry : Z; fc_nonce : Z;
  fc_deadline : Z }.
Record FundingPoolSponsorshipResolverUpdate := {
  fr_account : jsstring; fr_resolver : jsstring; fr_allowed : bool; fr_nonce : Z; fr_deadline : Z }.
Record FundingPoolDrawAuthorization := { fd_account : jsstring; fd_orderAddress : jsstring }.
Definition fundingPoolWithdrawalTypes : Eip712Fields :=
  [("PoolWithdrawal", [("account", "address"); ("token", "address"); ("amount", "uint256"); ("recipient", "address"); ("nonce", "uint256");
     ("deadline", "uint256")])].
Definition fundingPoolSponsorshipConfigUpdateTypes : Eip712Fields :=
  [("SponsorshipConfigUpdate", [("account", "address"); ("token", "address"); ("authorizer", "address"); ("perOrderCap", "uint256");
     ("budget", "uint256"); ("expiry", "uint64"); ("nonce", "uint256"); ("deadline", "uint256")])].
Definition fundingPoolSponsorshipResolverUpdateTypes : Eip712Fields :=
  [("SponsorshipResolverUpdate", [("account", "address"); ("resolver", "address"); ("allowed", "bool"); ("nonce", "uint256");
     ("deadline", "uint256")])].
Definition fundingPoolDrawAuthorizationTypes : Eip712Fields :=
  [("DrawAuthorization", [("account", "address"); ("orderAddress", "address")])].

(** ** Calls and extra data of an order *)

Record OrderCall := { oc_to : jsstring; oc_data : jsstring; oc_value : jsstring }.
Definition orderCallAbi : list AbiTy := [TTuple [("to", TAddress)]; TTuple [("data", TBytes)]; TTuple [("value", TUint 256)]].
Inductive DecodedExtraData := EthereumExtraData (fillContract : jsstring) | TronExtraData (fillContract : jsstring).
Definition extraDataAbi : list AbiTy := [TTuple [("fillContract", TAddress)]].

Section Messages.
Context `{A : SdkAbi, L : SdkLibs, ML : MessageLibs}.

Definition encodeAction (action : DecodedAction) : result jsstring :=
  match action with
  | MINT to tokenId amount | BURN to tokenId amount =>
      a ← BigInt amount; encodeAbi mintAbi [VNum (ActionType action); VHex to; VNum tokenId; VNum a]
  | TRANSFER from to tokenId amount =>
      a ← BigInt amount; encodeAbi transferAbi [VNum (ActionType action); VHex from; VHex to; VNum tokenId; VNum a]
  | FAST_MINT to tokenId amount feeCalculator feeCalculatorData rateLimiter rateLimiterData =>
      a ← BigInt amount;
      encodeAbi fastMintAbi [VNum (ActionType action); VHex to; VNum tokenId; VNum a; VHex feeCalculator; VHex feeCalculatorData;
        VHex rateLimiter; VHex rateLimiterData]
  end.
Definition decode_mint (action : jsstring) (make : jsstring -> Z -> jsstring -> DecodedAction) : result DecodedAction :=
  values ← decodeAbi mintAbi action;
  match values with
  | [VNum _; VHex address; VNum tokenId; VNum amount] => Ok (make address tokenId (toString10 amount))
  | _ => Err "TypeError"
  end.
Definition decodeAction (action : jsstring) : result DecodedAction :=
  first ← decodeAbi [TUint 8] action;
  match first with
  | [VNum type] =>
      if type =? 0 then decode_mint action MINT
      else if type =? 1 then decode_mint action BURN
      else if type =? 2 then
        values ← decodeAbi transferAbi action;
        match values with
        | [VNum _; VHex from; VHex to; VNum tokenId; VNum amount] => Ok (TRANSFER from to tokenId (toString10 amount))
        | _ => Err "TypeError"
        end
      else if type =? 3 then
        values ← decodeAbi fastMintAbi action;
        match values with
        | [VNum _; VHex to; VNum tokenId; VNum amount; VHex feeCalculator; VHex feeCalculatorData; VHex rateLimiter; VHex rateLimiterData] =>
            Ok (FAST_MINT to tokenId (toString10 amount) feeCalculator feeCalculatorData rateLimiter rateLimiterData)
        | _ => Err "TypeError"
        end
      else Err "Unsupported action type"
  | _ => Err "TypeError"
  end.

Definition pool_domain (chainId_ : Z) (pool : jsstring) : MessageDomain :=
  {| td_name := js "RelayFundingPool"; td_version := js "1"; td_chainId := chainId_; td_verifyingContract := pool |}.
Definition getFundingPoolWithdrawalHash (chainId_ : Z) (pool : jsstring) (w : FundingPoolWithdrawal) : result jsstring :=
  hashTypedDataOf (pool_domain chainId_ pool) fundingPoolWithdrawalTypes "PoolWithdrawal"
    [VHex (fw_account w); VHex (fw_token w); VNum (fw_amount w); VHex (fw_recipient w); VNum (fw_nonce w); VNum (fw_deadline w)].
Definition getFundingPoolSponsorshipConfigUpdateHash (chainId_ : Z) (pool : jsstring) (u : FundingPoolSponsorshipConfigUpdate) : result jsstring :=
  hashTypedDataOf (pool_domain chainId_ pool) fundingPoolSponsorshipConfigUpdateTypes "SponsorshipConfigUpdate"
    [VHex (fc_account u); VHex (fc_token u); VHex (fc_authorizer u); VNum (fc_perOrderCap u); VNum (fc_budget u); VNum (fc_expiry u);
     VNum (fc_nonce u); VNum (fc_deadline u)].
Definition getFundingPoolSponsorshipResolverUpdateHash (chainId_ : Z) (pool : jsstring) (u : FundingPoolSponsorshipResolverUpdate)
  : result jsstring :=
  hashTypedDataOf (pool_domain chainId_ pool) fundingPoolSponsorshipResolverUpdateTypes "SponsorshipResolverUpdate"
    [VHex (fr_account u); VHex (fr_resolver u); VBool (fr_allowed u); VNum (fr_nonce u); VNum (fr_deadline u)].
Definition getFundingPoolDrawAuthorizationHash (chainId_ : Z) (pool : jsstring) (a : FundingPoolDrawAuthorization) : result jsstring :=
  hashTypedDataOf (pool_domain chainId_ pool) fundingPoolDrawAuthorizationTypes "DrawAuthorization"
    [VHex (fd_account a); VHex (fd_orderAddress a)].

Definition pool_call_value (c : PoolResolverCall) : AbiVal := VTup [VHex (pc_to c); VHex (pc_data c)].
Definition draw_leg_value (leg : DrawLeg) : AbiVal :=
  VTup [VHex (dl_pool leg); VHex (dl_account leg); VNum (dl_kind leg); VHex (dl_tokenIn leg); VHex (dl_tokenOut leg); VNum (dl_amount leg);
    VNum (dl_amountOutMinimum leg); VArr (pool_call_value <$> dl_calls leg)].
Definition encodePoolDrawResolverExecution (execution : PoolDrawResolverExecution) : result jsstring :=
  encodeAbi poolDrawResolverExecutionAbi
    [VTup [VArr (draw_leg_value <$> pe_legs execution); VArr (pool_call_value <$> pe_calls execution); VHex (pe_salt execution)]].
Definition read_pool_call (v : AbiVal) : result PoolResolverCall :=
  match v with VTup [VHex to; VHex data] => Ok {| pc_to := to; pc_data := data |} | _ => Err "TypeError" end.
Definition read_draw_leg (v : AbiVal) : result DrawLeg :=
  match v with
  | VTup [VHex pool; VHex account; VNum kind; VHex tokenIn; VHex tokenOut; VNum amount; VNum amountOutMinimum; VArr calls] =>
      calls ← mapM read_pool_call calls;
      Ok {| dl_pool := pool; dl_account := account; dl_kind := kind; dl_tokenIn := tokenIn; dl_tokenOut := tokenOut; dl_amount := amount;
            dl_amountOutMinimum := amountOutMinimum; dl_calls := calls |}
  | _ => Err "TypeError"
  end.
Definition decodePoolDrawResolverExecution (data : jsstring) : result PoolDrawResolverExecution :=
  values ← decodeAbi poolDrawResolverExecutionAbi data;
  match values with
  | [VTup [VArr legs; VArr calls; VHex salt]] =>
      legs ← mapM read_draw_leg legs;
      calls ← mapM read_pool_call calls;
      Ok {| pe_legs := legs; pe_calls := calls; pe_salt := salt |}
  | _ => Err "TypeError"
  end.
Definition encodePoolDrawResolverData (executionData : jsstring) (authorizations : list jsstring) : result jsstring :=
  encodeAbi poolDrawResolverDataAbi [VHex executionData; VArr (VHex <$> authorizations)].
Definition read_hex (v : AbiVal) : result jsstring := match v with VHex s => Ok s | _ => Err "TypeError" end.
Definition decodePoolDrawResolverData (data : jsstring) : result (jsstring * list jsstring) :=
  values ← decodeAbi poolDrawResolverDataAbi data;
  match values with
  | [VHex executionData; VArr items] => authorizations ← mapM read_hex items; Ok (executionData, authorizations)
  | _ => Err "TypeError"
  end.
Definition getPoolDrawResolverCommitmentNonce (resolver executionData : jsstring) : result jsstring :=
  hash ← keccakHex executionData; packed ← packAddressHash resolver hash; keccakHex packed.

Definition encodeOrderCall (call : OrderCall) : result jsstring :=
  value ← BigInt (oc_value call);
  encodeAbi orderCallAbi [VTup [VHex (oc_to call)]; VTup [VHex (oc_data call)]; VTup [VNum value]].
Definition decodeOrderCall (call : jsstring) (vmType : SdkVm) : result OrderCall :=
  match vmType with
  | ethereum_vm =>
      match decodeAbi orderCallAbi call with
      | Ok [VTup [VHex to]; VTup [VHex data]; VTup [VNum value]] =>
          Ok {| oc_to := toLowerCase to; oc_data := toLowerCase data; oc_value := toString10 value |}
      | _ => Err "Failed to decode call"
      end
  | _ => Err "Unsupported vm type"
  end.
Definition encodeOrderExtraData (extraData : DecodedExtraData) : result jsstring :=
  match extraData with
  | EthereumExtraData fillContract => encodeAbi extraDataAbi [VTup [VHex fillContract]]
  | TronExtraData fillContract => tron_encodeAddress fillContract
  end.
Definition decodeOrderExtraData (extraData : jsstring) (vmType : SdkVm) : result DecodedExtraData :=
  match vmType with
  | ethereum_vm =>
      match decodeAbi extraDataAbi extraData with
      | Ok [VTup [VHex fillContract]] => Ok (EthereumExtraData (toLowerCase fillContract))
      | _ => Err "Failed to decode extra data"
      end
  | tron_vm =>
      match (hex ← tron_decodeAddress extraData; tronweb_fromHex hex) with
      | Ok fillContract => Ok (TronExtraData fillContract)
      | Err _ => Err "Failed to decode extra data"
      end
  | _ => Err "Unsupported vm type"
  end.
End Messages.

(** ** Withdraw requests, executions and pool plans

    The SDK and the allocator compute the same hash of a withdraw request, the
    hash binds the calls a routed withdrawal will make, hub actions and
    funding-pool plans read back, and a plan's nonce commits to its resolver
    and contents. *)

Local Open Scope Z_scope.
Local Open Scope js_scope.

(** ** The layout of a withdraw request *)

Lemma hex_value_bytes s l field : hex_value s = Some l -> hexToBytes s field = Ok l.
Proof.
  unfold hex_value. destruct (startsWith s (js "0x")); [|done]. destruct (hexToBytes s "hex") as [k|] eqn:E; [|done]. intros [= <-].
  apply hexToBytes_ok, normalizeHex_ok in E. by apply hexToBytes_ok, normalizeHex_ok.
Qed.

(** One dynamic field after another, and a static one between them. *)
Lemma enc_seq_one e : enc_seq [(true, e)] = word 32 ++ e.
Proof. unfold enc_seq, tails. cbn [parts_head foldr fst snd heads fmap list_fmap mjoin list_join]. by rewrite !app_nil_r. Qed.

Lemma request_seq e0 e1 e2 a e4 e5 e6 e7 n : length a = 32%nat -> length n = 32%nat ->
  let w l := word (288 + Z.of_nat (length (mjoin l))) in
  enc_seq [(true, e0); (true, e1); (true, e2); (false, a); (true, e4); (true, e5); (true, e6); (true, e7); (false, n)] =
  mjoin ([w []; w [e0]; w [e0; e1]; a; w [e0; e1; e2]; w [e0; e1; e2; e4]; w [e0; e1; e2; e4; e5]; w [e0; e1; e2; e4; e5; e6]; n] ++
         [e0; e1; e2; e4; e5; e6; e7]).
Proof.
  intros Ha Hn. unfold enc_seq, tails. cbn [heads fmap list_fmap fst snd mjoin list_join app]. rewrite ?app_nil_r.
  rewrite <- !app_assoc. rewrite !parts_head_cons. cbn [fst snd]. rewrite Ha, Hn. change (parts_head []) with 0%nat.
  rewrite !length_app. cbn [app length].
  repeat match goal with |- _ ++ _ = _ ++ _ => apply (f_equal2 app); [first [reflexivity|f_equal; lia]|] end. done.
Qed.

(** A request whose hex fields are hex strings and whose texts UTF-8 carries,
    with fields that fit in memory. *)
Definition hex_text (s : jsstring) : Prop := exists l, hex_value s = Some l /\ Z.of_nat (length l) < 2 ^ 64.
Definition chain_text (s : jsstring) : Prop := carried s /\ Z.of_nat (length (TextEncoder_encode s)) < 2 ^ 64.
Record request_shaped (r : WithdrawRequest) : Prop := {
  rs_depository : hex_text (depository r); rs_currency : hex_text (currency r); rs_spender : hex_text (spender r);
  rs_receiver : hex_text (receiver r); rs_data : hex_text (data r);
  rs_nonce : exists l, hex_value (nonce r) = Some l /\ length l = 32%nat;
  rs_chainId : chain_text (chainId r); rs_spenderChainId : chain_text (spenderChainId r) }.
(** And an amount that is not the empty text. *)
Definition request_spelled (r : WithdrawRequest) : Prop := request_shaped r /\ amount r <> [].
Definition fields_of (r : WithdrawRequest) (a : Z) : RequestFields := {|
  f_chainId := TextEncoder_encode (chainId r); f_depository := hex_bytes (depository r); f_currency := hex_bytes (currency r);
  f_amount := a; f_spenderChainId := TextEncoder_encode (spenderChainId r); f_spender := hex_bytes (spender r);
  f_receiver := hex_bytes (receiver r); f_data := hex_bytes (data r); f_nonce := hex_bytes (nonce r) |}.
Definition withdraw_value (r : WithdrawRequest) (a : Z) : AbiVal :=
  VTup [VText (chainId r); VHex (depository r); VHex (currency r); VNum a; VText (spenderChainId r); VHex (spender r); VHex (receiver r);
    VHex (data r); VHex (nonce r)].

Lemma withdraw_layout r a : length (hex_bytes (nonce r)) = 32%nat ->
  abi_encode withdrawRequestAbi [withdraw_value r a] = mjoin (chunks (fields_of r a)).
Proof.
  intros Hn. unfold abi_encode, withdrawRequestAbi, withdraw_value. cbn [zip_with snd dynamic existsb orb]. rewrite enc_seq_one.
  cbn [enc zip_with snd dynamic]. rewrite request_seq by (rewrite ?length_app, ?length_abi_word, ?Hn; done).
  change (zeros (32 - 32)) with (@nil byte). rewrite app_nil_r. reflexivity.
Qed.
Lemma hex_text_bytes s field : hex_text s -> hexToBytes s field = Ok (hex_bytes s).
Proof. intros (l & Hl & _). rewrite (hex_bytes_of s l Hl). by apply hex_value_bytes. Qed.
Lemma hex_text_length s : hex_text s -> Z.of_nat (length (hex_bytes s)) < 2 ^ 64.
Proof. intros (l & Hl & Hn). by rewrite (hex_bytes_of s l Hl). Qed.
Lemma spelled_nonce r : request_shaped r -> hexToBytes (nonce r) "nonce" = Ok (hex_bytes (nonce r)) /\ length (hex_bytes (nonce r)) = 32%nat.
Proof. intros H. destruct (rs_nonce r H) as (l & Hl & Hn). rewrite (hex_bytes_of _ l Hl). split; [by apply hex_value_bytes|done]. Qed.
Lemma spelled_amount r : request_spelled r -> parseQuantity (QString (amount r)) "amount" = BigInt (amount r).
Proof.
  intros [_ H]. unfold parseQuantity. cbn [quantityString]. destruct (amount r) as [|c s]; [done|]. done.
Qed.

Lemma requestFields_spelled r f : request_spelled r ->
  requestFields r = Ok f <-> exists a, BigInt (amount r) = Ok a /\ f = fields_of r a.
Proof.
  intros H. unfold requestFields. rewrite spelled_amount by done. destruct H as [[H1 H2 H3 H4 H5 H6 _ _] _].
  rewrite (hex_text_bytes _ _ H1), (hex_text_bytes _ _ H2), (hex_text_bytes _ _ H3), (hex_text_bytes _ _ H4), (hex_text_bytes _ _ H5). cbn [mbind result_bind]. destruct H6 as (n & Hn & _). rewrite (hex_value_bytes _ _ _ Hn). cbn [mbind result_bind].
  unfold fields_of. rewrite (hex_bytes_of _ n Hn). destruct (BigInt (amount r)) as [a|]; cbn [mbind result_bind]; [|by split; [|intros (? & ? & _)]].
  split; [intros E; injection E as <-; eauto|by intros (b & [= <-] & ->)].
Qed.

Lemma spelled_lengths r a : request_shaped r -> Forall (fun l => Z.of_nat (length l) < 2 ^ 64) (dyn_fields (fields_of r a)).
Proof.
  intros [H1 H2 H3 H4 H5 _ [_ H7] [_ H8]]. repeat constructor; cbn [fields_of f_chainId f_depository f_currency f_spenderChainId f_spender f_receiver f_data];
    first [done|by apply hex_text_length].
Qed.
Lemma parts_short ls : Forall (fun l => Z.of_nat (length l) < 2 ^ 64) ls ->
  Z.of_nat (length (mjoin (enc_part <$> ls))) <= Z.of_nat (length ls) * 2 ^ 65.
Proof.
  induction 1 as [|l ls Hl _ IH]; [done|]. change (mjoin (enc_part <$> l :: ls)) with (enc_part l ++ mjoin (enc_part <$> ls)).
  rewrite length_app. cbn [length]. unfold enc_part at 1, zeros. rewrite !length_app, length_word_loop, length_replicate.
  pose proof (padded_length_le l). lia.
Qed.
Lemma spelled_fits r a : request_shaped r -> 0 <= a < 2 ^ 256 ->
  fields_ok (fields_of r a) /\ Z.of_nat (length (mjoin (chunks (fields_of r a)))) < 2 ^ 256.
Proof.
  intros H Ha. pose proof (spelled_lengths r a H) as Hl. pose proof (spelled_nonce r H) as [_ Hn]. assert (fields_ok (fields_of r a)) as Hf.
  { split; [done|done|eapply Forall_impl; [exact Hl|]; cbn beta; lia|]. intros k Hk. unfold tail_offset. rewrite <- fmap_take.
    pose proof (parts_short (take k (dyn_fields (fields_of r a))) ltac:(by apply Forall_take)) as Hp. rewrite length_take in Hp. lia. }
  split; [done|]. change (chunks (fields_of r a)) with (take 10 (chunks (fields_of r a)) ++ (enc_part <$> dyn_fields (fields_of r a))).
  rewrite join_app, length_app, (head_chunk_length _ Hf 9) by lia. pose proof (parts_short _ Hl) as Hp. cbn [dyn_fields length] in Hp. lia.
Qed.

Section Hash.
Context `{A : SdkAbi} {keccak : bytes -> bytes} {checksum : jsstring -> jsstring} {selector : string -> list AbiTy -> bytes}.
Context `{AL : !SdkAbiLaws A keccak checksum selector}.

Lemma withdraw_typed strict r a : request_shaped r -> (strict = true -> 0 <= a < 2 ^ 256) ->
  Forall2 (typed_in strict) withdrawRequestAbi [withdraw_value r a].
Proof using.
  intros [(l1 & H1 & _) (l2 & H2 & _) (l3 & H3 & _) (l4 & H4 & _) (l5 & H5 & _) (l6 & H6 & Hn) [H7 _] [H8 _]] Ha.
  constructor; [|constructor]. apply typed_tuple. repeat apply List.Forall2_cons; cbn [snd];
    first [by apply List.Forall2_nil|by eapply typed_bytes|by eapply typed_fixed; [| |lia]|by apply typed_string|by apply typed_uint].
Qed.
Lemma allocator_hash r h : request_spelled r -> computeWithdrawRequestHash keccak r = Ok h <->
  exists a, BigInt (amount r) = Ok a /\ 0 <= a < 2 ^ 256 /\ h = keccak (mjoin (chunks (fields_of r a))).
Proof using.
  intros H. unfold computeWithdrawRequestHash. rewrite bind_ok. split.
  - intros (e & He & Ek). injection Ek as <-. apply encode_layout in He as (f & Hf & Hok & ->). apply requestFields_spelled in Hf as (a & Ea & ->); [|done].
    exists a. split_and!; try done; apply (fo_amount _ Hok).
  - intros (a & Ea & Hr & ->). eexists. split; [|reflexivity]. apply encode_total; [|apply spelled_fits; [apply H|done]].
    apply requestFields_spelled; eauto.
Qed.
Lemma sdk_hash r h : request_shaped r -> getWithdrawRequestHash r = Ok h <->
  exists a, BigInt (amount r) = Ok a /\ 0 <= a < 2 ^ 256 /\ h = hex0x (keccak (mjoin (chunks (fields_of r a)))).
Proof using AL.
  intros H. unfold getWithdrawRequestHash. fold withdrawRequestAbi. destruct (spelled_nonce r H) as [_ Hn].
  assert (forall a, 0 <= a < 2 ^ 256 -> encodeAbi withdrawRequestAbi [withdraw_value r a] = Ok (hex0x (mjoin (chunks (fields_of r a))))) as Henc.
  { intros a Ha. rewrite <- withdraw_layout by done. apply encode_law. split; [by apply withdraw_typed|].
    rewrite withdraw_layout by done. by apply spelled_fits. }
  destruct (BigInt (amount r)) as [a|] eqn:Ea; cbn [mbind result_bind]; [|by split; [|intros (? & ? & _)]]. fold (withdraw_value r a). split.
  - intros E. apply bind_ok in E as (s & Hs & E). assert (0 <= a < 2 ^ 256) as Hr.
    { apply range_law in Hs as [Hs _]; [|by apply withdraw_typed]. inversion_clear Hs as [|? ? ? ? Ht _]. inversion_clear Ht as [| | | | | | |? ? Hl].
      do 3 (inversion Hl as [|? ? ? ? _ Hl']; subst; clear Hl; rename Hl' into Hl). inversion_clear Hl as [|? ? ? ? Hu _].
      cbn in Hu. inversion_clear Hu as [? ? _ Hb| | | | | | |]. by apply Hb. }
    rewrite Henc in Hs by done. assert (s = hex0x (mjoin (chunks (fields_of r a)))) as -> by congruence.
    rewrite (keccakHex_law _ _ (hex_value_hex0x _)) in E. exists a. split_and!; congruence || lia.
  - intros (b & [= <-] & Hr & ->). rewrite Henc by done. cbn [mbind result_bind]. apply keccakHex_law, hex_value_hex0x.
Qed.

(** The allocator's quantities are never the empty text. *)
Lemma empty_amount_refused r : amount r = [] -> forall h, computeWithdrawRequestHash keccak r <> Ok h.
Proof using.
  intros Ha h E. unfold computeWithdrawRequestHash in E. apply bind_ok in E as (e & He & _). apply encode_layout in He as (f & Hf & _).
  unfold requestFields in Hf. rewrite Ha in Hf. change (parseQuantity (QString []) "amount") with (@Err Z "invalid quantity for amount") in Hf.
  repeat (apply bind_ok in Hf as (? & ? & Hf); try discriminate).
Qed.

(** C20: The SDK's hash of a withdraw request, through viem's encoder, and the
    allocator's, through its own one, are the same for a request whose hex
    fields are hex, whose texts UTF-8 carries and whose fields fit in memory:
    one exists when the other does, also for amounts that are out of range or
    no numbers.  The one exception is the empty amount, which the SDK hashes as
    zero and the allocator refuses. *)
Theorem withdraw_hash_agrees r : request_shaped r ->
  (forall h, computeWithdrawRequestHash keccak r = Ok h <-> amount r <> [] /\ getWithdrawRequestHash r = Ok (hex0x h)) /\
  (amount r = [] -> exists h, getWithdrawRequestHash r = Ok h).
Proof using AL.
  intros H. split.
  - intros h. destruct (amount r) as [|c s] eqn:Ea.
    + split; [intros E; by apply empty_amount_refused in E|by intros [? _]].
    + assert (amount r <> []) as Hne by (rewrite Ea; done). rewrite (allocator_hash r h (conj H Hne)), sdk_hash by done.
      split; [intros (a & ? & ? & ->); split; [done|by exists a]|intros (_ & a & ? & ? & E); exists a; split_and!; try done; try lia; by apply hex0x_inj].
  - intros Ea. eexists. apply sdk_hash; [done|]. exists 0. rewrite Ea. split_and!; [reflexivity|lia|lia|reflexivity].
Qed.
End Hash.

(** ** Canonical values *)

(** viem ignores the bytes after the encoded parameters. *)
Class TrailingLaw (A : SdkAbi) (checksum : jsstring -> jsstring) : Prop :=
  decode_trailing ts vs rest : abi_typed ts vs -> decodeAbi ts (hex0x (abi_encode ts vs ++ rest)) = Ok (zip_with (canon checksum) vs ts).
(** [encodePacked] of an address and a hash is their bytes. *)
Class PackLaw (ML : MessageLibs) : Prop :=
  pack_law a h l k : hex_value a = Some l -> length l = 20%nat -> hex_value h = Some k -> length k = 32%nat ->
    packAddressHash a h = Ok (hex0x (l ++ k)).

Lemma first_word bits n ts vs : exists rest, abi_encode (TUint bits :: ts) (VNum n :: vs) = abi_encode [TUint bits] [VNum n] ++ rest.
Proof.
  unfold abi_encode, enc_seq, tails. cbn [zip_with dynamic enc heads fmap list_fmap fst snd mjoin list_join app]. rewrite !app_nil_r.
  rewrite <- app_assoc. eauto.
Qed.

Section Roundtrips.
Context `{A : SdkAbi, ML : MessageLibs, L : SdkLibs} {keccak : bytes -> bytes} {checksum : jsstring -> jsstring}.
Context {selector : string -> list AbiTy -> bytes} `{AL : !SdkAbiLaws A keccak checksum selector}.

(** Values of the types, spelled as viem spells decoded ones. *)
Definition abi_canonical (ts : list AbiTy) (vs : list AbiVal) : Prop := abi_typed ts vs /\ zip_with (canon checksum) vs ts = vs.
Lemma canonical_decodes ts vs : abi_canonical ts vs ->
  encodeAbi ts vs = Ok (hex0x (abi_encode ts vs)) /\ decodeAbi ts (hex0x (abi_encode ts vs)) = Ok vs.
Proof using AL. intros [Ht Hc]. split; [by apply encode_law|]. by rewrite decode_law, Hc. Qed.

(** ** Hub actions *)

Definition action_amount (a : DecodedAction) : jsstring :=
  match a with MINT _ _ x | BURN _ _ x | TRANSFER _ _ _ x | FAST_MINT _ _ x _ _ _ _ => x end.
Definition action_abi (a : DecodedAction) : list AbiTy :=
  match a with MINT _ _ _ | BURN _ _ _ => mintAbi | TRANSFER _ _ _ _ => transferAbi | FAST_MINT _ _ _ _ _ _ _ => fastMintAbi end.
(** The parameters after the type of the action. *)
Definition action_values (a : DecodedAction) (n : Z) : list AbiVal :=
  match a with
  | MINT to id _ | BURN to id _ => [VHex to; VNum id; VNum n]
  | TRANSFER from to id _ => [VHex from; VHex to; VNum id; VNum n]
  | FAST_MINT to id _ c cd r rd => [VHex to; VNum id; VNum n; VHex c; VHex cd; VHex r; VHex rd]
  end.
Definition action_ok (a : DecodedAction) : Prop :=
  exists n, 0 <= n /\ action_amount a = toString10 n /\ abi_canonical (action_abi a) (VNum (ActionType a) :: action_values a n).

Lemma action_encode a n : 0 <= n -> action_amount a = toString10 n ->
  encodeAction a = encodeAbi (action_abi a) (VNum (ActionType a) :: action_values a n).
Proof using.
  intros Hn Ha. destruct a; cbn [action_amount] in Ha; subst; unfold encodeAction; by rewrite BigInt_toString10 by done.
Qed.
Context `{TL : !TrailingLaw A checksum}.
Lemma action_type_read a vs : Forall2 typed (action_abi a) (VNum (ActionType a) :: vs) ->
  decodeAbi [TUint 8] (hex0x (abi_encode (action_abi a) (VNum (ActionType a) :: vs))) = Ok [VNum (ActionType a)].
Proof using TL.
  intros _. assert (exists ts, action_abi a = TUint 8 :: ts) as (ts & ->) by (destruct a; eauto).
  destruct (first_word 8 (ActionType a) ts vs) as (rest & ->). rewrite decode_trailing; [done|]. split.
  - repeat constructor; destruct a; cbn; lia.
  - unfold abi_encode, enc_seq, tails. cbn. done.
Qed.
(** Hub actions read back: every action, spelled with checksummed addresses and
    a decimal amount, encodes, and its encoding decodes to it; the type tag the
    decoder reads first selects the layout it was written with. *)
Theorem action_roundtrip a : action_ok a -> exists s, encodeAction a = Ok s /\ decodeAction s = Ok a.
Proof using AL TL.
  intros (n & Hn & Ha & Hc). destruct (canonical_decodes _ _ Hc) as [He Hd]. eexists. rewrite (action_encode a n Hn Ha). split; [exact He|].
  unfold decodeAction. rewrite action_type_read by apply Hc. cbn [mbind result_bind].
  destruct a; cbn [action_amount ActionType action_abi action_values] in *; cbn [Z.eqb Pos.eqb]; unfold decode_mint; rewrite Hd; by rewrite Ha.
Qed.

(** ** Funding-pool plans *)

Definition execution_values (e : PoolDrawResolverExecution) : list AbiVal :=
  [VTup [VArr (draw_leg_value <$> pe_legs e); VArr (pool_call_value <$> pe_calls e); VHex (pe_salt e)]].
Definition execution_ok (e : PoolDrawResolverExecution) : Prop := abi_canonical poolDrawResolverExecutionAbi (execution_values e).

Lemma read_calls (calls : list PoolResolverCall) : mapM read_pool_call (pool_call_value <$> calls) = Ok calls.
Proof using. rewrite (mapM_fmap_ok _ _ id), list_fmap_id; [done|]. by intros [to d] _. Qed.
Lemma read_legs (legs : list DrawLeg) : mapM read_draw_leg (draw_leg_value <$> legs) = Ok legs.
Proof using.
  rewrite (mapM_fmap_ok _ _ id), list_fmap_id; [done|]. intros [pool account kind tin tout amt amin calls] _.
  unfold draw_leg_value. cbn [read_draw_leg dl_pool dl_account dl_kind dl_tokenIn dl_tokenOut dl_amount dl_amountOutMinimum dl_calls].
  by rewrite read_calls.
Qed.
Lemma execution_values_inj e1 e2 : execution_values e1 = execution_values e2 -> e1 = e2.
Proof using.
  destruct e1 as [l1 c1 s1], e2 as [l2 c2 s2]. unfold execution_values. cbn [pe_legs pe_calls pe_salt]. intros E.
  assert (forall X Y (x y : list X) (f : X -> Y) g, mapM g (f <$> x) = Ok x -> mapM g (f <$> y) = Ok y -> f <$> x = f <$> y -> x = y) as Hinj
    by (intros; congruence).
  injection E as El Ec ->. f_equal; [apply (Hinj _ _ _ _ draw_leg_value read_draw_leg)|apply (Hinj _ _ _ _ pool_call_value read_pool_call)];
    first [apply read_legs|apply read_calls|done].
Qed.

(** A plan of draws reads back leg by leg, and the resolver's data reads back
    with it. *)
Theorem pool_execution_roundtrip e authorizations : execution_ok e ->
  exists s, encodePoolDrawResolverExecution e = Ok s /\ decodePoolDrawResolverExecution s = Ok e /\
    (abi_canonical poolDrawResolverDataAbi [VHex s; VArr (VHex <$> authorizations)] ->
     exists d, encodePoolDrawResolverData s authorizations = Ok d /\ decodePoolDrawResolverData d = Ok (s, authorizations)).
Proof using AL.
  intros He. destruct (canonical_decodes _ _ He) as [E1 E2]. eexists. split_and!; [exact E1| |].
  - unfold decodePoolDrawResolverExecution. rewrite E2. unfold execution_values. cbn [mbind result_bind]. rewrite read_legs. cbn [mbind result_bind].
    rewrite read_calls. cbn [mbind result_bind]. by destruct e.
  - intros Hd. destruct (canonical_decodes _ _ Hd) as [D1 D2]. eexists. split; [exact D1|]. unfold decodePoolDrawResolverData. rewrite D2.
    cbn [mbind result_bind]. rewrite (mapM_fmap_ok _ _ id), list_fmap_id by done. done.
Qed.

Context `{PL : !PackLaw ML}.
Lemma commitment_nonce resolver l e : hex_value resolver = Some l -> length l = 20%nat -> execution_ok e ->
  exists d, encodePoolDrawResolverExecution e = Ok d /\
    getPoolDrawResolverCommitmentNonce resolver d =
      Ok (hex0x (keccak (l ++ keccak (abi_encode poolDrawResolverExecutionAbi (execution_values e))))).
Proof using AL PL.
  intros Hl Hn He. destruct (canonical_decodes _ _ He) as [E1 _]. eexists. split; [exact E1|]. unfold getPoolDrawResolverCommitmentNonce.
  rewrite (keccakHex_law _ _ (hex_value_hex0x _)). cbn [mbind result_bind].
  rewrite (pack_law _ _ _ _ Hl Hn (hex_value_hex0x _) (keccakHex_length _)). cbn [mbind result_bind]. apply keccakHex_law, hex_value_hex0x.
Qed.
(** C21: The nonce of a pool draw commits to the resolver and to the whole plan: two
    plans with the same nonce have the same resolver and are equal, leg by leg
    and call by call, or they exhibit a Keccak collision. *)
Theorem pool_nonce_commits r1 r2 l1 l2 e1 e2 d1 d2 nonce_ :
  hex_value r1 = Some l1 -> length l1 = 20%nat -> hex_value r2 = Some l2 -> length l2 = 20%nat -> execution_ok e1 -> execution_ok e2 ->
  encodePoolDrawResolverExecution e1 = Ok d1 -> encodePoolDrawResolverExecution e2 = Ok d2 ->
  getPoolDrawResolverCommitmentNonce r1 d1 = Ok nonce_ -> getPoolDrawResolverCommitmentNonce r2 d2 = Ok nonce_ ->
  (toLowerCase r1 = toLowerCase r2 /\ e1 = e2) \/ collision (keccak := keccak).
Proof using AL PL.
  intros H1 N1 H2 N2 E1 E2 D1 D2 G1 G2.
  destruct (commitment_nonce r1 l1 e1 H1 N1 E1) as (d1' & D1' & G1'), (commitment_nonce r2 l2 e2 H2 N2 E2) as (d2' & D2' & G2').
  assert (d1' = d1) as -> by congruence. assert (d2' = d2) as -> by congruence. rewrite G1 in G1'. rewrite G2 in G2'. rewrite G1' in G2'.
  assert (keccak (l1 ++ keccak (abi_encode poolDrawResolverExecutionAbi (execution_values e1))) =
          keccak (l2 ++ keccak (abi_encode poolDrawResolverExecutionAbi (execution_values e2)))) as E by (apply hex0x_inj; congruence).
  apply keccak_binds in E as [E|]; [|by right]. apply app_inj_1 in E as [-> E]; [|lia]. apply keccak_binds in E as [E|]; [left|by right].
  split; [by rewrite (hex_value_lower r1 l2), (hex_value_lower r2 l2)|]. destruct E1 as [T1 C1], E2 as [T2 C2].
  apply (abi_encode_inj checksum checksum_value) in E; [|done|done]. rewrite C1, C2 in E. by apply execution_values_inj.
Qed.

(** ** Order calls and extra data *)

(** Calls of an order and its fill contract read back in lower case. *)
Theorem order_call_roundtrip to d v : length to = 20%nat -> 0 <= v < 2 ^ 256 -> Z.of_nat (length d) < 2 ^ 64 ->
  (exists s, let c := {| oc_to := hex0x to; oc_data := hex0x d; oc_value := toString10 v |} in
     encodeOrderCall c = Ok s /\ decodeOrderCall s ethereum_vm = Ok c) /\
  (exists s, encodeOrderExtraData (EthereumExtraData (hex0x to)) = Ok s /\
     decodeOrderExtraData s ethereum_vm = Ok (EthereumExtraData (hex0x to))).
Proof using AL.
  intros Ht Hv Hd. pose proof (hex_value_hex0x to) as Hto. pose proof (hex_value_hex0x d) as Hda. split.
  - assert (abi_typed orderCallAbi [VTup [VHex (hex0x to)]; VTup [VHex (hex0x d)]; VTup [VNum v]]) as Hty.
    { split.
      - repeat (apply List.Forall2_cons || apply List.Forall2_nil || apply typed_tuple); cbn [snd];
          [by eapply typed_address|by eapply typed_bytes|by apply typed_uint].
      - unfold abi_encode, orderCallAbi. cbn [zip_with dynamic existsb snd orb enc]. rewrite length_enc_seq, !parts_head_cons. cbn [fst snd].
        unfold tails. cbn [fmap list_fmap fst snd mjoin list_join]. rewrite app_nil_r. cbn [app].
        rewrite !length_enc_seq, !parts_head_cons. unfold tails. cbn [fst snd fmap list_fmap mjoin list_join].
        rewrite !app_nil_r, length_app, length_abi_word, !hex_bytes_hex0x, Ht. unfold zeros. rewrite length_replicate.
        change (parts_head []) with 0%nat. cbn [length]. pose proof (parts_short [d] ltac:(by repeat constructor)) as Hp.
        cbn [fmap list_fmap mjoin list_join length] in Hp. rewrite app_nil_r in Hp. lia. }
    eexists. cbn zeta. unfold encodeOrderCall. cbn [oc_value oc_to oc_data]. rewrite BigInt_toString10 by lia. cbn [mbind result_bind].
    split; [by apply encode_law|]. unfold decodeOrderCall. rewrite decode_law by done. unfold orderCallAbi. cbn [zip_with canon snd].
    by rewrite !hex_bytes_hex0x, checksum_lower, hex0x_lower.
  - assert (abi_typed extraDataAbi [VTup [VHex (hex0x to)]]) as Hty.
    { split.
      - repeat (apply List.Forall2_cons || apply List.Forall2_nil || apply typed_tuple); cbn [snd]. by eapply typed_address.
      - unfold abi_encode, extraDataAbi. cbn [zip_with dynamic existsb snd orb enc]. rewrite !length_enc_seq, !parts_head_cons. cbn [fst snd].
        rewrite !length_enc_seq, !parts_head_cons. unfold tails. cbn [fst snd fmap list_fmap mjoin list_join].
        rewrite length_app, hex_bytes_hex0x, Ht. unfold zeros. rewrite length_replicate. change (parts_head []) with 0%nat. cbn [length app]. lia. }
    eexists. split; [by apply encode_law|]. unfold decodeOrderExtraData. rewrite decode_law by done. unfold extraDataAbi.
    cbn [zip_with canon snd]. by rewrite !hex_bytes_hex0x, checksum_lower.
Qed.
End Roundtrips.

(** ** Routed withdrawals *)

Section Routed.
Context `{A : SdkAbi, V : Viem, L : SdkLibs, ML : MessageLibs} {keccak : bytes -> bytes} {checksum : jsstring -> jsstring}.
Context {selector : string -> list AbiTy -> bytes} `{AL : !SdkAbiLaws A keccak checksum selector}.

Lemma hash_fields r1 r2 h : request_spelled r1 -> request_spelled r2 ->
  getWithdrawRequestHash r1 = Ok h -> getWithdrawRequestHash r2 = Ok h ->
  (exists f, requestFields r1 = Ok f /\ requestFields r2 = Ok f) \/ collision (keccak := keccak).
Proof using AL.
  intros S1 S2 G1 G2. apply sdk_hash in G1 as (a1 & A1 & R1 & ->); [|apply S1]. apply sdk_hash in G2 as (a2 & A2 & R2 & E); [|apply S2].
  apply hex0x_inj, keccak_binds in E as [E|]; [left|by right]. exists (fields_of r1 a1). split; [apply requestFields_spelled; eauto|].
  rewrite <- (abi_decode_chunks (fields_of r1 a1)) by (by apply spelled_fits, R1; apply S1). rewrite E, abi_decode_chunks by (by apply spelled_fits, R2; apply S2).
  apply requestFields_spelled; eauto.
Qed.

Definition routed_value (c : RoutedCall) (n : Z) : AbiVal := VTup [VHex (rc_to c); VHex (rc_data c); VNum n; VBool (rc_allowFailure c)].
(** The calls with their amounts, and a router address. *)
Record routed_ok (x : EthereumVmWithdrawRequestAdditionalData) (ns : list Z) (router : bytes) : Prop := {
  ro_amounts : Forall2 (fun c n => 0 <= n /\ rc_value c = toString10 n) (ea_calls x) ns;
  ro_values : abi_canonical (checksum := checksum) [TArray callTuple] [VArr (zip_with routed_value (ea_calls x) ns)];
  ro_router : hex_value (ea_router x) = Some router;
  ro_router_length : length router = 20%nat }.

Lemma routed_items calls ns : Forall2 (fun c n => 0 <= n /\ rc_value c = toString10 n) calls ns ->
  mapM (fun call => value ← BigInt (rc_value call);
    Ok (VTup [VHex (rc_to call); VHex (rc_data call); VNum value; VBool (rc_allowFailure call)])) calls = Ok (zip_with routed_value calls ns).
Proof using.
  induction 1 as [|c n calls ns [Hn Hc] _ IH]; [done|]. cbn [mapM zip_with]. rewrite Hc, BigInt_toString10 by done. cbn [mbind result_bind].
  by rewrite IH.
Qed.
Lemma routed_items_inj calls1 ns1 calls2 ns2 : Forall2 (fun c n => 0 <= n /\ rc_value c = toString10 n) calls1 ns1 ->
  Forall2 (fun c n => 0 <= n /\ rc_value c = toString10 n) calls2 ns2 ->
  zip_with routed_value calls1 ns1 = zip_with routed_value calls2 ns2 -> calls1 = calls2.
Proof using.
  intros H. revert calls2 ns2. induction H as [|c n calls ns [_ Hc] _ IH]; intros calls2 ns2 H2 E; destruct H2 as [|c2 n2 calls2 ns2 [_ Hc2] H2];
    [done..|]. cbn [zip_with] in E. injection E as E1 E2 E3 E4 E. f_equal; [|by eapply IH].
  destruct c, c2. cbn in *. congruence.
Qed.
Lemma routed_encoded x ns router s : routed_ok x ns router -> routed_additional x = Ok s ->
  exists v, abi_typed routedWithdrawalDataAbiParams [VTup [VNum 1; VHex (ea_router x); VHex v]] /\
    hex_value v = Some (keccak (selector "multicall" [TArray callTuple] ++
      abi_encode [TArray callTuple] [VArr (zip_with routed_value (ea_calls x) ns)])) /\
    s = hex0x (abi_encode routedWithdrawalDataAbiParams [VTup [VNum 1; VHex (ea_router x); VHex v]]).
Proof using AL.
  intros [Ha Hv Hr Hl] H. unfold routed_additional, hashRoutedCalls, encodeRoutedCallsCalldata in H.
  apply bind_ok in H as (dh & Hdh & H). apply bind_ok in Hdh as (cd & Hcd & Hdh). apply bind_ok in Hcd as (u & _ & Hcd).
  rewrite (routed_items _ _ Ha) in Hcd. cbn [mbind result_bind] in Hcd. rewrite call_law in Hcd by apply Hv.
  assert (cd = hex0x (selector "multicall" [TArray callTuple] ++ abi_encode [TArray callTuple] [VArr (zip_with routed_value (ea_calls x) ns)]))
    as -> by congruence. clear Hcd. rewrite (keccakHex_law _ _ (hex_value_hex0x _)) in Hdh.
  exists dh. assert (hex_value dh = Some (keccak (selector "multicall" [TArray callTuple] ++
      abi_encode [TArray callTuple] [VArr (zip_with routed_value (ea_calls x) ns)]))) as Hd.
  { match type of Hdh with Ok ?t = _ => assert (dh = t) as -> by congruence end. apply hex_value_hex0x. }
  unfold encodeRoutedWithdrawalData in H. cbn [rd_version rd_router rd_dataHash] in H. apply bind_ok in H as (u' & _ & H).
  change ROUTED_WITHDRAWAL_DATA_VERSION with 1 in H.
  assert (abi_typed routedWithdrawalDataAbiParams [VTup [VNum 1; VHex (ea_router x); VHex dh]]) as Ht.
  { eapply range_law; [|exact H]. constructor; [|constructor]. apply typed_tuple. repeat apply List.Forall2_cons; cbn [snd];
      [by apply typed_uint|by eapply typed_address|eapply typed_fixed; [exact Hd|apply keccakHex_length|lia]|constructor]. }
  split_and!; [done|done|]. rewrite encode_law in H by done. congruence.
Qed.
Lemma routed_binds x1 x2 ns1 ns2 t1 t2 s : routed_ok x1 ns1 t1 -> routed_ok x2 ns2 t2 ->
  routed_additional x1 = Ok s -> routed_additional x2 = Ok s ->
  (t1 = t2 /\ ea_calls x1 = ea_calls x2) \/ collision (keccak := keccak).
Proof using AL.
  intros H1 H2 E1 E2. apply (routed_encoded _ _ _ _ H1) in E1 as (v1 & T1 & V1 & ->). apply (routed_encoded _ _ _ _ H2) in E2 as (v2 & T2 & V2 & E).
  apply hex0x_inj, (abi_encode_inj checksum checksum_value) in E; [|done|done]. destruct H1 as [A1 [Y1 C1] R1 L1], H2 as [A2 [Y2 C2] R2 L2].
  unfold routedWithdrawalDataAbiParams in E. cbn [zip_with canon snd] in E.
  rewrite (hex_bytes_of _ _ R1), (hex_bytes_of _ _ R2), (hex_bytes_of _ _ V1), (hex_bytes_of _ _ V2) in E.
  assert (forall a b c d, [VTup [VNum 1; VHex a; VHex b]] = [VTup [VNum 1; VHex c; VHex d]] -> a = c /\ b = d) as Hin by (intros; split; congruence).
  apply Hin in E as [Er Eh]. apply hex0x_inj, keccak_binds in Eh as [Eh|]; [left|by right].
  assert (t1 = t2) as -> by (apply (f_equal hex_value) in Er; rewrite !checksum_value in Er; congruence). split; [done|].
  apply app_inv_head, (abi_encode_inj checksum checksum_value) in Eh; [|done|done]. rewrite C1, C2 in Eh.
  eapply routed_items_inj; [exact A1|exact A2|]. congruence.
Qed.

Definition routed_request (d : DenormalizedWithdrawRequest) (x : EthereumVmWithdrawRequestAdditionalData) : Prop :=
  dw_vmType d = ethereum_vm /\ dw_additionalData d ≫= wa_ethereum = Some x.
Lemma normalize_data d x r : routed_request d x -> normalizeWithdrawRequest d = Ok r -> routed_additional x = Ok (data r).
Proof using.
  intros [Hv Hx] H. unfold normalizeWithdrawRequest in H. rewrite Hv in H. do 4 apply bind_ok in H as (? & _ & H).
  apply bind_ok in H as (dat & Hd & H). cbn [encodeWithdrawRequestAdditionalData] in Hd. rewrite Hx in Hd. injection H as <-. exact Hd.
Qed.

(** The hash that the oracles attest to binds a routed withdrawal: two requests
    with the same hash have the same nine fields and release the same calls, in
    order, through the same router, or they exhibit a Keccak collision. *)
Theorem withdraw_hash_binds_calls d1 d2 x1 x2 ns1 ns2 t1 t2 r1 r2 h : routed_request d1 x1 -> routed_request d2 x2 ->
  routed_ok x1 ns1 t1 -> routed_ok x2 ns2 t2 ->
  normalizeWithdrawRequest d1 = Ok r1 -> normalizeWithdrawRequest d2 = Ok r2 -> request_spelled r1 -> request_spelled r2 ->
  getWithdrawRequestHash r1 = Ok h -> getWithdrawRequestHash r2 = Ok h ->
  ((exists f, requestFields r1 = Ok f /\ requestFields r2 = Ok f) /\ toLowerCase (ea_router x1) = toLowerCase (ea_router x2) /\
    ea_calls x1 = ea_calls x2) \/ collision (keccak := keccak).
Proof using AL.
  intros Q1 Q2 O1 O2 N1 N2 S1 S2 G1 G2. destruct (hash_fields r1 r2 h S1 S2 G1 G2) as [(f & F1 & F2)|]; [|by right].
  pose proof (normalize_data _ _ _ Q1 N1) as D1. pose proof (normalize_data _ _ _ Q2 N2) as D2.
  assert (data r1 = data r2) as Ed.
  { destruct (routed_encoded _ _ _ _ O1 D1) as (v1 & _ & _ & E1), (routed_encoded _ _ _ _ O2 D2) as (v2 & _ & _ & E2).
    apply requestFields_spelled in F1 as (a1 & _ & ->); [|done]. apply requestFields_spelled in F2 as (a2 & _ & F2); [|done].
    apply (f_equal f_data) in F2. cbn [fields_of f_data] in F2. rewrite E1, E2, !hex_bytes_hex0x in F2. by rewrite E1, E2, F2. }
  rewrite Ed in D1. destruct (routed_binds _ _ _ _ _ _ _ O1 O2 D1 D2) as [[-> Ec]|]; [left|by right]. split_and!; [eauto| |done].
  by rewrite (hex_value_lower _ _ (ro_router _ _ _ O1)), (hex_value_lower _ _ (ro_router _ _ _ O2)).
Qed.
End Routed.

(** ** Concrete messages *)

Section Concrete.
Definition toy_message_libs : MessageLibs := {|
  toOutputScript := fun _ => Ok (x00 :: x14 :: replicate 20 x33);
  hashTypedDataOf := fun _ _ name _ => Ok (js name);
  tron_encodeAddress := fun s => Ok s; tron_decodeAddress := fun s => Ok s;
  packAddressHash := fun a h => l ← require (hex_value a) "address"; k ← require (hex_value h) "bytes32"; Ok (hex0x (l ++ k)) |}.
Lemma toy_pack_law : PackLaw toy_message_libs.
Proof using. intros a h l k Ha _ Hh _. cbn [packAddressHash toy_message_libs]. by rewrite Ha, Hh. Qed.
Lemma toy_trailing_law : TrailingLaw toy_abi id.
Proof using.
  intros ts vs rest H. cbn [decodeAbi toy_abi]. rewrite hex_value_hex0x. cbn [require mbind result_bind].
  by rewrite (abi_roundtrip id hex_value_hex0x ts vs rest H).
Qed.
(** Concrete values are canonical by evaluation. *)
Lemma canonical_eval ts vs : all_typed true ts vs && (Z.of_nat (length (abi_encode ts vs)) <? 2 ^ 256) = true ->
  zip_with (canon id) vs ts = vs -> abi_canonical (checksum := id) ts vs.
Proof using. intros [H1 H2]%andb_true_iff Hc. split; [|done]. split; [by apply all_typed_spec|lia]. Qed.

Definition toy_withdraw : WithdrawRequest := {|
  chainId := js "base"; depository := js "0x59"; currency := js "0x"; amount := js "123456789"; spenderChainId := js "relay";
  spender := js "0xAbCd"; receiver := js "0xef01"; data := js "0x0102"; nonce := hex0x (replicate 32 x07) |}.
Definition spelledb (r : WithdrawRequest) : bool :=
  forallb (fun s => hex_sized s (fun n => Z.of_nat n <? 2 ^ 64)) [depository r; currency r; spender r; receiver r; data r] &&
  hex_sized (nonce r) (Nat.eqb 32) &&
  forallb (fun s => bool_decide (TextDecoder_decode (TextEncoder_encode s) = s) && (Z.of_nat (length (TextEncoder_encode s)) <? 2 ^ 64))
    [chainId r; spenderChainId r] && bool_decide (amount r <> []).
Lemma spelled_eval r : spelledb r = true -> request_spelled r.
Proof using.
  unfold spelledb. cbn [forallb]. intros H. repeat (apply andb_true_iff in H as [H ?]).
  repeat match goal with E : _ && _ = true |- _ => apply andb_true_iff in E as [? ?] end.
  assert (forall s, hex_sized s (fun n => Z.of_nat n <? 2 ^ 64) = true -> hex_text s) as Hh.
  { intros s (l & Hl & Hn)%hex_sized_true. exists l. split; [done|lia]. }
  assert (forall s, bool_decide (TextDecoder_decode (TextEncoder_encode s) = s) = true ->
    (Z.of_nat (length (TextEncoder_encode s)) <? 2 ^ 64) = true -> chain_text s) as Hc.
  { intros s E1 E2. apply bool_decide_eq_true in E1. split; [exact E1|lia]. }
  split; [|by eapply bool_decide_eq_true]. split; try (by apply Hh); try (by apply Hc).
  match goal with E : hex_sized (nonce r) _ = true |- _ => apply hex_sized_true in E as (l & Hl & Hn) end.
  exists l. split; [done|]. symmetry. by apply Nat.eqb_eq.
Qed.
Lemma toy_spelled : request_spelled toy_withdraw.
Proof using. apply spelled_eval. vm_compute. reflexivity. Qed.
Lemma is_ok_inv {T} (x : result T) : is_ok x = true -> exists y, x = Ok y.
Proof using. destruct x as [y|]; [eauto|done]. Qed.
Lemma toy_hashable : is_ok (computeWithdrawRequestHash toy_hash toy_withdraw) = true.
Proof using. vm_compute. reflexivity. Qed.
Lemma withdraw_hash_witness :
  match computeWithdrawRequestHash toy_hash toy_withdraw with
  | Ok h => getWithdrawRequestHash (A := toy_abi) toy_withdraw = Ok (hex0x h)
  | Err _ => False
  end.
Proof using.
  pose proof toy_sdk_abi_laws. destruct (is_ok_inv _ toy_hashable) as (h & E). rewrite E.
  exact (proj2 (proj1 (proj1 (withdraw_hash_agrees (A := toy_abi) (keccak := toy_hash) (checksum := id) (selector := toy_selector) toy_withdraw
    (proj1 toy_spelled)) h) E)).
Defined.

Definition toy_fast_mint : DecodedAction :=
  FAST_MINT (hex0x (replicate 20 x11)) 5 (js "1000") (hex0x (replicate 20 x22)) (js "0x0102") (hex0x (replicate 20 x33)) (js "0x").
Lemma toy_fast_mint_ok : action_ok (checksum := id) toy_fast_mint.
Proof using. exists 1000. split; [lia|]. split; [reflexivity|]. apply canonical_eval; vm_compute; reflexivity. Qed.
Lemma action_roundtrip_witness :
  exists s, encodeAction (A := toy_abi) toy_fast_mint = Ok s /\ decodeAction (A := toy_abi) s = Ok toy_fast_mint.
Proof using.
  pose proof toy_sdk_abi_laws. pose proof toy_trailing_law.
  exact (action_roundtrip (A := toy_abi) (keccak := toy_hash) (checksum := id) (selector := toy_selector) toy_fast_mint toy_fast_mint_ok).
Defined.

Definition toy_execution : PoolDrawResolverExecution := {|
  pe_legs := [{| dl_pool := hex0x (replicate 20 x11); dl_account := hex0x (replicate 20 x12); dl_kind := 1;
                 dl_tokenIn := hex0x (replicate 20 x13); dl_tokenOut := hex0x (replicate 20 x14); dl_amount := 10; dl_amountOutMinimum := 9;
                 dl_calls := [{| pc_to := hex0x (replicate 20 x15); pc_data := js "0xab" |}] |}];
  pe_calls := []; pe_salt := hex0x (replicate 32 x01) |}.
Lemma toy_execution_ok : execution_ok (checksum := id) toy_execution.
Proof using. apply canonical_eval; vm_compute; reflexivity. Qed.
Definition toy_resolver : jsstring := js "0xABababababababababababababababababababab".
Abbreviation toy_nonce resolver :=
  (d ← encodePoolDrawResolverExecution (A := toy_abi) toy_execution;
   getPoolDrawResolverCommitmentNonce (A := toy_abi) (ML := toy_message_libs) resolver d).
Definition same_text (x y : result jsstring) : bool := match x, y with Ok a, Ok b => bool_decide (a = b) | _, _ => false end.
Lemma same_text_inv x y : same_text x y = true -> exists a, x = Ok a /\ y = Ok a.
Proof using. destruct x as [a|]; [|done]. destruct y as [b|]; [|done]. intros E. apply bool_decide_eq_true in E as <-. eauto. Qed.
Lemma toy_nonces : same_text (toy_nonce toy_resolver) (toy_nonce (toLowerCase toy_resolver)) = true.
Proof using. vm_compute. reflexivity. Qed.
Lemma pool_nonce_witness : toy_nonce toy_resolver = toy_nonce (toLowerCase toy_resolver) /\
  ((toLowerCase toy_resolver = toLowerCase (toLowerCase toy_resolver) /\ toy_execution = toy_execution) \/ collision (keccak := toy_hash)).
Proof using.
  pose proof toy_sdk_abi_laws. pose proof toy_pack_law. destruct (same_text_inv _ _ toy_nonces) as (n & En & En').
  split; [exact (eq_trans En (eq_sym En'))|]. apply bind_ok in En as (d & E & En). apply bind_ok in En' as (d' & E' & En').
  assert (hex_value toy_resolver = Some (replicate 20 xab)) as H1 by (vm_compute; reflexivity).
  assert (hex_value (toLowerCase toy_resolver) = Some (replicate 20 xab)) as H2 by (vm_compute; reflexivity).
  exact (pool_nonce_commits (A := toy_abi) (ML := toy_message_libs) (keccak := toy_hash) (checksum := id) (selector := toy_selector)
    toy_resolver (toLowerCase toy_resolver) (replicate 20 xab) (replicate 20 xab) toy_execution toy_execution d d' n
    H1 eq_refl H2 eq_refl toy_execution_ok toy_execution_ok E E' En En').
Defined.
Lemma pool_execution_witness : exists s, encodePoolDrawResolverExecution (A := toy_abi) toy_execution = Ok s /\
  decodePoolDrawResolverExecution (A := toy_abi) s = Ok toy_execution.
Proof using.
  pose proof toy_sdk_abi_laws.
  destruct (pool_execution_roundtrip (A := toy_abi) (keccak := toy_hash) (checksum := id) (selector := toy_selector) toy_execution [] toy_execution_ok)
    as (s & H1 & H2 & _). exists s. split; assumption.
Defined.

(** A withdrawal routed through two calls; the second request spells its router
    in upper case. *)
Definition toy_routed (router : jsstring) : EthereumVmWithdrawRequestAdditionalData := {| ea_router := router; ea_calls :=
  [{| rc_to := hex0x (replicate 20 x41); rc_data := js "0x01"; rc_value := js "0"; rc_allowFailure := false |};
   {| rc_to := hex0x (replicate 20 x42); rc_data := js "0x"; rc_value := js "7"; rc_allowFailure := true |}] |}.
Definition toy_denormalized (router : jsstring) : DenormalizedWithdrawRequest := {|
  dw_chainId := js "base"; dw_depository := hex0x (replicate 20 x51); dw_currency := hex0x (replicate 20 x52); dw_amount := js "1000";
  dw_spenderChainId := js "relay"; dw_spender := hex0x (replicate 20 x53); dw_receiver := hex0x (replicate 20 x54);
  dw_nonce := hex0x (replicate 32 x55); dw_additionalData := Some {| wa_bitcoin := None; wa_hedera := None; wa_hyperliquid := None;
    wa_lighter := None; wa_xrp := None; wa_gateway := None; wa_ethereum := Some (toy_routed router) |};
  dw_vmType := ethereum_vm; dw_spenderVmType := ethereum_vm |}.
Abbreviation toy_normalized router :=
  (normalizeWithdrawRequest (A := toy_abi) (V := concrete_viem) (L := sdk_libs) (ML := toy_message_libs) (toy_denormalized router)).
Lemma toy_routed_ok router : hex_value router = Some (replicate 20 xab) ->
  routed_ok (checksum := id) (toy_routed router) [0; 7] (replicate 20 xab).
Proof using.
  intros Hr. split; [|apply canonical_eval; vm_compute; reflexivity|exact Hr|reflexivity].
  repeat constructor; lia.
Qed.
Definition toy_hashes_agree (r1 r2 : result WithdrawRequest) : bool :=
  match r1, r2 with
  | Ok r1, Ok r2 => spelledb r1 && spelledb r2 &&
      match getWithdrawRequestHash (A := toy_abi) r1, getWithdrawRequestHash (A := toy_abi) r2 with
      | Ok h1, Ok h2 => bool_decide (h1 = h2) | _, _ => false
      end
  | _, _ => false
  end.
Lemma toy_hashes_inv n1 n2 : toy_hashes_agree n1 n2 = true ->
  exists r1 r2 h, n1 = Ok r1 /\ n2 = Ok r2 /\ request_spelled r1 /\ request_spelled r2 /\
    getWithdrawRequestHash (A := toy_abi) r1 = Ok h /\ getWithdrawRequestHash (A := toy_abi) r2 = Ok h.
Proof using.
  unfold toy_hashes_agree. destruct n1 as [r1|]; [|done]. destruct n2 as [r2|]; [|done]. intros [[S1 S2]%andb_true_iff Hh]%andb_true_iff.
  destruct (getWithdrawRequestHash r1) as [h1|] eqn:G1; [|done]. destruct (getWithdrawRequestHash r2) as [h2|] eqn:G2; [|done].
  apply bool_decide_eq_true in Hh as <-. exists r1, r2, h1. split_and!; try done; by apply spelled_eval.
Qed.
Lemma toy_hashes : toy_hashes_agree (toy_normalized toy_resolver) (toy_normalized (toLowerCase toy_resolver)) = true.
Proof using. vm_compute. reflexivity. Qed.
Lemma routed_calls_witness :
  match toy_normalized toy_resolver, toy_normalized (toLowerCase toy_resolver) with
  | Ok r1, Ok r2 =>
      ((exists f, requestFields r1 = Ok f /\ requestFields r2 = Ok f) /\
        toLowerCase toy_resolver = toLowerCase (toLowerCase toy_resolver) /\
        ea_calls (toy_routed toy_resolver) = ea_calls (toy_routed (toLowerCase toy_resolver))) \/ collision (keccak := toy_hash)
  | _, _ => False
  end.
Proof using.
  pose proof toy_sdk_abi_laws. destruct (toy_hashes_inv _ _ toy_hashes) as (r1 & r2 & h & E1 & E2 & S1 & S2 & G1 & G2).
  rewrite E1, E2.
  assert (hex_value toy_resolver = Some (replicate 20 xab)) as H1 by (vm_compute; reflexivity).
  assert (hex_value (toLowerCase toy_resolver) = Some (replicate 20 xab)) as H2 by (vm_compute; reflexivity).
  exact (withdraw_hash_binds_calls (A := toy_abi) (V := concrete_viem) (L := sdk_libs) (ML := toy_message_libs) (keccak := toy_hash)
    (checksum := id) (selector := toy_selector) (toy_denormalized toy_resolver) (toy_denormalized (toLowerCase toy_resolver))
    (toy_routed toy_resolver) (toy_routed (toLowerCase toy_resolver)) [0; 7] [0; 7] (replicate 20 xab) (replicate 20 xab) r1 r2 h
    (conj eq_refl eq_refl) (conj eq_refl eq_refl) (toy_routed_ok _ H1) (toy_routed_ok _ H2) E1 E2 S1 S2 G1 G2).
Defined.
End Concrete.
