(* ===== verification/IndexerQueries.v ===== *)
(** * Queries of the indexer

    Dates of the JavaScript runtime, then the listings of
    packages/indexer/src/queries.

    [new Date(ms).toISOString()] with the calendar functions of the language
    specification: days, years and months of a time value, and the text with
    its expanded years. *)

From stdpp Require Import sorting.
From S2P Require Import Prelude JsNum JsString JsNumber JsJson Scanner IndexerWorld IndexerTransfers IndexerRoles.
Local Open Scope Z_scope.
Local Open Scope js_scope.

Definition msPerDay : Z := 86400000.
(** The day on which a year starts. *)
Definition DayFromYear (y : Z) : Z := 365 * (y - 1970) + (y - 1969) / 4 - (y - 1901) / 100 + (y - 1601) / 400.
Definition InLeapYear (y : Z) : bool := (y mod 4 =? 0) && (negb (y mod 100 =? 0) || (y mod 400 =? 0)).
(** The year of a day: the estimate by the mean length of a year is at most one
    off. *)
Definition YearFromDay (d : Z) : Z :=
  let y := 1970 + 400 * d / 146097 in
  if d <? DayFromYear y then y - 1 else if DayFromYear (y + 1) <=? d then y + 1 else y.
Definition month_lengths (leap : bool) : list Z := [31; 28 + Z.b2z leap; 31; 30; 31; 30; 31; 31; 30; 31; 30; 31].
(** The month, from 1, and the day of the month of a day of the year. *)
Fixpoint month_day (m day : Z) (lengths : list Z) : Z * Z :=
  match lengths with
  | [] => (m, day + 1)
  | n :: rest => if day <? n then (m, day + 1) else month_day (m + 1) (day - n) rest
  end.

Definition digits_of (width : nat) (n : Z) : jsstring := padStart width 48 (toString10 n).
Definition year_text (y : Z) : jsstring :=
  if (0 <=? y) && (y <=? 9999) then digits_of 4 y
  else (if y <? 0 then js "-" else js "+") ++ digits_of 6 (Z.abs y).
Definition toISOString (t : Z) : result jsstring :=
  fail_if 8640000000000000 <? Z.abs t with "RangeError: Invalid time value" ;;
  let day := t / msPerDay in
  let ms := t mod msPerDay in
  let y := YearFromDay day in
  let '(month, date) := month_day 1 (day - DayFromYear y) (month_lengths (InLeapYear y)) in
  Ok (year_text y ++ js "-" ++ digits_of 2 month ++ js "-" ++ digits_of 2 date ++ js "T" ++
      digits_of 2 (ms / 3600000) ++ js ":" ++ digits_of 2 (ms / 60000 mod 60) ++ js ":" ++ digits_of 2 (ms / 1000 mod 60) ++
      js "." ++ digits_of 3 (ms mod 1000) ++ js "Z").

(** The day lies in its year. *)
Lemma YearFromDay_spec d : DayFromYear (YearFromDay d) <= d < DayFromYear (YearFromDay d + 1).
Proof.
  unfold YearFromDay. assert (DayFromYear (1970 + 400 * d / 146097 - 1) <= d < DayFromYear (1970 + 400 * d / 146097 + 2)) as H.
  { unfold DayFromYear. Z.to_euclidean_division_equations. lia. }
  destruct (Z.ltb_spec d (DayFromYear (1970 + 400 * d / 146097))); [|destruct (Z.leb_spec (DayFromYear (1970 + 400 * d / 146097 + 1)) d)].
  - replace (1970 + 400 * d / 146097 - 1 + 1) with (1970 + 400 * d / 146097) by lia. lia.
  - replace (1970 + 400 * d / 146097 + 1 + 1) with (1970 + 400 * d / 146097 + 2) by lia. lia.
  - lia.
Qed.
Lemma year_length y : DayFromYear (y + 1) - DayFromYear y = 365 + Z.b2z (InLeapYear y).
Proof.
  unfold DayFromYear, InLeapYear.
  destruct (Z.eqb_spec (y mod 4) 0), (Z.eqb_spec (y mod 100) 0), (Z.eqb_spec (y mod 400) 0); cbn [andb orb negb Z.b2z];
    Z.to_euclidean_division_equations; lia.
Qed.
(** The month is one of the twelve and the day of the month exists. *)
Lemma month_day_spec lengths m day : 0 <= day < foldr Z.add 0 lengths ->
  exists k n, lengths !! k = Some n /\ month_day m day lengths = (m + Z.of_nat k, day - foldr Z.add 0 (take k lengths) + 1) /\
    0 <= day - foldr Z.add 0 (take k lengths) < n.
Proof.
  revert m day. induction lengths as [|n rest IH]; intros m day H; [cbn in H; lia|]. cbn [foldr] in H. cbn [month_day].
  destruct (Z.ltb_spec day n).
  - exists 0%nat, n. cbn. split_and!; try done; try lia. f_equal; lia.
  - destruct (IH (m + 1) (day - n) ltac:(lia)) as (k & n' & Hk & E & Hr). exists (S k), n'. cbn [take foldr lookup list_lookup].
    split_and!; [done| |lia|lia]. rewrite E. f_equal; lia.
Qed.
Lemma date_exists t s : toISOString t = Ok s ->
  let y := YearFromDay (t / msPerDay) in
  exists k n, month_lengths (InLeapYear y) !! k = Some n /\
    let day := t / msPerDay - DayFromYear y - foldr Z.add 0 (take k (month_lengths (InLeapYear y))) in
    0 <= day < n /\ month_day 1 (t / msPerDay - DayFromYear y) (month_lengths (InLeapYear y)) = (1 + Z.of_nat k, day + 1).
Proof.
  intros _ y. pose proof (YearFromDay_spec (t / msPerDay)) as Hd. fold y in Hd. pose proof (year_length y).
  destruct (month_day_spec (month_lengths (InLeapYear y)) 1 (t / msPerDay - DayFromYear y)) as (k & n & Hk & E & Hr).
  { destruct (InLeapYear y); cbn in *; lia. }
  exists k, n. done.
Qed.

Example epoch_text : toISOString 0 = Ok (js "1970-01-01T00:00:00.000Z").
Proof. reflexivity. Qed.
Example leap_day_text : toISOString 1709210096789 = Ok (js "2024-02-29T12:34:56.789Z").
Proof. reflexivity. Qed.
Example before_epoch_text : toISOString (-62198755200001) = Ok (js "-000002-12-31T23:59:59.999Z").
Proof. vm_compute. reflexivity. Qed.

(** ** Read queries of the indexer's API

    packages/indexer/src/queries: events.ts, tokens.ts, roles.ts, holders.ts,
    balances.ts, protocolTransactions.ts and oracles.ts.  A SELECT is a
    statement on the tables of IndexerWorld; rows come with the columns the
    tables model ([updated_at] is not one of them, so [normalizeTokenRow] has
    nothing to do).  PostgreSQL's text order, LOWER, ILIKE and date functions
    are the interface [Postgres]; the chain reads of oracles.ts are the
    interface [OracleReader]. *)

Local Open Scope Z_scope.
Local Open Scope js_scope.

(** ** Text and numbers *)

(** [s.split(sep)] for a separator that is not empty; [skip] counts the code
    units of a separator still to be passed. *)
Fixpoint split_from (sep : jsstring) (skip : nat) (s : jsstring) : list jsstring :=
  match s with
  | [] => [[]]
  | c :: s' =>
      match skip with
      | S k => split_from sep k s'
      | O =>
          if startsWith s sep then [] :: split_from sep (length sep - 1) s'
          else match split_from sep 0 s' with p :: ps => (c :: p) :: ps | [] => [[c]] end
      end
  end.
Definition split_text (sep s : jsstring) : list jsstring := split_from sep 0 s.

(** [Number(x)] of a part that may be missing. *)
Definition Number_part (s : option jsstring) : jsnum := match s with Some s => Number s | None => JNaN end.
(** Comparisons of an integer column with a number. *)
Definition int_lt (n : Z) (x : jsnum) : bool :=
  match x with
  | JNaN => false
  | JInf neg => negb neg
  | JInt k => n <? k
  | JFrac m e => n * 2 ^ (- e) <? m
  end.
Definition int_eq (n : Z) (x : jsnum) : bool := match x with JInt k => n =? k | _ => false end.

Inductive TransferStatsGranularity := GDay | GHour | GMinute | GMonth | GWeek.
Class Postgres := {
  (** [a <= b] in the database's collation. *)
  text_le : jsstring -> jsstring -> bool;
  pg_lower : jsstring -> jsstring;
  pg_ilike : jsstring -> jsstring -> bool;
  (** [to_char(date_trunc(granularity, to_timestamp(ts) AT TIME ZONE zone + make_interval(mins => offset)), format)]. *)
  pg_bucket : TransferStatsGranularity -> jsstring -> jsstring -> Z -> Z -> jsstring;
}.
Definition text_lt `{Postgres} (a b : jsstring) : bool := text_le a b && negb (bool_decide (a = b)).

(** ** Pages *)

Record Page (Row : Type) := { pg_nextCursor : option jsstring; pg_rows : list Row }.
Arguments pg_nextCursor {Row}. Arguments pg_rows {Row}.
(** [rows.length === limit && last ? cursor(last) : null]. *)
Definition page_of {Row} (limit : nat) (cursor : Row -> jsstring) (rows : list Row) : Page Row := {|
  pg_nextCursor := if Nat.eqb (length rows) limit then cursor <$> last rows else None; pg_rows := rows |}.
Definition ordered {Row} (before : Row -> Row -> bool) (a b : Row) : Prop := before a b = true.
#[export] Instance ordered_dec {Row} (before : Row -> Row -> bool) a b : Decision (ordered before a b).
Proof. unfold ordered. apply _. Defined.
(** [SELECT ... WHERE keep ORDER BY before LIMIT limit]; rows that tie come in
    any order, here in that of the table. *)
Definition select_page {Row} (before : Row -> Row -> bool) (keep : Row -> bool) (limit : nat) (rows : list Row) : list Row :=
  take limit (merge_sort (ordered before) (List.filter keep rows)).

(** A filter that applies only to a given, non-empty value. *)
Definition when_given (value : option jsstring) (test : jsstring -> bool) : bool :=
  match truthy value with Some v => test v | None => true end.

Section Queries.
Context `{F : Faults, P : Postgres}.

(** ** events.ts *)

Definition EventEntry : Type := (jsstring * Z) * EventRow.
Record EventsFilter := {
  evf_tokenId : option jsstring; evf_address : option jsstring; evf_limit : nat; evf_cursor : option jsstring }.

Definition parseCursor (cursor : option jsstring) : option (jsnum * jsnum) :=
  match truthy cursor with
  | None => None
  | Some c =>
      let parts := split_text (js ":") c in
      let block := Number_part (parts !! 0%nat) in
      let log := Number_part (parts !! 1%nat) in
      if negb (isFinite block) || negb (isFinite log) then None else Some (block, log)
  end.
(** [block_number < c.block OR (block_number = c.block AND log_index < c.log)]. *)
Definition below_cursor (c : option (jsnum * jsnum)) (block log : Z) : bool :=
  match c with None => true | Some (cb, cl) => int_lt block cb || int_eq block cb && int_lt log cl end.
(** [ORDER BY block_number DESC, log_index DESC]. *)
Definition newest_first (b1 l1 b2 l2 : Z) : bool := (b2 <? b1) || (b2 =? b1) && (l2 <=? l1).
Definition block_cursor (block log : Z) : jsstring := toString10 block ++ js ":" ++ toString10 log.

Definition event_matches (f : EventsFilter) (p : EventEntry) : bool :=
  when_given (evf_tokenId f) (fun t => bool_decide (ev_token p.2 = t)) &&
  when_given (evf_address f) (fun a => bool_decide (ev_from p.2 = a) || bool_decide (ev_to p.2 = a)).
Definition event_before (p q : EventEntry) : bool := newest_first (ev_block p.2) p.1.2 (ev_block q.2) q.1.2.
Definition event_cursor (p : EventEntry) : jsstring := block_cursor (ev_block p.2) p.1.2.
Definition listEvents (f : EventsFilter) : M (Page EventEntry) :=
  rows ← query (fun d => select_page event_before
    (fun p => event_matches f p && below_cursor (parseCursor (evf_cursor f)) (ev_block p.2) p.1.2) (evf_limit f) (map_to_list (events d)));
  mret (page_of (evf_limit f) event_cursor rows).

(** ** tokens.ts *)

Definition TokenEntry : Type := jsstring * TokenRow.
Definition parseTokenCursor (cursor : jsstring) : option (jsnum * jsstring) :=
  let parts := split_text (js ":") cursor in
  let transfers := Number_part (parts !! 0%nat) in
  match truthy (parts !! 1%nat) with
  | Some tokenId => if isFinite transfers then Some (transfers, tokenId) else None
  | None => None
  end.
(** [ORDER BY t.transfers DESC, t.token_id ASC]. *)
Definition token_before (p q : TokenEntry) : bool :=
  (tk_transfers q.2 <? tk_transfers p.2) || (tk_transfers q.2 =? tk_transfers p.2) && text_le p.1 q.1.
Definition token_cursor (p : TokenEntry) : jsstring := toString10 (tk_transfers p.2) ++ js ":" ++ p.1.
Definition listTokens (limit : nat) (cursor : option jsstring) : M (Page TokenEntry) :=
  let keep (p : TokenEntry) := match truthy cursor ≫= parseTokenCursor with
                | None => true
                | Some (n, tokenId) => int_lt (tk_transfers p.2) n || int_eq (tk_transfers p.2) n && text_lt tokenId p.1
                end in
  rows ← query (fun d => select_page token_before keep limit (map_to_list (tokens d)));
  mret (page_of limit token_cursor rows).

(** A NULL name matches no pattern. *)
Definition name_of (p : TokenEntry) : jsstring := default [] (tk_name p.2).
Definition name_before (p q : TokenEntry) : bool :=
  let a := pg_lower (name_of p) in let b := pg_lower (name_of q) in
  text_lt a b || bool_decide (a = b) && text_le p.1 q.1.
Definition name_cursor (p : TokenEntry) : jsstring := name_of p ++ js "::" ++ p.1.
Definition name_after (cursor : jsstring) (p : TokenEntry) : bool :=
  let parts := split_text (js "::") cursor in
  let nameCursor := pg_lower (default [] (parts !! 0%nat)) in
  let name := pg_lower (name_of p) in
  text_lt nameCursor name || bool_decide (name = nameCursor) && text_lt (default [] (parts !! 1%nat)) p.1.
Definition searchTokensByName (needle : jsstring) (limit : nat) (cursor : option jsstring) : M (Page TokenEntry) :=
  let keep (p : TokenEntry) := match tk_name p.2 with
                | None => false
                | Some name => pg_ilike name (js "%" ++ needle ++ js "%") && when_given cursor (fun c => name_after c p)
                end in
  rows ← query (fun d => select_page name_before keep limit (map_to_list (tokens d)));
  mret (page_of limit name_cursor rows).

Definition getToken (tokenId : jsstring) : M (option TokenRow) := query (fun d => tokens d !! tokenId).

Definition BalanceEntry : Type := (jsstring * jsstring) * BalanceRow.
(** [/^-?\d+$/]. *)
Definition is_integer_text (s : jsstring) : bool :=
  let digits := match s with 45 :: r => r | _ => s end in
  negb (bool_decide (digits = [])) && forallb is_digit digits.
Definition integer_value (s : jsstring) : Z :=
  let value digits := Radix.of_digits 10 (hex_val <$> digits) in
  match s with 45 :: r => - value r | _ => value s end.
Definition parseBalanceCursor (cursor : jsstring) : option (jsstring * jsstring) :=
  let parts := split_text (js ":") cursor in
  match truthy (parts !! 0%nat), truthy (parts !! 1%nat) with
  | Some balance, Some address => if is_integer_text balance then Some (balance, address) else None
  | _, _ => None
  end.
(** [ORDER BY balance DESC, address ASC]. *)
Definition balance_before (p q : BalanceEntry) : bool :=
  (bl_balance q.2 <? bl_balance p.2) || (bl_balance q.2 =? bl_balance p.2) && text_le p.1.1 q.1.1.
Definition balance_cursor (p : BalanceEntry) : jsstring := toString10 (bl_balance p.2) ++ js ":" ++ p.1.1.
Definition listTokenBalances (tokenId : jsstring) (limit : nat) (cursor : option jsstring) : M (Page BalanceEntry) :=
  let keep (p : BalanceEntry) := bool_decide (p.1.2 = tokenId) &&
                match truthy cursor ≫= parseBalanceCursor with
                | None => true
                | Some (balance, address) =>
                    (bl_balance p.2 <? integer_value balance) || (bl_balance p.2 =? integer_value balance) && text_lt address p.1.1
                end in
  rows ← query (fun d => select_page balance_before keep limit (map_to_list (balances d)));
  mret (page_of limit balance_cursor rows).

(** ** balances.ts and holders.ts *)

Definition listBalancesForAddress (address : jsstring) (limit : nat) (cursor : option jsstring) : M (Page BalanceEntry) :=
  rows ← query (fun d => select_page (fun p q : BalanceEntry => text_le p.1.2 q.1.2)
    (fun p => bool_decide (p.1.1 = toLowerCase address) && when_given cursor (fun c => text_lt c p.1.2)) limit (map_to_list (balances d)));
  mret (page_of limit (fun p : BalanceEntry => p.1.2) rows).

(** The addresses of the table, and [MAX(last_transfer_at)] of each group. *)
Definition holder_addresses (d : Db) : list jsstring := remove_dups ((fun p : BalanceEntry => p.1.1) <$> map_to_list (balances d)).
Definition max_option (a b : option Z) : option Z :=
  match a, b with Some x, Some y => Some (Z.max x y) | Some x, None => Some x | None, y => y end.
Definition last_transfer (d : Db) (address : jsstring) : option Z :=
  foldr max_option None ((fun p : BalanceEntry => bl_last p.2) <$> List.filter (fun p : BalanceEntry => bool_decide (p.1.1 = address)) (map_to_list (balances d))).
Definition listHolders (limit : nat) (cursor : option jsstring) : M (Page (jsstring * option Z)) :=
  rows ← query (fun d => (fun a => (a, last_transfer d a)) <$>
    select_page text_le (fun a => when_given cursor (fun c => text_lt (toLowerCase c) a)) limit (holder_addresses d));
  mret (page_of limit fst rows).

(** ** roles.ts *)

Definition RoleEventEntry : Type := (jsstring * jsstring * Z) * RoleEventRow.
Record RoleEventOptions := {
  reo_contractAddress : jsstring; reo_limit : nat; reo_cursor : option jsstring; reo_role : option jsstring; reo_account : option jsstring }.
Definition role_event_matches (o : RoleEventOptions) (p : RoleEventEntry) : bool :=
  bool_decide (p.1.1.1 = toLowerCase (reo_contractAddress o)) &&
  when_given (reo_role o) (fun r => bool_decide (re_role p.2 = r)) &&
  when_given (reo_account o) (fun a => bool_decide (re_account p.2 = Some (toLowerCase a))).
Definition listRoleEvents (o : RoleEventOptions) : M (Page RoleEventEntry) :=
  rows ← query (fun d => select_page (fun p q : RoleEventEntry => newest_first (re_block p.2) p.1.2 (re_block q.2) q.1.2)
    (fun p => role_event_matches o p && below_cursor (parseCursor (reo_cursor o)) (re_block p.2) p.1.2) (reo_limit o)
    (map_to_list (role_events d)));
  mret (page_of (reo_limit o) (fun p : RoleEventEntry => block_cursor (re_block p.2) p.1.2) rows).

Definition RoleMemberEntry : Type := jsstring * jsstring * jsstring.
Definition member_role (p : RoleMemberEntry) : jsstring := p.1.2.
Definition member_account (p : RoleMemberEntry) : jsstring := p.2.
Definition listRoleMembers (contractAddress role : jsstring) (limit : nat) (cursor : option jsstring) : M (Page RoleMemberEntry) :=
  rows ← query (fun d => select_page (fun p q => text_le (member_account p) (member_account q))
    (fun p => bool_decide (p.1.1 = toLowerCase contractAddress) && bool_decide (member_role p = role) &&
              when_given cursor (fun c => text_lt c (member_account p))) limit (elements (role_members d)));
  mret (page_of limit member_account rows).
Definition listRolesForAccount (contractAddress account : jsstring) (limit : nat) (cursor : option jsstring) : M (Page RoleMemberEntry) :=
  rows ← query (fun d => select_page (fun p q => text_le (member_role p) (member_role q))
    (fun p => bool_decide (p.1.1 = toLowerCase contractAddress) && bool_decide (member_account p = toLowerCase account) &&
              when_given cursor (fun c => text_lt c (member_role p))) limit (elements (role_members d)));
  mret (page_of limit member_role rows).
(** [ORDER BY role ASC, account ASC]. *)
Definition member_before (p q : RoleMemberEntry) : bool :=
  text_lt (member_role p) (member_role q) || bool_decide (member_role p = member_role q) && text_le (member_account p) (member_account q).
Definition listRoleMembersForContract (contractAddress : jsstring) : M (list RoleMemberEntry) :=
  query (fun d => merge_sort (ordered member_before)
    (List.filter (fun p => bool_decide (p.1.1 = toLowerCase contractAddress)) (elements (role_members d)))).
Definition query_getRoleAdmin (contractAddress role : jsstring) : M (option jsstring) :=
  query (fun d => role_admins d !! (toLowerCase contractAddress, role)).
End Queries.
