(* ===== verification/IndexerViews.v ===== *)
(** * Views of the indexed protocol

    packages/indexer/src/queries: protocolTransactions.ts (transactions with
    their transfers and oracle executions), oracles.ts (the oracles approved
    on chain) and the transfer statistics of events.ts with their cache. *)

From stdpp Require Import sorting.
From S2P Require Import Prelude JsNum JsString JsNumber JsJson IndexerQueries Scanner HexBytes Abi IndexerWorld IndexerTransfers IndexerRoles IndexerLanes IndexerReplay.
From S2P Require Import IndexerService IndexerAudit IndexerQueries.
Local Open Scope Z_scope.
Local Open Scope js_scope.

(** ** protocolTransactions.ts *)

Record ProtocolTokenMetadata := { pm_decimals : option Z; pm_name : option jsstring; pm_symbol : option jsstring }.
Record ProtocolTransfer := {
  pt_amount : jsstring; pt_from : jsstring; pt_logIndex : Z; pt_operator : jsstring; pt_to : jsstring; pt_tokenId : jsstring;
  pt_tokenMetadata : ProtocolTokenMetadata; pt_type : ProtocolTransferType }.
Record ProtocolOracleExecution := {
  po_actions : list jsstring; po_aggregatedSignature : option jsstring; po_idempotencyKey : jsstring; po_logIndex : Z;
  po_oracleContractAddress : jsstring; po_submittedOracleAddress : option jsstring }.
Record ProtocolTransaction := {
  px_blockNumber : Z; px_oracleExecutions : list ProtocolOracleExecution; px_relayOperation : RelayOperation; px_timestamp : jsstring;
  px_transfers : list ProtocolTransfer; px_txHash : jsstring }.

(** A row of events with the row of tokens it joins, if there is one. *)
Definition ProtocolTransferRow : Type := EventEntry * option TokenRow.
Definition OracleExecutionRow : Type := (jsstring * Z) * OracleRow.
(** The column [actions_json]. *)
Definition actions_json (row : OracleExecutionRow) : jsstring := JSON_stringify (JArr (JStr <$> or_actions row.2)).

Definition parseActions (actionsJson : jsstring) : result (list jsstring) :=
  parsed ← JSON_parse actionsJson;
  match parsed with
  | JArr items => mapM (fun value => match value with JStr s => Ok s | _ => Err "Invalid oracle actions_json" end) items
  | _ => Err "Invalid oracle actions_json"
  end.

Definition by_log_index {T} (index : T -> Z) (left right : T) : bool := index left <=? index right.
(** [rows.sort((left, right) => left.logIndex - right.logIndex)], which is
    stable. *)
Definition sortByLogIndex {T} (index : T -> Z) (rows : list T) : list T := merge_sort (ordered (by_log_index index)) rows.

Definition protocol_transfer (row : ProtocolTransferRow) : ProtocolTransfer :=
  let '(p, token) := row in {|
  pt_amount := toString10 (ev_amount p.2); pt_from := ev_from p.2; pt_logIndex := p.1.2; pt_operator := ev_operator p.2; pt_to := ev_to p.2;
  pt_tokenId := ev_token p.2;
  pt_tokenMetadata := {| pm_decimals := token ≫= tk_decimals; pm_name := token ≫= tk_name; pm_symbol := token ≫= tk_symbol |};
  pt_type := getProtocolTransferType (ev_from p.2) (ev_to p.2) |}.
Definition oracle_execution (row : OracleExecutionRow) : result ProtocolOracleExecution :=
  actions ← parseActions (actions_json row);
  Ok {| po_actions := actions; po_aggregatedSignature := truthy (Some (or_signature row.2)); po_idempotencyKey := or_key row.2;
        po_logIndex := row.1.2; po_oracleContractAddress := or_contract row.2;
        po_submittedOracleAddress := truthy (or_submitted row.2) |}.

(** [map.set(key, [...(map.get(key) ?? []), value])]. *)
Definition push {T} (key : jsstring) (value : T) (m : gmap jsstring (list T)) : gmap jsstring (list T) :=
  <[key := default [] (m !! key) ++ [value]]> m.
Definition add_transfer (m : gmap jsstring (list ProtocolTransfer)) (row : ProtocolTransferRow) : gmap jsstring (list ProtocolTransfer) :=
  push row.1.1.1 (protocol_transfer row) m.
(** The block and time stamp of the first row of a transaction. *)
Definition add_meta (m : gmap jsstring (Z * Z)) (row : ProtocolTransferRow) : gmap jsstring (Z * Z) :=
  match m !! row.1.1.1 with Some _ => m | None => <[row.1.1.1 := (ev_block row.1.2, ev_timestamp row.1.2)]> m end.
Fixpoint add_executions (m : gmap jsstring (list ProtocolOracleExecution)) (rows : list OracleExecutionRow)
  : result (gmap jsstring (list ProtocolOracleExecution)) :=
  match rows with
  | [] => Ok m
  | row :: rest => execution ← oracle_execution row; add_executions (push row.1.1 execution m) rest
  end.

Fixpoint project_hashes (transfersByTxHash : gmap jsstring (list ProtocolTransfer)) (metaByTxHash : gmap jsstring (Z * Z))
    (executionsByTxHash : gmap jsstring (list ProtocolOracleExecution)) (txHashes : list jsstring) : result (list ProtocolTransaction) :=
  match txHashes with
  | [] => Ok []
  | txHash :: rest =>
      let continue := project_hashes transfersByTxHash metaByTxHash executionsByTxHash rest in
      match transfersByTxHash !! txHash, metaByTxHash !! txHash with
      | Some ((_ :: _) as transfers), Some (blockNumber, timestamp) =>
          iso ← toISOString (timestamp * 1000);
          data ← continue;
          Ok ({| px_blockNumber := blockNumber; px_oracleExecutions := default [] (executionsByTxHash !! txHash);
                 px_relayOperation := deriveRelayOperation (pt_type <$> transfers); px_timestamp := iso;
                 px_transfers := transfers; px_txHash := txHash |} :: data)
      | _, _ => continue
      end
  end.
Definition projectProtocolTransactions (oracleRows : list OracleExecutionRow) (transferRows : list ProtocolTransferRow)
    (txHashes : list jsstring) : result (list ProtocolTransaction) :=
  let transfersByTxHash := foldl add_transfer ∅ transferRows in
  let metaByTxHash := foldl add_meta ∅ transferRows in
  executionsByTxHash ← add_executions ∅ oracleRows;
  project_hashes (sortByLogIndex pt_logIndex <$> transfersByTxHash) metaByTxHash (sortByLogIndex po_logIndex <$> executionsByTxHash) txHashes.

(** [ORDER BY block_number ASC, log_index ASC]. *)
Definition oldest_first (b1 l1 b2 l2 : Z) : bool := (b1 <? b2) || (b1 =? b2) && (l1 <=? l2).
Definition transfer_rows (txHashes : list jsstring) (d : Db) : list ProtocolTransferRow :=
  (fun p : EventEntry => (p, tokens d !! ev_token p.2)) <$>
  merge_sort (ordered (fun p q : EventEntry => oldest_first (ev_block p.2) p.1.2 (ev_block q.2) q.1.2))
    (List.filter (fun p : EventEntry => bool_decide (p.1.1 ∈ txHashes)) (map_to_list (events d))).
Definition oracle_rows (txHashes : list jsstring) (d : Db) : list OracleExecutionRow :=
  merge_sort (ordered (fun p q : OracleExecutionRow => oldest_first (or_block p.2) p.1.2 (or_block q.2) q.1.2))
    (List.filter (fun p : OracleExecutionRow => bool_decide (p.1.1 ∈ txHashes)) (map_to_list (oracle_executions d))).

Definition liftM {T} (r : result T) : M T := fun w => (r, w).
Definition getProtocolTransactionsByHash `{F : Faults} (txHashes : list jsstring) : M (list ProtocolTransaction) :=
  if Nat.eqb (length txHashes) 0 then mret []
  else
    transferRows ← query (transfer_rows txHashes);
    oracleRows ← query (oracle_rows txHashes);
    liftM (projectProtocolTransactions oracleRows transferRows txHashes).

(** ** oracles.ts *)

(** Contract reads pin a block; [getSigners] answers [None] when its result is
    no array. *)
Class OracleReader := {
  ORACLE_ROLE : jsstring;
  ethers_getAddress : jsstring -> result jsstring;
  reader_getBlockNumber : nat -> result Z;
  reader_hasRole : nat -> jsstring -> jsstring -> jsstring -> Z -> result bool;
  reader_getCode : nat -> jsstring -> Z -> result jsstring;
  reader_getSigners : nat -> jsstring -> Z -> result (option (list jsstring));
  reader_threshold : nat -> jsstring -> Z -> result Z;
}.

Record OracleMultisigState := { om_signers : list jsstring; om_threshold : jsnum }.
Record ApprovedOracleRoleMember := { am_address : jsstring; am_isContract : bool; am_multisig : option OracleMultisigState }.
Inductive ApprovedOracleType := contract | direct | multisig.
Inductive ApprovedInstanceType := contract_role_member | direct_role_member | multisig_signer.
(** The labels are null. *)
Record ApprovedOracleSummary := { as_address : jsstring; as_signerCount : nat; as_threshold : jsnum; as_type : ApprovedOracleType }.
Record ApprovedOracleInstance := { ai_address : jsstring; ai_approvedOracle : ApprovedOracleSummary; ai_type : ApprovedInstanceType }.
Record ApprovedOracle := { ao_summary : ApprovedOracleSummary; ao_signers : list ApprovedOracleInstance }.
Record ApprovedOracleSource := { sr_fromBlock : Z; sr_roleMembers : jsstring; sr_verifiedAtBlock : Z }.
Record ApprovedOracleInstancesResponse := {
  ar_approvedOracles : list ApprovedOracle; ar_count : nat; ar_data : list ApprovedOracleInstance; ar_oracleRole : jsstring;
  ar_relayOracleAddress : jsstring; ar_source : ApprovedOracleSource }.

Section Oracles.
Context `{F : Faults, P : Postgres, R : OracleReader}.

Definition query_normalizeAddress (address : jsstring) : result jsstring := a ← ethers_getAddress address; Ok (toLowerCase a).
Definition listIndexedOracleRoleMembers (relayOracleAddress : jsstring) : M (list jsstring) :=
  address ← liftM (query_normalizeAddress relayOracleAddress);
  rows ← query (fun d => merge_sort (ordered text_le)
    (member_account <$> List.filter (fun p : RoleMemberEntry => bool_decide (p.1.1 = address) && bool_decide (member_role p = ORACLE_ROLE))
      (elements (role_members d))));
  liftM (mapM query_normalizeAddress rows).
Definition readMultisigState (approvedOracleAddress : jsstring) (blockTag : Z) : M (option OracleMultisigState) :=
  try_catch
    (signersRaw ← rpc (fun t => reader_getSigners t approvedOracleAddress blockTag);
     thresholdRaw ← rpc (fun t => reader_threshold t approvedOracleAddress blockTag);
     match signersRaw with
     | None => mret None
     | Some raw => signers ← liftM (mapM query_normalizeAddress raw);
                   mret (Some {| om_signers := signers; om_threshold := Number_of_bigint thresholdRaw |})
     end)
    (fun _ => mret None).
Definition verifyOracleRoleMember (relayOracleAddress memberAddress : jsstring) (blockTag : Z) : M bool :=
  rpc (fun t => reader_hasRole t relayOracleAddress ORACLE_ROLE memberAddress blockTag).
Definition isContractAddress (address : jsstring) (blockTag : Z) : M bool :=
  code ← rpc (fun t => reader_getCode t address blockTag); mret (negb (bool_decide (code = js "0x"))).

Definition getRoleMemberType (member : ApprovedOracleRoleMember) : ApprovedOracleType :=
  match am_multisig member with Some _ => multisig | None => if am_isContract member then contract else direct end.
Definition getRoleMemberInstanceType (member : ApprovedOracleRoleMember) : ApprovedInstanceType :=
  if am_isContract member then contract_role_member else direct_role_member.

Definition approved_oracle (member : ApprovedOracleRoleMember) : result ApprovedOracle :=
  approvedOracleAddress ← query_normalizeAddress (am_address member);
  match am_multisig member with
  | Some m =>
      let summary := {| as_address := approvedOracleAddress; as_signerCount := length (om_signers m); as_threshold := om_threshold m;
                        as_type := multisig |} in
      signers ← mapM (fun signer => a ← query_normalizeAddress signer;
        Ok {| ai_address := a; ai_approvedOracle := summary; ai_type := multisig_signer |}) (om_signers m);
      Ok {| ao_summary := summary; ao_signers := signers |}
  | None =>
      let summary := {| as_address := approvedOracleAddress; as_signerCount := 1; as_threshold := JInt 1; as_type := getRoleMemberType member |} in
      Ok {| ao_summary := summary; ao_signers := [{| ai_address := approvedOracleAddress; ai_approvedOracle := summary;
              ai_type := getRoleMemberInstanceType member |}] |}
  end.
Definition projectApprovedOracleInstances (relayOracleAddress : jsstring) (roleMembers : list ApprovedOracleRoleMember)
    (source : ApprovedOracleSource) : result ApprovedOracleInstancesResponse :=
  approvedOracles ← mapM approved_oracle roleMembers;
  let data := mjoin (ao_signers <$> approvedOracles) in
  address ← query_normalizeAddress relayOracleAddress;
  Ok {| ar_approvedOracles := approvedOracles; ar_count := length data; ar_data := data; ar_oracleRole := ORACLE_ROLE;
        ar_relayOracleAddress := address; ar_source := source |}.

Definition verified_member (relayOracleAddress : jsstring) (latestBlock : Z) (member : jsstring) : M (option ApprovedOracleRoleMember) :=
  hasRole ← verifyOracleRoleMember relayOracleAddress member latestBlock;
  if negb hasRole then mret None
  else
    isContract ← isContractAddress member latestBlock;
    multisig ← (if isContract : bool then readMultisigState member latestBlock else mret None);
    mret (Some {| am_address := member; am_isContract := isContract; am_multisig := multisig |}).
(** The members are verified concurrently; every read pins the same block. *)
Definition getApprovedOracleInstances (relayOracleAddress : jsstring) : M ApprovedOracleInstancesResponse :=
  normalized ← liftM (query_normalizeAddress relayOracleAddress);
  latestBlock ← rpc reader_getBlockNumber;
  members ← listIndexedOracleRoleMembers normalized;
  verifiedMembers ← mapMM (verified_member normalized latestBlock) members;
  liftM (projectApprovedOracleInstances normalized (omap id verifiedMembers)
    {| sr_fromBlock := 0; sr_roleMembers := js "indexed-role-members"; sr_verifiedAtBlock := latestBlock |}).
End Oracles.

(** ** Transfer statistics (events.ts) *)

Definition TRANSFER_STATS_CACHE_TTL_MS : Z := 10 * 60 * 1000.
Definition TRANSFER_STATS_TIMEZONE : jsstring := js "UTC".
Definition granularityConfig (g : TransferStatsGranularity) : jsstring * Z :=
  match g with
  | GDay => (js "YYYY-MM-DD", 86400)
  | GHour => (js "YYYY-MM-DD HH24:00", 3600)
  | GMinute => (js "YYYY-MM-DD HH24:MI", 60)
  | GMonth => (js "YYYY-MM", 2592000)
  | GWeek => (js "YYYY-MM-DD", 604800)
  end.
Definition granularity_text (g : TransferStatsGranularity) : jsstring :=
  match g with GDay => js "day" | GHour => js "hour" | GMinute => js "minute" | GMonth => js "month" | GWeek => js "week" end.
Definition normalizeGranularity (granularity : jsstring) : TransferStatsGranularity :=
  default GDay (List.find (fun g => bool_decide (granularity_text g = granularity)) [GDay; GHour; GMinute; GMonth; GWeek]).

(** [x > 0], [Math.min(x, n)], [x * s] and [a - x]. *)
Definition num_positive (x : jsnum) : bool := int_lt 0 x.
Definition num_min (x : jsnum) (n : Z) : jsnum := if int_lt n x then JInt n else x.
Definition num_scale (x : jsnum) (s : Z) : jsnum :=
  match x with JInt n => round_double (n * s) 1 | JFrac m e => round_double (m * s) (2 ^ (- e)) | _ => x end.
Definition int_minus (a : Z) (x : jsnum) : jsnum :=
  match x with
  | JInt n => round_double (a - n) 1
  | JFrac m e => round_double (a * 2 ^ (- e) - m) (2 ^ (- e))
  | JInf neg => JInf (negb neg)
  | JNaN => JNaN
  end.

Definition normalizePoints (points : jsnum) : jsnum :=
  if isFinite points && num_positive points then num_min points 365 else JInt 30.
Definition normalizeTzOffsetMinutes (tzOffsetMinutes : jsnum) : Z := if isFinite tzOffsetMinutes then trunc tzOffsetMinutes else 0.

(** The input of [buildTransferStatsCacheKey]. *)
Record StatsInput := {
  si_format : jsstring; si_granularity : TransferStatsGranularity; si_points : jsnum; si_since : jsnum; si_tokenId : option jsstring;
  si_timezone : jsstring; si_tzOffsetMinutes : Z }.
(** [createHash("sha256").update(JSON.stringify(input)).digest("hex")]. *)
Class StatsDigest := stats_digest : StatsInput -> jsstring.
Definition buildTransferStatsCacheKey `{StatsDigest} (input : StatsInput) : jsstring :=
  js "indexer:transfer-stats:v1:" ++ stats_digest input.

Definition TransferStatRow : Type := jsstring * Z.
Definition stat_json (row : TransferStatRow) : Json := JObj [(js "bucket", JStr row.1); (js "count", JNum row.2)].
Definition json_field (key : jsstring) (fields : list (jsstring * Json)) : option Json :=
  snd <$> List.find (fun p => bool_decide (p.1 = key)) fields.
Definition json_stat (row : Json) : option TransferStatRow :=
  match row with
  | JObj fields =>
      match json_field (js "bucket") fields, json_field (js "count") fields with
      | Some (JStr bucket), Some (JNum count) => Some (bucket, count)
      | _, _ => None
      end
  | _ => None
  end.
Definition parseCachedRows (value : jsstring) : result (list TransferStatRow) :=
  rows ← JSON_parse value;
  match rows with
  | JArr items => require (mapM json_stat items) "Invalid transfer stats cache value"
  | _ => Err "Invalid transfer stats cache value"
  end.

Record TransferStatsArgs := { sa_tokenId : option jsstring; sa_granularity : jsstring; sa_points : jsnum; sa_tzOffsetMinutes : jsnum }.

Section Stats.
Context `{F : Faults, K : Clock, P : Postgres, D : StatsDigest}.

Definition buildBucketExpr (granularity : TransferStatsGranularity) (format : jsstring) (tzOffsetMinutes timestamp : Z) : jsstring :=
  pg_bucket granularity TRANSFER_STATS_TIMEZONE format tzOffsetMinutes timestamp.
(** The rows the query groups, and the groups with their counts. *)
Definition stat_buckets (input : StatsInput) (d : Db) : list jsstring :=
  (fun p : EventEntry => buildBucketExpr (si_granularity input) (si_format input) (si_tzOffsetMinutes input) (ev_timestamp p.2)) <$>
  List.filter (fun p : EventEntry => when_given (si_tokenId input) (fun t => bool_decide (ev_token p.2 = t)) &&
                                      negb (int_lt (ev_timestamp p.2) (si_since input))) (map_to_list (events d)).
Definition select_stats (input : StatsInput) (d : Db) : list TransferStatRow :=
  let buckets := stat_buckets input d in
  (fun b => (b, Z.of_nat (length (List.filter (fun x => bool_decide (x = b)) buckets)))) <$> merge_sort (ordered text_le) (remove_dups buckets).

Definition stats_input (now : Z) (args : TransferStatsArgs) : StatsInput :=
  let granularity := normalizeGranularity (sa_granularity args) in
  let points := normalizePoints (sa_points args) in
  let '(format, seconds) := granularityConfig granularity in
  let normalizedNow := now / TRANSFER_STATS_CACHE_TTL_MS * TRANSFER_STATS_CACHE_TTL_MS in
  {| si_format := format; si_granularity := granularity; si_points := points;
     si_since := int_minus (normalizedNow / 1000) (num_scale points seconds); si_tokenId := sa_tokenId args;
     si_timezone := TRANSFER_STATS_TIMEZONE; si_tzOffsetMinutes := normalizeTzOffsetMinutes (sa_tzOffsetMinutes args) |}.

(** The service's cache beside the world; the memory cache does not fail. *)
Record StatsWorld := { sw_world : World; sw_cache : CacheEntries }.
Definition stats_now (s : StatsWorld) : Z := clock_ms (w_time (sw_world s)).
Definition stats_load (key : jsstring) (input : StatsInput) (s : StatsWorld) : result (list TransferStatRow) * StatsWorld :=
  let '(cached, entries) := cache_get (stats_now s) key (sw_cache s) in
  let s := {| sw_world := sw_world s; sw_cache := entries |} in
  match (match cached with Some text => parseCachedRows text | None => Err "miss" end) with
  | Ok rows => (Ok rows, s)
  | Err _ =>
      match query (select_stats input) (sw_world s) with
      | (Err e, w) => (Err e, {| sw_world := w; sw_cache := sw_cache s |})
      | (Ok rows, w) =>
          let s := {| sw_world := w; sw_cache := sw_cache s |} in
          (Ok rows, {| sw_world := w;
             sw_cache := cache_set (stats_now s) key (JSON_stringify (JArr (stat_json <$> rows))) TRANSFER_STATS_CACHE_TTL_MS (sw_cache s) |})
      end
  end.
(** A call that finds no query of its key in flight. *)
Definition transferStats (args : TransferStatsArgs) (s : StatsWorld) : result (list TransferStatRow) * StatsWorld :=
  let input := stats_input (stats_now s) args in stats_load (buildTransferStatsCacheKey input) input s.
End Stats.
