(* ===== verification/TokenPrices.v ===== *)
(** * Token prices

    packages/indexer/src/services/tokenPrices.ts.  The price oracle is the
    interface [PriceOracle]; its answers may change from call to call.  The
    service's cache and its table of requests in flight are a state, and the
    calls, completions and the passing of time are steps on it, in any order;
    the worker pool that maps the requested tokens is a second step relation.
    The second half proves what callers get. *)

From S2P Require Import Prelude JsNum JsString JsNumber Scanner IndexerWorld IndexerTransfers IndexerRoles IndexerService IndexerQueries IndexerViews.
Local Open Scope Z_scope.
Local Open Scope js_scope.

Definition DEFAULT_CACHE_TTL_MS : Z := 5000.
Definition DEFAULT_CONCURRENCY : jsnum := JInt 10.

(** ** Results of contract calls *)

(** A field of a result: ethers returns bigints, texts and booleans. *)
Inductive FieldValue := FMissing | FBool (b : bool) | FBigint (z : Z) | FText (s : jsstring).
Inductive CallResult := AnObject (named : string -> FieldValue) (positional : nat -> FieldValue) | NoObject.
(** [fields[name] ?? fields[String(index)]]. *)
Definition readResultField (result : CallResult) (name : string) (index : nat) : FieldValue :=
  match result with
  | NoObject => FMissing
  | AnObject named positional => match named name with FMissing => positional index | v => v end
  end.
(** [String(v)], [Number(v)] and [Boolean(v)]. *)
Definition field_text (v : FieldValue) : jsstring :=
  match v with
  | FMissing => js "undefined" | FBool true => js "true" | FBool false => js "false" | FBigint z => toString10 z | FText s => s
  end.
Definition field_number (v : FieldValue) : jsnum :=
  match v with FMissing => JNaN | FBool b => JInt (Z.b2z b) | FBigint z => Number_of_bigint z | FText s => Number s end.
Definition field_bool (v : FieldValue) : bool :=
  match v with FMissing => false | FBool b => b | FBigint z => negb (z =? 0) | FText s => negb (bool_decide (s = [])) end.

Class PriceOracle := {
  feedRoutes : nat -> jsstring -> result CallResult;
  priceFeedAdapters : nat -> jsstring -> result FieldValue;
  (** [getFunction("resolveUsdPrice(uint256)").staticCall(tokenId)]. *)
  resolveUsdPrice : nat -> jsstring -> result CallResult;
}.

(** ** Prices *)

Inductive TokenPriceStatus := available | error | unavailable | unconfigured.
Record TokenPrice := {
  tp_adapterConfigured : option bool; tp_currencyDecimals : option jsnum; tp_expiration : option jsstring; tp_feedId : option jsstring;
  tp_maxAgeSeconds : option jsnum; tp_observedAt : jsstring; tp_providerId : option jsstring; tp_publishTime : option jsstring;
  tp_routeConfigured : option bool; tp_status : TokenPriceStatus; tp_tokenId : jsstring; tp_usdPrice : option jsstring;
  tp_usdPriceDecimals : option jsnum }.

(** The fields of a configured route. *)
Record RouteFields := { rf_currencyDecimals : jsnum; rf_feedId : jsstring; rf_maxAgeSeconds : jsnum; rf_providerId : jsstring }.
Definition route_fields (route : CallResult) : RouteFields := {|
  rf_currencyDecimals := field_number (readResultField route "currencyDecimals" 2);
  rf_feedId := field_text (readResultField route "feedId" 1);
  rf_maxAgeSeconds := field_number (readResultField route "maxAgeSeconds" 3);
  rf_providerId := field_text (readResultField route "providerId" 0) |}.
(** [unavailablePrice] with the overrides the code gives it. *)
Definition unavailablePrice (tokenId observedAt : jsstring) (route : option RouteFields) (adapterConfigured routeConfigured : option bool)
    (status : TokenPriceStatus) : TokenPrice := {|
  tp_adapterConfigured := adapterConfigured; tp_currencyDecimals := rf_currencyDecimals <$> route; tp_expiration := None;
  tp_feedId := rf_feedId <$> route; tp_maxAgeSeconds := rf_maxAgeSeconds <$> route; tp_observedAt := observedAt;
  tp_providerId := rf_providerId <$> route; tp_publishTime := None; tp_routeConfigured := routeConfigured; tp_status := status;
  tp_tokenId := tokenId; tp_usdPrice := None; tp_usdPriceDecimals := None |}.
Definition ZeroAddress : jsstring := ZERO_ADDRESS_LOWERCASE.

Section Reading.
Context `{O : PriceOracle}.

(** [try { Ok(await call) } catch { Err }]. *)
Definition attempt {A} (c : M A) : M (option A) := try_catch (x ← c; mret (Some x)) (fun _ => mret None).
Definition readPrice (tokenId : jsstring) (observedAtMs : Z) : M TokenPrice :=
  observedAt ← liftM (toISOString observedAtMs);
  route ← attempt (rpc (fun t => feedRoutes t tokenId));
  match route with
  | None => mret (unavailablePrice tokenId observedAt None None None error)
  | Some route =>
      if negb (field_bool (readResultField route "exists" 4)) then
        mret (unavailablePrice tokenId observedAt None (Some false) (Some false) unconfigured)
      else
        let fields := route_fields route in
        adapter ← attempt (rpc (fun t => priceFeedAdapters t (rf_providerId fields)));
        match adapter with
        | None => mret (unavailablePrice tokenId observedAt (Some fields) None (Some true) error)
        | Some adapter =>
            if bool_decide (toLowerCase (field_text adapter) = ZeroAddress) then
              mret (unavailablePrice tokenId observedAt (Some fields) (Some false) (Some true) unavailable)
            else
              result ← attempt (rpc (fun t => resolveUsdPrice t tokenId));
              match result with
              | None => mret (unavailablePrice tokenId observedAt (Some fields) (Some true) (Some true) unavailable)
              | Some result => mret {|
                  tp_adapterConfigured := Some true; tp_currencyDecimals := Some (rf_currencyDecimals fields);
                  tp_expiration := Some (field_text (readResultField result "expiration" 4)); tp_feedId := Some (rf_feedId fields);
                  tp_maxAgeSeconds := Some (rf_maxAgeSeconds fields); tp_observedAt := observedAt;
                  tp_providerId := Some (rf_providerId fields);
                  tp_publishTime := Some (field_text (readResultField result "publishTime" 3)); tp_routeConfigured := Some true;
                  tp_status := available; tp_tokenId := tokenId;
                  tp_usdPrice := Some (field_text (readResultField result "usdPrice" 0));
                  tp_usdPriceDecimals := Some (field_number (readResultField result "usdPriceDecimals" 1)) |}
              end
        end
  end.
End Reading.

(** ** The cache and the requests in flight *)

Record CachedPrice := { cp_expiresAt : jsnum; cp_value : TokenPrice }.
(** What a caller asked for and when, what it was told and when, and whether
    from the cache. *)
Record PriceAnswer := { pa_token : jsstring; pa_asked : Z; pa_time : Z; pa_value : result TokenPrice; pa_cached : bool }.
(** A caller that holds the promise of a request: the token it asked for and
    the time of its own call. *)
Record PriceCaller := { pc_request : nat; pc_token : jsstring; pc_asked : Z }.
(** A read of the oracle that has ended. *)
Record PriceRead := { rd_token : jsstring; rd_started : Z; rd_ended : Z; rd_outcome : result TokenPrice }.
(** [ps_requests] are the promises not settled yet, with the token and the time
    of the call that made them; [ps_waiting] are the callers that hold one.
    [ps_answers] and [ps_reads] record what callers were told and what was read:
    no operation consults them. *)
Record PriceState := {
  ps_now : Z; ps_cache : gmap jsstring CachedPrice; ps_inFlight : gmap jsstring nat; ps_requests : gmap nat (jsstring * Z);
  ps_next : nat; ps_waiting : list PriceCaller; ps_answers : list PriceAnswer; ps_reads : list PriceRead }.
Definition price_init (now : Z) : PriceState := {|
  ps_now := now; ps_cache := ∅; ps_inFlight := ∅; ps_requests := ∅; ps_next := 0; ps_waiting := []; ps_answers := []; ps_reads := [] |}.

Definition fresh_entry (s : PriceState) (tokenId : jsstring) : option CachedPrice :=
  match ps_cache s !! tokenId with Some c => if int_lt (ps_now s) (cp_expiresAt c) then Some c else None | None => None end.
(** The synchronous part of [getPrice]. *)
Definition getPrice (tokenId : jsstring) (s : PriceState) : PriceState :=
  match fresh_entry s tokenId with
  | Some c => {| ps_now := ps_now s; ps_cache := ps_cache s; ps_inFlight := ps_inFlight s; ps_requests := ps_requests s; ps_next := ps_next s;
      ps_waiting := ps_waiting s; ps_reads := ps_reads s;
      ps_answers := ps_answers s ++
        [{| pa_token := tokenId; pa_asked := ps_now s; pa_time := ps_now s; pa_value := Ok (cp_value c); pa_cached := true |}] |}
  | None =>
      let holding r := {| pc_request := r; pc_token := tokenId; pc_asked := ps_now s |} in
      match ps_inFlight s !! tokenId with
      | Some r => {| ps_now := ps_now s; ps_cache := ps_cache s; ps_inFlight := ps_inFlight s; ps_requests := ps_requests s;
          ps_next := ps_next s; ps_waiting := ps_waiting s ++ [holding r]; ps_answers := ps_answers s; ps_reads := ps_reads s |}
      | None => {| ps_now := ps_now s; ps_cache := ps_cache s; ps_inFlight := <[tokenId := ps_next s]> (ps_inFlight s);
          ps_requests := <[ps_next s := (tokenId, ps_now s)]> (ps_requests s); ps_next := S (ps_next s);
          ps_waiting := ps_waiting s ++ [holding (ps_next s)]; ps_answers := ps_answers s; ps_reads := ps_reads s |}
      end
  end.

Definition getCacheExpiration (cacheTtlMs now : Z) (price : TokenPrice) : result jsnum :=
  let defaultExpiration := now + cacheTtlMs in
  match truthy (tp_expiration price) with
  | None => Ok (JInt defaultExpiration)
  | Some expiration => z ← BigInt expiration; Ok (num_min (Number_of_bigint (z * 1000)) defaultExpiration)
  end.
(** The [then] of a read price: it is stored unless it has expired already. *)
Definition store_price (cacheTtlMs now : Z) (tokenId : jsstring) (value : TokenPrice) (cache : gmap jsstring CachedPrice)
  : result (gmap jsstring CachedPrice) :=
  expiresAt ← getCacheExpiration cacheTtlMs now value;
  Ok (if int_lt now expiresAt then <[tokenId := {| cp_expiresAt := expiresAt; cp_value := value |}]> cache else cache).
(** The [then] and [finally] of request [r] and the answers of the callers that
    hold it, each recorded under the token its caller asked for. *)
Definition holds_request (r : nat) (q : PriceCaller) : bool := Nat.eqb (pc_request q) r.
Definition settle (cacheTtlMs : Z) (r : nat) (tokenId : jsstring) (outcome : result TokenPrice) (s : PriceState) : PriceState :=
  let stored := (value ← outcome; store_price cacheTtlMs (ps_now s) tokenId value (ps_cache s)) in
  let answer := match stored with Ok _ => outcome | Err e => Err e end in
  {| ps_now := ps_now s; ps_cache := match stored with Ok c => c | Err _ => ps_cache s end; ps_inFlight := delete tokenId (ps_inFlight s);
     ps_requests := delete r (ps_requests s); ps_next := ps_next s; ps_waiting := List.filter (fun q => negb (holds_request r q)) (ps_waiting s);
     ps_reads := ps_reads s;
     ps_answers := ps_answers s ++ ((fun q => {| pa_token := pc_token q; pa_asked := pc_asked q; pa_time := ps_now s; pa_value := answer;
                     pa_cached := false |}) <$> List.filter (holds_request r) (ps_waiting s)) |}.
Definition at_time (now : Z) (s : PriceState) : PriceState := {|
  ps_now := now; ps_cache := ps_cache s; ps_inFlight := ps_inFlight s; ps_requests := ps_requests s; ps_next := ps_next s;
  ps_waiting := ps_waiting s; ps_answers := ps_answers s; ps_reads := ps_reads s |}.
(** The record of a read that ends now. *)
Definition note_read (tokenId : jsstring) (started : Z) (outcome : result TokenPrice) (s : PriceState) : PriceState := {|
  ps_now := ps_now s; ps_cache := ps_cache s; ps_inFlight := ps_inFlight s; ps_requests := ps_requests s; ps_next := ps_next s;
  ps_waiting := ps_waiting s; ps_answers := ps_answers s;
  ps_reads := ps_reads s ++ [{| rd_token := tokenId; rd_started := started; rd_ended := ps_now s; rd_outcome := outcome |}] |}.

Inductive price_step `{O : PriceOracle} (cacheTtlMs : Z) : PriceState -> PriceState -> Prop :=
  | step_time s now : ps_now s <= now -> price_step cacheTtlMs s (at_time now s)
  | step_call s tokenId : price_step cacheTtlMs s (getPrice tokenId s)
  | step_settle s r tokenId observedAt outcome w w' :
      ps_requests s !! r = Some (tokenId, observedAt) -> readPrice tokenId observedAt w = (outcome, w') ->
      price_step cacheTtlMs s (settle cacheTtlMs r tokenId outcome (note_read tokenId observedAt outcome s)).

(** ** The worker pool *)

(** A worker waits for its turn, awaits the mapper of an item, has left its
    loop, or was rejected. *)
Inductive Worker := Looping | Awaiting (index : nat) | Returned | Rejected.
Record Pool (R : Type) := { po_next : nat; po_workers : list Worker; po_results : list (option R) }.
Arguments po_next {R}. Arguments po_workers {R}. Arguments po_results {R}.
Definition pool_init {T R} (items : list T) (concurrency : nat) : Pool R := {|
  po_next := 0; po_workers := replicate (Nat.min concurrency (length items)) Looping; po_results := replicate (length items) None |}.

Section MapWithConcurrency.
Context {T R : Type} (mapper : T -> result R -> Prop) (items : list T).

Inductive pool_step : Pool R -> Pool R -> Prop :=
  | pool_take p w : po_workers p !! w = Some Looping -> (po_next p < length items)%nat ->
      pool_step p {| po_next := S (po_next p); po_workers := <[w := Awaiting (po_next p)]> (po_workers p); po_results := po_results p |}
  | pool_leave p w : po_workers p !! w = Some Looping -> (length items <= po_next p)%nat ->
      pool_step p {| po_next := po_next p; po_workers := <[w := Returned]> (po_workers p); po_results := po_results p |}
  | pool_store p w i x r : po_workers p !! w = Some (Awaiting i) -> items !! i = Some x -> mapper x (Ok r) ->
      pool_step p {| po_next := po_next p; po_workers := <[w := Looping]> (po_workers p); po_results := <[i := Some r]> (po_results p) |}
  | pool_reject p w i x e : po_workers p !! w = Some (Awaiting i) -> items !! i = Some x -> mapper x (Err e) ->
      pool_step p {| po_next := po_next p; po_workers := <[w := Rejected]> (po_workers p); po_results := po_results p |}.
(** [Promise.all] of the workers is fulfilled. *)
Definition pool_fulfilled (p : Pool R) : Prop := Forall (eq Returned) (po_workers p).
End MapWithConcurrency.

(** [Math.max(1, Math.trunc(options.concurrency ?? DEFAULT_CONCURRENCY))] of a
    finite option. *)
Definition pool_size (concurrency : option jsnum) : Z := Z.max 1 (trunc (default DEFAULT_CONCURRENCY concurrency)).

(** ** The price service answers for the right token, with fresh prices

    Invariants of the cache and of the requests in flight, the meaning of a
    price's status, and the worker pool: every item is mapped once, in its
    place, by a bounded number of workers that always finish. *)

Local Open Scope Z_scope.
Local Open Scope js_scope.

(** ** Comparisons *)

Lemma int_lt_mono a n x : a < n -> int_lt n x = true -> int_lt a x = true.
Proof. intros Ha. destruct x as [|neg|k|m e]; cbn [int_lt]; [done|done|lia|]. intros H. apply Z.ltb_lt in H. apply Z.ltb_lt. pose proof (Z.pow_nonneg 2 (- e)). nia. Qed.
Lemma int_lt_num_min a x n : int_lt a (num_min x n) = true <-> a < n /\ int_lt a x = true.
Proof.
  unfold num_min. destruct (int_lt n x) eqn:E.
  - cbn [int_lt]. rewrite Z.ltb_lt. split; [intros H; split; [done|by eapply int_lt_mono]|by intros []].
  - split; [|by intros []]. intros H. split; [|done]. destruct (Z.lt_ge_cases a n) as [|Hn]; [done|]. exfalso.
    destruct (Z.eq_dec a n) as [->|]; [congruence|]. rewrite (int_lt_mono n a x) in E; [done|lia|done].
Qed.

(** ** What a cached price promises *)

Section Freshness.
Context `{O : PriceOracle} (cacheTtlMs : Z).

(** The price expires after [time]: its own expiration lies ahead. *)
Definition not_expired (v : TokenPrice) (time : Z) : Prop :=
  forall text z, truthy (tp_expiration v) = Some text -> BigInt text = Ok z -> int_lt time (Number_of_bigint (z * 1000)) = true.
(** A price that was read at [since] may be served at [time]: within the time to
    live, and before its own expiration. *)
Definition fresh_at (since : Z) (v : TokenPrice) (time : Z) : Prop := since <= time < since + cacheTtlMs /\ not_expired v time.

Lemma expiration_fresh since now v x : getCacheExpiration cacheTtlMs since v = Ok x -> since <= now -> int_lt now x = true -> fresh_at since v now.
Proof using.
  unfold getCacheExpiration. intros Hx Hs Hn. destruct (truthy (tp_expiration v)) as [text|] eqn:Et.
  - apply bind_ok in Hx as (z & Hz & E). injection E as <-. apply int_lt_num_min in Hn as [H1 H2]. split; [lia|].
    intros text' z' Et' Hz'. rewrite Et in Et'. injection Et' as <-. congruence.
  - injection Hx as <-. cbn in Hn. split; [lia|]. intros text z E. congruence.
Qed.

Lemma attempt_ok {A} (c : M A) w x w' : attempt c w = (x, w') -> exists y, x = Ok y.
Proof using. unfold attempt, try_catch, mbind, M_bind. destruct (c w) as [[a|e] v]; intros [= <- _]; eauto. Qed.
Lemma readPrice_token tokenId observedAt w v w' : readPrice tokenId observedAt w = (Ok v, w') -> tp_tokenId v = tokenId.
Proof using.
  intros H. assert (wp (readPrice tokenId observedAt) (fun v _ => tp_tokenId v = tokenId) (fun _ _ => True) w) as Hw.
  { clear. unfold readPrice, attempt.
    repeat first [done | apply wp_bind | (apply wp_ret; done)
      | match goal with |- wp (try_catch _ _) _ _ _ => apply wp_try | |- wp (rpc _) _ _ _ => apply wp_rpc; intros
        | |- wp (liftM ?r) _ _ _ => unfold wp, liftM; destruct r | |- wp (match ?x with _ => _ end) _ _ _ => destruct x
        | |- wp (mret _) _ _ _ => apply wp_ret end]. }
  unfold wp in Hw. by rewrite H in Hw.
Qed.

(** ** The invariant *)

(** The answer [a] is the outcome [v] of the read [rd]: a read of the token the
    caller asked for.  From the cache, the read had ended within the time to
    live and the price has not expired; otherwise the read was under way when
    the caller asked and ended as it was answered. *)
Record answered_by (a : PriceAnswer) (v : TokenPrice) (rd : PriceRead) : Prop := {
  ab_token : rd_token rd = pa_token a;
  ab_value : rd_outcome rd = Ok v;
  ab_cached : pa_cached a = true -> pa_asked a = pa_time a /\ fresh_at (rd_ended rd) v (pa_time a);
  ab_waited : pa_cached a = false -> rd_started rd <= pa_asked a <= rd_ended rd /\ pa_time a = rd_ended rd }.
Definition answer_ok (reads : list PriceRead) (a : PriceAnswer) : Prop :=
  forall v, pa_value a = Ok v -> exists rd, rd ∈ reads /\ answered_by a v rd.
(** The oracle gave the outcome of the read, for the token of the read. *)
Definition read_ok (rd : PriceRead) : Prop :=
  (exists w w', readPrice (rd_token rd) (rd_started rd) w = (rd_outcome rd, w')) /\
  (forall v, rd_outcome rd = Ok v -> tp_tokenId v = rd_token rd).
Definition entry_ok (now : Z) (reads : list PriceRead) (tokenId : jsstring) (c : CachedPrice) : Prop :=
  exists rd, rd ∈ reads /\ rd_token rd = tokenId /\ rd_outcome rd = Ok (cp_value c) /\ rd_ended rd <= now /\
    getCacheExpiration cacheTtlMs (rd_ended rd) (cp_value c) = Ok (cp_expiresAt c).
Definition caller_ok (now : Z) (requests : gmap nat (jsstring * Z)) (q : PriceCaller) : Prop :=
  exists o, requests !! pc_request q = Some (pc_token q, o) /\ o <= pc_asked q <= now.
Record price_inv (s : PriceState) : Prop := {
  pi_flight : forall tokenId r, ps_inFlight s !! tokenId = Some r <-> exists o, ps_requests s !! r = Some (tokenId, o);
  pi_ids : forall r x, ps_requests s !! r = Some x -> (r < ps_next s)%nat /\ x.2 <= ps_now s;
  pi_waiting : Forall (caller_ok (ps_now s) (ps_requests s)) (ps_waiting s);
  pi_cache : forall tokenId c, ps_cache s !! tokenId = Some c -> entry_ok (ps_now s) (ps_reads s) tokenId c;
  pi_answers : Forall (answer_ok (ps_reads s)) (ps_answers s);
  pi_reads : Forall read_ok (ps_reads s) }.

Lemma init_inv now : price_inv (price_init now).
Proof using.
  split; cbn; try (intros ? ? H; by rewrite lookup_empty in H); try apply Forall_nil_2.
  intros t r. rewrite lookup_empty. split; [done|]. intros (o & Ho). by rewrite lookup_empty in Ho.
Qed.

(** More reads and a later time keep what is known. *)
Lemma answer_ok_more reads rd a : answer_ok reads a -> answer_ok (reads ++ [rd]) a.
Proof using. intros H v E. destruct (H v E) as (x & Hx & ?). exists x. split; [|done]. apply elem_of_app. by left. Qed.
Lemma entry_ok_more now reads rd t c : entry_ok now reads t c -> entry_ok now (reads ++ [rd]) t c.
Proof using. intros (x & Hx & ?). exists x. split; [|done]. apply elem_of_app. by left. Qed.
Lemma at_time_inv now s : ps_now s <= now -> price_inv s -> price_inv (at_time now s).
Proof using.
  intros Hnow [Hf Hi Hw Hc Ha Hr]. split; try done; cbn [at_time ps_now ps_cache ps_inFlight ps_requests ps_next ps_waiting ps_answers ps_reads].
  - intros r x Hx. apply Hi in Hx. lia.
  - eapply Forall_impl; [exact Hw|]. intros q (o & Ho & ?). exists o. split; [done|lia].
  - intros t c H. destruct (Hc t c H) as (rd & ? & ? & ? & ? & ?). exists rd. split_and!; try done. lia.
Qed.
Lemma note_read_inv t o outcome w w' s : readPrice t o w = (outcome, w') -> price_inv s -> price_inv (note_read t o outcome s).
Proof using.
  intros Hread [Hf Hi Hw Hc Ha Hr]. split; try done; cbn [note_read ps_now ps_cache ps_inFlight ps_requests ps_next ps_waiting ps_answers ps_reads].
  - intros t' c H. by apply entry_ok_more, Hc.
  - eapply Forall_impl; [exact Ha|]. intros a. apply answer_ok_more.
  - apply Forall_app. split; [done|]. constructor; [|constructor]. split; cbn; [eauto|]. intros v ->. by eapply readPrice_token.
Qed.

Lemma fresh_entry_ok s tokenId c : price_inv s -> fresh_entry s tokenId = Some c ->
  exists rd, rd ∈ ps_reads s /\ rd_token rd = tokenId /\ rd_outcome rd = Ok (cp_value c) /\ fresh_at (rd_ended rd) (cp_value c) (ps_now s).
Proof using.
  intros Hs. unfold fresh_entry. destruct (ps_cache s !! tokenId) as [c'|] eqn:Ec; [|done]. destruct (int_lt _ _) eqn:El; [|done].
  intros [= ->]. destruct (pi_cache s Hs _ _ Ec) as (rd & Hin & Ht & Ho & Hle & Hx). exists rd. split_and!; try done; by eapply expiration_fresh.
Qed.
Lemma call_inv tokenId s : price_inv s -> price_inv (getPrice tokenId s).
Proof using.
  intros Hs. unfold getPrice. destruct (fresh_entry s tokenId) as [c|] eqn:Ec.
  { destruct (fresh_entry_ok _ _ _ Hs Ec) as (rd & Hin & Ht & Ho & Hfr). destruct Hs. split; try done. cbn. apply Forall_app. split; [done|].
    constructor; [|constructor]. intros v E. injection E as <-. exists rd. split; [done|]. by split. }
  destruct Hs as [Hf Hi Hw Hc Ha Hrd]. destruct (ps_inFlight s !! tokenId) as [r|] eqn:Er.
  { split; try done. cbn. apply Forall_app. split; [done|]. constructor; [|constructor]. apply Hf in Er as (o & Ho). exists o. cbn.
    split; [done|]. apply Hi in Ho. cbn in Ho. lia. }
  assert (ps_requests s !! ps_next s = None) as Hn by (apply eq_None_not_Some; intros [x Hx]; apply Hi in Hx; lia).
  split; cbn; try done.
  - intros t r. rewrite !lookup_insert. destruct (decide (tokenId = t)) as [->|Ht], (decide (ps_next s = r)) as [<-|Hr].
    + split; [eauto|done].
    + split; [by intros [= E]|]. intros (o & Ho). assert (ps_inFlight s !! t = Some r) by (apply Hf; eauto). congruence.
    + rewrite Hf. split; [intros (o & Ho); congruence|]. intros (o & Ho). congruence.
    + apply Hf.
  - intros r x. rewrite lookup_insert. case_decide; [intros [= <-]; cbn; lia|]. intros Hx. apply Hi in Hx. lia.
  - apply Forall_app. split.
    + eapply Forall_impl; [exact Hw|]. intros q (o & Ho & ?). exists o. split; [|done]. rewrite lookup_insert. case_decide; [congruence|done].
    + constructor; [|constructor]. exists (ps_now s). cbn. rewrite lookup_insert. case_decide; [split; [done|lia]|done].
Qed.

Lemma store_ok s tokenId v cache rd : price_inv s -> rd ∈ ps_reads s -> rd_token rd = tokenId -> rd_outcome rd = Ok v -> rd_ended rd = ps_now s ->
  store_price cacheTtlMs (ps_now s) tokenId v (ps_cache s) = Ok cache ->
  forall t c, cache !! t = Some c -> entry_ok (ps_now s) (ps_reads s) t c.
Proof using.
  intros Hs Hin Ht Hv He H t c Hc. unfold store_price in H. apply bind_ok in H as (x & Hx & E). injection E as <-.
  destruct (int_lt (ps_now s) x); [|by apply (pi_cache s Hs)]. rewrite lookup_insert in Hc. case_decide; [|by apply (pi_cache s Hs)].
  injection Hc as <-. exists rd. cbn [cp_value cp_expiresAt]. rewrite He. split_and!; try done; try congruence; lia.
Qed.
(** Settling a request whose read has just been recorded. *)
Lemma settle_inv s r tokenId o outcome rd : price_inv s -> ps_requests s !! r = Some (tokenId, o) ->
  rd ∈ ps_reads s -> rd = {| rd_token := tokenId; rd_started := o; rd_ended := ps_now s; rd_outcome := outcome |} ->
  price_inv (settle cacheTtlMs r tokenId outcome s).
Proof using.
  intros Hs Hr Hin Erd. pose proof Hs as [Hf Hi Hw Hc Ha Hrd]. unfold settle.
  assert (ps_inFlight s !! tokenId = Some r) as Hfl by (apply Hf; eauto).
  split; cbn [ps_now ps_cache ps_inFlight ps_requests ps_next ps_waiting ps_answers ps_reads]; [..|exact Hrd].
  - intros t r'. rewrite !lookup_delete. destruct (decide (tokenId = t)) as [->|Ht], (decide (r = r')) as [<-|Hr'].
    + split; [done|by intros (? & ?)].
    + split; [done|]. intros (o' & Ho'). assert (ps_inFlight s !! t = Some r') by (apply Hf; eauto). congruence.
    + rewrite Hf. split; [intros (o' & Ho'); congruence|by intros (? & ?)].
    + apply Hf.
  - intros r' x Hx. apply lookup_delete_Some in Hx as [_ Hx]. by eapply Hi.
  - apply Forall_forall. intros q Hq. apply list_elem_of_In, filter_In in Hq as [Hq Hne]. apply list_elem_of_In in Hq.
    rewrite Forall_forall in Hw. destruct (Hw q Hq) as (o' & Ho' & ?). exists o'. split; [|done]. rewrite lookup_delete_ne; [done|].
    intros ->. unfold holds_request in Hne. by rewrite Nat.eqb_refl in Hne.
  - destruct outcome as [v|e]; cbn [mbind result_bind]; [|done].
    destruct (store_price cacheTtlMs (ps_now s) tokenId v (ps_cache s)) as [cache|e] eqn:E; [|done].
    apply (store_ok s tokenId v cache rd); [done|done|by subst rd..|exact E].
  - apply Forall_app. split; [done|]. apply Forall_fmap, Forall_forall. intros q Hq v E. cbn in E.
    apply list_elem_of_In, filter_In in Hq as [Hq Hreq]. apply Nat.eqb_eq in Hreq. apply list_elem_of_In in Hq.
    rewrite Forall_forall in Hw. destruct (Hw q Hq) as (o' & Ho' & Hle). rewrite Hreq, Hr in Ho'. injection Ho' as -> ->.
    exists rd. split; [done|]. subst rd. split; cbn; try done.
    destruct outcome as [v0|e]; cbn [mbind result_bind] in E; [|done]. by destruct (store_price _ _ _ _ _) in E.
Qed.

Lemma step_inv s s' : price_inv s -> price_step cacheTtlMs s s' -> price_inv s'.
Proof using.
  intros Hs H. revert Hs. destruct H as [s now Hnow|s tokenId|s r tokenId o outcome w w' Hr Hread]; intros Hs;
    [by apply at_time_inv|by apply call_inv|]. eapply settle_inv; [by eapply note_read_inv|exact Hr| |reflexivity].
  cbn. apply elem_of_app. right. by left.
Qed.
Lemma reachable_inv s s' : rtc (price_step cacheTtlMs) s s' -> price_inv s -> price_inv s'.
Proof using. induction 1 as [|s s1 s' Hstep _ IH]; [done|]. intros Hs. apply IH. by eapply step_inv. Qed.

(** C29: However calls, oracle answers and the clock interleave, at most one
    read of a token is in flight, and every caller that waits holds the request
    in flight for the token it asked for.  A caller that is told a price is told
    the outcome of a recorded read of the token it asked for, which the oracle
    gave: when it is served from the cache, the read ended no longer ago than the
    time to live and the price has not passed its own expiration; when it waited,
    the read was under way as it called and ended as it was answered. *)
Theorem prices_stay_fresh now s : rtc (price_step cacheTtlMs) (price_init now) s ->
  (forall r1 r2 tokenId o1 o2, ps_requests s !! r1 = Some (tokenId, o1) -> ps_requests s !! r2 = Some (tokenId, o2) -> r1 = r2) /\
  Forall (fun q => exists o, ps_requests s !! pc_request q = Some (pc_token q, o) /\ o <= pc_asked q <= ps_now s /\
                   ps_inFlight s !! pc_token q = Some (pc_request q)) (ps_waiting s) /\
  Forall (fun a => forall v, pa_value a = Ok v -> tp_tokenId v = pa_token a /\ exists rd, rd ∈ ps_reads s /\ answered_by a v rd) (ps_answers s) /\
  Forall (fun rd => exists w w', readPrice (rd_token rd) (rd_started rd) w = (rd_outcome rd, w')) (ps_reads s).
Proof using.
  intros H. destruct (reachable_inv _ _ H (init_inv now)) as [Hf _ Hw _ Ha Hrd]. split_and!.
  - intros r1 r2 t o1 o2 H1 H2. assert (ps_inFlight s !! t = Some r1) by (apply Hf; eauto).
    assert (ps_inFlight s !! t = Some r2) by (apply Hf; eauto). congruence.
  - eapply Forall_impl; [exact Hw|]. intros q (o & Ho & ?). exists o. split_and!; try done; try lia. apply Hf. eauto.
  - eapply Forall_impl; [exact Ha|]. intros a Hok v E. destruct (Hok v E) as (rd & Hin & Hab). split; [|by exists rd].
    rewrite Forall_forall in Hrd. destruct (Hrd rd Hin) as [_ Ht]. rewrite (Ht v (ab_value _ _ _ Hab)). apply Hab.
  - eapply Forall_impl; [exact Hrd|]. by intros rd [].
Qed.
End Freshness.

(** ** What a status means *)

Section Status.
Context `{O : PriceOracle}.

Ltac no_price := eexists _, _; split; [reflexivity|]; cbn; split_and!; try done; try (by split; [intros []|]).
(** The three reads, at the times they are made. *)
Lemma attempt_rpc {A} (f : nat -> result A) w :
  attempt (rpc f) w = (Ok (match f (w_time w) with Ok a => Some a | Err _ => None end), advance (w_db w) w).
Proof using. unfold attempt, try_catch, rpc, mbind, M_bind. by destruct (f (w_time w)). Qed.

Definition route_exists (route : CallResult) : bool := field_bool (readResultField route "exists" 4).
(** What the oracle answers from time [t] on decides the status. *)
Definition status_spec (t : nat) (tokenId : jsstring) : TokenPriceStatus :=
  match feedRoutes t tokenId with
  | Err _ => error
  | Ok route =>
      if negb (route_exists route) then unconfigured
      else match priceFeedAdapters (S t) (field_text (readResultField route "providerId" 0)) with
           | Err _ => error
           | Ok adapter =>
               if bool_decide (toLowerCase (field_text adapter) = ZeroAddress) then unavailable
               else match resolveUsdPrice (S (S t)) tokenId with Err _ => unavailable | Ok _ => available end
           end
  end.
(** Reading a price never fails once its time is a date: the status tells which
    of the three reads failed or found nothing, a price is given exactly when
    the status is available, and it is the one the oracle resolved, with the
    expiration it named. *)
Theorem price_status_meaning tokenId observedAt iso w : toISOString observedAt = Ok iso ->
  exists v w', readPrice tokenId observedAt w = (Ok v, w') /\ w_db w' = w_db w /\
    tp_status v = status_spec (w_time w) tokenId /\ tp_tokenId v = tokenId /\ tp_observedAt v = iso /\
    (is_Some (tp_usdPrice v) <-> tp_status v = available) /\ (is_Some (tp_expiration v) <-> tp_status v = available) /\
    (forall result, resolveUsdPrice (S (S (w_time w))) tokenId = Ok result -> tp_status v = available ->
      tp_usdPrice v = Some (field_text (readResultField result "usdPrice" 0)) /\
      tp_expiration v = Some (field_text (readResultField result "expiration" 4))).
Proof using.
  intros Hiso. unfold readPrice, status_spec, route_exists. unfold mbind at 1, M_bind at 1. unfold liftM at 1. rewrite Hiso.
  assert (forall X Y (c : M X) (f : X -> M Y) w0, (c ≫= f) w0 = match c w0 with (Ok a, w1) => f a w1 | (Err e, w1) => (Err e, w1) end) as Hb by done.
  rewrite Hb, attempt_rpc. cbn [w_time advance].
  destruct (feedRoutes (w_time w) tokenId) as [route|e]; [|by no_price].
  destruct (field_bool (readResultField route "exists" 4)); cbn [negb]; [|by no_price].
  rewrite Hb, attempt_rpc. cbn [w_time advance rf_providerId route_fields].
  destruct (priceFeedAdapters _ _) as [adapter|e]; [|by no_price].
  destruct (bool_decide _); [by no_price|].
  rewrite Hb, attempt_rpc. cbn [w_time advance].
  destruct (resolveUsdPrice _ tokenId) as [res|e]; [|by no_price].
  eexists _, _. split; [reflexivity|]. cbn. split_and!; try done. by intros result [= <-] _.
Qed.
End Status.

(** ** The worker pool *)

Section PoolProofs.
Context {T R : Type} (mapper : T -> result R -> Prop) (items : list T) (concurrency : nat).

Definition no_rejection (p : Pool R) : Prop := Rejected ∉ po_workers p.
Record pool_inv (p : Pool R) : Prop := {
  pl_workers : length (po_workers p) = Nat.min concurrency (length items);
  pl_length : length (po_results p) = length items;
  pl_next : (po_next p <= length items)%nat;
  pl_stored : forall i r, po_results p !! i = Some (Some r) -> exists x, items !! i = Some x /\ mapper x (Ok r);
  pl_awaiting : forall w i, po_workers p !! w = Some (Awaiting i) -> (i < po_next p)%nat;
  pl_distinct : forall w v i, po_workers p !! w = Some (Awaiting i) -> po_workers p !! v = Some (Awaiting i) -> w = v;
  pl_started : no_rejection p -> forall i, (i < po_next p)%nat ->
    (exists r, po_results p !! i = Some (Some r)) \/ (exists w, po_workers p !! w = Some (Awaiting i));
  pl_returned : forall w, po_workers p !! w = Some Returned -> po_next p = length items }.

Lemma pool_init_inv : pool_inv (pool_init items concurrency).
Proof using.
  split; cbn [pool_init po_next po_workers po_results].
  - apply length_replicate.
  - apply length_replicate.
  - lia.
  - intros i r H. by apply lookup_replicate in H as [? _].
  - intros w i H. by apply lookup_replicate in H as [? _].
  - intros w v i H. by apply lookup_replicate in H as [? _].
  - lia.
  - intros w H. by apply lookup_replicate in H as [? _].
Qed.

(** A worker after another one changed. *)
Lemma insert_worker (ws : list Worker) (w v : nat) (x y : Worker) : <[w := x]> ws !! v = Some y -> (v = w /\ y = x) \/ (v <> w /\ ws !! v = Some y).
Proof using. intros H. apply list_lookup_insert_Some in H as [(-> & -> & _)|(? & ?)]; [by left|right; done]. Qed.
Lemma worker_changed (ws : list Worker) (w : nat) (x y : Worker) : ws !! w = Some y -> <[w := x]> ws !! w = Some x.
Proof using. intros H. apply list_lookup_insert_eq. by eapply lookup_lt_Some. Qed.
Lemma worker_kept (ws : list Worker) (w v : nat) (x y z : Worker) : ws !! w = Some y -> ws !! v = Some z -> y <> z -> <[w := x]> ws !! v = Some z.
Proof using. intros Hw Hv Hne. rewrite list_lookup_insert_ne; [done|]. intros ->. congruence. Qed.
Lemma no_rejection_back (ws : list Worker) (w : nat) (x y : Worker) : ws !! w = Some y -> y <> Rejected -> Rejected ∉ <[w := x]> ws -> Rejected ∉ ws.
Proof using.
  intros Hw Hy H Hin. apply H. apply list_elem_of_lookup_1 in Hin as [v Hv]. apply (list_elem_of_lookup_2 _ v). by eapply worker_kept.
Qed.

Ltac workers := repeat match goal with H : <[_ := _]> _ !! _ = Some _ |- _ => apply insert_worker in H as [[-> H]|[? H]] end; try discriminate.
Lemma pool_step_inv p p' : pool_inv p -> pool_step mapper items p p' -> pool_inv p'.
Proof using.
  intros Hp H. revert Hp. destruct H as [p w Hw Hn|p w Hw Hn|p w i x r Hw Hx Hm|p w i x e Hw Hx Hm];
    intros [Hk Hl Hle Hs Ha Hd Hst Hr]; split; cbn [po_next po_workers po_results no_rejection] in *;
    rewrite ?length_insert; try done; try lia.
  - intros v i H. workers; [by simplify_eq; lia|]. apply Ha in H. lia.
  - intros v1 v2 i H1 H2. workers; simplify_eq; first [done|by eapply Hd|exfalso;
      repeat match goal with H : po_workers p !! _ = Some (Awaiting _) |- _ => apply Ha in H end; lia].
  - intros Hrej i Hi. apply (no_rejection_back _ _ _ _ Hw) in Hrej; [|done]. destruct (decide (i = po_next p)) as [->|].
    + right. exists w. by eapply worker_changed.
    + destruct (Hst Hrej i ltac:(lia)) as [|[v Hv]]; [by left|right]. exists v. by eapply worker_kept.
  - intros v H. workers. apply Hr in H. lia.
  - intros v i H. workers. by eapply Ha.
  - intros v1 v2 i H1 H2. workers. by eapply Hd.
  - intros Hrej i Hi. apply (no_rejection_back _ _ _ _ Hw) in Hrej; [|done]. destruct (Hst Hrej i Hi) as [|[v Hv]]; [by left|right].
    exists v. by eapply worker_kept.
  - intros j r' H. apply list_lookup_insert_Some in H as [(-> & E & _)|(_ & H)]; [|by apply Hs]. injection E as <-. eauto.
  - intros v j H. workers. by eapply Ha.
  - intros v1 v2 j H1 H2. workers. by eapply Hd.
  - intros Hrej j Hj. apply (no_rejection_back _ _ _ _ Hw) in Hrej; [|done]. destruct (decide (j = i)) as [->|].
    + left. exists r. apply list_lookup_insert_eq. apply lookup_lt_Some in Hx. lia.
    + destruct (Hst Hrej j Hj) as [[r' Hr']|[v Hv]]; [left; exists r'; by rewrite list_lookup_insert_ne|right].
      exists v. rewrite list_lookup_insert_ne; [done|]. intros ->. congruence.
  - intros v H. workers. by eapply Hr.
  - intros v j H. workers. by eapply Ha.
  - intros v1 v2 j H1 H2. workers. by eapply Hd.
  - intros Hrej. exfalso. apply Hrej. apply (list_elem_of_lookup_2 _ w). by eapply worker_changed.
  - intros v H. workers. by eapply Hr.
Qed.
Lemma pool_reachable_inv p p' : rtc (pool_step mapper items) p p' -> pool_inv p -> pool_inv p'.
Proof using. induction 1 as [|p p1 p' Hstep _ IH]; [done|]. intros Hp. apply IH. by eapply pool_step_inv. Qed.

(** Every step brings the pool closer to its end. *)
Definition worker_work (w : Worker) : nat := match w with Looping => 1 | Awaiting _ => 2 | Returned | Rejected => 0 end.
Definition pool_work (p : Pool R) : nat := (2 * (length items - po_next p) + sum_list_with worker_work (po_workers p))%nat.
Lemma sum_insert (ws : list Worker) (w : nat) (x y : Worker) : ws !! w = Some y ->
  (sum_list_with worker_work (<[w := x]> ws) + worker_work y = sum_list_with worker_work ws + worker_work x)%nat.
Proof using.
  revert w. induction ws as [|z ws IH]; intros [|w] H; try done.
  - injection H as ->. change (<[0%nat := x]> (y :: ws)) with (x :: ws). cbn [sum_list_with]. lia.
  - change (<[S w := x]> (z :: ws)) with (z :: <[w := x]> ws). cbn [sum_list_with]. apply IH in H. lia.
Qed.
Lemma pool_step_decreases p p' : pool_step mapper items p p' -> (pool_work p' < pool_work p)%nat.
Proof using.
  unfold pool_work. destruct 1 as [p w Hw Hn|p w Hw Hn|p w i x r Hw Hx Hm|p w i x e Hw Hx Hm]; cbn [po_next po_workers];
    [pose proof (sum_insert _ _ (Awaiting (po_next p)) _ Hw)|pose proof (sum_insert _ _ Returned _ Hw)
    |pose proof (sum_insert _ _ Looping _ Hw)|pose proof (sum_insert _ _ Rejected _ Hw)]; cbn [worker_work] in *; lia.
Qed.
Lemma pool_progress p : pool_inv p -> (forall x, x ∈ items -> exists r, mapper x r) ->
  Forall (fun w => w = Returned \/ w = Rejected) (po_workers p) \/ exists p', pool_step mapper items p p'.
Proof using.
  intros Hp Hm. destruct (List.find (fun w => match w with Looping | Awaiting _ => true | _ => false end) (po_workers p)) as [w|] eqn:E.
  - right. apply find_some in E as [Hw Hn]. apply list_elem_of_In in Hw.
    apply list_elem_of_lookup_1 in Hw as [v Hv]. destruct w as [|i| |]; [|..|done|done].
    + destruct (decide (po_next p < length items)%nat); [eexists; by eapply pool_take|eexists; eapply pool_leave; [done|lia]].
    + pose proof (pl_awaiting p Hp _ _ Hv). pose proof (pl_next p Hp).
      destruct (lookup_lt_is_Some_2 items i ltac:(lia)) as [x Hx]. destruct (Hm x ltac:(by eapply list_elem_of_lookup_2)) as [[r|e] Hr];
        eexists; [by eapply pool_store|by eapply pool_reject].
  - left. apply Forall_forall. intros w Hw. apply list_elem_of_In in Hw. apply (find_none _ _ E) in Hw. destruct w; try done; eauto.
Qed.

Lemma fulfilled_results p : pool_inv p -> (0 < concurrency)%nat -> pool_fulfilled p ->
  exists rs, po_results p = Some <$> rs /\ Forall2 (fun x r => mapper x (Ok r)) items rs.
Proof using.
  intros Hp Hc Hf. unfold pool_fulfilled in Hf. rewrite Forall_forall in Hf.
  assert (po_next p = length items) as Hn.
  { destruct (po_workers p) as [|w ws] eqn:E.
    - pose proof (pl_workers p Hp) as Hk. rewrite E in Hk. cbn in Hk. pose proof (pl_next p Hp). lia.
    - apply (pl_returned p Hp 0). rewrite E. cbn. f_equal. symmetry. apply Hf. left. }
  assert (no_rejection p) as Hrej by (intros Hin; by apply Hf in Hin).
  assert (forall i, (i < length items)%nat -> exists r, po_results p !! i = Some (Some r)) as Hall.
  { intros i Hi. destruct (pl_started p Hp Hrej i ltac:(lia)) as [|[w Hw]]; [done|]. apply list_elem_of_lookup_2, Hf in Hw. done. }
  assert (exists rs, po_results p = Some <$> rs) as (rs & Ers).
  { pose proof (pl_length p Hp) as Hlen. assert (Forall is_Some (po_results p)) as HS.
    { apply Forall_lookup. intros i x Hx. destruct (Hall i) as [r Hr]; [apply lookup_lt_Some in Hx; lia|]. rewrite Hr in Hx. injection Hx as <-. eauto. }
    clear -HS. induction HS as [|x l [r ->] _ [rs IH]]; [by exists []|]. exists (r :: rs). cbn. by f_equal. }
  exists rs. split; [done|]. apply Forall2_same_length_lookup_2.
  - pose proof (pl_length p Hp) as Hlen. rewrite Ers, length_fmap in Hlen. done.
  - intros i x r Hx Hr. destruct (pl_stored p Hp i r) as (x' & Hx' & Hm); [by rewrite Ers, list_lookup_fmap, Hr|]. congruence.
Qed.
End PoolProofs.

(** [mapWithConcurrency]: in every schedule of the workers at most [concurrency]
    items are being mapped and none twice, the pool takes boundedly many steps
    and never gets stuck, and when it is fulfilled the results are those of the
    items, each in the place of its item. *)
Theorem worker_pool_maps_all {T R} (mapper : T -> result R -> Prop) (items : list T) (concurrency : nat) (p : Pool R) :
  (0 < concurrency)%nat -> (forall x, x ∈ items -> exists r, mapper x r) -> rtc (pool_step mapper items) (pool_init items concurrency) p ->
  (length (po_workers p) <= concurrency)%nat /\
  (forall w v i, po_workers p !! w = Some (Awaiting i) -> po_workers p !! v = Some (Awaiting i) -> w = v) /\
  (Forall (fun w => w = Returned \/ w = Rejected) (po_workers p) \/ exists p', pool_step mapper items p p') /\
  (forall p', pool_step mapper items p p' -> (pool_work items p' < pool_work items p)%nat) /\
  (pool_fulfilled p -> exists rs, po_results p = Some <$> rs /\ Forall2 (fun x r => mapper x (Ok r)) items rs).
Proof.
  intros Hc Hm H. pose proof (pool_reachable_inv _ _ _ _ _ H (pool_init_inv mapper items concurrency)) as Hp. split_and!.
  - rewrite (pl_workers _ _ _ _ Hp). lia.
  - apply (pl_distinct _ _ _ _ Hp).
  - by eapply pool_progress.
  - intros p' Hs. by eapply pool_step_decreases.
  - by eapply fulfilled_results.
Qed.

(** ** Concrete runs *)

Section ConcretePrices.
(** A routed token whose price expires at second 1000. *)
Definition toy_route : CallResult := AnObject (fun n => if String.eqb n "exists" then FBool true else if String.eqb n "providerId" then FText (js "0x01") else FMissing) (fun _ => FBigint 6).
Definition toy_usd : CallResult := AnObject (fun n => if String.eqb n "expiration" then FBigint 1000 else FMissing) (fun _ => FBigint 42).
Definition toy_prices : PriceOracle := {|
  feedRoutes := fun _ _ => Ok toy_route; priceFeedAdapters := fun _ _ => Ok (FText (js "0x02")); resolveUsdPrice := fun _ _ => Ok toy_usd |}.
Definition toy_world : World := {|
  w_db := {| tokens := ∅; balances := ∅; events := ∅; failed_events := ∅; role_events := ∅; role_members := ∅; role_admins := ∅;
             oracle_executions := ∅; meta := ∅ |}; w_time := 0; w_cache := ∅; w_updated := 0; w_txs := ∅ |}.
(** Two calls share one read; a later call is served from the cache. *)
Definition toy_called : PriceState := getPrice (js "7") (getPrice (js "7") (price_init 0)).
Definition toy_settled : PriceState := 
  let outcome := fst (readPrice (O := toy_prices) (js "7") 0 toy_world) in settle 5000 0 (js "7") outcome (note_read (js "7") 0 outcome toy_called).
Definition toy_served : PriceState := getPrice (js "7") (at_time 900 toy_settled).
Lemma toy_served_reachable : rtc (price_step (O := toy_prices) 5000) (price_init 0) toy_served.
Proof using.
  apply (rtc_l _ _ (getPrice (js "7") (price_init 0))); [apply step_call|]. apply (rtc_l _ _ toy_called); [apply step_call|].
  apply (rtc_l _ _ toy_settled).
  { apply (step_settle _ toy_called 0 (js "7") 0 _ toy_world (snd (readPrice (O := toy_prices) (js "7") 0 toy_world))); [reflexivity|].
    apply surjective_pairing. }
  apply (rtc_l _ _ (at_time 900 toy_settled)); [apply step_time; change (0 <= 900); lia|]. apply (rtc_l _ _ toy_served); [apply step_call|].
  apply rtc_refl.
Qed.
Lemma prices_fresh_witness : (fun a => (pa_cached a, pa_asked a, pa_time a)) <$> ps_answers toy_served = [(false, 0, 0); (false, 0, 0); (true, 900, 900)] /\
  Forall (fun a => forall v, pa_value a = Ok v -> tp_tokenId v = pa_token a /\ exists rd, rd ∈ ps_reads toy_served /\ answered_by 5000 a v rd)
    (ps_answers toy_served).
Proof using.
  split; [vm_compute; reflexivity|]. exact (proj1 (proj2 (proj2 (prices_stay_fresh (O := toy_prices) 5000 0 toy_served toy_served_reachable)))).
Defined.

Definition toy_mapper (x : Z) (r : result Z) : Prop := r = Ok (x + 1).
Definition toy_pool : Pool Z := {| po_next := 2; po_workers := [Returned; Returned]; po_results := [Some 6; Some 8] |}.
Lemma toy_pool_reachable : rtc (pool_step toy_mapper [5; 7]) (pool_init [5; 7] 4) toy_pool.
Proof using.
  eapply rtc_l; [eapply (pool_take _ _ _ 0); [reflexivity|cbn; lia]|]. eapply rtc_l; [eapply (pool_take _ _ _ 1); [reflexivity|cbn; lia]|].
  eapply rtc_l; [eapply (pool_store _ _ _ 1); reflexivity|]. eapply rtc_l; [eapply (pool_store _ _ _ 0); reflexivity|].
  eapply rtc_l; [eapply (pool_leave _ _ _ 0); [reflexivity|cbn; lia]|]. eapply rtc_l; [eapply (pool_leave _ _ _ 1); [reflexivity|cbn; lia]|].
  apply rtc_refl.
Qed.
Lemma worker_pool_witness : exists rs, po_results toy_pool = Some <$> rs /\ Forall2 (fun x r => toy_mapper x (Ok r)) [5; 7] rs.
Proof using.
  assert (pool_fulfilled toy_pool) as Hf by (repeat constructor).
  exact (proj2 (proj2 (proj2 (proj2 (worker_pool_maps_all toy_mapper [5; 7] 4 toy_pool ltac:(lia) (fun x _ => ex_intro _ _ eq_refl) toy_pool_reachable)))) Hf).
Defined.
Lemma price_status_witness : exists v w', readPrice (O := toy_prices) (js "7") 0 toy_world = (Ok v, w') /\ tp_status v = available.
Proof using.
  destruct (price_status_meaning (O := toy_prices) (js "7") 0 _ toy_world eq_refl) as (v & w' & H1 & _ & H2 & _).
  exists v, w'. split; [exact H1|]. rewrite H2. reflexivity.
Defined.
End ConcretePrices.
