(* ===== verification/IndexerServer.v ===== *)
(** * The HTTP server of the indexer

    packages/indexer/src/server.ts: the routes in the order they are
    registered, the API key middleware between them, their handlers and the
    error handler.  Express is a parameter: which paths a pattern matches and
    with which parameters.  A request is handled at once; its body and query
    are the values the parsers of Express leave on the request. *)

From S2P Require Import Prelude JsNum JsString JsNumber JsJson IndexerQueries Scanner HexBytes Abi IndexerWorld IndexerTransfers IndexerRoles IndexerLanes IndexerReplay.
#[local] Set Warnings "-register-all".
From S2P Require Import IndexerRanges IndexerService IndexerAudit IndexerQueries IndexerViews TokenPrices.
Local Open Scope Z_scope.
Local Open Scope js_scope.

(** ** Requests *)

Inductive Method := GET | HEAD | POST.
#[export] Instance method_eq_dec : EqDecision Method.
Proof. solve_decision. Defined.

(** A value of [req.query]: a text, an array, or an object; a query such as
    [?a\[toString\]=x] replaces the method that turns the object into text. *)
Inductive QueryValue := QText (s : jsstring) | QList (values : list QueryValue) | QObject (own_toString : bool).
(** A member of the parsed body: an array or another value. *)
Inductive BodyField := OneValue (v : InputValue) | Values (vs : list InputValue).
Record Request := {
  rq_method : Method; rq_path : jsstring; rq_query : string -> option QueryValue; rq_apiKey : Header;
  rq_body : result (string -> BodyField) }.

(** [value.toString()] and [String(value)]. *)
Fixpoint query_text (value : QueryValue) : result jsstring :=
  match value with
  | QText s => Ok s
  | QList values =>
      texts ← (fix texts (l : list QueryValue) : result (list jsstring) :=
                 match l with [] => Ok [] | v :: l' => t ← query_text v; ts ← texts l'; Ok (t :: ts) end) values;
      Ok (join_with (js ",") texts)
  | QObject own => if own then Err "TypeError" else Ok (js "[object Object]")
  end.
(** [value?.toString()]. *)
Definition optional_text (value : option QueryValue) : result (option jsstring) :=
  match value with None => Ok None | Some v => t ← query_text v; Ok (Some t) end.
(** [Number(value)]. *)
Definition query_number (value : option QueryValue) : result jsnum :=
  match value with None => Ok JNaN | Some v => t ← query_text v; Ok (Number t) end.
(** [Array.isArray(value) ? value\[0\] : value]. *)
Definition first_value (value : option QueryValue) : option QueryValue :=
  match value with Some (QList values) => head values | _ => value end.

Definition MAX_PAGE_LIMIT : Z := 200.
Definition MAX_TOKEN_PRICE_BATCH_SIZE : nat := 200.
Definition MAX_UINT256 : Z := Z.shiftl 1 256 - 1.
Definition DEFAULT_TRANSFER_REPLAY_RECONCILE_CHUNK_SIZE : Z := 100.

Definition parsePageLimit (value : option QueryValue) (fallback : Z) : result Z :=
  parsed ← query_number (first_value value);
  Ok (match parsed with JInt n => if n <=? 0 then fallback else Z.min n MAX_PAGE_LIMIT | _ => fallback end).
Definition parseTzOffsetMinutes (value : option QueryValue) : result Z :=
  parsed ← query_number (first_value value);
  Ok (if isFinite parsed then trunc parsed else 0).

(** ** Responses *)

Inductive Body :=
  | BError (message : string)
  | BNotFound
  | BDefaultError
  | BSyncError (message : string)
  | BLiveness (enableApi doBackgroundWork : bool)
  | BReadiness (r : RuntimeReadinessResponse)
  | BRunning (enableApi doBackgroundWork : bool)
  | BDisabled
  | BHealth (h : HealthResponse (IndexerAuditHealth := IndexerAuditHealth))
  | BJob (job : TransferReplayJob)
  | BConfig (authEnabled doBackgroundWork enableApi : bool) (hub oracle priceOracle : option jsstring)
  | BAudit (report : IndexerAuditReport)
  | BPrices (data : list TokenPrice)
  | BTokens (page : Page TokenEntry)
  | BToken (tokenId : jsstring) (row : TokenRow)
  | BBalances (page : Page BalanceEntry)
  | BHolders (page : Page (jsstring * option Z))
  | BEvents (page : Page EventEntry)
  | BTransactions (data : list ProtocolTransaction)
  | BOracles (response : ApprovedOracleInstancesResponse)
  | BStats (data : list TransferStatRow) (granularity : jsstring) (points : jsnum)
  | BRoleEvents (page : Page RoleEventEntry)
  | BMembers (page : Page RoleMemberEntry)
  | BRoleAdmin (contractAddress role admin : jsstring)
  | BRoles (data : list (jsstring * list jsstring)).
Record Response := { rsp_status : Z; rsp_body : Body }.
Definition json (body : Body) : Response := {| rsp_status := 200; rsp_body := body |}.
Definition json_with (status : Z) (body : Body) : Response := {| rsp_status := status; rsp_body := body |}.

(** ** The state a handler works on *)

Record ServerWorld := { sv_audit : AuditWorld; sv_stats : CacheEntries; sv_jobs : Jobs }.
Definition SM (A : Type) : Type := ServerWorld -> result A * ServerWorld.
#[export] Instance SM_ret : MRet SM := fun A a s => (Ok a, s).
#[export] Instance SM_bind : MBind SM := fun A B f c s =>
  match c s with (Ok a, s') => f a s' | (Err e, s') => (Err e, s') end.
Definition in_audit (s : ServerWorld) (a : AuditWorld) : ServerWorld := {| sv_audit := a; sv_stats := sv_stats s; sv_jobs := sv_jobs s |}.
Definition serveA {A} (c : AM A) : SM A := fun s => match c (sv_audit s) with (r, a) => (r, in_audit s a) end.
Definition serveM {A} (c : M A) : SM A := serveA (lift c).
Definition serveR {A} (r : result A) : SM A := fun s => (r, s).
Definition serve_stats {A} (c : StatsWorld -> result A * StatsWorld) : SM A := fun s =>
  match c {| sw_world := aw_world (sv_audit s); sw_cache := sv_stats s |} with
  | (r, st) => (r, {| sv_audit := {| aw_world := sw_world st; aw_tables := aw_tables (sv_audit s) |}; sv_stats := sw_cache st; sv_jobs := sv_jobs s |})
  end.
Definition serve_jobs {A} `{Clock} (f : Z -> nat -> Jobs -> A * Jobs) : SM A := fun s =>
  let t := w_time (aw_world (sv_audit s)) in
  match f (clock_ms t) t (sv_jobs s) with (a, jobs) => (Ok a, {| sv_audit := sv_audit s; sv_stats := sv_stats s; sv_jobs := jobs |}) end.
Definition try_catchS {A} (c : SM A) (h : string -> SM A) : SM A := fun s =>
  match c s with (Ok a, s') => (Ok a, s') | (Err e, s') => h e s' end.

(** ** Express *)

(** [route_match pattern path]: the parameters when the path matches. *)
Class Express := route_match : jsstring -> jsstring -> option (list (jsstring * jsstring)).
(** The ids of replay jobs. *)
Class JobIds := replay_job_id : nat -> jsstring.
(** [tokenPriceService.getPrices]. *)
Class PriceService := getPrices : list jsstring -> M (list TokenPrice).

Definition Params : Type := list (jsstring * jsstring).
Definition param (name : string) (params : Params) : jsstring := default [] (map_get (js name) params).
Definition Handler : Type := Params -> Request -> SM Response.
(** What [createServer] registers: a route, or a middleware that answers or
    calls [next()]. *)
Inductive Layer := Route (m : Method) (pattern : jsstring) (handler : Handler) | Use (middleware : Request -> option Response).

(** [app.get] routes also answer HEAD. *)
Definition method_matches (route request : Method) : bool :=
  bool_decide (route = request) || bool_decide (route = GET) && bool_decide (request = HEAD).
Fixpoint dispatch `{Express} (layers : list Layer) (req : Request) : SM Response :=
  match layers with
  | [] => mret (json_with 404 BNotFound)
  | Use middleware :: rest => match middleware req with Some response => mret response | None => dispatch rest req end
  | Route m pattern handler :: rest =>
      match (if method_matches m (rq_method req) then route_match pattern (rq_path req) else None) with
      | Some params => handler params req
      | None => dispatch rest req
      end
  end.

Record ServerOptions := {
  so_db : bool; so_defaultTransferReplayBatchSize : Z; so_expectedApiKey : option jsstring; so_healthProvider : bool;
  so_hubContractAddress : option jsstring; so_maxTransferReplayBlockRange : Z; so_oracleContractAddress : option jsstring;
  so_oracleProvider : bool; so_priceOracleContractAddress : option jsstring; so_replayProvider : bool; so_tokenPriceService : bool;
  so_health : HealthConfig; so_maxRetainedJobs : nat; so_terminalJobTtlMs : Z }.

Section Server.
Context `{F : Faults, LP : LogProvider, K : Clock, P : Postgres, R : OracleReader, D : StatsDigest, E : Express, I : JobIds, T : PriceService}.
Context (runtimeState : RuntimeState) (options : ServerOptions).

(** [if (!value)]: absent or empty. *)
Definition given (value : option jsstring) : bool := bool_decide (is_Some (truthy value)).

Definition resolveSyncHealth : SM (option (HealthResponse (IndexerAuditHealth := IndexerAuditHealth))) :=
  if negb (so_db options) || negb (so_healthProvider options) then mret None
  else h ← serveA (getHealthStatus (so_health options)); mret (Some h).

Definition get_health : Handler := fun _ _ => mret (json (BLiveness (rs_enableApi runtimeState) (rs_doBackgroundWork runtimeState))).
Definition get_ready : Handler := fun _ _ =>
  let readiness := buildReadinessResponse runtimeState in
  mret (json_with (if rr_ok readiness then 200 else 503) (BReadiness readiness)).
Definition get_root : Handler := fun _ _ => mret (json (BRunning (rs_enableApi runtimeState) (rs_doBackgroundWork runtimeState))).
(** [/sync-health] and [/api/health]. *)
Definition get_sync_health : Handler := fun _ _ =>
  try_catchS
    (sync ← resolveSyncHealth;
     mret (match sync with
           | None => json BDisabled
           | Some h => json_with (if hr_ok h then 200 else 503) (BHealth h)
           end))
    (fun e => mret (json_with 503 (BSyncError e))).

(** The admin routes. *)
Definition job_options : JobOptions := {|
  jo_defaultBatchSize := JInt (so_defaultTransferReplayBatchSize options); jo_defaultChunkSize := JInt DEFAULT_TRANSFER_REPLAY_RECONCILE_CHUNK_SIZE;
  jo_maxBlockRange := JInt (so_maxTransferReplayBlockRange options); jo_maxRetainedJobs := so_maxRetainedJobs options;
  jo_terminalJobTtlMs := so_terminalJobTtlMs options |}.
Definition unauthorized : Response := json_with 401 (BError "Unauthorized").
Definition api_key (prefix : jsstring) (req : Request) : option Response :=
  match createApiKeyMiddleware (so_expectedApiKey options) prefix (rq_path req) (rq_apiKey req) with
  | Next => None
  | Unauthorized => Some unauthorized
  end.
Definition adminAuth (handler : Handler) : Handler := fun params req =>
  match api_key (js "/api/admin/") req with Some response => mret response | None => handler params req end.
(** A member of the body as the replay reads it: an array is no number. *)
Definition one_value (field : BodyField) : InputValue := match field with OneValue v => v | Values _ => IOther end.
Definition body (req : Request) : string -> BodyField :=
  match rq_body req with Ok fields => fields | Err _ => fun _ => OneValue INullish end.
Definition post_replay : Handler := fun _ req =>
  outcome ← serve_jobs (fun now t jobs => start job_options now (replay_job_id t) (fun name => one_value (body req name)) jobs);
  mret (match outcome with
        | Ok job => json_with 202 (BJob job)
        | Err e => json_with (if String.eqb e "Transfer replay job is already running" then 409 else 400) (BError e)
        end).
Definition get_replay : Handler := fun params _ =>
  job ← serve_jobs (fun now _ jobs => get_job job_options now (param "jobId" params) jobs);
  mret (match job with None => json_with 404 (BError "Transfer replay job not found") | Some job => json (BJob job) end).

Definition get_config : Handler := fun _ _ =>
  mret (json (BConfig (given (so_expectedApiKey options)) (rs_doBackgroundWork runtimeState) (rs_enableApi runtimeState)
    (so_hubContractAddress options) (so_oracleContractAddress options) (so_priceOracleContractAddress options))).
Definition get_audit : Handler := fun _ _ =>
  report ← serveA (getLatestIndexerAuditReport (hc_audit (so_health options)) (so_maxTransferReplayBlockRange options));
  mret (json (BAudit report)).

(** A decimal number without leading zeros, at most [MAX_UINT256]. *)
Definition decimal_id (v : InputValue) : option jsstring :=
  match v with
  | IString s => if (bool_decide (s = js "0") || is_integer_text s && negb (startsWith s (js "0")) && negb (startsWith s (js "-"))) &&
                    (integer_value s <=? MAX_UINT256) then Some s else None
  | _ => None
  end.
Definition post_token_prices : Handler := fun _ req =>
  if negb (so_tokenPriceService options) then mret (json_with 503 (BError "Token pricing is unavailable"))
  else match body req "tokenIds" with
  | OneValue _ => mret (json_with 400 (BError "tokenIds must be an array"))
  | Values ids =>
      if Nat.ltb MAX_TOKEN_PRICE_BATCH_SIZE (length ids) then mret (json_with 400 (BError "tokenIds cannot contain more than 200 entries"))
      else match mapM decimal_id ids with
      | None => mret (json_with 400 (BError "tokenIds must contain decimal uint256 strings"))
      | Some tokenIds => data ← serveM (getPrices tokenIds); mret (json (BPrices data))
      end
  end.

Definition page_limit (req : Request) (fallback : Z) : SM nat :=
  limit ← serveR (parsePageLimit (rq_query req "limit") fallback); mret (Z.to_nat limit).
Definition text_of (req : Request) (name : string) : SM (option jsstring) := serveR (optional_text (rq_query req name)).

Definition get_tokens : Handler := fun _ req =>
  limit ← page_limit req 20;
  cursor ← text_of req "cursor";
  query ← text_of req "query";
  page ← serveM (match truthy query with Some q => searchTokensByName q limit cursor | None => listTokens limit cursor end);
  mret (json (BTokens page)).
Definition get_token : Handler := fun params _ =>
  row ← serveM (getToken (param "id" params));
  mret (match row with None => json_with 404 (BError "Token not found") | Some row => json (BToken (param "id" params) row) end).
Definition get_token_balances : Handler := fun params req =>
  limit ← page_limit req 100;
  cursor ← text_of req "cursor";
  page ← serveM (listTokenBalances (param "id" params) limit cursor);
  mret (json (BBalances page)).
Definition get_balances : Handler := fun params req =>
  limit ← page_limit req 100;
  cursor ← text_of req "cursor";
  page ← serveM (listBalancesForAddress (param "address" params) limit cursor);
  mret (json (BBalances page)).
Definition get_holders : Handler := fun _ req =>
  limit ← page_limit req 100;
  cursor ← text_of req "cursor";
  page ← serveM (listHolders limit cursor);
  mret (json (BHolders page)).
Definition get_events : Handler := fun _ req =>
  limit ← page_limit req 100;
  tokenId ← text_of req "tokenId";
  address ← text_of req "address";
  cursor ← text_of req "cursor";
  page ← serveM (listEvents {| evf_tokenId := tokenId; evf_address := toLowerCase <$> address; evf_limit := limit; evf_cursor := cursor |});
  mret (json (BEvents page)).
Definition post_transactions : Handler := fun _ req =>
  let txHashes := match body req "txHashes" with Values vs => Some vs | OneValue _ => None end in
  match normalizeProtocolTransactionHashes txHashes MAX_PROTOCOL_TRANSACTION_BATCH_SIZE with
  | Err e => mret (json_with 400 (BError e))
  | Ok hashes => data ← serveM (getProtocolTransactionsByHash hashes); mret (json (BTransactions data))
  end.
Definition get_oracles : Handler := fun _ _ =>
  match so_oracleProvider options, truthy (so_oracleContractAddress options) with
  | true, Some address => response ← serveM (getApprovedOracleInstances address); mret (json (BOracles response))
  | _, _ => mret (json_with 503 (BError "Oracle provider unavailable"))
  end.
Definition stats_of (tokenId : option jsstring) (req : Request) : SM Response :=
  granularity ← serveR (query_text (default (QText (js "day")) (rq_query req "granularity")));
  pointsRaw ← serveR (query_number (Some (default (QText (js "0")) (rq_query req "points"))));
  let points := normalizePoints pointsRaw in
  tzOffsetMinutes ← serveR (parseTzOffsetMinutes (rq_query req "tzOffsetMinutes"));
  rows ← serve_stats (transferStats {| sa_tokenId := tokenId; sa_granularity := granularity; sa_points := points;
                                       sa_tzOffsetMinutes := JInt tzOffsetMinutes |});
  mret (json (BStats rows granularity points)).
Definition get_stats : Handler := fun _ req => stats_of None req.
Definition get_token_stats : Handler := fun params req => stats_of (Some (param "id" params)) req.

(** Routes that need [?contract=]. *)
Definition with_contract (req : Request) (f : jsstring -> SM Response) : SM Response :=
  contractAddress ← text_of req "contract";
  match truthy contractAddress with
  | None => mret (json_with 400 (BError "Missing contract parameter"))
  | Some address => f address
  end.
Definition get_role_events : Handler := fun _ req =>
  limit ← page_limit req 100;
  with_contract req (fun contractAddress =>
    role ← text_of req "role";
    account ← text_of req "account";
    cursor ← text_of req "cursor";
    page ← serveM (listRoleEvents {| reo_contractAddress := contractAddress; reo_limit := limit; reo_cursor := cursor; reo_role := role;
                                     reo_account := account |});
    mret (json (BRoleEvents page))).
Definition get_role_members : Handler := fun params req =>
  limit ← page_limit req 100;
  with_contract req (fun contractAddress =>
    cursor ← text_of req "cursor";
    page ← serveM (listRoleMembers contractAddress (param "role" params) limit cursor);
    mret (json (BMembers page))).
Definition get_role_admin : Handler := fun params req =>
  with_contract req (fun contractAddress =>
    row ← serveM (query_getRoleAdmin contractAddress (param "role" params));
    mret (match row with
          | None => json_with 404 (BError "Role admin not found")
          | Some admin => json (BRoleAdmin (toLowerCase contractAddress) (param "role" params) admin)
          end)).
Definition get_account_roles : Handler := fun params req =>
  limit ← page_limit req 100;
  with_contract req (fun contractAddress =>
    cursor ← text_of req "cursor";
    page ← serveM (listRolesForAccount contractAddress (param "address" params) limit cursor);
    mret (json (BMembers page))).
Definition by_role (byRole : list (jsstring * list jsstring)) (row : RoleMemberEntry) : list (jsstring * list jsstring) :=
  map_set (member_role row) (default [] (map_get (member_role row) byRole) ++ [member_account row]) byRole.
Definition get_roles : Handler := fun _ req =>
  with_contract req (fun contractAddress =>
    rows ← serveM (listRoleMembersForContract contractAddress);
    mret (json (BRoles (foldl by_role [] rows)))).

(** ** createServer *)

Definition public_routes : list Layer := [
  Route GET (js "/health") get_health; Route GET (js "/ready") get_ready; Route GET (js "/") get_root;
  Route GET (js "/sync-health") get_sync_health ].
Definition admin_routes : list Layer :=
  if given (so_expectedApiKey options) && so_replayProvider options && given (so_hubContractAddress options)
  then [ Route POST (js "/api/admin/replay/transfers") (adminAuth post_replay);
         Route GET (js "/api/admin/replay/transfers/:jobId") (adminAuth get_replay) ]
  else [].
Definition api_routes : list Layer := [
  Route GET (js "/api/config") get_config; Route GET (js "/api/health") get_sync_health;
  Route GET (js "/api/audits/indexer/latest") get_audit; Route POST (js "/api/token-prices") post_token_prices;
  Route GET (js "/api/tokens") get_tokens; Route GET (js "/api/tokens/:id") get_token;
  Route GET (js "/api/tokens/:id/balances") get_token_balances; Route GET (js "/api/balances/:address") get_balances;
  Route GET (js "/api/holders") get_holders; Route GET (js "/api/events") get_events;
  Route POST (js "/api/protocol/transactions/by-hash") post_transactions; Route GET (js "/api/oracles/approved") get_oracles;
  Route GET (js "/api/transfers/stats") get_stats; Route GET (js "/api/tokens/:id/transfer-stats") get_token_stats;
  Route GET (js "/api/roles/events") get_role_events; Route GET (js "/api/roles/:role/members") get_role_members;
  Route GET (js "/api/roles/:role/admin") get_role_admin; Route GET (js "/api/accounts/:address/roles") get_account_roles;
  Route GET (js "/api/roles") get_roles ].
Definition createServer : result (list Layer) :=
  if negb (rs_enableApi runtimeState) then Ok public_routes
  else if negb (so_db options) then Err "API mode requires a database connection"
  else Ok (public_routes ++ admin_routes ++ [Use (api_key (js "/api/"))] ++ api_routes).

(** A request: [express.json()] first, which rejects a body that is not JSON,
    then the layers; an error reaches the error handler, or Express' own when
    the API is off. *)
Definition error_response (status : Z) (e : string) : Response :=
  if rs_enableApi runtimeState then json_with 500 (BError e) else json_with status BDefaultError.
Definition handle (layers : list Layer) (req : Request) : SM Response :=
  match rq_body req with
  | Err e => mret (error_response 400 e)
  | Ok _ => try_catchS (dispatch layers req) (fun e => mret (error_response 500 e))
  end.
End Server.
