(* ===== verification/IndexerPaging.v ===== *)
(** * Following the cursors of the API

    A client that follows [nextCursor] from the first page on sees every row
    once, in order.  [Keyset] states what one page promises, the client's
    traversal is proved against it, and each listing of IndexerQueries
    implements it on the tables of a well-typed database. *)

From stdpp Require Import sorting.
From S2P Require Import Prelude JsNum JsString JsNumber Scanner IndexerWorld IndexerTransfers IndexerRoles DepositoryAudit IndexerTypes IndexerAuditProofs JsJson IndexerQueries HexBytes Abi IndexerLanes IndexerReplay IndexerService IndexerAudit IndexerViews.
Local Open Scope Z_scope.
Local Open Scope js_scope.

(** ** The client *)

Fixpoint follow {Row} (fuel : nat) (fetch : option jsstring -> M (Page Row)) (cursor : option jsstring) : M (list Row) :=
  match fuel with
  | O => throwM "more pages than expected"
  | S n =>
      page ← fetch cursor;
      match pg_nextCursor page with
      | None => mret (pg_rows page)
      | Some next => rest ← follow n fetch (Some next); mret (pg_rows page ++ rest)
      end
  end.

(** [fetch] serves the rows [all] in pages of [limit]: the first page, and after
    the cursor of a row the page of the rows that follow it. *)
Definition serves {Row} (d : Db) (c : M (Page Row)) (page : Page Row) : Prop :=
  forall w, w_db w = d -> exists w', c w = (Ok page, w') /\ w_db w' = d.
Class Keyset {Row} (d : Db) (limit : nat) (cursor : Row -> jsstring) (all : list Row) (fetch : option jsstring -> M (Page Row)) : Prop := {
  ks_first : serves d (fetch None) (page_of limit cursor (take limit all));
  ks_next pre r rest : all = pre ++ r :: rest -> serves d (fetch (Some (cursor r))) (page_of limit cursor (take limit rest)) }.

Section Client.
Context {Row : Type} (d : Db) (limit : nat) (cursor : Row -> jsstring) (all : list Row) (fetch : option jsstring -> M (Page Row)).
Context `{KS : !Keyset d limit cursor all fetch} (Hlimit : (0 < limit)%nat).

Lemma follow_rest n : forall c pre suffix w, all = pre ++ suffix -> serves d (fetch c) (page_of limit cursor (take limit suffix)) ->
  (length suffix < n)%nat -> w_db w = d -> exists w', follow n fetch c w = (Ok suffix, w') /\ w_db w' = d.
Proof using KS Hlimit.
  induction n as [|n IH]; intros c pre suffix w Hall Hs Hn Hw; [lia|]. cbn [follow]. destruct (Hs w Hw) as (w1 & E1 & Hw1).
  unfold mbind at 1, M_bind at 1. rewrite E1. unfold page_of. cbn [pg_nextCursor pg_rows]. rewrite length_take.
  destruct (Nat.eqb_spec (limit `min` length suffix) limit) as [Hl|Hl].
  - destruct (last (take limit suffix)) as [r|] eqn:El.
    2:{ apply last_None in El. apply (f_equal length) in El. rewrite length_take in El. cbn in El. lia. }
    cbn [fmap option_fmap option_map]. apply last_Some in El as (p & Ep).
    assert (suffix = p ++ r :: drop limit suffix) as Esuf.
    { rewrite <- (take_drop limit suffix) at 1. rewrite Ep, <- app_assoc. done. }
    assert (all = (pre ++ p) ++ r :: drop limit suffix) as Hall' by (rewrite Hall, Esuf at 1; by rewrite <- app_assoc).
    assert (length (drop limit suffix) < n)%nat as Hn' by (rewrite length_drop; lia).
    destruct (IH (Some (cursor r)) ((pre ++ p) ++ [r]) (drop limit suffix) w1) as (w2 & E2 & Hw2); [|by eapply ks_next|done|done|].
    { rewrite Hall'. by rewrite <- !app_assoc. }
    exists w2. unfold mbind, M_bind. rewrite E2. split; [|done]. unfold mret, M_ret. by rewrite take_drop.
  - exists w1. split; [|done]. unfold mret, M_ret. by rewrite take_ge by lia.
Qed.
Lemma follow_all w : w_db w = d -> exists w', follow (S (length all)) fetch None w = (Ok all, w') /\ w_db w' = d.
Proof using KS Hlimit. intros Hw. by apply (follow_rest _ None [] all); [|apply ks_first|lia|]. Qed.
End Client.

(** ** Pages of a sorted table *)

Lemma filter_and {X} (f g : X -> bool) l : List.filter (fun x => f x && g x) l = List.filter g (List.filter f l).
Proof. induction l as [|x l IH]; [done|]. cbn. destruct (f x); cbn; [destruct (g x)|]; by rewrite IH. Qed.
Lemma filter_sorted {X} (R : relation X) (f : X -> bool) l : StronglySorted R l -> StronglySorted R (List.filter f l).
Proof.
  induction 1 as [|x l Hl IH Hx]; [constructor|]. cbn. destruct (f x); [|done]. constructor; [done|].
  rewrite Forall_forall in Hx |- *. intros y Hy. apply list_elem_of_In, filter_In in Hy as [Hy _]. apply Hx. by apply list_elem_of_In.
Qed.
Lemma filter_true {X} (f : X -> bool) l : (forall x, x ∈ l -> f x = true) -> List.filter f l = l.
Proof. induction l as [|x l IH]; intros H; [done|]. cbn. rewrite H by left. f_equal. apply IH. intros y Hy. apply H. by right. Qed.
Lemma filter_none {X} (f : X -> bool) l : (forall x, x ∈ l -> f x = false) -> List.filter f l = [].
Proof. induction l as [|x l IH]; intros H; [done|]. cbn. rewrite H by left. apply IH. intros y Hy. apply H. by right. Qed.

Section SortedTable.
Context {X : Type} (before : X -> X -> bool) (keep : X -> bool) (table : list X) (limit : nat).
Context (Htotal : Total (ordered before)) (Htrans : Transitive (ordered before)) (Hdup : NoDup table).
Context (Hanti : forall x y, x ∈ table -> y ∈ table -> keep x = true -> keep y = true -> ordered before x y -> ordered before y x -> x = y).

Definition matching : list X := merge_sort (ordered before) (List.filter keep table).
Lemma matching_elem x : x ∈ matching <-> x ∈ table /\ keep x = true.
Proof using. unfold matching. rewrite (merge_sort_Permutation (ordered before)), !list_elem_of_In. apply filter_In. Qed.
Lemma matching_sorted : StronglySorted (ordered before) matching.
Proof using Htotal Htrans. by apply StronglySorted_merge_sort. Qed.
Lemma matching_NoDup : NoDup matching.
Proof using Hdup. unfold matching. rewrite (merge_sort_Permutation (ordered before)). apply NoDup_ListNoDup, List.NoDup_filter. by apply NoDup_ListNoDup. Qed.

Lemma page_after (after : X -> bool) pre r rest : matching = pre ++ r :: rest ->
  (forall x, x ∈ matching -> after x = negb (before x r)) ->
  select_page before (fun x => keep x && after x) limit table = take limit rest.
Proof using Htotal Htrans Hdup Hanti.
  intros Hm Ha. unfold select_page. f_equal. rewrite filter_and.
  assert (merge_sort (ordered before) (List.filter after (List.filter keep table)) = List.filter after matching) as ->.
  { apply StronglySorted_unique_strong with (R := ordered before).
    - intros x y Hx Hy. rewrite (merge_sort_Permutation (ordered before)) in Hx. apply list_elem_of_In, filter_In in Hx as [Hx _].
      apply filter_In in Hx as [Hx Kx]. apply list_elem_of_In, filter_In in Hy as [Hy _]. apply list_elem_of_In, matching_elem in Hy as [Hy Ky].
      apply Hanti; try done. by apply list_elem_of_In.
    - by apply StronglySorted_merge_sort.
    - apply filter_sorted, matching_sorted.
    - rewrite (merge_sort_Permutation (ordered before)). apply filter_perm. unfold matching. by rewrite (merge_sort_Permutation (ordered before)). }
  pose proof matching_sorted as Hs. pose proof matching_NoDup as Hn. rewrite Hm in Hs, Hn. rewrite Hm, List.filter_app. cbn [List.filter].
  apply StronglySorted_app in Hs as (Hpr & _ & Hs). apply StronglySorted_cons in Hs as [Hr _]. rewrite Forall_forall in Hr.
  apply NoDup_app in Hn as (_ & Hdis & Hn). apply NoDup_cons in Hn as [Hnr _].
  assert (ordered before r r) as Hrr by (destruct (Htotal r r); done).
  rewrite (filter_none _ pre), (Ha r), Hrr; [|rewrite Hm; set_solver|].
  - cbn. apply filter_true. intros x Hx. rewrite Ha by (rewrite Hm; set_solver). apply negb_true_iff, not_true_iff_false. intros Hxr.
    assert (x = r); [|congruence]. assert (x ∈ matching /\ r ∈ matching) as [H1 H2] by (rewrite Hm; set_solver).
    apply matching_elem in H1 as [? ?], H2 as [? ?]. apply Hanti; try done. by apply Hr.
  - intros x Hx. rewrite Ha by (rewrite Hm; set_solver). apply negb_false_iff. apply Hpr; [done|left].
Qed.
End SortedTable.

(** ** Listings *)

(** PostgreSQL's text order is a total order. *)
Class PostgresLaws (P : Postgres) : Prop := {
  text_total a b : text_le a b = true \/ text_le b a = true;
  text_trans a b c : text_le a b = true -> text_le b c = true -> text_le a c = true;
  text_anti a b : text_le a b = true -> text_le b a = true -> a = b }.

(** All rows of the table that match, each once, in order. *)
Definition enumerates {X} (before : X -> X -> bool) (keep : X -> bool) (table rows : list X) : Prop :=
  StronglySorted (ordered before) rows /\ NoDup rows /\ forall x, x ∈ rows <-> x ∈ table /\ keep x = true.
(** A client that follows the cursors sees them. *)
Definition client_sees {X Row} (d : Db) (g : X -> Row) (before : X -> X -> bool) (keep : X -> bool) (table : list X)
    (fetch : option jsstring -> M (Page Row)) : Prop :=
  exists rows, enumerates before keep table rows /\
    forall w, w_db w = d -> exists w', follow (S (length rows)) fetch None w = (Ok (g <$> rows), w') /\ w_db w' = d.

Section Listing.
Context `{F : Faults} (calm : forall t, sql_fault t = None) (d : Db).
Context {X Row : Type} (g : X -> Row) (before : X -> X -> bool) (keep : X -> bool) (after : option jsstring -> X -> bool).
Context (table : list X) (limit : nat) (cursor : Row -> jsstring) (fetch : option jsstring -> M (Page Row)).
Context (Hlimit : (0 < limit)%nat).

Lemma serve_query (f : Db -> list Row) : serves d (rows ← query f; mret (page_of limit cursor rows)) (page_of limit cursor (f d)).
Proof using calm.
  intros w <-. unfold query, sql, mbind, M_bind. rewrite calm. eexists. split; [reflexivity|]. done.
Qed.

Lemma listing_seen :
  Total (ordered before) -> Transitive (ordered before) -> NoDup table ->
  (forall x y, x ∈ table -> y ∈ table -> keep x = true -> keep y = true -> ordered before x y -> ordered before y x -> x = y) ->
  (forall c, exists f, fetch c = (rows ← query f; mret (page_of limit cursor rows)) /\
     f d = g <$> select_page before (fun x => keep x && after c x) limit table) ->
  (forall x, after None x = true) ->
  (forall r x, r ∈ table -> x ∈ table -> keep r = true -> keep x = true -> after (Some (cursor (g r))) x = negb (before x r)) ->
  client_sees d g before keep table fetch.
Proof using calm Hlimit.
  intros Htot Htr Hdup Hanti Hfetch Hnone Hafter. exists (matching before keep table). split.
  { split_and!; [by apply matching_sorted|by apply matching_NoDup|]. intros x. apply matching_elem. }
  intros w Hw. rewrite <- (length_fmap g). apply (follow_all d limit cursor); [|done|done]. split.
  - destruct (Hfetch None) as (f & -> & Ef). rewrite <- fmap_take. replace (take limit (matching before keep table)) with
      (select_page before (fun x => keep x && after None x) limit table); [rewrite <- Ef; apply serve_query|].
    unfold select_page, matching. f_equal. f_equal. apply List.filter_ext. intros x. by rewrite Hnone, andb_true_r.
  - intros pre r rest E. apply fmap_app_inv in E as (pre' & l' & -> & E & Hm). symmetry in E.
    apply fmap_cons_inv in E as (r' & rest' & -> & -> & ->).
    destruct (Hfetch (Some (cursor (g r')))) as (f & -> & Ef). rewrite <- fmap_take.
    rewrite <- (page_after before keep table limit Htot Htr Hdup Hanti (after (Some (cursor (g r')))) pre' r' rest' Hm), <- Ef; [apply serve_query|].
    intros x Hx. assert (r' ∈ matching before keep table) as Hr by (rewrite Hm; set_solver).
    apply matching_elem in Hx as [? ?], Hr as [? ?]. by apply Hafter.
Qed.
End Listing.

(** ** Cursors read back *)

Lemma startsWith_colon c s : startsWith (c :: s) (js ":") = (c =? 58).
Proof.
  unfold startsWith. change (js ":") with [58]. cbn [length take]. rewrite take_0. destruct (Z.eqb_spec c 58) as [->|]; [by apply bool_decide_eq_true|].
  apply bool_decide_eq_false. congruence.
Qed.
Lemma split_colon a b : 58 ∉ a -> split_text (js ":") (a ++ js ":" ++ b) = a :: split_text (js ":") b.
Proof.
  unfold split_text. induction a as [|c a IH]; intros Ha.
  - cbn [app js]. change (js ":" ++ b) with (58 :: b). cbn [split_from]. by rewrite startsWith_colon.
  - apply not_elem_of_cons in Ha as [Hc Ha]. rewrite <- app_comm_cons. cbn [split_from]. rewrite startsWith_colon.
    destruct (Z.eqb_spec c 58); [congruence|]. by rewrite IH.
Qed.
Lemma split_plain b : 58 ∉ b -> split_text (js ":") b = [b].
Proof.
  unfold split_text. induction b as [|c b IH]; intros Hb; [done|]. apply not_elem_of_cons in Hb as [Hc Hb]. cbn [split_from].
  rewrite startsWith_colon. destruct (Z.eqb_spec c 58); [congruence|]. by rewrite IH.
Qed.

(** Texts that a cursor carries: not empty, without a colon. *)
Definition plain (s : jsstring) : Prop := s <> [] /\ 58 ∉ s.
Lemma truthy_plain s : s <> [] -> truthy (Some s) = Some s.
Proof. by destruct s. Qed.
Lemma split_pair a b : 58 ∉ a -> 58 ∉ b -> split_text (js ":") (a ++ js ":" ++ b) = [a; b].
Proof. intros Ha Hb. by rewrite split_colon, split_plain. Qed.
Lemma pair_nonempty (a b : jsstring) : a ++ js ":" ++ b <> [].
Proof. destruct a; done. Qed.

Definition position (n : Z) : Prop := 0 <= n <= 2 ^ 53.
Lemma block_cursor_reads b l : position b -> position l -> parseCursor (Some (block_cursor b l)) = Some (JInt b, JInt l).
Proof.
  intros Hb Hl. unfold parseCursor, block_cursor. rewrite truthy_plain by apply pair_nonempty.
  rewrite split_pair by apply toString10_no_colon. cbn [lookup list_lookup Number_part]. by rewrite !Number_toString10.
Qed.
Lemma below_block_cursor b l b' l' : position b -> position l ->
  below_cursor (parseCursor (Some (block_cursor b l))) b' l' = negb (newest_first b' l' b l).
Proof.
  intros Hb Hl. rewrite block_cursor_reads by done. unfold below_cursor, newest_first. cbn [int_lt int_eq]. lia.
Qed.
Lemma token_cursor_reads n id : position n -> plain id -> parseTokenCursor (toString10 n ++ js ":" ++ id) = Some (JInt n, id).
Proof.
  intros Hn [Hid Hc]. unfold parseTokenCursor. rewrite split_pair by (done || apply toString10_no_colon). cbn [lookup list_lookup Number_part].
  by rewrite Number_toString10, truthy_plain.
Qed.
Lemma integer_text n : 0 <= n -> is_integer_text (toString10 n) = true /\ integer_value (toString10 n) = n.
Proof.
  intros Hn. destruct (digits_of_toString10 n Hn) as [Hd Hne]. destruct (toString10_nonneg n Hn) as (l & El & Hok & _ & Hv & _).
  assert (forallb is_digit (toString10 n) = true) as Hall by (by apply forallb_Forall).
  assert (Radix.of_digits 10 (hex_val <$> toString10 n) = n) as Hval by (rewrite El, hex_val_dec_chars; done).
  unfold is_integer_text, integer_value. destruct (toString10 n) as [|c s]; [done|]. apply Forall_cons_1 in Hd as [Hc _].
  digit_cases c Hc; rewrite Hall, bool_decide_false by done; done.
Qed.
Lemma balance_cursor_reads n a : 0 <= n -> plain a -> parseBalanceCursor (toString10 n ++ js ":" ++ a) = Some (toString10 n, a).
Proof.
  intros Hn [Ha Hc]. unfold parseBalanceCursor. rewrite split_pair by (done || apply toString10_no_colon). cbn [lookup list_lookup].
  destruct (digits_of_toString10 n Hn) as [_ Hne]. rewrite !truthy_plain by done. by rewrite (proj1 (integer_text n Hn)).
Qed.

(** Names that the cursor of the search carries: no double colon, also not
    across the separator. *)
Definition plain_name (s : jsstring) : Prop := includes (s ++ js ":") (js "::") = false.
Lemma startsWith_colons c e s : startsWith (c :: e :: s) (js "::") = (c =? 58) && (e =? 58).
Proof.
  unfold startsWith. change (js "::") with [58; 58]. cbn [length take]. rewrite take_0.
  destruct (Z.eqb_spec c 58) as [->|]; [destruct (Z.eqb_spec e 58) as [->|]; [by apply bool_decide_eq_true|]|]; apply bool_decide_eq_false; congruence.
Qed.
Lemma plain_name_cons c s : plain_name (c :: s) -> startsWith (c :: s ++ js ":") (js "::") = false /\ plain_name s.
Proof. unfold plain_name. intros H. rewrite <- app_comm_cons in H. cbn [includes] in H. by apply orb_false_iff in H. Qed.
Lemma split_colons a b : plain_name a -> split_text (js "::") (a ++ js "::" ++ b) = a :: split_text (js "::") b.
Proof.
  unfold split_text. induction a as [|c a IH]; intros Ha.
  - change ([] ++ js "::" ++ b) with (58 :: 58 :: b). cbn [split_from]. rewrite startsWith_colons. cbn [length js]. done.
  - apply plain_name_cons in Ha as [Hc Ha]. rewrite <- app_comm_cons. cbn [split_from].
    replace (startsWith (c :: a ++ js "::" ++ b) (js "::")) with false; [by rewrite IH|]. symmetry.
    destruct a as [|e a]; [change (js ":") with [58] in Hc; change (js "::" ++ b) with (58 :: 58 :: b)|]; cbn [app] in *;
      rewrite startsWith_colons in *; done.
Qed.
Lemma split_colons_plain b : plain_name b -> split_text (js "::") b = [b].
Proof.
  unfold split_text. induction b as [|c b IH]; intros Hb; [done|]. apply plain_name_cons in Hb as [Hc Hb]. cbn [split_from].
  replace (startsWith (c :: b) (js "::")) with false; [by rewrite IH|]. symmetry. destruct b as [|e b].
  - unfold startsWith. change (js "::") with [58; 58]. by apply bool_decide_eq_false.
  - cbn [app] in Hc. by rewrite startsWith_colons in *.
Qed.

(** ** The tables a client can list *)

(** Block numbers and log indexes are exact as numbers, and no two logs share
    both: a chain gives every log of a block its own index. *)
Record listable (d : Db) : Prop := {
  li_events : map_Forall (fun k r => position (ev_block r) /\ position k.2) (events d);
  li_events_distinct : forall k1 r1 k2 r2, events d !! k1 = Some r1 -> events d !! k2 = Some r2 ->
    ev_block r1 = ev_block r2 -> k1.2 = k2.2 -> k1 = k2;
  li_role_events : map_Forall (fun k r => position (re_block r) /\ position k.2) (role_events d);
  li_role_events_distinct : forall k1 r1 k2 r2, role_events d !! k1 = Some r1 -> role_events d !! k2 = Some r2 ->
    k1.1.1 = k2.1.1 -> re_block r1 = re_block r2 -> k1.2 = k2.2 -> k1 = k2;
  li_tokens : map_Forall (fun id r => plain id /\ plain_name id /\ tk_transfers r <= 2 ^ 53) (tokens d);
  li_balances : map_Forall (fun k r => plain k.1 /\ k.2 <> []) (balances d);
  li_members : set_Forall (fun m => m.1.2 <> [] /\ m.2 <> []) (role_members d) }.

Section Orders.
Context `{P : Postgres, PL : !PostgresLaws P}.

Lemma text_refl a : text_le a a = true.
Proof using PL. by destruct (text_total a a). Qed.
Lemma text_lt_negb a b : text_lt a b = negb (text_le b a).
Proof using PL.
  unfold text_lt. destruct (bool_decide_reflect (a = b)) as [->|Hne].
  - rewrite text_refl. done.
  - destruct (text_le a b) eqn:E1, (text_le b a) eqn:E2; try done; exfalso; [by apply Hne, text_anti|].
    destruct (text_total a b); congruence.
Qed.

Lemma newest_total {X} (b l : X -> Z) : Total (ordered (fun p q => newest_first (b p) (l p) (b q) (l q))).
Proof using. intros p q. unfold ordered, newest_first. lia. Qed.
Lemma newest_trans {X} (b l : X -> Z) : Transitive (ordered (fun p q => newest_first (b p) (l p) (b q) (l q))).
Proof using. intros p q r. unfold ordered, newest_first. lia. Qed.
Lemma newest_anti b1 l1 b2 l2 : newest_first b1 l1 b2 l2 = true -> newest_first b2 l2 b1 l1 = true -> b1 = b2 /\ l1 = l2.
Proof using. unfold newest_first. lia. Qed.
Lemma key_total {X} (k : X -> jsstring) : Total (ordered (fun p q => text_le (k p) (k q))).
Proof using PL. intros p q. apply text_total. Qed.
Lemma key_trans {X} (k : X -> jsstring) : Transitive (ordered (fun p q => text_le (k p) (k q))).
Proof using PL. intros p q r. apply text_trans. Qed.
(** A number, descending, then a text. *)
Definition number_then_text {X} (n : X -> Z) (k : X -> jsstring) (p q : X) : bool := (n q <? n p) || (n q =? n p) && text_le (k p) (k q).
Lemma number_text_total {X} (n : X -> Z) (k : X -> jsstring) : Total (ordered (number_then_text n k)).
Proof using PL. intros p q. unfold ordered, number_then_text. destruct (text_total (k p) (k q)) as [-> | ->]; lia. Qed.
Lemma number_text_trans {X} (n : X -> Z) (k : X -> jsstring) : Transitive (ordered (number_then_text n k)).
Proof using PL.
  intros p q r. unfold ordered, number_then_text. pose proof (text_trans (k p) (k q) (k r)) as H.
  destruct (text_le (k p) (k q)), (text_le (k q) (k r)); try (rewrite H by done); lia.
Qed.
Lemma number_text_anti {X} (n : X -> Z) (k : X -> jsstring) p q : ordered (number_then_text n k) p q -> ordered (number_then_text n k) q p ->
  n p = n q /\ k p = k q.
Proof using PL.
  unfold ordered, number_then_text. pose proof (text_anti (k p) (k q)) as H. destruct (text_le (k p) (k q)), (text_le (k q) (k p)); try lia.
  intros H1 H2. split; [lia|by apply H].
Qed.
Lemma number_text_after {X} (n : X -> Z) (k : X -> jsstring) r x :
  (n x <? n r) || (n x =? n r) && text_lt (k r) (k x) = negb (number_then_text n k x r).
Proof using PL. unfold number_then_text. rewrite text_lt_negb. destruct (text_le (k x) (k r)); lia. Qed.
(** A text, then a text. *)
Definition text_then_text {X} (a k : X -> jsstring) (p q : X) : bool := text_lt (a p) (a q) || bool_decide (a p = a q) && text_le (k p) (k q).
Lemma text_text_spec {X} (a k : X -> jsstring) p q :
  ordered (text_then_text a k) p q <-> (text_le (a p) (a q) = true /\ a p <> a q) \/ (a p = a q /\ text_le (k p) (k q) = true).
Proof using.
  unfold ordered, text_then_text, text_lt. rewrite orb_true_iff, !andb_true_iff, negb_true_iff, bool_decide_eq_false, bool_decide_eq_true. done.
Qed.
Lemma text_text_total {X} (a k : X -> jsstring) : Total (ordered (text_then_text a k)).
Proof using PL.
  intros p q. rewrite !text_text_spec. destruct (decide (a p = a q)) as [E|E].
  - destruct (text_total (k p) (k q)); [left|right]; right; done.
  - destruct (text_total (a p) (a q)); [left|right]; left; done.
Qed.
Lemma text_text_trans {X} (a k : X -> jsstring) : Transitive (ordered (text_then_text a k)).
Proof using PL.
  intros p q r. rewrite !text_text_spec. intros [[H1 N1]|[E1 H1]] [[H2 N2]|[E2 H2]].
  - left. split; [by eapply text_trans|]. intros E. apply N1. rewrite E in *. by apply text_anti.
  - left. rewrite <- E2. done.
  - left. rewrite E1. done.
  - right. split; [congruence|by eapply text_trans].
Qed.
Lemma text_text_anti {X} (a k : X -> jsstring) p q : ordered (text_then_text a k) p q -> ordered (text_then_text a k) q p -> k p = k q.
Proof using PL.
  rewrite !text_text_spec. intros [[H1 N1]|[E1 H1]] [[H2 N2]|[E2 H2]]; [|congruence..|by apply text_anti]. by destruct N1; apply text_anti.
Qed.
Lemma text_text_after {X} (a k : X -> jsstring) r x :
  text_lt (a r) (a x) || bool_decide (a x = a r) && text_lt (k r) (k x) = negb (text_then_text a k x r).
Proof using PL.
  unfold text_then_text. rewrite !text_lt_negb. destruct (bool_decide_reflect (a x = a r)) as [E|E].
  - rewrite E, text_refl. done.
  - pose proof (text_anti (a x) (a r)). pose proof (text_total (a x) (a r)).
    destruct (text_le (a x) (a r)) eqn:E1, (text_le (a r) (a x)) eqn:E2; cbn; try done; [by destruct E; auto|by destruct_or!].
Qed.
End Orders.

Section Listings.
Context `{F : Faults, P : Postgres, PL : !PostgresLaws P} (calm : forall t, sql_fault t = None).
Context (d : Db) (Ht : typed_tables d) (Hd : listable d) (limit : nat) (Hlimit : (0 < limit)%nat).

Lemma table_entry {K V} `{Countable K} (m : gmap K V) (p : K * V) : p ∈ map_to_list m -> m !! p.1 = Some p.2.
Proof using. destruct p. apply elem_of_map_to_list. Qed.
Lemma same_entry {K V} `{Countable K} (m : gmap K V) (p q : K * V) : p ∈ map_to_list m -> q ∈ map_to_list m -> p.1 = q.1 -> p = q.
Proof using. intros Hp%table_entry Hq%table_entry E. destruct p, q. cbn in *. simplify_eq. done. Qed.
Lemma fetch_id {X} (f : option jsstring -> Db -> list X) (cursor : X -> jsstring) c before keep table :
  f c d = select_page before keep limit table ->
  exists f0, (rows ← query (f c); mret (page_of limit cursor rows)) = (rows ← query f0; mret (page_of limit cursor rows)) /\
    f0 d = id <$> select_page before keep limit table.
Proof using. intros E. exists (f c). split; [done|]. by rewrite list_fmap_id. Qed.

Definition events_filter (tokenId address cursor : option jsstring) : EventsFilter :=
  {| evf_tokenId := tokenId; evf_address := address; evf_limit := limit; evf_cursor := cursor |}.
Lemma events_seen tokenId address : client_sees d id event_before (event_matches (events_filter tokenId address None)) (map_to_list (events d))
  (fun c => listEvents (events_filter tokenId address c)).
Proof using calm Hd Hlimit.
  apply (listing_seen calm d id event_before _ (fun c p => below_cursor (parseCursor c) (ev_block p.2) p.1.2) _ limit event_cursor); [done| | | | | | |].
  - apply (newest_total (fun p : EventEntry => ev_block p.2) (fun p => p.1.2)).
  - apply (newest_trans (fun p : EventEntry => ev_block p.2) (fun p => p.1.2)).
  - apply NoDup_map_to_list.
  - intros x y Hx Hy _ _ H1 H2. apply newest_anti in H1 as [Eb El]; [|exact H2]. eapply same_entry; [exact Hx|exact Hy|].
    apply table_entry in Hx, Hy. eapply (li_events_distinct d Hd); done.
  - intros c. by apply (fetch_id (fun c d => select_page event_before (fun p => event_matches (events_filter tokenId address c) p &&
      below_cursor (parseCursor c) (ev_block p.2) p.1.2) limit (map_to_list (events d)))).
  - done.
  - intros r x Hr _ _ _. apply table_entry in Hr. apply (li_events d Hd) in Hr as [? ?]. by apply below_block_cursor.
Qed.

Definition role_filter (contractAddress : jsstring) (role account cursor : option jsstring) : RoleEventOptions :=
  {| reo_contractAddress := contractAddress; reo_limit := limit; reo_cursor := cursor; reo_role := role; reo_account := account |}.
Definition role_event_before (p q : RoleEventEntry) : bool := newest_first (re_block p.2) p.1.2 (re_block q.2) q.1.2.
Lemma role_events_seen contractAddress role account : client_sees d id role_event_before
  (role_event_matches (role_filter contractAddress role account None)) (map_to_list (role_events d))
  (fun c => listRoleEvents (role_filter contractAddress role account c)).
Proof using calm Hd Hlimit.
  apply (listing_seen calm d id role_event_before _ (fun c p => below_cursor (parseCursor c) (re_block p.2) p.1.2) _ limit
    (fun p : RoleEventEntry => block_cursor (re_block p.2) p.1.2)); [done| | | | | | |].
  - apply (newest_total (fun p : RoleEventEntry => re_block p.2) (fun p => p.1.2)).
  - apply (newest_trans (fun p : RoleEventEntry => re_block p.2) (fun p => p.1.2)).
  - apply NoDup_map_to_list.
  - intros x y Hx Hy Kx Ky H1 H2. apply newest_anti in H1 as [Eb El]; [|exact H2]. eapply same_entry; [exact Hx|exact Hy|].
    apply table_entry in Hx, Hy. unfold role_event_matches in Kx, Ky. do 2 apply andb_true_iff in Kx as [Kx _], Ky as [Ky _].
    apply bool_decide_eq_true in Kx, Ky. eapply (li_role_events_distinct d Hd); try done. congruence.
  - intros c. by apply (fetch_id (fun c d => select_page role_event_before (fun p => role_event_matches (role_filter contractAddress role account c) p &&
      below_cursor (parseCursor c) (re_block p.2) p.1.2) limit (map_to_list (role_events d)))).
  - done.
  - intros r x Hr _ _ _. apply table_entry in Hr. apply (li_role_events d Hd) in Hr as [? ?]. by apply below_block_cursor.
Qed.

Definition any_row {X} (_ : X) : bool := true.
Lemma tokens_seen : client_sees d id token_before any_row (map_to_list (tokens d)) (listTokens limit).
Proof using calm Ht Hd Hlimit PL.
  apply (listing_seen calm d id token_before any_row (fun c (p : TokenEntry) => match truthy c ≫= parseTokenCursor with
    | None => true | Some (n, id) => int_lt (tk_transfers p.2) n || int_eq (tk_transfers p.2) n && text_lt id p.1 end) _ limit token_cursor); [done| | | | | | |].
  - apply (number_text_total (fun p : TokenEntry => tk_transfers p.2) fst).
  - apply (number_text_trans (fun p : TokenEntry => tk_transfers p.2) fst).
  - apply NoDup_map_to_list.
  - intros x y Hx Hy _ _ H1 H2. eapply same_entry; [exact Hx|exact Hy|].
    by apply (number_text_anti (fun p : TokenEntry => tk_transfers p.2) fst) in H1 as [_ E]; [|exact H2].
  - intros c. eexists. split; [reflexivity|]. by rewrite list_fmap_id.
  - done.
  - intros r x Hr _ _ _. apply table_entry in Hr. pose proof (li_tokens d Hd _ _ Hr) as (Hp & _ & Hn). pose proof (ty_tokens d Ht _ _ Hr) as [_ H0].
    unfold token_cursor at 1. cbn [id]. rewrite truthy_plain by apply pair_nonempty. cbn [mbind option_bind].
    rewrite token_cursor_reads by (done || by split). cbn [int_lt int_eq]. apply (number_text_after (fun p : TokenEntry => tk_transfers p.2) fst).
Qed.

(** The names the search finds hold no double colon, and end in no colon. *)
Definition searchable (d : Db) (needle : jsstring) : Prop :=
  map_Forall (fun _ r => forall name, tk_name r = Some name -> pg_ilike name (js "%" ++ needle ++ js "%") = true -> plain_name name) (tokens d).
Lemma search_seen needle : searchable d needle ->
  client_sees d id name_before (fun p : TokenEntry => match tk_name p.2 with None => false | Some name => pg_ilike name (js "%" ++ needle ++ js "%") end)
    (map_to_list (tokens d)) (searchTokensByName needle limit).
Proof using calm Hd Hlimit PL.
  intros Hnames.
  apply (listing_seen calm d id name_before _ (fun c p => when_given c (fun c => name_after c p)) _ limit name_cursor); [done| | | | | | |].
  - apply (text_text_total (fun p : TokenEntry => pg_lower (name_of p)) fst).
  - apply (text_text_trans (fun p : TokenEntry => pg_lower (name_of p)) fst).
  - apply NoDup_map_to_list.
  - intros x y Hx Hy _ _ H1 H2. eapply same_entry; [exact Hx|exact Hy|]. by apply (text_text_anti (fun p : TokenEntry => pg_lower (name_of p)) fst).
  - intros c. eexists. split; [reflexivity|]. rewrite list_fmap_id. unfold select_page. f_equal. f_equal. apply List.filter_ext. intros p. by destruct (tk_name p.2).
  - done.
  - intros r x Hr _ Kr _. apply table_entry in Hr. pose proof (li_tokens d Hd _ _ Hr) as (_ & Hid & _). pose proof (Hnames _ _ Hr) as Hname.
    destruct (tk_name r.2) as [name|] eqn:En; [|done]. specialize (Hname name En Kr).
    assert (name_of r = name) as Er by (unfold name_of; by rewrite En). unfold when_given, name_cursor. cbn [id].
    rewrite truthy_plain by (by destruct (name_of r)). unfold name_after. rewrite Er, split_colons, split_colons_plain by done.
    cbn [lookup list_lookup default]. rewrite <- Er. apply (text_text_after (fun p : TokenEntry => pg_lower (name_of p)) fst).
Qed.

Lemma token_balances_seen tokenId : client_sees d id balance_before (fun p : BalanceEntry => bool_decide (p.1.2 = tokenId))
  (map_to_list (balances d)) (listTokenBalances tokenId limit).
Proof using calm Ht Hd Hlimit PL.
  apply (listing_seen calm d id balance_before _ (fun c (p : BalanceEntry) => match truthy c ≫= parseBalanceCursor with
    | None => true | Some (balance, address) => (bl_balance p.2 <? integer_value balance) || (bl_balance p.2 =? integer_value balance) && text_lt address p.1.1
    end) _ limit balance_cursor); [done| | | | | | |].
  - apply (number_text_total (fun p : BalanceEntry => bl_balance p.2) (fun p => p.1.1)).
  - apply (number_text_trans (fun p : BalanceEntry => bl_balance p.2) (fun p => p.1.1)).
  - apply NoDup_map_to_list.
  - intros x y Hx Hy Kx Ky H1 H2. eapply same_entry; [exact Hx|exact Hy|]. apply bool_decide_eq_true in Kx, Ky.
    apply (number_text_anti (fun p : BalanceEntry => bl_balance p.2) (fun p => p.1.1)) in H1 as [_ E]; [|exact H2].
    destruct x as [[? ?] ?], y as [[? ?] ?]. cbn in *. congruence.
  - intros c. eexists. split; [reflexivity|]. by rewrite list_fmap_id.
  - done.
  - intros r x Hr _ _ _. apply table_entry in Hr. pose proof (li_balances d Hd _ _ Hr) as (Hp & _). pose proof (ty_balances d Ht _ _ Hr) as [_ H0].
    unfold balance_cursor at 1. cbn [id]. rewrite truthy_plain by apply pair_nonempty. cbn [mbind option_bind].
    rewrite balance_cursor_reads by (done || lia). rewrite (proj2 (integer_text (bl_balance r.2) ltac:(lia))).
    apply (number_text_after (fun p : BalanceEntry => bl_balance p.2) (fun p => p.1.1)).
Qed.

(** Listings whose cursor is the text they are ordered by. *)
Lemma key_listing {X} (k : X -> jsstring) (keep : X -> bool) table fetch :
  NoDup table -> (forall x y, x ∈ table -> y ∈ table -> keep x = true -> keep y = true -> k x = k y -> x = y) ->
  (forall x, x ∈ table -> keep x = true -> k x <> []) ->
  (forall c, exists f, fetch c = (rows ← query f; mret (page_of limit k rows)) /\
     f d = select_page (fun p q => text_le (k p) (k q)) (fun x => keep x && when_given c (fun c => text_lt c (k x))) limit table) ->
  client_sees d id (fun p q => text_le (k p) (k q)) keep table fetch.
Proof using calm Hlimit PL.
  intros Hdup Hinj Hne Hf. apply (listing_seen calm d id _ keep (fun c x => when_given c (fun c => text_lt c (k x))) table limit k); [done| | |done| | |done|].
  - apply key_total.
  - apply key_trans.
  - intros x y Hx Hy Kx Ky H1 H2. apply Hinj; try done. by apply text_anti.
  - intros c. destruct (Hf c) as (f & -> & Ef). exists f. by rewrite Ef, list_fmap_id.
  - intros r x Hr _ Kr _. unfold when_given. rewrite truthy_plain by (by apply Hne). apply text_lt_negb.
Qed.
Lemma address_balances_seen address : client_sees d id (fun p q : BalanceEntry => text_le p.1.2 q.1.2)
  (fun p : BalanceEntry => bool_decide (p.1.1 = toLowerCase address)) (map_to_list (balances d)) (listBalancesForAddress address limit).
Proof using calm Hd Hlimit PL.
  apply (key_listing (fun p : BalanceEntry => p.1.2)).
  - apply NoDup_map_to_list.
  - intros x y Hx Hy Kx Ky E. eapply same_entry; [exact Hx|exact Hy|]. apply bool_decide_eq_true in Kx, Ky.
    destruct x as [[? ?] ?], y as [[? ?] ?]. cbn in *. congruence.
  - intros x Hx _. apply table_entry in Hx. by apply (li_balances d Hd) in Hx as [_ ?].
  - intros c. eexists. split; reflexivity.
Qed.
Lemma role_members_seen contractAddress role : client_sees d id (fun p q => text_le (member_account p) (member_account q))
  (fun p => bool_decide (p.1.1 = toLowerCase contractAddress) && bool_decide (member_role p = role)) (elements (role_members d))
  (listRoleMembers contractAddress role limit).
Proof using calm Hd Hlimit PL.
  apply (key_listing member_account).
  - apply NoDup_elements.
  - intros x y _ _ Kx Ky E. apply andb_true_iff in Kx as [Kx1 Kx2], Ky as [Ky1 Ky2]. apply bool_decide_eq_true in Kx1, Kx2, Ky1, Ky2.
    destruct x as [[? ?] ?], y as [[? ?] ?]. unfold member_account, member_role in *. cbn in *. congruence.
  - intros x Hx _. apply elem_of_elements in Hx. by apply (li_members d Hd) in Hx as [_ ?].
  - intros c. eexists. split; reflexivity.
Qed.
Lemma account_roles_seen contractAddress account : client_sees d id (fun p q => text_le (member_role p) (member_role q))
  (fun p => bool_decide (p.1.1 = toLowerCase contractAddress) && bool_decide (member_account p = toLowerCase account)) (elements (role_members d))
  (listRolesForAccount contractAddress account limit).
Proof using calm Hd Hlimit PL.
  apply (key_listing member_role).
  - apply NoDup_elements.
  - intros x y _ _ Kx Ky E. apply andb_true_iff in Kx as [Kx1 Kx2], Ky as [Ky1 Ky2]. apply bool_decide_eq_true in Kx1, Kx2, Ky1, Ky2.
    destruct x as [[? ?] ?], y as [[? ?] ?]. unfold member_account, member_role in *. cbn in *. congruence.
  - intros x Hx _. apply elem_of_elements in Hx. by apply (li_members d Hd) in Hx as [? _].
  - intros c. eexists. split; reflexivity.
Qed.
Lemma holders_seen : client_sees d (fun a => (a, last_transfer d a)) text_le any_row (holder_addresses d) (listHolders limit).
Proof using calm Ht Hd Hlimit PL.
  apply (listing_seen calm d _ text_le any_row (fun c a => when_given c (fun c => text_lt (toLowerCase c) a)) _ limit fst); [done| | | | | | |].
  - apply (key_total id).
  - apply (key_trans id).
  - apply NoDup_remove_dups.
  - intros x y _ _ _ _. apply text_anti.
  - intros c. eexists. split; reflexivity.
  - done.
  - intros r x Hr _ _ _. cbn [fst]. apply elem_of_remove_dups, list_elem_of_fmap in Hr as (p & -> & Hp). apply table_entry in Hp.
    pose proof (li_balances d Hd _ _ Hp) as ((Hne & _) & _). pose proof (ty_balances d Ht _ _ Hp) as [Hlow _]. unfold when_given.
    rewrite truthy_plain, Hlow by done. apply text_lt_negb.
Qed.
End Listings.

(** ** Theorems *)

(** C23: Pagination is complete: while the tables stand still, a client that follows
    [nextCursor] from the first page of a listing gets every matching row
    exactly once, in the order of the listing, and the traversal ends.  This
    holds for events, tokens, holders of a token, balances of an address,
    holders, role events, members of a role and roles of an account, and for the
    search by name when no name it finds holds a double colon or ends in a
    colon; it fails otherwise ([search_cursor_loops]).  The tables are well
    typed, their block numbers and log indexes exact as numbers and distinct
    within a block, and no statement fails. *)
Theorem api_pages_cover `{F : Faults, P : Postgres, PL : !PostgresLaws P} d limit : (forall t, sql_fault t = None) -> (0 < limit)%nat ->
  typed_tables d -> listable d ->
  (forall tokenId address, client_sees d id event_before (event_matches (events_filter limit tokenId address None)) (map_to_list (events d))
     (fun c => listEvents (events_filter limit tokenId address c))) /\
  client_sees d id token_before any_row (map_to_list (tokens d)) (listTokens limit) /\
  (forall needle, searchable d needle ->
     client_sees d id name_before (fun p : TokenEntry => match tk_name p.2 with None => false | Some name => pg_ilike name (js "%" ++ needle ++ js "%") end)
       (map_to_list (tokens d)) (searchTokensByName needle limit)) /\
  (forall tokenId, client_sees d id balance_before (fun p : BalanceEntry => bool_decide (p.1.2 = tokenId)) (map_to_list (balances d))
     (listTokenBalances tokenId limit)) /\
  (forall address, client_sees d id (fun p q : BalanceEntry => text_le p.1.2 q.1.2) (fun p : BalanceEntry => bool_decide (p.1.1 = toLowerCase address))
     (map_to_list (balances d)) (listBalancesForAddress address limit)) /\
  client_sees d (fun a => (a, last_transfer d a)) text_le any_row (holder_addresses d) (listHolders limit) /\
  (forall contract role account, client_sees d id role_event_before (role_event_matches (role_filter limit contract role account None))
     (map_to_list (role_events d)) (fun c => listRoleEvents (role_filter limit contract role account c))) /\
  (forall contract role, client_sees d id (fun p q => text_le (member_account p) (member_account q))
     (fun p => bool_decide (p.1.1 = toLowerCase contract) && bool_decide (member_role p = role)) (elements (role_members d))
     (listRoleMembers contract role limit)) /\
  (forall contract account, client_sees d id (fun p q => text_le (member_role p) (member_role q))
     (fun p => bool_decide (p.1.1 = toLowerCase contract) && bool_decide (member_account p = toLowerCase account)) (elements (role_members d))
     (listRolesForAccount contract account limit)).
Proof.
  intros calm Hlimit Ht Hd. split_and!.
  - intros. by apply events_seen.
  - by apply tokens_seen.
  - intros. by apply search_seen.
  - intros. by apply token_balances_seen.
  - intros. by apply address_balances_seen.
  - by apply holders_seen.
  - intros. by apply role_events_seen.
  - intros. by apply role_members_seen.
  - intros. by apply account_roles_seen.
Qed.

(** ** A concrete database *)

(** Statements on every row of a table that is written out. *)
Ltac each_row := repeat match goal with
  | |- map_Forall _ (<[_:=_]> _) => apply map_Forall_insert_2
  | |- map_Forall _ {[_:=_]} => apply map_Forall_insert_2
  | |- map_Forall _ ∅ => apply map_Forall_empty
  | |- set_Forall _ {[_]} => apply set_Forall_singleton
  end.

Section ConcretePages.
Definition toy_postgres : Postgres := {|
  text_le := text_leb; pg_lower := toLowerCase;
  pg_ilike := fun name pattern => includes (toLowerCase name) (toLowerCase (removelast (List.tl pattern)));
  pg_bucket := fun _ _ _ _ t => toString10 t |}.
Lemma toy_postgres_laws : PostgresLaws toy_postgres.
Proof using.
  split; cbn [text_le toy_postgres].
  - intros a. induction a as [|x a IH]; intros [|y b]; cbn [text_leb]; auto. specialize (IH b).
    destruct (Z.eqb_spec x y), (Z.eqb_spec y x); try lia; done.
  - intros a. induction a as [|x a IH]; intros [|y b] [|z c]; cbn [text_leb]; try done. specialize (IH b c).
    destruct (Z.eqb_spec x y), (Z.eqb_spec y z), (Z.eqb_spec x z); try lia; done.
  - intros a. induction a as [|x a IH]; intros [|y b]; cbn [text_leb]; try done. specialize (IH b).
    destruct (Z.eqb_spec x y), (Z.eqb_spec y x); try lia. intros H1 H2. subst y. f_equal. by apply IH.
Qed.
Definition toy_faults : Faults := fun _ => None.
Definition toy_token (name : jsstring) (transfers : Z) : TokenRow := {|
  tk_name := Some name; tk_symbol := None; tk_decimals := Some 6; tk_originFamily := None; tk_originChainId := None; tk_originAsset := None;
  tk_totalSupply := 0; tk_holders := 0; tk_transfers := transfers |}.
Definition toy_transfer (block : Z) : EventRow := {|
  ev_block := block; ev_operator := js "0xaa"; ev_from := js "0xaa"; ev_to := js "0xbb"; ev_token := js "7"; ev_amount := 5; ev_timestamp := 1000 |}.
Definition toy_tables : Db := {|
  tokens := {[js "7" := toy_token (js "Tether") 3; js "8" := toy_token (js "USDC") 3; js "9" := toy_token (js "USDT") 1]};
  balances := {[(js "0xaa", js "7") := {| bl_balance := 10; bl_last := Some 5 |}; (js "0xbb", js "7") := {| bl_balance := 10; bl_last := None |}]};
  events := {[(js "0x01", 0) := toy_transfer 4; (js "0x02", 1) := toy_transfer 4; (js "0x03", 0) := toy_transfer 9]};
  failed_events := ∅; role_events := ∅; role_members := {[(js "0xcc", js "0x00", js "0xdd")]}; role_admins := ∅; oracle_executions := ∅; meta := ∅ |}.

#[local] Ltac by_tables := split; cbn [tokens balances events failed_events role_events role_members role_admins oracle_executions toy_tables]; each_row.
Lemma toy_typed : typed_tables toy_tables.
Proof using. by_tables; split_and!; try reflexivity; try (by eexists); cbn; lia. Qed.
Lemma toy_listable : listable toy_tables.
Proof using.
  assert (forall s : jsstring, bool_decide (58 ∉ s) = true -> 58 ∉ s) as colon by (intros s H; by apply (bool_decide_eq_true_1 _ H)).
  by_tables; try (split_and!; try (unfold position; cbn; lia); try done; try (by apply colon); try reflexivity; by split; [|apply colon]).
  - intros k1 r1 k2 r2 H1 H2 Hb Hl. rewrite !lookup_insert_Some in H1, H2. rewrite !lookup_singleton_Some in H1, H2.
    by destruct_or!; destruct_and!; repeat (destruct_or!; destruct_and!); subst.
  - intros k1 r1 k2 r2 H1. by rewrite lookup_empty in H1.
Qed.
Lemma toy_statements_run (t : nat) : @sql_fault toy_faults t = None.
Proof using. reflexivity. Qed.
Lemma toy_names : @searchable toy_postgres toy_tables (js "t").
Proof using. unfold searchable. cbn [tokens toy_tables]. each_row; intros name [= <-] _; reflexivity. Qed.

(** ** A name with a double colon *)

Definition colon_tables : Db := set_tokens (fun _ => {[js "7" := toy_token (js "A::B") 1; js "8" := toy_token (js "AC") 1]}) toy_tables.
Definition colon_page : Page TokenEntry := {| pg_nextCursor := Some (js "A::B::7"); pg_rows := [(js "7", toy_token (js "A::B") 1)] |}.
Lemma colon_fetch c : c ∈ [None; Some (js "A::B::7")] -> serves colon_tables (@searchTokensByName toy_faults toy_postgres (js "a") 1 c) colon_page.
Proof using.
  intros Hc w Hw. exists (advance colon_tables w). split; [|done]. unfold searchTokensByName, query, sql, mbind, M_bind. rewrite Hw, toy_statements_run.
  unfold mret, M_ret. f_equal. apply elem_of_cons in Hc as [->|Hc%list_elem_of_singleton]; [|subst c]; vm_compute; reflexivity.
Qed.
End ConcretePages.

Lemma colon_follow fuel : forall c w, c ∈ [None; Some (js "A::B::7")] -> w_db w = colon_tables ->
  exists e w', follow fuel (@searchTokensByName toy_faults toy_postgres (js "a") 1) c w = (Err e, w').
Proof.
  induction fuel as [|n IH]; intros c w Hc Hw; [by do 2 eexists|]. cbn [follow]. destruct (colon_fetch c Hc w Hw) as (w1 & E & Hw1).
  destruct (IH (Some (js "A::B::7")) w1 ltac:(set_solver) Hw1) as (e & w2 & E2). exists e, w2.
  unfold mbind at 1, M_bind at 1. rewrite E. cbn [pg_nextCursor pg_rows colon_page]. unfold mbind, M_bind. by rewrite E2.
Qed.

(** The search by name does not end when a token's name holds a double colon:
    the cursor [name::token_id] of a token named [A::B] splits at the colons of
    the name, and asks for the rows after the name [A], so the same page is
    served again and again and the tokens after it are never reached. *)
Theorem search_cursor_loops fuel w : w_db w = colon_tables ->
  exists e w', follow fuel (@searchTokensByName toy_faults toy_postgres (js "a") 1) None w = (Err e, w').
Proof. apply colon_follow. left. Qed.
Definition colon_world : World := {| w_db := colon_tables; w_time := 0%nat; w_cache := ∅; w_updated := 0; w_txs := ∅ |}.
Lemma search_cursor_witness : exists e w', follow 100 (@searchTokensByName toy_faults toy_postgres (js "a") 1) None colon_world = (Err e, w').
Proof. apply (search_cursor_loops 100 colon_world). reflexivity. Defined.

Lemma api_pages_witness : Forall (fun k => is_Some (tokens toy_tables !! k)) [js "7"; js "8"; js "9"] /\
  client_sees toy_tables id (@token_before toy_postgres) any_row (map_to_list (tokens toy_tables)) (@listTokens toy_faults toy_postgres 2) /\
  client_sees toy_tables id (@name_before toy_postgres)
    (fun p : TokenEntry => match tk_name p.2 with None => false | Some name => @pg_ilike toy_postgres name (js "%" ++ js "t" ++ js "%") end)
    (map_to_list (tokens toy_tables)) (@searchTokensByName toy_faults toy_postgres (js "t") 2).
Proof.
  pose proof (@api_pages_cover toy_faults toy_postgres toy_postgres_laws toy_tables 2 toy_statements_run ltac:(lia) toy_typed toy_listable) as H.
  split; [repeat constructor; eexists; reflexivity|]. split; [exact (proj1 (proj2 H))|].
  exact (proj1 (proj2 (proj2 H)) (js "t") toy_names).
Defined.

(** ** The protocol transactions of the API

    The answer to a list of transaction hashes: one entry for each hash that
    has an event, in the order of the request, with all its transfers and all
    its oracle executions in the order of their logs. *)

Local Open Scope Z_scope.
Local Open Scope js_scope.

(** ** Grouping by hash *)

Section Grouping.
Context {Row T : Type} (hash : Row -> jsstring) (view : Row -> T).
Definition rows_of (h : jsstring) (rows : list Row) : list Row := List.filter (fun r => bool_decide (hash r = h)) rows.

Lemma push_lookup (k : jsstring) (v : T) (m : gmap jsstring (list T)) (h : jsstring) :
  default [] (push k v m !! h) = default [] (m !! h) ++ (if bool_decide (k = h) then [v] else []).
Proof using.
  unfold push. case_bool_decide as E; [subst; by rewrite lookup_insert_eq|]. rewrite lookup_insert_ne by done. by rewrite app_nil_r.
Qed.
Lemma grouped rows : forall (m : gmap jsstring (list T)) h,
  default [] (foldl (fun m r => push (hash r) (view r) m) m rows !! h) = default [] (m !! h) ++ (view <$> rows_of h rows).
Proof using.
  induction rows as [|r rows IH]; intros m h; cbn [foldl rows_of List.filter]; [by rewrite app_nil_r|].
  rewrite IH, push_lookup. case_bool_decide; cbn [fmap list_fmap]; by rewrite <- app_assoc.
Qed.
End Grouping.

Lemma rows_of_elem {Row} (hash : Row -> jsstring) h rows r : r ∈ rows_of hash h rows <-> r ∈ rows /\ hash r = h.
Proof. unfold rows_of. rewrite !list_elem_of_In, filter_In, bool_decide_eq_true. done. Qed.

Definition transfer_hash (row : ProtocolTransferRow) : jsstring := row.1.1.1.
Definition execution_hash (row : OracleExecutionRow) : jsstring := row.1.1.
Definition meta_of (row : ProtocolTransferRow) : Z * Z := (ev_block row.1.2, ev_timestamp row.1.2).
Lemma first_meta rows : forall (m : gmap jsstring (Z * Z)) h, foldl add_meta m rows !! h =
  match m !! h with Some v => Some v | None => head (meta_of <$> rows_of transfer_hash h rows) end.
Proof.
  induction rows as [|r rows IH]; intros m h; cbn [foldl rows_of List.filter]; [by destruct (m !! h)|]. rewrite IH. unfold add_meta, transfer_hash.
  destruct (m !! r.1.1.1) as [v|] eqn:Er; case_bool_decide as E; subst; rewrite ?Er, ?lookup_insert_eq, ?lookup_insert_ne by done; done.
Qed.

(** What an oracle execution shows. *)
Definition execution_view (row : OracleExecutionRow) : ProtocolOracleExecution := {|
  po_actions := or_actions row.2; po_aggregatedSignature := truthy (Some (or_signature row.2)); po_idempotencyKey := or_key row.2;
  po_logIndex := row.1.2; po_oracleContractAddress := or_contract row.2; po_submittedOracleAddress := truthy (or_submitted row.2) |}.
Definition texts_ok (row : OracleExecutionRow) : Prop := Forall (Forall code_unit) (or_actions row.2).
Lemma actions_read actions : mapM (fun value => match value with JStr s => Ok s | _ => Err "Invalid oracle actions_json" end) (JStr <$> actions) = Ok actions.
Proof. induction actions as [|a l IH]; [done|]. cbn [fmap list_fmap mapM] in *. cbn. by rewrite IH. Qed.
Lemma execution_read row : texts_ok row -> oracle_execution row = Ok (execution_view row).
Proof.
  intros H. unfold oracle_execution, parseActions, actions_json. rewrite JSON_roundtrip.
  - cbn [mbind result_bind]. by rewrite actions_read.
  - constructor. apply Forall_fmap. eapply Forall_impl; [exact H|]. intros s Hs. by constructor.
Qed.
Lemma executions_grouped rows : forall m, Forall texts_ok rows ->
  add_executions m rows = Ok (foldl (fun m r => push (execution_hash r) (execution_view r) m) m rows).
Proof.
  induction rows as [|r rows IH]; intros m Hr; [done|]. apply Forall_cons in Hr as [Hr Hrows]. cbn [add_executions foldl].
  rewrite execution_read by done. cbn [mbind result_bind]. by rewrite IH.
Qed.

(** ** The projection *)

Definition has_transfers (t : gmap jsstring (list ProtocolTransfer)) (h : jsstring) : bool := negb (Nat.eqb (length (default [] (t !! h))) 0).
Definition projected (t : gmap jsstring (list ProtocolTransfer)) (m : gmap jsstring (Z * Z)) (x : gmap jsstring (list ProtocolOracleExecution))
    (h : jsstring) (e : ProtocolTransaction) : Prop :=
  px_txHash e = h /\ px_transfers e = default [] (t !! h) /\ px_oracleExecutions e = default [] (x !! h) /\
  px_relayOperation e = deriveRelayOperation (pt_type <$> px_transfers e) /\
  exists b ts, m !! h = Some (b, ts) /\ px_blockNumber e = b /\ toISOString (ts * 1000) = Ok (px_timestamp e).
Lemma project_entries t m x hashes :
  (forall h, h ∈ hashes -> has_transfers t h = true -> exists b ts iso, m !! h = Some (b, ts) /\ toISOString (ts * 1000) = Ok iso) ->
  exists data, project_hashes t m x hashes = Ok data /\ Forall2 (projected t m x) (List.filter (has_transfers t) hashes) data.
Proof.
  induction hashes as [|h hashes IH]; intros Hm; [by exists []|]. destruct IH as (data & Ed & Hd); [intros h' Hh'; apply Hm; by apply elem_of_cons; right|].
  cbn [project_hashes List.filter]. destruct (has_transfers t h) eqn:Eh.
  - destruct (Hm h ltac:(apply elem_of_cons; by left) Eh) as (b & ts & iso & Em & Ei). unfold has_transfers in Eh. destruct (t !! h) as [[|p ps]|] eqn:Et; try done.
    rewrite Em, Ei. cbn [mbind result_bind]. rewrite Ed. cbn [mbind result_bind]. eexists. split; [reflexivity|]. constructor; [|done].
    unfold projected. cbn. rewrite Et. split_and!; try done. by exists b, ts.
  - exists data. unfold has_transfers in Eh. by destruct (t !! h) as [[|p ps]|]; [|discriminate|].
Qed.

(** ** What an entry shows *)

Definition join_token (d : Db) (p : EventEntry) : ProtocolTransferRow := (p, tokens d !! ev_token p.2).
Definition events_of (d : Db) (h : jsstring) : list EventEntry := rows_of (fun p : EventEntry => p.1.1) h (map_to_list (events d)).
Definition executions_of (d : Db) (h : jsstring) : list OracleExecutionRow := rows_of execution_hash h (map_to_list (oracle_executions d)).
(** The transfers and the executions of the transaction, each once and in the
    order of their logs, and the block and time of one of its events. *)
Record shows (d : Db) (h : jsstring) (e : ProtocolTransaction) : Prop := {
  sh_hash : px_txHash e = h;
  sh_transfers : px_transfers e ≡ₚ (protocol_transfer ∘ join_token d) <$> events_of d h;
  sh_transfers_sorted : StronglySorted (fun a b => pt_logIndex a <= pt_logIndex b) (px_transfers e);
  sh_executions : px_oracleExecutions e ≡ₚ execution_view <$> executions_of d h;
  sh_executions_sorted : StronglySorted (fun a b => po_logIndex a <= po_logIndex b) (px_oracleExecutions e);
  sh_operation : px_relayOperation e = deriveRelayOperation (pt_type <$> px_transfers e);
  sh_block : exists p, p ∈ events_of d h /\ px_blockNumber e = ev_block p.2 /\ toISOString (ev_timestamp p.2 * 1000) = Ok (px_timestamp e) }.

Lemma by_log_sorted {T} (index : T -> Z) l : StronglySorted (fun a b => index a <= index b) (sortByLogIndex index l).
Proof.
  unfold sortByLogIndex. assert (StronglySorted (ordered (by_log_index index)) (merge_sort (ordered (by_log_index index)) l)) as H.
  { apply StronglySorted_merge_sort; [intros a b c|intros a b]; unfold ordered, by_log_index; lia. }
  induction H as [|a k Hk IH Ha]; constructor; [done|]. eapply Forall_impl; [exact Ha|]. unfold ordered, by_log_index. intros b. lia.
Qed.
Lemma by_log_perm {T} (index : T -> Z) l : sortByLogIndex index l ≡ₚ l.
Proof. apply merge_sort_Permutation. Qed.
Lemma sorted_groups {T} (sort : list T -> list T) (m : gmap jsstring (list T)) h : sort [] = [] ->
  default [] ((sort <$> m) !! h) = sort (default [] (m !! h)).
Proof. intros H. rewrite lookup_fmap. by destruct (m !! h). Qed.

(** The rows of a hash among the rows a query selects and sorts. *)
Lemma rows_of_perm {Row} (hash : Row -> jsstring) h l k : l ≡ₚ k -> rows_of hash h l ≡ₚ rows_of hash h k.
Proof. apply filter_perm. Qed.
Lemma rows_of_selected {Row} (hash : Row -> jsstring) (hashes : list jsstring) h rows : h ∈ hashes ->
  rows_of hash h (List.filter (fun r => bool_decide (hash r ∈ hashes)) rows) = rows_of hash h rows.
Proof.
  intros Hh. unfold rows_of. induction rows as [|r rows IH]; [done|]. cbn. destruct (bool_decide_reflect (hash r = h)) as [Hr|Hr].
  - rewrite (bool_decide_eq_true_2 (hash r ∈ hashes)) by congruence. cbn. rewrite bool_decide_eq_true_2 by done. by rewrite IH.
  - destruct (bool_decide (hash r ∈ hashes)); cbn; [rewrite bool_decide_eq_false_2 by done|]; done.
Qed.
Lemma rows_of_fmap {Row Row'} (hash : Row' -> jsstring) (f : Row -> Row') h rows :
  rows_of hash h (f <$> rows) = f <$> rows_of (hash ∘ f) h rows.
Proof. unfold rows_of. induction rows as [|r rows IH]; [done|]. cbn. case_bool_decide; cbn; by rewrite IH. Qed.
Lemma transfer_rows_of hashes d h : h ∈ hashes -> rows_of transfer_hash h (transfer_rows hashes d) ≡ₚ join_token d <$> events_of d h.
Proof.
  intros Hh. unfold transfer_rows. rewrite rows_of_fmap. apply Permutation_map. unfold events_of.
  rewrite (rows_of_perm _ h _ _ (merge_sort_Permutation _ _)).
  by rewrite (rows_of_selected (fun p : EventEntry => p.1.1) hashes).
Qed.
Lemma oracle_rows_of hashes d h : h ∈ hashes -> rows_of execution_hash h (oracle_rows hashes d) ≡ₚ executions_of d h.
Proof.
  intros Hh. unfold oracle_rows, executions_of. rewrite (rows_of_perm _ h _ _ (merge_sort_Permutation _ _)).
  by rewrite (rows_of_selected execution_hash hashes).
Qed.

(** Time stamps are dates and the stored actions are texts. *)
Record presentable (d : Db) : Prop := {
  pr_times : map_Forall (fun _ r => Z.abs (ev_timestamp r * 1000) <= 8640000000000000) (events d);
  pr_actions : map_Forall (fun _ r => Forall (Forall code_unit) (or_actions r)) (oracle_executions d) }.

Lemma date_shown t : Z.abs t <= 8640000000000000 -> exists iso, toISOString t = Ok iso.
Proof.
  intros H. unfold toISOString. destruct (Z.ltb_spec 8640000000000000 (Z.abs t)); [lia|]. destruct (month_day _ _ _) as [m date]. by eexists.
Qed.
Lemma event_time d h p : presentable d -> p ∈ events_of d h -> exists iso, toISOString (ev_timestamp p.2 * 1000) = Ok iso.
Proof.
  intros Hd Hp. apply rows_of_elem in Hp as [Hp _]. destruct p as [k r]. apply elem_of_map_to_list in Hp. apply date_shown. by apply (pr_times d Hd k).
Qed.
Lemma oracle_texts hashes d : presentable d -> Forall texts_ok (oracle_rows hashes d).
Proof.
  intros Hd. apply Forall_forall. intros [k r] Hp. unfold oracle_rows in Hp. rewrite (merge_sort_Permutation _ _) in Hp.
  apply list_elem_of_In, filter_In in Hp as [Hp _]. apply list_elem_of_In, elem_of_map_to_list in Hp. by apply (pr_actions d Hd k).
Qed.

Lemma Forall2_in {X Y} (P Q : X -> Y -> Prop) l k : Forall2 P l k -> (forall x y, x ∈ l -> P x y -> Q x y) -> Forall2 Q l k.
Proof. induction 1 as [|x y l k Hxy _ IH]; intros H; constructor; [apply H; [left|done]|]. apply IH. intros x' y' Hx. apply H. by right. Qed.

Section Entries.
Context (d : Db) (hashes : list jsstring) (Hd : presentable d).
Definition transfer_groups : gmap jsstring (list ProtocolTransfer) := sortByLogIndex pt_logIndex <$> foldl add_transfer ∅ (transfer_rows hashes d).
Definition execution_groups : gmap jsstring (list ProtocolOracleExecution) :=
  sortByLogIndex po_logIndex <$> foldl (fun m r => push (execution_hash r) (execution_view r) m) ∅ (oracle_rows hashes d).
Definition metas : gmap jsstring (Z * Z) := foldl add_meta ∅ (transfer_rows hashes d).

Lemma transfers_grouped h : h ∈ hashes -> default [] (transfer_groups !! h) ≡ₚ (protocol_transfer ∘ join_token d) <$> events_of d h.
Proof using.
  intros Hh. unfold transfer_groups. rewrite sorted_groups by done. rewrite by_log_perm.
  change add_transfer with (fun m r => push (transfer_hash r) (protocol_transfer r) m). rewrite grouped, lookup_empty. cbn [default app].
  rewrite (transfer_rows_of hashes d h Hh). by rewrite list_fmap_compose.
Qed.
Lemma executions_listed h : h ∈ hashes -> default [] (execution_groups !! h) ≡ₚ execution_view <$> executions_of d h.
Proof using.
  intros Hh. unfold execution_groups. rewrite sorted_groups by done. rewrite by_log_perm, grouped, lookup_empty. cbn [default app].
  by rewrite (oracle_rows_of hashes d h Hh).
Qed.
Lemma group_sorted {T} (index : T -> Z) (m : gmap jsstring (list T)) h :
  StronglySorted (fun a b => index a <= index b) (default [] ((sortByLogIndex index <$> m) !! h)).
Proof using. rewrite sorted_groups by done. apply by_log_sorted. Qed.
Lemma meta_shown h b ts : h ∈ hashes -> metas !! h = Some (b, ts) -> exists p, p ∈ events_of d h /\ b = ev_block p.2 /\ ts = ev_timestamp p.2.
Proof using.
  intros Hh Hm. unfold metas in Hm. rewrite first_meta, lookup_empty in Hm. apply head_Some in Hm as [rest Er].
  assert ((b, ts) ∈ meta_of <$> rows_of transfer_hash h (transfer_rows hashes d)) as Hin by (rewrite Er; left).
  apply list_elem_of_fmap in Hin as (row & Erow & Hrow). rewrite (transfer_rows_of hashes d h Hh) in Hrow.
  apply list_elem_of_fmap in Hrow as (p & -> & Hp). unfold meta_of in Erow. cbn in Erow. injection Erow as -> ->. by exists p.
Qed.
Lemma meta_present h : h ∈ hashes -> has_transfers transfer_groups h = true -> exists b ts, metas !! h = Some (b, ts).
Proof using.
  intros Hh Ht. unfold has_transfers in Ht. pose proof (Permutation_length (transfers_grouped h Hh)) as El. rewrite El in Ht.
  unfold metas. rewrite first_meta, lookup_empty. pose proof (Permutation_length (transfer_rows_of hashes d h Hh)) as Er.
  rewrite !length_fmap in *. destruct (rows_of transfer_hash h (transfer_rows hashes d)) as [|row rest]; [|by eexists _, _].
  cbn in Er. rewrite <- Er in Ht. done.
Qed.
Lemma entry_shows h e : h ∈ hashes -> projected transfer_groups metas execution_groups h e -> shows d h e.
Proof using.
  intros Hh (E1 & E2 & E3 & E4 & b & ts & Em & Eb & Et). destruct (meta_shown h b ts Hh Em) as (p & Hp & -> & ->). split; try done.
  - rewrite E2. by apply transfers_grouped.
  - rewrite E2. apply group_sorted.
  - rewrite E3. by apply executions_listed.
  - rewrite E3. apply group_sorted.
  - by exists p.
Qed.
Definition has_events (h : jsstring) : bool := negb (Nat.eqb (length (events_of d h)) 0).
Lemma hashes_with_events : List.filter (has_transfers transfer_groups) hashes = List.filter has_events hashes.
Proof using.
  apply filter_ext_in. intros h Hh. apply list_elem_of_In in Hh. unfold has_transfers, has_events.
  by rewrite (Permutation_length (transfers_grouped h Hh)), length_fmap.
Qed.
Lemma project_shows : exists data, projectProtocolTransactions (oracle_rows hashes d) (transfer_rows hashes d) hashes = Ok data /\
  Forall2 (shows d) (List.filter has_events hashes) data.
Proof using Hd.
  unfold projectProtocolTransactions. rewrite executions_grouped by (by apply oracle_texts). cbn [mbind result_bind].
  destruct (project_entries transfer_groups metas execution_groups hashes) as (data & Ed & Hdata).
  - intros h Hh Ht. destruct (meta_present h Hh Ht) as (b & ts & Em). destruct (meta_shown h b ts Hh Em) as (p & Hp & -> & ->).
    destruct (event_time d h p Hd Hp) as [iso Ei]. by exists (ev_block p.2), (ev_timestamp p.2), iso.
  - exists data. split; [exact Ed|]. rewrite hashes_with_events in Hdata. eapply Forall2_in; [exact Hdata|].
    intros h e Hh. apply list_elem_of_In, filter_In in Hh as [Hh _]. apply entry_shows. by apply list_elem_of_In.
Qed.
End Entries.

(** ** Theorem *)

(** C28: The transactions of a request are complete: with the database answering,
    [getProtocolTransactionsByHash] returns one entry for every requested hash
    that has an indexed event, in the order of the request, and each entry
    holds every transfer of the transaction with its token's metadata and every
    oracle execution with its actions, once and sorted by log index, the
    operation derived from the transfers, and the block and time of an event of
    the transaction. *)
Theorem protocol_transactions_complete `{F : Faults} d hashes w : (forall t, sql_fault t = None) -> presentable d -> w_db w = d ->
  exists data w', getProtocolTransactionsByHash hashes w = (Ok data, w') /\ w_db w' = d /\ Forall2 (shows d) (List.filter (has_events d) hashes) data.
Proof.
  intros calm Hd Hw. unfold getProtocolTransactionsByHash. destruct hashes as [|h hashes]; [by exists [], w|]. cbn [length Nat.eqb].
  destruct (project_shows d (h :: hashes) Hd) as (data & Ed & Hdata). exists data. eexists.
  unfold query, sql, mbind, M_bind, liftM. rewrite calm, Hw. cbn [w_db advance w_time]. rewrite calm, Ed. split; [reflexivity|]. done.
Qed.

Lemma toy_presentable : presentable toy_tables.
Proof. split; cbn [events oracle_executions toy_tables]; each_row; cbn; lia. Qed.
Lemma protocol_transactions_witness :
  List.filter (has_events toy_tables) [js "0x03"; js "0x09"; js "0x01"] = [js "0x03"; js "0x01"] /\
  exists data w', @getProtocolTransactionsByHash toy_faults [js "0x03"; js "0x09"; js "0x01"]
    {| w_db := toy_tables; w_time := 0%nat; w_cache := ∅; w_updated := 0; w_txs := ∅ |} = (Ok data, w') /\ w_db w' = toy_tables /\
    Forall2 (shows toy_tables) (List.filter (has_events toy_tables) [js "0x03"; js "0x09"; js "0x01"]) data.
Proof.
  split; [vm_compute; reflexivity|]. apply protocol_transactions_complete; [exact toy_statements_run|exact toy_presentable|reflexivity].
Defined.
