(* ===== verification/IndexerServerProofs.v ===== *)
(** * Requests to the indexer's HTTP server

    No request writes the tables of the indexer and pages are bounded; a
    request under [/api/] without the API key is answered 401 and does
    nothing, when its path is written as the routes are.  The routes match
    paths in any case and the middleware does not, so a path in capitals is
    served without a key. *)

From stdpp Require Import sorting.
From S2P Require Import Prelude JsNum JsString JsNumber JsJson IndexerQueries Scanner HexBytes Abi IndexerWorld IndexerTransfers IndexerRoles IndexerLanes IndexerReplay.
From S2P Require Import IndexerRanges IndexerService IndexerAudit IndexerQueries IndexerViews TokenPrices IndexerServer IndexerPaging.
Local Open Scope Z_scope.
Local Open Scope js_scope.

(** ** Computations that only read *)

(** However the computation ends the tables are the same, and what it returns
    satisfies [P]. *)
Definition readsM {A} (c : M A) (P : A -> Prop) : Prop :=
  forall w, wp c (fun a w' => w_db w' = w_db w /\ P a) (fun _ w' => w_db w' = w_db w) w.
Definition same_audit (s s' : AuditWorld) : Prop := w_db (aw_world s') = w_db (aw_world s) /\ aw_tables s' = aw_tables s.
Definition readsA {A} (c : AM A) (P : A -> Prop) : Prop :=
  forall s, match c s with (Ok a, s') => same_audit s s' /\ P a | (Err _, s') => same_audit s s' end.
Definition same_tables (s s' : ServerWorld) : Prop := same_audit (sv_audit s) (sv_audit s').
Definition reads {A} (c : SM A) (P : A -> Prop) : Prop :=
  forall s, match c s with (Ok a, s') => same_tables s s' /\ P a | (Err _, s') => same_tables s s' end.
Definition anything {A} (_ : A) : Prop := True.

#[export] Instance same_audit_preorder : PreOrder same_audit.
Proof. split; [by split|]. intros s1 s2 s3 [H1 H2] [H3 H4]. split; congruence. Qed.
#[export] Instance same_tables_preorder : PreOrder same_tables.
Proof. split; [intros s; unfold same_tables; reflexivity|]. intros s1 s2 s3. unfold same_tables. by etrans. Qed.

Section ReadsM.
Context `{F : Faults} {A B : Type}.
Lemma readsM_keeps (c : M A) : keeps eq c -> readsM c anything.
Proof using. intros Hk w. eapply wp_conseq; [apply Hk|by intros|by intros]. Qed.
Lemma readsM_query (f : Db -> A) (P : A -> Prop) : (forall d, P (f d)) -> readsM (query f) P.
Proof using. intros HP w. apply wp_sql; cbn; by intros. Qed.
Lemma readsM_bind (c : M A) (f : A -> M B) P Q : readsM c P -> (forall a, P a -> readsM (f a) Q) -> readsM (c ≫= f) Q.
Proof using.
  intros Hc Hf w. apply wp_bind. eapply wp_conseq; [apply Hc| |done]. intros a w' [E Ha].
  eapply wp_conseq; [by apply Hf|intros ? ? [? ?]; split; [congruence|done]|intros; congruence].
Qed.
Lemma readsM_ret (a : A) (P : A -> Prop) : P a -> readsM (mret a) P.
Proof using. by intros HP w. Qed.
End ReadsM.

Section Reads.
Context {A B : Type}.
Lemma readsA_bind (c : AM A) (f : A -> AM B) P Q : readsA c P -> (forall a, P a -> readsA (f a) Q) -> readsA (c ≫= f) Q.
Proof using.
  intros Hc Hf s. specialize (Hc s). unfold mbind, AM_bind. destruct (c s) as [[a|e] s']; [|done]. destruct Hc as [Hs Ha].
  specialize (Hf a Ha s'). destruct (f a s') as [[b|e] s'']; [destruct Hf as [? ?]; split; [|done]|]; by etrans.
Qed.
Lemma readsA_ret (a : A) (P : A -> Prop) : P a -> readsA (mret a) P.
Proof using. intros HP s. split; [reflexivity|done]. Qed.
Lemma readsA_query `{F : Faults} (f : AuditTables -> A) : readsA (audit_query f) anything.
Proof using. intros s. unfold audit_query, audit_sql. destruct (sql_fault _) as [[e []]|]; cbn; by repeat split. Qed.
Lemma readsA_lift (c : M A) P : readsM c P -> readsA (lift c) P.
Proof using. intros Hc s. specialize (Hc (aw_world s)). unfold wp in Hc. unfold lift. destruct (c (aw_world s)) as [[a|e] w]; [destruct Hc|]; by repeat split. Qed.
Lemma reads_then (c : SM A) (f : A -> SM B) P Q : reads c P -> (forall a, P a -> reads (f a) Q) -> reads (c ≫= f) Q.
Proof using.
  intros Hc Hf s. specialize (Hc s). unfold mbind, SM_bind. destruct (c s) as [[a|e] s']; [|done]. destruct Hc as [Hs Ha].
  specialize (Hf a Ha s'). destruct (f a s') as [[b|e] s'']; [destruct Hf as [? ?]; split; [|done]|]; by etrans.
Qed.
Lemma reads_ret (a : A) (P : A -> Prop) : P a -> reads (mret a) P.
Proof using. intros HP s. split; [reflexivity|done]. Qed.
Lemma reads_result (r : result A) (P : A -> Prop) : (forall a, r = Ok a -> P a) -> reads (serveR r) P.
Proof using. intros HP s. unfold serveR. destruct r as [a|e]; [split; [reflexivity|by apply HP]|reflexivity]. Qed.
Lemma reads_A (c : AM A) P : readsA c P -> reads (serveA c) P.
Proof using. intros Hc s. specialize (Hc (sv_audit s)). unfold serveA. by destruct (c (sv_audit s)) as [[a|e] s']. Qed.
Lemma reads_M (c : M A) P : readsM c P -> reads (serveM c) P.
Proof using. intros Hc. by apply reads_A, readsA_lift. Qed.
Lemma reads_jobs `{K : Clock} (f : Z -> nat -> Jobs -> A * Jobs) : reads (serve_jobs f) anything.
Proof using. intros s. unfold serve_jobs. destruct (f _ _ _) as [a jobs]. by repeat split. Qed.
Lemma reads_try (c : SM A) h P : reads c P -> (forall e, reads (h e) P) -> reads (try_catchS c h) P.
Proof using.
  intros Hc Hh s. specialize (Hc s). unfold try_catchS. destruct (c s) as [[a|e] s']; [done|]. specialize (Hh e s').
  destruct (h e s') as [[b|e'] s'']; [destruct Hh as [? ?]; split; [|done]|]; by etrans.
Qed.
End Reads.

(** ** Pages *)

Section Pages.
Context `{F : Faults, P : Postgres}.
Definition at_most {Row} (limit : nat) (page : Page Row) : Prop := (length (pg_rows page) <= limit)%nat.

Lemma select_bound {Row} (before : Row -> Row -> bool) keep limit rows : (length (select_page before keep limit rows) <= limit)%nat.
Proof using. unfold select_page. rewrite length_take. lia. Qed.
Lemma page_bound {Row} (f : Db -> list Row) limit cursor : (forall d, (length (f d) <= limit)%nat) ->
  readsM (rows ← query f; mret (page_of limit cursor rows)) (at_most limit).
Proof using. intros Hf. apply (readsM_bind _ _ (fun rows => length rows <= limit)%nat); [by apply readsM_query|]. intros rows Hrows. apply readsM_ret. exact Hrows. Qed.
Lemma listings_bound limit cursor :
  (forall tokenId address, readsM (listEvents {| evf_tokenId := tokenId; evf_address := address; evf_limit := limit; evf_cursor := cursor |}) (at_most limit)) /\
  readsM (listTokens limit cursor) (at_most limit) /\ (forall q, readsM (searchTokensByName q limit cursor) (at_most limit)) /\
  (forall id, readsM (listTokenBalances id limit cursor) (at_most limit)) /\
  (forall a, readsM (listBalancesForAddress a limit cursor) (at_most limit)) /\ readsM (listHolders limit cursor) (at_most limit) /\
  (forall c r a, readsM (listRoleEvents {| reo_contractAddress := c; reo_limit := limit; reo_cursor := cursor; reo_role := r; reo_account := a |})
     (at_most limit)) /\
  (forall c r, readsM (listRoleMembers c r limit cursor) (at_most limit)) /\ (forall c a, readsM (listRolesForAccount c a limit cursor) (at_most limit)).
Proof using.
  split_and!; intros; apply page_bound; intros d; first [apply select_bound|rewrite length_fmap; apply select_bound].
Qed.
End Pages.

(** ** Handlers *)

(** A page of a response has at most [MAX_PAGE_LIMIT] rows, and a batch of
    transactions no more entries than a request may name. *)
Definition body_rows (b : Body) : nat :=
  match b with
  | BTokens page => length (pg_rows page)
  | BBalances page => length (pg_rows page)
  | BHolders page => length (pg_rows page)
  | BEvents page => length (pg_rows page)
  | BRoleEvents page => length (pg_rows page)
  | BMembers page => length (pg_rows page)
  | BTransactions data => length data
  | _ => 0
  end.
Definition bounded (r : Response) : Prop := (body_rows (rsp_body r) <= 200)%nat.

Lemma limit_range value fallback n : 0 < fallback <= MAX_PAGE_LIMIT -> parsePageLimit value fallback = Ok n -> 0 < n <= MAX_PAGE_LIMIT.
Proof.
  unfold parsePageLimit, MAX_PAGE_LIMIT. intros Hf H. destruct (query_number (first_value value)) as [x|e]; [|done]. cbn in H. injection H as <-.
  destruct x as [| |k|]; try done. destruct (Z.leb_spec k 0); lia.
Qed.
Lemma batch_size txHashes hashes : normalizeProtocolTransactionHashes txHashes MAX_PROTOCOL_TRANSACTION_BATCH_SIZE = Ok hashes ->
  (length hashes <= 200)%nat.
Proof.
  unfold normalizeProtocolTransactionHashes. destruct txHashes as [values|]; [|done]. intros H.
  match type of H with (?c ≫= _) = _ => destruct c as [strings|e]; [|done] end. cbn [mbind result_bind] in H.
  destruct (Nat.eqb _ 0); [done|].
  destruct (Nat.ltb_spec MAX_PROTOCOL_TRANSACTION_BATCH_SIZE (length (js_unique [] (toLowerCase <$> strings)))); [done|].
  injection H as <-. unfold MAX_PROTOCOL_TRANSACTION_BATCH_SIZE in *. lia.
Qed.
Lemma project_length t m x hashes data : project_hashes t m x hashes = Ok data -> (length data <= length hashes)%nat.
Proof.
  revert data. induction hashes as [|h hashes IH]; intros data H; cbn [project_hashes] in H; [by injection H as <-|].
  assert (forall data', project_hashes t m x hashes = Ok data' -> (length data' <= S (length hashes))%nat) as Hskip.
  { intros data' H'. apply IH in H'. lia. }
  destruct (t !! h) as [[|p ps]|]; [by apply Hskip| |by apply Hskip]. destruct (m !! h) as [[b ts]|]; [|by apply Hskip].
  destruct (toISOString _) as [iso|]; [|done]. cbn [mbind result_bind] in H.
  destruct (project_hashes t m x hashes) as [rest|]; [|done]. cbn in H. injection H as <-. cbn. specialize (IH rest eq_refl). lia.
Qed.

Section Handlers.
Context `{F : Faults, LP : LogProvider, K : Clock, P : Postgres, R : OracleReader, D : StatsDigest, E : Express, I : JobIds, T : PriceService}.
Context (runtimeState : RuntimeState) (options : ServerOptions).
(** The price service reads the price oracle. *)
Context (prices_read : forall ids, keeps eq (getPrices ids)).

Lemma transactions_read hashes : (length hashes <= 200)%nat -> readsM (getProtocolTransactionsByHash hashes) (fun data => length data <= 200)%nat.
Proof using.
  intros Hh. unfold getProtocolTransactionsByHash. destruct (Nat.eqb _ 0); [apply readsM_ret; cbn; lia|].
  eapply readsM_bind; [by apply (readsM_query _ anything)|]. intros rows _. eapply readsM_bind; [by apply (readsM_query _ anything)|]. intros orows _ w.
  unfold wp, liftM. destruct (projectProtocolTransactions _ _ _) as [data|e] eqn:Ed; [|done]. split; [done|]. unfold projectProtocolTransactions in Ed.
  destruct (add_executions _ _); [|done]. apply project_length in Ed. lia.
Qed.
Lemma keeps_liftM {A} (r : result A) : keeps eq (liftM r).
Proof using. intros w. unfold wp, liftM. by destruct r. Qed.
#[local] Hint Resolve keeps_liftM : keeps.
Lemma oracles_read address : readsM (getApprovedOracleInstances address) anything.
Proof using.
  apply readsM_keeps. unfold getApprovedOracleInstances, listIndexedOracleRoleMembers, verified_member, verifyOracleRoleMember, isContractAddress,
    readMultisigState. keeps_auto.
Qed.
Lemma health_read config : readsA (getIndexerAuditHealth config) anything.
Proof using.
  unfold getIndexerAuditHealth. cbv zeta. apply (readsA_bind _ _ anything); [by destruct (ho_now config); [apply readsA_ret|intros s; repeat split]|].
  intros now _. eapply readsA_bind; [apply readsA_query|]. intros runs _. apply (readsA_bind _ _ anything).
  - induction INDEXER_AUDIT_KINDS as [|k kinds IH]; [by apply readsA_ret|]. cbn [mapA]. apply (readsA_bind _ _ anything).
    + unfold kind_health. destruct (List.find _ _); [|by apply readsA_ret]. destruct (run_verdict _ _ _) as [[ok reason] status].
      eapply readsA_bind; [apply readsA_query|]. intros recent _. by apply readsA_ret.
    + intros y _. apply (readsA_bind _ _ anything); [exact IH|]. intros ys _. by apply readsA_ret.
  - intros kinds _. by apply readsA_ret.
Qed.
Lemma meta_read key fallback : readsM (getMetaWithFallback key fallback) anything.
Proof using. apply readsM_keeps. unfold getMetaWithFallback, getMeta. keeps_auto. Qed.
Lemma status_read config : readsA (getHealthStatus config) anything.
Proof using.
  unfold getHealthStatus. repeat (apply (readsA_bind _ _ anything);
    [first [apply health_read|apply readsA_lift, readsM_keeps; unfold getMetaWithFallback, getMeta, getFailedEventStatus; by keeps_auto]|intros ? _]).
  by apply readsA_ret.
Qed.
Lemma report_read health range : readsA (getLatestIndexerAuditReport health range) anything.
Proof using.
  unfold getLatestIndexerAuditReport. apply (readsA_bind _ _ anything); [apply health_read|]. intros h _.
  eapply readsA_bind; [apply readsA_query|]. intros runs _. apply (readsA_bind _ _ anything).
  { unfold getFindingsForRuns. destruct (rsm_id <$> runs); [by apply readsA_ret|apply readsA_query]. }
  intros findings _. cbv zeta. apply (readsA_bind _ _ anything); [intros s; unfold liftR; by destruct (extractSuggestedRanges _); repeat split|].
  intros ranges _. apply (readsA_bind _ _ anything); [by intros s|]. intros now _. by apply readsA_ret.
Qed.
Lemma stats_read args : reads (serve_stats (transferStats args)) anything.
Proof using.
  intros s. unfold serve_stats, transferStats, stats_load, query, sql. destruct (cache_get _ _ _) as [cached entries].
  destruct (match cached with Some _ => _ | None => _ end); [by repeat split|]. cbn. destruct (sql_fault _) as [[e []]|]; by repeat split.
Qed.

Definition quiet (h : Handler) : Prop := forall params req, reads (h params req) bounded.
Lemma limit_read req fallback : 0 < fallback <= MAX_PAGE_LIMIT -> reads (page_limit req fallback) (fun n => n <= 200)%nat.
Proof using.
  intros Hf. unfold page_limit. eapply reads_then; [apply (reads_result _ (fun n => 0 < n <= MAX_PAGE_LIMIT)); intros n; by apply limit_range|].
  intros n Hn. apply reads_ret. unfold MAX_PAGE_LIMIT in *. lia.
Qed.
Lemma text_read req name : reads (text_of req name) anything.
Proof using. by apply reads_result. Qed.
Lemma answer_read (r : Response) : bounded r -> reads (mret r) bounded.
Proof using. apply reads_ret. Qed.
(** A listing of at most [limit] rows answers with a bounded page. *)
Lemma page_read {Row} (c : M (Page Row)) limit (answer : Page Row -> Body) : readsM c (at_most limit) -> (limit <= 200)%nat ->
  (forall page, body_rows (answer page) = length (pg_rows page)) -> reads (page ← serveM c; mret (json (answer page))) bounded.
Proof using.
  intros Hc Hl Ha. eapply reads_then; [by apply reads_M|]. intros page Hp. apply reads_ret. unfold bounded, at_most in *. cbn. rewrite Ha. lia.
Qed.
Lemma contract_read req f : (forall address, reads (f address) bounded) -> reads (with_contract req f) bounded.
Proof using.
  intros Hf. unfold with_contract. eapply reads_then; [apply text_read|]. intros address _. destruct (truthy address); [apply Hf|].
  apply reads_ret. cbv. lia.
Qed.
Lemma sync_health_quiet : quiet (get_sync_health options).
Proof using.
  intros params req. apply reads_try; [|intros e; apply reads_ret; unfold bounded; cbn; lia].
  apply (reads_then _ _ anything).
  - unfold resolveSyncHealth. destruct (_ || _); [by apply reads_ret|]. eapply reads_then; [apply reads_A, status_read|]. intros h _. by apply reads_ret.
  - intros [h|] _; apply reads_ret; unfold bounded; cbn; lia.
Qed.
Lemma stats_quiet tokenId req : reads (stats_of tokenId req) bounded.
Proof using.
  unfold stats_of. do 2 (apply (reads_then _ _ anything); [by apply reads_result|intros ? _]). cbv zeta.
  apply (reads_then _ _ anything); [by apply reads_result|intros tz _]. apply (reads_then _ _ anything); [apply stats_read|intros rows _].
  apply reads_ret. unfold bounded. cbn. lia.
Qed.
#[local] Ltac read_text name := apply (reads_then _ _ anything); [apply text_read|intros name _].
#[local] Ltac read_limit limit Hl := apply (reads_then _ _ (fun n => n <= 200)%nat); [apply limit_read; unfold MAX_PAGE_LIMIT; lia|intros limit Hl].
Lemma listing_handlers_quiet :
  quiet get_tokens /\ quiet get_token_balances /\ quiet get_balances /\ quiet get_holders /\ quiet get_events /\ quiet get_role_events /\
  quiet get_role_members /\ quiet get_account_roles.
Proof using.
  split_and!; intros params req; cbv beta delta [get_tokens get_token_balances get_balances get_holders get_events get_role_events get_role_members
    get_account_roles]; read_limit limit Hl; try (apply contract_read; intros address).
  - read_text cursor. read_text needle. destruct (listings_bound limit cursor) as (_ & H1 & H2 & _).
    destruct (truthy needle) as [q|]; [apply (page_read (searchTokensByName q limit cursor) limit BTokens)|
      apply (page_read (listTokens limit cursor) limit BTokens)]; auto.
  - read_text cursor. apply (page_read (listTokenBalances (param "id" params) limit cursor) limit BBalances); [apply listings_bound|done..].
  - read_text cursor. apply (page_read (listBalancesForAddress (param "address" params) limit cursor) limit BBalances); [apply listings_bound|done..].
  - read_text cursor. apply (page_read (listHolders limit cursor) limit BHolders); [apply listings_bound|done..].
  - read_text tokenId. read_text address. read_text cursor. eapply (page_read _ limit BEvents); [apply listings_bound|done..].
  - read_text role. read_text account. read_text cursor. eapply (page_read _ limit BRoleEvents); [apply listings_bound|done..].
  - read_text cursor. eapply (page_read _ limit BMembers); [apply listings_bound|done..].
  - read_text cursor. eapply (page_read _ limit BMembers); [apply listings_bound|done..].
Qed.
#[local] Ltac answers := apply reads_ret; unfold bounded; cbn; repeat case_match; cbn; lia.
Lemma lookup_handlers_quiet : quiet get_token /\ quiet get_role_admin /\ quiet get_roles.
Proof using.
  split_and!; intros params req; cbv beta delta [get_token get_role_admin get_roles]; try (apply contract_read; intros address);
    (apply (reads_then _ _ anything); [by apply reads_M, (readsM_query _ anything)|intros row _]); answers.
Qed.
Lemma static_handlers_quiet : quiet (get_health runtimeState) /\ quiet (get_ready runtimeState) /\ quiet (get_root runtimeState) /\
  quiet (get_config runtimeState options).
Proof using. split_and!; intros params req; answers. Qed.
Lemma admin_handlers_quiet : quiet (adminAuth options (post_replay options)) /\ quiet (adminAuth options (get_replay options)).
Proof using.
  split; intros params req; unfold adminAuth; destruct (api_key _ _ _) as [response|] eqn:Ek.
  1,3: unfold api_key in Ek; destruct (createApiKeyMiddleware _ _ _ _); [done|]; injection Ek as <-; answers.
  all: unfold post_replay, get_replay; (eapply reads_then; [apply reads_jobs|intros outcome _]); answers.
Qed.
Lemma post_prices_quiet : quiet (post_token_prices options).
Proof using prices_read.
  intros params req. unfold post_token_prices. destruct (negb _); [answers|]. destruct (body req "tokenIds"); [answers|].
  destruct (Nat.ltb _ _); [answers|]. destruct (mapM decimal_id vs) as [ids|]; [|answers].
  eapply reads_then; [by apply reads_M, readsM_keeps|]. intros data _. answers.
Qed.
Lemma post_transactions_quiet : quiet post_transactions.
Proof using.
  intros params req. unfold post_transactions. cbv zeta. destruct (normalizeProtocolTransactionHashes _ _) as [hashes|e] eqn:Eh; [|answers].
  apply batch_size in Eh. eapply reads_then; [by apply reads_M, transactions_read|]. intros data Hd. apply reads_ret. exact Hd.
Qed.
Lemma other_handlers_quiet : quiet (get_audit options) /\ quiet (get_oracles options) /\ quiet get_stats /\ quiet get_token_stats.
Proof using.
  split_and!; intros params req; cbv beta delta [get_audit get_oracles get_stats get_token_stats]; try apply stats_quiet.
  - eapply reads_then; [apply reads_A, report_read|intros report _]. answers.
  - destruct (so_oracleProvider options), (truthy (so_oracleContractAddress options)); try answers. eapply reads_then; [apply reads_M, oracles_read|intros response _]. answers.
Qed.

(** ** Every request *)

Definition layer_quiet (l : Layer) : Prop :=
  match l with Route _ _ h => quiet h | Use middleware => forall req response, middleware req = Some response -> bounded response end.
Lemma dispatch_quiet layers req : Forall layer_quiet layers -> reads (dispatch layers req) bounded.
Proof using.
  induction 1 as [|l layers Hl _ IH]; [answers|]. cbn [dispatch]. destruct l as [m pattern h|middleware]; cbn in Hl.
  - destruct (if method_matches _ _ then _ else _) as [params|]; [apply Hl|exact IH].
  - destruct (middleware req) as [response|] eqn:Em; [|exact IH]. apply reads_ret. by eapply Hl.
Qed.
Lemma server_quiet layers : createServer runtimeState options = Ok layers -> Forall layer_quiet layers.
Proof using prices_read.
  unfold createServer. intros H.
  destruct static_handlers_quiet as (S1 & S2 & S3 & S4), listing_handlers_quiet as (L1 & L2 & L3 & L4 & L5 & L6 & L7 & L8),
    lookup_handlers_quiet as (Q1 & Q2 & Q3), other_handlers_quiet as (O1 & O2 & O3 & O4), admin_handlers_quiet as (A1 & A2).
  pose proof sync_health_quiet as S5. pose proof post_prices_quiet as P1. pose proof post_transactions_quiet as P2.
  assert (Forall layer_quiet (public_routes runtimeState options)) as Hp by (repeat constructor; done).
  destruct (negb _); [by injection H as <-|]. destruct (negb _); [done|]. assert (layers = public_routes runtimeState options ++ admin_routes options ++
    [Use (api_key options (js "/api/"))] ++ api_routes runtimeState options) as -> by congruence. repeat (apply Forall_app; split).
  - exact Hp.
  - unfold admin_routes. destruct (_ && _); repeat constructor; done.
  - constructor; [|done]. intros req response Ek. unfold api_key in Ek. destruct (createApiKeyMiddleware _ _ _ _); [done|]. injection Ek as <-.
    unfold bounded. cbn. lia.
  - repeat constructor; done.
Qed.
Lemma handle_quiet layers req : createServer runtimeState options = Ok layers -> reads (handle runtimeState layers req) bounded.
Proof using prices_read.
  intros Hs. unfold handle. destruct (rq_body req) as [fields|e]; [|unfold error_response; destruct (rs_enableApi runtimeState); answers].
  apply reads_try; [by apply dispatch_quiet, server_quiet|]. intros e. unfold error_response. destruct (rs_enableApi runtimeState); answers.
Qed.
End Handlers.

(** ** Paths *)

Definition trim_slash (s : jsstring) : jsstring := match last s with Some 47 => removelast s | _ => s end.
(** Letters, digits, [/] and [-]: what a pattern without parameters is made of. *)
Definition pattern_char (c : Z) : bool := in_range 45 45 c || in_range 47 57 c || in_range 65 90 c || in_range 97 122 c.
Definition literal_pattern (p : jsstring) : bool := forallb pattern_char p.
Fixpoint before_parameter (p : jsstring) : jsstring := match p with [] => [] | c :: p' => if c =? 58 then [] else c :: before_parameter p' end.

(** What Express documents of routing as the server sets it up: a pattern
    without parameters matches its own text in any case, with or without a
    slash at the end, and binds nothing; a pattern with parameters matches
    only paths that begin with the text before the first parameter. *)
Class ExpressLaws (E : Express) : Prop := {
  route_literal p path : literal_pattern p = true ->
    route_match p path = if bool_decide (trim_slash (toLowerCase path) = trim_slash (toLowerCase p)) then Some [] else None;
  route_parameters p path params : 58 ∈ p -> route_match p path = Some params ->
    startsWith (toLowerCase path) (toLowerCase (before_parameter p)) = true }.

Lemma startsWith_app s p : startsWith s p = true <-> exists rest, s = p ++ rest.
Proof.
  unfold startsWith. rewrite bool_decide_eq_true. split.
  - intros H. exists (drop (length p) s). rewrite <- H at 1. by rewrite take_drop.
  - intros [rest ->]. by rewrite take_app_length.
Qed.
Lemma removelast_prefix {X} (l : list X) : exists rest, l = removelast l ++ rest.
Proof. destruct l as [|x l]; [by exists []|]. exists [List.last (x :: l) x]. by apply app_removelast_last. Qed.
Lemma starts_trim s p : startsWith (trim_slash s) p = true -> startsWith s p = true.
Proof.
  rewrite !startsWith_app. intros [rest E]. unfold trim_slash in E. destruct (removelast_prefix s) as [r Er].
  repeat case_match; subst; try (by exists rest). exists (rest ++ r). by rewrite Er, E, <- app_assoc at 1.
Qed.
Lemma trim_starts s p : startsWith s (p ++ [47]) = true -> startsWith (trim_slash s) p = true.
Proof.
  rewrite !startsWith_app. intros [rest ->]. unfold trim_slash. destruct rest as [|c rest].
  - rewrite app_nil_r, last_snoc, removelast_last. exists []. by rewrite app_nil_r.
  - assert (removelast ((p ++ [47]) ++ c :: rest) = p ++ 47 :: removelast (c :: rest)) as E.
    { rewrite removelast_app by done. by rewrite <- app_assoc. }
    repeat case_match; rewrite <- ?app_assoc in *; cbn [app] in *; try (eexists; reflexivity). rewrite E. by eexists.
Qed.
Lemma starts_lower s p : startsWith s p = true -> startsWith (toLowerCase s) (toLowerCase p) = true.
Proof. rewrite !startsWith_app. intros [rest ->]. exists (toLowerCase rest). unfold toLowerCase. by rewrite fmap_app. Qed.

Section Guard.
Context `{F : Faults, LP : LogProvider, K : Clock, P : Postgres, R : OracleReader, D : StatsDigest, E : Express, I : JobIds, T : PriceService}.
Context `{EL : !ExpressLaws E}.
Context (runtimeState : RuntimeState) (options : ServerOptions).

(** A path of the API as the middlewares compare it. *)
Definition written_as_routes (path : jsstring) : Prop :=
  startsWith path (js "/api/") = true /\
  (startsWith (toLowerCase path) (js "/api/admin/") = true -> startsWith path (js "/api/admin/") = true).

Lemma literal_miss p path : literal_pattern p = true -> startsWith (trim_slash (toLowerCase p)) (js "/api") = false ->
  startsWith (toLowerCase path) (js "/api/") = true -> route_match p path = None.
Proof using EL.
  intros Hp Hn Hs. rewrite route_literal by done. case_bool_decide as H; [|done]. exfalso.
  apply (trim_starts _ (js "/api")) in Hs. rewrite H in Hs. congruence.
Qed.
Lemma admin_prefix p path params : literal_pattern p = true \/ 58 ∈ p ->
  startsWith (trim_slash (toLowerCase p)) (js "/api/admin/") = true -> startsWith (toLowerCase (before_parameter p)) (js "/api/admin/") = true ->
  route_match p path = Some params -> startsWith (toLowerCase path) (js "/api/admin/") = true.
Proof using EL.
  intros Hp Ht Hb H. destruct Hp as [Hl|Hc].
  - rewrite route_literal in H by done. case_bool_decide as Ep; [|done]. apply starts_trim. by rewrite Ep.
  - apply route_parameters in H; [|done]. apply startsWith_app in H as [r1 E1]. apply startsWith_app in Hb as [r2 E2]. apply startsWith_app.
    exists (r2 ++ r1). rewrite E1, E2. by rewrite <- app_assoc.
Qed.
Lemma refused prefix req : startsWith (rq_path req) prefix = true -> isApiKeyAuthorized (rq_apiKey req) (so_expectedApiKey options) = false ->
  api_key options prefix req = Some unauthorized.
Proof using. intros H1 H2. unfold api_key, createApiKeyMiddleware. by rewrite H1, H2. Qed.

Lemma public_missed req : startsWith (rq_path req) (js "/api/") = true ->
  forall rest, dispatch (public_routes runtimeState options ++ rest) req = dispatch rest req.
Proof using EL.
  intros Hs rest. apply starts_lower in Hs. change (toLowerCase (js "/api/")) with (js "/api/") in Hs. cbn [public_routes app dispatch].
  rewrite !literal_miss by done. by destruct (method_matches _ _).
Qed.
Lemma admin_guarded req rest : written_as_routes (rq_path req) -> isApiKeyAuthorized (rq_apiKey req) (so_expectedApiKey options) = false ->
  dispatch (admin_routes options ++ rest) req = mret unauthorized \/ dispatch (admin_routes options ++ rest) req = dispatch rest req.
Proof using EL.
  intros [Hs Ha] Hk. unfold admin_routes. destruct (given _ && _ && _); [|by right]. cbn [app dispatch].
  assert (forall h params, startsWith (toLowerCase (rq_path req)) (js "/api/admin/") = true ->
    adminAuth options h params req = mret unauthorized) as Hauth.
  { intros h params H. unfold adminAuth. rewrite refused; auto. }
  destruct (if method_matches POST _ then _ else _) as [params|] eqn:E1.
  { left. apply Hauth. destruct (method_matches _ _); [|done]. apply (admin_prefix (js "/api/admin/replay/transfers") _ params); [by left|done..]. }
  destruct (if method_matches GET _ then _ else _) as [params|] eqn:E2; [|by right].
  left. apply Hauth. destruct (method_matches GET _); [|done]. apply (admin_prefix (js "/api/admin/replay/transfers/:jobId") _ params); [right|done..].
  by apply (bool_decide_eq_true_1 (58 ∈ js "/api/admin/replay/transfers/:jobId")).
Qed.
End Guard.

Section Capitals.
Context `{F : Faults, LP : LogProvider, K : Clock, P : Postgres, R : OracleReader, D : StatsDigest, E : Express, I : JobIds, T : PriceService}.
Context `{EL : !ExpressLaws E}.
Context (runtimeState : RuntimeState) (options : ServerOptions).

Definition ask (m : Method) (path : jsstring) (key : Header) (query : string -> option QueryValue) (fields : string -> BodyField) : Request :=
  {| rq_method := m; rq_path := path; rq_query := query; rq_apiKey := key; rq_body := Ok fields |}.
Lemma route_skipped m pattern h rest req : method_matches m (rq_method req) && bool_decide (is_Some (route_match pattern (rq_path req))) = false ->
  dispatch (Route m pattern h :: rest) req = dispatch rest req.
Proof using.
  intros H. cbn [dispatch]. destruct (method_matches m _); [|done]. cbn in H. by destruct (route_match pattern (rq_path req)).
Qed.
Lemma literal_skipped m pattern h rest req : literal_pattern pattern = true ->
  method_matches m (rq_method req) && bool_decide (trim_slash (toLowerCase (rq_path req)) = trim_slash (toLowerCase pattern)) = false ->
  dispatch (Route m pattern h :: rest) req = dispatch rest req.
Proof using EL.
  intros Hp H. apply route_skipped. rewrite route_literal by done. destruct (method_matches m _); [|done]. cbn in *. by rewrite H.
Qed.
Lemma literal_taken m pattern h rest req : literal_pattern pattern = true ->
  method_matches m (rq_method req) && bool_decide (trim_slash (toLowerCase (rq_path req)) = trim_slash (toLowerCase pattern)) = true ->
  dispatch (Route m pattern h :: rest) req = h [] req.
Proof using EL.
  intros Hp H. apply andb_true_iff in H as [Hm H]. cbn [dispatch]. rewrite Hm, route_literal, H by done. done.
Qed.
Lemma parameter_skipped m pattern h rest req : 58 ∈ pattern ->
  method_matches m (rq_method req) && startsWith (toLowerCase (rq_path req)) (toLowerCase (before_parameter pattern)) = false ->
  dispatch (Route m pattern h :: rest) req = dispatch rest req.
Proof using EL.
  intros Hp H. apply route_skipped. destruct (method_matches m _); [|done]. cbn in *. apply bool_decide_eq_false. intros [params Hr].
  apply route_parameters in Hr; [congruence|done].
Qed.
Lemma key_accepted prefix req k : rq_apiKey req = HOne k -> so_expectedApiKey options = Some k -> api_key options prefix req = None.
Proof using.
  intros Hk Ho. unfold api_key, createApiKeyMiddleware, isApiKeyAuthorized. rewrite Hk, Ho. destruct (truthy (Some k)) as [k'|] eqn:Et.
  - assert (k' = k) as -> by (destruct k; cbn in Et; congruence). unfold safeEqual. rewrite Nat.eqb_refl, bool_decide_eq_true_2 by done. by destruct (negb _).
  - by destruct (negb _).
Qed.
Lemma prefix_missed prefix req : startsWith (rq_path req) prefix = false -> api_key options prefix req = None.
Proof using. intros H. unfold api_key, createApiKeyMiddleware. by rewrite H. Qed.

(** The layers up to the API routes let a GET request through when the two
    middlewares do. *)
Lemma reaches_api req : rq_method req = GET -> api_key options (js "/api/") req = None ->
  startsWith (trim_slash (toLowerCase (rq_path req))) (js "/api/") = true ->
  startsWith (toLowerCase (rq_path req)) (js "/api/admin/") = false ->
  dispatch (public_routes runtimeState options ++ admin_routes options ++ [Use (api_key options (js "/api/"))] ++ api_routes runtimeState options) req =
  dispatch (api_routes runtimeState options) req.
Proof using EL.
  intros Hm Hk Hs Ha. unfold public_routes. cbn [app]. apply startsWith_app in Hs as [rest Hs].
  repeat (rewrite literal_skipped; [|done|rewrite Hs, Hm; by apply andb_false_intro2, bool_decide_eq_false]).
  assert (dispatch (Use (api_key options (js "/api/")) :: api_routes runtimeState options) req = dispatch (api_routes runtimeState options) req) as Hu
    by (cbn [dispatch]; by rewrite Hk).
  unfold admin_routes. destruct (_ && _ && _); cbn [app]; [|exact Hu]. rewrite literal_skipped; [|done|by rewrite Hm].
  rewrite parameter_skipped; [exact Hu|by apply (bool_decide_eq_true_1 (58 ∈ js "/api/admin/replay/transfers/:jobId"))|]. apply andb_false_intro2.
  apply not_true_iff_false. intros Ep. apply not_true_iff_false in Ha. apply Ha. apply startsWith_app in Ep as [r Er]. rewrite Er.
  apply startsWith_app. by eexists.
Qed.
Lemma tokens_route req : rq_method req = GET -> trim_slash (toLowerCase (rq_path req)) = js "/api/tokens" ->
  dispatch (api_routes runtimeState options) req = get_tokens [] req.
Proof using EL.
  intros Hm Hs. unfold api_routes. repeat (rewrite literal_skipped; [|done|rewrite Hs, Hm; reflexivity]). apply literal_taken; [done|].
  rewrite Hs, Hm. reflexivity.
Qed.
(** A POST to the admin route: either the job manager answers, or nothing does. *)
Lemma replay_route req : rq_method req = POST -> trim_slash (toLowerCase (rq_path req)) = js "/api/admin/replay/transfers" ->
  api_key options (js "/api/") req = None -> api_key options (js "/api/admin/") req = None ->
  dispatch (public_routes runtimeState options ++ admin_routes options ++ [Use (api_key options (js "/api/"))] ++ api_routes runtimeState options) req =
  if given (so_expectedApiKey options) && so_replayProvider options && given (so_hubContractAddress options) then post_replay options [] req
  else mret (json_with 404 BNotFound).
Proof using EL.
  intros Hm Hs Hk Ha. unfold public_routes. cbn [app]. repeat (rewrite literal_skipped; [|done|rewrite Hs, Hm; reflexivity]).
  unfold admin_routes. destruct (_ && _ && _); cbn [app].
  - rewrite literal_taken; [|done|rewrite Hs, Hm; reflexivity]. unfold adminAuth. by rewrite Ha.
  - cbn [dispatch]. rewrite Hk. unfold api_routes. cbn [dispatch]. rewrite Hm.
    change (method_matches GET POST) with false. change (method_matches POST POST) with true. cbn iota.
    by rewrite !route_literal, Hs by done.
Qed.
End Capitals.

(** ** Theorems *)

(** The API is read-only and its pages are bounded: whatever the request, the
    tables of the indexer and of its audits are the same after it, also when a
    statement fails, and no page or batch of transactions has more than 200
    entries.  The price service is assumed to read only. *)
Theorem requests_read_only `{F : Faults, LP : LogProvider, K : Clock, P : Postgres, R : OracleReader, D : StatsDigest, E : Express, I : JobIds,
    T : PriceService} runtimeState options layers req s :
  (forall ids, keeps eq (getPrices ids)) -> createServer runtimeState options = Ok layers ->
  exists response s', handle runtimeState layers req s = (Ok response, s') /\ same_tables s s' /\ (body_rows (rsp_body response) <= 200)%nat.
Proof.
  intros Hp Hs. pose proof (handle_quiet runtimeState options Hp layers req Hs s) as H.
  destruct (handle runtimeState layers req s) as [[response|e] s'] eqn:Eh; [by exists response, s'|]. exfalso.
  unfold handle, try_catchS in Eh. destruct (rq_body req); [|done]. destruct (dispatch layers req s) as [[?|?] ?]; done.
Qed.

(** C27: A request to the API without the API key is answered 401 and does nothing,
    for a path that is written in the case of the routes. *)
Theorem api_needs_key `{F : Faults, LP : LogProvider, K : Clock, P : Postgres, R : OracleReader, D : StatsDigest, E : Express, I : JobIds,
    T : PriceService, EL : !ExpressLaws E} runtimeState options layers req fields s :
  rs_enableApi runtimeState = true -> createServer runtimeState options = Ok layers ->
  rq_body req = Ok fields -> written_as_routes (rq_path req) -> isApiKeyAuthorized (rq_apiKey req) (so_expectedApiKey options) = false ->
  handle runtimeState layers req s = (Ok unauthorized, s).
Proof.
  intros Ha Hs Hb Hw Hk. unfold createServer in Hs. rewrite Ha in Hs. cbn [negb] in Hs. destruct (negb _); [done|].
  assert (layers = public_routes runtimeState options ++ admin_routes options ++
    [Use (api_key options (js "/api/"))] ++ api_routes runtimeState options) as -> by congruence.
  unfold handle, try_catchS. rewrite Hb, public_missed by apply Hw.
  destruct (admin_guarded options req ([Use (api_key options (js "/api/"))] ++ api_routes runtimeState options) Hw Hk) as [-> | ->]; [done|].
  cbn [app dispatch]. by rewrite refused by (done || apply Hw).
Qed.

(** The key is not needed for a path in capitals: Express matches [/API/tokens]
    and [/API/admin/replay/transfers] with the routes, and the middlewares only
    look at paths that begin with [/api/]; a request without a key gets what
    the lower-case path gives with the key, also where it starts a replay. *)
Theorem capitals_skip_key `{F : Faults, LP : LogProvider, K : Clock, P : Postgres, R : OracleReader, D : StatsDigest, E : Express, I : JobIds,
    T : PriceService, EL : !ExpressLaws E} runtimeState options layers k query fields s :
  rs_enableApi runtimeState = true -> createServer runtimeState options = Ok layers -> so_expectedApiKey options = Some k ->
  handle runtimeState layers (ask GET (js "/API/tokens") HNone query fields) s =
    handle runtimeState layers (ask GET (js "/api/tokens") (HOne k) query fields) s /\
  handle runtimeState layers (ask POST (js "/API/admin/replay/transfers") HNone query fields) s =
    handle runtimeState layers (ask POST (js "/api/admin/replay/transfers") (HOne k) query fields) s.
Proof.
  intros Ha Hs Ho. unfold createServer in Hs. rewrite Ha in Hs. cbn [negb] in Hs. destruct (negb _); [done|].
  assert (layers = public_routes runtimeState options ++ admin_routes options ++
    [Use (api_key options (js "/api/"))] ++ api_routes runtimeState options) as -> by congruence.
  unfold handle, try_catchS. cbn [rq_body ask]. split.
  - rewrite !reaches_api, !tokens_route; try done; first [by apply (key_accepted _ _ _ k)|by apply prefix_missed].
  - rewrite !replay_route; try done; first [by apply (key_accepted _ _ _ k)|by apply prefix_missed].
Qed.

(** ** A concrete server *)

Module ToyServer.
(** Patterns with at most one parameter, which stands for a segment. *)
Fixpoint parameter_name (p : jsstring) : jsstring :=
  match p with [] => [] | c :: p' => if c =? 47 then [] else c :: parameter_name p' end.
Definition express : Express := fun p path =>
  let prefix := before_parameter p in
  if bool_decide (58 ∈ p) then
    if startsWith (toLowerCase path) (toLowerCase prefix) then
      let name := parameter_name (drop (S (length prefix)) p) in
      let suffix := drop (S (length prefix) + length name) p in
      let rest := drop (length prefix) path in
      let value := parameter_name rest in
      if negb (Nat.eqb (length value) 0) && bool_decide (trim_slash (toLowerCase (drop (length value) rest)) = trim_slash (toLowerCase suffix))
      then Some [(name, value)] else None
    else None
  else if bool_decide (trim_slash (toLowerCase path) = trim_slash (toLowerCase p)) then Some [] else None.
Lemma no_colon p : literal_pattern p = true -> 58 ∉ p.
Proof. intros H Hc. unfold literal_pattern in H. rewrite forallb_forall in H. by apply list_elem_of_In, H in Hc. Qed.
Lemma express_laws : ExpressLaws express.
Proof.
  split.
  - intros p path Hp. unfold route_match, express. by rewrite bool_decide_eq_false_2 by (by apply no_colon).
  - intros p path params Hc. unfold route_match, express. rewrite bool_decide_eq_true_2 by done. by destruct (startsWith _ _).
Qed.

Definition provider : LogProvider := {|
  getLogs := fun _ _ _ _ _ => Ok []; getLogsWithCursor := fun _ _ _ _ _ _ => Ok ([], None); getBlockNumber := fun _ => Ok 10; cursor_pages := 1; other_toString := fun _ => [] |}.
Definition clock : Clock := fun t => Z.of_nat t.
Definition reader : OracleReader := {|
  ORACLE_ROLE := js "0x0a"; ethers_getAddress := fun a => Ok a; reader_getBlockNumber := fun _ => Ok 10;
  reader_hasRole := fun _ _ _ _ _ => Ok true; reader_getCode := fun _ _ _ => Ok (js "0x"); reader_getSigners := fun _ _ _ => Ok None;
  reader_threshold := fun _ _ _ => Ok 1 |}.
Definition digest : StatsDigest := fun _ => js "00".
Definition job_ids : JobIds := fun t => toString10 (Z.of_nat t).
Definition price_service : PriceService := fun _ => mret [].
Definition state : RuntimeState := createRuntimeState true true.
Definition options : ServerOptions := {|
  so_db := true; so_defaultTransferReplayBatchSize := 2000; so_expectedApiKey := Some (js "secret"); so_healthProvider := true;
  so_hubContractAddress := Some (js "0xcc"); so_maxTransferReplayBlockRange := 100000; so_oracleContractAddress := Some (js "0xdd");
  so_oracleProvider := true; so_priceOracleContractAddress := None; so_replayProvider := true; so_tokenPriceService := true;
  so_health := {| hc_confirmationBlocks := 0; hc_healthMaxLagBlocks := 100;
    hc_audit := {| ho_consecutiveFailures := 1; ho_failureThreshold := 1; ho_maxAgeMs := 1000; ho_now := None |} |};
  so_maxRetainedJobs := 10; so_terminalJobTtlMs := 1000 |}.
Definition world : ServerWorld := {|
  sv_audit := {| aw_world := {| w_db := toy_tables; w_time := 0%nat; w_cache := ∅; w_updated := 0; w_txs := ∅ |};
                 aw_tables := {| at_runs := ∅; at_findings := ∅; at_next_run := 1; at_next_finding := 1 |} |};
  sv_stats := []; sv_jobs := [] |}.
Definition no_query (_ : string) : option QueryValue := None.
Definition no_fields (_ : string) : BodyField := OneValue INullish.
(** The body of a replay of the blocks 1 to 5. *)
Definition replay_fields (name : string) : BodyField :=
  OneValue (if String.eqb name "fromBlock" then INumber (JInt 1) else if String.eqb name "toBlock" then INumber (JInt 5) else INullish).
#[export] Existing Instances toy_faults toy_postgres provider clock reader digest express job_ids price_service express_laws.
Definition layers : list Layer := public_routes state options ++ admin_routes options ++ [Use (api_key options (js "/api/"))] ++ api_routes state options.
Lemma created : createServer state options = Ok layers.
Proof. reflexivity. Qed.
Lemma prices_read ids : keeps eq (getPrices ids).
Proof. apply keeps_ret. apply _. Qed.
(** The status of an answer. *)
Definition status (r : result Response * ServerWorld) : option Z := match r.1 with Ok response => Some (rsp_status response) | Err _ => None end.
Lemma capitals_start_replay :
  status (handle state layers (ask POST (js "/API/admin/replay/transfers") HNone no_query replay_fields) world) = Some 202 /\
  status (handle state layers (ask POST (js "/api/admin/replay/transfers") HNone no_query replay_fields) world) = Some 401.
Proof. split; vm_compute; reflexivity. Qed.
End ToyServer.
Import ToyServer.

Lemma requests_witness : createServer ToyServer.state ToyServer.options = Ok ToyServer.layers /\
  exists response s', handle ToyServer.state ToyServer.layers (ask GET (js "/api/tokens") (HOne (js "secret")) no_query no_fields) ToyServer.world =
    (Ok response, s') /\ same_tables ToyServer.world s' /\ (body_rows (rsp_body response) <= 200)%nat.
Proof. split; [exact created|]. exact (requests_read_only _ _ _ _ _ ToyServer.prices_read created). Defined.
Lemma api_key_witness : isApiKeyAuthorized (HOne (js "guess")) (so_expectedApiKey ToyServer.options) = false /\
  handle ToyServer.state ToyServer.layers (ask GET (js "/api/tokens") (HOne (js "guess")) no_query no_fields) ToyServer.world =
    (Ok unauthorized, ToyServer.world).
Proof.
  split; [reflexivity|].
  apply (api_needs_key ToyServer.state ToyServer.options ToyServer.layers _ no_fields); [reflexivity|exact created|reflexivity|split; [reflexivity|done]|reflexivity].
Defined.
Lemma capitals_witness :
  handle ToyServer.state ToyServer.layers (ask POST (js "/API/admin/replay/transfers") HNone no_query replay_fields) ToyServer.world =
  handle ToyServer.state ToyServer.layers (ask POST (js "/api/admin/replay/transfers") (HOne (js "secret")) no_query replay_fields) ToyServer.world.
Proof. refine (proj2 (capitals_skip_key _ ToyServer.options _ (js "secret") _ _ _ _ _ _)); [reflexivity|exact created|reflexivity]. Defined.
