(* ===== verification/MultisigManifest.v ===== *)
(** * Transaction manifests of the multisig tools

    packages/multisig-tools/src/builders/utils.ts: the schemas a manifest is
    parsed with, the RPC overrides and [loadTransactions].  The parsers of
    addresses, public keys and URLs are those of viem, web3.js, tronweb and the
    platform, and are parameters.  The second half builds and signs EVM
    transactions and holds the network the tools run against. *)

From S2P Require Import Prelude JsNum JsString JsNumber JsJson Scanner IndexerTransfers IndexerRoles IndexerLanes IndexerQueries HexBytes.
Local Open Scope Z_scope.
Local Open Scope js_scope.

Class AddressParsers := {
  getAddress_accepts : jsstring -> bool;
  PublicKey_accepts : jsstring -> bool;
  tron_isAddress : jsstring -> bool;
  URL_accepts : jsstring -> bool }.

(** ** Transactions *)

Record EthereumTx := {
  et_amount : jsstring; et_calldata : jsstring; et_from : jsstring; et_gas : jsstring; et_gasPrice : option jsstring;
  et_maxFeePerGas : option jsstring; et_maxPriorityFeePerGas : option jsstring; et_nonce : Z; et_rpc : jsstring; et_to : jsstring }.
Record BitcoinTxInput := { bi_scriptPubKey : jsstring; bi_txid : jsstring; bi_value : Z; bi_vout : Z }.
Record BitcoinTxOutput := { bo_address : jsstring; bo_value : Z }.
Record BitcoinTx := {
  bt_feeRate : option Z; bt_inputs : list BitcoinTxInput; bt_network : option jsstring; bt_outputs : list BitcoinTxOutput }.
Record SolanaKey := { sk_isSigner : bool; sk_isWritable : bool; sk_pubkey : jsstring }.
Record SolanaInstruction := { sn_data : jsstring; sn_keys : list SolanaKey; sn_programId : jsstring }.
Record SolanaTx := {
  st_lookupTables : option (list jsstring); st_computeUnitLimit : option jsstring; st_computeUnitPrice : option jsstring; st_from : jsstring;
  st_instructions : list SolanaInstruction; st_nonceAccount : option jsstring; st_nonceAccountAuth : option jsstring; st_rpc : jsstring }.
Inductive TronParameter :=
  | TransferContract (amount : Z) (owner_address to_address : jsstring)
  | TriggerSmartContract (call_token_value call_value : option Z) (contract_address : jsstring) (data : option jsstring)
      (owner_address : jsstring) (token_id : option Z).
Record TronTx := {
  tt_expiration : option Z; tt_feeLimit : option jsstring; tt_from : jsstring; tt_memo : option jsstring; tt_permissionId : Z;
  tt_refBlockBytes : option jsstring; tt_refBlockHash : option jsstring; tt_rpc : jsstring; tt_timestamp : option Z; tt_parameter : TronParameter }.
Inductive Transaction := EvmTransaction (tx : EthereumTx) | BitcoinTransaction (tx : BitcoinTx) | SolanaTransaction (tx : SolanaTx) | TronTransaction (tx : TronTx).

(** ** Validators *)

Definition after_0x (ok : jsstring -> bool) (s : jsstring) : bool := match s with 48 :: 120 :: digits => ok digits | _ => false end.
Definition base58_char (c : Z) : bool := (in_range 49 57 c || in_range 65 90 c || in_range 97 122 c) && negb (bool_decide (c ∈ [73; 79; 108])).
Definition integer_string (s : jsstring) : bool := negb (Nat.eqb (length s) 0) && forallb is_digit s.
Definition decimal_string (s : jsstring) : bool :=
  match re_span is_digit s with
  | (_ :: _, []) => true
  | (_ :: _, 46 :: fraction) => integer_string fraction
  | _ => false
  end.
Definition hex_string (s : jsstring) : bool := after_0x (forallb is_hex_digit) s.

Section Schemas.
Context `{A : AddressParsers}.

Definition ethereum_address (s : jsstring) : bool :=
  after_0x (fun d => Nat.eqb (length d) 40 && forallb is_hex_digit d) s && getAddress_accepts s.
Definition solana_public_key (s : jsstring) : bool :=
  Nat.leb 32 (length s) && Nat.leb (length s) 44 && forallb base58_char s && PublicKey_accepts s.
Definition tron_address (s : jsstring) : bool :=
  match s with 84 :: rest => Nat.eqb (length rest) 33 && forallb base58_char rest | _ => false end && tron_isAddress s.

(** A member of an object, [undefined] when it is absent. *)
Definition member (fields : list (jsstring * Json)) (key : string) : Json := default JUndefined (map_get (js key) fields).
Definition z_text (ok : jsstring -> bool) (v : Json) : option jsstring := match v with JStr s => if ok s then Some s else None | _ => None end.
Definition z_number (ok : Z -> bool) (v : Json) : option Z := match v with JNum n => if ok n then Some n else None | _ => None end.
Definition z_boolean (v : Json) : option bool := match v with JBool b => Some b | _ => None end.
Definition z_optional {X} (parse : Json -> option X) (v : Json) : option (option X) :=
  match v with JUndefined => Some None | _ => x ← parse v; Some (Some x) end.
Definition z_array {X} (parse : Json -> option X) (v : Json) : option (list X) := match v with JArr items => mapM parse items | _ => None end.
Definition z_object {X} (parse : list (jsstring * Json) -> option X) (v : Json) : option X := match v with JObj fields => parse fields | _ => None end.
Definition any_text (_ : jsstring) : bool := true.
Definition any_number (_ : Z) : bool := true.

Definition EthereumTxSchema (f : list (jsstring * Json)) : option EthereumTx :=
  amount ← z_text decimal_string (member f "amount");
  calldata ← z_text hex_string (member f "calldata");
  from ← z_text ethereum_address (member f "from");
  gas ← z_text integer_string (member f "gas");
  gasPrice ← z_optional (z_text integer_string) (member f "gasPrice");
  maxFeePerGas ← z_optional (z_text integer_string) (member f "maxFeePerGas");
  maxPriorityFeePerGas ← z_optional (z_text integer_string) (member f "maxPriorityFeePerGas");
  nonce ← z_number (Z.leb 0) (member f "nonce");
  rpc ← z_text URL_accepts (member f "rpc");
  to ← z_text ethereum_address (member f "to");
  Some {| et_amount := amount; et_calldata := calldata; et_from := from; et_gas := gas; et_gasPrice := gasPrice; et_maxFeePerGas := maxFeePerGas;
          et_maxPriorityFeePerGas := maxPriorityFeePerGas; et_nonce := nonce; et_rpc := rpc; et_to := to |}.
Definition BitcoinTxInputSchema (f : list (jsstring * Json)) : option BitcoinTxInput :=
  scriptPubKey ← z_text any_text (member f "scriptPubKey");
  txid ← z_text any_text (member f "txid");
  value ← z_number any_number (member f "value");
  vout ← z_number any_number (member f "vout");
  Some {| bi_scriptPubKey := scriptPubKey; bi_txid := txid; bi_value := value; bi_vout := vout |}.
Definition BitcoinTxOutputSchema (f : list (jsstring * Json)) : option BitcoinTxOutput :=
  address ← z_text any_text (member f "address");
  value ← z_number any_number (member f "value");
  Some {| bo_address := address; bo_value := value |}.
Definition BitcoinTxSchema (f : list (jsstring * Json)) : option BitcoinTx :=
  feeRate ← z_optional (z_number any_number) (member f "feeRate");
  inputs ← z_array (z_object BitcoinTxInputSchema) (member f "inputs");
  network ← z_optional (z_text (fun s => bool_decide (s ∈ [js "mainnet"; js "testnet"]))) (member f "network");
  outputs ← z_array (z_object BitcoinTxOutputSchema) (member f "outputs");
  Some {| bt_feeRate := feeRate; bt_inputs := inputs; bt_network := network; bt_outputs := outputs |}.
Definition solana_key (f : list (jsstring * Json)) : option SolanaKey :=
  isSigner ← z_boolean (member f "isSigner");
  isWritable ← z_boolean (member f "isWritable");
  pubkey ← z_text solana_public_key (member f "pubkey");
  Some {| sk_isSigner := isSigner; sk_isWritable := isWritable; sk_pubkey := pubkey |}.
Definition solana_instruction (f : list (jsstring * Json)) : option SolanaInstruction :=
  data ← z_text any_text (member f "data");
  keys ← z_array (z_object solana_key) (member f "keys");
  programId ← z_text solana_public_key (member f "programId");
  Some {| sn_data := data; sn_keys := keys; sn_programId := programId |}.
(** The two nonce fields come together. *)
Definition SolanaTxSchema (f : list (jsstring * Json)) : option SolanaTx :=
  lookupTables ← z_optional (z_array (z_text solana_public_key)) (member f "addressLookupTableAddresses");
  computeUnitLimit ← z_optional (z_text integer_string) (member f "computeUnitLimit");
  computeUnitPrice ← z_optional (z_text integer_string) (member f "computeUnitPrice");
  from ← z_text solana_public_key (member f "from");
  instructions ← z_array (z_object solana_instruction) (member f "instructions");
  nonceAccount ← z_optional (z_text solana_public_key) (member f "nonceAccount");
  nonceAccountAuth ← z_optional (z_text solana_public_key) (member f "nonceAccountAuth");
  rpc ← z_text URL_accepts (member f "rpc");
  if Bool.eqb (bool_decide (is_Some (truthy nonceAccount))) (bool_decide (is_Some (truthy nonceAccountAuth))) then
    Some {| st_lookupTables := lookupTables; st_computeUnitLimit := computeUnitLimit; st_computeUnitPrice := computeUnitPrice; st_from := from;
            st_instructions := instructions; st_nonceAccount := nonceAccount; st_nonceAccountAuth := nonceAccountAuth; st_rpc := rpc |}
  else None.
Definition TransferContractSchema (f : list (jsstring * Json)) : option TronParameter :=
  amount ← z_number any_number (member f "amount");
  owner ← z_text any_text (member f "owner_address");
  to ← z_text any_text (member f "to_address");
  Some (TransferContract amount owner to).
Definition TriggerSmartContractSchema (f : list (jsstring * Json)) : option TronParameter :=
  call_token_value ← z_optional (z_number any_number) (member f "call_token_value");
  call_value ← z_optional (z_number any_number) (member f "call_value");
  contract_address ← z_text any_text (member f "contract_address");
  data ← z_optional (z_text any_text) (member f "data");
  owner ← z_text any_text (member f "owner_address");
  token_id ← z_optional (z_number any_number) (member f "token_id");
  Some (TriggerSmartContract call_token_value call_value contract_address data owner token_id).
Definition TronTxSchema (f : list (jsstring * Json)) : option TronTx :=
  parameter ← match member f "contractType" with
              | JStr t => if bool_decide (t = js "TransferContract") then z_object TransferContractSchema (member f "parameter")
                          else if bool_decide (t = js "TriggerSmartContract") then z_object TriggerSmartContractSchema (member f "parameter")
                          else None
              | _ => None
              end;
  expiration ← z_optional (z_number any_number) (member f "expiration");
  feeLimit ← z_optional (z_text integer_string) (member f "feeLimit");
  from ← z_text tron_address (member f "from");
  memo ← z_optional (z_text any_text) (member f "memo");
  permissionId ← z_optional (z_number (Z.leb 0)) (member f "permissionId");
  refBlockBytes ← z_optional (z_text any_text) (member f "refBlockBytes");
  refBlockHash ← z_optional (z_text any_text) (member f "refBlockHash");
  rpc ← z_text URL_accepts (member f "rpc");
  timestamp ← z_optional (z_number any_number) (member f "timestamp");
  Some {| tt_expiration := expiration; tt_feeLimit := feeLimit; tt_from := from; tt_memo := memo; tt_permissionId := default 0 permissionId;
          tt_refBlockBytes := refBlockBytes; tt_refBlockHash := refBlockHash; tt_rpc := rpc; tt_timestamp := timestamp; tt_parameter := parameter |}.

(** The union is decided by [family]. *)
Definition TransactionSchema (f : list (jsstring * Json)) : option Transaction :=
  match member f "family" with
  | JStr family =>
      if bool_decide (family = js "ethereum-vm") then EvmTransaction <$> EthereumTxSchema f
      else if bool_decide (family = js "solana-vm") then SolanaTransaction <$> SolanaTxSchema f
      else if bool_decide (family = js "bitcoin-vm") then BitcoinTransaction <$> BitcoinTxSchema f
      else if bool_decide (family = js "tron-vm") then TronTransaction <$> TronTxSchema f
      else None
  | _ => None
  end.
Definition TransactionsSchema (v : Json) : option (list Transaction) := z_array (z_object TransactionSchema) v.

(** ** Loading *)

Definition rpc_of (tx : Transaction) : option jsstring :=
  match tx with
  | EvmTransaction tx => Some (et_rpc tx)
  | SolanaTransaction tx => Some (st_rpc tx)
  | TronTransaction tx => Some (tt_rpc tx)
  | BitcoinTransaction _ => None
  end.
Definition with_rpc (rpc : jsstring) (tx : Transaction) : Transaction :=
  match tx with
  | EvmTransaction t => EvmTransaction {| et_amount := et_amount t; et_calldata := et_calldata t; et_from := et_from t; et_gas := et_gas t;
      et_gasPrice := et_gasPrice t; et_maxFeePerGas := et_maxFeePerGas t; et_maxPriorityFeePerGas := et_maxPriorityFeePerGas t;
      et_nonce := et_nonce t; et_rpc := rpc; et_to := et_to t |}
  | SolanaTransaction t => SolanaTransaction {| st_lookupTables := st_lookupTables t; st_computeUnitLimit := st_computeUnitLimit t;
      st_computeUnitPrice := st_computeUnitPrice t; st_from := st_from t; st_instructions := st_instructions t;
      st_nonceAccount := st_nonceAccount t; st_nonceAccountAuth := st_nonceAccountAuth t; st_rpc := rpc |}
  | TronTransaction t => TronTransaction {| tt_expiration := tt_expiration t; tt_feeLimit := tt_feeLimit t; tt_from := tt_from t; tt_memo := tt_memo t;
      tt_permissionId := tt_permissionId t; tt_refBlockBytes := tt_refBlockBytes t; tt_refBlockHash := tt_refBlockHash t; tt_rpc := rpc;
      tt_timestamp := tt_timestamp t; tt_parameter := tt_parameter t |}
  | BitcoinTransaction t => BitcoinTransaction t
  end.
(** [<fromUrl>=<toUrl>]: the text before and after the first equals sign. *)
Definition override_pair (pair : jsstring) : option (jsstring * jsstring) :=
  match re_span (fun c => negb (c =? 61)) pair with
  | ((_ :: _) as before, 61 :: after) =>
      match trim before, trim after with
      | (_ :: _) as from, ((_ :: _) as to) => Some (from, to)
      | _, _ => None
      end
  | _ => None
  end.
Definition parse_overrides (spec : jsstring) : result (list (jsstring * jsstring)) :=
  pairs ← require (mapM override_pair (split_text (js ",") spec)) "RPC_OVERRIDES entry must be <fromUrl>=<toUrl>";
  Ok (foldl (fun m p => map_set p.1 p.2 m) [] pairs).
Definition applyRpcOverrides (spec : option jsstring) (transactions : list Transaction) : result (list Transaction) :=
  match truthy spec with
  | None => Ok transactions
  | Some spec =>
      overrides ← parse_overrides spec;
      Ok ((fun tx => match rpc_of tx ≫= fun rpc => map_get rpc overrides with Some rpc => with_rpc rpc tx | None => tx end) <$> transactions)
  end.
(** [text] is the file's. *)
Definition loadTransactions (spec : option jsstring) (text : jsstring) : result (list Transaction) :=
  data ← JSON_parse text;
  transactions ← require (TransactionsSchema data) "invalid manifest";
  applyRpcOverrides spec transactions.
End Schemas.

(** ** Executing EVM transactions through the multisig signer

    packages/multisig-tools/src: builders/utils.ts (building a transaction with
    the nonces of the process, asking the signer contract for a signature),
    crypto/near.ts (the signature of the MPC), commands/execute-transactions.ts
    (funding, broadcasting and confirming, the run over a manifest) and
    helpers/wnear.ts.  The chains, the signer contract, the Relay API and viem
    are parameters; what is sent to them is kept in a log. *)

Local Open Scope Z_scope.
Local Open Scope js_scope.

(** ** Computations *)

(** An [Error]: its message, the [details] and [shortMessage] of viem's, and
    whether it is a [WaitForTransactionReceiptTimeoutError]. *)
Record JsError := { er_message : jsstring; er_details : option jsstring; er_short : option jsstring; er_receiptTimeout : bool }.
(** The cross mark some messages start with. *)
Definition cross (text : jsstring) : jsstring := 10060 :: 32 :: text.
Definition new_Error (message : jsstring) : JsError := {| er_message := message; er_details := None; er_short := None; er_receiptTimeout := false |}.
Inductive outcome (A : Type) := Returned (a : A) | Threw (e : JsError).
Arguments Returned {A} a.
Arguments Threw {A} e.

(** What leaves the process: raw transactions of each family, requests to the
    signer contract, transfers and bridge deposits of the deployer, token
    approvals, pauses. *)
Inductive Effect :=
  | SentRaw (rpc raw : jsstring)
  | RequestedSignature (data curve : jsstring)
  | SentNative (rpc to : jsstring) (value : Z)
  | SentBridge (rpc to data : jsstring) (value : Z)
  | SentBitcoin (url hex : jsstring)
  | SentSolana (rpc : jsstring) (raw : bytes)
  | SentTron (rpc txID : jsstring) (signatures : list jsstring)
  | Approved (spender : jsstring) (amount : Z)
  | Paused (ms : Z).
(** The number of calls made so far, the log, and [nextNonces]. *)
Record Net := { nt_time : nat; nt_log : list Effect; nt_nextNonces : gmap (jsstring * Z) Z }.
Definition N (A : Type) : Type := Net -> outcome A * Net.
#[export] Instance N_ret : MRet N := fun A a n => (Returned a, n).
#[export] Instance N_bind : MBind N := fun A B f c n =>
  match c n with (Returned a, n') => f a n' | (Threw e, n') => (Threw e, n') end.
Definition throwN {A} (e : JsError) : N A := fun n => (Threw e, n).
Definition tryN {A} (c : N A) (h : JsError -> N A) : N A := fun n =>
  match c n with (Returned a, n') => (Returned a, n') | (Threw e, n') => h e n' end.
Definition ofO {A} (o : outcome A) : N A := fun n => (o, n).
(** A call that is answered by the environment, and one that also acts. *)
Definition ask {A} (f : nat -> outcome A) : N A := fun n =>
  (f (nt_time n), {| nt_time := S (nt_time n); nt_log := nt_log n; nt_nextNonces := nt_nextNonces n |}).
Definition perform {A} (e : Effect) (f : nat -> outcome A) : N A := fun n =>
  (f (nt_time n), {| nt_time := S (nt_time n); nt_log := nt_log n ++ [e]; nt_nextNonces := nt_nextNonces n |}).
Definition pause (ms : Z) : N unit := perform (Paused ms) (fun _ => Returned tt).
Definition getNext (k : jsstring * Z) : N (option Z) := fun n => (Returned (nt_nextNonces n !! k), n).
Definition setNext (k : jsstring * Z) (v : Z) : N unit := fun n =>
  (Returned tt, {| nt_time := nt_time n; nt_log := nt_log n; nt_nextNonces := <[k := v]> (nt_nextNonces n) |}).

(** ** The environment *)

Record RawTransaction := {
  rt_chainId : Z; rt_data : jsstring; rt_from : jsstring; rt_gas : Z; rt_nonce : Z; rt_to : jsstring; rt_value : Z;
  rt_gasPrice : option Z; rt_maxFeePerGas : option Z; rt_maxPriorityFeePerGas : option Z }.
Record Receipt := { rc_hash : jsstring; rc_success : bool }.
(** [steps\[0\].items\[0\]] of a quote, with its [data] when that has a target
    and a payload, and the status of a request with its reason. *)
Inductive Quote := NoItem | NoData | QuoteData (to data : jsstring) (value : Z).
Record RequestStatus := { rs_status : jsstring; rs_reason : option jsstring }.

Class Chains := {
  getChainId : nat -> jsstring -> outcome Z;
  getTransactionCount : nat -> jsstring -> jsstring -> outcome Z;
  getBalance : nat -> jsstring -> jsstring -> outcome Z;
  getGasPrice : nat -> jsstring -> outcome Z;
  estimateGas : nat -> jsstring -> RawTransaction -> outcome unit;
  sendRawTransaction : nat -> jsstring -> jsstring -> outcome unit;
  getTransaction : nat -> jsstring -> jsstring -> outcome unit;
  waitForTransactionReceipt : nat -> jsstring -> jsstring -> outcome Receipt;
  getFeeHistory : nat -> jsstring -> outcome (list Z);
  getBlockBaseFee : nat -> jsstring -> outcome (option Z);
  simulate_call : nat -> jsstring -> jsstring -> jsstring -> Z -> outcome unit;
  sendTransaction : nat -> jsstring -> jsstring -> jsstring -> Z -> outcome jsstring;
  signer_signatures : nat -> jsstring -> jsstring -> jsstring -> outcome jsstring;
  signer_approved : nat -> jsstring -> jsstring -> jsstring -> outcome bool;
  signer_sign : nat -> jsstring -> jsstring -> jsstring -> outcome jsstring;
  wNEAR_allowance : nat -> jsstring -> jsstring -> outcome Z;
  wNEAR_approve : nat -> jsstring -> Z -> outcome jsstring;
  relay_quote : nat -> Z -> Z -> Z -> jsstring -> outcome Quote;
  relay_status : nat -> jsstring -> outcome (option RequestStatus) }.

Record ParsedTransaction := { pd_maxFeePerGas : option Z; pd_gasPrice : option Z; pd_nonce : option Z }.
Class Viem := {
  keccak256 : jsstring -> jsstring;
  serialize : RawTransaction -> option jsstring -> outcome jsstring;
  parseTransaction : jsstring -> outcome ParsedTransaction;
  recoverAddress : jsstring -> jsstring -> outcome jsstring;
  recoverSender : jsstring -> outcome jsstring;
  parseEther : jsstring -> outcome Z;
  formatEther : Z -> jsstring;
  (** [JSON.parse(fromHex(signature, "string"))]. *)
  near_json : jsstring -> outcome Json }.

(** The environment variables and network tables of the process: a source chain
    has a name and an RPC. *)
Record Settings := {
  se_forceBroadcast : bool; se_deployer : option jsstring; se_source : Z -> option (jsstring * jsstring); se_signer : jsstring;
  se_signerRpc : jsstring; se_signerChainId : Z; se_wNEAR : option jsstring; se_signaturePolls : nat }.

Section Evm.
Context `{C : Chains, V : Viem} (settings : Settings).

(** [BigInt(s)] of a text of digits. *)
Definition digits_value (s : jsstring) : Z := Radix.of_digits 10 (hex_val <$> s).

(** ** builders/utils.ts *)

Definition hasEvmTransactionBeenExecuted (tx : EthereumTx) : N bool :=
  nonce ← ask (fun t => getTransactionCount t (et_rpc tx) (et_from tx));
  mret (et_nonce tx <? nonce).

Record BuildTransactionResult := { br_hashToSign : jsstring; br_payload : jsstring; br_transaction : RawTransaction }.
(** [gasPrice] makes a legacy transaction, the other fees an EIP-1559 one. *)
Definition feeFields (tx : EthereumTx) : option Z * option Z * option Z :=
  match truthy (et_gasPrice tx) with
  | Some gasPrice => (Some (digits_value gasPrice), None, None)
  | None => (None, digits_value <$> truthy (et_maxFeePerGas tx), digits_value <$> truthy (et_maxPriorityFeePerGas tx))
  end.
Definition raw_of (tx : EthereumTx) (chainId value nonce : Z) (fees : option Z * option Z * option Z) : RawTransaction := {|
  rt_chainId := chainId; rt_data := et_calldata tx; rt_from := et_from tx; rt_gas := digits_value (et_gas tx); rt_nonce := nonce;
  rt_to := et_to tx; rt_value := value; rt_gasPrice := fees.1.1; rt_maxFeePerGas := fees.1.2; rt_maxPriorityFeePerGas := fees.2 |}.
Definition tx_json (tx : EthereumTx) : Json :=
  let optional name (v : option jsstring) := match v with Some s => [(js name, JStr s)] | None => [] end in
  JObj ([(js "amount", JStr (et_amount tx)); (js "calldata", JStr (et_calldata tx)); (js "family", JStr (js "ethereum-vm"));
         (js "from", JStr (et_from tx)); (js "gas", JStr (et_gas tx))] ++ optional "gasPrice"%string (et_gasPrice tx) ++
        optional "maxFeePerGas"%string (et_maxFeePerGas tx) ++ optional "maxPriorityFeePerGas"%string (et_maxPriorityFeePerGas tx) ++
        [(js "nonce", JNum (et_nonce tx)); (js "rpc", JStr (et_rpc tx)); (js "to", JStr (et_to tx))]).
Definition buildEvmTransaction (tx : EthereumTx) : N BuildTransactionResult :=
  chainId ← ask (fun t => getChainId t (et_rpc tx));
  nonce ← ask (fun t => getTransactionCount t (et_rpc tx) (et_from tx));
  next ← getNext (et_from tx, chainId);
  let expectedNonce := Z.max nonce (default 0 next) in
  if et_nonce tx <? expectedNonce then throwN (new_Error (cross (js "Nonce too low: the transaction nonce is " ++ toString10 (et_nonce tx) ++ js " but the current nonce is " ++
      toString10 expectedNonce ++ js ". This tx will not be executed!")))
  else
    value ← ofO (parseEther (et_amount tx));
    _ ← tryN (ask (fun t => estimateGas t (et_rpc tx) (raw_of tx chainId value nonce (None, None, None))))
             (fun e => throwN (new_Error (cross (js "Ethereum transaction failed: " ++ JSON_stringify (tx_json tx) ++ js ", " ++ er_message e))));
    next ← getNext (et_from tx, chainId);
    _ ← setNext (et_from tx, chainId) (Z.max (default 0 next) (et_nonce tx + 1));
    let transaction := raw_of tx chainId value (et_nonce tx) (feeFields tx) in
    payload ← ofO (serialize transaction None);
    mret {| br_hashToSign := keccak256 payload; br_payload := payload; br_transaction := transaction |}.

(** ** crypto/near.ts *)

Definition json_get (key : string) (v : Json) : outcome Json :=
  match v with
  | JObj fields => Returned (default JUndefined (map_get (js key) fields))
  | JNull | JUndefined => Threw (new_Error (js "TypeError"))
  | _ => Returned JUndefined
  end.
Definition json_text (v : Json) : outcome jsstring := match v with JStr s => Returned s | _ => Threw (new_Error (js "TypeError")) end.
(** [`${value}`]; [null] and [undefined] are empty inside an array. *)
Fixpoint template_text (v : Json) : jsstring :=
  match v with
  | JUndefined => js "undefined"
  | JNull => js "null"
  | JBool b => if b then js "true" else js "false"
  | JNum n => toString10 n
  | JStr s => s
  | JArr items => join_with (js ",") ((fun v => match v with JUndefined | JNull => [] | _ => template_text v end) <$> items)
  | JObj _ => js "[object Object]"
  end.
(** [(id + 27).toString(16)]: a sum of numbers, or of texts. *)
Definition number_hex (n : Z) : jsstring := if n <? 0 then js "-" ++ toString16 (- n) else toString16 n.
Definition recovery_hex (id : Json) : jsstring :=
  match id with
  | JNum n => number_hex (n + 27)
  | JNull => number_hex 27
  | JBool b => number_hex (27 + Z.b2z b)
  | JUndefined => js "NaN"
  | _ => template_text id ++ js "27"
  end.
#[local] Instance outcome_ret : MRet outcome := fun A a => Returned a.
#[local] Instance outcome_bind : MBind outcome := fun A B f c => match c with Returned a => f a | Threw e => Threw e end.
(** [r] and [s] of an ECDSA signature and [v.toString(16)]. *)
Definition extractNearSignature (signature : jsstring) : outcome (jsstring * jsstring * jsstring) :=
  json ← near_json signature;
  big_r ← json_get "big_r" json;
  affine ← json_get "affine_point" big_r;
  s_part ← json_get "s" json;
  scalar ← json_get "scalar" s_part;
  recovery ← json_get "recovery_id" json;
  point ← json_text affine;
  Returned (drop 2 point, template_text scalar, recovery_hex recovery).
(** [Buffer.from(value).toString("hex")]. *)
Definition byte_of (v : Json) : Z :=
  match v with
  | JNum n => n mod 256
  | JBool b => Z.b2z b
  | JStr s => match Number s with JInt n => n mod 256 | JFrac m e => Z.quot m (2 ^ (- e)) mod 256 | _ => 0 end
  | _ => 0
  end.
Definition buffer_hex (v : Json) : outcome jsstring :=
  match v with
  | JArr items => Returned (List.concat (List.map (fun v => padStart 2 48 (toString16 (byte_of v))) items))
  | JStr s => Returned (bytesToHex (TextEncoder_encode s))
  | _ => Threw (new_Error (js "TypeError"))
  end.

(** ** getSignatureForHash *)

(** [while (nearSignature === "0x")]: the loop goes on for as long as the
    contract has no signature; [se_signaturePolls] bounds the polls here. *)
Fixpoint poll_signature (polls : nat) (key curve : jsstring) : N jsstring :=
  match polls with
  | O => throwN (new_Error (js "no signature"))
  | S n =>
      _ ← pause 1000;
      signature ← ask (fun t => signer_signatures t (se_signer settings) key curve);
      if bool_decide (signature = js "0x") then poll_signature n key curve else mret signature
  end.
Definition hex_signature (nearSignature : jsstring) : outcome jsstring :=
  json ← near_json nearSignature;
  scheme ← json_get "scheme" json;
  if (match scheme with JStr s => bool_decide (s = js "Ed25519") | _ => false end) then
    value ← json_get "signature" json;
    hex ← buffer_hex value;
    Returned (js "0x" ++ hex)
  else
    '(r, s, v) ← extractNearSignature nearSignature;
    Returned (js "0x" ++ r ++ s ++ padStart 2 48 v).
(** [data] is the hash, or the payload itself when [raw]. *)
Definition getSignatureForHash (data curve : jsstring) (raw : bool) : N jsstring :=
  let signatureKey := keccak256 data in
  nearSignature ← ask (fun t => signer_signatures t (se_signer settings) signatureKey curve);
  nearSignature ←
    (if bool_decide (nearSignature = js "0x") then
       approved ← ask (fun t => signer_approved t (se_signer settings) signatureKey curve);
       if negb approved then throwN (new_Error (cross ((if raw then js "Raw data" else js "Hash") ++ js " signature not approved...")))
       else
         txHash ← perform (RequestedSignature data curve) (fun t => signer_sign t (se_signer settings) data curve);
         _ ← ask (fun t => waitForTransactionReceipt t (se_signerRpc settings) txHash);
         poll_signature (se_signaturePolls settings) signatureKey curve
     else mret nearSignature);
  ofO (hex_signature nearSignature).

(** ** helpers/wnear.ts *)

Definition getWNEARAddress : N jsstring :=
  match truthy (se_wNEAR settings) with
  | Some address => mret address
  | None => throwN (new_Error (js "No wNEAR address configured for chain ID " ++ toString10 (se_signerChainId settings)))
  end.
Definition checkAndApproveWNEAR (from to : jsstring) (allowance : Z) : N unit :=
  _ ← getWNEARAddress;
  currentAllowance ← ask (fun t => wNEAR_allowance t from to);
  if currentAllowance <? allowance then
    hash ← perform (Approved to allowance) (fun t => wNEAR_approve t to allowance);
    _ ← ask (fun t => waitForTransactionReceipt t (se_signerRpc settings) hash);
    mret tt
  else mret tt.
End Evm.
