(* ===== verification/MultisigRun.v ===== *)
(** * Running a manifest

    packages/multisig-tools/src/commands/execute-transactions.ts: funding the
    sender, broadcasting and confirming a signed transaction, executing an EVM
    transaction, and the run over a manifest with its broken lanes.  The
    executors of the other families are arguments of the run. *)

From S2P Require Import Prelude JsNum JsString JsNumber JsJson Scanner IndexerTransfers IndexerRoles IndexerLanes IndexerQueries MultisigManifest.
Local Open Scope Z_scope.
Local Open Scope js_scope.

Definition BROADCAST_ATTEMPTS : nat := 6.
Definition REJECTION_BACKOFF_MS : Z := 20000.
Definition FEE_HISTORY_BLOCKS : Z := 20.

Section Run.
Context `{C : Chains, V : Viem} (settings : Settings).

(** ** Broadcasting *)

Definition lowest (fees : list Z) : option Z := match fees with [] => None | f :: rest => Some (foldl (fun low fee => if fee <? low then fee else low) f rest) end.
Definition recentBaseFeeFloor (rpc : jsstring) : N (option Z) :=
  tryN (fees ← ask (fun t => getFeeHistory t rpc); mret (lowest (List.filter (fun fee => 0 <? fee) fees)))
       (fun _ => tryN (ask (fun t => getBlockBaseFee t rpc)) (fun _ => mret None)).

Definition error_text (e : JsError) : jsstring := match er_details e with Some d => d | None => match er_short e with Some m => m | None => er_message e end end.
Definition mentions (text : jsstring) (words : list string) : bool := existsb (fun w => includes text (js w)) words.
Definition insufficient (text : jsstring) : bool := mentions text ["insufficient funds"; "insufficient balance"; "gas * price + value"]%string.
(** What is left to do after a send that failed. *)
Inductive AfterError := Confirm | NextAttempt.
Definition after_send_error (rpc raw hash : jsstring) (nonce : option Z) (more : bool) (e : JsError) : N AfterError :=
  let lower := toLowerCase (error_text e) in
  if insufficient lower then throwN e
  else
    let timedOut := mentions lower ["took too long"; "timed out"]%string in
    let alreadyKnown := mentions lower ["already known"; "alreadyknown"; "known transaction"]%string in
    let nonceUsed := mentions lower ["nonce too low"; "oldnonce"]%string in
    if nonceUsed then
      ours ← tryN (_ ← ask (fun t => getTransaction t rpc hash); mret true) (fun _ => mret false);
      if ours : bool then mret Confirm
      else
        sender ← ofO (recoverSender raw);
        count ← ask (fun t => getTransactionCount t rpc sender);
        throwN (new_Error (js "Transaction " ++ hash ++ js " can never land: nonce " ++ match nonce with Some n => toString10 n | None => js "undefined" end ++
          js " was consumed by another transaction (sender count is " ++ toString10 count ++ js ")"))
    else if alreadyKnown then mret Confirm
    else if negb timedOut then
      _ ← (if more : bool then pause REJECTION_BACKOFF_MS else mret tt);
      mret NextAttempt
    else mret Confirm.
(** Waiting for the receipt: confirmed, or to be sent again. *)
Inductive Confirmation := Confirmed | Unconfirmed.
Definition confirm (rpc hash : jsstring) (more : bool) : N Confirmation :=
  tryN
    (receipt ← ask (fun t => waitForTransactionReceipt t rpc hash);
     if negb (bool_decide (toLowerCase (rc_hash receipt) = toLowerCase hash)) then
       throwN (new_Error (js "Transaction " ++ hash ++ js " was replaced by " ++ rc_hash receipt ++ js " (same nonce)"))
     else if negb (rc_success receipt) then throwN (new_Error (js "Transaction reverted: " ++ rc_hash receipt))
     else mret Confirmed)
    (fun e =>
       let text := er_message e in
       if startsWith text (js "Transaction reverted") || includes text (js "was replaced by") then throwN e
       else if er_receiptTimeout e then mret Unconfirmed
       else _ ← (if more : bool then pause REJECTION_BACKOFF_MS else mret tt); mret Unconfirmed).
Fixpoint broadcast_attempts (left_attempts : nat) (rpc raw hash : jsstring) (nonce : option Z) : N unit :=
  match left_attempts with
  | O => throwN (new_Error (js "Transaction " ++ hash ++ js " was not accepted after 6 broadcast attempts"))
  | S n =>
      let more := negb (Nat.eqb n 0) in
      next ← tryN (_ ← perform (SentRaw rpc raw) (fun t => sendRawTransaction t rpc raw); mret Confirm) (after_send_error rpc raw hash nonce more);
      match next with
      | NextAttempt => broadcast_attempts n rpc raw hash nonce
      | Confirm =>
          confirmation ← confirm rpc hash more;
          match confirmation with Confirmed => mret tt | Unconfirmed => broadcast_attempts n rpc raw hash nonce end
      end
  end.
Definition nullish_or {A} (a b : option A) : option A := match a with Some _ => a | None => b end.
Definition broadcastAndConfirm (rpc raw : jsstring) : N unit :=
  let hash := keccak256 raw in
  parsed ← ofO (parseTransaction raw);
  let maxFee := nullish_or (pd_maxFeePerGas parsed) (pd_gasPrice parsed) in
  baseFeeFloor ← (match maxFee with None => mret None | Some _ => recentBaseFeeFloor rpc end);
  let underpriced := match maxFee, baseFeeFloor with Some fee, Some floor => if fee <? floor then Some (fee, floor) else None | _, _ => None end in
  match underpriced, se_forceBroadcast settings with
  | Some (fee, floor), false =>
      throwN (new_Error (js "Transaction " ++ hash ++ js " is underpriced: manifest fee " ++ toString10 fee ++
        js " wei/gas is below the lowest base fee of the last " ++ toString10 FEE_HISTORY_BLOCKS ++ js " blocks (" ++ toString10 floor ++
        js " wei/gas) -- wait for fees to drop, regenerate the manifest for this chain, or set FORCE_BROADCAST=1"))
  | _, _ => broadcast_attempts BROADCAST_ATTEMPTS rpc raw hash (pd_nonce parsed)
  end.

(** ** Funding *)

Definition PREFERRED_SOURCE_CHAINS : list Z := [8453; 42161; 10; 1].
Definition MINIMUM_BRIDGE_AMOUNT : Z := 500000000000000.
Definition funding_gas_price (tx : EthereumTx) : N Z :=
  match truthy (et_maxFeePerGas tx), truthy (et_gasPrice tx) with
  | Some fee, _ => mret (digits_value fee)
  | None, Some fee => mret (digits_value fee)
  | None, None => ask (fun t => getGasPrice t (et_rpc tx))
  end.
(** One look at the bridge after [attempts] rounds: [true] ends the wait. *)
Definition bridge_round (tx : EthereumTx) (sourceName sourceRpc deployer bridgeHash : jsstring) (currentBalance before value : Z) (attempts : nat) : N bool :=
  _ ← pause 5000;
  newBalance ← ask (fun t => getBalance t (et_rpc tx) (et_from tx));
  if currentBalance <? newBalance then mret true
  else if Nat.ltb 0 attempts && Nat.eqb (attempts mod 6) 0 then
    deployerBalanceNow ← ask (fun t => getBalance t sourceRpc deployer);
    if before + value - 100000000000000 <? deployerBalanceNow then throwN (new_Error (js "Bridge appears to have been refunded - deployer balance on " ++ sourceName ++ js " increased unexpectedly"))
    else
      tryN
        (status ← ask (fun t => relay_status t bridgeHash);
         match status with
         | Some s => if bool_decide (rs_status s = js "refunded") || bool_decide (rs_status s = js "failed") then
                       throwN (new_Error (js "Bridge was " ++ rs_status s ++ js ". Reason: " ++ default (js "Unknown") (truthy (rs_reason s))))
                     else mret false
         | None => mret false
         end)
        (fun e => if includes (er_message e) (js "refunded") || includes (er_message e) (js "failed") then throwN e else mret false)
  else mret false.
Fixpoint await_bridge (rounds attempts : nat) (tx : EthereumTx) (sourceName sourceRpc deployer bridgeHash : jsstring) (currentBalance before value : Z) : N unit :=
  match rounds with
  | O => throwN (new_Error (js "Bridge timeout - funds did not arrive within 5 minutes"))
  | S n =>
      arrived ← bridge_round tx sourceName sourceRpc deployer bridgeHash currentBalance before value attempts;
      if arrived : bool then mret tt else await_bridge n (S attempts) tx sourceName sourceRpc deployer bridgeHash currentBalance before value
  end.
Definition find_source : option (Z * (jsstring * jsstring)) :=
  head (omap (fun chain => source ← se_source settings chain; Some (chain, source)) PREFERRED_SOURCE_CHAINS).
Definition bridge_funds (tx : EthereumTx) (destinationChainId currentBalance amount : Z) (deployer : jsstring) : N unit :=
  match find_source with
  | None => throwN (new_Error (js "No suitable source chain found for bridging. Tried: " ++
      join_with (js ", ") (toString10 <$> PREFERRED_SOURCE_CHAINS)))
  | Some (sourceChainId, (sourceName, sourceRpc)) =>
      quote ← ask (fun t => relay_quote t amount destinationChainId sourceChainId (et_from tx));
      match quote with
      | NoItem => throwN (new_Error (js "Invalid quote response from Relay API"))
      | NoData => throwN (new_Error (js "Invalid transaction data in quote response"))
      | QuoteData to data value =>
          _ ← tryN (ask (fun t => simulate_call t sourceRpc to data value)) 
                 (fun e => throwN (new_Error (cross (js "Relay deposit simulation failed - would have reverted on-chain. Skipping to avoid expensive failure." ++
                    10 :: js "Error: " ++ er_message e))));
          bridgeHash ← perform (SentBridge sourceRpc to data value) (fun t => sendTransaction t sourceRpc to data value);
          _ ← ask (fun t => waitForTransactionReceipt t sourceRpc bridgeHash);
          before ← ask (fun t => getBalance t sourceRpc deployer);
          await_bridge 60 0 tx sourceName sourceRpc deployer bridgeHash currentBalance before value
      end
  end.
Definition ensureFunding (tx : EthereumTx) : N unit :=
  destinationChainId ← ask (fun t => getChainId t (et_rpc tx));
  currentBalance ← ask (fun t => getBalance t (et_rpc tx) (et_from tx));
  gasPrice ← funding_gas_price tx;
  let estimatedGasCost := digits_value (et_gas tx) * gasPrice in
  let requiredAmount := Z.quot (estimatedGasCost * 150) 100 in
  let shortfall := requiredAmount - currentBalance in
  let amountToBridge := if MINIMUM_BRIDGE_AMOUNT <? shortfall then shortfall else MINIMUM_BRIDGE_AMOUNT in
  match se_deployer settings with
  | None => throwN (new_Error (js "DEPLOYER_PRIVATE_KEY environment variable not set"))
  | Some deployer =>
      deployerBalance ← ask (fun t => getBalance t (et_rpc tx) deployer);
      if amountToBridge + estimatedGasCost <=? deployerBalance then
        hash ← perform (SentNative (et_rpc tx) (et_from tx) amountToBridge)
                 (fun t => sendTransaction t (et_rpc tx) (et_from tx) [] amountToBridge);
        _ ← ask (fun t => waitForTransactionReceipt t (et_rpc tx) hash);
        _ ← ask (fun t => getBalance t (et_rpc tx) (et_from tx));
        mret tt
      else bridge_funds tx destinationChainId currentBalance amountToBridge deployer
  end.

(** ** executeEvmTransaction *)

Definition RELAY_CHAIN_IDS : list Z := [537713; 537724].
Definition nonzero (x : option Z) : option Z := match x with Some 0 => None | _ => x end.
Definition transaction_gas_price (rpc : jsstring) (transaction : RawTransaction) : N Z :=
  match nonzero (rt_maxFeePerGas transaction), nonzero (rt_gasPrice transaction) with
  | Some fee, _ => mret fee
  | None, Some fee => mret fee
  | None, None => ask (fun t => getGasPrice t rpc)
  end.
Definition fund_sender (tx : EthereumTx) (transaction : RawTransaction) : N unit :=
  currentBalance ← ask (fun t => getBalance t (et_rpc tx) (rt_from transaction));
  gasPrice ← transaction_gas_price (et_rpc tx) transaction;
  chainId ← ask (fun t => getChainId t (et_rpc tx));
  let requiredBalance := if bool_decide (chainId ∈ RELAY_CHAIN_IDS) then 0 else rt_gas transaction * gasPrice + rt_value transaction in
  if currentBalance <? requiredBalance then
    _ ← ensureFunding tx;
    newBalance ← ask (fun t => getBalance t (et_rpc tx) (rt_from transaction));
    if newBalance <? requiredBalance then 
      throwN (new_Error (js "Insufficient funds after funding attempt. Have: " ++ formatEther newBalance ++ js ", Need: " ++ formatEther requiredBalance))
    else mret tt
  else mret tt.
Definition executeEvmTransaction (tx : EthereumTx) : N unit :=
  alreadyExecuted ← hasEvmTransactionBeenExecuted tx;
  if alreadyExecuted : bool then mret tt
  else
    built ← buildEvmTransaction tx;
    let transaction := br_transaction built in
    hexSignature ← getSignatureForHash settings (br_hashToSign built) (js "Ecdsa") false;
    signer ← ofO (recoverAddress (br_hashToSign built) hexSignature);
    if negb (bool_decide (toLowerCase signer = toLowerCase (rt_from transaction))) then
      throwN (new_Error (cross (js "Signer does not match transaction sender... Got " ++ signer)))
    else
      serialized ← ofO (serialize transaction (Some hexSignature));
      _ ← fund_sender tx transaction;
      tryN (broadcastAndConfirm (et_rpc tx) serialized)
        (fun e => if insufficient (toLowerCase (er_message e)) then
                    _ ← ensureFunding tx; broadcastAndConfirm (et_rpc tx) serialized
                  else throwN e).

(** ** The run *)

Context (executeOther : Transaction -> N unit).

Definition countRequiredSignatures (transactions : list Transaction) : Z :=
  foldl (fun count tx => match tx with BitcoinTransaction b => count + Z.of_nat (length (bt_inputs b)) | _ => count + 1 end) 0 transactions.
Definition laneOf (tx : Transaction) : option (jsstring * jsstring) :=
  match tx with EvmTransaction t => Some (et_from t, et_rpc t) | _ => None end.
Definition execute (tx : Transaction) : N unit := match tx with EvmTransaction t => executeEvmTransaction t | _ => executeOther tx end.
(** [failures] with their index and text.  A lane is written [from@rpc], where
    an address has no at sign; the text of a skip splits it there again. *)
Record Progress := { pr_failures : list (nat * jsstring); pr_brokenLanes : list (jsstring * jsstring) }.
Definition skipped (lane : jsstring * jsstring) : jsstring :=
  js "skipped: an earlier transaction from " ++ lane.1 ++ js " on " ++ default [] (head (split_text (js "@") lane.2)) ++ js " failed in this run".
Definition failed_message (e : JsError) : jsstring := match er_message e with [] => js "Error" | m => m end.
Definition run_one (p : Progress) (i : nat) (tx : Transaction) : N Progress :=
  let lane := laneOf tx in
  match (l ← lane; if bool_decide (l ∈ pr_brokenLanes p) then Some l else None) with
  | Some l => mret {| pr_failures := pr_failures p ++ [(i, skipped l)]; pr_brokenLanes := pr_brokenLanes p |}
  | None =>
    tryN (_ ← execute tx; mret p)
      (fun e => mret {| pr_failures := pr_failures p ++ [(i, failed_message e)];
                        pr_brokenLanes := match lane with Some l => pr_brokenLanes p ++ [l] | None => pr_brokenLanes p end |})
  end.
Fixpoint run_from (p : Progress) (i : nat) (transactions : list Transaction) : N Progress :=
  match transactions with
  | [] => mret p
  | tx :: rest => p' ← run_one p i tx; run_from p' (S i) rest
  end.
Definition run_transactions (deployer signer : jsstring) (transactions : list Transaction) : N Progress :=
  _ ← checkAndApproveWNEAR settings deployer signer (countRequiredSignatures transactions);
  run_from {| pr_failures := []; pr_brokenLanes := [] |} 0 transactions.
End Run.

(** ** createTransactionBundle (builders/utils.ts) *)

Section Bundle.
Context `{C : Chains, V : Viem}.
(** The builders of the other families, and the call of [approveSignature]
    that is encoded for a hash. *)
Context (buildOther : Transaction -> N (list jsstring)) (encodeSignatureCall : jsstring -> jsstring -> bool -> jsstring).

Definition curve_of (tx : Transaction) : jsstring := match tx with SolanaTransaction _ => js "Eddsa" | _ => js "Ecdsa" end.
Definition uses_raw_data (tx : Transaction) : bool := match tx with SolanaTransaction _ => true | _ => false end.
Definition hashes_to_sign (tx : Transaction) : N (list jsstring) :=
  match tx with EvmTransaction t => built ← buildEvmTransaction t; mret [br_hashToSign built] | _ => buildOther tx end.
Fixpoint createTransactionBundle (transactions : list Transaction) : N (list jsstring) :=
  match transactions with
  | [] => mret []
  | tx :: rest =>
      hashes ← hashes_to_sign tx;
      others ← createTransactionBundle rest;
      mret (((fun hash => encodeSignatureCall hash (curve_of tx) (uses_raw_data tx)) <$> hashes) ++ others)
  end.
End Bundle.
