(* ===== verification/MultisigProofs.v ===== *)
(** * What the multisig tools send

    A broadcast that returns was confirmed; only transactions signed by their
    sender are broadcast, a bounded number of times; funding sends at most one
    payment; a run skips what follows a failure on a lane and reports every
    transaction that was not executed; built nonces increase. *)

From stdpp Require Import sorting.
From S2P Require Import Prelude JsNum JsString JsNumber JsJson Scanner HexBytes IndexerTransfers IndexerRoles IndexerLanes IndexerQueries.
From S2P Require Import MultisigManifest MultisigRun.
Local Open Scope Z_scope.
Local Open Scope js_scope.

(** ** Reasoning about computations *)

(** [nwp c Q E n]: a normal return satisfies [Q], an exception [E]. *)
Definition nwp {A} (c : N A) (Q : A -> Net -> Prop) (E : JsError -> Net -> Prop) (n : Net) : Prop :=
  match c n with (Returned a, n') => Q a n' | (Threw e, n') => E e n' end.

Section Nwp.
Context {A B : Type}.
Implicit Types (c : N A) (n : Net).
Lemma nwp_conseq c (Q Q' : A -> Net -> Prop) (E E' : JsError -> Net -> Prop) n :
  nwp c Q E n -> (forall a n', Q a n' -> Q' a n') -> (forall e n', E e n' -> E' e n') -> nwp c Q' E' n.
Proof using. unfold nwp. destruct (c n) as [[a|e] n']; auto. Qed.
Lemma nwp_ret (a : A) Q E n : Q a n -> nwp (mret a) Q E n.
Proof using. done. Qed.
Lemma nwp_throw e (Q : A -> Net -> Prop) (E : JsError -> Net -> Prop) n : E e n -> nwp (throwN e) Q E n.
Proof using. done. Qed.
Lemma nwp_bind c (f : A -> N B) Q E n : nwp c (fun a => nwp (f a) Q E) E n -> nwp (c ≫= f) Q E n.
Proof using. unfold nwp, mbind, N_bind. by destruct (c n) as [[a|e] n']. Qed.
Lemma nwp_try c h Q E n : nwp c Q (fun e => nwp (h e) Q E) n -> nwp (tryN c h) Q E n.
Proof using. unfold nwp, tryN. by destruct (c n) as [[a|e] n']. Qed.
Lemma nwp_ofO (o : outcome A) (Q : A -> Net -> Prop) (E : JsError -> Net -> Prop) n :
  (forall a, o = Returned a -> Q a n) -> (forall e, o = Threw e -> E e n) -> nwp (ofO o) Q E n.
Proof using. intros HQ HE. unfold nwp, ofO. destruct o; auto. Qed.
Definition asked n : Net := {| nt_time := S (nt_time n); nt_log := nt_log n; nt_nextNonces := nt_nextNonces n |}.
Definition acted (x : Effect) n : Net := {| nt_time := S (nt_time n); nt_log := nt_log n ++ [x]; nt_nextNonces := nt_nextNonces n |}.
Lemma nwp_ask (f : nat -> outcome A) (Q : A -> Net -> Prop) (E : JsError -> Net -> Prop) n :
  (forall a, f (nt_time n) = Returned a -> Q a (asked n)) -> (forall e, f (nt_time n) = Threw e -> E e (asked n)) -> nwp (ask f) Q E n.
Proof using. intros HQ HE. unfold nwp, ask. destruct (f (nt_time n)) eqn:Ef; auto. Qed.
Lemma nwp_perform x (f : nat -> outcome A) (Q : A -> Net -> Prop) (E : JsError -> Net -> Prop) n :
  (forall a, f (nt_time n) = Returned a -> Q a (acted x n)) -> (forall e, f (nt_time n) = Threw e -> E e (acted x n)) -> nwp (perform x f) Q E n.
Proof using. intros HQ HE. unfold nwp, perform. destruct (f (nt_time n)) eqn:Ef; auto. Qed.
End Nwp.

(** ** What a computation emits *)

(** [emits P w k Q c]: however [c] ends it only adds effects of [P] to the log,
    of weight [k] at most, and what it returns satisfies [Q]. *)
Definition weight (w : Effect -> nat) (l : list Effect) : nat := sum_list_with w l.
Definition extends (P : Effect -> Prop) (w : Effect -> nat) (k : nat) (n n' : Net) : Prop :=
  exists l, nt_log n' = nt_log n ++ l /\ Forall P l /\ (weight w l <= k)%nat.
Definition emits {A} (P : Effect -> Prop) (w : Effect -> nat) (k : nat) (Q : A -> Prop) (c : N A) : Prop :=
  forall n, nwp c (fun a n' => extends P w k n n' /\ Q a) (fun _ n' => extends P w k n n') n.
Definition whatever {A} (_ : A) : Prop := True.

Section Emits.
Context (P : Effect -> Prop) (w : Effect -> nat).
Lemma extends_none k n n' : nt_log n' = nt_log n -> extends P w k n n'.
Proof using. intros E. exists []. rewrite E, app_nil_r. split_and!; [done|done|cbn; lia]. Qed.
Lemma extends_trans k1 k2 n1 n2 n3 : extends P w k1 n1 n2 -> extends P w k2 n2 n3 -> extends P w (k1 + k2) n1 n3.
Proof using.
  intros (l1 & E1 & H1 & W1) (l2 & E2 & H2 & W2). exists (l1 ++ l2). rewrite E2, E1, app_assoc. unfold weight in *. rewrite sum_list_with_app.
  split_and!; [done|by apply Forall_app|lia].
Qed.
Lemma extends_more k1 k2 n n' : (k1 <= k2)%nat -> extends P w k1 n n' -> extends P w k2 n n'.
Proof using. intros Hk (l & E & H & W). exists l. split_and!; [done|done|lia]. Qed.

Context {A B : Type}.
Lemma emits_ret k (a : A) (Q : A -> Prop) : Q a -> emits P w k Q (mret a).
Proof using. intros HQ n. split; [by apply extends_none|done]. Qed.
Lemma emits_throw k e (Q : A -> Prop) : emits P w k Q (throwN e).
Proof using. intros n. unfold nwp, throwN. by apply extends_none. Qed.
Lemma emits_bind k1 k2 (c : N A) (f : A -> N B) Q R : emits P w k1 Q c -> (forall a, Q a -> emits P w k2 R (f a)) -> emits P w (k1 + k2) R (c ≫= f).
Proof using.
  intros Hc Hf n. apply nwp_bind. eapply nwp_conseq; [apply Hc| |intros e n' H; eapply extends_more; [|exact H]; lia]. intros a n' [Hn Ha].
  eapply nwp_conseq; [by apply Hf|intros b n'' [? ?]; split; [|done]|intros e n'' ?]; eapply extends_trans; eassumption.
Qed.
Lemma emits_try k1 k2 (c : N A) h Q : emits P w k1 Q c -> (forall e, emits P w k2 Q (h e)) -> emits P w (k1 + k2) Q (tryN c h).
Proof using.
  intros Hc Hh n. apply nwp_try. eapply nwp_conseq; [apply Hc|intros a n' [H ?]; split; [eapply extends_more; [|exact H]; lia|done]|]. intros e n' Hn.
  eapply nwp_conseq; [apply Hh|intros a n'' [? ?]; split; [|done]|intros e' n'' ?]; cbv beta in *; eapply extends_trans; eassumption.
Qed.
Lemma emits_ofO k (o : outcome A) (Q : A -> Prop) : (forall a, o = Returned a -> Q a) -> emits P w k Q (ofO o).
Proof using. intros HQ n. apply nwp_ofO; [intros a E; split; [|by apply HQ]|intros e E]; by apply extends_none. Qed.
Lemma emits_ask k (f : nat -> outcome A) (Q : A -> Prop) : (forall t a, f t = Returned a -> Q a) -> emits P w k Q (ask f).
Proof using. intros HQ n. apply nwp_ask; [intros a E; split; [|by eapply HQ]|intros e E]; by apply extends_none. Qed.
Lemma emits_perform x (f : nat -> outcome A) (Q : A -> Prop) : P x -> (forall t a, f t = Returned a -> Q a) -> emits P w (w x) Q (perform x f).
Proof using.
  intros Hx HQ n. apply nwp_perform; [intros a E; split; [|by eapply HQ]|intros e E]; exists [x]; (split_and!; [done|by constructor|cbn; lia]).
Qed.
Lemma emits_weaken k1 k2 (c : N A) (Q Q' : A -> Prop) : emits P w k1 Q c -> (k1 <= k2)%nat -> (forall a, Q a -> Q' a) -> emits P w k2 Q' c.
Proof using.
  intros Hc Hk HQ n. eapply nwp_conseq; [apply Hc|intros a n' [H ?]; split; [|by apply HQ]|intros e n' H]; eapply extends_more; eassumption.
Qed.
End Emits.
Lemma emits_impl {A} (P P' : Effect -> Prop) w k (Q : A -> Prop) c : (forall x, P x -> P' x) -> emits P w k Q c -> emits P' w k Q c.
Proof.
  intros H Hc n. eapply nwp_conseq; [apply Hc|intros a n' [(l & E & Hl & W) ?]; split; [|done]|intros e n' (l & E & Hl & W)];
    exists l; (split_and!; [done| |done]); eapply Forall_impl; eauto.
Qed.

(** ** Broadcasting *)

Section Broadcast.
Context `{C : Chains, V : Viem} (settings : Settings).
Context (w : Effect -> nat) (s : nat) (Hpause : forall ms, w (Paused ms) = 0%nat) (Hsend : forall rpc raw, (w (SentRaw rpc raw) <= s)%nat).

Definition broadcasts (rpc raw : jsstring) (x : Effect) : Prop := x = SentRaw rpc raw \/ x = Paused REJECTION_BACKOFF_MS.
(** A successful receipt of the transaction. *)
Definition mined (rpc hash : jsstring) : Prop :=
  exists t receipt, waitForTransactionReceipt t rpc hash = Returned receipt /\ toLowerCase (rc_hash receipt) = toLowerCase hash /\ rc_success receipt = true.

Lemma backoff_emits rpc raw (more : bool) : emits (broadcasts rpc raw) w 0 whatever (if more then pause REJECTION_BACKOFF_MS else mret tt).
Proof using Hpause. destruct more; [|by apply emits_ret]. unfold pause. rewrite <- (Hpause REJECTION_BACKOFF_MS). apply emits_perform; [by right|done]. Qed.
Lemma send_error_emits rpc raw hash nonce more e : emits (broadcasts rpc raw) w 0 whatever (after_send_error rpc raw hash nonce more e).
Proof using Hpause.
  unfold after_send_error. cbv zeta. destruct (insufficient _); [apply emits_throw|]. destruct (mentions _ ["nonce too low"; "oldnonce"]%string).
  - apply (emits_bind _ _ 0 0 _ _ whatever).
    + apply (emits_try _ _ 0 0); [|intros e'; by apply emits_ret]. apply (emits_bind _ _ 0 0 _ _ whatever); [by apply emits_ask|].
      intros _ _. by apply emits_ret.
    + intros [] _; [by apply emits_ret|]. apply (emits_bind _ _ 0 0 _ _ whatever); [by apply emits_ofO|]. intros sender _.
      apply (emits_bind _ _ 0 0 _ _ whatever); [by apply emits_ask|]. intros count _. apply emits_throw.
  - destruct (mentions _ ["already known"; "alreadyknown"; "known transaction"]%string); [by apply emits_ret|]. destruct (negb _); [|by apply emits_ret].
    apply (emits_bind _ _ 0 0 _ _ whatever); [apply backoff_emits|]. intros _ _. by apply emits_ret.
Qed.
Lemma confirm_emits rpc raw hash more : emits (broadcasts rpc raw) w 0 (fun c => c = Confirmed -> mined rpc hash) (confirm rpc hash more).
Proof using Hpause.
  unfold confirm. apply (emits_try _ _ 0 0).
  - apply (emits_bind _ _ 0 0 _ _ (fun receipt => exists t, waitForTransactionReceipt t rpc hash = Returned receipt)).
    { apply emits_ask. intros t receipt E. by exists t. }
    intros receipt [t E]. destruct (bool_decide_reflect (toLowerCase (rc_hash receipt) = toLowerCase hash)) as [Eh|]; cbn [negb]; [|apply emits_throw].
    destruct (rc_success receipt) eqn:Es; cbn [negb]; [|apply emits_throw]. apply emits_ret. intros _. by exists t, receipt.
  - intros e. cbv zeta. destruct (_ || _); [apply emits_throw|]. destruct (er_receiptTimeout e); [by apply emits_ret|].
    apply (emits_bind _ _ 0 0 _ _ whatever); [apply backoff_emits|]. intros _ _. by apply emits_ret.
Qed.
Lemma attempts_emit k rpc raw hash nonce : emits (broadcasts rpc raw) w (k * s) (fun _ => mined rpc hash) (broadcast_attempts k rpc raw hash nonce).
Proof using Hpause Hsend.
  induction k as [|k IH]; cbn [broadcast_attempts]; [apply emits_throw|]. change (S k * s)%nat with (s + k * s)%nat.
  apply (emits_bind _ _ s (k * s) _ _ whatever).
  - eapply (emits_weaken _ _ (w (SentRaw rpc raw) + 0) _ _ whatever); [|specialize (Hsend rpc raw); lia|done].
    apply (emits_try _ _ _ 0); [|apply send_error_emits]. rewrite <- (Nat.add_0_r (w _)). apply (emits_bind _ _ _ 0 _ _ whatever).
    + apply emits_perform; [by left|done].
    + intros _ _. by apply emits_ret.
  - intros [] _; [|exact IH]. apply (emits_bind _ _ 0 (k * s) _ _ (fun c => c = Confirmed -> mined rpc hash)); [apply confirm_emits|].
    intros [] Hc; [apply emits_ret; by apply Hc|exact IH].
Qed.
Lemma floor_emits rpc raw : emits (broadcasts rpc raw) w 0 whatever (recentBaseFeeFloor rpc).
Proof using.
  apply (emits_try _ _ 0 0); [apply (emits_bind _ _ 0 0 _ _ whatever); [by apply emits_ask|]; intros fees _; by apply emits_ret|].
  intros e. apply (emits_try _ _ 0 0); [by apply emits_ask|]. intros e'. by apply emits_ret.
Qed.
Lemma broadcast_emits rpc raw : emits (broadcasts rpc raw) w (BROADCAST_ATTEMPTS * s) (fun _ => mined rpc (keccak256 raw)) (broadcastAndConfirm settings rpc raw).
Proof using Hpause Hsend.
  unfold broadcastAndConfirm. cbv zeta. apply (emits_bind _ _ 0 _ _ _ whatever); [by apply emits_ofO|]. intros parsed _.
  apply (emits_bind _ _ 0 _ _ _ whatever); [destruct (nullish_or _ _); [apply floor_emits|by apply emits_ret]|]. intros floor _.
  repeat case_match; first [apply emits_throw|apply attempts_emit].
Qed.
End Broadcast.

(** ** Funding *)

Section Funding.
Context `{C : Chains, V : Viem} (settings : Settings) (tx : EthereumTx).
Context (w : Effect -> nat) (k : nat) (Hpause : forall ms, w (Paused ms) = 0%nat).
Context (Hnative : forall rpc to v, (w (SentNative rpc to v) <= k)%nat) (Hbridge : forall rpc to data v, (w (SentBridge rpc to data v) <= k)%nat).

(** A transfer goes to the sender of the transaction on its chain. *)
Definition funds (x : Effect) : Prop :=
  match x with
  | SentNative rpc to v => rpc = et_rpc tx /\ to = et_from tx /\ MINIMUM_BRIDGE_AMOUNT <= v
  | SentBridge _ _ _ _ | Paused _ => True
  | _ => False
  end.
Lemma funds_pause ms : emits funds w 0 whatever (pause ms).
Proof using Hpause. unfold pause. rewrite <- (Hpause ms). by apply emits_perform. Qed.
Lemma round_emits sourceName sourceRpc deployer hash current before value attempts :
  emits funds w 0 whatever (bridge_round tx sourceName sourceRpc deployer hash current before value attempts).
Proof using Hpause.
  unfold bridge_round. apply (emits_bind _ _ 0 0 _ _ whatever); [apply funds_pause|]. intros _ _.
  apply (emits_bind _ _ 0 0 _ _ whatever); [by apply emits_ask|]. intros balance _. destruct (current <? balance); [by apply emits_ret|].
  destruct (_ && _); [|by apply emits_ret]. apply (emits_bind _ _ 0 0 _ _ whatever); [by apply emits_ask|]. intros now _.
  destruct (_ <? now); [apply emits_throw|]. apply (emits_try _ _ 0 0).
  - apply (emits_bind _ _ 0 0 _ _ whatever); [by apply emits_ask|]. intros [s|] _; [|by apply emits_ret].
    destruct (_ || _); [apply emits_throw|by apply emits_ret].
  - intros e. destruct (_ || _); [apply emits_throw|by apply emits_ret].
Qed.
Lemma await_emits rounds : forall attempts sourceName sourceRpc deployer hash current before value,
  emits funds w 0 whatever (await_bridge rounds attempts tx sourceName sourceRpc deployer hash current before value).
Proof using Hpause.
  induction rounds as [|n IH]; intros; cbn [await_bridge]; [apply emits_throw|].
  apply (emits_bind _ _ 0 0 _ _ whatever); [apply round_emits|]. intros [] _; [by apply emits_ret|apply IH].
Qed.
Lemma bridge_emits chain current amount deployer : emits funds w k whatever (bridge_funds settings tx chain current amount deployer).
Proof using Hpause Hbridge.
  unfold bridge_funds. destruct (find_source settings) as [[source [sourceName sourceRpc]]|]; [|apply emits_throw].
  apply (emits_bind _ _ 0 k _ _ whatever); [by apply emits_ask|]. intros [| |to data value] _; [apply emits_throw..|].
  apply (emits_bind _ _ 0 k _ _ whatever); [apply (emits_try _ _ 0 0); [by apply emits_ask|intros; apply emits_throw]|]. intros _ _.
  eapply (emits_weaken _ _ (w (SentBridge sourceRpc to data value) + 0)); [|specialize (Hbridge sourceRpc to data value); lia|done].
  apply (emits_bind _ _ _ 0 _ _ whatever); [by apply emits_perform|]. intros hash _.
  do 2 (apply (emits_bind _ _ 0 0 _ _ whatever); [by apply emits_ask|]; intros ? _). apply await_emits.
Qed.
Lemma funding_emits : emits funds w k whatever (ensureFunding settings tx).
Proof using Hpause Hnative Hbridge.
  unfold ensureFunding. apply (emits_bind _ _ 0 k _ _ whatever); [by apply emits_ask|]. intros chain _.
  apply (emits_bind _ _ 0 k _ _ whatever); [by apply emits_ask|]. intros current _.
  apply (emits_bind _ _ 0 k _ _ whatever); [unfold funding_gas_price; destruct (truthy (et_maxFeePerGas tx)), (truthy (et_gasPrice tx)); first [by apply emits_ret|by apply emits_ask]|].
  intros price _. cbv zeta. destruct (se_deployer settings) as [deployer|]; [|apply emits_throw].
  apply (emits_bind _ _ 0 k _ _ whatever); [by apply emits_ask|]. intros balance _. set (amount := if MINIMUM_BRIDGE_AMOUNT <? _ then _ else _).
  assert (MINIMUM_BRIDGE_AMOUNT <= amount) as Ha by (unfold amount; case_match; lia).
  destruct (_ <=? balance); [|apply bridge_emits].
  apply (emits_weaken _ _ (w (SentNative (et_rpc tx) (et_from tx) amount) + 0) _ _ whatever); [|specialize (Hnative (et_rpc tx) (et_from tx) amount); lia|done].
  apply (emits_bind _ _ _ 0 _ _ whatever); [apply emits_perform; [by split_and!|done]|]. intros hash _.
  do 2 (apply (emits_bind _ _ 0 0 _ _ whatever); [by apply emits_ask|]; intros ? _). by apply emits_ret.
Qed.
End Funding.

(** ** Asking for a signature *)

Section Asking.
Context `{C : Chains, V : Viem} (settings : Settings) (P : Effect -> Prop) (w : Effect -> nat).
Context (Hrequest : forall data curve, P (RequestedSignature data curve)) (Hwait : P (Paused 1000)).
Context (Hpause : forall ms, w (Paused ms) = 0%nat) (Hsign : forall data curve, w (RequestedSignature data curve) = 0%nat).
Lemma poll_emits polls key curve : emits P w 0 whatever (poll_signature settings polls key curve).
Proof using Hpause Hwait.
  induction polls as [|n IH]; cbn [poll_signature]; [apply emits_throw|]. apply (emits_bind _ _ 0 0 _ _ whatever).
  { unfold pause. rewrite <- (Hpause 1000). by apply emits_perform. }
  intros _ _. apply (emits_bind _ _ 0 0 _ _ whatever); [by apply emits_ask|]. intros s _. case_bool_decide; [exact IH|by apply emits_ret].
Qed.
Lemma asking_emits data curve raw : emits P w 0 whatever (getSignatureForHash settings data curve raw).
Proof using Hpause Hwait Hsign Hrequest.
  unfold getSignatureForHash. cbv zeta. apply (emits_bind _ _ 0 0 _ _ whatever); [by apply emits_ask|]. intros s _.
  apply (emits_bind _ _ 0 0 _ _ whatever); [|intros; by apply emits_ofO]. case_bool_decide; [|by apply emits_ret].
  apply (emits_bind _ _ 0 0 _ _ whatever); [by apply emits_ask|]. intros [] _; cbn [negb]; [|apply emits_throw].
  apply (emits_bind _ _ 0 0 _ _ whatever); [rewrite <- (Hsign data curve); by apply emits_perform|]. intros hash _.
  apply (emits_bind _ _ 0 0 _ _ whatever); [by apply emits_ask|]. intros ? _. apply poll_emits.
Qed.
End Asking.

(** ** Executing one transaction *)

Section Execute.
Context `{C : Chains, V : Viem} (settings : Settings) (tx : EthereumTx).

(** A serialized transaction of [tx] that its sender signed. *)
Record signed_by_sender (raw : jsstring) : Prop := {
  sg_any : exists transaction payload signature signer,
    serialize transaction None = Returned payload /\ serialize transaction (Some signature) = Returned raw /\
    recoverAddress (keccak256 payload) signature = Returned signer /\ toLowerCase signer = toLowerCase (et_from tx) /\
    rt_from transaction = et_from tx /\ rt_to transaction = et_to tx /\ rt_data transaction = et_calldata tx /\ rt_nonce transaction = et_nonce tx /\
    parseEther (et_amount tx) = Returned (rt_value transaction) }.
Definition allowed (x : Effect) : Prop :=
  match x with
  | SentRaw rpc raw => rpc = et_rpc tx /\ signed_by_sender raw
  | RequestedSignature _ _ => True
  | Approved _ _ => False
  | _ => funds tx x \/ x = Paused REJECTION_BACKOFF_MS
  end.
Definition is_payment (x : Effect) : nat := match x with SentNative _ _ _ | SentBridge _ _ _ _ => 1 | _ => 0 end.
(** Already executed, or confirmed on the chain. *)
Definition settled : Prop :=
  (exists t count, getTransactionCount t (et_rpc tx) (et_from tx) = Returned count /\ et_nonce tx < count) \/
  (exists raw, signed_by_sender raw /\ mined (et_rpc tx) (keccak256 raw)).

Section Weighted.
Context (w : Effect -> nat) (sends payments : nat) (Hsend : forall rpc raw, (w (SentRaw rpc raw) <= sends)%nat).
Context (Hpause : forall ms, w (Paused ms) = 0%nat) (Hsign : forall data curve, w (RequestedSignature data curve) = 0%nat).
Context (Hpay : forall rpc to v, (w (SentNative rpc to v) <= payments)%nat) (Hbridge : forall rpc to data v, (w (SentBridge rpc to data v) <= payments)%nat).

Lemma built_emits : emits allowed w 0 (fun built => rt_from (br_transaction built) = et_from tx /\ rt_to (br_transaction built) = et_to tx /\
  rt_data (br_transaction built) = et_calldata tx /\ rt_nonce (br_transaction built) = et_nonce tx /\
  parseEther (et_amount tx) = Returned (rt_value (br_transaction built)) /\
  exists payload, serialize (br_transaction built) None = Returned payload /\ br_hashToSign built = keccak256 payload) (buildEvmTransaction tx).
Proof using.
  unfold buildEvmTransaction. do 2 (apply (emits_bind _ _ 0 0 _ _ whatever); [by apply emits_ask|]; intros ? _).
  apply (emits_bind _ _ 0 0 _ _ whatever); [by intros n; split; [apply extends_none|]|]. intros next _. cbv zeta.
  destruct (et_nonce tx <? _); [apply emits_throw|]. apply (emits_bind _ _ 0 0 _ _ (fun v => parseEther (et_amount tx) = Returned v)); [by apply emits_ofO|].
  intros value Hv. apply (emits_bind _ _ 0 0 _ _ whatever); [apply (emits_try _ _ 0 0); [by apply emits_ask|intros; apply emits_throw]|]. intros _ _.
  do 2 (apply (emits_bind _ _ 0 0 _ _ whatever); [by intros n; split; [apply extends_none|]|]; intros ? _).
  apply (emits_bind _ _ 0 0 _ _ (fun p => serialize (raw_of tx a value (et_nonce tx) (feeFields tx)) None = Returned p)); [by apply emits_ofO|].
  intros payload Hp. apply emits_ret. cbn. split_and!; try done. by exists payload.
Qed.
Lemma signature_emits data curve raw : emits allowed w 0 whatever (getSignatureForHash settings data curve raw).
Proof using Hpause Hsign. apply asking_emits; [done|by left|exact Hpause|exact Hsign]. Qed.
Lemma fund_allowed : emits allowed w payments whatever (ensureFunding settings tx).
Proof using Hpause Hpay Hbridge.
  eapply emits_impl; [|by apply funding_emits]. intros []; cbn; try done; by left.
Qed.
Lemma fund_sender_emits transaction : emits allowed w payments whatever (fund_sender settings tx transaction).
Proof using Hpause Hpay Hbridge.
  unfold fund_sender. apply (emits_bind _ _ 0 payments _ _ whatever); [by apply emits_ask|]. intros balance _.
  apply (emits_bind _ _ 0 payments _ _ whatever).
  { unfold transaction_gas_price. destruct (nonzero (rt_maxFeePerGas transaction)), (nonzero (rt_gasPrice transaction));
      first [by apply emits_ret|by apply emits_ask]. }
  intros price _. apply (emits_bind _ _ 0 payments _ _ whatever); [by apply emits_ask|]. intros chain _. cbv zeta.
  destruct (balance <? _); [|by apply emits_ret].
  rewrite <- (Nat.add_0_r payments). apply (emits_bind _ _ payments 0 _ _ whatever); [apply fund_allowed|]. intros _ _.
  apply (emits_bind _ _ 0 0 _ _ whatever); [by apply emits_ask|]. intros ? _. destruct (_ <? _); [apply emits_throw|by apply emits_ret].
Qed.
Lemma broadcast_allowed raw : signed_by_sender raw ->
  emits allowed w (BROADCAST_ATTEMPTS * sends) (fun _ => settled) (broadcastAndConfirm settings (et_rpc tx) raw).
Proof using Hpause Hsend.
  intros Hr. eapply emits_weaken; [|done|].
  - eapply emits_impl; [|by apply broadcast_emits]. intros x [->| ->]; [by split|by right].
  - intros u Hm. right. by exists raw.
Qed.
Lemma execute_emits : emits allowed w (2 * payments + 2 * (BROADCAST_ATTEMPTS * sends)) (fun _ => settled) (executeEvmTransaction settings tx).
Proof using Hpause Hsign Hpay Hbridge Hsend.
  unfold executeEvmTransaction. set (K := (2 * payments + 2 * (BROADCAST_ATTEMPTS * sends))%nat).
  apply (emits_bind _ _ 0 K _ _ (fun done => done = true -> settled)).
  { unfold hasEvmTransactionBeenExecuted. apply (emits_bind _ _ 0 0 _ _ (fun count => exists t, getTransactionCount t (et_rpc tx) (et_from tx) = Returned count)).
    - apply emits_ask. intros t count E. by exists t.
    - intros count [t E]. apply emits_ret. intros H. left. exists t, count. split; [done|lia]. }
  intros [] Hdone; [apply emits_ret; by apply Hdone|].
  apply (emits_bind _ _ 0 K _ _ _ _ built_emits). intros built (Hfrom & Hto & Hdata & Hnonce & Hvalue & payload & Hp & Hh). cbv zeta.
  apply (emits_bind _ _ 0 K _ _ whatever); [apply signature_emits|]. intros signature _.
  apply (emits_bind _ _ 0 K _ _ (fun signer => recoverAddress (br_hashToSign built) signature = Returned signer)); [by apply emits_ofO|]. intros signer Hs.
  destruct (bool_decide_reflect (toLowerCase signer = toLowerCase (rt_from (br_transaction built)))) as [Es|]; cbn [negb]; [|apply emits_throw].
  apply (emits_bind _ _ 0 K _ _ (fun raw => serialize (br_transaction built) (Some signature) = Returned raw)); [by apply emits_ofO|]. intros raw Hraw.
  assert (signed_by_sender raw) as Hsigned.
  { constructor. exists (br_transaction built), payload, signature, signer. rewrite Hfrom in Es. rewrite <- Hh. done. }
  replace K with (payments + (BROADCAST_ATTEMPTS * sends + (payments + BROADCAST_ATTEMPTS * sends)))%nat by (unfold K; lia).
  apply (emits_bind _ _ payments _ _ _ whatever); [apply fund_sender_emits|]. intros _ _.
  apply emits_try; [by apply broadcast_allowed|]. intros e. destruct (insufficient _); [|apply emits_throw].
  apply (emits_bind _ _ payments _ _ _ whatever); [apply fund_allowed|]. intros _ _. by apply broadcast_allowed.
Qed.
End Weighted.
End Execute.

(** ** The run over a manifest *)

Inductive Verdict := Done | Failed (e : JsError) | SkippedLane.
(** The indexes of what was not executed. *)
Fixpoint unexecuted (i : nat) (vs : list Verdict) : list nat :=
  match vs with [] => [] | Done :: rest => unexecuted (S i) rest | _ :: rest => i :: unexecuted (S i) rest end.

Section Lanes.
Context `{C : Chains, V : Viem} (settings : Settings) (executeOther : Transaction -> N unit).
Abbreviation exec := (execute settings executeOther).

(** What became of each transaction of a run that starts with broken lanes. *)
Inductive run_trace (broken : list (jsstring * jsstring)) : list Transaction -> Net -> list Verdict -> Net -> Prop :=
  | trace_nil n : run_trace broken [] n [] n
  | trace_skip tx rest n vs n' lane : laneOf tx = Some lane -> lane ∈ broken -> run_trace broken rest n vs n' ->
      run_trace broken (tx :: rest) n (SkippedLane :: vs) n'
  | trace_done tx rest n n1 vs n' : (forall lane, laneOf tx = Some lane -> lane ∉ broken) -> exec tx n = (Returned tt, n1) ->
      run_trace broken rest n1 vs n' -> run_trace broken (tx :: rest) n (Done :: vs) n'
  | trace_failed tx rest n e n1 vs n' : (forall lane, laneOf tx = Some lane -> lane ∉ broken) -> exec tx n = (Threw e, n1) ->
      run_trace (broken ++ option_list (laneOf tx)) rest n1 vs n' -> run_trace broken (tx :: rest) n (Failed e :: vs) n'.

Lemma run_has_trace transactions : forall p i n, exists vs p' n', run_from settings executeOther p i transactions n = (Returned p', n') /\
  run_trace (pr_brokenLanes p) transactions n vs n' /\ (pr_failures p').*1 = (pr_failures p).*1 ++ unexecuted i vs.
Proof using.
  induction transactions as [|tx rest IH]; intros p i n.
  { exists [], p, n. cbn. rewrite app_nil_r. split_and!; [done|constructor|done]. }
  cbn [run_from]. unfold run_one. cbv zeta. destruct (l ← laneOf tx; _) as [l|] eqn:Hb.
  - apply bind_Some in Hb as (lane & El & Hb). case_bool_decide as Hin; [|done]. injection Hb as ->.
    destruct (IH {| pr_failures := pr_failures p ++ [(i, skipped l)]; pr_brokenLanes := pr_brokenLanes p |} (S i) n) as (vs & p' & n' & Er & Ht & Ef).
    exists (SkippedLane :: vs), p', n'. split_and!; [exact Er|by eapply trace_skip|]. cbn in *. by rewrite Ef, fmap_app, <- app_assoc.
  - assert (forall lane, laneOf tx = Some lane -> lane ∉ pr_brokenLanes p) as Hlane.
    { intros lane El Hin. rewrite El in Hb. cbn in Hb. by rewrite bool_decide_eq_true_2 in Hb. }
    unfold mbind at 1, N_bind at 1. unfold tryN. unfold mbind at 1, N_bind at 1. destruct (exec tx n) as [[[]|e] n1] eqn:Ee.
    + destruct (IH p (S i) n1) as (vs & p' & n' & Er & Ht & Ef). exists (Done :: vs), p', n'. split_and!; [exact Er|by eapply trace_done|done].
    + set (p1 := {| pr_failures := _; pr_brokenLanes := _ |}). destruct (IH p1 (S i) n1) as (vs & p' & n' & Er & Ht & Ef).
      exists (Failed e :: vs), p', n'. split_and!; [exact Er| |].
      * eapply trace_failed; [done|exact Ee|]. unfold p1 in Ht. cbn in Ht. destruct (laneOf tx); cbn; rewrite ?app_nil_r; exact Ht.
      * unfold p1 in Ef. cbn in *. by rewrite Ef, fmap_app, <- app_assoc.
Qed.

(** A lane that is broken stays broken. *)
Lemma broken_skips broken transactions n vs n' : run_trace broken transactions n vs n' ->
  forall k tx v lane, transactions !! k = Some tx -> vs !! k = Some v -> laneOf tx = Some lane -> lane ∈ broken -> v = SkippedLane.
Proof using.
  induction 1 as [| |b tx rest n n1 vs n' Hl He _ IH|b tx rest n e n1 vs n' Hl He _ IH]; intros k tx' v l Hk Hv El Hin; [done|..]; destruct k as [|k]; cbn in *;
    simplify_eq; eauto; try (by destruct (Hl l)). eapply IH; eauto. set_solver.
Qed.
Lemma lane_discipline broken transactions n vs n' : run_trace broken transactions n vs n' ->
  forall j k tj tk vj vk lane, (j < k)%nat -> transactions !! j = Some tj -> transactions !! k = Some tk -> vs !! j = Some vj -> vs !! k = Some vk ->
  laneOf tj = Some lane -> laneOf tk = Some lane -> vj <> Done -> vk = SkippedLane.
Proof using.
  induction 1 as [|b tx rest n vs n' l El Hin Ht IH|b tx rest n n1 vs n' Hl He Ht IH|b tx rest n e n1 vs n' Hl He Ht IH];
    intros j k tj tk vj vk lane Hjk Hj Hk Hvj Hvk Lj Lk Hd; [done|..]; destruct k as [|k]; [lia| |lia| |lia|]; destruct j as [|j]; cbn in *; simplify_eq;
    try (apply (IH j k tj tk vj vk lane); [lia|done..]).
  - eapply broken_skips; eauto.
  - eapply broken_skips; eauto. rewrite Lj. set_solver.
Qed.
Lemma skips_justified broken transactions n vs n' : run_trace broken transactions n vs n' ->
  forall k tx, transactions !! k = Some tx -> vs !! k = Some SkippedLane ->
  exists lane, laneOf tx = Some lane /\ (lane ∈ broken \/ exists j tj e, (j < k)%nat /\ transactions !! j = Some tj /\ laneOf tj = Some lane /\ vs !! j = Some (Failed e)).
Proof using.
  induction 1 as [|b tx rest n vs n' l El Hin Ht IH|b tx rest n n1 vs n' Hl He Ht IH|b tx rest n e n1 vs n' Hl He Ht IH];
    intros k tx' Hk Hv; [done|..]; destruct k as [|k]; cbn in *; simplify_eq; [by exists l; auto|..];
    destruct (IH k tx' Hk Hv) as (lane & Elane & [Hb|(j & tj & e' & Hj & H1 & H2 & H3)]); exists lane; (split; [done|]);
    try (by right; exists (S j), tj, e'; split; [lia|]); try (by left).
  apply elem_of_app in Hb as [Hb|Hb]; [by left|]. right. exists 0%nat, tx, e. destruct (laneOf tx) as [l|]; cbn in Hb; [|set_solver].
  apply list_elem_of_singleton in Hb as ->. split_and!; [lia|done..].
Qed.
End Lanes.

(** ** Nonces of a bundle *)

Section Nonces.
Context `{C : Chains, V : Viem}.
(** The next nonces only grow. *)
Definition grows_nonces (n n' : Net) : Prop := forall k v, nt_nextNonces n !! k = Some v -> exists v', nt_nextNonces n' !! k = Some v' /\ v <= v'.
#[local] Instance grows_preorder : PreOrder grows_nonces.
Proof using.
  split; [intros n k v H; by exists v|]. intros n1 n2 n3 H1 H2 k v Hk. apply H1 in Hk as (v1 & Hk & ?). apply H2 in Hk as (v2 & Hk & ?).
  exists v2. split; [done|lia].
Qed.
Lemma grows_same n n' : nt_nextNonces n' = nt_nextNonces n -> grows_nonces n n'.
Proof using. intros E k v H. exists v. by rewrite E. Qed.

Lemma build_nonces tx n c : (forall t, getChainId t (et_rpc tx) = Returned c) ->
  nwp (buildEvmTransaction tx)
    (fun _ n' => grows_nonces n n' /\ (exists v, nt_nextNonces n' !! (et_from tx, c) = Some v /\ et_nonce tx < v) /\
                 forall v, nt_nextNonces n !! (et_from tx, c) = Some v -> v <= et_nonce tx)
    (fun _ n' => grows_nonces n n') n.
Proof using.
  intros Hc. unfold buildEvmTransaction. apply nwp_bind, nwp_ask; [|intros; by apply grows_same]. intros c' Ec. rewrite Hc in Ec. injection Ec as <-.
  apply nwp_bind, nwp_ask; [|intros; by apply grows_same]. intros count _. apply nwp_bind. unfold nwp at 1, getNext. cbn [nt_nextNonces asked].
  destruct (Z.ltb_spec (et_nonce tx) (Z.max count (default 0 (nt_nextNonces n !! (et_from tx, c))))) as [|Hnonce]; [apply nwp_throw; by apply grows_same|].
  apply nwp_bind, nwp_ofO; [|intros; by apply grows_same]. intros value _. apply nwp_bind, nwp_try, nwp_ask; [|intros; apply nwp_throw; by apply grows_same].
  intros _ _. apply nwp_bind. unfold nwp at 1, getNext. cbn [nt_nextNonces asked]. apply nwp_bind. unfold nwp at 1, setNext. cbn [nt_nextNonces asked nt_time nt_log].
  set (next := Z.max (default 0 (nt_nextNonces n !! (et_from tx, c))) (et_nonce tx + 1)).
  assert (forall n', nt_nextNonces n' = <[(et_from tx, c) := next]> (nt_nextNonces n) -> grows_nonces n n') as Hg.
  { intros n' En k v Hk. rewrite En. destruct (decide (k = (et_from tx, c))) as [->|Hne]; [|exists v; by rewrite lookup_insert_ne].
    exists next. rewrite lookup_insert_eq. split; [done|]. unfold next. rewrite Hk. cbn. lia. }
  apply nwp_bind, nwp_ofO; [|intros; by apply Hg]. intros payload _. apply nwp_ret. split_and!; [by apply Hg| |].
  - exists next. cbn [nt_nextNonces]. rewrite lookup_insert_eq. split; [done|]. unfold next. lia.
  - intros v Hv. rewrite Hv in Hnonce. cbn in Hnonce. lia.
Qed.

Context (buildOther : Transaction -> N (list jsstring)) (encodeSignatureCall : jsstring -> jsstring -> bool -> jsstring).
Context (other_keeps : forall tx n, nt_nextNonces (buildOther tx n).2 = nt_nextNonces n).
Context (chain : jsstring -> Z) (chain_stable : forall t rpc, getChainId t rpc = Returned (chain rpc)).

Lemma hashes_nonces tx n : nwp (hashes_to_sign buildOther tx)
  (fun _ n' => grows_nonces n n' /\ match tx with
     | EvmTransaction t => (exists v, nt_nextNonces n' !! (et_from t, chain (et_rpc t)) = Some v /\ et_nonce t < v) /\
                           forall v, nt_nextNonces n !! (et_from t, chain (et_rpc t)) = Some v -> v <= et_nonce t
     | _ => True end) (fun _ n' => grows_nonces n n') n.
Proof using chain_stable other_keeps.
  unfold hashes_to_sign. destruct tx as [t|t|t|t].
  - apply nwp_bind. eapply nwp_conseq; [by apply (build_nonces t n (chain (et_rpc t)))| |done]. intros built n' (H1 & H2 & H3). apply nwp_ret. done.
  - pose proof (other_keeps (BitcoinTransaction t) n) as E. unfold nwp. destruct (buildOther _ n) as [[a|e] n']; [split; [|done]|]; by apply grows_same.
  - pose proof (other_keeps (SolanaTransaction t) n) as E. unfold nwp. destruct (buildOther _ n) as [[a|e] n']; [split; [|done]|]; by apply grows_same.
  - pose proof (other_keeps (TronTransaction t) n) as E. unfold nwp. destruct (buildOther _ n) as [[a|e] n']; [split; [|done]|]; by apply grows_same.
Qed.
(** A transaction of the bundle is above the next nonce of its sender. *)
Definition above (n : Net) (tx : Transaction) : Prop :=
  match tx with
  | EvmTransaction t => forall v, nt_nextNonces n !! (et_from t, chain (et_rpc t)) = Some v -> v <= et_nonce t
  | _ => True
  end.
Definition same_account (t1 t2 : EthereumTx) : Prop := et_from t1 = et_from t2 /\ chain (et_rpc t1) = chain (et_rpc t2).
Definition in_order (t1 t2 : Transaction) : Prop :=
  match t1, t2 with EvmTransaction a, EvmTransaction b => same_account a b -> et_nonce a < et_nonce b | _, _ => True end.
Lemma above_grows n n' tx : grows_nonces n n' -> above n' tx -> above n tx.
Proof using. intros Hg. destruct tx; cbn; try done. intros Ha v Hv. apply Hg in Hv as (v' & Hv' & ?). apply Ha in Hv'. lia. Qed.
Lemma bundle_ordered transactions : forall n, nwp (createTransactionBundle buildOther encodeSignatureCall transactions)
  (fun _ n' => Forall (above n) transactions /\ StronglySorted in_order transactions) (fun _ _ => True) n.
Proof using chain_stable other_keeps.
  induction transactions as [|tx rest IH]; intros n; cbn [createTransactionBundle]; [apply nwp_ret; split; constructor|].
  apply nwp_bind. eapply nwp_conseq; [apply hashes_nonces| |done]. intros hashes n1 [Hg Htx]. apply nwp_bind.
  eapply nwp_conseq; [apply IH| |done]. intros others n2 [Ha Hs]. apply nwp_ret. split.
  - constructor; [destruct tx; try done; exact (proj2 Htx)|]. eapply Forall_impl; [exact Ha|]. intros x. by apply above_grows.
  - constructor; [done|]. eapply Forall_impl; [exact Ha|]. intros x Hx. destruct tx as [t| | |], x as [u| | |]; cbn in *; try done.
    intros [Ef Ec]. destruct Htx as [(v & Hv & ?) _]. rewrite Ef, Ec in Hv. apply Hx in Hv. lia.
Qed.
End Nonces.

(** ** Theorems *)

Definition is_send (x : Effect) : nat := match x with SentRaw _ _ => 1 | _ => 0 end.
Lemma extends_both P w1 w2 k1 k2 n n' : extends P w1 k1 n n' -> extends P w2 k2 n n' ->
  exists l, nt_log n' = nt_log n ++ l /\ Forall P l /\ (weight w1 l <= k1)%nat /\ (weight w2 l <= k2)%nat.
Proof. intros (l & E & H & W1) (l' & E' & _ & W2). rewrite E in E'. apply app_inv_head in E' as <-. by exists l. Qed.

(** C22: Executing an EVM transaction of a manifest only ever broadcasts that
    transaction (its sender, target, payload, value and nonce) on its own RPC
    with a signature that recovers to its sender, at most twelve times; it
    sends at most two payments, to the sender on its chain or as bridge
    deposits; and when it returns, the nonce was already spent or a receipt of
    a broadcast transaction was seen with success. *)
Theorem execution_is_safe `{C : Chains, V : Viem} settings tx n :
  exists l, nt_log (executeEvmTransaction settings tx n).2 = nt_log n ++ l /\ Forall (allowed tx) l /\
    (weight is_send l <= 12)%nat /\ (weight is_payment l <= 2)%nat /\
    ((executeEvmTransaction settings tx n).1 = Returned tt -> settled tx).
Proof.
  pose proof (execute_emits settings tx is_send 1 0 (fun _ _ => le_n 1) (fun _ => eq_refl) (fun _ _ => eq_refl) (fun _ _ _ => le_n 0) (fun _ _ _ _ => le_n 0) n) as H1.
  pose proof (execute_emits settings tx is_payment 0 1 (fun _ _ => le_n 0) (fun _ => eq_refl) (fun _ _ => eq_refl) (fun _ _ _ => le_n 1) (fun _ _ _ _ => le_n 1) n) as H2.
  unfold nwp in H1, H2. destruct (executeEvmTransaction settings tx n) as [[[]|e] n']; cbn [fst snd].
  - destruct H1 as [H1 Hs], H2 as [H2 _]. destruct (extends_both _ _ _ _ _ _ _ H1 H2) as (l & ? & ? & ? & ?). by exists l.
  - destruct (extends_both _ _ _ _ _ _ _ H1 H2) as (l & ? & ? & ? & ?). by exists l.
Qed.

Lemma trace_length `{C : Chains, V : Viem} settings executeOther broken transactions n vs n' :
  run_trace settings executeOther broken transactions n vs n' -> length vs = length transactions.
Proof. induction 1; cbn; congruence. Qed.

(** The run over a manifest ends with a verdict for every transaction and
    reports exactly those that were not executed; after a failure no later
    transaction of the same sender and RPC is executed, and a transaction is
    only skipped for such a failure. *)
Theorem run_respects_lanes `{C : Chains, V : Viem} settings executeOther transactions n :
  exists vs p n', run_from settings executeOther {| pr_failures := []; pr_brokenLanes := [] |} 0 transactions n = (Returned p, n') /\
    run_trace settings executeOther [] transactions n vs n' /\ length vs = length transactions /\ (pr_failures p).*1 = unexecuted 0 vs /\
    (forall j k tj tk vj vk lane, (j < k)%nat -> transactions !! j = Some tj -> transactions !! k = Some tk -> vs !! j = Some vj -> vs !! k = Some vk ->
       laneOf tj = Some lane -> laneOf tk = Some lane -> vj <> Done -> vk = SkippedLane) /\
    (forall k tx, transactions !! k = Some tx -> vs !! k = Some SkippedLane ->
       exists lane j tj e, laneOf tx = Some lane /\ (j < k)%nat /\ transactions !! j = Some tj /\ laneOf tj = Some lane /\ vs !! j = Some (Failed e)).
Proof.
  destruct (run_has_trace settings executeOther transactions {| pr_failures := []; pr_brokenLanes := [] |} 0 n) as (vs & p & n' & Er & Ht & Ef).
  exists vs, p, n'. split_and!; [done|done|by eapply trace_length|done|by eapply lane_discipline|]. intros k tx Hk Hv.
  destruct (skips_justified _ _ _ _ _ _ _ Ht k tx Hk Hv) as (lane & El & [Hb|(j & tj & e & H)]); [by apply not_elem_of_nil in Hb|]. by exists lane, j, tj, e.
Qed.

(** In a bundle that is built, the transactions of a sender on a chain have
    increasing nonces, so no nonce is claimed twice; RPCs are assumed to answer
    with one chain id, and the builders of other families to leave the nonces
    alone. *)
Theorem bundle_nonces_increase `{C : Chains, V : Viem} buildOther encodeSignatureCall chain transactions bundle n n' :
  (forall tx n, nt_nextNonces (buildOther tx n).2 = nt_nextNonces n) -> (forall t rpc, getChainId t rpc = Returned (chain rpc)) ->
  createTransactionBundle buildOther encodeSignatureCall transactions n = (Returned bundle, n') ->
  StronglySorted (in_order chain) transactions.
Proof.
  intros Ho Hc Hb. pose proof (bundle_ordered buildOther encodeSignatureCall Ho chain Hc transactions n) as H. unfold nwp in H. rewrite Hb in H. apply H.
Qed.

(** ** A concrete chain *)

Module ToyChain.
Definition chains : Chains := {|
  getChainId := fun _ _ => Returned 10; getTransactionCount := fun _ _ _ => Returned 3; getBalance := fun _ _ _ => Returned 1000000;
  getGasPrice := fun _ _ => Returned 1; estimateGas := fun _ _ _ => Returned tt; sendRawTransaction := fun _ _ _ => Returned tt;
  getTransaction := fun _ _ _ => Returned tt; waitForTransactionReceipt := fun _ _ hash => Returned {| rc_hash := hash; rc_success := true |};
  getFeeHistory := fun _ _ => Returned [2; 1]; getBlockBaseFee := fun _ _ => Returned None; simulate_call := fun _ _ _ _ _ => Returned tt;
  sendTransaction := fun _ _ _ _ _ => Returned (js "0x0f"); signer_signatures := fun _ _ _ _ => Returned (js "0x0a");
  signer_approved := fun _ _ _ _ => Returned true; signer_sign := fun _ _ _ _ => Returned (js "0x0b"); wNEAR_allowance := fun _ _ _ => Returned 5;
  wNEAR_approve := fun _ _ _ => Returned (js "0x0c"); relay_quote := fun _ _ _ _ _ => Returned NoItem; relay_status := fun _ _ => Returned None |}.
Definition viem : Viem := {|
  keccak256 := fun s => js "0x" ++ s; serialize := fun _ signature => Returned (match signature with Some s => s | None => js "0x02" end);
  parseTransaction := fun _ => Returned {| pd_maxFeePerGas := Some 5; pd_gasPrice := None; pd_nonce := Some 3 |};
  recoverAddress := fun _ _ => Returned (js "0xAA"); recoverSender := fun _ => Returned (js "0xaa"); parseEther := fun _ => Returned 0; formatEther := toString10;
  near_json := fun _ => Returned (JObj [(js "big_r", JObj [(js "affine_point", JStr (js "02ab"))]); (js "s", JObj [(js "scalar", JStr (js "cd"))]);
    (js "recovery_id", JNum 1)]) |}.
Definition tx (nonce : Z) : EthereumTx := {|
  et_amount := js "0"; et_calldata := js "0x"; et_from := js "0xaa"; et_gas := js "21000"; et_gasPrice := None; et_maxFeePerGas := Some (js "5");
  et_maxPriorityFeePerGas := None; et_nonce := nonce; et_rpc := js "http://a"; et_to := js "0xbb" |}.
Definition net : Net := {| nt_time := 0%nat; nt_log := []; nt_nextNonces := ∅ |}.
Definition settings : Settings := {|
  se_forceBroadcast := false; se_deployer := None; se_source := fun _ => None; se_signer := js "0x5e"; se_signerRpc := js "http://s";
  se_signerChainId := 1313161554; se_wNEAR := Some (js "0xc4"); se_signaturePolls := 3 |}.
#[export] Existing Instances chains viem.
(** The transaction is signed, sent once and confirmed. *)
Example executes : (executeEvmTransaction settings (tx 3) net).1 = Returned tt /\
  nt_log (executeEvmTransaction settings (tx 3) net).2 = [SentRaw (js "http://a") (js "0xabcd1c")].
Proof. split; vm_compute; reflexivity. Qed.
Definition no_other (_ : Transaction) : N (list jsstring) := mret [].
Definition plain_call (hash curve : jsstring) (raw : bool) : jsstring := hash.
End ToyChain.
Import ToyChain.
Definition toy_bundle : list Transaction := [EvmTransaction (ToyChain.tx 3); EvmTransaction (ToyChain.tx 5)].
Lemma toy_bundle_built : createTransactionBundle no_other plain_call toy_bundle net =
  (Returned [js "0x0x02"; js "0x0x02"], (createTransactionBundle no_other plain_call toy_bundle net).2).
Proof. vm_compute. reflexivity. Qed.
Lemma bundle_nonces_witness : StronglySorted (in_order (fun _ => 10)) toy_bundle.
Proof.
  exact (bundle_nonces_increase no_other plain_call (fun _ => 10) _ _ net _ (fun _ _ => eq_refl) (fun _ _ => eq_refl) toy_bundle_built).
Defined.
