(* ===== verification/MultisigNonces.v ===== *)
(** * Manifests that claim the same nonces

    packages/multisig-tools/src/helpers/nonceConflicts.ts.  The directory of
    the manifest is an argument: the names of its files and their texts. *)

From stdpp Require Import sorting.
From S2P Require Import Prelude JsNum JsString JsNumber JsJson Scanner IndexerTransfers IndexerRoles IndexerLanes IndexerQueries DepositoryAudit MultisigManifest HexBytes IndexerPaging IndexerBatches IndexerAuditProofs MultisigProofs.
Local Open Scope Z_scope.
Local Open Scope js_scope.

Record NonceConflict := { nc_from : jsstring; nc_manifest : jsstring; nc_nonce : Z; nc_rpc : jsstring }.

Definition ends_with (s suffix : jsstring) : bool := startsWith (reverse s) (reverse suffix).
Definition path_order (p q : jsstring * jsstring) : Prop := text_leb p.1 q.1 = true.
#[export] Instance path_order_dec p q : Decision (path_order p q).
Proof. unfold path_order. apply _. Defined.

Section Conflicts.
Context `{A : AddressParsers, C : Chains}.

(** [chainIdCache]: the chain of an RPC, [None] when it could not be asked. *)
Definition ChainIds : Type := list (jsstring * option Z).
Definition chainIdOf (rpc : jsstring) (cache : ChainIds) : N (option Z * ChainIds) :=
  match map_get rpc cache with
  | Some chain => mret (chain, cache)
  | None =>
      chain ← tryN (c ← ask (fun t => getChainId t rpc); mret (Some c)) (fun _ => mret None);
      mret (chain, map_set rpc chain cache)
  end.
Definition sameChain (a b : jsstring) (cache : ChainIds) : N (bool * ChainIds) :=
  if bool_decide (a = b) then mret (true, cache)
  else
    '(chainA, cache) ← chainIdOf a cache;
    '(chainB, cache) ← chainIdOf b cache;
    mret (match chainA with Some c => bool_decide (chainB = Some c) | None => false end, cache).

Definition slotKey (from : jsstring) (nonce : Z) : jsstring := toLowerCase from ++ js ":" ++ toString10 nonce.
Definition readEvmTransactions (text : jsstring) : list EthereumTx :=
  match JSON_parse text with
  | Err _ => []
  | Ok data => match TransactionsSchema data with
               | None => []
               | Some transactions => omap (fun tx => match tx with EvmTransaction t => Some t | _ => None end) transactions
               end
  end.
Definition siblingManifests (own : jsstring) (directory : list (jsstring * jsstring)) : list (jsstring * jsstring) :=
  merge_sort path_order (List.filter (fun p => ends_with p.1 (js ".json") && negb (bool_decide (p.1 = own))) directory).

(** [currentNonces], one probe for each RPC and sender. *)
Definition nonce_key (tx : EthereumTx) : jsstring := et_rpc tx ++ js ":" ++ toLowerCase (et_from tx).
Fixpoint read_nonces (transactions : list EthereumTx) (current : list (jsstring * option Z)) : N (list (jsstring * option Z)) :=
  match transactions with
  | [] => mret current
  | tx :: rest =>
      match map_get (nonce_key tx) current with
      | Some _ => read_nonces rest current
      | None =>
          count ← tryN (c ← ask (fun t => getTransactionCount t (et_rpc tx) (et_from tx)); mret (Some c)) (fun _ => mret None);
          read_nonces rest (map_set (nonce_key tx) count current)
      end
  end.
Definition is_open (current : list (jsstring * option Z)) (tx : EthereumTx) : bool :=
  match map_get (nonce_key tx) current with Some (Some count) => count <=? et_nonce tx | _ => false end.
Definition openSlots (current : list (jsstring * option Z)) (transactions : list EthereumTx) : list (jsstring * EthereumTx) :=
  foldl (fun slots tx => if is_open current tx then map_set (slotKey (et_from tx) (et_nonce tx)) tx slots else slots) [] transactions.

Fixpoint manifest_conflicts (slots : list (jsstring * EthereumTx)) (manifest : jsstring) (transactions : list EthereumTx) (cache : ChainIds)
  : N (list NonceConflict * ChainIds) :=
  match transactions with
  | [] => mret ([], cache)
  | tx :: rest =>
      match map_get (slotKey (et_from tx) (et_nonce tx)) slots with
      | None => manifest_conflicts slots manifest rest cache
      | Some own =>
          '(same, cache) ← sameChain (et_rpc own) (et_rpc tx) cache;
          '(others, cache) ← manifest_conflicts slots manifest rest cache;
          mret (if same : bool then {| nc_from := et_from tx; nc_manifest := manifest; nc_nonce := et_nonce tx; nc_rpc := et_rpc tx |} :: others
                else others, cache)
      end
  end.
Fixpoint sibling_conflicts (slots : list (jsstring * EthereumTx)) (siblings : list (jsstring * jsstring)) (cache : ChainIds)
  : N (list NonceConflict * ChainIds) :=
  match siblings with
  | [] => mret ([], cache)
  | (name, text) :: rest =>
      '(here, cache) ← manifest_conflicts slots name (readEvmTransactions text) cache;
      '(others, cache) ← sibling_conflicts slots rest cache;
      mret (here ++ others, cache)
  end.
Definition findNonceConflicts (own : jsstring) (text : jsstring) (directory : list (jsstring * jsstring)) (cache : ChainIds)
  : N (list NonceConflict * ChainIds) :=
  let transactions := readEvmTransactions text in
  if Nat.eqb (length transactions) 0 then mret ([], cache)
  else
    current ← read_nonces transactions [];
    let slots := openSlots current transactions in
    if Nat.eqb (length slots) 0 then mret ([], cache)
    else sibling_conflicts slots (siblingManifests own directory) cache.
End Conflicts.

(** ** Which nonce conflicts are found

    Every conflict that is reported is one: a transaction of another manifest
    claims an open slot of this manifest on the same chain.  All are reported
    when the open slots of the manifest have different senders or nonces; two
    slots that differ only in their chain hide each other. *)

Local Open Scope Z_scope.
Local Open Scope js_scope.

(** ** Accepted transactions *)

Lemma z_text_ok ok v s : z_text ok v = Some s -> ok s = true.
Proof. destruct v; try done. cbn. destruct (ok s0) eqn:E; [|done]. intros [= <-]. done. Qed.
Lemma z_number_ok ok v n : z_number ok v = Some n -> ok n = true.
Proof. destruct v; try done. cbn. destruct (ok n0) eqn:E; [|done]. intros [= <-]. done. Qed.
Lemma z_optional_ok {X} (parse : Json -> option X) v x : z_optional parse v = Some (Some x) -> parse v = Some x.
Proof. destruct v; cbn; try done; intros H; apply bind_Some in H as (y & Hy & [= <-]); done. Qed.
#[local] Ltac opt_inv H := repeat (apply bind_Some in H as (? & ? & H)).

(** The fields of an accepted transaction. *)
Record well_formed `{A : AddressParsers} (tx : EthereumTx) : Prop := {
  wf_from : ethereum_address (et_from tx) = true; wf_to : ethereum_address (et_to tx) = true; wf_nonce : 0 <= et_nonce tx;
  wf_gas : integer_string (et_gas tx) = true; wf_calldata : hex_string (et_calldata tx) = true; wf_amount : decimal_string (et_amount tx) = true;
  wf_fees : forall fee, fee ∈ [et_gasPrice tx; et_maxFeePerGas tx; et_maxPriorityFeePerGas tx] -> forall s, fee = Some s -> integer_string s = true }.
Lemma accepted `{A : AddressParsers} f tx : EthereumTxSchema f = Some tx -> well_formed tx.
Proof.
  unfold EthereumTxSchema. intros H. opt_inv H. injection H as <-.
  repeat match goal with H : z_text _ _ = Some _ |- _ => apply z_text_ok in H | H : z_number _ _ = Some _ |- _ => apply z_number_ok in H end.
  split; cbn; try done; [by apply Z.leb_le|]. intros fee Hfee s ->.
  repeat (apply elem_of_cons in Hfee as [<-|Hfee]; [match goal with H : z_optional _ _ = Some (Some s) |- _ => apply z_optional_ok, z_text_ok in H; exact H end|]).
  by apply not_elem_of_nil in Hfee.
Qed.
Lemma read_well_formed `{A : AddressParsers} text tx : tx ∈ readEvmTransactions text -> well_formed tx.
Proof.
  unfold readEvmTransactions. destruct (JSON_parse text) as [data|]; [|set_solver]. destruct (TransactionsSchema data) as [l|] eqn:El; [|set_solver].
  intros H. apply list_elem_of_omap in H as (x & Hx & E). destruct x as [t| | |]; try done. injection E as ->.
  unfold TransactionsSchema, z_array in El. destruct data as [| | | | |items|]; try done. apply mapM_Some in El.
  apply list_elem_of_lookup_1 in Hx as [i Hi]. eapply Forall2_lookup_r in El as (v & Hv & E); [|exact Hi].
  destruct v; try done. cbn in E. unfold TransactionSchema in E. destruct (member _ _); try done.
  repeat case_bool_decide; try (apply fmap_Some in E as (y & Ey & E)); try done. injection E as <-. by eapply accepted.
Qed.
Lemma after_0x_inv ok s : after_0x ok s = true -> exists digits, s = 48 :: 120 :: digits /\ ok digits = true.
Proof. unfold after_0x. intros H. repeat case_match; try discriminate; subst; eexists; split; [reflexivity|exact H]. Qed.
Lemma address_no_colon `{A : AddressParsers} s : ethereum_address s = true -> 58 ∉ toLowerCase s.
Proof.
  unfold ethereum_address. intros H. apply andb_true_iff in H as [H _]. apply after_0x_inv in H as (digits & -> & H).
  apply andb_true_iff in H as [_ H]. intros Hin. unfold toLowerCase in Hin. apply list_elem_of_fmap in Hin as (c & Ec & Hc).
  do 2 (apply elem_of_cons in Hc as [->|Hc]; [done|]). rewrite forallb_forall in H. apply list_elem_of_In in Hc. apply H in Hc.
  unfold is_hex_digit, lower_char, in_range in *. destruct (_ && _) eqn:E1 in Ec; lia.
Qed.

(** ** Slots *)

Lemma slotKey_inj `{A : AddressParsers} t1 t2 : well_formed t1 -> well_formed t2 ->
  slotKey (et_from t1) (et_nonce t1) = slotKey (et_from t2) (et_nonce t2) -> toLowerCase (et_from t1) = toLowerCase (et_from t2) /\ et_nonce t1 = et_nonce t2.
Proof.
  intros H1 H2 E. unfold slotKey in E. apply (f_equal (split_text (js ":"))) in E.
  rewrite !split_pair in E by (apply toString10_no_colon || by apply address_no_colon, wf_from).
  injection E as E1 E2. split; [exact E1|]. by apply toString10_injective.
Qed.
Section Slots.
Context (current : list (jsstring * option Z)).
Abbreviation key tx := (slotKey (et_from tx) (et_nonce tx)).
Definition add_slot (slots : list (jsstring * EthereumTx)) (tx : EthereumTx) : list (jsstring * EthereumTx) :=
  if is_open current tx then map_set (key tx) tx slots else slots.

Lemma slots_from transactions : forall slots k tx, map_get k (foldl add_slot slots transactions) = Some tx ->
  map_get k slots = Some tx \/ (tx ∈ transactions /\ is_open current tx = true /\ key tx = k).
Proof using.
  induction transactions as [|t rest IH]; intros slots k tx H; [by left|]. cbn in H. apply IH in H as [H|(H1 & H2 & H3)]; [|right; split_and!; [by right|done..]].
  unfold add_slot in H. destruct (is_open current t) eqn:Eo; [|by left]. rewrite map_get_set in H. destruct (decide _) as [<-|]; [|by left].
  injection H as ->. right. split_and!; [left|done..].
Qed.
(** With one open transaction for a key, the slot is that transaction's. *)
Lemma slot_kept transactions tx : tx ∈ transactions -> is_open current tx = true ->
  (forall t, t ∈ transactions -> is_open current t = true -> key t = key tx -> t = tx) ->
  forall slots, map_get (key tx) (foldl add_slot slots transactions) = Some tx.
Proof using.
  intros Hin Ho Hu.
  assert (forall rest slots, (forall t, t ∈ rest -> is_open current t = true -> key t = key tx -> t = tx) -> map_get (key tx) slots = Some tx ->
    map_get (key tx) (foldl add_slot slots rest) = Some tx) as Hstay.
  { induction rest as [|t rest IH]; intros slots Hr H; [done|]. cbn. apply IH; [intros; apply Hr; [by right|done..]|].
    unfold add_slot. destruct (is_open current t) eqn:Et; [|done]. rewrite map_get_set. destruct (decide _) as [E|]; [|done].
    rewrite (Hr t); [done|left|done|done]. }
  revert Hin Hu. induction transactions as [|t rest IH]; intros Hin Hu slots; [by apply not_elem_of_nil in Hin|]. cbn.
  apply elem_of_cons in Hin as [<-|Hin].
  - apply Hstay; [intros; apply Hu; [by right|done..]|]. unfold add_slot. rewrite Ho, map_get_set. by rewrite decide_True.
  - apply IH; [done|]. intros; apply Hu; [by right|done..].
Qed.
End Slots.

(** ** The search *)

Section Search.
Context `{A : AddressParsers, C : Chains}.
(** RPCs that answer with one chain id, or never. *)
Context (chain : jsstring -> option Z).
Context (chain_stable : forall t rpc, match chain rpc with Some c => getChainId t rpc = Returned c | None => exists e, getChainId t rpc = Threw e end).

Definition cache_ok (cache : ChainIds) : Prop := forall rpc c, map_get rpc cache = Some c -> c = chain rpc.
(** The computation returns, with a result that satisfies [Q]. *)
Definition yields {X} (c : N X) (Q : X -> Prop) : Prop := forall n, nwp c (fun x _ => Q x) (fun _ _ => False) n.
Lemma yields_bind {X Y} (c : N X) (f : X -> N Y) P Q : yields c P -> (forall x, P x -> yields (f x) Q) -> yields (c ≫= f) Q.
Proof using. intros Hc Hf n. apply nwp_bind. eapply nwp_conseq; [apply Hc| |done]. intros x n' Hx. by apply Hf. Qed.
Lemma yields_conseq {X} (c : N X) (P Q : X -> Prop) : yields c P -> (forall x, P x -> Q x) -> yields c Q.
Proof using. intros Hc H n. eapply nwp_conseq; [apply Hc| |done]. intros x n' Hx. by apply H. Qed.
Lemma yields_ret {X} (x : X) (Q : X -> Prop) : Q x -> yields (mret x) Q.
Proof using. intros H n. by apply nwp_ret. Qed.
(** A call whose failure is read as [undefined]. *)
Lemma yields_optional {X} (f : nat -> outcome X) (Q : option X -> Prop) : (forall t x, f t = Returned x -> Q (Some x)) -> (forall t e, f t = Threw e -> Q None) ->
  yields (tryN (x ← ask f; mret (Some x)) (fun _ => mret None)) Q.
Proof using.
  intros H1 H2 n. apply nwp_try, nwp_bind, nwp_ask; [intros x E; apply nwp_ret; by eapply H1|intros e E; apply nwp_ret; by eapply H2].
Qed.
Lemma chain_read rpc cache : cache_ok cache -> yields (chainIdOf rpc cache) (fun r => r.1 = chain rpc /\ cache_ok r.2).
Proof using chain_stable.
  intros Hc. unfold chainIdOf. destruct (map_get rpc cache) as [c|] eqn:E; [apply yields_ret; split; [by apply Hc|done]|].
  apply (yields_bind _ _ (fun c => c = chain rpc)).
  - apply yields_optional; intros t x Ex; specialize (chain_stable t rpc); destruct (chain rpc) as [c|]; [congruence|by destruct chain_stable as [? ?]; congruence|congruence|done].
  - intros c ->. apply yields_ret. split; [done|]. intros r c' Hr. cbn in Hr. rewrite map_get_set in Hr. destruct (decide _) as [->|]; [congruence|by apply Hc].
Qed.
Definition on_same_chain (a b : jsstring) : Prop := a = b \/ exists c, chain a = Some c /\ chain b = Some c.
Lemma same_read a b cache : cache_ok cache -> yields (sameChain a b cache) (fun r => (r.1 = true <-> on_same_chain a b) /\ cache_ok r.2).
Proof using chain_stable.
  intros Hc. unfold sameChain. case_bool_decide as E; [apply yields_ret; split; [split; [by left|done]|done]|].
  eapply yields_bind; [by apply chain_read|]. intros [ca cache1] [Ea H1]. cbn in Ea, H1. eapply yields_bind; [by apply chain_read|]. intros [cb cache2] [Eb H2].
  cbn in Eb, H2. subst ca cb. apply yields_ret. split; [|done]. cbn. unfold on_same_chain. destruct (chain a) as [c|] eqn:Ea.
  - rewrite bool_decide_eq_true. split; [intros Hb; right; by exists c|intros [?|(c' & ? & ?)]; congruence].
  - split; [congruence|intros [?|(c' & ? & ?)]; congruence].
Qed.

(** The conflicts of a manifest with the open slots. *)
Definition conflict_of (manifest : jsstring) (tx : EthereumTx) : NonceConflict :=
  {| nc_from := et_from tx; nc_manifest := manifest; nc_nonce := et_nonce tx; nc_rpc := et_rpc tx |}.
Definition claims (slots : list (jsstring * EthereumTx)) (tx : EthereumTx) : Prop :=
  exists own, map_get (slotKey (et_from tx) (et_nonce tx)) slots = Some own /\ on_same_chain (et_rpc own) (et_rpc tx).
Lemma manifest_read slots manifest transactions : forall cache, cache_ok cache ->
  yields (manifest_conflicts slots manifest transactions cache)
    (fun r => cache_ok r.2 /\ forall c, c ∈ r.1 <-> exists tx, tx ∈ transactions /\ claims slots tx /\ c = conflict_of manifest tx).
Proof using chain_stable.
  induction transactions as [|tx rest IH]; intros cache Hc; cbn [manifest_conflicts]; [apply yields_ret; set_solver|].
  destruct (map_get (slotKey (et_from tx) (et_nonce tx)) slots) as [own|] eqn:Eo.
  - eapply yields_bind; [by apply same_read|]. intros [same cache1] [Hs H1]. cbn in Hs, H1. eapply yields_bind; [by apply IH|]. intros [others cache2] [H2 Ho].
    cbn in H2, Ho. apply yields_ret. split; [done|]. cbn. intros c.
    assert (claims slots tx <-> same = true) as Hclaim.
    { rewrite Hs. split; [intros (own' & E & H); congruence|intros H; by exists own]. }
    destruct same; rewrite ?elem_of_cons, Ho; split.
    + intros [->|(t & Ht & H & ->)]; [exists tx; split_and!; [left|by apply Hclaim|done]|exists t; split_and!; [by right|done..]].
    + intros (t & Ht & H & ->). apply elem_of_cons in Ht as [->|Ht]; [by left|right; by exists t].
    + intros (t & Ht & H & ->). exists t. split_and!; [by right|done..].
    + intros (t & Ht & H & ->). apply elem_of_cons in Ht as [->|Ht]; [by apply Hclaim in H|by exists t].
  - eapply yields_conseq; [by apply IH|]. intros [others cache2] [H2 Ho]. split; [done|]. cbn in *. intros c. rewrite Ho. split.
    + intros (t & Ht & H & ->). exists t. split_and!; [by right|done..].
    + intros (t & Ht & H & ->). apply elem_of_cons in Ht as [->|Ht]; [|by exists t]. destruct H as (own & E & _). congruence.
Qed.
Lemma siblings_read slots siblings : forall cache, cache_ok cache ->
  yields (sibling_conflicts slots siblings cache)
    (fun r => cache_ok r.2 /\ forall c, c ∈ r.1 <-> exists name text tx, (name, text) ∈ siblings /\ tx ∈ readEvmTransactions text /\ claims slots tx /\ c = conflict_of name tx).
Proof using chain_stable.
  induction siblings as [|[name text] rest IH]; intros cache Hc; cbn [sibling_conflicts].
  { apply yields_ret. split; [done|]. intros c. split; [by intros ?%not_elem_of_nil|intros (? & ? & ? & H & _); by apply not_elem_of_nil in H]. }
  eapply yields_bind; [by apply manifest_read|]. intros [here cache1] [H1 Hh]. cbn in H1, Hh. eapply yields_bind; [by apply IH|]. intros [others cache2] [H2 Ho].
  cbn in H2, Ho. apply yields_ret. split; [done|]. intros c. cbn. rewrite elem_of_app, Hh, Ho. split.
  - intros [(t & ? & ? & ->)|(nm & tt & t & ? & ? & ? & ->)]; [exists name, text, t; split_and!; [left|done..]|exists nm, tt, t; split_and!; [by right|done..]].
  - intros (nm & tt & t & Hin & ? & ? & ->). apply elem_of_cons in Hin as [[= -> ->]|Hin]; [left; by exists t|right; by exists nm, tt, t].
Qed.

(** Senders whose count every RPC answers once, or never. *)
Context (count : jsstring -> jsstring -> option Z).
Context (count_stable : forall t rpc from, match count rpc (toLowerCase from) with
  Some c => getTransactionCount t rpc from = Returned c | None => exists e, getTransactionCount t rpc from = Threw e end).
Definition count_of (tx : EthereumTx) : option Z := count (et_rpc tx) (toLowerCase (et_from tx)).
Lemma nonce_key_inj t1 t2 : well_formed t1 -> well_formed t2 -> nonce_key t1 = nonce_key t2 -> count_of t1 = count_of t2.
Proof using.
  intros H1 H2 E. unfold nonce_key in E. assert (forall t, well_formed t -> length (toLowerCase (et_from t)) = 42%nat) as Hlen.
  { intros t Ht. unfold toLowerCase. rewrite length_fmap. pose proof (wf_from t Ht) as Hf. unfold ethereum_address in Hf. apply andb_true_iff in Hf as [Hf _].
    apply after_0x_inv in Hf as (digits & -> & Hf). apply andb_true_iff in Hf as [Hf _]. apply Nat.eqb_eq in Hf. cbn. lia. }
  unfold count_of. apply app_inj_2 in E as [-> E]; [|by rewrite !length_app, !Hlen]. by injection E as ->.
Qed.
Definition counts_ok (transactions : list EthereumTx) (current : list (jsstring * option Z)) : Prop :=
  forall tx v, tx ∈ transactions -> map_get (nonce_key tx) current = Some v -> v = count_of tx.
Lemma nonces_read all : (forall tx, tx ∈ all -> well_formed tx) -> forall transactions current, (forall tx, tx ∈ transactions -> tx ∈ all) -> counts_ok all current ->
  yields (read_nonces transactions current)
    (fun r => counts_ok all r /\ (forall k v, map_get k current = Some v -> map_get k r = Some v) /\ forall tx, tx ∈ transactions -> map_get (nonce_key tx) r = Some (count_of tx)).
Proof using count_stable.
  clear chain_stable chain. intros Hwf. induction transactions as [|tx rest IH]; intros current Hin Hok; cbn [read_nonces]; [apply yields_ret; set_solver|].
  assert (tx ∈ all) as Htx by (apply Hin; left). assert (forall t, t ∈ rest -> t ∈ all) as Hrest by (intros; apply Hin; by right).
  destruct (map_get (nonce_key tx) current) as [v|] eqn:Ev.
  - eapply yields_conseq; [by apply IH|]. intros r (H1 & H2 & H3). split_and!; [done|done|]. intros t Ht. apply elem_of_cons in Ht as [->|Ht]; [|by apply H3].
    apply H2. rewrite Ev. f_equal. by apply (Hok tx).
  - apply (yields_bind _ _ (fun c => c = count_of tx)).
    { apply yields_optional; intros t x Ex; specialize (count_stable t (et_rpc tx) (et_from tx)); unfold count_of;
        destruct (count (et_rpc tx) (toLowerCase (et_from tx))) as [c|]; [congruence|by destruct count_stable as [? ?]; congruence|congruence|done]. }
    intros c ->. eapply yields_conseq; [apply IH; [done|]|].
    + intros t v Ht Hv. rewrite map_get_set in Hv. destruct (decide _) as [E|]; [|by apply Hok]. injection Hv as <-. by apply nonce_key_inj; auto.
    + intros r (H1 & H2 & H3). split_and!; [done| |].
      * intros k v Hk. apply H2. rewrite map_get_set. destruct (decide _) as [E|]; [|done]. subst. congruence.
      * intros t Ht. apply elem_of_cons in Ht as [->|Ht]; [|by apply H3]. apply H2. rewrite map_get_set. by rewrite decide_True.
Qed.

(** A slot of the manifest that is still up for grabs. *)
Definition open_slot (tx : EthereumTx) : Prop := exists c, count_of tx = Some c /\ c <= et_nonce tx.
Definition same_slot (t1 t2 : EthereumTx) : Prop := toLowerCase (et_from t1) = toLowerCase (et_from t2) /\ et_nonce t1 = et_nonce t2.
Lemma open_spec current tx : map_get (nonce_key tx) current = Some (count_of tx) -> is_open current tx = true <-> open_slot tx.
Proof using.
  intros E. unfold is_open, open_slot. rewrite E. destruct (count_of tx) as [c|]; [|split; [done|by intros (? & ? & _)]].
  rewrite Z.leb_le. split; [intros H; by exists c|intros (c' & [= <-] & H); done].
Qed.
Definition siblings_of (own : jsstring) (directory : list (jsstring * jsstring)) (p : jsstring * jsstring) : Prop :=
  p ∈ directory /\ ends_with p.1 (js ".json") = true /\ p.1 <> own.
Lemma siblings_spec own directory p : p ∈ siblingManifests own directory <-> siblings_of own directory p.
Proof using.
  unfold siblingManifests, siblings_of. rewrite (merge_sort_Permutation path_order), !list_elem_of_In, filter_In, andb_true_iff, negb_true_iff, bool_decide_eq_false. done.
Qed.
(** A conflict: a transaction of another manifest claims an open slot. *)
Definition conflicts_with (own text : jsstring) (directory : list (jsstring * jsstring)) (c : NonceConflict) : Prop :=
  exists name other tx mine, siblings_of own directory (name, other) /\ tx ∈ readEvmTransactions other /\ mine ∈ readEvmTransactions text /\
    open_slot mine /\ same_slot mine tx /\ on_same_chain (et_rpc mine) (et_rpc tx) /\ c = conflict_of name tx.
Definition distinct_slots (text : jsstring) : Prop :=
  forall t1 t2, t1 ∈ readEvmTransactions text -> t2 ∈ readEvmTransactions text -> open_slot t1 -> open_slot t2 -> same_slot t1 t2 -> t1 = t2.

Lemma claims_spec current text tx :
  (forall t, t ∈ readEvmTransactions text -> map_get (nonce_key t) current = Some (count_of t)) -> well_formed tx ->
  (claims (openSlots current (readEvmTransactions text)) tx ->
     exists mine, mine ∈ readEvmTransactions text /\ open_slot mine /\ same_slot mine tx /\ on_same_chain (et_rpc mine) (et_rpc tx)) /\
  (distinct_slots text -> (exists mine, mine ∈ readEvmTransactions text /\ open_slot mine /\ same_slot mine tx /\ on_same_chain (et_rpc mine) (et_rpc tx)) ->
     claims (openSlots current (readEvmTransactions text)) tx).
Proof using.
  intros Hcur Htx. split.
  - intros (own & E & Hs). apply (slots_from current) in E as [E|(Hin & Ho & Ek)]; [done|]. exists own. split_and!; [done| | |done].
    + by apply (open_spec current); [apply Hcur|].
    + by apply slotKey_inj; [by eapply read_well_formed| |].
  - intros Hd (mine & Hin & Ho & [Ef En] & Hs). exists mine. split; [|done]. unfold slotKey at 1. rewrite <- Ef, <- En. apply (slot_kept current); [done| |].
    + by apply (open_spec current); [apply Hcur|].
    + intros t Ht Hot Ek. apply Hd; [done|done| |done|]; [by apply (open_spec current); [apply Hcur|]|].
      by apply slotKey_inj; [by eapply read_well_formed..|].
Qed.
End Search.

(** ** Theorems *)

(** C26: With RPCs that answer consistently, [findNonceConflicts] always returns;
    each conflict it reports is a transaction of another manifest of the
    directory that claims an open slot of this one (same sender, nonce and
    chain); and it reports all of them when no two open slots of the manifest
    have the same sender and nonce. *)
Theorem conflicts_found `{A : AddressParsers, C : Chains} chain count own text directory n :
  (forall t rpc, match chain rpc with Some c => getChainId t rpc = Returned c | None => exists e, getChainId t rpc = Threw e end) ->
  (forall t rpc from, match count rpc (toLowerCase from) with
     Some c => getTransactionCount t rpc from = Returned c | None => exists e, getTransactionCount t rpc from = Threw e end) ->
  exists found cache n', findNonceConflicts own text directory [] n = (Returned (found, cache), n') /\
    (forall c, c ∈ found -> conflicts_with chain count own text directory c) /\
    (distinct_slots count text -> forall c, conflicts_with chain count own text directory c -> c ∈ found).
Proof.
  intros Hchain Hcount. set (mine := readEvmTransactions text).
  assert (yields (findNonceConflicts own text directory []) (fun r =>
    (forall c, c ∈ r.1 -> conflicts_with chain count own text directory c) /\
    (distinct_slots count text -> forall c, conflicts_with chain count own text directory c -> c ∈ r.1))) as H.
  { unfold findNonceConflicts. cbv zeta. fold mine. destruct (Nat.eqb_spec (length mine) 0) as [E0|_].
    { apply yields_ret. split; [by intros c ?%not_elem_of_nil|]. intros _ c (? & ? & ? & own' & _ & _ & Hin & _). fold mine in Hin.
      apply nil_length_inv in E0. rewrite E0 in Hin. by apply not_elem_of_nil in Hin. }
    eapply yields_bind; [apply (nonces_read count Hcount mine (fun tx => read_well_formed text tx) mine []); [done|intros ? ? _; done]|].
    intros current (_ & _ & Hcur). pose proof (fun tx => claims_spec chain count current text tx Hcur) as Hclaims.
    destruct (Nat.eqb_spec (length (openSlots current mine)) 0) as [E0|_].
    { apply nil_length_inv in E0. apply yields_ret. split; [by intros c ?%not_elem_of_nil|].
      intros Hd c (name & other & tx & m & _ & Htx & Hm & Ho & Hs & Hc & _). apply read_well_formed in Htx.
      destruct (proj2 (Hclaims tx Htx) Hd) as (o & E & _); [by exists m|]. fold mine in E. by rewrite E0 in E. }
    eapply yields_conseq; [apply (siblings_read chain Hchain); by intros ? ?|]. intros [found cache] [_ Hf]. cbn in Hf. split.
    - intros c Hc. apply Hf in Hc as (name & other & tx & Hn & Htx & Hcl & ->). pose proof (read_well_formed _ _ Htx) as Hwf.
      apply (proj1 (Hclaims tx Hwf)) in Hcl as (m & ? & ? & ? & ?). exists name, other, tx, m. split_and!; try done. by apply siblings_spec.
    - intros Hd c (name & other & tx & m & Hn & Htx & Hm & Ho & Hs & Hc & ->). apply Hf. exists name, other, tx. split_and!; [by apply siblings_spec|done| |done].
      apply (proj2 (Hclaims tx (read_well_formed _ _ Htx)) Hd). by exists m. }
  specialize (H n). unfold nwp in H. destruct (findNonceConflicts own text directory [] n) as [[[found cache]|e] n']; [|done]. by exists found, cache, n'.
Qed.

(** ** Two chains *)

Module TwoChains.
Definition parsers : AddressParsers := {|
  getAddress_accepts := fun _ => true; PublicKey_accepts := fun _ => true; tron_isAddress := fun _ => true; URL_accepts := fun _ => true |}.
(** The RPC [http://a] serves chain 1, every other one chain 2. *)
Definition chain (rpc : jsstring) : option Z := Some (if bool_decide (rpc = js "http://a") then 1 else 2).
Definition count (_ _ : jsstring) : option Z := Some 3.
Definition chains : Chains := {|
  getChainId := fun _ rpc => Returned (if bool_decide (rpc = js "http://a") then 1 else 2); getTransactionCount := fun _ _ _ => Returned 3;
  getBalance := @getBalance ToyChain.chains; getGasPrice := @getGasPrice ToyChain.chains; estimateGas := @estimateGas ToyChain.chains;
  sendRawTransaction := @sendRawTransaction ToyChain.chains; getTransaction := @getTransaction ToyChain.chains;
  waitForTransactionReceipt := @waitForTransactionReceipt ToyChain.chains; getFeeHistory := @getFeeHistory ToyChain.chains;
  getBlockBaseFee := @getBlockBaseFee ToyChain.chains; simulate_call := @simulate_call ToyChain.chains; sendTransaction := @sendTransaction ToyChain.chains;
  signer_signatures := @signer_signatures ToyChain.chains; signer_approved := @signer_approved ToyChain.chains; signer_sign := @signer_sign ToyChain.chains;
  wNEAR_allowance := @wNEAR_allowance ToyChain.chains; wNEAR_approve := @wNEAR_approve ToyChain.chains; relay_quote := @relay_quote ToyChain.chains;
  relay_status := @relay_status ToyChain.chains |}.
#[export] Existing Instances parsers chains.

Definition sender : jsstring := js "0x00000000000000000000000000000000000000aa".
Definition call (rpc : jsstring) : EthereumTx := {|
  et_amount := js "0"; et_calldata := js "0x"; et_from := sender; et_gas := js "21000"; et_gasPrice := None; et_maxFeePerGas := None;
  et_maxPriorityFeePerGas := None; et_nonce := 3; et_rpc := rpc; et_to := sender |}.
Definition call_json (rpc : jsstring) : Json := JObj [
  (js "family", JStr (js "ethereum-vm")); (js "amount", JStr (js "0")); (js "calldata", JStr (js "0x")); (js "from", JStr sender);
  (js "gas", JStr (js "21000")); (js "nonce", JNum 3); (js "rpc", JStr rpc); (js "to", JStr sender)].
Definition manifest (rpcs : list jsstring) : jsstring := JSON_stringify (JArr (call_json <$> rpcs)).
Definition own : jsstring := js "own.json".
Definition mine : jsstring := manifest [js "http://a"].
Definition both : jsstring := manifest [js "http://a"; js "http://b"].
Definition directory (text : jsstring) : list (jsstring * jsstring) := [(own, text); (js "other.json", manifest [js "http://a"]); (js "notes.txt", js "-")].
Definition other_claims : NonceConflict := conflict_of (js "other.json") (call (js "http://a")).
Definition result (text : jsstring) : list NonceConflict :=
  match (findNonceConflicts own text (directory text) [] ToyChain.net).1 with Returned (found, _) => found | Threw _ => [] end.

Lemma read_manifest rpcs : rpcs ∈ [[js "http://a"]; [js "http://a"; js "http://b"]] -> readEvmTransactions (manifest rpcs) = call <$> rpcs.
Proof. intros H. repeat (apply elem_of_cons in H as [->|H]; [vm_compute; reflexivity|]). by apply not_elem_of_nil in H. Qed.
Lemma claimed text rpcs : text = manifest rpcs -> rpcs ∈ [[js "http://a"]; [js "http://a"; js "http://b"]] ->
  conflicts_with chain count own text (directory text) other_claims.
Proof.
  intros -> Hr. exists (js "other.json"), (manifest [js "http://a"]), (call (js "http://a")), (call (js "http://a")).
  rewrite !read_manifest by (done || left). split_and!.
  - split_and!; [right; left|by vm_compute|by vm_compute].
  - left.
  - repeat (apply elem_of_cons in Hr as [->|Hr]; [left|]). by apply not_elem_of_nil in Hr.
  - by exists 3.
  - done.
  - by left.
  - done.
Qed.
Lemma one_slot : distinct_slots count mine.
Proof. intros t1 t2 H1 H2 _ _ _. unfold mine in H1, H2. rewrite read_manifest in H1, H2 by left. apply list_elem_of_singleton in H1, H2. congruence. Qed.
End TwoChains.
Import TwoChains.

(** The conflict with the other manifest of the directory is reported. *)
Lemma conflicts_witness : exists found cache n',
  findNonceConflicts own mine (directory mine) [] ToyChain.net = (Returned (found, cache), n') /\ other_claims ∈ found.
Proof.
  destruct (conflicts_found chain count own mine (directory mine) ToyChain.net) as (found & cache & n' & E & _ & Hall).
  - intros t rpc. reflexivity.
  - intros t rpc from. reflexivity.
  - exists found, cache, n'. split; [exact E|]. apply Hall; [exact one_slot|]. apply (claimed mine [js "http://a"]); [reflexivity|left].
Defined.

(** A manifest that uses one nonce of a sender on two chains: the slot of the
    second chain replaces the slot of the first, and a claim of another
    manifest on the first slot is not reported. *)
Theorem shadowed_slot_missed :
  conflicts_with chain count own both (directory both) other_claims /\ result both = [] /\ result mine = [other_claims].
Proof.
  split_and!; [apply (claimed both [js "http://a"; js "http://b"]); [reflexivity|right; left]|vm_compute; reflexivity..].
Qed.
