(* ===== verification/MultisigFamilies.v ===== *)
(** * Bitcoin, Solana and Tron transactions of a manifest

    One part per family, then the dispatch over them.  Bitcoin first.

    packages/multisig-tools/src: [buildBitcoinTransaction] of builders/utils.ts,
    crypto/bitcoin.ts and [executeBitcoinTransaction] of
    commands/execute-transactions.ts.  mempool.space, bitcoinjs-lib and the
    secp256k1 of noble are parameters. *)

From S2P Require Import Prelude JsNum JsString JsNumber JsJson Scanner HexBytes IndexerTransfers IndexerRoles IndexerLanes IndexerQueries SdkPayloads DepositBytes MultisigManifest MultisigRun.
Local Open Scope Z_scope.
Local Open Scope js_scope.

Inductive BtcNetwork := Mainnet | Testnet.
(** A [bitcoin.Transaction]: inputs with the script that unlocks them. *)
Record BtcIn := { bin_hash : bytes; bin_index : Z; bin_script : bytes; bin_sequence : Z }.
Record BtcOut := { bout_script : bytes; bout_value : Z }.
Record BtcTransaction := { btx_version : Z; btx_locktime : Z; btx_ins : list BtcIn; btx_outs : list BtcOut }.
Record MempoolOutput := { mo_value : Z; mo_scriptpubkey : jsstring }.

(** The API: the outputs of a transaction and how one was spent, [None] when the
    response is not ok; the text of the response to a broadcast, or its error. *)
Class Mempool := {
  mempool_tx : nat -> jsstring -> jsstring -> outcome (option (list MempoolOutput));
  mempool_outspend : nat -> jsstring -> jsstring -> Z -> outcome (option (bool * option jsstring));
  mempool_broadcast : nat -> jsstring -> jsstring -> outcome (jsstring + jsstring) }.
Class BitcoinJs := {
  toOutputScript : jsstring -> BtcNetwork -> outcome bytes;
  fromOutputScript : bytes -> BtcNetwork -> outcome jsstring;
  Satoshi_accepts : Z -> bool;
  hashForSignature : BtcTransaction -> nat -> bytes -> outcome bytes;
  btx_toHex : BtcTransaction -> jsstring;
  btx_fromHex : jsstring -> outcome unit;
  script_compile : list bytes -> bytes;
  p2pkh_address : BtcNetwork -> bytes -> outcome (option jsstring) }.
(** A signature is its 64 bytes; public keys are compressed. *)
Class Secp256k1 := {
  parseSignature : jsstring -> outcome (jsstring * jsstring * option Z);
  fromCompact : bytes -> outcome bytes;
  toDER : bytes -> bytes;
  recoverPublicKey : bytes -> Z -> bytes -> outcome bytes;
  secp_verify : bytes -> bytes -> bytes -> bool }.

Section Bitcoin.
Context `{C : Chains, V : Viem, M : Mempool, B : BitcoinJs, S2 : Secp256k1} (settings : Settings).

(** ** builders/utils.ts *)

Definition on_mainnet (tx : BitcoinTx) : bool := bool_decide (bt_network tx = Some (js "mainnet")).
Definition baseUrl (tx : BitcoinTx) : jsstring :=
  if on_mainnet tx then js "https://mempool.space/api" else js "https://mempool.space/testnet/api".
Definition network_of (tx : BitcoinTx) : BtcNetwork := if on_mainnet tx then Mainnet else Testnet.

Fixpoint any_spent (url : jsstring) (inputs : list BitcoinTxInput) : N bool :=
  match inputs with
  | [] => mret false
  | input :: rest =>
      spent ← ask (fun t => mempool_outspend t url (bi_txid input) (bi_vout input));
      match spent with
      | None => mret false
      | Some (true, _) => mret true
      | Some (false, _) => any_spent url rest
      end
  end.
Definition hasBitcoinTransactionBeenExecuted (tx : BitcoinTx) : N bool := any_spent (baseUrl tx) (bt_inputs tx).

Definition hex_text (s : jsstring) : bool := negb (Nat.eqb (length s) 0) && forallb is_hex_digit s.
Definition outpoint_text (input : BitcoinTxInput) : jsstring := bi_txid input ++ js ":" ++ toString10 (bi_vout input).
Fixpoint check_all {A} (ok : A -> bool) (message : A -> jsstring) (l : list A) : N unit :=
  match l with [] => mret tt | x :: rest => if ok x then check_all ok message rest else throwN (new_Error (message x)) end.

(** An input against the chain. *)
Definition check_input (url : jsstring) (input : BitcoinTxInput) : N unit :=
  outputs ← ask (fun t => mempool_tx t url (bi_txid input));
  match outputs with
  | None => throwN (new_Error (js "Transaction " ++ bi_txid input ++ js " not found"))
  | Some outputs =>
      if Z.of_nat (length outputs) <=? bi_vout input then
        throwN (new_Error (js "Output " ++ toString10 (bi_vout input) ++ js " does not exist in transaction " ++ bi_txid input))
      else match (if bi_vout input <? 0 then None else outputs !! Z.to_nat (bi_vout input)) with
      | None => throwN (new_Error (js "TypeError"))
      | Some output =>
          if negb (mo_value output =? bi_value input) then
            throwN (new_Error (js "Value mismatch for " ++ outpoint_text input ++ js " - expected " ++ toString10 (bi_value input) ++ js ", found " ++
              toString10 (mo_value output)))
          else if negb (bool_decide (mo_scriptpubkey output = bi_scriptPubKey input)) then
            throwN (new_Error (js "scriptPubKey mismatch for " ++ outpoint_text input ++ js " - expected " ++ bi_scriptPubKey input ++ js ", found " ++
              mo_scriptpubkey output))
          else
            spend ← ask (fun t => mempool_outspend t url (bi_txid input) (bi_vout input));
            match spend with
            | Some (true, by_tx) => throwN (new_Error (js "UTXO " ++ outpoint_text input ++ js " is already spent in transaction " ++
                                                       default (js "undefined") by_tx))
            | _ => mret tt
            end
      end
  end.
Fixpoint check_inputs (url : jsstring) (inputs : list BitcoinTxInput) : N unit :=
  match inputs with [] => mret tt | input :: rest => _ ← check_input url input; check_inputs url rest end.

(** A sum of numbers, rounded at each step. *)
Definition add_number (sum : jsnum) (value : Z) : jsnum := match sum with JInt s => round_double (s + value) 1 | _ => sum end.
Definition total (values : list Z) : jsnum := foldl add_number (JInt 0) values.
Definition sub_number (x y : jsnum) : jsnum :=
  match x, y with
  | JInt a, JInt b => round_double (a - b) 1
  | JInf s, JInf s' => if Bool.eqb s s' then JNaN else JInf s
  | JInf s, JInt _ => JInf s
  | JInt _, JInf s => JInf (negb s)
  | _, _ => JNaN
  end.
Definition is_negative (x : jsnum) : bool := match x with JInt a => a <? 0 | JInf s => s | _ => false end.
Definition fee_of (tx : BitcoinTx) : jsnum := sub_number (total (bi_value <$> bt_inputs tx)) (total (bo_value <$> bt_outputs tx)).

(** The payload: fields as hex texts, integers little-endian. *)
Record PayloadInput := { py_index : jsstring; py_script : jsstring; py_txid : jsstring; py_value : jsstring }.
Record PayloadOutput := { po_script : jsstring; po_value : jsstring }.
Record BitcoinTransactionPayload := { bp_fee : jsnum; bp_feeRate : Z; bp_inputs : list PayloadInput; bp_outputs : list PayloadOutput }.
Definition with_0x (l : bytes) : jsstring := js "0x" ++ HexBytes.bytesToHex l.
Definition le_bytes (len : nat) (value : Z) : bytes := fst (le_loop len value []).
Definition writeUInt32LE (value : Z) : outcome bytes :=
  if (0 <=? value) && (value <? 2 ^ 32) then Returned (le_bytes 4 value) else Threw (new_Error (js "RangeError")).
Definition writeBigUInt64LE (value : Z) : outcome bytes :=
  if (0 <=? value) && (value <? 2 ^ 64) then Returned (le_bytes 8 value) else Threw (new_Error (js "RangeError")).
#[local] Existing Instances outcome_ret outcome_bind.
Definition payload_input (input : BitcoinTxInput) : outcome PayloadInput :=
  index ← writeUInt32LE (bi_vout input);
  value ← writeBigUInt64LE (bi_value input);
  Returned {| py_index := with_0x index; py_script := js "0x" ++ bi_scriptPubKey input; py_txid := with_0x (reverse (SdkPayloads.buffer_hex (bi_txid input)));
              py_value := with_0x value |}.
Definition payload_output (network : BtcNetwork) (output : BitcoinTxOutput) : outcome PayloadOutput :=
  script ← match toOutputScript (bo_address output) network with
           | Returned script => Returned script
           | Threw _ => toOutputScript (bo_address output) (match network with Mainnet => Testnet | Testnet => Mainnet end)
           end;
  value ← writeBigUInt64LE (bo_value output);
  Returned {| po_script := with_0x script; po_value := with_0x value |}.
Fixpoint map_outcome {A A'} (f : A -> outcome A') (l : list A) : outcome (list A') :=
  match l with [] => Returned [] | x :: rest => y ← f x; ys ← map_outcome f rest; Returned (y :: ys) end.

(** ** crypto/bitcoin.ts *)

Definition addInput (input : PayloadInput) : BtcIn := {|
  bin_hash := SdkPayloads.buffer_hex (drop 2 (py_txid input)); bin_index := bytesToNumberLE (SdkPayloads.buffer_hex (drop 2 (py_index input)));
  bin_script := []; bin_sequence := 0xffffffff |}.
Definition addOutput (output : PayloadOutput) : outcome BtcOut :=
  let value := bytesToNumberLE (SdkPayloads.buffer_hex (drop 2 (po_value output))) in
  match Number_of_bigint value with
  | JInt value => if Satoshi_accepts value then Returned {| bout_script := SdkPayloads.buffer_hex (drop 2 (po_script output)); bout_value := value |}
                  else Threw (new_Error (js "Expected property 1 of type Satoshi"))
  | _ => Threw (new_Error (js "Expected property 1 of type Satoshi"))
  end.
Definition buildBitcoinTransactionFromPayload (transaction : BitcoinTransactionPayload) : outcome BtcTransaction :=
  outs ← map_outcome addOutput (bp_outputs transaction);
  Returned {| btx_version := 1; btx_locktime := 0; btx_ins := addInput <$> bp_inputs transaction; btx_outs := outs |}.

Record BitcoinBuilt := { bb_hashesToSign : list jsstring; bb_payload : jsstring; bb_transaction : BitcoinTransactionPayload }.
Definition sighashes (tx : BtcTransaction) (inputs : list BitcoinTxInput) : outcome (list jsstring) :=
  map_outcome (fun '(i, input) => h ← hashForSignature tx i (SdkPayloads.buffer_hex (bi_scriptPubKey input)); Returned (with_0x h)) (imap pair inputs).
Definition buildBitcoinTransaction (schema : BitcoinTx) : N BitcoinBuilt :=
  if Nat.eqb (length (bt_inputs schema)) 0 then throwN (new_Error (js "Transaction must have at least one input"))
  else if Nat.eqb (length (bt_outputs schema)) 0 then throwN (new_Error (js "Transaction must have at least one output"))
  else
    _ ← check_all (fun i => hex_text (bi_scriptPubKey i)) (fun i => js "Invalid scriptPubKey format for input " ++ outpoint_text i) (bt_inputs schema);
    _ ← check_all (fun i => Nat.eqb (length (bi_txid i)) 64 && forallb is_hex_digit (bi_txid i))
          (fun i => js "Invalid transaction ID format: " ++ bi_txid i) (bt_inputs schema);
    _ ← check_inputs (baseUrl schema) (bt_inputs schema);
    let fee := fee_of schema in
    if is_negative fee then throwN (new_Error (js "Insufficient funds: output value exceeds input value"))
    else
      _ ← check_all (fun o => match toOutputScript (bo_address o) (network_of schema) with Returned _ => true | Threw _ => false end)
            (fun o => js "Invalid Bitcoin address: " ++ bo_address o ++ js ". Are you sure this is the correct network?") (bt_outputs schema);
      inputs ← ofO (map_outcome payload_input (bt_inputs schema));
      outputs ← ofO (map_outcome (payload_output (network_of schema)) (bt_outputs schema));
      let transaction := {| bp_fee := fee; bp_feeRate := match bt_feeRate schema with Some r => if r =? 0 then 1 else r | None => 1 end;
                            bp_inputs := inputs; bp_outputs := outputs |} in
      tx ← ofO (buildBitcoinTransactionFromPayload transaction);
      hashes ← ofO (sighashes tx (bt_inputs schema));
      mret {| bb_hashesToSign := hashes; bb_payload := js "0x" ++ btx_toHex tx; bb_transaction := transaction |}.

(** ** Signing and sending *)

Definition HASH_TYPE_ALL : Byte.byte := Byte.x01.
(** The key that signed, by trying the four recovery bits. *)
Fixpoint try_bits (sig hash : bytes) (expected : option jsstring) (bits : list Z) (found : option bytes) : outcome (option bytes) :=
  match bits with
  | [] => Returned found
  | bit :: rest =>
      key ← recoverPublicKey sig bit hash;
      if secp_verify sig hash key then
        match expected with
        | Some address =>
            recovered ← p2pkh_address Testnet key;
            if bool_decide (recovered = Some address) then Returned (Some key) else try_bits sig hash expected rest found
        | None => try_bits sig hash expected rest (match found with Some _ => found | None => Some key end)
        end
      else try_bits sig hash expected rest found
  end.
(** [v >= 27 ? v - 27 : v], then modulo 2; an absent [v] is not a number. *)
Definition recovery_param (v : option Z) : outcome Z :=
  match v with
  | None => Threw (new_Error (js "recovery id invalid"))
  | Some v => let p := if 27 <=? v then v - 27 else v in Returned (if 2 <=? p then p mod 2 else p)
  end.
Definition signing_key (sig hash : bytes) (expected : option jsstring) (v : option Z) : outcome bytes :=
  found ← try_bits sig hash expected [0; 1; 2; 3] None;
  match found with
  | Some key => Returned key
  | None => bit ← recovery_param v; recoverPublicKey sig bit hash
  end.
(** One input: the signature in DER with the hash type, then the key. *)
Definition sign_input (input : PayloadInput) (hash : jsstring) (signature : jsstring * jsstring * option Z) (txin : BtcIn) : outcome BtcIn :=
  let '(r, s, v) := signature in
  sig ← fromCompact (set_at (set_at (zeros 64) 0 (SdkPayloads.buffer_hex r)) 32 (SdkPayloads.buffer_hex s));
  expected ← fromOutputScript (SdkPayloads.buffer_hex (drop 2 (py_script input))) Testnet;
  key ← signing_key sig (SdkPayloads.buffer_hex (drop 2 hash)) (Some expected) v;
  Returned {| bin_hash := bin_hash txin; bin_index := bin_index txin; bin_script := script_compile [toDER sig ++ [HASH_TYPE_ALL]; key];
              bin_sequence := bin_sequence txin |}.
Fixpoint sign_inputs (inputs : list PayloadInput) (hashes : list jsstring) (signatures : list (jsstring * jsstring * option Z)) (ins : list BtcIn)
  : outcome (list BtcIn) :=
  match inputs, hashes, signatures, ins with
  | input :: inputs, hash :: hashes, signature :: signatures, txin :: ins =>
      signed ← sign_input input hash signature txin;
      rest ← sign_inputs inputs hashes signatures ins;
      Returned (signed :: rest)
  | _, _, _, _ => Returned ins
  end.
Definition addSignedInputsToTransaction (tx : BtcTransaction) (hashes : list jsstring) (signatures : list (jsstring * jsstring * option Z))
  (transaction : BitcoinTransactionPayload) : outcome BtcTransaction :=
  ins ← sign_inputs (bp_inputs transaction) hashes signatures (btx_ins tx);
  Returned {| btx_version := btx_version tx; btx_locktime := btx_locktime tx; btx_ins := ins; btx_outs := btx_outs tx |}.

Definition BROADCAST_URL : jsstring := js "https://mempool.space/testnet/api/tx".
Definition broadcastTx (txHex : jsstring) : N jsstring :=
  response ← perform (SentBitcoin BROADCAST_URL txHex) (fun t => mempool_broadcast t BROADCAST_URL txHex);
  match response with
  | inr txid => mret txid
  | inl error => throwN (new_Error (js "Failed to broadcast: " ++ error))
  end.
Definition broadcastTransaction (tx : BtcTransaction) : N jsstring :=
  let txHex := btx_toHex tx in
  match btx_fromHex txHex with
  | Threw e => throwN (new_Error (js "Invalid transaction: " ++ er_message e))
  | Returned _ =>
      tryN (broadcastTx txHex)
        (fun e => if includes (er_message e) (js "mandatory-script-verify-flag-failed") then
                    throwN (new_Error (js "Script verification failed - signature/public key mismatch"))
                  else throwN e)
  end.

(** ** commands/execute-transactions.ts *)

Fixpoint sign_hashes (hashes : list jsstring) : N (list (jsstring * jsstring * option Z)) :=
  match hashes with
  | [] => mret []
  | hash :: rest =>
      hexSignature ← getSignatureForHash settings hash (js "Ecdsa") false;
      '(r, s, v) ← ofO (parseSignature hexSignature);
      others ← sign_hashes rest;
      mret ((drop 2 r, drop 2 s, v) :: others)
  end.
Definition executeBitcoinTransaction (tx : BitcoinTx) : N unit :=
  alreadyExecuted ← hasBitcoinTransactionBeenExecuted tx;
  if alreadyExecuted : bool then mret tt
  else
    result ← buildBitcoinTransaction tx;
    signedHashes ← sign_hashes (bb_hashesToSign result);
    builtTx ← ofO (buildBitcoinTransactionFromPayload (bb_transaction result));
    signed ← ofO (addSignedInputsToTransaction builtTx (bb_hashesToSign result) signedHashes (bb_transaction result));
    _ ← broadcastTransaction signed;
    mret tt.
End Bitcoin.

(** ** Solana transactions of a manifest

    packages/multisig-tools/src: [buildSolanaTransaction] of builders/utils.ts,
    [derivePublicKey] of crypto/near.ts and [executeSolanaTransaction] of
    commands/execute-transactions.ts.  web3.js, the NEAR RPC and the nodes are
    parameters; a Solana message is kept as the instructions, payer,
    blockhash and lookup tables it is compiled from. *)

Local Open Scope Z_scope.
Local Open Scope js_scope.

(** ** Solana *)

Inductive SolanaStep :=
  | NonceAdvance (account authority : jsstring)
  | SetComputeUnitLimit (units : jsnum)
  | SetComputeUnitPrice (microLamports : jsnum)
  | Instruction (programId : jsstring) (keys : list SolanaKey) (data : bytes).
Record SolanaMessage := { sm_instructions : list SolanaStep; sm_payer : jsstring; sm_blockhash : jsstring; sm_tables : list jsstring }.
Record NonceData := { nd_authority : jsstring; nd_nonce : jsstring }.
(** A transaction with the signatures added to it, newest last. *)
Record SignedSolana := { ss_message : SolanaMessage; ss_signatures : list (jsstring * bytes) }.

Class SolanaWeb3 := {
  (** Whether a lookup table exists. *)
  getAddressLookupTable : nat -> jsstring -> jsstring -> outcome bool;
  (** The account's data as [NonceAccount.fromAccountData] reads it. *)
  getNonceAccount : nat -> jsstring -> jsstring -> outcome (option NonceData);
  compileToV0Message : SolanaMessage -> outcome bytes;
  simulateTransaction : nat -> jsstring -> bytes -> outcome bool;
  (** Whether [addSignature] and [sign] take a signature of that key. *)
  takes_signature : SolanaMessage -> jsstring -> bytes -> bool;
  serializeSigned : SignedSolana -> outcome bytes;
  sendSolana : nat -> jsstring -> bytes -> outcome unit;
  confirmTransaction : nat -> jsstring -> jsstring -> outcome unit;
  bs58_encode : bytes -> jsstring;
  (** The address of the key that [derived_public_key] returns. *)
  near_public_key : jsstring -> outcome jsstring;
  (** The nonce authority's key pair: its address, and its signature. *)
  keypair_of : jsstring -> outcome jsstring;
  keypair_sign : jsstring -> SolanaMessage -> bytes;
  nearSigner : nat -> jsstring -> outcome jsstring;
  derived_public_key : nat -> jsstring -> jsstring -> jsstring -> jsstring -> Z -> outcome Json }.

#[local] Existing Instances outcome_ret outcome_bind.
Section Solana.
Context `{C : Chains, V : Viem, W : SolanaWeb3} (settings : Settings).
(** [networks\[chainId\].near?.rpc], and the nonce authority's private key. *)
Context (nearRpc : Z -> option jsstring) (nonceAuthorityKey : option jsstring).

Fixpoint lookup_tables (rpc : jsstring) (addresses : list jsstring) : N (list jsstring) :=
  match addresses with
  | [] => mret []
  | address :: rest =>
      found ← ask (fun t => getAddressLookupTable t rpc address);
      if found : bool then others ← lookup_tables rpc rest; mret (address :: others)
      else throwN (new_Error (js "Address lookup table not found: " ++ address))
  end.
(** [parseInt] of a text of digits. *)
Definition parse_units (s : jsstring) : jsnum := Number_of_bigint (digits_value s).
Definition durable_nonce (tx : SolanaTx) : N (jsstring * (jsstring * jsstring)) :=
  match truthy (st_nonceAccount tx), truthy (st_nonceAccountAuth tx) with
  | Some account, Some authority =>
      info ← ask (fun t => getNonceAccount t (st_rpc tx) account);
      match info with
      | None => throwN (new_Error (js "Nonce account not found: " ++ account))
      | Some data =>
          if bool_decide (nd_authority data = authority) then mret (nd_nonce data, (account, authority))
          else throwN (new_Error (js "Nonce authority mismatch. Account authority: " ++ nd_authority data ++ js ", Expected: " ++ authority))
      end
  | _, _ => throwN (new_Error (cross (js "Durable nonce is required for Solana transactions. Please provide nonceAccount and nonceAccountAuth fields.")))
  end.
Definition solana_steps (tx : SolanaTx) (account authority : jsstring) : list SolanaStep :=
  [NonceAdvance account authority] ++
  match truthy (st_computeUnitLimit tx) with Some u => [SetComputeUnitLimit (parse_units u)] | None => [] end ++
  match truthy (st_computeUnitPrice tx) with Some p => [SetComputeUnitPrice (parse_units p)] | None => [] end ++
  ((fun i => Instruction (sn_programId i) (sn_keys i) (SdkPayloads.buffer_hex (sn_data i))) <$> st_instructions tx).
(** The message and its serialization, which is what is signed.  A failed
    simulation is only reported. *)
Definition buildSolanaTransaction (tx : SolanaTx) : N (SolanaMessage * jsstring) :=
  tables ← match st_lookupTables tx with Some addresses => lookup_tables (st_rpc tx) addresses | None => mret [] end;
  '(blockhash, (account, authority)) ← durable_nonce tx;
  let message := {| sm_instructions := solana_steps tx account authority; sm_payer := st_from tx; sm_blockhash := blockhash; sm_tables := tables |} in
  compiled ← ofO (compileToV0Message message);
  _ ← tryN (ask (fun t => simulateTransaction t (st_rpc tx) compiled)) (fun _ => mret false);
  mret (message, js "0x" ++ HexBytes.bytesToHex compiled).

(** [crypto/near.ts]: the key after the colon. *)
Definition derivePublicKey (path predecessor signerContractId rpcUrl : jsstring) (domainId : Z) : N (jsstring * jsstring) :=
  answer ← ask (fun t => derived_public_key t signerContractId rpcUrl path predecessor domainId);
  res ← ofO (json_text answer);
  mret (match split_text (js ":") res with curve :: key :: _ => (curve, key) | [curve] => (curve, js "undefined") | [] => ([], js "undefined") end).
Definition add_signature (address : jsstring) (signature : bytes) (tx : SignedSolana) : outcome SignedSolana :=
  if takes_signature (ss_message tx) address signature then Returned {| ss_message := ss_message tx; ss_signatures := ss_signatures tx ++ [(address, signature)] |}
  else Threw (new_Error (js "cannot add the signature of " ++ address)).
Definition nonce_authority_signs (tx : SolanaTx) (signed : SignedSolana) : N SignedSolana :=
  match truthy (st_nonceAccount tx), truthy (st_nonceAccountAuth tx) with
  | Some account, Some authority =>
      if bool_decide (authority = st_from tx) then mret signed
      else match truthy nonceAuthorityKey with
      | None => throwN (new_Error (cross (js "Durable Nonce transaction requires SOLANA_NONCE_AUTHORITY_PRIVATE_KEY environment variable to be set")))
      | Some private =>
          public ← ofO (keypair_of private);
          if bool_decide (public = authority) then ofO (add_signature public (keypair_sign private (ss_message signed)) signed)
          else throwN (new_Error (cross (js "Nonce authority private key does not match nonceAccountAuth. Expected: " ++ authority ++ js ", Got: " ++ public)))
      end
  | _, _ => mret signed
  end.
Definition executeSolanaTransaction (tx : SolanaTx) : N unit :=
  '(message, hashToSign) ← buildSolanaTransaction tx;
  hexSignature ← getSignatureForHash settings hashToSign (js "Eddsa") true;
  let signatureBytes := SdkPayloads.buffer_hex (drop 2 hexSignature) in
  chainId ← ask (fun t => getChainId t (se_signerRpc settings));
  let nearRpcUrl := default (js "https://free.rpc.fastnear.com") (nearRpc chainId) in
  near ← ask (fun t => nearSigner t (se_signer settings));
  '(_, publicKey) ← derivePublicKey (toLowerCase (se_signer settings)) (toLowerCase (drop 2 (se_signer settings)) ++ js ".aurora") near nearRpcUrl 1;
  feePayer ← ofO (near_public_key publicKey);
  signed ← ofO (add_signature feePayer signatureBytes {| ss_message := message; ss_signatures := [] |});
  if negb (bool_decide (feePayer = st_from tx)) then throwN (new_Error (cross (js "Signer does not match transaction sender... Got " ++ feePayer)))
  else
    signed ← nonce_authority_signs tx signed;
    raw ← ofO (serializeSigned signed);
    _ ← perform (SentSolana (st_rpc tx) raw) (fun t => sendSolana t (st_rpc tx) raw);
    _ ← ask (fun t => confirmTransaction t (st_rpc tx) (bs58_encode signatureBytes));
    mret tt.
End Solana.

(** ** Tron transactions of a manifest

    packages/multisig-tools/src: [buildTronTransaction] of builders/utils.ts and
    [executeTronTransaction] of commands/execute-transactions.ts, whose wait for
    the receipt ends by the clock.  tronweb and the nodes are parameters. *)

Local Open Scope Z_scope.
Local Open Scope js_scope.

Record TronBlock := { tb_number : Z; tb_blockID : jsstring; tb_timestamp : Z }.
Record TronOptions := {
  to_refBlockBytes : jsstring; to_refBlockHash : jsstring; to_timestamp : Z; to_expiration : Z; to_feeLimit : jsnum; to_data : option jsstring }.
(** [raw_data]: the contract with its parameter, the options, the permission. *)
Record TronRaw := { tr_parameter : TronParameter; tr_options : TronOptions; tr_permission : option Z }.
(** What tronweb makes of it: the id and the bytes, in hex. *)
Record TronBuilt := { tl_raw : TronRaw; tl_txID : jsstring; tl_rawHex : jsstring }.
(** The answer to a broadcast; a receipt is empty or has a result at most. *)
Record TronSent := { ts_result : bool; ts_code : option jsstring }.
Inductive TronReceipt := EmptyReceipt | ReceiptOf (result : option jsstring).

Class TronWeb := {
  getCurrentBlock : nat -> jsstring -> outcome TronBlock;
  address_toHex : jsstring -> outcome jsstring;
  (** [txPbToTxID] and [txPbToRawDataHex] of [txJsonToPb]. *)
  tron_encode : TronRaw -> outcome (jsstring * jsstring);
  (** Whether the account exists. *)
  getAccount : nat -> jsstring -> jsstring -> outcome bool;
  getAccountResources : nat -> jsstring -> jsstring -> outcome unit;
  triggerConstantContract : nat -> jsstring -> jsstring -> jsstring -> Z -> jsstring -> outcome unit;
  sendTron : nat -> jsstring -> jsstring -> list jsstring -> outcome TronSent;
  getUnconfirmedTransactionInfo : nat -> jsstring -> jsstring -> outcome TronReceipt;
  (** The time the first calls took. *)
  call_time : nat -> Z }.

#[local] Existing Instances outcome_ret outcome_bind.
Section Tron.
Context `{C : Chains, V : Viem, T : TronWeb} (settings : Settings).

(** ** builders/utils.ts *)

Definition nonzero_or (x : option Z) (d : Z) : Z := match x with Some v => if v =? 0 then d else v | None => d end.
Definition is_set (x : option Z) : bool := match x with Some v => negb (v =? 0) | None => false end.
(** [n.toString(16).slice(-4).padStart(4, "0")]. *)
Definition block_bytes (n : Z) : jsstring := let s := toString16 n in padStart 4 48 (drop (length s - 4) s).
Definition EXPIRATION_MS : Z := 60 * 60 * 5 * 1000.
Definition block_options (tx : TronTx) (feeLimit : jsnum) (data : option jsstring) : N TronOptions :=
  match truthy (tt_refBlockBytes tx), truthy (tt_refBlockHash tx), is_set (tt_timestamp tx), is_set (tt_expiration tx) with
  | Some refBlockBytes, Some refBlockHash, true, true =>
      mret {| to_refBlockBytes := refBlockBytes; to_refBlockHash := refBlockHash; to_timestamp := default 0 (tt_timestamp tx);
              to_expiration := default 0 (tt_expiration tx); to_feeLimit := feeLimit; to_data := data |}
  | refBlockBytes, refBlockHash, _, _ =>
      block ← ask (fun t => getCurrentBlock t (tt_rpc tx));
      mret {| to_refBlockBytes := default (block_bytes (tb_number block)) refBlockBytes;
              to_refBlockHash := default (take 16 (drop 16 (tb_blockID block))) refBlockHash;
              to_timestamp := nonzero_or (tt_timestamp tx) (tb_timestamp block);
              to_expiration := nonzero_or (tt_expiration tx) (tb_timestamp block + EXPIRATION_MS); to_feeLimit := feeLimit; to_data := data |}
  end.
(** Texts that start with [T] are addresses, and become hex. *)
Definition address_hex (s : jsstring) : outcome jsstring := if startsWith s (js "T") then address_toHex s else Returned s.
Definition parameter_value (p : TronParameter) : outcome TronParameter :=
  match p with
  | TransferContract amount owner to =>
      owner ← address_hex owner;
      to ← address_hex to;
      Returned (TransferContract amount owner to)
  | TriggerSmartContract call_token_value call_value contract data owner token_id =>
      contract ← address_hex contract;
      data ← match data with Some d => d ← address_hex d; Returned (Some d) | None => Returned None end;
      owner ← address_hex owner;
      Returned (TriggerSmartContract call_token_value call_value contract data owner token_id)
  end.
(** The account must exist; a failed simulation is only reported. *)
Definition validate_tron (tx : TronTx) : N unit :=
  tryN
    (exists_ ← ask (fun t => getAccount t (tt_rpc tx) (tt_from tx));
     if negb exists_ then throwN (new_Error (js "Account " ++ tt_from tx ++ js " does not exist"))
     else
       _ ← ask (fun t => getAccountResources t (tt_rpc tx) (tt_from tx));
       match tt_parameter tx with
       | TriggerSmartContract _ call_value contract data _ _ =>
           match truthy (Some contract), truthy data with
           | Some contract, Some data =>
               tryN (ask (fun t => triggerConstantContract t (tt_rpc tx) contract data (default 0 call_value) (tt_from tx))) (fun _ => mret tt)
           | _, _ => mret tt
           end
       | TransferContract _ _ _ => mret tt
       end)
    (fun e => throwN (new_Error (js "Tron transaction validation failed: " ++ er_message e))).
Definition without_0x (s : jsstring) : jsstring := match s with 48 :: 120 :: rest => rest | _ => s end.
Definition buildTronTransaction (tx : TronTx) : N TronBuilt :=
  let feeLimit := Number_of_bigint (digits_value (default (js "1000000") (truthy (tt_feeLimit tx)))) in
  let data := (fun memo => HexBytes.bytesToHex (TextEncoder_encode memo)) <$> truthy (tt_memo tx) in
  options ← block_options tx feeLimit data;
  parameter ← ofO (parameter_value (tt_parameter tx));
  let raw := {| tr_parameter := parameter; tr_options := options; tr_permission := if 0 <? tt_permissionId tx then Some (tt_permissionId tx) else None |} in
  '(txID, rawHex) ← ofO (tron_encode raw);
  _ ← validate_tron tx;
  mret {| tl_raw := raw; tl_txID := without_0x txID; tl_rawHex := toLowerCase rawHex |}.
Definition tron_hash_to_sign (built : TronBuilt) : jsstring := js "0x" ++ tl_txID built.

(** ** commands/execute-transactions.ts *)

Definition TRON_TIMEOUT_MS : Z := 60000.
(** [Date.now()]: the time of the calls and of the pauses. *)
Definition paused_ms (log : list Effect) : Z := foldr (fun x total => match x with Paused ms => ms + total | _ => total end) 0 log.
Definition now (n : Net) : Z := call_time (nt_time n) + paused_ms (nt_log n).
Definition clockN : N Z := fun n => (Returned (now n), n).
Definition receipt_failure (receipt : TronReceipt) : option jsstring :=
  match receipt with ReceiptOf (Some r) => if bool_decide (r = js "SUCCESS") then None else truthy (Some r) | _ => None end.
(** One round of the wait: the time limit, the receipt, a second of pause while
    there is no result.  An error of the node leaves the receipt as it was,
    which is empty inside the loop. *)
Definition receipt_round (startTime : Z) (rpc txID : jsstring) : N TronReceipt :=
  time ← clockN;
  if TRON_TIMEOUT_MS <? time - startTime then throwN (new_Error (js "Transaction check timed out after 60 seconds"))
  else
    receipt ← tryN (ask (fun t => getUnconfirmedTransactionInfo t rpc txID)) (fun _ => mret EmptyReceipt);
    match receipt_failure receipt with
    | Some r => throwN (new_Error (js "Transaction reverted: " ++ r))
    | None =>
        _ ← (match receipt with ReceiptOf (Some (_ :: _)) => mret tt | _ => pause 1000 end);
        mret receipt
    end.
Fixpoint await_receipt (rounds : nat) (startTime : Z) (rpc txID : jsstring) : N TronReceipt :=
  match rounds with
  | O => throwN (new_Error (js "out of rounds"))
  | S n =>
      receipt ← receipt_round startTime rpc txID;
      match receipt with EmptyReceipt => await_receipt n startTime rpc txID | _ => mret receipt end
  end.
(** A round that goes on has paused for a second: 62 rounds pass the limit. *)
Definition RECEIPT_ROUNDS : nat := 62.
Definition executeTronTransaction (tx : TronTx) : N unit :=
  built ← buildTronTransaction tx;
  hexSignature ← getSignatureForHash settings (tron_hash_to_sign built) (js "Ecdsa") false;
  let tronSignature := toLowerCase (drop 2 hexSignature) in
  result ← perform (SentTron (tt_rpc tx) (tl_txID built) [tronSignature]) (fun t => sendTron t (tt_rpc tx) (tl_rawHex built) [tronSignature]);
  if negb (ts_result result) then
    throwN (new_Error (cross (js "Transaction broadcast failed: " ++ default (js "Unknown error") (truthy (ts_code result)))))
  else
    startTime ← clockN;
    _ ← await_receipt RECEIPT_ROUNDS startTime (tt_rpc tx) (tl_txID built);
    mret tt.
End Tron.

(** ** The families of a manifest together

    The dispatch of commands/execute-transactions.ts and of
    [createTransactionBundle] over the families other than EVM. *)

Local Open Scope Z_scope.
Local Open Scope js_scope.

Section Families.
Context `{C : Chains, V : Viem, M : Mempool, B : BitcoinJs, S2 : Secp256k1, W : SolanaWeb3, T : TronWeb}.
Context (settings : Settings) (nearRpc : Z -> option jsstring) (nonceAuthorityKey : option jsstring).

Definition unsupported {A} : N A := throwN (new_Error (js "Unsupported transaction family: ethereum-vm.")).
Definition execute_other (tx : Transaction) : N unit :=
  match tx with
  | BitcoinTransaction t => executeBitcoinTransaction settings t
  | SolanaTransaction t => executeSolanaTransaction settings nearRpc nonceAuthorityKey t
  | TronTransaction t => executeTronTransaction settings t
  | EvmTransaction _ => unsupported
  end.
Definition run_manifest (deployer signer : jsstring) (transactions : list Transaction) : N Progress :=
  run_transactions settings execute_other deployer signer transactions.
(** The hashes of a transaction that is not EVM. *)
Definition build_other (tx : Transaction) : N (list jsstring) :=
  match tx with
  | BitcoinTransaction t => built ← buildBitcoinTransaction t; mret (bb_hashesToSign built)
  | SolanaTransaction t => '(_, payload) ← buildSolanaTransaction t; mret [payload]
  | TronTransaction t => built ← buildTronTransaction t; mret [tron_hash_to_sign built]
  | EvmTransaction _ => unsupported
  end.
End Families.
