(* ===== verification/MultisigFamilyProofs.v ===== *)
(** * What the executors of the other families send

    A built Bitcoin transaction spends and pays what the manifest says; a
    Solana transaction is sent with a durable nonce and the signature of its
    sender; a Tron transaction carries the fields of the manifest, and its wait
    ends; no family sends more than one transaction. *)

From stdpp Require Import sorting.
From S2P Require Import Prelude JsNum JsString JsNumber JsJson Scanner HexBytes IndexerTransfers IndexerRoles IndexerLanes IndexerQueries.
From S2P Require Import SdkPayloads SdkPayloadProofs DepositBytes MultisigManifest MultisigRun MultisigFamilies MultisigProofs.
Local Open Scope Z_scope.
Local Open Scope js_scope.

(** ** Numbers *)

Lemma dyadic_opp m k v : dyadic m k = JInt v -> dyadic (- m) k = JInt (- v).
Proof.
  unfold dyadic. destruct (Z.leb_spec 0 k) as [Hk|Hk].
  - rewrite Z.abs_opp. destruct (_ <=? _); [done|]. intros [= <-]. f_equal. lia.
  - set (p := 2 ^ (- k)). assert (0 < p) by (apply Z.pow_pos_nonneg; lia). destruct (Z.eqb_spec (m mod p) 0) as [E|]; [|done].
    intros [= <-]. rewrite (proj2 (Z.eqb_eq _ _)) by (by apply Z.mod_opp_l_z; [lia|]). by rewrite Z.div_opp_l_z by (done || lia).
Qed.
Lemma round_negative z : - 2 ^ 53 <= z < 0 -> round_double z 1 = JInt z.
Proof.
  intros Hz. pose proof (round_double_int (- z) ltac:(lia)) as H. unfold round_double in *. rewrite !(proj2 (Z.eqb_neq _ _)) in * by lia.
  rewrite Z.abs_opp, Z.sgn_opp in H. apply dyadic_opp in H. rewrite Z.opp_involutive in H. rewrite <- H. f_equal. lia.
Qed.
Lemma total_exact values : Forall (Z.le 0) values -> foldr Z.add 0 values <= 2 ^ 53 -> total values = JInt (foldr Z.add 0 values).
Proof.
  assert (forall acc, 0 <= acc -> Forall (Z.le 0) values -> acc + foldr Z.add 0 values <= 2 ^ 53 ->
    foldl add_number (JInt acc) values = JInt (acc + foldr Z.add 0 values)) as H.
  { induction values as [|v rest IH]; intros acc Ha Hv Hs; cbn in *; [f_equal; lia|]. apply Forall_cons in Hv as [Hv Hr].
    assert (0 <= foldr Z.add 0 rest) by (clear -Hr; induction Hr; cbn; lia). rewrite round_double_int by lia. rewrite IH by (done || lia). f_equal. lia. }
  intros. by apply (H 0).
Qed.

(** ** Little-endian fields in hex *)

Lemma le_bytes_value len v : 0 <= v < 256 ^ Z.of_nat len -> bytesToNumberLE (SdkPayloads.buffer_hex (drop 2 (with_0x (le_bytes len v)))) = v.
Proof.
  intros Hv. unfold with_0x. change (drop 2 (js "0x" ++ ?s)) with s. rewrite SdkPayloadProofs.buffer_hex_bytes. unfold le_bytes.
  destruct (le_loop_spec len v []) as (l & -> & _ & Hl). cbn [fst app]. rewrite bytesToNumberLE_digits, Hl. by apply Z.mod_small.
Qed.
Lemma after_0x_bytes l : SdkPayloads.buffer_hex (drop 2 (with_0x l)) = l.
Proof. unfold with_0x. change (drop 2 (js "0x" ++ ?s)) with s. apply SdkPayloadProofs.buffer_hex_bytes. Qed.
#[local] Existing Instances outcome_ret outcome_bind.
Lemma map_outcome_ok {A A'} (f : A -> outcome A') l ys : map_outcome f l = Returned ys -> Forall2 (fun x y => f x = Returned y) l ys.
Proof.
  revert ys. induction l as [|x rest IH]; intros ys H; cbn in H; [by injection H as <-|]. destruct (f x) as [y|] eqn:E; [|done]. cbn in H.
  destruct (map_outcome f rest) as [r|]; [|done]. injection H as <-. constructor; [done|by apply IH].
Qed.

(** ** Bitcoin *)

Section Bitcoin.
Context `{C : Chains, V : Viem, M : Mempool, B : BitcoinJs, S2 : Secp256k1}.
Implicit Types (schema : BitcoinTx).

(** The input of a transaction that spends an outpoint of the manifest, and the
    output that pays one of its addresses. *)
Definition spends (i : BitcoinTxInput) (hash : bytes) (index : Z) : Prop :=
  hash = reverse (SdkPayloads.buffer_hex (bi_txid i)) /\ index = bi_vout i.
Definition pays_to (network : BtcNetwork) (o : BitcoinTxOutput) (out : BtcOut) : Prop :=
  toOutputScript (bo_address o) network = Returned (bout_script out) /\ Number_of_bigint (bo_value o) = JInt (bout_value out).
Definition manifest_transaction schema (tx : BtcTransaction) : Prop :=
  Forall2 (fun i txin => spends i (bin_hash txin) (bin_index txin)) (bt_inputs schema) (btx_ins tx) /\
  Forall2 (pays_to (network_of schema)) (bt_outputs schema) (btx_outs tx).
(** An output of the chain with the value and script of the manifest. *)
Definition on_chain schema (i : BitcoinTxInput) : Prop :=
  exists t outputs, mempool_tx t (baseUrl schema) (bi_txid i) = Returned (Some outputs) /\
    0 <= bi_vout i /\ outputs !! Z.to_nat (bi_vout i) = Some {| mo_value := bi_value i; mo_scriptpubkey := bi_scriptPubKey i |}.
Record faithful schema (built : BitcoinBuilt) : Prop := {
  fb_tx : exists tx, buildBitcoinTransactionFromPayload (bb_transaction built) = Returned tx /\ manifest_transaction schema tx /\
    bb_payload built = js "0x" ++ btx_toHex tx /\ sighashes tx (bt_inputs schema) = Returned (bb_hashesToSign built);
  fb_inputs : Forall (on_chain schema) (bt_inputs schema);
  fb_values : Forall (Z.le 0) (bi_value <$> bt_inputs schema) /\ Forall (Z.le 0) (bo_value <$> bt_outputs schema);
  fb_fee : is_negative (fee_of schema) = false }.

Lemma payload_inputs_spend inputs py : Forall2 (fun i p => payload_input i = Returned p) inputs py ->
  Forall2 (fun i txin => spends i (bin_hash txin) (bin_index txin)) inputs (addInput <$> py) /\ Forall (Z.le 0) (bi_value <$> inputs).
Proof using.
  induction 1 as [|i p inputs py H _ [IH1 IH2]]; [by split; constructor|]. unfold payload_input, writeUInt32LE, writeBigUInt64LE in H.
  destruct ((0 <=? bi_vout i) && _) eqn:E1; [|done]. destruct ((0 <=? bi_value i) && _) eqn:E2; [|done]. injection H as <-.
  apply andb_true_iff in E1 as [?%Z.leb_le ?%Z.ltb_lt]. apply andb_true_iff in E2 as [?%Z.leb_le ?%Z.ltb_lt].
  split; [|by constructor]. constructor; [|done]. split; cbn [addInput bin_hash bin_index py_txid py_index]; [apply after_0x_bytes|by apply (le_bytes_value 4)].
Qed.
Lemma payload_outputs_pay network outputs py outs :
  Forall (fun o => exists s, toOutputScript (bo_address o) network = Returned s) outputs ->
  Forall2 (fun o p => payload_output network o = Returned p) outputs py -> Forall2 (fun p out => addOutput p = Returned out) py outs ->
  Forall2 (pays_to network) outputs outs /\ Forall (Z.le 0) (bo_value <$> outputs).
Proof using.
  intros Hs H. revert Hs outs. induction H as [|o p outputs py H _ IH]; intros Hs outs Ho; inversion Ho as [|? out ? outs' Hout Hrest]; subst; [by split; constructor|].
  apply Forall_cons in Hs as [[script Hs] Hss]. destruct (IH Hss outs' Hrest) as [IH1 IH2]. unfold payload_output, writeBigUInt64LE in H. rewrite Hs in H. cbn [mbind outcome_bind] in H.
  destruct ((0 <=? bo_value o) && _) eqn:E2; [|done]. injection H as <-. apply andb_true_iff in E2 as [?%Z.leb_le ?%Z.ltb_lt].
  split; [|by constructor]. constructor; [|done]. unfold addOutput in Hout. cbv zeta in Hout. cbn [po_value po_script] in Hout.
  rewrite (le_bytes_value 8) in Hout by done. rewrite after_0x_bytes in Hout. destruct (Number_of_bigint (bo_value o)) as [| |v|] eqn:Ev; try done.
  destruct (Satoshi_accepts v); [|done]. injection Hout as <-. by split.
Qed.

(** *** Building *)

Section Build.
Context (P : Effect -> Prop) (w : Effect -> nat).
Lemma check_all_emits {A} (ok : A -> bool) message l : emits P w 0 (fun _ => Forall (fun x => ok x = true) l) (check_all ok message l).
Proof using.
  induction l as [|x rest IH]; cbn [check_all]; [by apply emits_ret|]. destruct (ok x) eqn:E; [|apply emits_throw].
  eapply emits_weaken; [exact IH|done|]. intros [] H. by constructor.
Qed.
Lemma check_input_emits schema i : emits P w 0 (fun _ => on_chain schema i) (check_input (baseUrl schema) i).
Proof using.
  unfold check_input. apply (emits_bind _ _ 0 0 _ _ (fun o => exists t, mempool_tx t (baseUrl schema) (bi_txid i) = Returned o)).
  { apply emits_ask. intros t o E. by exists t. }
  intros [outputs|] [t Et]; [|apply emits_throw]. destruct (_ <=? bi_vout i); [apply emits_throw|].
  destruct (Z.ltb_spec (bi_vout i) 0) as [|Hv]; [apply emits_throw|]. destruct (outputs !! _) as [[value script]|] eqn:Eo; [|apply emits_throw]. cbn [mo_value mo_scriptpubkey].
  destruct (Z.eqb_spec value (bi_value i)) as [->|]; cbn [negb]; [|apply emits_throw]. case_bool_decide as Es; cbn [negb]; [|apply emits_throw]. subst script.
  apply (emits_bind _ _ 0 0 _ _ whatever); [by apply emits_ask|]. intros [[[] by_tx]|] _; [apply emits_throw|..]; apply emits_ret; by exists t, outputs.
Qed.
Lemma check_inputs_emits schema inputs : emits P w 0 (fun _ => Forall (on_chain schema) inputs) (check_inputs (baseUrl schema) inputs).
Proof using.
  induction inputs as [|i rest IH]; cbn [check_inputs]; [by apply emits_ret|]. eapply (emits_bind _ _ 0 0); [apply check_input_emits|].
  intros [] Hi. eapply emits_weaken; [exact IH|done|]. intros [] H. by constructor.
Qed.
Lemma build_bitcoin_emits schema : emits P w 0 (faithful schema) (buildBitcoinTransaction schema).
Proof using.
  unfold buildBitcoinTransaction. destruct (Nat.eqb _ 0); [apply emits_throw|]. destruct (Nat.eqb _ 0); [apply emits_throw|].
  do 2 (eapply (emits_bind _ _ 0 0); [apply check_all_emits|]; intros _ _). eapply (emits_bind _ _ 0 0); [apply check_inputs_emits|]. intros [] Hin. cbv zeta.
  destruct (is_negative (fee_of schema)) eqn:Ef; [apply emits_throw|]. eapply (emits_bind _ _ 0 0); [apply check_all_emits|]. intros [] Ho.
  eapply (emits_bind _ _ 0 0); [apply emits_ofO; intros a E; exact (map_outcome_ok _ _ _ E)|]. intros inputs Hi.
  eapply (emits_bind _ _ 0 0); [apply emits_ofO; intros a E; exact (map_outcome_ok _ _ _ E)|]. intros outputs Hout.
  eapply (emits_bind _ _ 0 0); [apply emits_ofO; intros a E; exact E|]. intros tx Htx.
  eapply (emits_bind _ _ 0 0); [apply emits_ofO; intros a E; exact E|]. intros hashes Hh. apply emits_ret.
  apply payload_inputs_spend in Hi as [Hi Hiv]. pose proof Htx as Hb. unfold buildBitcoinTransactionFromPayload in Htx. cbn [bp_outputs bp_inputs] in Htx.
  destruct (map_outcome addOutput outputs) as [outs|] eqn:Eo; [|done]. apply map_outcome_ok in Eo. injection Htx as <-.
  destruct (payload_outputs_pay (network_of schema) (bt_outputs schema) outputs outs) as [Hp Hpv]; [|done|done|].
  { eapply Forall_impl; [exact Ho|]. cbv beta. intros o Hs. destruct (toOutputScript _ _); [by eexists|done]. }
  split; [|done|done|done]. eexists. split_and!; [exact Hb|done|done|exact Hh].
Qed.
End Build.
End Bitcoin.

(** ** Sending a Bitcoin transaction *)

(** An effect that puts a transaction on a network. *)
Definition is_broadcast (x : Effect) : nat := match x with SentBitcoin _ _ | SentSolana _ _ | SentTron _ _ _ => 1 | _ => 0 end.
(** What asking for signatures adds. *)
Definition asking (x : Effect) : Prop := match x with RequestedSignature _ _ => True | Paused ms => ms = 1000 | _ => False end.
Lemma asking_step `{C : Chains, V : Viem} settings (P : Effect -> Prop) data curve raw : (forall x, asking x -> P x) ->
  emits P is_broadcast 0 whatever (getSignatureForHash settings data curve raw).
Proof. intros H. apply asking_emits; try done; intros; by apply H. Qed.

Section BitcoinSending.
Context `{C : Chains, V : Viem, M : Mempool, B : BitcoinJs, S2 : Secp256k1} (settings : Settings) (schema : BitcoinTx).

(** An input unlocked with a signature and the key recovered from it over the
    hash of that input. *)
Definition signed_with (hash : jsstring) (txin : BtcIn) : Prop :=
  exists sig bit key, recoverPublicKey sig bit (SdkPayloads.buffer_hex (drop 2 hash)) = Returned key /\
    bin_script txin = script_compile [toDER sig ++ [HASH_TYPE_ALL]; key].
Definition signed_manifest (tx : BtcTransaction) : Prop :=
  manifest_transaction schema tx /\ exists unsigned hashes, manifest_transaction schema unsigned /\
    sighashes unsigned (bt_inputs schema) = Returned hashes /\ Forall2 signed_with hashes (btx_ins tx).
Definition bitcoin_allowed (x : Effect) : Prop :=
  match x with
  | SentBitcoin url hex => url = BROADCAST_URL /\ exists tx, hex = btx_toHex tx /\ signed_manifest tx
  | _ => asking x
  end.
(** An input is spent already, or the network took the transaction. *)
Definition bitcoin_settled : Prop :=
  (exists t i by_tx, i ∈ bt_inputs schema /\ mempool_outspend t (baseUrl schema) (bi_txid i) (bi_vout i) = Returned (Some (true, by_tx))) \/
  (exists t tx txid, signed_manifest tx /\ mempool_broadcast t BROADCAST_URL (btx_toHex tx) = Returned (inr txid)).

Lemma try_bits_recovers sig hash expected bits found key : try_bits sig hash expected bits found = Returned (Some key) ->
  found = Some key \/ exists bit, recoverPublicKey sig bit hash = Returned key.
Proof using.
  revert found. induction bits as [|bit rest IH]; intros found H; cbn in H; [injection H as ->; by left|].
  destruct (recoverPublicKey sig bit hash) as [k|] eqn:Ek; [|done]. cbn in H. destruct (secp_verify sig hash k); [|by apply IH in H].
  destruct expected as [address|].
  - destruct (p2pkh_address Testnet k) as [recovered|]; [|done]. cbn in H. case_bool_decide; [injection H as ->; right; by exists bit|by apply IH in H].
  - apply IH in H as [H|H]; [|by right]. destruct found; [by left|]. injection H as ->. right. by exists bit.
Qed.
Lemma signing_key_recovers sig hash expected v key : signing_key sig hash expected v = Returned key -> exists bit, recoverPublicKey sig bit hash = Returned key.
Proof using.
  unfold signing_key. destruct (try_bits _ _ _ _ _) as [[k|]|] eqn:E; cbn; [|destruct (recovery_param v) as [bit|]; [|done]; intros H; by exists bit|done].
  intros [= ->]. apply try_bits_recovers in E as [E|E]; done.
Qed.
Definition same_outpoint (a b : BtcIn) : Prop := bin_hash a = bin_hash b /\ bin_index a = bin_index b.
Lemma sign_input_ok input hash signature txin signed : sign_input input hash signature txin = Returned signed -> same_outpoint txin signed /\ signed_with hash signed.
Proof using.
  unfold sign_input. destruct signature as [[r s] v]. destruct (fromCompact _) as [sig|]; [|done]. cbn [mbind outcome_bind]. destruct (fromOutputScript _ _) as [expected|]; [|done]. cbn [mbind outcome_bind].
  destruct (signing_key _ _ _ _) as [key|] eqn:Ek; [|done]. intros [= <-]. apply signing_key_recovers in Ek as [bit Ek]. split; [done|]. by exists sig, bit, key.
Qed.
Lemma sign_inputs_ok inputs : forall hashes signatures ins signed, sign_inputs inputs hashes signatures ins = Returned signed ->
  length hashes = length inputs -> length signatures = length inputs -> length ins = length inputs -> Forall2 same_outpoint ins signed /\ Forall2 signed_with hashes signed.
Proof using.
  induction inputs as [|input inputs IH]; intros [|hash hashes] [|signature signatures] [|txin ins] signed H; cbn [length]; intros; try lia; cbn in H.
  - injection H as <-. by split.
  - destruct (sign_input input hash signature txin) as [first|] eqn:E1; [|done]. cbn in H. destruct (sign_inputs inputs _ _ _) as [rest|] eqn:E2; [|done].
    injection H as <-. apply sign_input_ok in E1 as [? ?]. apply IH in E2 as [? ?]; [|lia..]. by split; constructor.
Qed.
Lemma sign_hashes_emits hashes : emits bitcoin_allowed is_broadcast 0 (fun l => length l = length hashes) (sign_hashes settings hashes).
Proof using.
  induction hashes as [|hash rest IH]; cbn [sign_hashes]; [by apply emits_ret|]. apply (emits_bind _ _ 0 0 _ _ whatever); [by apply asking_step; intros []|]. intros h _.
  apply (emits_bind _ _ 0 0 _ _ whatever); [by apply emits_ofO|]. intros [[r s] v] _. eapply (emits_bind _ _ 0 0); [exact IH|]. intros others Ho.
  apply emits_ret. cbn. by rewrite Ho.
Qed.
Lemma any_spent_emits inputs : (forall i, i ∈ inputs -> i ∈ bt_inputs schema) ->
  emits bitcoin_allowed is_broadcast 0 (fun spent => spent = true -> bitcoin_settled) (any_spent (baseUrl schema) inputs).
Proof using.
  induction inputs as [|i rest IH]; intros Hin; cbn [any_spent]; [by apply emits_ret|].
  apply (emits_bind _ _ 0 0 _ _ (fun o => exists t, mempool_outspend t (baseUrl schema) (bi_txid i) (bi_vout i) = Returned o)).
  { apply emits_ask. intros t o E. by exists t. }
  intros [[[] by_tx]|] [t E]; [apply emits_ret; intros _; left; exists t, i, by_tx; split; [apply Hin; left|done]|apply IH; intros; apply Hin; by right|by apply emits_ret].
Qed.
Lemma broadcast_bitcoin_emits tx : signed_manifest tx -> emits bitcoin_allowed is_broadcast 1 (fun _ => bitcoin_settled) (broadcastTransaction tx).
Proof using.
  intros Htx. unfold broadcastTransaction. cbv zeta. destruct (btx_fromHex _); [|apply emits_throw]. apply (emits_try _ _ 1 0).
  - unfold broadcastTx. apply (emits_bind _ _ 1 0 _ _ (fun o => exists t, mempool_broadcast t BROADCAST_URL (btx_toHex tx) = Returned o)).
    + apply (emits_perform bitcoin_allowed is_broadcast (SentBitcoin BROADCAST_URL (btx_toHex tx))); [split; [done|by exists tx]|]. intros t o E. by exists t.
    + intros [err|txid] [t E]; [apply emits_throw|]. apply emits_ret. right. by exists t, tx, txid.
  - intros e. destruct (includes _ _); apply emits_throw.
Qed.
Lemma signed_manifest_built built unsigned signatures tx : faithful schema built -> length signatures = length (bb_hashesToSign built) ->
  buildBitcoinTransactionFromPayload (bb_transaction built) = Returned unsigned ->
  addSignedInputsToTransaction unsigned (bb_hashesToSign built) signatures (bb_transaction built) = Returned tx -> signed_manifest tx.
Proof using.
  intros [(tx0 & Eb & [Hi Ho] & _ & Hh) _ _ _] Hl Hu Ha. rewrite Hu in Eb. injection Eb as <-. unfold addSignedInputsToTransaction in Ha.
  destruct (sign_inputs _ _ _ _) as [ins|] eqn:Es; [|done]. injection Ha as <-.
  assert (length (bp_inputs (bb_transaction built)) = length (btx_ins unsigned)) as L1.
  { unfold buildBitcoinTransactionFromPayload in Hu. destruct (map_outcome _ _) as [outs|]; [|done]. injection Hu as <-. cbn. by rewrite length_fmap. }
  assert (length (bb_hashesToSign built) = length (btx_ins unsigned)) as L2.
  { apply map_outcome_ok, Forall2_length in Hh. rewrite length_imap in Hh. apply Forall2_length in Hi. congruence. }
  apply sign_inputs_ok in Es as [Hsame Hsigned]; [|congruence..]. split.
  - split; [|exact Ho]. cbn. clear -Hi Hsame. revert ins Hsame. induction Hi as [|i t inputs txins [H1 H2] _ IH]; intros ins Hs; inversion Hs as [|? s ? ss [E1 E2] Hr]; subst; constructor.
    + split; congruence.
    + by apply IH.
  - exists unsigned, (bb_hashesToSign built). by split_and!.
Qed.
Lemma execute_bitcoin_emits : emits bitcoin_allowed is_broadcast 1 (fun _ => bitcoin_settled) (executeBitcoinTransaction settings schema).
Proof using.
  unfold executeBitcoinTransaction. eapply (emits_bind _ _ 0 1); [unfold hasBitcoinTransactionBeenExecuted; apply any_spent_emits; intros i Hi; exact Hi|]. intros [] Hs; [apply emits_ret; by apply Hs|].
  eapply (emits_bind _ _ 0 1); [apply build_bitcoin_emits|]. intros built Hb. eapply (emits_bind _ _ 0 1); [apply sign_hashes_emits|]. intros signatures Hl.
  eapply (emits_bind _ _ 0 1); [apply emits_ofO; intros a E; exact E|]. intros unsigned Hu.
  eapply (emits_bind _ _ 0 1); [apply emits_ofO; intros a E; exact E|]. intros tx Ht.
  eapply (emits_bind _ _ 1 0); [apply broadcast_bitcoin_emits; exact (signed_manifest_built _ _ _ _ Hb Hl Hu Ht)|]. intros txid Hd. by apply emits_ret.
Qed.
End BitcoinSending.

(** ** Sending a Solana transaction *)

Section SolanaSending.
Context `{C : Chains, V : Viem, W : SolanaWeb3} (settings : Settings) (nearRpc : Z -> option jsstring) (key : option jsstring) (tx : SolanaTx).

(** A message of the manifest with a durable nonce: it first advances the nonce
    account, whose stored authority is the manifest's, and its blockhash is the
    stored nonce. *)
Definition durable (authority : jsstring) (m : SolanaMessage) : Prop :=
  exists account t data, truthy (st_nonceAccount tx) = Some account /\ truthy (st_nonceAccountAuth tx) = Some authority /\
    getNonceAccount t (st_rpc tx) account = Returned (Some data) /\ nd_authority data = authority /\
    m = {| sm_instructions := solana_steps tx account authority; sm_payer := st_from tx; sm_blockhash := nd_nonce data;
           sm_tables := default [] (st_lookupTables tx) |}.
Definition has_signature (signed : SignedSolana) (address : jsstring) : Prop := exists s, (address, s) ∈ ss_signatures signed.
Definition signed_durable (signed : SignedSolana) : Prop :=
  exists authority, durable authority (ss_message signed) /\ has_signature signed (st_from tx) /\ has_signature signed authority.
Definition solana_allowed (x : Effect) : Prop :=
  match x with
  | SentSolana rpc raw => rpc = st_rpc tx /\ exists signed, serializeSigned signed = Returned raw /\ signed_durable signed
  | _ => asking x
  end.
Definition solana_settled : Prop := exists t raw signature, confirmTransaction t (st_rpc tx) signature = Returned tt /\
  exists t', sendSolana t' (st_rpc tx) raw = Returned tt.

Lemma tables_emits P w addresses : emits P w 0 (fun l => l = addresses) (lookup_tables (st_rpc tx) addresses).
Proof using.
  induction addresses as [|a rest IH]; cbn [lookup_tables]; [by apply emits_ret|]. apply (emits_bind _ _ 0 0 _ _ whatever); [by apply emits_ask|].
  intros [] _; [|apply emits_throw]. eapply (emits_bind _ _ 0 0); [exact IH|]. intros l ->. by apply emits_ret.
Qed.
Lemma build_solana_emits P w : emits P w 0 (fun r => exists authority, durable authority r.1) (buildSolanaTransaction tx).
Proof using.
  unfold buildSolanaTransaction. apply (emits_bind _ _ 0 0 _ _ (fun l => l = default [] (st_lookupTables tx))).
  { destruct (st_lookupTables tx); [apply tables_emits|by apply emits_ret]. }
  intros tables ->. apply (emits_bind _ _ 0 0 _ _ (fun r => truthy (st_nonceAccount tx) = Some r.2.1 /\ truthy (st_nonceAccountAuth tx) = Some r.2.2 /\
    exists t data, getNonceAccount t (st_rpc tx) r.2.1 = Returned (Some data) /\ nd_authority data = r.2.2 /\ nd_nonce data = r.1)).
  { unfold durable_nonce. destruct (truthy (st_nonceAccount tx)) as [account|]; [|apply emits_throw].
    destruct (truthy (st_nonceAccountAuth tx)) as [authority|]; [|apply emits_throw].
    apply (emits_bind _ _ 0 0 _ _ (fun o => exists t, getNonceAccount t (st_rpc tx) account = Returned o)); [apply emits_ask; intros t o E; by exists t|].
    intros [data|] [t E]; [|apply emits_throw]. case_bool_decide as Ea; [|apply emits_throw]. apply emits_ret. split_and!; [done|done|]. by exists t, data. }
  intros [blockhash [account authority]] (E1 & E2 & t & data & Et & Ea & En). cbn in *. cbv zeta.
  apply (emits_bind _ _ 0 0 _ _ whatever); [by apply emits_ofO|]. intros compiled _.
  apply (emits_bind _ _ 0 0 _ _ whatever); [apply (emits_try _ _ 0 0); [by apply emits_ask|intros; by apply emits_ret]|]. intros _ _.
  apply emits_ret. exists authority, account, t, data. cbn. rewrite En. by split_and!.
Qed.
Lemma add_signature_ok address s signed signed' : add_signature address s signed = Returned signed' ->
  ss_message signed' = ss_message signed /\ has_signature signed' address /\ forall a, has_signature signed a -> has_signature signed' a.
Proof using.
  unfold add_signature. destruct (takes_signature _ _ _); [|done]. intros [= <-]. split_and!; [done|exists s; cbn; set_solver|].
  intros a [s' Hs]. exists s'. cbn. set_solver.
Qed.
Lemma authority_signs_emits authority signed : durable authority (ss_message signed) -> has_signature signed (st_from tx) ->
  emits solana_allowed is_broadcast 0 signed_durable (nonce_authority_signs key tx signed).
Proof using.
  intros Hd Hs. pose proof Hd as (account & t & data & E1 & E2 & _). unfold nonce_authority_signs. rewrite E1, E2.
  case_bool_decide as Ea; [apply emits_ret; exists authority; by subst|]. destruct (truthy key) as [private|]; [|apply emits_throw].
  apply (emits_bind _ _ 0 0 _ _ whatever); [by apply emits_ofO|]. intros public _. case_bool_decide as Ep; [|apply emits_throw]. subst public.
  apply emits_ofO. intros signed' E. apply add_signature_ok in E as (Em & H1 & H2). exists authority. rewrite Em. split_and!; auto.
Qed.
Lemma execute_solana_emits : emits solana_allowed is_broadcast 1 (fun _ => solana_settled) (executeSolanaTransaction settings nearRpc key tx).
Proof using.
  unfold executeSolanaTransaction. eapply (emits_bind _ _ 0 1); [apply build_solana_emits|]. intros [message hash] [authority Hd]. cbn in Hd.
  apply (emits_bind _ _ 0 1 _ _ whatever); [by apply asking_step; intros []|]. intros signature _. cbv zeta.
  do 2 (apply (emits_bind _ _ 0 1 _ _ whatever); [by apply emits_ask|]; intros ? _). apply (emits_bind _ _ 0 1 _ _ whatever).
  { unfold derivePublicKey. apply (emits_bind _ _ 0 0 _ _ whatever); [by apply emits_ask|]. intros ? _.
    apply (emits_bind _ _ 0 0 _ _ whatever); [by apply emits_ofO|]. intros ? _. by apply emits_ret. }
  intros [curve public] _. apply (emits_bind _ _ 0 1 _ _ whatever); [by apply emits_ofO|]. intros feePayer _.
  eapply (emits_bind _ _ 0 1); [apply emits_ofO; intros s E; exact (add_signature_ok _ _ _ _ E)|]. intros signed (Em & Hs & _).
  case_bool_decide as Ef; cbn [negb]; [|apply emits_throw]. subst feePayer.
  eapply (emits_bind _ _ 0 1); [apply (authority_signs_emits authority); [by rewrite Em|done]|]. intros signed' Hsd.
  eapply (emits_bind _ _ 0 1); [apply emits_ofO; intros r E; exact E|]. intros raw Hraw.
  apply (emits_bind _ _ 1 0 _ _ (fun _ => exists t, sendSolana t (st_rpc tx) raw = Returned tt)).
  - apply (emits_perform solana_allowed is_broadcast (SentSolana (st_rpc tx) raw)); [split; [done|by exists signed']|]. intros t [] E. by exists t.
  - intros _ Hsent. apply (emits_bind _ _ 0 0 _ _ (fun _ => exists t s, confirmTransaction t (st_rpc tx) s = Returned tt)).
    + apply emits_ask. intros t [] E. by eexists t, _.
    + intros _ (t & s & E). apply emits_ret. by exists t, raw, s.
Qed.
End SolanaSending.

(** ** Sending a Tron transaction *)

Section TronSending.
Context `{C : Chains, V : Viem, T : TronWeb} (settings : Settings) (tx : TronTx).

(** The raw data of a transaction: the contract, permission, fee limit and memo
    of the manifest, and each block field the manifest gives. *)
Definition keeps_option (o : TronOptions) : Prop :=
  (forall s, truthy (tt_refBlockBytes tx) = Some s -> to_refBlockBytes o = s) /\ (forall s, truthy (tt_refBlockHash tx) = Some s -> to_refBlockHash o = s) /\
  (forall v, tt_timestamp tx = Some v -> v <> 0 -> to_timestamp o = v) /\ (forall v, tt_expiration tx = Some v -> v <> 0 -> to_expiration o = v).
Definition carries (raw : TronRaw) : Prop :=
  parameter_value (tt_parameter tx) = Returned (tr_parameter raw) /\
  tr_permission raw = (if 0 <? tt_permissionId tx then Some (tt_permissionId tx) else None) /\
  to_feeLimit (tr_options raw) = Number_of_bigint (digits_value (default (js "1000000") (truthy (tt_feeLimit tx)))) /\
  to_data (tr_options raw) = (fun memo => HexBytes.bytesToHex (TextEncoder_encode memo)) <$> truthy (tt_memo tx) /\ keeps_option (tr_options raw).
Definition encodes (txID : jsstring) : Prop := exists raw id hex, carries raw /\ tron_encode raw = Returned (id, hex) /\ txID = without_0x id.
Definition tron_allowed (x : Effect) : Prop :=
  match x with
  | SentTron rpc txID signatures => rpc = tt_rpc tx /\ encodes txID /\ length signatures = 1%nat
  | _ => asking x
  end.
(** The node took the transaction and has a receipt without a failure. *)
Definition tron_settled : Prop := exists txID result t, encodes txID /\
  getUnconfirmedTransactionInfo t (tt_rpc tx) txID = Returned (ReceiptOf result) /\ receipt_failure (ReceiptOf result) = None.

Lemma options_emits P w feeLimit data :
  emits P w 0 (fun o => to_feeLimit o = feeLimit /\ to_data o = data /\ keeps_option o) (block_options tx feeLimit data).
Proof using.
  assert (forall x v d, x = Some v -> v <> 0 -> nonzero_or x d = v) as Hz.
  { intros x v d -> Hv. cbn. by rewrite (proj2 (Z.eqb_neq _ _)). }
  assert (emits P w 0 (fun o => to_feeLimit o = feeLimit /\ to_data o = data /\ keeps_option o)
    (block ← ask (fun t => getCurrentBlock t (tt_rpc tx));
     mret {| to_refBlockBytes := default (block_bytes (tb_number block)) (truthy (tt_refBlockBytes tx));
             to_refBlockHash := default (take 16 (drop 16 (tb_blockID block))) (truthy (tt_refBlockHash tx));
             to_timestamp := nonzero_or (tt_timestamp tx) (tb_timestamp block);
             to_expiration := nonzero_or (tt_expiration tx) (tb_timestamp block + EXPIRATION_MS); to_feeLimit := feeLimit; to_data := data |})) as Hb.
  { apply (emits_bind _ _ 0 0 _ _ whatever); [by apply emits_ask|]. intros block _. apply emits_ret. unfold keeps_option. cbn.
    split_and!; [done|done|by intros s ->|by intros s ->|by intros; apply Hz|by intros; apply Hz]. }
  unfold block_options. destruct (truthy (tt_refBlockBytes tx)) as [b|] eqn:E1, (truthy (tt_refBlockHash tx)) as [h|] eqn:E2; try exact Hb.
  destruct (is_set (tt_timestamp tx)), (is_set (tt_expiration tx)); try exact Hb. apply emits_ret. unfold keeps_option. cbn.
  split_and!; [done|done|by rewrite E1; intros s [= ->]|by rewrite E2; intros s [= ->]|by intros v -> _|by intros v -> _].
Qed.
Lemma validate_emits P w : emits P w 0 whatever (validate_tron tx).
Proof using.
  unfold validate_tron. apply (emits_try _ _ 0 0); [|intros; apply emits_throw]. apply (emits_bind _ _ 0 0 _ _ whatever); [by apply emits_ask|].
  intros [] _; cbn [negb]; [|apply emits_throw]. apply (emits_bind _ _ 0 0 _ _ whatever); [by apply emits_ask|]. intros _ _.
  destruct (tt_parameter tx) as [|tokens value contract data owner token]; [by apply emits_ret|]. destruct (truthy (Some contract)), (truthy data); try by apply emits_ret.
  apply (emits_try _ _ 0 0); [by apply emits_ask|]. intros. by apply emits_ret.
Qed.
Lemma build_tron_emits P w : emits P w 0 (fun built => encodes (tl_txID built)) (buildTronTransaction tx).
Proof using.
  unfold buildTronTransaction. cbv zeta. eapply (emits_bind _ _ 0 0); [apply options_emits|]. intros options (Hf & Hd & Hk).
  eapply (emits_bind _ _ 0 0); [apply emits_ofO; intros p E; exact E|]. intros parameter Hp.
  eapply (emits_bind _ _ 0 0); [apply emits_ofO; intros p E; exact E|]. intros [id hex] He.
  apply (emits_bind _ _ 0 0 _ _ whatever); [apply validate_emits|]. intros _ _. apply emits_ret. eexists _, id, hex. split_and!; [|exact He|done].
  unfold carries. cbn. by split_and!.
Qed.
Lemma round_receipt_emits startTime txID :
  emits tron_allowed is_broadcast 0 (fun r => forall result, r = ReceiptOf result -> receipt_failure r = None /\
    exists t, getUnconfirmedTransactionInfo t (tt_rpc tx) txID = Returned r) (receipt_round startTime (tt_rpc tx) txID).
Proof using.
  unfold receipt_round. apply (emits_bind _ _ 0 0 _ _ whatever); [by intros n; split; [apply extends_none|]|]. intros time _.
  destruct (_ <? _); [apply emits_throw|].
  apply (emits_bind _ _ 0 0 _ _ (fun r => r = EmptyReceipt \/ exists t, getUnconfirmedTransactionInfo t (tt_rpc tx) txID = Returned r)).
  { apply (emits_try _ _ 0 0); [apply emits_ask; intros t r E; right; by exists t|intros; apply emits_ret; by left]. }
  intros receipt Hr. destruct (receipt_failure receipt) eqn:Ef; [apply emits_throw|]. apply (emits_bind _ _ 0 0 _ _ whatever).
  - assert (emits tron_allowed is_broadcast 0 whatever (pause 1000)) as Hp by (apply (emits_perform tron_allowed is_broadcast (Paused 1000)); done).
    repeat case_match; first [exact Hp|by apply emits_ret].
  - intros _ _. apply emits_ret. intros result ->. split; [done|]. by destruct Hr as [Hr|Hr].
Qed.
Lemma await_receipt_emits rounds startTime txID : encodes txID ->
  emits tron_allowed is_broadcast 0 (fun _ => tron_settled) (await_receipt rounds startTime (tt_rpc tx) txID).
Proof using.
  intros He. induction rounds as [|n IH]; cbn [await_receipt]; [apply emits_throw|]. eapply (emits_bind _ _ 0 0); [apply round_receipt_emits|].
  intros [|result] Hr; [exact IH|]. apply emits_ret. destruct (Hr result eq_refl) as [Hf [t Ht]]. by exists txID, result, t.
Qed.
Lemma execute_tron_emits : emits tron_allowed is_broadcast 1 (fun _ => tron_settled) (executeTronTransaction settings tx).
Proof using.
  unfold executeTronTransaction. eapply (emits_bind _ _ 0 1); [apply build_tron_emits|]. intros built He.
  apply (emits_bind _ _ 0 1 _ _ whatever); [by apply asking_step; intros []|]. intros signature _. cbv zeta.
  apply (emits_bind _ _ 1 0 _ _ whatever).
  - apply (emits_perform tron_allowed is_broadcast (SentTron (tt_rpc tx) (tl_txID built) [toLowerCase (drop 2 signature)])); done.
  - intros result _. destruct (ts_result result); cbn [negb]; [|apply emits_throw].
    apply (emits_bind _ _ 0 0 _ _ whatever); [by intros n; split; [apply extends_none|]|]. intros startTime _.
    eapply (emits_bind _ _ 0 0); [by apply await_receipt_emits|]. intros receipt Hs. by apply emits_ret.
Qed.

(** *** The wait ends *)

Context (call_time_mono : forall t, call_time t <= call_time (S t)).
Lemma paused_app l1 l2 : paused_ms (l1 ++ l2) = paused_ms l1 + paused_ms l2.
Proof using. unfold paused_ms. induction l1 as [|x l IH]; [done|]. cbn [app foldr]. rewrite IH. destruct x; lia. Qed.
Lemma asked_later {A} (f : nat -> outcome A) n : now n <= now (ask f n).2.
Proof using call_time_mono. unfold now, ask. cbn [snd nt_time nt_log]. specialize (call_time_mono (nt_time n)). lia. Qed.
Lemma pause_later ms n : now n + ms <= now (pause ms n).2.
Proof using call_time_mono. unfold now, pause, perform. cbn [snd nt_time nt_log]. rewrite paused_app. change (paused_ms [Paused ms]) with (ms + 0). specialize (call_time_mono (nt_time n)). lia. Qed.
(** A round that goes on took a second at least. *)
Lemma round_later startTime txID n n' : receipt_round startTime (tt_rpc tx) txID n = (Returned EmptyReceipt, n') -> now n + 1000 <= now n'.
Proof using call_time_mono.
  assert (nwp (receipt_round startTime (tt_rpc tx) txID) (fun r n' => r = EmptyReceipt -> now n + 1000 <= now n') (fun _ _ => True) n) as H.
  { unfold receipt_round. apply nwp_bind. unfold nwp at 1. cbn [clockN]. destruct (_ <? _); [by apply nwp_throw|]. apply nwp_bind.
    apply (nwp_conseq _ (fun _ n1 => now n <= now n1) _ (fun _ _ => True)); [| |done].
    - apply nwp_try. pose proof (asked_later (fun t => getUnconfirmedTransactionInfo t (tt_rpc tx) txID) n) as Ha.
      apply nwp_ask; intros; [exact Ha|]. apply nwp_ret. exact Ha.
    - intros receipt n1 H1. destruct (receipt_failure receipt); [by apply nwp_throw|]. apply nwp_bind. pose proof (pause_later 1000 n1) as Hp.
      destruct receipt as [|[[|c r]|]]; [|by apply nwp_ret..|]; try (by apply nwp_ret); apply nwp_perform; intros; [apply nwp_ret; intros _|done].
      unfold acted. cbn [pause perform snd] in Hp. lia. }
  intros E. unfold nwp in H. rewrite E in H. by apply H.
Qed.
Lemma rounds_enough startTime txID rounds : forall n, (0 < rounds)%nat -> TRON_TIMEOUT_MS < now n - startTime + 1000 * (Z.of_nat rounds - 1) ->
  forall more, (rounds <= more)%nat -> await_receipt more startTime (tt_rpc tx) txID n = await_receipt rounds startTime (tt_rpc tx) txID n.
Proof using call_time_mono.
  induction rounds as [|r IH]; intros n H0 Ht [|more] Hm; try lia. cbn [await_receipt]. unfold mbind at 1 2, N_bind at 1 2.
  destruct (receipt_round startTime (tt_rpc tx) txID n) as [[[|result]|e] n'] eqn:Er; [|done|done]. destruct r as [|r].
  - exfalso. unfold receipt_round in Er. unfold mbind at 1, N_bind at 1 in Er. cbn [clockN] in Er. rewrite (proj2 (Z.ltb_lt _ _)) in Er by lia. done.
  - apply IH; [lia| |lia]. apply round_later in Er. lia.
Qed.
End TronSending.

(** ** Builders leave the nonces alone *)

Definition keeps_nonces {A} (c : N A) : Prop := forall n, nt_nextNonces (c n).2 = nt_nextNonces n.
Section Keeps.
Context {A A' : Type}.
Lemma nonces_ret (a : A) : keeps_nonces (mret a). Proof. done. Qed.
Lemma nonces_throw e : keeps_nonces (throwN (A := A) e). Proof. done. Qed.
Lemma nonces_ask (f : nat -> outcome A) : keeps_nonces (ask f). Proof. done. Qed.
Lemma nonces_ofO (o : outcome A) : keeps_nonces (ofO o). Proof. done. Qed.
Lemma nonces_bind (c : N A) (f : A -> N A') : keeps_nonces c -> (forall a, keeps_nonces (f a)) -> keeps_nonces (c ≫= f).
Proof. intros Hc Hf n. unfold mbind, N_bind. specialize (Hc n). destruct (c n) as [[a|e] n1]; [|done]. by rewrite Hf. Qed.
Lemma nonces_try (c : N A) h : keeps_nonces c -> (forall e, keeps_nonces (h e)) -> keeps_nonces (tryN c h).
Proof. intros Hc Hh n. unfold tryN. specialize (Hc n). destruct (c n) as [[a|e] n1]; [done|]. by rewrite Hh. Qed.
End Keeps.
Create HintDb nonces.
#[export] Hint Resolve nonces_ret nonces_throw nonces_ask nonces_ofO : nonces.
Ltac keeps := repeat first [progress auto with nonces | apply nonces_bind | apply nonces_try | match goal with |- forall _, _ => intro end | case_match].

Section Builders.
Context `{C : Chains, V : Viem, M : Mempool, B : BitcoinJs, S2 : Secp256k1, W : SolanaWeb3, T : TronWeb}.
Lemma check_all_keeps {A} (ok : A -> bool) message l : keeps_nonces (check_all ok message l).
Proof using. induction l; cbn [check_all]; [done|]. by case_match. Qed.
Lemma check_inputs_keeps url inputs : keeps_nonces (check_inputs url inputs).
Proof using. induction inputs as [|i rest IH]; cbn [check_inputs]; [done|]. apply nonces_bind; [|done]. unfold check_input. keeps. Qed.
Lemma lookup_tables_keeps rpc addresses : keeps_nonces (lookup_tables rpc addresses).
Proof using. induction addresses as [|a rest IH]; cbn [lookup_tables]; [done|]. keeps. Qed.
#[local] Hint Resolve check_all_keeps check_inputs_keeps lookup_tables_keeps : nonces.
Lemma build_other_keeps tx : keeps_nonces (build_other tx).
Proof using.
  destruct tx as [t|t|t|t]; cbn [build_other]; [done| | |]; (apply nonces_bind; [|keeps]).
  - unfold buildBitcoinTransaction. cbv zeta. keeps.
  - unfold buildSolanaTransaction, durable_nonce. keeps.
  - unfold buildTronTransaction, block_options, validate_tron. cbv zeta. keeps.
Qed.
End Builders.

(** ** Theorems *)

(** C30: A Bitcoin transaction that is built sends nothing yet; it spends exactly the
    outpoints of the manifest and pays exactly its addresses on its network, in
    order; every input is an output of the chain with the value and script of
    the manifest; and, for sums the numbers hold exactly, it pays no more than
    it spends. *)
Theorem bitcoin_build_conserves `{C : Chains, V : Viem, M : Mempool, B : BitcoinJs} schema n built n' :
  buildBitcoinTransaction schema n = (Returned built, n') ->
  nt_log n' = nt_log n /\ faithful schema built /\
  (foldr Z.add 0 (bi_value <$> bt_inputs schema) <= 2 ^ 53 -> foldr Z.add 0 (bo_value <$> bt_outputs schema) <= 2 ^ 53 ->
   foldr Z.add 0 (bo_value <$> bt_outputs schema) <= foldr Z.add 0 (bi_value <$> bt_inputs schema)).
Proof.
  intros E. pose proof (build_bitcoin_emits (fun _ => False) (fun _ => 0%nat) schema n) as H. unfold nwp in H. rewrite E in H. destruct H as [(l & El & Hl & _) Hf].
  split_and!; [|done|].
  - destruct l as [|x l]; [by rewrite app_nil_r in El|]. by apply Forall_cons in Hl as [[] _].
  - intros Hi Ho. destruct Hf as [_ _ [Vi Vo] Hfee]. unfold fee_of in Hfee. rewrite !total_exact in Hfee by done. cbn [sub_number] in Hfee.
    destruct (Z.le_gt_cases (foldr Z.add 0 (bo_value <$> bt_outputs schema)) (foldr Z.add 0 (bi_value <$> bt_inputs schema))) as [|Hlt]; [done|].
    assert (forall l, Forall (Z.le 0) l -> 0 <= foldr Z.add 0 l) as Hpos by (intros k; induction 1; cbn; lia).
    pose proof (Hpos _ Vi). pose proof (Hpos _ Vo). rewrite round_negative in Hfee by lia. cbn in Hfee. lia.
Qed.

Section Families.
Context `{C : Chains, V : Viem, M : Mempool, B : BitcoinJs, S2 : Secp256k1, W : SolanaWeb3, T : TronWeb}.
Definition family_allowed (tx : Transaction) (x : Effect) : Prop :=
  match tx with
  | BitcoinTransaction t => bitcoin_allowed t x
  | SolanaTransaction t => solana_allowed t x
  | TronTransaction t => tron_allowed t x
  | EvmTransaction _ => False
  end.
Definition family_settled (tx : Transaction) : Prop :=
  match tx with
  | BitcoinTransaction t => bitcoin_settled t
  | SolanaTransaction t => solana_settled t
  | TronTransaction t => tron_settled t
  | EvmTransaction _ => False
  end.
Lemma execute_other_emits settings nearRpc key tx :
  emits (family_allowed tx) is_broadcast 1 (fun _ => family_settled tx) (execute_other settings nearRpc key tx).
Proof using.
  destruct tx as [t|t|t|t]; [apply emits_throw|apply execute_bitcoin_emits|apply execute_solana_emits|apply execute_tron_emits].
Qed.
End Families.

(** Executing a transaction of another family broadcasts at most one
    transaction.  A Bitcoin transaction spends and pays what the manifest says,
    each input unlocked by the key recovered from a signature of its hash; a
    Solana transaction starts by advancing the manifest's nonce account and is
    signed by its sender and by the nonce authority; a Tron transaction carries
    the contract, fee limit, memo, permission and block fields of the manifest.
    It returns only when the network took the transaction, or for Bitcoin when
    an input was spent before. *)
Theorem families_send_once `{C : Chains, V : Viem, M : Mempool, B : BitcoinJs, S2 : Secp256k1, W : SolanaWeb3, T : TronWeb} settings nearRpc key tx n :
  exists l, nt_log (execute_other settings nearRpc key tx n).2 = nt_log n ++ l /\ Forall (family_allowed tx) l /\ (weight is_broadcast l <= 1)%nat /\
    ((execute_other settings nearRpc key tx n).1 = Returned tt -> family_settled tx).
Proof.
  pose proof (execute_other_emits settings nearRpc key tx n) as H. unfold nwp in H.
  destruct (execute_other settings nearRpc key tx n) as [[[]|e] n']; [destruct H as [(l & ? & ? & ?) ?]|destruct H as (l & ? & ? & ?)]; by exists l.
Qed.

(** C33: The wait for a Tron receipt ends by the clock: when calls do not take
    negative time and a pause its length, no number of rounds changes the
    outcome of the 62 rounds of the model. *)
Theorem tron_wait_ends `{C : Chains, V : Viem, T : TronWeb} tx txID rounds n :
  (forall t, call_time t <= call_time (S t)) -> (RECEIPT_ROUNDS <= rounds)%nat ->
  await_receipt rounds (now n) (tt_rpc tx) txID n = await_receipt RECEIPT_ROUNDS (now n) (tt_rpc tx) txID n.
Proof. intros Hm Hr. apply rounds_enough; [done|unfold RECEIPT_ROUNDS; lia| |done]. unfold TRON_TIMEOUT_MS, RECEIPT_ROUNDS. lia. Qed.

(** C25: In a bundle of transactions of any family that is built, the EVM
    transactions of a sender on a chain have increasing nonces; RPCs are assumed
    to answer with one chain id. *)
Theorem manifest_nonces_increase `{C : Chains, V : Viem, M : Mempool, B : BitcoinJs, W : SolanaWeb3, T : TronWeb}
    encodeSignatureCall chain transactions bundle n n' :
  (forall t rpc, getChainId t rpc = Returned (chain rpc)) ->
  createTransactionBundle build_other encodeSignatureCall transactions n = (Returned bundle, n') ->
  StronglySorted (in_order chain) transactions.
Proof.
  intros Hc Hb. pose proof (bundle_ordered build_other encodeSignatureCall (fun tx => build_other_keeps tx) chain Hc transactions n) as H.
  unfold nwp in H. rewrite Hb in H. apply H.
Qed.

(** ** A concrete network *)

Module ToyNetworks.
Definition txid : jsstring := List.concat (replicate 32 (js "0a")).
Definition mempool : Mempool := {|
  mempool_tx := fun _ _ _ => Returned (Some [{| mo_value := 1000; mo_scriptpubkey := js "76a9" |}]);
  mempool_outspend := fun _ _ _ _ => Returned (Some (false, None)); mempool_broadcast := fun _ _ _ => Returned (inr (js "sent")) |}.
Definition bitcoinjs : BitcoinJs := {|
  toOutputScript := fun address _ => Returned (TextEncoder_encode address); fromOutputScript := fun _ _ => Returned (js "owner");
  Satoshi_accepts := fun v => (0 <=? v) && (v <=? 2100000000000000); hashForSignature := fun _ _ _ => Returned [Byte.x0b];
  btx_toHex := fun tx => HexBytes.bytesToHex (mjoin (bin_script <$> btx_ins tx) ++ mjoin (bout_script <$> btx_outs tx)); btx_fromHex := fun _ => Returned tt;
  script_compile := fun parts => mjoin parts; p2pkh_address := fun _ _ => Returned (Some (js "owner")) |}.
Definition secp : Secp256k1 := {|
  parseSignature := fun s => Returned (s, s, Some 27); fromCompact := fun sig => Returned (take 2 sig); toDER := fun sig => sig;
  recoverPublicKey := fun _ _ _ => Returned [Byte.x02]; secp_verify := fun _ _ _ => true |}.
Definition web3 : SolanaWeb3 := {|
  getAddressLookupTable := fun _ _ _ => Returned true; getNonceAccount := fun _ _ _ => Returned None; compileToV0Message := fun _ => Returned [];
  simulateTransaction := fun _ _ _ => Returned true; takes_signature := fun _ _ _ => true; serializeSigned := fun _ => Returned [];
  sendSolana := fun _ _ _ => Returned tt; confirmTransaction := fun _ _ _ => Returned tt; bs58_encode := HexBytes.bytesToHex;
  near_public_key := fun s => Returned s; keypair_of := fun s => Returned s; keypair_sign := fun _ _ => []; nearSigner := fun _ _ => Returned (js "near");
  derived_public_key := fun _ _ _ _ _ _ => Returned (JStr (js "ed25519:key")) |}.
(** A node that never has a receipt. *)
Definition tronweb : TronWeb := {|
  getCurrentBlock := fun _ _ => Returned {| tb_number := 1; tb_blockID := []; tb_timestamp := 0 |}; address_toHex := fun s => Returned s;
  tron_encode := fun _ => Returned (js "0x0d", js "0E"); getAccount := fun _ _ _ => Returned true; getAccountResources := fun _ _ _ => Returned tt;
  triggerConstantContract := fun _ _ _ _ _ _ => Returned tt; sendTron := fun _ _ _ _ => Returned {| ts_result := true; ts_code := None |};
  getUnconfirmedTransactionInfo := fun _ _ _ => Returned EmptyReceipt; call_time := Z.of_nat |}.
#[export] Existing Instances mempool bitcoinjs secp web3 tronweb.
Definition payment : BitcoinTx := {|
  bt_feeRate := None; bt_inputs := [{| bi_scriptPubKey := js "76a9"; bi_txid := txid; bi_value := 1000; bi_vout := 0 |}]; bt_network := Some (js "mainnet");
  bt_outputs := [{| bo_address := js "bob"; bo_value := 900 |}] |}.
Definition transfer : TronTx := {|
  tt_expiration := None; tt_feeLimit := None; tt_from := js "T1"; tt_memo := None; tt_permissionId := 0; tt_refBlockBytes := None; tt_refBlockHash := None;
  tt_rpc := js "http://t"; tt_timestamp := None; tt_parameter := TransferContract 5 (js "T1") (js "T2") |}.
Definition manifest : list Transaction := [EvmTransaction (ToyChain.tx 3); BitcoinTransaction payment; EvmTransaction (ToyChain.tx 5); TronTransaction transfer].
End ToyNetworks.
Import ToyChain ToyNetworks.

Definition toy_built : BitcoinBuilt := {|
  bb_hashesToSign := [js "0x0b"]; bb_payload := js "0x" ++ HexBytes.bytesToHex (TextEncoder_encode (js "bob"));
  bb_transaction := {| bp_fee := JInt 100; bp_feeRate := 1;
    bp_inputs := [{| py_index := js "0x00000000"; py_script := js "0x76a9"; py_txid := js "0x" ++ ToyNetworks.txid; py_value := js "0xe803000000000000" |}];
    bp_outputs := [{| po_script := js "0x626f62"; po_value := js "0x8403000000000000" |}] |} |}.
Lemma toy_payment_built : buildBitcoinTransaction payment net = (Returned toy_built, (buildBitcoinTransaction payment net).2).
Proof. vm_compute. reflexivity. Qed.
Lemma bitcoin_build_witness : faithful payment toy_built /\ 900 <= 1000.
Proof.
  destruct (bitcoin_build_conserves payment net toy_built _ toy_payment_built) as (_ & Hf & Hs). split; [exact Hf|].
  exact (Hs ltac:(vm_compute; discriminate) ltac:(vm_compute; discriminate)).
Defined.
Lemma tron_wait_witness : await_receipt 100 (now net) (tt_rpc transfer) (js "0d") net = await_receipt RECEIPT_ROUNDS (now net) (tt_rpc transfer) (js "0d") net.
Proof. apply (tron_wait_ends transfer (js "0d") 100 net); [intros t; cbn; lia|unfold RECEIPT_ROUNDS; lia]. Defined.
(** It ends with the time limit. *)
Example tron_times_out : (await_receipt RECEIPT_ROUNDS (now net) (tt_rpc transfer) (js "0d") net).1 =
  Threw (new_Error (js "Transaction check timed out after 60 seconds")).
Proof. vm_compute. reflexivity. Qed.
Lemma toy_manifest_built : createTransactionBundle build_other plain_call manifest net =
  (Returned [js "0x0x02"; js "0x0b"; js "0x0x02"; js "0x0d"], (createTransactionBundle build_other plain_call manifest net).2).
Proof. vm_compute. reflexivity. Qed.
Lemma manifest_nonces_witness : StronglySorted (in_order (fun _ => 10)) manifest.
Proof. exact (manifest_nonces_increase plain_call (fun _ => 10) manifest _ net _ (fun _ _ => eq_refl) toy_manifest_built). Defined.

(** A transaction of a mainnet manifest, whose inputs are checked on mainnet,
    is broadcast to the testnet endpoint. *)
Theorem mainnet_goes_to_testnet :
  baseUrl payment = js "https://mempool.space/api" /\ (executeBitcoinTransaction settings payment net).1 = Returned tt /\
  exists hex, nt_log (executeBitcoinTransaction settings payment net).2 = [SentBitcoin (js "https://mempool.space/testnet/api/tx") hex].
Proof. split_and!; [vm_compute; reflexivity..|eexists; vm_compute; reflexivity]. Qed.
