(* ===== verification/LitBackend.v ===== *)
(** * Backends of the Lit account setup

    packages/lit-helpers/src: setup/backend.ts (the interface),
    chainSecured.ts and setup/backend-chain-secured.ts (calls to the account
    contract by JSON-RPC, signed transactions or collected calldata) and
    setup/backend-api-key.ts (the REST API).  The nodes, the API, the ABI codec
    and the signer are parameters.  The second half is the two backends. *)

From S2P Require Import Prelude JsNum JsString JsNumber JsJson Scanner HexBytes Abi IndexerTransfers IndexerRoles IndexerLanes IndexerQueries MultisigManifest.
Local Open Scope Z_scope.
Local Open Scope js_scope.

(** ** Computations over a state *)

Definition P (S A : Type) : Type := S -> outcome A * S.
#[export] Instance P_ret {S} : MRet (P S) := fun A a s => (Returned a, s).
#[export] Instance P_bind {S} : MBind (P S) := fun A B f c s => match c s with (Returned a, s') => f a s' | (Threw e, s') => (Threw e, s') end.
Definition throwP {S A} (e : JsError) : P S A := fun s => (Threw e, s).
Definition tryP {S A} (c : P S A) (h : JsError -> P S A) : P S A := fun s =>
  match c s with (Returned a, s') => (Returned a, s') | (Threw e, s') => h e s' end.
Definition ofOutcome {S A} (o : outcome A) : P S A := fun s => (o, s).
Definition ofResult {S A} (r : result A) : P S A := fun s => (match r with Ok a => Returned a | Err m => Threw (new_Error (js m)) end, s).

(** ** setup/backend.ts *)

Record PkpInfo := { pk_walletAddress : jsstring; pk_name : option jsstring; pk_description : option jsstring }.
Record GroupInfo := { gi_id : Z; gi_name : jsstring; gi_description : option jsstring }.
Record ActionInfo := { ai_actionHash : Z; ai_cid : option jsstring; ai_name : option jsstring; ai_description : option jsstring }.
Record UpdateGroupParams := {
  ug_name : jsstring; ug_description : jsstring; ug_pkpIdsPermitted : list jsstring; ug_cidHashesPermitted : list Z }.
Inductive SetupMode := ApiKeyMode | ChainSecuredMode.
Record SetupBackend (S : Type) := {
  sb_mode : SetupMode;
  listPkps : P S (list PkpInfo); listGroups : P S (list GroupInfo); listActions : P S (list ActionInfo);
  listUsageApiKeys : P S (list jsstring); listPkpsInGroup : Z -> P S (list PkpInfo); listActionsInGroup : Z -> P S (list ActionInfo);
  createPkp : P S jsstring;
  addGroup : jsstring -> jsstring -> list Z -> list jsstring -> P S Z;
  addPkpToGroup : Z -> jsstring -> P S unit;
  addAction : jsstring -> jsstring -> jsstring -> P S unit;
  addActionToGroup : Z -> jsstring -> P S unit;
  removeActionFromGroup : Z -> Z -> P S unit;
  removeAction : Z -> P S unit;
  updateGroup : Z -> UpdateGroupParams -> P S unit;
  createUsageApiKey : jsstring -> jsstring -> list Z -> P S jsstring }.
Arguments sb_mode {S} b : rename.
Arguments listPkps {S} b : rename.
Arguments listGroups {S} b : rename.
Arguments listActions {S} b : rename.
Arguments listUsageApiKeys {S} b : rename.
Arguments listPkpsInGroup {S} b groupId : rename.
Arguments listActionsInGroup {S} b groupId : rename.
Arguments createPkp {S} b : rename.
Arguments addGroup {S} b name description cidHashes pkpIds : rename.
Arguments addPkpToGroup {S} b groupId pkpId : rename.
Arguments addAction {S} b name description cid : rename.
Arguments addActionToGroup {S} b groupId cid : rename.
Arguments removeActionFromGroup {S} b groupId actionHash : rename.
Arguments removeAction {S} b actionHash : rename.
Arguments updateGroup {S} b groupId params : rename.
Arguments createUsageApiKey {S} b name description executeInGroupIds : rename.

(** ** The environment *)

Inductive RpcRequest :=
  | EthCall (to data : jsstring)
  | GetTransactionCount (address : jsstring)
  | FeeHistory
  | EstimateGas (from to data : jsstring)
  | SendRawTransaction (raw : jsstring)
  | GetTransactionReceipt (hash : jsstring).
(** A response: its status, its [retry-after] header, its body. *)
Record HttpReply := { hp_status : Z; hp_retryAfter : option jsstring; hp_body : Json }.
(** The calls of the account contract, with the names of its ABI. *)
Inductive ContractWrite :=
  | C_addGroup (apiKeyHash : Z) (name description : jsstring) (cidHashes : list Z) (pkpIds : list jsstring)
  | C_updateGroup (accountApiKeyHash groupId : Z) (name description : jsstring) (cidHashes : list Z) (pkpIds : list jsstring)
  | C_addAction (accountApiKeyHash : Z) (name description : jsstring) (actionHash : Z)
  | C_removeAction (accountApiKeyHash actionHash : Z)
  | C_addActionToGroup (apiKeyHash groupId action : Z)
  | C_removeActionFromGroup (apiKeyHash groupId action : Z)
  | C_addPkpToGroup (apiKeyHash groupId : Z) (pkpId : jsstring)
  | C_registerWalletDerivation (apiKeyHash : Z) (pkpId : jsstring) (derivationPath : Z) (name description : jsstring)
  | C_setUsageApiKey (accountApiKeyHash usageApiKeyHash expiration balance : Z) (name description : jsstring) (createGroups deleteGroups createPKPs : bool)
      (manageIPFSIdsInGroups addPkpToGroups removePkpFromGroups executeInGroups : list Z)
  | C_removeUsageApiKey (accountApiKeyHash usageApiKeyHash : Z)
  | C_transferChainSecuredAccountOwnership (apiKeyHash : Z) (newAdminWalletAddress : jsstring).
(** The rows of its views. *)
Record MetadataRow := { mr_id : Z; mr_name : jsstring; mr_description : jsstring }.
Record WalletRow := { wr_id : Z; wr_pkpId : jsstring; wr_name : jsstring; wr_description : jsstring }.
Record RawApiKeyRow := {
  ak_metadata : MetadataRow; ak_apiKeyHash : Z; ak_expiration : Z; ak_balance : Z; ak_executeInGroups : list Z; ak_createGroups : bool;
  ak_deleteGroups : bool; ak_createPKPs : bool; ak_manageIPFSIdsInGroups : list Z; ak_addPkpToGroups : list Z; ak_removePkpFromGroups : list Z }.
Inductive ContractView : Type -> Type :=
  | V_listGroups : ContractView MetadataRow
  | V_listPkps : ContractView WalletRow
  | V_listActions : ContractView MetadataRow
  | V_listWalletsInGroup (groupId : Z) : ContractView WalletRow
  | V_listActionsInGroup (groupId : Z) : ContractView MetadataRow
  | V_listApiKeys : ContractView RawApiKeyRow.

Record LitTransaction := {
  lt_to : jsstring; lt_nonce : Z; lt_value : Z; lt_data : jsstring; lt_chainId : Z; lt_maxFeePerGas : Z; lt_maxPriorityFeePerGas : Z; lt_gasLimit : Z }.
Record Minted := { mt_wallet_address : jsstring; mt_derivation_path : jsstring; mt_usage_api_key : jsstring }.
Inductive PrimaryType := CreateWallet | AddUsageApiKey | ConvertAccount.
Class LitEnv := {
  rpc_fetch : nat -> RpcRequest -> outcome HttpReply;
  date_now : nat -> Z;
  encodeWrite : ContractWrite -> outcome bytes;
  encodeView : forall R, ContractView R -> Z -> Z -> Z -> outcome bytes;
  decodeOutput : forall R, ContractView R -> bytes -> outcome (list R);
  fromPrivateKey : jsstring -> outcome jsstring;
  signBy : LitTransaction -> jsstring -> outcome jsstring;
  signTyped : Json -> jsstring -> outcome jsstring;
  keccak_256 : bytes -> bytes;
  (** [create_wallet_with_signature] and [add_usage_api_key_with_signature]. *)
  with_signature : nat -> PrimaryType -> Json -> jsstring -> outcome Minted }.

(** The bodies that are posted; a group id is a number there. *)
Inductive ApiPost :=
  | A_create_wallet
  | A_add_group (name description : jsstring) (pkp_ids_permitted cid_hashes_permitted : list jsstring)
  | A_add_pkp_to_group (group_id : jsnum) (pkp_id : jsstring)
  | A_add_action (action_ipfs_cid name description : jsstring)
  | A_add_action_to_group (group_id : jsnum) (action_ipfs_cid : jsstring)
  | A_remove_action_from_group (group_id : jsnum) (hashed_cid : jsstring)
  | A_delete_action (hashed_cid : jsstring)
  | A_update_group (group_id : jsnum) (name description : jsstring) (pkp_ids_permitted cid_hashes_permitted : list jsstring)
  | A_add_usage_api_key (name description : jsstring) (execute_in_groups : list jsnum).

(** What leaves the process, and how long it waits. *)
Inductive LitEffect := Fetched (r : RpcRequest) | Signed (t : PrimaryType) | Slept (ms : jsnum) | Requested (method path : jsstring).
Record EncodedCall := { ec_to : jsstring; ec_data : jsstring; ec_value : jsstring; ec_description : option jsstring }.
(** [rpcLastCallAt], the calls of the collector, and the bodies that the API-key
    backend has posted, on which the answers of the REST API depend. *)
Record LitWorld := { lw_time : nat; lw_lastCallAt : Z; lw_log : list LitEffect; lw_calls : list EncodedCall; lw_posts : list ApiPost }.

Section Chain.
Context `{E : LitEnv}.
Abbreviation L := (P LitWorld).

Definition ticked (x : list LitEffect) (w : LitWorld) : LitWorld := {|
  lw_time := S (lw_time w); lw_lastCallAt := lw_lastCallAt w; lw_log := lw_log w ++ x; lw_calls := lw_calls w; lw_posts := lw_posts w |}.
Definition act {A} (x : LitEffect) (f : nat -> outcome A) : L A := fun w => (f (lw_time w), ticked [x] w).
Definition sleep (ms : jsnum) : L unit := act (Slept ms) (fun _ => Returned tt).
Definition Date_now : L Z := fun w => (Returned (date_now (lw_time w)), ticked [] w).
Definition lastCallAt : L Z := fun w => (Returned (lw_lastCallAt w), w).
Definition set_lastCallAt (t : Z) : L unit := fun w =>
  (Returned tt, {| lw_time := lw_time w; lw_lastCallAt := t; lw_log := lw_log w; lw_calls := lw_calls w; lw_posts := lw_posts w |}).

(** ** Hex and hashes *)

Definition toHex (l : bytes) : jsstring := js "0x" ++ HexBytes.bytesToHex l.
Definition fromHex (hex : jsstring) : bytes :=
  parse_pairs (match hex with 48 :: (120 | 88) :: rest => rest | _ => hex end).
Definition keccak_text (s : jsstring) : Z := HexBytes.bytesToBigInt (keccak_256 (TextEncoder_encode s)).
Definition hashCidToBigInt (cid : jsstring) : Z := keccak_text cid.

(** ** JSON-RPC *)

Definition RPC_THROTTLE_MS : Z := 150.
Definition RPC_MAX_RETRIES : nat := 6.
Definition RPC_INITIAL_BACKOFF_MS : Z := 1000.
Definition rpc_method (r : RpcRequest) : jsstring :=
  match r with
  | EthCall _ _ => js "eth_call" | GetTransactionCount _ => js "eth_getTransactionCount" | FeeHistory => js "eth_feeHistory"
  | EstimateGas _ _ _ => js "eth_estimateGas" | SendRawTransaction _ => js "eth_sendRawTransaction"
  | GetTransactionReceipt _ => js "eth_getTransactionReceipt"
  end.
(** [Number.parseFloat(s) * 1000] of digits with a fraction; other texts are not
    numbers. *)
Definition retry_after_ms (s : jsstring) : jsnum :=
  match re_span is_digit (trim s) with
  | ([], _) => JNaN
  | (digits, rest) =>
      let fraction := match rest with 46 :: f => fst (re_span is_digit f) | _ => [] end in
      round_double (digits_value (digits ++ fraction) * 1000) (10 ^ Z.of_nat (length fraction))
  end.
Definition max_number (x : jsnum) (b : Z) : jsnum := match x with JNaN => JNaN | _ => if int_gt b x then JInt b else x end.
Definition retryable (status : Z) : bool := (status =? 429) || (500 <=? status) && (status <? 600).
Definition is_ok (status : Z) : bool := (200 <=? status) && (status <? 300).
Definition rpc_result (r : RpcRequest) (body : Json) : outcome Json :=
  match body with
  | JObj fields =>
      match map_get (js "error") fields with
      | Some error => match json_get "message" error with
                      | Returned m => Threw (new_Error (js "RPC error for " ++ rpc_method r ++ js ": " ++ template_text m))
                      | Threw e => Threw e
                      end
      | None => Returned (default JUndefined (map_get (js "result") fields))
      end
  | _ => Threw (new_Error (js "TypeError"))
  end.
Fixpoint rpc_attempts (left_attempts : nat) (backoff : Z) (r : RpcRequest) : L Json :=
  match left_attempts with
  | O => throwP (new_Error (js "RPC unreachable for " ++ rpc_method r))
  | S n =>
      now ← Date_now;
      _ ← set_lastCallAt now;
      res ← act (Fetched r) (fun t => rpc_fetch t r);
      if retryable (hp_status res) then
        if Nat.eqb n 0 then throwP (new_Error (js "RPC HTTP " ++ toString10 (hp_status res) ++ js " for " ++ rpc_method r ++ js " after 6 attempts"))
        else
          _ ← sleep (max_number (match truthy (hp_retryAfter res) with Some s => retry_after_ms s | None => JInt 0 end) backoff);
          rpc_attempts n (backoff * 2) r
      else if negb (is_ok (hp_status res)) then
        throwP (new_Error (js "RPC HTTP " ++ toString10 (hp_status res) ++ js " for " ++ rpc_method r ++ js ": " ++ template_text (hp_body res)))
      else ofOutcome (rpc_result r (hp_body res))
  end.
Definition rpcCall (r : RpcRequest) : L Json :=
  now ← Date_now;
  last ← lastCallAt;
  _ ← (if now - last <? RPC_THROTTLE_MS then sleep (JInt (RPC_THROTTLE_MS - (now - last))) else mret tt);
  rpc_attempts RPC_MAX_RETRIES RPC_INITIAL_BACKOFF_MS r.
Definition text_result (v : Json) : L jsstring := ofOutcome (json_text v).
Definition ethCall (contractAddress : jsstring) (calldata : bytes) : L (option bytes) :=
  result ← rpcCall (EthCall contractAddress (toHex calldata));
  match result with
  | JStr s => mret (if bool_decide (s = []) || bool_decide (s = js "0x") then None else Some (fromHex s))
  | JNull | JUndefined => mret None
  | _ => throwP (new_Error (js "TypeError"))
  end.

(** A list view: one page, widened while it comes back full. *)
Fixpoint read_widening {T} (attempts : nat) (pageSize : Z) (address : jsstring) (encodeInput : Z -> Z -> outcome bytes)
  (decode : bytes -> outcome (list T)) : L (list T) :=
  match attempts with
  | O => throwP (new_Error (js "readAll exceeded 5 widen attempts at pageSize=" ++ toString10 pageSize))
  | S n =>
      calldata ← ofOutcome (encodeInput 0 pageSize);
      raw ← ethCall address calldata;
      match raw with
      | None => mret []
      | Some raw =>
          items ← ofOutcome (decode raw);
          if Z.of_nat (length items) <? pageSize then mret items else read_widening n (pageSize * 4) address encodeInput decode
      end
  end.
Definition readAll {T} (address : jsstring) (encodeInput : Z -> Z -> outcome bytes) (decode : bytes -> outcome (list T)) : L (list T) :=
  read_widening 5 100 address encodeInput decode.

(** ** Signatures and transactions *)

Definition primary_name (t : PrimaryType) : string :=
  match t with CreateWallet => "CreateWallet" | AddUsageApiKey => "AddUsageApiKey" | ConvertAccount => "ConvertAccount" end.
Definition abi_field (name type : string) : Json := JObj [(js "name", JStr (js name)); (js "type", JStr (js type))].
Definition typed_data (t : PrimaryType) (address : jsstring) (chainId issuedAt : Z) : Json := JObj [
  (js "types", JObj [
     (js "EIP712Domain", JArr [abi_field "name" "string"; abi_field "version" "string"; abi_field "chainId" "uint256"]);
     (js (primary_name t), JArr [abi_field "address" "address"; abi_field "issuedAt" "uint256"])]);
  (js "primaryType", JStr (js (primary_name t)));
  (js "domain", JObj [(js "name", JStr (js "Lit ChainSecured")); (js "version", JStr (js "1")); (js "chainId", JStr (toString10 chainId))]);
  (js "message", JObj [(js "address", JStr address); (js "issuedAt", JStr (toString10 issuedAt))])].
Definition signChainSecuredTypedData (t : PrimaryType) (address : jsstring) (chainId : Z) (privateKey : jsstring) : L (Json * jsstring) :=
  now ← Date_now;
  let data := typed_data t address chainId (now / 1000) in
  signature ← ofOutcome (signTyped data privateKey);
  mret (data, signature).
Definition mint_with_signature (t : PrimaryType) (address : jsstring) (chainId : Z) (privateKey : jsstring) : L Minted :=
  '(data, signature) ← signChainSecuredTypedData t address chainId privateKey;
  act (Signed t) (fun time => with_signature time t data signature).

Definition PLACEHOLDER_HASH : jsstring := js "0x" ++ replicate 64 48.
Definition record (to : jsstring) (calldata : bytes) (description : option jsstring) : L jsstring := fun w =>
  (Returned PLACEHOLDER_HASH, {| lw_time := lw_time w; lw_lastCallAt := lw_lastCallAt w; lw_log := lw_log w; lw_posts := lw_posts w;
     lw_calls := lw_calls w ++ [{| ec_to := to; ec_data := toHex calldata; ec_value := js "0x0"; ec_description := description |}] |}).
Definition base_fee (history : Json) : outcome Z :=
  match json_get "baseFeePerGas" history with
  | Threw e => Threw e
  | Returned (JArr (JStr fee :: _)) => match BigInt fee with Ok z => Returned z | Err m => Threw (new_Error (js m)) end
  | Returned (JArr (JNum fee :: _)) => Returned fee
  | Returned (JArr (JNull :: _)) | Returned (JArr []) | Returned JUndefined | Returned JNull => Returned 1
  | Returned _ => Threw (new_Error (js "TypeError"))
  end.
(** [for (let i = 0; i < 60; i++)]. *)
Fixpoint wait_mined (rounds : nat) (txHash : jsstring) : L jsstring :=
  match rounds with
  | O => throwP (new_Error (js "Transaction not mined after 2 minutes: " ++ txHash))
  | S n =>
      _ ← sleep (JInt 2000);
      receipt ← rpcCall (GetTransactionReceipt txHash);
      match receipt with
      | JNull | JUndefined => wait_mined n txHash
      | _ => status ← ofOutcome (json_get "status" receipt);
             match status with
             | JStr s => if bool_decide (s = js "0x1") then mret txHash else throwP (new_Error (js "Transaction reverted: " ++ txHash))
             | _ => throwP (new_Error (js "Transaction reverted: " ++ txHash))
             end
      end
  end.
Definition sendTransaction_lit (chainId : Z) (privateKey to : jsstring) (calldata : bytes) (collector : bool) (description : option jsstring) : L jsstring :=
  if collector then record to calldata description
  else
    fromAddress ← ofOutcome (fromPrivateKey privateKey);
    nonceHex ← (v ← rpcCall (GetTransactionCount fromAddress); text_result v);
    history ← rpcCall FeeHistory;
    baseFee ← ofOutcome (base_fee history);
    gasEstimate ← (v ← rpcCall (EstimateGas fromAddress to (toHex calldata)); text_result v);
    gas ← ofResult (BigInt gasEstimate);
    nonce ← ofResult (BigInt nonceHex);
    signed ← ofOutcome (signBy {| lt_to := to; lt_nonce := nonce; lt_value := 0; lt_data := toHex calldata; lt_chainId := chainId;
                                  lt_maxFeePerGas := baseFee * 2 + 1000000; lt_maxPriorityFeePerGas := 1000000; lt_gasLimit := Z.quot (gas * 12) 10 |} privateKey);
    txHash ← (v ← rpcCall (SendRawTransaction signed); text_result v);
    wait_mined 60 txHash.
End Chain.

(** ** The two backends of the Lit account setup

    packages/lit-helpers/src/setup: the class of backend-chain-secured.ts with
    the balance and removal of usage keys, the class of backend-api-key.ts, and
    create-usage-api-key.ts. *)

Local Open Scope Z_scope.
Local Open Scope js_scope.

Definition DEFAULT_BASE_CHAIN_ID : Z := 8453.
Definition DEFAULT_ACCOUNT_CONFIG_ADDRESS : jsstring := js "0xaaaaa9120fe271f653cfdb6bf400db93d2dea7aa".
Definition DEFAULT_USAGE_API_KEY_BALANCE : Z := 10000000.
Definition DEFAULT_USAGE_API_KEY_LIFETIME_SECONDS : Z := 10 * 365 * 24 * 60 * 60.
Definition PLACEHOLDER_GROUP_ID : Z := -1.
Definition quoted (s : jsstring) : jsstring := 34 :: s ++ [34].

(** ** backend-chain-secured.ts *)

Record InternalOptions := {
  op_privateKey : option jsstring; op_adminHash : Z; op_pkpName : jsstring; op_pkpDescription : jsstring; op_collector : bool; op_adminWallet : jsstring }.

Section ChainSecured.
Context `{E : LitEnv}.
Abbreviation L := (P LitWorld).

Definition defaultUsageApiKeyExpiration : L Z := now ← Date_now; mret (now / 1000 + DEFAULT_USAGE_API_KEY_LIFETIME_SECONDS).
Definition normalize_key (key : jsstring) : jsstring := if startsWith key (js "0x") then key else js "0x" ++ key.

Section Backend.
Context (opts : InternalOptions).
Definition send (call : ContractWrite) (description : jsstring) : L jsstring :=
  calldata ← ofOutcome (encodeWrite call);
  sendTransaction_lit DEFAULT_BASE_CHAIN_ID (default [] (op_privateKey opts)) DEFAULT_ACCOUNT_CONFIG_ADDRESS calldata (op_collector opts) (Some description).
Definition view {R} (v : ContractView R) : L (list R) :=
  readAll DEFAULT_ACCOUNT_CONFIG_ADDRESS (fun page size => encodeView R v (op_adminHash opts) page size) (decodeOutput R v).
Definition wallet_info (r : WalletRow) : PkpInfo := {| pk_walletAddress := wr_pkpId r; pk_name := Some (wr_name r); pk_description := Some (wr_description r) |}.
(** The id of an action is its hash; a removed one has the id 0. *)
Definition action_infos (rows : list MetadataRow) : list ActionInfo :=
  (fun r => {| ai_actionHash := mr_id r; ai_cid := None; ai_name := Some (mr_name r); ai_description := Some (mr_description r) |}) <$>
  List.filter (fun r => negb (mr_id r =? 0)) rows.
Definition chain_listPkps : L (list PkpInfo) := rows ← view V_listPkps; mret (wallet_info <$> rows).
Definition chain_listGroups : L (list GroupInfo) :=
  rows ← view V_listGroups; mret ((fun r => {| gi_id := mr_id r; gi_name := mr_name r; gi_description := Some (mr_description r) |}) <$> rows).
Definition chain_listActions : L (list ActionInfo) := rows ← view V_listActions; mret (action_infos rows).
Definition chain_listUsageApiKeys : L (list jsstring) := rows ← view V_listApiKeys; mret ((fun r => mr_name (ak_metadata r)) <$> rows).
Definition chain_listActionsInGroup (groupId : Z) : L (list ActionInfo) := rows ← view (V_listActionsInGroup groupId); mret (action_infos rows).
Definition chain_listPkpsInGroup (groupId : Z) : L (list PkpInfo) := rows ← view (V_listWalletsInGroup groupId); mret (wallet_info <$> rows).

Definition assertCanSign (operation : string) : L jsstring :=
  match op_collector opts, truthy (op_privateKey opts) with
  | false, Some key => mret key
  | _, _ => throwP (new_Error (js operation ++ js " needs an admin signature and cannot be emitted as calldata. Provision it before transferring ownership, or run in broadcast mode with a private key."))
  end.
Definition chain_createPkp : L jsstring :=
  key ← assertCanSign "createPkp";
  minted ← mint_with_signature CreateWallet (op_adminWallet opts) DEFAULT_BASE_CHAIN_ID key;
  path ← ofResult (BigInt (mt_derivation_path minted));
  _ ← send (C_registerWalletDerivation (op_adminHash opts) (mt_wallet_address minted) path (op_pkpName opts) (op_pkpDescription opts))
        (js "registerWalletDerivation (PKP)");
  mret (mt_wallet_address minted).
Definition find_group (name : jsstring) (groups : list GroupInfo) : option GroupInfo := List.find (fun g => bool_decide (gi_name g = name)) groups.
Definition created_group (name : jsstring) (groups : list GroupInfo) : outcome Z :=
  match find_group name groups with
  | Some g => Returned (gi_id g)
  | None => Threw (new_Error (js "Failed to find group " ++ quoted name ++ js " after creation"))
  end.
Definition chain_addGroup (name description : jsstring) (cidHashes : list Z) (pkpIds : list jsstring) : L Z :=
  _ ← send (C_addGroup (op_adminHash opts) name description cidHashes pkpIds) (js "addGroup " ++ quoted name);
  if op_collector opts then mret PLACEHOLDER_GROUP_ID
  else groups ← chain_listGroups; ofOutcome (created_group name groups).
Definition in_group (operation : string) (groupId : Z) : jsstring := js operation ++ js " (group " ++ toString10 groupId ++ js ")".
Definition done {A} (c : L A) : L unit := _ ← c; mret tt.
Definition chain_addPkpToGroup (groupId : Z) (pkpId : jsstring) : L unit :=
  done (send (C_addPkpToGroup (op_adminHash opts) groupId pkpId) (in_group "addPkpToGroup" groupId)).
Definition chain_addAction (name description cid : jsstring) : L unit :=
  done (send (C_addAction (op_adminHash opts) name description (hashCidToBigInt cid)) (js "addAction " ++ quoted name)).
Definition chain_addActionToGroup (groupId : Z) (cid : jsstring) : L unit :=
  done (send (C_addActionToGroup (op_adminHash opts) groupId (hashCidToBigInt cid)) (in_group "addActionToGroup" groupId)).
(** Removals only report their failure. *)
Definition best_effort (c : L unit) : L unit := tryP c (fun _ => mret tt).
Definition chain_removeActionFromGroup (groupId actionHash : Z) : L unit :=
  best_effort (done (send (C_removeActionFromGroup (op_adminHash opts) groupId actionHash) (in_group "removeActionFromGroup" groupId))).
Definition chain_removeAction (actionHash : Z) : L unit := best_effort (done (send (C_removeAction (op_adminHash opts) actionHash) (js "removeAction"))).
Definition chain_updateGroup (groupId : Z) (params : UpdateGroupParams) : L unit :=
  done (send (C_updateGroup (op_adminHash opts) groupId (ug_name params) (ug_description params) (ug_cidHashesPermitted params) (ug_pkpIdsPermitted params))
          (in_group "updateGroup" groupId)).
Definition chain_createUsageApiKey (name description : jsstring) (executeInGroupIds : list Z) : L jsstring :=
  key ← assertCanSign "createUsageApiKey";
  minted ← mint_with_signature AddUsageApiKey (op_adminWallet opts) DEFAULT_BASE_CHAIN_ID key;
  path ← ofResult (BigInt (mt_derivation_path minted));
  _ ← send (C_registerWalletDerivation (op_adminHash opts) (mt_wallet_address minted) path name description) (js "registerWalletDerivation (usage key)");
  expiration ← defaultUsageApiKeyExpiration;
  _ ← send (C_setUsageApiKey (op_adminHash opts) (keccak_text (mt_usage_api_key minted)) expiration DEFAULT_USAGE_API_KEY_BALANCE name description
              false false false [] [] [] executeInGroupIds) (js "setUsageApiKey " ++ quoted name);
  mret (mt_usage_api_key minted).
Definition chain_backend : SetupBackend LitWorld := {|
  sb_mode := ChainSecuredMode; listPkps := chain_listPkps; listGroups := chain_listGroups; listActions := chain_listActions;
  listUsageApiKeys := chain_listUsageApiKeys; listPkpsInGroup := chain_listPkpsInGroup; listActionsInGroup := chain_listActionsInGroup;
  createPkp := chain_createPkp; addGroup := chain_addGroup; addPkpToGroup := chain_addPkpToGroup; addAction := chain_addAction;
  addActionToGroup := chain_addActionToGroup; removeActionFromGroup := chain_removeActionFromGroup; removeAction := chain_removeAction;
  updateGroup := chain_updateGroup; createUsageApiKey := chain_createUsageApiKey |}.
End Backend.

Definition createChainSecuredBackend (privateKey : option jsstring) (accountApiKey pkpName pkpDescription : jsstring) (collector : bool)
  : outcome (SetupBackend LitWorld) :=
  match truthy privateKey with
  | None =>
      if collector then Returned (chain_backend {| op_privateKey := privateKey; op_adminHash := keccak_text accountApiKey; op_pkpName := pkpName;
                                                   op_pkpDescription := pkpDescription; op_collector := true; op_adminWallet := [] |})
      else Threw (new_Error (js "createChainSecuredBackend requires either a privateKey (broadcast) or a collector (calldata mode)"))
  | Some key =>
      match fromPrivateKey (normalize_key key) with
      | Threw e => Threw e
      | Returned address =>
          Returned (chain_backend {| op_privateKey := Some (normalize_key key); op_adminHash := keccak_text accountApiKey; op_pkpName := pkpName;
                                     op_pkpDescription := pkpDescription; op_collector := collector; op_adminWallet := toLowerCase address |})
      end
  end.

(** ** Usage keys *)

Record UsageKeyTarget := { ut_name : option jsstring; ut_usageApiKeyHash : option Z }.
Definition readAllApiKeys (adminHash : Z) : L (list RawApiKeyRow) :=
  readAll DEFAULT_ACCOUNT_CONFIG_ADDRESS (fun page size => encodeView _ V_listApiKeys adminHash page size) (decodeOutput _ V_listApiKeys).
Definition check_target (operation : string) (target : UsageKeyTarget) : outcome unit :=
  match truthy (ut_name target), ut_usageApiKeyHash target with
  | None, None => Threw (new_Error (js operation ++ js ": target.name or target.usageApiKeyHash is required"))
  | Some _, Some _ => Threw (new_Error (js operation ++ js ": pass either target.name or target.usageApiKeyHash, not both"))
  | _, _ => Returned tt
  end.
Definition check_signer (operation : string) (privateKey : option jsstring) (collector : bool) : outcome jsstring :=
  match truthy privateKey with
  | Some key => Returned (normalize_key key)
  | None => if collector then Returned [] else Threw (new_Error (js operation ++ js " requires either privateKey (broadcast) or collector (calldata mode)"))
  end.
Definition matches_target (target : UsageKeyTarget) (row : RawApiKeyRow) : bool :=
  match truthy (ut_name target) with
  | Some name => bool_decide (mr_name (ak_metadata row) = name)
  | None => bool_decide (ut_usageApiKeyHash target = Some (ak_apiKeyHash row))
  end.
(** [newBalance] or, with [preserveBalance], the balance that is there. *)
Definition check_balance (newBalance : option Z) (preserveBalance : bool) : outcome unit :=
  match newBalance, preserveBalance with
  | None, false => Threw (new_Error (js "setUsageApiKeyBalance requires either newBalance or preserveBalance"))
  | Some _, true => Threw (new_Error (js "setUsageApiKeyBalance: pass either newBalance or preserveBalance, not both"))
  | _, _ => Returned tt
  end.
Definition key_not_found (target : UsageKeyTarget) : JsError :=
  new_Error (js "usage API key not found: " ++
    match ut_name target with Some name => name | None => js "hash=0x" ++ match ut_usageApiKeyHash target with Some h => number_hex h | None => js "undefined" end end).
Definition rewritten_key (adminHash : Z) (row : RawApiKeyRow) (newExpiration newBalance : option Z) : ContractWrite :=
  C_setUsageApiKey adminHash (ak_apiKeyHash row) (default (ak_expiration row) newExpiration) (default (ak_balance row) newBalance)
    (mr_name (ak_metadata row)) (mr_description (ak_metadata row)) (ak_createGroups row) (ak_deleteGroups row) (ak_createPKPs row)
    (ak_manageIPFSIdsInGroups row) (ak_addPkpToGroups row) (ak_removePkpFromGroups row) (ak_executeInGroups row).
Definition setUsageApiKeyBalance (privateKey : option jsstring) (accountApiKey : jsstring) (target : UsageKeyTarget) (newBalance : option Z)
  (preserveBalance collector : bool) (newExpiration : option Z) : L jsstring :=
  _ ← ofOutcome (check_target "setUsageApiKeyBalance" target);
  key ← ofOutcome (check_signer "setUsageApiKeyBalance" privateKey collector);
  _ ← ofOutcome (check_balance newBalance preserveBalance);
  let adminHash := keccak_text accountApiKey in
  rows ← readAllApiKeys adminHash;
  match List.find (matches_target target) rows with
  | None => throwP (key_not_found target)
  | Some row =>
      calldata ← ofOutcome (encodeWrite (rewritten_key adminHash row newExpiration newBalance));
      sendTransaction_lit DEFAULT_BASE_CHAIN_ID key DEFAULT_ACCOUNT_CONFIG_ADDRESS calldata collector
        (Some (js "setUsageApiKey " ++ quoted (mr_name (ak_metadata row)) ++ (if preserveBalance then js " (no-op)" else js " (balance)")))
  end.
Definition removeUsageApiKey (privateKey : option jsstring) (accountApiKey : jsstring) (target : UsageKeyTarget) (collector : bool) : L jsstring :=
  _ ← ofOutcome (check_target "removeUsageApiKey" target);
  key ← ofOutcome (check_signer "removeUsageApiKey" privateKey collector);
  let adminHash := keccak_text accountApiKey in
  hash ← (match ut_usageApiKeyHash target with
          | Some hash => mret hash
          | None =>
              rows ← readAllApiKeys adminHash;
              match List.find (fun row => bool_decide (Some (mr_name (ak_metadata row)) = ut_name target)) rows with
              | Some row => mret (ak_apiKeyHash row)
              | None => throwP (new_Error (js "usage API key not found: " ++ default (js "undefined") (ut_name target)))
              end
          end);
  calldata ← ofOutcome (encodeWrite (C_removeUsageApiKey adminHash hash));
  sendTransaction_lit DEFAULT_BASE_CHAIN_ID key DEFAULT_ACCOUNT_CONFIG_ADDRESS calldata collector (Some (js "removeUsageApiKey")).
End ChainSecured.

(** ** backend-api-key.ts *)

Inductive RawId := NumberId (n : Z) | TextId (s : jsstring).
Record RawWalletInfo := { rw_wallet_address : jsstring; rw_memo : option jsstring }.
Record RawGroupInfo := { rg_id : RawId; rg_name : jsstring; rg_description : option jsstring }.
Record RawActionInfo := {
  ra_id : RawId; ra_name : option jsstring; ra_description : option jsstring; ra_ipfs_cid : option jsstring; ra_action_ipfs_cid : option jsstring;
  ra_cid : option jsstring; ra_hashed_cid : option jsstring; ra_cid_hash : option jsstring; ra_action_ipfs_cid_hash : option jsstring }.
(** The lists of the API and the type of their rows. *)
Inductive ListPath := list_wallets | list_groups | list_actions | list_api_keys | list_wallets_in_group (groupId : Z) | list_actions_in_group (groupId : Z).
Definition row_of (p : ListPath) : Type :=
  match p with
  | list_wallets | list_wallets_in_group _ => RawWalletInfo
  | list_groups => RawGroupInfo
  | list_actions | list_actions_in_group _ => RawActionInfo
  | list_api_keys => jsstring
  end.
(** The API: a page of a list, and the answer to a post, a usage key for the last
    one.  They depend on the time and on what was posted before.  A response that
    is not ok throws an error with its status. *)
Class ChipotleApi := {
  api_list : nat -> list ApiPost -> forall p : ListPath, Z -> Z -> outcome (list (row_of p));
  api_post : nat -> list ApiPost -> ApiPost -> outcome jsstring }.

Section ApiKey.
Context `{E : LitEnv, A : ChipotleApi}.
Abbreviation L := (P LitWorld).
(** A bound on the pages of a list, given what was posted. *)
Context (max_pages : list ApiPost -> ListPath -> nat).

Definition PAGE_SIZE : Z := 50.
Definition path_text (p : ListPath) : jsstring :=
  match p with
  | list_wallets => js "/list_wallets" | list_groups => js "/list_groups" | list_actions => js "/list_actions" | list_api_keys => js "/list_api_keys"
  | list_wallets_in_group g => js "/list_wallets_in_group?group_id=" ++ toString10 g
  | list_actions_in_group g => js "/list_actions_in_group?group_id=" ++ toString10 g
  end.
Definition page_path (p : ListPath) (page : Z) : jsstring :=
  path_text p ++ (if includes (path_text p) (js "?") then js "&" else js "?") ++ js "page_number=" ++ toString10 page ++ js "&page_size=" ++ toString10 PAGE_SIZE.
Definition get_page (p : ListPath) (page : Z) : L (list (row_of p)) := fun w =>
  (api_list (lw_time w) (lw_posts w) p page PAGE_SIZE, ticked [Requested (js "GET") (page_path p page)] w).
Fixpoint list_pages (fuel : nat) (p : ListPath) (page : Z) : L (list (row_of p)) :=
  match fuel with
  | O => throwP (new_Error (js "too many pages"))
  | S n =>
      items ← get_page p page;
      if Z.of_nat (length items) <? PAGE_SIZE then mret items
      else others ← list_pages n p (page + 1); mret (items ++ others)
  end.
Definition listAll (p : ListPath) : L (list (row_of p)) := fun w => list_pages (max_pages (lw_posts w) p) p 0 w.
Definition post_path (b : ApiPost) : jsstring :=
  match b with
  | A_create_wallet => js "/create_wallet" | A_add_group _ _ _ _ => js "/add_group" | A_add_pkp_to_group _ _ => js "/add_pkp_to_group"
  | A_add_action _ _ _ => js "/add_action" | A_add_action_to_group _ _ => js "/add_action_to_group"
  | A_remove_action_from_group _ _ => js "/remove_action_from_group" | A_delete_action _ => js "/delete_action"
  | A_update_group _ _ _ _ _ => js "/update_group" | A_add_usage_api_key _ _ _ => js "/add_usage_api_key"
  end.
Definition posted (b : ApiPost) (w : LitWorld) : LitWorld := {|
  lw_time := lw_time w; lw_lastCallAt := lw_lastCallAt w; lw_log := lw_log w; lw_calls := lw_calls w; lw_posts := lw_posts w ++ [b] |}.
Definition post (b : ApiPost) : L jsstring := fun w =>
  (api_post (lw_time w) (lw_posts w) b,
   posted b (ticked [Requested (match b with A_create_wallet => js "GET" | _ => js "POST" end) (post_path b)] w)).

Definition hash_text (h : Z) : jsstring := js "0x" ++ padStart 64 48 (number_hex h).
Definition idToBigInt (id : RawId) : outcome Z :=
  match id with NumberId n => Returned n | TextId s => match BigInt s with Ok z => Returned z | Err m => Threw (new_Error (js m)) end end.
Definition nullish {X} (a b : option X) : option X := match a with Some _ => a | None => b end.
Definition cidOfRaw (a : RawActionInfo) : option jsstring := nullish (ra_action_ipfs_cid a) (nullish (ra_ipfs_cid a) (ra_cid a)).
Definition bigint_of (s : jsstring) : outcome (option Z) := match BigInt s with Ok z => Returned (Some z) | Err m => Threw (new_Error (js m)) end.
Definition hashedCidOfRaw (a : RawActionInfo) : outcome (option Z) :=
  match truthy (cidOfRaw a) with
  | Some cid => Returned (Some (hashCidToBigInt cid))
  | None =>
      match truthy (nullish (ra_hashed_cid a) (nullish (ra_cid_hash a) (ra_action_ipfs_cid_hash a))) with
      | Some explicit => bigint_of explicit
      | None => match ra_id a with
                | TextId s => if after_0x (fun d => Nat.eqb (length d) 64 && forallb is_hex_digit d) s then bigint_of s else Returned None
                | NumberId _ => Returned None
                end
      end
  end.
Fixpoint action_list (raw : list RawActionInfo) : outcome (list ActionInfo) :=
  match raw with
  | [] => Returned []
  | a :: rest =>
      match hashedCidOfRaw a, action_list rest with
      | Threw e, _ | Returned _, Threw e => Threw e
      | Returned None, Returned infos => Returned infos
      | Returned (Some h), Returned infos =>
          Returned ({| ai_actionHash := h; ai_cid := cidOfRaw a; ai_name := ra_name a; ai_description := ra_description a |} :: infos)
      end
  end.
Fixpoint group_list (raw : list RawGroupInfo) : outcome (list GroupInfo) :=
  match raw with
  | [] => Returned []
  | g :: rest =>
      match idToBigInt (rg_id g), group_list rest with
      | Threw e, _ | Returned _, Threw e => Threw e
      | Returned id, Returned groups => Returned ({| gi_id := id; gi_name := rg_name g; gi_description := rg_description g |} :: groups)
      end
  end.
Definition raw_wallet (w : RawWalletInfo) : PkpInfo := {| pk_walletAddress := rw_wallet_address w; pk_name := None; pk_description := rw_memo w |}.
Definition api_listPkps : L (list PkpInfo) := raw ← listAll list_wallets; mret (raw_wallet <$> raw).
Definition api_listGroups : L (list GroupInfo) := raw ← listAll list_groups; ofOutcome (group_list raw).
Definition api_listActions : L (list ActionInfo) := raw ← listAll list_actions; ofOutcome (action_list raw).
Definition api_listUsageApiKeys : L (list jsstring) := listAll list_api_keys.
Definition api_listPkpsInGroup (groupId : Z) : L (list PkpInfo) := raw ← listAll (list_wallets_in_group groupId); mret (raw_wallet <$> raw).
(** An endpoint that is missing counts as no actions. *)
Definition api_listActionsInGroup (groupId : Z) : L (list ActionInfo) :=
  tryP (raw ← listAll (list_actions_in_group groupId); ofOutcome (action_list raw)) (fun _ => mret []).
Definition api_createPkp : L jsstring :=
  before ← api_listPkps;
  let beforeAddrs := (fun w => toLowerCase (pk_walletAddress w)) <$> before in
  _ ← post A_create_wallet;
  after ← api_listPkps;
  match List.find (fun w => bool_decide (toLowerCase (pk_walletAddress w) ∉ beforeAddrs)) after with
  | Some created => mret (pk_walletAddress created)
  | None => throwP (new_Error (js "Failed to find newly created PKP wallet"))
  end.
Definition api_addGroup (name description : jsstring) (cidHashes : list Z) (pkpIds : list jsstring) : L Z :=
  _ ← post (A_add_group name description pkpIds (hash_text <$> cidHashes));
  groups ← api_listGroups;
  ofOutcome (created_group name groups).
Definition api_addPkpToGroup (groupId : Z) (pkpId : jsstring) : L unit := done (post (A_add_pkp_to_group (Number_of_bigint groupId) pkpId)).
Definition api_addAction (name description cid : jsstring) : L unit := done (post (A_add_action cid name description)).
Definition api_addActionToGroup (groupId : Z) (cid : jsstring) : L unit :=
  tryP (done (post (A_add_action_to_group (Number_of_bigint groupId) cid)))
    (fun e => if includes (er_message e) (js "409") || includes (toLowerCase (er_message e)) (js "already") then mret tt else throwP e).
Definition api_removeActionFromGroup (groupId actionHash : Z) : L unit :=
  best_effort (done (post (A_remove_action_from_group (Number_of_bigint groupId) (hash_text actionHash)))).
Definition api_removeAction (actionHash : Z) : L unit := best_effort (done (post (A_delete_action (hash_text actionHash)))).
Definition api_updateGroup (groupId : Z) (params : UpdateGroupParams) : L unit :=
  done (post (A_update_group (Number_of_bigint groupId) (ug_name params) (ug_description params) (ug_pkpIdsPermitted params)
                (hash_text <$> ug_cidHashesPermitted params))).
Definition api_createUsageApiKey (name description : jsstring) (executeInGroupIds : list Z) : L jsstring :=
  post (A_add_usage_api_key name description (Number_of_bigint <$> executeInGroupIds)).
Definition api_backend : SetupBackend LitWorld := {|
  sb_mode := ApiKeyMode; listPkps := api_listPkps; listGroups := api_listGroups; listActions := api_listActions; listUsageApiKeys := api_listUsageApiKeys;
  listPkpsInGroup := api_listPkpsInGroup; listActionsInGroup := api_listActionsInGroup; createPkp := api_createPkp; addGroup := api_addGroup;
  addPkpToGroup := api_addPkpToGroup; addAction := api_addAction; addActionToGroup := api_addActionToGroup;
  removeActionFromGroup := api_removeActionFromGroup; removeAction := api_removeAction; updateGroup := api_updateGroup;
  createUsageApiKey := api_createUsageApiKey |}.
End ApiKey.
