(* ===== verification/LitSetup.v ===== *)
(** * Setting up the Lit Actions

    packages/lit-allocator/scripts and packages/lit-deposit-address/scripts:
    env.ts (arguments and environments) and setup.ts (the idempotent setup of
    the wallet, the group, its actions and the usage key), and
    packages/lit-helpers/src/setup/create-usage-api-key.ts.  The two setups
    differ in their texts and in the names of the bundled action files; the
    files, and the endpoint that computes the CID of a piece of code, are
    parameters. *)

From S2P Require Import Prelude JsNum JsString JsNumber JsJson Scanner HexBytes IndexerTransfers IndexerRoles IndexerLanes IndexerQueries MultisigManifest LitBackend.
Local Open Scope Z_scope.
Local Open Scope js_scope.

(** ** Arguments *)

Fixpoint option_value (args : list jsstring) (name : jsstring) : option (option jsstring) :=
  match args with [] => None | a :: rest => if bool_decide (a = name) then Some (head rest) else option_value rest name end.
(** [--name value] or [--name=value]. *)
Definition getOption (args : list jsstring) (name : string) : option jsstring :=
  match option_value args (js name) with
  | Some value => value
  | None => let prefix := js name ++ js "=" in
            (fun a => drop (length prefix) a) <$> List.find (fun a => startsWith a prefix) args
  end.
Definition has_flag (args : list jsstring) (name : string) : bool := bool_decide (js name ∈ args).

Definition allocator_environments : list jsstring := [js "dev"; js "stag"; js "prod"; js "test"].
Definition deposit_environments : list jsstring := [js "dev"; js "stag"; js "prod"].
Fixpoint env_args (args : list jsstring) (envName : option jsstring) (rest : list jsstring) : outcome (option jsstring * list jsstring) :=
  match args with
  | [] => Returned (envName, rest)
  | arg :: args' =>
      if bool_decide (arg = js "--env") then
        match args' with
        | ((_ :: _) as value) :: args'' => env_args args'' (Some value) rest
        | _ => Threw (new_Error (js "--env requires a value"))
        end
      else if startsWith arg (js "--env=") then env_args args' (Some (drop 6 arg)) rest
      else env_args args' envName (rest ++ [arg])
  end.
Definition parseEnvArg (names : list jsstring) (args : list jsstring) : outcome (option jsstring * list jsstring) :=
  match env_args args None [] with
  | Returned (Some envName, rest) =>
      if bool_decide (envName ∈ names) then Returned (Some envName, rest)
      else Threw (new_Error (js "unsupported environment: " ++ envName ++ js ". Supported: " ++ join_with (js ", ") names))
  | other => other
  end.

(** ** Environments *)

Record LighterApiKey := { lk_apiKeyIndex : Z; lk_publicKey : jsstring }.
(** An environment, with the numbers and texts its file has. *)
Record Environment := {
  en_name : jsstring; en_address : jsstring; en_hubEvmChainId : Z; en_allowedOracles : list jsstring; en_oracleSignatureThreshold : Z;
  en_lighterGateway : option jsstring; en_lighterGatewayChainId : option Z; en_lighterAllowedApiKeys : option (list LighterApiKey) }.
Definition hex_address (s : jsstring) : bool := after_0x (fun d => Nat.eqb (length d) 40 && forallb is_hex_digit d) s.
Definition valid_lighter_key (k : LighterApiKey) : bool :=
  let publicKey := match lk_publicKey k with 48 :: 120 :: rest => rest | s => s end in
  (0 <=? lk_apiKeyIndex k) && (lk_apiKeyIndex k <=? 255) && forallb is_hex_digit publicKey && negb (Nat.eqb (length publicKey) 0) &&
  Nat.eqb (length publicKey mod 2) 0.
Definition opt_all {X} (ok : X -> bool) (x : option X) : bool := match x with Some v => ok v | None => true end.
Definition validateEnvironment (names : list jsstring) (env : Environment) : bool :=
  bool_decide (en_name env ∈ names) && hex_address (en_address env) && (0 <=? en_hubEvmChainId env) &&
  negb (Nat.eqb (length (en_allowedOracles env)) 0) && forallb hex_address (en_allowedOracles env) && (1 <=? en_oracleSignatureThreshold env) &&
  (en_oracleSignatureThreshold env <=? Z.of_nat (length (en_allowedOracles env))) && opt_all hex_address (en_lighterGateway env) &&
  opt_all (Z.leb 1) (en_lighterGatewayChainId env) && opt_all (forallb valid_lighter_key) (en_lighterAllowedApiKeys env).

(** ** Flags and backend *)

Record Flags := { fl_dryRun : bool; fl_calldata : bool; fl_pkpId : option jsstring }.
(** Exactly one of [--create-pkp] and [--pkp-id]; no [--calldata] with
    [--dry-run] or [--create-pkp]. *)
Definition parse_flags (args : list jsstring) : outcome Flags :=
  let dryRun := has_flag args "--dry-run" in
  let calldata := has_flag args "--calldata" in
  let createPkp := has_flag args "--create-pkp" in
  let pkpId := truthy (trim <$> getOption args "--pkp-id") in
  if Bool.eqb createPkp (bool_decide (is_Some pkpId)) then Threw (new_Error (js "setup requires exactly one of --create-pkp or --pkp-id <address>."))
  else if calldata && dryRun then Threw (new_Error (js "--calldata and --dry-run are mutually exclusive."))
  else if calldata && createPkp then Threw (new_Error (js "--calldata cannot mint a PKP (it needs a live admin signature); pass --pkp-id <address>."))
  else Returned {| fl_dryRun := dryRun; fl_calldata := calldata; fl_pkpId := pkpId |}.

Section Backends.
Context `{E : LitEnv, A : ChipotleApi} (max_pages : list ApiPost -> ListPath -> nat).
Definition buildBackend (pkpName pkpDescription : jsstring) (args : list jsstring) : outcome (SetupBackend LitWorld) :=
  let mode := getOption args "--mode" in
  if negb (bool_decide (mode ∈ [Some (js "api-key"); Some (js "chain-secured")])) then
    Threw (new_Error (js "setup requires --mode api-key or --mode chain-secured"))
  else match truthy (getOption args "--account-api-key") with
  | None => Threw (new_Error (js "setup requires --account-api-key <key>"))
  | Some accountApiKey =>
      let calldata := has_flag args "--calldata" in
      if bool_decide (mode = Some (js "api-key")) then
        if calldata then Threw (new_Error (js "--calldata is only supported with --mode chain-secured")) else Returned (api_backend max_pages)
      else if calldata then createChainSecuredBackend None accountApiKey pkpName pkpDescription true
      else match truthy (getOption args "--private-key") with
      | None => Threw (new_Error (js "--mode chain-secured requires --private-key <hex> (or --calldata)"))
      | Some key => createChainSecuredBackend (Some key) accountApiKey pkpName pkpDescription false
      end
  end.
End Backends.

(** ** The bundled actions *)

(** The directories of the candidates: [../actions] and [../dist/actions] of the
    script, and [dist/actions] of the working directory. *)
Inductive BundleDir := script_actions | script_dist_actions | cwd_dist_actions.
(** [readFileSync]: the text, or an error, [ENOENT] or another one. *)
Inductive FileRead := FileText (s : jsstring) | FileMissing | FileError (e : JsError).
(** The files, and the answer of [/get_lit_action_ipfs_id] to a piece of code. *)
Class ActionBundles := {
  read_bundle : BundleDir -> jsstring -> jsstring -> FileRead;
  ipfs_id : nat -> jsstring -> outcome HttpReply }.

Definition ACTION_BASENAMES (vm : jsstring) : jsstring :=
  default (js "undefined") (map_get vm [
    (js "gateway-vm", js "gateway"); (js "ethereum-vm", js "ethereum"); (js "bitcoin-vm", js "bitcoin"); (js "tron-vm", js "tron");
    (js "solana-vm", js "solana"); (js "ton-vm", js "ton"); (js "hyperliquid-vm", js "hyperliquid"); (js "lighter-vm", js "lighter"); (js "xrp-vm", js "xrp");
    (js "hedera-vm", js "hedera")]).
Definition actionBasenameForVm (vmType : jsstring) : jsstring := ACTION_BASENAMES vmType.
(** The files and the message of each package. *)
Record BundleTexts := { bt_filename : jsstring -> jsstring; bt_file : jsstring }.
Definition allocator_bundles : BundleTexts := {| bt_filename := fun vm => actionBasenameForVm vm ++ js ".js"; bt_file := js "action" |}.
Definition deposit_bundles : BundleTexts := {| bt_filename := fun vm => vm ++ js ".js"; bt_file := js "action file" |}.

Section Bundles.
Context `{B : ActionBundles} (names : BundleTexts) (envName : jsstring).
Fixpoint first_bundle (candidates : list BundleDir) (vmType : jsstring) : outcome jsstring :=
  match candidates with
  | [] => Threw (new_Error (js "bundled " ++ vmType ++ js " " ++ bt_file names ++ js " not found for " ++ envName ++
                            js ". Run `npm run bundle:actions -- --env " ++ envName ++ js "` first."))
  | dir :: rest =>
      match read_bundle dir envName (bt_filename names vmType) with
      | FileText code => Returned code
      | FileMissing => first_bundle rest vmType
      | FileError e => Threw e
      end
  end.
Definition loadBundledActionFile (vmType : jsstring) : outcome jsstring :=
  first_bundle [script_actions; script_dist_actions; cwd_dist_actions] vmType.
(** [/core/v1/get_lit_action_ipfs_id] of the REST API, whichever backend is in
    use. *)
Definition IPFS_ID_PATH : jsstring := js "/get_lit_action_ipfs_id".
Definition getLitActionIpfsCid (code : jsstring) : P LitWorld jsstring :=
  res ← act (Requested (js "POST") IPFS_ID_PATH) (fun t => ipfs_id t code);
  if negb (is_ok (hp_status res)) then
    throwP (new_Error (js "get_lit_action_ipfs_id failed (" ++ toString10 (hp_status res) ++ js "): " ++ template_text (hp_body res)))
  else match hp_body res with
  | JStr cid => mret (List.filter (fun c => negb (c =? 34)) cid)
  | _ => throwP (new_Error (js "TypeError"))
  end.
(** The target CID of a VM. *)
Definition bundled_cid (vmType : jsstring) : P LitWorld jsstring :=
  code ← ofOutcome (loadBundledActionFile vmType);
  getLitActionIpfsCid code.
End Bundles.

(** ** The setup *)

(** What the setups of the two packages call things: a group description may
    keep the one that is there. *)
Record SetupTexts := {
  tx_groupName : jsstring; tx_usageKeyName : jsstring; tx_vms : list jsstring; tx_actionName : jsstring -> jsstring;
  tx_actionDescription : jsstring -> jsstring; tx_groupDescription : jsstring; tx_updateDescription : option jsstring -> jsstring;
  tx_usageDescription : jsstring }.
Definition ALLOCATOR_VM_TYPES : list jsstring := [
  js "gateway-vm"; js "ethereum-vm"; js "tron-vm"; js "solana-vm"; js "ton-vm"; js "bitcoin-vm"; js "hyperliquid-vm"; js "lighter-vm"; js "xrp-vm"; js "hedera-vm"].
Definition ACTION_DESCRIPTIONS (vm : jsstring) : jsstring :=
  let names := [(js "gateway-vm", js "Circle Gateway"); (js "ethereum-vm", js "Ethereum"); (js "bitcoin-vm", js "Bitcoin"); (js "tron-vm", js "Tron");
    (js "solana-vm", js "Solana"); (js "ton-vm", js "TON"); (js "hyperliquid-vm", js "Hyperliquid"); (js "lighter-vm", js "Lighter"); (js "xrp-vm", js "XRP");
    (js "hedera-vm", js "Hedera")] in
  js "Lit Allocator " ++ default (js "undefined") (map_get vm names) ++ js " signing action".
Definition allocator_texts (env : jsstring) : SetupTexts := {|
  tx_groupName := js "allocator-" ++ env; tx_usageKeyName := js "allocator-" ++ env ++ js "-usage-key"; tx_vms := ALLOCATOR_VM_TYPES;
  tx_actionName := fun vm => js "allocator-" ++ env ++ js "-action-" ++ vm; tx_actionDescription := ACTION_DESCRIPTIONS;
  tx_groupDescription := js "Lit Allocator signing group"; tx_updateDescription := fun _ => js "Lit Allocator signing group";
  tx_usageDescription := js "Usage key for Lit Allocator" |}.
Definition DEPOSIT_VM_TYPES : list jsstring := [js "ethereum-vm"; js "bitcoin-vm"; js "solana-vm"; js "hyperliquid-vm"; js "ton-vm"; js "tron-vm"].
Definition deposit_texts (env : jsstring) : SetupTexts := {|
  tx_groupName := js "deposit-address-" ++ env; tx_usageKeyName := js "deposit-address-" ++ env ++ js "-usage-key"; tx_vms := DEPOSIT_VM_TYPES;
  tx_actionName := fun vm => js "deposit-address-" ++ env ++ js "-action-" ++ vm;
  tx_actionDescription := fun vm => js "Lit Deposit Address signing action (" ++ vm ++ js ")";
  tx_groupDescription := js "Lit Deposit Address signing group"; tx_updateDescription := default (js "Lit Deposit Address signing group");
  tx_usageDescription := js "Usage key for Lit Deposit Address" |}.

Section Setup.
Context {S : Type} (backend : SetupBackend S) (texts : SetupTexts) (flags : Flags).
(** The target CID of a VM, [bundled_cid] over the backends of this package, and
    the registry key of a CID. *)
Context (target_cid : jsstring -> P S jsstring) (hash_cid : jsstring -> Z).

Definition NEW_PKP : jsstring := js "<new-pkp-wallet>".
Definition resolve_pkp : P S jsstring :=
  match fl_pkpId flags with
  | Some provided =>
      wallets ← listPkps backend;
      match List.find (fun w => bool_decide (toLowerCase (pk_walletAddress w) = toLowerCase provided)) wallets with
      | Some existing => mret (pk_walletAddress existing)
      | None => throwP (new_Error (js "--pkp-id not found in account wallets: " ++ provided))
      end
  | None => if fl_dryRun flags then mret NEW_PKP else createPkp backend
  end.
(** The group's wallets in lower case, with the one that is added. *)
Definition ensure_member (group : option GroupInfo) (pkpId : jsstring) : P S (list PkpInfo * list jsstring) :=
  match group with
  | None => mret ([], [])
  | Some g =>
      walletsInGroup ← listPkpsInGroup backend (gi_id g);
      let current := (fun w => toLowerCase (pk_walletAddress w)) <$> walletsInGroup in
      if bool_decide (toLowerCase pkpId ∈ current) || fl_dryRun flags then mret (walletsInGroup, current)
      else _ ← addPkpToGroup backend (gi_id g) pkpId; mret (walletsInGroup, current ++ [toLowerCase pkpId])
  end.
Fixpoint target_cids (vms : list jsstring) : P S (list (jsstring * jsstring)) :=
  match vms with [] => mret [] | vm :: rest => cid ← target_cid vm; others ← target_cids rest; mret ((vm, cid) :: others) end.
Definition add_hash (h : Z) (l : list Z) : list Z := if bool_decide (h ∈ l) then l else l ++ [h].
Definition hash_set (l : list Z) : list Z := foldl (fun set h => add_hash h set) [] l.
Definition is_stale (targets : list Z) (a : ActionInfo) : bool :=
  match ai_name a with
  | Some name => bool_decide (name ∈ (tx_actionName texts <$> tx_vms texts)) && negb (bool_decide (ai_actionHash a ∈ targets))
  | None => false
  end.
Fixpoint prune (group : option GroupInfo) (stale : list ActionInfo) (attached : list Z) : P S (list Z) :=
  match stale with
  | [] => mret attached
  | a :: rest =>
      if fl_dryRun flags then prune group rest attached
      else
        attached ← (match group with
                    | Some g => _ ← removeActionFromGroup backend (gi_id g) (ai_actionHash a);
                                mret (List.filter (fun h => negb (bool_decide (h = ai_actionHash a))) attached)
                    | None => mret attached
                    end);
        _ ← removeAction backend (ai_actionHash a);
        prune group rest attached
  end.
Fixpoint register (group : option GroupInfo) (existing : list ActionInfo) (targets : list (jsstring * jsstring)) (attached : list Z) : P S (list Z) :=
  match targets with
  | [] => mret attached
  | (vm, cid) :: rest =>
      _ ← (if existsb (fun a => bool_decide (ai_actionHash a = hash_cid cid)) existing || fl_dryRun flags then mret tt
           else addAction backend (tx_actionName texts vm) (tx_actionDescription texts vm) cid);
      attached ← (match group with
                  | None => mret attached
                  | Some g => if bool_decide (hash_cid cid ∈ attached) || fl_dryRun flags then mret attached
                              else _ ← addActionToGroup backend (gi_id g) cid; mret (attached ++ [hash_cid cid])
                  end);
      register group existing rest attached
  end.
Definition text_set (l : list jsstring) : list jsstring := foldl (fun set x => if bool_decide (x ∈ set) then set else set ++ [x]) [] l.
Definition permissions_in_sync (permitted current : list jsstring) (attached targets : list Z) : bool :=
  forallb (fun p => bool_decide (toLowerCase p ∈ current)) permitted &&
  (Nat.eqb (length attached) (length targets) && forallb (fun h => bool_decide (h ∈ attached)) targets).
(** Create the group with its permissions, or bring them up to date; the id
    when it is known. *)
Definition sync_group (group : option GroupInfo) (permitted current : list jsstring) (attached hashes : list Z) : P S (option Z) :=
  match group with
  | None =>
      if fl_dryRun flags then mret None
      else newId ← addGroup backend (tx_groupName texts) (tx_groupDescription texts) hashes permitted;
           mret (if fl_calldata flags then None else Some newId)
  | Some g =>
      if permissions_in_sync permitted current attached (hash_set hashes) || fl_dryRun flags then mret (Some (gi_id g))
      else _ ← updateGroup backend (gi_id g) {| ug_name := tx_groupName texts; ug_description := tx_updateDescription texts (gi_description g);
                                               ug_pkpIdsPermitted := permitted; ug_cidHashesPermitted := hashes |};
           mret (Some (gi_id g))
  end.
Definition ensure_key (groupId : option Z) : P S (option jsstring) :=
  existingKeys ← listUsageApiKeys backend;
  if bool_decide (tx_usageKeyName texts ∈ existingKeys) || fl_dryRun flags || fl_calldata flags then mret None
  else match groupId with
  | None => throwP (new_Error (js "group " ++ quoted (tx_groupName texts) ++ js " does not exist yet"))
  | Some id => key ← createUsageApiKey backend (tx_usageKeyName texts) (tx_usageDescription texts) [id]; mret (Some key)
  end.
(** The wallet and the new usage key, if any. *)
Definition setup : P S (jsstring * option jsstring) :=
  pkpId ← resolve_pkp;
  groups ← listGroups backend;
  let group := find_group (tx_groupName texts) groups in
  '(walletsInGroup, current) ← ensure_member group pkpId;
  existing ← listActions backend;
  actionsInGroup ← (match group with Some g => listActionsInGroup backend (gi_id g) | None => mret [] end);
  let attached := hash_set (ai_actionHash <$> actionsInGroup) in
  targets ← target_cids (tx_vms texts);
  let hashes := (fun t => hash_cid t.2) <$> targets in
  attached ← prune group (List.filter (is_stale hashes) existing) attached;
  attached ← register group existing targets attached;
  let permitted := text_set ((pk_walletAddress <$> walletsInGroup) ++ [pkpId]) in
  groupId ← sync_group group permitted current attached hashes;
  key ← ensure_key groupId;
  mret (pkpId, key).

(** ** create-usage-api-key.ts *)

Definition create_usage_key (groupPrefix envName : jsstring) (args : list jsstring) : P S jsstring :=
  let groupName := groupPrefix ++ js "-" ++ envName in
  match truthy (getOption args "--name"), truthy (getOption args "--description") with
  | None, _ => throwP (new_Error (js "create-usage-api-key requires --name <usage-key-name>"))
  | Some _, None => throwP (new_Error (js "create-usage-api-key requires --description <text>"))
  | Some usageKeyName, Some description =>
      groups ← listGroups backend;
      match find_group groupName groups with
      | None => throwP (new_Error (js "group not found: " ++ groupName ++ js ". Run setup first."))
      | Some group =>
          existingKeys ← listUsageApiKeys backend;
          if bool_decide (usageKeyName ∈ existingKeys) then
            throwP (new_Error (js "usage API key already exists: " ++ usageKeyName ++ js ". Choose a different --name."))
          else createUsageApiKey backend usageKeyName description [gi_id group]
      end
  end.
End Setup.
