(* ===== verification/LitProofs.v ===== *)
(** * Properties of the Lit backends

    Reading a list of the account contract by widening pages, rewriting a usage
    key, and the calldata mode, which broadcasts nothing. *)

From S2P Require Import Prelude JsNum JsString JsNumber JsJson Scanner HexBytes Abi IndexerTransfers IndexerRoles IndexerLanes IndexerQueries MultisigManifest LitBackend LitSetup.
Local Open Scope Z_scope.
Local Open Scope js_scope.

(** ** A contract that answers *)

Section Answers.
Context `{E : LitEnv}.

(** The node answers the call [data] with [out], and the calls are not
    restarted. *)
Definition answers (to data out : jsstring) : Prop :=
  forall t, rpc_fetch t (EthCall to data) = Returned {| hp_status := 200; hp_retryAfter := None; hp_body := JObj [(js "result", JStr out)] |}.
(** The sizes of the pages that [readAll] asks for: 100, and four times as much
    each time it widens. *)
Definition page_size (k : nat) : Z := 100 * 4 ^ Z.of_nat k.
(** A view of an account serves [items]: a page of one of these sizes is encoded,
    answered, and decoded to the first items. *)
Definition serves {T} (address : jsstring) (encodeInput : Z -> Z -> outcome bytes) (decode : bytes -> outcome (list T)) (items : list T) : Prop :=
  forall k, (k < 5)%nat -> exists data out,
    encodeInput 0 (page_size k) = Returned data /\ answers address (toHex data) out /\ out <> [] /\ out <> js "0x" /\
    decode (fromHex out) = Returned (take (Z.to_nat (page_size k)) items).

(** The calls that are recorded stay as they are. *)
Lemma rpcCall_answered to data out w :
  answers to data out -> exists w', rpcCall (EthCall to data) w = (Returned (JStr out), w') /\ lw_calls w' = lw_calls w.
Proof.
  intros H. unfold rpcCall, rpc_attempts, RPC_MAX_RETRIES, mbind, P_bind, Date_now, lastCallAt, set_lastCallAt, act, sleep.
  destruct (_ <? _); cbn -[Z.sub]; rewrite H; cbn; eexists; split; reflexivity.
Qed.

Lemma ethCall_answered to data out w :
  answers to (toHex data) out -> out <> [] -> out <> js "0x" ->
  exists w', ethCall to data w = (Returned (Some (fromHex out)), w') /\ lw_calls w' = lw_calls w.
Proof.
  intros H Hne Hx. destruct (rpcCall_answered _ _ _ w H) as (w' & Hc & Hw). exists w'. split; [|exact Hw].
  unfold ethCall, mbind, P_bind. rewrite Hc. rewrite !bool_decide_eq_false_2 by assumption. reflexivity.
Qed.

Lemma read_widening_step {T} n size address encodeInput (decode : bytes -> outcome (list T)) :
  read_widening (S n) size address encodeInput decode =
  (calldata ← ofOutcome (encodeInput 0 size);
   raw ← ethCall address calldata;
   match raw with
   | None => mret []
   | Some raw => items ← ofOutcome (decode raw);
                 if Z.of_nat (length items) <? size then mret items else read_widening n (size * 4) address encodeInput decode
   end).
Proof. reflexivity. Qed.

Lemma page_size_pos k : 0 < page_size k.
Proof. unfold page_size. pose proof (Z.pow_pos_nonneg 4 (Z.of_nat k)). lia. Qed.
Lemma page_size_succ k : page_size k * 4 = page_size (S k).
Proof. unfold page_size. rewrite Nat2Z.inj_succ, Z.pow_succ_r by lia. lia. Qed.
Lemma page_size_mono k n : page_size k <= page_size (k + n).
Proof. unfold page_size. pose proof (Z.pow_le_mono_r 4 (Z.of_nat k) (Z.of_nat (k + n))). lia. Qed.

Lemma read_widening_served {T} address encodeInput decode (items : list T) n k w :
  serves address encodeInput decode items -> (k + S n <= 5)%nat ->
  exists w', lw_calls w' = lw_calls w /\
    read_widening (S n) (page_size k) address encodeInput decode w =
    ((if Z.of_nat (length items) <? page_size (k + n) then Returned items
      else Threw (new_Error (js "readAll exceeded 5 widen attempts at pageSize=" ++ toString10 (page_size (k + S n))))), w').
Proof.
  intros Hs. revert k w. induction n as [|n IH]; intros k w Hk;
    destruct (Hs k ltac:(lia)) as (data & out & He & Ha & Hne & Hx & Hd);
    destruct (ethCall_answered _ _ _ w Ha Hne Hx) as (w1 & Hc & Hw1); pose proof (page_size_pos k) as Hp;
    rewrite read_widening_step; unfold mbind, P_bind, ofOutcome; rewrite He, Hc, Hd;
    (destruct (Z.ltb_spec (Z.of_nat (length (take (Z.to_nat (page_size k)) items))) (page_size k)) as [Hl|Hl]; rewrite length_take in Hl).
  - rewrite take_ge by lia. exists w1. split; [exact Hw1|]. rewrite Nat.add_0_r.
    destruct (Z.ltb_spec (Z.of_nat (length items)) (page_size k)); [reflexivity|lia].
  - exists w1. split; [exact Hw1|]. rewrite Nat.add_0_r, Nat.add_1_r, <- page_size_succ.
    destruct (Z.ltb_spec (Z.of_nat (length items)) (page_size k)); [lia|reflexivity].
  - rewrite take_ge by lia. exists w1. split; [exact Hw1|]. pose proof (page_size_mono k (S n)).
    destruct (Z.ltb_spec (Z.of_nat (length items)) (page_size (k + S n))); [reflexivity|lia].
  - rewrite page_size_succ. destruct (IH (S k) w1 ltac:(lia)) as (w2 & Hw2 & Hr). exists w2. split; [congruence|]. rewrite Hr.
    now rewrite !Nat.add_succ_comm.
Qed.

(** C32: A list of the account contract is read whole when it has fewer than 25600
    items, and its reading fails beyond that instead of losing the rest, provided
    that the five pages [readAll] may ask for, of 100 to 25600 items, are served
    without a restart of the calls. *)
Theorem lists_read_whole {T} address encodeInput decode (items : list T) w :
  serves address encodeInput decode items ->
  (readAll address encodeInput decode w).1 =
  if Z.of_nat (length items) <? 25600 then Returned items else Threw (new_Error (js "readAll exceeded 5 widen attempts at pageSize=102400")).
Proof.
  intros Hs. unfold readAll. change 100 with (page_size 0). destruct (read_widening_served _ _ _ _ 4 0 w Hs ltac:(lia)) as (w' & _ & ->). reflexivity.
Qed.

(** *** Usage keys *)

Lemma readAll_served {T} address encodeInput decode (items : list T) w :
  serves address encodeInput decode items -> Z.of_nat (length items) < 25600 ->
  exists w', readAll address encodeInput decode w = (Returned items, w') /\ lw_calls w' = lw_calls w.
Proof.
  intros Hs Hl. unfold readAll. change 100 with (page_size 0). destruct (read_widening_served _ _ _ _ 4 0 w Hs ltac:(lia)) as (w' & Hw & Hr).
  exists w'. split; [|exact Hw]. rewrite Hr. change (page_size (0 + 4)) with 25600. destruct (Z.ltb_spec (Z.of_nat (length items)) 25600); [reflexivity|lia].
Qed.

Definition recorded (data : bytes) (description : jsstring) : EncodedCall := {|
  ec_to := DEFAULT_ACCOUNT_CONFIG_ADDRESS; ec_data := toHex data; ec_value := js "0x0"; ec_description := Some description |}.
(** What a rewritten key may execute and manage. *)
Definition key_permissions (row : RawApiKeyRow) : list bool * list (list Z) :=
  ([ak_createGroups row; ak_deleteGroups row; ak_createPKPs row],
   [ak_manageIPFSIdsInGroups row; ak_addPkpToGroups row; ak_removePkpFromGroups row; ak_executeInGroups row]).
Definition write_permissions (call : ContractWrite) : option (list bool * list (list Z)) :=
  match call with C_setUsageApiKey _ _ _ _ _ _ a b c l m n o => Some ([a; b; c], [l; m; n; o]) | _ => None end.

(** Setting the balance of a usage key in calldata mode records one call, which
    rewrites the first key of that name with the new balance and with the
    permissions it has; a name that no key has is an error and records
    nothing. *)
Theorem balance_keeps_permissions accountApiKey name newBalance rows w :
  name <> [] ->
  serves DEFAULT_ACCOUNT_CONFIG_ADDRESS (fun page size => encodeView _ V_listApiKeys (keccak_text accountApiKey) page size) (decodeOutput _ V_listApiKeys) rows ->
  Z.of_nat (length rows) < 25600 ->
  (forall call, exists data, encodeWrite call = Returned data) ->
  exists w', match List.find (fun row => bool_decide (mr_name (ak_metadata row) = name)) rows with
  | None => setUsageApiKeyBalance None accountApiKey {| ut_name := Some name; ut_usageApiKeyHash := None |} (Some newBalance) false true None w =
            (Threw (new_Error (js "usage API key not found: " ++ name)), w') /\ lw_calls w' = lw_calls w
  | Some row => exists call data,
      setUsageApiKeyBalance None accountApiKey {| ut_name := Some name; ut_usageApiKeyHash := None |} (Some newBalance) false true None w =
      (Returned PLACEHOLDER_HASH, w') /\
      lw_calls w' = lw_calls w ++ [recorded data (js "setUsageApiKey " ++ quoted name ++ js " (balance)")] /\
      encodeWrite call = Returned data /\ write_permissions call = Some (key_permissions row) /\
      call = rewritten_key (keccak_text accountApiKey) row None (Some newBalance)
  end.
Proof.
  intros Hn Hs Hl Henc. destruct name as [|c name]; [congruence|]. clear Hn.
  destruct (readAll_served _ _ _ _ w Hs Hl) as (w1 & Hr & Hw1).
  unfold setUsageApiKeyBalance, readAllApiKeys, mbind, P_bind, ofOutcome. cbn [check_target truthy ut_name ut_usageApiKeyHash check_signer check_balance].
  rewrite Hr. change (matches_target {| ut_name := Some (c :: name); ut_usageApiKeyHash := None |}) with (fun row => bool_decide (mr_name (ak_metadata row) = c :: name)).
  destruct (List.find _ rows) as [row|] eqn:Hf; [|exists w1; split; [reflexivity|exact Hw1]].
  destruct (Henc (rewritten_key (keccak_text accountApiKey) row None (Some newBalance))) as [data Hd].
  eexists. exists (rewritten_key (keccak_text accountApiKey) row None (Some newBalance)), data. rewrite Hd.
  apply find_some in Hf as [_ Hname%bool_decide_eq_true]. rewrite Hname.
  split; [reflexivity|]. split; [cbn; rewrite Hw1; reflexivity|]. split; [reflexivity|]. split; reflexivity.
Qed.
End Answers.

(** *** A contract with 150 usage keys *)

Section Sample.
Definition sample_row (n : Z) (name : string) : RawApiKeyRow := {|
  ak_metadata := {| mr_id := n; mr_name := js name; mr_description := js "a key" |}; ak_apiKeyHash := 100 + n; ak_expiration := 2000000000; ak_balance := 7;
  ak_executeInGroups := [4]; ak_createGroups := false; ak_deleteGroups := false; ak_createPKPs := true; ak_manageIPFSIdsInGroups := [5];
  ak_addPkpToGroups := []; ak_removePkpFromGroups := [] |}.
Definition sample_rows : list RawApiKeyRow :=
  [sample_row 1 "first"; sample_row 2 "second"; sample_row 3 "third"] ++ ((fun n => sample_row n "other") <$> seqZ 4 147).
(** The calldata of a page is its size, as four bytes: other sizes are refused.
    The node echoes the calldata. *)
Definition sample_encode (size : Z) : outcome bytes :=
  if (0 <=? size) && (size <? 2 ^ 32) then Returned [u8 (size / 2 ^ 24); u8 (size / 2 ^ 16); u8 (size / 2 ^ 8); u8 size]
  else Threw (new_Error (js "value out of bounds")).
Definition sample_decode (R : Type) (v : ContractView R) : bytes -> outcome (list R) :=
  match v in ContractView R return bytes -> outcome (list R) with
  | V_listApiKeys => fun b => match b with [_; _; _; _] => Returned (take (Z.to_nat (be_val b)) sample_rows) | _ => Threw (new_Error (js "decode")) end
  | V_listPkps => fun _ => Returned [{| wr_id := 1; wr_pkpId := js "0x01"; wr_name := js "p"; wr_description := js "d" |}]
  | _ => fun _ => Returned []
  end.
Definition sample_lit : LitEnv := {|
  rpc_fetch _ r := match r with
    | EthCall _ data => Returned {| hp_status := 200; hp_retryAfter := None; hp_body := JObj [(js "result", JStr data)] |}
    | _ => Threw (new_Error (js "offline"))
    end;
  date_now t := Z.of_nat t * 1000;
  encodeWrite _ := Returned [u8 1];
  encodeView _ _ _ _ size := sample_encode size;
  decodeOutput := sample_decode;
  fromPrivateKey _ := Returned (js "0x01");
  signBy _ _ := Threw (new_Error (js "no signer"));
  signTyped _ _ := Threw (new_Error (js "no signer"));
  keccak_256 b := word_loop 32 (be_val b) [];
  with_signature _ _ _ _ := Threw (new_Error (js "offline")) |}.
Definition sample_lit_world : LitWorld := {| lw_time := 0; lw_lastCallAt := 0; lw_log := []; lw_calls := []; lw_posts := [] |}.

Lemma sample_serves hash :
  serves (E := sample_lit) DEFAULT_ACCOUNT_CONFIG_ADDRESS (fun page size => encodeView (LitEnv := sample_lit) _ V_listApiKeys hash page size)
    (decodeOutput (LitEnv := sample_lit) _ V_listApiKeys) sample_rows.
Proof.
  intros k Hk. do 5 (destruct k as [|k]; [eexists _, _; split; [vm_compute; reflexivity|];
    split; [intros t; reflexivity|]; split; [discriminate|split; [discriminate|vm_compute; reflexivity]]|]). lia.
Qed.
End Sample.

(** The 150 keys are read, with two calls. *)
Lemma lists_read_witness : length sample_rows = 150%nat /\
  let read := readAll (E := sample_lit) DEFAULT_ACCOUNT_CONFIG_ADDRESS (fun page size => encodeView (LitEnv := sample_lit) _ V_listApiKeys 5 page size)
     (decodeOutput (LitEnv := sample_lit) _ V_listApiKeys) sample_lit_world in
  length (List.filter (fun x => match x with Fetched _ => true | _ => false end) (lw_log read.2)) = 2%nat /\ read.1 = Returned sample_rows.
Proof.
  split; [reflexivity|]. split; [vm_compute; reflexivity|].
  exact (lists_read_whole (E := sample_lit) _ _ _ sample_rows sample_lit_world (sample_serves 5)).
Defined.

(** The second key gets the balance 99. *)
Lemma balance_witness : exists w' call data,
  setUsageApiKeyBalance (E := sample_lit) None (js "k") {| ut_name := Some (js "second"); ut_usageApiKeyHash := None |} (Some 99) false true None sample_lit_world =
  (Returned PLACEHOLDER_HASH, w') /\
  lw_calls w' = lw_calls sample_lit_world ++ [recorded data (js "setUsageApiKey " ++ quoted (js "second") ++ js " (balance)")] /\
  encodeWrite (LitEnv := sample_lit) call = Returned data /\ write_permissions call = Some (key_permissions (sample_row 2 "second")) /\
  call = rewritten_key (keccak_text (E := sample_lit) (js "k")) (sample_row 2 "second") None (Some 99).
Proof.
  exact (balance_keeps_permissions (E := sample_lit) (js "k") (js "second") 99 sample_rows sample_lit_world ltac:(discriminate) (sample_serves _)
           ltac:(vm_compute; reflexivity) (fun _ => ex_intro _ [u8 1] eq_refl)).
Defined.

(** ** The calldata mode *)

Section Calldata.
Context `{E : LitEnv}.

(** What a computation adds to the log satisfies [ok]. *)
Definition logs {A} (ok : LitEffect -> Prop) (c : P LitWorld A) : Prop :=
  forall w, exists new, lw_log (c w).2 = lw_log w ++ new /\ Forall ok new.
Lemma logs_still {A} ok (c : P LitWorld A) : (forall w, lw_log (c w).2 = lw_log w) -> logs ok c.
Proof. intros H w. exists []. rewrite H, app_nil_r. auto. Qed.
Lemma logs_ret {A} ok (a : A) : logs ok (mret a).
Proof. apply logs_still. reflexivity. Qed.
Lemma logs_throw {A} ok e : logs ok (throwP (A := A) e).
Proof. apply logs_still. reflexivity. Qed.
Lemma logs_outcome {A} ok (o : outcome A) : logs ok (ofOutcome o).
Proof. apply logs_still. reflexivity. Qed.
Lemma logs_result {A} ok (r : result A) : logs ok (ofResult r).
Proof. apply logs_still. reflexivity. Qed.
Lemma logs_act {A} (ok : LitEffect -> Prop) x (f : nat -> outcome A) : ok x -> logs ok (act x f).
Proof. intros Hx w. exists [x]. split; [reflexivity|]. auto. Qed.
Lemma logs_bind {A B} ok (c : P LitWorld A) (f : A -> P LitWorld B) : logs ok c -> (forall a, logs ok (f a)) -> logs ok (c ≫= f).
Proof.
  intros Hc Hf w. destruct (Hc w) as (n1 & H1 & F1). unfold mbind, P_bind. destruct (c w) as [[a|e] w1]; cbn in *; [|eauto].
  destruct (Hf a w1) as (n2 & H2 & F2). exists (n1 ++ n2). rewrite H2, H1, app_assoc. auto using Forall_app_2.
Qed.
Lemma logs_try {A} ok (c : P LitWorld A) h : logs ok c -> (forall e, logs ok (h e)) -> logs ok (tryP c h).
Proof.
  intros Hc Hh w. destruct (Hc w) as (n1 & H1 & F1). unfold tryP. destruct (c w) as [[a|e] w1]; cbn in *; [eauto|].
  destruct (Hh e w1) as (n2 & H2 & F2). exists (n1 ++ n2). rewrite H2, H1, app_assoc. auto using Forall_app_2.
Qed.

(** Calls of views, pauses, and the request that computes the CID of an action:
    no transaction, no other request of a node, and no signed request. *)
Definition only_reads (x : LitEffect) : Prop :=
  match x with
  | Fetched (EthCall _ _) | Slept _ => True
  | Requested method path => method = js "POST" /\ path = IPFS_ID_PATH
  | _ => False
  end.
End Calldata.

Create HintDb logs.
#[export] Hint Constants Opaque : logs.
#[export] Hint Resolve logs_ret logs_throw logs_outcome logs_result : logs.
(** Split a computation into its steps. *)
Ltac log_steps :=
  repeat first
    [ match goal with |- forall _, _ => intro end
    | simple apply logs_bind | simple apply logs_try
    | match goal with
      | |- logs _ (match ?x with _ => _ end) => destruct x
      end
    | solve [auto 2 with logs nocore] ].

Section Reads.
Context `{E : LitEnv}.
Abbreviation quiet := (logs only_reads).

Lemma now_quiet : quiet Date_now.
Proof. intros w. exists []. auto. Qed.
Lemma last_quiet : quiet lastCallAt.
Proof. apply logs_still. reflexivity. Qed.
Lemma set_last_quiet t : quiet (set_lastCallAt t).
Proof. apply logs_still. reflexivity. Qed.
Lemma record_quiet to data d : quiet (record to data d).
Proof. apply logs_still. reflexivity. Qed.
Lemma sleep_quiet ms : quiet (sleep ms).
Proof. apply logs_act. exact I. Qed.
Lemma fetch_quiet to data : quiet (act (Fetched (EthCall to data)) (fun t => rpc_fetch t (EthCall to data))).
Proof. apply logs_act. exact I. Qed.
Hint Resolve now_quiet last_quiet set_last_quiet record_quiet sleep_quiet fetch_quiet : logs.

Lemma attempts_quiet n backoff to data : quiet (rpc_attempts n backoff (EthCall to data)).
Proof. revert backoff. induction n as [|n IH]; intros backoff; cbn [rpc_attempts]; log_steps. Qed.
Hint Resolve attempts_quiet : logs.
Lemma ethCall_quiet to data : quiet (ethCall to data).
Proof. unfold ethCall, rpcCall. log_steps. Qed.
Hint Resolve ethCall_quiet : logs.
Lemma widening_quiet {T} n size address encodeInput (decode : bytes -> outcome (list T)) : quiet (read_widening n size address encodeInput decode).
Proof. revert size. induction n as [|n IH]; intros size; cbn [read_widening]; log_steps. Qed.
Hint Resolve widening_quiet : logs.

Context (opts : InternalOptions) (Hcollect : op_collector opts = true).
Lemma view_quiet {R} (v : ContractView R) : quiet (view opts v).
Proof using. apply widening_quiet. Qed.
Lemma send_quiet call d : quiet (send opts call d).
Proof using Hcollect. unfold send, sendTransaction_lit. rewrite Hcollect. log_steps. Qed.
Lemma sign_quiet {A} op (k : jsstring -> P LitWorld A) : quiet (key ← assertCanSign opts op; k key).
Proof using Hcollect. unfold assertCanSign. rewrite Hcollect. apply logs_still. reflexivity. Qed.
Lemma done_quiet call d : quiet (done (send opts call d)).
Proof using Hcollect. apply logs_bind; [apply send_quiet|log_steps]. Qed.
Hint Resolve view_quiet send_quiet sign_quiet done_quiet : logs.

(** Every operation of the backend is quiet. *)
Record quiet_backend (b : SetupBackend LitWorld) : Prop := {
  qb_listPkps : quiet (listPkps b); qb_listGroups : quiet (listGroups b); qb_listActions : quiet (listActions b);
  qb_listUsageApiKeys : quiet (listUsageApiKeys b); qb_listPkpsInGroup g : quiet (listPkpsInGroup b g);
  qb_listActionsInGroup g : quiet (listActionsInGroup b g); qb_createPkp : quiet (createPkp b); qb_addGroup n d h p : quiet (addGroup b n d h p);
  qb_addPkpToGroup g p : quiet (addPkpToGroup b g p); qb_addAction n d c : quiet (addAction b n d c);
  qb_addActionToGroup g c : quiet (addActionToGroup b g c); qb_removeActionFromGroup g h : quiet (removeActionFromGroup b g h);
  qb_removeAction h : quiet (removeAction b h); qb_updateGroup g p : quiet (updateGroup b g p);
  qb_createUsageApiKey n d g : quiet (createUsageApiKey b n d g) }.

Lemma chain_quiet : quiet_backend (chain_backend opts).
Proof using Hcollect.
  split; intros; cbn;
    unfold chain_listPkps, chain_listGroups, chain_listActions, chain_listUsageApiKeys, chain_listPkpsInGroup, chain_listActionsInGroup, chain_addGroup,
      chain_addPkpToGroup, chain_addAction, chain_addActionToGroup, chain_removeActionFromGroup, chain_removeAction, chain_updateGroup, best_effort;
    try apply sign_quiet; log_steps.
  discriminate.
Qed.
End Reads.

(** The CID of a bundled action. *)
Lemma bundled_cid_quiet `{B : ActionBundles} names envName vm : logs only_reads (bundled_cid names envName vm).
Proof.
  unfold bundled_cid, getLitActionIpfsCid. log_steps. apply logs_act. split; reflexivity.
Qed.

Section QuietSetup.
Context {E : LitEnv} (b : SetupBackend LitWorld) (Hb : quiet_backend b) (texts : SetupTexts) (flags : Flags)
  (target_cid : jsstring -> P LitWorld jsstring) (Ht : forall vm, logs only_reads (target_cid vm)) (hash_cid : jsstring -> Z).
Abbreviation quiet := (logs only_reads).
Hint Resolve qb_listPkps qb_listGroups qb_listActions qb_listUsageApiKeys qb_listPkpsInGroup qb_listActionsInGroup qb_createPkp qb_addGroup
  qb_addPkpToGroup qb_addAction qb_addActionToGroup qb_removeActionFromGroup qb_removeAction qb_updateGroup qb_createUsageApiKey : logs.

Lemma target_cids_quiet vms : quiet (target_cids target_cid vms).
Proof using Ht. induction vms; cbn [target_cids]; log_steps. Qed.
Lemma prune_quiet group stale attached : quiet (prune b flags group stale attached).
Proof using Hb. revert attached. induction stale; intros attached; cbn [prune]; log_steps. Qed.
Lemma register_quiet group existing targets attached : quiet (register b texts flags hash_cid group existing targets attached).
Proof using Hb. revert attached. induction targets as [|[vm cid] rest IH]; intros attached; cbn [register]; log_steps. Qed.
Hint Resolve target_cids_quiet prune_quiet register_quiet : logs.
Lemma setup_quiet : quiet (setup b texts flags target_cid hash_cid).
Proof using Hb Ht. unfold setup, resolve_pkp, ensure_member, sync_group, ensure_key. log_steps. Qed.
End QuietSetup.

(** C31: The setup of a chain-secured account in calldata mode broadcasts
    nothing and asks for no signature, whatever the nodes and the REST API answer
    and whichever wallet, texts and bundles it is given: all that leaves the
    process are the calls of the contract's views and, for each bundled action,
    the request that computes its CID. *)
Theorem calldata_only_reads `{E : LitEnv} max_pages `{A : ChipotleApi} `{B : ActionBundles} args pkpName pkpDescription backend texts flags
    names envName hash_cid w :
  buildBackend max_pages pkpName pkpDescription args = Returned backend -> has_flag args "--calldata" = true ->
  exists new, lw_log (setup backend texts flags (bundled_cid names envName) hash_cid w).2 = lw_log w ++ new /\ Forall only_reads new.
Proof.
  intros Hb Hc. apply setup_quiet; [|apply bundled_cid_quiet]. revert Hb. unfold buildBackend. rewrite Hc.
  destruct (negb _); [discriminate|]. destruct (truthy (getOption args "--account-api-key")); [|discriminate].
  destruct (bool_decide _); [discriminate|]. unfold createChainSecuredBackend. cbn [truthy]. intros [= <-]. now apply chain_quiet.
Qed.

Section SampleCalldata.
Definition sample_chipotle : ChipotleApi := {|
  api_list _ _ _ _ _ := Threw (new_Error (js "offline")); api_post _ _ _ := Threw (new_Error (js "offline")) |}.
(** The bundles are in [dist/actions] of the script; the CID of a file is its
    name. *)
Definition sample_bundles : ActionBundles := {|
  read_bundle dir _ filename := match dir with script_dist_actions => FileText filename | _ => FileMissing end;
  ipfs_id _ code := Returned {| hp_status := 200; hp_retryAfter := None; hp_body := JStr code |} |}.
Definition sample_calldata_args : list jsstring := [js "--mode=chain-secured"; js "--account-api-key=k"; js "--calldata"; js "--pkp-id=0x01"].
Definition sample_options : InternalOptions := {|
  op_privateKey := None; op_adminHash := keccak_text (E := sample_lit) (js "k"); op_pkpName := js "p"; op_pkpDescription := js "d";
  op_collector := true; op_adminWallet := [] |}.
Lemma sample_build :
  buildBackend (E := sample_lit) (A := sample_chipotle) (fun _ _ => 5%nat) (js "p") (js "d") sample_calldata_args = Returned (chain_backend (E := sample_lit) sample_options).
Proof. reflexivity. Qed.
End SampleCalldata.

(** The allocator's setup with [--calldata] on the sample node: it computes ten
    CIDs and collects eleven calls, ten actions and a group. *)
Definition calldata_run : P LitWorld (jsstring * option jsstring) :=
  setup (chain_backend (E := sample_lit) sample_options) (allocator_texts (js "dev")) {| fl_dryRun := false; fl_calldata := true; fl_pkpId := Some (js "0x01") |}
    (bundled_cid (B := sample_bundles) allocator_bundles (js "dev")) (hashCidToBigInt (E := sample_lit)).
Lemma calldata_witness :
  (let after := (calldata_run sample_lit_world).2 in
   length (List.filter (fun x => match x with Requested _ _ => true | _ => false end) (lw_log after)) = 10%nat /\ length (lw_calls after) = 11%nat) /\
  exists new, lw_log (calldata_run sample_lit_world).2 = lw_log sample_lit_world ++ new /\ Forall only_reads new.
Proof.
  split; [vm_compute; split; reflexivity|].
  exact (calldata_only_reads (E := sample_lit) (fun _ _ => 5%nat) (A := sample_chipotle) (B := sample_bundles) sample_calldata_args (js "p") (js "d")
           (chain_backend (E := sample_lit) sample_options) (allocator_texts (js "dev"))
           {| fl_dryRun := false; fl_calldata := true; fl_pkpId := Some (js "0x01") |} allocator_bundles (js "dev") (hashCidToBigInt (E := sample_lit)) sample_lit_world
           sample_build ltac:(vm_compute; reflexivity)).
Defined.

(** ** Lists of the REST API *)

Section RestLists.
Context `{E : LitEnv, A : ChipotleApi}.
(** The pages of fifty of [items], as long as the posts are [posts]. *)
Definition pages_of (posts : list ApiPost) (p : ListPath) (items : list (row_of p)) : Prop :=
  forall t page, 0 <= page -> api_list t posts p page PAGE_SIZE = Returned (take 50 (drop (Z.to_nat (50 * page)) items)).
Lemma list_pages_rest p items n page w : pages_of (lw_posts w) p items -> 0 <= page -> Z.of_nat (length items) < 50 * (page + Z.of_nat n) ->
  (exists w', list_pages n p page w = (Returned (drop (Z.to_nat (50 * page)) items), w') /\ lw_posts w' = lw_posts w) \/
  Z.of_nat (length items) < 50 * page.
Proof.
  revert page w. induction n as [|n IH]; intros page w Hp H0 Hl; [right; lia|].
  destruct (Z.ltb_spec (Z.of_nat (length items)) (50 * page)) as [|Hge]; [now right|left].
  cbn [list_pages]. unfold mbind, P_bind, get_page. rewrite Hp by exact H0.
  set (rest := drop (Z.to_nat (50 * page)) items). assert (length rest = (length items - Z.to_nat (50 * page))%nat) as Hr by apply length_drop.
  rewrite length_take. unfold PAGE_SIZE. destruct (Z.ltb_spec (Z.of_nat (50 `min` length rest)) 50) as [Hs|Hs].
  - eexists. split; [rewrite take_ge by lia; reflexivity|reflexivity].
  - set (w1 := ticked _ w). destruct (IH (page + 1) w1 Hp ltac:(lia) ltac:(lia)) as [(w2 & -> & Hw)|Hn]; [|lia].
    exists w2. split; [|exact Hw].
    replace (Z.to_nat (50 * (page + 1))) with (Z.to_nat (50 * page) + 50)%nat by lia.
    rewrite <- drop_drop. fold rest. now rewrite take_drop.
Qed.
(** A list whose pages are served is read whole, when the bound on the pages
    covers it, and nothing is posted. *)
Lemma listAll_whole max_pages p items w : pages_of (lw_posts w) p items -> Z.of_nat (length items) < 50 * Z.of_nat (max_pages (lw_posts w) p) ->
  exists w', listAll max_pages p w = (Returned items, w') /\ lw_posts w' = lw_posts w.
Proof.
  intros Hp Hl. destruct (list_pages_rest p items (max_pages (lw_posts w) p) 0 w Hp ltac:(lia) ltac:(lia)) as [H|H]; [exact H|lia].
Qed.
End RestLists.
