(* ===== verification/LitSetupProofs.v ===== *)
(** * The Lit account setup is idempotent

    What the setup of packages/lit-allocator/scripts/setup.ts and of
    packages/lit-deposit-address/scripts/setup.ts expects of a backend, as an
    interface over an abstract account, and what it achieves through it.  The
    API-key backend implements the interface whenever the REST API keeps such an
    account; a server that does so is the sample. *)

From S2P Require Import SdkProofs Prelude JsNum JsString JsNumber JsJson Scanner HexBytes Abi IndexerTransfers IndexerRoles IndexerLanes IndexerQueries MultisigManifest LitBackend LitSetup LitProofs.
Local Open Scope Z_scope.
Local Open Scope js_scope.

(** ** The account *)

(** Addresses are in lower case; a group is the first of its name; the hash of
    an action leads to its name.  [ac_writes] counts the writes that were asked of
    the account, also those that change nothing. *)
Record Account := {
  ac_wallets : gset jsstring; ac_groups : gmap jsstring Z; ac_members : gmap Z (gset jsstring); ac_attached : gmap Z (gset Z);
  ac_actions : gmap Z (option jsstring); ac_keys : gset jsstring; ac_writes : nat }.
Abbreviation lower := toLowerCase.
Definition members_of (a : Account) (g : Z) : gset jsstring := default ∅ (ac_members a !! g).
Definition attached_of (a : Account) (g : Z) : gset Z := default ∅ (ac_attached a !! g).
Definition with_wallet (p : jsstring) (a : Account) : Account := {|
  ac_wallets := ac_wallets a ∪ {[lower p]}; ac_groups := ac_groups a; ac_members := ac_members a; ac_attached := ac_attached a;
  ac_actions := ac_actions a; ac_keys := ac_keys a; ac_writes := ac_writes a |}.
(** A group with these permissions, new or updated. *)
Definition with_group (name : jsstring) (g : Z) (hashes : list Z) (pkps : list jsstring) (a : Account) : Account := {|
  ac_wallets := ac_wallets a; ac_groups := <[name := g]> (ac_groups a); ac_members := <[g := list_to_set (lower <$> pkps)]> (ac_members a);
  ac_attached := <[g := list_to_set hashes]> (ac_attached a); ac_actions := ac_actions a; ac_keys := ac_keys a; ac_writes := ac_writes a |}.
Definition with_members (g : Z) (m : gset jsstring) (a : Account) : Account := {|
  ac_wallets := ac_wallets a; ac_groups := ac_groups a; ac_members := <[g := m]> (ac_members a); ac_attached := ac_attached a;
  ac_actions := ac_actions a; ac_keys := ac_keys a; ac_writes := ac_writes a |}.
Definition with_attached (g : Z) (hs : gset Z) (a : Account) : Account := {|
  ac_wallets := ac_wallets a; ac_groups := ac_groups a; ac_members := ac_members a; ac_attached := <[g := hs]> (ac_attached a);
  ac_actions := ac_actions a; ac_keys := ac_keys a; ac_writes := ac_writes a |}.
Definition with_actions (m : gmap Z (option jsstring)) (a : Account) : Account := {|
  ac_wallets := ac_wallets a; ac_groups := ac_groups a; ac_members := ac_members a; ac_attached := ac_attached a; ac_actions := m; ac_keys := ac_keys a; ac_writes := ac_writes a |}.
Definition with_key (k : jsstring) (a : Account) : Account := {|
  ac_wallets := ac_wallets a; ac_groups := ac_groups a; ac_members := ac_members a; ac_attached := ac_attached a; ac_actions := ac_actions a;
  ac_keys := ac_keys a ∪ {[k]}; ac_writes := ac_writes a |}.

(** [n] more writes were asked for. *)
Definition counted (n : nat) (a : Account) : Account := {|
  ac_wallets := ac_wallets a; ac_groups := ac_groups a; ac_members := ac_members a; ac_attached := ac_attached a; ac_actions := ac_actions a;
  ac_keys := ac_keys a; ac_writes := ac_writes a + n |}.
(** One write or more led to the account [x]. *)
Definition wrote (x a' : Account) : Prop := exists n, a' = counted (S n) x.
(** A registry key of an action is a uint256. *)
Definition is_uint256 (h : Z) : Prop := 0 <= h < 2 ^ 256.

(** ** The interface *)

(** From any state of the account [a], [c] returns a value and leaves an account
    with [Q]. *)
Definition runs {S A} (abs : S -> Account) (c : P S A) (a : Account) (Q : A -> Account -> Prop) : Prop :=
  forall s, abs s = a -> exists x s', c s = (Returned x, s') /\ Q x (abs s').
(** Reads show the account and ask for no write; a write changes the account as
    it says and is counted, whatever it changes.  Group ids are those of groups
    the account has. *)
Class Serves {S} (abs : S -> Account) (hash_cid : jsstring -> Z) (b : SetupBackend S) : Prop := {
  sv_hash_cid cid : is_uint256 (hash_cid cid);
  sv_listPkps a : runs abs (listPkps b) a (fun l a' => a' = a /\ list_to_set ((fun w => lower (pk_walletAddress w)) <$> l) = ac_wallets a);
  sv_listGroups a : runs abs (listGroups b) a (fun l a' => a' = a /\ forall name, gi_id <$> find_group name l = ac_groups a !! name);
  sv_listActions a : runs abs (listActions b) a (fun l a' => a' = a /\ Forall (fun x => is_uint256 (ai_actionHash x)) l /\
    forall h n, (exists x, x ∈ l /\ ai_actionHash x = h /\ ai_name x = n) <-> ac_actions a !! h = Some n);
  sv_listUsageApiKeys a : runs abs (listUsageApiKeys b) a (fun l a' => a' = a /\ list_to_set l = ac_keys a);
  sv_listPkpsInGroup g a : runs abs (listPkpsInGroup b g) a (fun l a' => a' = a /\
    list_to_set ((fun w => lower (pk_walletAddress w)) <$> l) = members_of a g);
  sv_listActionsInGroup g a : runs abs (listActionsInGroup b g) a (fun l a' => a' = a /\ list_to_set (ai_actionHash <$> l) = attached_of a g);
  sv_createPkp a : runs abs (createPkp b) a (fun p a' => wrote (with_wallet p a) a');
  sv_addGroup name d hs ps a : ac_groups a !! name = None -> Forall is_uint256 hs ->
    runs abs (addGroup b name d hs ps) a (fun g a' => wrote (with_group name g hs ps a) a');
  sv_addPkpToGroup name g p a : ac_groups a !! name = Some g ->
    runs abs (addPkpToGroup b g p) a (fun _ a' => wrote (with_members g (members_of a g ∪ {[lower p]}) a) a');
  sv_addAction n d cid a : runs abs (addAction b n d cid) a (fun _ a' => wrote (with_actions (<[hash_cid cid := Some n]> (ac_actions a)) a) a');
  sv_addActionToGroup name g cid a : ac_groups a !! name = Some g ->
    runs abs (addActionToGroup b g cid) a (fun _ a' => wrote (with_attached g (attached_of a g ∪ {[hash_cid cid]}) a) a');
  sv_removeActionFromGroup name g h a : ac_groups a !! name = Some g -> is_uint256 h ->
    runs abs (removeActionFromGroup b g h) a (fun _ a' => wrote (with_attached g (attached_of a g ∖ {[h]}) a) a');
  sv_removeAction h a : is_uint256 h -> runs abs (removeAction b h) a (fun _ a' => wrote (with_actions (delete h (ac_actions a)) a) a');
  sv_updateGroup g u a : ac_groups a !! ug_name u = Some g -> Forall is_uint256 (ug_cidHashesPermitted u) ->
    runs abs (updateGroup b g u) a (fun _ a' => wrote (with_group (ug_name u) g (ug_cidHashesPermitted u) (ug_pkpIdsPermitted u) a) a');
  sv_createUsageApiKey n d gs a : runs abs (createUsageApiKey b n d gs) a (fun _ a' => wrote (with_key n a) a') }.

Section Runs.
Context {S : Type} (abs : S -> Account).
Lemma runs_ret {A} (x : A) a (Q : A -> Account -> Prop) : Q x a -> runs abs (mret x) a Q.
Proof. intros HQ s <-. eexists _, s. split; [reflexivity|exact HQ]. Qed.
Lemma runs_bind {A B} (c : P S A) (f : A -> P S B) a Q R :
  runs abs c a Q -> (forall x a', Q x a' -> runs abs (f x) a' R) -> runs abs (c ≫= f) a R.
Proof.
  intros Hc Hf s Hs. destruct (Hc s Hs) as (x & s1 & H1 & HQ). destruct (Hf x _ HQ s1 eq_refl) as (y & s2 & H2 & HR).
  exists y, s2. split; [|exact HR]. unfold mbind, P_bind. now rewrite H1.
Qed.
Lemma runs_impl {A} (c : P S A) a (Q R : A -> Account -> Prop) : runs abs c a Q -> (forall x a', Q x a' -> R x a') -> runs abs c a R.
Proof. intros Hc HQ s Hs. destruct (Hc s Hs) as (x & s1 & H1 & H2). eauto. Qed.
End Runs.

(** ** Sets as lists without duplicates *)

Lemma hash_set_from l set : NoDup set -> NoDup (foldl (fun set h => add_hash h set) set l) /\
  (list_to_set (foldl (fun set h => add_hash h set) set l) : gset Z) = list_to_set set ∪ list_to_set l.
Proof.
  revert set. induction l as [|h l IH]; intros set Hs; cbn [foldl].
  - split; [exact Hs|set_solver].
  - unfold add_hash at 2 4. case_bool_decide as Hin.
    + destruct (IH set Hs) as [H1 ->]. split; [exact H1|set_solver].
    + assert (NoDup (set ++ [h])) as Hn.
      { apply NoDup_app. repeat split; [exact Hs| |apply NoDup_singleton]. intros x Hx ->%list_elem_of_singleton. contradiction. }
      destruct (IH _ Hn) as [H1 ->]. split; [exact H1|]. rewrite list_to_set_app_L. set_solver.
Qed.
Lemma hash_set_spec l : NoDup (hash_set l) /\ (list_to_set (hash_set l) : gset Z) = list_to_set l.
Proof. destruct (hash_set_from l [] (NoDup_nil_2)) as [H1 H2]. split; [exact H1|]. unfold hash_set. rewrite H2. set_solver. Qed.
Lemma text_set_from l (x : jsstring) set : x ∈ foldl (fun set y => if bool_decide (y ∈ set) then set else set ++ [y]) set l <-> x ∈ set \/ x ∈ l.
Proof.
  revert set. induction l as [|y l IH]; intros set; cbn [foldl].
  - set_solver.
  - rewrite IH, elem_of_cons. case_bool_decide; [|rewrite elem_of_app, list_elem_of_singleton]; naive_solver.
Qed.
Lemma text_set_spec l x : x ∈ text_set l <-> x ∈ l.
Proof. unfold text_set. rewrite text_set_from. set_solver. Qed.
Lemma list_size (l : list Z) : NoDup l -> length l = size (list_to_set l : gset Z).
Proof. intros H. symmetry. now apply size_list_to_set. Qed.

(** Two lists without duplicates, the second of which is in the first, have the
    same length exactly if they are the same set. *)
Lemma same_hashes (att ts : list Z) : NoDup att -> NoDup ts ->
  Nat.eqb (length att) (length ts) && forallb (fun h => bool_decide (h ∈ att)) ts = true <-> (list_to_set att : gset Z) = list_to_set ts.
Proof.
  intros Ha Ht. rewrite andb_true_iff, Nat.eqb_eq, forallb_forall, (list_size att), (list_size ts) by assumption. split.
  - intros [Hl Hs]. symmetry. apply set_subseteq_size_eq; [|lia]. intros h Hh%elem_of_list_to_set. apply elem_of_list_to_set.
    apply list_elem_of_In, Hs in Hh. now apply bool_decide_eq_true in Hh.
  - intros Heq. split; [now rewrite Heq|]. intros h Hh%list_elem_of_In. apply bool_decide_eq_true.
    rewrite <- (elem_of_list_to_set (C := gset Z)), Heq. now apply elem_of_list_to_set.
Qed.

(** ** Accounts that differ in a part *)

Lemma found_wallet p a l : list_to_set ((fun w => lower (pk_walletAddress w)) <$> l) = ac_wallets a -> lower p ∈ ac_wallets a ->
  exists w, List.find (fun w => bool_decide (lower (pk_walletAddress w) = lower p)) l = Some w /\ lower (pk_walletAddress w) = lower p.
Proof.
  intros Hl Hp. rewrite <- Hl in Hp. apply elem_of_list_to_set, list_elem_of_fmap in Hp as (w & Hw & Hin).
  destruct (List.find _ l) as [w'|] eqn:Hf.
  - exists w'. split; [reflexivity|]. apply find_some in Hf as [_ Hf]. exact (bool_decide_eq_true_1 _ Hf).
  - exfalso. apply list_elem_of_In in Hin. pose proof (find_none _ _ Hf _ Hin) as Hn. apply (bool_decide_eq_false_1 _ Hn). now symmetry.
Qed.
(** What the steps on actions leave as it is. *)
Definition same_base (a a' : Account) : Prop :=
  ac_wallets a' = ac_wallets a /\ ac_groups a' = ac_groups a /\ ac_members a' = ac_members a /\ ac_keys a' = ac_keys a.
Lemma same_base_trans a1 a2 a3 : same_base a1 a2 -> same_base a2 a3 -> same_base a1 a3.
Proof. intros (?&?&?&?) (?&?&?&?). repeat split; congruence. Qed.
Lemma same_base_actions m n a : same_base a (counted n (with_actions m a)).
Proof. repeat split. Qed.
Lemma same_base_attached g h n a : same_base a (counted n (with_attached g h a)).
Proof. repeat split. Qed.
#[export] Hint Resolve same_base_trans same_base_actions same_base_attached : core.
(** The set that the run keeps is the group's. *)
Definition tracks (group : option GroupInfo) (att : list Z) (a : Account) : Prop :=
  forall g, group = Some g -> NoDup att /\ list_to_set att = attached_of a (gi_id g).
(** The group is the account's, under that name. *)
Definition group_of (name : jsstring) (group : option GroupInfo) (a : Account) : Prop := gi_id <$> group = ac_groups a !! name.
Lemma group_known name g a : group_of name (Some g) a -> ac_groups a !! name = Some (gi_id g).
Proof. intros H. symmetry. exact H. Qed.
Lemma group_of_base name group a a' : same_base a a' -> group_of name group a -> group_of name group a'.
Proof. unfold group_of. intros (_ & -> & _) H. exact H. Qed.
#[export] Hint Resolve group_known group_of_base : core.
Lemma attached_of_with g hs n a : attached_of (counted n (with_attached g hs a)) g = hs.
Proof. unfold attached_of, with_attached. cbn. now rewrite lookup_insert_eq. Qed.


(** ** The steps of a run *)

Section Steps.
Context {S : Type} (abs : S -> Account) (hash_cid : jsstring -> Z) (b : SetupBackend S) {B : Serves abs hash_cid b}.
Abbreviation goes := (runs abs).
Context (flags : Flags).
Lemma resolve_given p a : fl_pkpId flags = Some p -> lower p ∈ ac_wallets a ->
  goes (resolve_pkp b flags) a (fun q a' => a' = a /\ lower q = lower p).
Proof using B.
  intros Hp Hw. unfold resolve_pkp. rewrite Hp. eapply runs_bind; [apply sv_listPkps|]. intros l a' [-> Hl].
  destruct (found_wallet p a l Hl Hw) as (w & -> & Heq). now apply runs_ret.
Qed.
Lemma resolve_run a : fl_dryRun flags = false -> (forall p, fl_pkpId flags = Some p -> lower p ∈ ac_wallets a) ->
  goes (resolve_pkp b flags) a (fun q a' => lower q ∈ ac_wallets a').
Proof using B.
  intros Hd Hp. destruct (fl_pkpId flags) as [p|] eqn:Hf.
  - eapply runs_impl; [apply (resolve_given p a Hf); auto|]. intros q a' [-> Hq]. rewrite Hq. auto.
  - unfold resolve_pkp. rewrite Hf, Hd. eapply runs_impl; [apply sv_createPkp|]. intros q a' [n ->]. cbn. clear. set_solver.
Qed.

Lemma member_run name g p a : fl_dryRun flags = false -> group_of name (Some g) a ->
  goes (ensure_member b flags (Some g) p) a (fun r a' =>
    (ac_wallets a' = ac_wallets a /\ ac_groups a' = ac_groups a /\ ac_actions a' = ac_actions a) /\ lower p ∈ members_of a' (gi_id g) /\
    (forall w, w ∈ r.1 -> lower (pk_walletAddress w) ∈ r.2) /\ lower p ∈ r.2).
Proof using B.
  intros Hd Hg. unfold ensure_member. eapply runs_bind; [apply sv_listPkpsInGroup|]. intros l a' [-> Hl]. rewrite Hd, orb_false_r.
  assert (forall w, w ∈ l -> lower (pk_walletAddress w) ∈ (fun w => lower (pk_walletAddress w)) <$> l) as Hin
    by (intros w Hw; apply list_elem_of_fmap; eauto).
  case_bool_decide as Hp.
  - apply runs_ret. split; [auto|]. split; [rewrite <- Hl; now apply elem_of_list_to_set|]. split; [exact Hin|exact Hp].
  - eapply runs_bind; [eapply sv_addPkpToGroup, group_known, Hg|]. intros _ a' [n ->]. apply runs_ret. split; [auto|].
    split; [unfold members_of at 1; cbn; rewrite lookup_insert_eq; cbn; clear; set_solver|]. cbn [fst snd].
    split; [intros w Hw|]; apply elem_of_app; [left; auto|right]. now apply list_elem_of_singleton.
Qed.

(** With or without a group: the wallets, groups, actions and keys stay. *)
Lemma ensure_run name group p a : fl_dryRun flags = false -> group_of name group a ->
  goes (ensure_member b flags group p) a (fun r a' =>
    (ac_wallets a' = ac_wallets a /\ ac_groups a' = ac_groups a /\ ac_actions a' = ac_actions a) /\
    forall g, group = Some g -> lower p ∈ members_of a' (gi_id g) /\
      forall q, q ∈ text_set ((pk_walletAddress <$> r.1) ++ [p]) -> lower q ∈ r.2).
Proof using B.
  intros Hd Hg. destruct group as [g|]; [|apply runs_ret; split; [auto|now intros ? [=]]].
  eapply runs_impl; [now apply (member_run name)|]. intros [ws current] a' (Hs & Hm & Hws & Hp). split; [exact Hs|]. intros g' [= <-]. split.
  - exact Hm.
  - intros q. rewrite text_set_spec, elem_of_app, list_elem_of_singleton, list_elem_of_fmap. cbn in *. intros [(w & -> & Hw) | ->]; auto.
Qed.
Lemma attached_run group a :
  goes (match group with Some g => listActionsInGroup b (gi_id g) | None => mret [] end) a
    (fun l a' => a' = a /\ tracks group (hash_set (ai_actionHash <$> l)) a).
Proof using B.
  destruct group as [g|]; [|apply runs_ret; now split].
  eapply runs_impl; [apply sv_listActionsInGroup|]. intros l a' [-> Hl]. split; [reflexivity|]. intros g' [= <-].
  destruct (hash_set_spec (ai_actionHash <$> l)) as [H1 H2]. split; [exact H1|congruence].
Qed.

Lemma prune_run name group stale att a : fl_dryRun flags = false -> group_of name group a -> Forall (fun x => is_uint256 (ai_actionHash x)) stale ->
  tracks group att a ->
  goes (prune b flags group stale att) a (fun att' a' => same_base a a' /\ tracks group att' a' /\
    forall h, ac_actions a' !! h = if bool_decide (h ∈ ai_actionHash <$> stale) then None else ac_actions a !! h).
Proof using B.
  intros Hd Hg Hu. revert att a Hg. induction Hu as [|x stale Hx Hu IH]; intros att a Hg Ht; cbn [prune].
  - apply runs_ret. split; [repeat split|]. split; [exact Ht|]. intros h. reflexivity.
  - rewrite Hd. set (h0 := ai_actionHash x).
    eapply (runs_bind _ _ _ _ (fun att' a' => same_base a a' /\ tracks group att' a' /\ ac_actions a' = ac_actions a)).
    + destruct group as [g|]; [|apply runs_ret; split; [repeat split|split; [exact Ht|reflexivity]]].
      destruct (Ht g eq_refl) as [Hn Hl]. eapply runs_bind; [eapply sv_removeActionFromGroup; [apply group_known, Hg|exact Hx]|]. intros _ a' [k ->]. apply runs_ret.
      split; [auto|]. split; [|reflexivity]. intros g' [= <-]. rewrite attached_of_with. split.
      * apply base.NoDup_ListNoDup, List.NoDup_filter, base.NoDup_ListNoDup, Hn.
      * rewrite <- Hl. apply set_eq. intros h. rewrite elem_of_difference, !elem_of_list_to_set, elem_of_singleton.
        rewrite !list_elem_of_In, filter_In, negb_true_iff, bool_decide_eq_false. reflexivity.
    + intros att' a1 (Hb1 & Ht1 & Ha1). eapply runs_bind; [apply sv_removeAction; exact Hx|]. intros _ a2 [k ->].
      eapply runs_impl; [apply IH; [eauto|exact Ht1]|]. intros att2 a3 (Hb3 & Ht3 & Ha3). split; [eauto|]. split; [exact Ht3|].
      intros h. rewrite Ha3. cbn [counted with_actions ac_actions]. rewrite Ha1, fmap_cons. fold h0.
      destruct (decide (h = h0)) as [->|Hne].
      * rewrite lookup_delete_eq, (bool_decide_eq_true_2 (h0 ∈ h0 :: _)) by (apply elem_of_cons; now left). now case_bool_decide.
      * rewrite lookup_delete_ne by congruence. rewrite (bool_decide_ext (h ∈ h0 :: _) (h ∈ ai_actionHash <$> stale)); [reflexivity|]. rewrite elem_of_cons. intuition congruence.
Qed.

Context (texts : SetupTexts).
Lemma register_run name group existing l att a : fl_dryRun flags = false -> group_of name group a -> tracks group att a ->
  (forall x, x ∈ existing -> ai_actionHash x ∈ (fun t : jsstring * jsstring => hash_cid t.2) <$> l -> is_Some (ac_actions a !! ai_actionHash x)) ->
  goes (register b texts flags hash_cid group existing l att) a (fun att' a' => same_base a a' /\ tracks group att' a' /\
    (forall h, is_Some (ac_actions a !! h) \/ h ∈ (fun t : jsstring * jsstring => hash_cid t.2) <$> l <-> is_Some (ac_actions a' !! h)) /\
    (forall h n, ac_actions a' !! h = Some n -> ac_actions a !! h = Some n \/ h ∈ (fun t : jsstring * jsstring => hash_cid t.2) <$> l)).
Proof using B.
  intros Hd. revert att a. induction l as [|[vm cid] l IH]; intros att a Hg Ht He; cbn [register].
  - apply runs_ret. split; [repeat split|]. split; [exact Ht|]. split; [|auto]. intros h. rewrite fmap_nil. split; [|auto]. intros [?|?%not_elem_of_nil]; tauto.
  - rewrite Hd, orb_false_r. set (h0 := hash_cid cid).
    eapply (runs_bind _ _ _ _ (fun _ a' => same_base a a' /\ tracks group att a' /\ is_Some (ac_actions a' !! h0) /\
      forall h, h <> h0 -> ac_actions a' !! h = ac_actions a !! h)).
    { destruct (existsb _ existing) eqn:Hx.
      - apply runs_ret. split; [repeat split|]. split; [exact Ht|]. split; [|reflexivity].
        apply existsb_exists in Hx as (x & Hx%list_elem_of_In & Hh). apply bool_decide_eq_true_1 in Hh. fold h0 in Hh. rewrite <- Hh. apply He; [exact Hx|].
        rewrite fmap_cons, Hh. apply elem_of_cons. now left.
      - eapply runs_impl; [apply sv_addAction|]. intros _ a' [k ->]. split; [auto|]. split; [exact Ht|]. cbn. fold h0. rewrite lookup_insert_eq.
        split; [eauto|]. intros h Hh. now rewrite lookup_insert_ne by congruence. }
    intros _ a1 (Hb1 & Ht1 & Hs1 & Ha1).
    eapply (runs_bind _ _ _ _ (fun att' a' => same_base a a' /\ tracks group att' a' /\ ac_actions a' = ac_actions a1)).
    { destruct group as [g|]; [|apply runs_ret; auto]. case_bool_decide as Hin; [apply runs_ret; auto|].
      eapply runs_bind; [eapply sv_addActionToGroup, group_known; eauto|]. intros _ a' [k ->]. apply runs_ret. split; [eauto|]. split; [|reflexivity].
      intros g' [= <-]. destruct (Ht1 g eq_refl) as [Hn Hl]. fold h0. rewrite attached_of_with, list_to_set_app_L, Hl. split; [|clear; set_solver].
      apply NoDup_app. repeat split; [exact Hn| |apply NoDup_singleton]. intros x Hx ->%list_elem_of_singleton. contradiction. }
    intros att2 a2 (Hb2 & Ht2 & Ha2).
    eapply runs_impl; [apply IH; [eauto|exact Ht2|]|].
    + intros x Hx Hin. rewrite Ha2. destruct (decide (ai_actionHash x = h0)) as [->|Hne]; [exact Hs1|].
      rewrite Ha1 by exact Hne. apply He; [exact Hx|]. rewrite fmap_cons. apply elem_of_cons. now right.
    + intros att3 a3 (Hb3 & Ht3 & Hd3 & Hn3). split; [eauto|]. split; [exact Ht3|].
      assert (forall h, h = h0 \/ h <> h0 /\ ac_actions a2 !! h = ac_actions a !! h) as Hh.
      { intros h. rewrite Ha2. destruct (decide (h = h0)); [now left|right; split; auto]. }
      rewrite <- Ha2 in Hs1. split; [intros h|intros h n]; rewrite fmap_cons, elem_of_cons; cbn [snd]; fold h0.
      * rewrite <- Hd3. destruct (Hh h) as [->|[Hne ->]]; tauto.
      * intros Hn%Hn3. destruct (Hh h) as [->|[_ Heq]]; [auto|]. rewrite Heq in Hn. tauto.
Qed.

Context (target_cid : jsstring -> P S jsstring) (bundle : jsstring -> jsstring).
Context (Hbundle : forall vm a, runs abs (target_cid vm) a (fun cid a' => a' = a /\ cid = bundle vm)).
Abbreviation targets := ((fun vm => (vm, bundle vm)) <$> tx_vms texts).
Abbreviation hashes := ((fun t : jsstring * jsstring => hash_cid t.2) <$> targets).
Abbreviation names := (tx_actionName texts <$> tx_vms texts).
Lemma targets_run vms a : goes (target_cids target_cid vms) a (fun l a' => a' = a /\ l = (fun vm => (vm, bundle vm)) <$> vms).
Proof using Hbundle.
  induction vms as [|vm vms IH]; cbn [target_cids].
  - now apply runs_ret.
  - eapply runs_bind; [apply Hbundle|]. intros cid a1 [-> ->]. eapply runs_bind; [apply IH|]. intros l a2 [-> ->]. now apply runs_ret.
Qed.


(** *** The account in sync *)

Abbreviation target_set := (list_to_set hashes : gset Z).
(** The wallet is in the account and in the group, the group's actions are the
    targets, these are registered, no other action has one of their names, and
    the usage key exists. *)
Definition in_sync (p : jsstring) (a : Account) : Prop :=
  lower p ∈ ac_wallets a /\ tx_usageKeyName texts ∈ ac_keys a /\
  (forall h, h ∈ hashes -> is_Some (ac_actions a !! h)) /\
  (forall h n, ac_actions a !! h = Some (Some n) -> n ∈ names -> h ∈ hashes) /\
  exists g, ac_groups a !! tx_groupName texts = Some g /\ lower p ∈ members_of a g /\ attached_of a g = target_set.

Lemma stale_spec existing a x : (forall h n, (exists x, x ∈ existing /\ ai_actionHash x = h /\ ai_name x = n) <-> ac_actions a !! h = Some n) ->
  x ∈ existing -> is_stale texts hashes x = false \/ ai_actionHash x ∈ ai_actionHash <$> List.filter (is_stale texts hashes) existing.
Proof using.
  intros _ Hx. destruct (is_stale texts hashes x) eqn:Hs; [right|now left].
  apply list_elem_of_fmap. exists x. split; [reflexivity|]. now apply list_elem_of_In, filter_In; rewrite <- list_elem_of_In.
Qed.
Lemma not_stale_name h n a : is_stale texts hashes a = false -> ai_actionHash a = h -> ai_name a = Some n -> n ∈ names -> h ∈ hashes.
Proof using.
  unfold is_stale. intros Hs <- Hname Hn. rewrite Hname in Hs. rewrite (bool_decide_eq_true_2 _ Hn) in Hs. cbn in Hs. apply negb_false_iff in Hs. exact (bool_decide_eq_true_1 _ Hs).
Qed.
Lemma targets_kept existing a x :
  (forall h n, (exists x, x ∈ existing /\ ai_actionHash x = h /\ ai_name x = n) <-> ac_actions a !! h = Some n) ->
  x ∈ existing -> ai_actionHash x ∈ hashes ->
  is_Some (if bool_decide (ai_actionHash x ∈ ai_actionHash <$> List.filter (is_stale texts hashes) existing) then None else ac_actions a !! ai_actionHash x).
Proof using.
  intros He Hx Hh. rewrite bool_decide_eq_false_2; [exists (ai_name x); apply He; eauto|].
  intros (y & Hy & Hin)%list_elem_of_fmap. apply list_elem_of_In, filter_In in Hin as [_ Hs]. unfold is_stale in Hs.
  destruct (ai_name y); [|discriminate]. apply andb_true_iff in Hs as [_ Hs]. apply negb_true_iff in Hs. apply (bool_decide_eq_false_1 _ Hs). congruence.
Qed.
(** The registry after the two loops on actions. *)
Lemma registry_synced existing a a1 a2 :
  (forall h n, (exists x, x ∈ existing /\ ai_actionHash x = h /\ ai_name x = n) <-> ac_actions a !! h = Some n) ->
  (forall h, ac_actions a1 !! h = if bool_decide (h ∈ ai_actionHash <$> List.filter (is_stale texts hashes) existing) then None else ac_actions a !! h) ->
  (forall h, is_Some (ac_actions a1 !! h) \/ h ∈ hashes <-> is_Some (ac_actions a2 !! h)) ->
  (forall h n, ac_actions a2 !! h = Some n -> ac_actions a1 !! h = Some n \/ h ∈ hashes) ->
  (forall h, h ∈ hashes -> is_Some (ac_actions a2 !! h)) /\
  (forall h n, ac_actions a2 !! h = Some (Some n) -> n ∈ names -> h ∈ hashes).
Proof using.
  intros He Hp Hr Hn. split; [intros h Hh; apply Hr; now right|].
  intros h n H2 Hname. destruct (Hn h _ H2) as [H1|?]; [|assumption]. rewrite Hp in H1. case_bool_decide as Hs; [discriminate|].
  apply He in H1 as (x & Hx & Hxh & Hxn). destruct (stale_spec existing a x He Hx) as [Hns|Hst]; [|rewrite Hxh in Hst; contradiction].
  eapply not_stale_name; eauto.
Qed.

Lemma key_run g a : fl_dryRun flags = false -> fl_calldata flags = false ->
  goes (ensure_key b texts flags (Some g)) a (fun _ a' => tx_usageKeyName texts ∈ ac_keys a' /\
    ac_wallets a' = ac_wallets a /\ ac_groups a' = ac_groups a /\ ac_members a' = ac_members a /\ ac_attached a' = ac_attached a /\
    ac_actions a' = ac_actions a).
Proof using B.
  intros Hd Hc. unfold ensure_key. eapply runs_bind; [apply sv_listUsageApiKeys|]. intros l a' [-> Hl]. rewrite Hd, Hc, !orb_false_r.
  case_bool_decide as Hin.
  - apply runs_ret. apply (elem_of_list_to_set (C := gset jsstring)) in Hin. rewrite Hl in Hin. auto 10.
  - eapply runs_bind; [apply sv_createUsageApiKey|]. intros k a' [n ->]. apply runs_ret. split; [cbn; clear; set_solver|auto 10].
Qed.

(** The permissions of the group are the targets afterwards. *)
Lemma sync_run group permitted current att a p : fl_dryRun flags = false -> fl_calldata flags = false ->
  group_of (tx_groupName texts) group a -> tracks group att a ->
  (forall g, group = Some g -> lower p ∈ members_of a (gi_id g) /\ forall q, q ∈ permitted -> lower q ∈ current) -> p ∈ permitted ->
  goes (sync_group b texts flags group permitted current att hashes) a (fun id a' => exists g, id = Some g /\
    ac_groups a' !! tx_groupName texts = Some g /\ lower p ∈ members_of a' g /\ attached_of a' g = target_set /\
    ac_wallets a' = ac_wallets a /\ ac_actions a' = ac_actions a).
Proof using B.
  clear Hbundle. intros Hd Hc Hg Ht Hm Hp.
  assert (forall g a', wrote (with_group (tx_groupName texts) g hashes permitted a) a' ->
    ac_groups a' !! tx_groupName texts = Some g /\ lower p ∈ members_of a' g /\ attached_of a' g = target_set /\
    ac_wallets a' = ac_wallets a /\ ac_actions a' = ac_actions a) as Hset.
  { intros g a' [n ->]. unfold members_of, attached_of. cbn. rewrite !lookup_insert_eq. cbn. repeat split. apply elem_of_list_to_set, list_elem_of_fmap. eauto. }
  assert (Forall is_uint256 hashes) as Hu by (apply Forall_fmap, Forall_forall; intros t _; apply (@sv_hash_cid S abs hash_cid b B)).
  unfold sync_group. rewrite Hd, Hc. destruct group as [g|].
  - destruct (Hm g eq_refl) as [Hmem Hcur]. destruct (Ht g eq_refl) as [Hn Hl]. rewrite orb_false_r.
    destruct (permissions_in_sync _ _ _ _) eqn:Hs.
    + apply runs_ret. exists (gi_id g). split; [reflexivity|]. split; [now apply group_known|]. split; [exact Hmem|]. split; [|auto].
      apply andb_true_iff in Hs as [_ Hs]. apply same_hashes in Hs; [|exact Hn|apply hash_set_spec]. rewrite <- Hl, Hs. apply hash_set_spec.
    + eapply runs_bind; [apply sv_updateGroup; [apply group_known; exact Hg|exact Hu]|]. intros [] a' Ha'. apply runs_ret. exists (gi_id g). split; [reflexivity|]. now apply Hset.
  - eapply runs_bind; [apply sv_addGroup; [symmetry; exact Hg|exact Hu]|]. intros g a' Ha'. apply runs_ret. exists g. split; [reflexivity|]. now apply Hset.
Qed.

Lemma stale_in_range (existing : list ActionInfo) : Forall (fun x => is_uint256 (ai_actionHash x)) existing ->
  Forall (fun x => is_uint256 (ai_actionHash x)) (List.filter (is_stale texts hashes) existing).
Proof using.
  rewrite !Forall_forall. intros H x [Hx _]%list_elem_of_In%filter_In. apply H, list_elem_of_In, Hx.
Qed.
Lemma setup_syncs a : fl_dryRun flags = false -> fl_calldata flags = false -> (forall p, fl_pkpId flags = Some p -> lower p ∈ ac_wallets a) ->
  goes (setup b texts flags target_cid hash_cid) a (fun r a' => in_sync r.1 a').
Proof using B Hbundle.
  intros Hd Hc Hp. unfold setup. eapply runs_bind; [now apply resolve_run|]. intros p a0 Hw0.
  eapply runs_bind; [apply sv_listGroups|]. intros groups a1 [-> Hg]. specialize (Hg (tx_groupName texts)).
  set (group := find_group (tx_groupName texts) groups) in *.
  eapply runs_bind; [now apply (ensure_run (tx_groupName texts))|]. intros [ws current] a1 ((Hw1 & Hg1 & Ha1) & Hm). cbn [fst snd] in Hm.
  assert (group_of (tx_groupName texts) group a1) as Hga by (unfold group_of; now rewrite Hg1).
  eapply runs_bind; [apply sv_listActions|]. intros existing a2 (-> & Hu & He).
  eapply runs_bind; [apply attached_run|]. intros inGroup a2 [-> Hatt].
  eapply runs_bind; [apply targets_run|]. intros ts a2 [-> ->].
  eapply runs_bind; [apply (prune_run (tx_groupName texts)); [exact Hd|exact Hga|now apply stale_in_range|exact Hatt]|].
  intros att2 a2 ((Hw2 & Hg2 & Hm2 & Hk2) & Ht2 & Hp2).
  eapply runs_bind; [apply (register_run (tx_groupName texts)); [exact Hd|unfold group_of; now rewrite Hg2|exact Ht2|]|].
  { intros x Hx Hh. rewrite Hp2. now apply (targets_kept existing). }
  intros att3 a3 ((Hw3 & Hg3 & Hm3 & _) & Ht3 & Hr3 & Hn3).
  destruct (registry_synced existing a1 a2 a3 He Hp2 Hr3 Hn3) as [Hreg Hnames].
  eapply runs_bind; [eapply (sync_run group _ _ _ _ p)|].
  - exact Hd.
  - exact Hc.
  - unfold group_of. rewrite Hg3, Hg2. exact Hga.
  - exact Ht3.
  - intros g Hgr. destruct (Hm g Hgr) as [Hmem Hcur]. split; [|exact Hcur]. unfold members_of in *. rewrite Hm3, Hm2. exact Hmem.
  - apply text_set_spec, elem_of_app. right. now apply list_elem_of_singleton.
  - intros id a4 (g & -> & Hg4 & Hm4 & Hat4 & Hw4 & Ha4). eapply runs_bind; [now apply key_run|].
    intros k a5 (Hk5 & Hw5 & Hg5 & Hm5 & Hat5 & Ha5). apply runs_ret.
    unfold in_sync, members_of, attached_of in *. cbn [fst]. rewrite Hw5, Hw4, Hw3, Hw2, Hw1, Ha5, Ha4, Hg5, Hm5, Hat5.
    split; [exact Hw0|]. split; [exact Hk5|]. split; [exact Hreg|]. split; [exact Hnames|]. exists g. auto.
Qed.

(** *** A run on an account in sync *)

Lemma no_stale (existing : list ActionInfo) p a : in_sync p a ->
  (forall h n, (exists x, x ∈ existing /\ ai_actionHash x = h /\ ai_name x = n) <-> ac_actions a !! h = Some n) ->
  List.filter (is_stale texts hashes) existing = [].
Proof using.
  intros (_ & _ & _ & Hn & _) He. destruct (List.filter _ existing) as [|x l] eqn:Hf; [reflexivity|exfalso].
  assert (In x (List.filter (is_stale texts hashes) existing)) as [Hx Hs]%filter_In by (rewrite Hf; now left).
  unfold is_stale in Hs. destruct (ai_name x) as [n|] eqn:Hname; [|discriminate]. apply andb_true_iff in Hs as [Hin Hs].
  apply negb_true_iff in Hs. apply (bool_decide_eq_false_1 _ Hs), (Hn _ n); [|exact (bool_decide_eq_true_1 _ Hin)].
  apply He. exists x. rewrite list_elem_of_In. auto.
Qed.
Lemma register_nothing g (existing : list ActionInfo) l att a :
  (forall t, t ∈ l -> hash_cid t.2 ∈ att /\ exists x, x ∈ existing /\ ai_actionHash x = hash_cid t.2) ->
  goes (register b texts flags hash_cid (Some g) existing l att) a (fun att' a' => a' = a /\ att' = att).
Proof using.
  induction l as [|[vm cid] l IH]; intros Hl; cbn [register]; [now apply runs_ret|].
  destruct (Hl (vm, cid)) as [Hatt (x & Hx & Hh)]; [apply elem_of_cons; now left|]. cbn [snd] in *.
  assert (existsb (fun a => bool_decide (ai_actionHash a = hash_cid cid)) existing = true) as ->.
  { apply existsb_exists. exists x. split; [now apply list_elem_of_In|]. now apply bool_decide_eq_true_2. }
  rewrite (bool_decide_eq_true_2 _ Hatt). cbn [orb]. eapply runs_bind; [now apply (runs_ret _ _ _ (fun _ a' => a' = a))|]. intros [] a' ->.
  eapply runs_bind; [now apply (runs_ret _ _ _ (fun x a' => a' = a /\ x = att))|]. intros att' a' [-> ->].
  apply IH. intros t Ht. apply Hl. apply elem_of_cons. now right.
Qed.
Lemma targets_present p a g (existing : list ActionInfo) att : in_sync p a -> ac_groups a !! tx_groupName texts = Some (gi_id g) -> tracks (Some g) att a ->
  (forall h n, (exists x, x ∈ existing /\ ai_actionHash x = h /\ ai_name x = n) <-> ac_actions a !! h = Some n) ->
  forall t, t ∈ targets -> hash_cid t.2 ∈ att /\ exists x, x ∈ existing /\ ai_actionHash x = hash_cid t.2.
Proof using.
  intros (_ & _ & Hr & _ & g' & Hg' & _ & Hat) Hg Ht He t Hin. rewrite Hg in Hg'. injection Hg' as <-.
  assert (hash_cid t.2 ∈ hashes) as Hh by (apply list_elem_of_fmap; eauto). split.
  - apply (elem_of_list_to_set (C := gset Z)). destruct (Ht g eq_refl) as [_ ->]. rewrite Hat. now apply elem_of_list_to_set.
  - destruct (Hr _ Hh) as [n Hn]. apply He in Hn as (x & Hx & Hxh & _). eauto.
Qed.
Lemma already_synced p a g att permitted current : in_sync p a -> ac_groups a !! tx_groupName texts = Some (gi_id g) -> tracks (Some g) att a ->
  (forall q, q ∈ permitted -> lower q ∈ current) -> permissions_in_sync permitted current att (hash_set hashes) = true.
Proof using.
  intros (_ & _ & _ & _ & g' & Hg' & _ & Hat) Hg Ht Hp. rewrite Hg in Hg'. injection Hg' as <-. destruct (Ht g eq_refl) as [Hn Hl].
  apply andb_true_iff. split.
  - apply forallb_forall. intros q Hq%list_elem_of_In. apply bool_decide_eq_true_2. auto.
  - apply same_hashes; [exact Hn|apply hash_set_spec|]. rewrite Hl, Hat. symmetry. apply hash_set_spec.
Qed.
Lemma member_known g p a : lower p ∈ members_of a (gi_id g) ->
  goes (ensure_member b flags (Some g) p) a (fun r a' => a' = a /\ forall q, q ∈ text_set ((pk_walletAddress <$> r.1) ++ [p]) -> lower q ∈ r.2).
Proof using B.
  clear Hbundle. intros Hp. unfold ensure_member. eapply runs_bind; [apply sv_listPkpsInGroup|]. intros l a' [-> Hl].
  rewrite <- Hl in Hp. apply elem_of_list_to_set in Hp. rewrite (bool_decide_eq_true_2 _ Hp). apply runs_ret. split; [reflexivity|].
  intros q. rewrite text_set_spec, elem_of_app, list_elem_of_singleton, list_elem_of_fmap. cbn [fst snd].
  intros [(w & -> & Hw) | ->]; [|exact Hp]. apply list_elem_of_fmap. eauto.
Qed.

Lemma setup_rests p a : in_sync p a -> fl_pkpId flags = Some p ->
  goes (setup b texts flags target_cid hash_cid) a (fun r a' => a' = a /\ lower r.1 = lower p /\ r.2 = None).
Proof using B Hbundle.
  intros Hs Hf. pose proof Hs as (Hw & Hk & _ & _ & g0 & Hg0 & Hm0 & _). unfold setup.
  eapply runs_bind; [now apply (resolve_given p)|]. intros q a1 [-> Hq].
  eapply runs_bind; [apply sv_listGroups|]. intros groups a1 [-> Hg]. specialize (Hg (tx_groupName texts)). rewrite Hg0 in Hg.
  destruct (find_group (tx_groupName texts) groups) as [g|] eqn:Hfg; [|discriminate]. injection Hg as <-.
  eapply runs_bind; [apply member_known; now rewrite Hq|]. intros [ws current] a1 [-> Hcur]. cbn [fst snd] in Hcur.
  eapply runs_bind; [apply sv_listActions|]. intros existing a2 (-> & _ & He).
  eapply runs_bind; [apply (attached_run (Some g))|]. intros inGroup a2 [-> Hatt].
  eapply runs_bind; [apply targets_run|]. intros ts a2 [-> ->].
  rewrite (no_stale existing p a Hs He). cbn [prune].
  eapply runs_bind; [now apply (runs_ret _ _ _ (fun x a' => a' = a /\ x = hash_set (ai_actionHash <$> inGroup)))|]. intros att a2 [-> ->].
  eapply runs_bind; [apply register_nothing; now apply (targets_present p a g)|]. intros att a2 [-> ->].
  unfold sync_group. rewrite (already_synced p a g _ _ current Hs Hg0 Hatt Hcur). cbn [orb].
  eapply runs_bind; [now apply (runs_ret _ _ _ (fun x a' => a' = a /\ x = Some (gi_id g)))|]. intros id a2 [-> ->].
  unfold ensure_key. eapply (runs_bind _ _ _ _ (fun k a' => a' = a /\ k = None)); [|intros k a2 [-> ->]; now apply runs_ret].
  eapply (runs_bind _ _ _ _ (fun l a' => a' = a /\ list_to_set l = ac_keys a)); [apply sv_listUsageApiKeys|]. intros l a2 [-> Hl].
  rewrite <- Hl in Hk. apply elem_of_list_to_set in Hk. rewrite (bool_decide_eq_true_2 _ Hk). cbn [orb].
  now apply (runs_ret _ _ _ (fun x a' => a' = a /\ x = None)).
Qed.
End Steps.

(** C24: Through a backend that serves an account, the setup brings the account
    in sync with the bundled actions: the wallet is in the account and in the
    group, the group's actions are the bundled ones, these are registered and the
    ones they replace are not, and the usage key exists.  A later run for that
    wallet, dry or not, asks for no write at all, not even for one that would
    change nothing: the account is the same, its count of writes included. *)
Theorem setup_converges {S} (abs : S -> Account) hash_cid (b : SetupBackend S) texts target_cid bundle flags a :
  Serves abs hash_cid b ->
  (forall vm a, runs abs (target_cid vm) a (fun cid a' => a' = a /\ cid = bundle vm)) ->
  fl_dryRun flags = false -> fl_calldata flags = false -> (forall p, fl_pkpId flags = Some p -> lower p ∈ ac_wallets a) ->
  runs abs (setup b texts flags target_cid hash_cid) a (fun r a' =>
    in_sync hash_cid texts bundle r.1 a' /\
    forall flags', fl_pkpId flags' = Some r.1 ->
      runs abs (setup b texts flags' target_cid hash_cid) a' (fun r' a'' => a'' = a' /\ lower r'.1 = lower r.1 /\ r'.2 = None)).
Proof.
  intros B Hb Hd Hc Hp. eapply runs_impl; [now apply setup_syncs with (bundle := bundle)|]. intros r a' Hs. split; [exact Hs|].
  intros flags' Hf. now apply setup_rests with (bundle := bundle).
Qed.

(** ** A dry run *)

Section DryRun.
Context {S : Type} (abs : S -> Account).
(** The account stays, whether the computation returns or throws. *)
Definition still {A} (c : P S A) : Prop := forall s, abs (c s).2 = abs s.
Lemma still_ret {A} (x : A) : still (mret x).
Proof. intros s. reflexivity. Qed.
Lemma still_throw {A} e : still (throwP (A := A) e).
Proof. intros s. reflexivity. Qed.
Lemma still_bind {A B} (c : P S A) (f : A -> P S B) : still c -> (forall x, still (f x)) -> still (c ≫= f).
Proof. intros Hc Hf s. specialize (Hc s). unfold mbind, P_bind. destruct (c s) as [[x|e] s1]; cbn in *; [rewrite Hf|]; exact Hc. Qed.
Lemma still_runs {A} (c : P S A) (Q : A -> Account -> Account -> Prop) :
  (forall a, runs abs c a (fun x a' => a' = a /\ Q x a a')) -> still c.
Proof. intros H s. destruct (H (abs s) s eq_refl) as (x & s' & -> & Ha & _). exact Ha. Qed.
End DryRun.
(** Split a computation into its steps. *)
Ltac still_steps :=
  repeat first
    [ match goal with |- forall _, _ => intro end
    | simple apply still_ret | simple apply still_throw | simple apply still_bind
    | match goal with |- still _ (if ?c then _ else _) => match c with context [_ || true] => rewrite orb_true_r; cbn [orb] end end
    | match goal with |- still _ (match ?x with _ => _ end) => destruct x end
    | solve [auto 2 with still nocore] ].
Create HintDb still.
#[export] Hint Constants Opaque : still.

Section DrySetup.
Context {S : Type} (abs : S -> Account) (hash_cid : jsstring -> Z) (b : SetupBackend S) {B : Serves abs hash_cid b}.
Context (texts : SetupTexts) (flags : Flags) (target_cid : jsstring -> P S jsstring).
Context (Htarget : forall vm, still abs (target_cid vm)) (Hdry : fl_dryRun flags = true).
Lemma listPkps_still : still abs (listPkps b).
Proof using B. eapply still_runs. intros a. eapply runs_impl; [apply sv_listPkps|]. intros l a' [Ha Hl]. exact (conj Ha Hl). Qed.
Lemma listGroups_still : still abs (listGroups b).
Proof using B. eapply still_runs. intros a. eapply runs_impl; [apply sv_listGroups|]. intros l a' [Ha Hl]. exact (conj Ha Hl). Qed.
Lemma listActions_still : still abs (listActions b).
Proof using B. eapply still_runs. intros a. eapply runs_impl; [apply sv_listActions|]. intros l a' [Ha Hl]. exact (conj Ha Hl). Qed.
Lemma listUsageApiKeys_still : still abs (listUsageApiKeys b).
Proof using B. eapply still_runs. intros a. eapply runs_impl; [apply sv_listUsageApiKeys|]. intros l a' [Ha Hl]. exact (conj Ha Hl). Qed.
Lemma listPkpsInGroup_still g : still abs (listPkpsInGroup b g).
Proof using B. eapply still_runs. intros a. eapply runs_impl; [apply sv_listPkpsInGroup|]. intros l a' [Ha Hl]. exact (conj Ha Hl). Qed.
Lemma listActionsInGroup_still g : still abs (listActionsInGroup b g).
Proof using B. eapply still_runs. intros a. eapply runs_impl; [apply sv_listActionsInGroup|]. intros l a' [Ha Hl]. exact (conj Ha Hl). Qed.
Hint Resolve listPkps_still listGroups_still listActions_still listUsageApiKeys_still listPkpsInGroup_still listActionsInGroup_still Htarget : still.
Lemma target_cids_still vms : still abs (target_cids target_cid vms).
Proof using Htarget. induction vms; cbn [target_cids]; still_steps. Qed.
Lemma prune_still group stale att : still abs (prune b flags group stale att).
Proof using Hdry. induction stale; cbn [prune]; rewrite ?Hdry; still_steps; assumption. Qed.
Lemma register_still group existing l att : still abs (register b texts flags hash_cid group existing l att).
Proof using Hdry.
  revert att. induction l as [|[vm cid] l IH]; intros att; cbn [register]; rewrite ?Hdry, ?orb_true_r; [apply still_ret|].
  apply still_bind; [apply still_ret|]. intros _. apply still_bind; [|exact IH]. destruct group; rewrite ?orb_true_r; apply still_ret.
Qed.
Hint Resolve target_cids_still prune_still register_still : still.
Lemma setup_still : still abs (setup b texts flags target_cid hash_cid).
Proof using B Htarget Hdry.
  unfold setup, resolve_pkp, ensure_member, sync_group, ensure_key. rewrite Hdry.
  still_steps.
Qed.
End DrySetup.

(** A dry run asks for no write and leaves the account as it is, whatever the
    account holds, whether it ends or fails. *)
Theorem dry_run_writes_nothing {S} (abs : S -> Account) hash_cid (b : SetupBackend S) texts target_cid flags s :
  Serves abs hash_cid b -> (forall vm, still abs (target_cid vm)) -> fl_dryRun flags = true ->
  abs (setup b texts flags target_cid hash_cid s).2 = abs s.
Proof. intros B Ht Hd. now apply setup_still. Qed.

(** ** The API-key backend *)

(** The account behind the REST API is a function of what was posted to it: the
    lists show it page by page, and a post that the setup makes is answered and
    changes it as documented.  Group ids are numbers that a double holds. *)
Section Rest.
Context `{E : LitEnv, A : ChipotleApi} (max_pages : list ApiPost -> ListPath -> nat).
Context (rest : list ApiPost -> Account) (rows : list ApiPost -> forall p : ListPath, list (row_of p)).
Definition shows (l : list ActionInfo) (m : gmap Z (option jsstring)) : Prop :=
  forall h n, (exists x, x ∈ l /\ ai_actionHash x = h /\ ai_name x = n) <-> m !! h = Some n.
Record rest_serves : Prop := {
  rs_pages posts p : pages_of posts p (rows posts p);
  rs_bound posts p : Z.of_nat (length (rows posts p)) < 50 * Z.of_nat (max_pages posts p);
  rs_count posts : ac_writes (rest posts) = length posts;
  rs_wallets posts : list_to_set ((fun w => lower (rw_wallet_address w)) <$> rows posts list_wallets) = ac_wallets (rest posts);
  rs_members posts g : list_to_set ((fun w => lower (rw_wallet_address w)) <$> rows posts (list_wallets_in_group g)) = members_of (rest posts) g;
  rs_groups posts : exists l, group_list (rows posts list_groups) = Returned l /\ forall name, gi_id <$> find_group name l = ac_groups (rest posts) !! name;
  rs_ids posts name g : ac_groups (rest posts) !! name = Some g -> 0 <= g <= 2 ^ 53;
  rs_actions posts : exists l, action_list (rows posts list_actions) = Returned l /\ Forall (fun x => is_uint256 (ai_actionHash x)) l /\
    shows l (ac_actions (rest posts));
  rs_attached posts g : exists l, action_list (rows posts (list_actions_in_group g)) = Returned l /\
    list_to_set (ai_actionHash <$> l) = attached_of (rest posts) g;
  rs_keys posts : list_to_set (rows posts list_api_keys) = ac_keys (rest posts);
  rs_keccak l : length (keccak_256 l) = 32%nat;
  rs_answers t posts b : exists reply, api_post t posts b = Returned reply;
  rs_create_wallet posts : exists p, lower p ∉ ac_wallets (rest posts) /\ rest (posts ++ [A_create_wallet]) = counted 1 (with_wallet p (rest posts));
  rs_add_group posts name d ps hs : ac_groups (rest posts) !! name = None -> Forall is_uint256 hs ->
    exists g, rest (posts ++ [A_add_group name d ps (hash_text <$> hs)]) = counted 1 (with_group name g hs ps (rest posts));
  rs_add_pkp posts name g p : ac_groups (rest posts) !! name = Some g ->
    rest (posts ++ [A_add_pkp_to_group (JInt g) p]) = counted 1 (with_members g (members_of (rest posts) g ∪ {[lower p]}) (rest posts));
  rs_add_action posts cid n d :
    rest (posts ++ [A_add_action cid n d]) = counted 1 (with_actions (<[hashCidToBigInt cid := Some n]> (ac_actions (rest posts))) (rest posts));
  rs_attach posts name g cid : ac_groups (rest posts) !! name = Some g ->
    rest (posts ++ [A_add_action_to_group (JInt g) cid]) =
    counted 1 (with_attached g (attached_of (rest posts) g ∪ {[hashCidToBigInt cid]}) (rest posts));
  rs_detach posts name g h : ac_groups (rest posts) !! name = Some g -> is_uint256 h ->
    rest (posts ++ [A_remove_action_from_group (JInt g) (hash_text h)]) = counted 1 (with_attached g (attached_of (rest posts) g ∖ {[h]}) (rest posts));
  rs_delete posts h : is_uint256 h ->
    rest (posts ++ [A_delete_action (hash_text h)]) = counted 1 (with_actions (delete h (ac_actions (rest posts))) (rest posts));
  rs_update posts name g d ps hs : ac_groups (rest posts) !! name = Some g -> Forall is_uint256 hs ->
    rest (posts ++ [A_update_group (JInt g) name d ps (hash_text <$> hs)]) = counted 1 (with_group name g hs ps (rest posts));
  rs_add_key posts n d gs : rest (posts ++ [A_add_usage_api_key n d gs]) = counted 1 (with_key n (rest posts)) }.

Context (R : rest_serves).
Definition behind (w : LitWorld) : Account := rest (lw_posts w).
Abbreviation goes := (runs behind).
(** Reads and posts, with what was posted before them. *)
Lemma list_runs p a : goes (listAll max_pages p) a (fun l a' => a' = a /\ exists posts, rest posts = a /\ l = rows posts p).
Proof using R.
  intros w Hw. destruct (listAll_whole max_pages p (rows (lw_posts w) p) w) as (w' & Hl & Hp); [apply R|apply R|].
  exists (rows (lw_posts w) p), w'. split; [exact Hl|]. unfold behind in *. rewrite Hp. split; [exact Hw|]. eauto.
Qed.
Lemma post_runs b a : goes (post b) a (fun _ a' => exists posts, rest posts = a /\ a' = rest (posts ++ [b])).
Proof using R.
  intros w Hw. destruct (rs_answers R (lw_time w) (lw_posts w) b) as [reply Hr]. eexists reply, _. split; [unfold post; rewrite Hr; reflexivity|].
  exists (lw_posts w). split; [exact Hw|reflexivity].
Qed.
Lemma done_runs b a (x : Account) : (forall posts, rest posts = a -> rest (posts ++ [b]) = counted 1 x) -> goes (done (post b)) a (fun _ a' => wrote x a').
Proof using R.
  intros H. unfold done. eapply runs_bind; [apply post_runs|]. intros r a' (posts & Hp & ->). apply runs_ret. exists 0%nat. now apply H.
Qed.
Lemma try_runs {T} (c : P LitWorld T) h a Q : goes c a Q -> goes (tryP c h) a Q.
Proof using. intros H w Hw. destruct (H w Hw) as (x & w' & Hc & HQ). exists x, w'. split; [|exact HQ]. unfold tryP. now rewrite Hc. Qed.
Lemma outcome_runs {T} (o : outcome T) x a (Q : T -> Account -> Prop) : o = Returned x -> Q x a -> goes (ofOutcome o) a Q.
Proof using. intros -> HQ w <-. exists x, w. split; [reflexivity|exact HQ]. Qed.
Lemma group_number name g a posts : rest posts = a -> ac_groups a !! name = Some g -> Number_of_bigint g = JInt g.
Proof using R. intros <- Hg. apply round_double_int. exact (rs_ids R _ _ _ Hg). Qed.

Lemma api_wallets_run a : goes (api_listPkps max_pages) a (fun l a' => a' = a /\ list_to_set ((fun w => lower (pk_walletAddress w)) <$> l) = ac_wallets a).
Proof using R.
  eapply runs_bind; [apply (list_runs list_wallets)|]. intros l a' (-> & posts & <- & ->). apply runs_ret. split; [reflexivity|].
  rewrite <- (rs_wallets R posts), <- list_fmap_compose. reflexivity.
Qed.
Lemma api_groups_run a : goes (api_listGroups max_pages) a (fun l a' => a' = a /\ forall name, gi_id <$> find_group name l = ac_groups a !! name).
Proof using R.
  eapply runs_bind; [apply (list_runs list_groups)|]. intros l a' (-> & posts & <- & ->). destruct (rs_groups R posts) as (l & Hl & Hg).
  now apply (outcome_runs _ l).
Qed.
(** The wallet that was not there before is the new one. *)
Lemma created_wallet (a : Account) p (after : list PkpInfo) (before : list PkpInfo) : lower p ∉ ac_wallets a ->
  list_to_set ((fun w => lower (pk_walletAddress w)) <$> before) = ac_wallets a ->
  list_to_set ((fun w => lower (pk_walletAddress w)) <$> after) = ac_wallets a ∪ {[lower p]} ->
  exists w, List.find (fun w => bool_decide (lower (pk_walletAddress w) ∉ (fun w => lower (pk_walletAddress w)) <$> before)) after = Some w /\
    lower (pk_walletAddress w) = lower p.
Proof using.
  clear. intros Hn Hb Ha.
  assert (forall x, x ∈ (fun w => lower (pk_walletAddress w)) <$> before <-> x ∈ ac_wallets a) as Hin
    by (intros x; rewrite <- Hb; symmetry; apply elem_of_list_to_set).
  destruct (List.find _ after) as [w|] eqn:Hf.
  - exists w. split; [reflexivity|]. apply find_some in Hf as [Hw Hnew]. apply (bool_decide_eq_true_1 _) in Hnew. rewrite Hin in Hnew.
    assert (lower (pk_walletAddress w) ∈ ac_wallets a ∪ {[lower p]}) as Hu.
    { rewrite <- Ha. apply elem_of_list_to_set, list_elem_of_fmap. exists w. split; [reflexivity|now apply list_elem_of_In]. }
    apply elem_of_union in Hu as [Hu|Hu]; [contradiction|]. now apply elem_of_singleton in Hu.
  - exfalso. assert (lower p ∈ (list_to_set ((fun w => lower (pk_walletAddress w)) <$> after) : gset jsstring)) as Hp
      by (rewrite Ha; apply elem_of_union; right; now apply elem_of_singleton).
    apply elem_of_list_to_set, list_elem_of_fmap in Hp as (w & Hw & Hafter). apply list_elem_of_In in Hafter.
    pose proof (find_none _ _ Hf _ Hafter) as Hx. apply (bool_decide_eq_false_1 _) in Hx. apply Hx. rewrite Hin, <- Hw. exact Hn.
Qed.
Lemma api_create_run a : goes (api_createPkp max_pages) a (fun p a' => wrote (with_wallet p a) a').
Proof using R.
  eapply runs_bind; [apply api_wallets_run|]. intros before a' [-> Hb].
  eapply runs_bind; [apply post_runs|]. intros r a1 (posts & <- & ->). destruct (rs_create_wallet R posts) as (p & Hn & ->).
  eapply runs_bind; [apply api_wallets_run|]. intros after a2 [-> Ha]. cbn in Ha.
  destruct (created_wallet (rest posts) p after before Hn Hb Ha) as (w & -> & Hw). apply runs_ret. exists 0%nat. unfold with_wallet. now rewrite Hw.
Qed.
Lemma api_group_run name d hs ps a : ac_groups a !! name = None -> Forall is_uint256 hs ->
  goes (api_addGroup max_pages name d hs ps) a (fun g a' => wrote (with_group name g hs ps a) a').
Proof using R.
  intros Hn Hu. eapply runs_bind; [apply post_runs|]. intros r a1 (posts & <- & ->). destruct (rs_add_group R posts name d ps hs Hn Hu) as (g & ->).
  eapply runs_bind; [apply api_groups_run|]. intros l a2 [-> Hg]. specialize (Hg name). cbn in Hg. rewrite lookup_insert_eq in Hg.
  unfold created_group. destruct (find_group name l) as [g'|]; [|discriminate]. injection Hg as <-.
  apply (outcome_runs _ (gi_id g')); [reflexivity|]. now exists 0%nat.
Qed.
Lemma be_uint256 l : length l = 32%nat -> is_uint256 (be_val l).
Proof using. clear. intros H. pose proof (be_val_bound l) as Hb. rewrite H in Hb. exact Hb. Qed.

(** The API-key backend implements the interface of the setup. *)
Lemma api_backend_serves : Serves behind hashCidToBigInt (api_backend max_pages).
Proof using R.
  split; intros; cbn [api_backend listPkps listGroups listActions listUsageApiKeys listPkpsInGroup listActionsInGroup createPkp addGroup
    addPkpToGroup addAction addActionToGroup removeActionFromGroup removeAction updateGroup createUsageApiKey].
  - unfold hashCidToBigInt, keccak_text. rewrite bytesToBigInt_be. apply be_uint256, R.
  - apply api_wallets_run.
  - apply api_groups_run.
  - eapply runs_bind; [apply (list_runs list_actions)|]. intros l a' (-> & posts & <- & ->). destruct (rs_actions R posts) as (l & Hl & Hu & Hs).
    apply (outcome_runs _ l); [exact Hl|auto].
  - eapply runs_impl; [apply (list_runs list_api_keys)|]. intros l a' (-> & posts & <- & ->). split; [reflexivity|apply R].
  - eapply runs_bind; [apply (list_runs (list_wallets_in_group g))|]. intros l a' (-> & posts & <- & ->). apply runs_ret. split; [reflexivity|].
    rewrite <- (rs_members R posts), <- list_fmap_compose. reflexivity.
  - apply try_runs. eapply runs_bind; [apply (list_runs (list_actions_in_group g))|]. intros l a' (-> & posts & <- & ->). destruct (rs_attached R posts g) as (l & Hl & Hs).
    apply (outcome_runs _ l); [exact Hl|auto].
  - apply api_create_run.
  - now apply api_group_run.
  - apply done_runs. intros posts Hp. rewrite (group_number name g a posts Hp H). subst a. now apply (rs_add_pkp R posts name).
  - apply done_runs. intros posts <-. apply R.
  - apply try_runs, done_runs. intros posts Hp. rewrite (group_number name g a posts Hp H). subst a. now apply (rs_attach R posts name).
  - apply try_runs, done_runs. intros posts Hp. rewrite (group_number name g a posts Hp H). subst a. now apply (rs_detach R posts name).
  - apply try_runs, done_runs. intros posts <-. now apply R.
  - apply done_runs. intros posts Hp. rewrite (group_number (ug_name u) g a posts Hp H). subst a. now apply R.
  - eapply runs_impl; [apply post_runs|]. intros k a' (posts & <- & ->). exists 0%nat. apply R.
Qed.
(** The CIDs of the bundles are computed without a write. *)
Lemma bundled_cid_runs `{B : ActionBundles} names envName vm code cid a : loadBundledActionFile names envName vm = Returned code ->
  (forall t, ipfs_id t code = Returned {| hp_status := 200; hp_retryAfter := None; hp_body := JStr cid |}) ->
  goes (bundled_cid names envName vm) a (fun x a' => a' = a /\ x = List.filter (fun c => negb (c =? 34)) cid).
Proof using.
  intros Hc Hi w Hw. unfold bundled_cid, getLitActionIpfsCid, mbind, P_bind, ofOutcome, act. rewrite Hc, Hi. cbn [negb is_ok hp_status hp_body].
  eexists _, _. split; [reflexivity|]. split; [exact Hw|reflexivity].
Qed.
(** A run for a wallet whose account is in sync posts nothing. *)
Lemma api_setup_posts_nothing texts flags target_cid bundle p w :
  (forall vm a, goes (target_cid vm) a (fun cid a' => a' = a /\ cid = bundle vm)) ->
  in_sync hashCidToBigInt texts bundle p (behind w) -> fl_pkpId flags = Some p ->
  length (lw_posts (setup (api_backend max_pages) texts flags target_cid hashCidToBigInt w).2) = length (lw_posts w).
Proof using R.
  intros Hb Hs Hf.
  destruct (setup_rests behind hashCidToBigInt (api_backend max_pages) (B := api_backend_serves) flags texts target_cid bundle Hb p (behind w) Hs Hf w eq_refl)
    as (r & w' & -> & Ha & _). cbn. rewrite <- !(rs_count R). now f_equal.
Qed.
End Rest.

(** ** A server that keeps the account *)

Section Server.
Context `{E : LitEnv} (Hkeccak : forall l, length (keccak_256 l) = 32%nat) (start : Account).
Definition hash_of (text : jsstring) : option Z :=
  match BigInt text with Ok h => if (0 <=? h) && (h <? 2 ^ 256) then Some h else None | Err _ => None end.
(** A wallet longer than the others is new. *)
Definition new_wallet (a : Account) : jsstring := replicate (S (sum_list_with length (elements (ac_wallets a)))) 48.
Definition next_id (a : Account) : Z := Z.of_nat (S (size (ac_groups a))) mod 2 ^ 53.
Definition server_step (b : ApiPost) (a : Account) : Account :=
  match b with
  | A_create_wallet => with_wallet (new_wallet a) a
  | A_add_group name _ ps texts => with_group name (next_id a) (omap hash_of texts) ps a
  | A_add_pkp_to_group (JInt g) p => with_members g (members_of a g ∪ {[lower p]}) a
  | A_add_action cid n _ => with_actions (<[hashCidToBigInt cid := Some n]> (ac_actions a)) a
  | A_add_action_to_group (JInt g) cid => with_attached g (attached_of a g ∪ {[hashCidToBigInt cid]}) a
  | A_remove_action_from_group (JInt g) text =>
      match hash_of text with Some h => with_attached g (attached_of a g ∖ {[h]}) a | None => a end
  | A_delete_action text => match hash_of text with Some h => with_actions (delete h (ac_actions a)) a | None => a end
  | A_update_group (JInt g) name _ ps texts =>
      if bool_decide (ac_groups a !! name = Some g) then with_group name g (omap hash_of texts) ps a else a
  | A_add_usage_api_key n _ _ => with_key n a
  | _ => a
  end.
Definition server (posts : list ApiPost) : Account := foldl (fun a b => counted 1 (server_step b a)) start posts.
Definition raw_wallet_row (p : jsstring) : RawWalletInfo := {| rw_wallet_address := p; rw_memo := None |}.
Definition raw_group_row (x : jsstring * Z) : RawGroupInfo := {| rg_id := NumberId x.2; rg_name := x.1; rg_description := None |}.
Definition raw_action_row (x : Z * option jsstring) : RawActionInfo := {|
  ra_id := NumberId 0; ra_name := x.2; ra_description := None; ra_ipfs_cid := None; ra_action_ipfs_cid := None; ra_cid := None;
  ra_hashed_cid := Some (hash_text x.1); ra_cid_hash := None; ra_action_ipfs_cid_hash := None |}.
Definition account_rows (a : Account) (p : ListPath) : list (row_of p) :=
  match p return list (row_of p) with
  | list_wallets => raw_wallet_row <$> elements (ac_wallets a)
  | list_wallets_in_group g => raw_wallet_row <$> elements (members_of a g)
  | list_groups => raw_group_row <$> map_to_list (ac_groups a)
  | list_actions => raw_action_row <$> map_to_list (ac_actions a)
  | list_actions_in_group g => (fun h => raw_action_row (h, None)) <$> elements (attached_of a g)
  | list_api_keys => elements (ac_keys a)
  end.
Definition server_rows (posts : list ApiPost) (p : ListPath) : list (row_of p) := account_rows (server posts) p.
Definition server_pages (posts : list ApiPost) (p : ListPath) : nat := S (length (server_rows posts p)).
Definition server_api : ChipotleApi := {|
  api_list _ posts p page size := Returned (take (Z.to_nat size) (drop (Z.to_nat (size * page)) (server_rows posts p)));
  api_post _ _ b := Returned (match b with A_add_usage_api_key _ _ _ => js "secret" | _ => [] end) |}.

(** What every account of the server satisfies. *)
Record server_ok (a : Account) : Prop := {
  so_wallets x : x ∈ ac_wallets a -> lower x = x;
  so_members g x : x ∈ members_of a g -> lower x = x;
  so_ids name g : ac_groups a !! name = Some g -> 0 <= g <= 2 ^ 53;
  so_actions h n : ac_actions a !! h = Some n -> is_uint256 h;
  so_attached g h : h ∈ attached_of a g -> is_uint256 h }.

Lemma hash_of_range text h : hash_of text = Some h -> is_uint256 h.
Proof using. clear. unfold hash_of. destruct (BigInt text); [|discriminate]. destruct (_ && _) eqn:E0; [|discriminate]. intros [= <-]. unfold is_uint256. lia. Qed.
Lemma BigInt_hash_text h : is_uint256 h -> BigInt (hash_text h) = Ok h.
Proof using.
  clear. intros Hh. set (l := word_loop 32 h []). assert (length l = 32%nat) as Hl by apply length_word_loop.
  assert (be_val l = h) as Hv by (unfold l; rewrite be_val_word_loop; apply Z.mod_small; exact Hh).
  assert (l <> []) as Hne by (intros Hn; rewrite Hn in Hl; discriminate).
  assert (hash_text h = js "0x" ++ HexBytes.bytesToHex l) as ->.
  { unfold hash_text, number_hex. unfold is_uint256 in Hh. destruct (Z.ltb_spec h 0); [lia|]. rewrite <- Hv at 1. f_equal.
    replace 64%nat with (2 * length l)%nat by (rewrite Hl; reflexivity). now apply pad_hex. }
  rewrite BigInt_hex0x by exact Hne. now rewrite Hv.
Qed.
Lemma hash_of_text h : is_uint256 h -> hash_of (hash_text h) = Some h.
Proof using.
  clear. intros Hh. unfold hash_of. rewrite BigInt_hash_text by exact Hh. unfold is_uint256 in Hh.
  destruct (Z.leb_spec 0 h), (Z.ltb_spec h (2 ^ 256)); try lia. reflexivity.
Qed.
Lemma hashes_of_texts hs : Forall is_uint256 hs -> omap hash_of (hash_text <$> hs) = hs.
Proof using. clear. induction 1 as [|h hs Hh _ IH]; [reflexivity|]. rewrite fmap_cons. cbn -[hash_of hash_text]. rewrite hash_of_text by exact Hh. exact (f_equal (cons h) IH). Qed.
Lemma cid_range cid : is_uint256 (hashCidToBigInt cid).
Proof using Hkeccak. unfold hashCidToBigInt, keccak_text. rewrite bytesToBigInt_be. apply be_uint256, Hkeccak. Qed.

(** *** The steps keep it *)

Lemma lookup_default {T} `{Countable T} (m : gmap Z (gset T)) g k (X : gset T) x :
  x ∈ default ∅ (<[g := X]> m !! k) -> x ∈ X \/ x ∈ default ∅ (m !! k).
Proof using. rewrite lookup_insert. case_decide; cbn; auto. Qed.
Lemma ok_counted n a : server_ok a -> server_ok (counted n a).
Proof using. intros [? ? ? ? ?]. now split. Qed.
Lemma ok_key k a : server_ok a -> server_ok (with_key k a).
Proof using. intros [? ? ? ? ?]. now split. Qed.
Lemma ok_members g X a : (forall x, x ∈ X -> lower x = x) -> server_ok a -> server_ok (with_members g X a).
Proof using. intros HX [? Hm ? ? ?]. split; try assumption. intros k x [Hx|Hx]%lookup_default; [auto|exact (Hm _ _ Hx)]. Qed.
Lemma ok_attached g X a : (forall h, h ∈ X -> is_uint256 h) -> server_ok a -> server_ok (with_attached g X a).
Proof using. intros HX [? ? ? ? Ha]. split; try assumption. intros k x [Hx|Hx]%lookup_default; [auto|exact (Ha _ _ Hx)]. Qed.
Lemma ok_actions m a : (forall h n, m !! h = Some n -> is_uint256 h) -> server_ok a -> server_ok (with_actions m a).
Proof using. intros Hm [? ? ? ? ?]. now split. Qed.
Lemma lower_listed ps x : x ∈ (list_to_set (lower <$> ps) : gset jsstring) -> lower x = x.
Proof using. intros (p & -> & _)%elem_of_list_to_set%list_elem_of_fmap. apply toLowerCase_idem. Qed.
Lemma ok_group name g hs ps a : 0 <= g <= 2 ^ 53 -> Forall is_uint256 hs -> server_ok a -> server_ok (with_group name g hs ps a).
Proof using.
  intros Hg Hu [? Hm Hi ? Ha]. split; try assumption.
  - intros k x [Hx|Hx]%lookup_default; [exact (lower_listed _ _ Hx)|exact (Hm _ _ Hx)].
  - intros n k. cbn. rewrite lookup_insert. case_decide; [now intros [= <-]|apply Hi].
  - intros k h [Hx|Hx]%lookup_default; [|exact (Ha _ _ Hx)]. rewrite Forall_forall in Hu. apply elem_of_list_to_set in Hx. auto.
Qed.
Lemma ok_wallet p a : lower p = p -> server_ok a -> server_ok (with_wallet p a).
Proof using. intros Hp [Hw ? ? ? ?]. split; try assumption. intros x. cbn. rewrite elem_of_union, elem_of_singleton. intros [Hx | ->]; [auto|]. now rewrite !Hp. Qed.
Lemma new_wallet_lower a : lower (new_wallet a) = new_wallet a.
Proof using. apply toLowerCase_id, Forall_replicate. reflexivity. Qed.
Lemma texts_range texts : Forall is_uint256 (omap hash_of texts).
Proof using. apply Forall_forall. intros h (t & _ & Ht)%list_elem_of_omap. exact (hash_of_range _ _ Ht). Qed.
Lemma server_step_ok b a : server_ok a -> server_ok (server_step b a).
Proof using Hkeccak.
  intros H. destruct b as [|name d ps ts|[| |g|] p|cid n d|[| |g|] cid|[| |g|] t|t|[| |g|] name d ps ts|n d gs]; cbn [server_step]; try exact H.
  - apply ok_wallet; [apply new_wallet_lower|exact H].
  - apply ok_group; [|apply texts_range|exact H]. unfold next_id. pose proof (Z.mod_pos_bound (Z.of_nat (S (size (ac_groups a)))) (2 ^ 53)). lia.
  - apply ok_members; [|exact H]. intros x [Hx | ->%elem_of_singleton]%elem_of_union; [exact (so_members _ H _ _ Hx)|apply toLowerCase_idem].
  - apply ok_actions; [|exact H]. intros h m. rewrite lookup_insert. case_decide; [subst h; intros _; apply cid_range|apply (so_actions _ H)].
  - apply ok_attached; [|exact H]. intros h [Hx | ->%elem_of_singleton]%elem_of_union; [exact (so_attached _ H _ _ Hx)|apply cid_range].
  - destruct (hash_of t); [|exact H]. apply ok_attached; [|exact H]. intros h [Hx _]%elem_of_difference. exact (so_attached _ H _ _ Hx).
  - destruct (hash_of t); [|exact H]. apply ok_actions; [|exact H]. intros h m [_ Hx]%lookup_delete_Some. exact (so_actions _ H _ _ Hx).
  - case_bool_decide as Hg; [|exact H]. apply ok_group; [exact (so_ids _ H _ _ Hg)|apply texts_range|exact H].
  - now apply ok_key.
Qed.
Context (Hstart : server_ok start) (Hzero : ac_writes start = 0%nat).
Lemma server_snoc posts b : server (posts ++ [b]) = counted 1 (server_step b (server posts)).
Proof using. unfold server. now rewrite foldl_app. Qed.
Lemma server_always posts : server_ok (server posts).
Proof using Hkeccak Hstart.
  induction posts as [|b posts IH] using rev_ind; [exact Hstart|]. rewrite server_snoc. now apply ok_counted, server_step_ok.
Qed.
Lemma server_step_writes b a : ac_writes (server_step b a) = ac_writes a.
Proof using. destruct b as [|name d ps ts|[| |g|] p|cid n d|[| |g|] cid|[| |g|] t|t|[| |g|] name d ps ts|n d gs]; cbn; try reflexivity; now repeat case_match. Qed.

(** *** What the rows show *)

Lemma wallets_listed (X : gset jsstring) : (forall x, x ∈ X -> lower x = x) ->
  (list_to_set ((fun w => lower (rw_wallet_address w)) <$> (raw_wallet_row <$> elements X)) : gset jsstring) = X.
Proof using.
  intros HX. rewrite <- list_fmap_compose. apply set_eq. intros x. rewrite elem_of_list_to_set, list_elem_of_fmap. split.
  - intros (y & -> & Hy%elem_of_elements). cbn. now rewrite HX.
  - intros Hx. exists x. split; [cbn; symmetry; auto|now apply elem_of_elements].
Qed.
Definition group_info (x : jsstring * Z) : GroupInfo := {| gi_id := x.2; gi_name := x.1; gi_description := None |}.
Lemma group_list_rows l : group_list (raw_group_row <$> l) = Returned (group_info <$> l).
Proof using. induction l as [|x l IH]; [reflexivity|]. cbn. now rewrite IH. Qed.
Lemma groups_listed (m : gmap jsstring Z) name : gi_id <$> find_group name (group_info <$> map_to_list m) = m !! name.
Proof using.
  unfold find_group. destruct (List.find _ _) as [g|] eqn:Hf; cbn.
  - apply find_some in Hf as [Hin Hn]. apply bool_decide_eq_true_1 in Hn. apply list_elem_of_In, list_elem_of_fmap in Hin as ([n id] & -> & Hin).
    cbn in *. subst n. symmetry. now apply elem_of_map_to_list.
  - destruct (m !! name) as [id|] eqn:Hm; [|reflexivity]. apply elem_of_map_to_list in Hm. exfalso.
    assert (In (group_info (name, id)) (group_info <$> map_to_list m)) as Hin by (apply list_elem_of_In, list_elem_of_fmap; now exists (name, id)).
    pose proof (find_none _ _ Hf _ Hin) as Hb. now apply bool_decide_eq_false_1 in Hb.
Qed.
Definition action_info (x : Z * option jsstring) : ActionInfo := {| ai_actionHash := x.1; ai_cid := None; ai_name := x.2; ai_description := None |}.
Lemma action_list_rows l : Forall (fun x => is_uint256 x.1) l -> action_list (raw_action_row <$> l) = Returned (action_info <$> l).
Proof using.
  induction 1 as [|x l Hx _ IH]; [reflexivity|]. rewrite fmap_cons. cbn [action_list]. rewrite IH.
  assert (hashedCidOfRaw (raw_action_row x) = Returned (Some x.1)) as ->; [|reflexivity].
  change (hashedCidOfRaw (raw_action_row x)) with (bigint_of (hash_text x.1)). unfold bigint_of. now rewrite BigInt_hash_text.
Qed.
Lemma actions_listed (m : gmap Z (option jsstring)) : shows (action_info <$> map_to_list m) m.
Proof using.
  intros h n. rewrite <- elem_of_map_to_list. split.
  - intros (x & ([h' n'] & -> & Hin)%list_elem_of_fmap & <- & <-). exact Hin.
  - intros Hin. eexists. split; [apply list_elem_of_fmap; now exists (h, n)|]. auto.
Qed.
Lemma new_wallet_new a : lower (new_wallet a) ∉ ac_wallets a.
Proof using.
  clear Hzero. rewrite new_wallet_lower. intros Hin%elem_of_elements.
  assert (forall (l : list jsstring) x, x ∈ l -> (length x <= sum_list_with length l)%nat) as Hle.
  { clear. intros l. induction l as [|y l IH]; intros x Hx; [now apply not_elem_of_nil in Hx|]. cbn.
    apply elem_of_cons in Hx as [->|Hx]; [lia|]. apply IH in Hx. lia. }
  apply Hle in Hin. unfold new_wallet in Hin. rewrite length_replicate in Hin. lia.
Qed.

Lemma actions_of_server posts : exists l, action_list (server_rows posts list_actions) = Returned l /\ Forall (fun x => is_uint256 (ai_actionHash x)) l /\
  shows l (ac_actions (server posts)).
Proof using Hkeccak Hstart.
  assert (Forall (fun x => is_uint256 x.1) (map_to_list (ac_actions (server posts)))) as Hu.
  { apply Forall_forall. intros [h n] Hin%elem_of_map_to_list. exact (so_actions _ (server_always posts) _ _ Hin). }
  exists (action_info <$> map_to_list (ac_actions (server posts))). split; [now apply action_list_rows|]. split; [|apply actions_listed].
  apply Forall_fmap. exact Hu.
Qed.
Lemma attached_of_server posts g : exists l, action_list (server_rows posts (list_actions_in_group g)) = Returned l /\
  list_to_set (ai_actionHash <$> l) = attached_of (server posts) g.
Proof using Hkeccak Hstart.
  assert (Forall (fun x : Z * option jsstring => is_uint256 x.1) ((fun h => (h, None)) <$> elements (attached_of (server posts) g))) as Hu.
  { apply Forall_fmap, Forall_forall. intros h Hin%elem_of_elements. exact (so_attached _ (server_always posts) _ _ Hin). }
  eexists. split; [unfold server_rows; cbn [account_rows]; rewrite (list_fmap_compose (fun h => (h, None)) raw_action_row); now apply action_list_rows|].
  rewrite <- !list_fmap_compose. etransitivity; [|apply list_to_set_elements_L]. f_equal. apply list_fmap_id.
Qed.
(** The server keeps the account it is thought to keep. *)
Lemma server_serves : rest_serves (A := server_api) server_pages server server_rows.
Proof using Hkeccak Hstart Hzero.
  split; intros; rewrite ?server_snoc; cbn [server_step].
  - intros t page Hpage. reflexivity.
  - unfold server_pages. lia.
  - induction posts as [|b posts IH] using rev_ind; [exact Hzero|]. rewrite server_snoc, length_app. cbn. rewrite server_step_writes. lia.
  - apply wallets_listed, server_always.
  - apply wallets_listed. intros x. apply server_always.
  - eexists. split; [apply group_list_rows|]. apply groups_listed.
  - by eapply so_ids; [apply server_always|].
  - apply actions_of_server.
  - apply attached_of_server.
  - apply list_to_set_elements_L.
  - apply Hkeccak.
  - eexists. reflexivity.
  - exists (new_wallet (server posts)). split; [apply new_wallet_new|reflexivity].
  - eexists. now rewrite hashes_of_texts.
  - reflexivity.
  - reflexivity.
  - reflexivity.
  - now rewrite hash_of_text.
  - now rewrite hash_of_text.
  - rewrite bool_decide_eq_true_2 by assumption. now rewrite hashes_of_texts.
  - reflexivity.
Qed.
End Server.

(** *** A sample account *)

Section SampleAccount.
(** A group with an outdated Tron action and the action of another branch. *)
Definition sample_account : Account := {|
  ac_wallets := {[js "0xab"]}; ac_groups := {[js "allocator-dev" := 1]}; ac_members := ∅; ac_attached := {[1 := {[77; 88]}]};
  ac_actions := {[77 := Some (js "allocator-dev-action-tron-vm"); 88 := Some (js "allocator-dev-action-new-vm")]}; ac_keys := ∅; ac_writes := 0 |}.
Definition sample_flags (dryRun : bool) : Flags := {| fl_dryRun := dryRun; fl_calldata := false; fl_pkpId := Some (js "0xaB") |}.
Definition sample_texts : SetupTexts := allocator_texts (js "dev").
(** The API-key backend over the server that starts with this account. *)
Definition sample_backend : SetupBackend LitWorld :=
  api_backend (E := sample_lit) (A := server_api (E := sample_lit) sample_account) (server_pages (E := sample_lit) sample_account).
Definition sample_cid (vm : jsstring) : P LitWorld jsstring := bundled_cid (B := sample_bundles) allocator_bundles (js "dev") vm.
Definition sample_bundle (vm : jsstring) : jsstring := List.filter (fun c => negb (c =? 34)) (actionBasenameForVm vm ++ js ".js").
Definition sample_setup (dryRun : bool) : P LitWorld (jsstring * option jsstring) :=
  setup sample_backend sample_texts (sample_flags dryRun) sample_cid (hashCidToBigInt (E := sample_lit)).
Definition sample_behind : LitWorld -> Account := behind (server (E := sample_lit) sample_account).
Lemma sample_keccak l : length (keccak_256 (LitEnv := sample_lit) l) = 32%nat.
Proof. apply length_word_loop. Qed.
Lemma sample_ok : server_ok sample_account.
Proof.
  split; cbn.
  - intros x ->%elem_of_singleton. reflexivity.
  - intros g x. unfold members_of. cbn. rewrite lookup_empty. cbn. set_solver.
  - intros name g [_ <-]%lookup_singleton_Some. lia.
  - intros h n [[<- _]|[_ [<- _]%lookup_singleton_Some]]%lookup_insert_Some; unfold is_uint256; lia.
  - intros g h. unfold attached_of. cbn. destruct ({[1 := {[77; 88]}]} !! g : option (gset Z)) as [X|] eqn:Hx; cbn; [|set_solver].
    apply lookup_singleton_Some in Hx as [_ <-]. rewrite elem_of_union, !elem_of_singleton. intros [-> | ->]; unfold is_uint256; lia.
Qed.
Lemma sample_serves_account : Serves sample_behind (hashCidToBigInt (E := sample_lit)) sample_backend.
Proof. apply (api_backend_serves _ _ (server_rows (E := sample_lit) sample_account)), server_serves; [apply sample_keccak|apply sample_ok|reflexivity]. Qed.
Lemma sample_bundled vm a : runs sample_behind (sample_cid vm) a (fun cid a' => a' = a /\ cid = sample_bundle vm).
Proof. apply (bundled_cid_runs _ _ _ vm (actionBasenameForVm vm ++ js ".js") (actionBasenameForVm vm ++ js ".js")); reflexivity. Qed.
Lemma sample_wallet p : fl_pkpId (sample_flags false) = Some p -> lower p ∈ ac_wallets (sample_behind sample_lit_world).
Proof. intros [= <-]. apply (bool_decide_eq_true_1 _). vm_compute. reflexivity. Qed.
End SampleAccount.

(** The sample account gets in sync through the API-key backend, and stays so. *)
Lemma setup_converges_witness :
  runs sample_behind (sample_setup false) (sample_behind sample_lit_world) (fun r a' =>
    in_sync (hashCidToBigInt (E := sample_lit)) sample_texts sample_bundle r.1 a' /\
    forall flags', fl_pkpId flags' = Some r.1 ->
      runs sample_behind (setup sample_backend sample_texts flags' sample_cid (hashCidToBigInt (E := sample_lit))) a'
        (fun r' a'' => a'' = a' /\ lower r'.1 = lower r.1 /\ r'.2 = None)).
Proof.
  exact (setup_converges sample_behind (hashCidToBigInt (E := sample_lit)) sample_backend sample_texts sample_cid sample_bundle (sample_flags false)
           (sample_behind sample_lit_world) sample_serves_account sample_bundled eq_refl eq_refl sample_wallet).
Defined.

(** And a dry run leaves it. *)
Lemma dry_run_witness : sample_behind (sample_setup true sample_lit_world).2 = sample_behind sample_lit_world.
Proof.
  exact (dry_run_writes_nothing sample_behind (hashCidToBigInt (E := sample_lit)) sample_backend sample_texts sample_cid (sample_flags true) sample_lit_world
           sample_serves_account (fun vm w => eq_refl) eq_refl).
Defined.

(** An action of another branch keeps its registration, since its name is not
    one the setup manages, but the setup takes it out of the group. *)
Theorem foreign_action_detached :
  let after := sample_behind (sample_setup false sample_lit_world).2 in
  is_stale sample_texts [] {| ai_actionHash := 88; ai_cid := None; ai_name := Some (js "allocator-dev-action-new-vm"); ai_description := None |} = false /\
  ac_actions after !! 88 = ac_actions sample_account !! 88 /\
  88 ∈ attached_of sample_account 1 /\ 88 ∉ attached_of after 1 /\ ac_writes after = 25%nat.
Proof.
  split; [vm_compute; reflexivity|]. split; [vm_compute; reflexivity|].
  split; [apply (bool_decide_eq_true_1 _); vm_compute; reflexivity|]. split; [apply (bool_decide_eq_false_1 _); vm_compute; reflexivity|].
  vm_compute. reflexivity.
Qed.
